(* ===== verification/_CoqProject ===== *)
-Q . S2P
Prelude.v
StringHash.v
LevelHash.v
LevelHashInv.v
LevelHashResize.v
LevelHashSpec.v
LevelHashProps.v
Sha256.v
Pack.v
HexDump.v
Doca.v
Ownership.v
Common.v
CommonProps.v
CUtils.v
ComchUtils.v
ComchProps.v
DmaCopy.v
DmaOwn.v
DmaProps.v
Dma3.v
Dma3Pipeline.v
Dma3Files.v
Dma3Props.v
Dma2.v
Dma2Props.v
OctBase.v
OctBitmap.v
OctTable.v
OctHashTable.v
OctHashProps.v
OctLock.v
OctTx.v
OctStorage.v
OctExtent.v
OctFileSystem.v
OctFileData.v
OctMessages.v
OctDirectory.v
OctFsRep.v
OctBlocks.v
OctNamespace.v
OctFsOps.v
OctDataOps.v
OctFsSpec.v
OctFsProps.v
KvBucket.v
KvReplacer.v
KvState.v
KvDma.v
KvHost.v
KvDpu.v
KvAsync.v
KvCoherence.v
KvFetch.v
KvRequests.v
KvMove.v
KvStore.v
KvExpand.v
KvRun.v
KvProps.v
KvRpc.v
KvRpcProps.v
DbtxMem.v
Dbtx.v
DbtxInv.v
DbtxOps.v
DbtxProps.v
DbtxSolo.v
ClusterHash.v
ClusterHashInv.v
ClusterHashProps.v
Varint.v
BTree.v
BTreeInv.v
BTreeInsert.v
BTreeOps.v
BTreeProps.v
