(* ===== verification/Prelude.v ===== *)
(** * Verification of the programs of librdpma

    librdpma collects the programs of a study of persistent memory, RDMA and
    NVIDIA BlueField DPUs. This development models its C programs, the core of
    its file system, its DPU key-value store, and the transactions and the
    stores of its database, and proves them correct, or states precisely where
    they are not.

    ** The programs and the files that model them

    - The level hash table, src/levelkv/src/levelhashing/: a two-level hash
      table that grows and shrinks by one level. level_hashing.c is LevelHash.v
      (the table is a record; [level_insert], [level_delete], [level_expand],
      ... are functions on it), hash.c, its string hash, is StringHash.v.
      LevelHashInv.v holds the invariant, and searches, deletion and update,
      LevelHashResize.v insertion and resizing, LevelHashSpec.v the abstract map, LevelHashProps.v the theorems.
    - The DPU key-value store, src/levelkv/src/{common,dpu,host}/: the buckets
      of a level hash table are in the memory of a host, and a DPU caches them
      and serves requests. type.hpp and the buckets of level_hashing.hpp are
      KvBucket.v, replacer.cpp is KvReplacer.v, the two objects and the threads
      around them KvState.v, dma_client.cpp and dma_server.cpp KvDma.v, host.cpp
      KvHost.v, dpu.cpp KvDpu.v. KvAsync.v says where a bucket is and
      what other threads may do, KvCoherence.v has the invariant of the cache,
      KvFetch.v, KvRequests.v and KvMove.v the operations on it,
      KvStore.v the set of pairs it represents, KvExpand.v the expansion with its
      exchange of messages, KvRun.v the start of both machines, the abstract
      store and the worker's loop, KvProps.v the theorems.
    - The level hash table served over the comm channel, the programs that the
      two main.cpp of levelkv start: levelhashing_dpu.cpp, levelhashing_host.cpp
      and the channel of comch_common.cpp are KvRpc.v, on top of LevelHash.v;
      KvRpcProps.v has the theorems.
    - The octopus file system, src/sys/octopus/src/fs/: servers that hold a
      tree of files in persistent memory. bitmap.cpp is OctBitmap.v, table.hpp
      OctTable.v, hashtable.cpp OctHashTable.v (theorems in OctHashProps.v),
      lock.cpp OctLock.v, TxManager.cpp OctTx.v, storage.cpp OctStorage.v. Of
      filesystem.cpp, paths and extents are OctExtent.v, the operations on the
      tree OctFileSystem.v, those on file data OctFileData.v, the two-phase ones
      and the dispatch of requests OctMessages.v. OctBase.v has what
      they share. OctDirectory.v, OctFsRep.v, OctBlocks.v and OctNamespace.v
      relate the storage of all servers to one tree, OctFsOps.v and
      OctDataOps.v show what the operations do to it, OctFsSpec.v is the
      abstract file system with the start of a cluster, OctFsProps.v has the
      theorems. sha256.c is Sha256.v, against a
      reference written after FIPS 180 in the same file.
    - The DMA copy application, src/doca_dma/: a host and a DPU negotiate over
      a comm channel and copy a buffer by DMA. pack.c is Pack.v, utils.c
      CUtils.v, common.c Common.v and HexDump.v (theorems in CommonProps.v),
      comch_utils.c ComchUtils.v (ComchProps.v), dma_copy_core.c, dma_copy.c
      and benchmark.c DmaCopy.v. DmaOwn.v (resources, the copy task) and
      DmaProps.v (both sides of the protocol, the command line) hold the theorems
      on it.
    - Its second version, src/doca_dma_2/: several threads share a mutex. What
      changed of dma_copy_core.c, dma_copy.c and benchmark.c is Dma2.v, which
      also has threads with a mutex; the rest is the text of src/doca_dma.
      Dma2Props.v has the theorems.
    - The rewrite, src/doca_dma_3/: descriptors are exchanged through files, and
      every thread of the DPU keeps a pipeline of tasks in flight.
      dma_common.c, benchmark.c, dma_host_main.c and dma_dpu_main.c are Dma3.v.
      Dma3Pipeline.v states what is relied on of the library, the invariant of
      a thread and the theorem on it, Dma3Files.v those on
      the files, Dma3Props.v the rest.
    - The database DrTM+H, src/sys/drtmh/src/. Its optimistic transactions,
      db/txs/dbtx.cc, are Dbtx.v, on the shared memory and the threads of
      DbtxMem.v. DbtxInv.v has the invariant of memory and what a thread owns of
      it, DbtxOps.v the phases of a transaction,
      DbtxProps.v the theorems on concurrent ones, DbtxSolo.v those on one that
      is alone. The hash table that other machines read,
      memstore/cluster_chaining.hpp, with rdma_hash.hpp, simple_cache.hpp,
      memdb.cc and rtx/log_store_manager.hpp around it, is ClusterHash.v;
      ClusterHashInv.v and ClusterHashProps.v verify it.
      The ordered store, memstore/memstore_bplustree.h and .cc, is BTree.v:
      BTreeInv.v says which map a tree with its linked leaves represents,
      BTreeInsert.v follows an insertion upwards, BTreeOps.v has the tree's
      operations and its iterator, BTreeProps.v the theorem.
      core/utils/varint.h and serializer.h are Varint.v.

    ** How C and C++ are modelled

    A w-bit unsigned integer is a [Z] reduced by [wrap w] after each
    operation; memory is the list of the bytes (or cells) a pointer refers
    to, and an access outside it is the outcome [UB]; [exit] is the outcome
    [Exit]. Loops that are not bounded by data take fuel, and running out of it
    is the outcome [NoFuel], which no theorem takes for success: it is shown
    not to occur, or to occur only when a peer never answers. Methods are
    functions on a record of the object's fields; state that is shared between
    objects or machines is passed along by a monad ([fs] of OctFileSystem.v,
    [kv] of KvState.v).

    Threads are interleaved. In OctLock.v every atomic access is a step of a
    transition system of threads of control (a request handled inside another
    one is a thread of its own). In the Kv files the worker is a program,
    and at each of its accesses to memory that others share, an arbitrary
    schedule says which threads take steps: theorems hold for all schedules. In
    KvRpc.v a schedule gives turns to the two machines. In Dma2.v threads take
    and give back a mutex and write to a shared variable, by steps and under a
    schedule. In DbtxMem.v a thread
    is a program ([prog]) that makes one load, store or compare-and-swap after
    another, [run_sched] runs the threads by a schedule, and [awp] is a program
    logic with an invariant and ghost state that holds for every schedule.

    The B+ tree keeps its leaves on a heap, since they are linked to each other,
    and its inner nodes as values, since each has one parent. One thread runs its
    operations. Each begins and ends a hardware transaction or, when that
    aborts too often, takes a lock ([Begin] and [End_] after util/rtm.h): a fate per
    operation says which, and whether an open transaction is thrown back.

    Memory that is allocated is not assumed to be zero, nor allocation to
    succeed: [posix_memalign] returns any block or none (LevelHash.v), a failed
    allocation of the DPU store's host ([oom] of KvState.v) leaves an
    indeterminate pointer, [malloc] may return NULL. Theorems that need
    successful calls or clean memory say so, or describe what happens otherwise.

    The DOCA library and the C library are not part of the repository. A
    program that calls them is a tree of calls (Doca.v): [run] executes it
    against an oracle that answers calls, and theorems hold for all oracles
    that follow the documentation. Three logics serve for that: [wp] (any
    answers), [lin] of Ownership.v (which objects are held, so that nothing is
    released twice or lost; with notes of all allocated blocks, which of them
    are left) and [gwp] of Doca.v (a library with a state of its own, such as
    tasks in flight or the contents of files).

    ** What is shown

    - Level hash: a sequence of calls behaves like a finite map, up to the first
      insertion that has to expand the table and gets no memory, or memory with
      tokens left in it ([table_refines_map]); each operation on every branch;
      resizing keeps all items; the string hash is XXH64, against a reference of
      its own in StringHash.v.
    - DPU key-value store: from boot on, whatever the interleaving of worker,
      DMA threads and host, the answers are those of a set of pairs that an
      insertion extends unless the four buckets of its key are full, and of which
      an expansion keeps the top level ([dpu_store_refines]), as long as no transfer
      and no allocation fails and no deletion is asked for; one insertion and one
      expansion ([insert_stores_or_full], [expand_keeps_top_level]); the buckets are where
      the DPU looks for them; the replacer is least-recently-used. Runs that
      lose pairs: by a move, by an expansion, after a deletion.
    - The served table: for every interleaving of DPU and host the calls answer
      like a finite map ([rpc_refines_map]), up to the first insertion that the
      table cannot serve or whose copy of a byte too many is noticed; and the two
      programs never end.
    - Octopus: a cluster answers requests like a tree of files
      ([cluster_refines_tree]), files do not share blocks, their data stays in
      place and listings agree with paths, for the requests that [ops_ok] of
      OctFsSpec.v admits (no [rmdir], [rename] or two-phase operation, no cut
      inside an extent, room in directories, files and logs); index, tables and
      bitmap behave like maps and sets; the lock words exclude writers, and a
      word that is held blocks a request nested in its holder for ever.
    - SHA-256: init, update and final compute FIPS 180 for any split of a
      message into pieces.
    - Serialisation, strings, hex dump: round trips, bounds, exact output.
    - DMA copy: the negotiation reaches agreement; setting up, tearing down and
      both sides of the copy release every object once, but for the descriptors
      that the DPU replaces; the command line cannot
      bring the configuration out of its limits; waiting loops end as soon as
      the peer answers.
    - Its second version: all threads end, for every interleaving, within a
      bound, as long as buffers can be had; otherwise the program hangs
      ([dma2_missing_buffer_hangs]), and failed copies are reported as success.
      The threads race on a variable of the configuration.
    - The rewrite: a thread submits every pair of buffers exactly once, in order,
      gives everything back and ends, but for what a refused resubmission leaks;
      what the host exports the DPU imports.
    - Transactions: the committed ones of any interleaving have a serial order
      in which each finds the records it writes as it read them
      ([committed_writes_serial]); one that writes all it reads is serialisable
      ([covered_serialisable]), one that is alone commits ([alone_commits]). The
      validation does not protect records that are only read: runs with write
      skew and with a torn read-only transaction are given.
    - Stores of the database: the hash table behaves like a map, and one-sided reads find
      what local ones find ([memdb_refines_map], [remote_reads_agree]); the B+
      tree behaves like an ordered map with a cursor, also when leaves are split
      under its iterator ([btree_refines_ordered_map]), unless a key is looked up
      in an empty tree, which leaves its transaction open; serializers can be read
      back.
    - Errors: for a number of inputs the code reads or writes out of bounds,
      releases twice, loops for ever, loses data or reports a failure as
      success; each is a theorem on the same definitions.

    ** Bounds and fuel

    A level hash table has at most 2^55 buckets per level ([MAX_LEVEL] of
    LevelHashInv.v), the table of the DPU store at most 2^50: the products of
    the code stay within 64 bits below, and memory ends long before. Fuel 64 is
    enough for an insertion, since each of its expansions adds a level. The DPU store starts at levels 3 to 29,
    where the shifts of [int] are defined; a request uses at most 36 of the 128
    frames of the cache, so what it needs is not evicted under it; the polling
    loops of an expansion need at most 5 rounds of the 8 they have. A request of
    octopus is forwarded at most once ([hops]); names are below 50 and paths
    below 255 bytes, a directory has at most 60 entries, a file 20 extents, a
    message 10 of them, a server 4095 blocks, and as many operations are served
    as the log has entries. Fuel of the waiting loops is related to the number of polls until the answer
    arrives; the polling loop of a doca_dma_3 thread needs [N * (n + 1) + 1]
    rounds for [N] copies and a library that is idle for at most [n] polls. A
    call over the channel of KvRpc.v needs a turn of the host and then one of the
    DPU, and a thread of doca_dma_2 fuel for two polls more than the library
    lets it wait. Sequence numbers of DrTM+H have 64 bits: schedules and programs
    are shorter than that, and a tree of BTree.v is searched with fuel for its
    height and for one leaf more than it has, a table of ClusterHash.v has fewer
    than 2^31 nodes, and a chain of it is searched with fuel
    for one node more than there are.
    Multi-byte values in messages are little-endian, as on both kinds of machine
    the programs run on.

    ** Not modelled

    Logging, and the text of floating-point statistics. Of src/doca_dma_2, the
    failure of pthread_create. Of levelkv, the creation of DOCA objects in
    comch_common.cpp and dma_common.cpp and the exchange of memory maps through
    files. Of octopus, the RDMA transport, the message loop of its servers and
    the client library. Of DrTM+H, what needs other machines or coroutines: the
    RDMA and RPC layers, remote sets, the protocols of src/rtx, and the benchmarks
    of src/app (TPC-C, TPC-E, SmallBank), which compute with floating-point
    numbers and random generators. comch_test and the nvm benchmarks are calls of
    RDMA verbs and persistent memory primitives that live in libraries outside
    the repository; third_party and ddio_tools are vendored. *)

From stdpp Require Export base list numbers sets.
From Stdlib Require Export ZArith Lia.

#[global] Set Default Goal Selector "!".
#[export] Set Default Proof Using "Type".
Open Scope Z_scope.

(** ** Machine integers

    A C unsigned integer of width [w] is a [Z] in [0 .. 2^w - 1]; every
    arithmetic result is reduced with [wrap], as the C standard requires of
    unsigned types. *)

Definition wrap (w z : Z) : Z := z mod 2 ^ w.
Abbreviation u8 := (wrap 8).
Abbreviation u16 := (wrap 16).
Abbreviation u32 := (wrap 32).
Abbreviation u64 := (wrap 64).

Definition in_width (w z : Z) : Prop := 0 <= z < 2 ^ w.

(** ** Outcomes of C code

    [Ret] is a normal return, [Exit code n] a call of [exit(code)] after the
    message numbered [n] in the source ("... fails: n") was printed, [UB] an execution with undefined behaviour (a wild pointer, an
    out-of-range access), and [NoFuel] marks a loop or recursion that the
    model stopped following; theorems on termination say it never occurs. *)

Inductive res (A : Type) : Type :=
| Ret (a : A)
| Exit (code : Z) (msg : nat)
| UB
| NoFuel.
Arguments Ret {A} a.
Arguments Exit {A} code msg.
Arguments UB {A}.
Arguments NoFuel {A}.

(** Sequencing is stdpp's [x ← m; k]. *)
#[export] Instance res_ret : MRet res := @Ret.
#[export] Instance res_bind : MBind res := fun A B f m =>
  match m with
  | Ret a => f a
  | Exit c n => Exit c n
  | UB => UB
  | NoFuel => NoFuel
  end.

(** A C loop whose body mutates a state [S] once per element. *)
Fixpoint for_each {A S} (xs : list A) (s : S) (body : A -> S -> res S) : res S :=
  match xs with
  | [] => Ret s
  | x :: xs => s' ← body x s; for_each xs s' body
  end.

(** A C loop whose only exit before the bound is a [return] from the body. *)
Fixpoint for_first {A B} (xs : list A) (body : A -> option B) : option B :=
  match xs with
  | [] => None
  | x :: xs => match body x with Some r => Some r | None => for_first xs body end
  end.

(** ** Lists *)

(** [upto n] is the sequence of values of a C counter running from [0]
    to [n - 1]. *)
Abbreviation upto n := (seq 0 n).

(** A byte of memory read at an offset from a pointer. *)
Definition byte_at (data : list Z) (off : Z) : Z := default 0 (data !! Z.to_nat off).

Definition is_byte (b : Z) : Prop := in_width 8 b.

(** Memory copied by [memcpy(dst, src, n)]. *)
Definition memcpy (dst src : list Z) (n : nat) : list Z := take n src ++ drop n dst.

(** Little-endian reading of [n] bytes at an offset. *)
Fixpoint le_read (n : nat) (data : list Z) (off : Z) : Z :=
  match n with
  | O => 0
  | S n => byte_at data off + 256 * le_read n data (off + 1)
  end.

(** The little-endian bytes of a value of [n] bytes. *)
Fixpoint le_bytes (n : nat) (v : Z) : list Z :=
  match n with
  | O => []
  | S n => v mod 256 :: le_bytes n (v / 256)
  end.

(** ** Generic lemmas *)

Lemma wrap_range w z : 0 <= w -> in_width w (wrap w z).
Proof. intros. unfold in_width, wrap. apply Z.mod_pos_bound. by apply Z.pow_pos_nonneg. Qed.

Lemma wrap_small w z : in_width w z -> wrap w z = z.
Proof. unfold in_width, wrap. intros. by apply Z.mod_small. Qed.

Lemma length_le_bytes n : forall v, length (le_bytes n v) = n.
Proof. induction n as [|n IH]; intros v; simpl; [done|]. by rewrite IH. Qed.

Lemma le_read_bytes n : forall v pre post,
  le_read n (pre ++ le_bytes n v ++ post) (Z.of_nat (length pre)) = v mod 256 ^ Z.of_nat n.
Proof.
  induction n as [|n IH]; intros v pre post; cbn [le_read le_bytes]; [by rewrite Z.mod_1_r|].
  unfold byte_at. rewrite Nat2Z.id, lookup_app_r, Nat.sub_diag by lia. cbn [lookup list_lookup app].
  cbn [default]. replace (Z.of_nat (length pre) + 1) with (Z.of_nat (length (pre ++ [v mod 256])))
    by (rewrite length_app; simpl; lia).
  replace (pre ++ v mod 256 :: le_bytes n (v / 256) ++ post)
    with ((pre ++ [v mod 256]) ++ le_bytes n (v / 256) ++ post) by (by rewrite <- (assoc_L (++))).
  rewrite IH, Nat2Z.inj_succ, Z.pow_succ_r by lia. rewrite Z.rem_mul_r by lia. done.
Qed.

(** A value that fits is read back. *)
Lemma le_read_le_bytes n x rest :
  0 <= x < 256 ^ Z.of_nat n -> le_read n (le_bytes n x ++ rest) 0 = x.
Proof. intros Hx. etrans; [exact (le_read_bytes n x [] rest)|]. by apply Z.mod_small. Qed.

Lemma for_first_Some {A B} (xs : list A) (body : A -> option B) r :
  for_first xs body = Some r -> exists x, x ∈ xs /\ body x = Some r.
Proof.
  induction xs as [|x xs IH]; simpl; [done|].
  destruct (body x) eqn:E; intros H.
  - simplify_eq. exists x. split; [constructor|done].
  - destruct (IH H) as (y & ? & ?). exists y. split; [by constructor|done].
Qed.

Lemma for_first_None {A B} (xs : list A) (body : A -> option B) :
  for_first xs body = None -> forall x, x ∈ xs -> body x = None.
Proof.
  induction xs as [|x xs IH]; simpl; intros H y Hy.
  - by apply not_elem_of_nil in Hy.
  - destruct (body x) eqn:E; [done|].
    apply elem_of_cons in Hy as [->|Hy]; auto.
Qed.

Lemma for_first_ext {A B} (xs : list A) (f g : A -> option B) :
  (forall x, x ∈ xs -> f x = g x) -> for_first xs f = for_first xs g.
Proof.
  induction xs as [|x xs IH]; simpl; intros H; [done|].
  rewrite (H x) by constructor. destruct (g x); [done|].
  apply IH. intros y Hy. apply H. by constructor.
Qed.

(** *** Bits and widths *)

Lemma in_width_bits w z :
  0 <= w -> (in_width w z <-> forall i, w <= i -> Z.testbit z i = false).
Proof.
  intros Hw. unfold in_width. split.
  - intros [H0 H1] i Hi. apply Z.testbit_false; [lia|].
    rewrite Z.div_small; [done|]. split; [done|].
    eapply Z.lt_le_trans; [done|]. apply Z.pow_le_mono_r; lia.
  - intros H. assert (z = z mod 2 ^ w) as ->.
    { apply Z.bits_inj'. intros i Hi. destruct (decide (i < w)).
      - by rewrite Z.mod_pow2_bits_low by lia.
      - rewrite Z.mod_pow2_bits_high by lia. apply H. lia. }
    apply Z.mod_pos_bound. by apply Z.pow_pos_nonneg.
Qed.

Lemma in_width_lxor w a b : 0 <= w -> in_width w a -> in_width w b -> in_width w (Z.lxor a b).
Proof.
  intros Hw. rewrite !in_width_bits by done. intros Ha Hb i Hi.
  by rewrite Z.lxor_spec, Ha, Hb.
Qed.

Lemma in_width_lor w a b : 0 <= w -> in_width w a -> in_width w b -> in_width w (Z.lor a b).
Proof.
  intros Hw. rewrite !in_width_bits by done. intros Ha Hb i Hi.
  by rewrite Z.lor_spec, Ha, Hb.
Qed.

Lemma in_width_land_l w a b : 0 <= w -> in_width w a -> in_width w (Z.land a b).
Proof.
  intros Hw. rewrite !in_width_bits by done. intros Ha i Hi. by rewrite Z.land_spec, Ha.
Qed.

Lemma in_width_shiftr w a n : 0 <= w -> 0 <= n -> in_width w a -> in_width w (Z.shiftr a n).
Proof.
  intros Hw Hn. rewrite !in_width_bits by done. intros Ha i Hi.
  rewrite Z.shiftr_spec by lia. apply Ha. lia.
Qed.

(** Disjoint bits: [a] holds the bits from [r] up, [b] those below. *)
Lemma lor_disjoint_add a b r :
  0 <= r -> a mod 2 ^ r = 0 -> 0 <= b < 2 ^ r -> Z.lor a b = a + b.
Proof.
  intros Hr Ha Hb.
  assert (Z.land a b = 0) as E.
  { apply Z.bits_inj'. intros i Hi. rewrite Z.land_spec, Z.bits_0.
    destruct (decide (i < r)).
    - rewrite <- (Z.mod_pow2_bits_low a r i) by lia. by rewrite Ha, Z.bits_0.
    - rewrite (proj1 (in_width_bits r b Hr) Hb i) by lia. by rewrite andb_false_r. }
  pose proof (Z.add_lor_land a b). lia.
Qed.

(** Facts about ranges, for [eauto with width]. *)
Create HintDb width.
#[export] Hint Resolve wrap_range in_width_lxor in_width_lor in_width_land_l
  in_width_shiftr : width.
#[export] Hint Extern 1 (_ <= _) => lia : width.
#[export] Hint Extern 1 (_ < _) => lia : width.

(** ** C strings

    A [char *] is the list of bytes at the pointer; [cstr] is the string it
    holds, the bytes before the first NUL. A list without a NUL is read to
    its end: the callers' invariants rule that case out. *)

Fixpoint cstr (s : list Z) : list Z :=
  match s with
  | [] => []
  | c :: s => if c =? 0 then [] else c :: cstr s
  end.

Definition strlen (s : list Z) : Z := Z.of_nat (length (cstr s)).

(** [strcmp]: the difference of the first bytes that differ. *)
Fixpoint strcmp (a b : list Z) : Z :=
  match a, b with
  | [], [] => 0
  | [], y :: _ => - y
  | x :: _, [] => x
  | x :: a, y :: b => if x =? y then (if x =? 0 then 0 else strcmp a b) else x - y
  end.

Lemma strcmp_eq a b : strcmp a b = 0 <-> cstr a = cstr b.
Proof.
  revert b. induction a as [|x a IH]; intros [|y b]; simpl; [done|..].
  - destruct (Z.eqb_spec y 0); split; intros; try done; lia.
  - destruct (Z.eqb_spec x 0); split; intros; try done; lia.
  - destruct (Z.eqb_spec x y) as [->|Hne].
    + destruct (Z.eqb_spec y 0); [done|]. rewrite IH. split; [by intros ->|by intros [=]].
    + split; [lia|].
      destruct (Z.eqb_spec x 0), (Z.eqb_spec y 0); intros; simplify_eq; lia.
Qed.

Lemma cstr_prefix s : take (length (cstr s)) s = cstr s.
Proof.
  induction s as [|c s IH]; simpl; [done|].
  destruct (c =? 0); simpl; [done|]. by rewrite IH.
Qed.

Lemma length_cstr s : (length (cstr s) <= length s)%nat.
Proof. induction s as [|c s IH]; simpl; [done|]. destruct (c =? 0); simpl; lia. Qed.

(** ** Lists as arrays *)

(** Two array positions are different because one coordinate is. *)
Ltac not_both := let H := fresh in intros [H ?]; congruence.

Lemma alter_insert_lookup {A} (f : A -> A) (l : list A) i x :
  l !! i = Some x -> alter f i l = <[i := f x]> l.
Proof.
  intros H. apply list_eq. intros j. destruct (decide (i = j)) as [->|Hne].
  - rewrite list_lookup_alter_eq, H, list_lookup_insert_eq; [done|].
    by eapply lookup_lt_Some.
  - by rewrite list_lookup_alter_ne, list_lookup_insert_ne.
Qed.

Lemma delete_insert_same {A} (l : list A) i y : delete i (<[i := y]> l) = delete i l.
Proof.
  revert i. induction l as [|x l IH]; intros [|i]; simpl; [done..|]. f_equal. apply IH.
Qed.

(** The elements produced from an array, with one cell singled out. *)
Lemma bind_cell {A B} (g : A -> list B) (l : list A) i x :
  l !! i = Some x -> l ≫= g ≡ₚ g x ++ (delete i l ≫= g).
Proof. intros H. by rewrite (delete_Permutation l i x H) at 1. Qed.

Lemma bind_cell_insert {A B} (g : A -> list B) (l : list A) i y :
  (i < length l)%nat -> <[i := y]> l ≫= g ≡ₚ g y ++ (delete i l ≫= g).
Proof.
  intros H. rewrite (bind_cell g (<[i := y]> l) i y).
  - by rewrite delete_insert_same.
  - by apply list_lookup_insert_eq.
Qed.

(** [memcpy] of a whole array replaces it. *)
Lemma memcpy_whole dst src n : length dst = n -> length src = n -> memcpy dst src n = src.
Proof.
  intros Hd Hs. unfold memcpy. rewrite (drop_ge dst) by lia.
  rewrite take_ge by lia. by rewrite app_nil_r.
Qed.

(** ** Reasoning about loops

    [for_each] over a counter: an invariant indexed by the number of
    iterations done, with a description of the abnormal outcomes of the body. *)
Definition outcome {A} (Q : A -> Prop) (E : res A -> Prop) (m : res A) : Prop :=
  match m with Ret a => Q a | other => E other end.

Lemma outcome_ret {A} (Q : A -> Prop) (m : res A) :
  outcome Q (fun _ => False) m <-> exists a, m = Ret a /\ Q a.
Proof.
  split; [|by intros (a & -> & H)]. destruct m as [a| | |]; simpl; try done. by exists a.
Qed.

Lemma for_each_upto_from {S} (P : nat -> S -> Prop) (body : nat -> S -> res S)
    (E : res S -> Prop) m : forall n s,
  P n s ->
  (forall i s, (n <= i < n + m)%nat -> P i s -> outcome (P (1 + i)%nat) E (body i s)) ->
  outcome (P (n + m)%nat) E (for_each (seq n m) s body).
Proof.
  induction m as [|m IH]; intros n s HP Hbody; simpl.
  - by rewrite Nat.add_0_r.
  - pose proof (Hbody n s ltac:(lia) HP) as Hn. unfold mbind, res_bind.
    destruct (body n s) as [s'| | |]; simpl in *; try done.
    rewrite <- Nat.add_succ_comm. apply IH; [done|]. intros i s1 Hi. apply Hbody. lia.
Qed.

Lemma for_each_upto {S} (P : nat -> S -> Prop) (body : nat -> S -> res S)
    (E : res S -> Prop) m s :
  P 0%nat s ->
  (forall i s, (i < m)%nat -> P i s -> outcome (P (1 + i)%nat) E (body i s)) ->
  outcome (P m) E (for_each (upto m) s body).
Proof.
  intros H0 Hbody. apply (for_each_upto_from P body E m 0 s); [done|].
  intros i s1 Hi. apply Hbody. lia.
Qed.

(** The same for a loop that cannot fail, written as a fold. *)
Lemma foldl_seq_ind {S} (P : nat -> S -> Prop) (f : S -> nat -> S) m : forall n s,
  P n s -> (forall i s, (n <= i < n + m)%nat -> P i s -> P (1 + i)%nat (f s i)) ->
  P (n + m)%nat (foldl f s (seq n m)).
Proof.
  induction m as [|m IH]; intros n s Hs Hstep; simpl; [by rewrite Nat.add_0_r|].
  rewrite <- Nat.add_succ_comm. apply IH; [apply Hstep; [lia|done]|].
  intros i s1 Hi. apply Hstep. lia.
Qed.

(** ** Rotations *)

(** The two halves of a rotated [w]-bit word do not overlap: or-ing them is
    adding them. *)
Lemma rotate_halves w x r :
  0 < r < w -> in_width w x ->
  Z.lor (wrap w (Z.shiftl x r)) (Z.shiftr x (w - r)) = wrap w (x * 2 ^ r + x / 2 ^ (w - r)).
Proof.
  intros Hr [H0 H1]. unfold wrap.
  rewrite Z.shiftl_mul_pow2, Z.shiftr_div_pow2 by lia.
  assert (2 ^ w = 2 ^ (w - r) * 2 ^ r) as E by (rewrite <- Z.pow_add_r by lia; f_equal; lia).
  assert (0 < 2 ^ r) by (apply Z.pow_pos_nonneg; lia).
  assert (0 < 2 ^ (w - r)) by (apply Z.pow_pos_nonneg; lia).
  assert (0 <= x / 2 ^ (w - r) < 2 ^ r).
  { split; [apply Z.div_pos; lia|]. apply Z.div_lt_upper_bound; [lia|]. rewrite <- E. lia. }
  assert ((x * 2 ^ r) mod 2 ^ w = (x mod 2 ^ (w - r)) * 2 ^ r) as Em.
  { rewrite E. by rewrite Z.mul_mod_distr_r by lia. }
  rewrite <- Z.add_mod_idemp_l by lia. rewrite Em.
  assert (0 <= x mod 2 ^ (w - r) < 2 ^ (w - r)) by (apply Z.mod_pos_bound; lia).
  rewrite lor_disjoint_add with (r := r); [|lia|by apply Z.mod_mul; lia|done].
  symmetry. apply Z.mod_small. nia.
Qed.

(** ** Big-endian words *)

Definition be_word (bs : list Z) : Z := foldl (fun a b => 256 * a + b) 0 bs.
Definition be_bytes (n : nat) (x : Z) : list Z :=
  (fun i => (x / 256 ^ Z.of_nat (n - 1 - i)) mod 256) <$> seq 0 n.

Lemma be_bytes_range n x : Forall is_byte (be_bytes n x).
Proof.
  unfold be_bytes. apply Forall_fmap, Forall_true. intros i.
  unfold is_byte, in_width. simpl. apply Z.mod_pos_bound. lia.
Qed.

Lemma length_be_bytes n x : length (be_bytes n x) = n.
Proof. unfold be_bytes. by rewrite length_fmap, length_seq. Qed.

Lemma be_bytes_S n x : be_bytes (S n) x = be_bytes n (x / 256) ++ [x mod 256].
Proof.
  unfold be_bytes. rewrite seq_S, fmap_app. f_equal.
  - apply list_fmap_ext. intros j i [-> Hi]%lookup_seq. simpl (0 + _)%nat.
    rewrite Z.div_div by (try apply Z.pow_pos_nonneg; lia).
    rewrite <- (Z.pow_succ_r 256) by lia. do 3 f_equal. lia.
  - simpl. replace (n - 0 - n)%nat with 0%nat by lia. by rewrite Z.div_1_r.
Qed.

Lemma be_word_snoc bs b : be_word (bs ++ [b]) = 256 * be_word bs + b.
Proof. unfold be_word. by rewrite foldl_app. Qed.

Lemma be_word_bytes n : forall x, 0 <= x < 256 ^ Z.of_nat n -> be_word (be_bytes n x) = x.
Proof.
  induction n as [|n IH]; intros x Hx.
  - unfold be_word, be_bytes. simpl in *. lia.
  - rewrite be_bytes_S, be_word_snoc. rewrite Nat2Z.inj_succ, Z.pow_succ_r in Hx by lia.
    rewrite IH.
    + pose proof (Z.div_mod x 256 ltac:(lia)). lia.
    + split; [apply Z.div_pos; lia|apply Z.div_lt_upper_bound; lia].
Qed.

Lemma be_word_range bs : Forall is_byte bs -> 0 <= be_word bs < 256 ^ Z.of_nat (length bs).
Proof.
  induction bs as [|b bs IH] using rev_ind; intros Hb; [unfold be_word; simpl; lia|].
  apply Forall_app in Hb as [Hbs [Hb _]%Forall_cons].
  rewrite be_word_snoc, length_app, Nat2Z.inj_add, Z.pow_add_r by lia.
  change (256 ^ Z.of_nat (length [b])) with 256.
  unfold is_byte, in_width in Hb. change (2 ^ 8) with 256 in Hb. specialize (IH Hbs).
  lia.
Qed.

Lemma be_bytes_word bs : Forall is_byte bs -> be_bytes (length bs) (be_word bs) = bs.
Proof.
  induction bs as [|b bs IH] using rev_ind; intros Hb; [done|].
  apply Forall_app in Hb as [Hbs [Hb _]%Forall_cons]. unfold is_byte, in_width in Hb.
  rewrite length_app, Nat.add_comm. simpl. rewrite be_bytes_S, be_word_snoc.
  rewrite Z.add_comm, Z.mul_comm, Z.div_add, Z.mod_add by lia.
  rewrite Z.div_small, Z.mod_small by lia. by rewrite Z.add_0_l, IH.
Qed.
