(* ===== verification/StringHash.v ===== *)
(** * StringHash: levelkv/src/levelhashing/hash.c

    The seeded string hash of the level hash table. [StringHash] translates
    the C loops (a read offset [p] advancing through the key), [XXH64] is a
    reference definition of the same function on a list of bytes cut into
    lanes, and the file shows that the two agree, that the result is a
    64-bit value, that it is determined by the first [length] bytes only and
    that the alignment of the key pointer does not matter. *)

From S2P Require Import Prelude.

Module StringHash.

Definition NUMBER64_1 : Z := 11400714785074694791.
Definition NUMBER64_2 : Z := 14029467366897019727.
Definition NUMBER64_3 : Z := 1609587929392839161.
Definition NUMBER64_4 : Z := 9650029242287828579.
Definition NUMBER64_5 : Z := 2870177450012600261.

(** [#define shifting_hash(x, r) ((x << r) | (x >> (64 - r)))] on a [uint64_t]. *)
Definition shifting_hash (x r : Z) : Z :=
  Z.lor (u64 (Z.shiftl x r)) (Z.shiftr x (64 - r)).

(** [TO64]/[TO32] read through a one-field struct, the other branch through
    a plain pointer: both load the bytes of a little-endian integer. *)
Definition TO64 (data : list Z) (p : Z) : Z := le_read 8 data p.
Definition TO32 (data : list Z) (p : Z) : Z := le_read 4 data p.

Definition hash_read64_align (data : list Z) (p align : Z) : Z :=
  if align =? 0 then TO64 data p else le_read 8 data p.

Definition hash_read32_align (data : list Z) (p align : Z) : Z :=
  if align =? 0 then TO32 data p else le_read 4 data p.

(** The four accumulators of the 32-byte loop. *)
Record lanes := Lanes { v1 : Z; v2 : Z; v3 : Z; v4 : Z }.

(** [v += word * NUMBER64_2; v = shifting_hash(v, 31); v *= NUMBER64_1;] *)
Definition lane_step (v word : Z) : Z :=
  u64 (shifting_hash (u64 (v + u64 (word * NUMBER64_2))) 31 * NUMBER64_1).

(** One iteration of the do-while loop, reading at [p], [p+8], [p+16], [p+24]. *)
Definition stripe_step (data : list Z) (align p : Z) (v : lanes) : lanes :=
  Lanes (lane_step (v1 v) (hash_read64_align data p align))
        (lane_step (v2 v) (hash_read64_align data (p + 8) align))
        (lane_step (v3 v) (hash_read64_align data (p + 16) align))
        (lane_step (v4 v) (hash_read64_align data (p + 24) align)).

(** [do { ... } while (p <= limitation);] *)
Fixpoint stripe_loop (fuel : nat) (data : list Z) (align limitation p : Z) (v : lanes)
  : option (Z * lanes) :=
  match fuel with
  | O => None
  | S fuel =>
      let v := stripe_step data align p v in
      let p := p + 32 in
      if p <=? limitation then stripe_loop fuel data align limitation p v
      else Some (p, v)
  end.

(** [v *= NUMBER64_2; v = shifting_hash(v, 31); v *= NUMBER64_1; hash ^= v;
    hash = hash * NUMBER64_1 + NUMBER64_4;] *)
Definition merge_lane (hash v : Z) : Z :=
  let v := u64 (shifting_hash (u64 (v * NUMBER64_2)) 31 * NUMBER64_1) in
  u64 (u64 (Z.lxor hash v * NUMBER64_1) + NUMBER64_4).

Definition converge (v : lanes) : Z :=
  let hash := u64 (u64 (u64 (shifting_hash (v1 v) 1 + shifting_hash (v2 v) 7)
                          + shifting_hash (v3 v) 12) + shifting_hash (v4 v) 18) in
  merge_lane (merge_lane (merge_lane (merge_lane hash (v1 v)) (v2 v)) (v3 v)) (v4 v).

(** The body of [while (p + 8 <= end)]. *)
Definition word_step (hash k1 : Z) : Z :=
  let k1 := u64 (k1 * NUMBER64_2) in
  let k1 := shifting_hash k1 31 in
  let k1 := u64 (k1 * NUMBER64_1) in
  u64 (u64 (shifting_hash (Z.lxor hash k1) 27 * NUMBER64_1) + NUMBER64_4).

Fixpoint word_loop (fuel : nat) (data : list Z) (align end_ p hash : Z) : option (Z * Z) :=
  if p + 8 <=? end_ then
    match fuel with
    | O => None
    | S fuel =>
        word_loop fuel data align end_ (p + 8)
          (word_step hash (hash_read64_align data p align))
    end
  else Some (p, hash).

(** The body of [if (p + 4 <= end)]. *)
Definition half_step (hash w : Z) : Z :=
  u64 (u64 (shifting_hash (Z.lxor hash (u64 (w * NUMBER64_1))) 23 * NUMBER64_2) + NUMBER64_3).

(** The body of [while (p < end)]. *)
Definition byte_step (hash b : Z) : Z :=
  u64 (shifting_hash (Z.lxor hash (u64 (b * NUMBER64_5))) 11 * NUMBER64_1).

Fixpoint byte_loop (fuel : nat) (data : list Z) (end_ p hash : Z) : option Z :=
  if p <? end_ then
    match fuel with
    | O => None
    | S fuel => byte_loop fuel data end_ (p + 1) (byte_step hash (byte_at data p))
    end
  else Some hash.

Definition avalanche (hash : Z) : Z :=
  let hash := Z.lxor hash (Z.shiftr hash 33) in
  let hash := u64 (hash * NUMBER64_2) in
  let hash := Z.lxor hash (Z.shiftr hash 29) in
  let hash := u64 (hash * NUMBER64_3) in
  Z.lxor hash (Z.shiftr hash 32).

Definition init_lanes (seed : Z) : lanes :=
  Lanes (u64 (u64 (seed + NUMBER64_1) + NUMBER64_2)) (u64 (seed + NUMBER64_2))
        (u64 (seed + 0)) (u64 (seed - NUMBER64_1)).

(** The whole function; [None] would mean that [fuel] iterations did not
    leave one of the loops. *)
Definition string_key_hash_fuel (fuel : nat) (data : list Z) (length_ seed align : Z)
  : option Z :=
  let end_ := length_ in
  '(p, hash) ← (if 32 <=? length_ then
                  '(p, v) ← stripe_loop fuel data align (end_ - 32) 0 (init_lanes seed);
                  Some (p, converge v)
                else Some (0, u64 (seed + NUMBER64_5)));
  let hash := u64 (hash + length_) in
  '(p, hash) ← word_loop fuel data align end_ p hash;
  let '(p, hash) :=
    if p + 4 <=? end_ then (p + 4, half_step hash (hash_read32_align data p align))
    else (p, hash) in
  hash ← byte_loop fuel data end_ p hash;
  Some (avalanche hash).

(** No loop runs more often than the key has bytes, so [length + 1]
    iterations are enough ([string_key_hash_total] below). *)
Definition string_key_hash_computation (data : list Z) (length_ seed align : Z) : Z :=
  default 0 (string_key_hash_fuel (S (Z.to_nat length_)) data length_ seed align).

(** [addr] is the numeric value of the pointer [data]. *)
Definition hash_ (addr : Z) (data : list Z) (length_ seed : Z) : Z :=
  if Z.land addr 7 =? 0 then string_key_hash_computation data length_ seed 1
  else string_key_hash_computation data length_ seed 0.

(** ** Ranges *)

Lemma shifting_hash_range x r :
  0 <= r <= 64 -> in_width 64 x -> in_width 64 (shifting_hash x r).
Proof. intros. unfold shifting_hash. eauto with width. Qed.

Lemma lane_step_range v w : in_width 64 (lane_step v w).
Proof. unfold lane_step. eauto with width. Qed.

Lemma merge_lane_range h v : in_width 64 (merge_lane h v).
Proof. unfold merge_lane. eauto with width. Qed.

Lemma word_step_range h k : in_width 64 (word_step h k).
Proof. unfold word_step. eauto with width. Qed.

Lemma half_step_range h w : in_width 64 (half_step h w).
Proof. unfold half_step. eauto with width. Qed.

Lemma byte_step_range h b : in_width 64 (byte_step h b).
Proof. unfold byte_step. eauto with width. Qed.

Lemma avalanche_range h : in_width 64 (avalanche h).
Proof. unfold avalanche. eauto 6 with width. Qed.

#[export] Hint Resolve shifting_hash_range lane_step_range merge_lane_range
  word_step_range half_step_range byte_step_range avalanche_range : width.

End StringHash.

(** ** Reference: XXH64 on a list of bytes

    Written after the specification of xxHash, with its own constants and
    arithmetic modulo [2 ^ 64]: nothing of the model of hash.c is used. *)

Module XXH64.

Definition PRIME64_1 : Z := 0x9E3779B185EBCA87.
Definition PRIME64_2 : Z := 0xC2B2AE3D27D4EB4F.
Definition PRIME64_3 : Z := 0x165667B19E3779F9.
Definition PRIME64_4 : Z := 0x85EBCA77C2B2AE63.
Definition PRIME64_5 : Z := 0x27D4EB2F165667C5.

Definition rotl (x r : Z) : Z := (x * 2 ^ r + x / 2 ^ (64 - r)) mod 2 ^ 64.

Fixpoint le_word (bs : list Z) : Z :=
  match bs with
  | [] => 0
  | b :: bs => b + 256 * le_word bs
  end.

Definition round (acc lane : Z) : Z :=
  (rotl ((acc + lane * PRIME64_2) mod 2 ^ 64) 31 * PRIME64_1) mod 2 ^ 64.

Definition merge_round (acc v : Z) : Z :=
  (Z.lxor acc (round 0 v) * PRIME64_1 + PRIME64_4) mod 2 ^ 64.

(** The four accumulators, in a list. *)
Definition accumulators (seed : Z) : list Z :=
  [(seed + PRIME64_1 + PRIME64_2) mod 2 ^ 64; (seed + PRIME64_2) mod 2 ^ 64;
   seed mod 2 ^ 64; (seed - PRIME64_1) mod 2 ^ 64].

(** A stripe is 32 bytes, 8 for each accumulator. *)
Fixpoint stripe (accs bs : list Z) : list Z :=
  match accs with
  | [] => []
  | acc :: accs => round acc (le_word (take 8 bs)) :: stripe accs (drop 8 bs)
  end.

Fixpoint stripes (n : nat) (accs bs : list Z) : list Z :=
  match n with
  | O => accs
  | S n => stripes n (stripe accs bs) (drop 32 bs)
  end.

Definition convergence (accs : list Z) : Z :=
  let acc := foldl Z.add 0 (zip_with rotl accs [1; 7; 12; 18]) mod 2 ^ 64 in
  foldl merge_round acc accs.

(** The remaining input: as many 8-byte words as fit, ... *)
Fixpoint words (n : nat) (acc : Z) (bs : list Z) : Z :=
  match n with
  | O => acc
  | S n =>
      words n ((rotl (Z.lxor acc (round 0 (le_word (take 8 bs)))) 27 * PRIME64_1
                + PRIME64_4) mod 2 ^ 64) (drop 8 bs)
  end.

(** ... then a 4-byte word if there is one, ... *)
Definition half (acc : Z) (bs : list Z) : Z * list Z :=
  if decide (4 <= length bs)%nat then
    ((rotl (Z.lxor acc ((le_word (take 4 bs) * PRIME64_1) mod 2 ^ 64)) 23 * PRIME64_2
      + PRIME64_3) mod 2 ^ 64, drop 4 bs)
  else (acc, bs).

(** ... then single bytes. *)
Definition tail (acc : Z) (bs : list Z) : Z :=
  foldl (fun acc b => (rotl (Z.lxor acc ((b * PRIME64_5) mod 2 ^ 64)) 11 * PRIME64_1)
                        mod 2 ^ 64) acc bs.

(** The final mix. *)
Definition mix (acc : Z) : Z :=
  let acc := (Z.lxor acc (acc / 2 ^ 33) * PRIME64_2) mod 2 ^ 64 in
  let acc := (Z.lxor acc (acc / 2 ^ 29) * PRIME64_3) mod 2 ^ 64 in
  Z.lxor acc (acc / 2 ^ 32).

Definition finalize (acc : Z) (bs : list Z) : Z :=
  let n := (length bs / 8)%nat in
  let '(acc, bs) := half (words n acc bs) (drop (8 * n) bs) in
  mix (tail acc bs).

Definition xxh64 (seed : Z) (bs : list Z) : Z :=
  let n := (length bs / 32)%nat in
  let acc := if decide (32 <= length bs)%nat
             then convergence (stripes n (accumulators seed) bs)
             else (seed + PRIME64_5) mod 2 ^ 64 in
  finalize ((acc + Z.of_nat (length bs)) mod 2 ^ 64) (drop (32 * n) bs).

(** ** Agreement *)

Import StringHash.

Definition lanes_list (v : lanes) : list Z := [v1 v; v2 v; v3 v; v4 v].

Lemma init_lanes_accumulators seed : lanes_list (init_lanes seed) = accumulators seed.
Proof.
  unfold lanes_list, init_lanes, accumulators, wrap. cbn [v1 v2 v3 v4].
  rewrite Z.add_mod_idemp_l, Z.add_0_r by done. done.
Qed.

Lemma avalanche_mix h : avalanche h = mix h.
Proof. unfold avalanche, mix, wrap. by rewrite !Z.shiftr_div_pow2 by lia. Qed.

(** *** Steps agree *)

Lemma shifting_hash_rotl x r :
  0 < r < 64 -> in_width 64 x -> shifting_hash x r = rotl x r.
Proof. intros Hr Hx. apply (rotate_halves 64); done. Qed.

Lemma lane_step_round v w : lane_step v w = round v w.
Proof.
  unfold lane_step, round. rewrite shifting_hash_rotl by eauto with width.
  unfold wrap. rewrite Z.add_mod_idemp_r by lia. done.
Qed.

Lemma merge_lane_round h v : merge_lane h v = merge_round h v.
Proof.
  unfold merge_lane, merge_round. rewrite <- lane_step_round.
  unfold lane_step. rewrite Z.add_0_l.
  rewrite (wrap_small 64 (wrap 64 (v * NUMBER64_2))) by eauto with width.
  unfold wrap. by rewrite Z.add_mod_idemp_l by lia.
Qed.

Lemma word_step_round h k :
  in_width 64 h ->
  word_step h k = (rotl (Z.lxor h (round 0 k)) 27 * PRIME64_1 + PRIME64_4) mod 2 ^ 64.
Proof.
  intros Hh. rewrite <- lane_step_round. unfold word_step, lane_step. rewrite Z.add_0_l.
  rewrite (wrap_small 64 (wrap 64 (k * NUMBER64_2))) by eauto with width.
  rewrite <- shifting_hash_rotl by eauto with width.
  unfold wrap. by rewrite Z.add_mod_idemp_l by lia.
Qed.

Lemma half_step_rotl h w :
  in_width 64 h ->
  half_step h w = (rotl (Z.lxor h ((w * PRIME64_1) mod 2 ^ 64)) 23 * PRIME64_2
                   + PRIME64_3) mod 2 ^ 64.
Proof.
  intros Hh. unfold half_step. rewrite shifting_hash_rotl by eauto with width.
  unfold wrap. by rewrite Z.add_mod_idemp_l by lia.
Qed.

Lemma byte_step_rotl h b :
  in_width 64 h ->
  byte_step h b = (rotl (Z.lxor h ((b * PRIME64_5) mod 2 ^ 64)) 11 * PRIME64_1) mod 2 ^ 64.
Proof.
  intros Hh. unfold byte_step. by rewrite shifting_hash_rotl by eauto with width.
Qed.

(** Accumulators are 64-bit values. *)
Definition lanes_ok (v : lanes) : Prop :=
  in_width 64 (v1 v) /\ in_width 64 (v2 v) /\ in_width 64 (v3 v) /\ in_width 64 (v4 v).

Lemma converge_convergence v : lanes_ok v -> converge v = convergence (lanes_list v).
Proof.
  intros (H1 & H2 & H3 & H4). unfold converge, convergence, lanes_list.
  cbn [foldl zip_with]. rewrite Z.add_0_l.
  rewrite !merge_lane_round, !shifting_hash_rotl by (try lia; done).
  unfold wrap. rewrite Z.add_mod_idemp_l by lia.
  rewrite <- (Z.add_assoc (_ mod _)), Z.add_mod_idemp_l by lia. by rewrite Z.add_assoc.
Qed.

(** *** Reads agree *)

Lemma le_read_word n data p :
  0 <= p -> p + Z.of_nat n <= Z.of_nat (length data) ->
  le_read n data p = le_word (take n (drop (Z.to_nat p) data)).
Proof.
  revert p. induction n as [|n IH]; intros p H0 H1; [done|].
  cbn [le_read]. rewrite IH by lia. unfold byte_at.
  destruct (lookup_lt_is_Some_2 data (Z.to_nat p)) as [b Hb]; [lia|].
  rewrite Hb, (drop_S data b (Z.to_nat p)) by done. cbn [default take le_word].
  by replace (Z.to_nat (p + 1)) with (S (Z.to_nat p)) by lia.
Qed.

Lemma read64_word data bs rest p align :
  data = bs ++ rest -> 0 <= p -> p + 8 <= Z.of_nat (length bs) ->
  hash_read64_align data p align = le_word (take 8 (drop (Z.to_nat p) bs)).
Proof.
  intros -> H0 H1. unfold hash_read64_align, TO64.
  assert (le_read 8 (bs ++ rest) p = le_word (take 8 (drop (Z.to_nat p) bs))) as ->.
  { rewrite le_read_word by (try rewrite length_app; lia).
    rewrite drop_app_le by lia. rewrite take_app_le; [done|]. rewrite length_drop. lia. }
  by destruct (align =? 0).
Qed.

Lemma read32_word data bs rest p align :
  data = bs ++ rest -> 0 <= p -> p + 4 <= Z.of_nat (length bs) ->
  hash_read32_align data p align = le_word (take 4 (drop (Z.to_nat p) bs)).
Proof.
  intros -> H0 H1. unfold hash_read32_align, TO32.
  assert (le_read 4 (bs ++ rest) p = le_word (take 4 (drop (Z.to_nat p) bs))) as ->.
  { rewrite le_read_word by (try rewrite length_app; lia).
    rewrite drop_app_le by lia. rewrite take_app_le; [done|]. rewrite length_drop. lia. }
  by destruct (align =? 0).
Qed.

(** *** Loops agree *)

Section loops.
Context (data bs rest : list Z) (align : Z).
Context (Hdata : data = bs ++ rest).

Lemma stripe_step_stripe p v :
  0 <= p -> p + 32 <= Z.of_nat (length bs) ->
  lanes_list (stripe_step data align p v) = stripe (lanes_list v) (drop (Z.to_nat p) bs).
Proof using Hdata.
  intros. unfold lanes_list, stripe_step. cbn [stripe v1 v2 v3 v4]. rewrite !drop_drop.
  rewrite !(read64_word data bs rest) by (done || lia).
  rewrite !lane_step_round. rewrite !Z2Nat.inj_add by lia. by rewrite <- !Nat.add_assoc.
Qed.

Lemma stripe_step_ok p v : lanes_ok (stripe_step data align p v).
Proof. repeat split; apply lane_step_range. Qed.

Lemma stripe_loop_stripes n : forall fuel p v,
  0 <= p -> (n < fuel)%nat ->
  p + 32 * Z.of_nat (S n) <= Z.of_nat (length bs) < p + 32 * Z.of_nat (S (S n)) ->
  exists v', stripe_loop fuel data align (Z.of_nat (length bs) - 32) p v
               = Some (p + 32 * Z.of_nat (S n), v')
             /\ lanes_list v' = stripes (S n) (lanes_list v) (drop (Z.to_nat p) bs) /\ lanes_ok v'.
Proof using Hdata.
  induction n as [|n IH]; intros [|fuel] p v H0 Hf Hn; try lia.
  - cbn [stripe_loop]. destruct (Z.leb_spec (p + 32) (Z.of_nat (length bs) - 32)); [lia|].
    eexists. split; [done|]. cbn [stripes].
    rewrite <- stripe_step_stripe by lia. split; [done|]. apply stripe_step_ok.
  - cbn [stripe_loop]. destruct (Z.leb_spec (p + 32) (Z.of_nat (length bs) - 32)); [|lia].
    destruct (IH fuel (p + 32) (stripe_step data align p v)) as (v' & E & Hv & Hok); [lia..|].
    exists v'. rewrite E. split; [do 2 f_equal; lia|]. split; [|done].
    rewrite Hv, stripe_step_stripe by lia. symmetry. cbn [stripes].
    rewrite drop_drop. by replace (Z.to_nat (p + 32)) with (Z.to_nat p + 32)%nat by lia.
Qed.

Lemma word_loop_words n : forall fuel p h,
  0 <= p -> (n <= fuel)%nat -> in_width 64 h ->
  p + 8 * Z.of_nat n <= Z.of_nat (length bs) < p + 8 * Z.of_nat (S n) ->
  word_loop fuel data align (Z.of_nat (length bs)) p h
    = Some (p + 8 * Z.of_nat n, words n h (drop (Z.to_nat p) bs))
  /\ in_width 64 (words n h (drop (Z.to_nat p) bs)).
Proof using Hdata.
  induction n as [|n IH]; intros fuel p h H0 Hf Hh Hn.
  - assert (word_loop fuel data align (Z.of_nat (length bs)) p h = Some (p, h)) as ->.
    { destruct fuel; cbn [word_loop]; destruct (Z.leb_spec (p + 8) (Z.of_nat (length bs)));
        by try lia. }
    cbn [words]. split; [do 2 f_equal; lia|done].
  - destruct fuel as [|fuel]; [lia|]. cbn [word_loop words].
    destruct (Z.leb_spec (p + 8) (Z.of_nat (length bs))); [|lia].
    rewrite (read64_word data bs rest) by (done || lia).
    rewrite <- word_step_round by done.
    destruct (IH fuel (p + 8) (word_step h (le_word (take 8 (drop (Z.to_nat p) bs)))))
      as [E Hr]; [lia|lia|apply word_step_range|lia|].
    rewrite drop_drop. replace (Z.to_nat p + 8)%nat with (Z.to_nat (p + 8)) by lia.
    rewrite E. split; [do 2 f_equal; lia|done].
Qed.

Lemma byte_loop_tail n : forall fuel p h,
  0 <= p -> (n <= fuel)%nat -> in_width 64 h ->
  p + Z.of_nat n = Z.of_nat (length bs) ->
  byte_loop fuel data (Z.of_nat (length bs)) p h = Some (tail h (drop (Z.to_nat p) bs)).
Proof using Hdata.
  induction n as [|n IH]; intros fuel p h H0 Hf Hh Hn.
  - rewrite drop_ge by lia.
    destruct fuel; cbn [byte_loop]; destruct (Z.ltb_spec p (Z.of_nat (length bs))); by try lia.
  - destruct fuel as [|fuel]; [lia|]. cbn [byte_loop].
    destruct (Z.ltb_spec p (Z.of_nat (length bs))); [|lia].
    destruct (lookup_lt_is_Some_2 bs (Z.to_nat p)) as [b Hb]; [lia|].
    rewrite IH by (try apply byte_step_range; lia).
    rewrite (drop_S bs b (Z.to_nat p)) by done. cbn [tail foldl].
    replace (byte_at data p) with b
      by (unfold byte_at; subst data; by rewrite lookup_app_l, Hb by lia).
    rewrite byte_step_rotl by done.
    by replace (Z.to_nat (p + 1)) with (S (Z.to_nat p)) by lia.
Qed.
End loops.

(** *** The whole function agrees *)

(** What follows the 32-byte loop, started at an offset [p] with at most
    31 bytes left. *)
Lemma finalize_agrees data bs rest align fuel p h :
  data = bs ++ rest -> 0 <= p <= Z.of_nat (length bs) -> in_width 64 h ->
  (length bs <= fuel)%nat ->
  ('(p, hash) ← word_loop fuel data align (Z.of_nat (length bs)) p h;
   let '(p, hash) :=
     if p + 4 <=? Z.of_nat (length bs) then
       (p + 4, half_step hash (hash_read32_align data p align))
     else (p, hash) in
   hash ← byte_loop fuel data (Z.of_nat (length bs)) p hash;
   Some (avalanche hash)) = Some (finalize h (drop (Z.to_nat p) bs)).
Proof.
  intros Hd Hp Hh Hf. unfold finalize. rewrite length_drop.
  set (n := ((length bs - Z.to_nat p) / 8)%nat).
  assert (8 * n <= length bs - Z.to_nat p < 8 * S n)%nat as Hn.
  { pose proof (Nat.div_mod_eq (length bs - Z.to_nat p) 8).
    pose proof (Nat.mod_upper_bound (length bs - Z.to_nat p) 8). lia. }
  destruct (word_loop_words data bs rest align Hd n fuel p h) as [E Hw]; [lia|lia|done|lia|].
  rewrite E. cbn [mbind option_bind]. rewrite drop_drop. unfold half. rewrite length_drop.
  destruct (Z.leb_spec (p + 8 * Z.of_nat n + 4) (Z.of_nat (length bs))).
  - rewrite decide_True by lia.
    rewrite (read32_word data bs rest) by (done || lia).
    replace (Z.to_nat p + 8 * n)%nat with (Z.to_nat (p + 8 * Z.of_nat n)) by lia.
    rewrite <- half_step_rotl by done.
    rewrite (byte_loop_tail data bs rest Hd (length bs - Z.to_nat (p + 8 * Z.of_nat n + 4)))
      by (try apply half_step_range; lia).
    cbn [mbind option_bind]. rewrite avalanche_mix. do 2 f_equal. rewrite drop_drop. do 2 f_equal. lia.
  - rewrite decide_False by lia.
    rewrite (byte_loop_tail data bs rest Hd (length bs - Z.to_nat (p + 8 * Z.of_nat n)))
      by (done || lia).
    cbn [mbind option_bind]. rewrite avalanche_mix. do 4 f_equal. lia.
Qed.

Lemma string_key_hash_xxh64 data bs rest seed align fuel :
  data = bs ++ rest -> (length bs < fuel)%nat ->
  string_key_hash_fuel fuel data (Z.of_nat (length bs)) seed align = Some (xxh64 seed bs).
Proof.
  intros Hd Hf. unfold string_key_hash_fuel, xxh64.
  pose proof (Nat.div_mod_eq (length bs) 32) as Hdiv.
  pose proof (Nat.mod_upper_bound (length bs) 32) as Hmod.
  destruct (Z.leb_spec 32 (Z.of_nat (length bs))).
  - rewrite decide_True by lia.
    destruct (length bs / 32)%nat as [|n] eqn:En; [lia|].
    destruct (stripe_loop_stripes data bs rest align Hd n fuel 0 (init_lanes seed))
      as (v' & E & Hv & Hok); [lia..|].
    rewrite E. cbn [mbind option_bind]. rewrite converge_convergence by done.
    rewrite init_lanes_accumulators in Hv.
    rewrite finalize_agrees with (bs := bs) (rest := rest) by (eauto with width || lia).
    rewrite Hv. do 3 f_equal. lia.
  - rewrite decide_False by lia. cbn [mbind option_bind].
    rewrite finalize_agrees with (bs := bs) (rest := rest) by (eauto with width || lia).
    do 3 f_equal. lia.
Qed.

Lemma hash_xxh64 addr data seed len :
  0 <= len <= Z.of_nat (length data) ->
  hash_ addr data len seed = xxh64 seed (take (Z.to_nat len) data).
Proof.
  intros Hl. unfold hash_, string_key_hash_computation.
  assert (len = Z.of_nat (length (take (Z.to_nat len) data))) as Hlen
    by (rewrite length_take; lia).
  set (bs := take (Z.to_nat len) data) in *. rewrite Hlen.
  rewrite !(string_key_hash_xxh64 data bs (drop (Z.to_nat len) data))
    by (lia || (unfold bs; by rewrite take_drop)).
  by destruct (_ =? _).
Qed.

Lemma xxh64_range seed bs : in_width 64 (xxh64 seed bs).
Proof. unfold xxh64, finalize. destruct (half _ _). rewrite <- avalanche_mix. apply avalanche_range. Qed.

(** ** Properties *)

(** C22: the C function computes XXH64 of the first [length] bytes at [data],
    for every key, seed and pointer alignment, and its loops terminate. *)
Theorem hash_computes_xxh64 (addr : Z) (data : list Z) (len seed : Z) :
  0 <= len <= Z.of_nat (length data) ->
  let align := if Z.land addr 7 =? 0 then 1 else 0 in
  string_key_hash_fuel (S (Z.to_nat len)) data len seed align
    = Some (xxh64 seed (take (Z.to_nat len) data))
  /\ hash_ addr data len seed = xxh64 seed (take (Z.to_nat len) data)
  /\ in_width 64 (hash_ addr data len seed).
Proof.
  intros Hl align. rewrite hash_xxh64 by done. split_and!; [|done|apply xxh64_range].
  assert (len = Z.of_nat (length (take (Z.to_nat len) data))) as Hlen
    by (rewrite length_take; lia).
  rewrite Hlen at 2. apply string_key_hash_xxh64 with (rest := drop (Z.to_nat len) data).
  - by rewrite take_drop.
  - rewrite length_take. lia.
Qed.

(** A message of 63 bytes, from the tests of xxHash implementations. *)
Definition ishmael : list Z :=
  [67; 97; 108; 108; 32; 109; 101; 32; 73; 115; 104; 109; 97; 101; 108; 46; 32; 83; 111; 109; 101; 32;
   121; 101; 97; 114; 115; 32; 97; 103; 111; 45; 45; 110; 101; 118; 101; 114; 32; 109; 105; 110; 100; 32;
   104; 111; 119; 32; 108; 111; 110; 103; 32; 112; 114; 101; 99; 105; 115; 101; 108; 121; 45].

Lemma hash_computes_xxh64_witness :
  hash_ 4096 [97; 98; 99; 0] 3 0 = xxh64 0 [97; 98; 99] /\
  xxh64 0 [97; 98; 99] = 0x44BC2CF5AD770999 /\ xxh64 0 [] = 0xEF46DB3751D8E999 /\
  xxh64 0 ishmael = 0x02A2E85470D6FD96.
Proof.
  split; [|by vm_compute].
  apply (hash_computes_xxh64 4096 [97; 98; 99; 0] 3 0). simpl. lia.
Defined.

End XXH64.
