(* ===== verification/LevelHash.v ===== *)
(** * LevelHash: levelkv/src/levelhashing/level_hashing.c and .h

    The two-level hash table: its data, and one definition per C function.
    The table is passed by value and returned where the C code updates it in
    place. A [uint8_t *] argument is the list of bytes at the pointer. *)

From S2P Require Import Prelude.
From S2P Require Import StringHash.
Import StringHash.

Definition ASSOC_NUM : nat := 4.
Definition KEY_LEN : nat := 16.
Definition VALUE_LEN : nat := 15.

Record entry := Entry { key : list Z; value : list Z }.

Record level_bucket := Bucket { token : list Z; slot : list entry }.

#[export] Instance entry_inhabited : Inhabited entry := populate (Entry [] []).
#[export] Instance bucket_inhabited : Inhabited level_bucket := populate (Bucket [] []).

(** [sizeof(level_bucket)]: byte arrays only, so there is no padding. *)
Definition sizeof_level_bucket : Z :=
  Z.of_nat ASSOC_NUM + Z.of_nat ASSOC_NUM * (Z.of_nat KEY_LEN + Z.of_nat VALUE_LEN).

(** An array of two, indexed by the level number: [L0] is the top level,
    [L1] the bottom level. *)
Inductive lvl := L0 | L1.

Record two (A : Type) := Two { at0 : A; at1 : A }.
Arguments Two {A} _ _.
Arguments at0 {A} _.
Arguments at1 {A} _.

Definition get2 {A} (t : two A) (i : lvl) : A :=
  match i with L0 => at0 t | L1 => at1 t end.
Definition set2 {A} (t : two A) (i : lvl) (x : A) : two A :=
  match i with L0 => Two x (at1 t) | L1 => Two (at0 t) x end.

Record level_hash := LevelHash {
  buckets : two (list level_bucket);
  level_item_num : two Z;
  addr_capacity : Z;
  total_capacity : Z;
  level_size : Z;
  level_expand_time : Z;
  resize_state : Z;
  f_seed : Z;
  s_seed : Z
}.

(** Field updates. *)
Definition set_buckets (l : level_hash) (i : lvl) (bs : list level_bucket) : level_hash :=
  LevelHash (set2 (buckets l) i bs) (level_item_num l) (addr_capacity l) (total_capacity l)
    (level_size l) (level_expand_time l) (resize_state l) (f_seed l) (s_seed l).
Definition set_item_num (l : level_hash) (i : lvl) (n : Z) : level_hash :=
  LevelHash (buckets l) (set2 (level_item_num l) i n) (addr_capacity l) (total_capacity l)
    (level_size l) (level_expand_time l) (resize_state l) (f_seed l) (s_seed l).

(** [level->level_item_num[i]++] and [--] on a [uint64_t]. *)
Definition item_num_incr (l : level_hash) (i : lvl) : level_hash :=
  set_item_num l i (u64 (get2 (level_item_num l) i + 1)).
Definition item_num_decr (l : level_hash) (i : lvl) : level_hash :=
  set_item_num l i (u64 (get2 (level_item_num l) i - 1)).

(** [bs[idx].token[j]], [bs[idx].slot[j]] *)
Definition token_at (bs : list level_bucket) (idx : Z) (j : nat) : Z :=
  default 0 (token (bs !!! Z.to_nat idx) !! j).
Definition slot_at (bs : list level_bucket) (idx : Z) (j : nat) : entry :=
  slot (bs !!! Z.to_nat idx) !!! j.

(** [bs[idx].token[j] = t] *)
Definition set_token (bs : list level_bucket) (idx : Z) (j : nat) (t : Z) : list level_bucket :=
  alter (fun b => Bucket (<[j := t]> (token b)) (slot b)) (Z.to_nat idx) bs.

(** [memcpy(bs[idx].slot[j].value, value, VALUE_LEN)] *)
Definition set_value (bs : list level_bucket) (idx : Z) (j : nat) (v : list Z)
  : list level_bucket :=
  alter (fun b => Bucket (token b)
           (alter (fun e => Entry (key e) (memcpy (value e) v VALUE_LEN)) j (slot b)))
    (Z.to_nat idx) bs.

(** [memcpy(bs[idx].slot[j].key, key, KEY_LEN)] *)
Definition set_key (bs : list level_bucket) (idx : Z) (j : nat) (k : list Z)
  : list level_bucket :=
  alter (fun b => Bucket (token b)
           (alter (fun e => Entry (memcpy (key e) k KEY_LEN) (value e)) j (slot b)))
    (Z.to_nat idx) bs.

(** The three statements that fill a slot: both copies, then the token. *)
Definition fill_slot (bs : list level_bucket) (idx : Z) (j : nat) (k v : list Z)
  : list level_bucket :=
  set_token (set_value (set_key bs idx j k) idx j v) idx j 1.

(** ** Hash locations *)

(** The address of [key] only selects the read helper in [hash_] and does
    not change its value ([XXH64.hash_computes_xxh64]), so the model passes 0. *)
Definition F_HASH (l : level_hash) (k : list Z) : Z := hash_ 0 k (strlen k) (f_seed l).
Definition S_HASH (l : level_hash) (k : list Z) : Z := hash_ 0 k (strlen k) (s_seed l).

Definition F_IDX (hashKey capacity : Z) : Z := hashKey mod (capacity / 2).
Definition S_IDX (hashKey capacity : Z) : Z := u64 (hashKey mod (capacity / 2) + capacity / 2).

(** The capacity [level_insert] and the queries use for level [i]. *)
Definition capacity_of (l : level_hash) (i : lvl) : Z :=
  match i with L0 => addr_capacity l | L1 => addr_capacity l / 2 end.

(** ** Queries, deletion and update

    [find_in_bucket] is the inner loop shared by the searches: the first slot
    of bucket [idx] that is occupied and whose key is the string at [k]. *)
Definition find_in_bucket (bs : list level_bucket) (idx : Z) (k : list Z) : option nat :=
  for_first (upto ASSOC_NUM) (fun j =>
    if (token_at bs idx j =? 1) && (strcmp (key (slot_at bs idx j)) k =? 0)
    then Some j else None).

(** One iteration of the loop over levels: bucket [f_idx], then [s_idx]. *)
Definition find_in_level (l : level_hash) (i : lvl) (f_hash s_hash : Z) (k : list Z)
  : option (Z * nat) :=
  let bs := get2 (buckets l) i in
  let f_idx := F_IDX f_hash (capacity_of l i) in
  let s_idx := S_IDX s_hash (capacity_of l i) in
  match find_in_bucket bs f_idx k with
  | Some j => Some (f_idx, j)
  | None => match find_in_bucket bs s_idx k with
            | Some j => Some (s_idx, j)
            | None => None
            end
  end.

(** The position found by a search that visits the levels in [order]. *)
Definition search (l : level_hash) (order : list lvl) (k : list Z) : option (lvl * (Z * nat)) :=
  let f_hash := F_HASH l k in
  let s_hash := S_HASH l k in
  for_first order (fun i => p ← find_in_level l i f_hash s_hash k; Some (i, p)).

Definition value_at (l : level_hash) (pos : lvl * (Z * nat)) : list Z :=
  let '(i, (idx, j)) := pos in value (slot_at (get2 (buckets l) i) idx j).

Definition level_static_query (l : level_hash) (k : list Z) : option (list Z) :=
  value_at l <$> search l [L0; L1] k.

Definition level_dynamic_query (l : level_hash) (k : list Z) : option (list Z) :=
  if at1 (level_item_num l) <? at0 (level_item_num l)
  then value_at l <$> search l [L0; L1] k
  else value_at l <$> search l [L1; L0] k.

(** Deletion and update return the C result code and the table. *)
Definition level_delete (l : level_hash) (k : list Z) : Z * level_hash :=
  match search l [L0; L1] k with
  | Some (i, (idx, j)) =>
      (0, item_num_decr (set_buckets l i (set_token (get2 (buckets l) i) idx j 0)) i)
  | None => (1, l)
  end.

Definition level_update (l : level_hash) (k new_value : list Z) : Z * level_hash :=
  match search l [L0; L1] k with
  | Some (i, (idx, j)) => (0, set_buckets l i (set_value (get2 (buckets l) i) idx j new_value))
  | None => (1, l)
  end.

(** ** Insertion *)

(** The loop over slots that fills the first free one, [f_idx] before
    [s_idx] at each slot number. *)
Definition place_less_loaded (bs : list level_bucket) (f_idx s_idx : Z) (k v : list Z)
  : option (list level_bucket) :=
  for_first (upto ASSOC_NUM) (fun j =>
    if token_at bs f_idx j =? 0 then Some (fill_slot bs f_idx j k v)
    else if token_at bs s_idx j =? 0 then Some (fill_slot bs s_idx j k v)
    else None).

(** The first loop of [level_insert]. *)
Definition insert_empty (l : level_hash) (k v : list Z) : option level_hash :=
  let f_hash := F_HASH l k in
  let s_hash := S_HASH l k in
  for_first [L0; L1] (fun i =>
    bs ← place_less_loaded (get2 (buckets l) i) (F_IDX f_hash (capacity_of l i))
           (S_IDX s_hash (capacity_of l i)) k v;
    Some (item_num_incr (set_buckets l i bs) i)).

(** [try_movement] returns 0 when the item was moved and the new one
    inserted, 1 when no slot of the bucket can be vacated. *)
Definition alternative_idx (l : level_hash) (i : lvl) (idx : Z) (m_key : list Z) : Z :=
  let cap := addr_capacity l / (match i with L0 => 1 | L1 => 2 end) in
  let f_idx := F_IDX (F_HASH l m_key) cap in
  let s_idx := S_IDX (S_HASH l m_key) cap in
  if f_idx =? idx then s_idx else f_idx.

Definition try_movement (l : level_hash) (idx : Z) (i : lvl) (k v : list Z) : Z * level_hash :=
  let bs := get2 (buckets l) i in
  match
    for_first (upto ASSOC_NUM) (fun n =>
      let m := slot_at bs idx n in
      let jdx := alternative_idx l i idx (key m) in
      for_first (upto ASSOC_NUM) (fun j =>
        if token_at bs jdx j =? 0 then
          let bs1 := fill_slot bs jdx j (key m) (value m) in
          let bs2 := set_token bs1 idx n 0 in
          let bs3 := fill_slot bs2 idx n k v in
          Some (item_num_incr (set_buckets l i bs3) i)
        else None))
  with
  | Some l' => (0, l')
  | None => (1, l)
  end.

(** [b2t_movement] returns the number of the vacated slot, or -1. *)
Definition b2t_movement (l : level_hash) (idx : Z) : Z * level_hash :=
  let top := get2 (buckets l) L0 in
  let bot := get2 (buckets l) L1 in
  match
    for_first (upto ASSOC_NUM) (fun i =>
      let m := slot_at bot idx i in
      let f_idx := F_IDX (F_HASH l (key m)) (addr_capacity l) in
      let s_idx := S_IDX (S_HASH l (key m)) (addr_capacity l) in
      top' ← place_less_loaded top f_idx s_idx (key m) (value m);
      Some (Z.of_nat i,
            item_num_decr (item_num_incr
              (set_buckets (set_buckets l L0 top') L1 (set_token bot idx i 0)) L0) L1))
  with
  | Some r => r
  | None => (-1, l)
  end.

(** ** Allocation

    [posix_memalign] and [rand] belong to the C library and are parameters.
    [posix_memalign size] is [Some bs] when the allocation of [size] bytes
    succeeds, [bs] being whatever the fresh memory holds, seen as buckets.
    All allocations made by one call of a table function have different
    sizes, so indexing the answers by the size loses no behaviour. On failure
    the pointer that [alignedmalloc] returns keeps the indeterminate value of
    the local variable [ret]; [stale_is_null] says whether that is NULL. *)
Class Allocator := {
  posix_memalign : Z -> option (list level_bucket);
  stale_is_null : bool
}.

Inductive ptr := PNull | PWild | PBlock (bs : list level_bucket).

Definition alignedmalloc `{Allocator} (size : Z) : ptr :=
  match posix_memalign size with
  | Some bs => PBlock bs
  | None => if stale_is_null then PNull else PWild
  end.

(** [pow(2, n)] converted to an integer type: out of range from [n = 64] on. *)
Definition pow2 (n : Z) : res Z := if n <? 64 then Ret (2 ^ n) else UB.

(** A [double] size converted to [size_t]. *)
Definition size_of_double (d : Z) : res Z := if d <? 2 ^ 64 then Ret d else UB.

(** ** Expansion *)

(** The body of the two outer loops of [level_expand] for slot [i] of bottom
    bucket [old_idx]: the state is the bottom level, the new level and
    [new_level_item_num]. *)
Definition rehash_item (l : level_hash) (old_idx i : nat)
    (st : list level_bucket * list level_bucket * Z)
  : res (list level_bucket * list level_bucket * Z) :=
  let '(bot, newBuckets, n) := st in
  if token_at bot (Z.of_nat old_idx) i =? 1 then
    let e := slot_at bot (Z.of_nat old_idx) i in
    let f_idx := F_IDX (F_HASH l (key e)) (addr_capacity l) in
    let s_idx := S_IDX (S_HASH l (key e)) (addr_capacity l) in
    match place_less_loaded newBuckets f_idx s_idx (key e) (value e) with
    | Some newBuckets => Ret (set_token bot (Z.of_nat old_idx) i 0, newBuckets, u64 (n + 1))
    | None => Exit 1 3
    end
  else Ret st.

Definition rehash_bottom (l : level_hash) (bot newBuckets : list level_bucket)
  : res (list level_bucket * list level_bucket * Z) :=
  for_each (upto (Z.to_nat (2 ^ (level_size l - 1)))) (bot, newBuckets, 0)
    (fun old_idx st => for_each (upto ASSOC_NUM) st (fun i st => rehash_item l old_idx i st)).

Definition level_expand `{Allocator} (level : option level_hash) : res level_hash :=
  match level with
  | None => Exit 1 1
  | Some l =>
      cap ← pow2 (level_size l + 1);
      let l := LevelHash (buckets l) (level_item_num l) cap (total_capacity l) (level_size l)
                 (level_expand_time l) 1 (f_seed l) (s_seed l) in
      match alignedmalloc (u64 (addr_capacity l * sizeof_level_bucket)) with
      | PNull => Exit 1 2
      | PWild => UB
      | PBlock newBuckets =>
          '(_, newBuckets, new_level_item_num) ← rehash_bottom l (at1 (buckets l)) newBuckets;
          let ls := level_size l + 1 in
          Ret (LevelHash (Two newBuckets (at0 (buckets l)))
                 (Two new_level_item_num (at0 (level_item_num l)))
                 (addr_capacity l) (2 ^ ls + 2 ^ (ls - 1)) ls
                 (u8 (level_expand_time l + 1)) 0 (f_seed l) (s_seed l))
      end
  end.

(** ** Insertion, continued *)

(** The second loop of [level_insert]: make room by moving an item inside
    its level. *)
Definition insert_movement (l : level_hash) (k v : list Z) : option level_hash :=
  let f_hash := F_HASH l k in
  let s_hash := S_HASH l k in
  for_first [L0; L1] (fun i =>
    match try_movement l (F_IDX f_hash (capacity_of l i)) i k v with
    | (0, l') => Some l'
    | _ => match try_movement l (S_IDX s_hash (capacity_of l i)) i k v with
           | (0, l') => Some l'
           | _ => None
           end
    end).

(** One of the two attempts under [if (level->level_expand_time > 0)]. *)
Definition insert_b2t_at (l : level_hash) (idx : Z) (k v : list Z) : option level_hash :=
  let '(empty_location, l) := b2t_movement l idx in
  if empty_location =? -1 then None
  else Some (item_num_incr
               (set_buckets l L1
                  (fill_slot (at1 (buckets l)) idx (Z.to_nat empty_location) k v)) L1).

Definition insert_b2t (l : level_hash) (k v : list Z) : option level_hash :=
  if 0 <? level_expand_time l then
    match insert_b2t_at l (F_IDX (F_HASH l k) (addr_capacity l / 2)) k v with
    | Some l' => Some l'
    | None => insert_b2t_at l (S_IDX (S_HASH l k) (addr_capacity l / 2)) k v
    end
  else None.

(** [fuel] bounds the recursion through [level_expand]. *)
Fixpoint level_insert `{Allocator} (fuel : nat) (l : level_hash) (k v : list Z)
  : res (Z * level_hash) :=
  match fuel with
  | O => NoFuel
  | S fuel =>
      match insert_empty l k v with
      | Some l' => Ret (0, l')
      | None =>
          match insert_movement l k v with
          | Some l' => Ret (0, l')
          | None =>
              match insert_b2t l k v with
              | Some l' => Ret (0, l')
              | None => l' ← level_expand (Some l); level_insert fuel l' k v
              end
          end
      end
  end.

(** ** Shrinking *)

(** Reinsertion of the items of one old top-level bucket. The token of each
    reinserted item is cleared in [interimBuckets], which is not read again
    at that slot and is freed at the end. *)
Definition reinsert_bucket `{Allocator} (fuel : nat) (b : level_bucket) (l : level_hash)
  : res level_hash :=
  for_each (upto ASSOC_NUM) l (fun i l =>
    if default 0 (token b !! i) =? 1 then
      '(r, l) ← level_insert fuel l (key (slot b !!! i)) (value (slot b !!! i));
      if r =? 0 then Ret l else Exit 1 3
    else Ret l).

(** [for (old_idx = 0; old_idx < pow(2, level->level_size + 1); old_idx++)]:
    the bound is read from the table in every iteration; [interim] holds the
    old buckets from [old_idx] on, and running past them is [UB]. *)
Fixpoint shrink_loop `{Allocator} (fuel : nat) (interim : list level_bucket) (old_idx : Z)
    (l : level_hash) : res level_hash :=
  if old_idx <? 2 ^ (level_size l + 1) then
    match interim with
    | [] => UB
    | b :: interim =>
        l ← reinsert_bucket fuel b l;
        shrink_loop fuel interim (old_idx + 1) l
    end
  else Ret l.

(** [level_item_num[0] + level_item_num[1] > total_capacity * ASSOC_NUM * 0.4],
    with the product by 0.4 taken exactly. *)
Definition too_full_to_shrink (l : level_hash) : bool :=
  4 * u64 (total_capacity l * Z.of_nat ASSOC_NUM)
    <? 10 * u64 (at0 (level_item_num l) + at1 (level_item_num l)).

(** The source does not test the new pointer for NULL; using it is [UB]. *)
Definition level_shrink `{Allocator} (fuel : nat) (level : option level_hash)
  : res level_hash :=
  match level with
  | None => Exit 1 1
  | Some l =>
      if too_full_to_shrink l then Exit 1 2
      else
        let ls := u64 (level_size l - 1) in
        half ← pow2 (u64 (ls - 1));
        size ← size_of_double (half * sizeof_level_bucket);
        match alignedmalloc size with
        | PNull | PWild => UB
        | PBlock newBuckets =>
            let interimBuckets := at0 (buckets l) in
            let l := LevelHash (Two (at1 (buckets l)) newBuckets)
                       (Two (at1 (level_item_num l)) 0) (2 ^ ls) (2 ^ ls + half) ls
                       (level_expand_time l) 2 (f_seed l) (s_seed l) in
            l ← shrink_loop fuel interimBuckets 0 l;
            Ret (LevelHash (buckets l) (level_item_num l) (addr_capacity l) (total_capacity l)
                   (level_size l) 0 0 (f_seed l) (s_seed l))
        end
  end.

(** ** Creation and destruction *)

(** [rand] is the sequence of values returned by the C library's [rand]
    after [srand]; [n] counts the calls made so far. *)
Fixpoint generate_seeds (fuel : nat) (rand : nat -> Z) (n : nat) : res (Z * Z) :=
  match fuel with
  | O => NoFuel
  | S fuel =>
      let f := rand n in
      let s := rand (n + 1)%nat in
      let f := u64 (Z.shiftl f (rand (n + 2)%nat mod 63)) in
      let s := u64 (Z.shiftl s (rand (n + 3)%nat mod 63)) in
      if f =? s then generate_seeds fuel rand (n + 4) else Ret (f, s)
  end.

Definition sizeof_level_hash : Z := 80.

(** A wild bucket pointer passes the NULL test; it is reported as [UB] here,
    although only its first use is undefined. *)
Definition level_init `{Allocator} (fuel : nat) (rand : nat -> Z) (level_size : Z)
  : res level_hash :=
  match alignedmalloc sizeof_level_hash with
  | PNull => Exit 1 1
  | PWild => UB
  | PBlock _ =>
      cap ← pow2 level_size;
      half ← pow2 (u64 (level_size - 1));
      '(f, s) ← generate_seeds fuel rand 0;
      top_size ← size_of_double (cap * sizeof_level_bucket);
      bot_size ← size_of_double (half * sizeof_level_bucket);
      match alignedmalloc top_size, alignedmalloc bot_size with
      | PBlock top, PBlock bot =>
          Ret (LevelHash (Two top bot) (Two 0 0) cap (cap + half) level_size 0 0 f s)
      | PNull, _ | _, PNull => Exit 1 2
      | _, _ => UB
      end
  end.

(** Which of the three blocks of a table are still allocated. *)
Record table_blocks := Blocks { struct_live : bool; buckets_live : two bool }.

Definition level_destroy (b : table_blocks) : table_blocks :=
  Blocks (struct_live b) (Two false false).
