(* ===== verification/LevelHashInv.v ===== *)
(** * LevelHashInv: the invariant of the level hash table, and searches

    What a level holds ([level_items]), when a level is well formed
    ([level_ok]: shape of the buckets, tokens, and every item in one of its
    two home buckets), the invariant of a whole table ([Inv]), and how the
    elementary writes of the C code act on them.

    A search finds an item exactly when the key is stored; deletion removes
    one occurrence, update rewrites one value, and both keep [Inv]. *)

From S2P Require Import Prelude.
From S2P Require Import StringHash.
From S2P Require Import LevelHash.

Import StringHash.

#[local] Opaque hash_.

(** ** Contents *)

(** A slot as the code sees it: its token and its entry. *)
Definition cells (b : level_bucket) : list (Z * entry) := zip (token b) (slot b).

Definition cell_item (c : Z * entry) : list (list Z * list Z) :=
  if c.1 =? 1 then [(cstr (key c.2), value c.2)] else [].

Definition bucket_items (b : level_bucket) : list (list Z * list Z) := cells b ≫= cell_item.

(** The key-value items stored in a level, keys as strings. *)
Definition level_items (bs : list level_bucket) : list (list Z * list Z) :=
  bs ≫= bucket_items.

Definition items (l : level_hash) : list (list Z * list Z) :=
  level_items (at0 (buckets l)) ++ level_items (at1 (buckets l)).

(** ** Well-formedness *)

Definition entry_ok (e : entry) : Prop :=
  length (key e) = KEY_LEN /\ length (value e) = VALUE_LEN.

Record bucket_ok (b : level_bucket) : Prop := {
  ok_tokens : length (token b) = ASSOC_NUM;
  ok_slots : length (slot b) = ASSOC_NUM;
  ok_token_bit : Forall (fun t => t = 0 \/ t = 1) (token b);
  ok_entries : Forall entry_ok (slot b)
}.

(** What the memory of a bucket is before anything is known about its tokens. *)
Definition raw_bucket (b : level_bucket) : Prop :=
  length (token b) = ASSOC_NUM /\ length (slot b) = ASSOC_NUM /\ Forall entry_ok (slot b).

(** Predicates on buckets that guarantee at least this. *)
Class Sized (P : level_bucket -> Prop) : Prop := sized : forall b, P b -> raw_bucket b.

#[export] Instance bucket_ok_sized : Sized bucket_ok | 0.
Proof. by intros b []. Qed.

#[export] Instance raw_bucket_sized : Sized raw_bucket | 10.
Proof. by intros b. Qed.

(** An item belongs in bucket [idx] of a level of [cap] buckets: its key is
    NUL-terminated and hashes to [idx] with one of the two hash functions. *)
Definition home (fs ss cap idx : Z) (e : entry) : Prop :=
  0 ∈ key e /\
  (idx = F_IDX (hash_ 0 (key e) (strlen (key e)) fs) cap \/
   idx = S_IDX (hash_ 0 (key e) (strlen (key e)) ss) cap).

Definition in_range (bs : list level_bucket) (idx : Z) : Prop :=
  0 <= idx < Z.of_nat (length bs).

Record level_ok (fs ss n : Z) (bs : list level_bucket) : Prop := {
  ok_length : Z.of_nat (length bs) = 2 ^ n;
  ok_buckets : Forall bucket_ok bs;
  ok_home : forall idx j, in_range bs idx -> (j < ASSOC_NUM)%nat ->
    token_at bs idx j = 1 -> home fs ss (2 ^ n) idx (slot_at bs idx j)
}.

Definition MAX_LEVEL : Z := 55.

(** The invariant of a table between two operations. *)
Record Inv (l : level_hash) : Prop := {
  inv_size : 2 <= level_size l <= MAX_LEVEL;
  inv_addr : addr_capacity l = 2 ^ level_size l;
  inv_total : total_capacity l = 2 ^ level_size l + 2 ^ (level_size l - 1);
  inv_top : level_ok (f_seed l) (s_seed l) (level_size l) (at0 (buckets l));
  inv_bot : level_ok (f_seed l) (s_seed l) (level_size l - 1) (at1 (buckets l));
  inv_num0 : at0 (level_item_num l) = Z.of_nat (length (level_items (at0 (buckets l))));
  inv_num1 : at1 (level_item_num l) = Z.of_nat (length (level_items (at1 (buckets l))))
}.

(** Keys and values the API accepts. *)
Definition valid_key (k : list Z) : Prop := length k = KEY_LEN /\ 0 ∈ k.
Definition valid_value (v : list Z) : Prop := length v = VALUE_LEN.

(** ** Writing one cell *)

Definition write_cell (bs : list level_bucket) (idx : Z) (j : nat) (t : Z) (e : entry)
  : list level_bucket :=
  alter (fun b => Bucket (<[j := t]> (token b)) (<[j := e]> (slot b))) (Z.to_nat idx) bs.

Lemma length_write_cell bs idx j t e : length (write_cell bs idx j t e) = length bs.
Proof. apply length_alter. Qed.

Section cells.
Context {P : level_bucket -> Prop} `{!Sized P}.
Context (bs : list level_bucket).
Context (Hok : Forall P bs).

Lemma bucket_lookup idx :
  in_range bs idx -> exists b, bs !! Z.to_nat idx = Some b /\ bs !!! Z.to_nat idx = b /\ P b.
Proof using Hok.
  intros [H0 H1]. destruct (lookup_lt_is_Some_2 bs (Z.to_nat idx)) as [b Hb]; [lia|].
  exists b. split_and!; [done|by apply list_lookup_total_correct|].
  by eapply Forall_lookup_1.
Qed.

Lemma token_at_lookup idx j b :
  bs !! Z.to_nat idx = Some b -> token_at bs idx j = default 0 (token b !! j).
Proof using. intros Hb. unfold token_at. by rewrite (list_lookup_total_correct _ _ _ Hb). Qed.

Lemma slot_at_lookup idx j b e :
  bs !! Z.to_nat idx = Some b -> slot b !! j = Some e -> slot_at bs idx j = e.
Proof using.
  intros Hb He. unfold slot_at. rewrite (list_lookup_total_correct _ _ _ Hb).
  by apply list_lookup_total_correct.
Qed.

(** Bucket, token and entry of a slot that exists. *)
Lemma cell_lookup idx j :
  in_range bs idx -> (j < ASSOC_NUM)%nat ->
  exists b, bs !! Z.to_nat idx = Some b /\ P b /\
    token b !! j = Some (token_at bs idx j) /\ slot b !! j = Some (slot_at bs idx j).
Proof using Hok Sized0.
  intros Hr Hj. destruct (bucket_lookup idx Hr) as (b & Hb & _ & Hbok).
  destruct (sized b Hbok) as (Hlt & Hls & _).
  destruct (lookup_lt_is_Some_2 (token b) j) as [t Ht]; [by rewrite Hlt|].
  destruct (lookup_lt_is_Some_2 (slot b) j) as [e He]; [by rewrite Hls|].
  exists b. rewrite (token_at_lookup _ _ _ Hb), (slot_at_lookup _ _ _ _ Hb He), Ht, He. done.
Qed.

Lemma slot_at_ok idx j :
  in_range bs idx -> (j < ASSOC_NUM)%nat -> entry_ok (slot_at bs idx j).
Proof using Hok Sized0.
  intros Hr Hj. destruct (cell_lookup idx j Hr Hj) as (b & _ & Hb & _ & He).
  destruct (sized b Hb) as (_ & _ & Hes). by apply (Forall_lookup_1 _ _ _ _ Hes He).
Qed.

Lemma write_cell_items idx j t e :
  in_range bs idx -> (j < ASSOC_NUM)%nat ->
  exists rest,
    level_items bs ≡ₚ cell_item (token_at bs idx j, slot_at bs idx j) ++ rest /\
    level_items (write_cell bs idx j t e) ≡ₚ cell_item (t, e) ++ rest.
Proof using Hok Sized0.
  intros Hr Hj. destruct (cell_lookup idx j Hr Hj) as (b & Hb & Hbok & Ht & He).
  assert (cells b !! j = Some (token_at bs idx j, slot_at bs idx j)) as Hc.
  { unfold cells. rewrite lookup_zip_with, Ht, He. done. }
  exists ((delete j (cells b) ≫= cell_item) ++ (delete (Z.to_nat idx) bs ≫= bucket_items)).
  split.
  - unfold level_items. rewrite (bind_cell bucket_items bs _ b Hb).
    unfold bucket_items at 1. by rewrite (bind_cell cell_item _ j _ Hc), (assoc_L (++)).
  - unfold level_items, write_cell. rewrite (alter_insert_lookup _ _ _ b Hb).
    rewrite bind_cell_insert by by eapply lookup_lt_Some.
    assert (bucket_items (Bucket (<[j:=t]> (token b)) (<[j:=e]> (slot b)))
            = <[j:=(t, e)]> (cells b) ≫= cell_item) as ->.
    { unfold bucket_items. f_equal. symmetry. apply (insert_zip_with pair). }
    rewrite bind_cell_insert by by eapply lookup_lt_Some.
    by rewrite (assoc_L (++)).
Qed.

Lemma token_at_write idx j t e idx' j' :
  in_range bs idx -> (j < ASSOC_NUM)%nat -> 0 <= idx' ->
  token_at (write_cell bs idx j t e) idx' j' =
    if decide (idx = idx' /\ j = j') then t else token_at bs idx' j'.
Proof using Hok Sized0.
  intros Hr Hj H'. destruct (cell_lookup idx j Hr Hj) as (b & Hb & Hbok & Ht & He).
  unfold write_cell. rewrite (alter_insert_lookup _ _ _ b Hb). unfold token_at.
  assert (Z.to_nat idx < length bs)%nat by by eapply lookup_lt_Some.
  destruct (decide (idx = idx')) as [<-|Hne].
  - rewrite list_lookup_total_insert_eq by done. simpl.
    rewrite (list_lookup_total_correct _ _ _ Hb).
    destruct (decide (j = j')) as [<-|Hne].
    + rewrite decide_True by done. rewrite list_lookup_insert_eq; [done|].
      by eapply lookup_lt_Some.
    + rewrite decide_False by not_both. by rewrite list_lookup_insert_ne.
  - rewrite decide_False by not_both.
    rewrite list_lookup_total_insert_ne; [done|]. destruct Hr. lia.
Qed.

Lemma slot_at_write idx j t e idx' j' :
  in_range bs idx -> (j < ASSOC_NUM)%nat -> 0 <= idx' ->
  slot_at (write_cell bs idx j t e) idx' j' =
    if decide (idx = idx' /\ j = j') then e else slot_at bs idx' j'.
Proof using Hok Sized0.
  intros Hr Hj H'. destruct (cell_lookup idx j Hr Hj) as (b & Hb & Hbok & Ht & He).
  unfold write_cell. rewrite (alter_insert_lookup _ _ _ b Hb). unfold slot_at.
  assert (Z.to_nat idx < length bs)%nat by by eapply lookup_lt_Some.
  destruct (decide (idx = idx')) as [<-|Hne].
  - rewrite list_lookup_total_insert_eq by done. simpl.
    rewrite (list_lookup_total_correct _ _ _ Hb).
    destruct (decide (j = j')) as [<-|Hne].
    + rewrite decide_True by done. rewrite list_lookup_total_insert_eq; [done|].
      by eapply lookup_lt_Some.
    + rewrite decide_False by not_both. by rewrite list_lookup_total_insert_ne.
  - rewrite decide_False by not_both.
    rewrite list_lookup_total_insert_ne; [done|]. destruct Hr. lia.
Qed.
End cells.

Section token_bits.
Context (bs : list level_bucket).
Context (Hok : Forall bucket_ok bs).

Lemma token_at_bit idx j :
  in_range bs idx -> (j < ASSOC_NUM)%nat -> token_at bs idx j = 0 \/ token_at bs idx j = 1.
Proof using Hok.
  intros Hr Hj. destruct (cell_lookup bs Hok idx j Hr Hj) as (b & _ & Hb & Ht & _).
  by apply (Forall_lookup_1 _ _ _ _ (ok_token_bit b Hb) Ht).
Qed.

Lemma write_cell_ok idx j t e :
  t = 0 \/ t = 1 -> entry_ok e -> Forall bucket_ok (write_cell bs idx j t e).
Proof using Hok.
  intros Ht He. unfold write_cell. apply Forall_alter; [done|].
  intros b Hb. destruct (Forall_lookup_1 _ _ _ _ Hok Hb) as [H1 H2 H3 H4].
  split; simpl; rewrite ?length_insert; [done..| |]; by apply Forall_insert.
Qed.
End token_bits.

Lemma write_cell_raw bs idx j t e :
  Forall raw_bucket bs -> entry_ok e -> Forall raw_bucket (write_cell bs idx j t e).
Proof.
  intros Hok He. unfold write_cell. apply Forall_alter; [done|].
  intros b Hb. destruct (Forall_lookup_1 _ _ _ _ Hok Hb) as (H1 & H2 & H3).
  unfold raw_bucket. simpl. rewrite !length_insert. split; [done|]. split; [done|]. by apply Forall_insert.
Qed.


(** ** The writes of the C code as cell writes *)

Lemma set_token_cell {P : level_bucket -> Prop} `{!Sized P} bs idx j t :
  Forall P bs -> in_range bs idx -> (j < ASSOC_NUM)%nat ->
  set_token bs idx j t = write_cell bs idx j t (slot_at bs idx j).
Proof.
  intros Hok Hr Hj. destruct (cell_lookup bs Hok idx j Hr Hj) as (b & Hb & _ & _ & He).
  unfold set_token, write_cell. rewrite !(alter_insert_lookup _ _ _ b Hb).
  by rewrite (list_insert_id _ _ _ He).
Qed.

Lemma set_value_cell {P : level_bucket -> Prop} `{!Sized P} bs idx j v :
  Forall P bs -> in_range bs idx -> (j < ASSOC_NUM)%nat -> valid_value v ->
  set_value bs idx j v
    = write_cell bs idx j (token_at bs idx j) (Entry (key (slot_at bs idx j)) v).
Proof.
  intros Hok Hr Hj Hv. pose proof (slot_at_ok bs Hok idx j Hr Hj) as [_ Hl].
  destruct (cell_lookup bs Hok idx j Hr Hj) as (b & Hb & _ & Ht & He).
  unfold set_value, write_cell. rewrite !(alter_insert_lookup _ _ _ b Hb).
  rewrite (list_insert_id _ _ _ Ht), (alter_insert_lookup _ _ _ _ He).
  by rewrite (memcpy_whole _ v) by done.
Qed.

Lemma fill_slot_cell {P : level_bucket -> Prop} `{!Sized P} bs idx j k v :
  Forall P bs -> in_range bs idx -> (j < ASSOC_NUM)%nat ->
  length k = KEY_LEN -> valid_value v ->
  fill_slot bs idx j k v = write_cell bs idx j 1 (Entry k v).
Proof.
  intros Hok Hr Hj Hk Hv. pose proof (slot_at_ok bs Hok idx j Hr Hj) as [Hl1 Hl2].
  destruct (cell_lookup bs Hok idx j Hr Hj) as (b & Hb & _ & Ht & He).
  assert (Z.to_nat idx < length bs)%nat by by eapply lookup_lt_Some.
  assert (j < length (slot b))%nat by by eapply lookup_lt_Some.
  unfold fill_slot, set_key, write_cell. rewrite !(alter_insert_lookup _ _ _ b Hb).
  rewrite (alter_insert_lookup _ _ _ _ He), (memcpy_whole _ k) by done.
  unfold set_value. erewrite alter_insert_lookup by by apply list_lookup_insert_eq.
  rewrite list_insert_insert_eq. simpl.
  erewrite alter_insert_lookup by by apply list_lookup_insert_eq.
  rewrite list_insert_insert_eq, memcpy_whole by done.
  unfold set_token. erewrite alter_insert_lookup by by apply list_lookup_insert_eq.
  by rewrite list_insert_insert_eq.
Qed.

(** ** Adding, removing and changing an item of a level *)

Section level.
Context (fs ss n : Z) (bs : list level_bucket).
Context (Hok : level_ok fs ss n bs).

Lemma write_cell_level idx j t e :
  in_range bs idx -> (j < ASSOC_NUM)%nat -> t = 0 \/ t = 1 -> entry_ok e ->
  (t = 1 -> home fs ss (2 ^ n) idx e) -> level_ok fs ss n (write_cell bs idx j t e).
Proof using Hok.
  intros Hr Hj Ht He Hh. destruct Hok as [H1 H2 H3]. split.
  - by rewrite length_write_cell.
  - by apply write_cell_ok.
  - intros idx' j' Hr' Hj'. unfold in_range in Hr'. rewrite length_write_cell in Hr'.
    rewrite token_at_write, slot_at_write by (done || apply Hr').
    destruct (decide (idx = idx' /\ j = j')) as [[<- <-]|]; [done|]. by apply H3.
Qed.

Lemma level_add idx j k v :
  in_range bs idx -> (j < ASSOC_NUM)%nat -> token_at bs idx j = 0 ->
  valid_key k -> valid_value v -> home fs ss (2 ^ n) idx (Entry k v) ->
  level_ok fs ss n (fill_slot bs idx j k v) /\
  level_items (fill_slot bs idx j k v) ≡ₚ (cstr k, v) :: level_items bs.
Proof using Hok.
  intros Hr Hj Ht [Hk ?] Hv Hh. rewrite fill_slot_cell by (done || apply Hok). split.
  - apply write_cell_level; auto. done.
  - destruct (write_cell_items bs (ok_buckets _ _ _ _ Hok) idx j 1 (Entry k v) Hr Hj)
      as (rest & E1 & E2).
    rewrite E2, E1, Ht. done.
Qed.

Lemma level_remove idx j :
  in_range bs idx -> (j < ASSOC_NUM)%nat -> token_at bs idx j = 1 ->
  level_ok fs ss n (set_token bs idx j 0) /\
  level_items bs ≡ₚ (cstr (key (slot_at bs idx j)), value (slot_at bs idx j))
                      :: level_items (set_token bs idx j 0).
Proof using Hok.
  intros Hr Hj Ht. rewrite set_token_cell by (done || apply Hok). split.
  - apply write_cell_level; auto; [|done]. by apply slot_at_ok; [apply Hok|..].
  - destruct (write_cell_items bs (ok_buckets _ _ _ _ Hok) idx j 0 (slot_at bs idx j) Hr Hj)
      as (rest & E1 & E2).
    rewrite E2, E1, Ht. done.
Qed.

Lemma level_revalue idx j v :
  in_range bs idx -> (j < ASSOC_NUM)%nat -> token_at bs idx j = 1 -> valid_value v ->
  level_ok fs ss n (set_value bs idx j v) /\
  exists rest,
    level_items bs ≡ₚ (cstr (key (slot_at bs idx j)), value (slot_at bs idx j)) :: rest /\
    level_items (set_value bs idx j v) ≡ₚ (cstr (key (slot_at bs idx j)), v) :: rest.
Proof using Hok.
  intros Hr Hj Ht Hv. rewrite set_value_cell by (done || apply Hok). rewrite Ht. split.
  - pose proof (slot_at_ok bs (ok_buckets _ _ _ _ Hok) idx j Hr Hj) as [Hk _].
    apply write_cell_level; auto; [done|]. intros _.
    apply (ok_home _ _ _ _ Hok idx j Hr Hj Ht).
  - destruct (write_cell_items bs (ok_buckets _ _ _ _ Hok) idx j 1
                (Entry (key (slot_at bs idx j)) v) Hr Hj) as (rest & E1 & E2).
    exists rest. by rewrite E2, E1, Ht.
Qed.

(** Membership is occupation of a slot. *)
Lemma elem_of_level_items k v :
  (k, v) ∈ level_items bs <->
  exists idx j, in_range bs idx /\ (j < ASSOC_NUM)%nat /\ token_at bs idx j = 1 /\
    k = cstr (key (slot_at bs idx j)) /\ v = value (slot_at bs idx j).
Proof using Hok.
  unfold level_items, bucket_items. rewrite list_elem_of_bind. split.
  - intros (b & Hkv & Hb). apply list_elem_of_bind in Hkv as ([t e] & Hkv & Hc).
    apply list_elem_of_lookup in Hb as [i Hb]. apply list_elem_of_lookup in Hc as [j Hc].
    unfold cells in Hc. apply lookup_zip_Some in Hc as [Ht He].
    unfold cell_item in Hkv. simpl in Hkv.
    destruct (Z.eqb_spec t 1) as [->|]; [|set_solver].
    apply list_elem_of_singleton in Hkv. simplify_eq.
    assert (bs !! Z.to_nat (Z.of_nat i) = Some b) as Hb' by by rewrite Nat2Z.id.
    pose proof (lookup_lt_Some _ _ _ Hb).
    pose proof (Forall_lookup_1 _ _ _ _ (ok_buckets _ _ _ _ Hok) Hb) as Hbok.
    pose proof (lookup_lt_Some _ _ _ Ht). rewrite (ok_tokens b Hbok) in *.
    exists (Z.of_nat i), j.
    rewrite (token_at_lookup bs _ _ _ Hb'), (slot_at_lookup bs _ _ _ _ Hb' He), Ht.
    unfold in_range. split_and!; done || lia.
  - intros (idx & j & Hr & Hj & Ht & -> & ->).
    destruct (cell_lookup bs (ok_buckets _ _ _ _ Hok) idx j Hr Hj) as (b & Hb & _ & Et & Ee).
    exists b. split; [|by eapply list_elem_of_lookup_2].
    apply list_elem_of_bind. exists (token_at bs idx j, slot_at bs idx j). split.
    + unfold cell_item. simpl. rewrite Ht. simpl. by apply list_elem_of_singleton.
    + apply (list_elem_of_lookup_2 _ j). unfold cells. by rewrite lookup_zip_with, Et, Ee.
Qed.

(** A level never holds more items than it has slots. *)
Lemma level_items_bound : Z.of_nat (length (level_items bs)) <= 4 * 2 ^ n.
Proof using Hok.
  rewrite <- (ok_length _ _ _ _ Hok). pose proof (ok_buckets _ _ _ _ Hok) as Hb.
  clear Hok. unfold level_items. induction Hb as [|b bs' Hb _ IH]; [done|].
  rewrite bind_cons, length_app. cbn [length]. assert (length (bucket_items b) <= 4)%nat.
  { unfold bucket_items, cells. destruct Hb as [H1 H2 _ _].
    destruct (token b) as [|t1 [|t2 [|t3 [|t4 [|]]]]]; try discriminate H1.
    destruct (slot b) as [|e1 [|e2 [|e3 [|e4 [|]]]]]; try discriminate H2.
    unfold cell_item. simpl. rewrite !length_app.
    repeat (case_match; simpl); lia. }
  lia.
Qed.
End level.

(** ** Hash locations *)

Lemma hash_cstr k s : hash_ 0 k (strlen k) s = XXH64.xxh64 s (cstr k).
Proof.
  pose proof (length_cstr k). unfold strlen. rewrite XXH64.hash_xxh64 by lia.
  by rewrite Nat2Z.id, cstr_prefix.
Qed.

Lemma hash_range k s : in_width 64 (hash_ 0 k (strlen k) s).
Proof. rewrite hash_cstr. apply XXH64.xxh64_range. Qed.

Lemma pow2_half n : 1 <= n -> 2 ^ n / 2 = 2 ^ (n - 1).
Proof.
  intros. replace n with (Z.succ (n - 1)) at 1 by lia. rewrite Z.pow_succ_r by lia.
  rewrite Z.mul_comm. apply Z.div_mul. lia.
Qed.

Lemma pow2_double n : 0 <= n -> 2 ^ (n + 1) = 2 * 2 ^ n.
Proof. intros. by rewrite Z.add_1_r, Z.pow_succ_r by lia. Qed.

Lemma pow2_bound n m : 0 <= n <= m -> 1 <= 2 ^ n <= 2 ^ m.
Proof.
  intros. split; [|apply Z.pow_le_mono_r; lia].
  assert (0 < 2 ^ n) by (apply Z.pow_pos_nonneg; lia). lia.
Qed.

Lemma F_IDX_range n h : 1 <= n -> 0 <= F_IDX h (2 ^ n) < 2 ^ (n - 1).
Proof.
  intros. unfold F_IDX. rewrite pow2_half by done. apply Z.mod_pos_bound.
  apply Z.pow_pos_nonneg; lia.
Qed.

Lemma S_IDX_range n h : 1 <= n <= 63 -> 2 ^ (n - 1) <= S_IDX h (2 ^ n) < 2 ^ n.
Proof.
  intros. unfold S_IDX. rewrite pow2_half by lia.
  assert (0 < 2 ^ (n - 1)) by (apply Z.pow_pos_nonneg; lia).
  pose proof (Z.mod_pos_bound h (2 ^ (n - 1))) as Hm.
  assert (2 ^ n = 2 * 2 ^ (n - 1)) by (rewrite <- pow2_double by lia; f_equal; lia).
  pose proof (pow2_bound n 63).
  rewrite wrap_small; [lia|]. unfold in_width. change (2 ^ 64) with (2 * 2 ^ 63). lia.
Qed.

(** Only the string matters for where a key belongs. *)
Lemma home_cstr fs ss cap idx e k :
  cstr (key e) = cstr k -> home fs ss cap idx e ->
  idx = F_IDX (hash_ 0 k (strlen k) fs) cap \/ idx = S_IDX (hash_ 0 k (strlen k) ss) cap.
Proof. intros Hk [_ Hh]. by rewrite !hash_cstr, Hk in *. Qed.

(** ** The two levels of a table *)

Definition lsize (l : level_hash) (i : lvl) : Z :=
  match i with L0 => level_size l | L1 => level_size l - 1 end.

Definition other (i : lvl) : lvl := match i with L0 => L1 | L1 => L0 end.

Abbreviation lvl_of l i := (get2 (buckets l) i).
Abbreviation f_home l i k := (F_IDX (F_HASH l k) (capacity_of l i)).
Abbreviation s_home l i k := (S_IDX (S_HASH l k) (capacity_of l i)).

Section table.
Context (l : level_hash).
Context (HI : Inv l).

Lemma Inv_level i : level_ok (f_seed l) (s_seed l) (lsize l i) (lvl_of l i).
Proof using HI. destruct HI, i; done. Qed.

Lemma Inv_num i :
  get2 (level_item_num l) i = Z.of_nat (length (level_items (lvl_of l i))).
Proof using HI. destruct HI, i; done. Qed.

Lemma lsize_range i : 1 <= lsize l i <= MAX_LEVEL.
Proof using HI. pose proof (inv_size l HI). destruct i; simpl; lia. Qed.

Lemma capacity_pow2 i : capacity_of l i = 2 ^ lsize l i.
Proof using HI.
  pose proof (inv_size l HI). destruct i; simpl; rewrite (inv_addr l HI); [done|].
  apply pow2_half. lia.
Qed.

Lemma f_home_range i k : in_range (lvl_of l i) (f_home l i k).
Proof using HI.
  pose proof (lsize_range i). rewrite capacity_pow2. unfold in_range.
  rewrite (ok_length _ _ _ _ (Inv_level i)).
  pose proof (F_IDX_range (lsize l i) (F_HASH l k)). pose proof (pow2_bound (lsize l i - 1) (lsize l i)).
  lia.
Qed.

Lemma s_home_range i k : in_range (lvl_of l i) (s_home l i k).
Proof using HI.
  pose proof (lsize_range i). unfold MAX_LEVEL in *. rewrite capacity_pow2. unfold in_range.
  rewrite (ok_length _ _ _ _ (Inv_level i)).
  pose proof (S_IDX_range (lsize l i) (S_HASH l k)). pose proof (pow2_bound (lsize l i - 1) (lsize l i)).
  lia.
Qed.

(** The two home buckets of a key in a level are never the same. *)
Lemma homes_differ i k k' : f_home l i k <> s_home l i k'.
Proof using HI.
  pose proof (lsize_range i). unfold MAX_LEVEL in *. rewrite !capacity_pow2.
  pose proof (F_IDX_range (lsize l i) (F_HASH l k)).
  pose proof (S_IDX_range (lsize l i) (S_HASH l k')). lia.
Qed.

Lemma f_home_home i k v :
  0 ∈ k -> home (f_seed l) (s_seed l) (2 ^ lsize l i) (f_home l i k) (Entry k v).
Proof using HI. intros. rewrite capacity_pow2. split; [done|]. by left. Qed.

Lemma s_home_home i k v :
  0 ∈ k -> home (f_seed l) (s_seed l) (2 ^ lsize l i) (s_home l i k) (Entry k v).
Proof using HI. intros. rewrite capacity_pow2. split; [done|]. by right. Qed.

Lemma items_split i : items l ≡ₚ level_items (lvl_of l i) ++ level_items (lvl_of l (other i)).
Proof using. destruct i; simpl; [done|]. apply Permutation_app_comm. Qed.

Lemma count_range i : in_width 64 (Z.of_nat (length (level_items (lvl_of l i))) + 1).
Proof using HI.
  pose proof (level_items_bound _ _ _ _ (Inv_level i)). pose proof (lsize_range i).
  unfold MAX_LEVEL in *. pose proof (pow2_bound (lsize l i) 55).
  unfold in_width. change (2 ^ 64) with (512 * 2 ^ 55). lia.
Qed.

(** Replacing one level, with its item count brought up to date. *)
Lemma Inv_set_level i bs c :
  level_ok (f_seed l) (s_seed l) (lsize l i) bs ->
  c = Z.of_nat (length (level_items bs)) ->
  Inv (set_item_num (set_buckets l i bs) i c).
Proof using HI. intros Hb ->. destruct HI, i; split; simpl; done. Qed.

Lemma Inv_set_level_same i bs :
  level_ok (f_seed l) (s_seed l) (lsize l i) bs ->
  length (level_items bs) = length (level_items (lvl_of l i)) ->
  Inv (set_buckets l i bs).
Proof using HI.
  intros Hb E. destruct HI, i; split; simpl in *; try done; by rewrite E.
Qed.

(** A free slot of a home bucket takes a new item. *)
Lemma table_add i idx j k v :
  idx = f_home l i k \/ idx = s_home l i k -> (j < ASSOC_NUM)%nat ->
  token_at (lvl_of l i) idx j = 0 -> valid_key k -> valid_value v ->
  Inv (item_num_incr (set_buckets l i (fill_slot (lvl_of l i) idx j k v)) i) /\
  items (item_num_incr (set_buckets l i (fill_slot (lvl_of l i) idx j k v)) i)
    ≡ₚ (cstr k, v) :: items l.
Proof using HI.
  intros Hidx Hj Ht Hk Hv.
  assert (in_range (lvl_of l i) idx /\
          home (f_seed l) (s_seed l) (2 ^ lsize l i) idx (Entry k v)) as [Hr Hh].
  { destruct Hk. destruct Hidx as [-> | ->].
    - split; [apply f_home_range|by apply f_home_home].
    - split; [apply s_home_range|by apply s_home_home]. }
  destruct (level_add _ _ _ _ (Inv_level i) idx j k v Hr Hj Ht Hk Hv Hh) as [Hok Hp].
  split.
  - apply Inv_set_level; [done|]. simpl. rewrite (Inv_num i), Hp. simpl.
    pose proof (count_range i). rewrite wrap_small by done. lia.
  - rewrite (items_split i), (app_comm_cons _ _ (cstr k, v)), <- Hp.
    destruct i; simpl; [done|]. apply Permutation_app_comm.
Qed.

(** Clearing the token of an occupied slot removes its item. *)
Lemma table_remove i idx j :
  in_range (lvl_of l i) idx -> (j < ASSOC_NUM)%nat -> token_at (lvl_of l i) idx j = 1 ->
  Inv (item_num_decr (set_buckets l i (set_token (lvl_of l i) idx j 0)) i) /\
  items l ≡ₚ (cstr (key (slot_at (lvl_of l i) idx j)), value (slot_at (lvl_of l i) idx j))
             :: items (item_num_decr (set_buckets l i (set_token (lvl_of l i) idx j 0)) i).
Proof using HI.
  intros Hr Hj Ht. destruct (level_remove _ _ _ _ (Inv_level i) idx j Hr Hj Ht) as [Hok Hp].
  split.
  - apply Inv_set_level; [done|]. simpl. rewrite (Inv_num i).
    pose proof (count_range i) as [? ?]. apply Permutation_length in Hp. simpl in Hp.
    rewrite Hp in *. rewrite wrap_small; [lia|]. unfold in_width. lia.
  - rewrite (items_split i), Hp. simpl. f_equiv.
    destruct i; simpl; [done|]. apply Permutation_app_comm.
Qed.
End table.

(** * Queries, deletion and update of the level hash table *)

Lemma elem_of_upto j n : j ∈ upto n <-> (j < n)%nat.
Proof. rewrite elem_of_seq. lia. Qed.

Lemma elem_of_levels i : i ∈ [L0; L1].
Proof. destruct i; set_solver. Qed.

(** ** Searching *)

Lemma find_in_bucket_Some bs idx k j :
  find_in_bucket bs idx k = Some j ->
  (j < ASSOC_NUM)%nat /\ token_at bs idx j = 1 /\ cstr (key (slot_at bs idx j)) = cstr k.
Proof.
  intros H. apply for_first_Some in H as (j' & Hj & H).
  destruct (_ && _) eqn:E; simplify_eq. apply andb_true_iff in E as [E1 E2].
  apply elem_of_upto in Hj. rewrite Z.eqb_eq in *. by rewrite <- strcmp_eq.
Qed.

Lemma find_in_bucket_None bs idx k j :
  find_in_bucket bs idx k = None -> (j < ASSOC_NUM)%nat -> token_at bs idx j = 1 ->
  cstr (key (slot_at bs idx j)) <> cstr k.
Proof.
  intros H Hj Ht E. apply strcmp_eq in E.
  pose proof (for_first_None _ _ H j (proj2 (elem_of_upto _ _) Hj)) as H'. simpl in H'.
  by rewrite Ht, E in H'.
Qed.

(** A slot that holds an item with key [k]. *)
Definition holds (l : level_hash) (k : list Z) (pos : lvl * (Z * nat)) : Prop :=
  let '(i, (idx, j)) := pos in
  in_range (lvl_of l i) idx /\ (j < ASSOC_NUM)%nat /\ token_at (lvl_of l i) idx j = 1 /\
  cstr (key (slot_at (lvl_of l i) idx j)) = cstr k.

Section search.
Context (l : level_hash).
Context (HI : Inv l).

Lemma find_in_level_Some i k idx j :
  find_in_level l i (F_HASH l k) (S_HASH l k) k = Some (idx, j) -> holds l k (i, (idx, j)).
Proof using HI.
  unfold find_in_level, holds. intros H.
  destruct (find_in_bucket _ (F_IDX _ _) k) as [j'|] eqn:E1; [simplify_eq|].
  { apply find_in_bucket_Some in E1 as (? & ? & ?).
    split; [apply f_home_range|]; done. }
  destruct (find_in_bucket _ (S_IDX _ _) k) as [j'|] eqn:E2; simplify_eq.
  apply find_in_bucket_Some in E2 as (? & ? & ?).
  split; [apply s_home_range|]; done.
Qed.

Lemma find_in_level_None i k idx j :
  find_in_level l i (F_HASH l k) (S_HASH l k) k = None -> ~ holds l k (i, (idx, j)).
Proof using HI.
  unfold find_in_level. intros H (Hr & Hj & Ht & Hk).
  pose proof (ok_home _ _ _ _ (Inv_level l HI i) idx j Hr Hj Ht) as Hh.
  apply (home_cstr _ _ _ _ _ k Hk) in Hh. rewrite <- capacity_pow2 in Hh by done.
  destruct (find_in_bucket _ (F_IDX _ _) k) as [|] eqn:E1; [done|].
  destruct (find_in_bucket _ (S_IDX _ _) k) as [|] eqn:E2; [done|].
  destruct Hh as [->| ->].
  - by eapply (find_in_bucket_None _ _ _ _ E1).
  - by eapply (find_in_bucket_None _ _ _ _ E2).
Qed.

Lemma search_Some order k pos : search l order k = Some pos -> holds l k pos.
Proof using HI.
  unfold search. intros H. apply for_first_Some in H as (i & _ & H).
  destruct (find_in_level _ _ _ _ _) as [[idx j]|] eqn:E; simplify_eq/=.
  by apply find_in_level_Some.
Qed.

Lemma search_None order k pos :
  search l order k = None -> pos.1 ∈ order -> ~ holds l k pos.
Proof using HI.
  unfold search. destruct pos as [i [idx j]]. intros H Hi.
  pose proof (for_first_None _ _ H i Hi) as H'. simpl in H'.
  destruct (find_in_level _ _ _ _ _) as [[]|] eqn:E; [done|].
  by apply find_in_level_None.
Qed.

(** Items are the occupied slots of the two levels. *)
Lemma elem_of_items k v :
  (cstr k, v) ∈ items l <-> exists pos, holds l k pos /\ v = value_at l pos.
Proof using HI.
  unfold items. rewrite elem_of_app. split.
  - intros [H|H].
    + apply (elem_of_level_items _ _ _ _ (Inv_level l HI L0))
        in H as (idx & j & ? & ? & ? & ? & ->). by exists (L0, (idx, j)).
    + apply (elem_of_level_items _ _ _ _ (Inv_level l HI L1))
        in H as (idx & j & ? & ? & ? & ? & ->). by exists (L1, (idx, j)).
  - intros ([i [idx j]] & (? & ? & ? & ?) & ->).
    destruct i; [left|right].
    + apply (elem_of_level_items _ _ _ _ (Inv_level l HI L0)). by exists idx, j.
    + apply (elem_of_level_items _ _ _ _ (Inv_level l HI L1)). by exists idx, j.
Qed.

(** A search that visits both levels finds an item of the key iff there is one. *)
Lemma search_spec order k :
  (forall i, i ∈ order) ->
  match search l order k with
  | Some pos => (cstr k, value_at l pos) ∈ items l
  | None => forall v, (cstr k, v) ∉ items l
  end.
Proof using HI.
  intros Ho. destruct (search l order k) as [pos|] eqn:E.
  - apply elem_of_items. exists pos. split; [|done]. by eapply search_Some.
  - intros v Hv. apply elem_of_items in Hv as (pos & Hpos & _).
    by eapply search_None.
Qed.

Lemma static_query_spec k :
  match level_static_query l k with
  | Some v => (cstr k, v) ∈ items l
  | None => forall v, (cstr k, v) ∉ items l
  end.
Proof using HI.
  unfold level_static_query. pose proof (search_spec [L0; L1] k) as H.
  destruct (search l [L0; L1] k); simpl; apply H; intros []; set_solver.
Qed.

Lemma dynamic_query_spec k :
  match level_dynamic_query l k with
  | Some v => (cstr k, v) ∈ items l
  | None => forall v, (cstr k, v) ∉ items l
  end.
Proof using HI.
  unfold level_dynamic_query. destruct (_ <? _).
  - apply static_query_spec.
  - pose proof (search_spec [L1; L0] k) as H.
    destruct (search l [L1; L0] k); simpl; apply H; intros []; set_solver.
Qed.

(** ** Deletion *)

Lemma level_delete_spec k :
  match level_delete l k with
  | (0, l') => Inv l' /\ exists v, items l ≡ₚ (cstr k, v) :: items l'
                                   /\ level_static_query l k = Some v
  | (r, l') => r = 1 /\ l' = l /\ forall v, (cstr k, v) ∉ items l
  end.
Proof using HI.
  unfold level_delete. pose proof (static_query_spec k) as Hq.
  destruct (search l [L0; L1] k) as [[i [idx j]]|] eqn:E.
  - pose proof (search_Some _ _ _ E) as (Hr & Hj & Ht & Hk).
    destruct (table_remove l HI i idx j Hr Hj Ht) as [HI' Hp]. split; [done|].
    exists (value (slot_at (lvl_of l i) idx j)). rewrite <- Hk. split; [done|].
    unfold level_static_query. by rewrite E.
  - split_and!; [done..|]. unfold level_static_query in Hq. by rewrite E in Hq.
Qed.

(** ** Update *)

Lemma level_update_spec k new_value :
  valid_value new_value ->
  match level_update l k new_value with
  | (0, l') => Inv l' /\ exists v rest, level_static_query l k = Some v /\
                 items l ≡ₚ (cstr k, v) :: rest /\
                 items l' ≡ₚ (cstr k, new_value) :: rest
  | (r, l') => r = 1 /\ l' = l /\ forall v, (cstr k, v) ∉ items l
  end.
Proof using HI.
  intros Hv. unfold level_update. pose proof (static_query_spec k) as Hq.
  destruct (search l [L0; L1] k) as [[i [idx j]]|] eqn:E.
  - pose proof (search_Some _ _ _ E) as (Hr & Hj & Ht & Hk).
    destruct (level_revalue _ _ _ _ (Inv_level l HI i) idx j new_value Hr Hj Ht Hv)
      as [Hok (rest & Hp1 & Hp2)].
    split.
    + apply Inv_set_level_same; [done..|]. by rewrite Hp1, Hp2.
    + exists (value (slot_at (lvl_of l i) idx j)),
        (rest ++ level_items (lvl_of l (other i))).
      split_and!.
      * unfold level_static_query. by rewrite E.
      * by rewrite (items_split l i), Hp1, Hk.
      * rewrite (items_split (set_buckets l i (set_value (lvl_of l i) idx j new_value)) i).
        rewrite Hk in Hp2. by destruct i; simpl in *; rewrite Hp2.
  - split_and!; [done..|]. unfold level_static_query in Hq. by rewrite E in Hq.
Qed.
End search.
