(* ===== verification/LevelHashResize.v ===== *)
(** * LevelHashResize: insertion, expansion, shrinking and creation

    The three ways [level_insert] stores an item in the existing levels: a
    free slot, a slot freed by moving an item to its other bucket of the same
    level, a bottom slot freed by moving an item up.

    Expansion and shrinking preserve the stored items, insertion adds one,
    and the recursion of insertion through expansion is bounded by the
    largest block the allocator can hand out.

    [level_shrink] reinserts the items of the old top level. As long as these
    are no more than the two home buckets of a key can hold, each finds a free
    slot in the new bottom level, so the table is not expanded again and the
    loop bound of [level_shrink] stays put. *)

From S2P Require Import Prelude.
From S2P Require Import StringHash.
From S2P Require Import LevelHash.
From S2P Require Import LevelHashInv.

Import StringHash.

#[local] Opaque hash_.

(** [l'] is [l] with one more item, in levels of the same size. *)
Record inserted (l : level_hash) (k v : list Z) (l' : level_hash) : Prop := {
  ins_inv : Inv l';
  ins_items : items l' ≡ₚ (cstr k, v) :: items l;
  ins_size : level_size l' = level_size l;
  ins_f_seed : f_seed l' = f_seed l;
  ins_s_seed : s_seed l' = s_seed l
}.

Lemma place_less_loaded_Some bs f_idx s_idx k v bs' :
  place_less_loaded bs f_idx s_idx k v = Some bs' ->
  exists idx j, (idx = f_idx \/ idx = s_idx) /\ (j < ASSOC_NUM)%nat /\
    token_at bs idx j = 0 /\ bs' = fill_slot bs idx j k v.
Proof.
  intros H. apply for_first_Some in H as (j & Hj%elem_of_upto & H).
  destruct (Z.eqb_spec (token_at bs f_idx j) 0); [simplify_eq; by eauto 8|].
  destruct (Z.eqb_spec (token_at bs s_idx j) 0); simplify_eq; by eauto 8.
Qed.

Lemma place_less_loaded_None bs f_idx s_idx k v :
  place_less_loaded bs f_idx s_idx k v = None -> forall j, (j < ASSOC_NUM)%nat ->
  token_at bs f_idx j <> 0 /\ token_at bs s_idx j <> 0.
Proof.
  intros H j Hj. pose proof (for_first_None _ _ H j (proj2 (elem_of_upto _ _) Hj)) as H'.
  simpl in H'. destruct (Z.eqb_spec (token_at bs f_idx j) 0); [done|].
  by destruct (Z.eqb_spec (token_at bs s_idx j) 0).
Qed.

Section insert.
Context (l : level_hash) (k v : list Z).
Context (HI : Inv l) (Hk : valid_key k) (Hv : valid_value v).

Lemma inserted_add i idx j :
  idx = f_home l i k \/ idx = s_home l i k -> (j < ASSOC_NUM)%nat ->
  token_at (lvl_of l i) idx j = 0 ->
  inserted l k v (item_num_incr (set_buckets l i (fill_slot (lvl_of l i) idx j k v)) i).
Proof using HI Hk Hv.
  intros Hidx Hj Ht. destruct (table_add l HI i idx j k v Hidx Hj Ht Hk Hv) as [HI' Hp].
  by split.
Qed.

Lemma insert_empty_spec l' : insert_empty l k v = Some l' -> inserted l k v l'.
Proof using HI Hk Hv.
  unfold insert_empty. intros H. apply for_first_Some in H as (i & _ & H).
  destruct (place_less_loaded _ _ _ _ _) as [bs'|] eqn:E; simplify_eq/=.
  apply place_less_loaded_Some in E as (idx & j & Hidx & Hj & Ht & ->).
  by apply inserted_add.
Qed.

(** When it fails, the four candidate buckets are full. *)
Lemma insert_empty_full i j :
  insert_empty l k v = None -> (j < ASSOC_NUM)%nat ->
  token_at (lvl_of l i) (f_home l i k) j = 1 /\ token_at (lvl_of l i) (s_home l i k) j = 1.
Proof using HI.
  unfold insert_empty. intros H Hj.
  pose proof (for_first_None _ _ H i (elem_of_levels i)) as H'. simpl in H'.
  destruct (place_less_loaded _ _ _ _ _) as [bs'|] eqn:E; [done|].
  destruct (place_less_loaded_None _ _ _ _ _ E j Hj) as [H1 H2].
  pose proof (ok_buckets _ _ _ _ (Inv_level l HI i)) as Hb.
  pose proof (token_at_bit _ Hb _ j (f_home_range l HI i k) Hj).
  pose proof (token_at_bit _ Hb _ j (s_home_range l HI i k) Hj). lia.
Qed.

(** *** Movement inside a level *)

(** An occupied slot's item also fits in the other bucket, a different one. *)
Lemma alternative_idx_spec i idx n :
  in_range (lvl_of l i) idx -> (n < ASSOC_NUM)%nat -> token_at (lvl_of l i) idx n = 1 ->
  let m := slot_at (lvl_of l i) idx n in
  let jdx := alternative_idx l i idx (key m) in
  jdx <> idx /\ in_range (lvl_of l i) jdx /\ valid_key (key m) /\ valid_value (value m) /\
  home (f_seed l) (s_seed l) (2 ^ lsize l i) jdx (Entry (key m) (value m)).
Proof using HI.
  intros Hr Hn Ht m jdx. pose proof (Inv_level l HI i) as Hok.
  pose proof (ok_home _ _ _ _ Hok idx n Hr Hn Ht) as [Hnul _].
  pose proof (slot_at_ok _ (ok_buckets _ _ _ _ Hok) idx n Hr Hn) as [Hlk Hlv].
  assert (jdx = if f_home l i (key m) =? idx then s_home l i (key m)
                else f_home l i (key m)) as Ej.
  { unfold jdx, alternative_idx. destruct i; simpl; by rewrite ?Z.div_1_r. }
  split.
  { rewrite Ej. destruct (Z.eqb_spec (f_home l i (key m)) idx) as [E|?]; [|done].
    intros E'. apply (homes_differ l HI i (key m) (key m)). congruence. }
  split_and!; [|done..|].
  - rewrite Ej. destruct (_ =? _); [by apply s_home_range|by apply f_home_range].
  - rewrite Ej. destruct (_ =? _); [by apply s_home_home|by apply f_home_home].
Qed.

(** The effect on one level of moving an item and filling its old slot. *)
Lemma movement_level i idx n j :
  idx = f_home l i k \/ idx = s_home l i k -> (n < ASSOC_NUM)%nat ->
  token_at (lvl_of l i) idx n = 1 -> (j < ASSOC_NUM)%nat ->
  let m := slot_at (lvl_of l i) idx n in
  let jdx := alternative_idx l i idx (key m) in
  token_at (lvl_of l i) jdx j = 0 ->
  let bs' := fill_slot (set_token (fill_slot (lvl_of l i) jdx j (key m) (value m)) idx n 0)
               idx n k v in
  level_ok (f_seed l) (s_seed l) (lsize l i) bs' /\
  level_items bs' ≡ₚ (cstr k, v) :: level_items (lvl_of l i).
Proof using HI Hk Hv.
  intros Hidx Hn Ht Hj m jdx Htj bs'.
  assert (in_range (lvl_of l i) idx) as Hr
    by (destruct Hidx as [-> | ->]; [by apply f_home_range|by apply s_home_range]).
  destruct (alternative_idx_spec i idx n Hr Hn Ht) as (Hne & Hrj & Hmk & Hmv & Hmh).
  fold m in Hne, Hrj, Hmk, Hmv, Hmh. fold jdx in Hne, Hrj, Hmh.
  pose proof (Inv_level l HI i) as Hok. set (bs := lvl_of l i) in *.
  destruct (level_add _ _ _ bs Hok jdx j (key m) (value m) Hrj Hj Htj Hmk Hmv Hmh)
    as [Hok1 Hp1].
  set (bs1 := fill_slot bs jdx j (key m) (value m)) in *.
  assert (bs1 = write_cell bs jdx j 1 (Entry (key m) (value m))) as E1
    by (apply fill_slot_cell; [apply Hok|done|done|apply Hmk|done]).
  assert (in_range bs1 idx) as Hr1 by (rewrite E1; unfold in_range; by rewrite length_write_cell).
  assert (token_at bs1 idx n = 1 /\ slot_at bs1 idx n = m) as [Ht1 Hs1].
  { rewrite E1, token_at_write, slot_at_write by (apply Hok || done || apply Hr).
    rewrite !decide_False by not_both. done. }
  destruct (level_remove _ _ _ bs1 Hok1 idx n Hr1 Hn Ht1) as [Hok2 Hp2].
  set (bs2 := set_token bs1 idx n 0) in *.
  assert (bs2 = write_cell bs1 idx n 0 (slot_at bs1 idx n)) as E2
    by (by apply set_token_cell; [apply Hok1|..]).
  assert (in_range bs2 idx) as Hr2 by (rewrite E2; unfold in_range; by rewrite length_write_cell).
  assert (token_at bs2 idx n = 0) as Ht2.
  { rewrite E2, token_at_write by (apply Hok1 || done || apply Hr1).
    by rewrite decide_True. }
  assert (home (f_seed l) (s_seed l) (2 ^ lsize l i) idx (Entry k v)) as Hh.
  { destruct Hk. destruct Hidx as [-> | ->]; [by apply f_home_home|by apply s_home_home]. }
  destruct (level_add _ _ _ bs2 Hok2 idx n k v Hr2 Hn Ht2 Hk Hv Hh) as [Hok3 Hp3].
  split; [done|]. unfold bs'. rewrite Hp3. f_equiv.
  apply (Permutation_cons_inv (a := (cstr (key m), value m))).
  rewrite <- Hp1, Hp2, Hs1. done.
Qed.

Lemma try_movement_spec i idx l' :
  idx = f_home l i k \/ idx = s_home l i k ->
  (forall n, (n < ASSOC_NUM)%nat -> token_at (lvl_of l i) idx n = 1) ->
  try_movement l idx i k v = (0, l') -> inserted l k v l'.
Proof using HI Hk Hv.
  intros Hidx Hfull H. unfold try_movement in H.
  destruct (for_first _ _) as [l''|] eqn:E; [|done]. simplify_eq.
  apply for_first_Some in E as (n & Hn%elem_of_upto & E).
  apply for_first_Some in E as (j & Hj%elem_of_upto & E).
  destruct (Z.eqb_spec (token_at (lvl_of l i)
             (alternative_idx l i idx (key (slot_at (lvl_of l i) idx n))) j) 0) as [Ht|]; [|done].
  simplify_eq. destruct (movement_level i idx n j Hidx Hn (Hfull n Hn) Hj Ht) as [Hok Hp].
  split; [| |done..].
  - apply Inv_set_level; [done..|]. simpl. rewrite (Inv_num l HI i), Hp. simpl.
    pose proof (count_range l HI i). rewrite wrap_small by done. lia.
  - rewrite (items_split l i), (app_comm_cons _ _ (cstr k, v)), <- Hp.
    destruct i; simpl; [done|]. apply Permutation_app_comm.
Qed.

Lemma insert_movement_spec l' :
  insert_empty l k v = None -> insert_movement l k v = Some l' -> inserted l k v l'.
Proof using HI Hk Hv.
  intros Hfull H. unfold insert_movement in H. apply for_first_Some in H as (i & _ & H).
  destruct (try_movement l (f_home l i k) i k v) as [r l1] eqn:E1.
  destruct (try_movement l (s_home l i k) i k v) as [r2 l2] eqn:E2.
  assert (r = 0 /\ l' = l1 \/ r2 = 0 /\ l' = l2) as [[-> ->]|[-> ->]]
    by (destruct r; [left; by simplify_eq|destruct r2; try done; right; by simplify_eq..]).
  - apply (try_movement_spec i (f_home l i k)); [by left| |done].
    intros n Hn. by destruct (insert_empty_full i n Hfull Hn).
  - apply (try_movement_spec i (s_home l i k)); [by right| |done].
    intros n Hn. by destruct (insert_empty_full i n Hfull Hn).
Qed.
End insert.

(** *** Movement from the bottom to the top level *)

(** [l'] holds the same items as [l], in levels of the same sizes. *)
Record rearranged (l l' : level_hash) : Prop := {
  re_inv : Inv l';
  re_items : items l' ≡ₚ items l;
  re_size : level_size l' = level_size l;
  re_addr : addr_capacity l' = addr_capacity l;
  re_f_seed : f_seed l' = f_seed l;
  re_s_seed : s_seed l' = s_seed l
}.

Lemma b2t_movement_spec l idx r l1 :
  Inv l -> in_range (lvl_of l L1) idx ->
  (forall n, (n < ASSOC_NUM)%nat -> token_at (lvl_of l L1) idx n = 1) ->
  b2t_movement l idx = (r, l1) ->
  (r = -1 /\ l1 = l) \/
  (exists n, (n < ASSOC_NUM)%nat /\ r = Z.of_nat n /\ rearranged l l1 /\
     token_at (lvl_of l1 L1) idx n = 0).
Proof.
  intros HI Hr Hfull H. unfold b2t_movement in H.
  destruct (for_first _ _) as [[r' l']|] eqn:E; [|by left; simplify_eq]. simplify_eq.
  right. apply for_first_Some in E as (n & Hn%elem_of_upto & E).
  set (m := slot_at (lvl_of l L1) idx n) in *.
  change (addr_capacity l) with (capacity_of l L0) in E.
  destruct (place_less_loaded _ _ _ _ _) as [top'|] eqn:Ep; simplify_eq/=.
  apply place_less_loaded_Some in Ep as (idx0 & j & Hidx & Hj & Ht & ->).
  pose proof (Inv_level l HI L1) as Hok.
  pose proof (ok_home _ _ _ _ Hok idx n Hr Hn (Hfull n Hn)) as [Hnul _].
  pose proof (slot_at_ok _ (ok_buckets _ _ _ _ Hok) idx n Hr Hn) as [Hlk Hlv].
  fold m in Hnul, Hlk, Hlv.
  destruct (table_add l HI L0 idx0 j (key m) (value m) Hidx Hj Ht) as [HI1 Hp1]; [done..|].
  set (l1 := item_num_incr _ _) in HI1, Hp1.
  destruct (table_remove l1 HI1 L1 idx n) as [HI2 Hp2]; [done|done|by apply Hfull|].
  exists n. split_and!; [done|done| |].
  - split; [exact HI2| |done..].
    apply (Permutation_cons_inv (a := (cstr (key m), value m))). rewrite <- Hp1. symmetry.
    exact Hp2.
  - change (token_at (set_token (lvl_of l L1) idx n 0) idx n = 0).
    rewrite set_token_cell by (done || apply Hok).
    rewrite token_at_write by (done || apply Hok || apply Hr). by rewrite decide_True.
Qed.

Section insert_b2t.
Context (l : level_hash) (k v : list Z).
Context (HI : Inv l) (Hk : valid_key k) (Hv : valid_value v).
Context (Hfull : insert_empty l k v = None).

Lemma insert_b2t_at_spec idx l' :
  idx = f_home l L1 k \/ idx = s_home l L1 k ->
  insert_b2t_at l idx k v = Some l' -> inserted l k v l'.
Proof using HI Hk Hv Hfull.
  intros Hidx H. unfold insert_b2t_at in H.
  assert (in_range (lvl_of l L1) idx) as Hr
    by (destruct Hidx as [-> | ->]; [by apply f_home_range|by apply s_home_range]).
  assert (forall n, (n < ASSOC_NUM)%nat -> token_at (lvl_of l L1) idx n = 1) as Hf.
  { intros n Hn. destruct (insert_empty_full l k v HI L1 n Hfull Hn).
    by destruct Hidx as [-> | ->]. }
  destruct (b2t_movement l idx) as [r l1] eqn:E.
  destruct (b2t_movement_spec l idx r l1 HI Hr Hf E) as [[-> ->]|(n & Hn & -> & Hre & Ht)];
    [done|].
  destruct (Z.eqb_spec (Z.of_nat n) (-1)); [lia|]. simplify_eq.
  destruct Hre as [HI1 Hp Hs Ha Hfs Hss]. rewrite Nat2Z.id.
  destruct (table_add l1 HI1 L1 idx n k v) as [HI2 Hp2]; [|done..|].
  { unfold F_HASH, S_HASH, capacity_of. rewrite Ha, Hfs, Hss. exact Hidx. }
  split; [done| |done..]. rewrite Hp2. by f_equiv.
Qed.

Lemma insert_b2t_spec l' : insert_b2t l k v = Some l' -> inserted l k v l'.
Proof using HI Hk Hv Hfull.
  unfold insert_b2t. intros H. destruct (_ <? _); [|done].
  destruct (insert_b2t_at l (F_IDX _ _) k v) as [l1|] eqn:E1.
  - simplify_eq. eapply insert_b2t_at_spec; [|exact E1]. by left.
  - eapply insert_b2t_at_spec; [|exact H]. by right.
Qed.
End insert_b2t.

(** * Expansion, the whole of insertion, shrinking, creation *)

(** ** What the code relies on from the allocator *)

(** A block has the size asked for, and no block reaches [PTRDIFF_MAX]. *)
Class AllocatorOk (A : Allocator) : Prop := {
  alloc_limit : forall size bs, posix_memalign size = Some bs -> size < 2 ^ 63;
  alloc_length : forall size bs, posix_memalign size = Some bs ->
    Z.of_nat (length bs) = size / sizeof_level_bucket;
  alloc_raw : forall size bs, posix_memalign size = Some bs -> Forall raw_bucket bs
}.

(** Whether a block that was handed out has only zero tokens. [posix_memalign]
    does not clear memory and the table code never clears the tokens itself, so
    everything below distinguishes the two cases. *)
Definition clean_block (bs : list level_bucket) : Prop :=
  Forall (fun b => token b = replicate ASSOC_NUM 0) bs.

#[export] Instance clean_block_dec bs : Decision (clean_block bs).
Proof. unfold clean_block. apply _. Defined.

Definition zero_bucket (b : level_bucket) : Prop :=
  bucket_ok b /\ token b = replicate ASSOC_NUM 0.

Lemma raw_zero_bucket b : raw_bucket b -> token b = replicate ASSOC_NUM 0 -> zero_bucket b.
Proof.
  intros (H1 & H2 & H3) E. split; [|done]. split; [done..| |done].
  rewrite E. simpl. repeat constructor; by left.
Qed.

Lemma zero_level fs ss n bs :
  Z.of_nat (length bs) = 2 ^ n -> Forall zero_bucket bs ->
  level_ok fs ss n bs /\ level_items bs = [].
Proof.
  intros Hl Hz. assert (Forall bucket_ok bs) as Hb by (eapply Forall_impl; [done|]; by intros b []).
  split.
  - split; [done..|]. intros idx j Hr Hj Ht.
    destruct (cell_lookup bs Hb idx j Hr Hj) as (b & Hl' & _ & Et & _).
    destruct (Forall_lookup_1 _ _ _ _ Hz Hl') as [_ E]. rewrite E in Et.
    apply lookup_replicate in Et as [Et _]. congruence.
  - clear Hl Hb. induction Hz as [|b bs [Hb E] _ IH]; [done|].
    unfold level_items in *. rewrite bind_cons, IH. unfold bucket_items, cells. rewrite E.
    destruct Hb as [_ Hs _ _].
    by destruct (slot b) as [|? [|? [|? [|? [|? ?]]]]]; try discriminate Hs.
Qed.

(** A level with every token cleared is empty. *)
Lemma cleared_level_items fs ss n bs :
  level_ok fs ss n bs ->
  (forall idx j, in_range bs idx -> (j < ASSOC_NUM)%nat -> token_at bs idx j = 0) ->
  level_items bs = [].
Proof.
  intros Hok H0. destruct (level_items bs) as [|[k v] rest] eqn:E; [done|].
  assert ((k, v) ∈ level_items bs) as Hin by (rewrite E; constructor).
  apply (elem_of_level_items _ _ _ _ Hok) in Hin as (idx & j & Hr & Hj & Ht & _).
  rewrite H0 in Ht by done. done.
Qed.

(** Filling a free slot adds an item, whatever the other tokens are. *)
Lemma raw_add bs idx j k v :
  Forall raw_bucket bs -> in_range bs idx -> (j < ASSOC_NUM)%nat -> token_at bs idx j = 0 ->
  valid_key k -> valid_value v ->
  Forall raw_bucket (fill_slot bs idx j k v) /\ length (fill_slot bs idx j k v) = length bs /\
  level_items (fill_slot bs idx j k v) ≡ₚ (cstr k, v) :: level_items bs.
Proof.
  intros Hb Hr Hj Ht [Hk _] Hv.
  rewrite (fill_slot_cell (P := raw_bucket) bs idx j k v Hb Hr Hj Hk Hv). split_and!.
  - by apply write_cell_raw.
  - apply length_write_cell.
  - destruct (write_cell_items bs Hb idx j 1 (Entry k v) Hr Hj) as (rest & E1 & E2).
    rewrite E2, E1, Ht. done.
Qed.

(** ** Rehashing the bottom level *)

Section rehash.
Context (l : level_hash).
Context (Hsize : 2 <= level_size l <= MAX_LEVEL).
Context (Haddr : addr_capacity l = 2 ^ (level_size l + 1)).
Context (contents : list (list Z * list Z)).
Context (Hcontents : Z.of_nat (length contents) < 2 ^ 63).
Context (block : list level_bucket).

Abbreviation fs := (f_seed l).
Abbreviation ss := (s_seed l).

(** The state of the loop when the slots before [(bound, slot)] are done. The
    items moved so far are in the new level, beside what [block] held. *)
Record rehash_inv (bound slot : nat) (st : list level_bucket * list level_bucket * Z)
  : Prop := {
  rh_bot : level_ok fs ss (level_size l - 1) st.1.1;
  rh_raw : Forall raw_bucket st.1.2;
  rh_length : Z.of_nat (length st.1.2) = 2 ^ (level_size l + 1);
  rh_new : clean_block block -> level_ok fs ss (level_size l + 1) st.1.2;
  rh_moved : exists moved, level_items st.1.2 ≡ₚ moved ++ level_items block /\
    moved ++ level_items st.1.1 ≡ₚ contents /\ st.2 = Z.of_nat (length moved);
  rh_done : forall idx j, 0 <= idx -> (j < ASSOC_NUM)%nat ->
    idx < Z.of_nat bound \/ (idx = Z.of_nat bound /\ (j < slot)%nat) ->
    in_range st.1.1 idx -> token_at st.1.1 idx j = 0
}.

Definition rehash_err {A} (r : res A) : Prop := exists c, c = 3%nat /\ r = Exit 1 c.

Lemma rehash_item_spec bound slot st :
  (slot < ASSOC_NUM)%nat -> Z.of_nat bound < 2 ^ (level_size l - 1) ->
  rehash_inv bound slot st ->
  outcome (rehash_inv bound (1 + slot)) rehash_err (rehash_item l bound slot st).
Proof using Hsize Haddr Hcontents.
  destruct st as [[bot nb] n]. intros Hs Hb Hst. unfold rehash_item.
  destruct Hst as [Hbot Hraw Hlen Hnew (moved & Hm1 & Hm2 & Hnum) Hdone].
  simpl in Hbot, Hraw, Hlen, Hnew, Hm1, Hm2, Hnum, Hdone.
  assert (in_range bot (Z.of_nat bound)) as Hr
    by (unfold in_range; rewrite (ok_length _ _ _ _ Hbot); lia).
  destruct (Z.eqb_spec (token_at bot (Z.of_nat bound) slot) 1) as [Ht|Ht].
  - set (e := slot_at bot (Z.of_nat bound) slot) in *.
    pose proof (ok_home _ _ _ _ Hbot _ _ Hr Hs Ht) as [Hnul _]. fold e in Hnul.
    pose proof (slot_at_ok _ (ok_buckets _ _ _ _ Hbot) _ _ Hr Hs) as [Hlk Hlv].
    fold e in Hlk, Hlv.
    destruct (place_less_loaded _ _ _ _ _) as [nb'|] eqn:E; [|by eexists].
    apply place_less_loaded_Some in E as (idx & j & Hidx & Hj & Htj & ->).
    rewrite Haddr in Hidx. unfold MAX_LEVEL in *.
    pose proof (F_IDX_range (level_size l + 1) (F_HASH l (key e))).
    pose proof (S_IDX_range (level_size l + 1) (S_HASH l (key e))).
    pose proof (pow2_bound (level_size l + 1 - 1) (level_size l + 1)).
    assert (in_range nb idx) as Hrn by (unfold in_range; lia).
    destruct (raw_add nb idx j (key e) (value e)) as (Hraw' & Hlen' & Hp'); [done..|].
    destruct (level_remove _ _ _ bot Hbot _ _ Hr Hs Ht) as [Hbot' Hp]. fold e in Hp.
    split; simpl; [done|done|by rewrite Hlen'| | |].
    + intros Hc. destruct (level_add _ _ _ nb (Hnew Hc) idx j (key e) (value e)); done.
    + exists ((cstr (key e), value e) :: moved). split_and!.
      * by rewrite Hp', Hm1.
      * rewrite <- Hm2, Hp. simpl. by rewrite Permutation_middle.
      * rewrite Hnum. cbn [length]. pose proof (Permutation_length Hm2) as Hle.
        rewrite length_app in Hle. rewrite wrap_small; [lia|]. unfold in_width. lia.
    + intros idx' j' Hi0 Hj' Hor Hr'.
      rewrite set_token_cell in * by (done || apply Hbot).
      unfold in_range in Hr'. rewrite length_write_cell in Hr'.
      rewrite token_at_write by (done || apply Hbot).
      destruct (decide _) as [_|Hne]; [done|]. apply Hdone; try done.
      destruct Hor as [|[-> ?]]; [by left|right]. split; [done|].
      assert (j' <> slot) by (intros ->; by apply Hne). lia.
  - split; simpl; [done..|by exists moved|]. intros idx' j' Hi0 Hj' Hor Hr'.
    destruct (decide (idx' = Z.of_nat bound /\ j' = slot)) as [[-> ->]|Hne].
    + pose proof (token_at_bit _ (ok_buckets _ _ _ _ Hbot) _ _ Hr Hs). tauto.
    + apply Hdone; try done. destruct Hor as [|[-> ?]]; [by left|right]. split; [done|].
      assert (j' <> slot) by (intros ->; by apply Hne). lia.
Qed.

(** The new level after the loop. *)
Definition rehashed (st : list level_bucket * list level_bucket * Z) : Prop :=
  level_items st.1.2 ≡ₚ contents ++ level_items block /\ st.2 = Z.of_nat (length contents) /\
  (clean_block block -> level_ok fs ss (level_size l + 1) st.1.2).

Lemma rehash_bottom_spec bot :
  level_ok fs ss (level_size l - 1) bot -> Forall raw_bucket block ->
  Z.of_nat (length block) = 2 ^ (level_size l + 1) ->
  (clean_block block -> level_ok fs ss (level_size l + 1) block) -> level_items bot = contents ->
  outcome rehashed rehash_err (rehash_bottom l bot block).
Proof using Hsize Haddr Hcontents.
  intros Hbot Hraw Hlen Hnew Hc. unfold rehash_bottom.
  set (m := Z.to_nat (2 ^ (level_size l - 1))).
  pose proof (pow2_bound (level_size l - 1) (level_size l)).
  assert (outcome (rehash_inv m 0) rehash_err
            (for_each (upto m) (bot, block, 0)
               (fun i st => for_each (upto ASSOC_NUM) st (fun j st => rehash_item l i j st))))
    as Hloop.
  { apply (for_each_upto (fun i st => rehash_inv i 0 st)).
    - split; simpl; [done..|by exists []; rewrite Hc|lia].
    - intros i st Hi Hst.
      assert (outcome (rehash_inv i ASSOC_NUM) rehash_err
                (for_each (upto ASSOC_NUM) st (fun j st => rehash_item l i j st))) as Hin.
      { apply (for_each_upto (fun j st => rehash_inv i j st)); [done|].
        intros j st' Hj. apply rehash_item_spec; [done|]. unfold m in Hi. lia. }
      destruct (for_each (upto ASSOC_NUM) st _) as [st'| | |]; try exact Hin.
      destruct Hin as [H1 H2 H3 H4 H5 H6]. split; [done..|].
      intros idx j H0 Hj Hor. apply H6; [done..|]. lia. }
  destruct (for_each _ _ _) as [[[bot' nb'] n']| | |]; try exact Hloop.
  destruct Hloop as [H1 _ _ H2 (moved & H3 & H4 & H5) H6]. simpl in *.
  rewrite (cleared_level_items _ _ _ bot' H1), app_nil_r in H4.
  - split_and!; simpl; [by rewrite H3, H4|by rewrite H5, (Permutation_length H4)|done].
  - intros idx j Hr Hj. apply H6; [apply Hr|done| |done].
    destruct Hr as [? Hr]. rewrite (ok_length _ _ _ _ H1) in Hr. unfold m. lia.
Qed.
End rehash.

(** ** Expansion and insertion *)

(** How a table function that allocates can end abnormally: by [exit(1)]
    when memory is short (2) or rehashing finds no slot (3), or by using the
    indeterminate pointer of a failed allocation. *)
Definition alloc_err `{Allocator} {A} (r : res A) : Prop :=
  match r with
  | Exit c m => c = 1 /\ (m = 2%nat \/ m = 3%nat)
  | UB => stale_is_null = false
  | NoFuel | Ret _ => False
  end.

(** The block that the expansion of [l] asks for. *)
Definition next_block `{Allocator} (l : level_hash) : option (list level_bucket) :=
  posix_memalign (2 ^ (level_size l + 1) * sizeof_level_bucket).

(** [l'] is [l] one level larger, with a new top level in [block]. *)
Record expanded (l : level_hash) (block : list level_bucket) (l' : level_hash) : Prop := {
  ex_items : items l' ≡ₚ items l ++ level_items block;
  ex_size : level_size l' = level_size l + 1;
  ex_limit : level_size l' <= MAX_LEVEL;
  ex_addr : addr_capacity l' = 2 * addr_capacity l;
  ex_bottom : at1 (buckets l') = at0 (buckets l);
  ex_f_seed : f_seed l' = f_seed l;
  ex_s_seed : s_seed l' = s_seed l;
  ex_inv : clean_block block -> Inv l'
}.

Section resize.
Context `{A : Allocator, !AllocatorOk A}.

Lemma fresh_level fs ss n size bs :
  0 <= n -> size = 2 ^ n * sizeof_level_bucket -> posix_memalign size = Some bs ->
  n <= MAX_LEVEL /\ Z.of_nat (length bs) = 2 ^ n /\ Forall raw_bucket bs /\
  (clean_block bs -> level_ok fs ss n bs /\ level_items bs = []).
Proof using All.
  intros Hn -> Hp.
  assert (Z.of_nat (length bs) = 2 ^ n) as Hlen.
  { rewrite (alloc_length _ _ Hp). by rewrite Z.div_mul by done. }
  pose proof (alloc_raw _ _ Hp) as Hraw. split_and!; [|done..|].
  - pose proof (alloc_limit _ _ Hp) as Hl. unfold MAX_LEVEL.
    change sizeof_level_bucket with (2 ^ 7) in Hl. rewrite <- Z.pow_add_r in Hl by lia.
    apply Z.pow_lt_mono_r_iff in Hl; lia.
  - intros Hc. apply zero_level; [done|]. unfold clean_block in Hc.
    apply Forall_forall. intros b Hb. rewrite Forall_forall in Hraw, Hc.
    apply raw_zero_bucket; auto.
Qed.

Lemma level_expand_spec l :
  Inv l ->
  outcome (fun l' => exists block, next_block l = Some block /\ expanded l block l') alloc_err
    (level_expand (Some l)).
Proof using All.
  intros HI. pose proof (inv_size l HI) as Hsize. unfold MAX_LEVEL in Hsize.
  unfold level_expand, pow2. destruct (Z.ltb_spec (level_size l + 1) 64); [|lia].
  cbn [mbind res_bind addr_capacity]. set (l1 := LevelHash _ _ _ _ _ _ 1 _ _).
  pose proof (pow2_bound (level_size l + 1) 56).
  rewrite wrap_small by
    (unfold in_width; change sizeof_level_bucket with 128;
     change (2 ^ 64) with (256 * 2 ^ 56); lia).
  unfold alignedmalloc. destruct (posix_memalign _) as [nb|] eqn:Hp.
  2: { simpl. destruct stale_is_null eqn:Es; simpl; auto. }
  destruct (fresh_level (f_seed l) (s_seed l) (level_size l + 1) _ nb ltac:(lia) eq_refl Hp)
    as (Hmax & Hlen & Hraw & Hclean).
  unfold MAX_LEVEL in Hmax. pose proof (count_range l HI L1) as Hcnt. unfold in_width in Hcnt.
  pose proof (level_items_bound _ _ _ _ (inv_bot l HI)) as Hbnd.
  pose proof (pow2_bound (level_size l - 1) 55) as Hpw.
  pose proof (rehash_bottom_spec l1 Hsize eq_refl (level_items (at1 (buckets l)))
                ltac:(change (2 ^ 63) with (256 * 2 ^ 55); lia) nb
                (at1 (buckets l)) (inv_bot l HI) Hraw Hlen (fun Hc => proj1 (Hclean Hc)) eq_refl) as Hrh.
  cbn [mbind res_bind]. destruct (rehash_bottom l1 _ _) as [[[bot' nb'] n']|c m| |];
    [|destruct Hrh as (? & -> & [= -> ->]); simpl; auto|by destruct Hrh as (? & ? & ?)..].
  destruct Hrh as (R1 & R2 & R3). simpl in R1, R2, R3. simpl.
  exists nb. split; [done|]. split; simpl; try done.
  - unfold items. simpl. rewrite R1.
    rewrite (Permutation_app_comm (level_items (at0 (buckets l)))), <- !app_assoc.
    apply Permutation_app_head, Permutation_app_comm.
  - by rewrite (inv_addr l HI), pow2_double by lia.
  - intros Hc. destruct (Hclean Hc) as [_ E]. rewrite E, app_nil_r in R1. split; simpl; try done.
    + unfold MAX_LEVEL. lia.
    + by apply R3.
    + replace (level_size l + 1 - 1) with (level_size l) by lia. apply (inv_top l HI).
    + by rewrite R2, (Permutation_length R1).
    + apply (inv_num0 l HI).
Qed.

(** What an insertion achieves: the item is added; expansion may have made
    the table bigger. *)
Record insertion (l : level_hash) (k v : list Z) (rl : Z * level_hash) : Prop := {
  in_ret : rl.1 = 0;
  in_inv : Inv rl.2;
  in_items : items rl.2 ≡ₚ (cstr k, v) :: items l;
  in_size : level_size l <= level_size rl.2;
  in_f_seed : f_seed rl.2 = f_seed l;
  in_s_seed : s_seed rl.2 = s_seed l
}.

Lemma inserted_insertion l k v l' : inserted l k v l' -> insertion l k v (0, l').
Proof using. intros []. split; simpl; try done. lia. Qed.

(** Neither of the three ways to store an item in the existing levels works. *)
Definition no_room (l : level_hash) (k v : list Z) : Prop :=
  insert_empty l k v = None /\ insert_movement l k v = None /\ insert_b2t l k v = None.

(** The insertion needs more room, and the block for it, at once or after
    some expansions, is one with tokens left in it. *)
Inductive meets_used (k v : list Z) : level_hash -> Prop :=
| used_now l block :
    no_room l k v -> next_block l = Some block -> ~ clean_block block -> meets_used k v l
| used_later l l' :
    no_room l k v -> level_expand (Some l) = Ret l' -> meets_used k v l' -> meets_used k v l.

Lemma level_insert_outcome fuel : forall l k v,
  Inv l -> valid_key k -> valid_value v ->
  meets_used k v l \/
  outcome (insertion l k v)
    (fun r => alloc_err r /\ no_room l k v \/ (r = NoFuel /\ Z.of_nat fuel + level_size l <= MAX_LEVEL))
    (level_insert fuel l k v).
Proof using All.
  induction fuel as [|fuel IH]; intros l k v HI Hk Hv.
  { right. right. split; [done|]. apply (inv_size l HI). }
  cbn [level_insert]. destruct (insert_empty l k v) as [l'|] eqn:E1.
  { right. by apply inserted_insertion, insert_empty_spec. }
  destruct (insert_movement l k v) as [l'|] eqn:E2.
  { right. by apply inserted_insertion, insert_movement_spec. }
  destruct (insert_b2t l k v) as [l'|] eqn:E3.
  { right. by apply inserted_insertion, insert_b2t_spec. }
  assert (no_room l k v) as Hno by done.
  pose proof (level_expand_spec l HI) as Hex.
  destruct (level_expand (Some l)) as [l1|c m| |] eqn:El; cbn [mbind res_bind outcome] in *;
    [|right; left; by split..].
  destruct Hex as (block & Hb & Hex). destruct (decide (clean_block block)) as [Hc|Hc].
  2: { left. by eapply used_now. }
  destruct (fresh_level 0 0 (level_size l + 1) _ block ltac:(pose proof (inv_size l HI); lia) eq_refl Hb)
    as (_ & _ & _ & Hcl). destruct (Hcl Hc) as [_ Eb].
  destruct Hex as [Hp Hs Hmax _ _ Hf1 Hs1 HI1]. rewrite Eb, app_nil_r in Hp.
  destruct (IH l1 k v (HI1 Hc) Hk Hv) as [Hu|Hins]; [left; by eapply used_later|right].
  destruct (level_insert fuel l1 k v) as [rl|c m| |]; cbn [outcome] in *.
  - destruct Hins as [H1 H2 H3 H4 H5 H6]. split; try done; try congruence; [|lia].
    by rewrite H3, Hp.
  - destruct Hins as [[H _]|[? _]]; [by left|done].
  - destruct Hins as [[H _]|[? _]]; [by left|done].
  - destruct Hins as [[H _]|[_ H]]; [by left|right]. split; [done|lia].
Qed.

(** The recursion ends whatever the memory holds: no expansion gets beyond the
    largest power of two that converts to an integer. *)
Lemma level_expand_size l l' :
  level_expand (Some l) = Ret l' -> level_size l' = level_size l + 1 /\ level_size l' < 64.
Proof using.
  unfold level_expand, pow2. destruct (Z.ltb_spec (level_size l + 1) 64); [|done].
  cbn [mbind res_bind]. destruct (alignedmalloc _) as [| |block]; [done..|].
  destruct (rehash_bottom _ _ _) as [[[bot nb] n]| | |]; [|done..]. intros [= <-]. done.
Qed.

Lemma level_expand_fuel l : level_expand (Some l) <> NoFuel.
Proof using.
  unfold level_expand, pow2. destruct (_ <? 64); [|done]. cbn [mbind res_bind].
  destruct (alignedmalloc _) as [| |block]; [done..|]. unfold rehash_bottom.
  set (l1 := LevelHash _ _ _ _ _ _ _ _ _).
  assert (outcome (fun _ => True) (fun r => r <> NoFuel)
            (for_each (upto (Z.to_nat (2 ^ (level_size l1 - 1)))) (at1 (buckets l1), block, 0)
               (fun i st => for_each (upto ASSOC_NUM) st (fun j st => rehash_item l1 i j st)))) as H.
  { apply (for_each_upto (fun _ _ => True)); [done|]. intros i st _ _.
    apply (for_each_upto (fun _ _ => True)); [done|]. intros j [[bot nb] n] _ _. unfold rehash_item.
    destruct (_ =? 1); [|done]. by destruct (place_less_loaded _ _ _ _ _). }
  destruct (for_each _ _ _) as [[[bot nb] n]| | |]; cbn [mbind res_bind outcome] in *; done.
Qed.

Lemma level_insert_ends fuel : forall l k v,
  level_size l < 64 <= Z.of_nat fuel + level_size l -> level_insert fuel l k v <> NoFuel.
Proof using.
  induction fuel as [|fuel IH]; intros l k v Hf; [lia|]. cbn [level_insert].
  destruct (insert_empty l k v); [done|]. destruct (insert_movement l k v); [done|].
  destruct (insert_b2t l k v); [done|]. pose proof (level_expand_fuel l) as Hx.
  destruct (level_expand (Some l)) as [l'| | |] eqn:E; cbn [mbind res_bind]; [|done..].
  apply level_expand_size in E. apply IH. lia.
Qed.
End resize.

(** ** Shrinking *)

(** A bucket taken out of a well-formed level. *)
Definition loose_bucket (b : level_bucket) : Prop :=
  bucket_ok b /\
  forall j e, token b !! j = Some 1 -> slot b !! j = Some e -> 0 ∈ key e.

Lemma level_loose fs ss n bs : level_ok fs ss n bs -> Forall loose_bucket bs.
Proof.
  intros Hok. apply Forall_lookup_2. intros i b Hb.
  pose proof (Forall_lookup_1 _ _ _ _ (ok_buckets _ _ _ _ Hok) Hb) as Hbok.
  split; [done|]. intros j e Ht He.
  assert (bs !! Z.to_nat (Z.of_nat i) = Some b) as Hb' by by rewrite Nat2Z.id.
  pose proof (lookup_lt_Some _ _ _ Hb). pose proof (lookup_lt_Some _ _ _ Ht).
  rewrite (ok_tokens b Hbok) in *.
  rewrite <- (slot_at_lookup bs _ _ _ _ Hb' He).
  apply (ok_home _ _ _ _ Hok (Z.of_nat i) j); [unfold in_range; lia|done|].
  by rewrite (token_at_lookup bs _ _ _ Hb'), Ht.
Qed.

Lemma u64_small n : 0 <= n <= MAX_LEVEL -> u64 n = n.
Proof. unfold MAX_LEVEL. intros. apply wrap_small. unfold in_width. lia. Qed.

(** ** Creation *)

Section init.
Context `{A : Allocator, !AllocatorOk A}.

Lemma generate_seeds_spec fuel rand : forall n,
  match generate_seeds fuel rand n with
  | Ret (f, s) => f <> s /\ in_width 64 f /\ in_width 64 s
  | NoFuel => True
  | _ => False
  end.
Proof using.
  induction fuel as [|fuel IH]; intros n; [done|]. cbn [generate_seeds].
  destruct (Z.eqb_spec (u64 (Z.shiftl (rand n) (rand (n + 2)%nat mod 63)))
              (u64 (Z.shiftl (rand (n + 1)%nat) (rand (n + 3)%nat mod 63)))); [apply IH|].
  split_and!; [done|eauto with width..].
Qed.

(** The loop ends with the first round of [rand] calls that gives two
    different seeds. *)
Lemma generate_seeds_ends rand i : forall fuel n,
  (i < fuel)%nat ->
  u64 (Z.shiftl (rand (n + 4 * i)%nat) (rand (n + 4 * i + 2)%nat mod 63)) <>
  u64 (Z.shiftl (rand (n + 4 * i + 1)%nat) (rand (n + 4 * i + 3)%nat mod 63)) ->
  exists fs, generate_seeds fuel rand n = Ret fs.
Proof using.
  induction i as [|i IH]; intros [|fuel] n Hf Hne; try lia; cbn [generate_seeds].
  - rewrite Nat.add_0_r in Hne. destruct (Z.eqb_spec
      (u64 (Z.shiftl (rand n) (rand (n + 2)%nat mod 63)))
      (u64 (Z.shiftl (rand (n + 1)%nat) (rand (n + 3)%nat mod 63)))); [done|by eexists].
  - destruct (Z.eqb _ _); [|by eexists]. apply IH; [lia|].
    replace (n + 4 + 4 * i)%nat with (n + 4 * S i)%nat by lia. done.
Qed.

Lemma level_init_outcome fuel rand n :
  2 <= n < 2 ^ 64 ->
  match level_init fuel rand n with
  | Ret l => (clean_block (at0 (buckets l)) -> clean_block (at1 (buckets l)) ->
                Inv l /\ items l = []) /\
             level_size l = n /\ f_seed l <> s_seed l /\ resize_state l = 0
  | Exit c m => c = 1 /\ (m = 1%nat \/ m = 2%nat)
  | UB => stale_is_null = false \/ MAX_LEVEL < n
  | NoFuel => generate_seeds fuel rand 0 = NoFuel
  end.
Proof using All.
  intros Hn. unfold level_init, alignedmalloc at 1.
  destruct (posix_memalign sizeof_level_hash); [|destruct stale_is_null; auto].
  unfold pow2. destruct (Z.ltb_spec n 64); [|cbn [mbind res_bind]; right; unfold MAX_LEVEL; lia].
  cbn [mbind res_bind]. rewrite (wrap_small 64 (n - 1)) by (unfold in_width; lia).
  destruct (Z.ltb_spec (n - 1) 64); [|lia]. cbn [mbind res_bind].
  pose proof (generate_seeds_spec fuel rand 0) as Hs.
  destruct (generate_seeds fuel rand 0) as [[f s]| | |]; cbn [mbind res_bind]; try done.
  unfold size_of_double.
  destruct (Z.ltb_spec (2 ^ n * sizeof_level_bucket) (2 ^ 64)) as [_|Hbig].
  2: { cbn [mbind res_bind]. right. unfold MAX_LEVEL. destruct (decide (n <= 55)); [|lia].
       pose proof (pow2_bound n 55). change sizeof_level_bucket with 128 in *.
       change (2 ^ 64) with (512 * 2 ^ 55) in Hbig. lia. }
  destruct (Z.ltb_spec (2 ^ (n - 1) * sizeof_level_bucket) (2 ^ 64)) as [_|Hbig].
  2: { cbn [mbind res_bind]. right. unfold MAX_LEVEL. destruct (decide (n <= 55)); [|lia].
       pose proof (pow2_bound (n - 1) 55). change sizeof_level_bucket with 128 in *.
       change (2 ^ 64) with (512 * 2 ^ 55) in Hbig. lia. }
  cbn [mbind res_bind]. unfold alignedmalloc.
  destruct (posix_memalign (2 ^ n * _)) as [top|] eqn:E1,
    (posix_memalign (2 ^ (n - 1) * _)) as [bot|] eqn:E2;
    [|destruct stale_is_null; auto..].
  destruct (fresh_level f s n _ top ltac:(lia) eq_refl E1) as (Hm & _ & _ & Hok1).
  destruct (fresh_level f s (n - 1) _ bot ltac:(lia) eq_refl E2) as (_ & _ & _ & Hok2).
  split_and!; simpl; try done; [|apply Hs]. intros Hc1 Hc2.
  destruct (Hok1 Hc1) as [H1 Hi1], (Hok2 Hc2) as [H2 Hi2].
  split; [|by unfold items; simpl; rewrite Hi1, Hi2].
  split; simpl; try done; [lia|by rewrite Hi1|by rewrite Hi2].
Qed.
End init.

(** * When shrinking is certain to succeed *)

(** Slots in the two home buckets of a key in one level. *)
Definition home_slots : nat := ASSOC_NUM + ASSOC_NUM.

Definition bottom_count (l : level_hash) : nat := length (level_items (at1 (buckets l))).

(** ** Counting full buckets *)

Lemma full_bucket_items b :
  bucket_ok b -> (forall j, (j < ASSOC_NUM)%nat -> token b !! j = Some 1) ->
  length (bucket_items b) = ASSOC_NUM.
Proof.
  intros [Ht Hs _ _] Hfull. unfold bucket_items, cells.
  destruct (token b) as [|t0 [|t1 [|t2 [|t3 [|? ?]]]]]; try discriminate Ht.
  destruct (slot b) as [|? [|? [|? [|? [|? ?]]]]]; try discriminate Hs.
  pose proof (Hfull 0%nat ltac:(unfold ASSOC_NUM; lia)) as [= ->].
  pose proof (Hfull 1%nat ltac:(unfold ASSOC_NUM; lia)) as [= ->].
  pose proof (Hfull 2%nat ltac:(unfold ASSOC_NUM; lia)) as [= ->].
  pose proof (Hfull 3%nat ltac:(unfold ASSOC_NUM; lia)) as [= ->].
  done.
Qed.

Lemma two_full_buckets bs i j b1 b2 :
  (i < j)%nat -> bs !! i = Some b1 -> bs !! j = Some b2 ->
  length (bucket_items b1) = ASSOC_NUM -> length (bucket_items b2) = ASSOC_NUM ->
  (home_slots <= length (level_items bs))%nat.
Proof.
  intros Hij H1 H2 E1 E2. unfold level_items.
  rewrite (Permutation_length (bind_cell bucket_items bs j b2 H2)), length_app, E2.
  assert (delete j bs !! i = Some b1) as H1' by by rewrite list_lookup_delete_lt.
  rewrite (Permutation_length (bind_cell bucket_items _ i b1 H1')), length_app, E1.
  unfold home_slots. lia.
Qed.

Section room.
Context (l : level_hash) (k v : list Z).
Context (HI : Inv l) (Hk : valid_key k) (Hv : valid_value v).

Lemma full_home_items idx :
  in_range (lvl_of l L1) idx ->
  (forall j, (j < ASSOC_NUM)%nat -> token_at (lvl_of l L1) idx j = 1) ->
  exists b, lvl_of l L1 !! Z.to_nat idx = Some b /\ length (bucket_items b) = ASSOC_NUM.
Proof using HI.
  intros Hr Hfull. pose proof (ok_buckets _ _ _ _ (Inv_level l HI L1)) as Hb.
  destruct (bucket_lookup _ Hb idx Hr) as (b & Hl & _ & Hok). exists b. split; [done|].
  apply full_bucket_items; [done|]. intros j Hj.
  destruct (cell_lookup _ Hb idx j Hr Hj) as (b' & Hl' & _ & Ht & _).
  rewrite Hl in Hl'. simplify_eq. by rewrite Ht, Hfull.
Qed.

(** With room in the bottom level, an insertion takes a free slot, and the
    bottom level grows by at most the new item. *)
Lemma insert_empty_room :
  (bottom_count l < home_slots)%nat ->
  exists l', insert_empty l k v = Some l' /\ inserted l k v l' /\
    (bottom_count l' <= S (bottom_count l))%nat.
Proof using HI Hk Hv.
  intros Hroom. destruct (insert_empty l k v) as [l'|] eqn:E.
  - exists l'. pose proof (insert_empty_spec l k v HI Hk Hv l' E) as Hins.
    split_and!; [done..|]. pose proof (Permutation_length (ins_items _ _ _ _ Hins)) as Hlen.
    unfold items in Hlen. simpl in Hlen. rewrite !length_app in Hlen.
    unfold insert_empty in E. apply for_first_Some in E as (i & _ & E).
    destruct (place_less_loaded _ _ _ _ _) as [bs'|]; simplify_eq/=.
    unfold bottom_count in *. destruct i; simpl in *; lia.
  - exfalso.
    destruct (full_home_items (f_home l L1 k)) as (b1 & H1 & E1);
      [by apply f_home_range|intros j Hj; by apply (insert_empty_full l k v)|].
    destruct (full_home_items (s_home l L1 k)) as (b2 & H2 & E2);
      [by apply s_home_range|intros j Hj; by apply (insert_empty_full l k v)|].
    pose proof (f_home_range l HI L1 k) as [? _]. pose proof (s_home_range l HI L1 k) as [? _].
    pose proof (lsize_range l HI L1) as Hls. unfold MAX_LEVEL in Hls.
    pose proof (F_IDX_range (lsize l L1) (F_HASH l k) ltac:(lia)) as HF.
    pose proof (S_IDX_range (lsize l L1) (S_HASH l k) ltac:(lia)) as HS.
    rewrite <- (capacity_pow2 l HI L1) in HF, HS.
    assert (Z.to_nat (f_home l L1 k) < Z.to_nat (s_home l L1 k))%nat as Hlt by lia.
    pose proof (two_full_buckets (lvl_of l L1) _ _ b1 b2 Hlt H1 H2 E1 E2).
    unfold bottom_count in Hroom. simpl in *. lia.
Qed.
End room.

(** ** The reinsertion loops *)

Section shrink_room.
Context `{A : Allocator}.
Context (fuel : nat).

(** [l] came from a table of size [n] with the items [all] and has room for
    those that are still missing, [todo]. *)
Context (all : list (list Z * list Z)).
Record roomy (n : Z) (todo : list (list Z * list Z)) (l : level_hash) : Prop := {
  ro_inv : Inv l;
  ro_size : level_size l = n;
  ro_items : items l ++ todo ≡ₚ all;
  ro_room : (bottom_count l + length todo <= home_slots)%nat
}.

Lemma reinsert_bucket_room n todo b l :
  loose_bucket b -> roomy n (bucket_items b ++ todo) l ->
  outcome (roomy n todo) (fun _ => False) (reinsert_bucket (S fuel) b l).
Proof using.
  intros [Hb Hnul] Hl.
  assert (length (cells b) = ASSOC_NUM) as Hlen.
  { unfold cells. rewrite length_zip_with, (ok_tokens b Hb), (ok_slots b Hb). done. }
  replace todo with ((drop ASSOC_NUM (cells b) ≫= cell_item) ++ todo)
    by by rewrite drop_ge by lia.
  apply (for_each_upto (fun i => roomy n ((drop i (cells b) ≫= cell_item) ++ todo)));
    [done|].
  intros i l1 Hi [H1 H2 Hit H3].
  destruct (lookup_lt_is_Some_2 (token b) i) as [t Ht]; [by rewrite ok_tokens|].
  destruct (lookup_lt_is_Some_2 (slot b) i) as [e He]; [by rewrite ok_slots|].
  assert (cells b !! i = Some (t, e)) as Hc by (unfold cells; by rewrite lookup_zip_with, Ht, He).
  rewrite (drop_S _ _ _ Hc), bind_cons, <- app_assoc in Hit, H3. change (1 + i)%nat with (S i).
  rewrite Ht, (list_lookup_total_correct _ _ _ He). unfold cell_item at 1 in Hit. unfold cell_item at 1 in H3.
  simpl in *.
  destruct (Z.eqb_spec t 1) as [->|Hne]; simpl in *; [|by split].
  pose proof (Forall_lookup_1 _ _ _ _ (ok_entries b Hb) He) as [Hlk Hlv].
  destruct (insert_empty_room l1 (key e) (value e) H1 (conj Hlk (Hnul i e Ht He)) Hlv)
    as (l2 & -> & Hins & Hcnt); [lia|]. simpl.
  destruct Hins as [G1 G2 G3 _ _]. split; [done|congruence| |lia].
  rewrite <- Hit, G2. simpl. apply Permutation_middle.
Qed.

Lemma shrink_loop_room n interim : forall old_idx l,
  Forall loose_bucket interim -> roomy n (level_items interim) l ->
  old_idx + Z.of_nat (length interim) = 2 ^ (n + 1) ->
  outcome (roomy n []) (fun _ => False) (shrink_loop (S fuel) interim old_idx l).
Proof using.
  induction interim as [|b interim IH]; intros old_idx l Hf Hl Hlen; cbn [shrink_loop];
    rewrite (ro_size _ _ _ Hl).
  - simpl in *. destruct (Z.ltb_spec old_idx (2 ^ (n + 1))); [lia|done].
  - apply Forall_cons in Hf as [Hb Hf]. cbn [length] in Hlen.
    destruct (Z.ltb_spec old_idx (2 ^ (n + 1))); [|lia].
    unfold level_items in Hl. rewrite bind_cons in Hl.
    pose proof (reinsert_bucket_room n _ b l Hb Hl) as Hr.
    destruct (reinsert_bucket (S fuel) b l) as [l1| | |]; [|done..].
    cbn [mbind res_bind outcome] in *. apply IH; [done..|lia].
Qed.
End shrink_room.

Record shrunk (l l' : level_hash) : Prop := {
  sh_inv : Inv l';
  sh_items : items l' ≡ₚ items l;
  sh_size : level_size l' = level_size l - 1;
  sh_expand_time : level_expand_time l' = 0;
  sh_state : resize_state l' = 0
}.

Lemma level_shrink_room `{A : Allocator, !AllocatorOk A} fuel l block :
  Inv l -> 3 <= level_size l -> too_full_to_shrink l = false ->
  posix_memalign (2 ^ (level_size l - 2) * sizeof_level_bucket) = Some block -> clean_block block ->
  at0 (level_item_num l) <= Z.of_nat home_slots ->
  exists l', level_shrink (S fuel) (Some l) = Ret l' /\ shrunk l l'.
Proof.
  intros HI Hls Hfull Hp Hc Hnum. pose proof (inv_size l HI) as Hsz. unfold MAX_LEVEL in *.
  unfold level_shrink. rewrite Hfull.
  rewrite (u64_small (level_size l - 1)), u64_small by (unfold MAX_LEVEL; lia).
  unfold pow2, size_of_double. destruct (Z.ltb_spec (level_size l - 1 - 1) 64); [|lia].
  pose proof (pow2_bound (level_size l - 1 - 1) 55). cbn [mbind res_bind].
  destruct (Z.ltb_spec (2 ^ (level_size l - 1 - 1) * sizeof_level_bucket) (2 ^ 64)).
  2: { change sizeof_level_bucket with 128 in *. change (2 ^ 64) with (512 * 2 ^ 55) in *. lia. }
  replace (level_size l - 1 - 1) with (level_size l - 2) in * by lia.
  cbn [mbind res_bind]. unfold alignedmalloc. rewrite Hp.
  destruct (fresh_level (f_seed l) (s_seed l) (level_size l - 2) _ block ltac:(lia) eq_refl Hp)
    as (_ & _ & _ & Hcl). destruct (Hcl Hc) as [Hnb Hnb0].
  set (l1 := LevelHash _ _ _ _ _ _ _ _ _).
  assert (roomy (items l) (level_size l - 1) (level_items (at0 (buckets l))) l1) as HI1.
  { split; [|done| |].
    - split; simpl; try done; [unfold MAX_LEVEL; lia|do 2 f_equal; lia|apply (inv_bot l HI)| |
        apply (inv_num1 l HI)|by rewrite Hnb0].
      by replace (level_size l - 1 - 1) with (level_size l - 2) by lia.
    - unfold items, l1. simpl. rewrite Hnb0, app_nil_r. apply Permutation_app_comm.
    - rewrite (inv_num0 l HI) in Hnum. unfold bottom_count, l1. simpl. rewrite Hnb0. simpl. lia. }
  pose proof (shrink_loop_room fuel (items l) _ (at0 (buckets l)) 0 l1
    (level_loose _ _ _ _ (inv_top l HI)) HI1) as Hloop.
  rewrite (ok_length _ _ _ _ (inv_top l HI)) in Hloop.
  replace (level_size l - 1 + 1) with (level_size l) in Hloop by lia.
  specialize (Hloop ltac:(lia)). cbn [mbind res_bind].
  destruct (shrink_loop (S fuel) _ 0 l1) as [l2| | |]; [|done..].
  eexists. split; [done|]. destruct Hloop as [[] R2 R3 _]. rewrite app_nil_r in R3.
  split; simpl; done.
Qed.
