(* ===== verification/LevelHashSpec.v ===== *)
(** * LevelHashSpec: what the level hash table promises

    The abstract specification is a finite map from strings to values. A
    client that inserts only absent keys sees exactly this map through the
    whole API, whatever movements and expansions happen inside. *)

From stdpp Require Import gmap.
From S2P Require Import Prelude.
From S2P Require Import StringHash.
From S2P Require Import LevelHash.
From S2P Require Import LevelHashInv.
From S2P Require Import LevelHashResize.
Import StringHash.

#[local] Opaque hash_.

(** ** The abstract dictionary *)

Abbreviation dict := (gmap (list Z) (list Z)).

(** The calls of the API that clients make on an existing table. *)
Inductive op :=
| OpInsert (k v : list Z)
| OpDelete (k : list Z)
| OpUpdate (k v : list Z)
| OpStaticQuery (k : list Z)
| OpDynamicQuery (k : list Z).

Inductive reply :=
| Code (r : Z)
| Found (v : option (list Z)).

Definition spec_step (o : op) (m : dict) : reply * dict :=
  match o with
  | OpInsert k v => (Code 0, <[cstr k := v]> m)
  | OpDelete k => match m !! cstr k with
                  | Some _ => (Code 0, delete (cstr k) m)
                  | None => (Code 1, m)
                  end
  | OpUpdate k v => match m !! cstr k with
                    | Some _ => (Code 0, <[cstr k := v]> m)
                    | None => (Code 1, m)
                    end
  | OpStaticQuery k | OpDynamicQuery k => (Found (m !! cstr k), m)
  end.

(** What a client may call: keys and values of the declared sizes, and no
    insertion of a key that is present ([level_insert] does not look). *)
Definition legal (o : op) (m : dict) : Prop :=
  match o with
  | OpInsert k v => valid_key k /\ valid_value v /\ m !! cstr k = None
  | OpUpdate _ v => valid_value v
  | _ => True
  end.

Fixpoint spec_run (os : list op) (m : dict) : list reply * dict :=
  match os with
  | [] => ([], m)
  | o :: os =>
      let '(r, m) := spec_step o m in
      let '(rs, m) := spec_run os m in (r :: rs, m)
  end.

Fixpoint legal_run (os : list op) (m : dict) : Prop :=
  match os with
  | [] => True
  | o :: os => legal o m /\ legal_run os (spec_step o m).2
  end.

(** ** The same calls on the table *)

Definition impl_step `{Allocator} (fuel : nat) (o : op) (l : level_hash)
  : res (reply * level_hash) :=
  match o with
  | OpInsert k v => '(r, l) ← level_insert fuel l k v; Ret (Code r, l)
  | OpDelete k => let '(r, l) := level_delete l k in Ret (Code r, l)
  | OpUpdate k v => let '(r, l) := level_update l k v in Ret (Code r, l)
  | OpStaticQuery k => Ret (Found (level_static_query l k), l)
  | OpDynamicQuery k => Ret (Found (level_dynamic_query l k), l)
  end.

(** Each call may meet a different state of the allocator. *)
Fixpoint impl_run (fuel : nat) (os : list (Allocator * op)) (l : level_hash)
  : res (list reply * level_hash) :=
  match os with
  | [] => Ret ([], l)
  | (A, o) :: os =>
      '(r, l) ← @impl_step A fuel o l;
      '(rs, l) ← impl_run fuel os l;
      Ret (r :: rs, l)
  end.

(** ** Representation *)

Record represents (l : level_hash) (m : dict) : Prop := {
  rep_inv : Inv l;
  rep_unique : NoDup (items l).*1;
  rep_map : list_to_map (items l) = m
}.

Lemma represents_perm l l' m :
  Inv l' -> items l' ≡ₚ items l -> represents l m -> represents l' m.
Proof.
  intros HI Hp [_ Hu Hm]. split; [done|by rewrite Hp|].
  rewrite <- Hm. apply list_to_map_proper; [by rewrite Hp|done].
Qed.

Section represents.
Context (l : level_hash) (m : dict).
Context (HR : represents l m).

Lemma represents_lookup k v : m !! k = Some v <-> (k, v) ∈ items l.
Proof using HR.
  destruct HR as [_ Hu <-]. split; [apply elem_of_list_to_map_2|by apply elem_of_list_to_map_1].
Qed.

(** An answer that is sound and complete for the items is the map's. *)
Lemma represents_answer k (o : option (list Z)) :
  match o with
  | Some v => (k, v) ∈ items l
  | None => forall v, (k, v) ∉ items l
  end -> o = m !! k.
Proof using HR.
  destruct o as [v|]; intros H.
  - symmetry. by apply represents_lookup.
  - destruct (m !! k) as [v|] eqn:E; [|done].
    apply represents_lookup in E. by destruct (H v).
Qed.

Lemma represents_insert k v l' :
  m !! k = None -> Inv l' -> items l' ≡ₚ (k, v) :: items l ->
  represents l' (<[k := v]> m).
Proof using HR.
  intros Hk HI Hp. assert (NoDup ((k, v) :: items l).*1) as Hu.
  { simpl. constructor; [|apply HR]. intros ([k' v'] & Hk' & Hin)%list_elem_of_fmap.
    simpl in Hk'. subst k'. apply represents_lookup in Hin. congruence. }
  split; [done|by rewrite Hp|].
  rewrite (list_to_map_proper (items l') ((k, v) :: items l)); [|by rewrite Hp|done].
  simpl. f_equal. apply HR.
Qed.

Lemma represents_remove k v rest l' :
  items l ≡ₚ (k, v) :: rest -> Inv l' -> items l' ≡ₚ rest -> represents l' (delete k m).
Proof using HR.
  destruct HR as [_ Hu Hm]. intros Hp HI Hr. rewrite Hp in Hu. simpl in Hu.
  apply NoDup_cons in Hu as [Hn Hu]. split; [done|by rewrite Hr|].
  rewrite (list_to_map_proper (items l') rest); [|by rewrite Hr|done].
  rewrite <- Hm. rewrite (list_to_map_proper (items l) ((k, v) :: rest)); [|by rewrite Hp; constructor|done].
  simpl. rewrite delete_insert_id; [done|]. by apply not_elem_of_list_to_map_1.
Qed.

Lemma represents_replace k v v' rest l' :
  items l ≡ₚ (k, v) :: rest -> Inv l' -> items l' ≡ₚ (k, v') :: rest ->
  represents l' (<[k := v']> m).
Proof using HR.
  destruct HR as [_ Hu Hm]. intros Hp HI Hr. rewrite Hp in Hu. simpl in Hu.
  assert (NoDup ((k, v') :: rest).*1) as Hu' by done.
  split; [done|by rewrite Hr|].
  rewrite (list_to_map_proper (items l') ((k, v') :: rest)); [|by rewrite Hr|done].
  rewrite <- Hm, (list_to_map_proper (items l) ((k, v) :: rest)); [|by rewrite Hp|done].
  simpl. by rewrite insert_insert_eq.
Qed.
(** The operations that neither allocate nor move items, on the map. *)
Lemma represents_query k :
  level_static_query l k = m !! cstr k /\ level_dynamic_query l k = m !! cstr k.
Proof using HR.
  pose proof (rep_inv l m HR) as HI. split; apply represents_answer.
  - apply (static_query_spec l HI).
  - apply (dynamic_query_spec l HI).
Qed.

Lemma represents_delete k :
  match m !! cstr k with
  | Some _ => exists l', level_delete l k = (0, l') /\ represents l' (delete (cstr k) m)
  | None => level_delete l k = (1, l)
  end.
Proof using HR.
  pose proof (level_delete_spec l (rep_inv l m HR) k) as H.
  destruct (level_delete l k) as [r l']. destruct (decide (r = 0)) as [->|Hne].
  - destruct H as (HI' & v & Hp & Hq).
    assert (m !! cstr k = Some v) as -> by (apply represents_lookup; rewrite Hp; constructor).
    exists l'. split; [done|]. by eapply represents_remove.
  - assert (r = 1 /\ l' = l /\ forall v, (cstr k, v) ∉ items l) as (-> & -> & Hno)
      by (destruct r; done).
    by rewrite <- (represents_answer (cstr k) None Hno).
Qed.

Lemma represents_update k v :
  valid_value v ->
  match m !! cstr k with
  | Some _ => exists l', level_update l k v = (0, l') /\ represents l' (<[cstr k := v]> m)
  | None => level_update l k v = (1, l)
  end.
Proof using HR.
  intros Hv. pose proof (level_update_spec l (rep_inv l m HR) k v Hv) as H.
  destruct (level_update l k v) as [r l']. destruct (decide (r = 0)) as [->|Hne].
  - destruct H as (HI' & v0 & rest & Hq & Hp1 & Hp2).
    assert (m !! cstr k = Some v0) as -> by (apply represents_lookup; rewrite Hp1; constructor).
    exists l'. split; [done|]. by eapply represents_replace.
  - assert (r = 1 /\ l' = l /\ forall v, (cstr k, v) ∉ items l) as (-> & -> & Hno)
      by (destruct r; done).
    by rewrite <- (represents_answer (cstr k) None Hno).
Qed.
End represents.

(** ** Simulation *)

(** A call at which the table falls short of the map: an insertion that finds
    no room in the existing levels and whose expansion ends with [exit(1)], uses
    the indeterminate pointer of a failed allocation, or is given a block with
    tokens left in it. It does not go on for ever. *)
Definition falls_short (A : Allocator) (fuel : nat) (l : level_hash) (o : op) : Prop :=
  exists k v, o = OpInsert k v /\ no_room l k v /\ level_insert fuel l k v <> NoFuel /\
    (alloc_err (level_insert fuel l k v) \/ meets_used k v l).

Lemma meets_used_no_room `{Allocator} k v l : meets_used k v l -> no_room l k v.
Proof. by intros []. Qed.

Section simulation.
Context (fuel : nat).
Context (Hfuel : 64 <= Z.of_nat fuel).

Lemma impl_step_refines (A : Allocator) o l m :
  AllocatorOk A -> represents l m -> legal o m ->
  falls_short A fuel l o \/
  exists r l', impl_step fuel o l = Ret (r, l') /\ r = (spec_step o m).1 /\ represents l' (spec_step o m).2.
Proof using Hfuel.
  intros HA HR Hlegal. pose proof (rep_inv l m HR) as HI.
  destruct o as [k v|k|k v|k|k]; simpl in Hlegal; cbn [impl_step].
  - destruct Hlegal as (Hk & Hv & Hnone).
    pose proof (inv_size l HI) as Hsize. unfold MAX_LEVEL in Hsize.
    pose proof (level_insert_ends fuel l k v ltac:(lia)) as Hends.
    destruct (level_insert_outcome fuel l k v HI Hk Hv) as [Hu|Hins].
    { left. exists k, v. split_and!; try done; [by apply meets_used_no_room|by right]. }
    assert (alloc_err (level_insert fuel l k v) /\ no_room l k v \/
            exists l', level_insert fuel l k v = Ret (0, l') /\ insertion l k v (0, l')) as [[He Hno]|(l' & E & Hi)].
    { destruct (level_insert fuel l k v) as [[r l']|c n| |]; cbn [outcome] in *.
      - right. pose proof (in_ret _ _ _ _ Hins) as Er. simpl in Er. subst r. by exists l'.
      - destruct Hins as [H|[? _]]; [by left|done].
      - destruct Hins as [H|[? _]]; [by left|done].
      - done. }
    { left. exists k, v. split_and!; try done. by left. }
    right. rewrite E. exists (Code 0), l'. split_and!; [done..|].
    by eapply represents_insert; [done..|apply Hi|apply Hi].
  - right. pose proof (represents_delete l m HR k) as H. cbn [spec_step].
    destruct (m !! cstr k); [destruct H as (l' & -> & H)|rewrite H]; by eauto.
  - right. pose proof (represents_update l m HR k v Hlegal) as H. cbn [spec_step].
    destruct (m !! cstr k); [destruct H as (l' & -> & H)|rewrite H]; by eauto.
  - right. do 2 eexists. split_and!; [done|simpl; f_equal; apply (represents_query l m HR)|done].
  - right. do 2 eexists. split_and!; [done|simpl; f_equal; apply (represents_query l m HR)|done].
Qed.

(** The calls up to the first one at which the table falls short. *)
Lemma impl_run_refines os : forall l m,
  Forall (fun '(A, _) => AllocatorOk A) os -> represents l m -> legal_run (snd <$> os) m ->
  exists done_ rest l', os = done_ ++ rest /\
    impl_run fuel done_ l = Ret ((spec_run (snd <$> done_) m).1, l') /\
    represents l' (spec_run (snd <$> done_) m).2 /\
    match rest with [] => True | (A, o) :: _ => falls_short A fuel l' o end.
Proof using Hfuel.
  induction os as [|[A o] os IH]; intros l m HA HR Hlegal; [by exists [], [], l|].
  apply Forall_cons in HA as [HAok HA]. destruct Hlegal as [Hl Hrest].
  destruct (impl_step_refines A o l m HAok HR Hl) as [Hshort|(r & l1 & E & -> & HR1)].
  { exists [], ((A, o) :: os), l. done. }
  destruct (IH l1 _ HA HR1 Hrest) as (done_ & rest & l' & -> & Hrun & HR' & Hend).
  exists ((A, o) :: done_), rest, l'. rewrite fmap_cons. cbn [impl_run spec_run snd] in *. rewrite E.
  cbn [mbind res_bind]. destruct (spec_step o m) as [r1 m1]. cbn [fst snd] in *.
  unfold mbind, res_bind in *. rewrite Hrun.
  destruct (spec_run (snd <$> done_) m1) as [rs m2]. by split_and!.
Qed.
End simulation.
