(* ===== verification/LevelHashProps.v ===== *)
(** * LevelHashProps: the properties of the level hash table

    The theorems a client of level_hashing.h relies on, each with a witness on
    a concrete table, and the places where the code falls short. *)

From stdpp Require Import gmap.
From S2P Require Import Prelude.
From S2P Require Import StringHash.
From S2P Require Import LevelHash.
From S2P Require Import LevelHashInv.
From S2P Require Import LevelHashResize.
From S2P Require Import LevelHashSpec.
Import StringHash.

(** ** Concrete tables for the witnesses

    An allocator that serves zeroed blocks of fewer than [limit] bytes. *)
Definition zero_entry : entry := Entry (replicate KEY_LEN 0) (replicate VALUE_LEN 0).
Definition empty_bucket : level_bucket :=
  Bucket (replicate ASSOC_NUM 0) (replicate ASSOC_NUM zero_entry).

Definition demo_alloc (limit : Z) : Allocator := {|
  posix_memalign size :=
    if (0 <=? size) && (size <? limit)
    then Some (replicate (Z.to_nat (size / sizeof_level_bucket)) empty_bucket) else None;
  stale_is_null := true
|}.

Lemma demo_alloc_Some limit size bs :
  @posix_memalign (demo_alloc limit) size = Some bs ->
  0 <= size < limit /\ bs = replicate (Z.to_nat (size / sizeof_level_bucket)) empty_bucket.
Proof.
  simpl. destruct (Z.leb_spec 0 size), (Z.ltb_spec size limit); simpl; intros; simplify_eq. done.
Qed.

Lemma demo_alloc_ok limit : limit <= 2 ^ 63 -> AllocatorOk (demo_alloc limit).
Proof.
  intros Hl. split; intros size bs [Hs ->]%demo_alloc_Some; [lia| |].
  - rewrite length_replicate. change sizeof_level_bucket with 128.
    pose proof (Z.div_pos size 128). lia.
  - apply Forall_replicate. split_and!; [done..|]. by repeat constructor.
Qed.

Lemma demo_alloc_clean limit size bs :
  @posix_memalign (demo_alloc limit) size = Some bs -> clean_block bs.
Proof. intros [_ ->]%demo_alloc_Some. by apply Forall_replicate. Qed.

Definition demo_table (n : Z) : level_hash :=
  LevelHash (Two (replicate (Z.to_nat (2 ^ n)) empty_bucket)
               (replicate (Z.to_nat (2 ^ (n - 1))) empty_bucket))
    (Two 0 0) (2 ^ n) (2 ^ n + 2 ^ (n - 1)) n 0 0 1 2.

Lemma demo_level fs ss n :
  0 <= n -> let bs := replicate (Z.to_nat (2 ^ n)) empty_bucket in
  level_ok fs ss n bs /\ level_items bs = [].
Proof.
  intros Hn. apply zero_level.
  - rewrite length_replicate. pose proof (Z.pow_pos_nonneg 2 n). lia.
  - apply Forall_replicate. split; [|done].
    split; [done..|repeat constructor; by left|by repeat constructor].
Qed.

Lemma demo_Inv n : 2 <= n <= MAX_LEVEL -> Inv (demo_table n) /\ items (demo_table n) = [].
Proof.
  intros Hn. unfold MAX_LEVEL in Hn.
  destruct (demo_level 1 2 n ltac:(lia)) as [H1 E1].
  destruct (demo_level 1 2 (n - 1) ltac:(lia)) as [H2 E2].
  unfold items, demo_table. simpl. rewrite E1, E2. split; [|done].
  split; simpl; try done; [by rewrite E1|by rewrite E2].
Qed.

Lemma demo_represents n : 2 <= n <= MAX_LEVEL -> represents (demo_table n) ∅.
Proof.
  intros Hn. destruct (demo_Inv n Hn) as [HI E]. split; [done|rewrite E; constructor|by rewrite E].
Qed.

Lemma demo_ok : AllocatorOk (demo_alloc (2 ^ 20)).
Proof. by apply demo_alloc_ok. Qed.

(** Two-letter keys and one-byte values, padded with zeros. *)
Definition demo_key (n : Z) : list Z := [97 + n / 26; 97 + n mod 26] ++ replicate 14 0.
Definition demo_value (n : Z) : list Z := n :: replicate 14 0.

Lemma demo_key_valid n : valid_key (demo_key n).
Proof. split; [done|]. unfold demo_key. simpl. set_solver. Qed.

#[local] Hint Resolve demo_alloc_ok demo_key_valid : core.

(** [inserts A fuel kvs l] inserts a list of items one after the other. *)
Definition inserts (A : Allocator) (fuel : nat) (kvs : list (list Z * list Z)) (l : level_hash)
  : res level_hash :=
  for_each kvs l (fun kv l => '(_, l) ← level_insert fuel l kv.1 kv.2; Ret l).

(** ** Correctness *)

(** C1: the table implements a finite map, up to the first expansion that goes
    wrong. Starting from a table that represents the map [m], the calls of a
    sequence of insertions of absent keys, deletions, updates and both kinds of
    query return exactly the replies of the map operations, each leaving a table
    that represents the resulting map. All calls do, or those before the first
    insertion that finds no room in the two levels and whose expansion ends with
    [exit(1)] (no memory, or no slot while rehashing), uses the indeterminate
    pointer of a failed allocation, or is given memory with tokens left in it,
    which [posix_memalign] does not exclude. The recursion of [level_insert]
    through [level_expand] ends also then. *)
Theorem table_refines_map (fuel : nat) (os : list (Allocator * op)) (l : level_hash) (m : dict) :
  64 <= Z.of_nat fuel -> Forall (fun '(A, _) => AllocatorOk A) os ->
  represents l m -> legal_run (snd <$> os) m ->
  exists done_ rest l', os = done_ ++ rest /\
    impl_run fuel done_ l = Ret ((spec_run (snd <$> done_) m).1, l') /\
    represents l' (spec_run (snd <$> done_) m).2 /\
    match rest with [] => True | (A, o) :: _ => falls_short A fuel l' o end.
Proof. intros Hf HA HR Hl. by apply impl_run_refines. Qed.

Definition demo_ops : list (Allocator * op) :=
  pair (demo_alloc (2 ^ 20)) <$>
    [OpInsert (demo_key 1) (demo_value 10); OpInsert (demo_key 2) (demo_value 20);
     OpStaticQuery (demo_key 1); OpUpdate (demo_key 1) (demo_value 11);
     OpDynamicQuery (demo_key 1); OpDelete (demo_key 2); OpDelete (demo_key 2)].

Lemma demo_ops_alloc : Forall (fun '(A, _) => AllocatorOk A) demo_ops.
Proof. unfold demo_ops. repeat (constructor; [by apply demo_alloc_ok|]). constructor. Qed.

Lemma demo_ops_legal : legal_run (snd <$> demo_ops) ∅.
Proof.
  unfold demo_ops. cbn [legal_run fmap list_fmap snd legal].
  split_and!; try apply demo_key_valid; vm_compute; done.
Qed.

(** The replies of a run, or nothing when it ends abnormally. *)
Definition replies_of {A B} (r : res (A * B)) : option A :=
  match r with Ret (rs, _) => Some rs | _ => None end.

Lemma table_refines_map_witness :
  replies_of (impl_run 64 demo_ops (demo_table 2))
    = Some [Code 0; Code 0; Found (Some (demo_value 10)); Code 0;
            Found (Some (demo_value 11)); Code 0; Code 1] /\
  exists done_ rest l', demo_ops = done_ ++ rest /\
    impl_run 64 done_ (demo_table 2) = Ret ((spec_run (snd <$> done_) ∅).1, l') /\
    represents l' (spec_run (snd <$> done_) ∅).2 /\
    match rest with [] => True | (A, o) :: _ => falls_short A 64 l' o end.
Proof.
  split; [vm_compute; reflexivity|].
  apply (table_refines_map 64 demo_ops (demo_table 2) ∅).
  - done.
  - apply demo_ops_alloc.
  - by apply demo_represents.
  - apply demo_ops_legal.
Defined.

(** C20: [level_insert] on every branch. From a well-formed table it returns 0
    with a well-formed table that holds exactly the old items and the new one;
    or it finds no room in the two levels, and then the process ends by [exit(1)]
    with message 2 (no memory) or 3 (rehashing failed) of [level_expand], or the
    behaviour is undefined through the non-NULL pointer that a failed allocation
    left, or an expansion is given memory with tokens left in it. The recursion
    ends in every case. *)
Theorem level_insert_correct `{A : Allocator} `{!AllocatorOk A}
    (fuel : nat) (l : level_hash) (k v : list Z) :
  64 <= Z.of_nat fuel -> Inv l -> valid_key k -> valid_value v ->
  level_insert fuel l k v <> NoFuel /\
  (no_room l k v /\ meets_used k v l \/
   match level_insert fuel l k v with
   | Ret (r, l') => r = 0 /\ Inv l' /\ items l' ≡ₚ (cstr k, v) :: items l /\
                    level_size l <= level_size l'
   | Exit c m => no_room l k v /\ c = 1 /\ (m = 2%nat \/ m = 3%nat)
   | UB => no_room l k v /\ stale_is_null = false
   | NoFuel => False
   end).
Proof.
  intros Hf HI Hk Hv. pose proof (inv_size l HI) as Hs. unfold MAX_LEVEL in Hs.
  assert (level_insert fuel l k v <> NoFuel) as Hends by (apply level_insert_ends; lia).
  split; [done|]. destruct (level_insert_outcome fuel l k v HI Hk Hv) as [H|H].
  { left. split; [by apply meets_used_no_room|done]. }
  right. destruct (level_insert fuel l k v) as [[r l']|c m| |]; simpl in H; [by destruct H|..|done].
  - by destruct H as [[H ?]|[? _]].
  - by destruct H as [[H ?]|[? _]].
Qed.

Lemma level_insert_correct_witness :
  let r := @level_insert (demo_alloc (2 ^ 20)) 64 (demo_table 2) (demo_key 3) (demo_value 7) in
  r <> NoFuel /\
  (no_room (demo_table 2) (demo_key 3) (demo_value 7) /\
     @meets_used (demo_alloc (2 ^ 20)) (demo_key 3) (demo_value 7) (demo_table 2) \/
   match r with
   | Ret (r, l') => r = 0 /\ Inv l' /\
       items l' ≡ₚ (cstr (demo_key 3), demo_value 7) :: items (demo_table 2) /\
       level_size (demo_table 2) <= level_size l'
   | Exit c m => no_room (demo_table 2) (demo_key 3) (demo_value 7) /\ c = 1 /\ (m = 2%nat \/ m = 3%nat)
   | UB => no_room (demo_table 2) (demo_key 3) (demo_value 7) /\ @stale_is_null (demo_alloc (2 ^ 20)) = false
   | NoFuel => False
   end).
Proof.
  apply (@level_insert_correct (demo_alloc (2 ^ 20)) demo_ok 64).
  - done.
  - by apply demo_Inv.
  - apply demo_key_valid.
  - done.
Defined.

(** An insertion that finds a free slot in one of the four candidate
    buckets does not touch the allocator, whatever it would do, and keeps the
    size of the table. *)
Theorem level_insert_free_slot (A : Allocator) (fuel : nat) (l : level_hash) (k v : list Z)
    (i : lvl) (j : nat) :
  Inv l -> valid_key k -> valid_value v -> (j < ASSOC_NUM)%nat ->
  token_at (get2 (buckets l) i) (F_IDX (F_HASH l k) (capacity_of l i)) j = 0 \/
  token_at (get2 (buckets l) i) (S_IDX (S_HASH l k) (capacity_of l i)) j = 0 ->
  exists l', level_insert (S fuel) l k v = Ret (0, l') /\ Inv l' /\
    items l' ≡ₚ (cstr k, v) :: items l /\ level_size l' = level_size l.
Proof.
  intros HI Hk Hv Hj Hfree. simpl. destruct (insert_empty l k v) as [l'|] eqn:E.
  - exists l'. by destruct (insert_empty_spec l k v HI Hk Hv l' E).
  - destruct (insert_empty_full l k v HI i j E Hj) as [H1 H2].
    destruct Hfree as [H|H]; congruence.
Qed.

Lemma level_insert_free_slot_witness :
  exists l', @level_insert (demo_alloc 0) 1 (demo_table 2) (demo_key 3) (demo_value 7)
             = Ret (0, l') /\ Inv l' /\
    items l' ≡ₚ (cstr (demo_key 3), demo_value 7) :: items (demo_table 2) /\ level_size l' = 2.
Proof.
  apply (level_insert_free_slot (demo_alloc 0) 0 (demo_table 2) (demo_key 3) (demo_value 7)
           L0 0).
  - by apply demo_Inv.
  - apply demo_key_valid.
  - done.
  - unfold ASSOC_NUM. lia.
  - left. vm_compute. reflexivity.
Defined.

(** C21: [level_expand], for any contents of the memory it is given. When it
    returns, the table is one level larger, its old top level is the new bottom
    level, and its items are the old ones and those whose tokens were left in the
    memory of the new top level; if there were no tokens in it, the table is well
    formed. Otherwise the process ends by [exit(1)] with message 2 (no memory) or
    3 (no slot for an item of the bottom level), or the behaviour is undefined
    through the non-NULL pointer that a failed allocation left. *)
Theorem level_expand_correct `{A : Allocator} `{!AllocatorOk A} (l : level_hash) :
  Inv l ->
  match level_expand (Some l) with
  | Ret l' => exists block, posix_memalign (2 ^ (level_size l + 1) * sizeof_level_bucket) = Some block /\
      items l' ≡ₚ items l ++ level_items block /\ at1 (buckets l') = at0 (buckets l) /\
      level_size l' = level_size l + 1 /\ addr_capacity l' = 2 * addr_capacity l /\
      (clean_block block -> Inv l' /\ items l' ≡ₚ items l)
  | Exit c m => c = 1 /\ (m = 2%nat \/ m = 3%nat)
  | UB => stale_is_null = false
  | NoFuel => False
  end.
Proof.
  intros HI. pose proof (level_expand_spec l HI) as H. pose proof (inv_size l HI).
  destruct (level_expand (Some l)) as [l'|c m| |]; simpl in H; try done.
  destruct H as (block & Hb & [Hp Hs _ Ha Hbot _ _ Hi]). exists block. split_and!; [done..|].
  intros Hc. split; [by apply Hi|].
  destruct (fresh_level 0 0 (level_size l + 1) _ block ltac:(lia) eq_refl Hb) as (_ & _ & _ & Hcl).
  destruct (Hcl Hc) as [_ E]. by rewrite Hp, E, app_nil_r.
Qed.

Lemma level_expand_correct_witness :
  match @level_expand (demo_alloc (2 ^ 20)) (Some (demo_table 2)) with
  | Ret l' => exists block,
      @posix_memalign (demo_alloc (2 ^ 20)) (2 ^ (level_size (demo_table 2) + 1) * sizeof_level_bucket) = Some block /\
      items l' ≡ₚ items (demo_table 2) ++ level_items block /\
      at1 (buckets l') = at0 (buckets (demo_table 2)) /\
      level_size l' = level_size (demo_table 2) + 1 /\
      addr_capacity l' = 2 * addr_capacity (demo_table 2) /\
      (clean_block block -> Inv l' /\ items l' ≡ₚ items (demo_table 2))
  | Exit c m => c = 1 /\ (m = 2%nat \/ m = 3%nat)
  | UB => @stale_is_null (demo_alloc (2 ^ 20)) = false
  | NoFuel => False
  end.
Proof.
  apply (@level_expand_correct (demo_alloc (2 ^ 20)) demo_ok).
  by apply demo_Inv.
Defined.

(** [level_shrink] of a table whose top level holds no more items than
    the two home buckets of a key have slots returns, given zeroed memory for the
    new bottom level: the items are the same, the table is one level smaller
    and ready for use. *)
Theorem level_shrink_correct `{A : Allocator} `{!AllocatorOk A}
    (fuel : nat) (l : level_hash) (block : list level_bucket) :
  Inv l -> 3 <= level_size l -> too_full_to_shrink l = false ->
  posix_memalign (2 ^ (level_size l - 2) * sizeof_level_bucket) = Some block -> clean_block block ->
  at0 (level_item_num l) <= 2 * Z.of_nat ASSOC_NUM ->
  exists l', level_shrink (S fuel) (Some l) = Ret l' /\ Inv l' /\ items l' ≡ₚ items l /\
    level_size l' = level_size l - 1 /\ level_expand_time l' = 0 /\ resize_state l' = 0.
Proof.
  intros HI Hls Hfull Hp Hc Hnum.
  destruct (level_shrink_room fuel l block HI Hls Hfull Hp Hc) as (l' & E & H).
  { unfold home_slots, ASSOC_NUM in *. lia. }
  exists l'. by destruct H.
Qed.

Lemma level_shrink_correct_witness :
  exists l', @level_shrink (demo_alloc (2 ^ 20)) 1 (Some (demo_table 3)) = Ret l' /\ Inv l' /\
    items l' ≡ₚ items (demo_table 3) /\ level_size l' = 2 /\ level_expand_time l' = 0 /\
    resize_state l' = 0.
Proof.
  apply (@level_shrink_correct (demo_alloc (2 ^ 20)) demo_ok 0 (demo_table 3) [empty_bucket; empty_bucket]).
  - by apply demo_Inv.
  - done.
  - vm_compute. reflexivity.
  - done.
  - by repeat constructor.
  - done.
Defined.

(** Both queries are the lookup of the map a table represents; the search
    order chosen by the dynamic query never changes the answer. *)
Theorem queries_agree (l : level_hash) (m : dict) (k : list Z) :
  represents l m ->
  level_static_query l k = m !! cstr k /\ level_dynamic_query l k = m !! cstr k.
Proof. intros HR. by apply represents_query. Qed.

Lemma queries_agree_witness :
  level_static_query (demo_table 2) (demo_key 3) = (∅ : dict) !! cstr (demo_key 3) /\
  level_dynamic_query (demo_table 2) (demo_key 3) = (∅ : dict) !! cstr (demo_key 3).
Proof. apply (queries_agree (demo_table 2) ∅). by apply demo_represents. Defined.

(** What is inserted is found again. After an insertion of an absent key
    returns, both queries answer the new value for this key (as a string) and
    what they answered before for every other key, also when the insertion
    moved items or expanded the table into zeroed memory. *)
Theorem insert_query_roundtrip `{A : Allocator} `{!AllocatorOk A}
    (fuel : nat) (l l' : level_hash) (m : dict) (k v k' : list Z) (r : Z) :
  represents l m -> valid_key k -> valid_value v -> level_static_query l k = None ->
  level_insert fuel l k v = Ret (r, l') ->
  meets_used k v l \/
  level_static_query l' k = Some v /\ level_dynamic_query l' k = Some v /\
  (cstr k' <> cstr k -> level_static_query l' k' = level_static_query l k' /\
                        level_dynamic_query l' k' = level_dynamic_query l k').
Proof.
  intros HR Hk Hv Hq E. pose proof (rep_inv l m HR) as HI.
  destruct (level_insert_outcome fuel l k v HI Hk Hv) as [H|H]; [by left|right]. rewrite E in H.
  destruct H as [_ HI' Hp _ _ _]. simpl in *. destruct (represents_query l m HR k) as [Hk0 _].
  assert (represents l' (<[cstr k := v]> m)) as HR'
    by (eapply represents_insert; eauto; congruence).
  destruct (represents_query l' _ HR' k) as [-> ->]. rewrite lookup_insert_eq.
  split_and!; [done..|]. intros Hne.
  destruct (represents_query l' _ HR' k') as [-> ->], (represents_query l _ HR k') as [-> ->].
  by rewrite lookup_insert_ne.
Qed.

(** [level_delete] of a present key returns 0 and removes exactly the item
    that a query finds; of an absent key it returns 1 and changes nothing. *)
Theorem level_delete_correct (l : level_hash) (m : dict) (k : list Z) :
  represents l m ->
  match m !! cstr k with
  | Some _ => exists l', level_delete l k = (0, l') /\ represents l' (delete (cstr k) m)
  | None => level_delete l k = (1, l)
  end.
Proof. intros HR. by apply represents_delete. Qed.

Lemma level_delete_correct_witness : level_delete (demo_table 2) (demo_key 3) = (1, demo_table 2).
Proof.
  exact (level_delete_correct (demo_table 2) ∅ (demo_key 3) (demo_represents 2 ltac:(done))).
Defined.

(** [level_update] of a present key returns 0 and replaces its value, and
    only that; of an absent key it returns 1 and changes nothing. *)
Theorem level_update_correct (l : level_hash) (m : dict) (k v : list Z) :
  represents l m -> valid_value v ->
  match m !! cstr k with
  | Some _ => exists l', level_update l k v = (0, l') /\ represents l' (<[cstr k := v]> m)
  | None => level_update l k v = (1, l)
  end.
Proof. intros HR Hv. by apply represents_update. Qed.

Lemma level_update_correct_witness :
  level_update (demo_table 2) (demo_key 3) (demo_value 1) = (1, demo_table 2).
Proof.
  exact (level_update_correct (demo_table 2) ∅ (demo_key 3) (demo_value 1)
           (demo_represents 2 ltac:(done)) ltac:(done)).
Defined.

(** [level_init] with at least two levels of buckets returns a table with
    two different seeds, empty and well formed if the memory of the two levels
    was zeroed, or the process ends with
    [exit(1)]; the loop that draws the seeds ends as soon as one round of
    [rand] calls gives two different ones. *)
Theorem level_init_correct `{A : Allocator} `{!AllocatorOk A}
    (fuel i : nat) (rand : nat -> Z) (n : Z) :
  2 <= n <= MAX_LEVEL -> (i < fuel)%nat ->
  u64 (Z.shiftl (rand (4 * i)%nat) (rand (4 * i + 2)%nat mod 63)) <>
  u64 (Z.shiftl (rand (4 * i + 1)%nat) (rand (4 * i + 3)%nat mod 63)) ->
  match level_init fuel rand n with
  | Ret l => (clean_block (at0 (buckets l)) -> clean_block (at1 (buckets l)) -> represents l ∅) /\
             level_size l = n /\ f_seed l <> s_seed l /\ resize_state l = 0
  | Exit c m => c = 1 /\ (m = 1%nat \/ m = 2%nat)
  | UB => stale_is_null = false
  | NoFuel => False
  end.
Proof.
  intros Hn Hi Hne. unfold MAX_LEVEL in Hn.
  pose proof (level_init_outcome fuel rand n ltac:(lia)) as H.
  destruct (level_init fuel rand n) as [l|c m| |].
  - destruct H as (HI & Hs & Hf & Hr). split_and!; try done.
    intros H1 H2. destruct (HI H1 H2) as [HI0 E]. split; [done|rewrite E; constructor|by rewrite E].
  - done.
  - destruct H; [done|unfold MAX_LEVEL in *; lia].
  - destruct (generate_seeds_ends rand i fuel 0 Hi Hne) as [fs E]. congruence.
Qed.

Lemma level_init_correct_witness :
  match @level_init (demo_alloc (2 ^ 20)) 2 (fun n => Z.of_nat n) 3 with
  | Ret l => (clean_block (at0 (buckets l)) -> clean_block (at1 (buckets l)) -> represents l ∅) /\
             level_size l = 3 /\ f_seed l <> s_seed l /\ resize_state l = 0
  | Exit c m => c = 1 /\ (m = 1%nat \/ m = 2%nat)
  | UB => @stale_is_null (demo_alloc (2 ^ 20)) = false
  | NoFuel => False
  end.
Proof.
  apply (@level_init_correct (demo_alloc (2 ^ 20)) demo_ok 2 0
           (fun n => Z.of_nat n) 3).
  - done.
  - lia.
  - vm_compute. discriminate.
Defined.

(** Memory safety of the bucket accesses. In a well-formed table the two
    bucket numbers computed for any key lie inside the array of the level, in
    its lower and its upper half, so the two candidates of a key never
    coincide. *)
Theorem bucket_indices_safe (l : level_hash) (i : lvl) (k : list Z) :
  Inv l ->
  let bs := get2 (buckets l) i in
  let f := F_IDX (F_HASH l k) (capacity_of l i) in
  let s := S_IDX (S_HASH l k) (capacity_of l i) in
  is_Some (bs !! Z.to_nat f) /\ is_Some (bs !! Z.to_nat s) /\
  0 <= f < capacity_of l i / 2 /\ capacity_of l i / 2 <= s < capacity_of l i /\
  Z.of_nat (length bs) = capacity_of l i.
Proof.
  intros HI bs f s. pose proof (lsize_range l HI i) as Hls. unfold MAX_LEVEL in Hls.
  pose proof (f_home_range l HI i k) as Hf. pose proof (s_home_range l HI i k) as Hs.
  unfold in_range in *.
  pose proof (F_IDX_range (lsize l i) (F_HASH l k) ltac:(lia)) as HF.
  pose proof (S_IDX_range (lsize l i) (S_HASH l k) ltac:(lia)) as HS.
  rewrite <- (capacity_pow2 l HI i) in HF, HS.
  assert (capacity_of l i / 2 = 2 ^ (lsize l i - 1)) as ->
    by (rewrite (capacity_pow2 l HI i); apply pow2_half; lia).
  split_and!; try apply lookup_lt_is_Some; unfold f, s, bs; try lia.
  rewrite (capacity_pow2 l HI i). apply (Inv_level l HI i).
Qed.

Lemma bucket_indices_safe_witness :
  F_IDX (F_HASH (demo_table 2) (demo_key 3)) 4 < 2 /\
  2 <= S_IDX (S_HASH (demo_table 2) (demo_key 3)) 4.
Proof.
  destruct (bucket_indices_safe (demo_table 2) L0 (demo_key 3)) as (_ & _ & H & H' & _).
  - by apply demo_Inv.
  - change (capacity_of (demo_table 2) L0) with 4 in *. change (4 / 2) with 2 in *. lia.
Defined.

(** ** Where the code falls short *)

(** Seventeen keys whose two hash values are even with the seeds 1 and 2. *)
Definition clustered : list (list Z * list Z) :=
  (fun n => (demo_key n, demo_value n)) <$>
    [3; 7; 12; 19; 21; 23; 38; 54; 61; 62; 63; 71; 77; 79; 86; 88; 91].

Definition clustered_table : res level_hash :=
  inserts (demo_alloc (2 ^ 20)) 64 clustered (demo_table 3).

(** [level_shrink] can read past the old top level. The table below is
    reached by insertions only and passes the load test of [level_shrink], but
    a reinsertion expands the table, which raises the loop bound
    [pow(2, level_size + 1)] beyond the number of buckets in
    [interimBuckets]. *)
Theorem level_shrink_overrun :
  match clustered_table with
  | Ret l => too_full_to_shrink l = false /\
             @level_shrink (demo_alloc (2 ^ 20)) 64 (Some l) = UB
  | _ => False
  end.
Proof. vm_compute. split; reflexivity. Qed.

(** An allocator that returns memory in use before: every token is 1. *)
Definition dirty_bucket : level_bucket :=
  Bucket (replicate ASSOC_NUM 1) (replicate ASSOC_NUM (Entry (demo_key 3) (demo_value 9))).

Definition dirty_alloc : Allocator := {|
  posix_memalign size :=
    if (0 <=? size) && (size <? 2 ^ 20)
    then Some (replicate (Z.to_nat (size / sizeof_level_bucket)) dirty_bucket) else None;
  stale_is_null := true
|}.

Lemma dirty_alloc_ok : AllocatorOk dirty_alloc.
Proof.
  assert (forall size bs, @posix_memalign dirty_alloc size = Some bs -> 0 <= size < 2 ^ 20 /\
    bs = replicate (Z.to_nat (size / sizeof_level_bucket)) dirty_bucket) as H.
  { intros size bs. simpl.
    destruct (Z.leb_spec 0 size), (Z.ltb_spec size (2 ^ 20)); simpl; intros; by simplify_eq. }
  split; intros size bs [Hs ->]%H; [lia| |].
  - rewrite length_replicate. change sizeof_level_bucket with 128.
    pose proof (Z.div_pos size 128). lia.
  - apply Forall_replicate. split_and!; [done..|]. by repeat constructor.
Qed.

(** [level_init] never clears the tokens, and [posix_memalign] does not
    clear memory. With an allocator that keeps its documented promises, a new
    table that counts no items can answer a query with a value nobody
    inserted. *)
Theorem level_init_phantom_items :
  AllocatorOk dirty_alloc /\
  match @level_init dirty_alloc 1 (fun n => Z.of_nat n) 2 with
  | Ret l => level_item_num l = Two 0 0 /\
             level_static_query l (demo_key 3) = Some (demo_value 9)
  | _ => False
  end.
Proof. split; [apply dirty_alloc_ok|]. vm_compute. split; reflexivity. Qed.

(** The same key again and again, with different values. *)
Definition same_key (n : nat) : list (list Z * list Z) :=
  (fun i => (demo_key 3, demo_value (Z.of_nat i))) <$> upto n.

(** [level_insert] does not look for the key first. Sixteen insertions of
    one key fill its four candidate buckets; the seventeenth expands the table
    over and over, since all copies always share their candidates, until
    memory is exhausted and the process exits. *)
Theorem level_insert_same_key :
  match inserts (demo_alloc (2 ^ 14)) 64 (same_key 16) (demo_table 2) with
  | Ret l => level_size l = 2 /\ level_item_num l = Two 8 8 /\
      @level_insert (demo_alloc (2 ^ 14)) 64 l (demo_key 3) (demo_value 16) = Exit 1 2
  | _ => False
  end.
Proof. vm_compute. split_and!; reflexivity. Qed.
