(* ===== verification/Sha256.v ===== *)
(** * Sha256: sys/octopus/src/fs/sha256.c

    Module [Sha256] translates the C file; the context is passed by value.
    Module [FIPS180] is the reference, written after FIPS 180: message
    schedule by its recurrence, padding of the whole message, block-wise
    compression. The theorems relate the two. *)

From Equations Require Import Equations.
From S2P Require Import Prelude.

Module Sha256.

(** ** Macros, on [WORD]s *)

Definition ROTRIGHT (a b : Z) : Z := Z.lor (Z.shiftr a b) (u32 (Z.shiftl a (32 - b))).
Definition CH (x y z : Z) : Z := Z.lxor (Z.land x y) (Z.land (u32 (Z.lnot x)) z).
Definition MAJ (x y z : Z) : Z := Z.lxor (Z.lxor (Z.land x y) (Z.land x z)) (Z.land y z).
Definition EP0 (x : Z) : Z := Z.lxor (Z.lxor (ROTRIGHT x 2) (ROTRIGHT x 13)) (ROTRIGHT x 22).
Definition EP1 (x : Z) : Z := Z.lxor (Z.lxor (ROTRIGHT x 6) (ROTRIGHT x 11)) (ROTRIGHT x 25).
Definition SIG0 (x : Z) : Z := Z.lxor (Z.lxor (ROTRIGHT x 7) (ROTRIGHT x 18)) (Z.shiftr x 3).
Definition SIG1 (x : Z) : Z := Z.lxor (Z.lxor (ROTRIGHT x 17) (ROTRIGHT x 19)) (Z.shiftr x 10).

(** The table [k], a literal per row of the source: the eight words of a row,
    the first one in the highest bits. *)
Definition words_of_row (r : Z) : list Z :=
  (fun i => Z.land (Z.shiftr r (32 * (7 - i))) 0xffffffff) <$> seqZ 0 8.

Definition k : list Z := Eval vm_compute in
  mjoin (words_of_row <$>
  [0x428a2f98_71374491_b5c0fbcf_e9b5dba5_3956c25b_59f111f1_923f82a4_ab1c5ed5;
   0xd807aa98_12835b01_243185be_550c7dc3_72be5d74_80deb1fe_9bdc06a7_c19bf174;
   0xe49b69c1_efbe4786_0fc19dc6_240ca1cc_2de92c6f_4a7484aa_5cb0a9dc_76f988da;
   0x983e5152_a831c66d_b00327c8_bf597fc7_c6e00bf3_d5a79147_06ca6351_14292967;
   0x27b70a85_2e1b2138_4d2c6dfc_53380d13_650a7354_766a0abb_81c2c92e_92722c85;
   0xa2bfe8a1_a81a664b_c24b8b70_c76c51a3_d192e819_d6990624_f40e3585_106aa070;
   0x19a4c116_1e376c08_2748774c_34b0bcb5_391c0cb3_4ed8aa4a_5b9cca4f_682e6ff3;
   0x748f82ee_78a5636f_84c87814_8cc70208_90befffa_a4506ceb_bef9a3f7_c67178f2]).

Record SHA256_CTX := Ctx {
  data : list Z;     (* BYTE[64] *)
  datalen : Z;
  bitlen : Z;
  state : list Z     (* WORD[8] *)
}.

(** ** sha256_transform *)

(** The two loops that fill [m]. The array is created with zeros in place of
    its indeterminate contents; every cell is written before it is read.
    Bytes are shifted as [int]: the value is that of the unsigned shift. *)
Definition load_word (data : list Z) (m : list Z) (i : nat) : list Z :=
  let j := (4 * i)%nat in
  <[i := Z.lor (Z.lor (Z.lor (u32 (Z.shiftl (data !!! j) 24))
                             (Z.shiftl (data !!! (j + 1)%nat) 16))
                      (Z.shiftl (data !!! (j + 2)%nat) 8))
               (data !!! (j + 3)%nat)]> m.

Definition extend_word (m : list Z) (i : nat) : list Z :=
  <[i := u32 (SIG1 (m !!! (i - 2)%nat) + m !!! (i - 7)%nat
              + SIG0 (m !!! (i - 15)%nat) + m !!! (i - 16)%nat)]> m.

Definition schedule (data : list Z) : list Z :=
  foldl extend_word (foldl (load_word data) (replicate 64 0) (seq 0 16)) (seq 16 48).

(** The registers [a .. h]. *)
Inductive regs := Regs (a b c d e f g h : Z).

Definition round (m : list Z) (r : regs) (i : nat) : regs :=
  let '(Regs a b c d e f g h) := r in
  let t1 := u32 (h + EP1 e + CH e f g + k !!! i + m !!! i) in
  let t2 := u32 (EP0 a + MAJ a b c) in
  Regs (u32 (t1 + t2)) a b c (u32 (d + t1)) e f g.

Definition sha256_transform (ctx : SHA256_CTX) (block : list Z) : SHA256_CTX :=
  let m := schedule block in
  let s := state ctx in
  let '(Regs a b c d e f g h) :=
    foldl (round m)
      (Regs (s !!! 0%nat) (s !!! 1%nat) (s !!! 2%nat) (s !!! 3%nat)
            (s !!! 4%nat) (s !!! 5%nat) (s !!! 6%nat) (s !!! 7%nat)) (seq 0 64) in
  Ctx (data ctx) (datalen ctx) (bitlen ctx)
    [u32 (s !!! 0%nat + a); u32 (s !!! 1%nat + b); u32 (s !!! 2%nat + c); u32 (s !!! 3%nat + d);
     u32 (s !!! 4%nat + e); u32 (s !!! 5%nat + f); u32 (s !!! 6%nat + g); u32 (s !!! 7%nat + h)].

(** ** sha256_init, sha256_update *)

Definition sha256_init (ctx : SHA256_CTX) : SHA256_CTX :=
  Ctx (data ctx) 0 0
    [0x6a09e667; 0xbb67ae85; 0x3c6ef372; 0xa54ff53a;
     0x510e527f; 0x9b05688c; 0x1f83d9ab; 0x5be0cd19].

(** The body of the loop. *)
Definition update_byte (ctx : SHA256_CTX) (b : Z) : SHA256_CTX :=
  let ctx := Ctx (<[Z.to_nat (datalen ctx) := b]> (data ctx)) (u32 (datalen ctx + 1))
               (bitlen ctx) (state ctx) in
  if datalen ctx =? 64 then
    let ctx := sha256_transform ctx (data ctx) in
    Ctx (data ctx) 0 (u64 (bitlen ctx + 512)) (state ctx)
  else ctx.

(** The counter [i] is a 32-bit [WORD], [len] a 64-bit [size_t]. *)
Fixpoint update_loop (fuel : nat) (ctx : SHA256_CTX) (bytes : list Z) (i len : Z)
  : res SHA256_CTX :=
  match fuel with
  | O => NoFuel
  | S fuel =>
      if i <? len then update_loop fuel (update_byte ctx (byte_at bytes i)) bytes (u32 (i + 1)) len
      else Ret ctx
  end.

Definition sha256_update (fuel : nat) (ctx : SHA256_CTX) (bytes : list Z) (len : Z)
  : res SHA256_CTX :=
  update_loop fuel ctx bytes 0 len.

(** ** sha256_final *)

(** [data[i++] = 0x80; while (i < limit) data[i++] = 0x00;] *)
Definition pad_to (limit : nat) (d : list Z) (i : nat) : list Z :=
  foldl (fun d j => <[j := 0]> d) (<[i := 0x80]> d) (seq (S i) (limit - S i)).

(** The eight stores of the message length, most significant byte first. *)
Definition store_bitlen (d : list Z) (bitlen : Z) : list Z :=
  let d := <[63%nat := u8 bitlen]> d in
  let d := <[62%nat := u8 (Z.shiftr bitlen 8)]> d in
  let d := <[61%nat := u8 (Z.shiftr bitlen 16)]> d in
  let d := <[60%nat := u8 (Z.shiftr bitlen 24)]> d in
  let d := <[59%nat := u8 (Z.shiftr bitlen 32)]> d in
  let d := <[58%nat := u8 (Z.shiftr bitlen 40)]> d in
  let d := <[57%nat := u8 (Z.shiftr bitlen 48)]> d in
  <[56%nat := u8 (Z.shiftr bitlen 56)]> d.

(** One iteration of the loop that writes the digest. *)
Definition store_digest (s : list Z) (hash : list Z) (i : nat) : list Z :=
  let byte n := Z.land (Z.shiftr (s !!! n) (24 - Z.of_nat i * 8)) 0xff in
  let hash := <[i := byte 0%nat]> hash in
  let hash := <[(i + 4)%nat := byte 1%nat]> hash in
  let hash := <[(i + 8)%nat := byte 2%nat]> hash in
  let hash := <[(i + 12)%nat := byte 3%nat]> hash in
  let hash := <[(i + 16)%nat := byte 4%nat]> hash in
  let hash := <[(i + 20)%nat := byte 5%nat]> hash in
  let hash := <[(i + 24)%nat := byte 6%nat]> hash in
  <[(i + 28)%nat := byte 7%nat]> hash.

(** The padding of what is left in the buffer. *)
Definition final_pad (ctx : SHA256_CTX) : SHA256_CTX :=
  let i := Z.to_nat (datalen ctx) in
  if datalen ctx <? 56 then
    Ctx (pad_to 56 (data ctx) i) (datalen ctx) (bitlen ctx) (state ctx)
  else
    let d := pad_to 64 (data ctx) i in
    let ctx := sha256_transform (Ctx d (datalen ctx) (bitlen ctx) (state ctx)) d in
    Ctx (replicate 56 0 ++ drop 56 (data ctx)) (datalen ctx) (bitlen ctx) (state ctx).

Definition sha256_final (ctx : SHA256_CTX) (hash : list Z) : SHA256_CTX * list Z :=
  let ctx := final_pad ctx in
  let bitlen := u64 (bitlen ctx + u32 (datalen ctx * 8)) in
  let d := store_bitlen (data ctx) bitlen in
  let ctx := sha256_transform (Ctx d (datalen ctx) bitlen (state ctx)) d in
  (ctx, foldl (store_digest (state ctx)) hash (seq 0 4)).

End Sha256.

Module FIPS180.
Import Sha256.

(** ** The standard *)

Definition rotr (n x : Z) : Z := (x * 2 ^ (32 - n) + x / 2 ^ n) mod 2 ^ 32.
Definition shr (n x : Z) : Z := x / 2 ^ n.
Definition Ch (x y z : Z) : Z := Z.lxor (Z.land x y) (Z.land (Z.lnot x) z).
Definition Maj (x y z : Z) : Z := Z.lxor (Z.lxor (Z.land x y) (Z.land x z)) (Z.land y z).
Definition Sigma0 (x : Z) : Z := Z.lxor (Z.lxor (rotr 2 x) (rotr 13 x)) (rotr 22 x).
Definition Sigma1 (x : Z) : Z := Z.lxor (Z.lxor (rotr 6 x) (rotr 11 x)) (rotr 25 x).
Definition sigma0 (x : Z) : Z := Z.lxor (Z.lxor (rotr 7 x) (rotr 18 x)) (shr 3 x).
Definition sigma1 (x : Z) : Z := Z.lxor (Z.lxor (rotr 17 x) (rotr 19 x)) (shr 10 x).

(** The constants: the first 32 bits of the fractional parts of the cube
    roots of the first 64 primes, and of the square roots of the first 8.
    [iroot n x] is the integer [n]-th root, found bit by bit. *)
Definition iroot (n x : Z) : Z :=
  foldr (fun b r => if (r + 2 ^ Z.of_nat b) ^ n <=? x then r + 2 ^ Z.of_nat b else r) 0
    (seq 0 40).

Definition is_prime (p : nat) : bool :=
  forallb (fun d => negb (p mod d =? 0)%nat) (seq 2 (p - 2)).
Definition primes : list Z := Z.of_nat <$> filter (fun p => is_prime p = true) (seq 2 310).

Definition K : list Z := (fun p => iroot 3 (p * 2 ^ 96) mod 2 ^ 32) <$> primes.
Definition H0 : list Z := (fun p => iroot 2 (p * 2 ^ 64) mod 2 ^ 32) <$> take 8 primes.

Definition words (block : list Z) : list Z :=
  (fun i => be_word (take 4 (drop (4 * i) block))) <$> seq 0 16.

(** The message schedule. *)
Equations W (M : list Z) (t : nat) : Z by wf t lt :=
  W M t with lt_dec t 16 :=
  { | left _ => M !!! t
    | right Hge => (sigma1 (W M (t - 2)) + W M (t - 7) + sigma0 (W M (t - 15)) + W M (t - 16))
                     mod 2 ^ 32 }.
Solve Obligations with (intros; lia).

Definition step (M : list Z) (r : regs) (t : nat) : regs :=
  let '(Regs a b c d e f g h) := r in
  let T1 := (h + Sigma1 e + Ch e f g + K !!! t + W M t) mod 2 ^ 32 in
  let T2 := (Sigma0 a + Maj a b c) mod 2 ^ 32 in
  Regs ((T1 + T2) mod 2 ^ 32) a b c ((d + T1) mod 2 ^ 32) e f g.

Definition compress (H : list Z) (block : list Z) : list Z :=
  match H with
  | [h0; h1; h2; h3; h4; h5; h6; h7] =>
      let '(Regs a b c d e f g h) :=
        foldl (step (words block)) (Regs h0 h1 h2 h3 h4 h5 h6 h7) (seq 0 64) in
      [(h0 + a) mod 2 ^ 32; (h1 + b) mod 2 ^ 32; (h2 + c) mod 2 ^ 32; (h3 + d) mod 2 ^ 32;
       (h4 + e) mod 2 ^ 32; (h5 + f) mod 2 ^ 32; (h6 + g) mod 2 ^ 32; (h7 + h) mod 2 ^ 32]
  | _ => H
  end.

(** Padding to a multiple of 64 bytes, and the blocks of a message. *)
Definition pad (msg : list Z) : list Z :=
  msg ++ 0x80 :: replicate ((119 - length msg mod 64) mod 64) 0
      ++ be_bytes 8 (8 * Z.of_nat (length msg)).

Definition blocks (xs : list Z) : list (list Z) :=
  (fun i => take 64 (drop (64 * i) xs)) <$> seq 0 (length xs / 64).

Definition sha256 (msg : list Z) : list Z :=
  foldl compress H0 (blocks (pad msg)) ≫= be_bytes 4.

(** ** The macros are the standard's functions *)

Lemma k_standard : k = K.
Proof. vm_compute. reflexivity. Qed.

Lemma init_standard ctx : state (sha256_init ctx) = H0.
Proof. vm_compute. reflexivity. Qed.

Lemma H0_ok : length H0 = 8%nat /\ Forall (in_width 32) H0.
Proof. rewrite <- (init_standard (Ctx [] 0 0 [])). split; [done|]. by repeat constructor. Qed.

#[local] Opaque H0 K.

Lemma ROTRIGHT_rotr n x : 0 < n < 32 -> in_width 32 x -> ROTRIGHT x n = rotr n x.
Proof.
  intros Hn Hx. unfold ROTRIGHT, rotr. rewrite Z.lor_comm.
  pose proof (rotate_halves 32 x (32 - n) ltac:(lia) Hx) as H.
  replace (32 - (32 - n)) with n in H by lia. exact H.
Qed.

Lemma rotr_range n x : in_width 32 (rotr n x).
Proof. by apply wrap_range. Qed.

Lemma CH_Ch x y z : in_width 32 z -> CH x y z = Ch x y z.
Proof.
  intros Hz. unfold CH, Ch. f_equal. apply Z.bits_inj'. intros i Hi. rewrite !Z.land_spec.
  unfold wrap. destruct (decide (i < 32)).
  - by rewrite Z.mod_pow2_bits_low by lia.
  - rewrite (proj1 (in_width_bits 32 z ltac:(lia)) Hz i) by lia. by rewrite !andb_false_r.
Qed.

Create Rewrite HintDb sha.
#[local] Hint Resolve rotr_range : width.
#[local] Hint Rewrite ROTRIGHT_rotr using (done || lia) : sha.

Lemma EP0_Sigma0 x : in_width 32 x -> EP0 x = Sigma0 x.
Proof. intros. unfold EP0, Sigma0. by autorewrite with sha. Qed.
Lemma EP1_Sigma1 x : in_width 32 x -> EP1 x = Sigma1 x.
Proof. intros. unfold EP1, Sigma1. by autorewrite with sha. Qed.
Lemma SIG0_sigma0 x : in_width 32 x -> SIG0 x = sigma0 x.
Proof.
  intros. unfold SIG0, sigma0, shr. autorewrite with sha. by rewrite Z.shiftr_div_pow2.
Qed.
Lemma SIG1_sigma1 x : in_width 32 x -> SIG1 x = sigma1 x.
Proof.
  intros. unfold SIG1, sigma1, shr. autorewrite with sha. by rewrite Z.shiftr_div_pow2.
Qed.

(** ** The message schedule *)

Lemma be_word4 b0 b1 b2 b3 :
  be_word [b0; b1; b2; b3] = b0 * 2 ^ 24 + b1 * 2 ^ 16 + b2 * 2 ^ 8 + b3.
Proof. unfold be_word. simpl. lia. Qed.

Lemma shifted_bytes b0 b1 b2 b3 :
  is_byte b0 -> is_byte b1 -> is_byte b2 -> is_byte b3 ->
  Z.lor (Z.lor (Z.lor (u32 (Z.shiftl b0 24)) (Z.shiftl b1 16)) (Z.shiftl b2 8)) b3
  = be_word [b0; b1; b2; b3].
Proof.
  unfold is_byte, in_width. intros H0 H1 H2 H3. rewrite be_word4.
  rewrite !Z.shiftl_mul_pow2 by lia.
  rewrite wrap_small by (unfold in_width; lia).
  rewrite (lor_disjoint_add (b0 * 2 ^ 24) _ 24); [|lia|by apply Z.mod_mul|lia].
  rewrite (lor_disjoint_add _ (b2 * 2 ^ 8) 16); [|lia| |lia].
  - rewrite (lor_disjoint_add _ b3 8); [done|lia| |lia].
    replace (b0 * 2 ^ 24 + b1 * 2 ^ 16 + b2 * 2 ^ 8)
      with ((b0 * 2 ^ 16 + b1 * 2 ^ 8 + b2) * 2 ^ 8) by lia.
    by apply Z.mod_mul.
  - replace (b0 * 2 ^ 24 + b1 * 2 ^ 16) with ((b0 * 2 ^ 8 + b1) * 2 ^ 16) by lia.
    by apply Z.mod_mul.
Qed.

Lemma take4 (xs : list Z) j :
  (j + 4 <= length xs)%nat ->
  take 4 (drop j xs) = [xs !!! j; xs !!! (j + 1)%nat; xs !!! (j + 2)%nat; xs !!! (j + 3)%nat].
Proof.
  intros Hj. assert (forall i, (i < 4)%nat -> xs !! (j + i)%nat = Some (xs !!! (j + i)%nat)) as Hl.
  { intros i Hi. apply list_lookup_lookup_total_lt. lia. }
  pose proof (Hl 0%nat ltac:(lia)) as H0. rewrite Nat.add_0_r in H0.
  rewrite (drop_S _ _ _ H0).
  rewrite (drop_S xs _ (S j)) by (rewrite <- (Hl 1%nat) by lia; f_equal; lia).
  rewrite (drop_S xs _ (S (S j))) by (rewrite <- (Hl 2%nat) by lia; f_equal; lia).
  rewrite (drop_S xs _ (S (S (S j)))) by (rewrite <- (Hl 3%nat) by lia; f_equal; lia).
  done.
Qed.

Section schedule.
Context (block : list Z).
Context (Hlen : length block = 64%nat).
Context (Hbytes : Forall is_byte block).

Lemma block_byte i : (i < 64)%nat -> is_byte (block !!! i).
Proof using All.
  intros Hi. destruct (lookup_lt_is_Some_2 block i) as [b Hb]; [lia|].
  rewrite (list_lookup_total_correct _ _ _ Hb). by eapply Forall_lookup_1.
Qed.

Lemma words_lookup t :
  (t < 16)%nat -> words block !!! t =
    be_word [block !!! (4 * t)%nat; block !!! (4 * t + 1)%nat;
             block !!! (4 * t + 2)%nat; block !!! (4 * t + 3)%nat].
Proof using All.
  intros Ht. unfold words. apply list_lookup_total_correct.
  rewrite list_lookup_fmap, lookup_seq_lt by lia. simpl (0 + t)%nat. cbn [fmap option_fmap option_map].
  by rewrite take4 by lia.
Qed.

Lemma W_small t : (t < 16)%nat -> W (words block) t = words block !!! t.
Proof using All. intros Ht. simp W. destruct (lt_dec t 16); [done|lia]. Qed.

Lemma W_large t :
  (16 <= t)%nat -> W (words block) t =
    u32 (sigma1 (W (words block) (t - 2)) + W (words block) (t - 7)
         + sigma0 (W (words block) (t - 15)) + W (words block) (t - 16)).
Proof using All. intros Ht. rewrite W_equation_1 at 1. destruct (lt_dec t 16); [lia|done]. Qed.

Lemma W_range t : in_width 32 (W (words block) t).
Proof using All.
  destruct (decide (t < 16)%nat).
  - rewrite W_small, words_lookup, be_word4 by done.
    pose proof (block_byte (4 * t) ltac:(lia)). pose proof (block_byte (4 * t + 1) ltac:(lia)).
    pose proof (block_byte (4 * t + 2) ltac:(lia)). pose proof (block_byte (4 * t + 3) ltac:(lia)).
    unfold is_byte, in_width in *. lia.
  - rewrite W_large by lia. by apply wrap_range.
Qed.

(** The array after the cells below [n] are written. *)
Definition filled (n : nat) (m : list Z) : Prop :=
  length m = 64%nat /\ forall t, (t < n)%nat -> m !!! t = W (words block) t.

Lemma filled_step n m x :
  (n < 64)%nat -> filled n m -> x = W (words block) n -> filled (1 + n) (<[n := x]> m).
Proof using All.
  intros Hn [Hl Hm] ->. split; [by rewrite length_insert|]. intros t Ht.
  destruct (decide (n = t)) as [<-|Hne].
  - by rewrite list_lookup_total_insert_eq by lia.
  - rewrite list_lookup_total_insert_ne by done. apply Hm. lia.
Qed.

Lemma schedule_W : filled 64 (schedule block).
Proof using All.
  unfold schedule. apply (foldl_seq_ind filled extend_word 48 16).
  - apply (foldl_seq_ind filled (load_word block) 16 0).
    + split; [done|lia].
    + intros i m Hi Hm. apply filled_step; [lia|done|].
      rewrite W_small, words_lookup by lia. apply shifted_bytes; apply block_byte; lia.
  - intros i m Hi Hm. apply filled_step; [lia|done|]. destruct Hm as [_ Hm].
    rewrite W_large by lia. rewrite !Hm by lia.
    by rewrite SIG0_sigma0, SIG1_sigma1 by apply W_range.
Qed.

(** ** The compression function *)

Definition regs_ok (r : regs) : Prop :=
  let '(Regs a b c d e f g h) := r in
  in_width 32 a /\ in_width 32 b /\ in_width 32 c /\ in_width 32 d /\
  in_width 32 e /\ in_width 32 f /\ in_width 32 g /\ in_width 32 h.

Lemma round_step r t :
  (t < 64)%nat -> regs_ok r ->
  round (schedule block) r t = step (words block) r t /\ regs_ok (step (words block) r t).
Proof using All.
  destruct r as [a b c d e f g h]. intros Ht (Ha & Hb & Hc & Hd & He & Hf & Hg & Hh).
  destruct schedule_W as [_ Hm]. unfold round, step.
  rewrite Hm, EP0_Sigma0, EP1_Sigma1, CH_Ch, k_standard by done. split; [done|].
  split_and!; try done; by apply wrap_range.
Qed.

Lemma rounds_steps r :
  regs_ok r ->
  foldl (round (schedule block)) r (seq 0 64) = foldl (step (words block)) r (seq 0 64).
Proof using All.
  intros Hr. enough (forall n m r, (n + m <= 64)%nat -> regs_ok r ->
    foldl (round (schedule block)) r (seq n m) = foldl (step (words block)) r (seq n m)) as H
    by by apply H.
  intros n m. revert n. induction m as [|m IH]; intros n r' Hn Hok; simpl; [done|].
  destruct (round_step r' n ltac:(lia) Hok) as [-> Hok']. apply IH; [lia|done].
Qed.
End schedule.

(** A chaining value: eight words. *)
Definition state_ok (s : list Z) : Prop := length s = 8%nat /\ Forall (in_width 32) s.

Lemma transform_compress ctx block :
  state_ok (state ctx) -> length block = 64%nat -> Forall is_byte block ->
  sha256_transform ctx block
  = Ctx (data ctx) (datalen ctx) (bitlen ctx) (compress (state ctx) block).
Proof.
  intros [Hl Hs] Hlen Hb. destruct ctx as [d n bl s]. simpl in *.
  destruct s as [|h0 [|h1 [|h2 [|h3 [|h4 [|h5 [|h6 [|h7 [|? ?]]]]]]]]]; try discriminate Hl.
  rewrite !Forall_cons in Hs. unfold sha256_transform, compress. cbn [state].
  change ([h0; h1; h2; h3; h4; h5; h6; h7] !!! 0%nat) with h0.
  change ([h0; h1; h2; h3; h4; h5; h6; h7] !!! 1%nat) with h1.
  change ([h0; h1; h2; h3; h4; h5; h6; h7] !!! 2%nat) with h2.
  change ([h0; h1; h2; h3; h4; h5; h6; h7] !!! 3%nat) with h3.
  change ([h0; h1; h2; h3; h4; h5; h6; h7] !!! 4%nat) with h4.
  change ([h0; h1; h2; h3; h4; h5; h6; h7] !!! 5%nat) with h5.
  change ([h0; h1; h2; h3; h4; h5; h6; h7] !!! 6%nat) with h6.
  change ([h0; h1; h2; h3; h4; h5; h6; h7] !!! 7%nat) with h7.
  rewrite rounds_steps by (done || (unfold regs_ok; tauto)).
  by destruct (foldl (step (words block)) _ _).
Qed.

Lemma compress_ok s block : state_ok s -> state_ok (compress s block).
Proof.
  intros [Hl Hs].
  destruct s as [|h0 [|h1 [|h2 [|h3 [|h4 [|h5 [|h6 [|h7 [|? ?]]]]]]]]]; try discriminate Hl.
  unfold compress. destruct (foldl _ _ _). split; [done|].
  repeat constructor; by apply (wrap_range 32).
Qed.

(** ** Blocks of a message *)

Lemma blocks_short xs : (length xs < 64)%nat -> blocks xs = [].
Proof. intros H. unfold blocks. by rewrite Nat.div_small. Qed.

Lemma blocks_cons x xs : length x = 64%nat -> blocks (x ++ xs) = x :: blocks xs.
Proof.
  intros Hx. unfold blocks. rewrite length_app, Hx.
  replace ((64 + length xs) / 64)%nat with (S (length xs / 64))
    by (replace (64 + length xs)%nat with (length xs + 1 * 64)%nat by lia;
        rewrite Nat.div_add by lia; lia).
  rewrite <- cons_seq, fmap_cons. f_equal.
  - simpl (64 * 0)%nat. rewrite drop_0, take_app_le by lia. apply take_ge. lia.
  - rewrite <- fmap_S_seq, <- list_fmap_compose. apply list_fmap_ext. intros _ i _. simpl.
    f_equal. rewrite drop_app_ge by lia. f_equal. lia.
Qed.

Lemma blocks_one x : length x = 64%nat -> blocks x = [x].
Proof. intros Hx. rewrite <- (app_nil_r x) at 1. by rewrite blocks_cons. Qed.

Lemma blocks_app xs ys n : length xs = (64 * n)%nat -> blocks (xs ++ ys) = blocks xs ++ blocks ys.
Proof.
  revert xs. induction n as [|n IH]; intros xs Hn.
  - destruct xs; [done|simpl in Hn; lia].
  - assert (length (take 64 xs) = 64%nat) as H1 by (rewrite length_take; lia).
    assert (length (drop 64 xs) = (64 * n)%nat) as H2 by (rewrite length_drop; lia).
    rewrite <- (take_drop 64 xs), <- app_assoc.
    by rewrite (blocks_cons _ (_ ++ _) H1), (blocks_cons _ (drop _ _) H1), (IH _ H2).
Qed.

(** ** Absorbing a message *)

(** [ctx] has absorbed [full ++ tail]: the blocks of [full] are compressed,
    [tail] waits in the buffer. *)
Record absorbed (ctx : SHA256_CTX) (full tail : list Z) (n : nat) : Prop := {
  ab_full : length full = (64 * n)%nat;
  ab_tail : (length tail < 64)%nat;
  ab_bytes : Forall is_byte (full ++ tail);
  ab_data : length (data ctx) = 64%nat;
  ab_datalen : datalen ctx = Z.of_nat (length tail);
  ab_buffer : take (length tail) (data ctx) = tail;
  ab_bitlen : bitlen ctx = u64 (512 * Z.of_nat n);
  ab_state : state ctx = foldl compress H0 (blocks full)
}.

Definition absorbs (ctx : SHA256_CTX) (msg : list Z) : Prop :=
  exists full tail n, msg = full ++ tail /\ absorbed ctx full tail n.

Lemma chain_ok s bs : state_ok s -> state_ok (foldl compress s bs).
Proof. revert s. induction bs as [|b bs IH]; intros s Hs; [done|]. apply IH, compress_ok, Hs. Qed.

Lemma init_absorbs ctx : length (data ctx) = 64%nat -> absorbs (sha256_init ctx) [].
Proof.
  intros Hd. exists [], [], 0%nat. split; [done|].
  split; try (apply init_standard || done). simpl. lia.
Qed.

(** Writing one more byte after the buffered ones. *)
Lemma take_snoc_insert (d tail : list Z) b :
  take (length tail) d = tail -> (length tail < length d)%nat ->
  take (S (length tail)) (<[length tail := b]> d) = tail ++ [b].
Proof.
  intros Ht Hl. rewrite insert_take_drop by done. rewrite Ht, cons_middle, (assoc_L (++)).
  rewrite take_app_le by (rewrite length_app; simpl; lia).
  apply take_ge. rewrite length_app. simpl. lia.
Qed.

Lemma update_byte_absorbs ctx msg b :
  absorbs ctx msg -> is_byte b -> absorbs (update_byte ctx b) (msg ++ [b]).
Proof.
  intros (full & tail & n & -> & Hab) Hb. destruct Hab as [Hf Ht Hbytes Hd Hn Hbuf Hbit Hst].
  assert (Forall is_byte (full ++ tail ++ [b])) as Hbytes'.
  { rewrite (assoc_L (++)). apply Forall_app. split; [done|by constructor]. }
  unfold update_byte. cbn [datalen data bitlen state]. rewrite Hn, Nat2Z.id.
  rewrite wrap_small by (unfold in_width; lia).
  pose proof (take_snoc_insert (data ctx) tail b Hbuf ltac:(lia)) as Hsnoc.
  destruct (Z.eqb_spec (Z.of_nat (length tail) + 1) 64) as [E|E].
  - rewrite take_ge in Hsnoc by (rewrite length_insert; lia). rewrite Hsnoc.
    apply Forall_app in Hbytes' as [_ Hbl].
    rewrite transform_compress; cbn [datalen data bitlen state];
      [|rewrite Hst; by apply chain_ok, H0_ok|rewrite length_app; simpl; lia|done].
    exists (full ++ tail ++ [b]), [], (S n). split; [by rewrite app_nil_r, (assoc_L (++))|].
    split; cbn [datalen data bitlen state]; rewrite ?app_nil_r, ?length_app; simpl;
      try (done || lia).
    + apply Forall_app in Hbytes as [? ?]. by apply Forall_app.
    + rewrite Hbit. unfold wrap. rewrite Z.add_mod_idemp_l by lia. f_equal. lia.
    + rewrite Hst, (blocks_app _ _ n Hf), foldl_app.
      rewrite (blocks_one (tail ++ [b])) by (rewrite length_app; simpl; lia). done.
  - exists full, (tail ++ [b]), n. split; [by rewrite (assoc_L (++))|].
    split; cbn [datalen data bitlen state]; try done; rewrite ?length_app, ?length_insert;
      simpl; try lia.
    by replace (length tail + 1)%nat with (S (length tail)) by lia.
Qed.

Lemma update_loop_absorbs bytes len : Forall is_byte bytes ->
  len = Z.of_nat (length bytes) -> len < 2 ^ 32 -> forall fuel i ctx msg,
  (i <= length bytes)%nat -> (length bytes - i < fuel)%nat ->
  absorbs ctx (msg ++ take i bytes) ->
  exists ctx', update_loop fuel ctx bytes (Z.of_nat i) len = Ret ctx' /\
    absorbs ctx' (msg ++ bytes).
Proof.
  intros Hb -> Hl. induction fuel as [|fuel IH]; intros i ctx msg Hi Hf Hab; [lia|].
  cbn [update_loop]. destruct (Z.ltb_spec (Z.of_nat i) (Z.of_nat (length bytes))) as [Hlt|Hge].
  - destruct (lookup_lt_is_Some_2 bytes i) as [b Hlook]; [lia|].
    rewrite wrap_small by (unfold in_width; lia).
    replace (Z.of_nat i + 1) with (Z.of_nat (S i)) by lia.
    apply IH; [lia|lia|]. rewrite (take_S_r _ _ _ Hlook), (assoc_L (++)).
    unfold byte_at. rewrite Nat2Z.id, Hlook. simpl.
    apply update_byte_absorbs; [done|]. by eapply Forall_lookup_1.
  - eexists. split; [done|]. rewrite take_ge in Hab by lia. done.
Qed.

(** ** Padding *)

Lemma pad_to_app limit d i :
  (i < limit <= length d)%nat ->
  pad_to limit d i = take i d ++ 0x80 :: replicate (limit - S i) 0 ++ drop limit d.
Proof.
  intros Hi. unfold pad_to.
  replace limit with (S i + (limit - S i))%nat at 3 by lia.
  replace (limit - S i)%nat with (S i + (limit - S i) - S i)%nat at 2 by lia.
  apply (foldl_seq_ind (fun j d' => d' = take i d ++ 0x80 :: replicate (j - S i) 0 ++ drop j d)).
  - rewrite Nat.sub_diag. simpl. by apply insert_take_drop; lia.
  - intros j d' Hj ->.
    destruct (lookup_lt_is_Some_2 d j) as [x Hx]; [lia|]. rewrite (drop_S _ _ _ Hx).
    rewrite cons_middle, !(assoc_L (++)).
    rewrite insert_app_r_alt by (rewrite !length_app, length_take, length_replicate; simpl; lia).
    rewrite !length_app, length_take, length_replicate. simpl length.
    replace (j - (i `min` length d + 1 + (j - S i)))%nat with 0%nat by lia. simpl.
    replace (j - i)%nat with (S (j - S i)) by lia.
    rewrite replicate_S_end, <- !(assoc_L (++)). done.
Qed.

Lemma be_bytes8 x :
  be_bytes 8 x = [u8 (Z.shiftr x 56); u8 (Z.shiftr x 48); u8 (Z.shiftr x 40); u8 (Z.shiftr x 32);
                  u8 (Z.shiftr x 24); u8 (Z.shiftr x 16); u8 (Z.shiftr x 8); u8 x].
Proof.
  unfold be_bytes. simpl. rewrite !Z.shiftr_div_pow2 by lia. unfold wrap. by rewrite Z.div_1_r.
Qed.

Lemma store_bitlen_app d x : length d = 64%nat -> store_bitlen d x = take 56 d ++ be_bytes 8 x.
Proof.
  intros Hd. rewrite be_bytes8. rewrite <- (take_drop 56 d) at 1.
  assert (length (take 56 d) = 56%nat) as Ha by (rewrite length_take; lia).
  assert (length (drop 56 d) = 8%nat) as Hb by (rewrite length_drop; lia).
  destruct (drop 56 d) as [|? [|? [|? [|? [|? [|? [|? [|? [|? ?]]]]]]]]]; try discriminate Hb.
  unfold store_bitlen. rewrite !insert_app_r_alt by lia. by rewrite !Ha.
Qed.

Lemma store_digest_bytes s hash :
  state_ok s -> length hash = 32%nat ->
  foldl (store_digest s) hash (seq 0 4) = s ≫= be_bytes 4.
Proof.
  intros [Hl _] Hh.
  destruct s as [|h0 [|h1 [|h2 [|h3 [|h4 [|h5 [|h6 [|h7 [|? ?]]]]]]]]]; try discriminate Hl.
  do 32 (destruct hash as [|? hash]; [discriminate Hh|]). destruct hash; [|discriminate Hh].
  simpl. unfold store_digest. change 255 with (Z.ones 8). simpl.
  rewrite !Z.land_ones, !Z.shiftr_div_pow2 by lia. done.
Qed.

(** What [final_pad] leaves: the padding up to the length field, [mid] already
    compressed and the rest in the first 56 bytes of the buffer. *)
Record padded (full tail : list Z) (ctx ctx' : SHA256_CTX) (mid : list Z) : Prop := {
  pd_mid : exists m, length mid = (64 * m)%nat;
  pd_text : tail ++ 0x80 :: replicate ((119 - length tail) mod 64) 0 = mid ++ take 56 (data ctx');
  pd_data : length (data ctx') = 64%nat;
  pd_state : state ctx' = foldl compress H0 (blocks (full ++ mid));
  pd_datalen : datalen ctx' = datalen ctx;
  pd_bitlen : bitlen ctx' = bitlen ctx
}.

Lemma final_pad_padded ctx full tail n :
  absorbed ctx full tail n -> exists mid, padded full tail ctx (final_pad ctx) mid.
Proof.
  intros [Hf Ht Hbytes Hd Hn Hbuf Hbit Hst]. apply Forall_app in Hbytes as [Hbf Hbt].
  unfold final_pad. rewrite Hn, Nat2Z.id.
  destruct (Z.ltb_spec (Z.of_nat (length tail)) 56) as [Hlt|Hge].
  - exists []. rewrite pad_to_app, Hbuf by lia.
    assert ((119 - length tail) mod 64 = 56 - S (length tail))%nat as E.
    { replace (119 - length tail)%nat with (56 - S (length tail) + 1 * 64)%nat by lia.
      rewrite Nat.Div0.mod_add. apply Nat.mod_small. lia. }
    split; cbn [datalen data bitlen state]; try done; [by exists 0%nat| | |].
    + rewrite E. simpl. rewrite app_comm_cons, (assoc_L (++)), take_app_le, take_ge; [done|..];
        rewrite length_app; simpl; rewrite length_replicate; lia.
    + rewrite !length_app; simpl; rewrite length_app, length_replicate, length_drop. lia.
    + by rewrite app_nil_r.
  - set (blk := tail ++ 0x80 :: replicate (64 - S (length tail)) 0).
    assert (pad_to 64 (data ctx) (length tail) = blk) as ->.
    { rewrite pad_to_app, Hbuf by lia. rewrite (drop_ge (data ctx)) by lia. by rewrite app_nil_r. }
    assert (length blk = 64%nat) as Hblk
      by (unfold blk; rewrite length_app; simpl; rewrite length_replicate; lia).
    assert (Forall is_byte blk) as Hbb.
    { apply Forall_app. split; [done|]. constructor; [done|by apply Forall_replicate]. }
    rewrite transform_compress; cbn [datalen data bitlen state];
      [|rewrite Hst; by apply chain_ok, H0_ok|done..].
    exists blk. split; cbn [datalen data bitlen state]; try done.
    + by exists 1%nat.
    + rewrite Nat.mod_small by lia. unfold blk. rewrite take_app_le by done.
      rewrite take_ge by done. rewrite <- (assoc_L (++)), <- app_comm_cons, <- replicate_add.
      do 3 f_equal. lia.
    + by rewrite length_app, length_replicate, length_drop, Hblk.
    + by rewrite Hst, (blocks_app full blk n Hf), foldl_app, (blocks_one blk Hblk).
Qed.

Lemma final_digest ctx msg hash :
  absorbs ctx msg -> 8 * Z.of_nat (length msg) < 2 ^ 64 -> length hash = 32%nat ->
  (sha256_final ctx hash).2 = sha256 msg.
Proof.
  intros (full & tail & n & -> & Hab) Hlen Hh.
  destruct (final_pad_padded ctx full tail n Hab) as [mid [[m Hm] Htext Hd Hst Hdl Hbl]].
  destruct Hab as [Hf Ht Hbytes _ Hn _ Hbit _]. apply Forall_app in Hbytes as [_ Hbt].
  set (L := 8 * Z.of_nat (length (full ++ tail))) in *.
  assert (u64 (bitlen (final_pad ctx) + u32 (datalen (final_pad ctx) * 8)) = L) as EL.
  { rewrite Hdl, Hbl, Hn, Hbit. rewrite (wrap_small 32) by (unfold in_width; lia).
    unfold wrap. rewrite Z.add_mod_idemp_l by lia. unfold L in *. rewrite length_app in *.
    rewrite Z.mod_small; lia. }
  set (d := data (final_pad ctx)) in *.
  assert (length (take 56 d) = 56%nat) as Hd56 by (rewrite length_take; lia).
  assert (Forall is_byte (mid ++ take 56 d)) as Hbmd.
  { rewrite <- Htext. apply Forall_app. split; [done|].
    constructor; [done|by apply Forall_replicate]. }
  apply Forall_app in Hbmd as [_ Hb56].
  assert (sha256_transform (Ctx (store_bitlen d L) (datalen (final_pad ctx)) L
            (state (final_pad ctx))) (store_bitlen d L)
          = Ctx (store_bitlen d L) (datalen (final_pad ctx)) L
              (foldl compress H0 (blocks (pad (full ++ tail))))) as Etr.
  { rewrite store_bitlen_app by done.
    assert (length (take 56 d ++ be_bytes 8 L) = 64%nat) as Hlast
      by (rewrite length_app, length_be_bytes; lia).
    rewrite transform_compress; cbn [datalen data bitlen state];
      [|rewrite Hst; by apply chain_ok, H0_ok|done|apply Forall_app; auto using be_bytes_range].
    f_equal. unfold pad. fold L. rewrite length_app, Hf, (Nat.mul_comm 64 n), Nat.add_comm.
    rewrite Nat.Div0.mod_add, (Nat.mod_small (length tail)) by lia.
    rewrite app_comm_cons, <- (assoc_L (++)), (assoc_L (++) tail), Htext.
    rewrite <- (assoc_L (++) mid), (assoc_L (++) full).
    rewrite (blocks_app (full ++ mid) _ (n + m)) by (rewrite length_app; lia).
    by rewrite Hst, foldl_app, (blocks_one _ Hlast). }
  unfold sha256_final. rewrite EL. fold d. rewrite Etr. cbn [state snd].
  apply store_digest_bytes; [|done]. apply chain_ok, H0_ok.
Qed.

(** ** Properties *)

(** A client hashes a message piece by piece. *)
Definition hash_pieces (fuel : nat) (ctx : SHA256_CTX) (pieces : list (list Z)) (hash : list Z)
  : res (list Z) :=
  ctx ← for_each pieces (sha256_init ctx)
          (fun p ctx => sha256_update fuel ctx p (Z.of_nat (length p)));
  Ret (sha256_final ctx hash).2.

Lemma updates_absorb fuel pieces : forall ctx msg,
  Forall (fun p => Forall is_byte p /\ (Z.of_nat (length p) < 2 ^ 32) /\ (length p < fuel)%nat)
    pieces ->
  absorbs ctx msg ->
  exists ctx', for_each pieces ctx (fun p ctx => sha256_update fuel ctx p (Z.of_nat (length p)))
               = Ret ctx' /\ absorbs ctx' (msg ++ concat pieces).
Proof.
  induction pieces as [|p pieces IH]; intros ctx msg Hp Hab.
  - exists ctx. simpl. by rewrite app_nil_r.
  - apply Forall_cons in Hp as [(Hb & Hl & Hf) Hp].
    destruct (update_loop_absorbs p _ Hb eq_refl Hl fuel 0 ctx msg) as (ctx1 & E1 & Hab1);
      [lia|lia|by rewrite app_nil_r|].
    change (sha256_update fuel ctx p (Z.of_nat (length p)) = Ret ctx1) in E1.
    cbn [for_each]. rewrite E1. cbn [mbind res_bind].
    destruct (IH ctx1 _ Hp Hab1) as (ctx2 & E2 & Hab2). exists ctx2. split; [done|].
    simpl. by rewrite (assoc_L (++)).
Qed.

(** C23: hashing a message in any pieces gives its SHA-256 digest as FIPS 180
    defines it: [sha256_init], one [sha256_update] per piece, [sha256_final].
    Pieces are shorter than 2^32 bytes and the message shorter than 2^61
    bytes; the initial contents of the context and of the output buffer do
    not matter. *)
Theorem sha256_computes_fips180 (fuel : nat) (ctx : SHA256_CTX) (pieces : list (list Z))
    (hash : list Z) :
  length (data ctx) = 64%nat -> length hash = 32%nat ->
  Forall (fun p => Forall is_byte p /\ (Z.of_nat (length p) < 2 ^ 32) /\ (length p < fuel)%nat)
    pieces ->
  8 * Z.of_nat (length (concat pieces)) < 2 ^ 64 ->
  hash_pieces fuel ctx pieces hash = Ret (sha256 (concat pieces)).
Proof.
  intros Hd Hh Hp Hl. unfold hash_pieces.
  destruct (updates_absorb fuel pieces (sha256_init ctx) [] Hp (init_absorbs ctx Hd))
    as (ctx' & -> & Hab).
  cbn [mbind res_bind]. f_equal. by apply final_digest.
Qed.

(** "abc", hashed as "a" and "bc", against the digest published by NIST. *)
Lemma sha256_computes_fips180_witness :
  hash_pieces 3 (Ctx (replicate 64 7) 5 5 []) [[97]; [98; 99]] (replicate 32 0)
    = Ret (sha256 [97; 98; 99]) /\
  hash_pieces 3 (Ctx (replicate 64 7) 5 5 []) [[97]; [98; 99]] (replicate 32 0)
    = Ret [0xba;0x78;0x16;0xbf;0x8f;0x01;0xcf;0xea;0x41;0x41;0x40;0xde;0x5d;0xae;0x22;0x23;
           0xb0;0x03;0x61;0xa3;0x96;0x17;0x7a;0x9c;0xb4;0x10;0xff;0x61;0xf2;0x00;0x15;0xad].
Proof.
  split; [|vm_compute; reflexivity].
  apply (sha256_computes_fips180 3 (Ctx (replicate 64 7) 5 5 []) [[97]; [98; 99]]
           (replicate 32 0)).
  - reflexivity.
  - reflexivity.
  - constructor; [|constructor; [|constructor]].
    + split_and!; [repeat constructor; done|simpl; lia|simpl; lia].
    + split_and!; [repeat constructor; done|simpl; lia|simpl; lia].
  - simpl. lia.
Defined.

Lemma update_loop_runs_on bytes len fuel : 2 ^ 32 <= len -> forall ctx i,
  in_width 32 i -> update_loop fuel ctx bytes i len = NoFuel.
Proof.
  intros Hlen. induction fuel as [|fuel IH]; intros ctx i [H0 H1]; [done|]. cbn [update_loop].
  destruct (Z.ltb_spec i len); [|lia]. apply IH. by apply wrap_range.
Qed.

(** [sha256_update] never returns for a length of 2^32 or more: its
    counter is 32 bits wide and wraps before it reaches the 64-bit length. *)
Theorem sha256_update_diverges (fuel : nat) (ctx : SHA256_CTX) (bytes : list Z) (len : Z) :
  2 ^ 32 <= len -> sha256_update fuel ctx bytes len = NoFuel.
Proof. intros Hlen. by apply update_loop_runs_on. Qed.

Lemma sha256_update_diverges_witness :
  sha256_update 100 (sha256_init (Ctx (replicate 64 0) 0 0 [])) [] (2 ^ 32) = NoFuel.
Proof. apply sha256_update_diverges. lia. Defined.

End FIPS180.
