(* ===== verification/Pack.v ===== *)
(** * Pack: doca_dma/pack.c and pack.h

    The serialisation helpers. A [uint8_t **buffer] argument is a cursor: the
    memory block the head points into and the head's offset. Reading or
    writing outside the block is [UB]. *)

From S2P Require Import Prelude.

(** ** Macros *)

Definition GET_BYTE (v n : Z) : Z := u8 (Z.land (Z.shiftr v (n * 8)) 0xFF).
(** [SET_BYTE] on a value that is converted to a [w]-bit unsigned integer. *)
Definition SET_BYTE (w v n : Z) : Z := wrap w (Z.shiftl (Z.land v 0xFF) (n * 8)).

(** ** Byte order

    [little_endian] stands for the test of the first byte of [numeric_one]. *)
Definition ntohq (little_endian : bool) (value : Z) : Z :=
  if negb little_endian then value
  else
    Z.lor (Z.lor (Z.lor (Z.lor (Z.lor (Z.lor (Z.lor
      (SET_BYTE 64 (GET_BYTE value 0) 7) (SET_BYTE 64 (GET_BYTE value 1) 6))
      (SET_BYTE 64 (GET_BYTE value 2) 5)) (SET_BYTE 64 (GET_BYTE value 3) 4))
      (SET_BYTE 64 (GET_BYTE value 4) 3)) (SET_BYTE 64 (GET_BYTE value 5) 2))
      (SET_BYTE 64 (GET_BYTE value 6) 1)) (SET_BYTE 64 (GET_BYTE value 7) 0).

Definition htonq := ntohq.

(** ** Cursors *)

Record cursor := Cursor { mem : list Z; head : nat }.

(** [*write_head++ = b] *)
Definition write_byte (c : cursor) (b : Z) : res cursor :=
  if decide (head c < length (mem c))%nat
  then Ret (Cursor (<[head c := b]> (mem c)) (S (head c))) else UB.

(** [*read_head++] *)
Definition read_byte (c : cursor) : res (Z * cursor) :=
  match mem c !! head c with
  | Some b => Ret (b, Cursor (mem c) (S (head c)))
  | None => UB
  end.

Definition pack_uint8 (c : cursor) (value : Z) : res cursor := write_byte c value.

Definition pack_uint16 (c : cursor) (value : Z) : res cursor :=
  c ← write_byte c (GET_BYTE value 1);
  write_byte c (GET_BYTE value 0).

Definition pack_uint32 (c : cursor) (value : Z) : res cursor :=
  c ← write_byte c (GET_BYTE value 3);
  c ← write_byte c (GET_BYTE value 2);
  c ← write_byte c (GET_BYTE value 1);
  write_byte c (GET_BYTE value 0).

Definition pack_uint64 (c : cursor) (value : Z) : res cursor :=
  c ← write_byte c (GET_BYTE value 7);
  c ← write_byte c (GET_BYTE value 6);
  c ← write_byte c (GET_BYTE value 5);
  c ← write_byte c (GET_BYTE value 4);
  c ← write_byte c (GET_BYTE value 3);
  c ← write_byte c (GET_BYTE value 2);
  c ← write_byte c (GET_BYTE value 1);
  write_byte c (GET_BYTE value 0).

(** [memcpy] of [length] bytes of [object] to the head. *)
Definition pack_blob (c : cursor) (len : nat) (object : list Z) : res cursor :=
  if decide (len <= length object /\ head c + len <= length (mem c))%nat
  then Ret (Cursor (take (head c) (mem c) ++ take len object ++ drop (head c + len) (mem c))
              (head c + len))
  else UB.

Definition unpack_uint8 (c : cursor) : res (Z * cursor) := read_byte c.

(** [value |= b] on a [w]-bit variable. *)
Definition unpack_uint16 (c : cursor) : res (Z * cursor) :=
  '(b1, c) ← read_byte c; let value := Z.lor 0 (SET_BYTE 16 b1 1) in
  '(b0, c) ← read_byte c; let value := Z.lor value (SET_BYTE 16 b0 0) in
  Ret (value, c).

Definition unpack_uint32 (c : cursor) : res (Z * cursor) :=
  '(b3, c) ← read_byte c; let value := Z.lor 0 (SET_BYTE 32 b3 3) in
  '(b2, c) ← read_byte c; let value := Z.lor value (SET_BYTE 32 b2 2) in
  '(b1, c) ← read_byte c; let value := Z.lor value (SET_BYTE 32 b1 1) in
  '(b0, c) ← read_byte c; let value := Z.lor value (SET_BYTE 32 b0 0) in
  Ret (value, c).

Definition unpack_uint64 (c : cursor) : res (Z * cursor) :=
  '(b7, c) ← read_byte c; let value := Z.lor 0 (SET_BYTE 64 b7 7) in
  '(b6, c) ← read_byte c; let value := Z.lor value (SET_BYTE 64 b6 6) in
  '(b5, c) ← read_byte c; let value := Z.lor value (SET_BYTE 64 b5 5) in
  '(b4, c) ← read_byte c; let value := Z.lor value (SET_BYTE 64 b4 4) in
  '(b3, c) ← read_byte c; let value := Z.lor value (SET_BYTE 64 b3 3) in
  '(b2, c) ← read_byte c; let value := Z.lor value (SET_BYTE 64 b2 2) in
  '(b1, c) ← read_byte c; let value := Z.lor value (SET_BYTE 64 b1 1) in
  '(b0, c) ← read_byte c; let value := Z.lor value (SET_BYTE 64 b0 0) in
  Ret (value, c).

(** [output] receives [length] bytes; its own size is the caller's. *)
Definition unpack_blob (c : cursor) (len : nat) (output : list Z) : res (list Z * cursor) :=
  if decide (head c + len <= length (mem c) /\ len <= length output)%nat
  then Ret (take len (drop (head c) (mem c)) ++ drop len output, Cursor (mem c) (head c + len))
  else UB.

(** ** Bytes of a word *)

Lemma GET_BYTE_div v n : 0 <= n -> GET_BYTE v n = (v / 256 ^ n) mod 256.
Proof.
  intros Hn. unfold GET_BYTE. change 255 with (Z.ones 8). rewrite Z.land_ones by lia.
  rewrite Z.shiftr_div_pow2 by lia. unfold wrap. rewrite Z.mod_mod by lia.
  rewrite Z.mul_comm. by rewrite Z.pow_mul_r by lia.
Qed.

Lemma SET_BYTE_byte w b n :
  0 <= n -> n * 8 + 8 <= w -> is_byte b -> SET_BYTE w b n = b * 2 ^ (n * 8).
Proof.
  unfold is_byte, in_width. intros Hn Hw Hb. unfold SET_BYTE. change 255 with (Z.ones 8).
  rewrite Z.land_ones, Z.mod_small, Z.shiftl_mul_pow2 by lia.
  apply wrap_small. unfold in_width. assert (0 < 2 ^ (n * 8)) by (apply Z.pow_pos_nonneg; lia).
  split; [lia|]. apply Z.lt_le_trans with (2 ^ 8 * 2 ^ (n * 8)); [nia|].
  rewrite <- Z.pow_add_r by lia. apply Z.pow_le_mono_r; lia.
Qed.

(** Or-ing in the next lower byte of a word. *)
Lemma lor_SET_BYTE w acc b n m :
  m = n + 1 -> 0 <= n -> n * 8 + 8 <= w -> is_byte b ->
  Z.lor (acc * 2 ^ (m * 8)) (SET_BYTE w b n) = (256 * acc + b) * 2 ^ (n * 8).
Proof.
  intros -> Hn Hw Hb. rewrite SET_BYTE_byte by done. unfold is_byte, in_width in Hb.
  assert (0 < 2 ^ (n * 8)) by (apply Z.pow_pos_nonneg; lia).
  assert (2 ^ ((n + 1) * 8) = 256 * 2 ^ (n * 8)) as E
    by (rewrite Z.mul_add_distr_r, Z.pow_add_r by lia; lia).
  rewrite (lor_disjoint_add _ _ ((n + 1) * 8)); [rewrite E; lia|lia|apply Z.mod_mul; lia|].
  rewrite E. nia.
Qed.

(** ** Writing and reading runs of bytes *)

(** The effect of writing [bs] at the head. *)
Definition put (c : cursor) (bs : list Z) : res cursor :=
  if decide (head c + length bs <= length (mem c))%nat
  then Ret (Cursor (take (head c) (mem c) ++ bs ++ drop (head c + length bs) (mem c))
              (head c + length bs))
  else UB.

Lemma put_nil c : (head c <= length (mem c))%nat -> put c [] = Ret c.
Proof.
  intros H. unfold put. simpl. rewrite Nat.add_0_r, decide_True by done. rewrite take_drop.
  by destruct c.
Qed.

Lemma put_app c bs1 bs2 : (c' ← put c bs1; put c' bs2) = put c (bs1 ++ bs2).
Proof.
  unfold put. rewrite length_app. case_decide as H1; [|by case_decide; [lia|]].
  cbn [mbind res_bind mem head]. rewrite !length_app, length_take, length_drop.
  case_decide as H2; case_decide as H3; try lia; [|done].
  rewrite (assoc_L (++) (take (head c) (mem c)) bs1 (drop _ _)).
  assert (length (take (head c) (mem c) ++ bs1) = head c + length bs1)%nat as El
    by (rewrite length_app, length_take; lia).
  rewrite take_app_length' by done. rewrite drop_app_ge by lia.
  rewrite El, drop_drop. rewrite <- !(assoc_L (++)).
  do 2 f_equal; [do 4 f_equal|]; lia.
Qed.

Lemma write_byte_put c b : write_byte c b = put c [b].
Proof.
  unfold write_byte, put. simpl.
  destruct (decide (head c < length (mem c))%nat) as [H|H].
  - rewrite decide_True by lia. rewrite insert_take_drop by done.
    by rewrite Nat.add_1_r.
  - by rewrite decide_False by lia.
Qed.

(** [bs] are the next bytes in the block. *)
Definition ahead (c : cursor) (bs : list Z) : Prop :=
  (head c + length bs <= length (mem c))%nat /\ take (length bs) (drop (head c) (mem c)) = bs.
Definition advance (c : cursor) (n : nat) : cursor := Cursor (mem c) (head c + n).

Lemma ahead_app c bs1 bs2 :
  ahead c (bs1 ++ bs2) -> ahead c bs1 /\ ahead (advance c (length bs1)) bs2.
Proof.
  unfold ahead, advance. cbn [mem head]. rewrite <- drop_drop, length_app.
  set (d := drop (head c) (mem c)). intros [Hl H]. split; (split; [lia|]).
  - rewrite <- (take_app_length bs1 bs2) at 2. rewrite <- H, take_take. f_equal. lia.
  - rewrite <- (drop_app_length bs1 bs2) at 2. rewrite <- H, skipn_firstn_comm. f_equal. lia.
Qed.

Lemma ahead_cons c b bs : ahead c (b :: bs) ->
  read_byte c = Ret (b, advance c 1) /\ ahead (advance c 1) bs.
Proof.
  intros H. destruct (ahead_app c [b] bs H) as [[Hl Ht] Hbs]. split; [|done].
  unfold read_byte, advance. destruct (drop (head c) (mem c)) as [|x rest] eqn:E; [done|].
  simpl in Ht. simplify_eq. rewrite <- (Nat.add_0_r (head c)), <- lookup_drop, E. simpl.
  by rewrite Nat.add_0_r, Nat.add_1_r.
Qed.

Lemma put_ahead c bs c' : put c bs = Ret c' -> ahead (Cursor (mem c') (head c)) bs /\
  c' = advance (Cursor (mem c') (head c)) (length bs).
Proof.
  unfold put. case_decide as H; intros E; simplify_eq.
  unfold ahead, advance. cbn [mem head]. split; [|done].
  assert (length (take (head c) (mem c)) = head c) as Hl by (rewrite length_take; lia).
  split; [rewrite !length_app; lia|]. rewrite drop_app_length' by done. by rewrite take_app_length.
Qed.

(** ** The packing functions write big-endian bytes *)

Lemma be_bytes_get n v :
  be_bytes n v = (fun i => GET_BYTE v (Z.of_nat (n - 1 - i))) <$> seq 0 n.
Proof. unfold be_bytes. apply list_fmap_ext. intros _ i _. by rewrite GET_BYTE_div by lia. Qed.

Lemma write_byte_then c b bs (k : cursor -> res cursor) :
  (forall c, k c = put c bs) -> (c ← write_byte c b; k c) = put c (b :: bs).
Proof.
  intros Hk. change (b :: bs) with ([b] ++ bs). rewrite <- put_app, write_byte_put.
  destruct (put c [b]); [apply Hk|done..].
Qed.

Ltac puts := rewrite be_bytes_get; repeat (apply write_byte_then; intros ?); apply write_byte_put.

Lemma pack_uint8_put c v : is_byte v -> pack_uint8 c v = put c (be_bytes 1 v).
Proof.
  unfold is_byte, in_width. intros Hv. unfold pack_uint8. rewrite write_byte_put.
  unfold be_bytes. simpl. by rewrite Z.div_1_r, Z.mod_small.
Qed.

Lemma pack_uint16_put c v : pack_uint16 c v = put c (be_bytes 2 v).
Proof. puts. Qed.

Lemma pack_uint32_put c v : pack_uint32 c v = put c (be_bytes 4 v).
Proof. puts. Qed.

Lemma pack_uint64_put c v : pack_uint64 c v = put c (be_bytes 8 v).
Proof. puts. Qed.

Lemma pack_blob_put c bs : pack_blob c (length bs) bs = put c bs.
Proof.
  unfold pack_blob, put. case_decide as H1; case_decide as H2; try lia; [|done].
  by rewrite (take_ge bs) by lia.
Qed.

(** ** The unpacking functions read big-endian words *)

Lemma read_byte_then {B} c b bs (k : Z * cursor -> res B) r :
  ahead c (b :: bs) -> (ahead (advance c 1) bs -> k (b, advance c 1) = r) ->
  (p ← read_byte c; k p) = r.
Proof. intros [E H]%ahead_cons Hk. rewrite E. by apply Hk. Qed.

Lemma advance_advance c m n : advance (advance c m) n = advance c (m + n).
Proof. unfold advance. simpl. f_equal. lia. Qed.

Lemma lor_first w b n :
  0 <= n -> n * 8 + 8 <= w -> is_byte b -> Z.lor 0 (SET_BYTE w b n) = b * 2 ^ (n * 8).
Proof. intros. rewrite Z.lor_0_l. by apply SET_BYTE_byte. Qed.

Lemma unpack_uint16_ahead c b1 b0 :
  ahead c [b1; b0] -> Forall is_byte [b1; b0] ->
  unpack_uint16 c = Ret (be_word [b1; b0], advance c 2).
Proof.
  intros H Hb. rewrite !Forall_cons in Hb. destruct Hb as (Hb1 & Hb0 & _). unfold unpack_uint16.
  do 2 (eapply read_byte_then; [eassumption|]; clear H; intros H; cbn beta iota zeta).
  rewrite !advance_advance, lor_first by (done || lia).
  rewrite (lor_SET_BYTE 16 b1 b0 0 1) by (done || lia). do 2 f_equal. unfold be_word. simpl. lia.
Qed.

Lemma unpack_uint32_ahead c b3 b2 b1 b0 :
  ahead c [b3; b2; b1; b0] -> Forall is_byte [b3; b2; b1; b0] ->
  unpack_uint32 c = Ret (be_word [b3; b2; b1; b0], advance c 4).
Proof.
  intros H Hb. rewrite !Forall_cons in Hb. destruct Hb as (? & ? & ? & ? & _).
  unfold unpack_uint32.
  do 4 (eapply read_byte_then; [eassumption|]; clear H; intros H; cbn beta iota zeta).
  rewrite !advance_advance, lor_first by (done || lia).
  rewrite (lor_SET_BYTE 32 _ b2 2 3), (lor_SET_BYTE 32 _ b1 1 2), (lor_SET_BYTE 32 _ b0 0 1)
    by (done || lia).
  do 2 f_equal. unfold be_word. simpl. lia.
Qed.

Lemma unpack_uint64_ahead c b7 b6 b5 b4 b3 b2 b1 b0 :
  ahead c [b7; b6; b5; b4; b3; b2; b1; b0] -> Forall is_byte [b7; b6; b5; b4; b3; b2; b1; b0] ->
  unpack_uint64 c = Ret (be_word [b7; b6; b5; b4; b3; b2; b1; b0], advance c 8).
Proof.
  intros H Hb. rewrite !Forall_cons in Hb. destruct Hb as (? & ? & ? & ? & ? & ? & ? & ? & _).
  unfold unpack_uint64.
  do 8 (eapply read_byte_then; [eassumption|]; clear H; intros H; cbn beta iota zeta).
  rewrite !advance_advance, lor_first by (done || lia).
  rewrite (lor_SET_BYTE 64 _ b6 6 7), (lor_SET_BYTE 64 _ b5 5 6), (lor_SET_BYTE 64 _ b4 4 5),
    (lor_SET_BYTE 64 _ b3 3 4), (lor_SET_BYTE 64 _ b2 2 3), (lor_SET_BYTE 64 _ b1 1 2),
    (lor_SET_BYTE 64 _ b0 0 1) by (done || lia).
  do 2 f_equal. unfold be_word. simpl. lia.
Qed.

Lemma unpack_blob_ahead c bs output :
  ahead c bs -> length output = length bs ->
  unpack_blob c (length bs) output = Ret (bs, advance c (length bs)).
Proof.
  intros [Hl H] Ho. unfold unpack_blob. case_decide as Hd; [|lia].
  by rewrite H, drop_ge, app_nil_r by lia.
Qed.

(** ** Byte swapping *)

Lemma GET_BYTE_range v n : is_byte (GET_BYTE v n).
Proof. by apply wrap_range. Qed.

Lemma ntohq_reverse v : ntohq true v = be_word (reverse (be_bytes 8 v)).
Proof.
  rewrite be_bytes_get. change (reverse _) with
    [GET_BYTE v 0; GET_BYTE v 1; GET_BYTE v 2; GET_BYTE v 3;
     GET_BYTE v 4; GET_BYTE v 5; GET_BYTE v 6; GET_BYTE v 7].
  unfold ntohq. cbn [negb]. pose proof (GET_BYTE_range v) as Hb.
  rewrite (SET_BYTE_byte 64 _ 7) by (done || lia).
  rewrite (lor_SET_BYTE 64 _ (GET_BYTE v 1) 6 7), (lor_SET_BYTE 64 _ (GET_BYTE v 2) 5 6),
    (lor_SET_BYTE 64 _ (GET_BYTE v 3) 4 5), (lor_SET_BYTE 64 _ (GET_BYTE v 4) 3 4),
    (lor_SET_BYTE 64 _ (GET_BYTE v 5) 2 3), (lor_SET_BYTE 64 _ (GET_BYTE v 6) 1 2),
    (lor_SET_BYTE 64 _ (GET_BYTE v 7) 0 1) by (done || lia).
  unfold be_word. simpl. lia.
Qed.

(** The bytes of a [uint64_t] variable in memory. *)
Definition native_bytes (little_endian : bool) (v : Z) : list Z :=
  if little_endian then reverse (be_bytes 8 v) else be_bytes 8 v.

Lemma be_bytes_ntohq v : be_bytes 8 (ntohq true v) = reverse (be_bytes 8 v).
Proof.
  rewrite ntohq_reverse. rewrite <- (be_bytes_word (reverse (be_bytes 8 v))) at 2.
  - by rewrite length_reverse, length_be_bytes.
  - apply Forall_reverse, be_bytes_range.
Qed.

(** ** Messages of fields *)

Inductive field := F8 (v : Z) | F16 (v : Z) | F32 (v : Z) | F64 (v : Z) | FBlob (bs : list Z).
Inductive shape := S8 | S16 | S32 | S64 | SBlob (len : nat).

Definition shape_of (f : field) : shape :=
  match f with
  | F8 _ => S8 | F16 _ => S16 | F32 _ => S32 | F64 _ => S64 | FBlob bs => SBlob (length bs)
  end.

Definition field_ok (f : field) : Prop :=
  match f with
  | F8 v => in_width 8 v | F16 v => in_width 16 v | F32 v => in_width 32 v | F64 v => in_width 64 v
  | FBlob _ => True
  end.

Definition field_bytes (f : field) : list Z :=
  match f with
  | F8 v => be_bytes 1 v | F16 v => be_bytes 2 v | F32 v => be_bytes 4 v | F64 v => be_bytes 8 v
  | FBlob bs => bs
  end.

Definition pack_field (c : cursor) (f : field) : res cursor :=
  match f with
  | F8 v => pack_uint8 c v
  | F16 v => pack_uint16 c v
  | F32 v => pack_uint32 c v
  | F64 v => pack_uint64 c v
  | FBlob bs => pack_blob c (length bs) bs
  end.

Definition unpack_field (c : cursor) (s : shape) : res (field * cursor) :=
  match s with
  | S8 => '(v, c) ← unpack_uint8 c; Ret (F8 v, c)
  | S16 => '(v, c) ← unpack_uint16 c; Ret (F16 v, c)
  | S32 => '(v, c) ← unpack_uint32 c; Ret (F32 v, c)
  | S64 => '(v, c) ← unpack_uint64 c; Ret (F64 v, c)
  | SBlob len => '(bs, c) ← unpack_blob c len (replicate len 0); Ret (FBlob bs, c)
  end.

Definition pack_fields (c : cursor) (fs : list field) : res cursor :=
  for_each fs c (fun f c => pack_field c f).

Fixpoint unpack_fields (c : cursor) (ss : list shape) : res (list field * cursor) :=
  match ss with
  | [] => Ret ([], c)
  | s :: ss =>
      '(f, c) ← unpack_field c s;
      '(fs, c) ← unpack_fields c ss;
      Ret (f :: fs, c)
  end.

Lemma pack_field_put c f : field_ok f -> pack_field c f = put c (field_bytes f).
Proof.
  destruct f; simpl; intros; [by apply pack_uint8_put|apply pack_uint16_put|apply pack_uint32_put
    |apply pack_uint64_put|apply pack_blob_put].
Qed.

Lemma pack_fields_put c fs :
  (head c <= length (mem c))%nat -> Forall field_ok fs ->
  pack_fields c fs = put c (fs ≫= field_bytes).
Proof.
  intros Hc Hf. revert c Hc. induction Hf as [|f fs Hf _ IH]; intros c Hc.
  - by rewrite put_nil.
  - rewrite bind_cons, <- put_app. unfold pack_fields in *. simpl. rewrite pack_field_put by done.
    destruct (put c (field_bytes f)) as [c'| | |] eqn:E; [|done..]. simpl. apply IH.
    revert E. unfold put. case_decide; intros; simplify_eq/=.
    rewrite !length_app, length_take, length_drop. lia.
Qed.

Lemma word_bytes n v :
  in_width (8 * Z.of_nat n) v -> be_word (be_bytes n v) = v.
Proof.
  intros Hv. apply be_word_bytes. unfold in_width in Hv.
  by rewrite Z.pow_mul_r in Hv by lia.
Qed.

Lemma unpack_field_ahead c f :
  field_ok f -> ahead c (field_bytes f) ->
  unpack_field c (shape_of f) = Ret (f, advance c (length (field_bytes f))).
Proof.
  destruct f as [v|v|v|v|bs]; cbn [field_ok field_bytes shape_of unpack_field]; intros Hok Ha.
  - rewrite <- (word_bytes 1 v Hok) at 1. unfold be_bytes in *. simpl in *.
    apply ahead_cons in Ha as [E _]. unfold unpack_uint8. rewrite E. done.
  - rewrite <- (word_bytes 2 v Hok) at 1. pose proof (be_bytes_range 2 v).
    unfold be_bytes in *. simpl in *. by rewrite (unpack_uint16_ahead c _ _ Ha).
  - rewrite <- (word_bytes 4 v Hok) at 1. pose proof (be_bytes_range 4 v).
    unfold be_bytes in *. simpl in *. by rewrite (unpack_uint32_ahead c _ _ _ _ Ha).
  - rewrite <- (word_bytes 8 v Hok) at 1. pose proof (be_bytes_range 8 v).
    unfold be_bytes in *. simpl in *. by rewrite (unpack_uint64_ahead c _ _ _ _ _ _ _ _ Ha).
  - rewrite unpack_blob_ahead; [done..|]. by rewrite length_replicate.
Qed.

Lemma unpack_fields_ahead fs : forall c,
  Forall field_ok fs -> ahead c (fs ≫= field_bytes) ->
  unpack_fields c (shape_of <$> fs) = Ret (fs, advance c (length (fs ≫= field_bytes))).
Proof.
  induction fs as [|f fs IH]; intros c Hf Ha.
  - simpl. unfold advance. rewrite Nat.add_0_r. by destruct c.
  - apply Forall_cons in Hf as [Hf Hfs]. rewrite bind_cons in *. apply ahead_app in Ha as [H1 H2].
    rewrite fmap_cons. cbn [unpack_fields]. rewrite unpack_field_ahead by done.
    cbn [mbind res_bind]. rewrite IH by done. cbn [mbind res_bind].
    by rewrite advance_advance, length_app.
Qed.

(** ** Properties *)

Lemma ntohq_range v : in_width 64 (ntohq true v).
Proof.
  rewrite ntohq_reverse. unfold in_width. change (2 ^ 64) with (256 ^ Z.of_nat 8).
  replace 8%nat with (length (reverse (be_bytes 8 v))) at 2 by (by rewrite length_reverse, length_be_bytes).
  apply be_word_range. apply Forall_reverse, be_bytes_range.
Qed.

Lemma ntohq_involutive v : in_width 64 v -> ntohq true (ntohq true v) = v.
Proof.
  intros Hv. rewrite ntohq_reverse, be_bytes_ntohq, reverse_involutive. by apply word_bytes.
Qed.

(** C36: packing fields and unpacking them with the same shapes gives the
    fields back and leaves the read head where the write head stopped, for
    every sequence of integers and blobs that fits in the buffer; bytes
    outside the packed range are not touched. *)
Theorem pack_unpack_roundtrip (c : cursor) (fs : list field) :
  Forall field_ok fs ->
  (head c + length (fs ≫= field_bytes) <= length (mem c))%nat ->
  exists c', pack_fields c fs = Ret c' /\
    unpack_fields (Cursor (mem c') (head c)) (shape_of <$> fs) = Ret (fs, c') /\
    take (head c) (mem c') = take (head c) (mem c) /\
    drop (head c') (mem c') = drop (head c') (mem c).
Proof.
  intros Hf Hroom. rewrite pack_fields_put by (done || lia).
  destruct (put c (fs ≫= field_bytes)) as [c'| | |] eqn:E;
    [|by revert E; unfold put; case_decide..].
  exists c'. split; [done|]. destruct (put_ahead _ _ _ E) as [Ha Hc].
  rewrite unpack_fields_ahead, <- Hc by done. split; [done|].
  revert E. unfold put. case_decide; [|done]. intros [= <-]. cbn [mem head].
  assert (length (take (head c) (mem c)) = head c) as Hl by (rewrite length_take; lia).
  split; [by rewrite take_app_length'|].
  rewrite (assoc_L (++)). by rewrite drop_app_length' by (rewrite length_app; lia).
Qed.

Lemma pack_unpack_roundtrip_witness :
  exists c', pack_fields (Cursor (replicate 10 7) 1) [F16 513; FBlob [9; 8]; F32 16909060]
             = Ret c' /\
    unpack_fields (Cursor (mem c') 1) [S16; SBlob 2; S32]
      = Ret ([F16 513; FBlob [9; 8]; F32 16909060], c') /\
    take 1 (mem c') = [7] /\ drop (head c') (mem c') = drop (head c') (replicate 10 7).
Proof.
  apply (pack_unpack_roundtrip (Cursor (replicate 10 7) 1)
           [F16 513; FBlob [9; 8]; F32 16909060]).
  - repeat constructor; unfold in_width; lia.
  - vm_compute. lia.
Defined.

(** The writers run past the end of the buffer exactly when the packed
    bytes do not fit: the helpers check nothing, so every caller owes the
    bound. *)
Theorem pack_overrun (c : cursor) (fs : list field) :
  Forall field_ok fs -> (head c <= length (mem c))%nat ->
  (pack_fields c fs = UB <-> (length (mem c) < head c + length (fs ≫= field_bytes))%nat).
Proof.
  intros Hf Hc. rewrite pack_fields_put by done. unfold put. case_decide; split; intros; done || lia.
Qed.

Lemma pack_overrun_witness :
  pack_fields (Cursor [0; 0; 0] 0) [F32 1] = UB <-> (3 < 4)%nat.
Proof.
  apply (pack_overrun (Cursor [0; 0; 0] 0) [F32 1]).
  - repeat constructor; unfold in_width; lia.
  - simpl. lia.
Defined.

(** [ntohq] converts between host and network order on both kinds of
    machine: it is its own inverse, and the memory image of [htonq value] is
    what [pack_uint64] writes for [value], its big-endian bytes. *)
Theorem ntohq_network_order (little_endian : bool) (c : cursor) (v : Z) :
  in_width 64 v ->
  ntohq little_endian (htonq little_endian v) = v /\
  native_bytes little_endian (htonq little_endian v) = be_bytes 8 v /\
  pack_uint64 c v = pack_blob c 8 (native_bytes little_endian (htonq little_endian v)).
Proof.
  intros Hv. assert (native_bytes little_endian (htonq little_endian v) = be_bytes 8 v) as E.
  { unfold htonq, native_bytes. destruct little_endian; [|done].
    by rewrite be_bytes_ntohq, reverse_involutive. }
  rewrite E. split_and!; [|done|].
  - destruct little_endian; [|done]. by apply ntohq_involutive.
  - rewrite pack_uint64_put, <- pack_blob_put. by rewrite length_be_bytes.
Qed.

Lemma ntohq_network_order_witness :
  ntohq true (htonq true 0x0102030405060708) = 0x0102030405060708 /\
  htonq true 0x0102030405060708 = 0x0807060504030201.
Proof.
  split; [|vm_compute; reflexivity].
  apply (ntohq_network_order true (Cursor [] 0) 0x0102030405060708).
  unfold in_width. lia.
Defined.
