(* ===== verification/HexDump.v ===== *)
(** * HexDump: hex_dump and the alignment helpers of doca_dma/common.c

    The dump is modelled on the memory it writes: the heap block returned by
    [malloc], the write head and the remaining size that [snprintf] gets. *)

From S2P Require Import Prelude.

(** ** Characters and number formats *)

Definition hex_digit (d : Z) : Z := if d <? 10 then 48 + d else 55 + d.

(** The digits of [n] in base 16, at most [k] of them, no leading zeros. *)
Fixpoint hex_digits (k : nat) (n : Z) : list Z :=
  match k with
  | O => []
  | S k => if n =? 0 then [] else hex_digits k (n / 16) ++ [hex_digit (n mod 16)]
  end.

(** [%0<w>lX]: at least [w] digits, filled with zeros. *)
Definition format_hex (w : nat) (n : Z) : list Z :=
  let ds := hex_digits 16 n in replicate (w - length ds) 48 ++ ds.

(** ** hex_dump *)

(** [snprintf(head, size, "%s", text)] on a block: at most [size - 1]
    characters and a NUL; nothing when [size] is 0. *)
Definition snprintf (block : list Z) (head : nat) (size : Z) (text : list Z) : res (list Z) :=
  if size <=? 0 then Ret block
  else
    let out := take (Z.to_nat size - 1) text ++ [0] in
    if decide (head + length out <= length block)%nat
    then Ret (take head block ++ out ++ drop (head + length out) block) else UB.

(** The local variables of the loops. *)
Record dump := Dump {
  block : list Z; write_head : nat; buffer_size : Z; read_index : nat; ascii_line : list Z
}.

(** [snprintf] of [text], then [write_head += n; buffer_size -= n]. *)
Definition emit (s : dump) (text : list Z) (n : nat) : res dump :=
  b ← snprintf (block s) (write_head s) (buffer_size s) text;
  Ret (Dump b (write_head s + n) (u64 (buffer_size s - Z.of_nat n)) (read_index s) (ascii_line s)).

(** The body of the innermost loop. *)
Definition dump_byte (input : list Z) (size : nat) (r j : nat) (s : dump) : res dump :=
  '(text, printable, s) ←
     (if decide (read_index s < size)%nat then
        match input !! read_index s with
        | Some cur_char =>
            Ret (format_hex 2 cur_char ++ [32],
                 if (32 <=? cur_char) && (cur_char <=? 126) then cur_char else 46,
                 Dump (block s) (write_head s) (buffer_size s) (S (read_index s)) (ascii_line s))
        | None => UB
        end
      else Ret ([32; 32; 32], 32, s));
  s ← emit s text 3;
  Ret (Dump (block s) (write_head s) (buffer_size s) (read_index s)
         (<[(r * 8 + j)%nat := printable]> (ascii_line s))).

(** One group of eight bytes and the spacer after it. *)
Definition dump_group (input : list Z) (size : nat) (r : nat) (s : dump) : res dump :=
  s ← for_each (upto 8) s (fun j s => dump_byte input size r j s);
  emit s [32] 1.

Definition dump_line (input : list Z) (size : nat) (i : nat) (s : dump) : res dump :=
  s ← emit s (format_hex 8 (u64 (Z.of_nat i * 16)) ++ [58; 32]) 10;
  s ← for_each (upto 2) s (fun r s => dump_group input size r s);
  let s := Dump (block s) (write_head s) (buffer_size s) (read_index s)
             (<[16%nat := 0]> (ascii_line s)) in
  emit s (cstr (ascii_line s) ++ [10]) 17.

Definition line_size : Z := 8 + 2 + 8 * 3 + 1 + 8 * 3 + 1 + 16 + 1.

(** [heap] is the block [malloc] returns for the requested size, or NULL. *)
Definition hex_dump (heap : Z -> option (list Z)) (stack : list Z) (input : list Z) (size : Z)
  : res (option (list Z)) :=
  let num_lines := u64 (size + 16 - 1) / 16 in
  let buffer_size := u64 (num_lines * line_size + 1) in
  match heap buffer_size with
  | None => Ret None
  | Some buffer =>
      s ← for_each (upto (Z.to_nat num_lines)) (Dump buffer 0 buffer_size 0 stack)
            (fun i s => dump_line input (Z.to_nat size) i s);
      match write_head s with
      | O => UB
      | S h => Ret (Some (<[h := 0]> (block s)))
      end
  end.

(** ** Alignment *)

Definition align_up_uint64 (value alignment : Z) : res Z :=
  if alignment =? 0 then UB
  else
    let remainder := value mod alignment in
    if remainder =? 0 then Ret value else Ret (u64 (value + u64 (alignment - remainder))).

Definition align_down_uint64 (value alignment : Z) : res Z :=
  if alignment =? 0 then UB else Ret (u64 (value - value mod alignment)).

(** ** Reference text *)

Definition cell (b : option Z) : list Z :=
  match b with Some c => [hex_digit (c / 16); hex_digit (c mod 16); 32] | None => [32; 32; 32] end.

Definition printable (b : option Z) : Z :=
  match b with
  | Some c => if (32 <=? c) && (c <=? 126) then c else 46
  | None => 32
  end.

Definition offset_text (i : nat) : list Z :=
  (fun k => hex_digit ((Z.of_nat i * 16 / 16 ^ Z.of_nat (7 - k)) mod 16)) <$> seq 0 8.

(** Line [i] of the dump of [input], with its final newline. *)
Definition line_text (input : list Z) (i : nat) : list Z :=
  let at_ k := input !! (16 * i + k)%nat in
  offset_text i ++ [58; 32]
  ++ (seq 0 8 ≫= fun k => cell (at_ k)) ++ [32]
  ++ (seq 8 8 ≫= fun k => cell (at_ k)) ++ [32]
  ++ ((fun k => printable (at_ k)) <$> seq 0 16) ++ [10].

Definition dump_text (input : list Z) : list Z :=
  seq 0 ((length input + 15) / 16) ≫= line_text input.

(** ** Hexadecimal numbers *)

Definition be_hex (w : nat) (n : Z) : list Z :=
  (fun k => hex_digit ((n / 16 ^ Z.of_nat (w - 1 - k)) mod 16)) <$> seq 0 w.

Lemma be_hex_S w n : be_hex (S w) n = be_hex w (n / 16) ++ [hex_digit (n mod 16)].
Proof.
  unfold be_hex. rewrite seq_S, fmap_app. f_equal.
  - apply list_fmap_ext. intros j i [-> Hi]%lookup_seq. simpl (0 + _)%nat.
    rewrite Z.div_div by (try apply Z.pow_pos_nonneg; lia).
    rewrite <- (Z.pow_succ_r 16) by lia. do 4 f_equal. lia.
  - simpl. replace (w - 0 - w)%nat with 0%nat by lia. by rewrite Z.div_1_r.
Qed.

Lemma be_hex_0 w : be_hex w 0 = replicate w 48.
Proof.
  induction w as [|w IH]; [done|]. rewrite be_hex_S. change (0 / 16) with 0.
  by rewrite IH, replicate_S_end.
Qed.

Lemma hex_digits_be w : forall k n,
  (w <= k)%nat -> 0 <= n < 16 ^ Z.of_nat w ->
  (length (hex_digits k n) <= w)%nat /\
  replicate (w - length (hex_digits k n)) 48 ++ hex_digits k n = be_hex w n.
Proof.
  induction w as [|w IH]; intros k n Hk Hn.
  - assert (n = 0) as -> by (simpl in Hn; lia). by destruct k.
  - destruct k as [|k]; [lia|]. simpl hex_digits. destruct (Z.eqb_spec n 0) as [->|Hne].
    + simpl length. rewrite be_hex_0, app_nil_r, Nat.sub_0_r. split; [lia|done].
    + rewrite Nat2Z.inj_succ, Z.pow_succ_r in Hn by lia.
      destruct (IH k (n / 16) ltac:(lia)) as [Hl E].
      { split; [apply Z.div_pos; lia|apply Z.div_lt_upper_bound; lia]. }
      rewrite length_app. simpl length. split; [lia|].
      rewrite be_hex_S, <- E, <- (assoc_L (++)). do 2 f_equal. lia.
Qed.

Lemma format_hex_be w n :
  (w <= 16)%nat -> 0 <= n < 16 ^ Z.of_nat w -> format_hex w n = be_hex w n.
Proof. intros Hw Hn. by apply (hex_digits_be w 16 n). Qed.

(** ** Writing at the head *)

(** After the text [T] was written into a block of [N] bytes. *)
Record wrote (N : nat) (T : list Z) (s : dump) : Prop := {
  wr_block : length (block s) = N;
  wr_head : write_head s = length T;
  wr_text : take (length T) (block s) = T;
  wr_size : buffer_size s = Z.of_nat N - Z.of_nat (length T);
  wr_ascii : length (ascii_line s) = 17%nat
}.

Lemma snprintf_fits b head size text :
  (head + length text < length b)%nat -> size = Z.of_nat (length b) - Z.of_nat head ->
  snprintf b head size text = Ret (take head b ++ text ++ 0 :: drop (head + length text + 1) b).
Proof.
  intros Hfit ->. unfold snprintf.
  destruct (Z.leb_spec (Z.of_nat (length b) - Z.of_nat head) 0); [lia|].
  rewrite (take_ge text) by lia. rewrite length_app. simpl length.
  case_decide; [|lia]. f_equal. rewrite <- (assoc_L (++)). simpl. do 4 f_equal. lia.
Qed.

Lemma emit_wrote N T s text n :
  wrote N T s -> length text = n -> (length T + n < N)%nat -> Z.of_nat N < 2 ^ 64 ->
  exists s', emit s text n = Ret s' /\ wrote N (T ++ text) s' /\
    read_index s' = read_index s /\ ascii_line s' = ascii_line s.
Proof.
  intros [Hb Hh Ht Hs Ha] <- Hfit HN. unfold emit.
  rewrite snprintf_fits by (rewrite ?Hb, ?Hh; done || lia). cbn [mbind res_bind].
  eexists. split; [done|]. split_and!; [|done..].
  rewrite Hh. split; cbn [block write_head buffer_size ascii_line].
  - rewrite !length_app. simpl. rewrite length_take, length_drop, Hb. lia.
  - by rewrite length_app.
  - rewrite Ht, (assoc_L (++)). rewrite take_app_le by done. by apply take_ge.
  - rewrite Hs, length_app. rewrite wrap_small; [lia|]. unfold in_width. lia.
  - done.
Qed.

Lemma nonzero_cstr T rest : Forall (fun c => c <> 0) T -> cstr (T ++ 0 :: rest) = T.
Proof.
  induction 1 as [|c T Hc _ IH]; [done|]. simpl. destruct (Z.eqb_spec c 0); [done|]. by rewrite IH.
Qed.

(** ** The lines *)

Section lines.
Context (input : list Z) (N : nat).
Context (Hbytes : Forall is_byte input).
Context (Hsize : Z.of_nat (length input) <= 2 ^ 32).
Context (HN : Z.of_nat N < 2 ^ 64).
Context (i : nat) (Hi : (16 * i < length input)%nat).

Abbreviation at_ k := (input !! (16 * i + k)%nat).

(** The state inside line [i] after [k] of its bytes. *)
Record in_line (T : list Z) (k : nat) (s : dump) : Prop := {
  il_wrote : wrote N T s;
  il_read : read_index s = Nat.min (16 * i + k) (length input);
  il_ascii : forall k', (k' < k)%nat -> ascii_line s !! k' = Some (printable (at_ k'))
}.

Lemma length_cell b : length (cell b) = 3%nat.
Proof using. by destruct b. Qed.

Lemma dump_byte_in_line T r j s :
  in_line T (r * 8 + j) s -> (r * 8 + j < 16)%nat -> (length T + 3 < N)%nat ->
  exists s', dump_byte input (length input) r j s = Ret s' /\
    in_line (T ++ cell (at_ (r * 8 + j))) (S (r * 8 + j)) s'.
Proof using All.
  intros [Hw Hr Ha] Hj HT. set (k := (r * 8 + j)%nat) in *. unfold dump_byte.
  assert (exists s1, (if decide (read_index s < length input)%nat then
        match input !! read_index s with
        | Some cur_char =>
            Ret (format_hex 2 cur_char ++ [32],
                 if (32 <=? cur_char) && (cur_char <=? 126) then cur_char else 46,
                 Dump (block s) (write_head s) (buffer_size s) (S (read_index s)) (ascii_line s))
        | None => UB
        end
      else Ret ([32; 32; 32], 32, s)) = Ret (cell (at_ k), printable (at_ k), s1) /\
      wrote N T s1 /\ ascii_line s1 = ascii_line s /\
      read_index s1 = Nat.min (16 * i + S k) (length input)) as (s1 & -> & Hw1 & Ha1 & Hr1).
  { destruct (decide (16 * i + k < length input)%nat) as [Hlt|Hge].
    - replace (read_index s) with (16 * i + k)%nat by lia. case_decide; [|lia].
      destruct (lookup_lt_is_Some_2 input (16 * i + k)) as [c Hc]; [lia|].
      pose proof (Forall_lookup_1 _ _ _ _ Hbytes Hc) as Hbc. unfold is_byte, in_width in Hbc.
      rewrite Hc.
      exists (Dump (block s) (write_head s) (buffer_size s) (S (16 * i + k)) (ascii_line s)).
      split; [|split_and!; [by destruct Hw|done|cbn [read_index]; lia]].
      rewrite format_hex_be by (simpl; lia). unfold be_hex, cell. simpl. rewrite Z.div_1_r.
      by rewrite (Z.mod_small (c / 16)) by (split; [apply Z.div_pos; lia|apply Z.div_lt_upper_bound; lia]).
    - rewrite decide_False by lia. rewrite lookup_ge_None_2 by lia.
      eexists. split; [done|]. split_and!; [done..|lia]. }
  cbn [mbind res_bind].
  destruct (emit_wrote N T s1 (cell (at_ k)) 3 Hw1 (length_cell _) HT HN)
    as (s2 & -> & Hw2 & Hr2 & Ha2).
  cbn [mbind res_bind]. eexists. split; [done|]. split; cbn [ascii_line read_index].
  - destruct Hw2. by split; cbn [ascii_line]; rewrite ?length_insert.
  - congruence.
  - intros k' Hk'. rewrite Ha2, Ha1. destruct (decide (k = k')) as [<-|Hne].
    + apply list_lookup_insert_eq. destruct Hw. lia.
    + rewrite list_lookup_insert_ne by done. apply Ha. lia.
Qed.

Abbreviation cells from n := (seq from n ≫= fun k => cell (at_ k)).

Lemma length_cells from n : length (cells from n) = (3 * n)%nat.
Proof using All.
  revert from. induction n as [|n IH]; intros from; [done|].
  rewrite <- cons_seq, bind_cons, length_app, length_cell, IH. lia.
Qed.

Lemma dump_group_in_line T r s :
  in_line T (r * 8) s -> (r < 2)%nat -> (length T + 25 < N)%nat ->
  exists s', dump_group input (length input) r s = Ret s' /\
    in_line (T ++ cells (r * 8) 8 ++ [32]) (r * 8 + 8) s'.
Proof using All.
  intros Hs Hr HT. unfold dump_group.
  pose proof (for_each_upto (fun j => in_line (T ++ cells (r * 8) j) (r * 8 + j))
    (fun j s => dump_byte input (length input) r j s) (fun _ => False) 8 s) as H.
  rewrite outcome_ret in H. destruct H as (s1 & -> & Hs1).
  - by rewrite app_nil_r, Nat.add_0_r.
  - intros j s1 Hj Hs1. apply outcome_ret.
    destruct (dump_byte_in_line _ r j s1 Hs1) as (s2 & -> & Hs2);
      [lia|rewrite length_app, length_cells; lia|].
    exists s2. split; [done|]. rewrite <- (assoc_L (++)) in Hs2.
    replace (seq (r * 8) (1 + j)) with (seq (r * 8) j ++ [(r * 8 + j)%nat]) by by rewrite <- seq_S.
    rewrite bind_app, bind_singleton.
    by replace (r * 8 + (1 + j))%nat with (S (r * 8 + j)) by lia.
  - cbn [mbind res_bind]. destruct Hs1 as [Hw Hri Ha].
    destruct (emit_wrote N _ s1 [32] 1 Hw eq_refl) as (s2 & -> & Hw2 & Hr2 & Ha2);
      [rewrite length_app, length_cells; lia|done|].
    exists s2. split; [done|]. rewrite (assoc_L (++)). split; [done|congruence|].
    intros k Hk. rewrite Ha2. by apply Ha.
Qed.

Lemma ascii_text s :
  (forall k, (k < 16)%nat -> ascii_line s !! k = Some (printable (at_ k))) ->
  length (ascii_line s) = 17%nat ->
  cstr (<[16%nat := 0]> (ascii_line s)) = (fun k => printable (at_ k)) <$> seq 0 16.
Proof using All.
  intros Ha Hl.
  assert (<[16%nat := 0]> (ascii_line s) = ((fun k => printable (at_ k)) <$> seq 0 16) ++ [0]) as ->.
  { apply list_eq. intros k. destruct (decide (k < 16)%nat).
    - rewrite list_lookup_insert_ne by lia. rewrite Ha by done.
      rewrite lookup_app_l by (rewrite length_fmap, length_seq; done).
      by rewrite list_lookup_fmap, lookup_seq_lt by done.
    - rewrite lookup_app_r by (rewrite length_fmap, length_seq; lia).
      rewrite length_fmap, length_seq. destruct (decide (k = 16)%nat) as [->|].
      + by rewrite list_lookup_insert_eq by lia.
      + rewrite list_lookup_insert_ne by lia. rewrite !lookup_ge_None_2; [done|simpl; lia|lia]. }
  apply nonzero_cstr, Forall_fmap, Forall_true. intros k. unfold compose, printable.
  destruct (at_ k) as [c|]; [|done]. destruct (Z.leb_spec 32 c), (Z.leb_spec c 126); simpl; lia.
Qed.

Lemma dump_line_wrote T s :
  wrote N T s -> read_index s = (16 * i)%nat -> (length T + 77 < N)%nat ->
  exists s', dump_line input (length input) i s = Ret s' /\ wrote N (T ++ line_text input i) s' /\
    read_index s' = Nat.min (16 * S i) (length input).
Proof using All.
  intros Hw Hr HT. unfold dump_line. rewrite wrap_small by (unfold in_width; lia).
  rewrite format_hex_be by (simpl; lia). change (be_hex 8 _) with (offset_text i).
  destruct (emit_wrote N T s (offset_text i ++ [58; 32]) 10 Hw eq_refl) as (s1 & -> & Hw1 & Hr1 & Ha1);
    [lia|done|].
  cbn [mbind res_bind]. set (T1 := T ++ offset_text i ++ [58; 32]) in *.
  assert (length T1 = length T + 10)%nat as HT1 by (unfold T1; rewrite length_app; done).
  change (upto 2) with [0; 1]%nat. cbn [for_each].
  destruct (dump_group_in_line T1 0 s1) as (s2 & -> & Hs2); [|lia|lia|].
  { split; [done|rewrite Hr1; lia|lia]. }
  cbn [mbind res_bind for_each].
  destruct (dump_group_in_line _ 1 s2 Hs2) as (s3 & -> & Hs3);
    [lia|rewrite !length_app, length_cells; simpl; lia|].
  cbn [mbind res_bind for_each]. destruct Hs3 as [Hw3 Hr3 Ha3].
  set (T3 := (T1 ++ cells (0 * 8) 8 ++ [32]) ++ cells (1 * 8) 8 ++ [32]) in *.
  assert (length T3 = length T1 + 50)%nat as HT3
    by (unfold T3; rewrite !length_app, !length_cells; simpl; lia).
  cbn [ascii_line]. rewrite (ascii_text s3 Ha3 (wr_ascii _ _ _ Hw3)).
  destruct (emit_wrote N T3 (Dump (block s3) (write_head s3) (buffer_size s3) (read_index s3)
    (<[16%nat := 0]> (ascii_line s3))) (((fun k => printable (at_ k)) <$> seq 0 16) ++ [10]) 17)
    as (s4 & -> & Hw4 & Hr4 & _); [|done|lia|done|].
  { destruct Hw3. by split; cbn [ascii_line]; rewrite ?length_insert. }
  exists s4. split; [done|]. split; [|rewrite Hr4; cbn [read_index]; lia].
  unfold line_text. rewrite !(assoc_L (++)). unfold T3, T1 in Hw4. by rewrite !(assoc_L (++)) in Hw4.
Qed.
End lines.

(** ** The whole dump *)

Lemma hex_digit_nonzero d : 0 <= d -> hex_digit d <> 0.
Proof. unfold hex_digit. destruct (Z.ltb_spec d 10); lia. Qed.

(** A concrete string has no NUL. *)
Ltac nonzero_list := repeat (apply Forall_cons_2; [lia|]); apply Forall_nil_2.

Lemma line_text_nonzero input i : Forall is_byte input -> Forall (fun c => c <> 0) (line_text input i).
Proof.
  intros Hb. unfold line_text.
  assert (forall n m, Forall (fun c => c <> 0)
    (seq n m ≫= fun k => cell (input !! (16 * i + k)%nat))) as Hcells.
  { intros n m. apply Forall_bind, Forall_true. intros k.
    change (Forall (fun c => c <> 0) (cell (input !! (16 * i + k)%nat))).
    destruct (input !! (16 * i + k)%nat) as [c|] eqn:E; [|nonzero_list].
    pose proof (Forall_lookup_1 _ _ _ _ Hb E) as Hc. unfold is_byte, in_width in Hc.
    constructor; [apply hex_digit_nonzero, Z.div_pos; lia|].
    constructor; [apply hex_digit_nonzero, Z.mod_pos_bound; lia|]. nonzero_list. }
  rewrite !Forall_app. split_and!; try apply Hcells; try nonzero_list.
  - apply Forall_fmap, Forall_true. intros k. unfold compose.
    apply hex_digit_nonzero. apply Z.mod_pos_bound. lia.
  - apply Forall_fmap, Forall_true. intros k. unfold compose, printable.
    destruct (input !! (16 * i + k)%nat) as [c|]; [|done].
    destruct (Z.leb_spec 32 c), (Z.leb_spec c 126); simpl; lia.
Qed.

Lemma length_line_text input i : length (line_text input i) = 77%nat.
Proof.
  unfold line_text. rewrite !length_app, !length_fmap.
  assert (forall n m, length (seq n m ≫= fun k => cell (input !! (16 * i + k)%nat)) = (3 * m)%nat)
    as Hc.
  { intros n m. revert n. induction m as [|m IH]; intros n; [done|].
    rewrite <- cons_seq, bind_cons, length_app, IH.
    destruct (input !! (16 * i + n)%nat); simpl; lia. }
  rewrite !Hc. done.
Qed.

Definition lines_text (input : list Z) (n : nat) : list Z := seq 0 n ≫= line_text input.

Lemma lines_text_S input n : lines_text input (S n) = lines_text input n ++ line_text input n.
Proof. unfold lines_text. by rewrite seq_S, bind_app, bind_singleton. Qed.

Lemma length_lines_text input n : length (lines_text input n) = (77 * n)%nat.
Proof.
  induction n as [|n IH]; [done|]. rewrite lines_text_S, length_app, length_line_text, IH. lia.
Qed.

Lemma cut_last (b T : list Z) h :
  length T = S h -> (S h <= length b)%nat -> take (S h) b = T -> Forall (fun c => c <> 0) T ->
  cstr (<[h := 0]> b) = take h T.
Proof.
  intros HT Hb Ht Hnz.
  rewrite insert_take_drop by lia. rewrite nonzero_cstr.
  - rewrite <- Ht, take_take. f_equal. lia.
  - apply (Forall_take _ h) in Hnz. rewrite <- Ht, take_take, Nat.min_l in Hnz by lia. done.
Qed.

(** For every non-empty buffer of up to 2^32 bytes, [hex_dump] stays
    inside the block it allocates and the string it returns is the documented
    table: per 16 bytes one line with the offset, two groups of eight
    hexadecimal bytes and the printable characters, without a newline at the
    end. A failed allocation gives NULL. *)
Theorem hex_dump_correct (heap : Z -> option (list Z)) (stack input : list Z) :
  Forall is_byte input -> 0 < Z.of_nat (length input) <= 2 ^ 32 -> length stack = 17%nat ->
  (forall n b, heap n = Some b -> Z.of_nat (length b) = n) ->
  match hex_dump heap stack input (Z.of_nat (length input)) with
  | Ret (Some b) => cstr b ++ [10] = dump_text input
  | Ret None => exists n, heap n = None
  | _ => False
  end.
Proof.
  intros Hbytes Hlen Hst Hheap. unfold hex_dump, dump_text. rewrite Nat2Z.id.
  rewrite (wrap_small 64 (Z.of_nat (length input) + 16 - 1)) by (unfold in_width; lia).
  set (lines := ((length input + 15) / 16)%nat).
  replace ((Z.of_nat (length input) + 16 - 1) / 16) with (Z.of_nat lines)
    by (unfold lines; rewrite Nat2Z.inj_div, Nat2Z.inj_add; f_equal; lia).
  assert (16 * (lines - 1) < length input /\ length input <= 16 * lines /\ 1 <= lines)%nat as Hlines.
  { unfold lines. pose proof (Nat.div_mod_eq (length input + 15) 16).
    pose proof (Nat.mod_upper_bound (length input + 15) 16). lia. }
  change line_size with 77. rewrite wrap_small by (unfold in_width; lia). rewrite Nat2Z.id.
  destruct (heap (Z.of_nat lines * 77 + 1)) as [b|] eqn:E; [|by eexists].
  apply Hheap in E. set (N := length b) in *.
  pose proof (for_each_upto
    (fun i s => wrote N (lines_text input i) s /\ read_index s = Nat.min (16 * i) (length input))
    (fun i s => dump_line input (length input) i s) (fun _ => False) lines
    (Dump b 0 (Z.of_nat lines * 77 + 1) 0 stack)) as H.
  rewrite outcome_ret in H. destruct H as (s & -> & [Hw _]).
  - split; [|done]. split; cbn [block write_head buffer_size ascii_line]; try done. simpl. lia.
  - intros i s Hi [Hw Hr]. apply outcome_ret.
    destruct (dump_line_wrote input N Hbytes ltac:(lia) ltac:(lia) i ltac:(lia)
      (lines_text input i) s Hw) as (s' & -> & Hw' & Hr'); [lia|rewrite length_lines_text; lia|].
    exists s'. rewrite <- lines_text_S in Hw'. done.
  - cbn [mbind res_bind]. destruct Hw as [Hb Hh Ht _ _]. rewrite length_lines_text in *.
    destruct (write_head s) as [|h]; [lia|].
    assert (lines_text input lines = take h (lines_text input lines) ++ [10]) as Hlast.
    { destruct lines as [|n]; [lia|]. rewrite lines_text_S. rewrite take_app_ge; [|rewrite length_lines_text; lia].
      rewrite length_lines_text, <- (assoc_L (++)). f_equal.
      replace (h - 77 * n)%nat with 76%nat by lia.
      rewrite <- (take_drop 76 (line_text input n)) at 1. f_equal. unfold line_text.
      rewrite !(assoc_L (++)). rewrite drop_app_length'; [done|].
      rewrite !length_app, !length_fmap. 
      pose proof (length_line_text input n) as Hl. unfold line_text in Hl.
      rewrite !length_app, !length_fmap in Hl. simpl in Hl |- *. lia. }
    rewrite (cut_last (block s) (lines_text input lines) h).
    + by rewrite <- Hlast.
    + rewrite length_lines_text. lia.
    + lia.
    + rewrite Hh. done.
    + apply Forall_bind, Forall_true. intros i. by apply line_text_nonzero.
Qed.

Definition demo_heap (n : Z) : option (list Z) :=
  if n <? 0 then None else Some (replicate (Z.to_nat n) 170).

Lemma hex_dump_correct_witness :
  match hex_dump demo_heap (replicate 17 7) [65; 0; 255] 3 with
  | Ret (Some b) => cstr b ++ [10] = dump_text [65; 0; 255]
  | Ret None => exists n, demo_heap n = None
  | _ => False
  end.
Proof.
  apply (hex_dump_correct demo_heap (replicate 17 7) [65; 0; 255]).
  - repeat constructor; unfold in_width; lia.
  - simpl. lia.
  - reflexivity.
  - intros n b. unfold demo_heap. destruct (Z.ltb_spec n 0); intros; simplify_eq.
    rewrite length_replicate. lia.
Defined.

(** Dumping zero bytes writes before the start of the block: no line is
    printed, so [write_head[-1]] lies outside the allocation. *)
Theorem hex_dump_empty (heap : Z -> option (list Z)) (stack input block : list Z) :
  heap 1 = Some block -> hex_dump heap stack input 0 = UB.
Proof.
  intros E. unfold hex_dump. change (u64 (0 + 16 - 1) / 16) with 0.
  change (u64 (0 * line_size + 1)) with 1. by rewrite E.
Qed.

Lemma hex_dump_empty_witness : hex_dump demo_heap [] [] 0 = UB.
Proof. apply (hex_dump_empty demo_heap [] [] [170]). reflexivity. Defined.

(** ** Alignment *)

(** [align_up_uint64] and [align_down_uint64] return the nearest multiples
    of the alignment above and below the value, as long as the upper one is
    representable. *)
Theorem align_correct (value alignment : Z) :
  in_width 64 value -> 0 < alignment -> value + alignment <= 2 ^ 64 ->
  exists up down, align_up_uint64 value alignment = Ret up /\
    align_down_uint64 value alignment = Ret down /\
    down <= value <= up /\ value - down < alignment /\ up - value < alignment /\
    up mod alignment = 0 /\ down mod alignment = 0.
Proof.
  intros Hv Ha Hfit. unfold align_up_uint64, align_down_uint64, in_width in *.
  destruct (Z.eqb_spec alignment 0); [lia|].
  pose proof (Z.mod_pos_bound value alignment ltac:(lia)) as Hm.
  pose proof (Z.div_mod value alignment ltac:(lia)) as Hd.
  pose proof (Z.div_pos value alignment ltac:(lia) ltac:(lia)) as Hq.
  set (q := value / alignment) in *. set (r := value mod alignment) in *.
  rewrite (wrap_small 64 (value - r)) by (unfold in_width; nia).
  assert ((value - r) mod alignment = 0) as Hdown.
  { replace (value - r) with (q * alignment) by lia. apply Z.mod_mul. lia. }
  destruct (Z.eqb_spec r 0) as [Hr|Hr].
  - exists value, (value - r). split_and!; try (done || lia).
  - exists (value + (alignment - r)), (value - r).
    rewrite (wrap_small 64 (alignment - r)) by (unfold in_width; lia).
    rewrite wrap_small by (unfold in_width; lia). split_and!; try (done || lia).
    replace (value + (alignment - r)) with ((q + 1) * alignment) by lia. apply Z.mod_mul. lia.
Qed.

Lemma align_correct_witness :
  exists up down, align_up_uint64 100 64 = Ret up /\ align_down_uint64 100 64 = Ret down /\
    down <= 100 <= up /\ 100 - down < 64 /\ up - 100 < 64 /\ up mod 64 = 0 /\ down mod 64 = 0.
Proof. apply (align_correct 100 64); unfold in_width; lia. Defined.
