(* ===== verification/Doca.v ===== *)
(** * Doca: the calls the DOCA programs make

    The DOCA SDK and the C library are not part of the repository. A program
    is a tree of calls ([prog]): what a call answers is not fixed, and the
    program continues from any answer. [run] executes a program against an
    oracle that answers each call from the history, so that programs can be
    evaluated; [wp] states that every execution whose answers follow the
    documented behaviour ([documented]) ends in a result that satisfies a
    postcondition. Theorems quantify over all such oracles.

    Pointers to library objects are integers, 0 being NULL. Only calls that
    matter to the program's state are listed; logging is left out.

    [wp] judges every answer of the library on its own. Some
    contracts depend on what happened before: a task completes only after it
    was submitted, a file holds what was written to it. A [Library] is such a
    contract: an abstract state, how a call and its answer change it, and
    which answers it allows. [gwp p g Q] states that with allowed answers [p]
    has no undefined behaviour from the library state [g] and ends in [Q].
    Theorems proved against a [Library] hold for every oracle that follows it
    ([gwp_run]). *)

From Stdlib Require String.
From stdpp Require Import relations.
From S2P Require Import Prelude.

Export String.StringSyntax.

Abbreviation string := String.string.
Bind Scope string_scope with String.string.

(** ** Error codes used by the sources *)

Inductive doca_error :=
| DOCA_SUCCESS
| DOCA_ERROR_AGAIN
| DOCA_ERROR_INVALID_VALUE
| DOCA_ERROR_IN_PROGRESS
| DOCA_ERROR_IO_FAILED
| DOCA_ERROR_NOT_FOUND
| DOCA_ERROR_NO_MEMORY
| DOCA_ERROR_UNEXPECTED
| DOCA_ERROR_OTHER (code : Z).

#[export] Instance doca_error_eq_dec : EqDecision doca_error.
Proof. solve_decision. Defined.

Definition ok (e : doca_error) : bool := bool_decide (e = DOCA_SUCCESS).

(** [DOCA_ERROR_PROPAGATE(r, t)]: keep the first error. *)
Definition DOCA_ERROR_PROPAGATE (r t : doca_error) : doca_error := if ok r then t else r.

Inductive doca_ctx_state := CTX_IDLE | CTX_STARTING | CTX_RUNNING | CTX_STOPPING.

#[export] Instance doca_ctx_state_eq_dec : EqDecision doca_ctx_state.
Proof. solve_decision. Defined.

(** What a progress engine may deliver during one [doca_pe_progress]: the
    callbacks it invokes, with their arguments. *)
Inductive pe_event :=
| EvConnection (conn : Z) (change_successful : Z)
| EvDisconnection (conn : Z) (change_successful : Z)
| EvMessage (conn : Z) (bytes : list Z)
| EvSendCompletion (task : Z)
| EvSendError (task : Z)
| EvDmaCompletion (task : Z)
| EvDmaError (task : Z)
| EvMemcpyCompleted (task user_data : Z)
| EvMemcpyError (task user_data : Z).

Inductive access_flags :=
| DOCA_ACCESS_FLAG_LOCAL_READ_ONLY | DOCA_ACCESS_FLAG_LOCAL_READ_WRITE
| DOCA_ACCESS_FLAG_PCI_READ_ONLY | DOCA_ACCESS_FLAG_PCI_READ_WRITE.

(** The command-line values [doca_argp_start] hands to the registered
    callbacks: the long name of the parameter and its value. *)
Inductive arg_value := ArgInt (n : Z) | ArgString (s : list Z).

(** ** Calls, indexed by the type of their answer *)

Inductive call : Type -> Type :=
(* C library *)
| malloc (size : Z) : call Z
| calloc (n size : Z) : call Z
| memalign (alignment size : Z) : call Z
| free (p : Z) : call unit
| fopen (path : list Z) : call Z
| fopen_write (path : list Z) : call Z (* modes "w", "wb" and "w+" *)
| fseek (f : Z) (to_end : bool) : call Z
| ftell (f : Z) : call Z
| fread (f : Z) (n : Z) : call (list Z)
| fwrite (f : Z) (bytes : list Z) : call Z
| fprintf (f : Z) (text : list Z) : call Z
| fgets (f : Z) (size : Z) : call (option (list Z))
| fclose (f : Z) : call Z
| clock_gettime : call (option (Z * Z))
| nanosleep : call unit
| socket : call Z
| bind (fd port : Z) : call Z
| listen (fd backlog : Z) : call Z
| accept (fd : Z) : call Z
| connect (fd : Z) (host : string) (port : Z) : call Z
| close (fd : Z) : call Z
(* devices *)
| doca_devinfo_create_list : call (doca_error * (Z * list Z))
| doca_devinfo_destroy_list (dev_list : Z) : call doca_error
| doca_devinfo_is_equal_pci_addr (devinfo : Z) (pci_addr : list Z) : call (doca_error * Z)
| doca_devinfo_get_ibdev_name (devinfo size : Z) : call (doca_error * list Z)
| doca_devinfo_get_iface_name (devinfo size : Z) : call (doca_error * list Z)
| doca_dev_open (devinfo : Z) : call (doca_error * Z)
| doca_dev_close (dev : Z) : call doca_error
| doca_dev_as_devinfo (dev : Z) : call Z
| doca_devinfo_rep_create_list (dev : Z) : call (doca_error * (Z * list Z))
| doca_devinfo_rep_destroy_list (dev_list : Z) : call doca_error
| doca_devinfo_rep_get_vuid (rep size : Z) : call (doca_error * list Z)
| doca_devinfo_rep_is_equal_pci_addr (rep : Z) (pci_addr : list Z) : call (doca_error * Z)
| doca_dev_rep_open (rep : Z) : call (doca_error * Z)
| doca_dev_rep_close (rep : Z) : call doca_error
(* memory maps, inventories, buffers *)
| doca_mmap_create : call (doca_error * Z)
| doca_mmap_destroy (mmap : Z) : call doca_error
| doca_mmap_add_dev (mmap dev : Z) : call doca_error
| doca_mmap_set_permissions (mmap : Z) (flags : access_flags) : call doca_error
| doca_mmap_set_memrange (mmap addr len : Z) : call doca_error
| doca_mmap_start (mmap : Z) : call doca_error
| doca_mmap_stop (mmap : Z) : call doca_error
| doca_mmap_export_pci (mmap dev : Z) : call (doca_error * list Z)
| doca_mmap_create_from_export (desc : list Z) (dev : Z) : call (doca_error * Z)
| doca_buf_inventory_create (num : Z) : call (doca_error * Z)
| doca_buf_inventory_start (inv : Z) : call doca_error
| doca_buf_inventory_stop (inv : Z) : call doca_error
| doca_buf_inventory_destroy (inv : Z) : call doca_error
| doca_buf_inventory_buf_get_by_addr (inv mmap addr len : Z) : call (doca_error * Z)
| doca_buf_inventory_buf_get_by_data (inv mmap addr len : Z) : call (doca_error * Z)
| doca_buf_dec_refcount (buf : Z) : call doca_error
| doca_buf_get_data (buf : Z) : call (doca_error * Z)
| doca_buf_set_data (buf data len : Z) : call doca_error
(* progress engine and contexts *)
| doca_pe_create : call (doca_error * Z)
| doca_pe_destroy (pe : Z) : call doca_error
| doca_pe_progress (pe : Z) : call (Z * list pe_event)
| doca_pe_connect_ctx (pe ctx : Z) : call doca_error
| doca_ctx_start (ctx : Z) : call doca_error
| doca_ctx_stop (ctx : Z) : call doca_error
| doca_ctx_get_state (ctx : Z) : call (doca_error * doca_ctx_state)
| doca_ctx_set_user_data (ctx data : Z) : call doca_error
| doca_ctx_get_user_data (ctx : Z) : call (doca_error * Z)
| doca_task_submit (task : Z) : call doca_error
| doca_task_free (task : Z) : call unit
| doca_task_get_status (task : Z) : call doca_error
| doca_task_set_user_data (task data : Z) : call unit
(* DMA *)
| doca_dma_create (dev : Z) : call (doca_error * Z)
| doca_dma_destroy (dma : Z) : call doca_error
| doca_dma_as_ctx (dma : Z) : call Z
| doca_dma_cap_task_memcpy_is_supported (devinfo : Z) : call doca_error
| doca_dma_cap_task_memcpy_get_max_buf_size (devinfo : Z) : call (doca_error * Z)
| doca_dma_task_memcpy_set_conf (dma num : Z) : call doca_error
| doca_dma_task_memcpy_alloc_init (dma src dst : Z) : call (doca_error * Z)
| doca_dma_task_memcpy_alloc_init_with (dma src dst user_data : Z) : call (doca_error * Z)
| doca_dma_task_memcpy_get_src (task : Z) : call Z
| doca_dma_task_memcpy_get_dst (task : Z) : call Z
| doca_dma_task_memcpy_set_src (task buf : Z) : call unit
| doca_dma_task_memcpy_set_dst (task buf : Z) : call unit
(* comm channel *)
| doca_comch_cap_get_max_msg_size (devinfo : Z) : call (doca_error * Z)
| doca_comch_cap_server_is_supported (devinfo : Z) : call doca_error
| doca_comch_cap_client_is_supported (devinfo : Z) : call doca_error
| doca_comch_server_create (dev rep : Z) (name : list Z) : call (doca_error * Z)
| doca_comch_server_destroy (server : Z) : call doca_error
| doca_comch_server_set_max_msg_size (server size : Z) : call doca_error
| doca_comch_server_as_ctx (server : Z) : call Z
| doca_comch_server_task_send_set_conf (server num : Z) : call doca_error
| doca_comch_server_event_msg_recv_register (server cb : Z) : call doca_error
| doca_comch_server_event_connection_status_changed_register (server : Z) : call doca_error
| doca_comch_server_event_consumer_register (server new_cb expired_cb : Z) : call doca_error
| doca_comch_server_disconnect (server conn : Z) : call doca_error
| doca_comch_server_get_server_ctx (conn : Z) : call Z
| doca_comch_server_task_send_alloc_init (server conn : Z) (msg : list Z) : call (doca_error * Z)
| doca_comch_client_create (dev : Z) (name : list Z) : call (doca_error * Z)
| doca_comch_client_destroy (client : Z) : call doca_error
| doca_comch_client_set_max_msg_size (client size : Z) : call doca_error
| doca_comch_client_as_ctx (client : Z) : call Z
| doca_comch_client_task_send_set_conf (client num : Z) : call doca_error
| doca_comch_client_event_msg_recv_register (client cb : Z) : call doca_error
| doca_comch_client_event_consumer_register (client new_cb expired_cb : Z) : call doca_error
| doca_comch_client_get_connection (client : Z) : call (doca_error * Z)
| doca_comch_client_task_send_alloc_init (client conn : Z) (msg : list Z) : call (doca_error * Z)
| doca_comch_connection_set_user_data (conn data : Z) : call doca_error
| doca_comch_connection_get_user_data (conn : Z) : call Z
(* command line and log *)
| doca_argp_init (name : string) : call doca_error
| doca_argp_start : call (doca_error * list (string * arg_value))
| doca_argp_destroy : call doca_error
| doca_argp_param_create : call (doca_error * Z)
| doca_argp_param_set_short_name (param : Z) (name : string) : call unit
| doca_argp_param_set_long_name (param : Z) (name : string) : call unit
| doca_argp_param_set_description (param : Z) (text : string) : call unit
| doca_argp_param_set_callback (param : Z) (callback : string) : call unit
| doca_argp_param_set_type (param : Z) (is_int : bool) : call unit
| doca_argp_param_set_mandatory (param : Z) : call unit
| doca_argp_register_param (param : Z) : call doca_error
| doca_argp_register_validation_callback : call doca_error
| doca_argp_register_version_callback : call doca_error
| doca_log_backend_create_standard : call doca_error
| doca_log_backend_create_with_file_sdk : call (doca_error * Z)
| doca_log_backend_set_sdk_level (log : Z) : call doca_error.

(** ** Programs *)

Inductive prog (R : Type) : Type :=
| Pure (r : R)
| Call {X : Type} (c : call X) (k : X -> prog R)
| Crash
| Spin.
Arguments Pure {R} r.
Arguments Call {R X} c k.
Arguments Crash {R}.
Arguments Spin {R}.

Fixpoint prog_bind {A B} (f : A -> prog B) (p : prog A) : prog B :=
  match p with
  | Pure a => f a
  | Call c k => Call c (fun x => prog_bind f (k x))
  | Crash => Crash
  | Spin => Spin
  end.

#[export] Instance prog_mret : MRet prog := @Pure.
#[export] Instance prog_mbind : MBind prog := @prog_bind.

(** A single call as a program. *)
Definition invoke {X} (c : call X) : prog X := Call c Pure.

(** A call whose answer is ignored. *)
Definition invoke_ {X} (c : call X) : prog unit := Call c (fun _ => Pure tt).

(** A computation on memory as a program; those used here never exit. *)
Definition of_res {A} (r : res A) : prog A :=
  match r with Ret a => Pure a | NoFuel => Spin | UB | Exit _ _ => Crash end.

Definition EXIT_SUCCESS : Z := 0.
Definition EXIT_FAILURE : Z := 1.

(** [struct timespec]; its fields are 64-bit and far from overflow. *)
Record timespec := Timespec { tv_sec : Z; tv_nsec : Z }.
Definition time_zero : timespec := Timespec 0 0.

(** ** Executions *)

Inductive event :=
| Ev {X : Type} (c : call X) (x : X).
Abbreviation trace := (list event).

(** An oracle answers a call, given everything that happened before. *)
Definition oracle := forall X, trace -> call X -> X.

Fixpoint run {R} (o : oracle) (p : prog R) (tr : trace) : res R * trace :=
  match p with
  | Pure r => (Ret r, tr)
  | Call c k => let x := o _ tr c in run o (k x) (tr ++ [Ev c x])
  | Crash => (UB, tr)
  | Spin => (NoFuel, tr)
  end.

(** ** Resources

    What a call acquires when it succeeds, and what a call gives back. Tasks
    are not counted: a submitted task belongs to the library until it
    completes. *)
Inductive kind :=
| KMemory | KFile | KDevList | KDev | KRepList | KRep | KMmap | KInventory | KBuf | KPe | KDma
| KServer | KClient | KArgp
| KNote. (* not a resource: a note that a proof takes of a block *)

#[export] Instance kind_eq_dec : EqDecision kind.
Proof. solve_decision. Defined.

Abbreviation resource := (kind * Z)%type.

Definition got (k : kind) (r : doca_error * Z) : list resource := if ok r.1 then [(k, r.2)] else [].

Definition non_null (k : kind) (p : Z) : list resource := if p =? 0 then [] else [(k, p)].

Definition acquires_of {X} (c : call X) : X -> list resource :=
  match c in call X return X -> list resource with
  | malloc _ => non_null KMemory
  | calloc _ _ => non_null KMemory
  | memalign _ _ => non_null KMemory
  | fopen _ => non_null KFile
  | fopen_write _ => non_null KFile
  | doca_devinfo_create_list => fun r => if ok r.1 then [(KDevList, r.2.1)] else []
  | doca_devinfo_rep_create_list _ => fun r => if ok r.1 then [(KRepList, r.2.1)] else []
  | doca_dev_open _ => got KDev
  | doca_dev_rep_open _ => got KRep
  | doca_mmap_create => got KMmap
  | doca_mmap_create_from_export _ _ => got KMmap
  | doca_buf_inventory_create _ => got KInventory
  | doca_buf_inventory_buf_get_by_addr _ _ _ _ => got KBuf
  | doca_buf_inventory_buf_get_by_data _ _ _ _ => got KBuf
  | doca_pe_create => got KPe
  | doca_dma_create _ => got KDma
  | doca_comch_server_create _ _ _ => got KServer
  | doca_comch_client_create _ _ => got KClient
  | doca_argp_init _ => fun e => if ok e then [(KArgp, 1)] else []
  | _ => fun _ => []
  end.

Definition releases_of {X} (c : call X) : list resource :=
  match c with
  | free p => non_null KMemory p
  | fclose f => [(KFile, f)]
  | doca_devinfo_destroy_list l => [(KDevList, l)]
  | doca_devinfo_rep_destroy_list l => [(KRepList, l)]
  | doca_dev_close d => [(KDev, d)]
  | doca_dev_rep_close r => [(KRep, r)]
  | doca_mmap_destroy m => [(KMmap, m)]
  | doca_buf_inventory_destroy i => [(KInventory, i)]
  | doca_buf_dec_refcount b => [(KBuf, b)]
  | doca_pe_destroy p => [(KPe, p)]
  | doca_dma_destroy d => [(KDma, d)]
  | doca_comch_server_destroy s => [(KServer, s)]
  | doca_comch_client_destroy c => [(KClient, c)]
  | doca_argp_destroy => [(KArgp, 1)]
  | _ => []
  end.

Definition acquires (tr : trace) : list resource :=
  tr ≫= fun e => match e with Ev c x => acquires_of c x end.
Definition releases (tr : trace) : list resource :=
  tr ≫= fun e => match e with Ev c _ => releases_of c end.

(** Documented behaviour the code relies on: a successful creation or open
    yields a non-NULL object. *)
Definition documented {X} (c : call X) : X -> Prop :=
  match c in call X return X -> Prop with
  | doca_dev_open _ => fun r => r.1 = DOCA_SUCCESS -> r.2 <> 0
  | doca_mmap_create => fun r => r.1 = DOCA_SUCCESS -> r.2 <> 0
  | doca_mmap_create_from_export _ _ => fun r => r.1 = DOCA_SUCCESS -> r.2 <> 0
  | doca_buf_inventory_create _ => fun r => r.1 = DOCA_SUCCESS -> r.2 <> 0
  | doca_pe_create => fun r => r.1 = DOCA_SUCCESS -> r.2 <> 0
  | doca_dma_create _ => fun r => r.1 = DOCA_SUCCESS -> r.2 <> 0
  | _ => fun _ => True
  end.

Definition documented_oracle (o : oracle) : Prop := forall X tr (c : call X), documented c (o X tr c).

(** ** Weakest preconditions

    [wp p tr Q]: whatever documented answers the calls of [p] get, [p] has no
    undefined behaviour, and when it ends it ends with [Q] of the whole trace
    and the result. Running out of fuel is excluded by other theorems. *)
Fixpoint wp {R} (p : prog R) (tr : trace) (Q : trace -> R -> Prop) : Prop :=
  match p with
  | Pure r => Q tr r
  | Call c k => forall x, documented c x -> wp (k x) (tr ++ [Ev c x]) Q
  | Crash => False
  | Spin => True
  end.

Lemma wp_run {R} (o : oracle) (p : prog R) Q : documented_oracle o -> forall tr,
  wp p tr Q ->
  match run o p tr with
  | (Ret r, tr') => Q tr' r
  | (NoFuel, _) => True
  | _ => False
  end.
Proof.
  intros Ho. induction p as [r|X c k IH| |]; intros tr H; simpl in *; try done.
  apply IH, H, Ho.
Qed.

Lemma wp_bind {A B} (p : prog A) (f : A -> prog B) Q : forall tr,
  wp p tr (fun tr' a => wp (f a) tr' Q) -> wp (p ≫= f) tr Q.
Proof. induction p as [r|X c k IH| |]; intros tr H; simpl in *; auto. Qed.

Lemma wp_mono {R} (p : prog R) (Q Q' : trace -> R -> Prop) : forall tr,
  wp p tr Q -> (forall tr r, Q tr r -> Q' tr r) -> wp p tr Q'.
Proof. induction p as [r|X c k IH| |]; intros tr H HQ; simpl in *; eauto. Qed.

Lemma wp_bind_mono {A B} (p : prog A) (f : A -> prog B) (P : trace -> A -> Prop) Q tr :
  wp p tr P -> (forall tr a, P tr a -> wp (f a) tr Q) -> wp (p ≫= f) tr Q.
Proof. intros Hp Hf. apply wp_bind. by eapply wp_mono. Qed.

(** ** Traces *)

Lemma acquires_app tr1 tr2 : acquires (tr1 ++ tr2) = acquires tr1 ++ acquires tr2.
Proof. apply bind_app. Qed.

Lemma releases_app tr1 tr2 : releases (tr1 ++ tr2) = releases tr1 ++ releases tr2.
Proof. apply bind_app. Qed.

Lemma acquires_snoc {X} tr (c : call X) x :
  acquires (tr ++ [Ev c x]) = acquires tr ++ acquires_of c x.
Proof. rewrite acquires_app. unfold acquires at 2. simpl. by rewrite app_nil_r. Qed.

Lemma releases_snoc {X} tr (c : call X) x :
  releases (tr ++ [Ev c x]) = releases tr ++ releases_of c.
Proof. rewrite releases_app. unfold releases at 2. simpl. by rewrite app_nil_r. Qed.

Create Rewrite HintDb trace.
#[export] Hint Rewrite @acquires_snoc @releases_snoc @acquires_app @releases_app : trace.

Lemma ok_true e : ok e = true <-> e = DOCA_SUCCESS.
Proof. unfold ok. by rewrite bool_decide_eq_true. Qed.

Lemma ok_spec e : reflect (e = DOCA_SUCCESS) (ok e).
Proof. unfold ok. apply bool_decide_reflect. Qed.

(** ** A well-behaved oracle

    Every call succeeds and every object is new; the events a progress engine
    delivers and the states of contexts are chosen by the caller. It shows
    that [documented_oracle] can be met, and runs the programs in examples. *)
Definition all_ok (events : trace -> list pe_event) (states : trace -> doca_ctx_state) : oracle :=
  fun X tr c =>
  let fresh := Z.of_nat (length tr) + 1 in
  match c in call X return X with
  | malloc _ => fresh
  | calloc _ _ => fresh
  | memalign _ _ => fresh
  | free _ => tt
  | fopen _ => fresh
  | fopen_write _ => fresh
  | fseek _ _ => 0
  | ftell _ => fresh
  | fread _ _ => []
  | fwrite _ bytes => Z.of_nat (length bytes)
  | fprintf _ text => Z.of_nat (length text)
  | fgets _ _ => Some [49]
  | fclose _ => 0
  | clock_gettime => Some (0, 0)
  | nanosleep => tt
  | socket => fresh
  | bind _ _ => 0
  | listen _ _ => 0
  | accept _ => fresh
  | connect _ _ _ => 0
  | close _ => 0
  | doca_devinfo_create_list => (DOCA_SUCCESS, (fresh, [7; 8]))
  | doca_devinfo_destroy_list _ => DOCA_SUCCESS
  | doca_devinfo_is_equal_pci_addr _ _ => (DOCA_SUCCESS, fresh)
  | doca_devinfo_get_ibdev_name _ _ => (DOCA_SUCCESS, [1; 2; 3])
  | doca_devinfo_get_iface_name _ _ => (DOCA_SUCCESS, [1; 2; 3])
  | doca_dev_open _ => (DOCA_SUCCESS, fresh)
  | doca_dev_close _ => DOCA_SUCCESS
  | doca_dev_as_devinfo _ => fresh
  | doca_devinfo_rep_create_list _ => (DOCA_SUCCESS, (fresh, [7; 8]))
  | doca_devinfo_rep_destroy_list _ => DOCA_SUCCESS
  | doca_devinfo_rep_get_vuid _ _ => (DOCA_SUCCESS, [1; 2; 3])
  | doca_devinfo_rep_is_equal_pci_addr _ _ => (DOCA_SUCCESS, fresh)
  | doca_dev_rep_open _ => (DOCA_SUCCESS, fresh)
  | doca_dev_rep_close _ => DOCA_SUCCESS
  | doca_mmap_create => (DOCA_SUCCESS, fresh)
  | doca_mmap_destroy _ => DOCA_SUCCESS
  | doca_mmap_add_dev _ _ => DOCA_SUCCESS
  | doca_mmap_set_permissions _ _ => DOCA_SUCCESS
  | doca_mmap_set_memrange _ _ _ => DOCA_SUCCESS
  | doca_mmap_start _ => DOCA_SUCCESS
  | doca_mmap_stop _ => DOCA_SUCCESS
  | doca_mmap_export_pci _ _ => (DOCA_SUCCESS, [1; 2; 3])
  | doca_mmap_create_from_export _ _ => (DOCA_SUCCESS, fresh)
  | doca_buf_inventory_create _ => (DOCA_SUCCESS, fresh)
  | doca_buf_inventory_start _ => DOCA_SUCCESS
  | doca_buf_inventory_stop _ => DOCA_SUCCESS
  | doca_buf_inventory_destroy _ => DOCA_SUCCESS
  | doca_buf_inventory_buf_get_by_addr _ _ _ _ => (DOCA_SUCCESS, fresh)
  | doca_buf_inventory_buf_get_by_data _ _ _ _ => (DOCA_SUCCESS, fresh)
  | doca_buf_dec_refcount _ => DOCA_SUCCESS
  | doca_buf_get_data _ => (DOCA_SUCCESS, fresh)
  | doca_buf_set_data _ _ _ => DOCA_SUCCESS
  | doca_pe_create => (DOCA_SUCCESS, fresh)
  | doca_pe_destroy _ => DOCA_SUCCESS
  | doca_pe_progress _ => (1, events tr)
  | doca_pe_connect_ctx _ _ => DOCA_SUCCESS
  | doca_ctx_start _ => DOCA_SUCCESS
  | doca_ctx_stop _ => DOCA_SUCCESS
  | doca_ctx_get_state _ => (DOCA_SUCCESS, states tr)
  | doca_ctx_set_user_data _ _ => DOCA_SUCCESS
  | doca_ctx_get_user_data _ => (DOCA_SUCCESS, fresh)
  | doca_task_submit _ => DOCA_SUCCESS
  | doca_task_free _ => tt
  | doca_task_get_status _ => DOCA_SUCCESS
  | doca_task_set_user_data _ _ => tt
  | doca_dma_create _ => (DOCA_SUCCESS, fresh)
  | doca_dma_destroy _ => DOCA_SUCCESS
  | doca_dma_as_ctx _ => fresh
  | doca_dma_cap_task_memcpy_is_supported _ => DOCA_SUCCESS
  | doca_dma_cap_task_memcpy_get_max_buf_size _ => (DOCA_SUCCESS, fresh)
  | doca_dma_task_memcpy_set_conf _ _ => DOCA_SUCCESS
  | doca_dma_task_memcpy_alloc_init _ _ _ => (DOCA_SUCCESS, fresh)
  | doca_dma_task_memcpy_alloc_init_with _ _ _ _ => (DOCA_SUCCESS, fresh)
  | doca_dma_task_memcpy_get_src _ => fresh
  | doca_dma_task_memcpy_get_dst _ => fresh
  | doca_dma_task_memcpy_set_src _ _ => tt
  | doca_dma_task_memcpy_set_dst _ _ => tt
  | doca_comch_cap_get_max_msg_size _ => (DOCA_SUCCESS, fresh)
  | doca_comch_cap_server_is_supported _ => DOCA_SUCCESS
  | doca_comch_cap_client_is_supported _ => DOCA_SUCCESS
  | doca_comch_server_create _ _ _ => (DOCA_SUCCESS, fresh)
  | doca_comch_server_destroy _ => DOCA_SUCCESS
  | doca_comch_server_set_max_msg_size _ _ => DOCA_SUCCESS
  | doca_comch_server_as_ctx _ => fresh
  | doca_comch_server_task_send_set_conf _ _ => DOCA_SUCCESS
  | doca_comch_server_event_msg_recv_register _ _ => DOCA_SUCCESS
  | doca_comch_server_event_connection_status_changed_register _ => DOCA_SUCCESS
  | doca_comch_server_event_consumer_register _ _ _ => DOCA_SUCCESS
  | doca_comch_server_disconnect _ _ => DOCA_SUCCESS
  | doca_comch_server_get_server_ctx _ => fresh
  | doca_comch_server_task_send_alloc_init _ _ _ => (DOCA_SUCCESS, fresh)
  | doca_comch_client_create _ _ => (DOCA_SUCCESS, fresh)
  | doca_comch_client_destroy _ => DOCA_SUCCESS
  | doca_comch_client_set_max_msg_size _ _ => DOCA_SUCCESS
  | doca_comch_client_as_ctx _ => fresh
  | doca_comch_client_task_send_set_conf _ _ => DOCA_SUCCESS
  | doca_comch_client_event_msg_recv_register _ _ => DOCA_SUCCESS
  | doca_comch_client_event_consumer_register _ _ _ => DOCA_SUCCESS
  | doca_comch_client_get_connection _ => (DOCA_SUCCESS, fresh)
  | doca_comch_client_task_send_alloc_init _ _ _ => (DOCA_SUCCESS, fresh)
  | doca_comch_connection_set_user_data _ _ => DOCA_SUCCESS
  | doca_comch_connection_get_user_data _ => fresh
  | doca_argp_init _ => DOCA_SUCCESS
  | doca_argp_start => (DOCA_SUCCESS, [])
  | doca_argp_destroy => DOCA_SUCCESS
  | doca_argp_param_create => (DOCA_SUCCESS, fresh)
  | doca_argp_param_set_short_name _ _ => tt
  | doca_argp_param_set_long_name _ _ => tt
  | doca_argp_param_set_description _ _ => tt
  | doca_argp_param_set_callback _ _ => tt
  | doca_argp_param_set_type _ _ => tt
  | doca_argp_param_set_mandatory _ => tt
  | doca_argp_register_param _ => DOCA_SUCCESS
  | doca_argp_register_validation_callback => DOCA_SUCCESS
  | doca_argp_register_version_callback => DOCA_SUCCESS
  | doca_log_backend_create_standard => DOCA_SUCCESS
  | doca_log_backend_create_with_file_sdk => (DOCA_SUCCESS, fresh)
  | doca_log_backend_set_sdk_level _ => DOCA_SUCCESS
  end.

Lemma all_ok_documented events states : documented_oracle (all_ok events states).
Proof. intros X tr c. destruct c; simpl; intros; done || lia. Qed.

(** * Programs against a library with a state *)

Class Library (G : Type) := {
  lib_step : forall {X}, G -> call X -> X -> G;
  lib_ok : forall {X}, G -> call X -> X -> Prop
}.

Section logic.
Context {G : Type} `{Library G}.

(** The library state after a history. *)
Definition lib_after (g : G) (tr : trace) : G :=
  foldl (fun g e => match e with Ev c x => lib_step g c x end) g tr.

(** An oracle whose answers the contract allows, from the library state [g] on. *)
Definition follows (g : G) (o : oracle) : Prop :=
  forall X tr (c : call X), lib_ok (lib_after g tr) c (o X tr c).

Fixpoint gwp {R} (spin : Prop) (p : prog R) (g : G) (Q : G -> R -> Prop) : Prop :=
  match p with
  | Pure r => Q g r
  | Call c k => forall x, lib_ok g c x -> gwp spin (k x) (lib_step g c x) Q
  | Crash => False
  | Spin => spin
  end.

Lemma gwp_mono {R} spin (p : prog R) (Q Q' : G -> R -> Prop) : forall g,
  gwp spin p g Q -> (forall g r, Q g r -> Q' g r) -> gwp spin p g Q'.
Proof. induction p as [r|X c k IH| |]; intros g Hp HQ; simpl in *; eauto. Qed.

Lemma gwp_bind {A B} spin (p : prog A) (f : A -> prog B) Q : forall g,
  gwp spin p g (fun g a => gwp spin (f a) g Q) -> gwp spin (p ≫= f) g Q.
Proof. induction p as [r|X c k IH| |]; intros g Hp; simpl in *; eauto. Qed.

(** Calling a function with a specification. *)
Lemma gwp_call {A B} spin (p : prog A) (f : A -> prog B) (P : G -> A -> Prop) Q g :
  gwp spin p g P -> (forall g a, P g a -> gwp spin (f a) g Q) -> gwp spin (p ≫= f) g Q.
Proof. intros Hp Hf. apply gwp_bind. by eapply gwp_mono. Qed.

Lemma gwp_spin {R} (spin spin' : Prop) (p : prog R) Q : (spin -> spin') -> forall g,
  gwp spin p g Q -> gwp spin' p g Q.
Proof. intros Hs. induction p as [r|X c k IH| |]; intros g Hp; simpl in *; eauto. Qed.

Lemma gwp_run {R} spin (g : G) (o : oracle) (p : prog R) Q : follows g o -> forall tr,
  gwp spin p (lib_after g tr) Q ->
  match run o p tr with
  | (Ret r, tr') => Q (lib_after g tr') r
  | (NoFuel, _) => spin
  | _ => False
  end.
Proof.
  intros Ho. induction p as [r|X c k IH| |]; intros tr Hp; simpl in *; try done.
  apply IH. unfold lib_after. rewrite foldl_app. simpl. by apply Hp, Ho.
Qed.
End logic.

(** Allowed answers of straight-line code. *)
Ltac gwp_simpl := cbn [mbind prog_mbind prog_bind invoke invoke_].
Ltac gwp_ask x H := gwp_simpl; cbn [gwp]; intros x H; cbn [lib_ok lib_step] in *.
