(* ===== verification/Ownership.v ===== *)
(** * Ownership: who holds which library object

    A small program logic for the resource discipline of the DOCA programs.
    [held pre tr post] replays a trace on the multiset of held resources: a
    call adds what it acquired, and may only give back what is held, so that
    a trace with a double release or a release of something never acquired
    has no replay. [lin M p pre post] states that every documented execution of
    [p] from the resources [pre] replays, has no undefined behaviour, and ends
    with resources as [post] says of the result. The mode [M] says whether it
    may run out of fuel, and which messages the peer may send; [lin total]
    includes termination for any messages. A mode that keeps notes also writes
    down every block that [malloc] returns, so that what is held at the end can
    be compared with all that was allocated. *)

From S2P Require Import Prelude.
From S2P Require Import Doca.

(** ** Replaying a trace *)

Inductive held : list resource -> trace -> list resource -> Prop :=
| held_nil pre post : pre ≡ₚ post -> held pre [] post
| held_cons {X} (c : call X) (x : X) pre mid tr post :
    pre ++ acquires_of c x ≡ₚ releases_of c ++ mid ->
    held mid tr post -> held pre (Ev c x :: tr) post.

(** Every acquisition is given back once or still held at the end. *)
Lemma held_balance pre tr post : held pre tr post -> pre ++ acquires tr ≡ₚ releases tr ++ post.
Proof.
  induction 1 as [pre post Hp|X c x pre mid tr post Hm _ IH].
  - unfold acquires, releases. simpl. by rewrite app_nil_r.
  - unfold acquires, releases in *. rewrite !bind_cons.
    rewrite (assoc_L (++)), Hm, <- !(assoc_L (++)). f_equiv. done.
Qed.

Lemma held_app pre tr1 mid tr2 post :
  held pre tr1 mid -> held mid tr2 post -> held pre (tr1 ++ tr2) post.
Proof.
  induction 1 as [pre mid Hp|X c x pre m tr mid Hm _ IH]; intros H; simpl.
  - destruct H as [pre' post Hp'|X c x mid m tr post Hm H].
    + constructor. by rewrite Hp.
    + econstructor; [|done]. by rewrite Hp.
  - econstructor; [done|]. by apply IH.
Qed.

Lemma held_frame pre tr post F : held pre tr post -> held (pre ++ F) tr (post ++ F).
Proof.
  induction 1 as [pre post Hp|X c x pre mid tr post Hm _ IH].
  - constructor. by rewrite Hp.
  - econstructor; [|exact IH]. rewrite (assoc_L (++)), <- Hm, <- !(assoc_L (++)). f_equiv.
    apply Permutation_app_comm.
Qed.

Lemma held_perm pre tr post post' : post ≡ₚ post' -> held pre tr post -> held pre tr post'.
Proof. intros Hp H. rewrite <- (app_nil_r tr). eapply held_app; [done|by constructor]. Qed.

(** ** The logic *)

(** What an execution may rely on: when running out of fuel is excused, and
    what the messages of the peer look like; and whether the blocks that
    [malloc] returns are noted. *)
Record mode := NotingMode { may_spin : Prop; msg_ok : list Z -> Prop; noted : bool }.

Abbreviation Mode P m := (NotingMode P m false).

(** Any messages. *)
Abbreviation plain P := (Mode P (fun _ => True)).
Abbreviation total := (plain False).
Abbreviation partial := (plain True).

Definition event_ok (ok_msg : list Z -> Prop) (e : pe_event) : Prop :=
  match e with EvMessage _ bytes => ok_msg bytes | _ => True end.

Definition assumed (M : mode) {X} (c : call X) : X -> Prop :=
  match c in call X return X -> Prop with
  | doca_pe_progress _ => fun r => Forall (event_ok (msg_ok M)) r.2
  | _ => fun _ => True
  end.

Definition assumed_oracle (M : mode) (o : oracle) : Prop :=
  forall X tr (c : call X), assumed M c (o X tr c).

Lemma plain_oracle P o : assumed_oracle (plain P) o.
Proof. intros X tr c. destruct c; simpl; try done. by apply Forall_true; intros []. Qed.

(** A note of a block. It is never given back. *)
Definition note (M : mode) (p : Z) : list resource := if noted M then non_null KNote p else [].

(** What a call acquires, and the notes taken of it. *)
Definition takes (M : mode) {X} (c : call X) : X -> list resource :=
  match c in call X return X -> list resource with
  | malloc _ => fun p => non_null KMemory p ++ note M p
  | c => acquires_of c
  end.

Lemma takes_plain {M : mode} {X} (c : call X) x : noted M = false -> takes M c x = acquires_of c x.
Proof. intros Hn. destruct c; simpl; try done. unfold note. by rewrite Hn, app_nil_r. Qed.

(** Replaying a trace with the notes of the mode. *)
Inductive held_in (M : mode) : list resource -> trace -> list resource -> Prop :=
| held_in_nil pre post : pre ≡ₚ post -> held_in M pre [] post
| held_in_cons {X} (c : call X) (x : X) pre mid tr post :
    pre ++ takes M c x ≡ₚ releases_of c ++ mid ->
    held_in M mid tr post -> held_in M pre (Ev c x :: tr) post.

Lemma held_in_plain {M : mode} pre tr post : noted M = false -> held_in M pre tr post -> held pre tr post.
Proof.
  intros Hn. induction 1 as [pre post Hp|X c x pre mid tr post Hm _ IH]; [by constructor|].
  econstructor; [|done]. by rewrite <- (takes_plain c x Hn).
Qed.

(** The resources without the notes, and the blocks noted. *)
Definition is_note (r : resource) : bool := bool_decide (r.1 = KNote).
Definition real (rs : list resource) : list resource := List.filter (negb ∘ is_note) rs.
Definition notes (rs : list resource) : list Z := (List.filter is_note rs).*2.

(** The blocks that [malloc] returned. *)
Definition malloc_of {X} (c : call X) : X -> list Z :=
  match c in call X return X -> list Z with
  | malloc _ => fun p => if p =? 0 then [] else [p]
  | _ => fun _ => []
  end.
Definition mallocs (tr : trace) : list Z := tr ≫= fun e => match e with Ev c x => malloc_of c x end.

(** The memory blocks at some addresses. *)
Abbreviation blocks ps := (map (pair KMemory) ps).

Lemma filter_Permutation (f : resource -> bool) rs rs' :
  rs ≡ₚ rs' -> List.filter f rs ≡ₚ List.filter f rs'.
Proof.
  induction 1 as [|a l l' _ IH|a b l|l l' l'' _ IH1 _ IH2]; simpl; [done| | |by etransitivity];
    repeat destruct (f _); try done; [by f_equiv|apply Permutation_swap].
Qed.

#[export] Instance real_proper : Proper ((≡ₚ) ==> (≡ₚ)) real.
Proof. intros rs rs'. apply filter_Permutation. Qed.

#[export] Instance notes_proper : Proper ((≡ₚ) ==> (≡ₚ)) notes.
Proof. intros rs rs' Hp. unfold notes. by rewrite (filter_Permutation is_note _ _ Hp). Qed.

Lemma real_app rs rs' : real (rs ++ rs') = real rs ++ real rs'.
Proof. apply List.filter_app. Qed.

Lemma notes_app rs rs' : notes (rs ++ rs') = notes rs ++ notes rs'.
Proof. unfold notes. by rewrite List.filter_app, fmap_app. Qed.

Lemma notes_none rs : notes rs = [] -> real rs = rs.
Proof.
  unfold notes, real. induction rs as [|r rs IH]; [done|]. simpl. destruct (is_note r); [done|].
  intros H. simpl. by rewrite IH.
Qed.

Lemma real_takes {M : mode} {X} (c : call X) x : real (takes M c x) = acquires_of c x.
Proof.
  destruct c; simpl; try destruct x; unfold note, got, non_null; simpl;
    repeat case_match; done.
Qed.

Lemma notes_takes {M : mode} {X} (c : call X) x : noted M = true -> notes (takes M c x) = malloc_of c x.
Proof.
  intros Hn. destruct c; simpl; try destruct x; unfold note, got, non_null; simpl; rewrite ?Hn;
    repeat case_match; done.
Qed.

Lemma releases_real {X} (c : call X) : real (releases_of c) = releases_of c /\ notes (releases_of c) = [].
Proof. destruct c; simpl; unfold non_null; repeat case_match; done. Qed.

(** Without the notes it is an ordinary replay, and the notes are the blocks
    allocated on the way. *)
Lemma held_in_real {M : mode} pre tr post : held_in M pre tr post -> held (real pre) tr (real post).
Proof.
  induction 1 as [pre post Hp|X c x pre mid tr post Hm _ IH]; [by constructor; rewrite Hp|].
  econstructor; [|exact IH]. apply real_proper in Hm. revert Hm.
  by rewrite !real_app, real_takes, (proj1 (releases_real c)).
Qed.

Lemma held_in_notes {M : mode} pre tr post : noted M = true -> held_in M pre tr post ->
  notes pre ++ mallocs tr ≡ₚ notes post.
Proof.
  intros Hn. induction 1 as [pre post Hp|X c x pre mid tr post Hm _ IH].
  - simpl. by rewrite app_nil_r, Hp.
  - apply notes_proper in Hm. revert Hm. rewrite !notes_app, notes_takes, (proj2 (releases_real c)) by done.
    simpl. intros Hm. by rewrite <- IH, <- Hm, (assoc_L (++)).
Qed.

Fixpoint lin {R} (M : mode) (p : prog R) (pre : list resource) (post : R -> list resource -> Prop) : Prop :=
  match p with
  | Pure r => exists rs, pre ≡ₚ rs /\ post r rs
  | Call c k => forall x, documented c x -> assumed M c x ->
      exists mid, pre ++ takes M c x ≡ₚ releases_of c ++ mid /\ lin M (k x) mid post
  | Crash => False
  | Spin => may_spin M
  end.

Lemma lin_perm {M : mode} {R} (p : prog R) post : forall pre pre',
  pre ≡ₚ pre' -> lin M p pre post -> lin M p pre' post.
Proof.
  induction p as [r|X c k IH| |]; intros pre pre' Hp H; simpl in *; try done.
  - destruct H as (rs & Hrs & H). exists rs. by rewrite <- Hp.
  - intros x Hx Hy. destruct (H x Hx Hy) as (mid & Hm & Hk). exists mid. by rewrite <- Hp.
Qed.

#[export] Instance lin_proper {R} (M : mode) (p : prog R) :
  Proper ((≡ₚ) ==> eq ==> iff) (lin M p).
Proof. intros pre pre' Hp post _ <-. split; by apply lin_perm. Qed.

Lemma lin_mono {M : mode} {R} (p : prog R) (post post' : R -> list resource -> Prop) : forall pre,
  lin M p pre post -> (forall r rs, post r rs -> post' r rs) -> lin M p pre post'.
Proof.
  induction p as [r|X c k IH| |]; intros pre H Hpost; simpl in *; try done.
  - destruct H as (rs & Hrs & H). eauto.
  - intros x Hx Hy. destruct (H x Hx Hy) as (mid & Hm & Hk). eauto.
Qed.

(** A mode that excuses more, or relies on more. *)
Lemma lin_weaken {M M' : mode} {R} (p : prog R) post :
  (may_spin M -> may_spin M') -> (forall m, msg_ok M' m -> msg_ok M m) -> noted M = noted M' ->
  forall pre, lin M p pre post -> lin M' p pre post.
Proof.
  intros HS Hm Hn. induction p as [r|X c k IH| |]; intros pre H; simpl in *; try done; [|by apply HS].
  intros x Hx Hy. assert (assumed M c x) as Hz.
  { destruct c; simpl in *; try done. eapply Forall_impl; [exact Hy|]. intros []; simpl; auto. }
  destruct (H x Hx Hz) as (mid & Hmid & Hk). exists mid. split; [|by apply IH].
  rewrite <- Hmid. by destruct c; simpl; unfold note; rewrite ?Hn.
Qed.

Lemma lin_bind {M : mode} {A B} (p : prog A) (f : A -> prog B) post : forall pre,
  lin M p pre (fun a rs => lin M (f a) rs post) -> lin M (p ≫= f) pre post.
Proof.
  induction p as [r|X c k IH| |]; intros pre H; simpl in *; try done.
  - destruct H as (rs & Hrs & H). by rewrite Hrs.
  - intros x Hx Hy. destruct (H x Hx Hy) as (mid & Hm & Hk). eauto.
Qed.

Lemma lin_frame {M : mode} {R} (p : prog R) post F : forall pre,
  lin M p pre post -> lin M p (pre ++ F) (fun r rs => exists rs', rs ≡ₚ rs' ++ F /\ post r rs').
Proof.
  induction p as [r|X c k IH| |]; intros pre H; simpl in *; try done.
  - destruct H as (rs & Hrs & H). exists (rs ++ F). rewrite Hrs. eauto.
  - intros x Hx Hy. destruct (H x Hx Hy) as (mid & Hm & Hk). exists (mid ++ F). split; [|by apply IH].
    rewrite (assoc_L (++)), <- Hm, <- !(assoc_L (++)). f_equiv. apply Permutation_app_comm.
Qed.

(** Calling a function specified on its own, with [F] held aside. *)
Lemma lin_call_fn {M : mode} {A B} (p : prog A) (f : A -> prog B) pre F post' post rs :
  lin M p pre post' -> rs ≡ₚ pre ++ F ->
  (forall a rs', post' a rs' -> lin M (f a) (rs' ++ F) post) -> lin M (p ≫= f) rs post.
Proof.
  intros Hp Hrs Hf. rewrite Hrs. apply lin_bind. eapply lin_mono; [by apply lin_frame|].
  intros a r (rs' & Hr & Ha). rewrite Hr. by apply Hf.
Qed.

(** ** Rules for single calls *)

(** A call that gives nothing back. *)
Lemma lin_acquire {M : mode} {R X} (c : call X) (k : X -> prog R) pre post :
  releases_of c = [] ->
  (forall x, documented c x -> assumed M c x -> lin M (k x) (takes M c x ++ pre) post) ->
  lin M (Call c k) pre post.
Proof.
  intros Hr Hk x Hx Hy. exists (takes M c x ++ pre). rewrite Hr. split; [|by apply Hk].
  simpl. apply Permutation_app_comm.
Qed.

(** A call that gives back one resource. *)
Lemma lin_release {M : mode} {R X} (c : call X) (k : X -> prog R) a pre mid post :
  releases_of c = [a] -> (forall x, takes M c x = []) -> pre ≡ₚ a :: mid ->
  (forall x, documented c x -> lin M (k x) mid post) ->
  lin M (Call c k) pre post.
Proof.
  intros Hr Ha Hp Hk x Hx _. exists mid. rewrite Hr, Ha, app_nil_r. split; [done|by apply Hk].
Qed.

Lemma lin_pure {M : mode} {R} (r : R) pre post : post r pre -> lin M (Pure r) pre post.
Proof. intros H. by exists pre. Qed.

(** A program that neither acquires nor gives back anything. *)
Definition quiet {R} (M : mode) (p : prog R) : Prop := lin M p [] (fun _ rs => rs = []).

Lemma lin_quiet {M : mode} {A B} (p : prog A) (f : A -> prog B) pre post :
  quiet M p -> (forall a, lin M (f a) pre post) -> lin M (p ≫= f) pre post.
Proof.
  intros Hq Hf. eapply (lin_call_fn p f [] pre); [exact Hq|done|].
  intros a rs' ->. apply Hf.
Qed.

Lemma quiet_pure {M : mode} {R} (r : R) : quiet M (Pure r).
Proof. by exists []. Qed.

Lemma quiet_call {M : mode} {R X} (c : call X) (k : X -> prog R) :
  releases_of c = [] -> (forall x, takes M c x = []) -> (forall x, quiet M (k x)) ->
  quiet M (Call c k).
Proof.
  intros Hr Ha Hk. apply lin_acquire; [done|]. intros x _ _. rewrite Ha. apply Hk.
Qed.

(** ** Soundness *)

Lemma lin_sound_in {M : mode} {R} (o : oracle) (p : prog R) post :
  documented_oracle o -> assumed_oracle M o -> forall tr pre,
  lin M p pre post ->
  match run o p tr with
  | (Ret r, tr') => exists ext rs, tr' = tr ++ ext /\ held_in M pre ext rs /\ post r rs
  | (NoFuel, _) => may_spin M
  | _ => False
  end.
Proof.
  intros Ho Ha. induction p as [r|X c k IH| |]; intros tr pre H; simpl in *; try done.
  - destruct H as (rs & Hrs & H). exists [], rs. rewrite app_nil_r. by repeat constructor.
  - destruct (H _ (Ho X tr c) (Ha X tr c)) as (mid & Hm & Hk). set (x := o X tr c) in *.
    specialize (IH x (tr ++ [Ev c x]) mid Hk).
    destruct (run o (k x) (tr ++ [Ev c x])) as [[r| | |] tr']; try done.
    destruct IH as (ext & rs & -> & Hh & Hpost). exists (Ev c x :: ext), rs.
    split_and!; [by rewrite <- (assoc_L (++))|by econstructor|done].
Qed.

Lemma lin_sound_assuming {P ok_msg} {R} (o : oracle) (p : prog R) post :
  documented_oracle o -> assumed_oracle (Mode P ok_msg) o -> forall tr pre,
  lin (Mode P ok_msg) p pre post ->
  match run o p tr with
  | (Ret r, tr') => exists ext rs, tr' = tr ++ ext /\ held pre ext rs /\ post r rs
  | (NoFuel, _) => P
  | _ => False
  end.
Proof.
  intros Ho Ha tr pre Hp. pose proof (lin_sound_in o p post Ho Ha tr pre Hp) as H.
  destruct (run o p tr) as [[r| | |] tr']; try done.
  destruct H as (ext & rs & Htr & Hh & Hpost). exists ext, rs. split_and!; [done| |done].
  by apply (held_in_plain (M := Mode P ok_msg)).
Qed.

Lemma lin_run_assuming {P ok_msg} {R} (o : oracle) (p : prog R) pre post :
  documented_oracle o -> assumed_oracle (Mode P ok_msg) o -> lin (Mode P ok_msg) p pre post ->
  match run o p [] with
  | (Ret r, tr) => exists rs, held pre tr rs /\ post r rs
  | (NoFuel, _) => P
  | _ => False
  end.
Proof.
  intros Ho Ha Hp. pose proof (lin_sound_assuming o p post Ho Ha [] pre Hp) as H.
  destruct (run o p []) as [[r| | |] tr]; try done.
  destruct H as (ext & rs & -> & Hh & Hpost). eauto.
Qed.

Lemma lin_run {P : Prop} {R} (o : oracle) (p : prog R) pre post :
  documented_oracle o -> lin (plain P) p pre post ->
  match run o p [] with
  | (Ret r, tr) => exists rs, held pre tr rs /\ post r rs
  | (NoFuel, _) => P
  | _ => False
  end.
Proof. intros Ho Hp. exact (lin_run_assuming o p pre post Ho (plain_oracle P o) Hp). Qed.

(** ** Termination

    [ends o p]: with the answers of [o], from any history, [p] does not run
    out of fuel. *)
Definition ends {R} (o : oracle) (p : prog R) : Prop := forall tr, (run o p tr).1 <> NoFuel.

Lemma run_bind {A B} (o : oracle) (p : prog A) (f : A -> prog B) : forall tr,
  run o (p ≫= f) tr =
  match run o p tr with
  | (Ret a, tr') => run o (f a) tr'
  | (UB, tr') => (UB, tr')
  | (NoFuel, tr') => (NoFuel, tr')
  | (Exit code msg, tr') => (Exit code msg, tr')
  end.
Proof. induction p as [r|X c k IH| |]; intros tr; simpl; auto. Qed.

Lemma run_extends {R} (o : oracle) (p : prog R) : forall tr, tr `prefix_of` (run o p tr).2.
Proof.
  induction p as [r|X c k IH| |]; intros tr; simpl; try done.
  etransitivity; [|apply IH]. by apply prefix_app_r.
Qed.

Lemma ends_pure {R} o (r : R) : ends o (Pure r).
Proof. by intros tr. Qed.

Lemma ends_call {R X} o (c : call X) (k : X -> prog R) : (forall x, ends o (k x)) -> ends o (Call c k).
Proof. intros H tr. apply H. Qed.

Lemma ends_bind {A B} o (p : prog A) (f : A -> prog B) :
  ends o p -> (forall a, ends o (f a)) -> ends o (p ≫= f).
Proof.
  intros Hp Hf tr. rewrite run_bind. specialize (Hp tr).
  destruct (run o p tr) as [[a| | |] tr']; try done. apply Hf.
Qed.

Lemma lin_ends {M : mode} {R} o (p : prog R) pre post :
  documented_oracle o -> assumed_oracle M o -> ~ may_spin M -> lin M p pre post -> ends o p.
Proof.
  intros Ho Ha HM Hp tr. pose proof (lin_sound_in o p post Ho Ha tr pre Hp) as H.
  by destruct (run o p tr) as [[r| | |] tr'].
Qed.

(** The continuation may rely on what [lin] shows of the first part. *)
Lemma ends_bind_lin {M : mode} {A B} o (p : prog A) (f : A -> prog B) pre post :
  documented_oracle o -> assumed_oracle M o -> lin M p pre post -> ends o p ->
  (forall a rs, post a rs -> ends o (f a)) -> ends o (p ≫= f).
Proof.
  intros Ho Ha Hp He Hf tr. rewrite run_bind. specialize (He tr).
  pose proof (lin_sound_in o p post Ho Ha tr pre Hp) as H.
  destruct (run o p tr) as [[a| | |] tr']; try done.
  destruct H as (ext & rs & _ & _ & H). by eapply Hf.
Qed.

#[global] Arguments lin : simpl never.

(** ** Automation

    [lin_simpl] turns binds of single calls into calls; [lin_ask] passes a
    call that gives nothing back, [lin_give] one that gives back a resource
    found among those held. *)
Ltac lin_simpl := cbn [mbind prog_mbind prog_bind invoke].

(** Bring a resource to the front of a list. *)
Ltac find_resource :=
  simpl;
  first [ reflexivity
        | apply Permutation_swap
        | etransitivity; [|apply Permutation_swap]; apply Permutation_skip; find_resource ].

Ltac lin_ask x H :=
  lin_simpl; apply lin_acquire; [reflexivity|intros x H _];
  cbn [takes acquires_of documented] in *; unfold got, non_null.
Ltac lin_give := lin_simpl; eapply lin_release; [reflexivity|done|find_resource|intros ? _].

(** Straight-line code ends; what is left are calls of functions. *)
Ltac ends_auto :=
  repeat match goal with
  | |- ends _ (Pure _) => apply ends_pure
  | |- ends _ Crash => by intros ?
  | |- ends _ (Call _ _) => apply ends_call; intros ?
  | |- ends _ (mbind _ _) => first [progress lin_simpl | apply ends_bind; [|intros ?]]
  | |- ends _ (prog_bind _ _) => first [progress lin_simpl | apply ends_bind; [|intros ?]]
  | |- ends _ (invoke _) => unfold invoke
  | |- ends _ (if ?b then _ else _) => destruct b
  | |- ends _ (let '(_, _) := ?x in _) => destruct x
  | |- ends _ (match ?x with _ => _ end) => destruct x
  end.
