(* ===== verification/Common.v ===== *)
(** * Common: doca_dma/common.c

    Device search, creation and destruction of the core objects, stopping a
    context, the hex dump and the alignment helpers. An output parameter is a
    component of the result. [goto] labels are local functions that run the
    cleanup from the label on. *)

From S2P Require Import Prelude.
From S2P Require Import Doca.

(** [strncmp(a, b, n) == 0] *)
Fixpoint strncmp_eq (n : nat) (a b : list Z) : bool :=
  match n with
  | O => true
  | S n =>
      match a, b with
      | x :: a, y :: b => (x =? y) && ((x =? 0) || strncmp_eq n a b)
      | _, _ => false
      end
  end.

(** Sizes fixed by the DOCA headers. *)
Class DocaSizes := {
  DOCA_DEVINFO_IBDEV_NAME_SIZE : Z;
  DOCA_DEVINFO_IFACE_NAME_SIZE : Z;
  DOCA_DEVINFO_REP_VUID_SIZE : Z;
  DOCA_DEVINFO_PCI_ADDR_SIZE : Z;
  DOCA_DEVINFO_REP_PCI_ADDR_SIZE : Z
}.

(** [tasks_check], possibly NULL. *)
Abbreviation tasks_check := (option (Z -> prog doca_error)).

(** ** Opening a device *)

(** The body of the search loops once a device matches: check the
    capabilities, then try to open it. [None] means [continue]. *)
Definition open_if_capable (func : tasks_check) (dev_list devinfo retval : Z)
  : prog (option doca_error * Z) :=
  capable ← match func with
            | None => Pure true
            | Some f => r ← f devinfo; Pure (ok r)
            end;
  if negb capable then Pure (None, retval)
  else
    '(res, retval) ← invoke (doca_dev_open devinfo);
    if ok res then _ ← invoke (doca_devinfo_destroy_list dev_list); Pure (Some res, retval)
    else Pure (None, retval).

(** The loop over [dev_list] and the code after it. *)
Fixpoint search_devices (matching : Z -> prog bool) (func : tasks_check) (dev_list : Z)
    (devs : list Z) (retval : Z) : prog (doca_error * Z) :=
  match devs with
  | [] =>
      _ ← invoke (doca_devinfo_destroy_list dev_list);
      Pure (DOCA_ERROR_NOT_FOUND, retval)
  | d :: devs =>
      is_match ← matching d;
      if is_match : bool then
        '(res, retval) ← open_if_capable func dev_list d retval;
        match res with
        | Some res => Pure (res, retval)
        | None => search_devices matching func dev_list devs retval
        end
      else search_devices matching func dev_list devs retval
  end.

Definition open_doca_device_with_pci (pci_addr : list Z) (func : tasks_check)
  : prog (doca_error * Z) :=
  let retval := 0 in
  '(res, (dev_list, devs)) ← invoke doca_devinfo_create_list;
  if negb (ok res) then Pure (res, retval)
  else
    search_devices (fun d =>
      '(res, is_addr_equal) ← invoke (doca_devinfo_is_equal_pci_addr d pci_addr);
      Pure (ok res && negb (is_addr_equal =? 0))) func dev_list devs retval.

Section names.
Context `{DocaSizes}.

Definition open_doca_device_with_ibdev_name (value : list Z) (val_size : Z) (func : tasks_check)
  : prog (doca_error * Z) :=
  let retval := 0 in
  if DOCA_DEVINFO_IBDEV_NAME_SIZE <? val_size then Pure (DOCA_ERROR_INVALID_VALUE, retval)
  else
    let val_copy := memcpy (replicate (Z.to_nat DOCA_DEVINFO_IBDEV_NAME_SIZE) 0) value
                      (Z.to_nat val_size) in
    '(res, (dev_list, devs)) ← invoke doca_devinfo_create_list;
    if negb (ok res) then Pure (res, retval)
    else
      search_devices (fun d =>
        '(res, buf) ← invoke (doca_devinfo_get_ibdev_name d DOCA_DEVINFO_IBDEV_NAME_SIZE);
        Pure (ok res && strncmp_eq (Z.to_nat val_size) buf val_copy)) func dev_list devs retval.

Definition open_doca_device_with_iface_name (value : list Z) (val_size : Z) (func : tasks_check)
  : prog (doca_error * Z) :=
  let retval := 0 in
  if DOCA_DEVINFO_IFACE_NAME_SIZE <? val_size then Pure (DOCA_ERROR_INVALID_VALUE, retval)
  else
    let val_copy := memcpy (replicate (Z.to_nat DOCA_DEVINFO_IFACE_NAME_SIZE) 0) value
                      (Z.to_nat val_size) in
    '(res, (dev_list, devs)) ← invoke doca_devinfo_create_list;
    if negb (ok res) then Pure (res, retval)
    else
      search_devices (fun d =>
        '(res, buf) ← invoke (doca_devinfo_get_iface_name d DOCA_DEVINFO_IFACE_NAME_SIZE);
        Pure (ok res && strncmp_eq (Z.to_nat val_size) buf val_copy)) func dev_list devs retval.

Definition open_doca_device_with_capabilities (func : Z -> prog doca_error)
  : prog (doca_error * Z) :=
  let retval := 0 in
  '(result, (dev_list, devs)) ← invoke doca_devinfo_create_list;
  if negb (ok result) then Pure (result, retval)
  else search_devices (fun _ => Pure true) (Some func) dev_list devs retval.

(** ** Opening a representor *)

Fixpoint search_reps (matching : Z -> prog bool) (rep_dev_list : Z) (reps : list Z) (retval : Z)
  : prog (doca_error * Z) :=
  match reps with
  | [] =>
      _ ← invoke (doca_devinfo_rep_destroy_list rep_dev_list);
      Pure (DOCA_ERROR_NOT_FOUND, retval)
  | d :: reps =>
      is_match ← matching d;
      if is_match : bool then
        '(result, retval) ← invoke (doca_dev_rep_open d);
        if ok result then
          _ ← invoke (doca_devinfo_rep_destroy_list rep_dev_list);
          Pure (DOCA_SUCCESS, retval)
        else search_reps matching rep_dev_list reps retval
      else search_reps matching rep_dev_list reps retval
  end.

Definition open_doca_device_rep_with_vuid (local : Z) (value : list Z) (val_size : Z)
  : prog (doca_error * Z) :=
  let retval := 0 in
  if DOCA_DEVINFO_REP_VUID_SIZE <? val_size then Pure (DOCA_ERROR_INVALID_VALUE, retval)
  else
    let val_copy := memcpy (replicate (Z.to_nat DOCA_DEVINFO_REP_VUID_SIZE) 0) value
                      (Z.to_nat val_size) in
    '(result, (rep_dev_list, reps)) ← invoke (doca_devinfo_rep_create_list local);
    if negb (ok result) then Pure (DOCA_ERROR_INVALID_VALUE, retval)
    else
      search_reps (fun d =>
        '(result, buf) ← invoke (doca_devinfo_rep_get_vuid d DOCA_DEVINFO_REP_VUID_SIZE);
        Pure (ok result && strncmp_eq (Z.to_nat DOCA_DEVINFO_REP_VUID_SIZE) buf val_copy))
        rep_dev_list reps retval.

Definition open_doca_device_rep_with_pci (local : Z) (pci_addr : list Z) : prog (doca_error * Z) :=
  let retval := 0 in
  '(result, (rep_dev_list, reps)) ← invoke (doca_devinfo_rep_create_list local);
  if negb (ok result) then Pure (DOCA_ERROR_INVALID_VALUE, retval)
  else
    search_reps (fun d =>
      '(result, is_addr_equal) ← invoke (doca_devinfo_rep_is_equal_pci_addr d pci_addr);
      Pure (ok result && negb (is_addr_equal =? 0))) rep_dev_list reps retval.
End names.

(** ** Core objects *)

Record program_core_objects := CoreObjects {
  dev : Z; src_mmap : Z; dst_mmap : Z; buf_inv : Z; ctx : Z; pe : Z
}.

Definition set_dev s v := CoreObjects v (src_mmap s) (dst_mmap s) (buf_inv s) (ctx s) (pe s).
Definition set_src_mmap s v := CoreObjects (dev s) v (dst_mmap s) (buf_inv s) (ctx s) (pe s).
Definition set_dst_mmap s v := CoreObjects (dev s) (src_mmap s) v (buf_inv s) (ctx s) (pe s).
Definition set_buf_inv s v := CoreObjects (dev s) (src_mmap s) (dst_mmap s) v (ctx s) (pe s).
Definition set_ctx s v := CoreObjects (dev s) (src_mmap s) (dst_mmap s) (buf_inv s) v (pe s).
Definition set_pe s v := CoreObjects (dev s) (src_mmap s) (dst_mmap s) (buf_inv s) (ctx s) v.

(** The cleanup labels of [create_core_objects], from the last to the first. *)
Definition destroy_src_mmap (res : doca_error) (state : program_core_objects)
  : prog (doca_error * program_core_objects) :=
  _ ← invoke (doca_mmap_destroy (src_mmap state));
  Pure (res, set_src_mmap state 0).

Definition destroy_dst_mmap (res : doca_error) (state : program_core_objects)
  : prog (doca_error * program_core_objects) :=
  _ ← invoke (doca_mmap_destroy (dst_mmap state));
  destroy_src_mmap res (set_dst_mmap state 0).

Definition destroy_buf_inv (res : doca_error) (state : program_core_objects)
  : prog (doca_error * program_core_objects) :=
  if negb (buf_inv state =? 0) then
    _ ← invoke (doca_buf_inventory_destroy (buf_inv state));
    destroy_dst_mmap res (set_buf_inv state 0)
  else destroy_dst_mmap res state.

(** The last step of [create_core_objects]. *)
Definition create_pe (state : program_core_objects) : prog (doca_error * program_core_objects) :=
  '(res, p) ← invoke doca_pe_create;
  let state := set_pe state p in
  if negb (ok res) then destroy_buf_inv res state else Pure (DOCA_SUCCESS, state).

Definition create_core_objects (state : program_core_objects) (max_bufs : Z)
  : prog (doca_error * program_core_objects) :=
  '(res, m) ← invoke doca_mmap_create;
  let state := set_src_mmap state m in
  if negb (ok res) then Pure (res, state) else
  res ← invoke (doca_mmap_add_dev (src_mmap state) (dev state));
  if negb (ok res) then destroy_src_mmap res state else
  '(res, m) ← invoke doca_mmap_create;
  let state := set_dst_mmap state m in
  if negb (ok res) then destroy_src_mmap res state else
  res ← invoke (doca_mmap_add_dev (dst_mmap state) (dev state));
  if negb (ok res) then destroy_dst_mmap res state else
  if negb (max_bufs =? 0) then
    '(res, i) ← invoke (doca_buf_inventory_create max_bufs);
    let state := set_buf_inv state i in
    if negb (ok res) then destroy_dst_mmap res state else
    res ← invoke (doca_buf_inventory_start (buf_inv state));
    if negb (ok res) then destroy_buf_inv res state else
    create_pe state
  else create_pe state.

(** The polling loop of [request_stop_ctx]; callbacks of the events delivered
    meanwhile belong to the client. *)
Fixpoint wait_until_idle (fuel : nat) (pe ctx : Z) : prog doca_error :=
  match fuel with
  | O => Spin
  | S fuel =>
      _ ← invoke (doca_pe_progress pe);
      '(tmp_result, ctx_state) ← invoke (doca_ctx_get_state ctx);
      if negb (ok tmp_result) then Pure (DOCA_ERROR_PROPAGATE DOCA_SUCCESS tmp_result)
      else if bool_decide (ctx_state = CTX_IDLE) then Pure DOCA_SUCCESS
      else wait_until_idle fuel pe ctx
  end.

Definition request_stop_ctx (fuel : nat) (pe ctx : Z) : prog doca_error :=
  tmp_result ← invoke (doca_ctx_stop ctx);
  if bool_decide (tmp_result = DOCA_ERROR_IN_PROGRESS) then wait_until_idle fuel pe ctx
  else if negb (ok tmp_result) then Pure (DOCA_ERROR_PROPAGATE DOCA_SUCCESS tmp_result)
  else Pure DOCA_SUCCESS.

(** One of the five blocks of [destroy_core_objects]: destroy the object
    unless it is NULL, keeping the first error. *)
Definition destroy_object (c : Z -> call doca_error) (obj : Z) (result : doca_error)
  : prog doca_error :=
  if negb (obj =? 0) then
    tmp_result ← invoke (c obj);
    Pure (if negb (ok tmp_result) then DOCA_ERROR_PROPAGATE result tmp_result else result)
  else Pure result.

Definition destroy_core_objects (state : program_core_objects)
  : prog (doca_error * program_core_objects) :=
  let result := DOCA_SUCCESS in
  result ← destroy_object doca_pe_destroy (pe state) result;
  let state := set_pe state 0 in
  result ← destroy_object doca_buf_inventory_destroy (buf_inv state) result;
  let state := set_buf_inv state 0 in
  result ← destroy_object doca_mmap_destroy (dst_mmap state) result;
  let state := set_dst_mmap state 0 in
  result ← destroy_object doca_mmap_destroy (src_mmap state) result;
  let state := set_src_mmap state 0 in
  result ← destroy_object doca_dev_close (dev state) result;
  let state := set_dev state 0 in
  Pure (result, state).
