(* ===== verification/CommonProps.v ===== *)
(** * CommonProps: the resource discipline of doca_dma/common.c *)

From S2P Require Import Prelude.
From S2P Require Import Doca.
From S2P Require Import Ownership.
From S2P Require Import Common.

(** ** Opening devices *)

(** An open function ends with the device it returns, which is not NULL, or
    with nothing. *)
Definition opened (k : kind) (r : doca_error * Z) (rs : list resource) : Prop :=
  if ok r.1 then rs = [(k, r.2)] /\ (k = KDev -> r.2 <> 0) else rs = [].

Definition quiet_check (M : mode) (func : tasks_check) : Prop :=
  forall f, func = Some f -> forall d, quiet M (f d).

Lemma open_if_capable_lin {M : mode} func dev_list d retval :
  quiet_check M func ->
  lin M (open_if_capable func dev_list d retval) [(KDevList, dev_list)] (fun r rs =>
    match r.1 with
    | Some e => e = DOCA_SUCCESS /\ rs = [(KDev, r.2)] /\ r.2 <> 0
    | None => rs = [(KDevList, dev_list)]
    end).
Proof.
  intros Hf. unfold open_if_capable.
  assert (quiet M (match func with None => Pure true | Some f => r ← f d; Pure (ok r) end)) as Hc.
  { destruct func as [f|]; [|apply quiet_pure]. apply lin_quiet; [by apply Hf|].
    intros a. by apply lin_pure. }
  apply lin_quiet; [exact Hc|]. intros [|]; [|by apply lin_pure]. cbn [negb].
  lin_ask x H. destruct x as [e h]. simpl in *. destruct (ok_spec e) as [->|Hne].
  - lin_give. lin_simpl. apply lin_pure. split_and!; auto.
  - by apply lin_pure.
Qed.

Lemma search_devices_lin {M : mode} matching func dev_list devs : forall retval,
  (forall d, quiet M (matching d)) -> quiet_check M func ->
  lin M (search_devices matching func dev_list devs retval) [(KDevList, dev_list)] (opened KDev).
Proof.
  intros retval Hm Hf. revert retval.
  induction devs as [|d devs IH]; intros retval; cbn [search_devices].
  - lin_give. lin_simpl. by apply lin_pure.
  - apply lin_quiet; [apply Hm|]. intros [|]; [|apply IH].
    apply lin_bind. eapply lin_mono; [by apply open_if_capable_lin|].
    intros [[e|] r] rs; simpl; [intros (-> & -> & Hr); by apply lin_pure|intros ->; apply IH].
Qed.

Lemma search_reps_lin {M : mode} matching rep_list reps : forall retval,
  (forall d, quiet M (matching d)) ->
  lin M (search_reps matching rep_list reps retval) [(KRepList, rep_list)] (opened KRep).
Proof.
  intros retval Hm. revert retval.
  induction reps as [|d reps IH]; intros retval; cbn [search_reps].
  - lin_give. lin_simpl. by apply lin_pure.
  - apply lin_quiet; [apply Hm|]. intros [|]; [|apply IH].
    lin_ask x H. destruct x as [e h]. simpl. destruct (ok_spec e) as [->|Hne]; [|apply IH].
    lin_give. lin_simpl. by apply lin_pure.
Qed.

(** A query followed by a pure test. *)
Ltac quiet_query := intros; lin_simpl; apply quiet_call; [done|done|intros [? ?]; apply quiet_pure].

Ltac open_search search_lemma :=
  let x := fresh "x" in let H := fresh "H" in let e := fresh "e" in
  lin_ask x H; destruct x as [e [? ?]]; simpl; destruct (ok_spec e) as [->|]; simpl;
  [apply search_lemma; [quiet_query|done..]
  |apply lin_pure; unfold opened; simpl; destruct (ok_spec e); done].

Lemma open_doca_device_with_pci_lin {M : mode} pci_addr func :
  quiet_check M func -> lin M (open_doca_device_with_pci pci_addr func) [] (opened KDev).
Proof. intros Hf. unfold open_doca_device_with_pci. open_search (@search_devices_lin M). Qed.

Lemma open_doca_device_with_capabilities_lin {M : mode} func :
  (forall d, quiet M (func d)) -> lin M (open_doca_device_with_capabilities func) [] (opened KDev).
Proof.
  intros Hf. unfold open_doca_device_with_capabilities.
  lin_ask x H. destruct x as [e [l ds]]. simpl. destruct (ok_spec e) as [->|Hne]; simpl.
  - apply search_devices_lin; [intros; apply quiet_pure|]. by intros f [= <-].
  - apply lin_pure. unfold opened. simpl. by destruct (ok_spec e).
Qed.

Lemma open_doca_device_rep_with_pci_lin {M : mode} local pci_addr :
  lin M (open_doca_device_rep_with_pci local pci_addr) [] (opened KRep).
Proof.
  unfold open_doca_device_rep_with_pci. lin_ask x H. destruct x as [e [l ds]]. simpl.
  destruct (ok_spec e) as [->|Hne]; simpl; [|by apply lin_pure].
  apply search_reps_lin. quiet_query.
Qed.

Section names.
Context `{DocaSizes}.

Lemma open_doca_device_with_ibdev_name_lin {M : mode} value val_size func :
  quiet_check M func -> lin M (open_doca_device_with_ibdev_name value val_size func) [] (opened KDev).
Proof.
  intros Hf. unfold open_doca_device_with_ibdev_name.
  destruct (_ <? _); [by apply lin_pure|]. open_search (@search_devices_lin M).
Qed.

Lemma open_doca_device_with_iface_name_lin {M : mode} value val_size func :
  quiet_check M func -> lin M (open_doca_device_with_iface_name value val_size func) [] (opened KDev).
Proof.
  intros Hf. unfold open_doca_device_with_iface_name.
  destruct (_ <? _); [by apply lin_pure|]. open_search (@search_devices_lin M).
Qed.

Lemma open_doca_device_rep_with_vuid_lin {M : mode} local value val_size :
  lin M (open_doca_device_rep_with_vuid local value val_size) [] (opened KRep).
Proof.
  unfold open_doca_device_rep_with_vuid. destruct (_ <? _); [by apply lin_pure|].
  lin_ask x H1. destruct x as [e [l ds]]. simpl.
  destruct (ok_spec e) as [->|Hne]; simpl; [|by apply lin_pure].
  apply search_reps_lin. quiet_query.
Qed.
End names.

(** ** Core objects *)

(** What a [program_core_objects] holds: its non-NULL objects. *)
Definition core_resources (s : program_core_objects) : list resource :=
  non_null KPe (pe s) ++ non_null KInventory (buf_inv s) ++ non_null KMmap (dst_mmap s)
  ++ non_null KMmap (src_mmap s) ++ non_null KDev (dev s).

Definition objects_of (s : program_core_objects) : list resource := core_resources (set_dev s 0).

Lemma non_null_some k p : p <> 0 -> non_null k p = [(k, p)].
Proof. intros H. unfold non_null. destruct (Z.eqb_spec p 0); done. Qed.

(** The cleanup labels give back what they stand for. *)
Lemma destroy_src_mmap_lin {M : mode} res s :
  lin M (destroy_src_mmap res s) [(KMmap, src_mmap s)]
    (fun r rs => rs = [] /\ r = (res, set_src_mmap s 0)).
Proof. unfold destroy_src_mmap. lin_give. by apply lin_pure. Qed.

Lemma destroy_dst_mmap_lin {M : mode} res s :
  lin M (destroy_dst_mmap res s) [(KMmap, dst_mmap s); (KMmap, src_mmap s)]
    (fun r rs => rs = [] /\ r.1 = res /\ dev r.2 = dev s /\ pe r.2 = pe s /\ buf_inv r.2 = buf_inv s).
Proof.
  unfold destroy_dst_mmap. lin_give.
  eapply lin_mono; [apply (destroy_src_mmap_lin res (set_dst_mmap s 0))|].
  by intros r rs [-> ->].
Qed.

Lemma destroy_buf_inv_lin {M : mode} res s :
  lin M (destroy_buf_inv res s)
    (non_null KInventory (buf_inv s) ++ [(KMmap, dst_mmap s); (KMmap, src_mmap s)])
    (fun r rs => rs = [] /\ r.1 = res /\ dev r.2 = dev s /\ pe r.2 = pe s /\ buf_inv r.2 = 0).
Proof.
  unfold destroy_buf_inv, non_null. destruct (Z.eqb_spec (buf_inv s) 0) as [E|E]; simpl.
  - eapply lin_mono; [apply destroy_dst_mmap_lin|]. intros r rs (-> & ? & ? & ? & ->). done.
  - lin_give. eapply lin_mono; [apply (destroy_dst_mmap_lin res (set_buf_inv s 0))|].
    intros r rs (-> & ? & ? & ? & ->). done.
Qed.

(** How [create_core_objects] ends. *)
Definition created (s : program_core_objects) (r : doca_error * program_core_objects)
    (rs : list resource) : Prop :=
  if ok r.1 then rs ≡ₚ objects_of r.2 /\ dev r.2 = dev s /\ pe r.2 <> 0 /\ src_mmap r.2 <> 0
  else rs = [].

Lemma create_pe_lin {M : mode} s0 s :
  dev s = dev s0 -> src_mmap s <> 0 -> dst_mmap s <> 0 ->
  lin M (create_pe s)
    (non_null KInventory (buf_inv s) ++ [(KMmap, dst_mmap s); (KMmap, src_mmap s)]) (created s0).
Proof.
  intros Hd Hs Ht. unfold create_pe. lin_ask x H. destruct x as [e p]. simpl in *.
  destruct (ok_spec e) as [->|Hne]; simpl.
  - apply lin_pure. unfold created, objects_of, core_resources. simpl.
    rewrite (non_null_some KPe), (non_null_some KMmap (dst_mmap s)), (non_null_some KMmap (src_mmap s))
      by auto. simpl. split_and!; auto.
  - eapply lin_mono; [apply (destroy_buf_inv_lin e (set_pe s p))|].
    intros r rs (-> & Hr & _). unfold created. rewrite Hr. by destruct (ok_spec e).
Qed.

Lemma failed_created s r rs e : rs = [] -> r.1 = e -> e <> DOCA_SUCCESS -> created s r rs.
Proof. intros -> E He. unfold created. rewrite E. by destruct (ok_spec e). Qed.

Lemma create_core_objects_lin {M : mode} s max_bufs :
  (max_bufs = 0 -> buf_inv s = 0) ->
  lin M (create_core_objects s max_bufs) [] (created s).
Proof.
  intros Hinv. unfold create_core_objects.
  lin_ask x H1. destruct x as [e m1]. simpl in *. destruct (ok_spec e) as [->|He]; simpl.
  2: { apply lin_pure. by eapply failed_created. }
  lin_ask e H2. simpl. destruct (ok_spec e) as [->|He]; simpl.
  2: { eapply lin_mono; [apply (destroy_src_mmap_lin e (set_src_mmap s m1))|].
       intros r rs [-> ->]. by eapply failed_created. }
  lin_ask x H3. destruct x as [e m2]. simpl in *. destruct (ok_spec e) as [->|He]; simpl.
  2: { eapply lin_mono; [apply (destroy_src_mmap_lin e (set_dst_mmap (set_src_mmap s m1) m2))|].
       intros r rs [-> ->]. by eapply failed_created. }
  lin_ask e H4. simpl. destruct (ok_spec e) as [->|He]; simpl.
  2: { eapply lin_mono; [apply (destroy_dst_mmap_lin e (set_dst_mmap (set_src_mmap s m1) m2))|].
       intros r rs (-> & Hr & _). by eapply failed_created. }
  destruct (Z.eqb_spec max_bufs 0) as [E|E]; simpl.
  { pose proof (create_pe_lin (M := M) s (set_dst_mmap (set_src_mmap s m1) m2)) as H.
    simpl in H. rewrite Hinv in H by done. apply H; auto. }
  lin_ask x H5. destruct x as [e i]. simpl in *. destruct (ok_spec e) as [->|He]; simpl.
  2: { eapply lin_mono;
         [apply (destroy_dst_mmap_lin e (set_buf_inv (set_dst_mmap (set_src_mmap s m1) m2) i))|].
       intros r rs (-> & Hr & _). by eapply failed_created. }
  set (s3 := set_buf_inv (set_dst_mmap (set_src_mmap s m1) m2) i).
  assert ([(KInventory, i); (KMmap, m2); (KMmap, m1)] = non_null KInventory (buf_inv s3)
    ++ [(KMmap, dst_mmap s3); (KMmap, src_mmap s3)]) as -> by (simpl; by rewrite non_null_some by auto).
  lin_ask e H6. simpl app. destruct (ok_spec e) as [->|He].
  - cbn [negb]. apply create_pe_lin; auto.
  - cbn [negb]. eapply lin_mono; [apply (destroy_buf_inv_lin e s3)|].
    intros r rs (-> & Hr & _). by eapply failed_created.
Qed.

(** ** Destruction *)

Lemma destroy_object_lin {M : mode} k (c : Z -> call doca_error) obj result F :
  (forall o, releases_of (c o) = [(k, o)]) -> (forall o x, takes M (c o) x = []) ->
  lin M (destroy_object c obj result) (non_null k obj ++ F) (fun _ rs => rs = F).
Proof.
  intros Hr Ha. unfold destroy_object, non_null. destruct (Z.eqb_spec obj 0); simpl.
  - by apply lin_pure.
  - lin_simpl. eapply lin_release; [apply Hr|apply Ha|reflexivity|]. intros x _.
    by apply lin_pure.
Qed.

Lemma destroy_core_objects_lin {M : mode} s :
  lin M (destroy_core_objects s) (core_resources s)
    (fun r rs => rs = [] /\ r.2 = CoreObjects 0 0 0 0 (ctx s) 0).
Proof.
  unfold destroy_core_objects, core_resources. cbn zeta.
  apply lin_bind. eapply lin_mono; [by apply (destroy_object_lin KPe)|]. intros ? ? ->.
  apply lin_bind. eapply lin_mono; [by apply (destroy_object_lin KInventory)|]. intros ? ? ->.
  apply lin_bind. eapply lin_mono; [by apply (destroy_object_lin KMmap)|]. intros ? ? ->.
  apply lin_bind. eapply lin_mono; [by apply (destroy_object_lin KMmap)|]. intros ? ? ->.
  rewrite <- (app_nil_r (non_null KDev (dev s))).
  apply lin_bind. eapply lin_mono; [by apply (destroy_object_lin KDev)|]. intros ? ? ->.
  by apply lin_pure.
Qed.

(** The answers of the calls that give a resource back. *)
Definition status_of {X} (c : call X) : X -> list doca_error :=
  match c in call X return X -> list doca_error with
  | doca_pe_destroy _ => fun e => [e]
  | doca_buf_inventory_destroy _ => fun e => [e]
  | doca_mmap_destroy _ => fun e => [e]
  | doca_dev_close _ => fun e => [e]
  | _ => fun _ => []
  end.

Definition statuses (tr : trace) : list doca_error :=
  tr ≫= fun e => match e with Ev c x => status_of c x end.

Definition first_error (es : list doca_error) : doca_error :=
  foldl DOCA_ERROR_PROPAGATE DOCA_SUCCESS es.

Lemma propagate_success r : DOCA_ERROR_PROPAGATE r DOCA_SUCCESS = r.
Proof. unfold DOCA_ERROR_PROPAGATE. by destruct (ok_spec r) as [->|]. Qed.

(** [result] stands for the errors collected so far. *)
Lemma destroy_object_status (c : Z -> call doca_error) obj result tr :
  (forall o e, status_of (c o) e = [e]) -> result = first_error (statuses tr) ->
  wp (destroy_object c obj result) tr (fun tr' r => r = first_error (statuses tr')).
Proof.
  intros Hc ->. unfold destroy_object. destruct (negb _); simpl; [|done]. intros e _.
  unfold statuses. rewrite bind_app. simpl. rewrite Hc. unfold first_error.
  rewrite foldl_app. cbn [foldl app]. destruct (ok_spec e) as [->|He]; cbn [negb].
  - by rewrite propagate_success.
  - done.
Qed.

Lemma destroy_core_objects_status s :
  wp (destroy_core_objects s) [] (fun tr r => r.1 = first_error (statuses tr)).
Proof.
  unfold destroy_core_objects. cbn zeta.
  eapply wp_bind_mono; [by apply destroy_object_status|intros tr1 r1 H1].
  eapply wp_bind_mono; [by apply destroy_object_status|intros tr2 r2 H2].
  eapply wp_bind_mono; [by apply destroy_object_status|intros tr3 r3 H3].
  eapply wp_bind_mono; [by apply destroy_object_status|intros tr4 r4 H4].
  eapply wp_bind_mono; [by apply destroy_object_status|intros tr5 r5 H5].
  done.
Qed.

(** ** Stopping a context *)

Definition is_poll (ctx : Z) (e : event) : bool :=
  match e with Ev (doca_ctx_get_state c) _ => c =? ctx | _ => false end.

(** How often the state of [ctx] was asked for. *)
Definition polls (ctx : Z) (tr : trace) : nat := length (List.filter (is_poll ctx) tr).

Lemma polls_snoc ctx tr e :
  polls ctx (tr ++ [e]) = (polls ctx tr + if is_poll ctx e then 1 else 0)%nat.
Proof.
  unfold polls. rewrite List.filter_app, length_app. simpl. by destruct (is_poll ctx e).
Qed.

(** From the [n]-th poll on, the context reports that it is idle, or an error. *)
Definition idles_within (o : oracle) (ctx : Z) (n : nat) : Prop :=
  forall tr, (n <= polls ctx tr)%nat ->
  let r := o _ tr (doca_ctx_get_state ctx) in r.1 <> DOCA_SUCCESS \/ r.2 = CTX_IDLE.

(** How the loop ends: with the error of the last poll, or idle. *)
Definition stopped (ctx : Z) (r : doca_error) (tr : trace) : Prop :=
  exists tr0 e st, tr = tr0 ++ [Ev (doca_ctx_get_state ctx) (e, st)] /\ r = e /\
    (e = DOCA_SUCCESS -> st = CTX_IDLE).

Lemma wait_until_idle_ends o pe ctx n fuel : idles_within o ctx n -> forall tr,
  (n < polls ctx tr + fuel)%nat -> (0 < fuel)%nat ->
  exists r tr', run o (wait_until_idle fuel pe ctx) tr = (Ret r, tr') /\ stopped ctx r tr'.
Proof.
  intros Hidle. induction fuel as [|fuel IH]; intros tr Hn H0; [lia|].
  cbn [wait_until_idle]. lin_simpl. cbn [run].
  set (tr1 := tr ++ [Ev (doca_pe_progress pe) (o _ tr (doca_pe_progress pe))]).
  assert (polls ctx tr1 = polls ctx tr) as Hp1 by (unfold tr1; rewrite polls_snoc; simpl; lia).
  pose proof (Hidle tr1) as Hi. cbn zeta in Hi.
  destruct (o _ tr1 (doca_ctx_get_state ctx)) as [e st] eqn:E. simpl in *.
  destruct (ok_spec e) as [->|He]; simpl.
  - case_bool_decide as Hst; simpl.
    + do 2 eexists. split; [done|]. by exists tr1, DOCA_SUCCESS, st.
    + assert (polls ctx tr1 < n)%nat by (destruct (decide (n <= polls ctx tr1)%nat) as [H|H];
        [by destruct (Hi H)|lia]).
      apply IH; [|lia]. rewrite polls_snoc. simpl. rewrite Z.eqb_refl. lia.
  - do 2 eexists. split; [done|]. exists tr1, e, st. split_and!; [done| |done].
    unfold DOCA_ERROR_PROPAGATE. by destruct (ok_spec DOCA_SUCCESS).
Qed.

(** ** Properties *)

(** [create_core_objects] leaves nothing behind when it fails, at whatever
    step: every object created so far is destroyed exactly once and nothing
    else is destroyed. When it succeeds, the objects held are exactly those in
    the structure, which keeps its device. *)
Theorem create_core_objects_owns (o : oracle) (s : program_core_objects) (max_bufs : Z) :
  documented_oracle o -> (max_bufs = 0 -> buf_inv s = 0) ->
  match run o (create_core_objects s max_bufs) [] with
  | (Ret (e, s'), tr) =>
      if ok e then held [] tr (objects_of s') /\ dev s' = dev s /\ pe s' <> 0
      else held [] tr []
  | _ => False
  end.
Proof.
  intros Ho Hinv.
  pose proof (lin_run o _ _ _ Ho (create_core_objects_lin (M := total) s max_bufs Hinv)) as H.
  destruct (run o (create_core_objects s max_bufs) []) as [[[e s']| | |] tr]; try done.
  destruct H as (rs & Hh & Hc). unfold created in Hc. simpl in Hc. destruct (ok e).
  - destruct Hc as (Hp & Hd & Hpe & _). split; [|done].
    rewrite <- (app_nil_r tr). eapply held_app; [done|by constructor].
  - by subst rs.
Qed.

(** An execution in which everything works; [CTX_IDLE] at the first poll. *)
Definition calm : oracle := all_ok (fun _ => []) (fun _ => CTX_IDLE).

Lemma calm_documented : documented_oracle calm.
Proof. apply all_ok_documented. Qed.

Definition no_objects : program_core_objects := CoreObjects 5 0 0 0 0 0.

Lemma create_core_objects_owns_witness :
  match run calm (create_core_objects no_objects 2) [] with
  | (Ret (e, s'), tr) =>
      if ok e then held [] tr (objects_of s') /\ dev s' = dev no_objects /\ pe s' <> 0
      else held [] tr []
  | _ => False
  end.
Proof. apply (create_core_objects_owns calm no_objects 2); [apply calm_documented|done]. Defined.

(** [destroy_core_objects] destroys every non-NULL object of the structure
    exactly once, even when some destructions fail, clears the fields, and
    returns the first error. *)
Theorem destroy_core_objects_releases (o : oracle) (s : program_core_objects) :
  documented_oracle o ->
  match run o (destroy_core_objects s) [] with
  | (Ret (e, s'), tr) => held (core_resources s) tr [] /\ s' = CoreObjects 0 0 0 0 (ctx s) 0 /\
                         e = first_error (statuses tr)
  | _ => False
  end.
Proof.
  intros Ho. pose proof (lin_run o _ _ _ Ho (destroy_core_objects_lin (M := total) s)) as H1.
  pose proof (wp_run o _ _ Ho [] (destroy_core_objects_status s)) as H2.
  destruct (run o (destroy_core_objects s) []) as [[[e s']| | |] tr]; try done.
  by destruct H1 as (rs & Hh & -> & Hs).
Qed.

Lemma destroy_core_objects_releases_witness :
  match run calm (destroy_core_objects (CoreObjects 1 2 3 4 5 6)) [] with
  | (Ret (e, s'), tr) => held (core_resources (CoreObjects 1 2 3 4 5 6)) tr [] /\
                         s' = CoreObjects 0 0 0 0 5 0 /\ e = first_error (statuses tr)
  | _ => False
  end.
Proof.
  apply (destroy_core_objects_releases calm (CoreObjects 1 2 3 4 5 6)), calm_documented.
Defined.

(** [p] opens a resource of kind [k] or reports an error and keeps nothing;
    in particular the device list it looked through is destroyed. *)
Definition opens (k : kind) (p : prog (doca_error * Z)) : Prop :=
  forall o, documented_oracle o ->
  match run o p [] with
  | (Ret (e, d), tr) => held [] tr (if ok e then [(k, d)] else [])
  | _ => False
  end.

Lemma lin_opens k p : lin total p [] (opened k) -> opens k p.
Proof.
  intros Hp o Ho. pose proof (lin_run o p _ _ Ho Hp) as H.
  destruct (run o p []) as [[[e d]| | |] tr]; try done. destruct H as (rs & Hh & Hop).
  unfold opened in Hop. simpl in Hop. destruct (ok e); [by destruct Hop as [-> _]|by subst rs].
Qed.

(** All six ways to open a device or a representor destroy the list they
    searched, on every path, and end holding exactly the opened device when
    they return [DOCA_SUCCESS] and nothing otherwise, whatever the capability
    check answers. *)
Theorem device_search_owns `{DocaSizes} (func : tasks_check) (check : Z -> prog doca_error)
    (value pci_addr : list Z) (val_size local : Z) :
  quiet_check total func -> (forall d, quiet total (check d)) ->
  opens KDev (open_doca_device_with_pci pci_addr func) /\
  opens KDev (open_doca_device_with_ibdev_name value val_size func) /\
  opens KDev (open_doca_device_with_iface_name value val_size func) /\
  opens KDev (open_doca_device_with_capabilities check) /\
  opens KRep (open_doca_device_rep_with_vuid local value val_size) /\
  opens KRep (open_doca_device_rep_with_pci local pci_addr).
Proof.
  intros Hf Hc. split_and!; apply lin_opens.
  - by apply open_doca_device_with_pci_lin.
  - by apply open_doca_device_with_ibdev_name_lin.
  - by apply open_doca_device_with_iface_name_lin.
  - by apply open_doca_device_with_capabilities_lin.
  - apply open_doca_device_rep_with_vuid_lin.
  - apply open_doca_device_rep_with_pci_lin.
Qed.

#[local] Instance demo_sizes : DocaSizes := Build_DocaSizes 64 256 128 16 16.

Lemma device_search_owns_witness :
  opens KDev (open_doca_device_with_capabilities
                (fun d => invoke (doca_dma_cap_task_memcpy_is_supported d))) /\
  (run calm (open_doca_device_with_pci [48] None) []).1 = Ret (DOCA_SUCCESS, 3).
Proof.
  split; [|reflexivity].
  apply (device_search_owns None
           (fun d => invoke (doca_dma_cap_task_memcpy_is_supported d)) [] [] 0 0).
  - intros f [=].
  - intros d. apply quiet_call; [done|done|intros; apply quiet_pure].
Defined.

(** [request_stop_ctx] returns as soon as the context can be stopped: when
    the stop completes later, polling ends at the latest with the first poll
    that reports the idle state or an error. A result of [DOCA_SUCCESS] means
    that the stop succeeded at once or that the context was seen idle. *)
Theorem request_stop_ctx_ends (o : oracle) (pe ctx : Z) (n fuel : nat) :
  idles_within o ctx n -> (n < fuel)%nat ->
  exists r tr, run o (request_stop_ctx fuel pe ctx) [] = (Ret r, tr) /\
    (r = DOCA_SUCCESS ->
       tr = [Ev (doca_ctx_stop ctx) DOCA_SUCCESS] \/
       exists tr0, tr = tr0 ++ [Ev (doca_ctx_get_state ctx) (DOCA_SUCCESS, CTX_IDLE)]).
Proof.
  intros Hi Hf. unfold request_stop_ctx. lin_simpl. cbn [run].
  destruct (o _ [] (doca_ctx_stop ctx)) as [] eqn:E; simpl;
    try (do 2 eexists; split; [done|]; unfold DOCA_ERROR_PROPAGATE; intros; simplify_eq; auto).
  destruct (wait_until_idle_ends o pe ctx n fuel Hi [Ev (doca_ctx_stop ctx) DOCA_ERROR_IN_PROGRESS])
    as (r & tr & -> & tr0 & e & st & -> & -> & He); [lia|lia|].
  do 2 eexists. split; [done|]. intros ->. right. exists tr0. by rewrite He.
Qed.

Lemma request_stop_ctx_ends_witness :
  exists r tr, run calm (request_stop_ctx 1 1 2) [] = (Ret r, tr) /\
    (r = DOCA_SUCCESS ->
       tr = [Ev (doca_ctx_stop 2) DOCA_SUCCESS] \/
       exists tr0, tr = tr0 ++ [Ev (doca_ctx_get_state 2) (DOCA_SUCCESS, CTX_IDLE)]).
Proof. apply (request_stop_ctx_ends calm 1 2 0 1); [|lia]. intros tr _. by right. Defined.
