(* ===== verification/CUtils.v ===== *)
(** * CUtils: doca_dma/utils.c

    The bounded string functions and the array initialiser on the memory they
    write, and [read_file] as a program of C library calls. *)

From S2P Require Import Prelude.
From S2P Require Import Doca.
From S2P Require Import Ownership.

Definition MIN (x y : Z) : Z := if x <? y then x else y.

(** ** Bounded strings

    [dst] is the destination block, from the pointer on. Writing past its end
    is [UB]. The result is the return value and the block. *)
Definition strlcpy (dst src : list Z) (size : Z) : res (Z * list Z) :=
  let src_len := strlen src in
  if 0 <? size then
    let trimmed_size := Z.to_nat (MIN src_len (size - 1)) in
    if decide (trimmed_size < length dst)%nat
    then Ret (src_len, <[trimmed_size := 0]> (memcpy dst src trimmed_size)) else UB
  else Ret (src_len, dst).

(** [strnlen(s, n)] *)
Definition strnlen (s : list Z) (n : Z) : Z := MIN (strlen s) n.

Definition strlcat (dst src : list Z) (size : Z) : res (Z * list Z) :=
  let dst_len := strnlen dst size in
  if size <=? dst_len then Ret (size, dst)
  else
    '(n, tail) ← strlcpy (drop (Z.to_nat dst_len) dst) src (size - dst_len);
    Ret (u64 (dst_len + n), take (Z.to_nat dst_len) dst ++ tail).

(** ** linear_array_init_u16 *)

Fixpoint init_loop (fuel : nat) (array : list Z) (i n : Z) : res (list Z) :=
  match fuel with
  | O => NoFuel
  | S fuel =>
      if i <? n then
        if decide (Z.to_nat i < length array)%nat
        then init_loop fuel (<[Z.to_nat i := i]> array) (u16 (i + 1)) n else UB
      else Ret array
  end.

Definition linear_array_init_u16 (fuel : nat) (array : list Z) (n : Z) : res (list Z) :=
  init_loop fuel array 0 n.

(** ** read_file

    [out] is the pointer stored in [*out_bytes] with the bytes it points to. *)
Definition read_file (path : list Z) : prog (doca_error * option (Z * list Z)) :=
  file ← invoke (fopen path);
  if file =? 0 then Pure (DOCA_ERROR_NOT_FOUND, None) else
  r ← invoke (fseek file true);
  if negb (r =? 0) then _ ← invoke (fclose file); Pure (DOCA_ERROR_IO_FAILED, None) else
  nb_file_bytes ← invoke (ftell file);
  if nb_file_bytes =? -1 then _ ← invoke (fclose file); Pure (DOCA_ERROR_IO_FAILED, None) else
  if nb_file_bytes =? 0 then _ ← invoke (fclose file); Pure (DOCA_ERROR_INVALID_VALUE, None) else
  bytes ← invoke (malloc (u64 nb_file_bytes));
  if bytes =? 0 then _ ← invoke (fclose file); Pure (DOCA_ERROR_NO_MEMORY, None) else
  r ← invoke (fseek file false);
  if negb (r =? 0) then
    _ ← invoke (free bytes); _ ← invoke (fclose file); Pure (DOCA_ERROR_IO_FAILED, None) else
  data ← invoke (fread file (u64 nb_file_bytes));
  _ ← invoke (fclose file);
  if negb (Z.of_nat (length data) =? u64 nb_file_bytes) then
    _ ← invoke (free bytes); Pure (DOCA_ERROR_IO_FAILED, None)
  else Pure (DOCA_SUCCESS, Some (bytes, data)).

(** ** Lemmas *)

Lemma MIN_min x y : MIN x y = Z.min x y.
Proof. unfold MIN. destruct (Z.ltb_spec x y); lia. Qed.

Lemma cstr_nonzero s : Forall (fun c => c <> 0) (cstr s).
Proof.
  induction s as [|c s IH]; simpl; [done|]. destruct (Z.eqb_spec c 0); [done|]. by constructor.
Qed.

Lemma cstr_app_nul T rest : Forall (fun c => c <> 0) T -> cstr (T ++ 0 :: rest) = T.
Proof.
  induction 1 as [|c T Hc _ IH]; [done|]. simpl. destruct (Z.eqb_spec c 0); [done|]. by rewrite IH.
Qed.

Lemma take_cstr n s : (n <= length (cstr s))%nat -> take n s = take n (cstr s).
Proof. intros H. rewrite <- (cstr_prefix s), take_take. f_equal. lia. Qed.

(** What [strlcpy] writes. *)
Lemma strlcpy_writes dst src size :
  0 < size <= Z.of_nat (length dst) ->
  let t := take (Z.to_nat (size - 1)) (cstr src) in
  strlcpy dst src size = Ret (strlen src, t ++ 0 :: drop (S (length t)) dst).
Proof.
  intros Hs t. unfold strlcpy. destruct (Z.ltb_spec 0 size); [|lia].
  rewrite MIN_min. cbn zeta.
  assert (Z.to_nat (Z.min (strlen src) (size - 1)) = length t) as Hn
    by (unfold t, strlen; rewrite length_take; lia).
  assert (length t <= length (cstr src))%nat by (unfold t; rewrite length_take; lia).
  assert (length t < length dst)%nat by (unfold t; rewrite length_take; lia).
  case_decide; [|lia]. rewrite Hn. unfold memcpy. rewrite take_cstr by done.
  assert (take (length t) (cstr src) = t) as ->.
  { unfold t. rewrite length_take. apply list_eq. intros i.
    destruct (decide (i < Z.to_nat (size - 1) `min` length (cstr src))%nat).
    - rewrite !lookup_take_lt by lia. done.
    - rewrite !lookup_ge_None_2; [done|rewrite length_take; lia..]. }
  do 2 f_equal. rewrite insert_app_r_alt by lia. rewrite Nat.sub_diag. f_equal.
  destruct (lookup_lt_is_Some_2 dst (length t)) as [x Hx]; [done|].
  by rewrite (drop_S _ _ _ Hx).
Qed.

Lemma init_loop_fills n fuel : forall i array,
  (i <= n)%nat -> Z.of_nat n < 2 ^ 16 -> (n - i < fuel)%nat -> (n <= length array)%nat ->
  take i array = Z.of_nat <$> seq 0 i ->
  init_loop fuel array (Z.of_nat i) (Z.of_nat n)
    = Ret ((Z.of_nat <$> seq 0 n) ++ drop n array).
Proof.
  induction fuel as [|fuel IH]; intros i array Hi Hn Hf Hl Ht; [lia|]. cbn [init_loop].
  destruct (Z.ltb_spec (Z.of_nat i) (Z.of_nat n)) as [Hlt|Hge].
  - rewrite Nat2Z.id. case_decide; [|lia]. rewrite wrap_small by (unfold in_width; lia).
    replace (Z.of_nat i + 1) with (Z.of_nat (S i)) by lia.
    rewrite IH; [|lia|done|lia|by rewrite length_insert|].
    + by rewrite drop_insert_lt by lia.
    + rewrite seq_S, fmap_app, <- Ht. rewrite (take_S_r _ i (Z.of_nat i)).
      * by rewrite take_insert_ge.
      * apply list_lookup_insert_eq. lia.
  - assert (i = n) as -> by lia. f_equal. by rewrite <- Ht, take_drop.
Qed.

(** [read_file] ends with the buffer it returns, or with nothing. *)
Definition file_read (r : doca_error * option (Z * list Z)) (rs : list resource) : Prop :=
  match r with
  | (DOCA_SUCCESS, Some (p, _)) => rs = [(KMemory, p)] /\ p <> 0
  | (DOCA_SUCCESS, None) | (_, Some _) => False
  | (_, None) => rs = []
  end.

Lemma read_file_lin {P ok_msg} path : lin (Mode P ok_msg) (read_file path) [] file_read.
Proof.
  unfold read_file. lin_ask f H. destruct (Z.eqb_spec f 0) as [->|Hf]; simpl; [by apply lin_pure|].
  lin_ask r1 H1. simpl. destruct (r1 =? 0); simpl; [|lin_give; by apply lin_pure].
  lin_ask nb H2. simpl. destruct (Z.eqb_spec nb (-1)); [lin_give; by apply lin_pure|].
  destruct (Z.eqb_spec nb 0); [lin_give; by apply lin_pure|].
  lin_ask p H3. simpl. destruct (Z.eqb_spec p 0) as [->|Hp]; simpl; [lin_give; by apply lin_pure|].
  assert (releases_of (free p) = [(KMemory, p)]) as Hfree
    by (simpl; unfold non_null; by destruct (Z.eqb_spec p 0)).
  lin_ask r2 H4. simpl. destruct (r2 =? 0); simpl.
  2: { lin_simpl. eapply lin_release; [apply Hfree|done|reflexivity|intros ? _].
       lin_give. by apply lin_pure. }
  lin_ask d H5. simpl. lin_give. destruct (Z.of_nat (length d) =? u64 nb); simpl.
  - by apply lin_pure.
  - lin_simpl. eapply lin_release; [apply Hfree|done|reflexivity|intros ? _]. by apply lin_pure.
Qed.

(** The length of the data is what [ftell] reported at the end of the file. *)
Lemma read_file_size path :
  wp (read_file path) [] (fun tr r =>
    forall p data, r = (DOCA_SUCCESS, Some (p, data)) ->
    exists f nb, Ev (ftell f) nb ∈ tr /\ Z.of_nat (length data) = u64 nb /\ nb <> 0).
Proof.
  unfold read_file. lin_simpl. cbn [wp]. intros f _. destruct (f =? 0); [done|].
  intros r1 _. destruct (negb (r1 =? 0)); [done|]. intros nb _.
  destruct (nb =? -1); [done|]. destruct (Z.eqb_spec nb 0) as [|Hnb]; [done|].
  intros p _. destruct (p =? 0); [done|]. intros r2 _. destruct (negb (r2 =? 0)); [done|].
  intros d _ c _. destruct (Z.eqb_spec (Z.of_nat (length d)) (u64 nb)) as [E|E]; [|done].
  cbn [negb wp]. intros p' data [= <- <-]. exists f, nb. split_and!; [|done..].
  simpl. do 2 right. left.
Qed.

(** ** Properties *)

(** [strlcpy] with a size within the destination never writes outside it,
    always terminates the string, copies as much of the source as fits and
    returns the length of the source. *)
Theorem strlcpy_correct (dst src : list Z) (size : Z) :
  0 < size <= Z.of_nat (length dst) ->
  exists dst', strlcpy dst src size = Ret (strlen src, dst') /\
    cstr dst' = take (Z.to_nat (size - 1)) (cstr src) /\ length dst' = length dst /\
    drop (Z.to_nat size) dst' = drop (Z.to_nat size) dst.
Proof.
  intros Hs. rewrite strlcpy_writes by done. set (t := take _ _).
  assert (length t <= Z.to_nat (size - 1))%nat as Ht by (unfold t; rewrite length_take; lia).
  eexists. split; [done|]. split_and!.
  - apply cstr_app_nul. apply Forall_take, cstr_nonzero.
  - rewrite length_app. simpl. rewrite length_drop. lia.
  - rewrite drop_app_ge by lia.
    replace (Z.to_nat size - length t)%nat with (S (Z.to_nat size - S (length t))) by lia.
    simpl. rewrite drop_drop. f_equal. lia.
Qed.

Lemma strlcpy_correct_witness :
  exists dst', strlcpy [9; 9; 9; 9] [97; 98; 99; 100; 0] 3 = Ret (4, dst') /\
    cstr dst' = [97; 98] /\ length dst' = 4%nat /\ drop 3 dst' = [9].
Proof. apply (strlcpy_correct [9; 9; 9; 9] [97; 98; 99; 100; 0] 3). simpl. lia. Defined.

(** [strlcat] appends as much of the source as fits to a string that is
    terminated within the given size, keeps it terminated, and returns the
    length of the string it tried to create. *)
Theorem strlcat_correct (dst src : list Z) (size : Z) :
  0 < size <= Z.of_nat (length dst) -> strlen dst < size -> strlen dst + strlen src < 2 ^ 64 ->
  exists dst', strlcat dst src size = Ret (strlen dst + strlen src, dst') /\
    cstr dst' = take (Z.to_nat (size - 1)) (cstr dst ++ cstr src) /\ length dst' = length dst.
Proof.
  intros Hs Hd Hfit. unfold strlcat, strnlen. rewrite MIN_min, Z.min_l by lia.
  destruct (Z.leb_spec size (strlen dst)); [lia|].
  assert (0 <= strlen dst /\ 0 <= strlen src) by (unfold strlen; lia).
  assert (length dst = (Z.to_nat (strlen dst) + length (drop (Z.to_nat (strlen dst)) dst))%nat)
    by (rewrite length_drop; lia).
  rewrite strlcpy_writes by lia. cbn [mbind res_bind].
  rewrite wrap_small by (unfold in_width; lia). eexists. split; [done|].
  assert (take (Z.to_nat (strlen dst)) dst = cstr dst) as ->
    by (unfold strlen; rewrite Nat2Z.id; apply cstr_prefix).
  set (t := take _ (cstr src)).
  assert (length t <= Z.to_nat (size - strlen dst - 1))%nat by (unfold t; rewrite length_take; lia).
  assert (length (cstr dst) = Z.to_nat (strlen dst)) as Hcl by (unfold strlen; lia).
  split.
  - rewrite (assoc_L (++)). rewrite cstr_app_nul.
    + rewrite take_app_ge by lia. f_equal. unfold t. f_equal. lia.
    + apply Forall_app. split; [apply cstr_nonzero|apply Forall_take, cstr_nonzero].
  - rewrite !length_app. simpl. rewrite length_drop. lia.
Qed.

Lemma strlcat_correct_witness :
  exists dst', strlcat [97; 0; 9; 9] [98; 99; 0] 4 = Ret (3, dst') /\
    cstr dst' = [97; 98; 99] /\ length dst' = 4%nat.
Proof. apply (strlcat_correct [97; 0; 9; 9] [98; 99; 0] 4); unfold strlen; simpl; lia. Defined.

(** [linear_array_init_u16] stores 0 .. n-1 in the first [n] cells, leaves
    the rest alone and ends, for every [n] a [uint16_t] can hold. *)
Theorem linear_array_init_correct (fuel : nat) (array : list Z) (n : nat) :
  Z.of_nat n < 2 ^ 16 -> (n <= length array)%nat -> (n < fuel)%nat ->
  linear_array_init_u16 fuel array (Z.of_nat n) = Ret ((Z.of_nat <$> seq 0 n) ++ drop n array).
Proof. intros Hn Hl Hf. apply (init_loop_fills n fuel 0 array); lia || done. Qed.

Lemma linear_array_init_correct_witness :
  linear_array_init_u16 4 [7; 7; 7; 7] 3 = Ret [0; 1; 2; 7].
Proof. apply (linear_array_init_correct 4 [7; 7; 7; 7] 3); simpl; lia. Defined.

(** [read_file] closes the file it opened on every path and frees its
    buffer on every error; a success returns a buffer of exactly the size of
    the file, and a file that is empty is an error. *)
Theorem read_file_owns (o : oracle) (path : list Z) :
  documented_oracle o ->
  match run o (read_file path) [] with
  | (Ret (DOCA_SUCCESS, Some (p, data)), tr) =>
      held [] tr [(KMemory, p)] /\ p <> 0 /\
      exists f nb, Ev (ftell f) nb ∈ tr /\ Z.of_nat (length data) = u64 nb /\ nb <> 0
  | (Ret (_, None), tr) => held [] tr []
  | _ => False
  end.
Proof.
  intros Ho. pose proof (lin_run o _ _ _ Ho (read_file_lin (P := False) path)) as H1.
  pose proof (wp_run o _ _ Ho [] (read_file_size path)) as H2.
  destruct (run o (read_file path) []) as [[[e out]| | |] tr]; try done.
  destruct H1 as (rs & Hh & Hr).
  destruct e, out as [[p data]|]; simpl in Hr; try done; try (by subst rs).
  destruct Hr as [-> Hp]. split_and!; [done..|]. by eapply H2.
Qed.

(** A file of three bytes. *)
Definition three_bytes : oracle := fun X tr c =>
  match c in call X return X with
  | ftell _ => 3
  | fread _ _ => [97; 98; 99]
  | c => all_ok (fun _ => []) (fun _ => CTX_IDLE) _ tr c
  end.

Lemma read_file_owns_witness :
  match run three_bytes (read_file [102]) [] with
  | (Ret (DOCA_SUCCESS, Some (p, data)), tr) =>
      held [] tr [(KMemory, p)] /\ p <> 0 /\
      exists f nb, Ev (ftell f) nb ∈ tr /\ Z.of_nat (length data) = u64 nb /\ nb <> 0
  | (Ret (_, None), tr) => held [] tr []
  | _ => False
  end.
Proof.
  apply (read_file_owns three_bytes [102]). intros X tr c. destruct c; simpl; done || lia.
Defined.
