(* ===== verification/ComchUtils.v ===== *)
(** * ComchUtils: doca_dma/comch_utils.c

    The comm channel helper: connection bookkeeping, sending, set-up and
    tear-down of a client (host) or server (DPU).

    The [struct comch_cfg] is one heap object shared by the main program and
    the callbacks; it is passed as a value and returned by every function that
    may change it. The pointer stored as user data of contexts and connections
    is either NULL or the address of this object. The application behind
    [app_user_data] is a type with the receive callback it registered; its
    state is threaded through the progress loops. *)

From S2P Require Import Prelude.
From S2P Require Import Doca.
From S2P Require Import Common.

Definition COMCH_NUM_TASKS : Z := 1024.

Record comch_cfg := ComchCfg {
  self : Z;                 (* the address of the object *)
  app_user_data : Z;
  pe : Z;
  ctx : Z;
  endpoint : Z;             (* the union of [server] and [client] *)
  active_connection : Z;
  dev : Z;
  dev_rep : Z;
  max_buf_size : Z;
  is_server : bool
}.

Definition set_pe c v := ComchCfg (self c) (app_user_data c) v (ctx c) (endpoint c)
  (active_connection c) (dev c) (dev_rep c) (max_buf_size c) (is_server c).
Definition set_ctx c v := ComchCfg (self c) (app_user_data c) (pe c) v (endpoint c)
  (active_connection c) (dev c) (dev_rep c) (max_buf_size c) (is_server c).
Definition set_endpoint c v := ComchCfg (self c) (app_user_data c) (pe c) (ctx c) v
  (active_connection c) (dev c) (dev_rep c) (max_buf_size c) (is_server c).
Definition set_active_connection c v := ComchCfg (self c) (app_user_data c) (pe c) (ctx c)
  (endpoint c) v (dev c) (dev_rep c) (max_buf_size c) (is_server c).
Definition set_dev c v := ComchCfg (self c) (app_user_data c) (pe c) (ctx c) (endpoint c)
  (active_connection c) v (dev_rep c) (max_buf_size c) (is_server c).
Definition set_dev_rep c v := ComchCfg (self c) (app_user_data c) (pe c) (ctx c) (endpoint c)
  (active_connection c) (dev c) v (max_buf_size c) (is_server c).
Definition set_max_buf_size c v := ComchCfg (self c) (app_user_data c) (pe c) (ctx c) (endpoint c)
  (active_connection c) (dev c) (dev_rep c) v (is_server c).

(** ** Callbacks *)

Definition comch_send_completion (task : Z) : prog unit :=
  _ ← invoke (doca_task_free task); Pure tt.

Definition comch_send_completion_err (task : Z) : prog unit :=
  _ ← invoke (doca_task_free task); Pure tt.

Definition server_connection_cb (cfg : comch_cfg) (conn change_successful : Z) : prog comch_cfg :=
  server ← invoke (doca_comch_server_get_server_ctx conn);
  if change_successful =? 0 then Pure cfg else
  c ← invoke (doca_comch_server_as_ctx server);
  '(result, ctx_user_data) ← invoke (doca_ctx_get_user_data c);
  if negb (ok result) then Pure cfg else
  if ctx_user_data =? 0 then Pure cfg else
  if negb (active_connection cfg =? 0) then
    _ ← invoke (doca_comch_server_disconnect server conn);
    Pure cfg
  else
    result ← invoke (doca_comch_connection_set_user_data conn ctx_user_data);
    if negb (ok result) then Pure cfg else
    Pure (set_active_connection cfg conn).

Definition server_disconnection_cb (cfg : comch_cfg) (conn change_successful : Z)
  : prog comch_cfg :=
  server ← invoke (doca_comch_server_get_server_ctx conn);
  c ← invoke (doca_comch_server_as_ctx server);
  '(result, ctx_user_data) ← invoke (doca_ctx_get_user_data c);
  if negb (ok result) then Pure cfg else
  if ctx_user_data =? 0 then Pure cfg else
  Pure (set_active_connection cfg 0).

(** ** Connections *)

Definition get_comch_cfg_from_connection (cfg : comch_cfg) (conn : Z) : prog (option comch_cfg) :=
  if conn =? 0 then Pure None
  else
    connection_user_data ← invoke (doca_comch_connection_get_user_data conn);
    Pure (if connection_user_data =? 0 then None else Some cfg).

Definition comch_utils_send (cfg : comch_cfg) (conn : Z) (msg : list Z) : prog doca_error :=
  found ← get_comch_cfg_from_connection cfg conn;
  match found with
  | None => Pure DOCA_ERROR_NOT_FOUND
  | Some cfg =>
      if max_buf_size cfg <? Z.of_nat (length msg) then Pure DOCA_ERROR_INVALID_VALUE else
      '(result, task) ←
         (if is_server cfg
          then invoke (doca_comch_server_task_send_alloc_init (endpoint cfg) conn msg)
          else invoke (doca_comch_client_task_send_alloc_init (endpoint cfg) conn msg));
      if bool_decide (result = DOCA_ERROR_NO_MEMORY) then Pure DOCA_ERROR_AGAIN else
      if negb (ok result) then Pure result else
      result ← invoke (doca_task_submit task);
      if negb (ok result) then _ ← invoke (doca_task_free task); Pure result
      else Pure DOCA_SUCCESS
  end.

(** NULL is 0. *)
Definition comch_utils_get_user_data (cfg : comch_cfg) (conn : Z) : prog Z :=
  found ← get_comch_cfg_from_connection cfg conn;
  Pure (match found with None => 0 | Some cfg => app_user_data cfg end).

Definition comch_util_get_connection (cfg : option comch_cfg) : Z :=
  match cfg with None => 0 | Some cfg => active_connection cfg end.

Definition comch_utils_get_max_buffer_size (cfg : option comch_cfg) : Z :=
  match cfg with None => 0 | Some cfg => max_buf_size cfg end.

(** ** Progress

    The callbacks a progress engine invokes during one [doca_pe_progress]. *)
Section application.
Context {app : Type}.
(** The message callback the application registered. *)
Context (recv_event_cb : comch_cfg -> app -> Z -> list Z -> prog app).

Definition deliver (e : pe_event) (s : comch_cfg * app) : prog (comch_cfg * app) :=
  let '(cfg, a) := s in
  match e with
  | EvConnection conn change => cfg ← server_connection_cb cfg conn change; Pure (cfg, a)
  | EvDisconnection conn change => cfg ← server_disconnection_cb cfg conn change; Pure (cfg, a)
  | EvMessage conn bytes => a ← recv_event_cb cfg a conn bytes; Pure (cfg, a)
  | EvSendCompletion task => _ ← comch_send_completion task; Pure (cfg, a)
  | EvSendError task => _ ← comch_send_completion_err task; Pure (cfg, a)
  | EvDmaCompletion _ | EvDmaError _ | EvMemcpyCompleted _ _ | EvMemcpyError _ _ => Pure (cfg, a)
  end.

Fixpoint deliver_all (es : list pe_event) (s : comch_cfg * app) : prog (comch_cfg * app) :=
  match es with
  | [] => Pure s
  | e :: es => s ← deliver e s; deliver_all es s
  end.

(** [doca_pe_progress(cfg->pe)] with the callbacks it runs. *)
Definition progress (s : comch_cfg * app) : prog (comch_cfg * app) :=
  '(_, es) ← invoke (doca_pe_progress (pe s.1));
  deliver_all es s.

Definition comch_utils_progress_connection (s : comch_cfg * app) (conn : Z)
  : prog (doca_error * (comch_cfg * app)) :=
  found ← get_comch_cfg_from_connection s.1 conn;
  match found with
  | None => Pure (DOCA_ERROR_INVALID_VALUE, s)
  | Some _ => s ← progress s; Pure (DOCA_SUCCESS, s)
  end.

(** ** Set-up *)

(** The cleanup labels of [comch_utils_fast_path_init]. *)
Definition destroy_comch_cfg (result : doca_error) (s : comch_cfg * app)
  : prog (doca_error * option comch_cfg * app) :=
  _ ← invoke (free (self s.1));
  Pure (result, None, s.2).

Definition destroy_pe (result : doca_error) (s : comch_cfg * app)
  : prog (doca_error * option comch_cfg * app) :=
  _ ← invoke (doca_pe_destroy (pe s.1));
  destroy_comch_cfg result s.

Definition close_device (result : doca_error) (s : comch_cfg * app)
  : prog (doca_error * option comch_cfg * app) :=
  _ ← invoke (doca_dev_close (dev s.1));
  destroy_pe result s.

Definition close_rep_device (result : doca_error) (s : comch_cfg * app)
  : prog (doca_error * option comch_cfg * app) :=
  if is_server s.1 then
    _ ← invoke (doca_dev_rep_close (dev_rep s.1));
    close_device result s
  else close_device result s.

Definition destroy_comch_ep (result : doca_error) (s : comch_cfg * app)
  : prog (doca_error * option comch_cfg * app) :=
  if is_server s.1 then
    _ ← invoke (doca_comch_server_destroy (endpoint s.1));
    close_rep_device result s
  else
    _ ← invoke (doca_comch_client_destroy (endpoint s.1));
    close_rep_device result s.

(** [while (cfg->active_connection == NULL)] *)
Fixpoint wait_for_client (fuel : nat) (s : comch_cfg * app) : prog (comch_cfg * app) :=
  match fuel with
  | O => Spin
  | S fuel =>
      if active_connection s.1 =? 0 then
        s ← progress s;
        _ ← invoke nanosleep;
        wait_for_client fuel s
      else Pure s
  end.

(** [while (state != wanted)], after the state was read once. *)
Fixpoint wait_for_state (fuel : nat) (wanted state : doca_ctx_state) (s : comch_cfg * app)
  : prog (comch_cfg * app) :=
  match fuel with
  | O => Spin
  | S fuel =>
      if bool_decide (state = wanted) then Pure s
      else
        s ← progress s;
        _ ← invoke nanosleep;
        '(_, state) ← invoke (doca_ctx_get_state (ctx s.1));
        wait_for_state fuel wanted state s
  end.

(** The registration of consumer events, only for applications that use the
    fast path. *)
Definition register_consumer (c : call doca_error) (new_cb expired_cb : Z) : prog doca_error :=
  if negb (new_cb =? 0) || negb (expired_cb =? 0) then invoke c else Pure DOCA_SUCCESS.

(** The server branch once the server exists. *)
Definition configure_server (fuel : nat) (recv_cb new_cb expired_cb : Z) (s : comch_cfg * app)
  : prog (doca_error * option comch_cfg * app) :=
  let '(cfg, a) := s in
  result ← invoke (doca_comch_server_set_max_msg_size (endpoint cfg) (max_buf_size cfg));
  if negb (ok result) then destroy_comch_ep result (cfg, a) else
  c ← invoke (doca_comch_server_as_ctx (endpoint cfg));
  let cfg := set_ctx cfg c in
  result ← invoke (doca_pe_connect_ctx (pe cfg) (ctx cfg));
  if negb (ok result) then destroy_comch_ep result (cfg, a) else
  result ← invoke (doca_comch_server_task_send_set_conf (endpoint cfg) COMCH_NUM_TASKS);
  if negb (ok result) then destroy_comch_ep result (cfg, a) else
  result ← invoke (doca_comch_server_event_msg_recv_register (endpoint cfg) recv_cb);
  if negb (ok result) then destroy_comch_ep result (cfg, a) else
  result ← invoke (doca_comch_server_event_connection_status_changed_register (endpoint cfg));
  if negb (ok result) then destroy_comch_ep result (cfg, a) else
  result ← register_consumer
             (doca_comch_server_event_consumer_register (endpoint cfg) new_cb expired_cb)
             new_cb expired_cb;
  if negb (ok result) then destroy_comch_ep result (cfg, a) else
  _ ← invoke (doca_ctx_set_user_data (ctx cfg) (self cfg));
  let cfg := set_active_connection cfg 0 in
  result ← invoke (doca_ctx_start (ctx cfg));
  if negb (ok result) then destroy_comch_ep result (cfg, a) else
  '(cfg, a) ← wait_for_client fuel (cfg, a);
  Pure (DOCA_SUCCESS, Some cfg, a).

Definition init_server (fuel : nat) (server_name rep_pci_addr : list Z)
    (recv_cb new_cb expired_cb : Z) (s : comch_cfg * app)
  : prog (doca_error * option comch_cfg * app) :=
  let '(cfg, a) := s in
  devinfo ← invoke (doca_dev_as_devinfo (dev cfg));
  result ← invoke (doca_comch_cap_server_is_supported devinfo);
  if negb (ok result) then close_device result (cfg, a) else
  '(result, rep) ← open_doca_device_rep_with_pci (dev cfg) rep_pci_addr;
  let cfg := set_dev_rep cfg rep in
  if negb (ok result) then close_device result (cfg, a) else
  '(result, server) ← invoke (doca_comch_server_create (dev cfg) (dev_rep cfg) server_name);
  let cfg := set_endpoint cfg server in
  if negb (ok result) then close_rep_device result (cfg, a) else
  configure_server fuel recv_cb new_cb expired_cb (cfg, a).

(** The client branch once the client exists. A start that completes at once
    ([DOCA_SUCCESS]) takes the error path. *)
Definition configure_client (fuel : nat) (recv_cb new_cb expired_cb : Z) (s : comch_cfg * app)
  : prog (doca_error * option comch_cfg * app) :=
  let '(cfg, a) := s in
  result ← invoke (doca_comch_client_set_max_msg_size (endpoint cfg) (max_buf_size cfg));
  if negb (ok result) then destroy_comch_ep result (cfg, a) else
  c ← invoke (doca_comch_client_as_ctx (endpoint cfg));
  let cfg := set_ctx cfg c in
  result ← invoke (doca_pe_connect_ctx (pe cfg) (ctx cfg));
  if negb (ok result) then destroy_comch_ep result (cfg, a) else
  result ← invoke (doca_comch_client_task_send_set_conf (endpoint cfg) COMCH_NUM_TASKS);
  if negb (ok result) then destroy_comch_ep result (cfg, a) else
  result ← invoke (doca_comch_client_event_msg_recv_register (endpoint cfg) recv_cb);
  if negb (ok result) then destroy_comch_ep result (cfg, a) else
  result ← register_consumer
             (doca_comch_client_event_consumer_register (endpoint cfg) new_cb expired_cb)
             new_cb expired_cb;
  if negb (ok result) then destroy_comch_ep result (cfg, a) else
  _ ← invoke (doca_ctx_set_user_data (ctx cfg) (self cfg));
  result ← invoke (doca_ctx_start (ctx cfg));
  if negb (bool_decide (result = DOCA_ERROR_IN_PROGRESS)) then destroy_comch_ep result (cfg, a) else
  '(_, state) ← invoke (doca_ctx_get_state (ctx cfg));
  '(cfg, a) ← wait_for_state fuel CTX_RUNNING state (cfg, a);
  '(_, conn) ← invoke (doca_comch_client_get_connection (endpoint cfg));
  let cfg := set_active_connection cfg conn in
  _ ← invoke (doca_comch_connection_set_user_data (active_connection cfg) (self cfg));
  Pure (DOCA_SUCCESS, Some cfg, a).

Definition init_client (fuel : nat) (server_name : list Z) (recv_cb new_cb expired_cb : Z)
    (s : comch_cfg * app) : prog (doca_error * option comch_cfg * app) :=
  let '(cfg, a) := s in
  devinfo ← invoke (doca_dev_as_devinfo (dev cfg));
  result ← invoke (doca_comch_cap_client_is_supported devinfo);
  if negb (ok result) then close_device result (cfg, a) else
  '(result, client) ← invoke (doca_comch_client_create (dev cfg) server_name);
  let cfg := set_endpoint cfg client in
  if negb (ok result) then close_device result (cfg, a) else
  configure_client fuel recv_cb new_cb expired_cb (cfg, a).

(** The argument checks, with those selected by [DOCA_ARCH_DPU]. *)
Definition init_args_ok (arch_dpu : bool) (server_name pci_addr rep_pci_addr : option (list Z))
    (client_recv_cb server_recv_cb : Z) (out_null : bool) : bool :=
  bool_decide (server_name <> None) && bool_decide (pci_addr <> None) && negb out_null &&
  (if arch_dpu then bool_decide (rep_pci_addr <> None) && negb (server_recv_cb =? 0)
   else negb (client_recv_cb =? 0)).

Definition sizeof_comch_cfg : Z := 64.

Definition comch_utils_fast_path_init (fuel : nat) (arch_dpu : bool)
    (server_name pci_addr rep_pci_addr : option (list Z)) (user_data : Z)
    (client_recv_cb server_recv_cb new_cb expired_cb : Z) (out_null : bool) (a : app)
  : prog (doca_error * option comch_cfg * app) :=
  if negb (init_args_ok arch_dpu server_name pci_addr rep_pci_addr client_recv_cb server_recv_cb
             out_null)
  then Pure (DOCA_ERROR_INVALID_VALUE, None, a) else
  p ← invoke (calloc 1 sizeof_comch_cfg);
  if p =? 0 then Pure (DOCA_ERROR_NO_MEMORY, None, a) else
  let cfg := ComchCfg p user_data 0 0 0 0 0 0 0 arch_dpu in
  '(result, e) ← invoke doca_pe_create;
  let cfg := set_pe cfg e in
  if negb (ok result) then destroy_comch_cfg result (cfg, a) else
  '(result, d) ← open_doca_device_with_pci (default [] pci_addr) None;
  let cfg := set_dev cfg d in
  if negb (ok result) then destroy_pe result (cfg, a) else
  devinfo ← invoke (doca_dev_as_devinfo (dev cfg));
  '(result, size) ← invoke (doca_comch_cap_get_max_msg_size devinfo);
  let cfg := set_max_buf_size cfg size in
  if negb (ok result) then close_device result (cfg, a) else
  if is_server cfg
  then init_server fuel (default [] server_name) (default [] rep_pci_addr) server_recv_cb
         new_cb expired_cb (cfg, a)
  else init_client fuel (default [] server_name) client_recv_cb new_cb expired_cb (cfg, a).

Definition comch_utils_init (fuel : nat) (arch_dpu : bool)
    (server_name pci_addr rep_pci_addr : option (list Z)) (user_data : Z)
    (client_recv_cb server_recv_cb : Z) (out_null : bool) (a : app)
  : prog (doca_error * option comch_cfg * app) :=
  comch_utils_fast_path_init fuel arch_dpu server_name pci_addr rep_pci_addr user_data
    client_recv_cb server_recv_cb 0 0 out_null a.

(** ** Tear-down *)

(** [while (comch_cfg->active_connection != NULL)] *)
Fixpoint wait_for_disconnection (fuel : nat) (s : comch_cfg * app) : prog (comch_cfg * app) :=
  match fuel with
  | O => Spin
  | S fuel =>
      if active_connection s.1 =? 0 then Pure s
      else
        s ← progress s;
        _ ← invoke nanosleep;
        wait_for_disconnection fuel s
  end.

(** From [doca_dev_close] on; the result tells whether the object is freed. *)
Definition destroy_tail (s : comch_cfg * app) : prog (doca_error * (comch_cfg * app)) :=
  result ← invoke (doca_dev_close (dev s.1));
  if negb (ok result) then Pure (result, s) else
  result ← invoke (doca_pe_destroy (pe s.1));
  if negb (ok result) then Pure (result, s) else
  _ ← invoke (free (self s.1));
  Pure (DOCA_SUCCESS, s).

Definition comch_utils_destroy (fuel : nat) (s : comch_cfg * app)
  : prog (doca_error * (comch_cfg * app)) :=
  s ← (if is_server s.1 then wait_for_disconnection fuel s else Pure s);
  result ← invoke (doca_ctx_stop (ctx s.1));
  if negb (bool_decide (result = DOCA_ERROR_IN_PROGRESS)) && negb (ok result)
  then Pure (result, s) else
  '(_, state) ← invoke (doca_ctx_get_state (ctx s.1));
  s ← wait_for_state fuel CTX_IDLE state s;
  if is_server s.1 then
    result ← invoke (doca_comch_server_destroy (endpoint s.1));
    if negb (ok result) then Pure (result, s) else
    result ← invoke (doca_dev_rep_close (dev_rep s.1));
    if negb (ok result) then Pure (result, s) else
    destroy_tail s
  else
    result ← invoke (doca_comch_client_destroy (endpoint s.1));
    if negb (ok result) then Pure (result, s) else
    destroy_tail s.
End application.
