(* ===== verification/ComchProps.v ===== *)
(** * ComchProps: properties of doca_dma/comch_utils.c *)

From S2P Require Import Prelude.
From S2P Require Import Doca.
From S2P Require Import Ownership.
From S2P Require Import Common.
From S2P Require Import CommonProps.
From S2P Require Import ComchUtils.

(** What a set-up channel holds. *)
Definition endpoint_resources (c : comch_cfg) : list resource :=
  if is_server c then [(KServer, endpoint c); (KRep, dev_rep c)] else [(KClient, endpoint c)].
Definition base_resources (c : comch_cfg) : list resource :=
  [(KDev, dev c); (KPe, pe c); (KMemory, self c)].
Definition cfg_resources (c : comch_cfg) : list resource :=
  endpoint_resources c ++ base_resources c.

(** [c'] is [c] with another active connection. *)
Definition reconnected (c c' : comch_cfg) : Prop := exists v, c' = set_active_connection c v.

Lemma reconnected_refl c : reconnected c c.
Proof. exists (active_connection c). by destruct c. Qed.

Lemma reconnected_trans c1 c2 c3 : reconnected c1 c2 -> reconnected c2 c3 -> reconnected c1 c3.
Proof. intros [v ->] [w ->]. by exists w. Qed.

Lemma reconnected_resources c c' : reconnected c c' ->
  cfg_resources c' = cfg_resources c /\ is_server c' = is_server c /\ self c' = self c.
Proof. by intros [v ->]. Qed.

#[local] Hint Resolve reconnected_refl : core.

(** ** Callbacks *)

Lemma server_connection_cb_lin {M : mode} cfg conn change :
  lin M (server_connection_cb cfg conn change) [] (fun c' rs => rs = [] /\ reconnected cfg c').
Proof.
  unfold server_connection_cb. lin_ask sv H1. destruct (change =? 0); [by apply lin_pure|].
  lin_ask c H2. lin_ask x H3. destruct x as [e d]. simpl. destruct (ok e); [|by apply lin_pure].
  simpl. destruct (d =? 0); [by apply lin_pure|].
  destruct (active_connection cfg =? 0); simpl.
  - lin_ask e2 H4. simpl. destruct (ok e2); simpl; apply lin_pure; [|done].
    split; [done|by eexists].
  - lin_ask e2 H4. by apply lin_pure.
Qed.

Lemma server_disconnection_cb_lin {M : mode} cfg conn change :
  lin M (server_disconnection_cb cfg conn change) [] (fun c' rs => rs = [] /\ reconnected cfg c').
Proof.
  unfold server_disconnection_cb. lin_ask sv H1. lin_ask c H2. lin_ask x H3.
  destruct x as [e d]. simpl. destruct (ok e); [|by apply lin_pure].
  simpl. destruct (d =? 0); apply lin_pure; [done|]. split; [done|by eexists].
Qed.

Lemma comch_utils_send_quiet {M : mode} cfg conn msg : quiet M (comch_utils_send cfg conn msg).
Proof.
  unfold comch_utils_send, get_comch_cfg_from_connection.
  destruct (conn =? 0); lin_simpl; [apply quiet_pure|].
  apply quiet_call; [done|done|intros d]. destruct (d =? 0); [apply quiet_pure|].
  destruct (_ <? _); [apply quiet_pure|].
  destruct (is_server cfg); lin_simpl; (apply quiet_call; [done|done|intros [e t]]);
    (case_bool_decide; [apply quiet_pure|]); (destruct (ok e); [|apply quiet_pure]); simpl;
    lin_simpl; (apply quiet_call; [done|done|intros e2]);
    (destruct (ok e2); simpl; [apply quiet_pure|]); lin_simpl;
    (apply quiet_call; [done|done|intros; apply quiet_pure]).
Qed.

(** ** Progress

    [holds a rs]: the application may hold the resources [rs] in state [a]; its
    callback keeps this for the messages of the mode. *)
Section progress.
Context {app : Type}.
Context (recv_event_cb : comch_cfg -> app -> Z -> list Z -> prog app).
Context (holds : app -> list resource -> Prop).
Context {M : mode}.
Context (Hrecv : forall cfg a conn bytes rs, msg_ok M bytes -> holds a rs ->
  lin M (recv_event_cb cfg a conn bytes) rs holds).

Abbreviation good s := (fun (s' : comch_cfg * app) (rs : list resource) =>
  holds s'.2 rs /\ reconnected s.1 s'.1).

Lemma deliver_lin e s rs : event_ok (msg_ok M) e -> holds s.2 rs ->
  lin M (deliver recv_event_cb e s) rs (good s).
Proof using Hrecv.
  intros He Hs. destruct s as [cfg a].
  destruct e as [conn ch|conn ch|conn bs|t|t|t|t|t d|t d]; cbn [deliver fst snd] in *;
    try (by apply lin_pure; simpl; auto).
  - eapply (lin_call_fn _ _ [] rs); [apply server_connection_cb_lin|reflexivity|].
    intros c' rs' [-> Hc]. by apply lin_pure.
  - eapply (lin_call_fn _ _ [] rs); [apply server_disconnection_cb_lin|reflexivity|].
    intros c' rs' [-> Hc]. by apply lin_pure.
  - apply lin_bind. eapply lin_mono; [by apply Hrecv|]. intros a' rs' H'. apply lin_pure. simpl. auto.
  - unfold comch_send_completion. lin_ask u H. apply lin_pure. simpl. auto.
  - unfold comch_send_completion_err. lin_ask u H. apply lin_pure. simpl. auto.
Qed.

Lemma deliver_all_lin es : Forall (event_ok (msg_ok M)) es -> forall s rs, holds s.2 rs ->
  lin M (deliver_all recv_event_cb es s) rs (good s).
Proof using Hrecv.
  induction 1 as [|e es He _ IH]; intros s rs Hs; cbn [deliver_all]; [apply lin_pure; auto|].
  apply lin_bind. eapply lin_mono; [by apply deliver_lin|]. intros s' rs' [Hh Hs'].
  eapply lin_mono; [by apply IH|]. intros s2 rs2 [Hh2 Hs2]. split; [done|].
  by eapply reconnected_trans.
Qed.

Lemma progress_lin s rs : holds s.2 rs -> lin M (progress recv_event_cb s) rs (good s).
Proof using Hrecv.
  intros Hs. unfold progress. lin_simpl. apply lin_acquire; [done|]. intros [n es] _ Hes.
  by apply deliver_all_lin.
Qed.

(** The polling loops. *)
Lemma wait_for_client_lin fuel : may_spin M -> forall s rs, holds s.2 rs ->
  lin M (wait_for_client recv_event_cb fuel s) rs (good s).
Proof using Hrecv.
  intros HS. induction fuel as [|fuel IH]; intros s rs Hs; cbn [wait_for_client]; [exact HS|].
  destruct (active_connection s.1 =? 0); [|apply lin_pure; auto].
  apply lin_bind. eapply lin_mono; [by apply progress_lin|]. intros s1 rs1 [Hh1 H1].
  lin_ask u Hu. eapply lin_mono; [by apply IH|]. intros s2 rs2 [Hh2 H2]. split; [done|].
  by eapply reconnected_trans.
Qed.

Lemma wait_for_state_lin fuel wanted : may_spin M -> forall state s rs, holds s.2 rs ->
  lin M (wait_for_state recv_event_cb fuel wanted state s) rs (good s).
Proof using Hrecv.
  intros HS. induction fuel as [|fuel IH]; intros state s rs Hs; cbn [wait_for_state]; [exact HS|].
  case_bool_decide; [apply lin_pure; auto|].
  apply lin_bind. eapply lin_mono; [by apply progress_lin|]. intros s1 rs1 [Hh1 H1].
  lin_ask u Hu. lin_ask x Hx. destruct x as [e st].
  eapply lin_mono; [by apply IH|]. intros s2 rs2 [Hh2 H2]. split; [done|].
  by eapply reconnected_trans.
Qed.

Lemma wait_for_disconnection_lin fuel : may_spin M -> forall s rs, holds s.2 rs ->
  lin M (wait_for_disconnection recv_event_cb fuel s) rs (good s).
Proof using Hrecv.
  intros HS. induction fuel as [|fuel IH]; intros s rs Hs; cbn [wait_for_disconnection]; [exact HS|].
  destruct (active_connection s.1 =? 0); [apply lin_pure; auto|].
  apply lin_bind. eapply lin_mono; [by apply progress_lin|]. intros s1 rs1 [Hh1 H1].
  lin_ask u Hu. eapply lin_mono; [by apply IH|]. intros s2 rs2 [Hh2 H2]. split; [done|].
  by eapply reconnected_trans.
Qed.

(** ** Set-up *)

(** What a failed set-up ends with. *)
Definition failed_with (e : doca_error) (r : doca_error * option comch_cfg * app)
    (rs : list resource) : Prop := r.1 = (e, None) /\ holds r.2 rs.

Lemma destroy_comch_cfg_lin e c a rs : self c <> 0 -> holds a rs ->
  lin M (destroy_comch_cfg e (c, a)) ((KMemory, self c) :: rs) (failed_with e).
Proof using Type.
  intros H Ha. unfold destroy_comch_cfg. lin_simpl.
  eapply lin_release; [by apply non_null_some|done|reflexivity|]. intros ? _. by apply lin_pure.
Qed.

Lemma destroy_pe_lin e c a rs : self c <> 0 -> holds a rs ->
  lin M (destroy_pe e (c, a)) ((KPe, pe c) :: (KMemory, self c) :: rs) (failed_with e).
Proof using Type. intros H Ha. unfold destroy_pe. lin_give. by apply destroy_comch_cfg_lin. Qed.

Lemma close_device_lin e c a rs : self c <> 0 -> holds a rs ->
  lin M (close_device e (c, a)) (base_resources c ++ rs) (failed_with e).
Proof using Type. intros H Ha. unfold close_device. lin_give. by apply destroy_pe_lin. Qed.

Lemma close_rep_device_lin e c a rs : self c <> 0 -> holds a rs ->
  lin M (close_rep_device e (c, a))
    ((if is_server c then [(KRep, dev_rep c)] else []) ++ base_resources c ++ rs) (failed_with e).
Proof using Type.
  intros H Ha. unfold close_rep_device. cbn [fst]. destruct (is_server c).
  - lin_give. by apply close_device_lin.
  - by apply close_device_lin.
Qed.

Lemma destroy_comch_ep_lin e c a rs : self c <> 0 -> holds a rs ->
  lin M (destroy_comch_ep e (c, a)) (cfg_resources c ++ rs) (failed_with e).
Proof using Type.
  intros H Ha. unfold destroy_comch_ep, cfg_resources, endpoint_resources. cbn [fst].
  pose proof (close_rep_device_lin e c a rs H Ha) as Hc.
  destruct (is_server c); lin_give; apply Hc.
Qed.

(** What a set-up ends with: a usable channel and [DOCA_SUCCESS], or nothing
    besides what the application holds. *)
Definition set_up (r : doca_error * option comch_cfg * app) (rs : list resource) : Prop :=
  match r.1.2 with
  | Some c => r.1.1 = DOCA_SUCCESS /\ self c <> 0 /\
              exists rs', rs ≡ₚ cfg_resources c ++ rs' /\ holds r.2 rs'
  | None => holds r.2 rs
  end.

Lemma failed_set_up e r rs : failed_with e r rs -> set_up r rs.
Proof using Type. destruct r as [[? ?] a]. by intros [[= -> ->] ?]. Qed.

Lemma endpoint_failure e c a rs pre : self c <> 0 -> holds a rs -> pre ≡ₚ cfg_resources c ++ rs ->
  lin M (destroy_comch_ep e (c, a)) pre set_up.
Proof using Type.
  intros H Ha ->. eapply lin_mono; [by apply destroy_comch_ep_lin|]. intros. by eapply failed_set_up.
Qed.

(** A configuration step of the endpoint: on failure everything is undone. *)
Ltac endpoint_step :=
  let e := fresh "e" in let H := fresh "H" in
  lin_ask e H; destruct (ok_spec e) as [->|]; cbn [negb Datatypes.app];
  [|eapply endpoint_failure; [assumption|eassumption|reflexivity]].

Lemma register_consumer_quiet (c : call doca_error) new_cb expired_cb :
  releases_of c = [] -> (forall x, takes M c x = []) ->
  quiet M (register_consumer c new_cb expired_cb).
Proof using Type.
  intros Hr Ha. unfold register_consumer. destruct (_ || _); [|apply quiet_pure].
  apply quiet_call; [done|done|intros; apply quiet_pure].
Qed.

Lemma configure_server_lin fuel recv_cb new_cb expired_cb c a rs :
  may_spin M -> self c <> 0 -> is_server c = true -> holds a rs ->
  lin M (configure_server recv_event_cb fuel recv_cb new_cb expired_cb (c, a))
    (cfg_resources c ++ rs) set_up.
Proof using Hrecv.
  intros HS Hself Hserver Ha. unfold configure_server. endpoint_step.
  lin_ask x Hx. cbn [Datatypes.app]. endpoint_step. endpoint_step. endpoint_step. endpoint_step.
  apply lin_quiet; [by apply register_consumer_quiet|].
  intros e. destruct (ok_spec e) as [->|]; cbn [negb]; [|by eapply endpoint_failure].
  lin_ask u Hu. cbn [Datatypes.app]. endpoint_step.
  set (c' := set_active_connection _ _).
  eapply (lin_call_fn _ _ rs (cfg_resources c));
    [apply (wait_for_client_lin fuel HS (c', a) rs Ha)|apply Permutation_app_comm|].
  intros [c2 a2] rs2 [Hh Hr]. apply lin_pure. cbn [fst snd] in *.
  destruct (reconnected_resources _ _ Hr) as (Hc & _ & Hs). split_and!; [done|by rewrite Hs|].
  exists rs2. split; [|done]. cbn [fst snd]. rewrite Hc. apply Permutation_app_comm.
Qed.

Lemma configure_client_lin fuel recv_cb new_cb expired_cb c a rs :
  may_spin M -> self c <> 0 -> is_server c = false -> holds a rs ->
  lin M (configure_client recv_event_cb fuel recv_cb new_cb expired_cb (c, a))
    (cfg_resources c ++ rs) set_up.
Proof using Hrecv.
  intros HS Hself Hserver Ha. unfold configure_client. endpoint_step.
  lin_ask x Hx. cbn [Datatypes.app]. endpoint_step. endpoint_step. endpoint_step.
  apply lin_quiet; [by apply register_consumer_quiet|].
  intros e. destruct (ok_spec e) as [->|]; cbn [negb]; [|by eapply endpoint_failure].
  lin_ask u Hu. cbn [Datatypes.app]. lin_ask e He. cbn [Datatypes.app].
  case_bool_decide; cbn [negb]; [|by eapply endpoint_failure].
  lin_ask y Hy. destruct y as [e2 st]. cbn [Datatypes.app].
  eapply (lin_call_fn _ _ rs (cfg_resources c));
    [apply (wait_for_state_lin fuel CTX_RUNNING HS st (ComchUtils.set_ctx c x, a) rs Ha)
    |apply Permutation_app_comm|].
  intros [c2 a2] rs2 [Hh Hr]. cbn [fst snd] in *.
  lin_ask z Hz. destruct z as [e3 conn]. cbn [Datatypes.app]. lin_ask e4 He4.
  cbn [Datatypes.app]. apply lin_pure.
  destruct (reconnected_resources _ _ Hr) as (Hc & _ & Hs). split_and!; [done|simpl; by rewrite Hs|].
  exists rs2. split; [|done]. cbn [fst snd].
  change (cfg_resources (set_active_connection c2 conn)) with (cfg_resources c2).
  rewrite Hc. apply Permutation_app_comm.
Qed.

Lemma device_failure e c a rs pre : self c <> 0 -> holds a rs -> pre ≡ₚ base_resources c ++ rs ->
  lin M (close_device e (c, a)) pre set_up.
Proof using Type.
  intros H Ha ->. eapply lin_mono; [by apply close_device_lin|]. intros. by eapply failed_set_up.
Qed.

Lemma init_server_lin fuel name rep_pci recv_cb new_cb expired_cb c a rs :
  may_spin M -> self c <> 0 -> is_server c = true -> holds a rs ->
  lin M (init_server recv_event_cb fuel name rep_pci recv_cb new_cb expired_cb (c, a))
    (base_resources c ++ rs) set_up.
Proof using Hrecv.
  intros HS Hself Hserver Ha. unfold init_server. lin_ask d Hd. lin_ask e He.
  cbn [Datatypes.app]. destruct (ok_spec e) as [->|]; cbn [negb]; [|by eapply device_failure].
  eapply (lin_call_fn _ _ [] (base_resources c ++ rs));
    [apply open_doca_device_rep_with_pci_lin|done|].
  intros [e rep] rs2 Hrs. unfold opened in Hrs. simpl fst in Hrs.
  destruct (ok_spec e) as [->|]; [destruct Hrs as [-> _]|subst rs2]; cbn [negb];
    [|by eapply device_failure].
  lin_ask x Hx. destruct x as [e srv]. cbn [fst snd]. destruct (ok_spec e) as [->|]; cbn [negb].
  - pose proof (configure_server_lin fuel recv_cb new_cb expired_cb
      (set_endpoint (ComchUtils.set_dev_rep c rep) srv) a rs HS Hself Hserver Ha) as H.
    unfold cfg_resources, endpoint_resources in H. simpl in H. rewrite Hserver in H. exact H.
  - pose proof (close_rep_device_lin e (set_endpoint (set_dev_rep c rep) srv) a rs Hself Ha) as H.
    simpl in H. rewrite Hserver in H. eapply lin_mono; [exact H|]. intros. by eapply failed_set_up.
Qed.

Lemma init_client_lin fuel name recv_cb new_cb expired_cb c a rs :
  may_spin M -> self c <> 0 -> is_server c = false -> holds a rs ->
  lin M (init_client recv_event_cb fuel name recv_cb new_cb expired_cb (c, a))
    (base_resources c ++ rs) set_up.
Proof using Hrecv.
  intros HS Hself Hserver Ha. unfold init_client. lin_ask d Hd. lin_ask e He.
  cbn [Datatypes.app]. destruct (ok_spec e) as [->|]; cbn [negb]; [|by eapply device_failure].
  lin_ask x Hx. destruct x as [e cl]. cbn [fst snd].
  destruct (ok_spec e) as [->|]; cbn [negb]; [|by eapply device_failure].
  pose proof (configure_client_lin fuel recv_cb new_cb expired_cb (set_endpoint c cl) a rs HS Hself
    Hserver Ha) as H.
  unfold cfg_resources, endpoint_resources in H. simpl in H. rewrite Hserver in H. exact H.
Qed.

Lemma comch_utils_fast_path_init_lin fuel arch_dpu name pci rep_pci user_data client_cb server_cb
    new_cb expired_cb out_null a rs : may_spin M -> holds a rs ->
  lin M (comch_utils_fast_path_init recv_event_cb fuel arch_dpu name pci rep_pci user_data
           client_cb server_cb new_cb expired_cb out_null a) rs set_up.
Proof using Hrecv.
  intros HS Ha. unfold comch_utils_fast_path_init. destruct (negb _); [by apply lin_pure|].
  lin_ask p Hp. destruct (Z.eqb_spec p 0) as [|Hne]; cbn [Datatypes.app]; [by apply lin_pure|].
  lin_ask x Hx. destruct x as [e q]. cbn [fst snd]. destruct (ok_spec e) as [->|]; cbn [negb].
  2: { eapply lin_mono; [by apply destroy_comch_cfg_lin|]. intros. by eapply failed_set_up. }
  eapply (lin_call_fn _ _ [] ((KPe, q) :: (KMemory, p) :: rs));
    [by apply open_doca_device_with_pci_lin|done|].
  intros [e d] rs2 Hrs. unfold opened in Hrs. simpl fst in Hrs.
  destruct (ok_spec e) as [->|]; [destruct Hrs as [-> _]|subst rs2]; cbn [negb].
  2: { eapply lin_mono; [by apply destroy_pe_lin|]. intros. by eapply failed_set_up. }
  lin_ask i Hi. lin_ask y Hy. destruct y as [e size]. cbn [Datatypes.app].
  destruct (ok_spec e) as [->|]; cbn [negb]; [|by eapply device_failure].
  destruct arch_dpu; cbn [is_server].
  - by apply init_server_lin.
  - by apply init_client_lin.
Qed.

(** ** Tear-down *)

(** On success nothing of the channel is left. *)
Definition torn_down (r : doca_error * (comch_cfg * app)) (rs : list resource) : Prop :=
  r.1 = DOCA_SUCCESS -> holds r.2.2 rs.

(** A call of the tear-down that gives back the first resource. *)
Ltac tear_down_step :=
  let e := fresh "e" in
  lin_simpl; eapply lin_release; [reflexivity|done|reflexivity|intros e _];
  destruct (ok_spec e) as [->|]; cbn [negb];
  [|apply lin_pure; unfold torn_down; cbn [fst snd]; congruence].

Lemma destroy_tail_lin c a rs : self c <> 0 -> holds a rs ->
  lin M (destroy_tail (c, a)) (base_resources c ++ rs) torn_down.
Proof using Type.
  intros H Ha. unfold destroy_tail, base_resources. cbn [fst Datatypes.app]. do 2 tear_down_step.
  lin_simpl. eapply lin_release; [by apply non_null_some|done|reflexivity|].
  intros ? _. apply lin_pure. by intros _.
Qed.

Lemma comch_utils_destroy_lin fuel c a rs : may_spin M -> self c <> 0 -> holds a rs ->
  lin M (comch_utils_destroy recv_event_cb fuel (c, a)) (cfg_resources c ++ rs) torn_down.
Proof using Hrecv.
  intros HS Hself Ha. unfold comch_utils_destroy.
  eapply (lin_call_fn _ _ rs (cfg_resources c)); [|apply Permutation_app_comm|].
  { instantiate (1 := good (c, a)). cbn [fst]. destruct (is_server c).
    - by apply (wait_for_disconnection_lin fuel HS (c, a)).
    - apply lin_pure. simpl. auto. }
  intros [c1 a1] rs1 [Hh1 H1]. cbn [fst snd] in *.
  lin_ask e He. cbn [Datatypes.app]. destruct (_ && _) eqn:Ee.
  { apply lin_pure. intros [=]. simpl in *. subst. by rewrite andb_false_r in Ee. }
  lin_ask x Hx. destruct x as [e2 st]. cbn [Datatypes.app].
  eapply (lin_call_fn _ _ rs1 (cfg_resources c));
    [apply (wait_for_state_lin fuel CTX_IDLE HS st (c1, a1) rs1 Hh1)|done|].
  intros [c2 a2] rs2 [Hh2 H2]. cbn [fst snd] in *.
  destruct (reconnected_resources _ _ (reconnected_trans _ _ _ H1 H2)) as (Hc & _ & Hs).
  rewrite <- Hc, (Permutation_app_comm rs2). rewrite <- Hs in Hself.
  unfold cfg_resources, endpoint_resources. destruct (is_server c2).
  - cbn [fst Datatypes.app]. do 2 tear_down_step. by apply destroy_tail_lin.
  - cbn [fst Datatypes.app]. tear_down_step. by apply destroy_tail_lin.
Qed.
End progress.

(** ** Termination of the polling loops *)

(** From the [n]-th poll on, every context reports [wanted]. *)
Definition reaches_within (o : oracle) (wanted : doca_ctx_state) (n : nat) : Prop :=
  forall ctx tr, (n <= polls ctx tr)%nat -> (o _ tr (doca_ctx_get_state ctx)).2 = wanted.

Definition is_progress (pe : Z) (e : event) : bool :=
  match e with Ev (doca_pe_progress p) _ => p =? pe | _ => false end.

(** How often [pe] was progressed. *)
Definition progresses (pe : Z) (tr : trace) : nat := length (List.filter (is_progress pe) tr).

(** From the [n]-th progress on, every progress delivers the event [ev] of
    some connection. *)
Definition delivers_within (o : oracle) (ev : Z -> pe_event) (n : nat) : Prop :=
  forall pe tr, (n <= progresses pe tr)%nat ->
  exists conn, conn <> 0 /\ (o _ tr (doca_pe_progress pe)).2 = [ev conn].

(** The user data of contexts and connections is what was stored there. *)
Definition keeps_user_data (o : oracle) : Prop :=
  (forall ctx tr, exists d, d <> 0 /\ o _ tr (doca_ctx_get_user_data ctx) = (DOCA_SUCCESS, d)) /\
  (forall conn d tr, o _ tr (doca_comch_connection_set_user_data conn d) = DOCA_SUCCESS).

Lemma filter_count_app (f : event -> bool) tr ext :
  (length (List.filter f tr) <= length (List.filter f (tr ++ ext)))%nat.
Proof. rewrite List.filter_app, length_app. lia. Qed.

Section liveness.
Context {app : Type}.
Context (recv_event_cb : comch_cfg -> app -> Z -> list Z -> prog app).
Context (holds : app -> list resource -> Prop) {M : mode}.
Context (Hrecv : forall cfg a conn bytes rs, msg_ok M bytes -> holds a rs ->
  lin M (recv_event_cb cfg a conn bytes) rs holds).
Context (Hspin : ~ may_spin M).
Context (o : oracle) (Ho : documented_oracle o) (Ha : assumed_oracle M o).

(** The application is in a state its callback accepts. *)
Definition accepted (s : comch_cfg * app) : Prop := exists rs, holds s.2 rs.

(** One progress returns, keeps the configuration but for the connection, and
    is counted. *)
Lemma progress_returns s tr : accepted s -> exists s' tr', accepted s' /\
  run o (progress recv_event_cb s) tr = (Ret s', tr') /\ reconnected s.1 s'.1 /\
  (progresses (pe s.1) tr < progresses (pe s.1) tr')%nat /\
  (forall c, (polls c tr <= polls c tr')%nat).
Proof using Hrecv Hspin Ho Ha.
  intros [rs0 Hs0]. unfold progress. lin_simpl. cbn [run].
  pose proof (Ha _ tr (doca_pe_progress (pe s.1))) as Hes.
  destruct (o _ tr (doca_pe_progress (pe s.1))) as [n es]. simpl in Hes.
  set (tr1 := tr ++ [Ev (doca_pe_progress (pe s.1)) (n, es)]).
  pose proof (lin_sound_in o _ _ Ho Ha tr1 _
    (deliver_all_lin recv_event_cb holds Hrecv es Hes s rs0 Hs0)) as Hs.
  destruct (run o (deliver_all recv_event_cb es s) tr1) as [[s'| | |] tr']; try done.
  destruct Hs as (ext & rs & -> & _ & Hh & Hr). exists s', (tr1 ++ ext).
  split_and!; [by exists rs|done|done| |].
  - eapply Nat.lt_le_trans; [|apply filter_count_app]. unfold tr1.
    rewrite List.filter_app, length_app. simpl. rewrite Z.eqb_refl. simpl. unfold progresses. lia.
  - intros c. unfold tr1. rewrite <- (assoc_L (++)). apply filter_count_app.
Qed.

Lemma wait_for_state_ends_from wanted n fuel : reaches_within o wanted n -> forall tr state s, accepted s ->
  (state = wanted /\ (1 <= fuel)%nat) \/ ((n + 1 < polls (ctx s.1) tr + fuel)%nat /\ (2 <= fuel)%nat) ->
  (run o (wait_for_state recv_event_cb fuel wanted state s) tr).1 <> NoFuel.
Proof using Hrecv Hspin Ho Ha.
  intros Hw. induction fuel as [|fuel IH]; intros tr state s Hs Hf; [lia|]. cbn [wait_for_state].
  case_bool_decide as Hst; [done|]. destruct Hf as [[? _]|[Hf1 Hf2]]; [done|].
  rewrite run_bind. destruct (progress_returns s tr Hs) as (s' & tr' & Hs' & -> & [v Hr] & _ & Hp).
  lin_simpl. cbn [run]. set (tr2 := tr' ++ _).
  assert (ctx s'.1 = ctx s.1) as Hc by (by rewrite Hr).
  assert (polls (ctx s.1) tr <= polls (ctx s.1) tr2)%nat as Hp2.
  { etransitivity; [apply Hp|apply filter_count_app]. }
  pose proof (Hw (ctx s'.1) tr2) as Hn.
  destruct (o _ tr2 (doca_ctx_get_state (ctx s'.1))) as [e st]. simpl in Hn. apply IH; [done|].
  destruct (decide (n <= polls (ctx s'.1) tr2)%nat) as [Hle|Hlt]; [left; split; [auto|lia]|].
  right. rewrite polls_snoc. simpl. rewrite Z.eqb_refl, Hc in *. lia.
Qed.

Lemma wait_for_state_ends wanted n fuel state s :
  reaches_within o wanted n -> (n + 1 < fuel)%nat -> accepted s ->
  ends o (wait_for_state recv_event_cb fuel wanted state s).
Proof using Hrecv Hspin Ho Ha. intros Hw Hf Hs tr. eapply wait_for_state_ends_from; [done|done|right; lia]. Qed.

(** A connection event makes a connection active. *)
Lemma connection_cb_connects cfg conn : keeps_user_data o -> conn <> 0 -> forall tr, exists c' tr',
  run o (server_connection_cb cfg conn 1) tr = (Ret c', tr') /\ active_connection c' <> 0 /\
  reconnected cfg c'.
Proof using Type.
  intros [Hget Hset] Hc tr. unfold server_connection_cb. lin_simpl. cbn [run Z.eqb].
  match goal with |- context [o _ ?t (doca_ctx_get_user_data ?c)] =>
    destruct (Hget c t) as (d & Hd & E); rewrite E end.
  cbn. destruct (Z.eqb_spec d 0); [done|].
  destruct (Z.eqb_spec (active_connection cfg) 0); simpl.
  - rewrite Hset. simpl. do 2 eexists. split_and!; [done|done|by eexists].
  - do 2 eexists. split_and!; [done|done|auto].
Qed.

Lemma disconnection_cb_disconnects cfg conn : keeps_user_data o -> forall tr, exists c' tr',
  run o (server_disconnection_cb cfg conn 1) tr = (Ret c', tr') /\ active_connection c' = 0.
Proof using Type.
  intros [Hget Hset] tr. unfold server_disconnection_cb. lin_simpl. cbn [run].
  match goal with |- context [o _ ?t (doca_ctx_get_user_data ?c)] =>
    destruct (Hget c t) as (d & Hd & E); rewrite E end.
  cbn. destruct (Z.eqb_spec d 0); [done|]. do 2 eexists. by split.
Qed.

(** A progress that delivers a single connection event. *)
Lemma progress_connects s tr conn : keeps_user_data o -> conn <> 0 ->
  (o _ tr (doca_pe_progress (pe s.1))).2 = [EvConnection conn 1] ->
  forall s' tr', run o (progress recv_event_cb s) tr = (Ret s', tr') -> active_connection s'.1 <> 0.
Proof using Type.
  intros Hk Hc He s' tr'. destruct s as [cfg a]. unfold progress. lin_simpl. cbn [run fst].
  destruct (o _ tr _) as [n es]. simpl in He. subst es. set (tr1 := tr ++ _).
  cbn [deliver_all deliver]. rewrite !run_bind.
  destruct (connection_cb_connects cfg conn Hk Hc tr1) as (c' & tr2 & -> & Hact & _). simpl.
  by intros [= <- _].
Qed.

Lemma progress_disconnects s tr conn : keeps_user_data o ->
  (o _ tr (doca_pe_progress (pe s.1))).2 = [EvDisconnection conn 1] ->
  forall s' tr', run o (progress recv_event_cb s) tr = (Ret s', tr') -> active_connection s'.1 = 0.
Proof using Type.
  intros Hk He s' tr'. destruct s as [cfg a]. unfold progress. lin_simpl. cbn [run fst].
  destruct (o _ tr _) as [n es]. simpl in He. subst es. set (tr1 := tr ++ _).
  cbn [deliver_all deliver]. rewrite !run_bind.
  destruct (disconnection_cb_disconnects cfg conn Hk tr1) as (c' & tr2 & -> & Hact). simpl.
  by intros [= <- _].
Qed.

(** One iteration of a connection loop: it returns, and either the event was
    delivered or there are fewer progresses to wait for. *)
Lemma progress_waits ev n s tr : delivers_within o ev n -> accepted s -> exists s' tr', accepted s' /\
  run o (progress recv_event_cb s) tr = (Ret s', tr') /\ pe s'.1 = pe s.1 /\
  (progresses (pe s.1) tr < progresses (pe s.1) tr')%nat /\
  ((exists conn, conn <> 0 /\ (o _ tr (doca_pe_progress (pe s.1))).2 = [ev conn]) \/
   (progresses (pe s.1) tr < n)%nat).
Proof using Hrecv Hspin Ho Ha.
  intros Hd Hs. destruct (progress_returns s tr Hs) as (s' & tr' & Hs' & Hr & [v Hv] & Hp & _).
  exists s', tr'. split_and!; [done|done|by rewrite Hv|done|].
  destruct (decide (n <= progresses (pe s.1) tr)%nat); [left; auto|right; lia].
Qed.

Lemma wait_for_client_ends n fuel : keeps_user_data o ->
  delivers_within o (fun conn => EvConnection conn 1) n -> forall s, (n + 1 < fuel)%nat -> accepted s ->
  ends o (wait_for_client recv_event_cb fuel s).
Proof using Hrecv Hspin Ho Ha.
  intros Hk Hd s0 Hf Hs0 tr0. cut (forall k s tr, accepted s ->
    (active_connection s.1 <> 0 /\ (1 <= k)%nat) \/
    ((n + 1 < progresses (pe s.1) tr + k)%nat /\ (2 <= k)%nat) ->
    (run o (wait_for_client recv_event_cb k s) tr).1 <> NoFuel); [intros H; apply H; [done|right; lia]|].
  clear dependent s0 tr0 fuel. induction k as [|k IH]; intros s tr Hs Hk2; [lia|]. cbn [wait_for_client].
  destruct (Z.eqb_spec (active_connection s.1) 0) as [H0|H0]; [|done].
  destruct Hk2 as [[? _]|[H1 H2]]; [done|]. rewrite run_bind.
  destruct (progress_waits _ n s tr Hd Hs) as (s' & tr' & Hs' & Hr & Hpe & Hlt & Hev).
  rewrite Hr. lin_simpl. cbn [run]. apply IH; [done|]. destruct Hev as [(conn & Hc & He)|Hn].
  - left. split; [by eapply progress_connects|lia].
  - right. rewrite Hpe. split; [|lia]. eapply Nat.lt_le_trans; [|apply Nat.add_le_mono_r, filter_count_app].
    fold (progresses (pe s.1) tr'). lia.
Qed.

Lemma wait_for_disconnection_ends n fuel : keeps_user_data o ->
  delivers_within o (fun conn => EvDisconnection conn 1) n -> forall s, (n + 1 < fuel)%nat -> accepted s ->
  ends o (wait_for_disconnection recv_event_cb fuel s).
Proof using Hrecv Hspin Ho Ha.
  intros Hk Hd s0 Hf Hs0 tr0. cut (forall k s tr, accepted s ->
    (active_connection s.1 = 0 /\ (1 <= k)%nat) \/
    ((n + 1 < progresses (pe s.1) tr + k)%nat /\ (2 <= k)%nat) ->
    (run o (wait_for_disconnection recv_event_cb k s) tr).1 <> NoFuel); [intros H; apply H; [done|right; lia]|].
  clear dependent s0 tr0 fuel. induction k as [|k IH]; intros s tr Hs Hk2; [lia|].
  cbn [wait_for_disconnection].
  destruct (Z.eqb_spec (active_connection s.1) 0) as [H0|H0]; [done|].
  destruct Hk2 as [[? _]|[H1 H2]]; [done|]. rewrite run_bind.
  destruct (progress_waits _ n s tr Hd Hs) as (s' & tr' & Hs' & Hr & Hpe & Hlt & Hev).
  rewrite Hr. lin_simpl. cbn [run]. apply IH; [done|]. destruct Hev as [(conn & Hc & He)|Hn].
  - left. split; [by eapply progress_disconnects|lia].
  - right. rewrite Hpe. split; [|lia]. eapply Nat.lt_le_trans; [|apply Nat.add_le_mono_r, filter_count_app].
    fold (progresses (pe s.1) tr'). lia.
Qed.

(** The peer answers after [n] polls: a client connects to the server, or the
    client's context runs. *)
Definition peer_answers (arch_dpu : bool) (n : nat) : Prop :=
  if arch_dpu then keeps_user_data o /\ delivers_within o (fun conn => EvConnection conn 1) n
  else reaches_within o CTX_RUNNING n.

(** The peer leaves after [n] polls: the server's client disconnects; then the
    context becomes idle. *)
Definition peer_leaves (server : bool) (n : nat) : Prop :=
  reaches_within o CTX_IDLE n /\
  (server = true -> keeps_user_data o /\ delivers_within o (fun conn => EvDisconnection conn 1) n).

Lemma configure_server_ends n fuel recv_cb new_cb expired_cb s :
  peer_answers true n -> (n + 1 < fuel)%nat -> accepted s ->
  ends o (configure_server recv_event_cb fuel recv_cb new_cb expired_cb s).
Proof using Hrecv Hspin Ho Ha.
  intros [Hk Hd] Hf Hs. unfold configure_server, destroy_comch_ep, close_rep_device, close_device,
    destroy_pe, destroy_comch_cfg, register_consumer. ends_auto. all: by eapply wait_for_client_ends.
Qed.

Lemma configure_client_ends n fuel recv_cb new_cb expired_cb s :
  peer_answers false n -> (n + 1 < fuel)%nat -> accepted s ->
  ends o (configure_client recv_event_cb fuel recv_cb new_cb expired_cb s).
Proof using Hrecv Hspin Ho Ha.
  intros Hw Hf Hs. unfold configure_client, destroy_comch_ep, close_rep_device, close_device,
    destroy_pe, destroy_comch_cfg, register_consumer. ends_auto. all: by eapply wait_for_state_ends.
Qed.

Lemma fast_path_init_ends n fuel arch_dpu name pci rep_pci user_data client_cb server_cb new_cb
    expired_cb out_null a rs : peer_answers arch_dpu n -> (n + 1 < fuel)%nat -> holds a rs ->
  ends o (comch_utils_fast_path_init recv_event_cb fuel arch_dpu name pci rep_pci user_data
            client_cb server_cb new_cb expired_cb out_null a).
Proof using Hrecv Hspin Ho Ha.
  intros Hp Hf Hrs. unfold comch_utils_fast_path_init, close_device, destroy_pe, destroy_comch_cfg.
  assert (forall p, ends o (open_doca_device_with_pci p None)) as Hopen.
  { intros p. eapply lin_ends; [exact Ho|apply (plain_oracle False)|tauto|by apply open_doca_device_with_pci_lin]. }
  assert (forall d p, ends o (open_doca_device_rep_with_pci d p)) as Hrep.
  { intros d p. eapply lin_ends; [exact Ho|apply (plain_oracle False)|tauto|apply open_doca_device_rep_with_pci_lin]. }
  destruct (negb _); [apply ends_pure|]. lin_simpl. apply ends_call. intros p.
  destruct (p =? 0); [apply ends_pure|]. apply ends_call. intros [e q].
  destruct (negb _); [ends_auto|]. apply ends_bind; [apply Hopen|]. intros [e2 d].
  destruct (negb _); [ends_auto|]. lin_simpl. apply ends_call. intros i. apply ends_call. intros [e3 sz].
  destruct (negb _); [ends_auto|]. simpl is_server. destruct arch_dpu.
  - unfold init_server, close_rep_device, close_device, destroy_pe, destroy_comch_cfg. lin_simpl.
    apply ends_call. intros i2. apply ends_call. intros e4. destruct (negb _); [ends_auto|].
    apply ends_bind; [apply Hrep|]. intros [e5 r]. destruct (negb _); [ends_auto|]. lin_simpl.
    apply ends_call. intros [e6 srv]. destruct (negb _); [ends_auto|]. eapply configure_server_ends; [done..|by exists rs].
  - unfold init_client, close_rep_device, close_device, destroy_pe, destroy_comch_cfg. lin_simpl.
    apply ends_call. intros i2. apply ends_call. intros e4. destruct (negb _); [ends_auto|]. lin_simpl.
    apply ends_call. intros [e6 srv]. destruct (negb _); [ends_auto|]. eapply configure_client_ends; [done..|by exists rs].
Qed.

Lemma comch_utils_destroy_ends n fuel s :
  peer_leaves (is_server s.1) n -> (n + 1 < fuel)%nat -> accepted s ->
  ends o (comch_utils_destroy recv_event_cb fuel s).
Proof using Hrecv Hspin Ho Ha.
  intros [Hi Hs] Hf Hacc. unfold comch_utils_destroy, destroy_tail. pose proof Hacc as [rs Hrs].
  eapply (ends_bind_lin (M := NotingMode True (msg_ok M) (noted M)) o _ _ rs (fun s' rs' => holds s'.2 rs'));
    [done|done| | |].
  - destruct (is_server s.1); [|by apply lin_pure]. eapply lin_mono.
    + apply (wait_for_disconnection_lin recv_event_cb holds); [|done|done].
      intros. eapply (lin_weaken (M := M)); [tauto|done|done|by apply Hrecv].
    + by intros r rs' [? _].
  - destruct (is_server s.1); [|apply ends_pure].
    destruct Hs as [Hk Hd]; [done|]. by eapply wait_for_disconnection_ends.
  - intros s2 rs2 H2. ends_auto. all: eapply wait_for_state_ends; [done..|by exists rs2].
Qed.
End liveness.

(** ** Properties *)

(** The application keeps its resources in order for messages of the form
    [ok_msg]: its callback never gives back what it does not hold, has no
    undefined behaviour and returns. *)
Definition orderly {app} (ok_msg : list Z -> Prop)
    (recv_event_cb : comch_cfg -> app -> Z -> list Z -> prog app)
    (holds : app -> list resource -> Prop) : Prop :=
  forall cfg a conn bytes rs, ok_msg bytes -> holds a rs ->
  lin (Mode False ok_msg) (recv_event_cb cfg a conn bytes) rs holds.

Lemma orderly_weaken {app} ok_msg (recv_event_cb : comch_cfg -> app -> Z -> list Z -> prog app) holds :
  orderly ok_msg recv_event_cb holds -> forall cfg a conn bytes rs, ok_msg bytes -> holds a rs ->
  lin (Mode True ok_msg) (recv_event_cb cfg a conn bytes) rs holds.
Proof.
  intros H cfg a conn bytes rs Hm Ha.
  apply (lin_weaken (M := Mode False ok_msg)); [done|done|done|by apply H].
Qed.

(** The peer only sends messages of the form [ok_msg]. *)
Definition sends_only (ok_msg : list Z -> Prop) (o : oracle) : Prop :=
  forall pe tr, Forall (event_ok ok_msg) (o _ tr (doca_pe_progress pe)).2.

Lemma sends_only_assumed {b} P ok_msg o :
  sends_only ok_msg o -> assumed_oracle (NotingMode P ok_msg b) o.
Proof. intros H X tr c. destruct c; simpl; try done. Qed.

Section claims.
Context {app : Type} (ok_msg : list Z -> Prop).
Context (recv_event_cb : comch_cfg -> app -> Z -> list Z -> prog app).
Context (holds : app -> list resource -> Prop) (o : oracle).

(** C29: setting up a channel, on the host and on the DPU: if any step fails,
    everything acquired so far is given back exactly once; otherwise the
    result is [DOCA_SUCCESS] and the channel holds exactly its endpoint,
    representor, device, progress engine and memory. The application's own
    resources are untouched but by its callback. The set-up runs out of fuel
    only if the peer takes longer to answer than the fuel allows. *)
Theorem comch_init_owns (fuel : nat) (arch_dpu : bool)
    (server_name pci_addr rep_pci_addr : option (list Z))
    (user_data client_cb server_cb new_cb expired_cb : Z) (out_null : bool) (a : app)
    (rs : list resource) :
  documented_oracle o -> sends_only ok_msg o -> orderly ok_msg recv_event_cb holds -> holds a rs ->
  match run o (comch_utils_fast_path_init recv_event_cb fuel arch_dpu server_name pci_addr
                 rep_pci_addr user_data client_cb server_cb new_cb expired_cb out_null a) [] with
  | (Ret (e, Some cfg, a'), tr) => e = DOCA_SUCCESS /\
      exists rs', holds a' rs' /\ held rs tr (cfg_resources cfg ++ rs')
  | (Ret (e, None, a'), tr) => exists rs', holds a' rs' /\ held rs tr rs'
  | (NoFuel, _) => forall n, peer_answers o arch_dpu n -> (fuel <= n + 1)%nat
  | _ => False
  end.
Proof using Type.
  intros Ho Hm Hrecv Ha.
  pose proof (fun n => fast_path_init_ends (M := Mode False ok_msg) recv_event_cb holds Hrecv ltac:(simpl; tauto) o Ho
    (sends_only_assumed _ _ _ Hm) n fuel arch_dpu server_name
    pci_addr rep_pci_addr user_data client_cb server_cb new_cb expired_cb out_null a rs) as Hends.
  pose proof (lin_run_assuming o _ _ _ Ho (sends_only_assumed _ _ _ Hm)
    (comch_utils_fast_path_init_lin (M := Mode True ok_msg) recv_event_cb holds
    (orderly_weaken _ _ _ Hrecv) fuel arch_dpu server_name pci_addr rep_pci_addr user_data client_cb
    server_cb new_cb expired_cb out_null a rs I Ha)) as H.
  destruct (run o _ []) as [[[[e [cfg|]] a']| | |] tr] eqn:E; try done.
  - destruct H as (rs1 & Hh & He & _ & rs' & Hrs & Ha'). split; [done|]. exists rs'. split; [done|].
    rewrite <- (app_nil_r tr). eapply held_app; [done|by constructor].
  - destruct H as (rs' & Hh & Ha'). by exists rs'.
  - intros n Hn. destruct (decide (fuel <= n + 1)%nat); [done|].
    exfalso. apply (Hends n Hn ltac:(lia) Ha []). by rewrite E.
Qed.

(** C30: [comch_utils_destroy] gives back everything the channel holds exactly
    once when it returns [DOCA_SUCCESS], in whatever state the connection is,
    and never gives anything back twice when it fails part way; it waits only
    for the client to disconnect and for the context to become idle. *)
Theorem comch_destroy_releases (fuel : nat) (cfg : comch_cfg) (a : app) (rs : list resource) :
  documented_oracle o -> sends_only ok_msg o -> orderly ok_msg recv_event_cb holds -> holds a rs ->
  self cfg <> 0 ->
  match run o (comch_utils_destroy recv_event_cb fuel (cfg, a)) [] with
  | (Ret (e, (cfg', a')), tr) => exists rest, held (cfg_resources cfg ++ rs) tr rest /\
      (e = DOCA_SUCCESS -> holds a' rest)
  | (NoFuel, _) => forall n, peer_leaves o (is_server cfg) n -> (fuel <= n + 1)%nat
  | _ => False
  end.
Proof using Type.
  intros Ho Hm Hrecv Ha Hself.
  pose proof (fun n => comch_utils_destroy_ends (M := Mode False ok_msg) recv_event_cb holds Hrecv ltac:(simpl; tauto) o Ho
    (sends_only_assumed _ _ _ Hm) n fuel (cfg, a)) as Hends.
  pose proof (lin_run_assuming o _ _ _ Ho (sends_only_assumed _ _ _ Hm)
    (comch_utils_destroy_lin (M := Mode True ok_msg) recv_event_cb holds
    (orderly_weaken _ _ _ Hrecv) fuel cfg a rs I Hself Ha)) as H.
  destruct (run o _ []) as [[[e [cfg' a']]| | |] tr] eqn:E; try done.
  intros n Hn. destruct (decide (fuel <= n + 1)%nat); [done|].
  exfalso. apply (Hends n Hn ltac:(lia) ltac:(by exists rs) []). by rewrite E.
Qed.
End claims.

(** An application without state that ignores messages. *)
Definition ignore : comch_cfg -> unit -> Z -> list Z -> prog unit := fun _ a _ _ => Pure a.
Definition holds_nothing (_ : unit) (rs : list resource) : Prop := rs = [].

Lemma ignore_orderly : orderly (fun _ => True) ignore holds_nothing.
Proof. intros cfg a conn bytes rs _ H. by apply lin_pure. Qed.

Lemma sends_anything o : sends_only (fun _ => True) o.
Proof. intros pe tr. apply (plain_oracle False o _ tr (doca_pe_progress pe)). Qed.

(** A client connects at the first progress. *)
Definition client_arrives : oracle := all_ok (fun _ => [EvConnection 9 1]) (fun _ => CTX_IDLE).

Lemma comch_init_owns_witness :
  match run client_arrives (comch_utils_fast_path_init ignore 2 true (Some [65]) (Some [48])
                              (Some [49]) 7 0 1 0 0 false tt) [] with
  | (Ret (e, Some cfg, a'), tr) => e = DOCA_SUCCESS /\
      (exists rs', rs' = [] /\ held [] tr (cfg_resources cfg ++ rs')) /\ active_connection cfg = 9
  | _ => False
  end.
Proof.
  pose proof (comch_init_owns (fun _ => True) ignore holds_nothing client_arrives 2 true (Some [65])
    (Some [48]) (Some [49]) 7 0 1 0 0 false tt [] (all_ok_documented _ _)
    (sends_anything _) ignore_orderly ltac:(done)) as H.
  revert H. vm_compute. tauto.
Defined.

(** The client disconnects at the first progress and the context is idle. *)
Definition client_leaves : oracle := all_ok (fun _ => [EvDisconnection 9 1]) (fun _ => CTX_IDLE).

Definition a_server : comch_cfg := ComchCfg 1 7 2 3 4 9 5 6 4096 true.

Lemma comch_destroy_releases_witness :
  match run client_leaves (comch_utils_destroy ignore 2 (a_server, tt)) [] with
  | (Ret (e, _), tr) => e = DOCA_SUCCESS /\ held (cfg_resources a_server ++ []) tr []
  | _ => False
  end.
Proof.
  pose proof (comch_destroy_releases (fun _ => True) ignore holds_nothing client_leaves 2 a_server tt
    [] (all_ok_documented _ _) (sends_anything _) ignore_orderly
    ltac:(done) ltac:(done)) as H.
  destruct (run client_leaves _ []) as [[[e [cfg' a']]| | |] tr] eqn:E; try done.
  destruct H as (rest & Hh & Hr). assert (e = DOCA_SUCCESS) as -> by (revert E; by vm_compute; intros [=]).
  rewrite (Hr eq_refl) in Hh. done.
Defined.

(** ** Sending *)

(** The send tasks of a trace: allocated, handed to the library, freed; and
    the messages for which one was requested. *)
Definition task_event {X} (c : call X) : X -> list Z * list Z * list Z * list (Z * list Z) :=
  match c in call X return X -> list Z * list Z * list Z * list (Z * list Z) with
  | doca_comch_server_task_send_alloc_init _ conn msg =>
      fun r => (if ok r.1 then [r.2] else [], [], [], [(conn, msg)])
  | doca_comch_client_task_send_alloc_init _ conn msg =>
      fun r => (if ok r.1 then [r.2] else [], [], [], [(conn, msg)])
  | doca_task_submit t => fun e => ([], if ok e then [t] else [], [], [])
  | doca_task_free t => fun _ => ([], [], [t], [])
  | _ => fun _ => ([], [], [], [])
  end.

Definition allocated (tr : trace) : list Z := tr ≫= fun e => match e with Ev c x => (task_event c x).1.1.1 end.
Definition submitted (tr : trace) : list Z := tr ≫= fun e => match e with Ev c x => (task_event c x).1.1.2 end.
Definition freed (tr : trace) : list Z := tr ≫= fun e => match e with Ev c x => (task_event c x).1.2 end.
Definition messages (tr : trace) : list (Z * list Z) :=
  tr ≫= fun e => match e with Ev c x => (task_event c x).2 end.

(** The answer to the request for a send task, if it was made. *)
Definition alloc_answer (tr : trace) : list doca_error :=
  tr ≫= fun e => match e with
    | Ev (doca_comch_server_task_send_alloc_init _ _ _) r => [r.1]
    | Ev (doca_comch_client_task_send_alloc_init _ _ _) r => [r.1]
    | _ => []
    end.

(** The end of one path of [comch_utils_send]. *)
Ltac send_leaf :=
  do 2 eexists; split; [reflexivity|];
  unfold allocated, submitted, freed, messages, alloc_answer; simpl;
  try match goal with H : ?e <> DOCA_SUCCESS |- context [ok ?e] => destruct (ok_spec e); [done|] end;
  split_and!; [done|by split|by repeat constructor| |lia || auto];
  let r := fresh "r" in let Hr := fresh "Hr" in intros r Hr ?;
  first [by inversion Hr | apply list_elem_of_singleton in Hr; subst r; by repeat case_decide].

(** [comch_utils_send] never loses or leaks a send task: a task it
    allocates is either handed to the library, which is when the result is
    [DOCA_SUCCESS], or freed. It never asks for a message longer than the
    channel allows or for another connection, reports an exhausted task pool
    as [DOCA_ERROR_AGAIN], and passes on any other error. *)
Theorem comch_utils_send_correct (o : oracle) (cfg : comch_cfg) (conn : Z) (msg : list Z) :
  exists e tr, run o (comch_utils_send cfg conn msg) [] = (Ret e, tr) /\
  allocated tr = submitted tr ++ freed tr /\
  (e = DOCA_SUCCESS <-> submitted tr <> []) /\
  (Forall (fun m => m = (conn, msg) /\ Z.of_nat (length msg) <= max_buf_size cfg) (messages tr)) /\
  (forall r, r ∈ alloc_answer tr -> r <> DOCA_SUCCESS ->
     e = if decide (r = DOCA_ERROR_NO_MEMORY) then DOCA_ERROR_AGAIN else r) /\
  (Z.of_nat (length msg) > max_buf_size cfg ->
     e = DOCA_ERROR_INVALID_VALUE \/ e = DOCA_ERROR_NOT_FOUND).
Proof.
  unfold comch_utils_send, get_comch_cfg_from_connection.
  destruct (conn =? 0); lin_simpl; cbn [run]; [send_leaf|].
  destruct (_ =? 0); [send_leaf|].
  destruct (Z.ltb_spec (max_buf_size cfg) (Z.of_nat (length msg))); [send_leaf|].
  destruct (is_server cfg); lin_simpl; cbn [run]; destruct (o _ _ _) as [e t];
    (case_bool_decide; [subst e; send_leaf|]);
    (destruct (ok_spec e) as [->|Hok]; simpl; [|send_leaf]);
    match goal with |- context [o _ ?tr (doca_task_submit t)] =>
      generalize (o _ tr (doca_task_submit t)) end; intros e;
    (destruct (ok_spec e) as [->|Hok]; simpl; send_leaf).
Qed.

(** ** Connections *)

(** The connections the server was told to disconnect. *)
Definition disconnects (tr : trace) : list Z :=
  tr ≫= fun e => match e with Ev (doca_comch_server_disconnect _ conn) _ => [conn] | _ => [] end.

Ltac connection_leaf :=
  do 2 eexists; split; [reflexivity|]; unfold disconnects; simpl; split_and!; try done;
  try (by repeat constructor).

(** The server keeps a single connection. The event of a new client, with
    whatever answers of the library, never replaces an active connection and
    never disconnects a client when none is active; when the event reports
    success and the stored user data can be read, a client that finds no
    active connection becomes the active one and any other is disconnected. *)
Theorem single_connection (o : oracle) (cfg : comch_cfg) (conn change : Z) :
  exists cfg' tr, run o (server_connection_cb cfg conn change) [] = (Ret cfg', tr) /\
  (active_connection cfg <> 0 -> cfg' = cfg) /\
  Forall (fun d => d = conn /\ active_connection cfg <> 0) (disconnects tr) /\
  (keeps_user_data o -> change <> 0 ->
     if active_connection cfg =? 0
     then cfg' = set_active_connection cfg conn /\ disconnects tr = []
     else disconnects tr = [conn]).
Proof.
  unfold server_connection_cb. lin_simpl. cbn [run].
  destruct (Z.eqb_spec change 0) as [->|Hc]; cbn [run]; [connection_leaf|].
  match goal with |- context [o _ ?t (doca_ctx_get_user_data ?c)] =>
    pose proof (fun Hk : keeps_user_data o => proj1 Hk c t) as Hget;
    destruct (o _ t (doca_ctx_get_user_data c)) as [e d] end.
  destruct (ok_spec e) as [->|He]; simpl; [|connection_leaf]. 2: { intros (? & ? & [=])%Hget. done. }
  destruct (Z.eqb_spec d 0) as [->|Hd]; simpl; [connection_leaf|].
  { intros (? & ? & [=])%Hget. done. }
  destruct (Z.eqb_spec (active_connection cfg) 0) as [Ha|Ha]; simpl; [|connection_leaf].
  match goal with |- context [o _ ?t (doca_comch_connection_set_user_data ?c ?d)] =>
    pose proof (fun Hk : keeps_user_data o => proj2 Hk c d t) as Hset;
    destruct (o _ t (doca_comch_connection_set_user_data c d)) as [] end; simpl; connection_leaf.
  all: by intros ?%Hset.
Qed.

(** The event of any client that leaves clears the active connection, also
    when it is not the client of the active connection, such as one that was
    turned away: the server then takes the next client while the first is
    still connected. *)
Theorem disconnection_of_another_client (o : oracle) (cfg : comch_cfg) (conn change : Z) :
  keeps_user_data o -> conn <> active_connection cfg ->
  exists tr, run o (server_disconnection_cb cfg conn change) [] =
             (Ret (set_active_connection cfg 0), tr).
Proof.
  intros [Hget _] _. unfold server_disconnection_cb. lin_simpl. cbn [run].
  match goal with |- context [o _ ?t (doca_ctx_get_user_data ?c)] =>
    destruct (Hget c t) as (d & Hd & E); rewrite E end.
  simpl. destruct (Z.eqb_spec d 0); [done|]. by eexists.
Qed.

Lemma disconnection_of_another_client_witness :
  exists tr, run calm (server_disconnection_cb a_server 11 1) [] =
             (Ret (set_active_connection a_server 0), tr).
Proof.
  apply (disconnection_of_another_client calm a_server 11 1); [|done].
  split; [|done]. intros ctx tr. exists (Z.of_nat (length tr) + 1). split; [lia|done].
Defined.

(** A client's context that starts at once, which [doca_ctx_start] reports
    with [DOCA_SUCCESS], is taken for a failure: the set-up on the host then
    never yields a channel, yet may return [DOCA_SUCCESS]. *)
Theorem client_start_at_once (o : oracle) (fuel : nat) (recv_cb : Z) (cfg : comch_cfg) :
  (forall ctx tr, o _ tr (doca_ctx_start ctx) = DOCA_SUCCESS) ->
  (exists e tr, run o (configure_client ignore fuel recv_cb 0 0 (cfg, tt)) [] = (Ret (e, None, tt), tr)) /\
  (run calm (comch_utils_init ignore fuel false (Some [65]) (Some [48]) None 7 1 0 false tt) []).1
    = Ret (DOCA_SUCCESS, None, tt).
Proof.
  intros Hs. split; [|reflexivity].
  assert (forall e tr, exists tr', run o (destroy_comch_ep e (cfg, tt)) tr = (Ret (e, None, tt), tr')) as Hd.
  { intros e tr. unfold destroy_comch_ep, close_rep_device, close_device, destroy_pe, destroy_comch_cfg.
    cbn [fst]. destruct (is_server cfg); by eexists. }
  assert (forall e c tr, exists tr', run o (destroy_comch_ep e (ComchUtils.set_ctx cfg c, tt)) tr
            = (Ret (e, None, tt), tr')) as Hd2.
  { intros e c tr. unfold destroy_comch_ep, close_rep_device, close_device, destroy_pe, destroy_comch_cfg.
    cbn [fst is_server ComchUtils.set_ctx]. destruct (is_server cfg); by eexists. }
  unfold configure_client, register_consumer. cbn [Z.eqb negb orb]. lin_simpl. cbn [run].
  repeat match goal with
  | |- context [negb (ok ?e)] => destruct (negb (ok e)); [solve [eexists; apply Hd || apply Hd2]|]; cbn [run]
  end.
  cbn [ok negb bool_decide]. rewrite Hs. cbn. eexists. apply Hd2.
Qed.

Lemma client_start_at_once_witness :
  (exists e tr, run calm (configure_client ignore 5 1 0 0 (a_server, tt)) [] = (Ret (e, None, tt), tr)) /\
  (run calm (comch_utils_init ignore 5 false (Some [65]) (Some [48]) None 7 1 0 false tt) []).1
    = Ret (DOCA_SUCCESS, None, tt).
Proof. by apply (client_start_at_once calm 5 1 a_server). Defined.
