(* ===== verification/DmaCopy.v ===== *)
(** * DmaCopy: doca_dma/dma_copy_core.c, benchmark.c and dma_copy.c

    The DMA copy application: command-line callbacks, the negotiation protocol
    between host and DPU, the copy itself, and [main].

    The application state is [dma_copy_cfg], the object behind the channel's
    user data. Both machines are little-endian; bytes of padding that the code
    sends without initialising them are given by the class [Padding]. *)

From Stdlib Require String.
From S2P Require Import Prelude.
From S2P Require Import Pack.
From S2P Require Import CUtils.
From S2P Require Import Doca.
From S2P Require Import Common.
From S2P Require Import ComchUtils.

(** ** Data *)

Definition MAX_FILE_SIZE : Z := 2097152.
Definition MAX_OPS : Z := 10000000.
Definition NUM_DMA_TASKS : Z := 1.
Definition COMCH_MSG_DIRECTION : Z := 1.
Definition COMCH_MSG_EXPORT_DESCRIPTOR : Z := 2.
Definition COMCH_MSG_STATUS : Z := 3.
Definition STATUS_SUCCESS : bool := true.
Definition STATUS_FAILURE : bool := false.

Inductive dma_copy_mode := DMA_COPY_MODE_HOST | DMA_COPY_MODE_DPU.

#[export] Instance dma_copy_mode_eq_dec : EqDecision dma_copy_mode.
Proof. solve_decision. Defined.

Inductive dma_comch_state := COMCH_NEGOTIATING | COMCH_COMPLETE | COMCH_ERROR.

#[export] Instance dma_comch_state_eq_dec : EqDecision dma_comch_state.
Proof. solve_decision. Defined.

Record statistics := Statistics { ops : Z; stat_file_size : Z; total_time : timespec }.

Record dma_copy_cfg := DmaCfg {
  mode : dma_copy_mode;
  num_threads : Z;
  cc_dev_pci_addr : list Z;
  cc_dev_rep_pci_addr : list Z;
  is_sender : bool;
  file_size : Z;
  file_buffer : Z;
  file_mmap : Z;
  dma_dev : Z; (* the field [dev] *)
  max_dma_buf_size : Z;
  exported_mmap : Z;
  exported_desc : list Z; (* what [exported_mmap] points to *)
  exported_mmap_len : Z;
  host_addr : Z;
  max_comch_buffer : Z;
  comch_state : dma_comch_state;
  stat : statistics
}.

Definition set_num_threads (c : dma_copy_cfg) (v : Z) : dma_copy_cfg :=
  DmaCfg (mode c) v (cc_dev_pci_addr c) (cc_dev_rep_pci_addr c) (is_sender c) (file_size c)
    (file_buffer c) (file_mmap c) (dma_dev c) (max_dma_buf_size c) (exported_mmap c)
    (exported_desc c) (exported_mmap_len c) (host_addr c) (max_comch_buffer c) (comch_state c)
    (stat c).
Definition set_cc_dev_pci_addr (c : dma_copy_cfg) (v : list Z) : dma_copy_cfg :=
  DmaCfg (mode c) (num_threads c) v (cc_dev_rep_pci_addr c) (is_sender c) (file_size c)
    (file_buffer c) (file_mmap c) (dma_dev c) (max_dma_buf_size c) (exported_mmap c)
    (exported_desc c) (exported_mmap_len c) (host_addr c) (max_comch_buffer c) (comch_state c)
    (stat c).
Definition set_cc_dev_rep_pci_addr (c : dma_copy_cfg) (v : list Z) : dma_copy_cfg :=
  DmaCfg (mode c) (num_threads c) (cc_dev_pci_addr c) v (is_sender c) (file_size c)
    (file_buffer c) (file_mmap c) (dma_dev c) (max_dma_buf_size c) (exported_mmap c)
    (exported_desc c) (exported_mmap_len c) (host_addr c) (max_comch_buffer c) (comch_state c)
    (stat c).
Definition set_is_sender (c : dma_copy_cfg) (v : bool) : dma_copy_cfg :=
  DmaCfg (mode c) (num_threads c) (cc_dev_pci_addr c) (cc_dev_rep_pci_addr c) v (file_size c)
    (file_buffer c) (file_mmap c) (dma_dev c) (max_dma_buf_size c) (exported_mmap c)
    (exported_desc c) (exported_mmap_len c) (host_addr c) (max_comch_buffer c) (comch_state c)
    (stat c).
Definition set_file_size (c : dma_copy_cfg) (v : Z) : dma_copy_cfg :=
  DmaCfg (mode c) (num_threads c) (cc_dev_pci_addr c) (cc_dev_rep_pci_addr c) (is_sender c) v
    (file_buffer c) (file_mmap c) (dma_dev c) (max_dma_buf_size c) (exported_mmap c)
    (exported_desc c) (exported_mmap_len c) (host_addr c) (max_comch_buffer c) (comch_state c)
    (stat c).
Definition set_file_buffer (c : dma_copy_cfg) (v : Z) : dma_copy_cfg :=
  DmaCfg (mode c) (num_threads c) (cc_dev_pci_addr c) (cc_dev_rep_pci_addr c) (is_sender c)
    (file_size c) v (file_mmap c) (dma_dev c) (max_dma_buf_size c) (exported_mmap c)
    (exported_desc c) (exported_mmap_len c) (host_addr c) (max_comch_buffer c) (comch_state c)
    (stat c).
Definition set_file_mmap (c : dma_copy_cfg) (v : Z) : dma_copy_cfg :=
  DmaCfg (mode c) (num_threads c) (cc_dev_pci_addr c) (cc_dev_rep_pci_addr c) (is_sender c)
    (file_size c) (file_buffer c) v (dma_dev c) (max_dma_buf_size c) (exported_mmap c)
    (exported_desc c) (exported_mmap_len c) (host_addr c) (max_comch_buffer c) (comch_state c)
    (stat c).
Definition set_dma_dev (c : dma_copy_cfg) (v : Z) : dma_copy_cfg :=
  DmaCfg (mode c) (num_threads c) (cc_dev_pci_addr c) (cc_dev_rep_pci_addr c) (is_sender c)
    (file_size c) (file_buffer c) (file_mmap c) v (max_dma_buf_size c) (exported_mmap c)
    (exported_desc c) (exported_mmap_len c) (host_addr c) (max_comch_buffer c) (comch_state c)
    (stat c).
Definition set_max_dma_buf_size (c : dma_copy_cfg) (v : Z) : dma_copy_cfg :=
  DmaCfg (mode c) (num_threads c) (cc_dev_pci_addr c) (cc_dev_rep_pci_addr c) (is_sender c)
    (file_size c) (file_buffer c) (file_mmap c) (dma_dev c) v (exported_mmap c) (exported_desc c)
    (exported_mmap_len c) (host_addr c) (max_comch_buffer c) (comch_state c) (stat c).
Definition set_exported_mmap (c : dma_copy_cfg) (v : Z) : dma_copy_cfg :=
  DmaCfg (mode c) (num_threads c) (cc_dev_pci_addr c) (cc_dev_rep_pci_addr c) (is_sender c)
    (file_size c) (file_buffer c) (file_mmap c) (dma_dev c) (max_dma_buf_size c) v
    (exported_desc c) (exported_mmap_len c) (host_addr c) (max_comch_buffer c) (comch_state c)
    (stat c).
Definition set_exported_desc (c : dma_copy_cfg) (v : list Z) : dma_copy_cfg :=
  DmaCfg (mode c) (num_threads c) (cc_dev_pci_addr c) (cc_dev_rep_pci_addr c) (is_sender c)
    (file_size c) (file_buffer c) (file_mmap c) (dma_dev c) (max_dma_buf_size c) (exported_mmap c)
    v (exported_mmap_len c) (host_addr c) (max_comch_buffer c) (comch_state c) (stat c).
Definition set_host_addr (c : dma_copy_cfg) (v : Z) : dma_copy_cfg :=
  DmaCfg (mode c) (num_threads c) (cc_dev_pci_addr c) (cc_dev_rep_pci_addr c) (is_sender c)
    (file_size c) (file_buffer c) (file_mmap c) (dma_dev c) (max_dma_buf_size c) (exported_mmap c)
    (exported_desc c) (exported_mmap_len c) v (max_comch_buffer c) (comch_state c) (stat c).
Definition set_max_comch_buffer (c : dma_copy_cfg) (v : Z) : dma_copy_cfg :=
  DmaCfg (mode c) (num_threads c) (cc_dev_pci_addr c) (cc_dev_rep_pci_addr c) (is_sender c)
    (file_size c) (file_buffer c) (file_mmap c) (dma_dev c) (max_dma_buf_size c) (exported_mmap c)
    (exported_desc c) (exported_mmap_len c) (host_addr c) v (comch_state c) (stat c).
Definition set_comch_state (c : dma_copy_cfg) (v : dma_comch_state) : dma_copy_cfg :=
  DmaCfg (mode c) (num_threads c) (cc_dev_pci_addr c) (cc_dev_rep_pci_addr c) (is_sender c)
    (file_size c) (file_buffer c) (file_mmap c) (dma_dev c) (max_dma_buf_size c) (exported_mmap c)
    (exported_desc c) (exported_mmap_len c) (host_addr c) (max_comch_buffer c) v (stat c).
Definition set_stat (c : dma_copy_cfg) (v : statistics) : dma_copy_cfg :=
  DmaCfg (mode c) (num_threads c) (cc_dev_pci_addr c) (cc_dev_rep_pci_addr c) (is_sender c)
    (file_size c) (file_buffer c) (file_mmap c) (dma_dev c) (max_dma_buf_size c) (exported_mmap c)
    (exported_desc c) (exported_mmap_len c) (host_addr c) (max_comch_buffer c) (comch_state c) v.
Definition set_export (c : dma_copy_cfg) (p : Z) (bytes : list Z) (len addr : Z) : dma_copy_cfg :=
  DmaCfg (mode c) (num_threads c) (cc_dev_pci_addr c) (cc_dev_rep_pci_addr c) (is_sender c) (file_size c) (file_buffer c)
    (file_mmap c) (dma_dev c) (max_dma_buf_size c) p bytes len
    addr (max_comch_buffer c) (comch_state c) (stat c).

(** ** benchmark.c *)

Definition get_duration (start fin : timespec) : timespec :=
  Timespec (tv_sec fin - tv_sec start) (tv_nsec fin - tv_nsec start).

Definition timespec_add (lhs rhs : timespec) : timespec :=
  Timespec (tv_sec lhs + tv_sec rhs) (tv_nsec lhs + tv_nsec rhs).

(** The file is opened, written and closed; what is printed to it is not
    modelled. [false] stands for [exit(EXIT_FAILURE)]. *)
Definition write_statistics_to_file (filename : list Z) : prog bool :=
  file ← invoke (fopen_write filename);
  if file =? 0 then Pure false else
  _ ← invoke (fclose file);
  Pure true.

(** ** Messages *)

(** What the compiler leaves in padding bytes. *)
Class Padding := {
  padding : nat -> list Z;
  padding_length n : length (padding n) = n
}.

Definition bool_byte (b : bool) : Z := if b then 1 else 0.

Definition sizeof_direction : Z := 16.
Definition sizeof_export : Z := 24.
Definition sizeof_status : Z := 8.

Section messages.
Context `{Padding}.

(** [struct comch_msg_dma_direction]: the type at 0, [file_in_host] at 4,
    [file_size] at 8. *)
Definition direction_msg (file_in_host : bool) (file_size : Z) : list Z :=
  le_bytes 4 COMCH_MSG_DIRECTION ++ [bool_byte file_in_host] ++ padding 3 ++ le_bytes 8 file_size.

(** [struct comch_msg_dma_export_discriptor]: [host_addr] at 8,
    [export_desc_len] at 16, the descriptor from 24 on. *)
Definition export_msg (host_addr export_desc_len : Z) (desc : list Z) : list Z :=
  le_bytes 4 COMCH_MSG_EXPORT_DESCRIPTOR ++ padding 4 ++ le_bytes 8 host_addr ++
  le_bytes 8 export_desc_len ++ desc.

(** [struct comch_msg_dma_status]: [is_success] at 4. *)
Definition status_msg (is_success : bool) : list Z :=
  le_bytes 4 COMCH_MSG_STATUS ++ [bool_byte is_success] ++ padding 3.
End messages.

Definition msg_type (m : list Z) : Z := le_read 4 m 0.
Definition msg_flag (m : list Z) : bool := negb (byte_at m 4 =? 0).
Definition msg_u64 (m : list Z) (off : Z) : Z := le_read 8 m off.

(** ** Command line *)

Definition args_validation_callback (cfg : dma_copy_cfg) : doca_error := DOCA_SUCCESS.

Definition file_size_callback (n : Z) (cfg : dma_copy_cfg) : doca_error * dma_copy_cfg :=
  if (MAX_FILE_SIZE <? n) || (n <? 1) then (DOCA_ERROR_INVALID_VALUE, cfg)
  else
    let cfg := set_file_size cfg n in
    (DOCA_SUCCESS, set_stat cfg (Statistics (ops (stat cfg)) n (total_time (stat cfg)))).

Definition num_operations_callback (n : Z) (cfg : dma_copy_cfg) : doca_error * dma_copy_cfg :=
  if (MAX_OPS <? n) || (n <? 1) then (DOCA_ERROR_INVALID_VALUE, cfg)
  else (DOCA_SUCCESS,
        set_stat cfg (Statistics n (stat_file_size (stat cfg)) (total_time (stat cfg)))).

Definition num_threads_callback (n : Z) (cfg : dma_copy_cfg) : doca_error * dma_copy_cfg :=
  if (n <? 1) || (1024 <? n) then (DOCA_ERROR_INVALID_VALUE, cfg)
  else (DOCA_SUCCESS, set_num_threads cfg n).

Section arguments.
Context `{DocaSizes}.

Definition dev_pci_addr_callback (param : list Z) (cfg : dma_copy_cfg)
  : res (doca_error * dma_copy_cfg) :=
  if strnlen param DOCA_DEVINFO_PCI_ADDR_SIZE =? DOCA_DEVINFO_PCI_ADDR_SIZE
  then Ret (DOCA_ERROR_INVALID_VALUE, cfg)
  else
    '(_, dst) ← strlcpy (cc_dev_pci_addr cfg) param DOCA_DEVINFO_PCI_ADDR_SIZE;
    Ret (DOCA_SUCCESS, set_cc_dev_pci_addr cfg dst).

Definition rep_pci_addr_callback (param : list Z) (cfg : dma_copy_cfg)
  : res (doca_error * dma_copy_cfg) :=
  if bool_decide (mode cfg = DMA_COPY_MODE_DPU) then
    if strnlen param DOCA_DEVINFO_REP_PCI_ADDR_SIZE =? DOCA_DEVINFO_REP_PCI_ADDR_SIZE
    then Ret (DOCA_ERROR_INVALID_VALUE, cfg)
    else
      '(_, dst) ← strlcpy (cc_dev_rep_pci_addr cfg) param DOCA_DEVINFO_REP_PCI_ADDR_SIZE;
      Ret (DOCA_SUCCESS, set_cc_dev_rep_pci_addr cfg dst)
  else Ret (DOCA_SUCCESS, cfg).

(** The callback registered under a long name, applied to a value of the
    registered type. Names and types that were not registered never reach it. *)
Definition argument_callback (name : string) (value : arg_value) (cfg : dma_copy_cfg)
  : res (doca_error * dma_copy_cfg) :=
  match value with
  | ArgInt n =>
      if String.eqb name "file size" then Ret (file_size_callback n cfg)
      else if String.eqb name "operations" then Ret (num_operations_callback n cfg)
      else if String.eqb name "threads" then Ret (num_threads_callback n cfg)
      else Ret (DOCA_SUCCESS, cfg)
  | ArgString s =>
      if String.eqb name "pci-addr" then dev_pci_addr_callback s cfg
      else if String.eqb name "rep-pci" then rep_pci_addr_callback s cfg
      else Ret (DOCA_SUCCESS, cfg)
  end.
End arguments.

(** One of the five parameters of [register_dma_copy_params]. *)
Definition register_param (short_name long_name description callback : string)
    (is_int mandatory : bool) : prog doca_error :=
  '(result, param) ← invoke doca_argp_param_create;
  if negb (ok result) then Pure result else
  _ ← invoke (doca_argp_param_set_short_name param short_name);
  _ ← invoke (doca_argp_param_set_long_name param long_name);
  _ ← invoke (doca_argp_param_set_description param description);
  _ ← invoke (doca_argp_param_set_callback param callback);
  _ ← invoke (doca_argp_param_set_type param is_int);
  _ ← (if mandatory then invoke (doca_argp_param_set_mandatory param) else Pure tt);
  invoke (doca_argp_register_param param).

Definition register_dma_copy_params : prog doca_error :=
  result ← register_param "f" "file size" "Size in bytes of the data to transfer"
             "file_size_callback" true true;
  if negb (ok result) then Pure result else
  result ← register_param "o" "operations" "Number of operations to perform"
             "num_operations_callback" true true;
  if negb (ok result) then Pure result else
  result ← register_param "t" "threads" "Number of threads" "num_threads_callback" true false;
  if negb (ok result) then Pure result else
  result ← register_param "p" "pci-addr" "DOCA Comm Channel device PCI address"
             "dev_pci_addr_callback" false true;
  if negb (ok result) then Pure result else
  result ← register_param "r" "rep-pci"
             "DOCA Comm Channel device representor PCI address (needed only on DPU)"
             "rep_pci_addr_callback" false false;
  if negb (ok result) then Pure result else
  result ← invoke doca_argp_register_validation_callback;
  if negb (ok result) then Pure result else
  result ← invoke doca_argp_register_version_callback;
  if negb (ok result) then Pure result else
  Pure DOCA_SUCCESS.

(** ** Memory *)

(** [buffer] is the old value of [*buffer]; the new one is returned, also when
    the block was freed again. *)
Definition memory_alloc_and_populate (mmap buffer_len : Z) (flags : access_flags) (buffer : Z)
  : prog (doca_error * Z) :=
  result ← invoke (doca_mmap_set_permissions mmap flags);
  if negb (ok result) then Pure (result, buffer) else
  buffer ← invoke (memalign 64 buffer_len);
  if buffer =? 0 then Pure (DOCA_ERROR_NO_MEMORY, buffer) else
  result ← invoke (doca_mmap_set_memrange mmap buffer buffer_len);
  if negb (ok result) then _ ← invoke (free buffer); Pure (result, buffer) else
  result ← invoke (doca_mmap_start mmap);
  if negb (ok result) then _ ← invoke (free buffer); Pure (result, buffer)
  else Pure (result, buffer).

Definition check_dev_dma_capable (devinfo : Z) : prog doca_error :=
  invoke (doca_dma_cap_task_memcpy_is_supported devinfo).

Definition open_dma_device : prog (doca_error * Z) :=
  open_doca_device_with_capabilities check_dev_dma_capable.

(** ** DMA tasks

    [num_remaining_tasks] and [task_result] are variables the callbacks reach
    through user data; [task_result] is not initialised. *)
Abbreviation task_vars := (Z * option doca_error)%type.

Definition dma_memcpy_completed_callback (v : task_vars) : task_vars :=
  (u64 (v.1 - 1), Some DOCA_SUCCESS).

Definition dma_memcpy_error_callback (task : Z) (v : task_vars) : prog task_vars :=
  status ← invoke (doca_task_get_status task);
  Pure (u64 (v.1 - 1), Some status).

Fixpoint dma_callbacks (es : list pe_event) (v : task_vars) : prog task_vars :=
  match es with
  | [] => Pure v
  | EvDmaCompletion _ :: es => dma_callbacks es (dma_memcpy_completed_callback v)
  | EvDmaError task :: es => v ← dma_memcpy_error_callback task v; dma_callbacks es v
  | _ :: es => dma_callbacks es v
  end.

(** [while ( *num_remaining_tasks > 0)] *)
Fixpoint wait_for_tasks (fuel : nat) (pe : Z) (v : task_vars) : prog task_vars :=
  match fuel with
  | O => Spin
  | S fuel =>
      if 0 <? v.1 then
        '(progressed, es) ← invoke (doca_pe_progress pe);
        v ← dma_callbacks es v;
        _ ← (if progressed =? 0 then invoke nanosleep else Pure tt);
        wait_for_tasks fuel pe v
      else Pure v
  end.

Record dma_copy_resources := DmaResources {
  state_addr : Z;                     (* the pointer [state] *)
  state : program_core_objects;       (* what it points to *)
  dma_ctx : Z
}.

Definition set_state (r : dma_copy_resources) (s : program_core_objects) : dma_copy_resources :=
  DmaResources (state_addr r) s (dma_ctx r).

Definition get_dma_max_buf_size (resources : dma_copy_resources) : prog (doca_error * Z) :=
  dma_dev_info ← invoke (doca_dev_as_devinfo (Common.dev (state resources)));
  invoke (doca_dma_cap_task_memcpy_get_max_buf_size dma_dev_info).

(** The label [free_task]. *)
Definition free_task (task : Z) (result : doca_error) (start fin : timespec)
  : prog (doca_error * (timespec * timespec)) :=
  _ ← invoke (doca_task_free task);
  Pure (result, (start, fin)).

(** Returns the result and the two time stamps; [num_remaining_tasks] is not
    read after the call. *)
Definition dpu_submit_dma_task (fuel : nat) (cfg : dma_copy_cfg) (resources : dma_copy_resources)
    (bytes_to_copy local_doca_buf remote_doca_buf num_remaining_tasks : Z) (start fin : timespec)
  : prog (doca_error * (timespec * timespec)) :=
  let '(src_buf, dst_buf) := if is_sender cfg then (local_doca_buf, remote_doca_buf)
                             else (remote_doca_buf, local_doca_buf) in
  '(result, data) ← invoke (doca_buf_get_data src_buf);
  if negb (ok result) then Pure (result, (start, fin)) else
  result ← invoke (doca_buf_set_data src_buf data bytes_to_copy);
  if negb (ok result) then Pure (result, (start, fin)) else
  '(result, task) ← invoke (doca_dma_task_memcpy_alloc_init (dma_ctx resources) src_buf dst_buf);
  if negb (ok result) then Pure (result, (start, fin)) else
  now ← invoke clock_gettime;
  match now with
  | None => free_task task result start fin
  | Some (sec, nsec) =>
      let start := Timespec sec nsec in
      result ← invoke (doca_task_submit task);
      if negb (ok result) then free_task task DOCA_ERROR_UNEXPECTED start fin else
      '(_, task_result) ← wait_for_tasks fuel (Common.pe (state resources))
                            (num_remaining_tasks, None);
      now ← invoke clock_gettime;
      match now with
      | None => free_task task DOCA_ERROR_UNEXPECTED start fin
      | Some (sec, nsec) =>
          let fin := Timespec sec nsec in
          match task_result with
          | None => Crash
          | Some task_result =>
              if negb (ok task_result) then free_task task task_result start fin
              else free_task task result start fin
          end
      end
  end.

(** ** Resources of the DPU *)

Definition destroy_dma_copy_resources (resources : dma_copy_resources) : prog doca_error :=
  result ← destroy_object doca_dma_destroy (dma_ctx resources) DOCA_SUCCESS;
  '(tmp_result, _) ← destroy_core_objects (state resources);
  let result := if negb (ok tmp_result) then DOCA_ERROR_PROPAGATE result tmp_result else result in
  _ ← invoke (free (state_addr resources));
  Pure result.

(** The cleanup labels of [allocate_dma_copy_resources]. *)
Definition free_state (result : doca_error) (r : dma_copy_resources)
  : prog (doca_error * dma_copy_resources) :=
  _ ← invoke (free (state_addr r));
  Pure (result, r).

Definition destroy_core_objects_label (result : doca_error) (r : dma_copy_resources)
  : prog (doca_error * dma_copy_resources) :=
  '(tmp_result, s) ← destroy_core_objects (state r);
  let result := if negb (ok tmp_result) then DOCA_ERROR_PROPAGATE result tmp_result else result in
  free_state result (set_state r s).

Definition destroy_dma (result : doca_error) (r : dma_copy_resources)
  : prog (doca_error * dma_copy_resources) :=
  tmp_result ← invoke (doca_dma_destroy (dma_ctx r));
  let result := if negb (ok tmp_result) then DOCA_ERROR_PROPAGATE result tmp_result else result in
  destroy_core_objects_label result r.

(** The part of [allocate_dma_copy_resources] after the core objects. *)
Definition create_dma (r : dma_copy_resources) : prog (doca_error * dma_copy_resources) :=
  '(result, dma) ← invoke (doca_dma_create (Common.dev (state r)));
  let r := DmaResources (state_addr r) (state r) dma in
  if negb (ok result) then destroy_core_objects_label result r else
  c ← invoke (doca_dma_as_ctx (dma_ctx r));
  let r := set_state r (Common.set_ctx (state r) c) in
  result ← invoke (doca_pe_connect_ctx (Common.pe (state r)) (Common.ctx (state r)));
  if negb (ok result) then destroy_dma result r else
  result ← invoke (doca_dma_task_memcpy_set_conf (dma_ctx r) NUM_DMA_TASKS);
  if negb (ok result) then destroy_dma result r else
  Pure (result, r).

Definition sizeof_program_core_objects : Z := 48.

(** [garbage] is what [malloc] leaves in the block; [dma_ctx] was cleared by
    the caller. *)
Definition allocate_dma_copy_resources (garbage : program_core_objects)
  : prog (doca_error * dma_copy_resources) :=
  p ← invoke (malloc sizeof_program_core_objects);
  let r := DmaResources p garbage 0 in
  if p =? 0 then Pure (DOCA_ERROR_NO_MEMORY, r) else
  '(result, d) ← open_dma_device;
  let r := set_state r (Common.set_dev (state r) d) in
  if negb (ok result) then free_state result r else
  '(result, s) ← create_core_objects (state r) 2;
  let r := set_state r s in
  if negb (ok result) then destroy_core_objects_label result r else
  create_dma r.

(** ** Negotiation *)

Section protocol.
Context `{Padding}.

Definition send_status_msg (comch : comch_cfg) (conn : Z) (status : bool) : prog unit :=
  _ ← comch_utils_send comch conn (status_msg status);
  Pure tt.

(** Exporting the host's memory. The message is built in a stack buffer of
    [max_comch_buffer] bytes whose first 16 bytes are written before its size
    is checked. *)
Definition host_export (comch : comch_cfg) (cfg : dma_copy_cfg) (conn : Z)
  : prog (doca_error * dma_copy_cfg) :=
  if max_comch_buffer cfg <? 16 then Crash else
  '(result, export_desc) ← invoke (doca_mmap_export_pci (file_mmap cfg) (dma_dev cfg));
  if negb (ok result) then Pure (result, cfg) else
  let export_desc_len := Z.of_nat (length export_desc) in
  let exp_msg_len := u64 (export_desc_len + sizeof_export) in
  if max_comch_buffer cfg <? exp_msg_len then Pure (DOCA_ERROR_INVALID_VALUE, cfg) else
  result ← comch_utils_send comch conn
    (export_msg (htonq true (file_buffer cfg)) (htonq true export_desc_len) export_desc);
  Pure (result, cfg).

Definition host_process_dma_direction_and_size (comch : comch_cfg) (cfg : dma_copy_cfg) (conn : Z)
    (msg : list Z) : prog (doca_error * dma_copy_cfg) :=
  if negb (is_sender cfg) then
    let cfg := set_file_size cfg (ntohq true (msg_u64 msg 8)) in
    '(result, buffer) ← memory_alloc_and_populate (file_mmap cfg) (file_size cfg)
                          DOCA_ACCESS_FLAG_PCI_READ_WRITE (file_buffer cfg);
    let cfg := set_file_buffer cfg buffer in
    if negb (ok result) then Pure (DOCA_ERROR_NO_MEMORY, cfg) else
    host_export comch cfg conn
  else host_export comch cfg conn.

(** The failure exit of the receive callbacks. *)
Definition negotiation_failed (comch : comch_cfg) (cfg : dma_copy_cfg) (conn : Z)
  : prog dma_copy_cfg :=
  _ ← send_status_msg comch conn STATUS_FAILURE;
  Pure (set_comch_state cfg COMCH_ERROR).

Definition host_recv_event_cb (comch : comch_cfg) (cfg : dma_copy_cfg) (conn : Z) (msg : list Z)
  : prog dma_copy_cfg :=
  user_data ← comch_utils_get_user_data comch conn;
  if user_data =? 0 then Pure cfg else
  let msg_len := Z.of_nat (length msg) in
  if msg_len <? 4 then negotiation_failed comch cfg conn else
  if msg_type msg =? COMCH_MSG_DIRECTION then
    if negb (msg_len =? sizeof_direction) then negotiation_failed comch cfg conn else
    '(result, cfg) ← host_process_dma_direction_and_size comch cfg conn msg;
    if negb (ok result) then negotiation_failed comch cfg conn else Pure cfg
  else if msg_type msg =? COMCH_MSG_STATUS then
    if negb (msg_len =? sizeof_status) then negotiation_failed comch cfg conn else
    Pure (set_comch_state cfg
            (if bool_decide (msg_flag msg = STATUS_FAILURE) then COMCH_ERROR else COMCH_COMPLETE))
  else negotiation_failed comch cfg conn.

Definition send_file_direction_request (cfg : dma_copy_cfg) (comch : comch_cfg)
  : prog doca_error :=
  comch_utils_send comch (comch_util_get_connection (Some comch))
    (if is_sender cfg then direction_msg true (htonq true (file_size cfg))
     else direction_msg false 0).

Definition dpu_process_dma_direction_and_size (comch : comch_cfg) (cfg : dma_copy_cfg) (conn : Z)
    (msg : list Z) : prog (doca_error * dma_copy_cfg) :=
  let file_in_host := msg_flag msg in
  if is_sender cfg && file_in_host then Pure (DOCA_ERROR_INVALID_VALUE, cfg) else
  if negb (is_sender cfg) && negb file_in_host then Pure (DOCA_ERROR_INVALID_VALUE, cfg) else
  let cfg := if negb (is_sender cfg) then set_file_size cfg (ntohq true (msg_u64 msg 8)) else cfg in
  if max_dma_buf_size cfg <? file_size cfg then Pure (DOCA_ERROR_INVALID_VALUE, cfg) else
  result ← comch_utils_send comch conn
    (if is_sender cfg then direction_msg false (htonq true (file_size cfg))
     else direction_msg true 0);
  Pure (result, cfg).

(** [memcpy] reads the descriptor from the message; reading beyond its end is
    undefined. *)
Definition dpu_process_export_descriptor (cfg : dma_copy_cfg) (msg : list Z)
  : prog (doca_error * dma_copy_cfg) :=
  let desc_len := ntohq true (msg_u64 msg 16) in
  p ← invoke (malloc desc_len);
  if p =? 0 then Pure (DOCA_ERROR_NO_MEMORY, set_exported_mmap cfg 0) else
  if Z.of_nat (length msg) - sizeof_export <? desc_len then Crash else
  Pure (DOCA_SUCCESS,
        set_export cfg p (take (Z.to_nat desc_len) (drop (Z.to_nat sizeof_export) msg)) desc_len
          (ntohq true (msg_u64 msg 8))).

Definition dpu_recv_event_cb (comch : comch_cfg) (cfg : dma_copy_cfg) (conn : Z) (msg : list Z)
  : prog dma_copy_cfg :=
  user_data ← comch_utils_get_user_data comch conn;
  if user_data =? 0 then Pure cfg else
  let msg_len := Z.of_nat (length msg) in
  if msg_len <? 4 then negotiation_failed comch cfg conn else
  if msg_type msg =? COMCH_MSG_DIRECTION then
    if negb (msg_len =? sizeof_direction) then negotiation_failed comch cfg conn else
    '(result, cfg) ← dpu_process_dma_direction_and_size comch cfg conn msg;
    if negb (ok result) then negotiation_failed comch cfg conn else Pure cfg
  else if msg_type msg =? COMCH_MSG_EXPORT_DESCRIPTOR then
    if msg_len <=? sizeof_export then negotiation_failed comch cfg conn else
    '(result, cfg) ← dpu_process_export_descriptor cfg msg;
    if negb (ok result) then negotiation_failed comch cfg conn
    else Pure (set_comch_state cfg COMCH_COMPLETE)
  else if msg_type msg =? COMCH_MSG_STATUS then
    if negb (msg_len =? sizeof_status) then negotiation_failed comch cfg conn else
    Pure (if bool_decide (msg_flag msg = STATUS_FAILURE) then set_comch_state cfg COMCH_ERROR else cfg)
  else negotiation_failed comch cfg conn.

(** ** The copy

    [while (dma_cfg->comch_state == COMCH_NEGOTIATING)], on either side:
    [result] is the variable of the caller. *)
Fixpoint negotiate (recv_event_cb : comch_cfg -> dma_copy_cfg -> Z -> list Z -> prog dma_copy_cfg)
    (fuel : nat) (result : doca_error) (s : comch_cfg * dma_copy_cfg)
  : prog (doca_error * (comch_cfg * dma_copy_cfg)) :=
  match fuel with
  | O => Spin
  | S fuel =>
      if bool_decide (comch_state s.2 = COMCH_NEGOTIATING) then
        _ ← invoke nanosleep;
        '(result, s) ← comch_utils_progress_connection recv_event_cb s
                         (comch_util_get_connection (Some s.1));
        if negb (ok result) then Pure (result, s) else negotiate recv_event_cb fuel result s
      else Pure (result, s)
  end.

(** The labels of [host_start_dma_copy]. *)
Definition host_close_device (result : doca_error) (s : comch_cfg * dma_copy_cfg)
  : prog (doca_error * (comch_cfg * dma_copy_cfg)) :=
  tmp_result ← invoke (doca_dev_close (dma_dev s.2));
  Pure (if negb (ok tmp_result) then DOCA_ERROR_PROPAGATE result tmp_result else result, s).

Definition host_destroy_mmap (result : doca_error) (s : comch_cfg * dma_copy_cfg)
  : prog (doca_error * (comch_cfg * dma_copy_cfg)) :=
  tmp_result ← invoke (doca_mmap_destroy (file_mmap s.2));
  host_close_device (if negb (ok tmp_result) then DOCA_ERROR_PROPAGATE result tmp_result else result) s.

Definition host_free_buffer (result : doca_error) (s : comch_cfg * dma_copy_cfg)
  : prog (doca_error * (comch_cfg * dma_copy_cfg)) :=
  _ ← invoke (free (file_buffer s.2));
  host_destroy_mmap result s.

(** From the moment the host's buffer is ready. *)
Definition host_negotiate (fuel : nat) (s : comch_cfg * dma_copy_cfg)
  : prog (doca_error * (comch_cfg * dma_copy_cfg)) :=
  let s := (s.1, set_comch_state s.2 COMCH_NEGOTIATING) in
  result ← send_file_direction_request s.2 s.1;
  if negb (ok result) then host_free_buffer result s else
  '(result, s) ← negotiate host_recv_event_cb fuel result s;
  host_free_buffer result s.

Definition host_start_dma_copy (fuel : nat) (s : comch_cfg * dma_copy_cfg)
  : prog (doca_error * (comch_cfg * dma_copy_cfg)) :=
  let '(comch, cfg) := s in
  let cfg := set_max_comch_buffer cfg (comch_utils_get_max_buffer_size (Some comch)) in
  if max_comch_buffer cfg =? 0 then Pure (DOCA_ERROR_INVALID_VALUE, (comch, cfg)) else
  '(result, d) ← open_dma_device;
  let cfg := set_dma_dev cfg d in
  if negb (ok result) then Pure (result, (comch, cfg)) else
  '(result, m) ← invoke doca_mmap_create;
  let cfg := set_file_mmap cfg m in
  if negb (ok result) then host_close_device result (comch, cfg) else
  result ← invoke (doca_mmap_add_dev (file_mmap cfg) (dma_dev cfg));
  if negb (ok result) then host_destroy_mmap result (comch, cfg) else
  if is_sender cfg then
    '(result, b) ← memory_alloc_and_populate (file_mmap cfg) (file_size cfg)
                     DOCA_ACCESS_FLAG_PCI_READ_ONLY (file_buffer cfg);
    let cfg := set_file_buffer cfg b in
    if negb (ok result) then host_destroy_mmap result (comch, cfg)
    else host_negotiate fuel (comch, cfg)
  else host_negotiate fuel (comch, cfg).

(** The labels of [dpu_start_dma_copy]. *)
Definition dpu_destroy_dma_resources (result : doca_error) (r : dma_copy_resources)
    (s : comch_cfg * dma_copy_cfg) : prog (doca_error * (comch_cfg * dma_copy_cfg)) :=
  _ ← (if negb (exported_mmap s.2 =? 0) then invoke (free (exported_mmap s.2)) else Pure tt);
  tmp_result ← destroy_dma_copy_resources r;
  Pure (if negb (ok tmp_result) then DOCA_ERROR_PROPAGATE result tmp_result else result, s).

Definition dpu_stop_dma (fuel : nat) (result : doca_error) (r : dma_copy_resources)
    (s : comch_cfg * dma_copy_cfg) : prog (doca_error * (comch_cfg * dma_copy_cfg)) :=
  tmp_result ← request_stop_ctx fuel (Common.pe (state r)) (Common.ctx (state r));
  let result := if negb (ok tmp_result) then DOCA_ERROR_PROPAGATE result tmp_result else result in
  dpu_destroy_dma_resources result (set_state r (Common.set_ctx (state r) 0)) s.

Definition dpu_free_buffer (fuel : nat) (result : doca_error) (r : dma_copy_resources)
    (s : comch_cfg * dma_copy_cfg) : prog (doca_error * (comch_cfg * dma_copy_cfg)) :=
  _ ← invoke (free (file_buffer s.2));
  dpu_stop_dma fuel result r s.

Definition dpu_destroy_remote_mmap (fuel : nat) (result : doca_error) (remote_mmap : Z)
    (r : dma_copy_resources) (s : comch_cfg * dma_copy_cfg)
  : prog (doca_error * (comch_cfg * dma_copy_cfg)) :=
  tmp_result ← invoke (doca_mmap_destroy remote_mmap);
  let result := if negb (ok tmp_result) then DOCA_ERROR_PROPAGATE result tmp_result else result in
  dpu_free_buffer fuel result r s.

(** [doca_buf_dec_refcount], keeping the first error. *)
Definition release_buf (buf : Z) (result : doca_error) : prog doca_error :=
  tmp_result ← invoke (doca_buf_dec_refcount buf);
  Pure (if negb (ok tmp_result) then DOCA_ERROR_PROPAGATE result tmp_result else result).

(** One operation: the result, the time stamps, and whether the loop goes on. *)
Definition copy_once (fuel : nat) (r : dma_copy_resources) (remote_mmap : Z)
    (s : comch_cfg * dma_copy_cfg) (start fin : timespec)
  : prog (bool * doca_error * (comch_cfg * dma_copy_cfg) * (timespec * timespec)) :=
  let '(comch, cfg) := s in
  let conn := comch_util_get_connection (Some comch) in
  '(result, remote) ← invoke (doca_buf_inventory_buf_get_by_addr (buf_inv (state r)) remote_mmap
                                (host_addr cfg) (file_size cfg));
  if negb (ok result) then
    _ ← send_status_msg comch conn STATUS_FAILURE;
    Pure (false, result, s, (start, fin)) else
  '(result, local) ← invoke (doca_buf_inventory_buf_get_by_addr (buf_inv (state r))
                               (src_mmap (state r)) (file_buffer cfg) (file_size cfg));
  if negb (ok result) then
    _ ← send_status_msg comch conn STATUS_FAILURE;
    result ← release_buf remote result;
    Pure (false, result, s, (start, fin)) else
  '(result, (start, fin)) ← dpu_submit_dma_task fuel cfg r (file_size cfg) local remote 1 start fin;
  let total := timespec_add (total_time (stat cfg)) (get_duration start fin) in
  let cfg := set_stat cfg (Statistics (ops (stat cfg)) (stat_file_size (stat cfg)) total) in
  if negb (ok result) then
    _ ← send_status_msg comch conn STATUS_FAILURE;
    result ← release_buf local result;
    result ← release_buf remote result;
    Pure (false, result, (comch, cfg), (start, fin))
  else
    result ← release_buf local result;
    result ← release_buf remote result;
    Pure (true, result, (comch, cfg), (start, fin)).

(** [for (i = 0; i < ops; i++)], [n] operations being left. *)
Fixpoint copy_loop (n : nat) (fuel : nat) (r : dma_copy_resources) (remote_mmap : Z)
    (result : doca_error) (s : comch_cfg * dma_copy_cfg) (start fin : timespec)
  : prog (bool * doca_error * (comch_cfg * dma_copy_cfg)) :=
  match n with
  | O => Pure (true, result, s)
  | S n =>
      '(go_on, result, s, (start, fin)) ← copy_once fuel r remote_mmap s start fin;
      if go_on : bool then copy_loop n fuel r remote_mmap result s start fin
      else Pure (false, result, s)
  end.

(** From the end of the negotiation on. *)
Definition dpu_copy (fuel : nat) (flags : access_flags) (r : dma_copy_resources)
    (s : comch_cfg * dma_copy_cfg) : prog (doca_error * (comch_cfg * dma_copy_cfg)) :=
  '(result, b) ← memory_alloc_and_populate (src_mmap (state r)) (file_size s.2) flags
                   (file_buffer s.2);
  let s := (s.1, set_file_buffer s.2 b) in
  if negb (ok result) then dpu_stop_dma fuel result r s else
  '(result, remote_mmap) ← invoke (doca_mmap_create_from_export (exported_desc s.2)
                                     (Common.dev (state r)));
  if negb (ok result) then dpu_free_buffer fuel result r s else
  '(completed, result, s) ← copy_loop (Z.to_nat (ops (stat s.2))) fuel r remote_mmap result s
                              time_zero time_zero;
  if completed : bool then
    _ ← send_status_msg s.1 (comch_util_get_connection (Some s.1)) STATUS_SUCCESS;
    dpu_destroy_remote_mmap fuel result remote_mmap r s
  else dpu_destroy_remote_mmap fuel result remote_mmap r s.

(** From the allocation of the resources on. *)
Definition dpu_run (fuel : nat) (flags : access_flags) (r : dma_copy_resources)
    (s : comch_cfg * dma_copy_cfg) : prog (doca_error * (comch_cfg * dma_copy_cfg)) :=
  '(result, size) ← get_dma_max_buf_size r;
  let s := (s.1, set_max_dma_buf_size s.2 size) in
  if negb (ok result) then dpu_destroy_dma_resources result r s else
  _ ← invoke (doca_ctx_set_user_data (Common.ctx (state r)) 1);
  result ← invoke (doca_ctx_start (Common.ctx (state r)));
  if negb (ok result) then dpu_destroy_dma_resources result r s else
  '(result, s) ← negotiate dpu_recv_event_cb fuel result s;
  if negb (ok result) then dpu_stop_dma fuel result r s else
  if bool_decide (comch_state s.2 = COMCH_ERROR) then dpu_stop_dma fuel result r s else
  dpu_copy fuel flags r s.

Definition dpu_start_dma_copy (fuel : nat) (garbage : program_core_objects)
    (s : comch_cfg * dma_copy_cfg) : prog (doca_error * (comch_cfg * dma_copy_cfg)) :=
  let '(comch, cfg) := s in
  let flags := if is_sender cfg then DOCA_ACCESS_FLAG_LOCAL_READ_ONLY
               else DOCA_ACCESS_FLAG_LOCAL_READ_WRITE in
  let cfg := set_stat cfg (Statistics (ops (stat cfg)) (stat_file_size (stat cfg)) time_zero) in
  '(result, r) ← allocate_dma_copy_resources garbage;
  if negb (ok result) then Pure (result, (comch, cfg)) else
  dpu_run fuel flags r (comch, cfg).
End protocol.

(** ** dma_copy.c *)

Section main.
Context `{DocaSizes} `{Padding}.

(** What [doca_argp_start] does with the arguments: the callbacks in order up
    to the first error, then the validation callback. *)
Fixpoint apply_arguments (args : list (string * arg_value)) (cfg : dma_copy_cfg)
  : prog (doca_error * dma_copy_cfg) :=
  match args with
  | [] => Pure (args_validation_callback cfg, cfg)
  | (name, value) :: args =>
      '(result, cfg) ← of_res (argument_callback name value cfg);
      if negb (ok result) then Pure (result, cfg) else apply_arguments args cfg
  end.

(** [struct dma_copy_cfg dma_cfg = {0}] and the assignments after it. *)
Definition initial_cfg (arch_dpu : bool) : dma_copy_cfg :=
  DmaCfg (if arch_dpu then DMA_COPY_MODE_DPU else DMA_COPY_MODE_HOST) 1
    (replicate (Z.to_nat DOCA_DEVINFO_PCI_ADDR_SIZE) 0)
    (replicate (Z.to_nat DOCA_DEVINFO_REP_PCI_ADDR_SIZE) 0)
    (negb arch_dpu) 0 0 0 0 0 0 [] 0 0 0 COMCH_NEGOTIATING (Statistics 0 0 time_zero).

(** "dma copy server" *)
Definition SERVER_NAME : list Z :=
  [100; 109; 97; 32; 99; 111; 112; 121; 32; 115; 101; 114; 118; 101; 114].
(** "result.json" *)
Definition result_json : list Z := [114; 101; 115; 117; 108; 116; 46; 106; 115; 111; 110].

Definition destroy_argp (exit_status : Z) : prog Z :=
  _ ← invoke doca_argp_destroy;
  Pure exit_status.

Definition recv_event_cb (arch_dpu : bool) := if arch_dpu then dpu_recv_event_cb else host_recv_event_cb.

(** The application once the arguments are read. An unset [comch_cfg] is an
    uninitialised pointer. *)
Definition run_application (fuel : nat) (arch_dpu : bool) (garbage : program_core_objects)
    (cfg : dma_copy_cfg) : prog Z :=
  '(result, comch, cfg) ← comch_utils_init (recv_event_cb arch_dpu) fuel arch_dpu
     (Some SERVER_NAME) (Some (cc_dev_pci_addr cfg)) (Some (cc_dev_rep_pci_addr cfg)) 1 1 1 false cfg;
  if negb (ok result) then destroy_argp EXIT_FAILURE else
  match comch with
  | None => Crash
  | Some comch =>
      '(result, s) ← (if bool_decide (mode cfg = DMA_COPY_MODE_HOST)
                      then host_start_dma_copy fuel (comch, cfg)
                      else dpu_start_dma_copy fuel garbage (comch, cfg));
      let exit_status := if ok result then EXIT_SUCCESS else EXIT_FAILURE in
      written ← write_statistics_to_file result_json;
      if negb written then Pure EXIT_FAILURE else
      '(result, s) ← comch_utils_destroy (recv_event_cb arch_dpu) fuel s;
      destroy_argp (if negb (ok result) then EXIT_FAILURE else exit_status)
  end.

Definition main (fuel : nat) (arch_dpu : bool) (garbage : program_core_objects) : prog Z :=
  let cfg := initial_cfg arch_dpu in
  result ← invoke doca_log_backend_create_standard;
  if negb (ok result) then Pure EXIT_FAILURE else
  '(result, sdk_log) ← invoke doca_log_backend_create_with_file_sdk;
  if negb (ok result) then Pure EXIT_FAILURE else
  result ← invoke (doca_log_backend_set_sdk_level sdk_log);
  if negb (ok result) then Pure EXIT_FAILURE else
  result ← invoke (doca_argp_init "doca_dma_copy");
  if negb (ok result) then Pure EXIT_FAILURE else
  result ← register_dma_copy_params;
  if negb (ok result) then destroy_argp EXIT_FAILURE else
  '(result, args) ← invoke doca_argp_start;
  '(callback_result, cfg) ← apply_arguments args cfg;
  if negb (ok callback_result) then destroy_argp EXIT_FAILURE else
  if negb (ok result) then destroy_argp EXIT_FAILURE else
  run_application fuel arch_dpu garbage cfg.
End main.
