(* ===== verification/DmaOwn.v ===== *)
(** * DmaOwn: the resource discipline of the DMA copy application, and one copy *)

From S2P Require Import Prelude.
From S2P Require Import Pack.
From S2P Require Import Doca.
From S2P Require Import Common.
From S2P Require Import CommonProps.
From S2P Require Import ComchUtils.
From S2P Require Import ComchProps.
From S2P Require Import DmaCopy.
From S2P Require Import Ownership.

(** ** Helpers *)

Lemma comch_utils_get_user_data_quiet {M : mode} cfg conn : quiet M (comch_utils_get_user_data cfg conn).
Proof.
  unfold comch_utils_get_user_data, get_comch_cfg_from_connection.
  destruct (conn =? 0); lin_simpl; [apply quiet_pure|].
  apply quiet_call; [done|done|intros; apply quiet_pure].
Qed.

Lemma request_stop_ctx_quiet {M : mode} fuel pe ctx : may_spin M -> quiet M (request_stop_ctx fuel pe ctx).
Proof.
  intros HM. unfold request_stop_ctx. lin_simpl. apply quiet_call; [done|done|intros e].
  case_bool_decide; [|destruct (negb _); apply quiet_pure].
  induction fuel as [|fuel IH]; [exact HM|]. cbn [wait_until_idle]. lin_simpl.
  apply quiet_call; [done|done|intros r]. apply quiet_call; [done|done|intros [e2 st]].
  destruct (negb _); [apply quiet_pure|]. case_bool_decide; [apply quiet_pure|]. apply IH.
Qed.

Lemma open_dma_device_lin {M : mode} : lin M open_dma_device [] (opened KDev).
Proof.
  apply open_doca_device_with_capabilities_lin. intros d. unfold check_dev_dma_capable, invoke.
  apply quiet_call; [done|done|intros; apply quiet_pure].
Qed.

(** The block is held exactly when the result is [DOCA_SUCCESS]. *)
Lemma memory_alloc_and_populate_lin {M : mode} mmap len flags buffer :
  lin M (memory_alloc_and_populate mmap len flags buffer) []
    (fun r rs => rs = (if ok r.1 then [(KMemory, r.2)] else []) /\ (r.1 = DOCA_SUCCESS -> r.2 <> 0)).
Proof.
  unfold memory_alloc_and_populate. lin_ask e He. destruct (ok_spec e) as [->|Hne]; cbn [negb].
  2: { apply lin_pure. cbn [fst]. by destruct (ok_spec e). }
  lin_ask b Hb. destruct (Z.eqb_spec b 0) as [|Hb0]; [by apply lin_pure|].
  lin_ask e He2. destruct (ok_spec e) as [->|Hne]; cbn [negb app].
  2: { lin_simpl. eapply lin_release; [by apply non_null_some|done|reflexivity|]. intros _ _.
       apply lin_pure. cbn [fst]. by destruct (ok_spec e). }
  lin_ask e He3. destruct (ok_spec e) as [->|Hne]; cbn [negb app].
  - by apply lin_pure.
  - lin_simpl. eapply lin_release; [by apply non_null_some|done|reflexivity|]. intros _ _.
    apply lin_pure. cbn [fst]. by destruct (ok_spec e).
Qed.

(** ** The callbacks *)

Section callbacks.
Context `{Padding}.

Lemma send_status_msg_quiet {M : mode} comch conn b : quiet M (send_status_msg comch conn b).
Proof using Type.
  unfold send_status_msg. apply lin_quiet; [apply comch_utils_send_quiet|]. intros e. by apply lin_pure.
Qed.

Lemma negotiation_failed_lin {M : mode} comch cfg conn rs (post : dma_copy_cfg -> list resource -> Prop) :
  post (set_comch_state cfg COMCH_ERROR) rs -> lin M (negotiation_failed comch cfg conn) rs post.
Proof using Type.
  intros Hp. unfold negotiation_failed. apply lin_quiet; [apply send_status_msg_quiet|].
  intros []. by apply lin_pure.
Qed.

(** A host that sends the file: its callback touches only the state of the
    negotiation, and the message buffer is large enough. *)
Definition host_holds (b m d : Z) (cfg : dma_copy_cfg) (rs : list resource) : Prop :=
  rs = [] /\ is_sender cfg = true /\ 16 <= max_comch_buffer cfg /\
  file_buffer cfg = b /\ file_mmap cfg = m /\ dma_dev cfg = d.

Lemma host_export_lin {M : mode} comch cfg conn rs : 16 <= max_comch_buffer cfg ->
  lin M (host_export comch cfg conn) rs (fun r rs' => r.2 = cfg /\ rs' = rs).
Proof using Type.
  intros Hm. unfold host_export. destruct (Z.ltb_spec (max_comch_buffer cfg) 16); [lia|].
  lin_ask x Hx. destruct x as [e desc]. cbn [app]. destruct (negb _); [by apply lin_pure|].
  cbv zeta. destruct (_ <? _); [by apply lin_pure|].
  apply lin_quiet; [apply comch_utils_send_quiet|]. intros e2. by apply lin_pure.
Qed.

Lemma host_recv_event_cb_lin {M : mode} b m d comch cfg conn msg rs :
  host_holds b m d cfg rs -> lin M (host_recv_event_cb comch cfg conn msg) rs (host_holds b m d).
Proof using Type.
  intros Hh. assert (forall st, host_holds b m d (set_comch_state cfg st) rs) as Hst by done.
  unfold host_recv_event_cb. apply lin_quiet; [apply comch_utils_get_user_data_quiet|]. intros u.
  destruct (u =? 0); [by apply lin_pure|]. cbv zeta.
  destruct (_ <? 4); [by apply negotiation_failed_lin|].
  destruct (_ =? COMCH_MSG_DIRECTION).
  - destruct (negb _); [by apply negotiation_failed_lin|].
    unfold host_process_dma_direction_and_size. destruct Hh as (Hrs & Hs & Hm & Hrest).
    rewrite Hs. cbn [negb]. apply lin_bind. eapply lin_mono; [by apply host_export_lin|].
    intros [e cfg'] rs' [Hc ->]. simpl in Hc. subst cfg'.
    destruct (negb _); [by apply negotiation_failed_lin|by apply lin_pure].
  - destruct (_ =? COMCH_MSG_STATUS); [|by apply negotiation_failed_lin].
    destruct (negb _); [by apply negotiation_failed_lin|by apply lin_pure].
Qed.

(** A message whose descriptor lies within it. *)
Definition descriptor_fits (msg : list Z) : Prop :=
  msg_type msg = COMCH_MSG_EXPORT_DESCRIPTOR -> sizeof_export < Z.of_nat (length msg) ->
  ntohq true (msg_u64 msg 16) <= Z.of_nat (length msg) - sizeof_export.

(** The DPU started with the blocks [F] and received the descriptors [ms]: it
    holds all of these blocks, among them the one of its configuration. *)
Definition dpu_holds (M : mode) (F : list resource) (cfg : dma_copy_cfg) (rs : list resource) : Prop :=
  exists ms kept, Forall (fun p => p <> 0) ms /\ rs ≡ₚ (kept ++ non_null KMemory (exported_mmap cfg)) ++ (ms ≫= note M) /\
    kept ++ non_null KMemory (exported_mmap cfg) ≡ₚ F ++ blocks ms.

Lemma dpu_holds_start M cfg :
  dpu_holds M (non_null KMemory (exported_mmap cfg)) cfg (non_null KMemory (exported_mmap cfg)).
Proof using Type. exists [], []. simpl. by rewrite app_nil_r. Qed.

(** A block more, and the configuration now refers to it; the one it referred
    to is kept. *)
Lemma dpu_holds_next {M : mode} F cfg cfg' p rs : dpu_holds M F cfg rs ->
  exported_mmap cfg' = p -> p <> 0 -> dpu_holds M F cfg' ((KMemory, p) :: note M p ++ rs).
Proof using Type.
  intros (ms & kept & Hms & Hrs & Hk) Hp Hne. exists (ms ++ [p]), (kept ++ non_null KMemory (exported_mmap cfg)).
  rewrite Hp, (non_null_some KMemory p) by done. split_and!.
  - apply Forall_app. by repeat constructor.
  - rewrite bind_app, Hrs. simpl. rewrite app_nil_r, <- (Permutation_cons_append (kept ++ _)). simpl.
    f_equiv. rewrite Permutation_app_comm. by rewrite !(assoc_L (++)).
  - rewrite Hk, map_app. by rewrite <- (assoc_L (++)).
Qed.

Lemma dpu_process_export_descriptor_lin {M : mode} F cfg msg rs :
  ntohq true (msg_u64 msg 16) <= Z.of_nat (length msg) - sizeof_export -> dpu_holds M F cfg rs ->
  lin M (dpu_process_export_descriptor cfg msg) rs (fun r rs' => dpu_holds M F r.2 rs').
Proof using Type.
  intros Hfit Hh. unfold dpu_process_export_descriptor. lin_ask p Hp.
  destruct (Z.eqb_spec p 0) as [->|Hne]; cbn [app].
  - apply lin_pure. destruct Hh as (ms & kept & Hms & Hrs & Hk).
    exists ms, (kept ++ non_null KMemory (exported_mmap cfg)). simpl exported_mmap.
    change (non_null KMemory 0) with (@nil resource). rewrite app_nil_r. split_and!; [done| |done].
    rewrite Hrs. unfold note at 1. by destruct (noted M).
  - destruct (Z.ltb_spec (Z.of_nat (length msg) - sizeof_export) (ntohq true (msg_u64 msg 16))); [lia|].
    apply lin_pure. by eapply dpu_holds_next.
Qed.

Lemma dpu_recv_event_cb_lin {M : mode} F comch cfg conn msg rs : descriptor_fits msg ->
  dpu_holds M F cfg rs -> lin M (dpu_recv_event_cb comch cfg conn msg) rs (dpu_holds M F).
Proof using Type.
  intros Hfit Hh. unfold dpu_recv_event_cb. apply lin_quiet; [apply comch_utils_get_user_data_quiet|].
  intros u. destruct (u =? 0); [by apply lin_pure|]. cbv zeta.
  destruct (_ <? 4); [by apply negotiation_failed_lin|].
  destruct (_ =? COMCH_MSG_DIRECTION).
  { destruct (negb _); [by apply negotiation_failed_lin|].
    apply lin_bind. eapply lin_mono with (post := fun r rs' => dpu_holds M F r.2 rs').
    - unfold dpu_process_dma_direction_and_size. cbv zeta.
      destruct (_ && _); [by apply lin_pure|]. destruct (_ && _); [by apply lin_pure|].
      destruct (_ <? _); [apply lin_pure; by destruct (negb _)|].
      apply lin_quiet; [apply comch_utils_send_quiet|]. intros e. apply lin_pure. by destruct (negb _).
    - intros [e cfg'] rs' Hh'. destruct (negb _); [by apply negotiation_failed_lin|by apply lin_pure]. }
  destruct (Z.eqb_spec (msg_type msg) COMCH_MSG_EXPORT_DESCRIPTOR) as [Ht|_].
  { destruct (Z.leb_spec (Z.of_nat (length msg)) sizeof_export); [by apply negotiation_failed_lin|].
    apply lin_bind. eapply lin_mono; [apply dpu_process_export_descriptor_lin; [by apply Hfit|done]|].
    intros [e cfg'] rs' Hh'. destruct (negb _); [by apply negotiation_failed_lin|by apply lin_pure]. }
  destruct (_ =? COMCH_MSG_STATUS); [|by apply negotiation_failed_lin].
  destruct (negb _); [by apply negotiation_failed_lin|]. apply lin_pure. by case_bool_decide.
Qed.

(** The interface the channel asks of its application. *)
Lemma host_orderly b m d : orderly (fun _ => True) host_recv_event_cb (host_holds b m d).
Proof using Type. intros comch cfg conn msg rs _ Hh. by apply host_recv_event_cb_lin. Qed.

Lemma dpu_orderly F :
  orderly descriptor_fits dpu_recv_event_cb (dpu_holds (Mode False descriptor_fits) F).
Proof using Type. intros comch cfg conn msg rs Hm Hh. by apply dpu_recv_event_cb_lin. Qed.

(** ** Waiting for the negotiation *)

Lemma negotiate_lin {M : mode} recv (holds : dma_copy_cfg -> list resource -> Prop) fuel :
  may_spin M ->
  (forall comch a conn bytes rs, msg_ok M bytes -> holds a rs ->
     lin M (recv comch a conn bytes) rs holds) ->
  forall result s rs, holds s.2 rs ->
  lin M (negotiate recv fuel result s) rs (fun r rs' => holds r.2.2 rs').
Proof using Type.
  intros HM Hrecv. induction fuel as [|fuel IH]; intros result s rs Hs; cbn [negotiate]; [exact HM|].
  case_bool_decide; [|by apply lin_pure]. lin_ask u Hu. cbn [app].
  apply lin_bind. eapply lin_mono with (post := fun r rs' => holds r.2.2 rs').
  - unfold comch_utils_progress_connection, get_comch_cfg_from_connection.
    destruct (_ =? 0); lin_simpl; [by apply lin_pure|]. lin_ask d Hd. cbn [app].
    destruct (d =? 0); [by apply lin_pure|]. apply lin_bind.
    eapply lin_mono; [by apply (progress_lin recv holds)|]. intros s' rs' [Hh _]. by apply lin_pure.
  - intros [e s'] rs' Hh. destruct (negb _); [by apply lin_pure|by apply IH].
Qed.

(** ** The host *)

Lemma host_close_device_lin {M : mode} e s :
  lin M (host_close_device e s) [(KDev, dma_dev s.2)] (fun _ rs => rs = []).
Proof using Type. unfold host_close_device. lin_give. by apply lin_pure. Qed.

Lemma host_destroy_mmap_lin {M : mode} e s :
  lin M (host_destroy_mmap e s) [(KMmap, file_mmap s.2); (KDev, dma_dev s.2)] (fun _ rs => rs = []).
Proof using Type. unfold host_destroy_mmap. lin_give. apply host_close_device_lin. Qed.

Lemma host_free_buffer_lin {M : mode} e s : file_buffer s.2 <> 0 ->
  lin M (host_free_buffer e s)
    [(KMemory, file_buffer s.2); (KMmap, file_mmap s.2); (KDev, dma_dev s.2)] (fun _ rs => rs = []).
Proof using Type.
  intros Hb. unfold host_free_buffer. lin_simpl.
  eapply lin_release; [by apply non_null_some|done|reflexivity|]. intros _ _. apply host_destroy_mmap_lin.
Qed.

Lemma host_negotiate_lin {M : mode} fuel comch cfg : may_spin M ->
  is_sender cfg = true -> 16 <= max_comch_buffer cfg -> file_buffer cfg <> 0 ->
  lin M (host_negotiate fuel (comch, cfg))
    [(KMemory, file_buffer cfg); (KMmap, file_mmap cfg); (KDev, dma_dev cfg)] (fun _ rs => rs = []).
Proof using Type.
  intros HM Hs Hbuf Hb. unfold host_negotiate. cbv zeta. cbn [fst snd].
  apply lin_quiet; [apply comch_utils_send_quiet|]. intros e.
  destruct (negb _); [by apply (host_free_buffer_lin e (comch, set_comch_state cfg COMCH_NEGOTIATING))|].
  set (s0 := (comch, set_comch_state cfg COMCH_NEGOTIATING)).
  eapply (lin_call_fn _ _ [] [(KMemory, file_buffer cfg); (KMmap, file_mmap cfg); (KDev, dma_dev cfg)]).
  - apply (negotiate_lin host_recv_event_cb (host_holds (file_buffer cfg) (file_mmap cfg) (dma_dev cfg)));
      [done| |by split_and!].
    intros. by apply host_recv_event_cb_lin.
  - done.
  - intros [e2 s2] rs (-> & _ & _ & Eb & Em & Ed). simpl in *. rewrite <- Eb, <- Em, <- Ed.
    apply host_free_buffer_lin. by rewrite Eb.
Qed.

(** A jump to a label of [host_start_dma_copy]. *)
Ltac host_label label_lin :=
  match goal with |- lin _ (_ ?e ?s) _ _ => exact (label_lin _ e s) end.

Lemma host_start_dma_copy_lin {M : mode} fuel comch cfg : may_spin M ->
  is_sender cfg = true -> 16 <= max_buf_size comch ->
  lin M (host_start_dma_copy fuel (comch, cfg)) [] (fun _ rs => rs = []).
Proof using Type.
  intros HM Hs Hbuf. unfold host_start_dma_copy. cbv zeta.
  destruct (_ =? 0); [by apply lin_pure|].
  apply lin_bind. eapply lin_mono; [apply open_dma_device_lin|]. intros [e d] rs Hrs.
  unfold opened in Hrs. simpl fst in Hrs. destruct (ok_spec e) as [->|Hne];
    [destruct Hrs as [-> _]|subst rs]; cbn [negb]; [|by apply lin_pure].
  lin_ask x Hx. destruct x as [e m]. cbn [fst snd]. destruct (ok_spec e) as [->|Hne]; cbn [negb app].
  2: host_label @host_close_device_lin.
  lin_ask e He. destruct (ok_spec e) as [->|Hne]; cbn [negb app].
  2: host_label @host_destroy_mmap_lin.
  cbn [is_sender set_file_mmap set_dma_dev set_max_comch_buffer]. rewrite Hs.
  eapply (lin_call_fn _ _ [] [(KMmap, m); (KDev, d)]); [apply memory_alloc_and_populate_lin|done|].
  intros [e b] rs [-> Hb]. cbn [fst snd] in *. destruct (ok_spec e) as [->|Hne]; cbn [negb app].
  - match goal with |- lin _ (host_negotiate _ (_, ?c)) _ _ => apply (host_negotiate_lin fuel comch c); auto end.
  - host_label @host_destroy_mmap_lin.
Qed.

(** ** Tasks *)

Definition answered (v : task_vars) : Prop := v.1 <= 0 -> v.2 <> None.

Lemma dma_callbacks_lin {M : mode} es : forall v rs, 0 <= v.1 < 2 ^ 64 -> answered v ->
  lin M (dma_callbacks es v) rs (fun v' rs' => rs' = rs /\ 0 <= v'.1 < 2 ^ 64 /\ answered v').
Proof using Type.
  assert (forall z, 0 <= u64 z < 2 ^ 64) as Hu by (intros z; by apply (wrap_range 64)).
  induction es as [|e es IH]; intros v rs Hv Ha; cbn [dma_callbacks]; [by apply lin_pure|].
  destruct e; try by apply IH.
  - apply IH; [apply Hu|by intros _].
  - unfold dma_memcpy_error_callback. lin_ask st Hst. cbn [app]. apply IH; [apply Hu|by intros _].
Qed.

Lemma wait_for_tasks_lin {M : mode} fuel pe : may_spin M -> forall v rs, 0 <= v.1 < 2 ^ 64 -> answered v ->
  lin M (wait_for_tasks fuel pe v) rs (fun v' rs' => rs' = rs /\ v'.2 <> None).
Proof using Type.
  intros HM. induction fuel as [|fuel IH]; intros v rs Hv Ha; cbn [wait_for_tasks]; [exact HM|].
  destruct (Z.ltb_spec 0 v.1).
  - lin_ask x Hx. destruct x as [n es]. cbn [app]. apply lin_bind.
    eapply lin_mono; [by apply dma_callbacks_lin|]. intros v' rs' (-> & Hv' & Ha').
    destruct (n =? 0); [lin_ask u Hu2; cbn [app]|lin_simpl]; by apply IH.
  - apply lin_pure. split; [done|]. apply Ha. lia.
Qed.

(** A submission holds nothing in the end, and never reads the task's result
    before a callback has written it. *)
Lemma dpu_submit_dma_task_lin {M : mode} fuel cfg r bytes local remote start fin rs : may_spin M ->
  lin M (dpu_submit_dma_task fuel cfg r bytes local remote 1 start fin) rs (fun _ rs' => rs' = rs).
Proof using Type.
  intros HM. unfold dpu_submit_dma_task, free_task.
  assert (exists src dst, (if is_sender cfg then (local, remote) else (remote, local)) = (src, dst))
    as (src & dst & ->) by (destruct (is_sender cfg); eauto).
  lin_ask x Hx. destruct x as [e data]. cbn [app]. destruct (negb _); [by apply lin_pure|].
  lin_ask e2 H2. cbn [app]. destruct (negb _); [by apply lin_pure|].
  lin_ask y Hy. destruct y as [e3 t]. cbn [app]. destruct (negb _); [by apply lin_pure|].
  lin_ask now Hn. cbn [app]. destruct now as [[sec nsec]|].
  2: { lin_ask u Hu. by apply lin_pure. }
  lin_ask e4 H4. cbn [app]. destruct (negb _); [lin_ask u Hu; by apply lin_pure|].
  apply lin_bind. eapply lin_mono; [apply wait_for_tasks_lin; [done|simpl; lia|unfold answered; simpl; lia]|].
  intros [n tres] rs' [-> Ht]. simpl in Ht. lin_ask now Hn2. cbn [app]. destruct now as [[sec2 nsec2]|].
  2: { lin_ask u Hu. by apply lin_pure. }
  destruct tres as [tres|]; [|done]. destruct (negb _); lin_ask u Hu; by apply lin_pure.
Qed.

(** ** The copy *)

(** The buffers of one operation are given back on every path. *)
Lemma release_buf_lin {M : mode} b e F :
  lin M (release_buf b e) ((KBuf, b) :: F) (fun _ rs => rs = F).
Proof using Type. unfold release_buf. lin_give. by apply lin_pure. Qed.

(** What an operation leaves alone. *)
Definition same_memory (cfg cfg' : dma_copy_cfg) : Prop :=
  file_buffer cfg' = file_buffer cfg /\ exported_mmap cfg' = exported_mmap cfg.

Lemma copy_once_lin {M : mode} fuel r remote_mmap comch cfg start fin F : may_spin M ->
  lin M (copy_once fuel r remote_mmap (comch, cfg) start fin) F
    (fun x rs => rs = F /\ same_memory cfg x.1.2.2).
Proof using Type.
  intros HM. unfold copy_once. cbv zeta.
  lin_ask x Hx. destruct x as [e remote]. cbn [fst snd]. destruct (ok_spec e) as [->|Hne]; cbn [negb app].
  2: { apply lin_quiet; [apply send_status_msg_quiet|]. intros []. by apply lin_pure. }
  lin_ask y Hy. destruct y as [e local]. cbn [fst snd]. destruct (ok_spec e) as [->|Hne]; cbn [negb app].
  2: { apply lin_quiet; [apply send_status_msg_quiet|]. intros []. apply lin_bind.
       eapply lin_mono; [apply release_buf_lin|]. intros e2 rs ->. by apply lin_pure. }
  apply lin_bind. eapply lin_mono; [by apply dpu_submit_dma_task_lin|]. intros [e [st fi]] rs ->.
  destruct (negb _).
  - apply lin_quiet; [apply send_status_msg_quiet|]. intros [].
    apply lin_bind. eapply lin_mono; [apply release_buf_lin|]. intros e2 rs ->.
    apply lin_bind. eapply lin_mono; [apply release_buf_lin|]. intros e3 rs ->. by apply lin_pure.
  - apply lin_bind. eapply lin_mono; [apply release_buf_lin|]. intros e2 rs ->.
    apply lin_bind. eapply lin_mono; [apply release_buf_lin|]. intros e3 rs ->. by apply lin_pure.
Qed.

Lemma copy_loop_lin {M : mode} n : forall fuel r remote_mmap e comch cfg start fin F, may_spin M ->
  lin M (copy_loop n fuel r remote_mmap e (comch, cfg) start fin) F
    (fun x rs => rs = F /\ same_memory cfg x.2.2).
Proof using Type.
  induction n as [|n IH]; intros fuel r remote_mmap e comch cfg start fin F HM; cbn [copy_loop].
  { by apply lin_pure. }
  apply lin_bind. eapply lin_mono; [by apply copy_once_lin|].
  intros [[[go e2] [comch2 cfg2]] [st fi]] rs [-> Hm]. simpl in Hm. destruct go.
  - eapply lin_mono; [by apply IH|]. intros [[? ?] [? cfg3]] rs [-> Hm2]. split; [done|].
    destruct Hm, Hm2. simpl in *. split; simpl; congruence.
  - by apply lin_pure.
Qed.

(** ** The DPU *)

(** What [allocate_dma_copy_resources] provides. *)
Definition dma_resources (r : dma_copy_resources) : list resource :=
  (KMemory, state_addr r) :: non_null KDma (dma_ctx r) ++ core_resources (state r).

Lemma destroy_dma_copy_resources_lin {M : mode} r F : state_addr r <> 0 ->
  lin M (destroy_dma_copy_resources r) (dma_resources r ++ F) (fun _ rs => rs = F).
Proof using Type.
  intros Hr. unfold destroy_dma_copy_resources, dma_resources.
  set (A := (KMemory, state_addr r)). apply lin_bind.
  eapply lin_perm with (pre := non_null KDma (dma_ctx r) ++ (core_resources (state r) ++ A :: F)).
  { rewrite (assoc_L (++)). symmetry. apply Permutation_middle. }
  eapply lin_mono; [by apply (destroy_object_lin KDma)|]. intros e rs ->.
  eapply (lin_call_fn _ _ (core_resources (state r)) (A :: F)); [apply destroy_core_objects_lin|done|].
  intros [e2 s2] rs [-> _]. cbn [app]. lin_simpl.
  eapply lin_release; [by apply non_null_some|done|reflexivity|]. intros _ _. by apply lin_pure.
Qed.

(** What is left when the DPU is done: all descriptors but the last. *)
Definition leftover (M : mode) (F : list resource) (x : doca_error * (comch_cfg * dma_copy_cfg))
    (rs : list resource) : Prop :=
  exists ms kept, Forall (fun p => p <> 0) ms /\ rs ≡ₚ kept ++ (ms ≫= note M) /\
    kept ++ non_null KMemory (exported_mmap x.2.2) ≡ₚ F ++ blocks ms.

Lemma dpu_destroy_dma_resources_lin {M : mode} F e r s rs : state_addr r <> 0 -> dpu_holds M F s.2 rs ->
  lin M (dpu_destroy_dma_resources e r s) (dma_resources r ++ rs) (leftover M F).
Proof using Type.
  intros Hr (ms & kept & Hms & Hrs & Hk). unfold dpu_destroy_dma_resources.
  eapply (lin_call_fn _ _ (non_null KMemory (exported_mmap s.2)) (dma_resources r ++ kept ++ (ms ≫= note M)))
    with (post' := fun _ rs => rs = []).
  - unfold non_null. destruct (Z.eqb_spec (exported_mmap s.2) 0); cbn [negb]; [by apply lin_pure|].
    unfold invoke. eapply lin_release; [by apply non_null_some|done|reflexivity|].
    intros [] _. by apply lin_pure.
  - rewrite Hrs, (Permutation_app_comm kept), <- (assoc_L (++)). apply Permutation_app_swap_app.
  - intros [] rs' ->. cbn [app]. apply lin_bind.
    eapply lin_mono; [by apply destroy_dma_copy_resources_lin|]. intros e2 rs2 ->.
    apply lin_pure. by exists ms, kept.
Qed.

Lemma dpu_stop_dma_lin {M : mode} F fuel e r s rs : may_spin M -> state_addr r <> 0 -> dpu_holds M F s.2 rs ->
  lin M (dpu_stop_dma fuel e r s) (dma_resources r ++ rs) (leftover M F).
Proof using Type.
  intros HM Hr Hh. unfold dpu_stop_dma. apply lin_quiet; [by apply request_stop_ctx_quiet|].
  intros e2. cbv zeta. by apply (dpu_destroy_dma_resources_lin F _ (set_state r (Common.set_ctx (state r) 0))).
Qed.

Lemma dpu_free_buffer_lin {M : mode} F fuel e r s rs : may_spin M -> state_addr r <> 0 ->
  dpu_holds M F s.2 rs -> file_buffer s.2 <> 0 ->
  lin M (dpu_free_buffer fuel e r s) ((KMemory, file_buffer s.2) :: dma_resources r ++ rs) (leftover M F).
Proof using Type.
  intros HM Hr Hh Hb. unfold dpu_free_buffer. lin_simpl.
  eapply lin_release; [by apply non_null_some|done|reflexivity|]. intros _ _. by apply dpu_stop_dma_lin.
Qed.

Lemma dpu_destroy_remote_mmap_lin {M : mode} F fuel e m r s rs : may_spin M -> state_addr r <> 0 ->
  dpu_holds M F s.2 rs -> file_buffer s.2 <> 0 ->
  lin M (dpu_destroy_remote_mmap fuel e m r s)
    ((KMmap, m) :: (KMemory, file_buffer s.2) :: dma_resources r ++ rs) (leftover M F).
Proof using Type.
  intros HM Hr Hh Hb. unfold dpu_destroy_remote_mmap. lin_simpl.
  eapply lin_release; [reflexivity|done|reflexivity|]. intros e2 _. cbv zeta. by apply dpu_free_buffer_lin.
Qed.

Lemma dpu_copy_lin {M : mode} F fuel flags r comch cfg rs : may_spin M -> state_addr r <> 0 ->
  dpu_holds M F cfg rs -> lin M (dpu_copy fuel flags r (comch, cfg)) (dma_resources r ++ rs) (leftover M F).
Proof using Type.
  intros HM Hr Hh. unfold dpu_copy. cbn [fst snd]. cbv zeta.
  eapply (lin_call_fn _ _ [] (dma_resources r ++ rs)); [apply memory_alloc_and_populate_lin|done|].
  intros [e b] rs' [-> Hb]. cbn [fst snd] in *. destruct (ok_spec e) as [->|Hne]; cbn [negb app].
  2: by apply dpu_stop_dma_lin.
  specialize (Hb eq_refl).
  lin_ask x Hx. destruct x as [e m]. cbn [fst snd]. destruct (ok_spec e) as [->|Hne]; cbn [negb app].
  2: by apply (dpu_free_buffer_lin F fuel e r (comch, set_file_buffer cfg b)).
  apply lin_bind. eapply lin_mono; [by apply copy_loop_lin|].
  intros [[done e2] [comch2 cfg2]] rs2 [-> [Hb2 He2]]. simpl in Hb2, He2. rewrite <- Hb2.
  assert (dpu_holds M F cfg2 rs) as Hh2 by (unfold dpu_holds; by rewrite He2).
  assert (file_buffer cfg2 <> 0) as Hb3 by (by rewrite Hb2).
  destruct done; [apply lin_quiet; [apply send_status_msg_quiet|intros []]|];
    by apply (dpu_destroy_remote_mmap_lin F fuel e2 m r (comch2, cfg2)).
Qed.

Lemma dpu_run_lin {M : mode} F fuel flags r comch cfg rs : may_spin M ->
  (forall msg, msg_ok M msg -> descriptor_fits msg) -> state_addr r <> 0 ->
  dpu_holds M F cfg rs -> lin M (dpu_run fuel flags r (comch, cfg)) (dma_resources r ++ rs) (leftover M F).
Proof using Type.
  intros HM Hmsg Hr Hh. unfold dpu_run, get_dma_max_buf_size. cbn [fst snd]. cbv zeta.
  lin_ask i Hi. cbn [app]. lin_ask x Hx. destruct x as [e size]. cbn [app].
  destruct (negb _); [by apply dpu_destroy_dma_resources_lin|].
  lin_ask u Hu. cbn [app]. lin_ask e2 He2. cbn [app].
  destruct (negb _); [by apply dpu_destroy_dma_resources_lin|].
  eapply (lin_call_fn _ _ rs (dma_resources r)) with (post' := fun x rs' => dpu_holds M F x.2.2 rs').
  - apply (negotiate_lin dpu_recv_event_cb (dpu_holds M F)); [done| |done].
    intros c a conn bytes rs' Hm Ha. apply dpu_recv_event_cb_lin; auto.
  - apply Permutation_app_comm.
  - intros [e3 [comch3 cfg3]] rs3 Hh3. rewrite (Permutation_app_comm rs3). simpl in Hh3.
    destruct (negb _); [by apply dpu_stop_dma_lin|].
    case_bool_decide; [by apply dpu_stop_dma_lin|by apply dpu_copy_lin].
Qed.
End callbacks.

(** ** Allocation of the DPU's resources *)

Lemma propagate_error e t : e <> DOCA_SUCCESS -> DOCA_ERROR_PROPAGATE e t = e.
Proof. unfold DOCA_ERROR_PROPAGATE. by destruct (ok_spec e). Qed.

Lemma destroy_core_objects_label_lin {M : mode} e r : e <> DOCA_SUCCESS -> state_addr r <> 0 ->
  lin M (destroy_core_objects_label e r) ((KMemory, state_addr r) :: core_resources (state r))
    (fun x rs => x.1 <> DOCA_SUCCESS /\ rs = []).
Proof.
  intros He Hr. unfold destroy_core_objects_label, free_state.
  eapply (lin_call_fn _ _ (core_resources (state r)) [(KMemory, state_addr r)]);
    [apply destroy_core_objects_lin|apply Permutation_cons_append|].
  intros [t s] rs [-> _]. cbn [app]. lin_simpl.
  eapply lin_release; [by apply non_null_some|done|reflexivity|]. intros _ _. apply lin_pure.
  split; [|done]. cbn [fst]. destruct (negb _); [by rewrite propagate_error|done].
Qed.

Definition allocated_resources (x : doca_error * dma_copy_resources) (rs : list resource) : Prop :=
  if ok x.1 then rs ≡ₚ dma_resources x.2 /\ state_addr x.2 <> 0 else rs = [].

Lemma create_dma_lin {M : mode} r : state_addr r <> 0 ->
  lin M (create_dma r) ((KMemory, state_addr r) :: core_resources (state r)) allocated_resources.
Proof.
  intros Hr. unfold create_dma. cbv zeta.
  assert (forall x rs, x.1 <> DOCA_SUCCESS /\ rs = [] -> allocated_resources x rs) as Hfail.
  { intros [e r'] rs [He ->]. unfold allocated_resources. simpl in *. by destruct (ok_spec e). }
  lin_ask x Hx. destruct x as [e dma]. cbn [fst snd] in *. destruct (ok_spec e) as [->|Hne]; cbn [negb app].
  2: { eapply lin_mono; [by apply (destroy_core_objects_label_lin e (DmaResources (state_addr r) (state r) dma))|done]. }
  specialize (Hx eq_refl). lin_ask c Hc. cbn [app].
  set (r2 := set_state _ _). set (all := (KDma, dma) :: (KMemory, state_addr r) :: core_resources (state r)).
  assert (forall e, e <> DOCA_SUCCESS -> lin M (destroy_dma e r2) all allocated_resources) as Hdestroy.
  { intros e2 He2. unfold destroy_dma. lin_simpl. eapply lin_release; [reflexivity|done|unfold all; reflexivity|].
    intros t _. eapply lin_mono; [apply (destroy_core_objects_label_lin _ r2); [|done]|done].
    destruct (negb _); [by rewrite propagate_error|done]. }
  lin_ask e He. cbn [app]. destruct (ok_spec e) as [->|Hne]; cbn [negb]; [|by apply Hdestroy].
  lin_ask e He2. cbn [app]. destruct (ok_spec e) as [->|Hne]; cbn [negb]; [|by apply Hdestroy].
  apply lin_pure. split; [|done]. unfold dma_resources. simpl. rewrite non_null_some by done.
  apply Permutation_swap.
Qed.

(** The run contains a failed creation of the core objects. *)
Definition core_objects_failed (o : oracle) (garbage : program_core_objects) (tr : trace) : Prop :=
  exists d tr1 e s tr2, run o (create_core_objects (Common.set_dev garbage d) 2) tr1 = (Ret (e, s), tr2) /\
    e <> DOCA_SUCCESS /\ tr2 `prefix_of` tr.

Lemma destroy_object_run o c obj e tr : exists r tr', run o (destroy_object c obj e) tr = (Ret r, tr').
Proof. unfold destroy_object. destruct (negb _); by do 2 eexists. Qed.

Lemma destroy_core_objects_run o s tr : exists r tr', run o (destroy_core_objects s) tr = (Ret r, tr').
Proof.
  unfold destroy_core_objects. cbv zeta.
  rewrite run_bind. edestruct (destroy_object_run o doca_pe_destroy) as (? & ? & ->).
  rewrite run_bind. edestruct (destroy_object_run o doca_buf_inventory_destroy) as (? & ? & ->).
  rewrite run_bind. edestruct (destroy_object_run o doca_mmap_destroy) as (? & ? & ->).
  rewrite run_bind. edestruct (destroy_object_run o doca_mmap_destroy) as (? & ? & ->).
  rewrite run_bind. edestruct (destroy_object_run o doca_dev_close) as (? & ? & ->).
  by do 2 eexists.
Qed.

Lemma destroy_core_objects_label_run o e r tr : e <> DOCA_SUCCESS ->
  exists x tr', run o (destroy_core_objects_label e r) tr = (Ret x, tr') /\ x.1 <> DOCA_SUCCESS.
Proof.
  intros He. unfold destroy_core_objects_label. rewrite run_bind.
  destruct (destroy_core_objects_run o (state r) tr) as ([t s] & tr' & ->). simpl.
  do 2 eexists. split; [done|]. simpl. destruct (negb _); [by rewrite propagate_error|done].
Qed.

(** The two parts of the allocation after the [malloc], at the level of runs. *)
Lemma create_part_sound o garbage p d tr : documented_oracle o -> p <> 0 -> d <> 0 ->
  let r := DmaResources p (Common.set_dev garbage d) 0 in
  match run o ('(result, s) ← create_core_objects (state r) 2;
               if negb (ok result) then destroy_core_objects_label result (set_state r s)
               else create_dma (set_state r s)) tr with
  | (Ret (e, r'), tr') => exists ext, tr' = tr ++ ext /\
      if ok e then held [(KMemory, p); (KDev, d)] ext (dma_resources r') /\ state_addr r' <> 0
      else held [(KMemory, p); (KDev, d)] ext [] \/ core_objects_failed o garbage tr'
  | _ => False
  end.
Proof.
  intros Ho Hp Hd r. rewrite run_bind. simpl state. set (g := Common.set_dev garbage d).
  pose proof (lin_sound_assuming (P := False) o _ _ Ho (plain_oracle False o) tr []
    (create_core_objects_lin g 2 ltac:(done))) as H1.
  destruct (run o (create_core_objects g 2) tr) as [[[e s]| | |] tr1] eqn:E1; try done.
  destruct H1 as (ext1 & rs1 & -> & Hh1 & Hc). unfold created in Hc. simpl in Hc.
  destruct (ok_spec e) as [->|Hne]; cbn [negb].
  - destruct Hc as (Hrs & Hdev & _ & _).
    pose proof (lin_sound_assuming (P := False) o _ _ Ho (plain_oracle False o) (tr ++ ext1) _
      (create_dma_lin (set_state r s) Hp)) as H2.
    destruct (run o (create_dma (set_state r s)) (tr ++ ext1)) as [[[e2 r2]| | |] tr2]; try done.
    destruct H2 as (ext2 & rs2 & -> & Hh2 & Hall). unfold allocated_resources in Hall. simpl in Hall.
    exists (ext1 ++ ext2). split; [by rewrite (assoc_L (++))|].
    assert (held [(KMemory, p); (KDev, d)] (ext1 ++ ext2) rs2) as Hh.
    { eapply held_app; [exact (held_frame [] ext1 rs1 [(KMemory, p); (KDev, d)] Hh1)|].
      eapply held_app with (tr1 := []); [|exact Hh2]. constructor. rewrite Hrs. simpl.
      unfold objects_of, core_resources. simpl. rewrite app_nil_r, Hdev. simpl. rewrite (non_null_some KDev) by done.
      rewrite <- Permutation_middle. f_equiv. by rewrite <- !(assoc_L (++)). }
    destruct (ok e2); [|subst rs2; by left].
    destruct Hall as [Hp2 Ha]. split; [by eapply held_perm|done].
  - destruct (destroy_core_objects_label_run o e (set_state r s) (tr ++ ext1) Hne) as ([e2 r2] & tr2 & E2 & He2).
    pose proof (run_extends o (destroy_core_objects_label e (set_state r s)) (tr ++ ext1)) as Hpre.
    rewrite E2 in *. simpl in *. destruct Hpre as [ext2 ->].
    exists (ext1 ++ ext2). split; [by rewrite (assoc_L (++))|]. destruct (ok_spec e2); [done|]. right.
    exists d, tr, e, s, (tr ++ ext1). split_and!; [done|done|]. by apply prefix_app_r.
Qed.

Lemma allocate_sound o garbage : documented_oracle o ->
  match run o (allocate_dma_copy_resources garbage) [] with
  | (Ret (e, r), tr) =>
      if ok e then held [] tr (dma_resources r) /\ state_addr r <> 0
      else held [] tr [] \/ core_objects_failed o garbage tr
  | _ => False
  end.
Proof.
  intros Ho. unfold allocate_dma_copy_resources. rewrite run_bind. cbn [invoke run].
  set (p := o _ [] _). cbv zeta. destruct (Z.eqb_spec p 0) as [Hp|Hp].
  { cbn [run ok]. left. econstructor; [|by constructor]. simpl. unfold non_null.
    by rewrite (proj2 (Z.eqb_eq p 0)). }
  assert (held [] [Ev (malloc sizeof_program_core_objects) p] [(KMemory, p)]) as Hh0.
  { econstructor; [|by constructor]. simpl. by rewrite non_null_some. }
  rewrite run_bind. set (tr0 := [] ++ _).
  pose proof (lin_sound_assuming (P := False) o _ _ Ho (plain_oracle False o) tr0 [] open_dma_device_lin) as H1.
  destruct (run o open_dma_device tr0) as [[[e d]| | |] tr1]; try done.
  destruct H1 as (ext1 & rs1 & -> & Hh1 & Hop). unfold opened in Hop. simpl fst in Hop. simpl snd in Hop.
  pose proof (held_frame [] ext1 rs1 [(KMemory, p)] Hh1) as Hh1'.
  assert (held [] (tr0 ++ ext1) (rs1 ++ [(KMemory, p)])) as Hh by (by eapply held_app).
  destruct (ok_spec e) as [->|Hne]; cbn [negb].
  - destruct Hop as [-> Hd]. specialize (Hd eq_refl).
    pose proof (create_part_sound o garbage p d (tr0 ++ ext1) Ho Hp Hd) as H2. cbv zeta in H2.
    destruct (run o _ (tr0 ++ ext1)) as [[[e2 r2]| | |] tr2]; try done.
    destruct H2 as (ext2 & -> & H2).
    assert (forall rest, held [(KMemory, p); (KDev, d)] ext2 rest -> held [] ((tr0 ++ ext1) ++ ext2) rest) as Hj.
    { intros rest Hr. eapply held_app; [|exact Hr]. eapply held_perm; [|exact Hh]. apply Permutation_swap. }
    destruct (ok e2); [destruct H2; auto|]. destruct H2; auto.
  - subst rs1. unfold free_state. rewrite run_bind. cbn. change (bool_decide (e = DOCA_SUCCESS)) with (ok e).
    destruct (ok_spec e); [done|]. left.
    apply (held_app [] (tr0 ++ ext1) _ [_]) with (1 := Hh). econstructor; [|by constructor]. simpl.
    by rewrite non_null_some.
Qed.

(** ** The whole DPU side *)

(** The memory of the descriptor in the configuration. *)
Abbreviation descriptor cfg := (non_null KMemory (exported_mmap cfg)).

Lemma notes_of_notes {M : mode} ms : noted M = true -> Forall (fun p => p <> 0) ms ->
  notes (ms ≫= note M) = ms /\ real (ms ≫= note M) = [].
Proof.
  intros Hn Hne. unfold note. rewrite Hn. induction Hne as [|p ms Hp _ [IH1 IH2]]; [done|].
  rewrite bind_cons, notes_app, real_app, IH1, IH2, non_null_some by done. done.
Qed.

Lemma notes_blocks ps : notes (blocks ps) = [].
Proof. by induction ps. Qed.

Lemma notes_non_null k p : k <> KNote -> notes (non_null k p) = [].
Proof. intros Hk. unfold non_null. destruct (p =? 0); [done|]. by destruct k. Qed.

Lemma notes_dma_resources r : notes (dma_resources r) = [].
Proof.
  unfold dma_resources, core_resources. change (?a :: ?l) with ([a] ++ l).
  by rewrite !notes_app, !notes_non_null.
Qed.

(** The replay with notes of the part after the creation: what is left. *)
Lemma leftover_blocks {M : mode} r cfg x ext rest : noted M = true ->
  held_in M (dma_resources r ++ descriptor cfg) ext rest -> leftover M (descriptor cfg) x rest ->
  held (dma_resources r ++ descriptor cfg) ext (real rest) /\
  real rest ++ descriptor x.2.2 ≡ₚ descriptor cfg ++ blocks (mallocs ext).
Proof.
  intros Hn Hh (ms & kept & Hms & Hrs & Hk).
  assert (notes kept = []) as Hkept.
  { apply notes_proper in Hk. revert Hk. rewrite !notes_app, notes_blocks, !notes_non_null by done.
    rewrite !app_nil_r. intros Hk. by apply Permutation_nil_r in Hk. }
  destruct (notes_of_notes ms Hn Hms) as [Hno Hre].
  assert (real rest ≡ₚ kept) as Hreal.
  { by rewrite Hrs, real_app, Hre, app_nil_r, notes_none. }
  assert (notes (dma_resources r ++ descriptor cfg) = []) as Hpre.
  { by rewrite notes_app, notes_dma_resources, notes_non_null. }
  pose proof (held_in_notes _ _ _ Hn Hh) as Hm. apply held_in_real in Hh.
  rewrite (notes_none _ Hpre) in Hh. rewrite Hpre, Hrs, notes_app, Hkept, Hno in Hm. simpl in Hm.
  split; [done|]. rewrite Hreal, Hk. f_equiv. by rewrite Hm.
Qed.

Lemma dpu_start_sound `{Padding} o fuel garbage comch cfg :
  documented_oracle o -> sends_only descriptor_fits o ->
  match run o (allocate_dma_copy_resources garbage) [],
        run o (dpu_start_dma_copy fuel garbage (comch, cfg)) [] with
  | (Ret (created, _), tr0), (Ret (_, s), tr) =>
      if ok created
      then exists ext rest, tr = tr0 ++ ext /\ held (descriptor cfg) tr rest /\
             rest ++ descriptor s.2 ≡ₚ descriptor cfg ++ blocks (mallocs ext)
      else held (descriptor cfg) tr (descriptor cfg) \/ core_objects_failed o garbage tr
  | (Ret _, _), (NoFuel, _) => True
  | _, _ => False
  end.
Proof.
  intros Ho Hm. unfold dpu_start_dma_copy. cbv zeta. rewrite run_bind.
  pose proof (allocate_sound o garbage Ho) as H1.
  destruct (run o (allocate_dma_copy_resources garbage) []) as [[[e r]| | |] tr1]; try done.
  destruct (ok_spec e) as [->|Hne]; cbn [negb].
  - destruct H1 as [Hh1 Hr]. set (cfg2 := set_stat _ _).
    pose proof (lin_sound_in (M := NotingMode True descriptor_fits true) o _ _ Ho
      (sends_only_assumed _ _ _ Hm) tr1 _
      (dpu_run_lin (M := NotingMode True descriptor_fits true) (descriptor cfg) fuel
        (if is_sender cfg then DOCA_ACCESS_FLAG_LOCAL_READ_ONLY
         else DOCA_ACCESS_FLAG_LOCAL_READ_WRITE) r comch cfg2 (descriptor cfg) I (fun _ H => H) Hr
        (dpu_holds_start _ cfg2))) as H2.
    destruct (run o _ tr1) as [[[e2 s]| | |] tr2]; try done.
    destruct H2 as (ext & rest & -> & Hh2 & Hleft).
    destruct (leftover_blocks (M := NotingMode True descriptor_fits true) r cfg _ ext rest
      eq_refl Hh2 Hleft) as [Hh3 Hrest].
    exists ext, (real rest). split_and!; [done| |done].
    eapply held_app; [|exact Hh3]. exact (held_frame [] tr1 _ (descriptor cfg) Hh1).
  - destruct H1 as [Hh1|Hf]; [|by right]. left.
    exact (held_frame [] tr1 [] (descriptor cfg) Hh1).
Qed.

(** * One DMA copy operation on the DPU *)

(** ** What a trace says about DMA tasks *)

Definition memcpy_event {X} (c : call X) : X -> list (Z * Z) * list Z :=
  match c in call X return X -> list (Z * Z) * list Z with
  | doca_dma_task_memcpy_alloc_init _ src dst =>
      fun r => ([(src, dst)], if ok r.1 then [r.2] else [])
  | _ => fun _ => ([], [])
  end.

(** The source and destination of the requested copies, and the tasks
    allocated for them. *)
Definition memcpys (tr : trace) : list (Z * Z) := tr ≫= fun e => match e with Ev c x => (memcpy_event c x).1 end.
Definition dma_tasks (tr : trace) : list Z := tr ≫= fun e => match e with Ev c x => (memcpy_event c x).2 end.

Definition view (tr : trace) : list (Z * Z) * list Z * list Z * list Z :=
  (memcpys tr, dma_tasks tr, submitted tr, freed tr).

Lemma view_snoc {X} tr (c : call X) x :
  view (tr ++ [Ev c x]) = (memcpys tr ++ (memcpy_event c x).1, dma_tasks tr ++ (memcpy_event c x).2,
    submitted tr ++ (task_event c x).1.1.2, freed tr ++ (task_event c x).1.2).
Proof.
  unfold view, memcpys, dma_tasks, submitted, freed. rewrite !bind_app. simpl. by rewrite !app_nil_r.
Qed.

(** A call that has nothing to do with DMA tasks. *)
Lemma view_other {X} tr (c : call X) x :
  memcpy_event c x = ([], []) -> (task_event c x).1.1.2 = [] -> (task_event c x).1.2 = [] ->
  view (tr ++ [Ev c x]) = view tr.
Proof. intros H1 H2 H3. rewrite view_snoc, H1, H2, H3. simpl. by rewrite !app_nil_r. Qed.

Definition is_dma_event (e : pe_event) : bool :=
  match e with EvDmaCompletion _ | EvDmaError _ => true | _ => false end.

(** The library reported the end of a DMA task. *)
Definition reported (tr : trace) : Prop :=
  exists pe n es, Ev (doca_pe_progress pe) (n, es) ∈ tr /\ existsb is_dma_event es = true.

Lemma reported_snoc tr e : reported tr -> reported (tr ++ [e]).
Proof.
  intros (pe & n & es & Hin & He). exists pe, n, es. split; [|done]. apply elem_of_app. by left.
Qed.

(** ** Waiting *)

Lemma dma_callbacks_wp es : forall v tr, 0 <= v.1 < 2 ^ 64 -> answered v ->
  wp (dma_callbacks es v) tr (fun tr' v' => view tr' = view tr /\ (reported tr -> reported tr') /\
    0 <= v'.1 < 2 ^ 64 /\ answered v' /\ (existsb is_dma_event es = false -> v' = v)).
Proof.
  assert (forall z, 0 <= u64 z < 2 ^ 64) as Hu by (intros z; by apply (wrap_range 64)).
  induction es as [|e es IH]; intros v tr Hv Ha; cbn [dma_callbacks]; [by simpl|].
  destruct e as [| | | | |t|t| |]; try (by apply IH).
  - eapply wp_mono; [apply IH; [apply Hu|by intros _]|].
    intros tr' v' (H1 & H2 & H3 & H4 & _). by repeat (split; [by auto|]).
  - intros st _. eapply wp_mono; [apply IH; [apply Hu|by intros _]|].
    intros tr' v' (H1 & H2 & H3 & H4 & _). split; [rewrite H1; by apply view_other|].
    split; [auto using reported_snoc|]. by repeat (split; [by auto|]).
Qed.

Lemma wait_for_tasks_wp fuel pe : forall v tr, 0 <= v.1 < 2 ^ 64 -> answered v ->
  (v.2 <> None -> reported tr) ->
  wp (wait_for_tasks fuel pe v) tr
    (fun tr' v' => view tr' = view tr /\ v'.2 <> None /\ reported tr').
Proof.
  induction fuel as [|fuel IH]; intros v tr Hv Ha Hr; cbn [wait_for_tasks]; [done|].
  destruct (Z.ltb_spec 0 v.1).
  - lin_simpl. intros [n es] _. set (tr1 := tr ++ _).
    assert (view tr1 = view tr) as Hv1 by (by apply view_other).
    apply wp_bind. eapply wp_mono; [by apply dma_callbacks_wp|].
    intros tr2 v2 (H1 & H2 & H3 & H4 & H5).
    assert (v2.2 <> None -> reported tr2) as Hr2.
    { destruct (existsb is_dma_event es) eqn:E.
      - intros _. apply H2. exists pe, n, es. split; [|done]. apply elem_of_app. right. by constructor.
      - rewrite H5 by done. intros Hne. by apply H2, reported_snoc, Hr. }
    destruct (n =? 0).
    + intros u _. eapply wp_mono; [apply IH; auto using reported_snoc|].
      intros tr' v' (V & ? & ?). split_and!; [|done|done]. rewrite V, view_other by done. congruence.
    + eapply wp_mono; [by apply IH|]. intros tr' v' (V & ? & ?). split_and!; [congruence|done|done].
  - simpl. assert (v.2 <> None) by (apply Ha; lia). auto.
Qed.

(** Every progress delivers at most one DMA event, and one from the [n]-th
    progress on. *)
Definition completes_within (o : oracle) (pe : Z) (n : nat) : Prop :=
  forall tr, let es := (o _ tr (doca_pe_progress pe)).2 in
  (length (List.filter is_dma_event es) <= 1)%nat /\
  ((n <= progresses pe tr)%nat -> length (List.filter is_dma_event es) = 1%nat).

Lemma dma_callbacks_run o es : (length (List.filter is_dma_event es) <= 1)%nat -> forall v tr,
  exists v' tr', run o (dma_callbacks es v) tr = (Ret v', tr') /\ tr `prefix_of` tr' /\
    v'.1 = (if decide (length (List.filter is_dma_event es) = 1%nat) then u64 (v.1 - 1) else v.1).
Proof.
  induction es as [|e es IH]; intros Hl v tr; cbn [dma_callbacks]; [by do 2 eexists|].
  destruct e as [| | | | |t|t| |]; simpl in Hl; try (by apply IH).
  - destruct (IH ltac:(lia) (dma_memcpy_completed_callback v) tr) as (v' & tr' & E & Hp & Hv).
    do 2 eexists. split_and!; [exact E|done|]. rewrite Hv, decide_False by lia.
    simpl. by rewrite decide_True by lia.
  - unfold dma_memcpy_error_callback. lin_simpl. cbn [run].
    edestruct (IH ltac:(lia)) as (v' & tr' & E & Hp & Hv).
    do 2 eexists. split_and!; [exact E|by eapply prefix_app_l|].
    rewrite Hv, decide_False by lia. simpl. by rewrite decide_True by lia.
Qed.

Lemma wait_for_tasks_ends o pe n fuel : completes_within o pe n -> forall v tr, v.1 = 0 \/ v.1 = 1 ->
  (v.1 = 0 /\ (1 <= fuel)%nat) \/ ((n + 1 < progresses pe tr + fuel)%nat /\ (2 <= fuel)%nat) ->
  (run o (wait_for_tasks fuel pe v) tr).1 <> NoFuel.
Proof.
  intros Hc. induction fuel as [|fuel IH]; intros v tr Hv Hf; [lia|]. cbn [wait_for_tasks].
  destruct (Z.ltb_spec 0 v.1) as [Hpos|]; [|done]. destruct Hf as [[? _]|[Hf1 Hf2]]; [lia|]. assert (v.1 = 1) as Hv1 by lia.
  lin_simpl. cbn [run]. pose proof (Hc tr) as [Hone Hlast]. cbv zeta in *.
  destruct (o _ tr (doca_pe_progress pe)) as [m es]. simpl in Hone, Hlast.
  set (tr1 := tr ++ _). change (prog_bind ?f ?q) with (q ≫= f). rewrite run_bind.
  destruct (dma_callbacks_run o es Hone v tr1) as (v' & tr2 & -> & [ext ->] & Hv').
  assert (progresses pe tr < progresses pe (tr1 ++ ext))%nat as Hlt.
  { eapply Nat.lt_le_trans; [|apply filter_count_app]. unfold progresses, tr1.
    rewrite List.filter_app, length_app. simpl. rewrite Z.eqb_refl. simpl. lia. }
  assert (v'.1 = 0 \/ v'.1 = 1) as H01.
  { rewrite Hv'. case_decide; [left; by rewrite Hv1|lia]. }
  assert (forall tr3, (progresses pe (tr1 ++ ext) <= progresses pe tr3)%nat ->
    (v'.1 = 0 /\ (1 <= fuel)%nat) \/ ((n + 1 < progresses pe tr3 + fuel)%nat /\ (2 <= fuel)%nat)) as Hnext.
  { intros tr3 H3. destruct (decide (n <= progresses pe tr)%nat) as [Hn|Hn]; [left|right; lia].
    split; [|lia]. rewrite Hv', decide_True by auto. by rewrite Hv1. }
  destruct (m =? 0); lin_simpl; cbn [run].
  - apply IH; [done|]. apply Hnext, filter_count_app.
  - apply IH; [done|]. by apply Hnext.
Qed.

(** ** Properties *)

(** The direction of the copy. *)
Definition direction (cfg : dma_copy_cfg) (local remote : Z) : Z * Z :=
  if is_sender cfg then (local, remote) else (remote, local).

(** The clock could not be read. *)
Definition clock_failed (tr : trace) : Prop := Ev clock_gettime None ∈ tr.

(** What a submission guarantees of the history and its result. *)
Definition submission (dir : Z * Z) (tr : trace) (r : doca_error * (timespec * timespec)) : Prop :=
  dma_tasks tr = freed tr /\ Forall (fun d => d = dir) (memcpys tr) /\
  (r.1 = DOCA_SUCCESS -> clock_failed tr \/
     (memcpys tr = [dir] /\ submitted tr = dma_tasks tr /\ submitted tr <> [] /\ reported tr)).

(** [free_task], after a task [t] was allocated. *)
Lemma free_task_wp dir t e start fin tr sub :
  view tr = ([dir], [t], sub, []) ->
  (e = DOCA_SUCCESS -> clock_failed tr \/ (sub = [t] /\ reported tr)) ->
  wp (free_task t e start fin) tr (submission dir).
Proof.
  intros Hv He u _. change (submission dir (tr ++ [Ev (doca_task_free t) u]) (e, (start, fin))).
  unfold submission. pose proof (view_snoc tr (doca_task_free t) u) as Hs. unfold view in *. simpl in Hs.
  injection Hv as Hm Hd Hsub Hf. rewrite Hm, Hd, Hsub, Hf in Hs. simpl in Hs. injection Hs as -> -> Es ->.
  rewrite Es. simpl. split_and!; [done|by repeat constructor|].
  intros Hok. destruct (He Hok) as [Hc|[-> Hr]].
  - left. apply elem_of_app. by left.
  - right. split_and!; [done|done|done|by apply reported_snoc].
Qed.

Lemma submission_failed dir e x tr : e <> DOCA_SUCCESS -> view tr = ([], [], [], []) ->
  submission dir tr (e, x).
Proof. intros He [= Hm Hd Hs Hf]. unfold submission. rewrite Hm, Hd, Hf. by split_and!. Qed.

Lemma dpu_submit_dma_task_wp fuel cfg r bytes local remote start fin :
  wp (dpu_submit_dma_task fuel cfg r bytes local remote 1 start fin) []
    (submission (direction cfg local remote)).
Proof.
  unfold dpu_submit_dma_task, direction. set (d := if is_sender cfg then _ else _).
  destruct d as [src dst]. lin_simpl. intros [e data] _.
  destruct (ok_spec e) as [->|Hne]; cbn [negb]; [|by apply submission_failed].
  intros e _. destruct (ok_spec e) as [->|Hne]; cbn [negb]; [|by apply submission_failed].
  intros [e t] _. destruct (ok_spec e) as [->|Hne]; cbn [negb].
  2: { unfold submission. split_and!; simpl; [|by repeat constructor|done].
       unfold dma_tasks. simpl. by destruct (ok_spec e). }
  set (tr1 := _ ++ [Ev (doca_dma_task_memcpy_alloc_init _ _ _) _]).
  assert (view tr1 = ([(src, dst)], [t], [], [])) as V1 by done. clearbody tr1.
  intros [[sec nsec]|] _.
  2: { eapply free_task_wp; [rewrite view_other by done; exact V1|]. intros _. left.
       apply elem_of_app. right. by constructor. }
  set (tr2 := tr1 ++ _). assert (view tr2 = ([(src, dst)], [t], [], [])) as V2 by (by unfold tr2; rewrite view_other).
  clearbody tr2. intros e _. destruct (ok_spec e) as [->|Hne]; cbn [negb].
  2: { eapply free_task_wp; [|done]. rewrite view_snoc. simpl. destruct (ok_spec e); [done|].
       unfold view in V2. injection V2 as -> -> -> ->. done. }
  set (tr3 := tr2 ++ _). assert (view tr3 = ([(src, dst)], [t], [t], [])) as V3.
  { unfold tr3. rewrite view_snoc. unfold view in V2. injection V2 as -> -> -> ->. done. }
  clearbody tr3. apply wp_bind.
  eapply wp_mono; [apply wait_for_tasks_wp; simpl; [lia|unfold answered; simpl; lia|done]|].
  intros tr4 [n tres] (V4 & Ht & Hr). rewrite V3 in V4. simpl in Ht. intros [[sec2 nsec2]|] _.
  2: { eapply free_task_wp; [rewrite view_other by done; exact V4|done]. }
  destruct tres as [tres|]; [|done].
  destruct (ok_spec tres) as [->|Hne]; cbn [negb]; (eapply free_task_wp; [rewrite view_other by done; exact V4|]);
    [intros _; right; split; [done|by apply reported_snoc]|done].
Qed.

(** C31: one copy operation. The task that [dpu_submit_dma_task] allocates is
    freed exactly once on every path, the copy goes from the sender's buffer
    to the other one, and the result [DOCA_SUCCESS] means that the task was
    submitted and the library reported its end, unless the clock could not be
    read. The function returns as soon as the library reports the end of the
    task. *)
Theorem dpu_submit_correct (o : oracle) (fuel : nat) (cfg : dma_copy_cfg) (r : dma_copy_resources)
    (bytes local remote : Z) (start fin : timespec) :
  documented_oracle o ->
  match run o (dpu_submit_dma_task fuel cfg r bytes local remote 1 start fin) [] with
  | (Ret (e, _), tr) =>
      dma_tasks tr = freed tr /\ Forall (fun d => d = direction cfg local remote) (memcpys tr) /\
      (e = DOCA_SUCCESS -> clock_failed tr \/
         (memcpys tr = [direction cfg local remote] /\ submitted tr = dma_tasks tr /\
          submitted tr <> [] /\ reported tr))
  | (NoFuel, _) => forall n, completes_within o (Common.pe (state r)) n -> (fuel <= n + 1)%nat
  | _ => False
  end.
Proof.
  intros Ho. pose proof (wp_run o _ _ Ho [] (dpu_submit_dma_task_wp fuel cfg r bytes local remote start fin)) as H.
  destruct (run o (dpu_submit_dma_task fuel cfg r bytes local remote 1 start fin) [])
    as [[[e x]| | |] tr] eqn:E; try done.
  intros n Hn. destruct (decide (fuel <= n + 1)%nat); [done|]. exfalso.
  assert (ends o (dpu_submit_dma_task fuel cfg r bytes local remote 1 start fin)) as He.
  { unfold dpu_submit_dma_task, free_task. destruct (if is_sender cfg then _ else _). ends_auto.
    intros tr'. eapply wait_for_tasks_ends; [done|by right|right; lia]. }
  apply (He []). by rewrite E.
Qed.

(** Tasks complete at the first progress. *)
Definition completes : oracle := all_ok (fun _ => [EvDmaCompletion 1]) (fun _ => CTX_IDLE).

Definition demo_receiver : dma_copy_cfg :=
  DmaCfg DMA_COPY_MODE_DPU 1 [] [] false 1000 8192 5 6 MAX_FILE_SIZE 0 [] 0 0 4096 COMCH_COMPLETE
    (Statistics 3 1000 time_zero).

Lemma dpu_submit_correct_witness :
  match run completes (dpu_submit_dma_task 5 demo_receiver (DmaResources 1 (CoreObjects 1 2 3 4 5 6) 7)
                         1000 11 12 1 time_zero time_zero) [] with
  | (Ret (e, _), tr) => e = DOCA_SUCCESS /\ dma_tasks tr = freed tr /\ memcpys tr = [(12, 11)]
  | _ => False
  end.
Proof.
  pose proof (dpu_submit_correct completes 5 demo_receiver (DmaResources 1 (CoreObjects 1 2 3 4 5 6) 7)
    1000 11 12 time_zero time_zero (all_ok_documented _ _)) as H.
  assert (match run completes (dpu_submit_dma_task 5 demo_receiver (DmaResources 1 (CoreObjects 1 2 3 4 5 6) 7)
                                 1000 11 12 1 time_zero time_zero) [] with
          | (Ret (e, _), tr) => e = DOCA_SUCCESS /\ memcpys tr = [(12, 11)]
          | _ => False
          end) as HR by (vm_compute; by split).
  revert H HR. generalize (run completes (dpu_submit_dma_task 5 demo_receiver
    (DmaResources 1 (CoreObjects 1 2 3 4 5 6) 7) 1000 11 12 1 time_zero time_zero) []).
  intros [[[e s]| | |] tr]; [|done..]. intros (Hf & _) [-> Hm]. by split_and!.
Defined.
