(* ===== verification/DmaProps.v ===== *)
(** * DmaProps: properties of the DMA copy application and of its command line *)

From Stdlib Require String.
From S2P Require Import Prelude.
From S2P Require Import Pack.
From S2P Require Import CUtils.
From S2P Require Import Doca.
From S2P Require Import Ownership.
From S2P Require Import Common.
From S2P Require Import CommonProps.
From S2P Require Import ComchUtils.
From S2P Require Import ComchProps.
From S2P Require Import DmaCopy.
From S2P Require Import DmaOwn.

(** ** Messages on the wire *)

(** A field of a message at a known offset. *)
Lemma msg_u64_at pre post v off :
  off = Z.of_nat (length pre) -> in_width 64 v -> msg_u64 (pre ++ le_bytes 8 v ++ post) off = v.
Proof.
  intros -> Hv. unfold msg_u64. rewrite le_read_bytes. unfold in_width in Hv.
  apply Z.mod_small. by change (256 ^ Z.of_nat 8) with (2 ^ 64).
Qed.

Section wire.
Context `{Padding}.

Lemma msg_type_at t post : 0 <= t < 2 ^ 32 -> msg_type (le_bytes 4 t ++ post) = t.
Proof using Type.
  intros Ht. unfold msg_type. etransitivity; [exact (le_read_bytes 4 t [] post)|].
  change (256 ^ Z.of_nat 4) with (2 ^ 32). by apply Z.mod_small.
Qed.

Lemma msg_flag_at t b post : msg_flag (le_bytes 4 t ++ [bool_byte b] ++ post) = b.
Proof using Type. unfold msg_flag, byte_at. by destruct b. Qed.

Lemma direction_msg_spec b v : in_width 64 v ->
  length (direction_msg b v) = 16%nat /\ msg_type (direction_msg b v) = COMCH_MSG_DIRECTION /\
  msg_flag (direction_msg b v) = b /\ msg_u64 (direction_msg b v) 8 = v.
Proof using Type.
  intros Hv. unfold direction_msg. split_and!.
  - rewrite !length_app, !length_le_bytes, padding_length. done.
  - by apply msg_type_at.
  - apply msg_flag_at.
  - rewrite !(assoc_L (++)). rewrite <- (app_nil_r (le_bytes 8 v)). apply msg_u64_at; [|done].
    rewrite !length_app, length_le_bytes, padding_length. done.
Qed.

Lemma export_msg_spec addr len desc : in_width 64 addr -> in_width 64 len ->
  length (export_msg addr len desc) = (24 + length desc)%nat /\
  msg_type (export_msg addr len desc) = COMCH_MSG_EXPORT_DESCRIPTOR /\
  msg_u64 (export_msg addr len desc) 8 = addr /\ msg_u64 (export_msg addr len desc) 16 = len /\
  drop 24 (export_msg addr len desc) = desc.
Proof using Type.
  intros Ha Hl. unfold export_msg. split_and!.
  - rewrite !length_app, !length_le_bytes, padding_length. lia.
  - by apply msg_type_at.
  - rewrite (assoc_L (++) (le_bytes 4 _)). apply msg_u64_at; [|done].
    by rewrite length_app, length_le_bytes, padding_length.
  - rewrite !(assoc_L (++)). rewrite <- (assoc_L (++) _ (le_bytes 8 len)). apply msg_u64_at; [|done].
    by rewrite !length_app, !length_le_bytes, padding_length.
  - rewrite !(assoc_L (++)). apply drop_app_length'.
    by rewrite !length_app, !length_le_bytes, padding_length.
Qed.

Lemma status_msg_spec b : length (status_msg b) = 8%nat /\
  msg_type (status_msg b) = COMCH_MSG_STATUS /\ msg_flag (status_msg b) = b.
Proof using Type.
  unfold status_msg. split_and!.
  - rewrite !length_app, !length_le_bytes, padding_length. done.
  - by apply msg_type_at.
  - apply msg_flag_at.
Qed.
End wire.

(** ** The negotiation *)

(** An execution in which the calls of the negotiation succeed; [desc] is the
    descriptor of the exported memory. *)
Record succeeding (o : oracle) (desc : list Z) : Prop := {
  ok_user_data conn tr : o _ tr (doca_comch_connection_get_user_data conn) <> 0;
  ok_server_task s conn m tr :
    (o _ tr (doca_comch_server_task_send_alloc_init s conn m)).1 = DOCA_SUCCESS;
  ok_client_task c conn m tr :
    (o _ tr (doca_comch_client_task_send_alloc_init c conn m)).1 = DOCA_SUCCESS;
  ok_submit t tr : o _ tr (doca_task_submit t) = DOCA_SUCCESS;
  ok_malloc n tr : o _ tr (malloc n) <> 0;
  ok_memalign al n tr : in_width 64 (o _ tr (memalign al n)) /\ o _ tr (memalign al n) <> 0;
  ok_permissions m f tr : o _ tr (doca_mmap_set_permissions m f) = DOCA_SUCCESS;
  ok_memrange m a n tr : o _ tr (doca_mmap_set_memrange m a n) = DOCA_SUCCESS;
  ok_start m tr : o _ tr (doca_mmap_start m) = DOCA_SUCCESS;
  ok_export m d tr : o _ tr (doca_mmap_export_pci m d) = (DOCA_SUCCESS, desc)
}.

Lemma messages_snoc {X} tr (c : call X) x : messages (tr ++ [Ev c x]) = messages tr ++ (task_event c x).2.
Proof. unfold messages. rewrite bind_app. simpl. by rewrite app_nil_r. Qed.

Lemma send_succeeds o desc cfg conn msg tr : succeeding o desc -> conn <> 0 ->
  Z.of_nat (length msg) <= max_buf_size cfg ->
  exists tr', run o (comch_utils_send cfg conn msg) tr = (Ret DOCA_SUCCESS, tr') /\
              messages tr' = messages tr ++ [(conn, msg)].
Proof.
  intros Ho Hc Hl. unfold comch_utils_send, get_comch_cfg_from_connection.
  destruct (Z.eqb_spec conn 0); [done|]. lin_simpl. cbn [run].
  destruct (Z.eqb_spec (o _ tr (doca_comch_connection_get_user_data conn)) 0) as [E|_];
    [by apply (ok_user_data _ _ Ho) in E|].
  destruct (Z.ltb_spec (max_buf_size cfg) (Z.of_nat (length msg))); [lia|].
  set (tr1 := tr ++ _).
  pose proof (ok_server_task _ _ Ho (endpoint cfg) conn msg tr1) as Hs.
  pose proof (ok_client_task _ _ Ho (endpoint cfg) conn msg tr1) as Hk.
  destruct (is_server cfg); [clear Hk|clear Hs]; lin_simpl; cbn [run];
    destruct (o _ tr1 _) as [e t]; simpl in *; subst e;
    simpl; rewrite (ok_submit _ _ Ho); simpl; eexists; (split; [done|]);
    unfold tr1; rewrite !messages_snoc; simpl; by rewrite !app_nil_r.
Qed.

(** The user data of a connection leads to the application. *)
Lemma user_data_found o desc cfg conn tr : succeeding o desc -> conn <> 0 ->
  exists tr', run o (comch_utils_get_user_data cfg conn) tr = (Ret (app_user_data cfg), tr') /\
              messages tr' = messages tr.
Proof.
  intros Ho Hc. unfold comch_utils_get_user_data, get_comch_cfg_from_connection.
  destruct (Z.eqb_spec conn 0); [done|]. lin_simpl. cbn [run].
  destruct (Z.eqb_spec (o _ tr (doca_comch_connection_get_user_data conn)) 0) as [E|_];
    [by apply (ok_user_data _ _ Ho) in E|].
  eexists. split; [done|]. rewrite messages_snoc. by rewrite app_nil_r.
Qed.

Section negotiation.
Context `{Padding}.

(** The host announces where the file is and how long it is. *)
Lemma direction_request o desc hcomch hcfg : succeeding o desc ->
  active_connection hcomch <> 0 -> 16 <= max_buf_size hcomch -> in_width 64 (file_size hcfg) ->
  exists tr, run o (send_file_direction_request hcfg hcomch) [] = (Ret DOCA_SUCCESS, tr) /\
    messages tr = [(active_connection hcomch,
      if is_sender hcfg then direction_msg true (htonq true (file_size hcfg)) else direction_msg false 0)].
Proof using Type.
  intros Ho Hc Hm Hf. unfold send_file_direction_request. cbn [comch_util_get_connection].
  apply (send_succeeds o desc hcomch (active_connection hcomch) _ []); [done|done|].
  destruct (is_sender hcfg).
  - destruct (direction_msg_spec true (htonq true (file_size hcfg))) as [-> _]; [apply ntohq_range|lia].
  - destruct (direction_msg_spec false 0) as [-> _]; [by split|lia].
Qed.

(** The DPU accepts a direction that fits its own, and answers. *)
Lemma dpu_answers o desc comch cfg conn field msg : succeeding o desc ->
  conn <> 0 -> app_user_data comch <> 0 -> 16 <= max_buf_size comch -> in_width 64 field ->
  msg = direction_msg (negb (is_sender cfg)) (htonq true field) ->
  let size := if is_sender cfg then file_size cfg else field in
  size <= max_dma_buf_size cfg -> in_width 64 size ->
  exists tr, run o (dpu_recv_event_cb comch cfg conn msg) [] = (Ret (set_file_size cfg size), tr) /\
    messages tr = [(conn, if is_sender cfg then direction_msg false (htonq true size)
                          else direction_msg true 0)].
Proof using Type.
  intros Ho Hc Hu Hm Hf -> size Hmax Hsize. unfold dpu_recv_event_cb.
  destruct (direction_msg_spec (negb (is_sender cfg)) (htonq true field) (ntohq_range _))
    as (Hlen & Htype & Hflag & Hfield).
  rewrite run_bind. destruct (user_data_found o desc comch conn [] Ho Hc) as (tr1 & -> & Htr1).
  destruct (Z.eqb_spec (app_user_data comch) 0); [done|].
  rewrite Hlen, Htype. cbn [Z.of_nat Z.ltb Z.eqb Z.compare negb].
  change (Z.of_nat 16 <? 4) with false. change (COMCH_MSG_DIRECTION =? COMCH_MSG_DIRECTION) with true.
  change (Z.of_nat 16 =? sizeof_direction) with true. cbn [negb].
  rewrite run_bind. unfold dpu_process_dma_direction_and_size. rewrite Hflag, Hfield.
  unfold htonq. rewrite ntohq_involutive by done.
  assert (set_file_size cfg (file_size cfg) = cfg) as Hcfg by (by destruct cfg).
  destruct (is_sender cfg) eqn:Es; cbn [negb andb].
  - destruct (Z.ltb_spec (max_dma_buf_size cfg) (file_size cfg)); [unfold size in *; lia|].
    rewrite run_bind.
    destruct (send_succeeds o desc comch conn (direction_msg false (ntohq true (file_size cfg))) tr1 Ho Hc)
      as (tr2 & E & Htr2).
    { destruct (direction_msg_spec false (ntohq true (file_size cfg))) as [-> _];
        [apply ntohq_range|lia]. }
    rewrite Es. rewrite E. simpl. unfold size. rewrite Hcfg. eexists. split; [done|]. by rewrite Htr2, Htr1.
  - change (max_dma_buf_size (set_file_size cfg field)) with (max_dma_buf_size cfg).
    change (file_size (set_file_size cfg field)) with field.
    change (is_sender (set_file_size cfg field)) with (is_sender cfg). rewrite Es.
    destruct (Z.ltb_spec (max_dma_buf_size cfg) field); [unfold size in *; lia|].
    rewrite run_bind.
    destruct (send_succeeds o desc comch conn (direction_msg true 0) tr1 Ho Hc) as (tr2 & E & Htr2).
    { destruct (direction_msg_spec true 0) as [-> _]; [by split|lia]. }
    rewrite E. simpl. eexists. split; [done|]. by rewrite Htr2, Htr1.
Qed.

(** Allocating the host's receive buffer. *)
Lemma populate_succeeds o desc mmap len flags buffer tr : succeeding o desc ->
  exists b tr', run o (memory_alloc_and_populate mmap len flags buffer) tr = (Ret (DOCA_SUCCESS, b), tr') /\
    b <> 0 /\ in_width 64 b /\ messages tr' = messages tr.
Proof using Type.
  intros Ho. unfold memory_alloc_and_populate. lin_simpl. cbn [run].
  rewrite (ok_permissions _ _ Ho). cbn [ok negb]. simpl.
  set (tr1 := tr ++ _). destruct (ok_memalign _ _ Ho 64 len tr1) as [Hw Hb].
  destruct (Z.eqb_spec (o _ tr1 (memalign 64 len)) 0); [done|]. simpl.
  rewrite (ok_memrange _ _ Ho). simpl. rewrite (ok_start _ _ Ho). simpl.
  do 2 eexists. split_and!; [done|done|done|]. unfold tr1. rewrite !messages_snoc. simpl.
  by rewrite !app_nil_r.
Qed.

Lemma export_sent o desc comch cfg conn tr : succeeding o desc -> conn <> 0 ->
  24 + Z.of_nat (length desc) <= max_buf_size comch -> 24 + Z.of_nat (length desc) <= max_comch_buffer cfg ->
  Z.of_nat (length desc) < 2 ^ 32 ->
  exists tr', run o (host_export comch cfg conn) tr = (Ret (DOCA_SUCCESS, cfg), tr') /\
  messages tr' = messages tr ++
    [(conn, export_msg (htonq true (file_buffer cfg)) (htonq true (Z.of_nat (length desc))) desc)].
Proof using Type.
  intros Ho Hc Hm1 Hm2 Hlen. unfold host_export. destruct (Z.ltb_spec (max_comch_buffer cfg) 16); [lia|].
  rewrite run_bind. cbn [invoke run]. rewrite (ok_export _ _ Ho). change (ok DOCA_SUCCESS) with true. cbn [negb].
  cbv zeta. unfold sizeof_export. rewrite wrap_small by (unfold in_width; lia).
  destruct (Z.ltb_spec (max_comch_buffer cfg) (Z.of_nat (length desc) + 24)); [lia|].
  rewrite run_bind.
  destruct (send_succeeds o desc comch conn
    (export_msg (htonq true (file_buffer cfg)) (htonq true (Z.of_nat (length desc))) desc)
    (tr ++ [Ev (doca_mmap_export_pci (file_mmap cfg) (dma_dev cfg)) (DOCA_SUCCESS, desc)]) Ho Hc)
    as (tr2 & -> & Htr2).
  { destruct (export_msg_spec (htonq true (file_buffer cfg)) (htonq true (Z.of_nat (length desc))) desc)
      as [-> _]; [apply ntohq_range|apply ntohq_range|lia]. }
  simpl. eexists. split; [done|]. rewrite Htr2, messages_snoc. simpl. by rewrite app_nil_r.
Qed.

(** The host answers the DPU's direction with its memory, which it allocates
    first if it is the receiver. *)
Lemma host_answers o desc comch cfg conn flag field : succeeding o desc ->
  conn <> 0 -> app_user_data comch <> 0 -> in_width 64 field ->
  24 + Z.of_nat (length desc) <= max_buf_size comch -> 24 + Z.of_nat (length desc) <= max_comch_buffer cfg ->
  Z.of_nat (length desc) < 2 ^ 32 -> (is_sender cfg = true -> in_width 64 (file_buffer cfg)) ->
  exists cfg' tr,
    run o (host_recv_event_cb comch cfg conn (direction_msg flag (htonq true field))) [] = (Ret cfg', tr) /\
    messages tr = [(conn, export_msg (htonq true (file_buffer cfg')) (htonq true (Z.of_nat (length desc))) desc)] /\
    in_width 64 (file_buffer cfg') /\
    file_size cfg' = (if is_sender cfg then file_size cfg else field) /\
    comch_state cfg' = comch_state cfg.
Proof using Type.
  intros Ho Hc Hu Hf Hm1 Hm2 Hlen Hb. unfold host_recv_event_cb.
  destruct (direction_msg_spec flag (htonq true field) (ntohq_range _)) as (Hl & Htype & Hflag & Hfield).
  rewrite run_bind. destruct (user_data_found o desc comch conn [] Ho Hc) as (tr1 & -> & Htr1).
  destruct (Z.eqb_spec (app_user_data comch) 0); [done|]. rewrite Hl, Htype.
  change (Z.of_nat 16 <? 4) with false. change (COMCH_MSG_DIRECTION =? COMCH_MSG_DIRECTION) with true.
  change (Z.of_nat 16 =? sizeof_direction) with true. cbn [negb].
  rewrite run_bind. unfold host_process_dma_direction_and_size. rewrite Hfield.
  assert (ntohq true (htonq true field) = field) as -> by (by apply ntohq_involutive).
  destruct (is_sender cfg) eqn:Es; cbn [negb].
  - destruct (export_sent o desc comch cfg conn tr1 Ho Hc Hm1 Hm2 Hlen) as (tr2 & -> & Htr2).
    simpl. do 2 eexists. split; [done|]. rewrite Htr2, Htr1. split_and!; auto.
  - cbv zeta. rewrite run_bind.
    destruct (populate_succeeds o desc (file_mmap (set_file_size cfg field))
      (file_size (set_file_size cfg field)) DOCA_ACCESS_FLAG_PCI_READ_WRITE
      (file_buffer (set_file_size cfg field)) tr1 Ho) as (b & tr2 & -> & Hb0 & Hbw & Htr2).
    change (ok DOCA_SUCCESS) with true. cbn [negb].
    destruct (export_sent o desc comch (set_file_buffer (set_file_size cfg field) b) conn tr2 Ho Hc Hm1 Hm2 Hlen)
      as (tr3 & -> & Htr3).
    simpl. do 2 eexists. split; [done|]. rewrite Htr3, Htr2, Htr1. split_and!; auto.
Qed.

(** The DPU takes over the host's memory. *)
Lemma dpu_receives o desc desc' comch cfg conn addr : succeeding o desc ->
  conn <> 0 -> app_user_data comch <> 0 -> in_width 64 addr -> 0 < Z.of_nat (length desc') < 2 ^ 32 ->
  exists p tr,
    run o (dpu_recv_event_cb comch cfg conn
             (export_msg (htonq true addr) (htonq true (Z.of_nat (length desc'))) desc')) [] =
    (Ret (set_comch_state (set_export cfg p desc' (Z.of_nat (length desc')) addr) COMCH_COMPLETE), tr) /\
    messages tr = [] /\ p <> 0.
Proof using Type.
  intros Ho Hc Hu Ha Hlen. unfold dpu_recv_event_cb.
  assert (in_width 64 (Z.of_nat (length desc'))) as Hw by (unfold in_width; lia).
  destruct (export_msg_spec (htonq true addr) (htonq true (Z.of_nat (length desc'))) desc'
    (ntohq_range _) (ntohq_range _)) as (Hl & Htype & Haddr & Hdl & Hdrop).
  rewrite run_bind. destruct (user_data_found o desc comch conn [] Ho Hc) as (tr1 & -> & Htr1).
  destruct (Z.eqb_spec (app_user_data comch) 0); [done|]. rewrite Hl, Htype.
  destruct (Z.ltb_spec (Z.of_nat (24 + length desc')) 4); [lia|].
  change (COMCH_MSG_EXPORT_DESCRIPTOR =? COMCH_MSG_DIRECTION) with false.
  change (COMCH_MSG_EXPORT_DESCRIPTOR =? COMCH_MSG_EXPORT_DESCRIPTOR) with true. cbv iota.
  destruct (Z.leb_spec (Z.of_nat (24 + length desc')) sizeof_export) as [H1|H1]; [unfold sizeof_export in H1; lia|].
  rewrite run_bind. unfold dpu_process_export_descriptor. rewrite Hl, Haddr, Hdl.
  assert (forall v, in_width 64 v -> ntohq true (htonq true v) = v) as Hinv by apply ntohq_involutive.
  rewrite !Hinv by done. lin_simpl. cbn [run].
  pose proof (ok_malloc _ _ Ho (Z.of_nat (length desc')) tr1) as Hp.
  destruct (Z.eqb_spec (o _ tr1 (malloc (Z.of_nat (length desc')))) 0); [done|]. unfold sizeof_export.
  destruct (Z.ltb_spec (Z.of_nat (24 + length desc') - 24) (Z.of_nat (length desc'))); [lia|].
  rewrite Nat2Z.id. change (Z.to_nat 24) with 24%nat. rewrite Hdrop, take_ge by lia. simpl.
  do 2 eexists. split; [done|]. rewrite messages_snoc, Htr1. done.
Qed.

(** The status message ends the host's wait. *)
Lemma host_status o desc comch cfg conn status : succeeding o desc ->
  conn <> 0 -> app_user_data comch <> 0 ->
  exists tr, run o (host_recv_event_cb comch cfg conn (status_msg status)) [] =
    (Ret (set_comch_state cfg (if status then COMCH_COMPLETE else COMCH_ERROR)), tr).
Proof using Type.
  intros Ho Hc Hu. unfold host_recv_event_cb. destruct (status_msg_spec status) as (Hl & Htype & Hflag).
  rewrite run_bind. destruct (user_data_found o desc comch conn [] Ho Hc) as (tr1 & -> & _).
  destruct (Z.eqb_spec (app_user_data comch) 0); [done|]. rewrite Hl, Htype, Hflag.
  eexists. by destruct status.
Qed.
End negotiation.

(** The connection leads to the application and carries [n] bytes. *)
Definition channel_ready (comch : comch_cfg) (conn : Z) (n : Z) : Prop :=
  conn <> 0 /\ app_user_data comch <> 0 /\ n <= max_buf_size comch.

(** The state in which both sides start: exactly one of them has the file, its
    size fits the DMA engine, and the export message fits the channel. *)
Definition can_negotiate (hcfg dcfg : dma_copy_cfg) (desc : list Z) : Prop :=
  is_sender dcfg = negb (is_sender hcfg) /\
  in_width 64 (file_size hcfg) /\ in_width 64 (file_size dcfg) /\
  (if is_sender hcfg then file_size hcfg else file_size dcfg) <= max_dma_buf_size dcfg /\
  (is_sender hcfg = true -> in_width 64 (file_buffer hcfg)) /\
  0 < Z.of_nat (length desc) < 2 ^ 32 /\ 24 + Z.of_nat (length desc) <= max_comch_buffer hcfg.

(** C27: the negotiation, message by message. When exactly one side has the
    file and the calls succeed, the host's request, the DPU's answer and the
    host's export message, each delivered to the other side, end with both
    sides agreeing on the file size and the DPU ready to copy, holding the
    host's buffer address and memory descriptor exactly as the host has them;
    a final status then ends the host's wait, as a success or a failure as
    sent. *)
Theorem negotiation_agrees `{Padding} (oh od : oracle) (desc desc_d : list Z)
    (hcomch dcomch : comch_cfg) (hcfg dcfg : dma_copy_cfg) (dconn : Z) (status : bool) :
  succeeding oh desc -> succeeding od desc_d -> can_negotiate hcfg dcfg desc ->
  let hconn := active_connection hcomch in
  let size := if is_sender hcfg then file_size hcfg else file_size dcfg in
  channel_ready hcomch hconn (24 + Z.of_nat (length desc)) -> channel_ready dcomch dconn 16 ->
  exists m1 m2 m3 tr1 tr2 tr3 tr4 tr5 dcfg1 hcfg' dcfg2,
  (run oh (send_file_direction_request hcfg hcomch) [] = (Ret DOCA_SUCCESS, tr1) /\
   messages tr1 = [(hconn, m1)]) /\
  (run od (dpu_recv_event_cb dcomch dcfg dconn m1) [] = (Ret dcfg1, tr2) /\
   messages tr2 = [(dconn, m2)]) /\
  (run oh (host_recv_event_cb hcomch hcfg hconn m2) [] = (Ret hcfg', tr3) /\
   messages tr3 = [(hconn, m3)]) /\
  (run od (dpu_recv_event_cb dcomch dcfg1 dconn m3) [] = (Ret dcfg2, tr4) /\ messages tr4 = []) /\
  comch_state dcfg2 = COMCH_COMPLETE /\ file_size dcfg2 = size /\ file_size hcfg' = size /\
  exported_desc dcfg2 = desc /\ exported_mmap_len dcfg2 = Z.of_nat (length desc) /\
  host_addr dcfg2 = file_buffer hcfg' /\
  run oh (host_recv_event_cb hcomch hcfg' hconn (status_msg status)) [] =
    (Ret (set_comch_state hcfg' (if status then COMCH_COMPLETE else COMCH_ERROR)), tr5).
Proof.
  intros Hoh Hod (Hside & Hhs & Hds & Hmax & Hbuf & Hlen & Hbig) hconn size (Hh1 & Hh2 & Hh3) (Hd1 & Hd2 & Hd3).
  destruct (direction_request oh desc hcomch hcfg Hoh Hh1 ltac:(lia) Hhs) as (tr1 & Hr1 & Hm1).
  set (field := if is_sender hcfg then file_size hcfg else 0).
  assert (in_width 64 field) as Hfield by (unfold field; destruct (is_sender hcfg); [done|by split]).
  assert ((if is_sender hcfg then direction_msg true (htonq true (file_size hcfg)) else direction_msg false 0)
    = direction_msg (negb (is_sender dcfg)) (htonq true field)) as Hmsg1.
  { rewrite Hside. unfold field. by destruct (is_sender hcfg). }
  assert ((if is_sender dcfg then file_size dcfg else field) = size) as Hsize.
  { rewrite Hside. unfold size, field. by destruct (is_sender hcfg). }
  assert (in_width 64 size) as Hsw by (unfold size; by destruct (is_sender hcfg)).
  destruct (dpu_answers od desc_d dcomch dcfg dconn field _ Hod Hd1 Hd2 Hd3 Hfield Hmsg1)
    as (tr2 & Hr2 & Hm2); rewrite ?Hsize in *; [done|done|].
  set (field2 := if is_sender hcfg then 0 else size).
  assert ((if is_sender dcfg then direction_msg false (htonq true size) else direction_msg true 0)
    = direction_msg (is_sender hcfg) (htonq true field2)) as Hmsg2.
  { rewrite Hside. unfold field2. by destruct (is_sender hcfg). }
  assert (in_width 64 field2) as Hf2 by (unfold field2; destruct (is_sender hcfg); [by split|done]).
  destruct (host_answers oh desc hcomch hcfg hconn (is_sender hcfg) field2 Hoh Hh1 Hh2 Hf2 Hh3 Hbig
    (proj2 Hlen) Hbuf) as (hcfg' & tr3 & Hr3 & Hm3 & Hb' & Hs' & _).
  destruct (dpu_receives od desc_d desc dcomch (set_file_size dcfg size) dconn (file_buffer hcfg')
    Hod Hd1 Hd2 Hb' Hlen) as (p & tr4 & Hr4 & Hm4 & _).
  destruct (host_status oh desc hcomch hcfg' hconn status Hoh Hh1 Hh2) as (tr5 & Hr5).
  do 11 eexists. rewrite Hmsg1 in Hm1. rewrite Hmsg2 in Hm2.
  rewrite Hmsg1 in Hr2. split_and!; try eassumption; try done.
  unfold field2 in Hs'. rewrite Hs'. unfold size. by destruct (is_sender hcfg).
Qed.

(** *** A run of the negotiation *)

#[local] Instance zero_padding : Padding.
Proof. refine {| padding := fun n => replicate n 0 |}. intros n. apply length_replicate. Defined.

(** Everything works; buffers are allocated at address 4096. *)
Definition steady : oracle := fun X tr c =>
  match c in call X return X with
  | memalign _ _ => 4096
  | c => calm _ tr c
  end.

Lemma steady_documented : documented_oracle steady.
Proof. intros X tr c. pose proof (calm_documented X tr c) as H. by destruct c. Qed.

Lemma steady_succeeding : succeeding steady [1; 2; 3].
Proof. split; intros; simpl; try done; try lia; unfold in_width; split; lia. Qed.

Definition demo_cfg (mode : dma_copy_mode) (sender : bool) (size buffer : Z) : dma_copy_cfg :=
  DmaCfg mode 1 [] [] sender size buffer 5 6 MAX_FILE_SIZE 0 [] 0 0 4096 COMCH_NEGOTIATING
    (Statistics 3 size time_zero).
Definition host_cfg : dma_copy_cfg := demo_cfg DMA_COPY_MODE_HOST true 1000 8192.
Definition dpu_cfg : dma_copy_cfg := demo_cfg DMA_COPY_MODE_DPU false 0 0.
Definition a_client : comch_cfg := ComchCfg 1 7 2 3 4 9 5 0 4096 false.

Lemma negotiation_agrees_witness :
  exists m1 m2 m3 tr1 tr2 tr3 tr4 tr5 dcfg1 hcfg' dcfg2,
  (run steady (send_file_direction_request host_cfg a_client) [] = (Ret DOCA_SUCCESS, tr1) /\
   messages tr1 = [(9, m1)]) /\
  (run steady (dpu_recv_event_cb a_server dpu_cfg 9 m1) [] = (Ret dcfg1, tr2) /\
   messages tr2 = [(9, m2)]) /\
  (run steady (host_recv_event_cb a_client host_cfg 9 m2) [] = (Ret hcfg', tr3) /\
   messages tr3 = [(9, m3)]) /\
  (run steady (dpu_recv_event_cb a_server dcfg1 9 m3) [] = (Ret dcfg2, tr4) /\ messages tr4 = []) /\
  comch_state dcfg2 = COMCH_COMPLETE /\ file_size dcfg2 = 1000 /\ file_size hcfg' = 1000 /\
  exported_desc dcfg2 = [1; 2; 3] /\ exported_mmap_len dcfg2 = 3 /\
  host_addr dcfg2 = file_buffer hcfg' /\
  run steady (host_recv_event_cb a_client hcfg' 9 (status_msg true)) [] =
    (Ret (set_comch_state hcfg' COMCH_COMPLETE), tr5).
Proof.
  apply (negotiation_agrees steady steady [1; 2; 3] [1; 2; 3] a_client a_server host_cfg dpu_cfg 9 true).
  - apply steady_succeeding.
  - apply steady_succeeding.
  - unfold can_negotiate, in_width. simpl. unfold MAX_FILE_SIZE. split_and!; try done; lia.
  - unfold channel_ready. simpl. lia.
  - unfold channel_ready. simpl. lia.
Defined.

(** ** Ownership on the host *)

(** From the [n]-th progress on, every progress delivers the final status, and
    connections lead to the application. *)
Definition status_within `{Padding} (o : oracle) (n : nat) : Prop :=
  (exists status, delivers_within o (fun conn => EvMessage conn (status_msg status)) n) /\
  (forall conn tr, o _ tr (doca_comch_connection_get_user_data conn) <> 0).

Section host.
Context `{Padding}.

(** The final status ends the negotiation on the host. *)
Lemma progress_final (o : oracle) s tr conn status : conn <> 0 -> app_user_data s.1 <> 0 ->
  (forall conn tr, o _ tr (doca_comch_connection_get_user_data conn) <> 0) ->
  (o _ tr (doca_pe_progress (pe s.1))).2 = [EvMessage conn (status_msg status)] ->
  forall s' tr', run o (progress host_recv_event_cb s) tr = (Ret s', tr') ->
  comch_state s'.2 <> COMCH_NEGOTIATING.
Proof using Type.
  intros Hc Hu Hud He s' tr'. destruct s as [comch cfg]. cbn [fst snd] in *. unfold progress.
  rewrite run_bind. cbn [invoke run fst]. destruct (o _ tr _) as [n es]. simpl in He. subst es.
  set (tr1 := tr ++ _). cbn [deliver_all deliver]. rewrite !run_bind.
  unfold host_recv_event_cb. rewrite run_bind. unfold comch_utils_get_user_data, get_comch_cfg_from_connection.
  destruct (Z.eqb_spec conn 0); [done|]. lin_simpl. cbn [run].
  destruct (Z.eqb_spec (o _ tr1 (doca_comch_connection_get_user_data conn)) 0) as [E|_]; [by apply Hud in E|].
  destruct (Z.eqb_spec (app_user_data comch) 0); [done|].
  destruct (status_msg_spec status) as (Hl & Htype & Hflag). rewrite Hl, Htype, Hflag.
  by destruct status; intros [= <- <-].
Qed.

Lemma host_negotiate_loop_ends o b m d n fuel : documented_oracle o -> status_within o n ->
  forall result s, (n + 1 < fuel)%nat -> host_holds b m d s.2 [] -> app_user_data s.1 <> 0 ->
  ends o (negotiate host_recv_event_cb fuel result s).
Proof using Type.
  intros Ho [[status Hd] Hud] result0 s0 Hf Hh0 Hu0 tr0.
  cut (forall k result s tr, host_holds b m d s.2 [] -> app_user_data s.1 <> 0 ->
    (comch_state s.2 <> COMCH_NEGOTIATING /\ (1 <= k)%nat) \/
    ((n + 1 < progresses (pe s.1) tr + k)%nat /\ (2 <= k)%nat) ->
    (run o (negotiate host_recv_event_cb k result s) tr).1 <> NoFuel);
    [intros Hall; apply Hall; [done|done|right; lia]|].
  clear dependent result0 s0 tr0 fuel.
  induction k as [|k IH]; intros result s tr Hh Hu Hk; [lia|]. cbn [negotiate].
  case_bool_decide as Hst; [|done]. destruct Hk as [[? _]|[H1 H2]]; [done|].
  rewrite run_bind. cbn [invoke run]. set (tr1 := tr ++ _).
  assert (progresses (pe s.1) tr = progresses (pe s.1) tr1) as Hp1.
  { unfold progresses, tr1. rewrite List.filter_app, length_app. simpl. lia. }
  rewrite run_bind. unfold comch_utils_progress_connection, get_comch_cfg_from_connection.
  destruct (_ =? 0); [done|]. lin_simpl. cbn [run]. set (tr2 := tr1 ++ _).
  assert (progresses (pe s.1) tr1 = progresses (pe s.1) tr2) as Hp2.
  { unfold progresses, tr2. rewrite List.filter_app, length_app. simpl. lia. }
  destruct (_ =? 0); [done|]. cbn [run].
  change (prog_bind ?f ?q) with (q ≫= f). rewrite run_bind.
  destruct (progress_returns host_recv_event_cb (fun c rs => host_holds b m d c rs) (M := total)
    (fun c a cn bs rs _ => host_recv_event_cb_lin b m d c a cn bs rs) ltac:(simpl; tauto) o Ho (plain_oracle False o)
    s tr2 ltac:(by exists [])) as (s' & tr' & [rs' Hs'] & Hr & [v Hv] & Hlt & _).
  rewrite Hr. cbn [run]. change (ok DOCA_SUCCESS) with true. cbn [negb].
  assert (rs' = []) as -> by (by destruct Hs').
  apply IH; [done|by rewrite Hv|].
  destruct (decide (n <= progresses (pe s.1) tr2)%nat) as [Hle|Hgt].
  - left. split; [|lia]. destruct (Hd _ _ Hle) as (conn & Hc & He).
    by eapply progress_final.
  - right. rewrite Hv. simpl. lia.
Qed.

Lemma host_start_ends o n fuel comch cfg : documented_oracle o -> status_within o n ->
  (n + 1 < fuel)%nat -> is_sender cfg = true -> 16 <= max_buf_size comch -> app_user_data comch <> 0 ->
  ends o (host_start_dma_copy fuel (comch, cfg)).
Proof using Type.
  intros Ho Hn Hf Hs Hb Hu. unfold host_start_dma_copy, host_destroy_mmap, host_close_device. cbv zeta.
  destruct (_ =? 0); [apply ends_pure|]. apply ends_bind.
  { eapply (lin_ends (M := total)); [done|apply plain_oracle|tauto|apply open_dma_device_lin]. }
  intros [e d]. destruct (negb _); [apply ends_pure|]. lin_simpl. apply ends_call. intros [e2 m].
  destruct (negb _); [ends_auto|]. lin_simpl. apply ends_call. intros e3. destruct (negb _); [ends_auto|].
  cbn [is_sender set_file_mmap set_dma_dev set_max_comch_buffer]. rewrite Hs. apply ends_bind.
  { eapply (lin_ends (M := total)); [done|apply plain_oracle|tauto|apply memory_alloc_and_populate_lin]. }
  intros [e4 b]. destruct (negb _); [ends_auto|]. unfold host_negotiate, host_free_buffer, host_destroy_mmap,
    host_close_device. cbv zeta. cbn [fst snd]. apply ends_bind.
  { eapply (lin_ends (M := total)); [done|apply plain_oracle|tauto|apply comch_utils_send_quiet]. }
  intros e5. destruct (negb _); [ends_auto|]. apply ends_bind; [|intros [e6 s6]; ends_auto].
  by apply (host_negotiate_loop_ends o b m d n).
Qed.
End host.

(** The host, sending its file: however the copy goes, the buffer, the
    memory map and the DMA device are given back exactly once and nothing else
    is held at the end; the host has no undefined behaviour whatever messages
    it receives, and waits no longer than for the final status. *)
Theorem host_start_owns `{Padding} (o : oracle) (fuel : nat) (comch : comch_cfg) (cfg : dma_copy_cfg) :
  documented_oracle o -> is_sender cfg = true -> 16 <= max_buf_size comch -> app_user_data comch <> 0 ->
  match run o (host_start_dma_copy fuel (comch, cfg)) [] with
  | (Ret _, tr) => held [] tr []
  | (NoFuel, _) => forall n, status_within o n -> (fuel <= n + 1)%nat
  | _ => False
  end.
Proof.
  intros Ho Hs Hb Hu.
  pose proof (lin_run (P := True) o _ _ _ Ho (host_start_dma_copy_lin (M := partial) fuel comch cfg I Hs Hb)) as H1.
  destruct (run o (host_start_dma_copy fuel (comch, cfg)) []) as [[x| | |] tr] eqn:E; try done.
  - by destruct H1 as (rs & Hh & ->).
  - intros n Hn. destruct (decide (fuel <= n + 1)%nat); [done|]. exfalso.
    apply (host_start_ends o n fuel comch cfg Ho Hn ltac:(lia) Hs Hb Hu []). by rewrite E.
Qed.

(** Every progress delivers [m] on connection 9. *)
Definition sends (m : list Z) : oracle := all_ok (fun _ => [EvMessage 9 m]) (fun _ => CTX_IDLE).

Lemma host_start_owns_witness :
  match run (sends (status_msg true)) (host_start_dma_copy 5 (a_client, host_cfg)) [] with
  | (Ret (e, s), tr) => e = DOCA_SUCCESS /\ comch_state s.2 = COMCH_COMPLETE /\ held [] tr []
  | _ => False
  end.
Proof.
  pose proof (host_start_owns (sends (status_msg true)) 5 a_client host_cfg (all_ok_documented _ _) eq_refl
    ltac:(done) ltac:(done)) as H.
  assert (match run (sends (status_msg true)) (host_start_dma_copy 5 (a_client, host_cfg)) [] with
          | (Ret (e, s), _) => e = DOCA_SUCCESS /\ comch_state s.2 = COMCH_COMPLETE
          | _ => False
          end) as HR by (vm_compute; by split).
  revert H HR. generalize (run (sends (status_msg true)) (host_start_dma_copy 5 (a_client, host_cfg)) []).
  intros [[[e s]| | |] tr]; [|done..]. intros H [-> ->]. by repeat split; try apply H.
Defined.

(** C28: the DPU side of a copy, whenever it returns, for every answer of the
    library that its documentation allows and a peer whose descriptors lie
    within their messages. Once the DMA resources were created, everything
    acquired is given back exactly once (state, file buffer, memory maps,
    inventory, progress engine, DMA context, device) but for the descriptors:
    the blocks left at the end, together with the last descriptor, are exactly
    the blocks allocated for descriptor messages (all calls of [malloc] after
    the creation) and the descriptor held at the start, so that precisely the
    replaced descriptors leak. When the creation fails, all of it is undone,
    unless it is the creation of the core objects that failed. There is no
    undefined behaviour, in particular the result of a task is never read
    before a callback has set it. *)
Theorem dpu_start_owns `{Padding} (o : oracle) (fuel : nat) (garbage : program_core_objects)
    (comch : comch_cfg) (cfg : dma_copy_cfg) :
  documented_oracle o -> sends_only descriptor_fits o ->
  match run o (allocate_dma_copy_resources garbage) [],
        run o (dpu_start_dma_copy fuel garbage (comch, cfg)) [] with
  | (Ret (created, _), tr0), (Ret (_, s), tr) =>
      if ok created
      then exists ext rest, tr = tr0 ++ ext /\ held (descriptor cfg) tr rest /\
             rest ++ descriptor s.2 ≡ₚ descriptor cfg ++ blocks (mallocs ext)
      else held (descriptor cfg) tr (descriptor cfg) \/ core_objects_failed o garbage tr
  | (Ret _, _), (NoFuel, _) => True
  | _, _ => False
  end.
Proof. apply dpu_start_sound. Qed.

(** The host's descriptor of 3 bytes arrives, and each DMA task completes at
    once. *)
Definition copy_works : oracle :=
  all_ok (fun tr => [EvMessage 9 (export_msg (htonq true 8192) (htonq true 3) [1; 2; 3]);
                     EvDmaCompletion 1]) (fun _ => CTX_IDLE).

Lemma descriptor_fits_demo : descriptor_fits (export_msg (htonq true 8192) (htonq true 3) [1; 2; 3]).
Proof. intros _ _. by vm_compute. Qed.

Lemma dpu_start_owns_witness :
  match run copy_works (dpu_start_dma_copy 5 (CoreObjects 0 0 0 0 0 0) (a_server, dpu_cfg)) [] with
  | (Ret (e, s), tr) => e = DOCA_SUCCESS /\ host_addr s.2 = 8192 /\
      exists ext rest, held [] tr rest /\ rest ++ descriptor s.2 ≡ₚ blocks (mallocs ext)
  | _ => False
  end.
Proof.
  pose proof (dpu_start_owns copy_works 5 (CoreObjects 0 0 0 0 0 0) a_server dpu_cfg
    (all_ok_documented _ _)
    ltac:(intros pe tr; repeat constructor; apply descriptor_fits_demo)) as H.
  assert (match run copy_works (allocate_dma_copy_resources (CoreObjects 0 0 0 0 0 0)) [] with
          | (Ret (e, _), _) => ok e = true
          | _ => False
          end) as HA by (by vm_compute).
  assert (match run copy_works (dpu_start_dma_copy 5 (CoreObjects 0 0 0 0 0 0) (a_server, dpu_cfg)) [] with
          | (Ret (e, s), _) => e = DOCA_SUCCESS /\ host_addr s.2 = 8192
          | _ => False
          end) as HR by (vm_compute; by split).
  revert H HA HR. generalize (run copy_works (allocate_dma_copy_resources (CoreObjects 0 0 0 0 0 0)) []).
  generalize (run copy_works (dpu_start_dma_copy 5 (CoreObjects 0 0 0 0 0 0) (a_server, dpu_cfg)) []).
  intros [[[e s]| | |] tr] [[[e0 r0]| | |] tr0]; [|done..]. intros H HA. rewrite HA in H.
  intros [-> ->]. destruct H as (ext & rest & _ & Hh & Hr). split_and!; [done..|]. by exists ext, rest.
Defined.

(** ** Where the code falls short *)

Lemma held_released tr rest r : held [] tr rest -> r ∈ releases tr -> r ∈ acquires tr.
Proof.
  intros Hh Hr. pose proof (held_balance _ _ _ Hh) as Hp. simpl in Hp. rewrite Hp. by apply elem_of_app; left.
Qed.

(** A failed negotiation is reported as success. When the host receives a
    status message that says failure, or the DPU does, the negotiation ends in
    [COMCH_ERROR], no copy is made, and [host_start_dma_copy] or
    [dpu_start_dma_copy] still returns [DOCA_SUCCESS], so that the program
    exits with [EXIT_SUCCESS]. *)
Theorem negotiation_error_lost :
  (exists s tr, run (sends (status_msg false)) (host_start_dma_copy 5 (a_client, host_cfg)) []
     = (Ret (DOCA_SUCCESS, s), tr) /\ comch_state s.2 = COMCH_ERROR) /\
  (exists s tr, run (sends (status_msg false))
       (dpu_start_dma_copy 5 (CoreObjects 0 0 0 0 0 0) (a_server, dpu_cfg)) []
     = (Ret (DOCA_SUCCESS, s), tr) /\ comch_state s.2 = COMCH_ERROR /\ submitted tr = []).
Proof. split; do 2 eexists; vm_compute; by repeat split. Qed.

(** All calls succeed but for the clock. *)
Definition no_clock : oracle := fun X tr c =>
  match c in call X return X with
  | clock_gettime => None
  | c => calm _ tr c
  end.

(** When the clock cannot be read before the copy, [dpu_submit_dma_task]
    returns [DOCA_SUCCESS] although it never submits the task. *)
Theorem submit_clock_failure (cfg : dma_copy_cfg) (r : dma_copy_resources) (fuel : nat)
    (bytes local remote : Z) (start fin : timespec) :
  exists tr, run no_clock (dpu_submit_dma_task fuel cfg r bytes local remote 1 start fin) []
             = (Ret (DOCA_SUCCESS, (start, fin)), tr) /\ submitted tr = [] /\ freed tr <> [].
Proof.
  unfold dpu_submit_dma_task. destruct (is_sender cfg); eexists; (split; [reflexivity|]); by vm_compute.
Qed.

(** The first memory map cannot be created. *)
Definition no_mmap : oracle := fun X tr c =>
  match c in call X return X with
  | doca_mmap_create => (DOCA_ERROR_OTHER 1, 0)
  | c => calm _ tr c
  end.

Lemma no_mmap_documented : documented_oracle no_mmap.
Proof. intros X tr c. pose proof (calm_documented X tr c) as H. by destruct c. Qed.

(** [allocate_dma_copy_resources] does not clear the memory it gets from
    [malloc]: when the creation of the core objects fails, the cleanup destroys
    whatever pointer that memory happens to hold, a progress engine that was
    never created for instance. *)
Theorem allocate_destroys_garbage (p : Z) :
  p <> 0 ->
  exists e r tr, run no_mmap (allocate_dma_copy_resources (CoreObjects 0 0 0 0 0 p)) [] = (Ret (e, r), tr) /\
    e <> DOCA_SUCCESS /\ (KPe, p) ∈ releases tr /\ forall rest, ~ held [] tr rest.
Proof.
  intros Hp. destruct p as [|p|p]; [done| |]; (do 3 eexists; split; [vm_compute; reflexivity|]);
    (split; [done|]);
    (assert (forall P Q : Prop, P -> (P -> Q) -> P /\ Q) as Hand by tauto; apply Hand;
     [unfold releases; simpl; rewrite !elem_of_cons; tauto|]);
    intros Hr rest Hh; pose proof (held_released _ _ _ Hh Hr) as Ha; revert Ha;
    unfold acquires; simpl; rewrite !elem_of_cons, elem_of_nil; intuition congruence.
Qed.

Lemma allocate_destroys_garbage_witness :
  exists e r tr, run no_mmap (allocate_dma_copy_resources (CoreObjects 0 0 0 0 0 77)) [] = (Ret (e, r), tr) /\
    e <> DOCA_SUCCESS /\ (KPe, 77) ∈ releases tr /\ forall rest, ~ held [] tr rest.
Proof. by apply (allocate_destroys_garbage 77). Defined.

(** The DPU has a file of 100 bytes; the host's buffer cannot be registered. *)
Definition no_memrange : oracle := fun X tr c =>
  match c in call X return X with
  | doca_mmap_set_memrange _ _ _ => DOCA_ERROR_OTHER 1
  | c => sends (direction_msg false (htonq true 100)) _ tr c
  end.

Lemma no_memrange_documented : documented_oracle no_memrange.
Proof. intros X tr c. pose proof (all_ok_documented (fun _ => [EvMessage 9 (direction_msg false (htonq true 100))]) (fun _ => CTX_IDLE) X tr c) as H. by destruct c. Qed.

(** How often a block is freed. *)
Definition frees (p : Z) (tr : trace) : nat :=
  length (List.filter (fun r : resource => bool_decide (r = (KMemory, p))) (releases tr)).

(** A host that receives the file frees its buffer twice when the buffer
    cannot be registered: [memory_alloc_and_populate] frees it and leaves the
    pointer in the configuration, and [host_start_dma_copy] frees it again. *)
Theorem receiver_double_free :
  exists e s tr,
    run no_memrange (host_start_dma_copy 5 (a_client, demo_cfg DMA_COPY_MODE_HOST false 0 0)) []
      = (Ret (e, s), tr) /\ frees (file_buffer s.2) tr = 2%nat /\ forall rest, ~ held [] tr rest.
Proof.
  do 3 eexists. split; [vm_compute; reflexivity|]. split; [by vm_compute|]. intros rest Hh.
  apply held_balance in Hh. revert Hh. unfold acquires, releases. simpl. intros Hh.
  apply Permutation_length in Hh. simpl in Hh. lia.
Qed.

(** The DPU copies as many bytes from an export message as its length
    field says, without comparing it with the length of the message: a message
    that claims more than it carries makes the callback read beyond the
    receive buffer. *)
Theorem dpu_overread `{Padding} (o : oracle) (desc : list Z) (comch : comch_cfg) (cfg : dma_copy_cfg)
    (conn addr len : Z) (carried : list Z) :
  succeeding o desc -> conn <> 0 -> app_user_data comch <> 0 -> in_width 64 addr -> in_width 64 len ->
  0 < Z.of_nat (length carried) < len ->
  (run o (dpu_recv_event_cb comch cfg conn (export_msg (htonq true addr) (htonq true len) carried)) []).1 = UB.
Proof.
  intros Ho Hc Hu Ha Hl Hlen. unfold dpu_recv_event_cb.
  destruct (export_msg_spec (htonq true addr) (htonq true len) carried (ntohq_range _) (ntohq_range _))
    as (Hml & Htype & _ & Hdl & _).
  rewrite run_bind. destruct (user_data_found o desc comch conn [] Ho Hc) as (tr1 & -> & _).
  destruct (Z.eqb_spec (app_user_data comch) 0); [done|]. rewrite Hml, Htype.
  destruct (Z.ltb_spec (Z.of_nat (24 + length carried)) 4); [lia|].
  change (COMCH_MSG_EXPORT_DESCRIPTOR =? COMCH_MSG_DIRECTION) with false.
  change (COMCH_MSG_EXPORT_DESCRIPTOR =? COMCH_MSG_EXPORT_DESCRIPTOR) with true. cbv iota.
  destruct (Z.leb_spec (Z.of_nat (24 + length carried)) sizeof_export) as [H1|H1];
    [unfold sizeof_export in H1; lia|].
  rewrite run_bind. unfold dpu_process_export_descriptor. rewrite Hml, Hdl.
  assert (ntohq true (htonq true len) = len) as -> by (by apply ntohq_involutive).
  lin_simpl. cbn [run]. pose proof (ok_malloc _ _ Ho len tr1) as Hp.
  destruct (Z.eqb_spec (o _ tr1 (malloc len)) 0); [done|]. unfold sizeof_export.
  destruct (Z.ltb_spec (Z.of_nat (24 + length carried) - 24) len); [done|lia].
Qed.

Lemma dpu_overread_witness :
  (run steady (dpu_recv_event_cb a_server dpu_cfg 9 (export_msg (htonq true 8192) (htonq true 4096) [1])) []).1
    = UB.
Proof.
  apply (dpu_overread steady [1; 2; 3] a_server dpu_cfg 9 8192 4096 [1]); try done.
  apply steady_succeeding.
Defined.

(** * The command line of the DMA copy application *)

Section arguments.
Context `{DocaSizes}.

(** A string that fits its fixed-size field. *)
Definition field_ok (size : Z) (s : list Z) : Prop := Z.of_nat (length s) = size /\ strlen s < size.

(** The configuration the application relies on: sizes and counts within the
    limits (zero while unset), the statistics in step with the file size, and
    terminated addresses. *)
Definition cfg_ok (cfg : dma_copy_cfg) : Prop :=
  1 <= num_threads cfg <= 1024 /\ 0 <= file_size cfg <= MAX_FILE_SIZE /\
  stat_file_size (stat cfg) = file_size cfg /\ 0 <= ops (stat cfg) <= MAX_OPS /\
  field_ok DOCA_DEVINFO_PCI_ADDR_SIZE (cc_dev_pci_addr cfg) /\
  field_ok DOCA_DEVINFO_REP_PCI_ADDR_SIZE (cc_dev_rep_pci_addr cfg).

Lemma strlcpy_field dst src size : 0 < size -> field_ok size dst ->
  exists n dst', strlcpy dst src size = Ret (n, dst') /\ field_ok size dst'.
Proof using Type.
  intros Hs [Hl _]. rewrite strlcpy_writes by lia. set (t := take _ _).
  assert (length t <= Z.to_nat (size - 1))%nat as Ht by (unfold t; rewrite length_take; lia).
  do 2 eexists. split; [done|]. split.
  - rewrite length_app. simpl. rewrite length_drop. lia.
  - unfold strlen. rewrite cstr_app_nul by (apply Forall_take, cstr_nonzero). lia.
Qed.

(** A callback answers with a code and keeps the configuration well formed. *)
Definition callback_ok (cfg : dma_copy_cfg) (r : res (doca_error * dma_copy_cfg)) : Prop :=
  exists e cfg', r = Ret (e, cfg') /\ cfg_ok cfg' /\ mode cfg' = mode cfg /\
    is_sender cfg' = is_sender cfg /\ comch_state cfg' = comch_state cfg /\
    (e = DOCA_SUCCESS \/ (e = DOCA_ERROR_INVALID_VALUE /\ cfg' = cfg)).

Lemma rejected cfg : cfg_ok cfg -> callback_ok cfg (Ret (DOCA_ERROR_INVALID_VALUE, cfg)).
Proof using Type. intros Hc. do 2 eexists. split; [done|]. auto 10. Qed.

Lemma argument_callback_ok name value cfg :
  0 < DOCA_DEVINFO_PCI_ADDR_SIZE -> 0 < DOCA_DEVINFO_REP_PCI_ADDR_SIZE -> cfg_ok cfg ->
  callback_ok cfg (argument_callback name value cfg).
Proof using Type.
  intros Hp Hr Hc. pose proof Hc as (Ht & Hf & Hs & Ho & Hpci & Hrep).
  assert (callback_ok cfg (Ret (DOCA_SUCCESS, cfg))) as Hsame by (do 2 eexists; split; [done|]; auto 10).
  unfold argument_callback. destruct value as [n|s].
  - destruct (String.eqb _ _); [|destruct (String.eqb _ _); [|destruct (String.eqb _ _); [|done]]].
    + unfold file_size_callback. destruct (_ || _) eqn:E; [by apply rejected|].
      apply orb_false_iff in E as [E1%Z.ltb_ge E2%Z.ltb_ge].
      do 2 eexists. split; [done|]. unfold cfg_ok. simpl. split_and!; auto; lia.
    + unfold num_operations_callback. destruct (_ || _) eqn:E; [by apply rejected|].
      apply orb_false_iff in E as [E1%Z.ltb_ge E2%Z.ltb_ge].
      do 2 eexists. split; [done|]. unfold cfg_ok. simpl. split_and!; auto; lia.
    + unfold num_threads_callback. destruct (_ || _) eqn:E; [by apply rejected|].
      apply orb_false_iff in E as [E1%Z.ltb_ge E2%Z.ltb_ge].
      do 2 eexists. split; [done|]. unfold cfg_ok. simpl. split_and!; auto; lia.
  - destruct (String.eqb _ _); [|destruct (String.eqb _ _); [|done]].
    + unfold dev_pci_addr_callback. destruct (_ =? _); [by apply rejected|].
      destruct (strlcpy_field (cc_dev_pci_addr cfg) s _ Hp Hpci) as (n & dst & -> & Hd).
      do 2 eexists. split; [done|]. unfold cfg_ok. simpl. auto 20.
    + unfold rep_pci_addr_callback. case_bool_decide; [|done]. destruct (_ =? _); [by apply rejected|].
      destruct (strlcpy_field (cc_dev_rep_pci_addr cfg) s _ Hr Hrep) as (n & dst & -> & Hd).
      do 2 eexists. split; [done|]. unfold cfg_ok. simpl. auto 20.
Qed.

Lemma initial_cfg_ok arch_dpu : 0 < DOCA_DEVINFO_PCI_ADDR_SIZE -> 0 < DOCA_DEVINFO_REP_PCI_ADDR_SIZE ->
  cfg_ok (initial_cfg arch_dpu).
Proof using Type.
  assert (forall size, 0 < size -> field_ok size (replicate (Z.to_nat size) 0)) as Hz.
  { intros size Hs. split; [rewrite length_replicate; lia|]. destruct (Z.to_nat size) eqn:E; [lia|].
    unfold strlen. simpl. lia. }
  intros Hp Hr. unfold cfg_ok, initial_cfg, MAX_FILE_SIZE, MAX_OPS. simpl. split_and!; auto; lia.
Qed.

(** Whatever the command line, the configuration that [main] goes on with
    respects the limits: sizes, operation and thread counts in range, the
    statistics in step with the file size, and both PCI addresses terminated
    within their fields; out-of-range values are rejected with
    [DOCA_ERROR_INVALID_VALUE] and change nothing. No argument makes a callback
    write out of bounds, and none changes the side the program runs on. *)
Theorem arguments_checked (o : oracle) (args : list (string * arg_value)) (arch_dpu : bool) :
  0 < DOCA_DEVINFO_PCI_ADDR_SIZE -> 0 < DOCA_DEVINFO_REP_PCI_ADDR_SIZE ->
  exists e cfg', run o (apply_arguments args (initial_cfg arch_dpu)) [] = (Ret (e, cfg'), []) /\
    cfg_ok cfg' /\ (e = DOCA_SUCCESS \/ e = DOCA_ERROR_INVALID_VALUE) /\
    (mode cfg' = DMA_COPY_MODE_DPU <-> arch_dpu = true) /\ is_sender cfg' = negb arch_dpu /\
    comch_state cfg' = COMCH_NEGOTIATING.
Proof using Type.
  intros Hp Hr. cut (forall cfg, cfg_ok cfg -> exists e cfg',
    run o (apply_arguments args cfg) [] = (Ret (e, cfg'), []) /\ cfg_ok cfg' /\
    (e = DOCA_SUCCESS \/ e = DOCA_ERROR_INVALID_VALUE) /\ mode cfg' = mode cfg /\
    is_sender cfg' = is_sender cfg /\ comch_state cfg' = comch_state cfg).
  { intros Hall. destruct (Hall (initial_cfg arch_dpu)) as (e & cfg' & H1 & H2 & H3 & H4 & H5 & H6);
      [by apply initial_cfg_ok|].
    exists e, cfg'. rewrite H4, H5, H6. split_and!; [done|done|done|by destruct arch_dpu..]. }
  induction args as [|[name value] args IH]; intros cfg Hc; cbn [apply_arguments].
  { do 2 eexists. split; [done|]. auto 10. }
  rewrite run_bind.
  destruct (argument_callback_ok name value cfg Hp Hr Hc) as (e & cfg' & -> & Hc' & Hm & Hs & Hst & He).
  cbn [of_res run]. destruct (ok_spec e) as [->|Hne]; cbn [negb].
  - destruct (IH cfg' Hc') as (e2 & cfg2 & H1 & H2 & H3 & H4 & H5 & H6). exists e2, cfg2.
    rewrite H4, H5, H6. auto 10.
  - do 2 eexists. split; [done|]. destruct He as [?|[? _]]; [done|]. auto 10.
Qed.
End arguments.

#[local] Instance sizes : DocaSizes := Build_DocaSizes 64 256 128 8 8.

Definition named (name : string) (value : arg_value) : string * arg_value := (name, value).
Definition demo_args : list (string * arg_value) :=
  [named "file size" (ArgInt 4096); named "pci-addr" (ArgString [48; 51; 0])].

Lemma arguments_checked_witness :
  exists e cfg', run calm (apply_arguments demo_args
                             (initial_cfg true)) [] = (Ret (e, cfg'), []) /\
    cfg_ok cfg' /\ (e = DOCA_SUCCESS \/ e = DOCA_ERROR_INVALID_VALUE) /\
    (mode cfg' = DMA_COPY_MODE_DPU <-> true = true) /\ is_sender cfg' = negb true /\
    comch_state cfg' = COMCH_NEGOTIATING.
Proof.
  by apply (arguments_checked calm demo_args true).
Defined.
