(* ===== verification/Dma3.v ===== *)
(** * Dma3: the third DMA copy program, doca_dma_3/

    The host exports its buffers to files; the DPU imports them and copies
    with a pipeline of tasks per thread. This file translates dma_common.c,
    benchmark.c, dma_host_main.c and dma_dpu_main.c.

    [EXIT_ON_FAIL(e)] is a test of the result followed by the rest of the
    function. A structure reached through a pointer is threaded through the
    functions that change it; the start times that tasks point to live in a
    memory of their own ([memory]), so that using or freeing one after it was
    freed is undefined behaviour. The DPU program is built with
    [-DLATENCY_TEST], as its build file says. *)

From Stdlib Require String.
From stdpp Require Import gmap.
From S2P Require Import Prelude.
From S2P Require Import CUtils.
From S2P Require Import Doca.
From S2P Require Import Common.

(** ** Constants *)

Definition NUM_DMA_TASKS : Z := 4096.
Definition MAX_PAYLOAD : Z := 2097152.
Definition MAX_OPS : Z := 1000000000.
Definition MAX_WORKING_TASKS : Z := 4096.
Definition MAX_THREADS : Z := 128.
Definition RECV_BUF_SIZE : Z := 512.
Definition NANO : Z := 1000000000.
Definition ULLONG_MAX : Z := 2 ^ 64 - 1.

(** ** Structures *)

Record dma_cfg := Cfg {
  ops : Z;
  num_working_tasks : Z;
  num_threads : Z;
  payload : Z;
  local_pcie_addr : list Z (* char[16] *)
}.

Record dma_state := DmaState {
  dev : Z;
  local_mmap : Z;
  buf_inv : Z;
  pe : Z;
  buffer : Z;
  buffer_size : Z;
  buf_inv_size : Z;
  num_completed_tasks : Z
}.

(** An array of pointers: its address and its cells. *)
Record array := Array { addr : Z; cells : list Z }.

Record dma_resources := Resources {
  state_ptr : Z; (* the pointer [state] and what it points to *)
  state : dma_state;
  ctx : Z;
  dma_ctx : Z;
  buf_pair_idx : Z;
  src_bufs : array;
  dst_bufs : array;
  num_buf_pairs : Z;
  tasks : array;
  num_tasks : Z;
  remote_mmap : Z;
  thread_idx : Z;
  total_latency : timespec
}.

Definition set_dev s v := DmaState v (local_mmap s) (buf_inv s) (pe s) (buffer s) (buffer_size s)
  (buf_inv_size s) (num_completed_tasks s).
Definition set_local_mmap s v := DmaState (dev s) v (buf_inv s) (pe s) (buffer s) (buffer_size s)
  (buf_inv_size s) (num_completed_tasks s).
Definition set_buf_inv s v := DmaState (dev s) (local_mmap s) v (pe s) (buffer s) (buffer_size s)
  (buf_inv_size s) (num_completed_tasks s).
Definition set_pe s v := DmaState (dev s) (local_mmap s) (buf_inv s) v (buffer s) (buffer_size s)
  (buf_inv_size s) (num_completed_tasks s).
Definition set_buffer s v := DmaState (dev s) (local_mmap s) (buf_inv s) (pe s) v (buffer_size s)
  (buf_inv_size s) (num_completed_tasks s).
Definition set_buffer_size s v := DmaState (dev s) (local_mmap s) (buf_inv s) (pe s) (buffer s) v
  (buf_inv_size s) (num_completed_tasks s).
Definition set_num_completed s v := DmaState (dev s) (local_mmap s) (buf_inv s) (pe s) (buffer s)
  (buffer_size s) (buf_inv_size s) v.

Definition set_state r v := Resources (state_ptr r) v (ctx r) (dma_ctx r) (buf_pair_idx r) (src_bufs r)
  (dst_bufs r) (num_buf_pairs r) (tasks r) (num_tasks r) (remote_mmap r) (thread_idx r) (total_latency r).
Definition set_dma_ctx r d c := Resources (state_ptr r) (state r) c d (buf_pair_idx r) (src_bufs r)
  (dst_bufs r) (num_buf_pairs r) (tasks r) (num_tasks r) (remote_mmap r) (thread_idx r) (total_latency r).
Definition set_buf_pair_idx r v := Resources (state_ptr r) (state r) (ctx r) (dma_ctx r) v (src_bufs r)
  (dst_bufs r) (num_buf_pairs r) (tasks r) (num_tasks r) (remote_mmap r) (thread_idx r) (total_latency r).
Definition set_bufs r src dst := Resources (state_ptr r) (state r) (ctx r) (dma_ctx r) (buf_pair_idx r) src
  dst (num_buf_pairs r) (tasks r) (num_tasks r) (remote_mmap r) (thread_idx r) (total_latency r).
Definition set_tasks r v := Resources (state_ptr r) (state r) (ctx r) (dma_ctx r) (buf_pair_idx r)
  (src_bufs r) (dst_bufs r) (num_buf_pairs r) v (num_tasks r) (remote_mmap r) (thread_idx r) (total_latency r).
Definition set_remote_mmap r v := Resources (state_ptr r) (state r) (ctx r) (dma_ctx r) (buf_pair_idx r)
  (src_bufs r) (dst_bufs r) (num_buf_pairs r) (tasks r) (num_tasks r) v (thread_idx r) (total_latency r).
Definition set_total_latency r v := Resources (state_ptr r) (state r) (ctx r) (dma_ctx r) (buf_pair_idx r)
  (src_bufs r) (dst_bufs r) (num_buf_pairs r) (tasks r) (num_tasks r) (remote_mmap r) (thread_idx r) v.

(** [resources->state->num_completed_tasks++] *)
Definition count_completed (r : dma_resources) : dma_resources :=
  set_state r (set_num_completed (state r) (u64 (num_completed_tasks (state r) + 1))).

(** ** Loops and arrays *)

(** A loop whose body may return an error. *)
Fixpoint for_all {A S} (xs : list A) (s : S) (body : A -> S -> prog (doca_error * S))
  : prog (doca_error * S) :=
  match xs with
  | [] => Pure (DOCA_SUCCESS, s)
  | x :: xs =>
      '(status, s) ← body x s;
      if negb (ok status) then Pure (status, s) else for_all xs s body
  end.

(** [a[i]] and [a[i] = v]; out of bounds is undefined. *)
Definition array_get (a : array) (i : Z) : prog Z :=
  match cells a !! Z.to_nat i with Some x => Pure x | None => Crash end.

Definition array_set (a : array) (i v : Z) : prog array :=
  if decide (Z.to_nat i < length (cells a))%nat
  then Pure (Array (addr a) (<[Z.to_nat i := v]> (cells a))) else Crash.

(** [malloc] of [n] pointers for an array. The cells are created with zeros
    in place of their indeterminate contents. *)
Definition malloc_array (n : Z) : prog array :=
  p ← invoke (malloc (n * 8));
  Pure (Array p (if p =? 0 then [] else replicate (Z.to_nat n) 0)).

(** ** benchmark.c *)

Definition get_duration (start fin : timespec) : timespec :=
  Timespec (tv_sec fin - tv_sec start) (tv_nsec fin - tv_nsec start).

Definition timespec_add (lhs rhs : timespec) : timespec :=
  let lhs := Timespec (tv_sec lhs + tv_sec rhs) (tv_nsec lhs + tv_nsec rhs) in
  if NANO <=? tv_nsec lhs then Timespec (tv_sec lhs + 1) (tv_nsec lhs - NANO) else lhs.

Definition timespec_sub (lhs rhs : timespec) : timespec :=
  let lhs := Timespec (tv_sec lhs - tv_sec rhs) (tv_nsec lhs - tv_nsec rhs) in
  if tv_nsec lhs <? 0 then Timespec (tv_sec lhs - 1) (tv_nsec lhs + NANO) else lhs.

(** The file is opened, written and closed; the text printed to it, made of
    floating-point numbers, is not modelled. *)
Definition write_statistics_to_file (filename : list Z) : prog (res unit) :=
  file ← invoke (fopen_write filename);
  if file =? 0 then Pure (Exit EXIT_FAILURE 0) else
  _ ← invoke (fclose file);
  Pure (Ret tt).

(** ** Command line *)

Definition init_log_backend : prog doca_error :=
  status ← invoke doca_log_backend_create_standard;
  if negb (ok status) then Pure status else
  '(status, sdk_log) ← invoke doca_log_backend_create_with_file_sdk;
  if negb (ok status) then Pure status else
  status ← invoke (doca_log_backend_set_sdk_level sdk_log);
  if negb (ok status) then Pure status else
  Pure DOCA_SUCCESS.

(** [strncpy(dst, src, n)] *)
Definition strncpy (dst src : list Z) (n : Z) : res (list Z) :=
  let n := Z.to_nat n in
  if decide (n <= length dst)%nat
  then Ret (take n (cstr src ++ replicate n 0) ++ drop n dst) else UB.

Definition payload_callback (n : Z) (cfg : dma_cfg) : doca_error * dma_cfg :=
  if (MAX_PAYLOAD <? n) || (n <? 1) then (DOCA_ERROR_INVALID_VALUE, cfg)
  else (DOCA_SUCCESS, Cfg (ops cfg) (num_working_tasks cfg) (num_threads cfg) n (local_pcie_addr cfg)).

Definition num_ops_callback (n : Z) (cfg : dma_cfg) : doca_error * dma_cfg :=
  if (MAX_OPS <? n) || (n <? 1) then (DOCA_ERROR_INVALID_VALUE, cfg)
  else (DOCA_SUCCESS, Cfg n (num_working_tasks cfg) (num_threads cfg) (payload cfg) (local_pcie_addr cfg)).

Definition num_working_tasks_callback (n : Z) (cfg : dma_cfg) : doca_error * dma_cfg :=
  if (MAX_WORKING_TASKS <? n) || (n <? 1) then (DOCA_ERROR_INVALID_VALUE, cfg)
  else (DOCA_SUCCESS, Cfg (ops cfg) n (num_threads cfg) (payload cfg) (local_pcie_addr cfg)).

Definition num_threads_callback (n : Z) (cfg : dma_cfg) : doca_error * dma_cfg :=
  if (MAX_THREADS <? n) || (n <? 1) then (DOCA_ERROR_INVALID_VALUE, cfg)
  else (DOCA_SUCCESS, Cfg (ops cfg) (num_working_tasks cfg) n (payload cfg) (local_pcie_addr cfg)).

(** One parameter of [register_dma_params]. *)
Definition register_param (short_name long_name description callback : string)
    (is_int mandatory : bool) : prog doca_error :=
  '(status, param) ← invoke doca_argp_param_create;
  if negb (ok status) then Pure status else
  _ ← invoke (doca_argp_param_set_short_name param short_name);
  _ ← invoke (doca_argp_param_set_long_name param long_name);
  _ ← invoke (doca_argp_param_set_description param description);
  _ ← invoke (doca_argp_param_set_callback param callback);
  _ ← invoke (doca_argp_param_set_type param is_int);
  _ ← (if mandatory then invoke (doca_argp_param_set_mandatory param) else Pure tt);
  invoke (doca_argp_register_param param).

Definition register_dma_params (isdpu : bool) : prog doca_error :=
  status ← register_param "p" "pci-addr" "DOCA DMA device PCI address" "pci_callback" false true;
  if negb (ok status) then Pure status else
  status ← register_param "f" "payload" "DOCA DMA payload size (Bytes)" "payload_callback" true true;
  if negb (ok status) then Pure status else
  status ← register_param "t" "threads" "Number of threads" "num_threads_callback" true false;
  if negb (ok status) then Pure status else
  if isdpu then
    status ← register_param "o" "operations" "Total number of dma copy operations"
               "num_ops_callback" true true;
    if negb (ok status) then Pure status else
    status ← register_param "w" "working-tasks" "Number of working tasks"
               "num_working_tasks_callback" true true;
    if negb (ok status) then Pure status else
    Pure DOCA_SUCCESS
  else Pure DOCA_SUCCESS.

Section arguments.
Context `{DocaSizes}.

Definition pci_callback (param : list Z) (cfg : dma_cfg) : res (doca_error * dma_cfg) :=
  let addr_len := strnlen param DOCA_DEVINFO_PCI_ADDR_SIZE in
  if DOCA_DEVINFO_PCI_ADDR_SIZE <=? addr_len then Ret (DOCA_ERROR_INVALID_VALUE, cfg)
  else
    dst ← strncpy (local_pcie_addr cfg) param (addr_len + 1);
    Ret (DOCA_SUCCESS, Cfg (ops cfg) (num_working_tasks cfg) (num_threads cfg) (payload cfg) dst).

(** The callback registered under a long name, applied to a value of the
    registered type; the last two names are registered on the DPU only. *)
Definition argument_callback (isdpu : bool) (name : string) (value : arg_value) (cfg : dma_cfg)
  : res (doca_error * dma_cfg) :=
  match value with
  | ArgInt n =>
      if String.eqb name "payload" then Ret (payload_callback n cfg)
      else if String.eqb name "threads" then Ret (num_threads_callback n cfg)
      else if isdpu && String.eqb name "operations" then Ret (num_ops_callback n cfg)
      else if isdpu && String.eqb name "working-tasks" then Ret (num_working_tasks_callback n cfg)
      else Ret (DOCA_SUCCESS, cfg)
  | ArgString s =>
      if String.eqb name "pci-addr" then pci_callback s cfg else Ret (DOCA_SUCCESS, cfg)
  end.

(** What [doca_argp_start] does with the arguments: the callbacks in order up
    to the first error. *)
Fixpoint apply_arguments (isdpu : bool) (args : list (string * arg_value)) (cfg : dma_cfg)
  : prog (doca_error * dma_cfg) :=
  match args with
  | [] => Pure (DOCA_SUCCESS, cfg)
  | (name, value) :: args =>
      '(status, cfg) ← of_res (argument_callback isdpu name value cfg);
      if negb (ok status) then Pure (status, cfg) else apply_arguments isdpu args cfg
  end.

Definition init_argp (name : string) (cfg : dma_cfg) (is_dpu : bool) : prog (doca_error * dma_cfg) :=
  status ← invoke (doca_argp_init name);
  if negb (ok status) then Pure (status, cfg) else
  status ← register_dma_params is_dpu;
  if negb (ok status) then Pure (status, cfg) else
  '(status, args) ← invoke doca_argp_start;
  '(callback_status, cfg) ← apply_arguments is_dpu args cfg;
  if negb (ok callback_status) then Pure (callback_status, cfg) else
  if negb (ok status) then Pure (status, cfg) else
  Pure (DOCA_SUCCESS, cfg).
End arguments.

(** ** Buffers and core objects *)

Definition allocate_buffer (s : dma_state) : prog (doca_error * dma_state) :=
  p ← invoke (memalign 64 (buffer_size s));
  let s := set_buffer s p in
  if buffer s =? 0 then Pure (DOCA_ERROR_NO_MEMORY, s) else Pure (DOCA_SUCCESS, s).

(** The result holds [src_bufs] and [dst_bufs]. *)
Definition allocate_doca_bufs (s : dma_state) (remote_mmap remote_addr num_buf_pairs : Z)
    (src dst : array) : prog (doca_error * (array * array)) :=
  for_all (upto (Z.to_nat num_buf_pairs)) (src, dst) (fun i '(src, dst) =>
    '(status, b) ← invoke (doca_buf_inventory_buf_get_by_data (buf_inv s) remote_mmap remote_addr
                             (buffer_size s));
    src ← array_set src (Z.of_nat i) b;
    if negb (ok status) then Pure (status, (src, dst)) else
    '(status, b) ← invoke (doca_buf_inventory_buf_get_by_addr (buf_inv s) (local_mmap s) (buffer s)
                             (buffer_size s));
    dst ← array_set dst (Z.of_nat i) b;
    Pure (status, (src, dst))).

Definition free_dma_memcpy_task_buffers (dma_task : Z) : prog doca_error :=
  src ← invoke (doca_dma_task_memcpy_get_src dma_task);
  dst ← invoke (doca_dma_task_memcpy_get_dst dma_task);
  status ← invoke (doca_buf_dec_refcount src);
  if negb (ok status) then Pure status else
  status ← invoke (doca_buf_dec_refcount dst);
  if negb (ok status) then Pure status else
  Pure DOCA_SUCCESS.

Definition dma_task_free (dma_task : Z) : prog doca_error :=
  status ← free_dma_memcpy_task_buffers dma_task;
  if negb (ok status) then Pure status else
  _ ← invoke (doca_task_free dma_task);
  Pure DOCA_SUCCESS.

(** One round of the loop of [allocate_dma_tasks]. *)
Definition allocate_dma_task (i : nat) (r : dma_resources) : prog (doca_error * dma_resources) :=
  let user_data := buf_pair_idx r in
  src ← array_get (src_bufs r) (buf_pair_idx r);
  dst ← array_get (dst_bufs r) (buf_pair_idx r);
  '(status, task) ← invoke (doca_dma_task_memcpy_alloc_init_with (dma_ctx r) src dst user_data);
  a ← array_set (tasks r) (Z.of_nat i) task;
  let r := set_tasks r a in
  if negb (ok status) then Pure (status, r) else
  Pure (DOCA_SUCCESS, set_buf_pair_idx r (u32 (buf_pair_idx r + 1))).

Definition allocate_dma_tasks (r : dma_resources) (num_tasks : Z) : prog (doca_error * dma_resources) :=
  for_all (upto (Z.to_nat num_tasks)) r allocate_dma_task.

Definition check_dev_dma_capable (devinfo : Z) : prog doca_error :=
  status ← invoke (doca_dma_cap_task_memcpy_is_supported devinfo);
  if negb (ok status) then Pure status else Pure DOCA_SUCCESS.

(** The same function as in doca_dma/common.c. *)
Definition open_doca_device_with_pci (pci_addr : list Z) (func : tasks_check) : prog (doca_error * Z) :=
  let retval := 0 in
  '(res, (dev_list, devs)) ← invoke doca_devinfo_create_list;
  if negb (ok res) then Pure (res, retval)
  else
    search_devices (fun d =>
      '(res, is_addr_equal) ← invoke (doca_devinfo_is_equal_pci_addr d pci_addr);
      Pure (ok res && negb (is_addr_equal =? 0))) func dev_list devs retval.

Definition open_device (pcie_addr : list Z) (s : dma_state) : prog (doca_error * dma_state) :=
  '(status, d) ← open_doca_device_with_pci pcie_addr (Some check_dev_dma_capable);
  let s := set_dev s d in
  if negb (ok status) then Pure (status, s) else Pure (DOCA_SUCCESS, s).

Definition create_pe (s : dma_state) : prog (doca_error * dma_state) :=
  '(status, p) ← invoke doca_pe_create;
  let s := set_pe s p in
  if negb (ok status) then Pure (status, s) else Pure (DOCA_SUCCESS, s).

Definition create_mmap (s : dma_state) (access_flag : access_flags) : prog (doca_error * dma_state) :=
  '(status, m) ← invoke doca_mmap_create;
  let s := set_local_mmap s m in
  if negb (ok status) then Pure (status, s) else
  status ← invoke (doca_mmap_set_memrange (local_mmap s) (buffer s) (buffer_size s));
  if negb (ok status) then Pure (status, s) else
  status ← invoke (doca_mmap_add_dev (local_mmap s) (dev s));
  if negb (ok status) then Pure (status, s) else
  status ← invoke (doca_mmap_set_permissions (local_mmap s) access_flag);
  if negb (ok status) then Pure (status, s) else
  status ← invoke (doca_mmap_start (local_mmap s));
  if negb (ok status) then Pure (status, s) else
  Pure (DOCA_SUCCESS, s).

Definition create_buf_inventory (s : dma_state) : prog (doca_error * dma_state) :=
  '(status, i) ← invoke (doca_buf_inventory_create (buf_inv_size s));
  let s := set_buf_inv s i in
  if negb (ok status) then Pure (status, s) else
  status ← invoke (doca_buf_inventory_start (buf_inv s));
  if negb (ok status) then Pure (status, s) else
  Pure (DOCA_SUCCESS, s).

Definition create_dma_state (pcie_addr : list Z) (s : dma_state) : prog (doca_error * dma_state) :=
  '(status, s) ← open_device pcie_addr s;
  if negb (ok status) then Pure (status, s) else
  '(status, s) ← create_mmap s DOCA_ACCESS_FLAG_PCI_READ_WRITE;
  if negb (ok status) then Pure (status, s) else
  '(status, s) ← create_buf_inventory s;
  if negb (ok status) then Pure (status, s) else
  '(status, s) ← create_pe s;
  if negb (ok status) then Pure (status, s) else
  Pure (DOCA_SUCCESS, s).

(** The user data of the context is the pointer to the resources, here the
    index of their thread. The result of [doca_ctx_start] is ignored. *)
Definition create_dma_dpu_resources (pcie_addr : list Z) (r : dma_resources)
  : prog (doca_error * dma_resources) :=
  '(status, s) ← create_dma_state pcie_addr (state r);
  let r := set_state r s in
  if negb (ok status) then Pure (status, r) else
  '(status, d) ← invoke (doca_dma_create (dev (state r)));
  let r := set_dma_ctx r d (ctx r) in
  if negb (ok status) then Pure (status, r) else
  c ← invoke (doca_dma_as_ctx (dma_ctx r));
  let r := set_dma_ctx r (dma_ctx r) c in
  status ← invoke (doca_pe_connect_ctx (pe (state r)) (ctx r));
  if negb (ok status) then Pure (status, r) else
  status ← invoke (doca_dma_task_memcpy_set_conf (dma_ctx r) NUM_DMA_TASKS);
  if negb (ok status) then Pure (status, r) else
  status ← invoke (doca_ctx_set_user_data (ctx r) (thread_idx r));
  if negb (ok status) then Pure (status, r) else
  _ ← invoke (doca_ctx_start (ctx r));
  Pure (DOCA_SUCCESS, r).

Definition create_dma_host_state (pcie_addr : list Z) (s : dma_state) : prog (doca_error * dma_state) :=
  '(status, s) ← open_device pcie_addr s;
  if negb (ok status) then Pure (status, s) else
  '(status, s) ← create_mmap s DOCA_ACCESS_FLAG_PCI_READ_ONLY;
  if negb (ok status) then Pure (status, s) else
  Pure (DOCA_SUCCESS, s).

(** [if (p != NULL) { ... }] *)
Definition unless_null (p : Z) (body : prog unit) : prog unit := if negb (p =? 0) then body else Pure tt.

Definition dma_state_cleanup (s : dma_state) : prog unit :=
  _ ← unless_null (pe s) (invoke_ (doca_pe_destroy (pe s)));
  _ ← unless_null (buf_inv s)
        (_ ← invoke (doca_buf_inventory_stop (buf_inv s)); invoke_ (doca_buf_inventory_destroy (buf_inv s)));
  _ ← unless_null (local_mmap s)
        (_ ← invoke (doca_mmap_stop (local_mmap s)); invoke_ (doca_mmap_destroy (local_mmap s)));
  _ ← unless_null (dev s) (invoke_ (doca_dev_close (dev s)));
  unless_null (buffer s) (invoke_ (free (buffer s))).

(** [dma_state_cleanup] reads through [resources->state], before the pointer
    is compared with NULL. *)
Definition dma_resources_cleanup (r : dma_resources) : prog unit :=
  _ ← unless_null (ctx r) (invoke_ (doca_ctx_stop (ctx r)));
  _ ← unless_null (dma_ctx r) (invoke_ (doca_dma_destroy (dma_ctx r)));
  _ ← (if state_ptr r =? 0 then Crash else dma_state_cleanup (state r));
  unless_null (state_ptr r) (invoke_ (free (state_ptr r))).

(** ** Numbers as text *)

(** ["%d"] and ["%" PRIu64]: decimal, without leading zeros; 20 digits hold
    every 64-bit number. *)
Fixpoint decimal_digits (n : nat) (v : Z) : list Z :=
  match n with
  | O => []
  | S n => if v <? 10 then [48 + v] else decimal_digits n (v / 10) ++ [48 + v mod 10]
  end.
Definition decimal (v : Z) : list Z := decimal_digits 20 v.

Definition isspace (c : Z) : bool := (c =? 32) || ((9 <=? c) && (c <=? 13)).

Fixpoint skip_spaces (s : list Z) : list Z :=
  match s with
  | c :: s' => if isspace c then skip_spaces s' else s
  | [] => []
  end.

(** The value of a digit in any base up to 36. *)
Definition digit_value (c : Z) : option Z :=
  if (48 <=? c) && (c <=? 57) then Some (c - 48)
  else if (65 <=? c) && (c <=? 90) then Some (c - 55)
  else if (97 <=? c) && (c <=? 122) then Some (c - 87)
  else None.

(** The longest run of digits of [base], added to [acc]. *)
Fixpoint digits_value (base : Z) (s : list Z) (acc : Z) : Z :=
  match s with
  | c :: s =>
      match digit_value c with
      | Some d => if d <? base then digits_value base s (acc * base + d) else acc
      | None => acc
      end
  | [] => acc
  end.

Definition hex_digit_follows (s : list Z) : bool :=
  match s with c :: _ => match digit_value c with Some d => d <? 16 | None => false end | [] => false end.

(** Base 0: [0x] announces base 16, a leading [0] base 8; a single digit means
    the same in all of them. *)
Definition prefixed_value (s : list Z) : Z :=
  match s with
  | c :: x :: s' =>
      if negb (c =? 48) then digits_value 10 s 0
      else if ((x =? 120) || (x =? 88)) && hex_digit_follows s' then digits_value 16 s' 0
      else digits_value 8 s 0
  | _ => digits_value 10 s 0
  end.

(** [strtoull(s, NULL, 0)] *)
Definition strtoull (s : list Z) : Z :=
  let s := skip_spaces (cstr s) in
  let '(negative, s) :=
    match s with
    | c :: s' => if c =? 45 then (true, s') else if c =? 43 then (false, s') else (false, s)
    | [] => (false, s)
    end in
  let v := prefixed_value s in
  if ULLONG_MAX <? v then ULLONG_MAX else if negative : bool then u64 (- v) else v.

(** ** Exchange through files *)

Definition export_mmap_to_files (mmap dev src_buffer src_buffer_size : Z)
    (export_desc_file_path buffer_info_file_path : list Z) : prog doca_error :=
  '(status, export_desc) ← invoke (doca_mmap_export_pci mmap dev);
  if negb (ok status) then Pure status else
  let buffer_addr := u64 src_buffer in
  let buffer_len := u64 src_buffer_size in
  fp ← invoke (fopen_write export_desc_file_path);
  if fp =? 0 then Pure DOCA_ERROR_IO_FAILED else
  n ← invoke (fwrite fp export_desc);
  if negb (n =? Z.of_nat (length export_desc))
  then _ ← invoke (fclose fp); Pure DOCA_ERROR_IO_FAILED else
  _ ← invoke (fclose fp);
  fp ← invoke (fopen_write buffer_info_file_path);
  if fp =? 0 then Pure DOCA_ERROR_IO_FAILED else
  _ ← invoke (fprintf fp (decimal buffer_addr ++ [10]));
  _ ← invoke (fprintf fp (decimal buffer_len));
  _ ← invoke (fclose fp);
  Pure DOCA_SUCCESS.

(** The output parameters of [import_mmap_to_config]. *)
Record imported := Imported {
  export_desc : list Z; (* the caller's array *)
  export_desc_len : Z;
  remote_addr : Z;
  remote_addr_len : Z
}.

(** [fclose(fp); return DOCA_ERROR_IO_FAILED;] *)
Definition close_and_fail (fp : Z) (out : imported) : prog (doca_error * imported) :=
  _ ← invoke (fclose fp);
  Pure (DOCA_ERROR_IO_FAILED, out).

(** The second half: the address and the length, a line each. *)
Definition read_buffer_info (buffer_info_file_path : list Z) (out : imported)
  : prog (doca_error * imported) :=
  fp ← invoke (fopen buffer_info_file_path);
  if fp =? 0 then Pure (DOCA_ERROR_IO_FAILED, out) else
  line ← invoke (fgets fp RECV_BUF_SIZE);
  match line with
  | None => close_and_fail fp out
  | Some buffer =>
      let convert_value := strtoull buffer in
      if convert_value =? ULLONG_MAX then close_and_fail fp out else
      let out := Imported (export_desc out) (export_desc_len out) convert_value (remote_addr_len out) in
      line ← invoke (fgets fp RECV_BUF_SIZE);
      match line with
      | None => close_and_fail fp out
      | Some buffer =>
          let convert_value := strtoull buffer in
          if convert_value =? ULLONG_MAX then close_and_fail fp out else
          let out := Imported (export_desc out) (export_desc_len out) (remote_addr out) convert_value in
          _ ← invoke (fclose fp);
          Pure (DOCA_SUCCESS, out)
      end
  end.

Definition import_mmap_to_config (export_desc_file_path buffer_info_file_path : list Z) (out : imported)
  : prog (doca_error * imported) :=
  fp ← invoke (fopen export_desc_file_path);
  if fp =? 0 then Pure (DOCA_ERROR_IO_FAILED, out) else
  e ← invoke (fseek fp true);
  if negb (e =? 0) then close_and_fail fp out else
  file_size ← invoke (ftell fp);
  if file_size =? -1 then close_and_fail fp out else
  let file_size := if RECV_BUF_SIZE <? file_size then RECV_BUF_SIZE else file_size in
  let out := Imported (export_desc out) (u64 file_size) (remote_addr out) (remote_addr_len out) in
  e ← invoke (fseek fp false);
  if negb (e =? 0) then close_and_fail fp out else
  bytes ← invoke (fread fp file_size);
  if decide (length (export_desc out) < length bytes)%nat then Crash else
  let out := Imported (memcpy (export_desc out) bytes (length bytes)) (export_desc_len out)
               (remote_addr out) (remote_addr_len out) in
  if negb (Z.of_nat (length bytes) =? u64 file_size) then close_and_fail fp out else
  _ ← invoke (fclose fp);
  read_buffer_info buffer_info_file_path out.

(** ** The pipeline of tasks *)

(** The start times allocated by a thread. *)
Abbreviation memory := (gmap Z timespec).

Section pipeline.
(** What memory and variables hold before they are written. *)
Context (indeterminate : timespec).

(** [malloc(sizeof(struct timespec))] *)
Definition malloc_time (m : memory) : prog (Z * memory) :=
  p ← invoke (malloc 16);
  Pure (p, if p =? 0 then m else <[p := indeterminate]> m).

(** [clock_gettime(CLOCK_REALTIME, p)] *)
Definition read_clock_to (p : Z) (m : memory) : prog memory :=
  match m !! p with
  | None => Crash
  | Some _ =>
      t ← invoke clock_gettime;
      Pure (match t with Some (sec, nsec) => <[p := Timespec sec nsec]> m | None => m end)
  end.

(** [free(p)] *)
Definition free_time (p : Z) (m : memory) : prog memory :=
  if p =? 0 then _ ← invoke (free p); Pure m else
  match m !! p with
  | None => Crash
  | Some _ => _ ← invoke (free p); Pure (delete p m)
  end.

(** The result of [doca_task_submit] is ignored. *)
Fixpoint submit_tasks (ids : list nat) (tasks : array) (m : memory) : prog (doca_error * memory) :=
  match ids with
  | [] => Pure (DOCA_SUCCESS, m)
  | task_id :: ids =>
      '(task_start_time, m) ← malloc_time m;
      m ← read_clock_to task_start_time m;
      task ← array_get tasks (Z.of_nat task_id);
      _ ← invoke (doca_task_set_user_data task task_start_time);
      _ ← invoke (doca_task_submit task);
      submit_tasks ids tasks m
  end.

Definition submit_dma_tasks (num_tasks : Z) (tasks : array) (m : memory) : prog (doca_error * memory) :=
  submit_tasks (upto (Z.to_nat num_tasks)) tasks m.

Definition dma_task_resubmit (r : dma_resources) (m : memory) (dma_task time : Z)
  : prog (doca_error * (dma_resources * memory)) :=
  let status := DOCA_SUCCESS in
  if buf_pair_idx r <? num_buf_pairs r then
    src ← array_get (src_bufs r) (buf_pair_idx r);
    _ ← invoke (doca_dma_task_memcpy_set_src dma_task src);
    dst ← array_get (dst_bufs r) (buf_pair_idx r);
    _ ← invoke (doca_dma_task_memcpy_set_dst dma_task dst);
    let r := set_buf_pair_idx r (u32 (buf_pair_idx r + 1)) in
    m ← read_clock_to time m;
    status ← invoke (doca_task_submit dma_task);
    if negb (ok status) then
      _ ← invoke (doca_task_get_status dma_task);
      _ ← dma_task_free dma_task;
      Pure (status, (count_completed r, m))
    else Pure (status, (r, m))
  else
    m ← free_time time m;
    _ ← invoke (doca_task_free dma_task);
    Pure (status, (r, m)).

Definition dma_memcpy_completed_callback (dma_task task_user_data : Z) (r : dma_resources) (m : memory)
  : prog (dma_resources * memory) :=
  let task_start_time := task_user_data in
  t ← invoke clock_gettime;
  let task_end_time := match t with Some (sec, nsec) => Timespec sec nsec | None => indeterminate end in
  match m !! task_start_time with
  | None => Crash
  | Some start =>
      let task_end_time := timespec_sub task_end_time start in
      let r := set_total_latency r (timespec_add (total_latency r) task_end_time) in
      let r := count_completed r in
      _ ← free_dma_memcpy_task_buffers dma_task;
      '(_, s) ← dma_task_resubmit r m dma_task task_start_time;
      Pure s
  end.

(** The process ends with [exit(-1)]. *)
Definition dma_memcpy_error_callback (dma_task : Z) (r : dma_resources) : prog (res (dma_resources * memory)) :=
  _ ← invoke (doca_task_get_status dma_task);
  _ ← free_dma_memcpy_task_buffers dma_task;
  Pure (Exit (-1) 0).

(** The callbacks of one [doca_pe_progress]. *)
Fixpoint memcpy_callbacks (es : list pe_event) (r : dma_resources) (m : memory)
  : prog (res (dma_resources * memory)) :=
  match es with
  | [] => Pure (Ret (r, m))
  | EvMemcpyCompleted task data :: es =>
      '(r, m) ← dma_memcpy_completed_callback task data r m;
      memcpy_callbacks es r m
  | EvMemcpyError task _ :: _ => dma_memcpy_error_callback task r
  | _ :: es => memcpy_callbacks es r m
  end.

Fixpoint poll_for_completion (fuel : nat) (r : dma_resources) (m : memory) (num_tasks : Z)
  : prog (res (dma_resources * memory)) :=
  match fuel with
  | O => Spin
  | S fuel =>
      if num_completed_tasks (state r) <? num_tasks then
        '(_, es) ← invoke (doca_pe_progress (pe (state r)));
        x ← memcpy_callbacks es r m;
        match x with
        | Ret (r, m) => poll_for_completion fuel r m num_tasks
        | x => Pure x
        end
      else Pure (Ret (r, m))
  end.

Definition dma_copy_dpu_thread (fuel : nat) (r : dma_resources) : prog (res (dma_resources * memory)) :=
  '(_, m) ← submit_dma_tasks (num_tasks r) (tasks r) ∅;
  poll_for_completion fuel r m (num_buf_pairs r).
End pipeline.

(** ** Threads *)

(** One thread after the other, to the end. *)
Fixpoint one_by_one {A} (ps : list (prog (res A))) : prog (res (list A)) :=
  match ps with
  | [] => Pure (Ret [])
  | p :: ps =>
      x ← p;
      match x with
      | Ret a =>
          y ← one_by_one ps;
          Pure (match y with
                | Ret l => Ret (a :: l)
                | Exit c n => Exit c n
                | UB => UB
                | NoFuel => NoFuel
                end)
      | Exit c n => Pure (Exit c n)
      | UB => Crash
      | NoFuel => Spin
      end
  end.

(** Threads that run together: [sched] says whose turn it is to make a call,
    and the threads left at its end run one by one. [exit] in one thread ends
    the process. *)
Fixpoint interleave {A} (sched : list nat) (ps : list (prog (res A))) : prog (res (list A)) :=
  match sched with
  | [] => one_by_one ps
  | i :: sched =>
      match ps !! i with
      | Some (Call c k) => Call c (fun x => interleave sched (<[i := k x]> ps))
      | Some (Pure (Exit c n)) => Pure (Exit c n)
      | Some Crash => Crash
      | _ => interleave sched ps
      end
  end.

(** ** The programs *)

(** ["export_desc_%d.txt"] and ["buffer_info_%d.txt"] *)
Definition txt : list Z := [46; 116; 120; 116].
Definition export_desc_file_name (t : Z) : list Z :=
  [101; 120; 112; 111; 114; 116; 95; 100; 101; 115; 99; 95] ++ decimal t ++ txt.
Definition buffer_info_file_name (t : Z) : list Z :=
  [98; 117; 102; 102; 101; 114; 95; 105; 110; 102; 111; 95] ++ decimal t ++ txt.
(** "result.json" *)
Definition result_json : list Z := [114; 101; 115; 117; 108; 116; 46; 106; 115; 111; 110].

Definition sizeof_dma_state : Z := 64.
Definition sizeof_dma_resources : Z := 104.
Definition sizeof_pthread_t : Z := 8.

(** Memory from [calloc]. *)
Definition zero_state : dma_state := DmaState 0 0 0 0 0 0 0 0.
Definition zero_resources : dma_resources :=
  Resources 0 zero_state 0 0 0 (Array 0 []) (Array 0 []) 0 (Array 0 []) 0 0 0 time_zero.

Definition wait_for_dpu : prog unit :=
  server_fd ← invoke socket;
  _ ← invoke (bind server_fd 8080);
  _ ← invoke (listen server_fd 1);
  client_fd ← invoke (accept server_fd);
  _ ← invoke (close client_fd);
  invoke_ (close server_fd).

Definition signal_host : prog unit :=
  sock ← invoke socket;
  _ ← invoke (connect sock "192.168.98.75" 8080);
  invoke_ (close sock).

(** A loop over an array of structures: [body] works on one of them. *)
Definition for_each_of {S} (l : list S) (body : nat -> S -> prog (doca_error * S))
  : prog (doca_error * list S) :=
  for_all (upto (length l)) l (fun t l =>
    match l !! t with
    | None => Crash
    | Some s => '(status, s) ← body t s; Pure (status, <[t := s]> l)
    end).

(** A loop whose body cannot fail. *)
Fixpoint for_unit {A} (xs : list A) (body : A -> prog unit) : prog unit :=
  match xs with
  | [] => Pure tt
  | x :: xs => _ ← body x; for_unit xs body
  end.

Definition thread_count (cfg : dma_cfg) : Z := if num_threads cfg =? 0 then 1 else num_threads cfg.

(** One round of the first loop of [dma_copy_host]. *)
Definition host_export (cfg : dma_cfg) (t : nat) (s : dma_state) : prog (doca_error * dma_state) :=
  let s := set_buffer_size s (payload cfg) in
  '(status, s) ← allocate_buffer s;
  if negb (ok status) then Pure (status, s) else
  '(status, s) ← create_dma_host_state (local_pcie_addr cfg) s;
  if negb (ok status) then Pure (status, s) else
  status ← export_mmap_to_files (local_mmap s) (dev s) (buffer s) (buffer_size s)
             (export_desc_file_name (Z.of_nat t)) (buffer_info_file_name (Z.of_nat t));
  Pure (status, s).

(** The rest of [dma_copy_host], with the array of states at [p]. *)
Definition host_with_states (p : Z) (cfg : dma_cfg) : prog doca_error :=
  '(status, states) ← for_each_of (replicate (Z.to_nat (thread_count cfg)) zero_state) (host_export cfg);
  if negb (ok status) then Pure status else
  _ ← wait_for_dpu;
  _ ← for_unit states dma_state_cleanup;
  _ ← invoke (free p);
  Pure DOCA_SUCCESS.

Definition dma_copy_host (cfg : dma_cfg) : prog doca_error :=
  p ← invoke (calloc (thread_count cfg) sizeof_dma_state);
  if p =? 0 then Crash else host_with_states p cfg.

(** One round of the first loop of [dma_copy_dpu]. *)
Definition dpu_setup (cfg : dma_cfg) (indeterminate_len : Z) (t : nat) (r : dma_resources)
  : prog (doca_error * dma_resources) :=
  let num_threads := thread_count cfg in
  '(status, imp) ← import_mmap_to_config (export_desc_file_name (Z.of_nat t))
     (buffer_info_file_name (Z.of_nat t)) (Imported (replicate 1024 0) indeterminate_len 0 indeterminate_len);
  if negb (ok status) then Pure (status, r) else
  p ← invoke (calloc 1 sizeof_dma_state);
  if p =? 0 then Crash else
  let pairs := ops cfg / num_threads in
  let s := DmaState 0 0 0 0 0 (payload cfg) (u32 (pairs * 2)) 0 in
  src ← malloc_array pairs;
  dst ← malloc_array pairs;
  a ← malloc_array (num_working_tasks cfg);
  let r := Resources p s (ctx r) (dma_ctx r) (buf_pair_idx r) src dst pairs a (num_working_tasks cfg)
             (remote_mmap r) (Z.of_nat t) (total_latency r) in
  '(status, s) ← allocate_buffer (state r);
  let r := set_state r s in
  if negb (ok status) then Pure (status, r) else
  '(status, r) ← create_dma_dpu_resources (local_pcie_addr cfg) r;
  if negb (ok status) then Pure (status, r) else
  '(status, m) ← invoke (doca_mmap_create_from_export
                           (take (Z.to_nat (export_desc_len imp)) (export_desc imp)) (dev (state r)));
  let r := set_remote_mmap r m in
  if negb (ok status) then Pure (status, r) else
  '(status, (src, dst)) ← allocate_doca_bufs (state r) (remote_mmap r) (remote_addr imp)
                            (num_buf_pairs r) (src_bufs r) (dst_bufs r);
  let r := set_bufs r src dst in
  if negb (ok status) then Pure (status, r) else
  allocate_dma_tasks r (num_tasks r).

(** One round of the last loop of [dma_copy_dpu]. *)
Definition dpu_cleanup (r : dma_resources) : prog unit :=
  _ ← unless_null (remote_mmap r)
        (_ ← invoke (doca_mmap_stop (remote_mmap r)); invoke_ (doca_mmap_destroy (remote_mmap r)));
  _ ← dma_resources_cleanup r;
  _ ← invoke (free (addr (src_bufs r)));
  _ ← invoke (free (addr (dst_bufs r)));
  invoke_ (free (addr (tasks r))).

(** The latency is summed over the threads; what is computed from it and from
    the elapsed time only goes to the printed statistics. *)
Definition dma_copy_dpu (fuel : nat) (sched : list nat) (indeterminate : timespec) (indeterminate_len : Z)
    (cfg : dma_cfg) : prog (res doca_error) :=
  let num_threads := thread_count cfg in
  p ← invoke (calloc num_threads sizeof_dma_resources);
  if p =? 0 then Crash else
  '(status, rs) ← for_each_of (replicate (Z.to_nat num_threads) zero_resources)
                    (dpu_setup cfg indeterminate_len);
  if negb (ok status) then Pure (Ret status) else
  threads ← invoke (calloc num_threads sizeof_pthread_t);
  if threads =? 0 then Crash else
  _ ← invoke clock_gettime;
  x ← interleave sched (dma_copy_dpu_thread indeterminate fuel <$> rs);
  match x with
  | Ret rs =>
      let total_latency := foldl (fun l r => timespec_add l (total_latency r.1)) time_zero rs in
      _ ← invoke clock_gettime;
      w ← write_statistics_to_file result_json;
      match w with
      | Ret _ =>
          _ ← invoke (free threads);
          _ ← for_unit rs (fun r => dpu_cleanup r.1);
          _ ← invoke (free p);
          _ ← signal_host;
          Pure (Ret DOCA_SUCCESS)
      | Exit c n => Pure (Exit c n)
      | UB => Crash
      | NoFuel => Spin
      end
  | Exit c n => Pure (Exit c n)
  | UB => Crash
  | NoFuel => Spin
  end.

Section mains.
Context `{DocaSizes}.

Definition zero_cfg : dma_cfg := Cfg 0 0 0 0 (replicate 16 0).

(** The results of [init_log_backend] and [init_argp] are ignored, and that of
    the copy is only logged. *)
Definition host_main (arch_host : bool) : prog Z :=
  if negb arch_host then Pure EXIT_FAILURE else
  _ ← init_log_backend;
  '(_, cfg) ← init_argp "doca_dma_host" zero_cfg false;
  _ ← dma_copy_host cfg;
  Pure EXIT_SUCCESS.

Definition dpu_main (fuel : nat) (sched : list nat) (indeterminate : timespec) (indeterminate_len : Z)
    (arch_dpu : bool) : prog (res Z) :=
  if negb arch_dpu then Pure (Ret EXIT_FAILURE) else
  '(_, cfg) ← init_argp "doca_dma_dpu" zero_cfg true;
  x ← dma_copy_dpu fuel sched indeterminate indeterminate_len cfg;
  Pure (_ ← x; Ret EXIT_SUCCESS).
End mains.
