(* ===== verification/Dma3Pipeline.v ===== *)
(** * Dma3Pipeline: a DPU thread of doca_dma_3 copies everything once

    A thread of the DPU program keeps up to [num_tasks] copies in flight: every
    completion gives its buffers back and sends the task out again with the
    next pair of buffers, until all pairs were used. The contract of the
    library is [task_library]: which tasks are in flight, the buffers and the
    user data a task holds, memory, and what was released.

    The functions of the pipeline are verified against that contract, from
    the allocation of the tasks to the end of the polling loop of one thread. *)

From stdpp Require Import gmap.
From S2P Require Import Prelude.
From S2P Require Import Doca.
From S2P Require Import Dma3.

(** ** The contract *)

Record task_state := TaskState {
  flight : list Z;                    (* submitted and not completed *)
  srcs : gmap Z Z;                    (* the buffers a task holds *)
  dsts : gmap Z Z;
  user_data : gmap Z Z;
  live : gset Z;                      (* allocated memory *)
  attempts : list (Z * Z * bool);     (* submissions: buffers, and whether accepted *)
  released : list Z;                  (* buffers given back *)
  freed : list Z;                     (* tasks freed *)
  failed : bool;                      (* a task completed with an error *)
  waits : nat                         (* progress calls since the last event *)
}.

Definition event_task (e : pe_event) : list (Z * Z) :=
  match e with EvMemcpyCompleted t d | EvMemcpyError t d => [(t, d)] | _ => [] end.

Definition is_error (e : pe_event) : bool := match e with EvMemcpyError _ _ => true | _ => false end.

Definition rejected (g : task_state) : nat := length (filter (fun a => a.2 = false) (attempts g)).

Definition task_step {X} (g : task_state) (c : call X) : X -> task_state :=
  let upd fl ss ds us lv := TaskState fl ss ds us lv (attempts g) (released g) (freed g) (failed g) (waits g) in
  let out at_ re fr := TaskState (flight g) (srcs g) (dsts g) (user_data g) (live g) at_ re fr (failed g) (waits g) in
  match c in call X return X -> task_state with
  | malloc _ => fun p => upd (flight g) (srcs g) (dsts g) (user_data g) ({[p]} ∪ live g)
  | free p => fun _ => upd (flight g) (srcs g) (dsts g) (user_data g) (live g ∖ {[p]})
  | doca_dma_task_memcpy_alloc_init_with _ src dst data => fun r =>
      if ok r.1 then upd (flight g) (<[r.2 := src]> (srcs g)) (<[r.2 := dst]> (dsts g))
                       (<[r.2 := data]> (user_data g)) (live g)
      else g
  | doca_dma_task_memcpy_set_src t b => fun _ =>
      upd (flight g) (<[t := b]> (srcs g)) (dsts g) (user_data g) (live g)
  | doca_dma_task_memcpy_set_dst t b => fun _ =>
      upd (flight g) (srcs g) (<[t := b]> (dsts g)) (user_data g) (live g)
  | doca_task_set_user_data t d => fun _ =>
      upd (flight g) (srcs g) (dsts g) (<[t := d]> (user_data g)) (live g)
  | doca_task_submit t => fun e =>
      TaskState (if ok e then t :: flight g else flight g) (srcs g) (dsts g) (user_data g) (live g)
        (attempts g ++ [(srcs g !!! t, dsts g !!! t, ok e)]) (released g) (freed g) (failed g) (waits g)
  | doca_task_free t => fun _ => out (attempts g) (released g) (freed g ++ [t])
  | doca_buf_dec_refcount b => fun _ => out (attempts g) (released g ++ [b]) (freed g)
  | doca_pe_progress _ => fun r =>
      TaskState (filter (fun t => t ∉ (r.2 ≫= event_task).*1) (flight g)) (srcs g) (dsts g) (user_data g)
        (live g) (attempts g) (released g) (freed g) (failed g || existsb is_error r.2)
        (match r.2 with [] => S (waits g) | _ => 0%nat end)
  | _ => fun _ => g
  end.

(** How much is asked of the library beyond the contract: [Some n] asks that
    it accepts every submission and delivers an event at the latest after [n]
    progress calls without one, while a task that has its user data is in
    flight. *)
Section library.
Context (demand : option nat).

Definition prompt (g : task_state) (es : list pe_event) : Prop :=
  match demand with
  | Some n => es = [] -> Exists (fun t => is_Some (user_data g !! t)) (flight g) -> (waits g < n)%nat
  | None => True
  end.

Definition accepted (e : doca_error) : Prop :=
  match demand with Some _ => e = DOCA_SUCCESS | None => True end.

(** A new task or block is not one in use; a task holds what it was last given;
    a buffer that was not given back yet can be given back; progress delivers
    events of tasks in flight, each with the user data of the task. *)
Definition task_ok {X} (g : task_state) (c : call X) : X -> Prop :=
  match c in call X return X -> Prop with
  | malloc _ => fun p => p <> 0 -> p ∉ live g
  | doca_dma_task_memcpy_alloc_init_with _ _ _ _ => fun r => r.1 = DOCA_SUCCESS -> r.2 ∉ dom (srcs g)
  | doca_dma_task_memcpy_get_src t => fun b => b = srcs g !!! t
  | doca_dma_task_memcpy_get_dst t => fun b => b = dsts g !!! t
  | doca_buf_dec_refcount b => fun e => b ∉ released g -> e = DOCA_SUCCESS
  | doca_task_submit _ => accepted
  | doca_pe_progress _ => fun r =>
      Forall (fun e => exists t d, event_task e = [(t, d)] /\ t ∈ flight g /\ user_data g !! t = Some d) r.2 /\
      NoDup (r.2 ≫= event_task).*1 /\ prompt g r.2
  | _ => fun _ => True
  end.

#[export] Instance task_library : Library task_state := {
  lib_step X := @task_step X;
  lib_ok X := @task_ok X
}.

(** The same library on a machine that does not run out of memory. *)
Definition supplied_ok {X} (g : task_state) (c : call X) : X -> Prop :=
  match c in call X return X -> Prop with
  | malloc _ => fun p => p <> 0 /\ p ∉ live g
  | c => task_ok g c
  end.

Definition supplied_library : Library task_state := {|
  lib_step X := @task_step X;
  lib_ok X := @supplied_ok X
|}.
End library.

(** No [malloc] fails. *)
Definition ample (o : oracle) : Prop := forall tr n, o Z tr (malloc n) <> 0.

Lemma follows_supplied demand g o :
  follows (H := task_library demand) g o -> ample o -> follows (H := supplied_library demand) g o.
Proof.
  intros Ho Ha X tr c. specialize (Ho X tr c).
  change (lib_after (H := supplied_library demand) g tr) with (lib_after (H := task_library demand) g tr).
  destruct c; try exact Ho. split; [apply Ha|]. apply Ho, Ha.
Qed.

Definition no_tasks : task_state := TaskState [] ∅ ∅ ∅ ∅ [] [] [] false 0.

(** ** The invariant *)

Section invariant.
(** The buffers of a thread. *)
Context (SS DD : list Z).

Definition pair (i : nat) : list Z := [SS !!! i; DD !!! i].

Lemma all_pairs : length DD = length SS -> upto (length SS) ≫= pair ≡ₚ SS ++ DD.
Proof using Type.
  unfold pair. revert DD. induction SS as [|a ss IH]; intros [|b dd] Hl; try done.
  simpl in *. rewrite <- fmap_S_seq, list_fmap_bind, <- Permutation_middle. simpl.
  do 2 f_equiv. apply (IH dd). lia.
Qed.

(** [pend]: the tasks the program waits for, with the pair each one copies;
    [del]: those among them that are not in flight, because their completion
    was delivered and not handled yet, or because they were never accepted;
    [own]: the tasks the thread waits for or has freed; [k]: the number of
    pairs handed out. *)
Record inv (g : task_state) (m : memory) (pend : gmap Z nat) (del own : list Z) (k : nat) : Prop := Inv {
  i_bufs : map_Forall (fun t i => (i < k)%nat /\ srcs g !! t = SS !! i /\ dsts g !! t = DD !! i) pend;
  i_time t : t ∈ dom pend -> exists p, user_data g !! t = Some p /\ p <> 0 /\ is_Some (m !! p);
  i_inj t t' p : t ∈ dom pend -> t' ∈ dom pend ->
    user_data g !! t = Some p -> user_data g !! t' = Some p -> t = t';
  i_pend t : t ∈ dom pend <-> t ∈ flight g \/ t ∈ del;
  i_disjoint t : t ∈ flight g -> t ∉ del;
  i_nodup : NoDup del;
  i_live : dom m ⊆ live g;
  i_attempts : (attempts g).*1 = take k (zip SS DD);
  i_released : exists done, released g ≡ₚ done ≫= pair /\ done ++ (map_to_list pend).*2 ≡ₚ seq 0 k;
  i_own : freed g ++ (map_to_list pend).*1 ≡ₚ own
}.

(** The buffers of a pair that was not handed out yet, or that a task still
    holds, were not given back. *)
Lemma unreleased g m pend del own k i :
  inv g m pend del own k -> NoDup (SS ++ DD) -> length DD = length SS -> (k <= length SS)%nat -> (i < length SS)%nat ->
  (k <= i)%nat \/ (exists t, pend !! t = Some i) ->
  SS !!! i ∉ released g /\ DD !!! i ∉ released g ++ [SS !!! i].
Proof.
  intros Hi Hnd Hl Hk Hlt Hwhere. destruct (i_released _ _ _ _ _ _ Hi) as (dn & Hr & Hd).
  assert (forall j, j ∈ dn -> (j < length SS)%nat /\ j <> i) as Hdn.
  { intros j Hj. assert (j ∈ seq 0 k) as [_ Hjk]%elem_of_seq by (rewrite <- Hd; set_solver).
    split; [lia|]. intros ->. destruct Hwhere as [Hge|[t Ht]]; [lia|].
    assert (NoDup (dn ++ (map_to_list pend).*2)) as Hu by (rewrite Hd; apply NoDup_seq).
    apply NoDup_app in Hu as (_ & Hu & _). apply (Hu i Hj). apply list_elem_of_fmap.
    exists (t, i). split; [done|]. by apply elem_of_map_to_list. }
  apply NoDup_app in Hnd as (Hs & Hsd & Hdd).
  assert (forall l : list Z, NoDup l -> length l = length SS -> forall j, (j < length SS)%nat -> l !!! i = l !!! j -> j = i) as Hinj.
  { intros l Hn Hll j Hj E. eapply (NoDup_lookup l); [done|apply list_lookup_lookup_total_lt; lia|].
    rewrite <- E. apply list_lookup_lookup_total_lt. lia. }
  assert (forall j j', (j < length SS)%nat -> (j' < length SS)%nat -> SS !!! j <> DD !!! j') as Hne.
  { intros j j' Hj Hj' E. apply (Hsd (SS !!! j)).
    - eapply list_elem_of_lookup_2, list_lookup_lookup_total_lt. lia.
    - rewrite E. eapply list_elem_of_lookup_2, list_lookup_lookup_total_lt. lia. }
  rewrite not_elem_of_app, list_elem_of_singleton, Hr. unfold pair.
  split_and!; [intros (j & Hin & Hj)%list_elem_of_bind..|intros E; exact (Hne i i Hlt Hlt (eq_sym E))].
  all: destruct (Hdn j Hj) as [Hjl Hji]; apply elem_of_cons in Hin as [E|E%list_elem_of_singleton].
  - by apply Hji, (Hinj SS).
  - exact (Hne i j Hlt Hjl E).
  - exact (Hne j i Hjl Hlt (eq_sym E)).
  - by apply Hji, (Hinj DD).
Qed.

(** Writing to memory that is there. *)
Lemma inv_write g m pend del own k p v : inv g m pend del own k -> is_Some (m !! p) ->
  inv g (<[p := v]> m) pend del own k.
Proof.
  intros Hi Hp. destruct Hi as [H1 H2 H3 H4 H5 H6 H7 H8 H9 H10]. constructor; try done.
  - intros t Ht. destruct (H2 t Ht) as (q & Hq & Hq0 & Hm). exists q. split_and!; [done..|].
    apply lookup_insert_is_Some. destruct (decide (p = q)); auto.
  - rewrite dom_insert_lookup_L by done. done.
Qed.

(** The completion of [t] is handled: its buffers were given back. *)
Lemma inv_done g g' m pend del own k t i :
  inv g m pend (t :: del) own k -> pend !! t = Some i ->
  flight g' = flight g -> srcs g' = srcs g -> dsts g' = dsts g -> user_data g' = user_data g ->
  live g' = live g -> attempts g' = attempts g -> released g' = released g ++ pair i -> freed g' = freed g ->
  exists own', own ≡ₚ t :: own' /\ inv g' m (delete t pend) del own' k.
Proof.
  intros Hi Ht E1 E2 E3 E4 E5 E6 E7 E8. destruct Hi as [H1 H2 H3 H4 H5 H6 H7 H8 H9 H10].
  pose proof (map_to_list_delete pend t i Ht) as Hperm.
  apply NoDup_cons in H6 as [H6 H6'].
  exists (freed g ++ (map_to_list (delete t pend)).*1). split.
  { rewrite <- H10, <- Hperm, fmap_cons. symmetry. apply Permutation_middle. }
  constructor; rewrite ?E1, ?E2, ?E3, ?E4, ?E5, ?E6, ?E7, ?E8; try done.
  - by apply map_Forall_delete.
  - intros u. rewrite dom_delete_L. intros [Hu _]%elem_of_difference. by apply H2.
  - intros u u' p. rewrite dom_delete_L. intros [Hu _]%elem_of_difference [Hu' _]%elem_of_difference.
    by apply H3.
  - intros u. rewrite dom_delete_L, elem_of_difference, H4, elem_of_singleton, elem_of_cons.
    split; [tauto|]. intros [Hu|Hu].
    + split; [auto|]. intros ->. apply (H5 t Hu). by left.
    + split; [auto|]. by intros ->.
  - intros u Hu Hd. apply (H5 u Hu). by right.
  - destruct H9 as (dn & Hr & Hd). exists (dn ++ [i]). rewrite Hr, bind_app. simpl.
    split; [done|]. by rewrite <- Hd, <- Hperm, fmap_cons, <- (assoc_L (++)).
Qed.

(** [t] is sent out with the pair [k] and the start time at [p]. *)
Lemma inv_send g g' m pend del own k t p e :
  inv g m pend del own k -> (k < length SS)%nat -> length DD = length SS -> t ∉ dom pend ->
  p <> 0 -> is_Some (m !! p) -> (forall u, u ∈ dom pend -> user_data g !! u <> Some p) ->
  flight g' = (if ok e then t :: flight g else flight g) ->
  srcs g' = <[t := SS !!! k]> (srcs g) -> dsts g' = <[t := DD !!! k]> (dsts g) ->
  user_data g' = <[t := p]> (user_data g) -> live g' = live g ->
  attempts g' = attempts g ++ [(SS !!! k, DD !!! k, ok e)] ->
  released g' = released g -> freed g' = freed g ->
  inv g' m (<[t := k]> pend) (if ok e then del else t :: del) (t :: own) (S k).
Proof.
  intros Hi Hk Hl Ht Hp0 Hp Hfresh E1 E2 E3 E4 E5 E6 E7 E8. destruct Hi as [H1 H2 H3 H4 H5 H6 H7 H8 H9 H10].
  assert (pend !! t = None) as Htn by (by apply not_elem_of_dom).
  assert (forall u, u ∈ dom pend -> u <> t) as Hne by (by intros u Hu ->).
  constructor; rewrite ?E1, ?E2, ?E3, ?E4, ?E5, ?E6, ?E7, ?E8; try done.
  - apply map_Forall_insert; [done|]. rewrite !lookup_insert_eq. split.
    + rewrite !list_lookup_lookup_total_lt by lia. split_and!; [lia|done..].
    + intros u i Hu. destruct (H1 u i Hu) as (Hik & Hs & Hd).
      assert (t <> u) by (intros ->; congruence). rewrite !lookup_insert_ne by done. split_and!; [lia|done..].
  - intros u. rewrite dom_insert_L, elem_of_union, elem_of_singleton. intros [->|Hu].
    + exists p. by rewrite lookup_insert_eq.
    + rewrite lookup_insert_ne by (by apply not_eq_sym, Hne). by apply H2.
  - intros u u' q. rewrite dom_insert_L, !elem_of_union, !elem_of_singleton. intros Hu Hu'.
    destruct (decide (u = t)) as [->|Hu1], (decide (u' = t)) as [->|Hu2];
      rewrite ?lookup_insert_eq, ?lookup_insert_ne by done; intros; simplify_eq; try done.
    + destruct Hu'; [done|]. by edestruct (Hfresh u').
    + destruct Hu; [done|]. by edestruct (Hfresh u).
    + destruct Hu, Hu'; try done. by eapply H3.
  - intros u. rewrite dom_insert_L, elem_of_union, elem_of_singleton, H4.
    destruct (ok e); rewrite elem_of_cons; tauto.
  - intros u. destruct (ok e); rewrite elem_of_cons; [intros [->|Hu]|].
    + intros Hd. apply Ht, H4. auto.
    + by apply H5.
    + intros Hu [->|Hd]; [apply Ht, H4; auto|by apply (H5 u Hu)].
  - destruct (ok e); [done|]. apply NoDup_cons. split; [|done]. intros Hd. apply Ht, H4. auto.
  - rewrite fmap_app, H8. cbn [fmap list_fmap]. symmetry. apply take_S_r. apply lookup_zip_with_Some.
    exists (SS !!! k), (DD !!! k). rewrite !list_lookup_lookup_total_lt by lia. done.
  - destruct H9 as (dn & Hr & Hd). exists dn. split; [done|].
    rewrite map_to_list_insert, fmap_cons, seq_S, <- Hd, <- Permutation_middle by done.
    apply Permutation_cons_append.
  - rewrite map_to_list_insert, fmap_cons, <- Permutation_middle by done. by rewrite H10.
Qed.

(** [free] of a start time no task points to. *)
Lemma inv_free_time g g' m pend del own k p :
  inv g m pend del own k -> (forall u, u ∈ dom pend -> user_data g !! u <> Some p) ->
  flight g' = flight g -> srcs g' = srcs g -> dsts g' = dsts g -> user_data g' = user_data g ->
  live g' = live g ∖ {[p]} -> attempts g' = attempts g -> released g' = released g -> freed g' = freed g ->
  inv g' (delete p m) pend del own k.
Proof.
  intros Hi Hp E1 E2 E3 E4 E5 E6 E7 E8. destruct Hi as [H1 H2 H3 H4 H5 H6 H7 H8 H9 H10].
  constructor; rewrite ?E1, ?E2, ?E3, ?E4, ?E5, ?E6, ?E7, ?E8; try done.
  - intros u Hu. destruct (H2 u Hu) as (q & Hq & Hq0 & Hm). exists q. split_and!; [done..|].
    rewrite lookup_delete_ne; [done|]. intros ->. by apply (Hp u Hu).
  - rewrite dom_delete_L. by apply difference_mono_r.
Qed.

(** [doca_task_free] of a task that was given up. *)
Lemma inv_free_task g g' m pend del own k t :
  inv g m pend del own k ->
  flight g' = flight g -> srcs g' = srcs g -> dsts g' = dsts g -> user_data g' = user_data g ->
  live g' = live g -> attempts g' = attempts g -> released g' = released g -> freed g' = freed g ++ [t] ->
  inv g' m pend del (t :: own) k.
Proof.
  intros Hi E1 E2 E3 E4 E5 E6 E7 E8. destruct Hi.
  constructor; rewrite ?E1, ?E2, ?E3, ?E4, ?E5, ?E6, ?E7, ?E8; try done.
  rewrite <- (assoc_L (++)). simpl. rewrite <- Permutation_middle. by f_equiv.
Qed.

Lemma inv_perm g m pend del own own' k : own ≡ₚ own' ->
  inv g m pend del own k -> inv g m pend del own' k.
Proof. intros Hp []. constructor; try done. by rewrite <- Hp. Qed.
End invariant.

(** * A DPU thread of doca_dma_3 copies everything once *)

(** ** The functions *)

Definition give_back (g : task_state) (bs : list Z) : task_state :=
  TaskState (flight g) (srcs g) (dsts g) (user_data g) (live g) (attempts g) (released g ++ bs) (freed g)
    (failed g) (waits g).

Lemma count_completed_no_wrap r : 0 <= num_completed_tasks (state r) < 2 ^ 32 ->
  num_completed_tasks (state (count_completed r)) = num_completed_tasks (state r) + 1.
Proof. intros Hc. apply wrap_small. split; lia. Qed.

Section functions.
Context (demand : option nat) (spin : Prop) (indeterminate : timespec).
#[local] Existing Instance supplied_library.
Context (SS DD : list Z).
Context (Hlen : length DD = length SS) (Hmax : Z.of_nat (length SS) < 2 ^ 32).
Context (Hdistinct : NoDup (SS ++ DD)).
Abbreviation gwp := (gwp (H := supplied_library demand)).

Lemma free_buffers_gwp g t Q :
  srcs g !!! t ∉ released g -> dsts g !!! t ∉ released g ++ [srcs g !!! t] ->
  Q (give_back g [srcs g !!! t; dsts g !!! t]) DOCA_SUCCESS ->
  gwp spin (free_dma_memcpy_task_buffers t) g Q.
Proof.
  intros Hs1 Hd1 HQ. unfold free_dma_memcpy_task_buffers.
  gwp_ask src Hs. gwp_ask dst Hd. gwp_ask e1 H1. cbn in Hs, Hd. subst src dst. rewrite (H1 Hs1).
  gwp_ask e2 H2. rewrite (H2 Hd1). cbn.
  unfold give_back in HQ. by rewrite <- (assoc_L (++)).
Qed.

(** The state of a thread in its polling loop. *)
Record thread (g : task_state) (r : dma_resources) (m : memory) (pend : gmap Z nat) (del own : list Z)
  : Prop := Thread {
  t_inv : inv SS DD g m pend del own (Z.to_nat (buf_pair_idx r));
  t_idx : 0 <= buf_pair_idx r <= Z.of_nat (length SS);
  t_pairs : num_buf_pairs r = Z.of_nat (length SS);
  t_src : cells (src_bufs r) = SS;
  t_dst : cells (dst_bufs r) = DD;
  t_count : 0 <= num_completed_tasks (state r) /\
    num_completed_tasks (state r) + Z.of_nat (size pend) = buf_pair_idx r;
  t_mem : (size m <= size pend + rejected g)%nat;
  t_accepted : demand <> None -> rejected g = 0%nat;
  t_busy : demand <> None -> buf_pair_idx r < num_buf_pairs r -> pend <> ∅
}.

(** The parts of the library state that callbacks leave alone. *)
Definition callback_frame (g g' : task_state) : Prop :=
  user_data g' = user_data g /\ waits g' = waits g /\ failed g' = failed g.

Lemma array_get_gwp a l i Q g : cells a = l -> (Z.to_nat i < length l)%nat ->
  Q g (l !!! Z.to_nat i) -> gwp spin (array_get a i) g Q.
Proof.
  intros Ha Hi HQ. unfold array_get. rewrite Ha, list_lookup_lookup_total_lt by done. done.
Qed.

Lemma read_clock_gwp p m g Q : is_Some (m !! p) -> (forall v, Q g (<[p := v]> m)) ->
  gwp spin (read_clock_to p m) g Q.
Proof.
  intros [v Hv] HQ. unfold read_clock_to. rewrite Hv. gwp_ask t Ht. destruct t as [[sec nsec]|]; simpl; [done|].
  rewrite <- (insert_id m p v) by done. done.
Qed.

Lemma rejected_snoc g g' x b : attempts g' = attempts g ++ [(x, b)] ->
  rejected g' = (rejected g + if b then 0 else 1)%nat.
Proof.
  intros E. unfold rejected. rewrite E, filter_app, length_app. f_equal. by destruct b.
Qed.

(** What [dma_task_resubmit] starts from: a task [t] that the thread no longer
    waits for, with its start time at [p]; the others are as in [thread]. *)
Record returned (g : task_state) (r : dma_resources) (m : memory) (pend : gmap Z nat) (del own : list Z)
  (t p : Z) : Prop := Returned {
  b_inv : inv SS DD g m pend del own (Z.to_nat (buf_pair_idx r));
  b_idx : 0 <= buf_pair_idx r <= Z.of_nat (length SS);
  b_pairs : num_buf_pairs r = Z.of_nat (length SS);
  b_src : cells (src_bufs r) = SS;
  b_dst : cells (dst_bufs r) = DD;
  b_count : 0 <= num_completed_tasks (state r) /\
    num_completed_tasks (state r) + Z.of_nat (size pend) = buf_pair_idx r;
  b_mem : (size m <= size pend + 1 + rejected g)%nat;
  b_accepted : demand <> None -> rejected g = 0%nat;
  b_task : t ∉ dom pend;
  b_time : p <> 0 /\ is_Some (m !! p) /\ user_data g !! t = Some p;
  b_fresh u : u ∈ dom pend -> user_data g !! u <> Some p
}.

(** The task was sent out again, or the submission was refused. *)
Lemma sent_again g g' r m pend del own t p v e :
  returned g r m pend del own t p -> buf_pair_idx r < num_buf_pairs r ->
  let k := Z.to_nat (buf_pair_idx r) in
  let r' := set_buf_pair_idx r (u32 (buf_pair_idx r + 1)) in
  flight g' = (if ok e then t :: flight g else flight g) ->
  srcs g' = <[t := SS !!! k]> (srcs g) -> dsts g' = <[t := DD !!! k]> (dsts g) ->
  user_data g' = user_data g -> live g' = live g ->
  attempts g' = attempts g ++ [(SS !!! k, DD !!! k, ok e)] ->
  released g' = released g -> freed g' = freed g -> (demand <> None -> e = DOCA_SUCCESS) ->
  thread g' r' (<[p := v]> m) (<[t := k]> pend) (if ok e then del else t :: del) (t :: own).
Proof using Hlen Hmax.
  intros [Hi Hx Hn Hs Hd [Hc0 Hc] Hm Ha Ht (Hp0 & Hp & Htp) Hf] Hlt k r' E1 E2 E3 E4 E5 E6 E7 E8 He.
  assert (buf_pair_idx r' = buf_pair_idx r + 1) as Er by (apply wrap_small; split; lia).
  assert (size (<[t := k]> pend) = S (size pend)) as Esz
    by (apply map_size_insert_None; by apply not_elem_of_dom).
  pose proof (rejected_snoc g g' _ _ E6) as Erej.
  constructor; try done.
  - replace (Z.to_nat (buf_pair_idx r')) with (S k) by lia.
    eapply (inv_send _ _ g g' _ pend del own k t p e); try done;
      [by apply inv_write|lia|by apply lookup_insert_is_Some; left|by rewrite insert_id].
  - lia.
  - change (state r') with (state r). lia.
  - rewrite (map_size_insert_Some p v m), Esz, Erej by done. destruct (ok e); lia.
  - intros Hdm. rewrite Erej, Ha, He by done. done.
  - intros _ _. apply insert_non_empty.
Qed.

(** A refused task is freed and counted as done. *)
Lemma given_up g g' r m pend k del own t :
  thread g r m (<[t := k]> pend) (t :: del) own -> t ∉ dom pend -> demand = None ->
  flight g' = flight g -> srcs g' = srcs g -> dsts g' = dsts g -> user_data g' = user_data g ->
  live g' = live g -> attempts g' = attempts g ->
  released g' = released g ++ [srcs g !!! t; dsts g !!! t] -> freed g' = freed g ++ [t] ->
  (size m <= size pend + rejected g)%nat ->
  thread g' (count_completed r) m pend del own.
Proof using Hlen Hmax.
  intros [Hi Hx Hn Hs Hd [Hc0 Hc] Hm Ha Hb] Ht Hdm E1 E2 E3 E4 E5 E6 E7 E8 Hsm.
  assert (pend !! t = None) as Htn by (by apply not_elem_of_dom).
  rewrite map_size_insert_None in Hc, Hm by done.
  assert (pair SS DD k = [srcs g !!! t; dsts g !!! t]) as Ep.
  { destruct (i_bufs _ _ _ _ _ _ _ _ Hi t k) as (_ & H1 & H2); [by rewrite lookup_insert_eq|].
    unfold pair. by rewrite !list_lookup_total_alt, !lookup_total_alt, H1, H2. }
  destruct (inv_done SS DD g (give_back g (pair SS DD k)) m _ del own _ t k Hi) as (own' & Hown & Hi');
    [by rewrite lookup_insert_eq|done..|].
  rewrite delete_insert_id in Hi' by done.
  assert (rejected g' = rejected g) as Erej by (unfold rejected; by rewrite E6).
  constructor; try done.
  - eapply inv_perm; [symmetry; exact Hown|]. eapply inv_free_task; [exact Hi'|try done..].
    by rewrite E7, <- Ep.
  - rewrite count_completed_no_wrap by lia. change (buf_pair_idx (count_completed r)) with (buf_pair_idx r). lia.
  - by rewrite Erej.
Qed.

(** The last use of a task: all pairs were handed out. *)
Lemma retired g g' r m pend del own t p :
  returned g r m pend del own t p -> num_buf_pairs r <= buf_pair_idx r ->
  flight g' = flight g -> srcs g' = srcs g -> dsts g' = dsts g -> user_data g' = user_data g ->
  live g' = live g ∖ {[p]} -> attempts g' = attempts g -> released g' = released g ->
  freed g' = freed g ++ [t] ->
  thread g' r (delete p m) pend del (t :: own).
Proof using Hlen.
  intros [Hi Hx Hn Hs Hd [Hc0 Hc] Hm Ha Ht (Hp0 & Hp & Htp) Hf] Hge E1 E2 E3 E4 E5 E6 E7 E8.
  assert (rejected g' = rejected g) as Erej by (unfold rejected; by rewrite E6).
  pose proof (map_size_delete_Some _ _ Hp) as Esz.
  constructor; try done.
  - set (g1 := TaskState (flight g) (srcs g) (dsts g) (user_data g) (live g ∖ {[p]}) (attempts g)
                 (released g) (freed g) (failed g) (waits g)).
    eapply (inv_free_task _ _ g1); [by eapply (inv_free_time _ _ g g1)|done..].
  - rewrite Erej, Esz. lia.
  - by rewrite Erej.
  - lia.
Qed.

Lemma resubmit_gwp g r m pend del own t p : returned g r m pend del own t p ->
  gwp spin (dma_task_resubmit r m t p) g (fun g' x => exists pend',
    thread g' x.2.1 x.2.2 pend' del (t :: own) /\ callback_frame g g' /\
    num_completed_tasks (state r) <= num_completed_tasks (state x.2.1)).
Proof using Hlen Hmax Hdistinct.
  intros Hb. pose proof Hb as [Hi Hx Hn Hs Hd [Hc0 Hc] Hm Ha Ht (Hp0 & Hp & Htp) Hf].
  unfold dma_task_resubmit. destruct (Z.ltb_spec (buf_pair_idx r) (num_buf_pairs r)) as [Hlt|Hge].
  - apply gwp_bind. eapply array_get_gwp; [done|lia|]. gwp_ask u1 Hu1.
    apply gwp_bind. eapply array_get_gwp; [done|lia|]. gwp_ask u2 Hu2.
    apply gwp_bind. apply read_clock_gwp; [done|]. intros v. gwp_ask e He.
    set (g2 := lib_step _ (doca_task_submit t) e).
    assert (demand <> None -> e = DOCA_SUCCESS) as He'
      by (cbn in He; unfold accepted in He; by destruct demand).
    set (k := Z.to_nat (buf_pair_idx r)) in *.
    assert (attempts g2 = attempts g ++ [(SS !!! k, DD !!! k, ok e)]) as Eat
      by (cbn; by rewrite !lookup_total_insert_eq).
    pose proof (rejected_snoc g g2 _ _ Eat) as Erej.
    pose proof (sent_again g g2 r m pend del own t p v e Hb Hlt eq_refl eq_refl eq_refl eq_refl eq_refl
      Eat eq_refl eq_refl He') as Hthr.
    destruct (ok_spec e) as [->|Hne]; cbn [negb ok] in *.
    + by exists (<[t := k]> pend).
    + gwp_ask st Hst. apply gwp_bind. unfold dma_task_free. apply gwp_bind.
      destruct (unreleased SS DD g m pend del own _ k Hi Hdistinct Hlen ltac:(lia) ltac:(lia) ltac:(by left)) as [Hu1' Hu2'].
      apply free_buffers_gwp; [cbn; by rewrite lookup_total_insert_eq|cbn; by rewrite !lookup_total_insert_eq|].
      gwp_ask u3 Hu3. cbn [Doca.gwp fst snd]. exists pend. split_and!; [|done|].
      * assert (demand = None) as Hdn by (destruct demand; [by destruct Hne; apply He'|done]).
        eapply (given_up g2); [exact Hthr|try done..].
        rewrite (map_size_insert_Some p v m), Erej by done. lia.
      * rewrite count_completed_no_wrap; [|split]; cbn [set_buf_pair_idx state]; lia.
  - unfold free_time. destruct (Z.eqb_spec p 0); [done|]. destruct Hp as [v Hv]. rewrite Hv.
    gwp_ask u1 Hu1. gwp_ask u2 Hu2. exists pend. split_and!; [|done..]. by eapply (retired g).
Qed.

(** A delivered completion is handled. *)
Lemma completed_gwp g r m pend del own t d :
  thread g r m pend (t :: del) own -> user_data g !! t = Some d ->
  gwp spin (dma_memcpy_completed_callback indeterminate t d r m) g (fun g' x => exists pend',
    thread g' x.1 x.2 pend' del own /\ callback_frame g g' /\
    num_completed_tasks (state r) < num_completed_tasks (state x.1)).
Proof using Hlen Hmax Hdistinct.
  intros [Hi Hx Hn Hs Hd [Hc0 Hc] Hm Ha Hb] Hd'. unfold dma_memcpy_completed_callback.
  assert (t ∈ dom pend) as Ht by (apply (i_pend _ _ _ _ _ _ _ _ Hi); right; by left).
  destruct (i_time _ _ _ _ _ _ _ _ Hi t Ht) as (p & Hp & Hp0 & Hmp). rewrite Hp in Hd'. simplify_eq.
  apply elem_of_dom in Ht as [i Hti].
  gwp_ask t_end Hte. change (lib_step g clock_gettime t_end) with g. destruct Hmp as [start Hstart]. rewrite Hstart.
  set (r1 := count_completed _).
  assert (pair SS DD i = [srcs g !!! t; dsts g !!! t]) as Ep.
  { destruct (i_bufs _ _ _ _ _ _ _ _ Hi t i Hti) as (_ & H1 & H2).
    unfold pair. by rewrite !list_lookup_total_alt, !lookup_total_alt, H1, H2. }
  destruct (inv_done SS DD g (give_back g (pair SS DD i)) m _ del own _ t i Hi Hti) as (own' & Hown & Hi');
    [done..|].
  assert (num_completed_tasks (state r1) = num_completed_tasks (state r) + 1) as Ec
    by (apply (count_completed_no_wrap (set_total_latency r _)); cbn; lia).
  assert (size (delete t pend) = Nat.pred (size pend)) as Esz by (by apply map_size_delete_Some).
  assert (size pend <> 0)%nat as Hsz by (intros ?%map_size_empty_iff; simplify_map_eq).
  destruct (i_bufs _ _ _ _ _ _ _ _ Hi t i Hti) as (Hik & _).
  destruct (unreleased SS DD g m pend _ own _ i Hi Hdistinct Hlen ltac:(lia) ltac:(lia) ltac:(right; by exists t)) as [Hu1 Hu2].
  unfold pair in Ep. injection Ep as Ep1 Ep2.
  apply gwp_bind. apply free_buffers_gwp; [by rewrite <- Ep1|by rewrite <- Ep1, <- Ep2|]. rewrite <- Ep1, <- Ep2.
  change [SS !!! i; DD !!! i] with (pair SS DD i).
  eapply gwp_call.
  { apply (resubmit_gwp (give_back g (pair SS DD i)) r1 m (delete t pend) del own' t d).
    constructor; try done; try (rewrite Esz; change (rejected (give_back _ _)) with (rejected g); lia).
    - rewrite Ec, Esz. change (buf_pair_idx r1) with (buf_pair_idx r). lia.
    - by rewrite dom_delete_L, elem_of_difference, elem_of_singleton; tauto.
    - intros u. rewrite dom_delete_L, elem_of_difference, elem_of_singleton. intros [Hu Hne] Hup.
      apply Hne. eapply (i_inj _ _ _ _ _ _ _ _ Hi); [done| |done..]. by apply elem_of_dom. }
  intros g' [e [r' m']] (pend' & Hthr & Hfr & Hcnt). simpl in *. exists pend'. split_and!; [|done|lia].
  destruct Hthr. constructor; try done. by eapply inv_perm.
Qed.

Lemma callbacks_gwp es : forall g r m pend lost own,
  thread g r m pend ((es ≫= event_task).*1 ++ lost) own ->
  Forall (fun e => exists t d, event_task e = [(t, d)] /\ user_data g !! t = Some d) es ->
  gwp spin (memcpy_callbacks indeterminate es r m) g (fun g' x =>
    match x with
    | Ret s => exists pend', thread g' s.1 s.2 pend' lost own /\ callback_frame g g' /\
        existsb is_error es = false /\
        num_completed_tasks (state r) + Z.of_nat (length es) <= num_completed_tasks (state s.1)
    | Exit c _ => c = -1 /\ failed g' = failed g /\ existsb is_error es = true
    | _ => False
    end).
Proof using Hlen Hmax Hdistinct.
  induction es as [|e es IH]; intros g r m pend lost own Hthr Hes.
  { cbn. exists pend. split_and!; [done..|lia]. }
  apply Forall_cons in Hes as [(t & d & Ht & Hd) Hes]. rewrite bind_cons, Ht in Hthr. cbn in Hthr.
  destruct e as [| | | | | | |t' d'|t' d']; cbn in Ht; simplify_eq; cbn [memcpy_callbacks].
  - eapply gwp_call; [by eapply completed_gwp|]. intros g1 [r1 m1] (pend1 & Hthr1 & Hfr1 & Hc1).
    destruct Hfr1 as (Hu1 & Hw1 & Hf1). cbn in *. eapply gwp_mono; [eapply IH; [exact Hthr1|]|].
    { eapply Forall_impl; [exact Hes|]. intros e. by rewrite Hu1. }
    intros g2 [s2|c n| |]; [|by rewrite Hf1|done..]. intros (pend2 & Hthr2 & (Hu2 & Hw2 & Hf2) & He & Hc2).
    exists pend2. unfold callback_frame. rewrite Hu2, Hw2, Hf2. split_and!; [done..|lia].
  - unfold dma_memcpy_error_callback. gwp_ask st Hst. apply gwp_bind.
    destruct Hthr as [Hi Hx _ _ _ _ _ _ _]. assert (t ∈ dom pend) as [i Hti]%elem_of_dom.
    { apply (i_pend _ _ _ _ _ _ _ _ Hi). right. by left. }
    destruct (i_bufs _ _ _ _ _ _ _ _ Hi t i Hti) as (Hik & H1 & H2).
    destruct (unreleased SS DD g m pend _ own _ i Hi Hdistinct Hlen ltac:(lia) ltac:(lia) ltac:(right; by exists t)) as [Hu1 Hu2].
    rewrite !list_lookup_lookup_total_lt in H1, H2 by lia.
    apply free_buffers_gwp; rewrite ?(lookup_total_correct _ _ _ H1), ?(lookup_total_correct _ _ _ H2); done.
Qed.

(** One [doca_pe_progress]: the tasks of its events leave the flight. *)
Lemma thread_progress g g' r m pend lost own es :
  thread g r m pend lost own ->
  Forall (fun e => exists t d, event_task e = [(t, d)] /\ t ∈ flight g /\ user_data g !! t = Some d) es ->
  NoDup (es ≫= event_task).*1 ->
  flight g' = filter (fun t => t ∉ (es ≫= event_task).*1) (flight g) ->
  srcs g' = srcs g -> dsts g' = dsts g -> user_data g' = user_data g -> live g' = live g ->
  attempts g' = attempts g -> released g' = released g -> freed g' = freed g ->
  thread g' r m pend ((es ≫= event_task).*1 ++ lost) own.
Proof using Type.
  intros [Hi] Hes Hnd E1 E2 E3 E4 E5 E6 E7 E8.
  assert (forall t, t ∈ (es ≫= event_task).*1 -> t ∈ flight g) as Hfl.
  { intros t ([t' d'] & -> & Ht)%list_elem_of_fmap. apply list_elem_of_bind in Ht as (e & Ht & He).
    rewrite Forall_forall in Hes. destruct (Hes e He) as (t & d & Hed & Hf & _). rewrite Hed in Ht.
    by apply list_elem_of_singleton in Ht as [= -> ->]. }
  assert (rejected g' = rejected g) as Erej by (unfold rejected; by rewrite E6).
  constructor; rewrite ?Erej; try done. destruct Hi as [H1 H2 H3 H4 H5 H6 H7 H8 H9 H10].
  constructor; rewrite ?E1, ?E2, ?E3, ?E4, ?E5, ?E6, ?E7, ?E8; try done.
  - intros t. rewrite H4, list_elem_of_filter, elem_of_app.
    destruct (decide (t ∈ (es ≫= event_task).*1)) as [Ht|Ht]; [|tauto]. pose proof (Hfl t Ht). tauto.
  - intros t [Ht Hf]%list_elem_of_filter [?|Hl]%elem_of_app; [done|]. by apply (H5 t).
  - apply NoDup_app. split_and!; [done| |done]. intros t Ht. by apply H5, Hfl.
Qed.

(** When everything was counted nothing is left to wait for. *)
Lemma thread_finished g r m pend del own : thread g r m pend del own ->
  num_buf_pairs r <= num_completed_tasks (state r) ->
  pend = ∅ /\ del = [] /\ flight g = [] /\ buf_pair_idx r = num_buf_pairs r /\
  num_completed_tasks (state r) = num_buf_pairs r.
Proof using Hlen Hmax.
  intros [Hi Hx Hn Hs Hd [Hc0 Hc] Hm Ha Hb] Hge.
  assert (pend = ∅) as -> by (apply map_size_empty_inv; lia). rewrite map_size_empty in Hc.
  assert (forall t, ~ (t ∈ flight g \/ t ∈ del)) as Hno.
  { intros t. rewrite <- (i_pend _ _ _ _ _ _ _ _ Hi). rewrite dom_empty_L. apply not_elem_of_empty. }
  split_and!; [done| | |lia..].
  - destruct del as [|t del]; [done|]. destruct (Hno t). right. by left.
  - destruct (flight g) as [|t fl]; [done|]. destruct (Hno t). left. by left.
Qed.

(** What a thread has done when its loop ends. *)
Definition all_copied (own : list Z) (g : task_state) (s : dma_resources * memory) : Prop :=
  num_completed_tasks (state s.1) = num_buf_pairs s.1 /\ flight g = [] /\ failed g = false /\
  (attempts g).*1 = zip SS DD /\ released g ≡ₚ SS ++ DD /\ freed g ≡ₚ own /\
  (size s.2 <= rejected g)%nat /\ (demand <> None -> rejected g = 0%nat).

Lemma finished_copied g r m pend del own : thread g r m pend del own -> failed g = false ->
  num_buf_pairs r <= num_completed_tasks (state r) -> all_copied own g (r, m).
Proof using Hlen Hmax.
  intros Hthr Hf Hge. destruct (thread_finished _ _ _ _ _ _ Hthr Hge) as (-> & -> & Hfl & Hx & Hc).
  destruct Hthr as [Hi _ Hn _ _ _ Hm Ha _]. rewrite Hx, Hn, Nat2Z.id in Hi.
  destruct Hi as [_ _ _ _ _ _ _ H8 (dn & Hr & Hd) H10].
  rewrite map_to_list_empty in Hd, H10. rewrite app_nil_r in Hd, H10.
  unfold all_copied. cbn. split_and!; try done.
  - rewrite H8. apply take_ge. rewrite length_zip_with. lia.
  - rewrite Hr, Hd. by apply all_pairs.
Qed.

(** The fuel left, [fuel], against the fuel [total] the loop began with: an
    iteration either completes a task or uses up some patience. *)
Definition enough (total fuel : nat) (g : task_state) (r : dma_resources) : Prop :=
  forall n, demand = Some n ->
    (waits g <= n)%nat /\ (num_completed_tasks (state r) = num_buf_pairs r -> waits g = 0%nat) /\
    Z.of_nat total <= Z.of_nat fuel + num_completed_tasks (state r) * Z.of_nat (n + 1) + Z.of_nat (waits g).

(** While something is left to do a task is in flight. *)
Lemma in_flight g r m pend own : thread g r m pend [] own -> demand <> None ->
  num_completed_tasks (state r) < num_buf_pairs r ->
  Exists (fun t => is_Some (user_data g !! t)) (flight g).
Proof using Hlen.
  intros [Hi Hx Hn Hs Hd [Hc0 Hc] Hm Ha Hb] Hdm Hlt.
  assert (pend <> ∅) as Hne.
  { destruct (decide (buf_pair_idx r < num_buf_pairs r)); [by apply Hb|].
    intros ->. rewrite map_size_empty in Hc. lia. }
  apply map_choose in Hne as (t & i & Ht).
  assert (t ∈ dom pend) as Hd' by (by eapply elem_of_dom_2).
  destruct (i_time _ _ _ _ _ _ _ _ Hi t Hd') as (p & Hp & _).
  apply (i_pend _ _ _ _ _ _ _ _ Hi) in Hd'. destruct Hd' as [Hf|Hf]; [|inversion Hf].
  apply Exists_exists. eauto.
Qed.

(** An iteration with events keeps the measure, and so does one without. *)
Lemma enough_events total fuel g g' r r' : enough total (S fuel) g r -> waits g' = 0%nat ->
  num_completed_tasks (state r) < num_completed_tasks (state r') -> enough total fuel g' r'.
Proof using Type.
  clear Hlen Hmax. intros He Hw Hc n Hn. destruct (He n Hn) as (H1 & H2 & H3). rewrite Hw. split_and!; [lia|done|]. nia.
Qed.

Lemma enough_waiting total fuel g g' r : enough total (S fuel) g r -> waits g' = S (waits g) ->
  (forall n, demand = Some n -> (waits g < n)%nat) ->
  num_completed_tasks (state r) < num_buf_pairs r -> enough total fuel g' r.
Proof using Type.
  clear Hlen Hmax. intros He Hw Hlt Hc n Hn. destruct (He n Hn) as (H1 & H2 & H3). specialize (Hlt n Hn). rewrite Hw.
  split_and!; lia.
Qed.

Definition poll_post (own : list Z) (g : task_state) (x : res (dma_resources * memory)) : Prop :=
  match x with
  | Ret s => all_copied own g s
  | Exit c _ => c = -1 /\ failed g = true
  | _ => False
  end.

Lemma poll_gwp total fuel : forall g r m pend lost own,
  ((forall n, demand = Some n -> (total <= length SS * (n + 1))%nat) -> spin) ->
  thread g r m pend lost own -> failed g = false -> (demand <> None -> lost = []) ->
  enough total fuel g r ->
  gwp spin (poll_for_completion indeterminate fuel r m (num_buf_pairs r)) g (poll_post own).
Proof using Hlen Hmax Hdistinct.
  induction fuel as [|fuel IH]; intros g r m pend lost own Hspin Hthr Hf Hlost Hen;
    cbn [poll_for_completion].
  { apply Hspin. intros n Hdn. destruct (Hen n Hdn) as (Hw & Hw0 & He).
    destruct Hthr as [_ Hx Hn _ _ [Hc0 Hc] _ _ _].
    destruct (decide (num_completed_tasks (state r) = num_buf_pairs r)) as [E|E]; [rewrite Hw0 in He by done|]; nia. }
  destruct (Z.ltb_spec (num_completed_tasks (state r)) (num_buf_pairs r)) as [Hlt|Hge];
    [|by eapply finished_copied].
  gwp_ask ev Hev. destruct ev as [made es], Hev as (Hes & Hnd & Hpr). cbn [snd] in *.
  set (g1 := lib_step g (doca_pe_progress (pe (state r))) (made, es)).
  assert (thread g1 r m pend ((es ≫= event_task).*1 ++ lost) own) as Hthr1 by (by eapply thread_progress).
  destruct es as [|e es].
  { cbn. eapply IH; [done|exact Hthr1|cbn; by rewrite Hf|done|].
    eapply enough_waiting; [done..| |done]. intros n Hdn. unfold prompt in Hpr. rewrite Hdn in Hpr.
    apply Hpr; [done|]. eapply (in_flight g r); [|by rewrite Hdn|done].
    rewrite <- Hlost by (by rewrite Hdn). exact Hthr. }
  eapply gwp_call.
  { eapply (callbacks_gwp (e :: es) g1 r m pend lost own); [done|].
    eapply Forall_impl; [exact Hes|]. intros ev (t & d & He & _ & Hd'). by exists t, d. }
  intros g2 [[r2 m2]|c n| |]; [|intros (-> & Hf2 & He); split; [done|by rewrite Hf2; cbn in *; rewrite He, orb_true_r]|done..].
  intros (pend2 & Hthr2 & (_ & Hw2 & Hf2) & He & Hc2). cbn [fst snd length] in *.
  replace (num_buf_pairs r) with (num_buf_pairs r2)
    by (by rewrite (t_pairs _ _ _ _ _ _ Hthr2), (t_pairs _ _ _ _ _ _ Hthr)).
  eapply IH; [done|exact Hthr2| |done|].
  - rewrite Hf2. cbn in *. by rewrite Hf, He.
  - eapply enough_events; [done|by rewrite Hw2|lia].
Qed.

(** ** The first submissions *)

(** [l]: the tasks of the thread, of which the first [k] were submitted. *)
Record submitting (l : list Z) (g : task_state) (m : memory) (pend : gmap Z nat) (del : list Z) (k : nat)
  : Prop := Submitting {
  s_inv : inv SS DD g m pend del (take k l) k;
  s_bufs j t : l !! j = Some t -> srcs g !! t = SS !! j /\ dsts g !! t = DD !! j;
  s_del : demand <> None -> del = [];
  s_size : size pend = k;
  s_mem : (size m <= k)%nat;
  s_freed : freed g = [];
  s_accepted : demand <> None -> rejected g = 0%nat;
  s_quiet : failed g = false /\ waits g = 0%nat
}.

(** A new start time. *)
Lemma inv_malloc g g' m pend del own k p v : inv SS DD g m pend del own k -> p ∉ live g ->
  flight g' = flight g -> srcs g' = srcs g -> dsts g' = dsts g -> user_data g' = user_data g ->
  live g' = {[p]} ∪ live g -> attempts g' = attempts g -> released g' = released g -> freed g' = freed g ->
  inv SS DD g' (<[p := v]> m) pend del own k /\ m !! p = None /\
  (forall u, u ∈ dom pend -> user_data g' !! u <> Some p).
Proof using Type.
  intros Hi Hp E1 E2 E3 E4 E5 E6 E7 E8. destruct Hi as [H1 H2 H3 H4 H5 H6 H7 H8 H9 H10].
  assert (m !! p = None) as Hm.
  { apply not_elem_of_dom. intros Hd. by apply Hp, H7. }
  split_and!; [|done|].
  - constructor; rewrite ?E1, ?E2, ?E3, ?E4, ?E5, ?E6, ?E7, ?E8; try done.
    + intros t Ht. destruct (H2 t Ht) as (q & Hq & Hq0 & Hs). exists q. split_and!; [done..|].
      apply lookup_insert_is_Some. destruct (decide (p = q)); auto.
    + rewrite dom_insert_L. by apply union_mono_l.
  - intros u Hu. rewrite E4. destruct (H2 u Hu) as (q & Hq & _ & [w Hw]). rewrite Hq. intros [= ->]. congruence.
Qed.

Lemma submit_gwp l a n : cells a = l -> NoDup l -> (length l <= length SS)%nat -> forall g m pend del k,
  (k + n = length l)%nat -> submitting l g m pend del k ->
  gwp spin (submit_tasks indeterminate (seq k n) a m) g (fun g' x => exists pend' del',
    submitting l g' x.2 pend' del' (length l)).
Proof using Hlen.
  intros Ha Hnd Hls. induction n as [|n IH]; intros g m pend del k Hk Hsub; cbn [seq submit_tasks].
  { rewrite Nat.add_0_r in Hk. subst k. by exists pend, del. }
  destruct Hsub as [Hi Hb Hdel Hsz Hm Hfr Hrej Hq].
  destruct (lookup_lt_is_Some_2 l k) as [t Ht]; [lia|].
  destruct (Hb k t Ht) as [Hsrc Hdst]. rewrite !list_lookup_lookup_total_lt in Hsrc, Hdst by lia.
  unfold malloc_time. gwp_ask p Hp. destruct Hp as [Hp0 Hplive]. destruct (Z.eqb_spec p 0); [done|].
  set (g1 := lib_step g _ p).
  destruct (inv_malloc g g1 m pend del _ k p indeterminate Hi Hplive) as (Hi1 & Hmp & Hfresh); [done..|].
  apply gwp_bind. apply read_clock_gwp; [apply lookup_insert_is_Some; by left|]. intros v.
  rewrite insert_insert_eq. apply gwp_bind. eapply array_get_gwp; [exact Ha|rewrite Nat2Z.id; lia|].
  rewrite Nat2Z.id, (list_lookup_total_correct _ _ _ Ht).
  gwp_ask u1 Hu1. gwp_ask e He. set (g2 := lib_step _ (doca_task_submit t) e).
  assert (attempts g2 = attempts g ++ [(SS !!! k, DD !!! k, ok e)]) as Eat.
  { cbn. by rewrite (lookup_total_correct _ _ _ Hsrc), (lookup_total_correct _ _ _ Hdst). }
  assert (t ∉ dom pend) as Htp.
  { intros Hin. pose proof (i_own _ _ _ _ _ _ _ _ Hi) as Hown. rewrite Hfr in Hown. simpl in Hown.
    assert (t ∈ take k l) as Hin'.
    { rewrite <- Hown. apply elem_of_dom in Hin as [i Hin]. apply list_elem_of_fmap.
      exists (t, i). split; [done|]. by apply elem_of_map_to_list. }
    apply elem_of_take in Hin' as (j & Hj & Hjk).
    pose proof (NoDup_lookup _ _ _ _ Hnd Hj Ht). lia. }
  assert (demand <> None -> e = DOCA_SUCCESS) as He' by (cbn in He; unfold accepted in He; by destruct demand).
  apply (IH g2 _ (<[t := k]> pend) (if ok e then del else t :: del) (S k)); [lia|]. constructor; try done.
  - eapply (inv_perm _ _ _ _ _ _ (t :: take k l)).
    { rewrite (take_S_r _ _ _ Ht). apply Permutation_cons_append. }
    eapply (inv_send _ _ g1 g2 _ pend del _ k t p e); try done.
    + eapply (inv_write _ _ _ _ _ _ _ _ p v) in Hi1; [|apply lookup_insert_is_Some; by left].
      by rewrite insert_insert_eq in Hi1.
    + lia.
    + apply lookup_insert_is_Some. by left.
    + cbn. by rewrite insert_id.
    + cbn. by rewrite insert_id.
  - intros Hdm. by rewrite He', Hdel.
  - rewrite map_size_insert_None by (by apply not_elem_of_dom). by rewrite Hsz.
  - rewrite map_size_insert_None by done. lia.
  - intros Hdm. rewrite (rejected_snoc g g2 _ _ Eat), Hrej, He' by done. done.
Qed.

Lemma submitted_thread l g r m pend del : submitting l g m pend del (length l) ->
  (1 <= length l <= length SS)%nat -> buf_pair_idx r = Z.of_nat (length l) ->
  num_completed_tasks (state r) = 0 ->
  num_buf_pairs r = Z.of_nat (length SS) -> cells (src_bufs r) = SS -> cells (dst_bufs r) = DD ->
  thread g r m pend del l.
Proof using Type.
  clear Hlen Hmax. intros [Hi Hb Hdel Hsz Hm Hfr Hrej Hq] Hl Hx Hc Hn Hs Hd. rewrite take_ge in Hi by done.
  constructor; try done; [by rewrite Hx, Nat2Z.id|lia..|].
  intros _ _ ->. rewrite map_size_empty in Hsz. lia.
Qed.

(** The whole thread, from tasks that hold the first pairs. *)
Lemma thread_gwp fuel l g r :
  ((forall n, demand = Some n -> (fuel <= length SS * (n + 1))%nat) -> spin) ->
  submitting l g ∅ ∅ [] 0 -> NoDup l -> (1 <= length l <= length SS)%nat ->
  cells (tasks r) = l -> num_tasks r = Z.of_nat (length l) -> buf_pair_idx r = Z.of_nat (length l) ->
  num_completed_tasks (state r) = 0 ->
  num_buf_pairs r = Z.of_nat (length SS) -> cells (src_bufs r) = SS -> cells (dst_bufs r) = DD ->
  gwp spin (dma_copy_dpu_thread indeterminate fuel r) g (poll_post l).
Proof using Hlen Hmax Hdistinct.
  intros Hspin Hsub Hnd Hl Ht Hnt Hx Hc Hn Hs Hd. unfold dma_copy_dpu_thread, submit_dma_tasks.
  rewrite Hnt, Nat2Z.id. eapply gwp_call; [by eapply (submit_gwp l _ (length l)); [| |lia| |exact Hsub]|].
  intros g1 [e m] (pend & del & Hsub1). cbn [snd] in Hsub1.
  pose proof (submitted_thread l g1 r m pend del Hsub1 Hl Hx Hc Hn Hs Hd) as Hthr.
  destruct Hsub1 as [_ _ Hdel _ _ _ _ [Hf Hw]]. eapply poll_gwp; try done.
  intros n Hdn. rewrite Hw, Hc. split_and!; lia.
Qed.

(** ** Allocation of the tasks *)

(** The first [k] tasks of [l] were allocated and hold the first pairs. *)
Record allocated (l : list Z) (g : task_state) (k : nat) : Prop := Allocated {
  a_nodup : NoDup (take k l);
  a_dom t : t ∈ dom (srcs g) -> t ∈ take k l;
  a_bufs j t : (j < k)%nat -> l !! j = Some t -> srcs g !! t = SS !! j /\ dsts g !! t = DD !! j;
  a_idle : flight g = [] /\ attempts g = [] /\ released g = [] /\ freed g = [] /\ failed g = false /\
    waits g = 0%nat
}.

Lemma allocated_submitting l g : allocated l g (length l) -> NoDup l /\ submitting l g ∅ ∅ [] 0.
Proof using Type.
  intros [Hnd Hdom Hb (H1 & H2 & H3 & H4 & H5 & H6)]. rewrite take_ge in Hnd by done. split; [done|].
  constructor; try done.
  - constructor; rewrite ?H1, ?H2, ?H3, ?H4, ?dom_empty_L; try done.
    + intros t. split; [by intros ?%elem_of_empty|]. intros [Ht|Ht]; inversion Ht.
    + intros t Ht. inversion Ht.
    + constructor.
    + by exists [].
  - intros j t Hj. apply Hb; [|done]. by eapply lookup_lt_Some.
  - intros _. unfold rejected. by rewrite H2.
Qed.

(** The resources while tasks are allocated: [k] pairs are in use. *)
Definition allocating (r0 : dma_resources) (l : list Z) (k : nat) : dma_resources :=
  set_buf_pair_idx (set_tasks r0 (Array (addr (tasks r0)) l)) (Z.of_nat k).

Lemma allocate_step g g' l k task :
  allocated l g k -> (k < length l)%nat -> (k < length SS)%nat -> task ∉ dom (srcs g) ->
  srcs g' = <[task := SS !!! k]> (srcs g) -> dsts g' = <[task := DD !!! k]> (dsts g) ->
  flight g' = flight g -> attempts g' = attempts g -> released g' = released g -> freed g' = freed g ->
  failed g' = failed g -> waits g' = waits g ->
  allocated (<[k := task]> l) g' (S k).
Proof using Hlen.
  intros [Hnd Hdom Hb Hid] Hk Hks Hnew E1 E2 E3 E4 E5 E6 E7 E8.
  assert (forall j t, (j < k)%nat -> l !! j = Some t -> t <> task) as Hne.
  { intros j t Hj Ht ->. apply Hnew, elem_of_dom. destruct (Hb j task Hj Ht) as [-> _].
    apply lookup_lt_is_Some_2. lia. }
  assert (take (S k) (<[k := task]> l) = take k l ++ [task]) as Etk.
  { rewrite (take_S_r _ _ task) by (by apply list_lookup_insert_eq). by rewrite take_insert_ge. }
  constructor; rewrite ?Etk, ?E1, ?E2, ?E3, ?E4, ?E5, ?E6, ?E7, ?E8.
  - apply NoDup_app. split_and!; [done| |apply NoDup_singleton].
    intros t (j & Hj & Hjk)%elem_of_take ->%list_elem_of_singleton. by eapply Hne.
  - intros t. rewrite dom_insert_L, elem_of_union, elem_of_singleton, elem_of_app, list_elem_of_singleton.
    intros [->|Ht]; auto.
  - intros j t Hj Ht. destruct (decide (j = k)) as [->|Hjk].
    + rewrite list_lookup_insert_eq in Ht by done. simplify_eq.
      by rewrite !lookup_insert_eq, !list_lookup_lookup_total_lt by lia.
    + rewrite list_lookup_insert_ne in Ht by done.
      rewrite !lookup_insert_ne by (eapply not_eq_sym, Hne; [|exact Ht]; lia). apply Hb; [lia|done].
  - done.
Qed.

(** A loop with early return, by an invariant on the number of rounds. *)
Lemma for_all_gwp {A} (P : nat -> task_state -> A -> Prop) (body : nat -> A -> prog (doca_error * A)) n :
  forall k g s, P k g s ->
  (forall i g s, (k <= i < k + n)%nat -> P i g s ->
     gwp spin (body i s) g (fun g' x => x.1 = DOCA_SUCCESS -> P (S i) g' x.2)) ->
  gwp spin (for_all (seq k n) s body) g (fun g' x => x.1 = DOCA_SUCCESS -> P (k + n)%nat g' x.2).
Proof using Type.
  clear Hlen Hmax. induction n as [|n IH]; intros k g s Hs Hbody; cbn [seq for_all].
  { cbn. intros _. by rewrite Nat.add_0_r. }
  eapply gwp_call; [apply (Hbody k g s); [lia|exact Hs]|]. intros g' [e s'] He. cbn in He.
  destruct (ok_spec e) as [->|Hne]; cbn [negb]; [|by cbn].
  replace (k + S n)%nat with (S k + n)%nat by lia. apply IH; [by apply He|].
  intros i g2 s2 Hi. apply Hbody. lia.
Qed.

Lemma allocate_gwp g r0 l0 :
  cells (tasks r0) = l0 -> (length l0 <= length SS)%nat -> cells (src_bufs r0) = SS ->
  cells (dst_bufs r0) = DD -> buf_pair_idx r0 = 0 -> allocated l0 g 0 ->
  gwp spin (allocate_dma_tasks r0 (Z.of_nat (length l0))) g (fun g' x => x.1 = DOCA_SUCCESS ->
    exists l, length l = length l0 /\ allocated l g' (length l) /\ x.2 = allocating r0 l (length l)).
Proof using Hlen Hmax.
  intros Ht Hl Hs Hd Hx Hal. unfold allocate_dma_tasks. rewrite Nat2Z.id.
  eapply gwp_mono; [eapply (for_all_gwp (fun k g r => exists l, length l = length l0 /\ allocated l g k /\
      r = allocating r0 l k))|].
  - exists l0. split_and!; [done..|]. destruct r0 as [p s c d i sa da n [a ta] nt rm ti tl]. cbn in *.
    by subst.
  - intros k g1 r Hk (l & Hll & Hal1 & ->). unfold allocate_dma_task.
    apply gwp_bind. eapply array_get_gwp; [exact Hs|cbn; lia|].
    apply gwp_bind. eapply array_get_gwp; [exact Hd|cbn; lia|].
    cbn [allocating set_buf_pair_idx buf_pair_idx dma_ctx set_tasks tasks]. rewrite Nat2Z.id.
    gwp_ask a Ha. destruct a as [status task]. cbn [fst snd] in *.
    set (g2 := lib_step g1 _ (status, task)).
    unfold array_set. cbn [cells]. rewrite Nat2Z.id. destruct (decide _); [|lia].
    gwp_simpl. destruct (ok_spec status) as [->|Hne]; cbn [negb]; [|by cbn].
    cbn [Doca.gwp fst snd]. intros _. exists (<[k := task]> l). split_and!.
    + by rewrite length_insert.
    + eapply (allocate_step g1 g2); try done; [lia|by apply Ha].
    + unfold allocating. cbn. f_equal. rewrite wrap_small by (split; lia). lia.
  - intros g1 [e r] Hr He. cbn in *. destruct (Hr He) as (l & Hll & Hal1 & ->). exists l. by rewrite Hll.
Qed.
End functions.

(** ** One thread *)

(** What [dma_copy_dpu] prepares before tasks are allocated, when there are at
    least as many pairs of buffers as working tasks. *)
Definition prepared (r : dma_resources) : Prop :=
  buf_pair_idx r = 0 /\ num_completed_tasks (state r) = 0 /\
  num_buf_pairs r = Z.of_nat (length (cells (src_bufs r))) /\
  length (cells (dst_bufs r)) = length (cells (src_bufs r)) /\
  Z.of_nat (length (cells (src_bufs r))) < 2 ^ 32 /\
  num_tasks r = Z.of_nat (length (cells (tasks r))) /\
  (1 <= length (cells (tasks r)) <= length (cells (src_bufs r)))%nat /\
  NoDup (cells (src_bufs r) ++ cells (dst_bufs r)).

(** The tasks of a thread are allocated, then the thread runs. *)
Definition copy_all (indeterminate : timespec) (fuel : nat) (r : dma_resources)
  : prog (option (res (dma_resources * memory))) :=
  '(status, r) ← allocate_dma_tasks r (num_tasks r);
  if negb (ok status) then Pure None else
  x ← dma_copy_dpu_thread indeterminate fuel r;
  Pure (Some x).

Lemma no_tasks_allocated SS DD l : allocated SS DD l no_tasks 0.
Proof. constructor; simpl; try done; [constructor|lia]. Qed.

(** A thread whose tasks are allocated. *)
Definition started (r : dma_resources) (l : list Z) (g : task_state) : Prop :=
  exists r0, prepared r0 /\ length l = length (cells (tasks r0)) /\ r = allocating r0 l (length l) /\
    allocated (cells (src_bufs r0)) (cells (dst_bufs r0)) l g (length l).

Definition thread_done (demand : option nat) (r : dma_resources) (l : list Z) :=
  poll_post demand (cells (src_bufs r)) (cells (dst_bufs r)) l.

Definition spins (demand : option nat) (fuel : nat) (r : dma_resources) : Prop :=
  forall n, demand = Some n -> (fuel <= length (cells (src_bufs r)) * (n + 1))%nat.

Lemma started_gwp demand indeterminate fuel r l g : started r l g ->
  gwp (H := supplied_library demand) (spins demand fuel r) (dma_copy_dpu_thread indeterminate fuel r) g
    (thread_done demand r l).
Proof.
  intros (r0 & (Hx & Hc & Hn & Hd & Hmax & Ht & Hl & Hdis) & Hll & -> & Hal).
  destruct (allocated_submitting demand _ _ l g Hal) as [Hnd Hsub].
  apply thread_gwp; try done; cbn; [lia|]. by rewrite Ht, Hll.
Qed.

Lemma copy_all_gwp demand indeterminate fuel r : prepared r ->
  gwp (H := supplied_library demand) (spins demand fuel r) (copy_all indeterminate fuel r) no_tasks
    (fun g x => match x with
                | None => True
                | Some x => exists l, NoDup l /\ length l = length (cells (tasks r)) /\ thread_done demand r l g x
                end).
Proof.
  intros Hp. pose proof Hp as (Hx & Hc & Hn & Hd & Hmax & Ht & Hl & Hdis). unfold copy_all. rewrite Ht.
  eapply gwp_call; [eapply allocate_gwp; try done; [lia|apply no_tasks_allocated]|].
  intros g [status r1] Hr. cbn in Hr. destruct (ok_spec status) as [->|Hne]; cbn [negb]; [|done].
  destruct (Hr eq_refl) as (l & Hll & Hal & ->).
  destruct (allocated_submitting demand _ _ l g Hal) as [Hnd _].
  pose proof (started_gwp demand indeterminate fuel (allocating r l (length l)) l g) as Hs.
  eapply gwp_call; [apply Hs; by exists r|].
  intros g1 x Hx1. by exists l.
Qed.

(** C24: a thread of the DPU program, with at most as many working tasks as
    pairs of different buffers, on a machine where no [malloc] fails. When its
    polling loop ends, every pair of buffers was submitted exactly once and in
    order, the count is complete, no task is in flight and none has failed, so
    that the pairs whose submission was accepted were copied; every buffer was
    given back once, every task was freed once. A refused resubmission counts as
    done and is not copied, and one start time leaks at most for each of them.
    When the library accepts every submission and delivers a completion at the
    latest after [n] idle polls, nothing is refused, no start time leaks, and [N]
    pairs take at most [N * (n + 1) + 1] polls. The behaviour is never undefined:
    no start time is used or freed twice, no array is left. The only other ways
    out are a task that cannot be allocated and [exit(-1)] after a failed task. *)
Theorem pipeline_correct (demand : option nat) (indeterminate : timespec) (o : oracle) (fuel : nat)
    (r : dma_resources) :
  follows (H := task_library demand) no_tasks o -> ample o -> prepared r ->
  match run o (copy_all indeterminate fuel r) [] with
  | (Ret (Some (Ret (r', m))), tr) =>
      let g := lib_after (H := task_library demand) no_tasks tr in
      num_completed_tasks (state r') = num_buf_pairs r' /\ flight g = [] /\ failed g = false /\
      (attempts g).*1 = zip (cells (src_bufs r)) (cells (dst_bufs r)) /\
      released g ≡ₚ cells (src_bufs r) ++ cells (dst_bufs r) /\
      (exists l, NoDup l /\ length l = length (cells (tasks r)) /\ freed g ≡ₚ l) /\
      (size m <= rejected g)%nat /\ (demand <> None -> rejected g = 0%nat /\ m = ∅)
  | (Ret (Some (Exit c _)), tr) => c = -1 /\ failed (lib_after (H := task_library demand) no_tasks tr) = true
  | (Ret None, _) => True
  | (NoFuel, _) => forall n, demand = Some n -> (fuel <= length (cells (src_bufs r)) * (n + 1))%nat
  | _ => False
  end.
Proof.
  intros Ho Ha Hp. pose proof (gwp_run (H := supplied_library demand) _ no_tasks o _ _ (follows_supplied _ _ _ Ho Ha) []
    (copy_all_gwp demand indeterminate fuel r Hp)) as Hrun.
  destruct (run o (copy_all indeterminate fuel r) []) as [[[x|]| | |] tr]; try done.
  destruct Hrun as (l & Hnd & Hll & Hx). destruct x as [[r' m]|c n| |]; try done.
  destruct Hx as (H1 & H2 & H3 & H4 & H5 & H6 & H7 & H8). cbn. split_and!; try done; [by exists l|].
  intros Hd. split; [by apply H8|]. apply map_size_empty_inv. specialize (H8 Hd). cbn in H7. lia.
Qed.

(** ** An oracle that follows the contract *)

Definition next (S : gset Z) : Z := foldr Z.max 0 (elements S) + 1.

Lemma next_new S : (next S ∉ S) /\ next S <> 0.
Proof.
  assert (forall l x, x ∈ l -> x <= foldr Z.max 0 l) as Hle.
  { intros l. induction l as [|y l IH]; intros x Hx; inversion Hx; subst; simpl; [lia|].
    specialize (IH x). etransitivity; [by apply IH|lia]. }
  assert (forall l, 0 <= foldr Z.max 0 l) as H0 by (intros l; induction l; simpl; lia).
  unfold next. split; [|specialize (H0 (elements S)); lia].
  intros Hin%elem_of_elements%Hle. lia.
Qed.

(** The completion of a task in flight. *)
Fixpoint first_completion (us : gmap Z Z) (fl : list Z) : list pe_event :=
  match fl with
  | [] => []
  | t :: fl => match us !! t with Some d => [EvMemcpyCompleted t d] | None => first_completion us fl end
  end.

Lemma first_completion_ok us fl :
  Forall (fun e => exists t d, event_task e = [(t, d)] /\ t ∈ fl /\ us !! t = Some d) (first_completion us fl) /\
  NoDup (first_completion us fl ≫= event_task).*1 /\
  (first_completion us fl = [] -> ~ Exists (fun t => is_Some (us !! t)) fl).
Proof.
  induction fl as [|t fl (IH1 & IH2 & IH3)]; simpl.
  { split_and!; [constructor|constructor|]. intros _ H. inversion H. }
  destruct (us !! t) as [d|] eqn:Ht.
  - split_and!; [|simpl; apply NoDup_singleton|done]. constructor; [|done]. exists t, d. by split_and!; [|left|].
  - split_and!; [|done|].
    + eapply Forall_impl; [exact IH1|]. intros e (t' & d & He & Hin & Hd). exists t', d. by split_and!; [|right|].
    + intros Hnil. rewrite Exists_cons, Ht. intros [[? ?]|H]; [done|]. by apply IH3.
Qed.

(** Every call succeeds, and a poll completes a task. *)
Definition copies : oracle := fun X tr c =>
  let g := lib_after (H := task_library None) no_tasks tr in
  match c in call X return X with
  | malloc _ => next (live g)
  | doca_dma_task_memcpy_alloc_init_with _ _ _ _ => (DOCA_SUCCESS, next (dom (srcs g)))
  | doca_dma_task_memcpy_get_src t => srcs g !!! t
  | doca_dma_task_memcpy_get_dst t => dsts g !!! t
  | doca_pe_progress _ => (1, first_completion (user_data g) (flight g))
  | c => all_ok (fun _ => []) (fun _ => CTX_IDLE) _ tr c
  end.

Lemma copies_follows demand : follows (H := task_library demand) no_tasks copies.
Proof.
  intros X tr c. change (lib_after (H := task_library demand) no_tasks tr)
    with (lib_after (H := task_library None) no_tasks tr).
  destruct c; cbn; try done.
  - intros _. apply next_new.
  - destruct (first_completion_ok (user_data (lib_after (H := task_library None) no_tasks tr))
      (flight (lib_after (H := task_library None) no_tasks tr))) as (H1 & H2 & H3).
    split_and!; [done|done|]. unfold prompt. destruct demand; [|done]. intros Hnil. by apply H3 in Hnil.
  - unfold accepted. by destruct demand.
  - intros _. apply next_new.
Qed.

Lemma copies_ample : ample copies.
Proof. intros tr n. apply next_new. Qed.

(** Three pairs of buffers and two working tasks. *)
Definition demo : dma_resources :=
  Resources 1 zero_state 2 3 0 (Array 4 [11; 12; 13]) (Array 5 [21; 22; 23]) 3 (Array 6 [0; 0]) 2 7 0 time_zero.

Lemma demo_prepared : prepared demo.
Proof. unfold prepared. cbn. split_and!; try lia; try done. by apply (bool_decide_unpack _); vm_compute. Qed.

Lemma pipeline_correct_witness :
  match run copies (copy_all time_zero 5 demo) [] with
  | (Ret (Some (Ret (r', m))), tr) =>
      let g := lib_after (H := task_library (Some 0%nat)) no_tasks tr in
      num_completed_tasks (state r') = 3 /\ m = ∅ /\ released g ≡ₚ [11; 12; 13] ++ [21; 22; 23] /\
      (attempts g).*1 = [(11, 21); (12, 22); (13, 23)]
  | _ => False
  end.
Proof.
  pose proof (pipeline_correct (Some 0%nat) time_zero copies 5 demo (copies_follows _) copies_ample demo_prepared) as H.
  assert (match run copies (copy_all time_zero 5 demo) [] with
          | (Ret (Some (Ret (r', _))), _) => num_completed_tasks (state r') = 3
          | _ => False
          end) as HR by (vm_compute; done).
  revert H HR. generalize (run copies (copy_all time_zero 5 demo) []).
  intros [[[[[r' m]| | |]|]| | |] tr]; try done. intros (_ & _ & _ & H4 & H5 & _ & _ & H8) HR.
  split_and!; try done. by apply H8.
Defined.
