(* ===== verification/Dma3Files.v ===== *)
(** * Dma3Files: what the host exports is what the DPU imports

    The two programs of doca_dma_3 exchange the descriptor of a memory map and
    the address and length of its buffer through two files. The contract of
    the C library on files is [file_library]; against it, importing what was
    exported gives the same values back. *)

From stdpp Require Import gmap.
From S2P Require Import Prelude.
From S2P Require Import Doca.
From S2P Require Import Dma3.

(** ** Decimal text *)

Lemma digits_value_app base xs ys acc :
  Forall (fun c => exists d, digit_value c = Some d /\ d < base) xs ->
  digits_value base (xs ++ ys) acc = digits_value base ys (digits_value base xs acc).
Proof.
  intros Hx. revert acc. induction Hx as [|c xs (d & Hd & Hb) _ IH]; intros acc; simpl; [done|].
  rewrite Hd. destruct (Z.ltb_spec d base); [apply IH|lia].
Qed.

Lemma digit_value_decimal d : 0 <= d < 10 -> digit_value (48 + d) = Some d.
Proof.
  intros Hd. unfold digit_value. destruct (_ && _) eqn:E; [f_equal; lia|].
  apply andb_false_iff in E as [E|E]; lia.
Qed.

Definition is_digit (c : Z) : Prop := 48 <= c <= 57.

Lemma decimal_digits_spec n : forall v, 0 <= v < 10 ^ Z.of_nat n -> (0 < n)%nat ->
  Forall is_digit (decimal_digits n v) /\ (1 <= length (decimal_digits n v) <= n)%nat /\
  digits_value 10 (decimal_digits n v) 0 = v /\
  (v = 0 -> decimal_digits n v = [48]) /\ (v <> 0 -> head (decimal_digits n v) <> Some 48).
Proof.
  induction n as [|n IH]; intros v Hv Hn; [lia|]. cbn [decimal_digits].
  destruct (Z.ltb_spec v 10) as [Hlt|Hge].
  - split_and!; cbn [length digits_value head]; try lia.
    + constructor; [unfold is_digit; lia|done].
    + rewrite digit_value_decimal by lia. destruct (Z.ltb_spec v 10); lia.
    + intros ->. done.
    + intros Hne [= E]. lia.
  - rewrite Nat2Z.inj_succ, Z.pow_succ_r in Hv by lia.
    assert (0 <= v / 10 < 10 ^ Z.of_nat n) as Hd
      by (split; [apply Z.div_pos; lia|apply Z.div_lt_upper_bound; lia]).
    assert (0 < n)%nat as Hn' by (destruct n; [cbn in Hd|]; lia).
    pose proof (Z.mod_pos_bound v 10 ltac:(lia)) as Hm. pose proof (Z.div_mod v 10 ltac:(lia)) as Hdm.
    destruct (IH _ Hd Hn') as (H1 & H2 & H3 & H4 & H5).
    assert (1 <= v / 10) as Hq by (apply Z.div_le_lower_bound; lia).
    split_and!.
    + apply Forall_app. split; [done|]. constructor; [unfold is_digit; lia|done].
    + rewrite length_app. simpl. lia.
    + rewrite length_app. simpl. lia.
    + rewrite digits_value_app.
      * rewrite H3. cbn [digits_value]. rewrite digit_value_decimal by lia.
        destruct (Z.ltb_spec (v mod 10) 10); lia.
      * eapply Forall_impl; [exact H1|]. intros c Hc. exists (c - 48).
        replace c with (48 + (c - 48)) at 1 by lia. unfold is_digit in Hc.
        split; [apply digit_value_decimal; lia|lia].
    + lia.
    + intros _. destruct (decimal_digits n (v / 10)); simpl in *; [lia|]. apply H5. lia.
Qed.

(** The end of a number: the end of the text or of the line. *)
Definition number_ends (rest : list Z) : Prop := rest = [] \/ rest = [10].

Lemma decimal_spec v : 0 <= v <= ULLONG_MAX ->
  Forall is_digit (decimal v) /\ (1 <= length (decimal v) <= 20)%nat /\
  digits_value 10 (decimal v) 0 = v /\
  (v = 0 -> decimal v = [48]) /\ (v <> 0 -> head (decimal v) <> Some 48).
Proof. intros Hv. apply decimal_digits_spec; [unfold ULLONG_MAX in Hv; lia|lia]. Qed.

Lemma prefixed_value_decimal v rest : 0 <= v <= ULLONG_MAX -> number_ends rest ->
  prefixed_value (decimal v ++ rest) = v.
Proof.
  intros Hv Hr. destruct (decimal_spec v Hv) as (H1 & H2 & H3 & H4 & H5).
  destruct (decide (v = 0)) as [->|Hne].
  { rewrite (H4 eq_refl). by destruct Hr as [-> | ->]. }
  assert (digits_value 10 (decimal v ++ rest) 0 = v) as Hd.
  { rewrite digits_value_app, H3.
    - by destruct Hr as [-> | ->].
    - eapply Forall_impl; [exact H1|]. intros c Hc. unfold is_digit in Hc. exists (c - 48).
      replace c with (48 + (c - 48)) at 1 by lia. split; [apply digit_value_decimal; lia|lia]. }
  specialize (H5 Hne). destruct (decimal v) as [|c tl]; simpl in H2; [lia|]. simpl in Hd, H5.
  simpl. destruct (tl ++ rest) as [|x s']; [done|].
  destruct (Z.eqb_spec c 48) as [->|_]; [done|]. exact Hd.
Qed.

Lemma strtoull_decimal v rest : 0 <= v <= ULLONG_MAX -> number_ends rest ->
  strtoull (decimal v ++ rest) = v.
Proof.
  intros Hv Hr. destruct (decimal_spec v Hv) as (H1 & H2 & _ & _ & _).
  assert (cstr (decimal v ++ rest) = decimal v ++ rest) as Hc.
  { assert (Forall (fun c => c <> 0) (decimal v ++ rest)) as Hnz.
    { apply Forall_app. split.
      - eapply Forall_impl; [exact H1|]. unfold is_digit. intros c Hc. lia.
      - destruct Hr as [-> | ->]; repeat constructor. lia. }
    induction Hnz as [|c l Hc _ IH]; [done|]. simpl. destruct (Z.eqb_spec c 0); [done|]. by rewrite IH. }
  pose proof (prefixed_value_decimal v rest Hv Hr) as Hp.
  unfold strtoull. rewrite Hc. destruct (decimal v) as [|c tl]; simpl in H2; [lia|].
  apply Forall_cons in H1 as [Hdg _]. unfold is_digit in Hdg. cbn [app] in *.
  assert (skip_spaces (c :: tl ++ rest) = c :: tl ++ rest) as ->.
  { cbn [skip_spaces]. unfold isspace. destruct (Z.eqb_spec c 32); [lia|].
    destruct (Z.leb_spec c 13); [lia|]. by rewrite andb_false_r. }
  destruct (Z.eqb_spec c 45); [lia|]. destruct (Z.eqb_spec c 43); [lia|]. rewrite Hp.
  destruct (Z.ltb_spec ULLONG_MAX v); [lia|done].
Qed.

(** ** The contract on files *)

Record file_state := FileState {
  contents : gmap (list Z) (list Z);      (* what is stored under a path *)
  opened : gmap Z (list Z * nat)          (* open files: path and position *)
}.

(** The line [fgets] returns: at most [n] bytes, up to a newline. *)
Fixpoint next_line (n : nat) (s : list Z) : list Z :=
  match n, s with
  | S n, c :: s => if c =? 10 then [c] else c :: next_line n s
  | _, _ => []
  end.

Definition unread (g : file_state) (f : Z) : list Z :=
  match opened g !! f with
  | Some (path, pos) => drop pos (default [] (contents g !! path))
  | None => []
  end.

Definition advance (g : file_state) (f : Z) (n : nat) : file_state :=
  match opened g !! f with
  | Some (path, pos) => FileState (contents g) (<[f := (path, (pos + n)%nat)]> (opened g))
  | None => g
  end.

Definition append (g : file_state) (f : Z) (bytes : list Z) : file_state :=
  match opened g !! f with
  | Some (path, _) =>
      FileState (<[path := default [] (contents g !! path) ++ bytes]> (contents g)) (opened g)
  | None => g
  end.

Definition file_step {X} (g : file_state) (c : call X) : X -> file_state :=
  match c in call X return X -> file_state with
  | fopen path => fun f =>
      if f =? 0 then g else FileState (contents g) (<[f := (path, 0%nat)]> (opened g))
  | fopen_write path => fun f =>
      if f =? 0 then g
      else FileState (<[path := []]> (contents g)) (<[f := (path, 0%nat)]> (opened g))
  | fclose f => fun _ => FileState (contents g) (delete f (opened g))
  | fseek f to_end => fun r =>
      match opened g !! f with
      | Some (path, _) =>
          if r =? 0 then
            FileState (contents g)
              (<[f := (path, if to_end then length (default [] (contents g !! path)) else 0%nat)]> (opened g))
             
          else g
      | None => g
      end
  | fread f _ => fun bytes => advance g f (length bytes)
  | fgets f _ => fun line => advance g f (length (default [] line))
  | fwrite f bytes => fun n => append g f (take (Z.to_nat n) bytes)
  | fprintf f text => fun n => append g f (take (Z.to_nat n) text)
  | _ => fun _ => g
  end.

Section library.
(** Whether files can always be opened, written and positioned, and the
    descriptor of the memory map. *)
Context (reliable : bool) (desc : list Z).

Definition file_ok {X} (g : file_state) (c : call X) : X -> Prop :=
  match c in call X return X -> Prop with
  | fopen path => fun f =>
      (f <> 0 -> is_Some (contents g !! path)) /\
      (reliable = true -> is_Some (contents g !! path) -> f <> 0)
  | fopen_write _ => fun f => reliable = true -> f <> 0
  | fseek _ _ => fun r => reliable = true -> r = 0
  | ftell f => fun n =>
      (reliable = true -> is_Some (opened g !! f) -> n <> -1) /\
      (n <> -1 -> exists path pos, opened g !! f = Some (path, pos) /\ n = Z.of_nat pos)
  | fread f n => fun bytes =>
      bytes `prefix_of` take (Z.to_nat n) (unread g f) /\
      (reliable = true -> bytes = take (Z.to_nat n) (unread g f))
  | fgets f n => fun line =>
      match line with
      | Some l => l = next_line (Z.to_nat n - 1) (unread g f) /\ unread g f <> []
      | None => reliable = true -> unread g f = []
      end
  | fwrite _ bytes => fun n =>
      0 <= n <= Z.of_nat (length bytes) /\ (reliable = true -> n = Z.of_nat (length bytes))
  | fprintf _ text => fun n => n = Z.of_nat (length text)
  | doca_mmap_export_pci _ _ => fun r => r.1 = DOCA_SUCCESS -> r.2 = desc
  | _ => fun _ => True
  end.

#[export] Instance file_library : Library file_state := {
  lib_step X := @file_step X;
  lib_ok X := @file_ok X
}.
End library.

(** ** Round trip *)

Ltac file_ask x H := gwp_ask x H; cbn [lib_ok lib_step file_library file_step file_ok fst snd] in *.

(** The text of the second file. *)
Definition info_text (buffer_addr buffer_len : Z) : list Z :=
  (decimal buffer_addr ++ [10]) ++ decimal buffer_len.

Section roundtrip.
Context (reliable : bool) (desc : list Z) (spin : Prop).
Abbreviation gwp := (gwp (H := file_library reliable desc) spin).

Lemma next_line_first n xs ys : Forall is_digit xs -> (length xs < n)%nat ->
  next_line n ((xs ++ [10]) ++ ys) = xs ++ [10].
Proof.
  intros Hx. revert n. induction Hx as [|c xs Hc _ IH]; intros [|n] Hn; simpl in *; try lia; [done|].
  unfold is_digit in Hc. destruct (Z.eqb_spec c 10); [lia|]. f_equal. apply IH. lia.
Qed.

Lemma next_line_last n xs : Forall is_digit xs -> (length xs <= n)%nat -> next_line n xs = xs.
Proof.
  intros Hx. revert n. induction Hx as [|c xs Hc _ IH]; intros [|n] Hn; simpl in *; try lia; [done..|].
  unfold is_digit in Hc. destruct (Z.eqb_spec c 10); [lia|]. f_equal. apply IH. lia.
Qed.

Lemma append_open g f path pos old bytes :
  opened g !! f = Some (path, pos) -> contents g !! path = Some old ->
  append g f bytes = FileState (<[path := old ++ bytes]> (contents g)) (opened g).
Proof. intros Ho Hc. unfold append. by rewrite Ho, Hc. Qed.

Lemma prefix_full {A} (xs ys : list A) : xs `prefix_of` ys -> (length ys <= length xs)%nat -> xs = ys.
Proof.
  intros [[|z zs] ->]; rewrite ?app_nil_r, ?length_app; simpl; [done|lia].
Qed.

Lemma take_min_length {A} n (xs : list A) : take (n `min` length xs) xs = take n xs.
Proof.
  destruct (decide (n <= length xs)%nat); [by rewrite Nat.min_l|by rewrite Nat.min_r, !take_ge by lia].
Qed.

Lemma advance_contents g f n : contents (advance g f n) = contents g.
Proof. unfold advance. by destruct (opened g !! f) as [[]|]. Qed.

Lemma export_gwp g mmap dev src_buffer size p1 p2 : p1 <> p2 ->
  gwp (export_mmap_to_files mmap dev src_buffer size p1 p2) g (fun g' e => e = DOCA_SUCCESS ->
    contents g' !! p1 = Some desc /\
    contents g' !! p2 = Some (info_text (u64 src_buffer) (u64 size))).
Proof.
  intros Hp. unfold export_mmap_to_files. file_ask r Hr. destruct r as [status bytes].
  destruct (ok_spec status) as [->|Hne]; cbn [negb fst snd] in *; [|done].
  rewrite (Hr eq_refl). file_ask fp Hfp.
  destruct (Z.eqb_spec fp 0) as [->|Hfp0]; [done|]. set (g2 := FileState _ _).
  file_ask n Hn. destruct Hn as [Hn _].
  destruct (Z.eqb_spec n (Z.of_nat (length desc))) as [->|Hne]; cbn [negb].
  2: { file_ask u Hu. done. }
  rewrite take_ge by lia. rewrite (append_open g2 fp p1 0 [] desc); [|by apply lookup_insert_eq..].
  set (g3 := FileState _ _). file_ask u Hu.
  file_ask fq Hfq. destruct (Z.eqb_spec fq 0) as [->|Hfq0]; [done|].
  set (g4 := FileState _ _). file_ask n1 Hn1. subst n1.
  rewrite take_ge by lia. rewrite (append_open g4 fq p2 0 []); [|by apply lookup_insert_eq..].
  set (g5 := FileState _ _). file_ask n2 Hn2. subst n2.
  rewrite take_ge by lia. rewrite (append_open g5 fq p2 0 (decimal (u64 src_buffer) ++ [10]));
    [|by apply lookup_insert_eq..].
  file_ask u2 Hu2. intros _. cbn [contents file_step g5 g4 g3 g2 app].
  split.
  - rewrite !lookup_insert_ne by done. apply lookup_insert_eq.
  - apply lookup_insert_eq.
Qed.

(** What an import must give, [want], and when it must succeed. *)
Definition imports (want : imported -> Prop) (sane : Prop) (r : doca_error * imported) : Prop :=
  (r.1 = DOCA_SUCCESS -> want r.2) /\ (reliable = true -> sane -> r.1 = DOCA_SUCCESS).

(** A failure that cannot happen when all is well. *)
Lemma close_and_fail_gwp g fp out want (sane : Prop) : (reliable = true -> ~ sane) ->
  gwp (close_and_fail fp out) g (fun _ => imports want sane).
Proof. intros Hs. unfold close_and_fail. file_ask u Hu. split; [done|]. intros Hr Hsane. by destruct (Hs Hr). Qed.

Lemma fail_imports out want (sane : Prop) : (reliable = true -> ~ sane) ->
  imports want sane (DOCA_ERROR_IO_FAILED, out).
Proof. intros Hs. split; [done|]. intros Hr Hsane. by destruct (Hs Hr). Qed.

Lemma read_info_gwp g p2 a l out : 0 <= a <= ULLONG_MAX -> 0 <= l <= ULLONG_MAX ->
  contents g !! p2 = Some (info_text a l) ->
  gwp (read_buffer_info p2 out) g (fun _ => imports
    (fun out' => out' = Imported (export_desc out) (export_desc_len out) a l)
    (a <> ULLONG_MAX /\ l <> ULLONG_MAX)).
Proof.
  intros Ha Hl Hc. destruct (decimal_spec a Ha) as (Da & La & _), (decimal_spec l Hl) as (Dl & Ll & _).
  unfold read_buffer_info. file_ask f Hf. rewrite Hc in Hf.
  destruct (Z.eqb_spec f 0) as [->|Hf0]; [apply fail_imports; intros Hr _; by apply Hf|].
  set (g1 := FileState _ _).
  assert (unread g1 f = info_text a l) as Hu1 by (unfold unread; cbn; by rewrite lookup_insert_eq, Hc).
  file_ask line Hline. rewrite Hu1 in Hline. destruct line as [line|].
  2: { apply close_and_fail_gwp. intros Hr _. specialize (Hline Hr). unfold info_text in Hline.
       by destruct (decimal a). }
  destruct Hline as [-> _]. unfold info_text. rewrite next_line_first by (done || simpl; lia).
  rewrite strtoull_decimal by (done || by right).
  destruct (Z.eqb_spec a ULLONG_MAX); [apply close_and_fail_gwp; tauto|].
  set (g2 := advance _ _ _). cbn [default] in g2.
  assert (unread g2 f = decimal l) as Hu2.
  { unfold unread, g2, advance. cbn. rewrite lookup_insert_eq. cbn. rewrite lookup_insert_eq, Hc. cbn.
    unfold info_text. by rewrite drop_app_length. }
  file_ask line Hline. rewrite Hu2 in Hline. destruct line as [line|].
  2: { apply close_and_fail_gwp. intros Hr _. specialize (Hline Hr). rewrite Hline in Ll. simpl in Ll. lia. }
  destruct Hline as [-> _]. rewrite next_line_last by (done || simpl; lia).
  rewrite <- (app_nil_r (decimal l)), strtoull_decimal by (done || by left).
  destruct (Z.eqb_spec l ULLONG_MAX); [apply close_and_fail_gwp; tauto|].
  file_ask u Hu. by split.
Qed.

Lemma import_gwp g p1 p2 a l out : 0 <= a <= ULLONG_MAX -> 0 <= l <= ULLONG_MAX ->
  contents g !! p1 = Some desc -> contents g !! p2 = Some (info_text a l) ->
  (Z.to_nat RECV_BUF_SIZE <= length (export_desc out))%nat ->
  gwp (import_mmap_to_config p1 p2 out) g (fun _ => imports
    (fun out' => export_desc_len out' = Z.min RECV_BUF_SIZE (Z.of_nat (length desc)) /\
       take (Z.to_nat (export_desc_len out')) (export_desc out') = take (Z.to_nat RECV_BUF_SIZE) desc /\
       remote_addr out' = a /\ remote_addr_len out' = l)
    (a <> ULLONG_MAX /\ l <> ULLONG_MAX)).
Proof.
  intros Ha Hl Hc1 Hc2 Hbuf. assert (0 < RECV_BUF_SIZE) as Hrb by done. unfold import_mmap_to_config. file_ask f Hf. rewrite Hc1 in Hf.
  destruct (Z.eqb_spec f 0) as [->|Hf0]; [apply fail_imports; intros Hr _; by apply Hf|].
  set (g1 := FileState _ _). assert (opened g1 !! f = Some (p1, 0%nat)) as Ho1 by apply lookup_insert_eq.
  file_ask e He. rewrite Ho1.
  destruct (Z.eqb_spec e 0) as [->|He0]; cbn [negb]; [|apply close_and_fail_gwp; intros Hr _; by apply He0, He].
  set (g2 := FileState _ _).
  assert (opened g2 !! f = Some (p1, length desc)) as Ho2 by (cbn; by rewrite lookup_insert_eq, Hc1).
  file_ask n Hn. destruct Hn as [Hn1 Hn2].
  destruct (Z.eqb_spec n (-1)) as [->|Hn0]; [apply close_and_fail_gwp; intros Hr _; apply Hn1; rewrite ?Ho2; done|].
  destruct (Hn2 Hn0) as (path & pos & Ho & ->). rewrite Ho2 in Ho. simplify_eq. clear Hn1 Hn2.
  set (size := if RECV_BUF_SIZE <? _ then _ else _).
  assert (size = Z.min RECV_BUF_SIZE (Z.of_nat (length desc))) as Hsz
    by (unfold size; destruct (Z.ltb_spec RECV_BUF_SIZE (Z.of_nat (length desc))); lia).
  file_ask e1 He1. rewrite Ho2.
  destruct (Z.eqb_spec e1 0) as [->|He10]; cbn [negb]; [|apply close_and_fail_gwp; intros Hr _; by apply He10, He1].
  set (g3 := FileState _ _).
  assert (unread g3 f = desc) as Hu3 by (unfold unread; cbn; by rewrite lookup_insert_eq, Hc1).
  file_ask bytes Hb. rewrite Hu3 in Hb. destruct Hb as [Hpre Hall].
  assert (Z.to_nat size = Nat.min (Z.to_nat RECV_BUF_SIZE) (length desc)) as Hszn by (rewrite Hsz; lia).
  assert (length bytes <= Z.to_nat size)%nat as Hlb.
  { apply prefix_length in Hpre. rewrite length_take in Hpre. lia. }
  cbn [export_desc export_desc_len remote_addr remote_addr_len]. destruct (decide _); [lia|].
  assert (u64 size = size) as Hu64 by (apply wrap_small; rewrite Hsz; unfold RECV_BUF_SIZE; split; lia).
  rewrite Hu64. destruct (Z.eqb_spec (Z.of_nat (length bytes)) size) as [Hlen|Hlen]; cbn [negb].
  2: { apply close_and_fail_gwp. intros Hr _. apply Hlen. rewrite (Hall Hr), length_take. lia. }
  assert (bytes = take (Z.to_nat RECV_BUF_SIZE) desc) as ->.
  { rewrite (prefix_full _ _ Hpre), Hszn by (rewrite length_take; lia). apply take_min_length. }
  file_ask u Hu. eapply gwp_mono.
  { eapply (read_info_gwp _ p2 a l); [done|done|].
    cbn [contents]. by rewrite advance_contents. }
  intros _ [st out'] [Hok Hsane]. split; [|exact Hsane]. intros Hst. rewrite (Hok Hst). cbn [export_desc export_desc_len remote_addr remote_addr_len].
  split_and!; [lia| |done..]. unfold memcpy. rewrite (take_ge _ (length _)) by done.
  rewrite take_app_le by (rewrite length_take; lia). apply take_ge. rewrite length_take. lia.
Qed.
End roundtrip.

(** The host exports, then the DPU imports. *)
Definition exchange (mmap dev src_buffer size : Z) (p1 p2 : list Z) (out : imported)
  : prog (option (doca_error * imported)) :=
  status ← export_mmap_to_files mmap dev src_buffer size p1 p2;
  if negb (ok status) then Pure None else
  r ← import_mmap_to_config p1 p2 out;
  Pure (Some r).


(** A disk that works, holding what was written to it. *)
Definition disk (desc : list Z) : oracle := fun X tr c =>
  let g := lib_after (H := file_library true desc) (FileState ∅ ∅) tr in
  match c in call X return X with
  | doca_mmap_export_pci _ _ => (DOCA_SUCCESS, desc)
  | fopen path => match contents g !! path with Some _ => 1 | None => 0 end
  | fopen_write _ => 1
  | ftell f => match opened g !! f with Some (_, pos) => Z.of_nat pos | None => -1 end
  | fread f n => take (Z.to_nat n) (unread g f)
  | fgets f n => match unread g f with [] => None | s => Some (next_line (Z.to_nat n - 1) s) end
  | c => all_ok (fun _ => []) (fun _ => CTX_IDLE) _ tr c
  end.

Lemma disk_follows desc : follows (H := file_library true desc) (FileState ∅ ∅) (disk desc).
Proof.
  intros X tr c. destruct c; cbn; try done.
  - set (g := lib_after _ _). by destruct (contents g !! path).
  - set (g := lib_after _ _). destruct (opened g !! f) as [[path pos]|]; split; try done; [lia|]. eauto.
  - split; lia.
  - set (g := lib_after _ _). by destruct (unread g f) as [|c s].
Qed.

