(* ===== verification/Dma3Props.v ===== *)
(** * Dma3Props: doca_dma_3 besides its pipeline

    What the host holds and gives back, the command line, the arithmetic of
    times, and where the code falls short. *)

From Stdlib Require String.
From stdpp Require Import gmap.
From S2P Require Import Prelude.
From S2P Require Import CUtils.
From S2P Require Import Doca.
From S2P Require Import Ownership.
From S2P Require Import Common.
From S2P Require Import CommonProps.
From S2P Require Import Dma3.
From S2P Require Import Dma3Pipeline.

(** ** Times *)

Definition nanoseconds (t : timespec) : Z := tv_sec t * NANO + tv_nsec t.
Definition normal (t : timespec) : Prop := 0 <= tv_nsec t < NANO.

(** Sums and differences of times are exact and stay normal. *)
Lemma timespec_add_exact a b :
  nanoseconds (timespec_add a b) = nanoseconds a + nanoseconds b /\
  (normal a -> normal b -> normal (timespec_add a b)).
Proof.
  unfold nanoseconds, normal, timespec_add, NANO. cbn.
  destruct (Z.leb_spec 1000000000 (tv_nsec a + tv_nsec b)); cbn; lia.
Qed.

Lemma timespec_sub_exact a b :
  nanoseconds (timespec_sub a b) = nanoseconds a - nanoseconds b /\
  (normal a -> normal b -> normal (timespec_sub a b)).
Proof.
  unfold nanoseconds, normal, timespec_sub, NANO. cbn.
  destruct (Z.ltb_spec (tv_nsec a - tv_nsec b) 0); cbn; lia.
Qed.

(** ** What the host holds *)

(** The objects a state refers to. *)
Definition owned (s : dma_state) : list resource :=
  non_null KPe (pe s) ++ non_null KInventory (buf_inv s) ++ non_null KMmap (local_mmap s) ++
  non_null KDev (dev s) ++ non_null KMemory (buffer s).

Lemma unless_null_lin {M : mode} k p (body : prog unit) F :
  (p <> 0 -> lin M body ((k, p) :: F) (fun _ rs => rs = F)) ->
  lin M (unless_null p body) (non_null k p ++ F) (fun _ rs => rs = F).
Proof. intros Hb. unfold unless_null, non_null. destruct (Z.eqb_spec p 0); [by apply lin_pure|by apply Hb]. Qed.

Lemma free_lin {M : mode} p F : p <> 0 -> lin M (invoke_ (free p)) ((KMemory, p) :: F) (fun _ rs => rs = F).
Proof.
  intros Hp. eapply lin_release; [|done|reflexivity|intros ? _; by apply lin_pure].
  cbn. unfold non_null. by destruct (Z.eqb_spec p 0).
Qed.

Ltac clean_one :=
  apply lin_bind; eapply lin_mono;
    [apply unless_null_lin; intros _; try (let e := fresh in let He := fresh in lin_ask e He); lin_give; by apply lin_pure|intros _ ? ->].

Lemma dma_state_cleanup_lin {M : mode} s : lin M (dma_state_cleanup s) (owned s) (fun _ rs => rs = []).
Proof.
  unfold dma_state_cleanup, owned. do 4 clean_one.
  rewrite <- (app_nil_r (non_null KMemory (buffer s))). apply unless_null_lin, free_lin.
Qed.

(** A step of the setup: on success the state refers to what is held. *)
Definition sets_up (x : doca_error * dma_state) (rs : list resource) : Prop :=
  x.1 = DOCA_SUCCESS -> rs ≡ₚ owned x.2.

Lemma failed_sets_up e s rs : e <> DOCA_SUCCESS -> sets_up (e, s) rs.
Proof. by intros He ?. Qed.

Lemma check_capable_quiet {M : mode} : quiet_check M (Some check_dev_dma_capable).
Proof.
  intros f [= <-] d. unfold check_dev_dma_capable. apply quiet_call; [done..|]. intros e.
  destruct (negb (ok e)); apply quiet_pure.
Qed.

Lemma non_null_yes k p : p <> 0 -> non_null k p = [(k, p)].
Proof. intros Hp. unfold non_null. by destruct (Z.eqb_spec p 0). Qed.

(** A field that was NULL now refers to a new object. *)
Ltac now_owned H0 H1 :=
  unfold owned; cbn; rewrite H0, ?(non_null_yes _ _ H1); cbn; by rewrite <- ?Permutation_middle.

Lemma open_device_lin {M : mode} addr s rs : dev s = 0 -> rs ≡ₚ owned s -> lin M (open_device addr s) rs
  (fun x rs' => sets_up x rs' /\ x.2 = set_dev s (dev x.2)).
Proof.
  intros Hd Hrs. rewrite Hrs. unfold open_device. eapply (lin_call_fn _ _ [] (owned s)); [|reflexivity|].
  { change (open_doca_device_with_pci addr) with (Common.open_doca_device_with_pci addr).
    apply open_doca_device_with_pci_lin, check_capable_quiet. }
  intros [e d] rs' Ho. unfold opened in Ho. cbn in Ho. destruct (ok_spec e) as [->|Hne]; cbn [negb].
  - destruct Ho as [-> Hd0]. apply lin_pure. split; [|done]. intros _.
    assert (d <> 0) as Hnz by auto. now_owned Hd Hnz.
  - apply lin_pure. split; [by apply failed_sets_up|done].
Qed.

(** [EXIT_ON_FAIL] of a call that acquires nothing. *)
Ltac passes :=
  let e := fresh "e" in let He := fresh "He" in
  lin_ask e He; destruct (ok_spec e) as [->|]; cbn [negb]; [|by apply lin_pure, failed_sets_up].

Lemma create_mmap_lin {M : mode} s flag rs : local_mmap s = 0 -> rs ≡ₚ owned s ->
  lin M (create_mmap s flag) rs sets_up.
Proof.
  intros Hm Hrs. rewrite Hrs. unfold create_mmap. lin_ask x Hx. destruct x as [e m]. cbn [fst snd] in *.
  destruct (ok_spec e) as [->|Hne]; cbn [negb]; [|by apply lin_pure, failed_sets_up]. specialize (Hx eq_refl).
  do 4 passes.
  apply lin_pure. intros _. cbn. now_owned Hm Hx.
Qed.

Lemma create_dma_host_state_lin {M : mode} addr s rs : dev s = 0 -> local_mmap s = 0 -> rs ≡ₚ owned s ->
  lin M (create_dma_host_state addr s) rs sets_up.
Proof.
  intros Hd Hm Hrs. unfold create_dma_host_state. apply lin_bind.
  eapply lin_mono; [by apply open_device_lin|]. intros [e s1] rs1 [Hs E]. cbn [fst snd] in *.
  destruct (ok_spec e) as [->|Hne]; cbn [negb]; [|by apply lin_pure, failed_sets_up].
  apply lin_bind. eapply lin_mono; [apply create_mmap_lin; [by rewrite E|by apply Hs]|].
  intros [e2 s2] rs2 Hs2. destruct (ok_spec e2) as [->|Hne]; cbn [negb]; [by apply lin_pure|by apply lin_pure, failed_sets_up].
Qed.

Lemma export_quiet {M : mode} mmap dev a n p1 p2 : quiet M (export_mmap_to_files mmap dev a n p1 p2).
Proof.
  unfold export_mmap_to_files. apply quiet_call; [done..|]. intros [e desc].
  destruct (negb (ok e)); [apply quiet_pure|]. cbn zeta.
  apply lin_acquire; [done|]. intros f _ _. cbn. unfold non_null.
  destruct (f =? 0); [by apply lin_pure|]. lin_ask n1 Hn1.
  destruct (negb _); lin_give; [by apply lin_pure|].
  lin_ask f2 Hf2. destruct (f2 =? 0); [by apply lin_pure|].
  lin_ask n2 Hn2. lin_ask n3 Hn3. lin_give. by apply lin_pure.
Qed.

Lemma host_export_sets_up {M : mode} cfg t : lin M (host_export cfg t zero_state) [] sets_up.
Proof.
  unfold host_export, allocate_buffer. lin_ask p Hp. cbn [set_buffer_size buffer_size zero_state].
  cbn [set_buffer buffer dev]. destruct (Z.eqb_spec p 0) as [->|Hp0]; lin_simpl; [by apply lin_pure, failed_sets_up|].
  cbn [ok negb]. apply lin_bind. eapply lin_mono; [apply create_dma_host_state_lin; try done|].
  { unfold owned. cbn. by rewrite (non_null_yes _ _ Hp0). }
  intros [e s] rs Hs. destruct (ok_spec e) as [->|Hne]; cbn [negb]; [|by apply lin_pure, failed_sets_up].
  apply lin_quiet; [apply export_quiet|]. intros e2. apply lin_pure. intros _. by apply Hs.
Qed.

(** A loop with early return. *)
Lemma for_all_lin {M : mode} {A} (I : nat -> A -> list resource -> Prop) body n : forall k s rs, I k s rs ->
  (forall i s rs, (k <= i < k + n)%nat -> I i s rs ->
     lin M (body i s) rs (fun x rs' => x.1 = DOCA_SUCCESS -> I (S i) x.2 rs')) ->
  lin M (for_all (seq k n) s body) rs (fun x rs' => x.1 = DOCA_SUCCESS -> I (k + n)%nat x.2 rs').
Proof.
  induction n as [|n IH]; intros k s rs Hs Hbody; cbn [seq for_all].
  { apply lin_pure. intros _. by rewrite Nat.add_0_r. }
  apply lin_bind. eapply lin_mono; [apply (Hbody k s rs); [lia|exact Hs]|]. intros [e s'] rs' He. cbn in He.
  destruct (ok_spec e) as [->|Hne]; cbn [negb]; [|by apply lin_pure].
  replace (k + S n)%nat with (S k + n)%nat by lia. apply IH; [by apply He|].
  intros i s2 rs2 Hi. apply Hbody. lia.
Qed.

(** The states of the first [k] threads are set up, the others still zero. *)
Definition states_up (n k : nat) (l : list dma_state) (rs : list resource) : Prop :=
  length l = n /\ (forall t, (k <= t < n)%nat -> l !! t = Some zero_state) /\ rs ≡ₚ l ≫= owned.

Lemma host_exports_lin {M : mode} cfg n :
  lin M (for_each_of (replicate n zero_state) (host_export cfg)) []
    (fun x rs => x.1 = DOCA_SUCCESS -> rs ≡ₚ x.2 ≫= owned).
Proof.
  unfold for_each_of. rewrite length_replicate.
  eapply lin_mono; [apply (for_all_lin (states_up n))|].
  - split_and!; [apply length_replicate|intros t Ht; by apply lookup_replicate_2; lia|].
    induction n as [|n IH]; [done|]. simpl. by rewrite <- IH.
  - intros t l rs Ht (Hl & Hz & Hrs). rewrite (Hz t) by lia. rewrite Hrs.
    eapply (lin_call_fn _ _ [] (l ≫= owned)); [apply host_export_sets_up|done|].
    intros [e s] rs' Hs. apply lin_pure. intros He. cbn in *. split_and!.
    + by rewrite length_insert.
    + intros t' Ht'. rewrite list_lookup_insert_ne by lia. apply Hz. lia.
    + rewrite (Hs He), (bind_cell owned l t zero_state), bind_cell_insert by (lia || by apply Hz; lia). done.
  - intros [e l] rs H He. by apply H in He as (_ & _ & ->).
Qed.

Lemma for_unit_lin {M : mode} l : lin M (for_unit l dma_state_cleanup) (l ≫= owned) (fun _ rs => rs = []).
Proof.
  induction l as [|s l IH]; cbn [for_unit]; [by apply lin_pure|]. rewrite bind_cons.
  eapply (lin_call_fn _ _ (owned s) (l ≫= owned)); [apply dma_state_cleanup_lin|done|]. by intros _ rs' ->.
Qed.

(** When [dma_copy_host] succeeds it has given back everything once: the
    devices, memory maps and buffers of all threads, the files it wrote, and
    the array of states; and it has no undefined behaviour, whatever the
    library answers. (When it fails it returns at once and leaves its objects
    to the end of the process.) *)
Theorem host_copy_owns (o : oracle) (p : Z) (cfg : dma_cfg) :
  documented_oracle o -> p <> 0 ->
  match run o (host_with_states p cfg) [] with
  | (Ret e, tr) => exists rs, held [(KMemory, p)] tr rs /\ (e = DOCA_SUCCESS -> rs = [])
  | _ => False
  end.
Proof.
  intros Ho Hp.
  assert (lin total (host_with_states p cfg) [(KMemory, p)] (fun e rs => e = DOCA_SUCCESS -> rs = [])) as Hl.
  { unfold host_with_states. eapply (lin_call_fn _ _ [] [(KMemory, p)]); [apply host_exports_lin|done|].
    intros [e l] rs Hrs. destruct (ok_spec e) as [->|Hne]; cbn [negb]; [|by apply lin_pure].
    rewrite (Hrs eq_refl). unfold wait_for_dpu. do 6 (let x := fresh in let H := fresh in lin_ask x H).
    eapply (lin_call_fn _ _ (l ≫= owned) [(KMemory, p)]); [apply for_unit_lin|done|]. intros _ rs' ->.
    cbn [app]. eapply lin_release; [|done|reflexivity|intros ? _; by apply lin_pure].
    cbn. by rewrite non_null_yes. }
  exact (lin_run (P := False) o _ _ _ Ho Hl).
Qed.

Lemma host_copy_owns_witness :
  match run (all_ok (fun _ => []) (fun _ => CTX_IDLE)) (host_with_states 5 (Cfg 0 0 2 64 (replicate 16 0))) [] with
  | (Ret e, tr) => e = DOCA_SUCCESS /\ held [(KMemory, 5)] tr []
  | _ => False
  end.
Proof.
  pose proof (host_copy_owns (all_ok (fun _ => []) (fun _ => CTX_IDLE)) 5 (Cfg 0 0 2 64 (replicate 16 0))
    (all_ok_documented _ _) ltac:(done)) as H.
  assert (match run (all_ok (fun _ => []) (fun _ => CTX_IDLE)) (host_with_states 5 (Cfg 0 0 2 64 (replicate 16 0))) [] with
          | (Ret e, _) => e = DOCA_SUCCESS
          | _ => False
          end) as HR by (vm_compute; done).
  revert H HR.
  generalize (run (all_ok (fun _ => []) (fun _ => CTX_IDLE)) (host_with_states 5 (Cfg 0 0 2 64 (replicate 16 0))) []).
  intros [[e| | |] tr]; try done. intros (rs & Hh & Hrs) ->. split; [done|]. by rewrite (Hrs eq_refl) in Hh.
Defined.

(** ** The command line *)

Section arguments.
Context `{DocaSizes}.

(** Counts and sizes within their limits, zero while unset, and a terminated
    address in its 16 bytes. *)
Definition cfg_ok (cfg : dma_cfg) : Prop :=
  0 <= ops cfg <= MAX_OPS /\ 0 <= num_working_tasks cfg <= MAX_WORKING_TASKS /\
  0 <= num_threads cfg <= MAX_THREADS /\ 0 <= payload cfg <= MAX_PAYLOAD /\
  length (local_pcie_addr cfg) = 16%nat /\ strlen (local_pcie_addr cfg) < 16.

Lemma strncpy_field dst src size : 0 < size <= 16 -> length dst = 16%nat -> strlen src < size ->
  exists dst', strncpy dst src (strlen src + 1) = Ret dst' /\ length dst' = 16%nat /\ cstr dst' = cstr src.
Proof using Type.
  intros Hs Hd Hl. unfold strncpy, strlen in *. set (n := length (cstr src)) in *.
  replace (Z.to_nat (Z.of_nat n + 1)) with (S n) by lia. destruct (decide _); [|lia].
  eexists. split; [done|]. rewrite take_app_ge by (unfold n in *; lia).
  replace (S n - length (cstr src))%nat with 1%nat by (unfold n; lia).
  change (replicate (S n) 0) with (0 :: replicate n 0). cbn [take]. rewrite take_0. split.
  - rewrite !length_app, length_drop. simpl. lia.
  - rewrite <- (assoc_L (++)). apply cstr_app_nul, cstr_nonzero.
Qed.

(** The answer of a callback: the value is stored, or refused unchanged. *)
Definition answer_ok (cfg : dma_cfg) (r : res (doca_error * dma_cfg)) : Prop :=
  exists e cfg', r = Ret (e, cfg') /\ cfg_ok cfg' /\
    (e = DOCA_SUCCESS \/ (e = DOCA_ERROR_INVALID_VALUE /\ cfg' = cfg)).

Lemma bounded_answer cfg cfg' n hi : cfg_ok cfg -> (1 <= n <= hi -> cfg_ok cfg') ->
  answer_ok cfg (Ret (if (hi <? n) || (n <? 1) then (DOCA_ERROR_INVALID_VALUE, cfg) else (DOCA_SUCCESS, cfg'))).
Proof using Type.
  intros Hc Hc'. destruct (_ || _) eqn:E.
  - do 2 eexists. split; [done|]. auto.
  - apply orb_false_iff in E as [E1%Z.ltb_ge E2%Z.ltb_ge]. do 2 eexists. split; [done|]. auto.
Qed.

Lemma argument_callback_answer isdpu name value cfg :
  0 < DOCA_DEVINFO_PCI_ADDR_SIZE <= 16 -> cfg_ok cfg -> answer_ok cfg (argument_callback isdpu name value cfg).
Proof using Type.
  intros Hsz Hc. pose proof Hc as (H1 & H2 & H3 & H4 & H5 & H6).
  assert (answer_ok cfg (Ret (DOCA_SUCCESS, cfg))) as Hsame by (do 2 eexists; split; [done|]; auto).
  unfold argument_callback. destruct value as [n|s].
  - repeat case_match; try done; apply bounded_answer; try done; unfold cfg_ok; cbn; intros; split_and!; done || lia.
  - case_match; [|done]. unfold pci_callback, strnlen, MIN.
    destruct (Z.ltb_spec (strlen s) DOCA_DEVINFO_PCI_ADDR_SIZE) as [Hlt|Hge].
    + destruct (Z.leb_spec DOCA_DEVINFO_PCI_ADDR_SIZE (strlen s)); [lia|].
      destruct (strncpy_field (local_pcie_addr cfg) s _ Hsz H5 Hlt) as (dst & -> & Hl & Hcs).
      do 2 eexists. split; [done|]. split; [|auto]. unfold cfg_ok. cbn. split_and!; try done; try lia.
      unfold strlen in *. rewrite Hcs. lia.
    + destruct (Z.leb_spec DOCA_DEVINFO_PCI_ADDR_SIZE DOCA_DEVINFO_PCI_ADDR_SIZE); [|lia].
      do 2 eexists. split; [done|]. auto.
Qed.

(** Whatever the command line, the configuration of doca_dma_3 stays
    within its limits and the PCI address within its 16 bytes, terminated; a
    value out of range is refused and changes nothing; no callback writes out
    of bounds. *)
Theorem dma3_arguments_checked (o : oracle) (isdpu : bool) (args : list (string * arg_value)) :
  0 < DOCA_DEVINFO_PCI_ADDR_SIZE <= 16 ->
  exists e cfg, run o (apply_arguments isdpu args zero_cfg) [] = (Ret (e, cfg), []) /\ cfg_ok cfg /\
    (e = DOCA_SUCCESS \/ e = DOCA_ERROR_INVALID_VALUE).
Proof using Type.
  intros Hsz. assert (cfg_ok zero_cfg) as Hz by (unfold cfg_ok; cbn; split_and!; done || lia).
  revert Hz. generalize zero_cfg. induction args as [|[name value] args IH]; intros cfg Hc; cbn [apply_arguments].
  { do 2 eexists. split; [done|]. auto. }
  rewrite run_bind. destruct (argument_callback_answer isdpu name value cfg Hsz Hc) as (e & cfg' & -> & Hc' & He).
  cbn [of_res run]. destruct (ok_spec e) as [->|Hne]; cbn [negb]; [by apply IH|].
  do 2 eexists. split; [done|]. destruct He as [?|[? _]]; [done|]. auto.
Qed.
End arguments.

#[local] Instance sizes : DocaSizes := Build_DocaSizes 64 256 128 13 13.

Definition arg (name : string) (value : arg_value) : string * arg_value := (name, value).
Definition demo_args : list (string * arg_value) :=
  [arg "payload" (ArgInt 4096); arg "pci-addr" (ArgString [48; 51; 0]); arg "operations" (ArgInt 0)].

Lemma dma3_arguments_checked_witness :
  exists e cfg, run (all_ok (fun _ => []) (fun _ => CTX_IDLE)) (apply_arguments true demo_args zero_cfg) []
    = (Ret (e, cfg), []) /\ cfg_ok cfg /\ (e = DOCA_SUCCESS \/ e = DOCA_ERROR_INVALID_VALUE).
Proof. apply (dma3_arguments_checked (all_ok (fun _ => []) (fun _ => CTX_IDLE)) true demo_args). cbn. lia. Defined.

(** ** Where the code falls short *)

Definition allocs_succeed (o : oracle) : Prop :=
  forall tr dma src dst data, (o _ tr (doca_dma_task_memcpy_alloc_init_with dma src dst data)).1 = DOCA_SUCCESS.

(** More working tasks than pairs of buffers. The number of tasks is taken
    from the command line and the number of pairs is the operations divided by
    the threads; nothing compares them, and [allocate_dma_tasks] reads past
    the end of the arrays of buffers. *)
Theorem too_many_tasks (o : oracle) (r : dma_resources) :
  allocs_succeed o -> buf_pair_idx r = 0 ->
  Z.of_nat (length (cells (src_bufs r))) < num_tasks r < 2 ^ 32 ->
  length (cells (dst_bufs r)) = length (cells (src_bufs r)) ->
  Z.of_nat (length (cells (tasks r))) = num_tasks r ->
  (run o (allocate_dma_tasks r (num_tasks r)) []).1 = UB.
Proof.
  intros Ho Hx Hn Hd Ht. unfold allocate_dma_tasks.
  cut (forall n k s tr, buf_pair_idx s = Z.of_nat k -> src_bufs s = src_bufs r -> dst_bufs s = dst_bufs r ->
    length (cells (tasks s)) = (k + n)%nat -> Z.of_nat (k + n) = num_tasks r ->
    (k <= length (cells (src_bufs r)))%nat -> (run o (for_all (seq k n) s allocate_dma_task) tr).1 = UB).
  { intros H. apply H; [done..|lia|lia|lia]. }
  induction n as [|n IH]; intros k s tr Hk Hs Hds Hts Hkn Hle; [lia|]. cbn [seq for_all].
  unfold allocate_dma_task at 2, array_get. rewrite Hk, Hs, Hds, Nat2Z.id.
  destruct (cells (src_bufs r) !! k) as [src|] eqn:Esrc; [|done].
  destruct (cells (dst_bufs r) !! k) as [dst|] eqn:Edst;
    [|apply lookup_ge_None in Edst; apply lookup_lt_Some in Esrc; lia].
  cbn [mbind prog_mbind prog_bind invoke run]. set (x := o _ tr _).
  pose proof (Ho tr (dma_ctx s) src dst (Z.of_nat k)) as Hx1. fold x in Hx1. destruct x as [status task].
  cbn in Hx1. subst status. unfold array_set. rewrite Nat2Z.id. destruct (decide _); [|lia].
  cbn [mbind prog_mbind prog_bind ok negb bool_decide]. apply lookup_lt_Some in Esrc.
  apply IH; cbn; try done; [|rewrite length_insert; lia|lia..].
  rewrite Hk. rewrite wrap_small by (split; lia). lia.
Qed.

Lemma too_many_tasks_witness :
  (run copies (allocate_dma_tasks (set_bufs demo (Array 4 [11]) (Array 5 [21])) 2) []).1 = UB.
Proof. apply (too_many_tasks copies (set_bufs demo (Array 4 [11]) (Array 5 [21]))); by cbn. Defined.

(** A library that refuses every submission, with enough memory. *)
#[local] Instance refusing_library : Library task_state := {
  lib_step X := @task_step X;
  lib_ok X g c x := supplied_ok None g c x /\
    match c in call X return X -> Prop with doca_task_submit _ => fun e => e <> DOCA_SUCCESS | _ => fun _ => True end x
}.

Lemma nothing_delivered indeterminate fuel n : forall g r m,
  flight g = [] -> num_completed_tasks (state r) < n ->
  gwp (H := refusing_library) True (poll_for_completion indeterminate fuel r m n) g (fun _ _ => False).
Proof.
  induction fuel as [|fuel IH]; intros g r m Hf Hn; cbn [poll_for_completion]; [done|].
  destruct (Z.ltb_spec (num_completed_tasks (state r)) n); [|lia].
  gwp_ask ev Hev. destruct ev as [made es], Hev as [(Hes & _) _]. cbn [snd] in *.
  destruct es as [|e es]; [|apply Forall_cons in Hes as [(t & d & _ & Ht & _) _]; rewrite Hf in Ht; inversion Ht].
  cbn. apply IH; [|done]. cbn. by rewrite Hf.
Qed.

Lemma refused_flight indeterminate a ids : forall g m, flight g = [] ->
  Forall (fun i => (i < length (cells a))%nat) ids ->
  gwp (H := refusing_library) True (submit_tasks indeterminate ids a m) g (fun g' _ => flight g' = []).
Proof.
  induction ids as [|i ids IH]; intros g m Hf Hi; cbn [submit_tasks]; [done|].
  apply Forall_cons in Hi as [Hi Hids]. unfold malloc_time. gwp_ask p Hp. destruct Hp as [[Hp0 _] _].
  destruct (Z.eqb_spec p 0); [done|]. unfold read_clock_to. rewrite lookup_insert_eq. gwp_ask t Ht.
  unfold array_get. rewrite Nat2Z.id. destruct (lookup_lt_is_Some_2 _ _ Hi) as [task ->].
  gwp_ask u Hu. gwp_ask e He. destruct He as [_ He]. apply IH; [|done]. cbn.
  destruct (ok_spec e); [done|]. exact Hf.
Qed.

(** Refused submissions are not noticed. [submit_dma_tasks] ignores the
    result of [doca_task_submit]; when its submissions are refused nothing
    will ever complete, and the thread polls for ever. *)
Theorem refused_submissions_hang (indeterminate : timespec) (o : oracle) (fuel : nat) (r : dma_resources)
    (l : list Z) (g : task_state) :
  follows (H := refusing_library) g o -> started r l g ->
  (run o (dma_copy_dpu_thread indeterminate fuel r) []).1 = NoFuel.
Proof.
  intros Ho (r0 & (Hx & Hc & Hn & Hd & Hmax & Ht & Hl) & Hll & -> & [_ _ _ (Hf & _)]).
  assert (gwp (H := refusing_library) True (dma_copy_dpu_thread indeterminate fuel (allocating r0 l (length l))) g
    (fun _ _ => False)) as Hg.
  { unfold dma_copy_dpu_thread, submit_dma_tasks. eapply gwp_call.
    - apply refused_flight; [done|]. apply Forall_forall. intros i [_ Hi]%elem_of_seq. cbn in *. lia.
    - intros g' [e m] Hf'. apply nothing_delivered; [done|]. cbn. lia. }
  pose proof (gwp_run (H := refusing_library) _ g o _ _ Ho [] Hg) as Hrun.
  by destruct (run o _ []) as [[x| | |] tr].
Qed.

(** A thread whose two tasks, 8 and 9, hold the first two pairs. *)
Definition demo_started : dma_resources * list Z * task_state :=
  (allocating demo [8; 9] 2, [8; 9],
   TaskState [] (<[8 := 11]> {[9 := 12]}) (<[8 := 21]> {[9 := 22]}) ∅ ∅ [] [] [] false 0).

Lemma demo_started_ok : started demo_started.1.1 demo_started.1.2 demo_started.2.
Proof.
  exists demo. split_and!; [apply demo_prepared|done..|]. constructor; cbn.
  - repeat constructor; rewrite ?list_elem_of_singleton; try done; intros H; inversion H.
  - intros t. rewrite dom_insert_L, dom_singleton_L, !elem_of_union, !elem_of_singleton.
    intros [->| ->]; [by left|right; by left].
  - intros [|[|j]] t Hj Ht; simplify_eq/=; by vm_compute.
  - done.
Qed.

Definition refuses : oracle := fun X tr c =>
  let g := lib_after (H := refusing_library) demo_started.2 tr in
  match c in call X return X with
  | malloc _ => next (live g)
  | doca_dma_task_memcpy_alloc_init_with _ _ _ _ => (DOCA_SUCCESS, next (dom (srcs g)))
  | doca_dma_task_memcpy_get_src t => srcs g !!! t
  | doca_dma_task_memcpy_get_dst t => dsts g !!! t
  | doca_task_submit _ => DOCA_ERROR_NO_MEMORY
  | c => all_ok (fun _ => []) (fun _ => CTX_IDLE) _ tr c
  end.

Lemma refuses_follows : follows (H := refusing_library) demo_started.2 refuses.
Proof.
  intros X tr c. destruct c; cbn; try done.
  - split; [|done]. by destruct (next_new (live (lib_after (H := refusing_library) demo_started.2 tr))).
  - split; [|done]. split_and!; [by constructor|by constructor|done].
  - split; [|done]. intros _. apply next_new.
Qed.

Lemma refused_submissions_hang_witness :
  (run refuses (dma_copy_dpu_thread time_zero 7 demo_started.1.1) []).1 = NoFuel.
Proof.
  exact (refused_submissions_hang time_zero refuses 7 _ _ _ refuses_follows demo_started_ok).
Defined.
