(* ===== verification/Dma2.v ===== *)
(** * Dma2: threads that share a mutex, and those of doca_dma_2

    A thread is a tree of library calls as in Doca.v that also takes and gives
    back the one mutex its process has, and writes to the one variable that the
    threads share, [max_dma_buf_size] of the configuration; the writes are not
    ordered by the mutex, and each is taken to be atomic. [run_threads] runs threads under a
    schedule; [mutex_step] is the same as a transition system, in which every
    thread owns the state of its library objects. [twp] specifies a thread on
    its own: what it does with the mutex, that it makes a bounded number of
    steps, and its result. Threads specified like that do not disturb each
    other, and the bound and the use of the mutex give termination of all of
    them together.

    src/doca_dma_2 is the application of DmaCopy.v with several threads on the
    DPU: each has a DMA context, a progress engine and an inventory of its own,
    and a mutex guards the inventories. The functions that changed are here, the
    others are those of DmaCopy.v, whose text they have. Results of calls are
    ignored where the source ignores them. *)

From stdpp Require Import relations.
From S2P Require Import Prelude.
From S2P Require Import Doca.
From S2P Require Import Common.
From S2P Require Import ComchUtils.
From S2P Require Import Dma3.
From S2P Require Import DmaCopy.

(** ** Threads *)

Inductive tprog (R : Type) : Type :=
| TPure (r : R)
| TCall {X : Type} (c : call X) (k : X -> tprog R)
| TLock (k : tprog R)
| TUnlock (k : tprog R)
| TStore (v : Z) (k : tprog R)
| TCrash
| TSpin.
Arguments TPure {R} r.
Arguments TCall {R X} c k.
Arguments TLock {R} k.
Arguments TUnlock {R} k.
Arguments TStore {R} v k.
Arguments TCrash {R}.
Arguments TSpin {R}.

Fixpoint tprog_bind {A B} (f : A -> tprog B) (p : tprog A) : tprog B :=
  match p with
  | TPure a => f a
  | TCall c k => TCall c (fun x => tprog_bind f (k x))
  | TLock k => TLock (tprog_bind f k)
  | TUnlock k => TUnlock (tprog_bind f k)
  | TStore v k => TStore v (tprog_bind f k)
  | TCrash => TCrash
  | TSpin => TSpin
  end.

#[export] Instance tprog_mret : MRet tprog := @TPure.
#[export] Instance tprog_mbind : MBind tprog := @tprog_bind.

(** Code that does not touch the mutex. *)
Fixpoint lift {A} (p : prog A) : tprog A :=
  match p with
  | Pure a => TPure a
  | Call c k => TCall c (fun x => lift (k x))
  | Crash => TCrash
  | Spin => TSpin
  end.

Definition ask {X} (c : call X) : tprog X := TCall c TPure.
Definition pthread_mutex_lock : tprog unit := TLock (TPure tt).
Definition pthread_mutex_unlock : tprog unit := TUnlock (TPure tt).
Definition store (v : Z) : tprog unit := TStore v (TPure tt).

(** The results of threads that have all returned. *)
Definition all_done {A} (ts : list (tprog A)) : option (list A) :=
  mapM (fun p => match p with TPure a => Some a | _ => None end) ts.

(** Creating the threads and joining all of them. [sched] says whose turn it
    is; a thread that waits for the mutex, or polls for ever, lets its turn
    pass; [shared] is the value of the shared variable. [Spin] stands for a
    schedule that ends before the threads do. *)
Fixpoint run_threads {A} (sched : list nat) (owner : option nat) (shared : Z) (ts : list (tprog A))
  : prog (list A * Z) :=
  match all_done ts with
  | Some rs => Pure (rs, shared)
  | None =>
      match sched with
      | [] => Spin
      | i :: sched =>
          match ts !! i with
          | Some (TCall c k) => Call c (fun x => run_threads sched owner shared (<[i := k x]> ts))
          | Some (TLock k) =>
              match owner with
              | None => run_threads sched (Some i) shared (<[i := k]> ts)
              | Some _ => run_threads sched owner shared ts
              end
          | Some (TUnlock k) =>
              if decide (owner = Some i) then run_threads sched None shared (<[i := k]> ts) else Crash
          | Some (TStore v k) => run_threads sched owner v (<[i := k]> ts)
          | Some TCrash => Crash
          | _ => run_threads sched owner shared ts
          end
      end
  end.

(** ** The transition system *)

Section threads.
Context {G : Type} {LG : Library G}.

Record config (A : Type) := Config { owner : option nat; threads : list (tprog A * G) }.
#[local] Arguments Config {A} owner threads.
#[local] Arguments owner {A} c.
#[local] Arguments threads {A} c.

Inductive mutex_step {A} : config A -> config A -> Prop :=
| StepCall o ts i X (c : call X) k g x :
    ts !! i = Some (TCall c k, g) -> lib_ok g c x ->
    mutex_step (Config o ts) (Config o (<[i := (k x, lib_step g c x)]> ts))
| StepStore o ts i v k g :
    ts !! i = Some (TStore v k, g) -> mutex_step (Config o ts) (Config o (<[i := (k, g)]> ts))
| StepLock ts i k g :
    ts !! i = Some (TLock k, g) -> mutex_step (Config None ts) (Config (Some i) (<[i := (k, g)]> ts))
| StepUnlock ts i k g :
    ts !! i = Some (TUnlock k, g) -> mutex_step (Config (Some i) ts) (Config None (<[i := (k, g)]> ts)).

(** ** Specifying one thread *)

(** From a state in which the thread holds the mutex or not, with at most [b]
    steps to go: it neither takes a mutex it holds nor gives back one it does
    not hold, has no undefined behaviour, does not poll for ever, and ends in
    [Q]. *)
Fixpoint twp {R} (p : tprog R) (b : nat) (mine : bool) (g : G) (Q : bool -> G -> R -> Prop) : Prop :=
  match p with
  | TPure r => Q mine g r
  | TCall c k =>
      match b with
      | O => False
      | S b => forall x, lib_ok g c x -> twp (k x) b mine (lib_step g c x) Q
      end
  | TLock k => match b with O => False | S b => mine = false /\ twp k b true g Q end
  | TUnlock k => match b with O => False | S b => mine = true /\ twp k b false g Q end
  | TStore _ k => match b with O => False | S b => twp k b mine g Q end
  | TCrash | TSpin => False
  end.

Lemma twp_mono {R} (p : tprog R) (Q Q' : bool -> G -> R -> Prop) : forall b b' mine g,
  (b <= b')%nat -> twp p b mine g Q -> (forall mine g r, Q mine g r -> Q' mine g r) ->
  twp p b' mine g Q'.
Proof.
  induction p as [r|X c k IH|k IH|k IH|v k IH| |]; intros b b' mine g Hb Hp HQ; simpl in *; auto;
    (destruct b as [|b]; [done|]); (destruct b' as [|b']; [lia|]).
  - intros x Hx. eapply IH; [|by apply Hp|done]. lia.
  - destruct Hp as [? Hp]. split; [done|]. eapply IH; [|exact Hp|done]. lia.
  - destruct Hp as [? Hp]. split; [done|]. eapply IH; [|exact Hp|done]. lia.
  - eapply IH; [|exact Hp|done]. lia.
Qed.

Lemma twp_le {R} (p : tprog R) b b' mine g Q : (b <= b')%nat -> twp p b mine g Q -> twp p b' mine g Q.
Proof. intros Hb Hp. by eapply twp_mono. Qed.

(** Calling a function with a specification. *)
Lemma twp_call {A B} (p : tprog A) (f : A -> tprog B) (P : bool -> G -> A -> Prop) Q :
  forall b1 b2 mine g, twp p b1 mine g P ->
  (forall mine g a, P mine g a -> twp (f a) b2 mine g Q) -> twp (p ≫= f) (b1 + b2) mine g Q.
Proof.
  induction p as [r|X c k IH|k IH|k IH|v k IH| |]; intros b1 b2 mine g Hp Hf; simpl in *; try done.
  - eapply twp_mono; [|by apply Hf|done]. lia.
  - destruct b1; [done|]. simpl. intros x Hx. by apply IH; [apply Hp|].
  - destruct b1; [done|]. destruct Hp as [? Hp]. simpl. split; [done|]. by apply IH.
  - destruct b1; [done|]. destruct Hp as [? Hp]. simpl. split; [done|]. by apply IH.
  - destruct b1; [done|]. simpl. by apply IH.
Qed.

Lemma twp_call_le {A B} (p : tprog A) (f : A -> tprog B) (P : bool -> G -> A -> Prop) Q b1 b2 b mine g :
  (b1 + b2 <= b)%nat -> twp p b1 mine g P ->
  (forall mine g a, P mine g a -> twp (f a) b2 mine g Q) -> twp (p ≫= f) b mine g Q.
Proof. intros Hb Hp Hf. eapply twp_mono; [exact Hb|by eapply twp_call|done]. Qed.

(** The same for code that does not touch the mutex. *)
Lemma twp_lift_call {A B} (p : prog A) (f : A -> prog B) (P : G -> A -> Prop) Q : forall b1 b2 b mine g,
  (b1 + b2 <= b)%nat -> twp (lift p) b1 mine g (fun m g a => m = mine /\ P g a) ->
  (forall g a, P g a -> twp (lift (f a)) b2 mine g Q) -> twp (lift (p ≫= f)) b mine g Q.
Proof.
  induction p as [r|X c k IH| |]; intros b1 b2 b mine g Hb Hp Hf; simpl in *; try done.
  - destruct Hp as [_ Hp]. eapply twp_mono; [|by apply Hf|done]. lia.
  - destruct b1; [done|]. destruct b; [lia|]. simpl. intros x Hx. eapply (IH x b1 b2); [lia|by apply Hp|done].
Qed.

(** Single steps. *)
Lemma twp_ask {R X} (c : call X) (k : X -> tprog R) b mine g Q :
  (forall x, lib_ok g c x -> twp (k x) b mine (lib_step g c x) Q) -> twp (TCall c k) (S b) mine g Q.
Proof. done. Qed.

Lemma twp_lock {R} (k : tprog R) b g Q : twp k b true g Q -> twp (TLock k) (S b) false g Q.
Proof. done. Qed.

Lemma twp_unlock {R} (k : tprog R) b g Q : twp k b false g Q -> twp (TUnlock k) (S b) true g Q.
Proof. done. Qed.

Lemma twp_store {R} v (k : tprog R) b mine g Q : twp k b mine g Q -> twp (TStore v k) (S b) mine g Q.
Proof. done. Qed.

(** ** All threads *)

Definition mine {A} (s : config A) (i : nat) : bool := bool_decide (owner s = Some i).

(** Every thread satisfies its specification, [bs] being their bounds. *)
Definition all_safe {A} (Qs : nat -> bool -> G -> A -> Prop) (bs : list nat) (s : config A) : Prop :=
  length bs = length (threads s) /\
  forall i p g b, threads s !! i = Some (p, g) -> bs !! i = Some b -> twp p b (mine s i) g (Qs i).

Lemma all_safe_update {A} Qs bs s i (p : tprog A) g b b' o' :
  all_safe Qs bs s -> threads s !! i = Some (p, g) -> bs !! i = Some b ->
  (forall j, j <> i -> bool_decide (o' = Some j) = mine s j) ->
  forall p' g', twp p' b' (bool_decide (o' = Some i)) g' (Qs i) ->
  all_safe Qs (<[i := b']> bs) (Config o' (<[i := (p', g')]> (threads s))).
Proof.
  intros [Hl Hs] Hi Hb Ho p' g' Hp'. split; [cbn; by rewrite !length_insert|].
  intros j q h c Hj Hc. cbn [threads] in Hj. unfold mine at 1. cbn [owner].
  destruct (decide (i = j)) as [<-|Hne].
  - rewrite list_lookup_insert_eq in Hj by (by eapply lookup_lt_Some).
    rewrite list_lookup_insert_eq in Hc by (by eapply lookup_lt_Some). by simplify_eq.
  - rewrite list_lookup_insert_ne in Hj by done. rewrite list_lookup_insert_ne in Hc by done.
    rewrite Ho by done. by apply Hs.
Qed.

Lemma sum_insert (bs : list nat) i b : bs !! i = Some (S b) ->
  sum_list bs = S (sum_list (<[i := b]> bs)).
Proof.
  revert i. induction bs as [|x bs IH]; intros [|i] Hi; simpl in *; simplify_eq; [lia|].
  rewrite (IH i Hi). lia.
Qed.

(** A step keeps every specification and uses up one of the steps left. *)
Lemma mutex_step_safe {A} Qs bs (s s' : config A) :
  mutex_step s s' -> all_safe Qs bs s ->
  exists bs', all_safe Qs bs' s' /\ sum_list bs = S (sum_list bs').
Proof.
  intros Hstep Hs. destruct Hstep as [o ts i X c k g x Hi Hx|o ts i v k g Hi|ts i k g Hi|ts i k g Hi].
  all: pose proof Hs as [Hl Hall]; cbn [threads] in Hl.
  all: assert (is_Some (bs !! i)) as [b Hb]
    by (apply lookup_lt_is_Some; rewrite Hl; by eapply lookup_lt_Some).
  all: specialize (Hall i _ _ _ Hi Hb); destruct b as [|b]; [done|].
  all: exists (<[i := b]> bs); (split; [|by apply sum_insert]).
  - eapply (all_safe_update Qs bs (Config o ts)); [done..|]. by apply Hall.
  - eapply (all_safe_update Qs bs (Config o ts)); [done|exact Hi|done..].
  - destruct Hall as [_ Hall]. eapply (all_safe_update Qs bs (Config None ts)); [done|exact Hi|done| |].
    + intros j Hj. unfold mine. cbn [owner]. by rewrite !bool_decide_false by congruence.
    + by rewrite bool_decide_true.
  - destruct Hall as [_ Hall]. eapply (all_safe_update Qs bs (Config (Some i) ts)); [done|exact Hi|done| |].
    + intros j Hj. unfold mine. cbn [owner]. by rewrite !bool_decide_false by congruence.
    + by rewrite bool_decide_false.
Qed.

(** No execution is longer than the bounds together. *)
Lemma mutex_steps_safe {A} Qs n (s s' : config A) : nsteps mutex_step n s s' -> forall bs,
  all_safe Qs bs s ->
  exists bs', all_safe Qs bs' s' /\ sum_list bs = (n + sum_list bs')%nat.
Proof.
  induction 1 as [s|n s s1 s' Hstep _ IH]; intros bs Hs; [by exists bs|].
  destruct (mutex_step_safe Qs bs s s1 Hstep Hs) as (bs1 & Hs1 & E).
  destruct (IH bs1 Hs1) as (bs' & Hs' & E'). exists bs'. split; [done|lia].
Qed.

(** When no thread returns with the mutex and the library answers every call,
    some thread can go on as long as one has not returned. *)
Lemma no_deadlock {A} Qs bs (s : config A) i p g :
  (forall X g (c : call X), exists x, lib_ok g c x) ->
  all_safe Qs bs s -> (forall i g r, ~ Qs i true g r) ->
  (forall i, owner s = Some i -> is_Some (threads s !! i)) ->
  threads s !! i = Some (p, g) -> (forall r, p <> TPure r) -> exists s', mutex_step s s'.
Proof.
  intros Hlib [Hl Hs] HQ Ho Hi Hp. destruct s as [o ts]. cbn [threads owner] in *.
  assert (forall j q h, ts !! j = Some (q, h) -> exists b, twp q b (bool_decide (o = Some j)) h (Qs j)) as Hs'.
  { intros j q h Hj. assert (is_Some (bs !! j)) as [b Hb]
      by (apply lookup_lt_is_Some; rewrite Hl; by eapply lookup_lt_Some).
    exists b. by apply (Hs j q h b). }
  assert (forall j X (c : call X) k h, ts !! j = Some (TCall c k, h) ->
    exists s', mutex_step (Config o ts) s') as Hcall.
  { intros j X c k h Hj. destruct (Hlib X h c) as [x Hx]. eexists. by eapply StepCall. }
  assert (forall j v k h, ts !! j = Some (TStore v k, h) -> exists s', mutex_step (Config o ts) s') as Hstore.
  { intros j v k h Hj. eexists. by eapply StepStore. }
  destruct o as [j|].
  - destruct (Ho j eq_refl) as [[q h] Hj]. destruct (Hs' j q h Hj) as [b Hq].
    rewrite bool_decide_true in Hq by done.
    destruct q as [r|X c k|k|k|v k| |]; cbn [twp] in Hq; try done; [by apply HQ in Hq|by eapply Hcall|by destruct b as [|b]; [|destruct Hq]| |by eapply Hstore].
    eexists. by eapply StepUnlock.
  - destruct (Hs' i p g Hi) as [b Hq]. rewrite bool_decide_false in Hq by done.
    destruct p as [r|X c k|k|k|v k| |]; cbn [twp] in Hq; try done; [by destruct (Hp r)|by eapply Hcall| |by destruct b as [|b]; [|destruct Hq]|by eapply Hstore].
    eexists. by eapply StepLock.
Qed.

(** The owner of the mutex is one of the threads. *)
Lemma mutex_steps_owner {A} n (s s' : config A) : nsteps mutex_step n s s' ->
  length (threads s') = length (threads s) /\
  ((forall i, owner s = Some i -> is_Some (threads s !! i)) ->
   forall i, owner s' = Some i -> is_Some (threads s' !! i)).
Proof.
  induction 1 as [s|n s s1 s' Hstep _ [IHl IH]]; [done|].
  assert (length (threads s1) = length (threads s)) as El by (destruct Hstep; cbn; by rewrite length_insert).
  split; [congruence|]. intros Ho. apply IH. intros i Hi. apply lookup_lt_is_Some. rewrite El.
  destruct Hstep; cbn [owner threads] in *; simplify_eq;
    [apply lookup_lt_is_Some; by apply Ho..|by eapply lookup_lt_Some].
Qed.

(** Running the threads under a schedule, with an oracle whose answers are
    allowed in any state of the library: it ends with threads that satisfy
    their specifications, or the schedule ends first. *)
Lemma run_threads_safe {A} Qs (o : oracle) : (forall X tr (c : call X) g, lib_ok g c (o X tr c)) ->
  forall sched ow sh (ts : list (tprog A * G)) bs tr, all_safe Qs bs (Config ow ts) ->
  match run o (run_threads sched ow sh (fst <$> ts)) tr with
  | (Ret rs, _) => exists ow' ts' bs', all_safe Qs bs' (Config ow' ts') /\ fst <$> ts' = TPure <$> rs.1 /\
                     length ts' = length ts
  | (NoFuel, _) => True
  | _ => False
  end.
Proof.
  intros Ho. induction sched as [|i sched IH]; intros ow sh ts bs tr Hs; cbn [run_threads];
    destruct (all_done (fst <$> ts)) as [rs|] eqn:E; try done.
  1,2: exists ow, ts, bs; split_and!; [done| |done]; revert E; clear; unfold all_done;
    revert rs; induction ts as [|[p g] ts IH]; intros rs; simpl; [by intros [= <-]|];
    destruct p; try done; destruct (mapM _ _) as [rs'|]; try done; simpl; intros [= <-];
    simpl; f_equal; by apply IH.
  rewrite list_lookup_fmap. destruct (ts !! i) as [[p g]|] eqn:Hi; cbn [fmap option_fmap option_map fst]; [|by eapply IH].
  assert (forall q h ow' sh' tr, mutex_step (Config ow ts) (Config ow' (<[i := (q, h)]> ts)) ->
    match run o (run_threads sched ow' sh' (<[i := q]> (fst <$> ts))) tr with
    | (Ret rs, _) => exists ow' ts' bs', all_safe Qs bs' (Config ow' ts') /\ fst <$> ts' = TPure <$> rs.1 /\
                       length ts' = length ts
    | (NoFuel, _) => True
    | _ => False
    end) as Hgo.
  { intros q h ow' sh' tr' Hstep. destruct (mutex_step_safe Qs bs _ _ Hstep Hs) as (bs' & Hs' & _).
    specialize (IH ow' sh' _ bs' tr' Hs'). by rewrite list_fmap_insert, length_insert in IH. }
  destruct Hs as [Hl Hall]. cbn [threads] in Hl, Hall.
  assert (is_Some (bs !! i)) as [b Hb] by (apply lookup_lt_is_Some; rewrite Hl; by eapply lookup_lt_Some).
  pose proof (Hall i p g b Hi Hb) as Hp. unfold mine in Hp. cbn [owner] in Hp.
  destruct p as [r|X c k|k|k|v k| |]; cbn [twp] in Hp; try done.
  - by eapply IH.
  - cbn [run]. eapply Hgo. by eapply StepCall.
  - destruct ow as [j|]; [by eapply IH|]. eapply Hgo. by eapply StepLock.
  - destruct b as [|b]; [done|]. destruct Hp as [Hm Hp]. apply bool_decide_eq_true in Hm. subst ow.
    rewrite decide_True by done. eapply Hgo. by eapply StepUnlock.
  - eapply Hgo. by eapply StepStore.
Qed.
End threads.

#[global] Arguments Config {G A} owner threads.
#[global] Arguments owner {G A} c.
#[global] Arguments threads {G A} c.
#[global] Arguments twp : simpl never.

(** * The threads of doca_dma_2 *)

Module Dma2.

(** ** benchmark.c *)

Definition timespec_add (lhs rhs : timespec) : timespec :=
  let nsec := tv_nsec lhs + tv_nsec rhs in
  let sec := tv_sec lhs + tv_sec rhs in
  if NANO <=? nsec then Timespec (sec + 1) (nsec - NANO) else Timespec sec nsec.

Definition timespec_sub (lhs rhs : timespec) : timespec :=
  let nsec := tv_nsec lhs - tv_nsec rhs in
  let sec := tv_sec lhs - tv_sec rhs in
  if nsec <? 0 then Timespec (sec - 1) (nsec + NANO) else Timespec sec nsec.

(** ** Resources *)

(** [struct dma_copy_resources] and the core objects its [state] points to, with
    an array per kind of object that every thread has. *)
Record dma_copy_resources := Resources2 {
  dma_ctx : array;
  state_addr : Z;
  dev : Z;
  dst_mmap : Z;
  pe : array;
  ctx : array;
  buf_inv : array
}.

Definition set_objects (r : dma_copy_resources) (dma p c inv : array) : dma_copy_resources :=
  Resources2 dma (state_addr r) (dev r) (dst_mmap r) p c inv.

Definition max_bufs : Z := 6.

(** One round of the loop of [allocate_dma_copy_resources]; the result is that of
    the last call. *)
Definition create_thread_objects (r : dma_copy_resources) (t : nat)
  : prog (doca_error * dma_copy_resources) :=
  let t := Z.of_nat t in
  '(_, inv) ← invoke (doca_buf_inventory_create max_bufs);
  invs ← array_set (buf_inv r) t inv;
  _ ← invoke (doca_buf_inventory_start inv);
  '(_, p) ← invoke doca_pe_create;
  pes ← array_set (pe r) t p;
  '(_, dma) ← invoke (doca_dma_create (dev r));
  dmas ← array_set (dma_ctx r) t dma;
  c ← invoke (doca_dma_as_ctx dma);
  ctxs ← array_set (ctx r) t c;
  _ ← invoke (doca_pe_connect_ctx p c);
  result ← invoke (doca_dma_task_memcpy_set_conf dma 1);
  Pure (result, set_objects r dmas pes ctxs invs).

Fixpoint create_all (ts : list nat) (result : doca_error) (r : dma_copy_resources)
  : prog (doca_error * dma_copy_resources) :=
  match ts with
  | [] => Pure (result, r)
  | t :: ts => '(result, r) ← create_thread_objects r t; create_all ts result r
  end.

Definition sizeof_program_core_objects : Z := 48.

(** The fields of [state] are written before the pointer is tested. *)
Definition allocate_dma_copy_resources (num_threads : Z) : prog (doca_error * dma_copy_resources) :=
  dmas ← malloc_array num_threads;
  p ← invoke (malloc sizeof_program_core_objects);
  if p =? 0 then Crash else
  pes ← malloc_array num_threads;
  ctxs ← malloc_array num_threads;
  invs ← malloc_array num_threads;
  let r := Resources2 dmas p 0 0 pes ctxs invs in
  if (addr pes =? 0) || (addr ctxs =? 0) || (addr invs =? 0) then Pure (DOCA_ERROR_NO_MEMORY, r) else
  '(result, d) ← open_dma_device;
  let r := Resources2 dmas p d 0 pes ctxs invs in
  if negb (ok result) then Pure (result, r) else
  '(result, m) ← invoke doca_mmap_create;
  let r := Resources2 dmas p d m pes ctxs invs in
  if negb (ok result) then Pure (result, r) else
  result ← invoke (doca_mmap_add_dev m d);
  create_all (upto (Z.to_nat num_threads)) result r.

Definition get_dma_max_buf_size (resources : dma_copy_resources) : prog (doca_error * Z) :=
  dma_dev_info ← invoke (doca_dev_as_devinfo (dev resources));
  invoke (doca_dma_cap_task_memcpy_get_max_buf_size dma_dev_info).

(** ** The thread *)

(** The label [free_task]. *)
Definition free_task (task : Z) (result : doca_error) : prog doca_error :=
  _ ← invoke (doca_task_free task);
  Pure result.

(** [dma] and [pe] are the thread's own. *)
Definition dpu_submit_dma_task (fuel : nat) (cfg : dma_copy_cfg) (dma pe : Z)
    (bytes_to_copy local_doca_buf remote_doca_buf num_remaining_tasks : Z) : prog doca_error :=
  let '(src_buf, dst_buf) := if is_sender cfg then (local_doca_buf, remote_doca_buf)
                             else (remote_doca_buf, local_doca_buf) in
  '(result, data) ← invoke (doca_buf_get_data src_buf);
  if negb (ok result) then Pure result else
  result ← invoke (doca_buf_set_data src_buf data bytes_to_copy);
  if negb (ok result) then Pure result else
  '(result, task) ← invoke (doca_dma_task_memcpy_alloc_init dma src_buf dst_buf);
  if negb (ok result) then Pure result else
  result ← invoke (doca_task_submit task);
  if negb (ok result) then free_task task DOCA_ERROR_UNEXPECTED else
  '(_, task_result) ← wait_for_tasks fuel pe (num_remaining_tasks, None);
  match task_result with
  | None => Crash
  | Some task_result =>
      if negb (ok task_result) then free_task task task_result else free_task task result
  end.

(** [clock_gettime(CLOCK_REALTIME, &t)] *)
Definition read_clock (t : timespec) : prog timespec :=
  now ← invoke clock_gettime;
  Pure (match now with Some (sec, nsec) => Timespec sec nsec | None => t end).

(** The time stamps and the sums of a thread. *)
Record times := Times {
  setup_start : timespec;
  dma_task_start : timespec;
  cleanup_start : timespec;
  cleanup_end : timespec;
  total_setup_lt : timespec;
  total_dma_task_lt : timespec;
  total_cleanup_lt : timespec
}.

Definition no_times : times :=
  Times time_zero time_zero time_zero time_zero time_zero time_zero time_zero.

(** What a thread works with: [thread_args] and the values read from its
    resources. *)
Record thread_args := ThreadArgs {
  dma_cfg : dma_copy_cfg;
  comch : comch_cfg;
  resources : dma_copy_resources;
  remote_mmap : Z;
  ops_per_thread : Z;
  thread_idx : Z
}.

Section thread.
Context `{Padding}.

(** [send_status_msg] to the peer. *)
Definition report (a : thread_args) (status : bool) : prog unit :=
  send_status_msg (comch a) (comch_util_get_connection (Some (comch a))) status.

(** One round of the loop: the result, and whether the loop goes on. The
    mutex is not given back on the two paths on which no buffer could be had. *)
Definition copy_round (fuel : nat) (a : thread_args) (inv dma pe : Z) (s : times)
  : tprog (bool * doca_error * times) :=
  let cfg := dma_cfg a in
  setup_start ← lift (read_clock (setup_start s));
  _ ← pthread_mutex_lock;
  '(result, remote) ← ask (doca_buf_inventory_buf_get_by_addr inv (remote_mmap a) (host_addr cfg)
                             (file_size cfg));
  let s := Times setup_start (dma_task_start s) (cleanup_start s) (cleanup_end s)
             (total_setup_lt s) (total_dma_task_lt s) (total_cleanup_lt s) in
  if negb (ok result) then
    _ ← lift (report a STATUS_FAILURE);
    TPure (false, result, s) else
  '(result, local) ← ask (doca_buf_inventory_buf_get_by_addr inv (dst_mmap (resources a))
                            (file_buffer cfg) (file_size cfg));
  if negb (ok result) then
    _ ← lift (report a STATUS_FAILURE);
    result ← lift (release_buf remote result);
    TPure (false, result, s) else
  _ ← pthread_mutex_unlock;
  dma_task_start ← lift (read_clock (dma_task_start s));
  let s := Times setup_start dma_task_start (cleanup_start s) (cleanup_end s)
             (total_setup_lt s) (total_dma_task_lt s) (total_cleanup_lt s) in
  result ← lift (dpu_submit_dma_task fuel cfg dma pe (file_size cfg) local remote 1);
  if negb (ok result) then
    _ ← lift (report a STATUS_FAILURE);
    result ← lift (release_buf local result);
    result ← lift (release_buf remote result);
    TPure (false, result, s) else
  cleanup_start ← lift (read_clock (cleanup_start s));
  _ ← pthread_mutex_lock;
  result ← lift (release_buf local result);
  result ← lift (release_buf remote result);
  _ ← pthread_mutex_unlock;
  cleanup_end ← lift (read_clock (cleanup_end s));
  TPure (true, result,
         Times setup_start dma_task_start cleanup_start cleanup_end
           (timespec_add (total_setup_lt s) (get_duration setup_start dma_task_start))
           (timespec_add (total_dma_task_lt s) (get_duration dma_task_start cleanup_start))
           (timespec_add (total_cleanup_lt s) (get_duration cleanup_start cleanup_end))).

(** [for (i = 0; i < ops; i++)], with [n] rounds to go. The result is
    indeterminate before the first one. *)
Fixpoint copy_rounds (n fuel : nat) (a : thread_args) (inv dma pe : Z) (result : option doca_error)
    (s : times) : tprog (option doca_error * times) :=
  match n with
  | O => TPure (result, s)
  | S n =>
      '(go_on, result, s) ← copy_round fuel a inv dma pe s;
      if go_on : bool then copy_rounds n fuel a inv dma pe (Some result) s else TPure (Some result, s)
  end.

(** The maximum buffer size goes into the configuration that the threads share
    and is not read there. [ops] is an [int] and the loop counts with a
    [uint64_t], so that a negative number is a very large one. *)
Definition dpu_start_dma_copy_thread (fuel : nat) (a : thread_args) : tprog (option doca_error * times) :=
  let r := resources a in
  c ← lift (array_get (ctx r) (thread_idx a));
  inv ← lift (array_get (buf_inv r) (thread_idx a));
  p ← lift (array_get (pe r) (thread_idx a));
  dma ← lift (array_get (dma_ctx r) (thread_idx a));
  '(result, size) ← lift (get_dma_max_buf_size r);
  _ ← (if ok result then store size else TPure tt);
  _ ← ask (doca_ctx_set_user_data c 1);
  _ ← ask (doca_ctx_start c);
  copy_rounds (Z.to_nat (u64 (ops_per_thread a))) fuel a inv dma p None no_times.

(** ** The DPU's side *)

(** [while (dma_cfg->comch_state == COMCH_NEGOTIATING)]: the result of the
    progress is ignored. *)
Fixpoint negotiate (fuel : nat) (s : comch_cfg * dma_copy_cfg) : prog (comch_cfg * dma_copy_cfg) :=
  match fuel with
  | O => Spin
  | S fuel =>
      if bool_decide (comch_state s.2 = COMCH_NEGOTIATING) then
        _ ← invoke nanosleep;
        '(_, s) ← comch_utils_progress_connection dpu_recv_event_cb s
                    (comch_util_get_connection (Some s.1));
        negotiate fuel s
      else Pure s
  end.

(** One round of the loop at the end. *)
Definition destroy_thread_objects (fuel : nat) (r : dma_copy_resources) (t : nat) : prog unit :=
  p ← array_get (pe r) (Z.of_nat t);
  c ← array_get (ctx r) (Z.of_nat t);
  inv ← array_get (buf_inv r) (Z.of_nat t);
  _ ← request_stop_ctx fuel p c;
  dma ← array_get (dma_ctx r) (Z.of_nat t);
  _ ← unless_null dma (invoke_ (doca_dma_destroy dma));
  _ ← unless_null inv (_ ← invoke (doca_buf_inventory_stop inv); invoke_ (doca_buf_inventory_destroy inv));
  unless_null p (invoke_ (doca_pe_destroy p)).

Definition sizeof_double : Z := 8.
Definition sizeof_thread_args : Z := 80.

(** The threads, from the arrays for their arguments and latencies to the end of
    the joins; [None] is [exit(EXIT_FAILURE)]. Threads are always created. The
    blocks of [calloc] are written, so that none may be NULL; [targs] is not
    freed. *)
Definition copy_with_threads (fuel : nat) (sched : list nat) (r : dma_copy_resources) (remote : Z)
    (s : comch_cfg * dma_copy_cfg) : prog (option (Z * dma_copy_cfg)) :=
  let cfg := s.2 in
  let n := num_threads cfg in
  let ops_per_thread := Z.quot (ops (stat cfg)) n in
  threads ← invoke (calloc n sizeof_pthread_t);
  setup_latency ← invoke (calloc n sizeof_double);
  dma_task_latency ← invoke (calloc n sizeof_double);
  cleanup_latency ← invoke (calloc n sizeof_double);
  targs ← invoke (calloc n sizeof_thread_args);
  if (threads =? 0) || (setup_latency =? 0) || (dma_task_latency =? 0) || (cleanup_latency =? 0)
     || (targs =? 0) then Crash else
  start ← read_clock time_zero;
  '(_, size) ← run_threads sched None (max_dma_buf_size cfg)
        (map (fun t => dpu_start_dma_copy_thread fuel
                         (ThreadArgs cfg s.1 r remote ops_per_thread (Z.of_nat t)))
           (upto (Z.to_nat n)));
  fin ← read_clock time_zero;
  let cfg := set_stat (set_max_dma_buf_size cfg size) (Statistics (ops (stat cfg)) (stat_file_size (stat cfg))
                             (get_duration start fin)) in
  written ← write_statistics_to_file result_json;
  if negb written then Pure None else
  _ ← invoke (free setup_latency);
  _ ← invoke (free dma_task_latency);
  _ ← invoke (free cleanup_latency);
  Pure (Some (threads, cfg)).

(** From the end of the joins on. *)
Definition clean_up (fuel : nat) (r : dma_copy_resources) (remote threads : Z)
    (s : comch_cfg * dma_copy_cfg) : prog unit :=
  let cfg := s.2 in
  _ ← invoke (doca_mmap_stop remote);
  _ ← invoke (doca_mmap_destroy remote);
  _ ← unless_null (exported_mmap cfg) (invoke_ (free (exported_mmap cfg)));
  _ ← invoke (doca_mmap_stop (dst_mmap r));
  _ ← invoke (doca_mmap_destroy (dst_mmap r));
  _ ← for_unit (upto (Z.to_nat (num_threads cfg))) (destroy_thread_objects fuel r);
  _ ← invoke (free threads);
  _ ← invoke (doca_dev_close (dev r));
  _ ← invoke (free (file_buffer cfg));
  _ ← invoke (free (addr (buf_inv r)));
  _ ← invoke (free (addr (pe r)));
  _ ← invoke (free (addr (ctx r)));
  _ ← invoke (free (addr (dma_ctx r)));
  _ ← invoke (free (state_addr r));
  send_status_msg s.1 (comch_util_get_connection (Some s.1)) STATUS_SUCCESS.

(** The result is that of [get_dma_max_buf_size]. *)
Definition dpu_start_dma_copy (fuel : nat) (sched : list nat) (s : comch_cfg * dma_copy_cfg)
  : prog (option (doca_error * (comch_cfg * dma_copy_cfg))) :=
  '(result, r) ← allocate_dma_copy_resources (num_threads s.2);
  if negb (ok result) then Pure (Some (DOCA_ERROR_UNEXPECTED, s)) else
  '(result, size) ← get_dma_max_buf_size r;
  let s := (s.1, set_max_dma_buf_size s.2 size) in
  let flags := if is_sender s.2 then DOCA_ACCESS_FLAG_LOCAL_READ_ONLY
               else DOCA_ACCESS_FLAG_LOCAL_READ_WRITE in
  s ← negotiate fuel s;
  '(_, b) ← memory_alloc_and_populate (dst_mmap r) (file_size s.2) flags (file_buffer s.2);
  let s := (s.1, set_file_buffer s.2 b) in
  '(e, m) ← invoke (doca_mmap_create_from_export (exported_desc s.2) (dev r));
  let remote := if ok e then m else 0 in
  done ← copy_with_threads fuel sched r remote s;
  match done with
  | None => Pure None
  | Some (threads, cfg) =>
      let s := (s.1, cfg) in
      _ ← clean_up fuel r remote threads s;
      Pure (Some (result, s))
  end.

(** ** dma_copy.c *)

Context `{DocaSizes}.

Definition initial_cfg (arch_dpu : bool) : dma_copy_cfg := set_num_threads (DmaCopy.initial_cfg arch_dpu) 2.

Definition run_application (fuel : nat) (sched : list nat) (arch_dpu : bool) (cfg : dma_copy_cfg) : prog Z :=
  '(result, comch, cfg) ← comch_utils_init (recv_event_cb arch_dpu) fuel arch_dpu
     (Some SERVER_NAME) (Some (cc_dev_pci_addr cfg)) (Some (cc_dev_rep_pci_addr cfg)) 1 1 1 false cfg;
  if negb (ok result) then destroy_argp EXIT_FAILURE else
  match comch with
  | None => Crash
  | Some comch =>
      copied ← (if bool_decide (mode cfg = DMA_COPY_MODE_HOST)
                then r ← host_start_dma_copy fuel (comch, cfg); Pure (Some r)
                else dpu_start_dma_copy fuel sched (comch, cfg));
      match copied with
      | None => Pure EXIT_FAILURE
      | Some (result, s) =>
          let exit_status := if ok result then EXIT_SUCCESS else EXIT_FAILURE in
          '(result, s) ← comch_utils_destroy (recv_event_cb arch_dpu) fuel s;
          destroy_argp (if negb (ok result) then EXIT_FAILURE else exit_status)
      end
  end.

Definition main (fuel : nat) (sched : list nat) (arch_dpu : bool) : prog Z :=
  let cfg := initial_cfg arch_dpu in
  result ← invoke doca_log_backend_create_standard;
  if negb (ok result) then Pure EXIT_FAILURE else
  '(result, sdk_log) ← invoke doca_log_backend_create_with_file_sdk;
  if negb (ok result) then Pure EXIT_FAILURE else
  result ← invoke (doca_log_backend_set_sdk_level sdk_log);
  if negb (ok result) then Pure EXIT_FAILURE else
  result ← invoke (doca_argp_init "doca_dma_copy");
  if negb (ok result) then Pure EXIT_FAILURE else
  result ← register_dma_copy_params;
  if negb (ok result) then destroy_argp EXIT_FAILURE else
  '(result, args) ← invoke doca_argp_start;
  '(callback_result, cfg) ← apply_arguments args cfg;
  if negb (ok callback_result) then destroy_argp EXIT_FAILURE else
  if negb (ok result) then destroy_argp EXIT_FAILURE else
  run_application fuel sched arch_dpu cfg.
End thread.
End Dma2.
