(* ===== verification/Dma2Props.v ===== *)
(** * Dma2Props: the threads of doca_dma_2

    The contract [copy_library] is what a thread relies on of its own library
    objects: buffers it was given, the one task it has in flight, and events of
    that task. A thread is specified against it with the logic of Dma2.v; the
    theorems on all threads follow. *)

From stdpp Require Import relations.
From S2P Require Import Prelude.
From S2P Require Import Doca.
From S2P Require Import Ownership.
From S2P Require Import Dma2.
From S2P Require Import Common.
From S2P Require Import ComchUtils.
From S2P Require Import Dma3.
From S2P Require Import DmaCopy.

(** ** The contract *)

Record copy_state := CopyState {
  bufs : list Z;            (* buffers held, the last one first *)
  task : option Z;          (* allocated *)
  flight : bool;            (* submitted and not completed *)
  waits : nat;              (* progress calls since the submission *)
  copies : nat;             (* completed tasks *)
  no_buffer : bool;         (* a buffer could not be had *)
  errors : bool             (* a call for the copy, or the task, failed *)
}.

Definition idle_state : copy_state := CopyState [] None false 0 0 false false.

(** Something failed. *)
Definition fail (g : copy_state) (b : bool) : copy_state :=
  CopyState (bufs g) (task g) (flight g) (waits g) (copies g) (no_buffer g) (errors g || b).

(** The first buffer equal to [b] is removed. *)
Fixpoint remove_first (b : Z) (l : list Z) : list Z :=
  match l with [] => [] | x :: l => if x =? b then l else x :: remove_first b l end.

Definition copy_step {X} (g : copy_state) (c : call X) : X -> copy_state :=
  match c in call X return X -> copy_state with
  | doca_buf_inventory_buf_get_by_addr _ _ _ _ => fun r =>
      if ok r.1 then CopyState (r.2 :: bufs g) (task g) (flight g) (waits g) (copies g) (no_buffer g) (errors g)
      else CopyState (bufs g) (task g) (flight g) (waits g) (copies g) true true
  | doca_buf_dec_refcount b => fun _ =>
      CopyState (remove_first b (bufs g)) (task g) (flight g) (waits g) (copies g) (no_buffer g) (errors g)
  | doca_buf_get_data _ => fun r => fail g (negb (ok r.1))
  | doca_buf_set_data _ _ _ => fun e => fail g (negb (ok e))
  | doca_dma_task_memcpy_alloc_init _ _ _ => fun r =>
      if ok r.1 then CopyState (bufs g) (Some r.2) false 0 (copies g) (no_buffer g) (errors g)
      else fail g true
  | doca_task_submit t => fun e =>
      if bool_decide (task g = Some t) then
        if ok e then CopyState (bufs g) (task g) true 0 (copies g) (no_buffer g) (errors g) else fail g true
      else g
  | doca_pe_progress _ => fun r =>
      match r.2 with
      | EvDmaCompletion _ :: _ => CopyState (bufs g) (task g) false 0 (S (copies g)) (no_buffer g) (errors g)
      | EvDmaError _ :: _ => CopyState (bufs g) (task g) false 0 (copies g) (no_buffer g) true
      | _ => CopyState (bufs g) (task g) (flight g) (S (waits g)) (copies g) (no_buffer g) (errors g)
      end
  | doca_task_free t => fun _ =>
      if bool_decide (task g = Some t)
      then CopyState (bufs g) None (flight g) (waits g) (copies g) (no_buffer g) (errors g) else g
  | _ => fun _ => g
  end.

(** What is asked of the library: the task in flight completes, with success or
    not, at the latest after [patience] progress calls without it; the status of
    a failed task is an error. [supply] says which buffers can be had:
    whatever the library likes, or all. *)
Inductive supplies := AnyBuffers | AllBuffers.

Section contract.
Context (supply : supplies) (patience : nat).

Definition supplied (e : doca_error) : Prop :=
  match supply with
  | AnyBuffers => True
  | AllBuffers => e = DOCA_SUCCESS
  end.

Definition copy_ok {X} (g : copy_state) (c : call X) : X -> Prop :=
  match c in call X return X -> Prop with
  | doca_buf_inventory_buf_get_by_addr _ _ _ _ => fun r => supplied r.1
  | doca_pe_progress _ => fun r =>
      (r.2 = [] /\ (flight g = true -> (waits g < patience)%nat)) \/
      (flight g = true /\ exists t, r.2 = [EvDmaCompletion t] \/ r.2 = [EvDmaError t])
  | doca_task_get_status _ => fun e => e <> DOCA_SUCCESS
  | _ => fun _ => True
  end.

Instance copy_library : Library copy_state := {
  lib_step X := @copy_step X;
  lib_ok X := @copy_ok X
}.
End contract.

(** ** The functions of a thread *)

Ltac tsimpl := cbn [mbind prog_mbind prog_bind tprog_mbind tprog_bind lift invoke invoke_ ask
                    pthread_mutex_lock pthread_mutex_unlock store Dma2.read_clock].
Ltac task x H := tsimpl; apply twp_ask; intros x H; cbn [lib_ok lib_step copy_library copy_ok copy_step] in *.

Section thread.
Context (supply : supplies) (patience : nat) (fuel : nat).
#[local] Existing Instance copy_library.
Context (Hfuel : (patience + 2 <= fuel)%nat).
Context `{Padding}.
Abbreviation twp := (twp (LG := copy_library supply patience)).

Lemma report_twp a st m g : task g = None ->
  twp (lift (Dma2.report a st)) 4 m g (fun m' g' _ => m' = m /\ g' = g).
Proof using.
  clear Hfuel. intros Ht. unfold Dma2.report, send_status_msg, comch_utils_send, get_comch_cfg_from_connection.
  destruct (comch_util_get_connection _ =? 0); [done|]. task d Hd. destruct (d =? 0); [done|].
  destruct (_ <? _); [done|]. destruct (is_server _); task r Hr.
  all: destruct r as [e t]; destruct (bool_decide _); [done|]; destruct (ok_spec e); [|done].
  all: task e' He'; rewrite Ht; cbn [bool_decide]; rewrite bool_decide_false by done.
  all: destruct (ok_spec e'); [done|]; task u Hu; by rewrite bool_decide_false by (by rewrite Ht).
Qed.

(** The state in which a task was submitted, and that after its event. *)
Definition submitted (g : copy_state) (t : Z) : copy_state :=
  CopyState (bufs g) (Some t) true 0 (copies g) (no_buffer g) (errors g).

Definition waited (g : copy_state) (t : Z) (n : nat) : copy_state :=
  CopyState (bufs g) (Some t) true n (copies g) (no_buffer g) (errors g).

Definition completed (g : copy_state) (t : Z) (failed : bool) : copy_state :=
  CopyState (bufs g) (Some t) false 0 (if failed then copies g else S (copies g)) (no_buffer g)
    (errors g || failed).

Lemma wait_twp g t pe m f : forall n,
  (patience + 2 <= f + n)%nat -> (n <= patience)%nat ->
  twp (lift (wait_for_tasks f pe (1, None))) (3 * f) m (waited g t n)
    (fun m' g' v => m' = m /\ exists failed e, v = (0, Some e) /\ g' = completed g t failed /\
       (e = DOCA_SUCCESS <-> failed = false)).
Proof using.
  clear Hfuel. induction f as [|f IH]; intros n Hn Hp; [lia|]. replace (3 * S f)%nat with (3 + 3 * f)%nat by lia.
  cbn [wait_for_tasks fst Z.ltb Z.compare].
  task r Hr. destruct r as [k es]. cbn [snd flight waits waited] in Hr.
  assert (forall v Q (g' : copy_state), twp (lift (wait_for_tasks f pe v)) (3 * f) m g' Q ->
    twp (lift (_ ← (if k =? 0 then invoke nanosleep else Pure tt); wait_for_tasks f pe v)) (1 + 3 * f) m g' Q)
    as Hsleep.
  { intros v Q g' Hw. destruct (k =? 0); [by task u Hu|]. eapply twp_mono; [|exact Hw|done]. lia. }
  assert (1 <= f)%nat as Hf by lia.
  destruct Hr as [[-> Hlt]|[_ [t' [->| ->]]]].
  - cbn [dma_callbacks snd]. eapply twp_mono; [|apply Hsleep, (IH (S n)); [lia|]|done]; [lia|].
    specialize (Hlt eq_refl). lia.
  - cbn [dma_callbacks snd]. destruct f as [|f]; [lia|]. eapply twp_le; [|apply Hsleep]; [lia|].
    cbn [wait_for_tasks fst Z.ltb Z.compare]. split; [done|]. exists false, DOCA_SUCCESS. split_and!; try done.
    unfold completed. cbn. by rewrite orb_false_r.
  - cbn [dma_callbacks snd]. unfold dma_memcpy_error_callback. task st Hst. destruct f as [|f]; [lia|].
    eapply twp_le; [|apply Hsleep]; [lia|]. split; [done|]. exists true, st. split_and!; try done.
    unfold completed. cbn. by rewrite orb_true_r.
Qed.

(** No task, [bs] held, [c] copies made. *)
Definition ready (bs : list Z) (w c : nat) (failed : bool) : copy_state :=
  CopyState bs None false w c false failed.

Lemma free_task_twp bs t w c failed m e Q :
  Q m (ready bs w c failed) e ->
  twp (lift (Dma2.free_task t e)) 1 m (CopyState bs (Some t) false w c false failed) Q.
Proof using. clear Hfuel. intros HQ. unfold Dma2.free_task. task u Hu. by rewrite bool_decide_true. Qed.

Lemma submit_twp cfg dma pe bytes local remote m bs w c :
  twp (lift (Dma2.dpu_submit_dma_task fuel cfg dma pe bytes local remote 1)) (5 + 3 * fuel) m
    (ready bs w c false)
    (fun m' g' e => m' = m /\ exists w', g' = ready bs w' (if ok e then S c else c) (negb (ok e))).
Proof using Hfuel.
  unfold Dma2.dpu_submit_dma_task. set (d := if is_sender cfg then _ else _). destruct d as [src dst].
  task r Hr. destruct r as [e data]. cbn [fst] in *. destruct (ok_spec e) as [->|Hne]; cbn [negb].
  2: { split; [done|]. exists w. destruct (ok_spec e); [done|]. done. }
  task e He. destruct (ok_spec e) as [->|Hne]; cbn [negb].
  2: { split; [done|]. exists w. destruct (ok_spec e); [done|]. done. }
  task r Hr'. destruct r as [e t]. cbn [fst snd] in *. destruct (ok_spec e) as [->|Hne]; cbn [negb].
  2: { split; [done|]. exists w. destruct (ok_spec e); [done|]. done. }
  task e He'. cbn [task]. rewrite bool_decide_true by done.
  destruct (ok_spec e) as [->|Hne]; cbn [negb].
  2: { eapply twp_le; [|apply free_task_twp]; [lia|]. split; [done|]. by exists 0%nat. }
  eapply (twp_lift_call _ _ (fun g' v => exists failed e, v = (0, Some e) /\
    g' = completed (ready bs 0 c false) t failed /\ (e = DOCA_SUCCESS <-> failed = false)) _ (3 * fuel) 1); [lia| |].
  - eapply (wait_twp (ready bs 0 c false) t pe m fuel 0); lia.
  - intros g' v (failed & e & -> & -> & He''). cbn [snd]. destruct (ok_spec e) as [->|Hne]; cbn [negb].
    + destruct failed; [by destruct He'' as [He'' _]; specialize (He'' eq_refl)|].
      apply free_task_twp. split; [done|]. by exists 0%nat.
    + destruct failed; [|by destruct Hne; apply He'']. apply free_task_twp. split; [done|].
      exists 0%nat. by destruct (ok_spec e).
Qed.

Definition round_bound : nat := 20 + 3 * fuel.

Lemma release_twp b e m g Q :
  (forall e', Q m (copy_step g (doca_buf_dec_refcount b) DOCA_SUCCESS) e') ->
  twp (lift (release_buf b e)) 1 m g Q.
Proof using. clear Hfuel. intros HQ. unfold release_buf. task r Hr. apply HQ. Qed.

(** A thread that has returned. *)
Record returned (n : nat) (m : bool) (g : copy_state) : Prop := Returned {
  rt_bufs : bufs g = [];
  rt_task : task g = None;
  rt_mutex : m = no_buffer g;
  rt_copies : errors g = false -> copies g = n;
  rt_supply : supply = AllBuffers -> no_buffer g = false
}.

(** The state after a round that goes on, or after the last one. *)
Definition round_post (c : nat) (m : bool) (g : copy_state) (r : bool * doca_error * Dma2.times) : Prop :=
  if r.1.1 then m = false /\ exists w, g = ready [] w (S c) false
  else errors g = true /\ forall n, returned n m g.

(** Reporting a failure, then going on from the same state. *)
Lemma report_then {R} a st m g b (f : unit -> tprog R) Q :
  task g = None -> (forall u, twp (f u) b m g Q) -> twp (lift (Dma2.report a st) ≫= f) (4 + b) m g Q.
Proof using.
  clear Hfuel. intros Ht Hf. eapply twp_call_le; [reflexivity|by apply report_twp|].
  intros m' g' u [-> ->]. apply Hf.
Qed.

Lemma release_then {R} bf e m g b (f : doca_error -> tprog R) Q :
  (forall e', twp (f e') b m (copy_step g (doca_buf_dec_refcount bf) DOCA_SUCCESS) Q) ->
  twp (lift (release_buf bf e) ≫= f) (1 + b) m g Q.
Proof using.
  clear Hfuel. intros Hf. eapply (twp_call_le _ _ (fun m' g' _ => m' = m /\
    g' = copy_step g (doca_buf_dec_refcount bf) DOCA_SUCCESS)); [reflexivity|by apply release_twp|].
  intros m' g' e' [-> ->]. apply Hf.
Qed.

Lemma ok_false e : e <> DOCA_SUCCESS -> ok e = false.
Proof using. clear Hfuel. by destruct (ok_spec e). Qed.

Lemma round_twp a inv dma pe s w c :
  twp (Dma2.copy_round fuel a inv dma pe s) round_bound false (ready [] w c false) (round_post c).
Proof using Hfuel.
  unfold Dma2.copy_round, round_bound. task now Hnow. tsimpl. apply twp_lock.
  task r Hr. destruct r as [e remote]. cbn [fst snd] in *. destruct (ok_spec e) as [->|Hne]; cbn [negb].
  2: { eapply twp_le; [|apply (report_then _ _ _ _ 0)]; [lia|done|]. intros _. split; [done|].
       split; try done. by intros ->. }
  task r' Hr'. destruct r' as [e local]. cbn [fst snd bufs ready] in *. destruct (ok_spec e) as [->|Hne]; cbn [negb].
  2: { eapply twp_le; [|apply (report_then _ _ _ _ 1)]; [lia|done|]. intros _.
       apply (release_then _ _ _ _ 0). intros e'. cbn. rewrite Z.eqb_refl. split; [done|].
       split; try done. by intros ->. }
  tsimpl. apply twp_unlock. task now2 Hnow2. tsimpl.
  eapply (twp_call_le _ _ _ _ (5 + 3 * fuel) 8);
    [|apply (submit_twp _ _ _ _ _ _ false [local; remote] w c)|]; [lia|].
  intros m' g' e [-> [w' ->]]. destruct (ok_spec e) as [->|Hne]; cbn [negb].
  - task now3 Hnow3. tsimpl. apply twp_lock.
    apply (release_then _ _ _ _ 5). intros e1. apply (release_then _ _ _ _ 4). intros e2.
    tsimpl. apply twp_unlock. task now4 Hnow4. split; [done|]. exists w'. cbn. by rewrite Z.eqb_refl; cbn; rewrite Z.eqb_refl.
  - apply (report_then _ _ _ _ 4); [done|]. intros _.
    apply (release_then _ _ _ _ 3). intros e1. apply (release_then _ _ _ _ 2). intros e2.
    split; [done|]. split; cbn; try done. by rewrite Z.eqb_refl; cbn; rewrite Z.eqb_refl.
Qed.

Lemma rounds_twp n a inv dma pe : forall result s w c,
  twp (Dma2.copy_rounds n fuel a inv dma pe result s) (n * round_bound) false (ready [] w c false)
    (fun m g _ => returned (c + n) m g).
Proof using Hfuel.
  induction n as [|n IH]; intros result s w c; cbn [Dma2.copy_rounds].
  { split; cbn; done || lia. }
  eapply (twp_call_le _ _ _ _ round_bound (n * round_bound)); [cbn; lia|apply round_twp|].
  intros m g [[go_on e] s'] Hpost. unfold round_post in Hpost. cbn [fst] in Hpost.
  destruct go_on; [destruct Hpost as [-> [w' ->]]|by apply Hpost].
  replace (c + S n)%nat with (S c + n)%nat by lia. apply IH.
Qed.

(** The objects of thread [t] are there. *)
Definition has_objects (r : Dma2.dma_copy_resources) (t : Z) : Prop :=
  is_Some (cells (Dma2.ctx r) !! Z.to_nat t) /\ is_Some (cells (Dma2.buf_inv r) !! Z.to_nat t) /\
  is_Some (cells (Dma2.pe r) !! Z.to_nat t) /\ is_Some (cells (Dma2.dma_ctx r) !! Z.to_nat t).

Definition thread_bound (ops : nat) : nat := 5 + ops * round_bound.

Lemma thread_twp a :
  has_objects (Dma2.resources a) (Dma2.thread_idx a) ->
  twp (Dma2.dpu_start_dma_copy_thread fuel a) (thread_bound (Z.to_nat (u64 (Dma2.ops_per_thread a)))) false idle_state
    (fun m g _ => returned (Z.to_nat (u64 (Dma2.ops_per_thread a))) m g).
Proof using Hfuel.
  intros ([c Hc] & [inv Hinv] & [p Hp] & [dma Hdma]). unfold Dma2.dpu_start_dma_copy_thread, array_get.
  rewrite Hc, Hinv, Hp, Hdma. unfold Dma2.get_dma_max_buf_size, thread_bound.
  task d Hd. task r Hr. destruct r as [res size]. destruct (ok res); tsimpl.
  - apply twp_store. task e He. task e' He'. apply (rounds_twp _ _ _ _ _ _ _ 0 0).
  - task e He. task e' He'. eapply twp_le; [|apply (rounds_twp _ _ _ _ _ _ _ 0 0)]. lia.
Qed.
End thread.

(** The contract can always be met: every call succeeds, and a task completes
    when the patience is used up. *)
Definition obliging (patience : nat) {X} (g : copy_state) (c : call X) : X :=
  match c in call X return X with
  | doca_pe_progress _ =>
      (1, if flight g && (patience <=? waits g)%nat then [EvDmaCompletion 1] else [])
  | doca_task_get_status _ => DOCA_ERROR_UNEXPECTED
  | c => all_ok (fun _ => []) (fun _ => CTX_IDLE) _ [] c
  end.

Lemma obliging_ok supply patience X g (c : call X) :
  lib_ok (Library := copy_library supply patience) g c (obliging patience g c).
Proof.
  destruct c; try exact I; cbn; try done; [by destruct supply|].
  destruct (flight g); cbn; [|by left]. destruct (Nat.leb_spec patience (waits g)).
  - right. split; [done|]. exists 1. by left.
  - left. by split.
Qed.

(** ** All threads *)

(** The threads that [copy_with_threads] creates, with their library objects. *)
Definition created `{Padding} (fuel : nat) (cfg : dma_copy_cfg) (comch : comch_cfg)
    (r : Dma2.dma_copy_resources) (remote ops : Z) (n : nat)
  : list (tprog (option doca_error * Dma2.times)) :=
  map (fun t => Dma2.dpu_start_dma_copy_thread fuel (Dma2.ThreadArgs cfg comch r remote ops (Z.of_nat t)))
    (upto n).

Definition start {G A} (ps : list (tprog A)) (g : G) : config A := Config None (map (fun p => (p, g)) ps).

(** Threads with the same bound and specification. *)
Lemma start_safe {G A} {LG : Library G} (ps : list (tprog A)) (g : G) b (Q : bool -> G -> A -> Prop) :
  (forall p, p ∈ ps -> twp p b false g Q) ->
  all_safe (fun _ => Q) (replicate (length ps) b) (start ps g).
Proof.
  intros Hps. split; [cbn; by rewrite length_replicate, length_map|]. intros i p h b' Hi Hb.
  apply lookup_replicate in Hb as [-> _]. cbn [threads start] in Hi.
  apply list_lookup_fmap_Some in Hi as (q & [= -> ->] & Hq). unfold mine. cbn [owner start].
  rewrite bool_decide_false by done. by apply Hps, (list_elem_of_lookup_2 _ i).
Qed.

Lemma elem_of_created `{Padding} fuel cfg comch r remote ops n p :
  p ∈ created fuel cfg comch r remote ops n ->
  exists t, (t < n)%nat /\
    p = Dma2.dpu_start_dma_copy_thread fuel (Dma2.ThreadArgs cfg comch r remote ops (Z.of_nat t)).
Proof.
  intros (t & -> & Ht)%list_elem_of_fmap. exists t. split; [|done]. apply elem_of_seq in Ht. lia.
Qed.

Lemma sum_replicate n b : sum_list (replicate n b) = (n * b)%nat.
Proof. induction n as [|n IH]; simpl; [done|]. by rewrite IH. Qed.

(** The threads end, whatever their interleaving, when each has library
    objects of its own, every buffer can be had and a submitted task completes,
    with success or not, within [patience] progress calls: there is no deadlock,
    no execution is longer than a bound given by the number of threads and
    operations, so all threads return, and a thread that has returned holds
    neither a buffer nor a task nor the mutex, and has made all its copies unless
    one failed. The unordered writes to the shared configuration are taken to be
    atomic. *)
Theorem dma2_threads_end `{Padding} (patience fuel : nat) (cfg : dma_copy_cfg) (comch : comch_cfg)
    (r : Dma2.dma_copy_resources) (remote ops : Z) (n k : nat)
    (s : config (option doca_error * Dma2.times)) :
  (patience + 2 <= fuel)%nat ->
  (forall t, (t < n)%nat -> has_objects r (Z.of_nat t)) ->
  nsteps (mutex_step (LG := copy_library AllBuffers patience)) k
    (start (created fuel cfg comch r remote ops n) idle_state) s ->
  (k <= n * thread_bound fuel (Z.to_nat (u64 ops)))%nat /\
  ((forall s', ~ mutex_step (LG := copy_library AllBuffers patience) s s') ->
   Forall (fun t => exists x, t.1 = TPure x) (threads s)) /\
  (forall i p g, threads s !! i = Some (p, g) ->
     p <> TCrash /\
     (forall x, p = TPure x -> bufs g = [] /\ task g = None /\ owner s <> Some i /\
        (errors g = false -> copies g = Z.to_nat (u64 ops)))).
Proof.
  intros Hf Hobj Hsteps. set (Q := fun (_ : nat) m g (_ : option doca_error * Dma2.times) =>
    returned AllBuffers (Z.to_nat (u64 ops)) m g).
  assert (all_safe (LG := copy_library AllBuffers patience) Q
            (replicate (length (created fuel cfg comch r remote ops n)) (thread_bound fuel (Z.to_nat (u64 ops))))
            (start (created fuel cfg comch r remote ops n) idle_state)) as Hs.
  { apply start_safe. intros p (t & Ht & ->)%elem_of_created. by apply thread_twp; [|apply Hobj]. }
  destruct (mutex_steps_safe Q k _ s Hsteps _ Hs) as (bs & Hs' & E).
  rewrite sum_replicate in E. unfold created in E. rewrite length_map, length_seq in E.
  assert (forall i p g, threads s !! i = Some (p, g) ->
    exists b, twp (LG := copy_library AllBuffers patience) p b (mine s i) g (Q i)) as Hall.
  { intros i p g Hi. destruct Hs' as [Hl Hs']. assert (is_Some (bs !! i)) as [b Hb]
      by (apply lookup_lt_is_Some; rewrite Hl; by eapply lookup_lt_Some). exists b. by apply Hs'. }
  split_and!; [lia| |].
  - intros Hstuck. apply Forall_lookup. intros i [p g] Hi. cbn [fst].
    destruct p; try (by eexists); exfalso;
      (eassert (exists s', mutex_step s s') as [s' Hs'']; [|by apply (Hstuck s')]);
      (eapply no_deadlock; [intros ? ? ?; eexists; apply obliging_ok|exact Hs'| |
         by apply (mutex_steps_owner _ _ _ Hsteps)|exact Hi|done]);
      intros j h x [_ _ Hm _ Ha]; rewrite Ha in Hm; done.
  - intros i p g Hi. destruct (Hall i p g Hi) as [b Hp]. split; [by intros ->|].
    intros x ->. destruct Hp as [Hb Ht Hm Hc Ha]. split_and!; [done|done| |done].
    rewrite Ha in Hm by done. unfold mine in Hm. by apply bool_decide_eq_false in Hm.
Qed.


(** ** Executions *)

(** A turn of thread [i] with the answers of [obliging]. *)
Definition take_turn {A} (patience : nat) (s : config (G := copy_state) A) (i : nat) : config A :=
  match threads s !! i with
  | Some (TCall c k, g) =>
      let x := obliging patience g c in Config (owner s) (<[i := (k x, copy_step g c x)]> (threads s))
  | Some (TLock k, g) =>
      match owner s with None => Config (Some i) (<[i := (k, g)]> (threads s)) | Some _ => s end
  | Some (TUnlock k, g) =>
      if decide (owner s = Some i) then Config None (<[i := (k, g)]> (threads s)) else s
  | Some (TStore _ k, g) => Config (owner s) (<[i := (k, g)]> (threads s))
  | _ => s
  end.

Lemma take_turn_steps {A} supply patience (s : config A) i :
  exists k, nsteps (mutex_step (LG := copy_library supply patience)) k s (take_turn patience s i).
Proof.
  unfold take_turn. destruct (threads s !! i) as [[p g]|] eqn:Hi; [|by exists 0%nat; constructor].
  destruct s as [o ts]. cbn [threads owner] in *. destruct p as [r|X c k|k|k|v k| |]; try (by exists 0%nat; constructor).
  - exists 1%nat. apply nsteps_once. apply (StepCall (LG := copy_library supply patience) o ts i X c k g _ Hi), obliging_ok.
  - destruct o; [by exists 0%nat; constructor|]. exists 1%nat. apply nsteps_once. by eapply StepLock.
  - case_decide as E; [|by exists 0%nat; constructor]. subst o. exists 1%nat. apply nsteps_once. by eapply StepUnlock.
  - exists 1%nat. apply nsteps_once. by eapply StepStore.
Qed.

Definition take_turns {A} (patience : nat) (sched : list nat) (s : config A) : config A :=
  foldl (take_turn patience) s sched.

Lemma take_turns_steps {A} supply patience sched : forall s : config A,
  exists k, nsteps (mutex_step (LG := copy_library supply patience)) k s (take_turns patience sched s).
Proof.
  induction sched as [|i sched IH]; intros s; [by exists 0%nat; constructor|].
  destruct (take_turn_steps supply patience s i) as [k Hk]. destruct (IH (take_turn patience s i)) as [k' Hk'].
  exists (k + k')%nat. by eapply nsteps_trans.
Qed.

#[local] Instance zero_padding : Padding := {| padding n := replicate n 0; padding_length n := length_replicate n 0 |}.

(** Two threads of two operations each. *)
Definition demo_comch : comch_cfg := ComchCfg 1 2 3 4 5 6 7 8 4096 true.
Definition demo_cfg : dma_copy_cfg :=
  DmaCfg DMA_COPY_MODE_DPU 2 [] [] false 1000 8192 5 6 MAX_FILE_SIZE 0 [] 0 0 4096 COMCH_COMPLETE
    (Statistics 4 1000 time_zero).
Definition demo_resources : Dma2.dma_copy_resources :=
  Dma2.Resources2 (Array 1 [11; 12]) 2 3 4 (Array 5 [51; 52]) (Array 6 [61; 62]) (Array 7 [71; 72]).

Lemma demo_objects t : (t < 2)%nat -> has_objects demo_resources (Z.of_nat t).
Proof. intros Ht. unfold has_objects. rewrite Nat2Z.id. destruct t as [|[|]]; [..|lia]; cbn; by eauto. Qed.

Definition demo_start : config (option doca_error * Dma2.times) :=
  start (created 5 demo_cfg demo_comch demo_resources 9 2 2) idle_state.

(** The two in turns, now and then one of them twice. *)
Definition demo_turns : list nat := concat (replicate 40 [0; 1; 1; 0; 0; 1]%nat).

Lemma dma2_threads_end_witness :
  let s := take_turns 3 demo_turns demo_start in
  (fun t => match t.1 with TPure (e, _) => e | _ => None end) <$> threads s
    = [Some DOCA_SUCCESS; Some DOCA_SUCCESS] /\
  exists k, nsteps (mutex_step (LG := copy_library AllBuffers 3)) k demo_start s /\
    (k <= 2 * thread_bound 5 2)%nat.
Proof.
  split; [vm_compute; reflexivity|].
  destruct (take_turns_steps AllBuffers 3 demo_turns demo_start) as [k Hk]. exists k. split; [exact Hk|].
  apply (dma2_threads_end 3 5 demo_cfg demo_comch demo_resources 9 2 2 k (take_turns 3 demo_turns demo_start)).
  - lia.
  - exact demo_objects.
  - exact Hk.
Defined.

(** ** A buffer that cannot be had *)

(** A library that gives no buffers; anything else is possible. *)
Definition bufferless_ok {X} (c : call X) : X -> Prop :=
  match c in call X return X -> Prop with
  | doca_buf_inventory_buf_get_by_addr _ _ _ _ => fun r => r.1 <> DOCA_SUCCESS
  | _ => fun _ => True
  end.

Definition bufferless : Library unit := {|
  lib_step X _ _ _ := tt;
  lib_ok X _ c x := bufferless_ok c x
|}.

Section bufferless.
Context `{Padding}.
#[local] Existing Instance bufferless.

(** A thread with something to do returns with the mutex. *)
Lemma bufferless_twp fuel a :
  has_objects (Dma2.resources a) (Dma2.thread_idx a) -> 1 <= u64 (Dma2.ops_per_thread a) ->
  twp (Dma2.dpu_start_dma_copy_thread fuel a) 20 false tt (fun m _ _ => m = true).
Proof using.
  intros ([c Hc] & [inv Hinv] & [p Hp] & [dma Hdma]) Hops. unfold Dma2.dpu_start_dma_copy_thread, array_get.
  rewrite Hc, Hinv, Hp, Hdma. unfold Dma2.get_dma_max_buf_size.
  destruct (Z.to_nat (u64 (Dma2.ops_per_thread a))) as [|n] eqn:E; [lia|]. cbn [Dma2.copy_rounds]. unfold Dma2.copy_round.
  do 2 (tsimpl; apply twp_ask; intros ? _).
  match goal with x : (doca_error * Z)%type |- _ => destruct x as [res size] end.
  eapply (twp_call_le _ _ (fun m (_ : unit) _ => m = false) _ 1 17); [lia|by destruct (ok res)|]. intros ? ? ? ->.
  do 3 (tsimpl; apply twp_ask; intros ? _). tsimpl. apply twp_lock.
  tsimpl. apply twp_ask. intros [e remote] He. cbn [lib_ok bufferless bufferless_ok fst] in He.
  rewrite (ok_false e) by done. cbn [negb].
  unfold Dma2.report, send_status_msg, comch_utils_send, get_comch_cfg_from_connection.
  destruct (comch_util_get_connection _ =? 0); [done|]. tsimpl. apply twp_ask. intros d _.
  destruct (d =? 0); [done|]. destruct (_ <? _); [done|].
  destruct (is_server _); (tsimpl; apply twp_ask; intros [e' t] _; destruct (bool_decide _); [done|];
    destruct (negb (ok e')); [done|]; tsimpl; apply twp_ask; intros e'' _; destruct (negb (ok e'')); [|done];
    tsimpl; by apply twp_ask).
Qed.
End bufferless.

(** C25: a buffer that cannot be had stops the program for good. The thread
    returns without giving the mutex back, so that every other thread waits for
    it, and the threads are never all joined: when the library has no
    buffers and at least two threads have something to do, no schedule brings
    [dpu_start_dma_copy] past them. *)
Theorem dma2_missing_buffer_hangs `{Padding} (o : oracle) (fuel : nat) (sched : list nat)
    (r : Dma2.dma_copy_resources) (remote : Z) (s : comch_cfg * dma_copy_cfg) (tr : trace) :
  (forall tr inv mmap a len, (o _ tr (doca_buf_inventory_buf_get_by_addr inv mmap a len)).1 <> DOCA_SUCCESS) ->
  (forall tr n size, o _ tr (calloc n size) <> 0) ->
  2 <= num_threads s.2 <= ops (stat s.2) -> ops (stat s.2) < 2 ^ 31 ->
  (forall t, (t < Z.to_nat (num_threads s.2))%nat -> has_objects r (Z.of_nat t)) ->
  (run o (Dma2.copy_with_threads fuel sched r remote s) tr).1 = NoFuel.
Proof.
  intros Ho Hcal Hn Hmax Hobj. destruct s as [comch cfg]. cbn [snd] in *. unfold Dma2.copy_with_threads. cbn [fst snd].
  set (n := num_threads cfg) in *. set (ops := Z.quot (ops (stat cfg)) n).
  assert (1 <= u64 ops) as Hops.
  { unfold ops. rewrite Z.quot_div_nonneg by lia.
    assert (DmaCopy.ops (stat cfg) / n <= DmaCopy.ops (stat cfg)) by (apply Z.div_le_upper_bound; nia).
    rewrite wrap_small; [apply Z.div_le_lower_bound; lia|]. split; [apply Z.div_pos; lia|]. lia. }
  unfold Dma2.read_clock. tsimpl. cbn [run].
  do 5 (rewrite (proj2 (Z.eqb_neq _ 0)) by apply Hcal). cbn [orb]. tsimpl. cbn [run].
  rewrite run_bind. match goal with |- context [run o _ ?t] => set (tr' := t) end.
  set (ps := map _ _). change ps with (created fuel cfg comch r remote ops (Z.to_nat n)). clear ps.
  set (ps := created fuel cfg comch r remote ops (Z.to_nat n)).
  assert (all_safe (LG := bufferless) (fun _ m _ _ => m = true) (replicate (length ps) 20%nat) (start ps tt)) as Hs.
  { apply start_safe. intros p (t & Ht & ->)%elem_of_created. apply bufferless_twp; [by apply Hobj|done]. }
  assert (forall X tr (c : call X) (g : unit), lib_ok (Library := bufferless) g c (o X tr c)) as Hok
    by (intros X tr1 c []; destruct c; cbn; try done; apply Ho).
  assert (fst <$> map (fun p => (p, tt)) ps = ps) as Eps by (rewrite <- list_fmap_compose; apply list_fmap_id).
  pose proof (run_threads_safe (LG := bufferless) _ o Hok sched None (max_dma_buf_size cfg) _ _ tr' Hs) as Hrun.
  rewrite Eps in Hrun. destruct (run o (run_threads sched None (max_dma_buf_size cfg) ps) tr') as [[rs| | |] tr2]; try done.
  exfalso. destruct Hrun as (ow & ts & bs & [Hl Hall] & Ers & Hlen). cbn [threads] in *.
  assert (forall i, (i < 2)%nat -> ow = Some i) as Hown.
  { intros i Hi. assert (i < length ts)%nat as Hlt.
    { rewrite Hlen, length_map. unfold ps, created. rewrite length_map, length_seq. lia. }
    destruct (lookup_lt_is_Some_2 ts i Hlt) as [[p []] Hp].
    destruct (lookup_lt_is_Some_2 bs i) as [b Hb]; [by rewrite Hl|].
    specialize (Hall i p tt b Hp Hb). assert (exists x, p = TPure x) as [x ->].
    { assert ((fst <$> ts) !! i = Some p) as Ep by (by rewrite list_lookup_fmap, Hp).
      rewrite Ers in Ep. apply list_lookup_fmap_Some in Ep as (x & -> & _). by exists x. }
    by apply bool_decide_eq_true in Hall. }
  specialize (Hown 0%nat ltac:(lia)) as H0. specialize (Hown 1%nat ltac:(lia)) as H1. congruence.
Qed.

(** Everything succeeds except that there are no buffers. *)
Definition no_buffers : oracle := fun X tr c =>
  match c in call X return X with
  | doca_buf_inventory_buf_get_by_addr _ _ _ _ => (DOCA_ERROR_NO_MEMORY, 0)
  | c => all_ok (fun _ => []) (fun _ => CTX_IDLE) _ tr c
  end.

Lemma dma2_missing_buffer_hangs_witness :
  (run no_buffers (Dma2.copy_with_threads 5 demo_turns demo_resources 9 (demo_comch, demo_cfg)) []).1 = NoFuel.
Proof.
  apply (dma2_missing_buffer_hangs no_buffers 5 demo_turns demo_resources 9 (demo_comch, demo_cfg) []).
  - done.
  - intros tr n size. cbn. lia.
  - cbn. lia.
  - cbn. lia.
  - exact demo_objects.
Defined.

(** ** Failures of the threads *)

(** Every copy fails. *)
Definition failing_copies : oracle := fun X tr c =>
  match c in call X return X with
  | doca_task_get_status _ => DOCA_ERROR_IO_FAILED
  | c => all_ok (fun _ => [EvDmaError 1]) (fun _ => CTX_IDLE) _ tr c
  end.

(** The messages sent, and the DMA tasks that completed. *)
Definition message_of {X} (c : call X) : list (list Z) :=
  match c with doca_comch_server_task_send_alloc_init _ _ msg => [msg] | _ => [] end.

Definition messages (tr : trace) : list (list Z) := tr ≫= fun e => match e with Ev c _ => message_of c end.

Definition completions_of {X} (c : call X) : X -> list pe_event :=
  match c in call X return X -> list pe_event with
  | doca_pe_progress _ => fun r => List.filter (fun e => match e with EvDmaCompletion _ => true | _ => false end) r.2
  | _ => fun _ => []
  end.

Definition completions (tr : trace) : list pe_event :=
  tr ≫= fun e => match e with Ev c x => completions_of c x end.

(** The failures of the threads are not reported. When every copy fails, each
    thread sends a message that says so, but [dpu_start_dma_copy] drops what the
    threads return, sends a last message of success and returns
    [DOCA_SUCCESS], although nothing was copied. *)
Theorem dma2_failures_not_reported :
  match run failing_copies (Dma2.dpu_start_dma_copy 5 demo_turns (demo_comch, demo_cfg)) [] with
  | (Ret (Some (e, _)), tr) =>
      e = DOCA_SUCCESS /\ completions tr = [] /\
      messages tr = [status_msg STATUS_FAILURE; status_msg STATUS_FAILURE; status_msg STATUS_SUCCESS]
  | _ => False
  end.
Proof. vm_compute. done. Qed.

(** ** Times *)

(** A time whose nanoseconds are within a second, and its value. *)
Definition normal (t : timespec) : Prop := 0 <= tv_nsec t < NANO.
Definition nanos (t : timespec) : Z := tv_sec t * NANO + tv_nsec t.

(** Sums and differences of normal times are exact and normal. *)
Theorem dma2_times_normal (a b : timespec) :
  normal a -> normal b ->
  normal (Dma2.timespec_add a b) /\ nanos (Dma2.timespec_add a b) = nanos a + nanos b /\
  normal (Dma2.timespec_sub a b) /\ nanos (Dma2.timespec_sub a b) = nanos a - nanos b /\
  Dma2.timespec_sub (Dma2.timespec_add a b) b = a.
Proof.
  destruct a as [s1 n1], b as [s2 n2]. unfold normal, nanos, Dma2.timespec_add, Dma2.timespec_sub. cbn.
  intros Ha Hb. assert (NANO = 1000000000) as EN by done.
  destruct (Z.leb_spec NANO (n1 + n2)); destruct (Z.ltb_spec (n1 - n2) 0); cbn;
    (case Z.ltb_spec; intros); (split_and!; [lia..|f_equal; lia]) || lia.
Qed.

Lemma dma2_times_normal_witness :
  Dma2.timespec_sub (Dma2.timespec_add (Timespec 1 700000000) (Timespec 2 600000000)) (Timespec 2 600000000)
    = Timespec 1 700000000.
Proof.
  apply (dma2_times_normal (Timespec 1 700000000) (Timespec 2 600000000)); unfold normal; cbn; unfold NANO; lia.
Defined.
