(* ===== verification/OctBase.v ===== *)
(** * Shared vocabulary of the octopus file system

    The octopus sources (src/sys/octopus) are C++ classes over a buffer that
    the server maps once. This file has what their models share: the outcomes
    of a call, arrays with bounds, out parameters, and the rules by which the
    proofs of the following files step through a call. *)

From stdpp Require Export gmap.
From S2P Require Import Prelude.
Open Scope Z_scope.

(** ** Outcomes

    [Done] is a return. [Exits] is a call of [exit(EXIT_FAILURE)]. [Undef] is
    an execution with undefined behaviour, such as an access outside an array.
    [Blocked] is a call that does not return: it waits for a mutex that nobody
    releases, or it follows a cyclic chain. *)
Inductive run (A : Type) : Type :=
| Done (a : A)
| Exits
| Undef
| Blocked.
Arguments Done {A} a.
Arguments Exits {A}.
Arguments Undef {A}.
Arguments Blocked {A}.

#[export] Instance run_ret : MRet run := @Done.
#[export] Instance run_bind : MBind run := fun A B f m =>
  match m with
  | Done a => f a
  | Exits => Exits
  | Undef => Undef
  | Blocked => Blocked
  end.

(** [ends m Q]: the call returns, and its result satisfies [Q]. *)
Definition ends {A} (m : run A) (Q : A -> Prop) : Prop :=
  match m with Done a => Q a | _ => False end.

Lemma run_ends_bind {A B} (m : run A) (f : A -> run B) (Q : B -> Prop) :
  ends m (fun a => ends (f a) Q) -> ends (m ≫= f) Q.
Proof. by destruct m. Qed.

Lemma ends_mono {A} (m : run A) (P Q : A -> Prop) :
  ends m P -> (forall a, P a -> Q a) -> ends m Q.
Proof. destruct m; simpl; auto. Qed.

Lemma ends_Done {A} (m : run A) (Q : A -> Prop) :
  ends m Q <-> exists a, m = Done a /\ Q a.
Proof.
  split; [|by intros (a & -> & HQ)].
  destruct m as [a| | |]; simpl; try done. by exists a.
Qed.

(** A pointer argument that the callee only tests against [NULL] before it
    writes through it. *)
Inductive outptr : Type := NULL | Out.

(** ** Arrays

    A C array of known length. Its initial contents are those of the buffer,
    so every function from indices to elements is possible. *)
Record array (T : Type) : Type := Arr { alen : Z; aget : Z -> T }.
Arguments Arr {T} alen aget.
Arguments alen {T} a.
Arguments aget {T} a i.

Definition in_bounds {T} (a : array T) (i : Z) : bool := (0 <=? i) && (i <? alen a).

Definition index {T} (a : array T) (i : Z) : run T :=
  if in_bounds a i then Done (aget a i) else Undef.

Definition upd {T} (a : array T) (i : Z) (v : T) : array T :=
  Arr (alen a) (fun j => if j =? i then v else aget a j).

Definition store {T} (a : array T) (i : Z) (v : T) : run (array T) :=
  if in_bounds a i then Done (upd a i v) else Undef.

Lemma in_bounds_spec {T} (a : array T) i : in_bounds a i = true <-> 0 <= i < alen a.
Proof. unfold in_bounds. rewrite andb_true_iff. lia. Qed.

Lemma index_Done {T} (a : array T) i : 0 <= i < alen a -> index a i = Done (aget a i).
Proof. intros H. unfold index. by rewrite (proj2 (in_bounds_spec a i) H). Qed.

Lemma store_Done {T} (a : array T) i v : 0 <= i < alen a -> store a i v = Done (upd a i v).
Proof. intros H. unfold store. by rewrite (proj2 (in_bounds_spec a i) H). Qed.

Lemma aget_upd_eq {T} (a : array T) i v : aget (upd a i v) i = v.
Proof. simpl. by rewrite Z.eqb_refl. Qed.

Lemma aget_upd_ne {T} (a : array T) i j v : i <> j -> aget (upd a i v) j = aget a j.
Proof. intros H. simpl. by rewrite (proj2 (Z.eqb_neq j i) (not_eq_sym H)). Qed.

Lemma alen_upd {T} (a : array T) i v : alen (upd a i v) = alen a.
Proof. done. Qed.

Create Rewrite HintDb arrays.
#[export] Hint Rewrite @aget_upd_eq @alen_upd : arrays.
#[export] Hint Rewrite @aget_upd_ne using (congruence || lia) : arrays.

(** ** Arrays inside structures

    A short array that is part of a structure is the list of its elements. *)
Definition list_index {A} (l : list A) (i : Z) : run A :=
  if 0 <=? i then
    match l !! Z.to_nat i with Some x => Done x | None => Undef end
  else Undef.

Definition list_store {A} (l : list A) (i : Z) (v : A) : run (list A) :=
  if (0 <=? i) && (i <? Z.of_nat (length l)) then Done (<[Z.to_nat i := v]> l) else Undef.

Lemma list_index_Done {A} (l : list A) i x :
  0 <= i -> l !! Z.to_nat i = Some x -> list_index l i = Done x.
Proof. intros Hi Hx. unfold list_index. by rewrite (proj2 (Z.leb_le _ _) Hi), Hx. Qed.

Lemma list_store_Done {A} (l : list A) i v :
  0 <= i < Z.of_nat (length l) -> list_store l i v = Done (<[Z.to_nat i := v]> l).
Proof.
  intros Hi. unfold list_store.
  by rewrite (proj2 (Z.leb_le _ _) (proj1 Hi)), (proj2 (Z.ltb_lt _ _) (proj2 Hi)).
Qed.

Lemma lookup_map {A B} (f : A -> B) (l : list A) : forall i, map f l !! i = f <$> l !! i.
Proof. induction l as [|x l IH]; intros [|i]; simpl; auto. Qed.

(** ** Mutexes

    [std::mutex] is a flag. [lock] on a mutex that is already taken waits: no
    other call of the model is under way, so nobody releases it. *)
Definition mutex : Type := bool.
Definition lock (m : mutex) : run mutex := if m then Blocked else Done true.
Definition unlock (m : mutex) : mutex := false.
