(* ===== verification/OctBitmap.v ===== *)
(** * Bitmap of the octopus file system (src/sys/octopus/src/fs/bitmap.cpp)

    A bitmap is a byte array inside a caller's buffer with a counter of the
    cleared bits. [brep b s] says that a bitmap stands for the finite set [s]
    of positions; every operation is shown to act on that set, and the counter
    to be its complement's size. *)

From S2P Require Import Prelude.
From S2P Require Import OctBase.
Open Scope Z_scope.

Module Bitmap.

(** ** The class *)

Record Bitmap : Type := mkBitmap {
  bytes : array Z;
  varCountFree : Z;
  varCountTotal : Z
}.

(** [1 << (7 - offset)]. *)
Definition bit_mask (offset : Z) : Z := Z.shiftl 1 (7 - offset).

Definition bit_is_set (byte offset : Z) : bool := negb (Z.land byte (bit_mask offset) =? 0).

Definition get (b : Bitmap) (pos : Z) (status : outptr) : run (bool * option bool) :=
  match status with
  | Out =>
      if pos <? varCountTotal b then
        byte ← index (bytes b) (pos / 8);
        Done (true, Some (bit_is_set byte (pos mod 8)))
      else Done (false, None)
  | NULL => Done (false, None)
  end.

Definition set (b : Bitmap) (pos : Z) : run (bool * Bitmap) :=
  if pos <? varCountTotal b then
    byte ← index (bytes b) (pos / 8);
    if bit_is_set byte (pos mod 8) then Done (true, b)
    else
      bs ← store (bytes b) (pos / 8) (u8 (Z.lor byte (bit_mask (pos mod 8))));
      Done (true, mkBitmap bs (u64 (varCountFree b - 1)) (varCountTotal b))
  else Done (false, b).

Definition clear (b : Bitmap) (pos : Z) : run (bool * Bitmap) :=
  if pos <? varCountTotal b then
    byte ← index (bytes b) (pos / 8);
    if bit_is_set byte (pos mod 8) then
      bs ← store (bytes b) (pos / 8) (u8 (Z.land byte (Z.lnot (bit_mask (pos mod 8)))));
      Done (true, mkBitmap bs (u64 (varCountFree b + 1)) (varCountTotal b))
    else Done (true, b)
  else Done (false, b).

(** The inner loop of [findFree]: the first cleared bit of a byte. *)
Definition find_in_byte (byte : Z) : option Z :=
  for_first (upto 8) (fun offset =>
    if bit_is_set byte (Z.of_nat offset) then None else Some (Z.of_nat offset)).

(** The outer loop. [index] is an [unsigned int], and so is the position
    [index * 8 + offset] that is computed from it. The fuel is one more than
    the number of bytes: a run that has not ended by then has wrapped around
    without a cleared bit and goes on for ever. *)
Fixpoint find_from (fuel : nat) (b : Bitmap) (idx : Z) : run (option Z) :=
  match fuel with
  | O => Blocked
  | S fuel =>
      if idx <? varCountTotal b / 8 then
        byte ← index (bytes b) idx;
        match find_in_byte byte with
        | Some offset => Done (Some (u32 (idx * 8 + offset)))
        | None => find_from fuel b (u32 (idx + 1))
        end
      else Done None
  end.

Definition findFree (b : Bitmap) (pos : outptr) : run (bool * option Z) :=
  match pos with
  | Out =>
      if 0 <? varCountFree b then
        r ← find_from (S (Z.to_nat (varCountTotal b / 8))) b 0;
        match r with
        | Some p => Done (true, Some p)
        | None => Done (false, None)
        end
      else Done (false, None)
  | NULL => Done (false, None)
  end.

Definition countFree (b : Bitmap) : Z := varCountFree b.
Definition countTotal (b : Bitmap) : Z := varCountTotal b.

(** The inner loop of the constructor: the cleared bits of a byte. *)
Definition count_byte (byte : Z) (n : Z) : Z :=
  foldl (fun n offset => if bit_is_set byte (Z.of_nat offset) then n else u64 (n + 1))
    n (upto 8).

Fixpoint count_from (fuel : nat) (bs : array Z) (total idx n : Z) : run Z :=
  match fuel with
  | O => Blocked
  | S fuel =>
      if idx <? total / 8 then
        byte ← index bs idx;
        count_from fuel bs total (u32 (idx + 1)) (count_byte byte n)
      else Done n
  end.

(** The constructor. [buffer] is [None] for a null pointer, else the bytes of
    the buffer from the pointer on. *)
Definition construct (count : Z) (buffer : option (array Z)) : run Bitmap :=
  if count mod 8 =? 0 then
    match buffer with
    | Some bs =>
        free ← count_from (S (Z.to_nat (count / 8))) bs count 0 0;
        Done (mkBitmap bs free count)
    | None => Exits
    end
  else Exits.

(** ** Bits and bytes *)

Lemma bit_is_set_testbit byte o :
  0 <= o <= 7 -> bit_is_set byte o = Z.testbit byte (7 - o).
Proof.
  intros Ho. unfold bit_is_set, bit_mask. rewrite Z.shiftl_1_l.
  destruct (Z.eqb_spec (Z.land byte (2 ^ (7 - o))) 0) as [He|He]; simpl; symmetry.
  - apply (f_equal (fun z => Z.testbit z (7 - o))) in He.
    rewrite Z.land_spec, Z.pow2_bits_true, Z.bits_0, andb_true_r in He by lia. done.
  - destruct (Z.testbit byte (7 - o)) eqn:Hb; [done|]. destruct He.
    apply Z.bits_inj'. intros i Hi.
    rewrite Z.land_spec, Z.pow2_bits_eqb, Z.bits_0 by lia.
    destruct (Z.eqb_spec (7 - o) i) as [<-|]; [by rewrite Hb|apply andb_false_r].
Qed.

Lemma set_testbit byte o i :
  0 <= o <= 7 -> 0 <= i < 8 ->
  Z.testbit (u8 (Z.lor byte (bit_mask o))) i = (7 - o =? i) || Z.testbit byte i.
Proof.
  intros Ho Hi. unfold wrap, bit_mask.
  rewrite Z.mod_pow2_bits_low, Z.lor_spec, Z.shiftl_1_l, Z.pow2_bits_eqb by lia.
  apply orb_comm.
Qed.

Lemma clear_testbit byte o i :
  0 <= o <= 7 -> 0 <= i < 8 ->
  Z.testbit (u8 (Z.land byte (Z.lnot (bit_mask o)))) i = negb (7 - o =? i) && Z.testbit byte i.
Proof.
  intros Ho Hi. unfold wrap, bit_mask.
  rewrite Z.mod_pow2_bits_low, Z.land_spec, Z.lnot_spec, Z.shiftl_1_l, Z.pow2_bits_eqb by lia.
  apply andb_comm.
Qed.

(** The bit at a position. *)
Definition bit (bs : array Z) (p : Z) : bool := Z.testbit (aget bs (p / 8)) (7 - p mod 8).

Lemma bit_at bs i o : 0 <= o <= 7 -> bit bs (i * 8 + o) = Z.testbit (aget bs i) (7 - o).
Proof.
  intros Ho. unfold bit.
  rewrite Z.div_add_l, Z.div_small, Z.add_0_r by lia.
  by rewrite Z.add_comm, Z.mod_add, Z.mod_small by lia.
Qed.

Lemma bit_upd bs p q byte (f : bool -> bool -> bool) :
  (forall i, 0 <= i < 8 ->
     Z.testbit byte i = f (7 - p mod 8 =? i) (Z.testbit (aget bs (p / 8)) i)) ->
  (forall c, f false c = c) ->
  bit (upd bs (p / 8) byte) q = f (p =? q) (bit bs q).
Proof.
  intros Hbyte Hf. unfold bit. simpl.
  pose proof (Z.mod_pos_bound p 8 ltac:(lia)). pose proof (Z.mod_pos_bound q 8 ltac:(lia)).
  pose proof (Z.div_mod p 8 ltac:(lia)). pose proof (Z.div_mod q 8 ltac:(lia)).
  destruct (Z.eqb_spec (q / 8) (p / 8)) as [He|He].
  - rewrite Hbyte, He by lia. f_equal. apply eq_true_iff_eq. rewrite !Z.eqb_eq. lia.
  - destruct (Z.eqb_spec p q) as [->|]; [done|by rewrite Hf].
Qed.

(** ** The set of a bitmap *)

Record brep (b : Bitmap) (s : gset Z) : Prop := mkBrep {
  brep_align : varCountTotal b mod 8 = 0;
  brep_total : 0 <= varCountTotal b < 2 ^ 64;
  brep_len : varCountTotal b / 8 <= alen (bytes b);
  brep_bits : forall p, p ∈ s <-> 0 <= p < varCountTotal b /\ bit (bytes b) p = true;
  brep_free : varCountFree b = varCountTotal b - Z.of_nat (size s)
}.

(** The positions of a bitmap of [n] bits. *)
Definition positions (n : Z) : gset Z := list_to_set (seqZ 0 n).

Lemma elem_of_positions n p : p ∈ positions n <-> 0 <= p < n.
Proof. unfold positions. rewrite elem_of_list_to_set, elem_of_seqZ. lia. Qed.

Lemma size_positions n : 0 <= n -> Z.of_nat (size (positions n)) = n.
Proof.
  intros Hn. unfold positions. rewrite size_list_to_set by apply NoDup_seqZ.
  rewrite length_seqZ. lia.
Qed.

Lemma size_in_positions (s : gset Z) n :
  0 <= n -> (forall p, p ∈ s -> 0 <= p < n) -> Z.of_nat (size s) <= n.
Proof.
  intros Hn Hs. rewrite <- (size_positions n Hn) at 1. apply inj_le, subseteq_size.
  intros p Hp. by apply elem_of_positions, Hs.
Qed.

Lemma brep_elem b s p : brep b s -> p ∈ s -> 0 <= p < varCountTotal b.
Proof. intros Hb Hp. by apply (brep_bits _ _ Hb). Qed.

Lemma brep_size b s : brep b s -> Z.of_nat (size s) <= varCountTotal b.
Proof.
  intros Hb. apply size_in_positions; [apply (brep_total _ _ Hb)|].
  intros p. by apply brep_elem.
Qed.

Lemma brep_bounds b s p :
  brep b s -> 0 <= p < varCountTotal b -> 0 <= p / 8 < alen (bytes b).
Proof.
  intros Hb Hp. pose proof (brep_len _ _ Hb). pose proof (brep_align _ _ Hb).
  pose proof (Z.div_mod (varCountTotal b) 8 ltac:(lia)).
  split; [apply Z.div_pos; lia|].
  apply Z.lt_le_trans with (varCountTotal b / 8); [apply Z.div_lt_upper_bound; lia|done].
Qed.

Lemma bit_is_set_at bs p : bit_is_set (aget bs (p / 8)) (p mod 8) = bit bs p.
Proof.
  pose proof (Z.mod_pos_bound p 8 ltac:(lia)). rewrite bit_is_set_testbit by lia. done.
Qed.

Lemma brep_bit b s p :
  brep b s -> 0 <= p < varCountTotal b -> bit (bytes b) p = bool_decide (p ∈ s).
Proof.
  intros Hb Hp. apply eq_true_iff_eq. rewrite bool_decide_eq_true, (brep_bits _ _ Hb). tauto.
Qed.

Lemma bitmap_get_spec b s p :
  brep b s -> 0 <= p ->
  get b p Out = Done (if p <? varCountTotal b then (true, Some (bool_decide (p ∈ s)))
                      else (false, None)).
Proof.
  intros Hb Hp. unfold get. destruct (Z.ltb_spec p (varCountTotal b)); [|done].
  rewrite index_Done by (by eapply brep_bounds). simpl.
  by rewrite bit_is_set_at, (brep_bit b s p).
Qed.

(** A bitmap after one bit changed: the counter follows the set. *)
Lemma brep_upd b s s' p byte :
  brep b s -> 0 <= p < varCountTotal b ->
  (forall q, 0 <= q < varCountTotal b ->
     bit (upd (bytes b) (p / 8) byte) q = bool_decide (q ∈ s')) ->
  (forall q, q ∈ s' -> 0 <= q < varCountTotal b) ->
  brep (mkBitmap (upd (bytes b) (p / 8) byte)
          (u64 (varCountFree b + (Z.of_nat (size s) - Z.of_nat (size s')))) (varCountTotal b)) s'.
Proof.
  intros Hb Hp Hbit Hs'. pose proof (brep_total _ _ Hb) as Ht.
  pose proof (size_in_positions s' _ (proj1 Ht) Hs').
  split; simpl; try apply Hb.
  - intros q. split.
    + intros Hq. pose proof (Hs' q Hq). rewrite Hbit by done. by rewrite bool_decide_eq_true.
    + intros [Hq Hbq]. rewrite Hbit in Hbq by done. by rewrite bool_decide_eq_true in Hbq.
  - rewrite (brep_free _ _ Hb), wrap_small; [lia|]. unfold in_width. lia.
Qed.

Lemma bitmap_set_spec b s p :
  brep b s -> 0 <= p < varCountTotal b ->
  exists b', set b p = Done (true, b') /\ brep b' ({[p]} ∪ s) /\
    varCountTotal b' = varCountTotal b.
Proof.
  intros Hb Hp. unfold set. rewrite (proj2 (Z.ltb_lt _ _)) by lia.
  rewrite index_Done by (by eapply brep_bounds). simpl. rewrite bit_is_set_at, (brep_bit b s p) by done.
  case_bool_decide as Hps.
  - exists b. replace ({[p]} ∪ s) with s by set_solver. done.
  - eexists. rewrite store_Done by (by eapply brep_bounds). split; [done|]. split; [|done].
    pose proof (brep_upd b s ({[p]} ∪ s) p
      (u8 (Z.lor (aget (bytes b) (p / 8)) (bit_mask (p mod 8)))) Hb Hp) as Hu.
    replace (Z.of_nat (size s) - Z.of_nat (size ({[p]} ∪ s))) with (-1) in Hu
      by (rewrite size_union, size_singleton by set_solver; lia).
    apply Hu.
    + intros q Hq. rewrite (bit_upd _ _ _ _ orb); [|by intros; apply set_testbit;
        pose proof (Z.mod_pos_bound p 8 ltac:(lia)); lia|done].
      rewrite (brep_bit b s q) by done. apply eq_true_iff_eq.
      rewrite orb_true_iff, Z.eqb_eq, !bool_decide_eq_true. set_solver.
    + intros q [->%elem_of_singleton|Hq]%elem_of_union; [done|by apply (brep_elem b s)].
Qed.

Lemma bitmap_clear_spec b s p :
  brep b s -> 0 <= p < varCountTotal b ->
  exists b', clear b p = Done (true, b') /\ brep b' (s ∖ {[p]}) /\
    varCountTotal b' = varCountTotal b.
Proof.
  intros Hb Hp. unfold clear. rewrite (proj2 (Z.ltb_lt _ _)) by lia.
  rewrite index_Done by (by eapply brep_bounds). simpl. rewrite bit_is_set_at, (brep_bit b s p) by done.
  case_bool_decide as Hps.
  - eexists. rewrite store_Done by (by eapply brep_bounds). split; [done|]. split; [|done].
    pose proof (brep_upd b s (s ∖ {[p]}) p
      (u8 (Z.land (aget (bytes b) (p / 8)) (Z.lnot (bit_mask (p mod 8))))) Hb Hp) as Hu.
    assert (size s = S (size (s ∖ {[p]}))) as Hsize.
    { replace s with ({[p]} ∪ s ∖ {[p]}) at 1 by (symmetry; apply union_difference_singleton_L, Hps).
      rewrite size_union, size_singleton by set_solver. done. }
    replace (Z.of_nat (size s) - Z.of_nat (size (s ∖ {[p]}))) with 1 in Hu by lia.
    apply Hu.
    + intros q Hq. rewrite (bit_upd _ _ _ _ (fun c d => negb c && d)); [|by intros; apply clear_testbit;
        pose proof (Z.mod_pos_bound p 8 ltac:(lia)); lia|done].
      rewrite (brep_bit b s q) by done. apply eq_true_iff_eq.
      rewrite andb_true_iff, negb_true_iff, Z.eqb_neq, !bool_decide_eq_true. set_solver.
    + intros q [Hq _]%elem_of_difference. by apply (brep_elem b s).
  - exists b. replace (s ∖ {[p]}) with s by set_solver. done.
Qed.

Lemma set_outside b p : varCountTotal b <= p -> set b p = Done (false, b).
Proof. intros Hp. unfold set. by rewrite (proj2 (Z.ltb_ge _ _)). Qed.

Lemma clear_outside b p : varCountTotal b <= p -> clear b p = Done (false, b).
Proof. intros Hp. unfold clear. by rewrite (proj2 (Z.ltb_ge _ _)). Qed.

(** ** The first cleared position *)

Definition first_free (total : Z) (s : gset Z) (p : Z) : Prop :=
  0 <= p < total /\ p ∉ s /\ forall q, 0 <= q < p -> q ∈ s.

Lemma find_in_byte_spec bs i :
  match find_in_byte (aget bs i) with
  | Some o => 0 <= o <= 7 /\ bit bs (i * 8 + o) = false /\
      forall o', 0 <= o' < o -> bit bs (i * 8 + o') = true
  | None => forall o, 0 <= o <= 7 -> bit bs (i * 8 + o) = true
  end.
Proof.
  assert (forall n, (n <= 8)%nat ->
    match for_first (seq n (8 - n)) (fun offset =>
        if bit_is_set (aget bs i) (Z.of_nat offset) then None else Some (Z.of_nat offset)) with
    | Some o => Z.of_nat n <= o <= 7 /\ bit bs (i * 8 + o) = false /\
        forall o', Z.of_nat n <= o' < o -> bit bs (i * 8 + o') = true
    | None => forall o, Z.of_nat n <= o <= 7 -> bit bs (i * 8 + o) = true
    end) as H.
  { intros n Hn. remember (8 - n)%nat as m eqn:Hm. revert n Hn Hm.
    induction m as [|m IH]; intros n Hn Hm; simpl; [intros; lia|].
    rewrite bit_is_set_testbit, <- bit_at by lia.
    destruct (bit bs (i * 8 + Z.of_nat n)) eqn:Hb; simpl.
    - pose proof (IH (S n) ltac:(lia) ltac:(lia)) as Hr.
      assert (forall o', o' = Z.of_nat n \/ Z.of_nat (S n) <= o' \/ o' < Z.of_nat n) by lia.
      destruct for_first as [o|]; [destruct Hr as (Ho & Hf & Hr)|].
      + split; [lia|]. split; [done|]. intros o' Ho'.
        destruct (H o') as [->|[?|?]]; [done|apply Hr; lia|lia].
      + intros o' Ho'. destruct (H o') as [->|[?|?]]; [done|apply Hr; lia|lia].
    - split; [lia|]. split; [done|]. intros o' Ho'. lia. }
  exact (H 0%nat ltac:(lia)).
Qed.

Lemma find_from_spec b s fuel : forall idx,
  brep b s -> varCountTotal b < 2 ^ 35 -> 0 <= idx <= varCountTotal b / 8 ->
  varCountTotal b / 8 - idx < Z.of_nat fuel ->
  (forall q, 0 <= q < idx * 8 -> q ∈ s) ->
  ends (find_from fuel b idx) (fun r =>
    match r with
    | Some p => exists q, p = u32 q /\ first_free (varCountTotal b) s q
    | None => forall q, 0 <= q < varCountTotal b -> q ∈ s
    end).
Proof.
  induction fuel as [|fuel IH]; intros idx Hb Hw Hidx Hfuel Hbefore; simpl; [lia|].
  pose proof (brep_align _ _ Hb). pose proof (brep_len _ _ Hb).
  pose proof (Z.div_mod (varCountTotal b) 8 ltac:(lia)) as Hdm.
  destruct (Z.ltb_spec idx (varCountTotal b / 8)) as [Hlt|Hge].
  2: { simpl. intros q Hq. apply Hbefore. lia. }
  rewrite index_Done by lia. simpl.
  pose proof (find_in_byte_spec (bytes b) idx) as Hbyte.
  assert (forall o, 0 <= o <= 7 -> bit (bytes b) (idx * 8 + o) = true -> idx * 8 + o ∈ s) as Hin.
  { intros o Ho Hbit. apply (brep_bits _ _ Hb). split; [lia|done]. }
  destruct (find_in_byte (aget (bytes b) idx)) as [o|]; simpl.
  - destruct Hbyte as (Ho & Hf & Hr). exists (idx * 8 + o). split; [done|].
    split; [lia|]. split.
    + rewrite (brep_bits _ _ Hb), Hf. by intros [_ ?].
    + intros q Hq. destruct (Z.lt_ge_cases q (idx * 8)); [apply Hbefore; lia|].
      replace q with (idx * 8 + (q - idx * 8)) by lia. apply Hin; [lia|]. apply Hr. lia.
  - assert (varCountTotal b / 8 < 2 ^ 32) by (apply Z.div_lt_upper_bound; lia).
    rewrite wrap_small by (unfold in_width; lia).
    apply IH; try done; [lia|lia|]. intros q Hq.
    destruct (Z.lt_ge_cases q (idx * 8)); [apply Hbefore; lia|].
    replace q with (idx * 8 + (q - idx * 8)) by lia. apply Hin; [lia|]. apply Hbyte. lia.
Qed.

(** A set of positions below [n] with fewer than [n] elements misses one. *)
Lemma positions_miss (s : gset Z) n :
  0 <= n -> Z.of_nat (size s) < n -> ~ (forall q, 0 <= q < n -> q ∈ s).
Proof.
  intros Hn Hlt Hall. assert (positions n ⊆ s) as Hsub.
  { intros q Hq. by apply Hall, elem_of_positions. }
  apply subseteq_size in Hsub. pose proof (size_positions n Hn). lia.
Qed.

Lemma findFree_spec b s :
  brep b s -> varCountTotal b < 2 ^ 35 ->
  (Z.of_nat (size s) < varCountTotal b /\
   exists p, findFree b Out = Done (true, Some (u32 p)) /\ first_free (varCountTotal b) s p) \/
  (Z.of_nat (size s) = varCountTotal b /\ findFree b Out = Done (false, None)).
Proof.
  intros Hb Hw. unfold findFree. pose proof (brep_size b s Hb).
  pose proof (brep_total _ _ Hb). rewrite (brep_free _ _ Hb).
  destruct (Z.ltb_spec 0 (varCountTotal b - Z.of_nat (size s))) as [Hlt|Hge]; [left|right].
  2: { split; [lia|done]. }
  split; [lia|]. pose proof (Z.div_pos (varCountTotal b) 8 ltac:(lia) ltac:(lia)).
  destruct (proj1 (ends_Done _ _) (find_from_spec b s (S (Z.to_nat (varCountTotal b / 8))) 0
    Hb Hw ltac:(lia) ltac:(lia) ltac:(intros; lia))) as ([p|] & -> & Hr); simpl.
  - destruct Hr as (q & -> & Hq). by exists q.
  - destruct (positions_miss s (varCountTotal b)); [lia|lia|done].
Qed.

(** ** The constructor *)

(** The positions below [n] whose bit is set in a buffer. *)
Definition set_bits (bs : array Z) (n : Z) : gset Z :=
  filter (fun p => bit bs p = true) (positions n).

Lemma elem_of_set_bits bs n p : p ∈ set_bits bs n <-> 0 <= p < n /\ bit bs p = true.
Proof. unfold set_bits. rewrite elem_of_filter, elem_of_positions. tauto. Qed.

Definition cleared (bs : array Z) (n : Z) : Z := n - Z.of_nat (size (set_bits bs n)).

Lemma cleared_succ bs n :
  0 <= n -> cleared bs (n + 1) = cleared bs n + (if bit bs n then 0 else 1).
Proof.
  intros Hn. unfold cleared.
  assert (set_bits bs (n + 1) = if bit bs n then {[n]} ∪ set_bits bs n else set_bits bs n) as ->.
  { apply set_eq. intros p. rewrite elem_of_set_bits.
    destruct (bit bs n) eqn:Hb; rewrite ?elem_of_union, ?elem_of_singleton, elem_of_set_bits;
    split; [intros [? ?]; destruct (decide (p = n)); [by left|right; split; [lia|done]]
           |intros [->|[? ?]]; split; try done; lia
           |intros [? ?]; split; [|done]; assert (p <> n) by congruence; lia
           |intros [? ?]; split; [lia|done]]. }
  destruct (bit bs n); [|lia].
  rewrite size_union, size_singleton; [lia|].
  apply disjoint_singleton_l. rewrite elem_of_set_bits. lia.
Qed.

Lemma cleared_range bs n : 0 <= n -> 0 <= cleared bs n <= n.
Proof.
  intros Hn. unfold cleared.
  pose proof (size_in_positions (set_bits bs n) n Hn
    (fun p Hp => proj1 (proj1 (elem_of_set_bits bs n p) Hp))). lia.
Qed.

Lemma count_byte_spec bs i :
  0 <= i -> i * 8 + 8 < 2 ^ 64 ->
  count_byte (aget bs i) (cleared bs (i * 8)) = cleared bs ((i + 1) * 8).
Proof.
  intros Hi Hw. replace ((i + 1) * 8) with (i * 8 + Z.of_nat (0 + 8)) by lia.
  unfold count_byte.
  apply (foldl_seq_ind (fun n c => c = cleared bs (i * 8 + Z.of_nat n))); [f_equal; lia|].
  intros o c Ho ->. rewrite bit_is_set_testbit, <- bit_at by lia.
  replace (i * 8 + Z.of_nat (1 + o)) with (i * 8 + Z.of_nat o + 1) by lia.
  rewrite cleared_succ by lia. pose proof (cleared_range bs (i * 8 + Z.of_nat o) ltac:(lia)).
  destruct (bit bs (i * 8 + Z.of_nat o)); [lia|]. apply wrap_small. unfold in_width. lia.
Qed.

Lemma count_from_spec bs total fuel : forall idx,
  0 <= idx <= total / 8 -> total / 8 <= alen bs -> 0 <= total < 2 ^ 35 ->
  total / 8 - idx < Z.of_nat fuel ->
  count_from fuel bs total idx (cleared bs (idx * 8)) = Done (cleared bs (total / 8 * 8)).
Proof.
  induction fuel as [|fuel IH]; intros idx Hidx Hlen Hw Hfuel; simpl; [lia|].
  assert (total / 8 < 2 ^ 32) by (apply Z.div_lt_upper_bound; lia).
  destruct (Z.ltb_spec idx (total / 8)).
  - rewrite index_Done by lia. simpl. rewrite count_byte_spec by lia.
    rewrite wrap_small by (unfold in_width; lia). apply IH; lia.
  - by replace (total / 8) with idx by lia.
Qed.

Lemma bitmap_construct_spec count bs :
  count mod 8 = 0 -> 0 <= count < 2 ^ 35 -> count / 8 <= alen bs ->
  exists b, construct count (Some bs) = Done b /\ bytes b = bs /\ varCountTotal b = count /\
    brep b (set_bits bs count).
Proof.
  intros Ha Hw Hlen. pose proof (Z.div_pos count 8 ltac:(lia) ltac:(lia)).
  unfold construct. rewrite Ha. simpl.
  pose proof (count_from_spec bs count (S (Z.to_nat (count / 8))) 0
    ltac:(lia) Hlen Hw ltac:(lia)) as Hc.
  replace (cleared bs (0 * 8)) with 0 in Hc by reflexivity. simpl in Hc. rewrite Hc. simpl.
  eexists. split; [done|]. split; [done|]. split; [done|].
  pose proof (Z.div_mod count 8 ltac:(lia)).
  split; simpl; [done|lia|done| |].
  - intros p. apply elem_of_set_bits.
  - unfold cleared. replace (count / 8 * 8) with count by lia. done.
Qed.

(** ** Any sequence of calls *)

Inductive op : Type :=
| OpGet (pos : Z)
| OpSet (pos : Z)
| OpClear (pos : Z)
| OpFindFree
| OpCountFree
| OpCountTotal.

(** What a call answers: its boolean, and the value it writes or returns. *)
Inductive answer : Type :=
| Flag (ok : bool)
| FlagBit (ok : bool) (status : option bool)
| FlagPos (ok : bool) (pos : option Z)
| Number (n : Z).

Definition op_pos_ok (o : op) : Prop :=
  match o with OpGet p | OpSet p | OpClear p => 0 <= p < 2 ^ 64 | _ => True end.

Definition step (o : op) (b : Bitmap) : run (answer * Bitmap) :=
  match o with
  | OpGet p => r ← get b p Out; Done (FlagBit r.1 r.2, b)
  | OpSet p => r ← set b p; Done (Flag r.1, r.2)
  | OpClear p => r ← clear b p; Done (Flag r.1, r.2)
  | OpFindFree => r ← findFree b Out; Done (FlagPos r.1 r.2, b)
  | OpCountFree => Done (Number (countFree b), b)
  | OpCountTotal => Done (Number (countTotal b), b)
  end.

Fixpoint steps (os : list op) (b : Bitmap) : run (list answer * Bitmap) :=
  match os with
  | [] => Done ([], b)
  | o :: os =>
      r ← step o b;
      rest ← steps os r.2;
      Done (r.1 :: rest.1, rest.2)
  end.

(** The specification: a set of positions below [total]. *)
Definition spec_first_free (total : Z) (s : gset Z) : option Z :=
  head (filter (fun p => p ∉ s) (seqZ 0 total)).

Definition spec_step (total : Z) (o : op) (s : gset Z) : answer * gset Z :=
  match o with
  | OpGet p =>
      (if p <? total then FlagBit true (Some (bool_decide (p ∈ s))) else FlagBit false None, s)
  | OpSet p => if p <? total then (Flag true, {[p]} ∪ s) else (Flag false, s)
  | OpClear p => if p <? total then (Flag true, s ∖ {[p]}) else (Flag false, s)
  | OpFindFree =>
      (match spec_first_free total s with
       | Some p => FlagPos true (Some p)
       | None => FlagPos false None
       end, s)
  | OpCountFree => (Number (total - Z.of_nat (size s)), s)
  | OpCountTotal => (Number total, s)
  end.

Fixpoint spec_steps (total : Z) (os : list op) (s : gset Z) : list answer * gset Z :=
  match os with
  | [] => ([], s)
  | o :: os =>
      let r := spec_step total o s in
      let rest := spec_steps total os r.2 in
      (r.1 :: rest.1, rest.2)
  end.

Lemma head_filter_first (P : Z -> Prop) `{!forall p, Decision (P p)} n : forall m,
  match head (filter P (seqZ m n)) with
  | Some p => m <= p < m + n /\ P p /\ forall q, m <= q < p -> ~ P q
  | None => forall q, m <= q < m + n -> ~ P q
  end.
Proof.
  destruct (Z.neg_nonneg_cases n) as [Hn|Hn].
  { intros m. rewrite seqZ_nil by lia. simpl. intros; lia. }
  revert n Hn. apply (natlike_ind (fun n => forall m, _)); [by intros m; simpl; intros; lia|].
  intros n Hn IH m. rewrite seqZ_cons by lia. rewrite filter_cons.
  destruct (decide (P m)) as [HP|HP]; simpl.
  - split; [lia|]. split; [done|]. intros; lia.
  - replace (Z.pred (Z.succ n)) with n by lia. specialize (IH (Z.succ m)).
    destruct (head (filter P (seqZ (Z.succ m) n))) as [p|].
    + destruct IH as (? & ? & IH). split; [lia|]. split; [done|]. intros q Hq.
      destruct (decide (q = m)) as [->|]; [done|]. apply IH. lia.
    + intros q Hq. destruct (decide (q = m)) as [->|]; [done|]. apply IH. lia.
Qed.

Lemma spec_first_free_Some total s p :
  first_free total s p -> spec_first_free total s = Some p.
Proof.
  intros (Hp & Hns & Hbefore). unfold spec_first_free.
  pose proof (head_filter_first (fun p => p ∉ s) total 0) as H.
  destruct head as [q|].
  - destruct H as (Hq & Hqs & Hqb). f_equal.
    destruct (Z.lt_trichotomy q p) as [|[|]]; [|done|].
    + destruct Hqs. apply Hbefore. lia.
    + destruct (Hqb p); [lia|done].
  - destruct (H p); [lia|done].
Qed.

Lemma spec_first_free_None total s :
  (forall p, p ∈ s -> 0 <= p < total) -> 0 <= total -> Z.of_nat (size s) = total ->
  spec_first_free total s = None.
Proof.
  intros Hs Ht Hsize. unfold spec_first_free.
  pose proof (head_filter_first (fun p => p ∉ s) total 0) as H.
  destruct head as [q|]; [|done]. destruct H as (Hq & Hqs & _). exfalso.
  assert (Z.of_nat (size ({[q]} ∪ s)) <= total) as Hle.
  { apply size_in_positions; [done|]. intros p [->%elem_of_singleton|?]%elem_of_union; auto. }
  rewrite size_union, size_singleton in Hle by set_solver. lia.
Qed.

Lemma bitmap_step_spec b s o :
  brep b s -> varCountTotal b <= 2 ^ 32 -> op_pos_ok o ->
  exists b', step o b = Done ((spec_step (varCountTotal b) o s).1, b') /\
    brep b' (spec_step (varCountTotal b) o s).2 /\ varCountTotal b' = varCountTotal b.
Proof.
  intros Hb Hw Ho. destruct o as [p|p|p| | |]; cbn [step spec_step op_pos_ok fst snd] in *.
  - rewrite (bitmap_get_spec b s p Hb) by lia. simpl. exists b. by destruct (p <? varCountTotal b).
  - destruct (Z.ltb_spec p (varCountTotal b)).
    + destruct (bitmap_set_spec b s p Hb) as (b' & -> & Hb' & Ht); [lia|]. by exists b'.
    + rewrite set_outside by lia. by exists b.
  - destruct (Z.ltb_spec p (varCountTotal b)).
    + destruct (bitmap_clear_spec b s p Hb) as (b' & -> & Hb' & Ht); [lia|]. by exists b'.
    + rewrite clear_outside by lia. by exists b.
  - exists b. pose proof (brep_total _ _ Hb).
    destruct (findFree_spec b s Hb) as [(_ & p & -> & Hp)|(Hsize & ->)]; [lia|..]; simpl.
    + rewrite (spec_first_free_Some _ _ p Hp). destruct Hp as [Hp _].
      rewrite wrap_small by (unfold in_width; lia). done.
    + rewrite spec_first_free_None; [done| |lia|done]. intros p. by apply brep_elem.
  - exists b. unfold countFree. by rewrite (brep_free _ _ Hb).
  - by exists b.
Qed.

Lemma bitmap_steps_spec os : forall b s,
  brep b s -> varCountTotal b <= 2 ^ 32 -> Forall op_pos_ok os ->
  exists b', steps os b = Done ((spec_steps (varCountTotal b) os s).1, b') /\
    brep b' (spec_steps (varCountTotal b) os s).2.
Proof.
  induction os as [|o os IH]; intros b s Hb Hw Hos; simpl; [by exists b|].
  apply Forall_cons in Hos as [Ho Hos].
  destruct (bitmap_step_spec b s o Hb Hw Ho) as (b1 & -> & Hb1 & Ht1). simpl.
  destruct (IH b1 (spec_step (varCountTotal b) o s).2 Hb1) as (b2 & Hrun & Hb2); [lia|done|].
  rewrite Ht1 in *. rewrite Hrun. simpl. by exists b2.
Qed.

(** C33: a bitmap behaves as a set of positions. Constructed over any buffer of
    at least [count / 8] bytes, with [count] a multiple of eight up to [2^32],
    it starts as the set of the bits set in the buffer, and any sequence of
    calls of its methods returns, with the answers that the set gives: [get]
    is membership, [set] and [clear] insert and remove and refuse positions
    from [count] on, [findFree] finds the first position outside the set
    exactly when there is one, and [countFree] is the number of positions
    outside it. *)
Theorem bitmap_refines_set count bs os :
  count mod 8 = 0 -> 0 <= count <= 2 ^ 32 -> count / 8 <= alen bs -> Forall op_pos_ok os ->
  exists b b', construct count (Some bs) = Done b /\
    steps os b = Done ((spec_steps count os (set_bits bs count)).1, b') /\
    brep b' (spec_steps count os (set_bits bs count)).2.
Proof.
  intros Ha Hw Hlen Hos.
  destruct (bitmap_construct_spec count bs Ha ltac:(lia) Hlen) as (b & Hc & _ & Ht & Hb).
  destruct (bitmap_steps_spec os b (set_bits bs count) Hb ltac:(lia) Hos) as (b' & Hrun & Hb').
  exists b, b'. rewrite <- Ht at 3 4. rewrite Ht in Hrun, Hb'. by rewrite Ht.
Qed.

Lemma bitmap_refines_set_witness :
  let bs := Arr 2 (fun i => if i =? 0 then 192 else 255) in
  let os := [OpFindFree; OpSet 2; OpClear 0; OpFindFree; OpGet 2; OpSet 16; OpCountFree] in
  exists b b', construct 16 (Some bs) = Done b /\
    steps os b = Done ([FlagPos true (Some 2); Flag true; Flag true; FlagPos true (Some 0);
      FlagBit true (Some true); Flag false; Number 6], b').
Proof.
  intros bs os.
  destruct (bitmap_refines_set 16 bs os ltac:(done) ltac:(lia) ltac:(done)
    ltac:(repeat constructor; simpl; lia)) as (b & b' & Hc & Hs & _).
  exists b, b'. split; [exact Hc|]. rewrite Hs. vm_compute. reflexivity.
Defined.

End Bitmap.
