(* ===== verification/OctTable.v ===== *)
(** * Item tables of the octopus file system (src/sys/octopus/include/table.hpp)

    [Table<T>] keeps an array of items in a buffer, a bitmap of the occupied
    positions behind it, and a chain of the free positions in the heap. The
    theorems show that a table is a finite map from positions to items for as
    long as it has a free position, what happens when it has none, and what
    the constructor makes of a buffer that is not empty. *)

From S2P Require Import Prelude.
From S2P Require Import OctBase.
From S2P Require Import OctBitmap.
Open Scope Z_scope.

Module Table.

(** ** The class *)

(** A plain data type stored in a buffer: [sizeof(T)] and the value that a
    sequence of that many bytes stands for. *)
Class Pod (T : Type) : Type := { sizeof : Z; load : list Z -> T }.

(** The heap chain of [FreeBit] cells is the list of their positions:
    [push] and [pop] are the only uses of it. *)
Definition FreeBits : Type := list Z.

(** [itemsAddress] is the address of the first item: [&items\[i\]] is
    [itemsAddress + i * sizeof(T)]. *)
Record Table (T : Type) : Type := mkTable {
  bitmapItems : Bitmap.Bitmap;
  mutexBitmapItems : mutex;
  items : array T;
  itemsAddress : Z;
  headFreeBit : FreeBits;
  sizeBufferUsed : Z
}.
Arguments mkTable {T}.
Arguments bitmapItems {T} t : rename.
Arguments mutexBitmapItems {T} t : rename.
Arguments items {T} t : rename.
Arguments itemsAddress {T} t : rename.
Arguments headFreeBit {T} t : rename.
Arguments sizeBufferUsed {T} t : rename.

Section operations.
Context {T : Type} `{!Pod T}.
Implicit Types (t : Table T).

Definition with_mutex (m : mutex) t : Table T :=
  mkTable (bitmapItems t) m (items t) (itemsAddress t) (headFreeBit t) (sizeBufferUsed t).
Definition with_items (xs : array T) t : Table T :=
  mkTable (bitmapItems t) (mutexBitmapItems t) xs (itemsAddress t) (headFreeBit t)
    (sizeBufferUsed t).
Definition with_bitmap (b : Bitmap.Bitmap) (free : FreeBits) t : Table T :=
  mkTable b (mutexBitmapItems t) (items t) (itemsAddress t) free (sizeBufferUsed t).

Definition address_of t (i : Z) : Z := u64 (itemsAddress t + i * sizeof).

(** [create(uint64_t *index)]: the item is not assigned. With no free bit left
    the function returns while it holds the mutex. *)
Definition create_empty t (idx : outptr) : run (bool * option Z * Table T) :=
  match idx with
  | NULL => Done (false, None, t)
  | Out =>
      m ← lock (mutexBitmapItems t);
      let t := with_mutex m t in
      match headFreeBit t with
      | [] => Done (false, None, t)
      | position :: nextFreeBit =>
          r ← Bitmap.set (bitmapItems t) position;
          let t := with_bitmap r.2 nextFreeBit t in
          Done (r.1, Some position, with_mutex (unlock m) t)
      end
  end.

(** [create(uint64_t *index, T *item)]. *)
Definition create t (idx : outptr) (item : option T) : run (bool * option Z * Table T) :=
  match idx, item with
  | Out, Some item =>
      m ← lock (mutexBitmapItems t);
      let t := with_mutex m t in
      match headFreeBit t with
      | [] => Done (false, None, t)
      | position :: nextFreeBit =>
          r ← Bitmap.set (bitmapItems t) position;
          let t := with_bitmap r.2 nextFreeBit t in
          if r.1 : bool then
            xs ← store (items t) position item;
            Done (true, Some position, with_mutex (unlock m) (with_items xs t))
          else Done (false, Some position, with_mutex (unlock m) t)
      end
  | _, _ => Done (false, None, t)
  end.

(** The test that the accessors share: [bitmapItems->get(index, &status)],
    which has to succeed with [status] set. *)
Definition occupied t (idx : Z) : run bool :=
  r ← Bitmap.get (bitmapItems t) idx Out;
  Done (match r with (true, Some true) => true | _ => false end).

(** [get(uint64_t index, T *item)]. *)
Definition get t (idx : Z) (item : outptr) : run (bool * option T * Table T) :=
  match item with
  | NULL => Done (false, None, t)
  | Out =>
      m ← lock (mutexBitmapItems t);
      ok ← occupied t idx;
      if ok : bool then
        x ← index (items t) idx;
        Done (true, Some x, with_mutex (unlock m) t)
      else Done (false, None, with_mutex (unlock m) t)
  end.

(** [get(uint64_t index, T *item, uint64_t *address)]. *)
Definition get_address t (idx : Z) (item : outptr) : run (bool * option (T * Z) * Table T) :=
  match item with
  | NULL => Done (false, None, t)
  | Out =>
      m ← lock (mutexBitmapItems t);
      ok ← occupied t idx;
      if ok : bool then
        x ← index (items t) idx;
        Done (true, Some (x, address_of t idx), with_mutex (unlock m) t)
      else Done (false, None, with_mutex (unlock m) t)
  end.

(** [put(uint64_t index, T *item)]. *)
Definition put t (idx : Z) (item : option T) : run (bool * Table T) :=
  match item with
  | None => Done (false, t)
  | Some item =>
      m ← lock (mutexBitmapItems t);
      ok ← occupied t idx;
      if ok : bool then
        xs ← store (items t) idx item;
        Done (true, with_mutex (unlock m) (with_items xs t))
      else Done (false, with_mutex (unlock m) t)
  end.

(** [put(uint64_t index, T *item, uint64_t *address)]: only the address of the
    item is returned, the item itself is left as it is. *)
Definition put_address t (idx : Z) (item : option T) : run (bool * option Z * Table T) :=
  m ← lock (mutexBitmapItems t);
  ok ← occupied t idx;
  if ok : bool then Done (true, Some (address_of t idx), with_mutex (unlock m) t)
  else Done (false, None, with_mutex (unlock m) t).

Definition remove t (idx : Z) : run (bool * Table T) :=
  m ← lock (mutexBitmapItems t);
  ok ← occupied t idx;
  if ok : bool then
    r ← Bitmap.clear (bitmapItems t) idx;
    if r.1 : bool then Done (true, with_mutex (unlock m) (with_bitmap r.2 (idx :: headFreeBit t) t))
    else Done (false, with_mutex (unlock m) (with_bitmap r.2 (headFreeBit t) t))
  else Done (false, with_mutex (unlock m) t).

Definition countSavedItems t : Z :=
  u64 (Bitmap.countTotal (bitmapItems t) - Bitmap.countFree (bitmapItems t)).

Definition countTotalItems t : Z := Bitmap.countTotal (bitmapItems t).

(** ** The constructor *)

(** [buffer + off]. *)
Definition offset_array {A} (a : array A) (off : Z) : array A :=
  Arr (alen a - off) (fun i => aget a (off + i)).

(** The bytes of the [i]-th item. *)
Definition item_bytes (buffer : array Z) (i : Z) : list Z :=
  map (fun k => aget buffer (i * sizeof + k)) (seqZ 0 sizeof).

(** A conversion to [int]. *)
Definition s32 (z : Z) : Z := if u32 z <? 2 ^ 31 then u32 z else u32 z - 2 ^ 32.

(** The body of the loop over [offset = 7 .. 0]: a cleared bit of
    [buffer\[index\]] is pushed. The position is computed in [int]. *)
Definition push_free (byte idx : Z) (free : FreeBits) (offset : Z) : FreeBits :=
  if Bitmap.bit_is_set byte offset then free else (idx * 8 + offset) :: free.

Definition push_byte (byte idx : Z) (free : FreeBits) : FreeBits :=
  foldl (push_free byte idx) free (map (fun o => 7 - Z.of_nat o) (upto 8)).

(** The loop over [index = count / 8 - 1 .. 0], [n] iterations to go. It reads
    [buffer], the start of the item array. *)
Fixpoint free_from (n : nat) (buffer : array Z) (free : FreeBits) : run FreeBits :=
  match n with
  | O => Done free
  | S n =>
      let idx := Z.of_nat n in
      byte ← index buffer idx;
      if idx * 8 + 7 <? 2 ^ 31 then free_from n buffer (push_byte byte idx free) else Undef
  end.

(** [Table(char *buffer, uint64_t count)]: [None] is a null pointer. *)
Definition construct (buffer : option (Z * array Z)) (count : Z) : run (Table T) :=
  match buffer with
  | None => Exits
  | Some (address, mem) =>
      if negb (count mod 8 =? 0) then Exits
      else
        b ← Bitmap.construct count (Some (offset_array mem (u64 (count * sizeof))));
        let xs := Arr count (fun i => load (item_bytes mem i)) in
        free ← free_from (Z.to_nat (s32 (u64 (count / 8 - 1)) + 1)) mem [];
        Done (mkTable b false xs address free (u64 (count / 8 + count * sizeof)))
  end.

(** The destructor frees the chain of free bits. *)
Definition destroy t : list Z := headFreeBit t.

(** ** The map of a table *)

Record trep t (m : gmap Z T) : Prop := mkTrep {
  trep_mutex : mutexBitmapItems t = false;
  trep_bitmap : Bitmap.brep (bitmapItems t) (dom m);
  trep_len : Bitmap.varCountTotal (bitmapItems t) <= alen (items t);
  trep_items : forall i v, m !! i = Some v -> aget (items t) i = v;
  trep_nodup : NoDup (headFreeBit t);
  trep_free : forall i, i ∈ headFreeBit t <->
    0 <= i < Bitmap.varCountTotal (bitmapItems t) /\ m !! i = None
}.

Definition total t : Z := Bitmap.varCountTotal (bitmapItems t).

Lemma occupied_at t s i :
  Bitmap.brep (bitmapItems t) s -> 0 <= i -> occupied t i = Done (bool_decide (i ∈ s)).
Proof.
  intros Hb Hi. unfold occupied. rewrite (Bitmap.bitmap_get_spec _ _ _ Hb Hi).
  destruct (Z.ltb_spec i (Bitmap.varCountTotal (bitmapItems t))); simpl; f_equal.
  - by destruct bool_decide.
  - symmetry. apply bool_decide_eq_false. intros Hs.
    apply (Bitmap.brep_elem _ _ _ Hb) in Hs. lia.
Qed.

Lemma occupied_spec t m i :
  trep t m -> 0 <= i -> occupied t i = Done (bool_decide (is_Some (m !! i))).
Proof.
  intros Ht Hi. rewrite (occupied_at t _ i (trep_bitmap _ _ Ht) Hi). f_equal.
  apply bool_decide_ext, elem_of_dom.
Qed.

Lemma trep_index t m i v :
  trep t m -> m !! i = Some v -> 0 <= i < alen (items t) /\ index (items t) i = Done v.
Proof.
  intros Ht Hi. assert (i ∈ dom m) as Hd by by apply elem_of_dom.
  pose proof (Bitmap.brep_elem _ _ _ (trep_bitmap _ _ Ht) Hd). pose proof (trep_len _ _ Ht).
  split; [lia|]. rewrite index_Done by lia. by rewrite (trep_items _ _ Ht i v Hi).
Qed.

Lemma trep_unlock t m : trep t m -> with_mutex false t = t.
Proof. destruct t. intros Ht. apply trep_mutex in Ht. simpl in Ht. by subst. Qed.

Lemma table_get_spec t m i :
  trep t m -> 0 <= i ->
  get t i Out = Done (match m !! i with Some v => (true, Some v, t) | None => (false, None, t) end).
Proof.
  intros Ht Hi. unfold get. rewrite (trep_mutex _ _ Ht). simpl.
  rewrite (occupied_spec t m i Ht Hi). simpl. unfold unlock. rewrite (trep_unlock t m Ht).
  destruct (m !! i) as [v|] eqn:Hm; [|done]. simpl.
  by rewrite (proj2 (trep_index t m i v Ht Hm)).
Qed.

Lemma get_address_spec t m i :
  trep t m -> 0 <= i ->
  get_address t i Out = Done (match m !! i with
                              | Some v => (true, Some (v, address_of t i), t)
                              | None => (false, None, t)
                              end).
Proof.
  intros Ht Hi. unfold get_address. rewrite (trep_mutex _ _ Ht). simpl.
  rewrite (occupied_spec t m i Ht Hi). simpl. unfold unlock. rewrite (trep_unlock t m Ht).
  destruct (m !! i) as [v|] eqn:Hm; [|done]. simpl.
  by rewrite (proj2 (trep_index t m i v Ht Hm)).
Qed.

Lemma put_address_spec t m i item :
  trep t m -> 0 <= i ->
  put_address t i item = Done (if bool_decide (is_Some (m !! i)) then (true, Some (address_of t i), t)
                               else (false, None, t)).
Proof.
  intros Ht Hi. unfold put_address. rewrite (trep_mutex _ _ Ht). simpl.
  rewrite (occupied_spec t m i Ht Hi). simpl. unfold unlock. rewrite (trep_unlock t m Ht).
  by destruct bool_decide.
Qed.

(** Replacing the item of an occupied position. *)
Lemma trep_put t m i v :
  trep t m -> is_Some (m !! i) -> trep (with_items (upd (items t) i v) t) (<[i := v]> m).
Proof.
  intros Ht Hs. split; simpl; try apply Ht.
  - rewrite dom_insert_lookup_L by done. apply Ht.
  - intros j w Hj. destruct (decide (i = j)) as [->|Hne].
    + rewrite lookup_insert_eq in Hj. simplify_eq. by rewrite Z.eqb_refl.
    + rewrite lookup_insert_ne in Hj by done.
      rewrite (proj2 (Z.eqb_neq j i)) by done. by apply (trep_items _ _ Ht).
  - intros j. rewrite (trep_free _ _ Ht). destruct (decide (i = j)) as [->|Hne].
    + rewrite lookup_insert_eq. destruct Hs as [x ->]. split; by intros [_ ?].
    + by rewrite lookup_insert_ne.
Qed.

Lemma table_put_spec t m i v :
  trep t m -> 0 <= i ->
  exists t', put t i (Some v) = Done (bool_decide (is_Some (m !! i)), t') /\ total t' = total t /\
    itemsAddress t' = itemsAddress t /\
    trep t' (if decide (is_Some (m !! i)) then <[i := v]> m else m).
Proof.
  intros Ht Hi. unfold put. rewrite (trep_mutex _ _ Ht). simpl.
  rewrite (occupied_spec t m i Ht Hi). simpl. unfold unlock.
  case_bool_decide as Hs; destruct (decide (is_Some (m !! i))) as [Hs'|]; try done.
  - destruct Hs as [w Hw]. rewrite store_Done by apply (trep_index t m i w Ht Hw). simpl.
    eexists. split; [done|]. split; [done|]. split; [done|].
    replace (with_mutex false (with_items (upd (items t) i v) t))
      with (with_items (upd (items t) i v) t).
    + by apply trep_put.
    + unfold with_items, with_mutex. simpl. by rewrite (trep_mutex _ _ Ht).
  - exists t. by rewrite (trep_unlock t m Ht).
Qed.

(** Taking the first free position. *)
Lemma trep_create t m p free b v xs :
  trep t m -> headFreeBit t = p :: free ->
  Bitmap.brep b ({[p]} ∪ dom m) -> Bitmap.varCountTotal b = total t ->
  alen xs = alen (items t) -> aget xs p = v ->
  (forall i, i <> p -> aget xs i = aget (items t) i) ->
  trep (with_items xs (with_bitmap b free t)) (<[p := v]> m).
Proof.
  intros Ht Hfree Hb Htot Hlen Hp Hother. pose proof (trep_nodup _ _ Ht) as Hnd.
  rewrite Hfree in Hnd. apply NoDup_cons in Hnd as [Hnp Hnd].
  unfold total in *. split; simpl; try done.
  - apply Ht.
  - by rewrite dom_insert_L.
  - rewrite Hlen, Htot. apply Ht.
  - intros i w. destruct (decide (p = i)) as [->|Hne].
    + rewrite lookup_insert_eq. intros [= <-]. done.
    + rewrite lookup_insert_ne by done. intros Hi. rewrite Hother by done.
      by apply (trep_items _ _ Ht).
  - intros i. pose proof (trep_free _ _ Ht i) as Hi. rewrite Hfree, elem_of_cons in Hi.
    rewrite Htot. destruct (decide (p = i)) as [->|Hne].
    + rewrite lookup_insert_eq. split; [done|by intros [_ ?]].
    + rewrite lookup_insert_ne, <- Hi by done. split; [by right|].
      intros [->|?]; done.
Qed.

Lemma create_spec t m v :
  trep t m ->
  match headFreeBit t with
  | [] => create t Out (Some v) = Done (false, None, with_mutex true t)
  | p :: _ => m !! p = None /\ 0 <= p < total t /\
      exists t', create t Out (Some v) = Done (true, Some p, t') /\ total t' = total t /\
        itemsAddress t' = itemsAddress t /\ trep t' (<[p := v]> m)
  end.
Proof.
  intros Ht. unfold create. rewrite (trep_mutex _ _ Ht). simpl.
  destruct (headFreeBit t) as [|p free] eqn:Hfree; [done|].
  pose proof (proj1 (trep_free _ _ Ht p)) as Hp. rewrite Hfree in Hp.
  destruct Hp as [Hp Hm]; [by constructor|]. split; [done|]. split; [done|].
  destruct (Bitmap.bitmap_set_spec _ _ p (trep_bitmap _ _ Ht) Hp) as (b & -> & Hb & Htot). simpl.
  pose proof (trep_len _ _ Ht).
  rewrite store_Done by (simpl; lia). simpl.
  eexists. split; [done|]. split; [done|]. split; [done|].
  pose proof (trep_create t m p free b v (upd (items t) p v) Ht Hfree Hb Htot) as Hc.
  assert (forall t0 : Table T, with_mutex (unlock true) t0 = with_mutex false t0) by done.
  replace (with_mutex _ _) with (with_items (upd (items t) p v) (with_bitmap b free t)).
  - apply Hc; [done|apply aget_upd_eq|]. intros i Hi. by apply aget_upd_ne.
  - unfold with_items, with_bitmap, with_mutex. simpl. by rewrite (trep_mutex _ _ Ht).
Qed.

Lemma create_empty_spec t m :
  trep t m ->
  match headFreeBit t with
  | [] => create_empty t Out = Done (false, None, with_mutex true t)
  | p :: _ => m !! p = None /\ 0 <= p < total t /\
      exists t' v, create_empty t Out = Done (true, Some p, t') /\ total t' = total t /\
        itemsAddress t' = itemsAddress t /\ trep t' (<[p := v]> m)
  end.
Proof.
  intros Ht. unfold create_empty. rewrite (trep_mutex _ _ Ht). simpl.
  destruct (headFreeBit t) as [|p free] eqn:Hfree; [done|].
  pose proof (proj1 (trep_free _ _ Ht p)) as Hp. rewrite Hfree in Hp.
  destruct Hp as [Hp Hm]; [by constructor|]. split; [done|]. split; [done|].
  destruct (Bitmap.bitmap_set_spec _ _ p (trep_bitmap _ _ Ht) Hp) as (b & -> & Hb & Htot). simpl.
  do 2 eexists. split; [done|]. split; [done|]. split; [done|].
  pose proof (trep_create t m p free b (aget (items t) p) (items t) Ht Hfree Hb Htot) as Hc.
  replace (with_mutex _ _) with (with_items (items t) (with_bitmap b free t)).
  - by apply Hc.
  - unfold with_items, with_bitmap, with_mutex. simpl. by rewrite (trep_mutex _ _ Ht).
Qed.

Lemma remove_spec t m i :
  trep t m -> 0 <= i ->
  exists t', remove t i = Done (bool_decide (is_Some (m !! i)), t') /\ total t' = total t /\
    itemsAddress t' = itemsAddress t /\ trep t' (delete i m).
Proof.
  intros Ht Hi. unfold remove. rewrite (trep_mutex _ _ Ht). simpl.
  rewrite (occupied_spec t m i Ht Hi). simpl. unfold unlock.
  case_bool_decide as Hs.
  2: { exists t. rewrite (trep_unlock t m Ht), delete_id; [done|].
       by apply eq_None_not_Some. }
  assert (i ∈ dom m) as Hd by by apply elem_of_dom.
  pose proof (Bitmap.brep_elem _ _ _ (trep_bitmap _ _ Ht) Hd) as Hir.
  destruct (Bitmap.bitmap_clear_spec _ _ i (trep_bitmap _ _ Ht) Hir) as (b & -> & Hb & Htot). simpl.
  eexists. split; [done|]. unfold total in *. simpl. split; [done|]. split; [done|].
  split; simpl; [done| | | | |].
  - by rewrite dom_delete_L.
  - rewrite Htot. apply Ht.
  - intros j v [_ Hj]%lookup_delete_Some. by apply (trep_items _ _ Ht).
  - constructor; [|apply Ht]. rewrite (trep_free _ _ Ht). intros [_ Hn].
    rewrite Hn in Hs. by destruct Hs.
  - intros j. rewrite elem_of_cons, (trep_free _ _ Ht), Htot, lookup_delete_None.
    split.
    + intros [->|[? ?]]; [by split; [|left]|by split; [|right]].
    + intros [? [->|?]]; [by left|by right].
Qed.

(** ** The constructor *)

Definition free_positions (mem : array Z) (n : Z) : FreeBits :=
  filter (fun p => Bitmap.bit mem p = false) (seqZ 0 n).

Lemma push_byte_spec mem idx free :
  push_byte (aget mem idx) idx free =
  filter (fun p => Bitmap.bit mem p = false) (seqZ (idx * 8) 8) ++ free.
Proof.
  assert (forall n, (n <= 8)%nat ->
    foldl (push_free (aget mem idx) idx) free (map (fun o => 7 - Z.of_nat o) (upto n)) =
    filter (fun p => Bitmap.bit mem p = false) (seqZ (idx * 8 + 8 - Z.of_nat n) (Z.of_nat n))
      ++ free) as H.
  { induction n as [|n IH]; intros Hn; [done|].
    rewrite seq_S, map_app, foldl_app, IH by lia. simpl map. simpl foldl.
    unfold push_free at 1. rewrite Bitmap.bit_is_set_testbit, <- Bitmap.bit_at by lia.
    rewrite (seqZ_cons _ (Z.of_nat (S n))), filter_cons by lia.
    replace (idx * 8 + 8 - Z.of_nat (S n)) with (idx * 8 + (7 - Z.of_nat n)) by lia.
    replace (Z.succ (idx * 8 + (7 - Z.of_nat n))) with (idx * 8 + 8 - Z.of_nat n) by lia.
    replace (Z.pred (Z.of_nat (S n))) with (Z.of_nat n) by lia.
    by destruct (Bitmap.bit mem (idx * 8 + (7 - Z.of_nat n))). }
  unfold push_byte. rewrite (H 8%nat) by lia. do 3 f_equal. lia.
Qed.

Lemma free_from_spec mem n : forall free,
  Z.of_nat n <= alen mem -> Z.of_nat n * 8 <= 2 ^ 31 ->
  free_from n mem free = Done (free_positions mem (Z.of_nat n * 8) ++ free).
Proof.
  induction n as [|n IH]; intros free Hlen Hint; [done|]. cbn [free_from].
  rewrite index_Done by lia. simpl mbind. unfold mbind, run_bind.
  rewrite (proj2 (Z.ltb_lt _ _)) by lia. rewrite IH, push_byte_spec by lia.
  unfold free_positions. replace (Z.of_nat (S n) * 8) with (Z.of_nat n * 8 + 8) by lia.
  by rewrite (seqZ_app 0 (Z.of_nat n * 8) 8), filter_app, <- app_assoc by lia.
Qed.

Lemma elem_of_free_positions mem n p :
  p ∈ free_positions mem n <-> 0 <= p < n /\ Bitmap.bit mem p = false.
Proof. unfold free_positions. rewrite list_elem_of_filter, elem_of_seqZ, Z.add_0_l. tauto. Qed.

Lemma loop_count count :
  0 <= count <= 2 ^ 31 -> Z.to_nat (s32 (u64 (count / 8 - 1)) + 1) = Z.to_nat (count / 8).
Proof.
  intros Hc. pose proof (Z.div_pos count 8 ltac:(lia) ltac:(lia)).
  assert (count / 8 <= 2 ^ 28) by (apply Z.div_le_upper_bound; lia).
  unfold s32. destruct (decide (count / 8 = 0)) as [->|]; [done|].
  rewrite (wrap_small 64) by (unfold in_width; lia).
  rewrite (wrap_small 32) by (unfold in_width; lia).
  rewrite (proj2 (Z.ltb_lt _ _)) by lia. f_equal. lia.
Qed.

(** The buffer has room for the items and, behind them, the bitmap. *)
Definition buffer_ok (mem : array Z) (count : Z) : Prop :=
  count mod 8 = 0 /\ 0 <= count <= 2 ^ 31 /\ 0 < sizeof /\
  count * sizeof + count / 8 <= alen mem /\ count * sizeof + count / 8 < 2 ^ 64.

(** What the constructor makes of a buffer: the bitmap is read from behind the
    items, the chain of free positions from the first bytes of the items. *)
Lemma table_construct_spec address mem count :
  buffer_ok mem count ->
  exists t, construct (Some (address, mem)) count = Done t /\
    mutexBitmapItems t = false /\ total t = count /\ itemsAddress t = address /\
    Bitmap.brep (bitmapItems t) (Bitmap.set_bits (offset_array mem (count * sizeof)) count) /\
    items t = Arr count (fun i => load (item_bytes mem i)) /\
    headFreeBit t = free_positions mem count /\
    sizeBufferUsed t = count / 8 + count * sizeof.
Proof.
  intros (Ha & Hc & Hs & Hlen & Hw). unfold construct. rewrite Ha. simpl negb. cbn iota.
  pose proof (Z.div_pos count 8 ltac:(lia) ltac:(lia)).
  assert (0 <= count * sizeof) by (apply Z.mul_nonneg_nonneg; lia).
  rewrite (wrap_small 64 (count * sizeof)) by (unfold in_width; lia).
  destruct (Bitmap.bitmap_construct_spec count (offset_array mem (count * sizeof)))
    as (b & -> & _ & Htot & Hb); [done|lia|simpl; lia|].
  unfold mbind at 1, run_bind at 1. rewrite loop_count by lia.
  pose proof (Z.div_mod count 8 ltac:(lia)).
  rewrite free_from_spec by lia. rewrite app_nil_r. simpl.
  eexists. split; [done|]. unfold total. simpl. do 5 (split; [done|]). split.
  - f_equal. lia.
  - rewrite wrap_small by (unfold in_width; lia). done.
Qed.

(** On a buffer of zeros the result is an empty table. *)
Lemma construct_zeroed address mem count :
  buffer_ok mem count -> (forall i, 0 <= i < alen mem -> aget mem i = 0) ->
  exists t, construct (Some (address, mem)) count = Done t /\ total t = count /\
    itemsAddress t = address /\ trep t ∅.
Proof.
  intros Hok Hz. destruct (table_construct_spec address mem count Hok)
    as (t & Ht & Hm & Htot & Haddr & Hb & Hx & Hf & _).
  destruct Hok as (Ha & Hc & Hs & Hlen & Hw).
  pose proof (Z.div_mod count 8 ltac:(lia)). pose proof (Z.div_pos count 8 ltac:(lia) ltac:(lia)).
  assert (forall p, 0 <= p < count -> 0 <= p / 8 < count / 8) as Hdiv.
  { intros p Hp. split; [apply Z.div_pos; lia|apply Z.div_lt_upper_bound; lia]. }
  assert (0 <= count * sizeof) by (apply Z.mul_nonneg_nonneg; lia).
  exists t. do 3 (split; [done|]). split; try done.
  - replace (dom ∅) with (Bitmap.set_bits (offset_array mem (count * sizeof)) count); [done|].
    apply set_eq. intros p. rewrite Bitmap.elem_of_set_bits. split; [|set_solver].
    intros [Hp Hbit]. unfold Bitmap.bit in Hbit. simpl in Hbit. specialize (Hdiv p Hp).
    rewrite Hz, Z.bits_0 in Hbit by lia. done.
  - rewrite Hx. simpl. unfold total in Htot. lia.
  - rewrite Hf. unfold free_positions. apply NoDup_filter, NoDup_seqZ.
  - intros p. rewrite Hf, elem_of_free_positions. fold (total t). rewrite Htot.
    rewrite lookup_empty. split; [tauto|]. intros [Hp _]. split; [done|].
    unfold Bitmap.bit. specialize (Hdiv p Hp).
    assert (count <= count * sizeof) by nia.
    by rewrite Hz, Z.bits_0 by lia.
Qed.

(** ** Any sequence of calls *)

Inductive op : Type :=
| OpCreate (item : T)
| OpCreateEmpty
| OpGet (idx : Z)
| OpGetAddress (idx : Z)
| OpPut (idx : Z) (item : T)
| OpPutAddress (idx : Z)
| OpRemove (idx : Z).

Inductive answer : Type :=
| Created (ok : bool) (idx : option Z)
| Item (ok : bool) (item : option T)
| ItemAt (ok : bool) (item : option (T * Z))
| Address (ok : bool) (address : option Z)
| Flag (ok : bool).

Definition op_ok (o : op) : Prop :=
  match o with
  | OpGet i | OpGetAddress i | OpPut i _ | OpPutAddress i | OpRemove i => 0 <= i < 2 ^ 64
  | _ => True
  end.

Definition is_create (o : op) : bool :=
  match o with OpCreate _ | OpCreateEmpty => true | _ => false end.

Definition step (o : op) t : run (answer * Table T) :=
  match o with
  | OpCreate v => r ← create t Out (Some v); Done (Created r.1.1 r.1.2, r.2)
  | OpCreateEmpty => r ← create_empty t Out; Done (Created r.1.1 r.1.2, r.2)
  | OpGet i => r ← get t i Out; Done (Item r.1.1 r.1.2, r.2)
  | OpGetAddress i => r ← get_address t i Out; Done (ItemAt r.1.1 r.1.2, r.2)
  | OpPut i v => r ← put t i (Some v); Done (Flag r.1, r.2)
  | OpPutAddress i => r ← put_address t i None; Done (Address r.1.1 r.1.2, r.2)
  | OpRemove i => r ← remove t i; Done (Flag r.1, r.2)
  end.

(** The answers of a sequence of calls, up to the first that does not return. *)
Fixpoint steps (os : list op) t : list answer * run (Table T) :=
  match os with
  | [] => ([], Done t)
  | o :: os =>
      match step o t with
      | Done (a, t') => let r := steps os t' in (a :: r.1, r.2)
      | Exits => ([], Exits)
      | Undef => ([], Undef)
      | Blocked => ([], Blocked)
      end
  end.

(** The specification: a map from the positions below [count] to items. A
    creation picks any unused position. *)
Inductive spec_step (count base : Z) : op -> gmap Z T -> answer -> gmap Z T -> Prop :=
| spec_create v m i :
    0 <= i < count -> m !! i = None ->
    spec_step count base (OpCreate v) m (Created true (Some i)) (<[i := v]> m)
| spec_create_empty v m i :
    0 <= i < count -> m !! i = None ->
    spec_step count base OpCreateEmpty m (Created true (Some i)) (<[i := v]> m)
| spec_get i m :
    spec_step count base (OpGet i) m (Item (bool_decide (is_Some (m !! i))) (m !! i)) m
| spec_get_address i m :
    spec_step count base (OpGetAddress i) m
      (ItemAt (bool_decide (is_Some (m !! i)))
         ((fun v => (v, u64 (base + i * sizeof))) <$> m !! i)) m
| spec_put i v m :
    spec_step count base (OpPut i v) m (Flag (bool_decide (is_Some (m !! i))))
      (if decide (is_Some (m !! i)) then <[i := v]> m else m)
| spec_put_address i m :
    spec_step count base (OpPutAddress i) m
      (Address (bool_decide (is_Some (m !! i)))
         ((fun _ => u64 (base + i * sizeof)) <$> m !! i)) m
| spec_remove i m :
    spec_step count base (OpRemove i) m (Flag (bool_decide (is_Some (m !! i)))) (delete i m).

Inductive spec_steps (count base : Z) :
    list op -> gmap Z T -> list answer -> gmap Z T -> Prop :=
| spec_nil m : spec_steps count base [] m [] m
| spec_cons o os m a m1 as_ m2 :
    spec_step count base o m a m1 -> spec_steps count base os m1 as_ m2 ->
    spec_steps count base (o :: os) m (a :: as_) m2.

(** Every position is in use. *)
Definition full (count : Z) (m : gmap Z T) : Prop :=
  forall i, 0 <= i < count -> is_Some (m !! i).

Lemma trep_full t m : trep t m -> headFreeBit t = [] -> full (total t) m.
Proof.
  intros Ht Hf i Hi. destruct (m !! i) as [v|] eqn:Hm; [by exists v|].
  assert (i ∈ headFreeBit t) as Hin by (by apply (trep_free _ _ Ht)).
  rewrite Hf in Hin. by apply not_elem_of_nil in Hin.
Qed.

Lemma table_step_spec o t m :
  trep t m -> op_ok o ->
  (exists a t' m', step o t = Done (a, t') /\ spec_step (total t) (itemsAddress t) o m a m' /\
     trep t' m' /\ total t' = total t /\ itemsAddress t' = itemsAddress t) \/
  (is_create o = true /\ full (total t) m /\
   step o t = Done (Created false None, with_mutex true t)).
Proof.
  intros Ht Ho. destruct o as [v| |i|i|i v|i|i]; cbn [step op_ok is_create] in *.
  - pose proof (create_spec t m v Ht) as Hc. destruct (headFreeBit t) as [|p free] eqn:Hf.
    + right. rewrite Hc. split; [done|]. by split; [apply trep_full|].
    + left. destruct Hc as (Hp & Hr & t' & -> & Htot & Hadr & Ht').
      do 3 eexists. split; [done|]. split; [|done]. by constructor.
  - pose proof (create_empty_spec t m Ht) as Hc. destruct (headFreeBit t) as [|p free] eqn:Hf.
    + right. rewrite Hc. split; [done|]. by split; [apply trep_full|].
    + left. destruct Hc as (Hp & Hr & t' & v & -> & Htot & Hadr & Ht').
      do 3 eexists. split; [done|]. split; [|done]. by constructor.
  - left. rewrite (table_get_spec t m i Ht) by lia.
    pose proof (spec_get (total t) (itemsAddress t) i m) as Hs. revert Hs.
    destruct (m !! i); intros Hs; do 3 eexists; (split; [done|]); by split; [exact Hs|].
  - left. rewrite (get_address_spec t m i Ht) by lia.
    pose proof (spec_get_address (total t) (itemsAddress t) i m) as Hs. revert Hs.
    destruct (m !! i); intros Hs; do 3 eexists; (split; [done|]); by split; [exact Hs|].
  - left. destruct (table_put_spec t m i v Ht) as (t' & -> & Htot & Hadr & Ht'); [lia|].
    do 3 eexists. split; [done|]. split; [constructor|done].
  - left. rewrite (put_address_spec t m i None Ht) by lia.
    pose proof (spec_put_address (total t) (itemsAddress t) i m) as Hs. revert Hs.
    destruct (m !! i); intros Hs; do 3 eexists; (split; [done|]); by split; [exact Hs|].
  - left. destruct (remove_spec t m i Ht) as (t' & -> & Htot & Hadr & Ht'); [lia|].
    do 3 eexists. split; [done|]. split; [constructor|done].
Qed.

(** Every method waits for the mutex first. *)
Lemma step_locked o t : step o (with_mutex true t) = Blocked.
Proof. by destruct o. Qed.

Lemma steps_locked os t :
  steps os (with_mutex true t) = ([], match os with [] => Done (with_mutex true t) | _ => Blocked end).
Proof. destruct os as [|o os]; simpl; [done|]. by rewrite step_locked. Qed.

(** The two ways in which a sequence of calls can go. *)
Definition table_run (count base : Z) (os : list op) (m : gmap Z T)
    (result : list answer * run (Table T)) : Prop :=
  (exists t' m', result.2 = Done t' /\ trep t' m' /\ spec_steps count base os m result.1 m') \/
  (exists os1 o os2 as1 m1, os = os1 ++ o :: os2 /\ is_create o = true /\
     spec_steps count base os1 m as1 m1 /\ full count m1 /\
     result.1 = as1 ++ [Created false None] /\ (os2 <> [] -> result.2 = Blocked)).

Lemma table_steps_spec os : forall t m,
  trep t m -> Forall op_ok os -> table_run (total t) (itemsAddress t) os m (steps os t).
Proof.
  induction os as [|o os IH]; intros t m Ht Hos.
  { left. exists t, m. split; [done|]. split; [done|]. constructor. }
  apply Forall_cons in Hos as [Ho Hos]. simpl.
  destruct (table_step_spec o t m Ht Ho)
    as [(a & t' & m' & -> & Hs & Ht' & Htot & Hadr)|(Hc & Hf & ->)].
  - specialize (IH t' m' Ht' Hos). rewrite Htot, Hadr in IH.
    destruct IH as [(t2 & m2 & Hr & Ht2 & Hss)
                   |(os1 & o2 & os2 & as1 & m1 & -> & Hc & Hss & Hfull & Hr & Hb)]; [left|right].
    + exists t2, m2. split; [done|]. split; [done|]. by econstructor.
    + exists (o :: os1), o2, os2, (a :: as1), m1. split; [done|]. split; [done|].
      split; [by econstructor|]. split; [done|]. simpl. by rewrite Hr.
  - right. exists [], o, os, [], m. rewrite steps_locked. do 2 (split; [done|]).
    split; [constructor|]. do 2 (split; [done|]). simpl. by destruct os.
Qed.

(** C13: A table is a finite map from positions to items. Constructed over a
    buffer of zeros, any sequence of calls of its methods gives the answers of
    a map: creations return unused positions below [count], [get], [put] and
    [remove] succeed exactly on the positions in use and touch no other item,
    and the addresses are those of the items. The one exception is a creation
    when every position is in use: it answers [false], and since it returns
    with the mutex taken, no later call returns. *)
Theorem item_table_refines_map address mem count os :
  buffer_ok mem count -> (forall i, 0 <= i < alen mem -> aget mem i = 0) -> Forall op_ok os ->
  exists t, construct (Some (address, mem)) count = Done t /\
    table_run count address os ∅ (steps os t).
Proof.
  intros Hok Hz Hos.
  destruct (construct_zeroed address mem count Hok Hz) as (t & Hc & Htot & Hadr & Ht).
  exists t. split; [done|]. rewrite <- Htot, <- Hadr. by apply table_steps_spec.
Qed.

Lemma get_occupied t s i :
  mutexBitmapItems t = false -> Bitmap.brep (bitmapItems t) s -> i ∈ s ->
  0 <= i < alen (items t) ->
  get t i Out = Done (true, Some (aget (items t) i), t).
Proof.
  intros Hm Hb Hs Hi. unfold get. rewrite Hm. simpl. rewrite (occupied_at t s i Hb) by lia.
  simpl. rewrite bool_decide_true, index_Done by done. simpl. unfold unlock.
  destruct t. simpl in *. by subst.
Qed.

(** A table that is constructed over a buffer with items loses them. The
    constructor reads the chain of free positions from the first bytes of the
    items, not from the bitmap: when the item at position 0 is in use and the
    top bit of its first byte is clear, [get] still finds the item, and the
    first creation returns position 0 and overwrites it. *)
Theorem reopened_table_overwrites address mem count v :
  buffer_ok mem count -> 0 < count ->
  Bitmap.bit (offset_array mem (count * sizeof)) 0 = true -> Bitmap.bit mem 0 = false ->
  exists t t', construct (Some (address, mem)) count = Done t /\
    get t 0 Out = Done (true, Some (load (item_bytes mem 0)), t) /\
    create t Out (Some v) = Done (true, Some 0, t') /\
    get t' 0 Out = Done (true, Some v, t').
Proof.
  intros Hok Hpos Hset Hclear. destruct (table_construct_spec address mem count Hok)
    as (t & Hc & Hm & Htot & _ & Hb & Hx & Hf & _).
  set (s := Bitmap.set_bits (offset_array mem (count * sizeof)) count) in *.
  assert (0 ∈ s) as H0 by (apply Bitmap.elem_of_set_bits; split; [lia|done]).
  assert (alen (items t) = count) as Hlen by by rewrite Hx.
  assert (exists free, headFreeBit t = 0 :: free) as [free Hfree].
  { rewrite Hf. unfold free_positions. rewrite seqZ_cons, filter_cons_True by done. by eexists. }
  destruct (Bitmap.bitmap_set_spec _ _ 0 Hb) as (b & Hbset & Hb' & Htot'); [fold (total t); lia|].
  exists t. eexists. split; [done|]. split; [|split].
  - rewrite (get_occupied t s) by (done || lia). by rewrite Hx.
  - unfold create. rewrite Hm. simpl. rewrite Hfree, Hbset. simpl.
    by rewrite store_Done by (simpl; lia).
  - rewrite (get_occupied _ ({[0]} ∪ s)); simpl; [done|done|done|set_solver|lia].
Qed.

End operations.
#[global] Arguments op : clear implicits.
#[global] Arguments answer : clear implicits.

(** ** A table of bytes *)

Module Example.

#[export] Instance byte_pod : Pod Z := { sizeof := 1; load := fun bs => default 0 (head bs) }.

Lemma item_table_refines_map_witness :
  let os := [OpCreate 7; OpGet 0; OpPut 0 9; OpCreate 8; OpRemove 0; OpGet 0; OpGetAddress 1] in
  exists t, construct (Some (4096, Arr 9 (fun _ => 0))) 8 = Done t /\
    table_run 8 4096 os ∅ (steps os t) /\
    (steps os t).1 = [Created true (Some 0); Item true (Some 7); Flag true; Created true (Some 1);
      Flag true; Item false None; ItemAt true (Some (8, 4097))].
Proof.
  intros os.
  destruct (item_table_refines_map 4096 (Arr 9 (fun _ => 0)) 8 os) as (t & Hc & Hrun).
  - repeat split; vm_compute; congruence.
  - done.
  - repeat constructor; simpl; lia.
  - exists t. split; [exact Hc|]. split; [exact Hrun|].
    assert (match construct (Some (4096, Arr 9 (fun _ => 0))) 8 with
            | Done t => (steps os t).1
            | _ => []
            end = [Created true (Some 0); Item true (Some 7); Flag true; Created true (Some 1);
                   Flag true; Item false None; ItemAt true (Some (8, 4097))])
      as HR by (vm_compute; reflexivity).
    rewrite Hc in HR. exact HR.
Defined.

Lemma reopened_table_overwrites_witness :
  let mem := Arr 9 (fun i => if i =? 8 then 128 else if i =? 0 then 42 else 0) in
  exists t t', construct (Some (4096, mem)) 8 = Done t /\
    get t 0 Out = Done (true, Some 42, t) /\
    create t Out (Some 7) = Done (true, Some 0, t') /\
    get t' 0 Out = Done (true, Some 7, t').
Proof.
  intros mem.
  pose proof (reopened_table_overwrites 4096 mem 8 7) as H.
  assert (load (item_bytes mem 0) = 42) as Hl by reflexivity. rewrite Hl in H. apply H.
  - repeat split; vm_compute; congruence.
  - lia.
  - reflexivity.
  - reflexivity.
Defined.

End Example.

End Table.
