(* ===== verification/OctHashTable.v ===== *)
(** * Path index of the octopus file system (src/sys/octopus/src/fs/hashtable.cpp)

    A hash table with 2^20 buckets of chained items. Bucket heads and chained
    items live in a buffer and are linked by indices, index 0 ending a chain;
    the free items are those of a bitmap and of a chain in the heap. This file
    has the class; OctHashProps.v has its invariant and theorems. *)

From S2P Require Import Prelude.
From S2P Require Import OctBase.
From S2P Require Import OctBitmap.
From S2P Require Import OctTable.
Open Scope Z_scope.

Module HashTable.

(** ** Data *)

Definition HASH_ADDRESS_BITS : Z := 20.
Definition HASH_ITEMS_COUNT : Z := Z.shiftl 1 HASH_ADDRESS_BITS.
Definition sizeof_HashItem : Z := 16.
Definition sizeof_ChainedItem : Z := 56.
Definition HASH_ITEMS_SIZE : Z := HASH_ITEMS_COUNT * sizeof_HashItem.

(** The four words of a SHA-256 digest. *)
Definition UniqueHash : Type := Z * Z * Z * Z.
Definition value0 (h : UniqueHash) : Z := h.1.1.1.
Definition value3 (h : UniqueHash) : Z := h.2.

Record HashItem : Type := mkHashItem { key : Z; indexHead : Z }.

Record ChainedItem : Type := mkChained {
  indexNext : Z;
  indexMeta : Z;
  isDirectory : bool;
  hashUnique : UniqueHash
}.

Record HashTable : Type := mkHashTable {
  bitmapChainedItems : Bitmap.Bitmap;
  mutexBitmapChainedItems : mutex;
  itemsHash : array HashItem;
  itemsChained : array ChainedItem;
  headFreeBit : Table.FreeBits;
  sizeBufferUsed : Z
}.

Definition with_mutex (m : mutex) (ht : HashTable) : HashTable :=
  mkHashTable (bitmapChainedItems ht) m (itemsHash ht) (itemsChained ht) (headFreeBit ht)
    (sizeBufferUsed ht).
Definition with_bitmap (b : Bitmap.Bitmap) (free : Table.FreeBits) (ht : HashTable) : HashTable :=
  mkHashTable b (mutexBitmapChainedItems ht) (itemsHash ht) (itemsChained ht) free
    (sizeBufferUsed ht).
Definition with_heads (hs : array HashItem) (ht : HashTable) : HashTable :=
  mkHashTable (bitmapChainedItems ht) (mutexBitmapChainedItems ht) hs (itemsChained ht)
    (headFreeBit ht) (sizeBufferUsed ht).
Definition with_items (xs : array ChainedItem) (ht : HashTable) : HashTable :=
  mkHashTable (bitmapChainedItems ht) (mutexBitmapChainedItems ht) (itemsHash ht) xs
    (headFreeBit ht) (sizeBufferUsed ht).
Definition with_next (next : Z) (it : ChainedItem) : ChainedItem :=
  mkChained next (indexMeta it) (isDirectory it) (hashUnique it).
Definition with_meta (meta : Z) (dir : bool) (it : ChainedItem) : ChainedItem :=
  mkChained (indexNext it) meta dir (hashUnique it).
Definition with_indexHead (i : Z) (it : HashItem) : HashItem := mkHashItem (key it) i.

(** ** Hashes *)

(** [getAddressHash(UniqueHash * )]: the low 20 bits of the first word. *)
Definition getAddressHash (h : UniqueHash) : Z := Z.land (value0 h) 0xFFFFF.

Section hashing.
(** [CryptoPP::SHA256::CalculateDigest], a function of the bytes of the input. *)
Variable CalculateDigest : list Z -> UniqueHash.

Definition getUniqueHash (buf : list Z) : UniqueHash := CalculateDigest buf.

(** [getAddressHash(const char *, uint64_t, AddressHash * )]. *)
Definition getAddressHash_buf (buf : list Z) : Z := Z.land (value0 (CalculateDigest buf)) 0xFFFFF.
End hashing.

(** ** Walking a chain

    The loops over a chain: [indexCurrent] runs from [cur] until an item with
    the given hash or the end of the chain, [indexBeforeCurrent] one step
    behind. The do-while loops of [get] and [put] start at an index that is
    not 0, where they do the same as this loop. Without a write to the items a
    walk of more steps than there are items has met an item twice and never
    ends. *)
Fixpoint walk (fuel : nat) (items : array ChainedItem) (h : UniqueHash) (before cur : Z)
    : run (bool * Z * Z) :=
  match fuel with
  | O => Blocked
  | S fuel =>
      if cur =? 0 then Done (false, cur, before)
      else
        item ← index items cur;
        if decide (hashUnique item = h) then Done (true, cur, before)
        else walk fuel items h cur (indexNext item)
  end.

Definition walk_fuel (ht : HashTable) : nat := S (Z.to_nat (alen (itemsChained ht))).

(** ** Operations *)

(** The part of [get] under the mutex. *)
Definition get_locked (ht : HashTable) (addr : Z) (h : UniqueHash)
    : run (bool * option (Z * bool)) :=
  head ← index (itemsHash ht) addr;
  if indexHead head =? 0 then Done (false, None)
  else
    w ← walk (walk_fuel ht) (itemsChained ht) h 0 (indexHead head);
    if w.1.1 : bool then
      item ← index (itemsChained ht) w.1.2;
      Done (true, Some (indexMeta item, isDirectory item))
    else Done (false, None).

(** The allocation of an item: the first free bit is popped, and its position
    taken in the bitmap. *)
Definition take_free (ht : HashTable) : run (option (bool * Z) * HashTable) :=
  match headFreeBit ht with
  | [] => Done (None, ht)
  | idx :: nextFreeBit =>
      r ← Bitmap.set (bitmapChainedItems ht) idx;
      Done (Some (r.1, idx), with_bitmap r.2 nextFreeBit ht)
  end.

(** The part of [put] under the mutex. *)
Definition put_locked (ht : HashTable) (addr : Z) (h : UniqueHash) (meta : Z) (dir : bool)
    : run (bool * HashTable) :=
  head ← index (itemsHash ht) addr;
  if indexHead head =? 0 then
    a ← take_free ht;
    match a with
    | (Some (true, idx), ht) =>
        xs ← store (itemsChained ht) idx (mkChained 0 meta dir h);
        hs ← store (itemsHash ht) addr (with_indexHead idx head);
        Done (true, with_heads hs (with_items xs ht))
    | (_, ht) => Done (false, ht)
    end
  else
    w ← walk (walk_fuel ht) (itemsChained ht) h 0 (indexHead head);
    if w.1.1 : bool then
      item ← index (itemsChained ht) w.1.2;
      xs ← store (itemsChained ht) w.1.2 (with_meta meta dir item);
      Done (true, with_items xs ht)
    else
      a ← take_free ht;
      match a with
      | (Some (true, idx), ht) =>
          xs ← store (itemsChained ht) idx (mkChained 0 meta dir h);
          last ← index xs w.2;
          xs ← store xs w.2 (with_next idx last);
          Done (true, with_items xs ht)
      | (_, ht) => Done (false, ht)
      end.

(** The part of [del] under the mutex. *)
Definition del_locked (ht : HashTable) (addr : Z) (h : UniqueHash) : run (bool * HashTable) :=
  head ← index (itemsHash ht) addr;
  if indexHead head =? 0 then Done (false, ht)
  else
    first ← index (itemsChained ht) (indexHead head);
    if decide (hashUnique first = h) then
      r ← Bitmap.clear (bitmapChainedItems ht) (indexHead head);
      if r.1 : bool then
        hs ← store (itemsHash ht) addr (with_indexHead (indexNext first) head);
        Done (true, with_heads hs (with_bitmap r.2 (indexHead head :: headFreeBit ht) ht))
      else Done (false, with_bitmap r.2 (headFreeBit ht) ht)
    else
      w ← walk (walk_fuel ht) (itemsChained ht) h (indexHead head) (indexNext first);
      if w.1.1 : bool then
        r ← Bitmap.clear (bitmapChainedItems ht) w.1.2;
        if r.1 : bool then
          item ← index (itemsChained ht) w.1.2;
          prev ← index (itemsChained ht) w.2;
          xs ← store (itemsChained ht) w.2 (with_next (indexNext item) prev);
          Done (true, with_items xs (with_bitmap r.2 (w.1.2 :: headFreeBit ht) ht))
        else Done (false, with_bitmap r.2 (headFreeBit ht) ht)
      else Done (true, ht).

(** [get(UniqueHash *, uint64_t *, bool * )]. *)
Definition get (ht : HashTable) (h : option UniqueHash) (meta dir : outptr)
    : run (bool * option (Z * bool) * HashTable) :=
  match h, meta, dir with
  | Some h, Out, Out =>
      m ← lock (mutexBitmapChainedItems ht);
      r ← get_locked (with_mutex m ht) (getAddressHash h) h;
      Done (r.1, r.2, with_mutex (unlock m) ht)
  | _, _, _ => Done (false, None, ht)
  end.

(** [put(UniqueHash *, uint64_t, bool)]. *)
Definition put (ht : HashTable) (h : option UniqueHash) (meta : Z) (dir : bool)
    : run (bool * HashTable) :=
  match h with
  | Some h =>
      m ← lock (mutexBitmapChainedItems ht);
      r ← put_locked (with_mutex m ht) (getAddressHash h) h meta dir;
      Done (r.1, with_mutex (unlock m) r.2)
  | None => Done (false, ht)
  end.

(** [del(UniqueHash * )]. *)
Definition del (ht : HashTable) (h : option UniqueHash) : run (bool * HashTable) :=
  match h with
  | Some h =>
      m ← lock (mutexBitmapChainedItems ht);
      r ← del_locked (with_mutex m ht) (getAddressHash h) h;
      Done (r.1, with_mutex (unlock m) r.2)
  | None => Done (false, ht)
  end.

Section by_path.
Variable CalculateDigest : list Z -> UniqueHash.

(** [get(const char *, uint64_t *, bool * )]: a path is the bytes before its
    terminator. *)
Definition get_path (ht : HashTable) (path : option (list Z)) (meta dir : outptr)
    : run (bool * option (Z * bool) * HashTable) :=
  match path, meta, dir with
  | Some path, Out, Out =>
      let h := getUniqueHash CalculateDigest path in
      let addr := getAddressHash h in
      m ← lock (mutexBitmapChainedItems ht);
      r ← get_locked (with_mutex m ht) addr h;
      Done (r.1, r.2, with_mutex (unlock m) ht)
  | _, _, _ => Done (false, None, ht)
  end.

Definition put_path (ht : HashTable) (path : option (list Z)) (meta : Z) (dir : bool)
    : run (bool * HashTable) :=
  match path with
  | Some path =>
      let addr := getAddressHash_buf CalculateDigest path in
      m ← lock (mutexBitmapChainedItems ht);
      r ← put_locked (with_mutex m ht) addr (getUniqueHash CalculateDigest path) meta dir;
      Done (r.1, with_mutex (unlock m) r.2)
  | None => Done (false, ht)
  end.

Definition del_path (ht : HashTable) (path : option (list Z)) : run (bool * HashTable) :=
  match path with
  | Some path =>
      let addr := getAddressHash_buf CalculateDigest path in
      m ← lock (mutexBitmapChainedItems ht);
      r ← del_locked (with_mutex m ht) addr (getUniqueHash CalculateDigest path);
      Done (r.1, with_mutex (unlock m) r.2)
  | None => Done (false, ht)
  end.
End by_path.

(** ** Counters *)

(** The loop over the 2^20 hash items, from [i] on, [n] iterations to go. *)
Fixpoint count_heads (n : nat) (hs : array HashItem) (i count : Z) : run Z :=
  match n with
  | O => Done count
  | S n =>
      head ← index hs i;
      count_heads n hs (i + 1) (if indexHead head =? 0 then count else u64 (count + 1))
  end.

Definition getSavedHashItemsCount (ht : HashTable) : run Z :=
  count_heads (Z.to_nat HASH_ITEMS_COUNT) (itemsHash ht) 0 0.

Definition getSavedChainedItemsCount (ht : HashTable) : Z :=
  u64 (Bitmap.countTotal (bitmapChainedItems ht) - Bitmap.countFree (bitmapChainedItems ht) - 1).

Definition getTotalHashItemsCount (ht : HashTable) : Z := HASH_ITEMS_COUNT.

Definition getTotalChainedItemsCount (ht : HashTable) : Z :=
  u64 (Bitmap.countTotal (bitmapChainedItems ht) - 1).

(** The length of the chain from [cur]. *)
Fixpoint chain_length (fuel : nat) (items : array ChainedItem) (cur length : Z) : run Z :=
  match fuel with
  | O => Blocked
  | S fuel =>
      if cur =? 0 then Done length
      else item ← index items cur; chain_length fuel items (indexNext item) (u64 (length + 1))
  end.

Fixpoint max_length (n : nat) (ht : HashTable) (i max : Z) : run Z :=
  match n with
  | O => Done max
  | S n =>
      head ← index (itemsHash ht) i;
      length ← chain_length (walk_fuel ht) (itemsChained ht) (indexHead head) 0;
      max_length n ht (i + 1) (if max <? length then length else max)
  end.

Definition getMaxLengthOfChain (ht : HashTable) : run Z :=
  max_length (Z.to_nat HASH_ITEMS_COUNT) ht 0 0.

(** ** Constructor and destructor *)

(** The buffer as its three parts: the hash items, the bitmap behind them and
    the chained items behind the bitmap. *)
Record buffer : Type := mkBuffer {
  buf_heads : array HashItem;
  buf_bitmap : array Z;
  buf_items : array ChainedItem
}.

(** The loop that pushes the positions [i], [i + 1], ... *)
Fixpoint push_all (n : nat) (i : Z) (free : Table.FreeBits) : Table.FreeBits :=
  match n with
  | O => free
  | S n => push_all n (i + 1) (i :: free)
  end.

Definition construct (buf : option buffer) (count : Z) : run HashTable :=
  match buf with
  | None => Exits
  | Some buf =>
      b ← Bitmap.construct count (Some (buf_bitmap buf));
      r ← Bitmap.set b 0;
      if r.1 : bool then
        let free := push_all (Z.to_nat (Bitmap.countTotal r.2 - 1)) 1 [] in
        Done (mkHashTable r.2 false (buf_heads buf) (buf_items buf) free
                (u64 (HASH_ITEMS_SIZE + count / 8 + sizeof_ChainedItem * count)))
      else Exits
  end.

(** The destructor frees the chain of free bits. *)
Definition destroy (ht : HashTable) : list Z := headFreeBit ht.

End HashTable.
