(* ===== verification/OctHashProps.v ===== *)
(** * Theorems on the path index of octopus

    [hrep ht m]: the hash table stands for the finite map [m] from unique
    hashes to (meta index, is-directory) pairs. The invariant has two halves:
    [shape] on the chains, the bitmap and the free positions, [contents] on
    what the items say. *)

From S2P Require Import Prelude.
From S2P Require Import OctBase.
From S2P Require Import OctBitmap.
From S2P Require Import OctTable.
From S2P Require Import OctHashTable.
Open Scope Z_scope.
Import HashTable.

(** ** Chains *)

(** The items that a walk from [cur] meets. *)
Fixpoint chain (items : array ChainedItem) (cur : Z) (l : list Z) : Prop :=
  match l with
  | [] => cur = 0
  | i :: l => cur = i /\ i <> 0 /\ chain items (indexNext (aget items i)) l
  end.

Abbreviation next items i := (indexNext (aget items i)).
Abbreviation hash_of items i := (hashUnique (aget items i)).
Abbreviation value_of items i := (indexMeta (aget items i), isDirectory (aget items i)).

Lemma chain_ext items items' l : forall cur,
  chain items cur l -> (forall i, i ∈ l -> next items' i = next items i) -> chain items' cur l.
Proof.
  induction l as [|x l IH]; intros cur Hc Hn; simpl in *; [done|].
  destruct Hc as (-> & Hx & Hc). split; [done|]. split; [done|].
  rewrite Hn by by constructor. apply IH; [done|]. intros i Hi. apply Hn. by constructor.
Qed.

Lemma chain_append items items' l : forall cur p idx,
  chain items cur l -> NoDup l -> last l = Some p ->
  (forall i, i ∈ l -> i <> p -> next items' i = next items i) ->
  next items' p = idx -> idx <> 0 -> next items' idx = 0 ->
  chain items' cur (l ++ [idx]).
Proof.
  induction l as [|x l IH]; intros cur p idx Hc Hnd Hlast Hn Hp Hidx Hend; [done|].
  destruct Hc as (-> & Hx & Hc). apply NoDup_cons in Hnd as [Hxl Hnd].
  simpl. split; [done|]. split; [done|]. destruct l as [|y l].
  - simpl in Hlast. injection Hlast as ->. simpl. split; [done|]. by split.
  - assert (last (y :: l) = Some p) as Hlast' by by rewrite <- Hlast.
    rewrite Hn; [|by constructor|].
    + apply (IH _ p idx); try done. intros i Hi. apply Hn. by constructor.
    + intros ->. apply Hxl. by apply last_Some_elem_of.
Qed.

Lemma chain_unlink items items' l1 : forall cur p i l2,
  chain items cur (l1 ++ p :: i :: l2) -> NoDup (l1 ++ p :: i :: l2) ->
  (forall j, j ∈ l1 ++ p :: i :: l2 -> j <> p -> next items' j = next items j) ->
  next items' p = next items i ->
  chain items' cur (l1 ++ p :: l2).
Proof.
  induction l1 as [|x l1 IH]; intros cur p i l2 Hc Hnd Hn Hp; simpl in *.
  - destruct Hc as (-> & Hp0 & _ & Hi & Hc). split; [done|]. split; [done|]. rewrite Hp.
    apply (chain_ext items); [done|]. intros j Hj. apply Hn.
    + by do 2 constructor.
    + intros ->. apply NoDup_cons in Hnd as [Hpl _]. apply Hpl. by constructor.
  - destruct Hc as (-> & Hx & Hc). apply NoDup_cons in Hnd as [Hxl Hnd].
    split; [done|]. split; [done|]. rewrite Hn; [|by constructor|].
    + apply (IH _ p i l2); try done. intros j Hj. apply Hn. by constructor.
    + intros ->. apply Hxl. apply elem_of_app. right. by constructor.
Qed.

(** ** Walks *)

(** The two ends of a walk along [l]. *)
Definition walked (items : array ChainedItem) (h : UniqueHash) (before : Z) (l : list Z)
    (r : run (bool * Z * Z)) : Prop :=
  (exists l1 i l2, l = l1 ++ i :: l2 /\ hash_of items i = h /\
     (forall j, j ∈ l1 -> hash_of items j <> h) /\
     r = Done (true, i, default before (last l1))) \/
  ((forall j, j ∈ l -> hash_of items j <> h) /\ r = Done (false, 0, default before (last l))).

Lemma walk_spec items h l : forall fuel before cur,
  chain items cur l -> (forall i, i ∈ l -> 0 <= i < alen items) -> (length l < fuel)%nat ->
  walked items h before l (walk fuel items h before cur).
Proof.
  induction l as [|x l IH]; intros [|fuel] before cur Hc Hb Hf; simpl in *; try lia.
  - rewrite Hc. right. split; [|done]. intros j Hj. by apply not_elem_of_nil in Hj.
  - destruct Hc as (-> & Hx & Hc). rewrite (proj2 (Z.eqb_neq x 0)) by done.
    rewrite index_Done by (apply Hb; constructor). simpl.
    destruct (decide (hash_of items x = h)) as [He|He].
    + left. exists [], x, l. split; [done|]. split; [done|]. split; [|done].
      intros j Hj. by apply not_elem_of_nil in Hj.
    + destruct (IH fuel x (next items x) Hc) as [(l1 & i & l2 & -> & Hi & Hl1 & ->)|(Hl & ->)];
        [intros i Hi; apply Hb; by constructor|lia|left|right].
      * exists (x :: l1), i, l2. split; [done|]. split; [done|]. split.
        -- intros j [->|Hj]%elem_of_cons; auto.
        -- rewrite last_cons. by destruct (last l1).
      * split; [intros j [->|Hj]%elem_of_cons; auto|].
        rewrite last_cons. by destruct (last l).
Qed.

#[local] Arguments walk : simpl never.

(** ** The invariant *)

Definition in_table (a : Z) : Prop := 0 <= a < HASH_ITEMS_COUNT.

Lemma getAddressHash_range h : in_table (getAddressHash h).
Proof.
  unfold in_table, getAddressHash. change 0xFFFFF with (Z.ones 20).
  rewrite Z.land_ones by lia. by apply Z.mod_pos_bound.
Qed.

Definition count (ht : HashTable) : Z := Bitmap.varCountTotal (bitmapChainedItems ht).

Record shape (ht : HashTable) (ch : Z -> list Z) (U : gset Z) : Prop := mkShape {
  sh_heads_len : HASH_ITEMS_COUNT <= alen (itemsHash ht);
  sh_items_len : count ht <= alen (itemsChained ht);
  sh_chain : forall a, in_table a -> chain (itemsChained ht) (indexHead (aget (itemsHash ht) a)) (ch a);
  sh_nodup : forall a, in_table a -> NoDup (ch a);
  sh_addr : forall a i, in_table a -> i ∈ ch a -> getAddressHash (hash_of (itemsChained ht) i) = a;
  sh_used : forall i, i ∈ U <-> i ∈ ch (getAddressHash (hash_of (itemsChained ht) i));
  sh_bitmap : Bitmap.brep (bitmapChainedItems ht) ({[0]} ∪ U);
  sh_zero : 0 ∉ U;
  sh_free_nodup : NoDup (headFreeBit ht);
  sh_free : forall i, i ∈ headFreeBit ht <-> 0 < i < count ht /\ i ∉ U
}.

Record contents (items : array ChainedItem) (U : gset Z) (m : gmap UniqueHash (Z * bool))
    : Prop := mkContents {
  ct_inj : forall i j, i ∈ U -> j ∈ U -> hash_of items i = hash_of items j -> i = j;
  ct_map : forall k v, m !! k = Some v <-> exists i, i ∈ U /\ hash_of items i = k /\ value_of items i = v;
  ct_size : size m = size U
}.

Record hrep (ht : HashTable) (m : gmap UniqueHash (Z * bool)) : Prop := mkHrep {
  h_mutex : mutexBitmapChainedItems ht = false;
  h_rep : exists ch U, shape ht ch U /\ contents (itemsChained ht) U m
}.

Lemma sh_elem ht ch U a i :
  shape ht ch U -> in_table a -> i ∈ ch a ->
  i ∈ U /\ 0 < i < count ht /\ 0 <= i < alen (itemsChained ht).
Proof.
  intros Hs Ha Hi. assert (i ∈ U) as HU.
  { apply (sh_used _ _ _ Hs). by rewrite (sh_addr _ _ _ Hs a i). }
  assert (i <> 0) by (intros ->; by apply (sh_zero _ _ _ Hs)).
  pose proof (Bitmap.brep_elem _ _ i (sh_bitmap _ _ _ Hs) ltac:(set_solver)) as Hr.
  pose proof (sh_items_len _ _ _ Hs). fold (count ht) in Hr. split; [done|]. lia.
Qed.

Lemma sh_fuel ht ch U a :
  shape ht ch U -> in_table a -> (length (ch a) < walk_fuel ht)%nat.
Proof.
  intros Hs Ha. unfold walk_fuel.
  pose proof (Bitmap.size_in_positions (list_to_set (ch a)) (alen (itemsChained ht))) as Hsz.
  rewrite size_list_to_set in Hsz by apply (sh_nodup _ _ _ Hs a Ha).
  assert (0 <= alen (itemsChained ht)).
  { pose proof (sh_items_len _ _ _ Hs).
    pose proof (Bitmap.brep_total _ _ (sh_bitmap _ _ _ Hs)). unfold count in *. lia. }
  enough (Z.of_nat (length (ch a)) <= alen (itemsChained ht)) by lia.
  apply Hsz; [done|]. intros p Hp%elem_of_list_to_set.
  apply (sh_elem ht ch U a p Hs Ha Hp).
Qed.

Lemma sh_walk ht ch U a h before :
  shape ht ch U -> in_table a ->
  walked (itemsChained ht) h before (ch a)
    (walk (walk_fuel ht) (itemsChained ht) h before (indexHead (aget (itemsHash ht) a))).
Proof.
  intros Hs Ha. apply walk_spec; [by apply (sh_chain _ _ _ Hs)| |by eapply sh_fuel].
  intros i Hi. apply (sh_elem ht ch U a i Hs Ha Hi).
Qed.

(** The chain of a hash holds its item, and tells whether it has one. *)
Lemma ct_found ht ch U m h i :
  shape ht ch U -> contents (itemsChained ht) U m ->
  i ∈ ch (getAddressHash h) -> hash_of (itemsChained ht) i = h ->
  i ∈ U /\ m !! h = Some (value_of (itemsChained ht) i).
Proof.
  intros Hs Hc Hi Hh.
  destruct (sh_elem ht ch U _ i Hs (getAddressHash_range h) Hi) as (HU & _). split; [done|].
  apply (ct_map _ _ _ Hc). by exists i.
Qed.

Lemma ct_missing ht ch U m h :
  shape ht ch U -> contents (itemsChained ht) U m ->
  (forall j, j ∈ ch (getAddressHash h) -> hash_of (itemsChained ht) j <> h) -> m !! h = None.
Proof.
  intros Hs Hc Hno. destruct (m !! h) as [v|] eqn:Hm; [|done].
  apply (ct_map _ _ _ Hc) in Hm as (i & Hi & Hh & _).
  apply (sh_used _ _ _ Hs) in Hi. rewrite Hh in Hi. by destruct (Hno i Hi).
Qed.

(** A bucket without a head has an empty chain. *)
Lemma sh_empty ht ch U a :
  shape ht ch U -> in_table a -> indexHead (aget (itemsHash ht) a) = 0 -> ch a = [].
Proof.
  intros Hs Ha H0. pose proof (sh_chain _ _ _ Hs a Ha) as Hc. rewrite H0 in Hc.
  destruct (ch a) as [|x l]; [done|]. destruct Hc as (<- & Hx & _). done.
Qed.

Lemma sh_head ht ch U a :
  shape ht ch U -> in_table a -> index (itemsHash ht) a = Done (aget (itemsHash ht) a).
Proof.
  intros Hs Ha. apply index_Done. pose proof (sh_heads_len _ _ _ Hs).
  unfold in_table in Ha. lia.
Qed.

(** ** Changes of the contents *)

Lemma contents_ext items items' U m :
  contents items U m ->
  (forall i, i ∈ U -> hash_of items' i = hash_of items i) ->
  (forall i, i ∈ U -> value_of items' i = value_of items i) ->
  contents items' U m.
Proof.
  intros Hc Hh Hv. split; [| |apply Hc].
  - intros i j Hi Hj. rewrite !Hh by done. by apply (ct_inj _ _ _ Hc).
  - intros k v. rewrite (ct_map _ _ _ Hc). split; intros (i & Hi & Hk & Hval); exists i;
      (split; [done|]).
    + by rewrite Hh, Hv.
    + by rewrite <- Hh, <- Hv.
Qed.

Lemma contents_update items items' U m i v :
  contents items U m -> i ∈ U ->
  (forall j, j ∈ U -> hash_of items' j = hash_of items j) ->
  (forall j, j ∈ U -> j <> i -> value_of items' j = value_of items j) ->
  value_of items' i = v ->
  contents items' U (<[hash_of items i := v]> m).
Proof.
  intros Hc Hi Hh Hv Hvi. split.
  - intros j k Hj Hk. rewrite !Hh by done. by apply (ct_inj _ _ _ Hc).
  - intros k w. destruct (decide (hash_of items i = k)) as [<-|Hne].
    + rewrite lookup_insert_eq. split.
      * intros [= <-]. exists i. by rewrite Hh.
      * intros (j & Hj & Hjh & Hjv). rewrite Hh in Hjh by done.
        rewrite (ct_inj _ _ _ Hc j i Hj Hi Hjh) in Hjv. by rewrite <- Hjv, Hvi.
    + rewrite lookup_insert_ne, (ct_map _ _ _ Hc) by done.
      split; intros (j & Hj & Hjh & Hjv); exists j; (split; [done|]).
      * assert (j <> i) by (intros ->; done). by rewrite Hh, Hv.
      * rewrite Hh in Hjh by done. assert (j <> i) by (intros ->; done). by rewrite <- Hv.
  - rewrite map_size_insert, (ct_size _ _ _ Hc).
    by rewrite (proj2 (ct_map _ _ _ Hc _ (value_of items i))) by by exists i.
Qed.

Lemma contents_insert items items' U m i h v :
  contents items U m -> i ∉ U -> m !! h = None ->
  (forall j, j ∈ U -> hash_of items' j = hash_of items j) ->
  (forall j, j ∈ U -> value_of items' j = value_of items j) ->
  hash_of items' i = h -> value_of items' i = v ->
  contents items' ({[i]} ∪ U) (<[h := v]> m).
Proof.
  intros Hc Hi Hm Hh Hv Hhi Hvi.
  assert (forall j, j ∈ U -> hash_of items j <> h) as Hno.
  { intros j Hj He. rewrite (proj2 (ct_map _ _ _ Hc h (value_of items j))) in Hm; [done|].
    by exists j. }
  split.
  - intros j k [->%elem_of_singleton|Hj]%elem_of_union [->%elem_of_singleton|Hk]%elem_of_union.
    + done.
    + rewrite Hhi, (Hh k) by done. intros He. by destruct (Hno k Hk).
    + rewrite Hhi, (Hh j) by done. intros He. by destruct (Hno j Hj).
    + rewrite !Hh by done. by apply (ct_inj _ _ _ Hc).
  - intros k w. destruct (decide (h = k)) as [<-|Hne].
    + rewrite lookup_insert_eq. split.
      * intros [= <-]. exists i. split; [set_solver|done].
      * intros (j & [->%elem_of_singleton|Hj]%elem_of_union & Hjh & Hjv); [by rewrite <- Hjv, Hvi|].
        rewrite Hh in Hjh by done. by destruct (Hno j Hj).
    + rewrite lookup_insert_ne, (ct_map _ _ _ Hc) by done. split.
      * intros (j & Hj & Hjh & Hjv). exists j. rewrite Hh, Hv by done. split; [set_solver|done].
      * intros (j & [->%elem_of_singleton|Hj]%elem_of_union & Hjh & Hjv); [congruence|].
        exists j. by rewrite <- Hh, <- Hv.
  - rewrite map_size_insert, Hm, (ct_size _ _ _ Hc), size_union, size_singleton by set_solver.
    done.
Qed.

Lemma contents_delete items items' U m i :
  contents items U m -> i ∈ U ->
  (forall j, j ∈ U -> hash_of items' j = hash_of items j) ->
  (forall j, j ∈ U -> value_of items' j = value_of items j) ->
  contents items' (U ∖ {[i]}) (delete (hash_of items i) m).
Proof.
  intros Hc Hi Hh Hv. split.
  - intros j k [Hj _]%elem_of_difference [Hk _]%elem_of_difference. rewrite !Hh by done.
    by apply (ct_inj _ _ _ Hc).
  - intros k w. rewrite lookup_delete_Some, (ct_map _ _ _ Hc). split.
    + intros (Hne & j & Hj & Hjh & Hjv). exists j. rewrite Hh, Hv by done.
      split; [|done]. apply elem_of_difference. split; [done|].
      intros ->%elem_of_singleton. done.
    + intros (j & [Hj Hji]%elem_of_difference & Hjh & Hjv). rewrite Hh in Hjh by done.
      split; [|exists j; by rewrite <- Hv].
      intros <-. apply Hji, elem_of_singleton. by apply (ct_inj _ _ _ Hc).
  - rewrite map_size_delete, (ct_size _ _ _ Hc).
    rewrite (proj2 (ct_map _ _ _ Hc _ (value_of items i))) by by exists i.
    rewrite size_difference, size_singleton by set_solver. lia.
Qed.

(** ** Changes of the shape *)

Definition set_chain (ch : Z -> list Z) (a : Z) (l : list Z) : Z -> list Z :=
  fun a' => if a' =? a then l else ch a'.

Lemma set_chain_eq ch a l : set_chain ch a l a = l.
Proof. unfold set_chain. by rewrite Z.eqb_refl. Qed.

Lemma set_chain_ne ch a l a' : a' <> a -> set_chain ch a l a' = ch a'.
Proof. intros Hne. unfold set_chain. by rewrite (proj2 (Z.eqb_neq _ _)). Qed.

Lemma shape_items ht ch U items' :
  shape ht ch U -> alen items' = alen (itemsChained ht) ->
  (forall i, next items' i = next (itemsChained ht) i) ->
  (forall i, hash_of items' i = hash_of (itemsChained ht) i) ->
  shape (with_items items' ht) ch U.
Proof.
  intros Hs Hlen Hn Hh. split; simpl; try apply Hs.
  - rewrite Hlen. apply Hs.
  - intros a Ha. apply (chain_ext (itemsChained ht)); [by apply (sh_chain _ _ _ Hs)|done].
  - intros a i Ha Hi. rewrite Hh. by apply (sh_addr _ _ _ Hs).
  - intros i. rewrite Hh. apply (sh_used _ _ _ Hs).
Qed.

(** Chains of different buckets have no item in common. *)
Lemma sh_disjoint ht ch U a a' i :
  shape ht ch U -> in_table a -> in_table a' -> i ∈ ch a -> i ∈ ch a' -> a = a'.
Proof.
  intros Hs Ha Ha' Hi Hi'.
  by rewrite <- (sh_addr _ _ _ Hs a i Ha Hi), (sh_addr _ _ _ Hs a' i Ha' Hi').
Qed.

Lemma shape_grow ht ht' ch U a idx free :
  shape ht ch U -> in_table a -> headFreeBit ht = idx :: free -> headFreeBit ht' = free ->
  Bitmap.brep (bitmapChainedItems ht') ({[0]} ∪ ({[idx]} ∪ U)) -> count ht' = count ht ->
  alen (itemsHash ht') = alen (itemsHash ht) -> alen (itemsChained ht') = alen (itemsChained ht) ->
  (forall a', a' <> a -> aget (itemsHash ht') a' = aget (itemsHash ht) a') ->
  (forall i, i <> idx -> hash_of (itemsChained ht') i = hash_of (itemsChained ht) i) ->
  getAddressHash (hash_of (itemsChained ht') idx) = a ->
  (forall i, i <> idx -> i ∉ ch a -> next (itemsChained ht') i = next (itemsChained ht) i) ->
  chain (itemsChained ht') (indexHead (aget (itemsHash ht') a)) (ch a ++ [idx]) ->
  shape ht' (set_chain ch a (ch a ++ [idx])) ({[idx]} ∪ U).
Proof.
  intros Hs Ha Hf Hf' Hb Hcount Hlen Hlen' Hheads Hhash Hidx Hnext Hchain.
  pose proof (sh_free_nodup _ _ _ Hs) as Hnd. rewrite Hf in Hnd.
  apply NoDup_cons in Hnd as [Hnf Hnd].
  assert (0 < idx < count ht /\ idx ∉ U) as [Hr HU].
  { apply (sh_free _ _ _ Hs). rewrite Hf. constructor. }
  assert (forall a', in_table a' -> idx ∉ ch a') as Hno.
  { intros a' Ha' Hi. by destruct (sh_elem ht ch U a' idx Hs Ha' Hi). }
  split.
  - rewrite Hlen. apply Hs.
  - rewrite Hlen', Hcount. apply Hs.
  - intros a' Ha'. destruct (decide (a' = a)) as [->|Hne]; [by rewrite set_chain_eq|].
    rewrite set_chain_ne, Hheads by done.
    apply (chain_ext (itemsChained ht)); [by apply (sh_chain _ _ _ Hs)|].
    intros i Hi. apply Hnext; [intros ->; by destruct (Hno a')|].
    intros Hi'. destruct Hne. by apply (sh_disjoint ht ch U a' a i).
  - intros a' Ha'. destruct (decide (a' = a)) as [->|Hne].
    + rewrite set_chain_eq. apply NoDup_app. split; [by apply (sh_nodup _ _ _ Hs)|].
      split; [|apply NoDup_singleton]. intros x Hx ->%list_elem_of_singleton. by destruct (Hno a).
    + rewrite set_chain_ne by done. by apply (sh_nodup _ _ _ Hs).
  - intros a' i Ha' Hi. destruct (decide (i = idx)) as [->|Hi'].
    + destruct (decide (a' = a)) as [->|Hne]; [done|].
      rewrite set_chain_ne in Hi by done. by destruct (Hno a').
    + rewrite Hhash by done. apply (sh_addr _ _ _ Hs); [done|].
      destruct (decide (a' = a)) as [->|Hne]; [|by rewrite set_chain_ne in Hi].
      rewrite set_chain_eq in Hi.
      apply elem_of_app in Hi as [?| ->%list_elem_of_singleton]; done.
  - intros i. destruct (decide (i = idx)) as [->|Hi].
    + rewrite Hidx, set_chain_eq. split; [|set_solver].
      intros _. apply elem_of_app. right. by apply list_elem_of_singleton.
    + rewrite elem_of_union, elem_of_singleton, Hhash, (sh_used _ _ _ Hs i) by done.
      set (b := getAddressHash (hash_of (itemsChained ht) i)).
      destruct (decide (b = a)) as [->|Hne].
      * rewrite set_chain_eq, elem_of_app, list_elem_of_singleton. tauto.
      * rewrite set_chain_ne by done. tauto.
  - done.
  - apply not_elem_of_union. split; [apply not_elem_of_singleton; lia|apply Hs].
  - by rewrite Hf'.
  - intros i. pose proof (sh_free _ _ _ Hs i) as Hi. rewrite Hf, elem_of_cons in Hi.
    rewrite Hf', Hcount, not_elem_of_union, not_elem_of_singleton.
    split.
    + intros Hif. assert (i <> idx) by (intros ->; done).
      destruct (proj1 Hi (or_intror Hif)). done.
    + intros (Hir & Hne & HiU). by destruct (proj2 Hi (conj Hir HiU)).
Qed.

Lemma shape_shrink ht ht' ch U a i l' :
  shape ht ch U -> in_table a -> i ∈ ch a ->
  NoDup l' -> (forall j, j ∈ l' <-> j ∈ ch a /\ j <> i) ->
  headFreeBit ht' = i :: headFreeBit ht ->
  Bitmap.brep (bitmapChainedItems ht') ({[0]} ∪ (U ∖ {[i]})) -> count ht' = count ht ->
  alen (itemsHash ht') = alen (itemsHash ht) -> alen (itemsChained ht') = alen (itemsChained ht) ->
  (forall a', a' <> a -> aget (itemsHash ht') a' = aget (itemsHash ht) a') ->
  (forall j, hash_of (itemsChained ht') j = hash_of (itemsChained ht) j) ->
  (forall j, j ∉ ch a -> next (itemsChained ht') j = next (itemsChained ht) j) ->
  chain (itemsChained ht') (indexHead (aget (itemsHash ht') a)) l' ->
  shape ht' (set_chain ch a l') (U ∖ {[i]}).
Proof.
  intros Hs Ha Hia Hnd Hl' Hf' Hb Hcount Hlen Hlen' Hheads Hhash Hnext Hchain.
  destruct (sh_elem ht ch U a i Hs Ha Hia) as (HU & Hr & _).
  split.
  - rewrite Hlen. apply Hs.
  - rewrite Hlen', Hcount. apply Hs.
  - intros a' Ha'. destruct (decide (a' = a)) as [->|Hne]; [by rewrite set_chain_eq|].
    rewrite set_chain_ne, Hheads by done.
    apply (chain_ext (itemsChained ht)); [by apply (sh_chain _ _ _ Hs)|].
    intros j Hj. apply Hnext. intros Hj'. destruct Hne. by apply (sh_disjoint ht ch U a' a j).
  - intros a' Ha'. destruct (decide (a' = a)) as [->|Hne]; [by rewrite set_chain_eq|].
    rewrite set_chain_ne by done. by apply (sh_nodup _ _ _ Hs).
  - intros a' j Ha' Hj. rewrite Hhash. apply (sh_addr _ _ _ Hs); [done|].
    destruct (decide (a' = a)) as [->|Hne]; [|by rewrite set_chain_ne in Hj].
    rewrite set_chain_eq in Hj. by apply Hl'.
  - intros j. rewrite elem_of_difference, elem_of_singleton, Hhash, (sh_used _ _ _ Hs j).
    set (b := getAddressHash (hash_of (itemsChained ht) j)).
    destruct (decide (b = a)) as [->|Hne].
    + by rewrite set_chain_eq, Hl'.
    + rewrite set_chain_ne by done. split; [by intros [? _]|]. intros Hj. split; [done|].
      intros ->. destruct Hne. by apply (sh_addr _ _ _ Hs).
  - done.
  - intros [H0 _]%elem_of_difference. by apply (sh_zero _ _ _ Hs).
  - rewrite Hf'. constructor; [|apply Hs]. intros [_ Hn]%(sh_free _ _ _ Hs). done.
  - intros j. rewrite Hf', elem_of_cons, (sh_free _ _ _ Hs), Hcount, elem_of_difference,
      elem_of_singleton. split.
    + intros [->|[? ?]]; [split; [lia|]; tauto|tauto].
    + intros [Hj Hn]. destruct (decide (j = i)); tauto.
Qed.

(** ** The operations under the mutex *)

Lemma get_locked_spec ht ch U m h :
  shape ht ch U -> contents (itemsChained ht) U m ->
  get_locked ht (getAddressHash h) h =
  Done (match m !! h with Some v => (true, Some v) | None => (false, None) end).
Proof.
  intros Hs Hc. set (a := getAddressHash h). pose proof (getAddressHash_range h) as Ha. fold a in Ha.
  unfold get_locked. rewrite (sh_head ht ch U a Hs Ha). simpl.
  destruct (Z.eqb_spec (indexHead (aget (itemsHash ht) a)) 0) as [H0|H0].
  - rewrite (ct_missing ht ch U m h Hs Hc); [done|]. fold a.
    rewrite (sh_empty ht ch U a Hs Ha H0). intros j Hj. by apply not_elem_of_nil in Hj.
  - destruct (sh_walk ht ch U a h 0 Hs Ha) as [(l1 & i & l2 & Hl & Hi & _ & ->)|(Hno & ->)].
    + simpl. assert (i ∈ ch a) as Hia by (rewrite Hl; apply elem_of_app; right; constructor).
      rewrite index_Done by apply (sh_elem ht ch U a i Hs Ha Hia). simpl.
      by rewrite (proj2 (ct_found ht ch U m h i Hs Hc Hia Hi)).
    + simpl. by rewrite (ct_missing ht ch U m h Hs Hc Hno).
Qed.

(** What an operation leaves: a table for the new map, with the same locks. *)
Definition becomes (ht ht' : HashTable) (m' : gmap UniqueHash (Z * bool)) : Prop :=
  (exists ch' U', shape ht' ch' U' /\ contents (itemsChained ht') U' m') /\
  mutexBitmapChainedItems ht' = mutexBitmapChainedItems ht /\ count ht' = count ht /\
  (forall a, key (aget (itemsHash ht') a) = key (aget (itemsHash ht) a)).

Lemma becomes_same ht ch U m :
  shape ht ch U -> contents (itemsChained ht) U m -> becomes ht ht m.
Proof. intros Hs Hc. split; [by exists ch, U|done]. Qed.

(** Room for an item is a free position, and the map is full without one. *)
Lemma sh_full ht ch U :
  shape ht ch U -> (headFreeBit ht = [] <-> Z.of_nat (size U) = count ht - 1).
Proof.
  intros Hs. pose proof (sh_bitmap _ _ _ Hs) as Hb. pose proof (sh_zero _ _ _ Hs) as H0.
  pose proof (Bitmap.brep_total _ _ Hb) as Ht.
  assert (size ({[0]} ∪ U) = S (size U)) as Hsz.
  { rewrite size_union, size_singleton by set_solver. done. }
  split.
  - intros Hf. assert (Z.of_nat (size ({[0]} ∪ U)) <= count ht) as Hle by apply (Bitmap.brep_size _ _ Hb).
    assert (positions_in : Bitmap.positions (count ht) ⊆ {[0]} ∪ U).
    { intros p Hp%Bitmap.elem_of_positions. destruct (decide (p ∈ {[0]} ∪ U)) as [|Hn]; [done|].
      apply not_elem_of_union in Hn as [Hp0 HpU]. rewrite not_elem_of_singleton in Hp0.
      assert (p ∈ headFreeBit ht) as Hin by (apply (sh_free _ _ _ Hs); split; [lia|done]).
      rewrite Hf in Hin. by apply not_elem_of_nil in Hin. }
    apply subseteq_size in positions_in.
    pose proof (Bitmap.size_positions (count ht) ltac:(unfold count; lia)). lia.
  - intros HU. destruct (headFreeBit ht) as [|idx free] eqn:Hf; [done|]. exfalso.
    assert (0 < idx < count ht /\ idx ∉ U) as [Hr HiU].
    { apply (sh_free _ _ _ Hs). rewrite Hf. constructor. }
    assert (Z.of_nat (size ({[idx]} ∪ ({[0]} ∪ U))) <= count ht) as Hle.
    { apply Bitmap.size_in_positions; [unfold count; lia|].
      intros p [->%elem_of_singleton|Hp]%elem_of_union; [lia|].
      apply (Bitmap.brep_elem _ _ p Hb Hp). }
    assert (idx ∉ ({[0]} ∪ U : gset Z)).
    { apply not_elem_of_union. rewrite not_elem_of_singleton. split; [lia|done]. }
    rewrite size_union, size_singleton in Hle by set_solver. lia.
Qed.

Lemma take_free_spec ht ch U idx free :
  shape ht ch U -> headFreeBit ht = idx :: free ->
  0 < idx < count ht /\ idx ∉ U /\
  exists b, take_free ht = Done (Some (true, idx), with_bitmap b free ht) /\
    Bitmap.brep b ({[0]} ∪ ({[idx]} ∪ U)) /\ Bitmap.varCountTotal b = count ht.
Proof.
  intros Hs Hf. assert (0 < idx < count ht /\ idx ∉ U) as [Hr HU].
  { apply (sh_free _ _ _ Hs). rewrite Hf. constructor. }
  split; [done|]. split; [done|]. unfold take_free. rewrite Hf.
  destruct (Bitmap.bitmap_set_spec _ _ idx (sh_bitmap _ _ _ Hs)) as (b & -> & Hb & Ht);
    [fold (count ht); lia|].
  exists b. split; [done|]. split; [|done].
  by replace ({[0]} ∪ ({[idx]} ∪ U)) with ({[idx]} ∪ ({[0]} ∪ U)) by set_solver.
Qed.

(** An item that is linked behind the last one of its chain. *)
Lemma put_append ht ch U m h meta dir idx free b p :
  shape ht ch U -> contents (itemsChained ht) U m -> m !! h = None ->
  headFreeBit ht = idx :: free -> 0 < idx < count ht -> idx ∉ U ->
  Bitmap.brep b ({[0]} ∪ ({[idx]} ∪ U)) -> Bitmap.varCountTotal b = count ht ->
  last (ch (getAddressHash h)) = Some p ->
  let xs := upd (itemsChained ht) idx (mkChained 0 meta dir h) in
  becomes ht (with_items (upd xs p (with_next idx (aget xs p))) (with_bitmap b free ht))
    (<[h := (meta, dir)]> m).
Proof.
  intros Hs Hc Hm Hf Hr HU Hb Ht Hlast xs. set (a := getAddressHash h) in *.
  pose proof (getAddressHash_range h : in_table a) as Ha.
  assert (p ∈ ch a) as Hp by by apply last_Some_elem_of.
  destruct (sh_elem ht ch U a p Hs Ha Hp) as (HpU & _).
  assert (p <> idx) as Hpi by (intros ->; done).
  split; [|split; [done|split; [done|done]]].
  exists (set_chain ch a (ch a ++ [idx])), ({[idx]} ∪ U). split.
  - apply (shape_grow ht _ ch U a idx free); try done; simpl.
    + intros i Hi. destruct (Z.eqb_spec i p) as [->|]; simpl; by rewrite (proj2 (Z.eqb_neq _ _)).
    + rewrite (proj2 (Z.eqb_neq idx p)) by done. simpl. by rewrite Z.eqb_refl.
    + intros i Hi Hia. rewrite (proj2 (Z.eqb_neq i p)) by (intros ->; done).
      by rewrite (proj2 (Z.eqb_neq i idx)).
    + apply (chain_append (itemsChained ht) _ _ _ p idx); simpl.
      * by apply (sh_chain _ _ _ Hs).
      * by apply (sh_nodup _ _ _ Hs).
      * done.
      * intros i Hi Hip. rewrite (proj2 (Z.eqb_neq i p)) by done.
        rewrite (proj2 (Z.eqb_neq i idx)); [done|]. intros ->.
        by destruct (sh_elem ht ch U a idx Hs Ha Hi).
      * by rewrite Z.eqb_refl.
      * lia.
      * rewrite (proj2 (Z.eqb_neq idx p)) by done. by rewrite Z.eqb_refl.
  - assert (forall j, j ∈ U -> j <> idx) as Hne by (intros j Hj ->; done).
    apply (contents_insert (itemsChained ht)); try done; simpl.
    + intros j Hj. specialize (Hne j Hj).
      destruct (Z.eqb_spec j p) as [->|]; simpl; by rewrite (proj2 (Z.eqb_neq _ _)).
    + intros j Hj. specialize (Hne j Hj).
      destruct (Z.eqb_spec j p) as [->|]; simpl; by rewrite (proj2 (Z.eqb_neq _ _)).
    + rewrite (proj2 (Z.eqb_neq idx p)) by done. by rewrite Z.eqb_refl.
    + rewrite (proj2 (Z.eqb_neq idx p)) by done. by rewrite Z.eqb_refl.
Qed.

(** The first item of a bucket. *)
Lemma put_first ht ch U m h meta dir idx free b :
  shape ht ch U -> contents (itemsChained ht) U m -> m !! h = None ->
  headFreeBit ht = idx :: free -> 0 < idx < count ht -> idx ∉ U ->
  Bitmap.brep b ({[0]} ∪ ({[idx]} ∪ U)) -> Bitmap.varCountTotal b = count ht ->
  ch (getAddressHash h) = [] ->
  let a := getAddressHash h in
  becomes ht
    (with_heads (upd (itemsHash ht) a (with_indexHead idx (aget (itemsHash ht) a)))
       (with_items (upd (itemsChained ht) idx (mkChained 0 meta dir h)) (with_bitmap b free ht)))
    (<[h := (meta, dir)]> m).
Proof.
  intros Hs Hc Hm Hf Hr HU Hb Ht Hempty a. fold a in Hempty.
  pose proof (getAddressHash_range h : in_table a) as Ha.
  split; [|split; [done|split; [done|]]].
  2: { intros a'. simpl. by destruct (Z.eqb_spec a' a) as [->|]. }
  exists (set_chain ch a (ch a ++ [idx])), ({[idx]} ∪ U). split.
  - apply (shape_grow ht _ ch U a idx free); try done; simpl.
    + intros a' Hne. by rewrite (proj2 (Z.eqb_neq _ _)).
    + intros i Hi. by rewrite (proj2 (Z.eqb_neq _ _)).
    + by rewrite Z.eqb_refl.
    + intros i Hi _. by rewrite (proj2 (Z.eqb_neq _ _)).
    + rewrite Hempty, Z.eqb_refl. simpl. rewrite Z.eqb_refl. simpl.
      split; [done|]. split; [lia|done].
  - assert (forall j, j ∈ U -> j <> idx) as Hne by (intros j Hj ->; done).
    apply (contents_insert (itemsChained ht)); try done; simpl.
    + intros j Hj. specialize (Hne j Hj). by rewrite (proj2 (Z.eqb_neq _ _)).
    + intros j Hj. specialize (Hne j Hj). by rewrite (proj2 (Z.eqb_neq _ _)).
    + by rewrite Z.eqb_refl.
    + by rewrite Z.eqb_refl.
Qed.

Lemma put_update ht ch U m h meta dir i :
  shape ht ch U -> contents (itemsChained ht) U m ->
  i ∈ ch (getAddressHash h) -> hash_of (itemsChained ht) i = h ->
  becomes ht
    (with_items (upd (itemsChained ht) i (with_meta meta dir (aget (itemsChained ht) i))) ht)
    (<[h := (meta, dir)]> m).
Proof.
  intros Hs Hc Hi Hh. destruct (ct_found ht ch U m h i Hs Hc Hi Hh) as [HU _].
  split; [|done]. exists ch, U. split.
  - apply shape_items; simpl; try done; intros j; by destruct (Z.eqb_spec j i) as [->|].
  - simpl. rewrite <- Hh at 1. apply (contents_update (itemsChained ht)); try done; simpl.
    + intros j _. by destruct (Z.eqb_spec j i) as [->|].
    + intros j _ Hj. by rewrite (proj2 (Z.eqb_neq _ _)).
    + by rewrite Z.eqb_refl.
Qed.

(** [put] succeeds when the hash is present or an item is left. *)
Definition put_ok (c : Z) (m : gmap UniqueHash (Z * bool)) (h : UniqueHash) : bool :=
  bool_decide (is_Some (m !! h)) || (Z.of_nat (size m) <? c - 1).

Lemma put_ok_missing ht ch U m h :
  shape ht ch U -> contents (itemsChained ht) U m -> m !! h = None ->
  put_ok (count ht) m h = match headFreeBit ht with [] => false | _ => true end.
Proof.
  intros Hs Hc Hm. pose proof (sh_full ht ch U Hs) as Hfull. pose proof (ct_size _ _ _ Hc).
  pose proof (Bitmap.brep_size _ _ (sh_bitmap _ _ _ Hs)) as Hb. fold (count ht) in Hb.
  rewrite size_union, size_singleton in Hb by (pose proof (sh_zero _ _ _ Hs); set_solver).
  unfold put_ok. rewrite Hm, bool_decide_false by by intros [? ?]. simpl.
  destruct (headFreeBit ht) as [|i f].
  - apply Z.ltb_ge. pose proof (proj1 Hfull eq_refl). lia.
  - apply Z.ltb_lt. assert (Z.of_nat (size U) <> count ht - 1) by (by intros ?%Hfull). lia.
Qed.

(** Making room for an item that is not in the table: either nothing is left,
    or the first free position is taken. *)
Lemma take_free_missing ht ch U m h :
  shape ht ch U -> contents (itemsChained ht) U m -> m !! h = None ->
  (put_ok (count ht) m h = false /\ take_free ht = Done (None, ht)) \/
  (put_ok (count ht) m h = true /\ exists idx free b, headFreeBit ht = idx :: free /\
     0 < idx < count ht /\ idx ∉ U /\
     take_free ht = Done (Some (true, idx), with_bitmap b free ht) /\
     Bitmap.brep b ({[0]} ∪ ({[idx]} ∪ U)) /\ Bitmap.varCountTotal b = count ht).
Proof.
  intros Hs Hc Hm. rewrite (put_ok_missing ht ch U m h Hs Hc Hm).
  destruct (headFreeBit ht) as [|idx free] eqn:Hf; [left|right].
  - unfold take_free. by rewrite Hf.
  - destruct (take_free_spec ht ch U idx free Hs Hf) as (Hr & HU & b & Ht & Hb & Htot).
    split; [done|]. by exists idx, free, b.
Qed.

Lemma put_locked_spec ht ch U m h meta dir :
  shape ht ch U -> contents (itemsChained ht) U m ->
  exists ht', put_locked ht (getAddressHash h) h meta dir = Done (put_ok (count ht) m h, ht') /\
    becomes ht ht' (if put_ok (count ht) m h then <[h := (meta, dir)]> m else m).
Proof.
  intros Hs Hc. set (a := getAddressHash h).
  pose proof (getAddressHash_range h : in_table a) as Ha.
  pose proof (sh_items_len _ _ _ Hs) as Hlen. pose proof (sh_heads_len _ _ _ Hs).
  unfold put_locked. rewrite (sh_head ht ch U a Hs Ha). simpl.
  destruct (Z.eqb_spec (indexHead (aget (itemsHash ht) a)) 0) as [H0|H0].
  - pose proof (sh_empty ht ch U a Hs Ha H0) as Hempty.
    assert (m !! h = None) as Hm.
    { apply (ct_missing ht ch U m h Hs Hc). fold a. rewrite Hempty.
      intros j Hj. by apply not_elem_of_nil in Hj. }
    destruct (take_free_missing ht ch U m h Hs Hc Hm)
      as [(-> & ->)|(-> & idx & free & b & Hf & Hr & HU & -> & Hb & Ht)]; simpl.
    + exists ht. split; [done|by eapply becomes_same].
    + do 2 (rewrite store_Done by (simpl; unfold in_table in Ha; lia); simpl).
      eexists. split; [done|]. by eapply put_first.
  - destruct (sh_walk ht ch U a h 0 Hs Ha) as [(l1 & i & l2 & Hl & Hi & _ & ->)|(Hno & ->)]; simpl.
    + assert (i ∈ ch a) as Hia by (rewrite Hl; apply elem_of_app; right; constructor).
      destruct (sh_elem ht ch U a i Hs Ha Hia) as (_ & _ & Hib).
      rewrite index_Done by done. simpl. rewrite store_Done by done. simpl. eexists.
      assert (put_ok (count ht) m h = true) as ->.
      { unfold put_ok. by rewrite (proj2 (ct_found ht ch U m h i Hs Hc Hia Hi)). }
      split; [done|]. by eapply put_update.
    + pose proof (ct_missing ht ch U m h Hs Hc Hno) as Hm.
      destruct (take_free_missing ht ch U m h Hs Hc Hm)
        as [(-> & ->)|(-> & idx & free & b & Hf & Hr & HU & -> & Hb & Ht)]; simpl.
      * exists ht. split; [done|by eapply becomes_same].
      * rewrite store_Done by (simpl; lia). simpl.
        destruct (last (ch a)) as [p|] eqn:Hlast.
        2: { apply last_None in Hlast. pose proof (sh_chain _ _ _ Hs a Ha) as Hch.
             by rewrite Hlast in Hch. }
        simpl. destruct (sh_elem ht ch U a p Hs Ha (last_Some_elem_of _ _ Hlast)) as (_ & _ & Hpb).
        rewrite index_Done by done. simpl. rewrite store_Done by done. simpl.
        eexists. split; [done|]. by eapply put_append.
Qed.

(** Removing the item at the head of its chain. *)
Lemma del_first ht ch U m h b l :
  shape ht ch U -> contents (itemsChained ht) U m ->
  let a := getAddressHash h in let i := indexHead (aget (itemsHash ht) a) in
  ch a = i :: l -> hash_of (itemsChained ht) i = h ->
  Bitmap.brep b (({[0]} ∪ U) ∖ {[i]}) -> Bitmap.varCountTotal b = count ht ->
  becomes ht
    (with_heads (upd (itemsHash ht) a
                   (with_indexHead (next (itemsChained ht) i) (aget (itemsHash ht) a)))
       (with_bitmap b (i :: headFreeBit ht) ht))
    (delete h m).
Proof.
  intros Hs Hc a i Hl Hh Hb Ht. pose proof (getAddressHash_range h : in_table a) as Ha.
  assert (i ∈ ch a) as Hia by (rewrite Hl; constructor).
  destruct (sh_elem ht ch U a i Hs Ha Hia) as (HU & Hr & _).
  pose proof (sh_nodup _ _ _ Hs a Ha) as Hnd. rewrite Hl in Hnd.
  apply NoDup_cons in Hnd as [Hil Hnd].
  split; [|split; [done|split; [done|]]].
  2: { intros a'. simpl. by destruct (Z.eqb_spec a' a) as [->|]. }
  exists (set_chain ch a l), (U ∖ {[i]}). split.
  - apply (shape_shrink ht _ ch U a i l); try done; simpl.
    + intros j. rewrite Hl, elem_of_cons. split; [|tauto].
      intros Hj. split; [by right|]. intros ->. done.
    + replace ({[0]} ∪ U ∖ {[i]}) with (({[0]} ∪ U) ∖ {[i]}); [done|].
      assert (i <> 0) by lia. set_solver.
    + intros a' Hne. by rewrite (proj2 (Z.eqb_neq _ _)).
    + rewrite Z.eqb_refl. simpl. pose proof (sh_chain _ _ _ Hs a Ha) as Hch.
      rewrite Hl in Hch. by destruct Hch as (_ & _ & Hch).
  - simpl. rewrite <- Hh. by apply (contents_delete (itemsChained ht)).
Qed.

(** Removing an item behind the head. *)
Lemma del_later ht ch U m h b l1 p i l2 :
  shape ht ch U -> contents (itemsChained ht) U m ->
  ch (getAddressHash h) = l1 ++ p :: i :: l2 -> hash_of (itemsChained ht) i = h ->
  Bitmap.brep b (({[0]} ∪ U) ∖ {[i]}) -> Bitmap.varCountTotal b = count ht ->
  becomes ht
    (with_items (upd (itemsChained ht) p
                   (with_next (next (itemsChained ht) i) (aget (itemsChained ht) p)))
       (with_bitmap b (i :: headFreeBit ht) ht))
    (delete h m).
Proof.
  intros Hs Hc Hl Hh Hb Ht. set (a := getAddressHash h) in *.
  pose proof (getAddressHash_range h : in_table a) as Ha.
  assert (i ∈ ch a) as Hia by (rewrite Hl; set_solver).
  destruct (sh_elem ht ch U a i Hs Ha Hia) as (HU & Hr & _).
  pose proof (sh_nodup _ _ _ Hs a Ha) as Hnd. rewrite Hl in Hnd.
  assert (i ∉ l1 ++ p :: l2 /\ NoDup (l1 ++ p :: l2)) as [Hil Hnd'].
  { apply NoDup_app in Hnd as (Hn1 & Hd & Hn2).
    apply NoDup_cons in Hn2 as [Hp Hn2]. apply NoDup_cons in Hn2 as [Hi2 Hn2].
    split; [set_solver|]. apply NoDup_app. split; [done|]. split; [set_solver|].
    apply NoDup_cons. split; [set_solver|done]. }
  split; [|done]. exists (set_chain ch a (l1 ++ p :: l2)), (U ∖ {[i]}). split.
  - apply (shape_shrink ht _ ch U a i (l1 ++ p :: l2)); try done; simpl.
    + intros j. rewrite Hl. split; [|set_solver].
      intros Hj. split; [set_solver|]. intros ->. done.
    + replace ({[0]} ∪ U ∖ {[i]}) with (({[0]} ∪ U) ∖ {[i]}); [done|].
      assert (i <> 0) by lia. set_solver.
    + intros j. by destruct (Z.eqb_spec j p) as [->|].
    + intros j Hj. rewrite (proj2 (Z.eqb_neq j p)); [done|].
      intros ->. apply Hj. rewrite Hl. set_solver.
    + apply (chain_unlink (itemsChained ht) _ l1 _ p i l2); try done; simpl.
      * rewrite <- Hl. by apply (sh_chain _ _ _ Hs).
      * intros j _ Hj. by rewrite (proj2 (Z.eqb_neq j p)).
      * by rewrite Z.eqb_refl.
  - simpl. rewrite <- Hh.
    apply (contents_delete (itemsChained ht)); try done; intros j _; simpl;
      by destruct (Z.eqb_spec j p) as [->|].
Qed.

(** What [del] answers: [true] for a hash that it removes, and for a hash
    that is missing, whether another hash shares its bucket. *)
Definition del_ok (m : gmap UniqueHash (Z * bool)) (h : UniqueHash) : bool :=
  bool_decide (map_Exists (fun k _ => getAddressHash k = getAddressHash h) m).

Lemma del_ok_spec ht ch U m h :
  shape ht ch U -> contents (itemsChained ht) U m ->
  del_ok m h = match ch (getAddressHash h) with [] => false | _ => true end.
Proof.
  intros Hs Hc. unfold del_ok. apply eq_true_iff_eq. rewrite bool_decide_eq_true.
  rewrite map_Exists_lookup. split.
  - intros (k & v & Hk & Ha). apply (ct_map _ _ _ Hc) in Hk as (i & Hi & Hh & _).
    apply (sh_used _ _ _ Hs) in Hi. rewrite Hh, Ha in Hi.
    destruct (ch (getAddressHash h)); [by apply not_elem_of_nil in Hi|done].
  - destruct (ch (getAddressHash h)) as [|i l] eqn:Hch; [done|]. intros _.
    assert (i ∈ ch (getAddressHash h)) as Hi by (rewrite Hch; constructor).
    pose proof (getAddressHash_range h) as Ha.
    destruct (sh_elem ht ch U _ i Hs Ha Hi) as (HU & _).
    exists (hash_of (itemsChained ht) i), (value_of (itemsChained ht) i).
    split; [apply (ct_map _ _ _ Hc); by exists i|by apply (sh_addr _ _ _ Hs)].
Qed.

Lemma clear_used ht ch U i :
  shape ht ch U -> i ∈ U ->
  exists b, Bitmap.clear (bitmapChainedItems ht) i = Done (true, b) /\
    Bitmap.brep b (({[0]} ∪ U) ∖ {[i]}) /\ Bitmap.varCountTotal b = count ht.
Proof.
  intros Hs Hi. destruct (Bitmap.bitmap_clear_spec _ _ i (sh_bitmap _ _ _ Hs)) as (b & Hcl & Hb & Ht).
  - apply (Bitmap.brep_elem _ _ i (sh_bitmap _ _ _ Hs)). set_solver.
  - by exists b.
Qed.

Lemma del_locked_spec ht ch U m h :
  shape ht ch U -> contents (itemsChained ht) U m ->
  exists ht', del_locked ht (getAddressHash h) h = Done (del_ok m h, ht') /\
    becomes ht ht' (delete h m).
Proof.
  intros Hs Hc. rewrite (del_ok_spec ht ch U m h Hs Hc). set (a := getAddressHash h).
  pose proof (getAddressHash_range h : in_table a) as Ha.
  pose proof (sh_items_len _ _ _ Hs) as Hlen. pose proof (sh_heads_len _ _ _ Hs).
  pose proof (sh_chain _ _ _ Hs a Ha) as Hch.
  assert (m !! h = None -> becomes ht ht (delete h m)) as Hsame.
  { intros Hm. rewrite delete_id by done. by eapply becomes_same. }
  unfold del_locked. rewrite (sh_head ht ch U a Hs Ha). simpl.
  destruct (ch a) as [|i l] eqn:Hl; simpl in Hch.
  - rewrite Hch. simpl. exists ht. split; [done|]. apply Hsame.
    apply (ct_missing ht ch U m h Hs Hc). fold a. rewrite Hl.
    intros j Hj. by apply not_elem_of_nil in Hj.
  - destruct Hch as (Hhead & Hi0 & Hch). rewrite Hhead, (proj2 (Z.eqb_neq i 0)) by done.
    assert (i ∈ ch a) as Hia by (rewrite Hl; constructor).
    destruct (sh_elem ht ch U a i Hs Ha Hia) as (HU & Hr & Hib).
    rewrite index_Done by done. simpl.
    destruct (decide (hash_of (itemsChained ht) i = h)) as [He|He].
    + destruct (clear_used ht ch U i Hs HU) as (b & -> & Hb & Ht). simpl.
      rewrite store_Done by (unfold in_table in Ha; lia). simpl. eexists. split; [done|].
      rewrite <- Hhead in *. by eapply del_first.
    + destruct (walk_spec (itemsChained ht) h l (walk_fuel ht) i _ Hch)
        as [(l1 & j & l2 & -> & Hj & _ & ->)|(Hno & ->)]; simpl.
      * intros j Hj. apply (sh_elem ht ch U a j Hs Ha). rewrite Hl. by constructor.
      * pose proof (sh_fuel ht ch U a Hs Ha) as Hfuel. rewrite Hl in Hfuel. simpl in Hfuel. lia.
      * assert (exists l0 p, i :: l1 = l0 ++ [p] /\ default i (last l1) = p) as (l0 & p & Hp & ->).
        { destruct (exists_last (l := i :: l1)) as (l0 & p & Hp); [done|]. exists l0, p.
          split; [done|]. apply (f_equal last) in Hp. rewrite last_snoc, last_cons in Hp.
          destruct (last l1); by simplify_eq. }
        assert (ch a = l0 ++ p :: j :: l2) as Hl'.
        { rewrite Hl. change (i :: l1 ++ j :: l2) with ((i :: l1) ++ j :: l2).
          by rewrite Hp, <- app_assoc. }
        destruct (sh_elem ht ch U a j Hs Ha) as (HjU & _ & Hjb); [rewrite Hl'; set_solver|].
        destruct (sh_elem ht ch U a p Hs Ha) as (_ & _ & Hpb); [rewrite Hl'; set_solver|].
        destruct (clear_used ht ch U j Hs HjU) as (b & -> & Hb & Ht). simpl.
        do 2 (rewrite index_Done by done; simpl). rewrite store_Done by done. simpl.
        eexists. split; [done|]. by eapply del_later.
      * exists ht. split; [done|]. apply Hsame. apply (ct_missing ht ch U m h Hs Hc).
        fold a. rewrite Hl. intros j [->|Hj]%elem_of_cons; auto.
Qed.

(** ** The operations *)

Lemma with_mutex_shape mx ht ch U : shape ht ch U -> shape (with_mutex mx ht) ch U.
Proof. intros Hs. split; simpl; apply Hs. Qed.

Lemma becomes_hrep ht ht' m m' :
  hrep ht m -> becomes (with_mutex true ht) ht' m' ->
  hrep (with_mutex false ht') m' /\ count ht' = count ht /\
  (forall a, key (aget (itemsHash ht') a) = key (aget (itemsHash ht) a)).
Proof.
  intros _ ((ch & U & Hs & Hc) & _ & Hcount & Hkeys). split; [|done].
  split; [done|]. exists ch, U. split; [by apply with_mutex_shape|done].
Qed.

Lemma index_get_spec ht m h :
  hrep ht m ->
  get ht (Some h) Out Out =
  Done (match m !! h with Some v => (true, Some v, ht) | None => (false, None, ht) end).
Proof.
  intros [Hmx (ch & U & Hs & Hc)]. unfold get. rewrite Hmx. simpl.
  rewrite (get_locked_spec (with_mutex true ht) ch U m h) by (by try apply with_mutex_shape).
  simpl. unfold unlock. replace (with_mutex false ht) with ht
    by (destruct ht; simpl in *; by subst). by destruct (m !! h).
Qed.

Lemma index_put_spec ht m h meta dir :
  hrep ht m ->
  exists ht', put ht (Some h) meta dir = Done (put_ok (count ht) m h, ht') /\
    hrep ht' (if put_ok (count ht) m h then <[h := (meta, dir)]> m else m) /\
    count ht' = count ht /\
    (forall a, key (aget (itemsHash ht') a) = key (aget (itemsHash ht) a)).
Proof.
  intros Hr. pose proof Hr as [Hmx (ch & U & Hs & Hc)]. unfold put. rewrite Hmx. simpl.
  destruct (put_locked_spec (with_mutex true ht) ch U m h meta dir) as (ht' & -> & Hb);
    [by apply with_mutex_shape|done|]. simpl.
  eexists. split; [done|]. by apply (becomes_hrep ht ht' m).
Qed.

Lemma del_spec ht m h :
  hrep ht m ->
  exists ht', del ht (Some h) = Done (del_ok m h, ht') /\ hrep ht' (delete h m) /\
    count ht' = count ht /\
    (forall a, key (aget (itemsHash ht') a) = key (aget (itemsHash ht) a)).
Proof.
  intros Hr. pose proof Hr as [Hmx (ch & U & Hs & Hc)]. unfold del. rewrite Hmx. simpl.
  destruct (del_locked_spec (with_mutex true ht) ch U m h) as (ht' & -> & Hb);
    [by apply with_mutex_shape|done|]. simpl.
  eexists. split; [done|]. by apply (becomes_hrep ht ht' m).
Qed.

(** ** The counters *)

Lemma getSavedChainedItemsCount_spec ht m :
  hrep ht m -> getSavedChainedItemsCount ht = Z.of_nat (size m).
Proof.
  intros [_ (ch & U & Hs & Hc)]. unfold getSavedChainedItemsCount, Bitmap.countTotal, Bitmap.countFree.
  pose proof (sh_bitmap _ _ _ Hs) as Hb. pose proof (Bitmap.brep_size _ _ Hb) as Hsize.
  pose proof (Bitmap.brep_total _ _ Hb).
  rewrite (Bitmap.brep_free _ _ Hb), (ct_size _ _ _ Hc).
  rewrite size_union, size_singleton in * by (pose proof (sh_zero _ _ _ Hs); set_solver).
  rewrite wrap_small; [lia|]. unfold in_width. lia.
Qed.

Lemma count_positive ht m : hrep ht m -> 1 <= count ht < 2 ^ 64.
Proof.
  intros [_ (ch & U & Hs & Hc)]. pose proof (sh_bitmap _ _ _ Hs) as Hb.
  pose proof (Bitmap.brep_elem _ _ 0 Hb ltac:(set_solver)).
  pose proof (Bitmap.brep_total _ _ Hb). unfold count. lia.
Qed.

Lemma getTotalChainedItemsCount_spec ht m :
  hrep ht m -> getTotalChainedItemsCount ht = count ht - 1.
Proof.
  intros Hr. pose proof (count_positive ht m Hr). unfold getTotalChainedItemsCount, Bitmap.countTotal.
  fold (count ht). apply wrap_small. unfold in_width. lia.
Qed.

(** ** The constructor *)

Lemma push_all_spec n : forall i free, push_all n i free = rev (seqZ i (Z.of_nat n)) ++ free.
Proof.
  induction n as [|n IH]; intros i free; [done|]. cbn [push_all].
  rewrite IH, (seqZ_cons i (Z.of_nat (S n))) by lia. simpl rev. rewrite <- app_assoc.
  replace (Z.pred (Z.of_nat (S n))) with (Z.of_nat n) by lia. done.
Qed.

(** A buffer with room for [n] chained items. *)
Definition buffer_ok (buf : buffer) (n : Z) : Prop :=
  n mod 8 = 0 /\ 0 < n < 2 ^ 35 /\ n / 8 <= alen (buf_bitmap buf) /\
  n <= alen (buf_items buf) /\ HASH_ITEMS_COUNT <= alen (buf_heads buf).

(** No bucket has a chain and no bit is set, as in a buffer of zeros. *)
Definition buffer_empty (buf : buffer) : Prop :=
  (forall a, indexHead (aget (buf_heads buf) a) = 0) /\
  (forall i, aget (buf_bitmap buf) i = 0).

(** Whatever the buffer holds, every position but 0 is on the free chain. *)
Lemma index_construct_spec buf n :
  buffer_ok buf n ->
  exists ht, construct (Some buf) n = Done ht /\ mutexBitmapChainedItems ht = false /\
    count ht = n /\ itemsHash ht = buf_heads buf /\ itemsChained ht = buf_items buf /\
    headFreeBit ht = rev (seqZ 1 (n - 1)) /\
    Bitmap.brep (bitmapChainedItems ht) ({[0]} ∪ Bitmap.set_bits (buf_bitmap buf) n).
Proof.
  intros (Ha & Hn & Hlen & _ & _). unfold construct.
  destruct (Bitmap.bitmap_construct_spec n (buf_bitmap buf) Ha ltac:(lia) Hlen) as (b & -> & _ & Ht & Hb).
  simpl. destruct (Bitmap.bitmap_set_spec b _ 0 Hb ltac:(lia)) as (b' & -> & Hb' & Ht'). simpl.
  eexists. split; [done|]. unfold count, Bitmap.countTotal. simpl.
  rewrite push_all_spec, app_nil_r, Z2Nat.id by lia. rewrite Ht', Ht. done.
Qed.

Lemma construct_empty buf n :
  buffer_ok buf n -> buffer_empty buf ->
  exists ht, construct (Some buf) n = Done ht /\ count ht = n /\ hrep ht ∅ /\
    itemsHash ht = buf_heads buf.
Proof.
  intros Hok [Hheads Hbits]. destruct (index_construct_spec buf n Hok)
    as (ht & Hc & Hmx & Hcount & Hh & Hi & Hf & Hb).
  destruct Hok as (Ha & Hn & Hlen & Hlen1 & Hlen2).
  exists ht. do 2 (split; [done|]). split; [|done]. split; [done|]. exists (fun _ => []), ∅. split.
  - split; rewrite ?Hh, ?Hi, ?Hcount, ?Hf; try done.
    + intros a _. simpl. apply Hheads.
    + intros a _. constructor.
    + intros a i _ Hin. by apply not_elem_of_nil in Hin.
    + intros i. split; [set_solver|]. intros Hin. by apply not_elem_of_nil in Hin.
    + replace (∅ : gset Z) with (Bitmap.set_bits (buf_bitmap buf) n); [done|].
      apply set_eq. intros p. rewrite Bitmap.elem_of_set_bits. split; [|set_solver].
      intros [_ Hbit]. unfold Bitmap.bit in Hbit. by rewrite Hbits, Z.bits_0 in Hbit.
    + rewrite <- (Permutation_rev (seqZ 1 (n - 1))). apply NoDup_seqZ.
    + intros i. rewrite <- (Permutation_rev (seqZ 1 (n - 1))), elem_of_seqZ.
      split; [intros ?; split; [lia|set_solver]|lia].
  - split; [set_solver| |done]. intros k v. rewrite lookup_empty. split; [done|].
    intros (i & Hin & _). set_solver.
Qed.

(** ** Any sequence of calls *)

Inductive op : Type :=
| OpGet (h : UniqueHash)
| OpPut (h : UniqueHash) (meta : Z) (dir : bool)
| OpDel (h : UniqueHash)
| OpGetPath (path : list Z)
| OpPutPath (path : list Z) (meta : Z) (dir : bool)
| OpDelPath (path : list Z)
| OpSaved
| OpTotal.

Inductive answer : Type :=
| Found (ok : bool) (item : option (Z * bool))
| Flag (ok : bool)
| Number (n : Z).

Section sequences.
Variable CalculateDigest : list Z -> UniqueHash.

Definition step (o : op) (ht : HashTable) : run (answer * HashTable) :=
  match o with
  | OpGet h => r ← get ht (Some h) Out Out; Done (Found r.1.1 r.1.2, r.2)
  | OpPut h meta dir => r ← put ht (Some h) meta dir; Done (Flag r.1, r.2)
  | OpDel h => r ← del ht (Some h); Done (Flag r.1, r.2)
  | OpGetPath p => r ← get_path CalculateDigest ht (Some p) Out Out; Done (Found r.1.1 r.1.2, r.2)
  | OpPutPath p meta dir => r ← put_path CalculateDigest ht (Some p) meta dir; Done (Flag r.1, r.2)
  | OpDelPath p => r ← del_path CalculateDigest ht (Some p); Done (Flag r.1, r.2)
  | OpSaved => Done (Number (getSavedChainedItemsCount ht), ht)
  | OpTotal => Done (Number (getTotalChainedItemsCount ht), ht)
  end.

Fixpoint steps (os : list op) (ht : HashTable) : run (list answer * HashTable) :=
  match os with
  | [] => Done ([], ht)
  | o :: os =>
      r ← step o ht;
      rest ← steps os r.2;
      Done (r.1 :: rest.1, rest.2)
  end.

(** The specification: a map from hashes that holds up to [n - 1] of them.
    Paths act through their digests. *)
Definition spec_get (h : UniqueHash) (m : gmap UniqueHash (Z * bool)) : answer :=
  Found (bool_decide (is_Some (m !! h))) (m !! h).

Definition spec_put (n : Z) (h : UniqueHash) (v : Z * bool) (m : gmap UniqueHash (Z * bool))
    : answer * gmap UniqueHash (Z * bool) :=
  if put_ok n m h then (Flag true, <[h := v]> m) else (Flag false, m).

Definition spec_step (n : Z) (o : op) (m : gmap UniqueHash (Z * bool))
    : answer * gmap UniqueHash (Z * bool) :=
  match o with
  | OpGet h => (spec_get h m, m)
  | OpPut h meta dir => spec_put n h (meta, dir) m
  | OpDel h => (Flag (del_ok m h), delete h m)
  | OpGetPath p => (spec_get (CalculateDigest p) m, m)
  | OpPutPath p meta dir => spec_put n (CalculateDigest p) (meta, dir) m
  | OpDelPath p => (Flag (del_ok m (CalculateDigest p)), delete (CalculateDigest p) m)
  | OpSaved => (Number (Z.of_nat (size m)), m)
  | OpTotal => (Number (n - 1), m)
  end.

Fixpoint spec_steps (n : Z) (os : list op) (m : gmap UniqueHash (Z * bool))
    : list answer * gmap UniqueHash (Z * bool) :=
  match os with
  | [] => ([], m)
  | o :: os =>
      let r := spec_step n o m in
      let rest := spec_steps n os r.2 in
      (r.1 :: rest.1, rest.2)
  end.

(** A call by path is the call by the digest of the path. *)
Lemma step_path o ht :
  step o ht = step (match o with
                    | OpGetPath p => OpGet (CalculateDigest p)
                    | OpPutPath p meta dir => OpPut (CalculateDigest p) meta dir
                    | OpDelPath p => OpDel (CalculateDigest p)
                    | o => o
                    end) ht.
Proof. by destruct o. Qed.

Lemma step_by_hash o ht m :
  hrep ht m -> match o with OpGetPath _ | OpPutPath _ _ _ | OpDelPath _ => False | _ => True end ->
  exists ht', step o ht = Done ((spec_step (count ht) o m).1, ht') /\
    hrep ht' (spec_step (count ht) o m).2 /\ count ht' = count ht.
Proof.
  intros Hr Hkind. destruct o as [h|h meta dir|h|p|p meta dir|p| |]; try done;
    cbn [step spec_step fst snd].
  - rewrite (index_get_spec ht m h Hr). exists ht. unfold spec_get. by destruct (m !! h).
  - destruct (index_put_spec ht m h meta dir Hr) as (ht' & -> & Hr' & Hc & _). exists ht'.
    unfold spec_put. by destruct (put_ok (count ht) m h).
  - destruct (del_spec ht m h Hr) as (ht' & -> & Hr' & Hc & _). by exists ht'.
  - rewrite (getSavedChainedItemsCount_spec ht m Hr). by exists ht.
  - rewrite (getTotalChainedItemsCount_spec ht m Hr). by exists ht.
Qed.

Lemma index_step_spec o ht m :
  hrep ht m ->
  exists ht', step o ht = Done ((spec_step (count ht) o m).1, ht') /\
    hrep ht' (spec_step (count ht) o m).2 /\ count ht' = count ht.
Proof.
  intros Hr. rewrite step_path.
  destruct o as [h|h meta dir|h|p|p meta dir|p| |].
  4: exact (step_by_hash (OpGet (CalculateDigest p)) ht m Hr I).
  4: exact (step_by_hash (OpPut (CalculateDigest p) meta dir) ht m Hr I).
  4: exact (step_by_hash (OpDel (CalculateDigest p)) ht m Hr I).
  all: by apply step_by_hash.
Qed.

Lemma index_steps_spec os : forall ht m,
  hrep ht m ->
  exists ht', steps os ht = Done ((spec_steps (count ht) os m).1, ht') /\
    hrep ht' (spec_steps (count ht) os m).2.
Proof.
  induction os as [|o os IH]; intros ht m Hr; simpl; [by exists ht|].
  destruct (index_step_spec o ht m Hr) as (ht1 & -> & Hr1 & Hc1). simpl.
  destruct (IH ht1 _ Hr1) as (ht2 & Hrun & Hr2). rewrite Hc1 in *. rewrite Hrun. simpl.
  by exists ht2.
Qed.

(** C11: The path index behaves as a bounded map. Constructed over an empty
    buffer for [n] chained items, any sequence of calls, by hash or by path,
    returns with the answers of a map from unique hashes to (meta, directory)
    pairs that has room for [n - 1] hashes: [get] is the lookup, [put] inserts
    or replaces and fails exactly for a new hash in a full table, [del]
    removes, and the counters are the number of hashes and the room. No chain
    is left cyclic, no item is lost or shared, whatever hashes share a bucket.
    A [del] of a missing hash changes nothing; it answers [false] when its
    bucket is empty and [true] when it is not. *)
Theorem hashtable_refines_map buf n os :
  buffer_ok buf n -> buffer_empty buf ->
  exists ht ht', construct (Some buf) n = Done ht /\
    steps os ht = Done ((spec_steps n os ∅).1, ht') /\ hrep ht' (spec_steps n os ∅).2.
Proof.
  intros Hok He. destruct (construct_empty buf n Hok He) as (ht & Hc & Hcount & Hr & _).
  destruct (index_steps_spec os ht ∅ Hr) as (ht' & Hrun & Hr').
  exists ht, ht'. rewrite Hcount in *. done.
Qed.

End sequences.

(** An empty buffer for eight chained items. *)
Definition small_buffer : buffer :=
  mkBuffer (Arr HASH_ITEMS_COUNT (fun _ => mkHashItem 0 0)) (Arr 1 (fun _ => 0))
    (Arr 8 (fun _ => mkChained 0 0 false (0, 0, 0, 0))).

(** A digest that puts paths of the same length into the same bucket. *)
Definition length_digest (path : list Z) : UniqueHash :=
  (Z.of_nat (length path), foldl Z.add 0 path, 0, 0).

Lemma hashtable_refines_map_witness :
  let os := [OpPutPath [97] 5 false; OpPutPath [98] 6 true; OpGetPath [97]; OpDelPath [97];
             OpGetPath [97]; OpGetPath [98]; OpDelPath [99]; OpDelPath [1; 2]; OpSaved; OpTotal] in
  exists ht ht', construct (Some small_buffer) 8 = Done ht /\
    steps length_digest os ht =
    Done ([Flag true; Flag true; Found true (Some (5, false)); Flag true; Found false None;
           Found true (Some (6, true)); Flag true; Flag false; Number 1; Number 7], ht').
Proof.
  intros os.
  destruct (hashtable_refines_map length_digest small_buffer 8 os) as (ht & ht' & Hc & Hs & _).
  - repeat split; vm_compute; congruence.
  - done.
  - exists ht, ht'. split; [exact Hc|]. rewrite Hs. vm_compute. reflexivity.
Defined.

(** ** The counters over all buckets *)

(** The number of occupied buckets among [n] buckets from [i] on. *)
Definition occupied_buckets (ch : Z -> list Z) (i n : Z) : Z :=
  Z.of_nat (length (filter (fun a => ch a <> []) (seqZ i n))).

Lemma count_heads_spec ht ch U n : forall i c,
  shape ht ch U -> 0 <= i -> i + Z.of_nat n <= HASH_ITEMS_COUNT -> 0 <= c <= i ->
  count_heads n (itemsHash ht) i c = Done (c + occupied_buckets ch i (Z.of_nat n)).
Proof.
  induction n as [|n IH]; intros i c Hs Hi Hn Hc; cbn [count_heads].
  { by rewrite Z.add_0_r. }
  assert (in_table i) as Ha by (unfold in_table; lia).
  rewrite (sh_head ht ch U i Hs Ha). simpl mbind. unfold occupied_buckets.
  rewrite (seqZ_cons i (Z.of_nat (S n))), filter_cons by lia.
  replace (Z.pred (Z.of_nat (S n))) with (Z.of_nat n) by lia.
  assert (HASH_ITEMS_COUNT = 2 ^ 20) by done.
  pose proof (sh_chain _ _ _ Hs i Ha) as Hch.
  destruct (Z.eqb_spec (indexHead (aget (itemsHash ht) i)) 0) as [H0|H0].
  - rewrite decide_False; [by rewrite IH by (done || lia)|].
    rewrite (sh_empty ht ch U i Hs Ha H0). tauto.
  - rewrite decide_True by (intros He; by rewrite He in Hch).
    rewrite wrap_small by (unfold in_width; lia). rewrite IH by (done || lia).
    simpl length. unfold occupied_buckets. replace (Z.succ i) with (i + 1) by lia. f_equal. lia.
Qed.

Lemma getSavedHashItemsCount_spec ht ch U :
  shape ht ch U ->
  getSavedHashItemsCount ht = Done (occupied_buckets ch 0 HASH_ITEMS_COUNT).
Proof.
  intros Hs. unfold getSavedHashItemsCount.
  assert (0 <= HASH_ITEMS_COUNT) by (by compute).
  rewrite (count_heads_spec ht ch U _ 0 0 Hs), Z2Nat.id by lia. by rewrite Z.add_0_l.
Qed.

Lemma chain_length_spec items l : forall fuel cur c,
  chain items cur l -> (forall i, i ∈ l -> 0 <= i < alen items) -> (length l < fuel)%nat ->
  0 <= c -> c + Z.of_nat (length l) < 2 ^ 64 ->
  chain_length fuel items cur c = Done (c + Z.of_nat (length l)).
Proof.
  induction l as [|x l IH]; intros [|fuel] cur c Hc Hb Hf H0 Hw;
    cbn [chain_length chain length] in *; try lia.
  - rewrite Hc. simpl. f_equal. lia.
  - destruct Hc as (-> & Hx & Hc). rewrite (proj2 (Z.eqb_neq x 0)) by done.
    rewrite index_Done by (apply Hb; constructor). simpl mbind.
    rewrite wrap_small by (unfold in_width; lia).
    rewrite IH; [f_equal; lia|done| |lia|lia|lia].
    intros i Hi. apply Hb. by constructor.
Qed.

#[local] Arguments chain_length : simpl never.

(** The longest of [n] chains from bucket [i] on. *)
Definition longest (ch : Z -> list Z) (i n : Z) : Z :=
  foldr Z.max 0 (map (fun a => Z.of_nat (length (ch a))) (seqZ i n)).

Lemma max_length_spec ht ch U n : forall i c,
  shape ht ch U -> 0 <= i -> i + Z.of_nat n <= HASH_ITEMS_COUNT -> 0 <= c ->
  max_length n ht i c = Done (Z.max c (longest ch i (Z.of_nat n))).
Proof.
  induction n as [|n IH]; intros i c Hs Hi Hn Hc; cbn [max_length].
  { f_equal. unfold longest. simpl. lia. }
  assert (in_table i) as Ha by (unfold in_table; lia).
  rewrite (sh_head ht ch U i Hs Ha). simpl mbind.
  assert (Z.of_nat (length (ch i)) < 2 ^ 64) as Hw.
  { pose proof (Bitmap.size_in_positions (list_to_set (ch i)) (count ht)) as Hsz.
    rewrite size_list_to_set in Hsz by apply (sh_nodup _ _ _ Hs i Ha).
    pose proof (Bitmap.brep_total _ _ (sh_bitmap _ _ _ Hs)). fold (count ht) in *.
    enough (Z.of_nat (length (ch i)) <= count ht) by lia. apply Hsz; [lia|].
    intros p Hp%elem_of_list_to_set. destruct (sh_elem ht ch U i p Hs Ha Hp). lia. }
  rewrite (chain_length_spec _ (ch i)); [|by apply (sh_chain _ _ _ Hs)| |by eapply sh_fuel|lia|lia].
  2: { intros p Hp. apply (sh_elem ht ch U i p Hs Ha Hp). }
  rewrite Z.add_0_l. cbn [mbind run_bind].
  assert ((if c <? Z.of_nat (length (ch i)) then Z.of_nat (length (ch i)) else c) =
    Z.max c (Z.of_nat (length (ch i)))) as -> by (destruct (Z.ltb_spec c (Z.of_nat (length (ch i)))); lia).
  rewrite IH by (done || lia). f_equal. unfold longest. rewrite (seqZ_cons i (Z.of_nat (S n))) by lia.
  replace (Z.pred (Z.of_nat (S n))) with (Z.of_nat n) by lia. simpl map. simpl foldr.
  rewrite Z.add_1_r. lia.
Qed.

Lemma getMaxLengthOfChain_spec ht ch U :
  shape ht ch U -> getMaxLengthOfChain ht = Done (longest ch 0 HASH_ITEMS_COUNT).
Proof.
  intros Hs. unfold getMaxLengthOfChain.
  assert (0 <= HASH_ITEMS_COUNT) by (by compute).
  rewrite (max_length_spec ht ch U _ 0 0 Hs), Z2Nat.id by lia.
  f_equal. apply Z.max_r. unfold longest. generalize (seqZ 0 HASH_ITEMS_COUNT).
  intros l. induction l; simpl; lia.
Qed.

(** ** A buffer that is in use

    The constructor takes the buffer as it is but puts every position on the
    free chain. *)

Lemma get_alone ht k n it :
  mutexBitmapChainedItems ht = false -> HASH_ITEMS_COUNT <= alen (itemsHash ht) ->
  indexHead (aget (itemsHash ht) (getAddressHash k)) = n -> n <> 0 ->
  0 <= n < alen (itemsChained ht) -> aget (itemsChained ht) n = it -> indexNext it = 0 ->
  get ht (Some k) Out Out =
  Done (if decide (hashUnique it = k) then (true, Some (indexMeta it, isDirectory it), ht)
        else (false, None, ht)).
Proof.
  intros Hmx Ha Hn H0 Hr Hit Hnext. pose proof (getAddressHash_range k) as Hk.
  unfold in_table in Hk. unfold get. rewrite Hmx. simpl. unfold get_locked. simpl.
  rewrite index_Done by lia. simpl. rewrite Hn, (proj2 (Z.eqb_neq n 0)) by done.
  unfold walk_fuel. simpl itemsChained.
  destruct (Z.to_nat (alen (itemsChained ht))) as [|fuel] eqn:Hfuel; [lia|].
  assert (walk (S (S fuel)) (itemsChained ht) k 0 n =
    Done (if decide (hashUnique it = k) then (true, n, 0) else (false, 0, n))) as ->.
  { unfold walk. rewrite (proj2 (Z.eqb_neq n 0)), index_Done by done. simpl.
    rewrite Hit. destruct (decide (hashUnique it = k)); [done|]. by rewrite Hnext. }
  unfold unlock. replace (with_mutex false ht) with ht by (destruct ht; simpl in *; by subst).
  destruct (decide (hashUnique it = k)); simpl; [|done].
  rewrite index_Done by done. simpl. by rewrite Hit.
Qed.

(** An index that is constructed over a buffer in use loses entries. Let
    the last chained item hold the hash [k]; [get] finds it after the
    construction. A [put] of a hash for another bucket, empty so far, takes
    the last chained item although the bitmap marks it as used, and then [k]
    is no longer found. *)
Theorem reopened_index_loses buf n k h meta dir :
  buffer_ok buf n -> 1 < n ->
  indexHead (aget (buf_heads buf) (getAddressHash k)) = n - 1 ->
  indexHead (aget (buf_heads buf) (getAddressHash h)) = 0 ->
  hashUnique (aget (buf_items buf) (n - 1)) = k -> indexNext (aget (buf_items buf) (n - 1)) = 0 ->
  exists ht ht' v, construct (Some buf) n = Done ht /\
    get ht (Some k) Out Out = Done (true, Some v, ht) /\
    put ht (Some h) meta dir = Done (true, ht') /\
    get ht' (Some k) Out Out = Done (false, None, ht').
Proof.
  intros Hok Hn Hk Hh Hitem Hend. destruct (index_construct_spec buf n Hok)
    as (ht & Hc & Hmx & Hcount & Hheads & Hitems & Hf & Hb).
  destruct Hok as (_ & _ & _ & Hl1 & Hl2). set (it := aget (buf_items buf) (n - 1)) in *.
  pose proof (getAddressHash_range k) as Hka. pose proof (getAddressHash_range h) as Hha.
  unfold in_table in *.
  assert (getAddressHash k <> getAddressHash h) as Hne by (intros He; rewrite He in Hk; lia).
  assert (exists free, headFreeBit ht = (n - 1) :: free) as [free Hfree].
  { rewrite Hf. replace (n - 1) with (Z.of_nat (S (Z.to_nat (n - 2)))) by lia.
    rewrite seqZ_S, rev_app_distr. simpl. eexists. f_equal. lia. }
  destruct (Bitmap.bitmap_set_spec _ _ (n - 1) Hb) as (b & Hset & _ & _); [fold (count ht); lia|].
  exists ht. eexists. exists (indexMeta it, isDirectory it). split; [done|]. split; [|split].
  - rewrite (get_alone ht k (n - 1) it); rewrite ?Hheads, ?Hitems; try done; try lia.
    by rewrite decide_True.
  - unfold put. rewrite Hmx. simpl. unfold put_locked. simpl.
    rewrite Hheads. rewrite index_Done by lia. simpl. rewrite Hh. simpl.
    unfold take_free. simpl. rewrite Hfree, Hset. simpl. rewrite Hitems, Hheads.
    do 2 (rewrite store_Done by lia; simpl). done.
  - rewrite (get_alone _ k (n - 1) (mkChained 0 meta dir h)); simpl; [|done|done|..].
    + by rewrite decide_False by congruence.
    + rewrite (proj2 (Z.eqb_neq _ _)) by done. exact Hk.
    + lia.
    + lia.
    + by rewrite Z.eqb_refl.
    + done.
Qed.

(** The path index of a server that was stopped with one directory in it. *)
Definition used_buffer : buffer :=
  mkBuffer (Arr HASH_ITEMS_COUNT (fun a => mkHashItem 0 (if a =? 1 then 7 else 0)))
    (Arr 1 (fun _ => 129)) (Arr 8 (fun _ => mkChained 0 4 true (1, 47, 0, 0))).

Lemma reopened_index_loses_witness :
  exists ht ht' v, construct (Some used_buffer) 8 = Done ht /\
    get ht (Some (1, 47, 0, 0)) Out Out = Done (true, Some v, ht) /\
    put ht (Some (2, 50, 0, 0)) 5 false = Done (true, ht') /\
    get ht' (Some (1, 47, 0, 0)) Out Out = Done (false, None, ht').
Proof.
  apply (reopened_index_loses used_buffer 8 (1, 47, 0, 0) (2, 50, 0, 0) 5 false);
    [repeat split; vm_compute; congruence|lia|reflexivity..].
Defined.
