(* ===== verification/OctLock.v ===== *)
(** * Lock words of the octopus file system (src/sys/octopus/src/fs/lock.cpp)

    [LockService] implements reader-writer locks on 64-bit words in the shared
    buffer: the low half counts readers, the high half is the key of the
    writer. Every function is a short sequence of atomic accesses; a
    configuration has the word, the counter that makes keys different and the
    point at which each thread of control is, and [step] lets any of them do
    its next access.

    A thread of control is one execution of a request, not a worker: between
    two attempts a waiting writer calls [server->RequestPoller], which handles
    another request in the same worker, and the writer goes on only when that
    request is done. The nested request is a thread of control of its own. The
    interleavings of [step] include those in which the outer one makes no
    access until the nested one is back, so what is proved of all
    interleavings holds for nested requests; nothing is said about which of
    them a worker can reach, and in particular nothing about progress.
    What nesting can lead to is shown after mutual exclusion. *)

From stdpp Require Import relations.
From S2P Require Import Prelude.
From S2P Require Import OctBase.
Open Scope Z_scope.

Module LockService.

(** ** The accesses *)

(** [__sync_fetch_and_add(&WriteID, 1)] on the [uint16_t] counter. *)
Definition next_WriteID (id : Z) : Z := u16 (id + 1).

(** The key of a writer, from its node and the counter. *)
Definition write_key (NodeID id : Z) : Z :=
  let key := NodeID in
  let key := u64 (Z.shiftl key 16) in
  let key := u64 (key + id) in
  u64 (Z.shiftl key 32).

(** [__sync_bool_compare_and_swap(LockAddress, 0, key)]: whether it succeeds,
    and the word after it. *)
Definition write_try (key word : Z) : bool * Z := if word =? 0 then (true, key) else (false, word).

(** [WriteUnlock]: a store of 0 to the high half of the word. *)
Definition WriteUnlock (word : Z) : Z := word mod 2 ^ 32.

(** [__sync_fetch_and_add(LockAddress, 1)], and whether the reader may go on
    at once: no writer was in the word. *)
Definition read_begin (word : Z) : bool * Z := (Z.shiftr word 32 =? 0, u64 (word + 1)).

(** [__sync_bool_compare_and_swap((uint32_t * )(LockAddress + 4), 0, 0)]: the
    test of the high half that a waiting reader repeats. *)
Definition read_poll (word : Z) : bool := Z.shiftr word 32 =? 0.

(** [ReadUnlock]: [__sync_fetch_and_sub(LockAddress, 1)]. *)
Definition ReadUnlock (word : Z) : Z := u64 (word - 1).

(** ** Threads of control *)

Inductive pc : Type :=
| Idle
| WriteWaiting (key : Z)  (** in the loop of [WriteLock], before an attempt; the
                              call of [RequestPoller] between two attempts makes no
                              access of its own: what it handles is another thread *)
| Writing                 (** between [WriteLock] and [WriteUnlock] *)
| ReadWaiting             (** in the loop of [ReadLock] *)
| Reading.                (** between [ReadLock] and [ReadUnlock] *)

(** [WriteLock] and [ReadLock] as the accesses of one thread: what it does at
    each point, given the word and the counter. *)
Definition pc_step (NodeID : Z) (word id : Z) (p p' : pc) (word' id' : Z) : Prop :=
  match p with
  | Idle =>
      (p' = WriteWaiting (write_key NodeID id) /\ word' = word /\ id' = next_WriteID id) \/
      (p' = (if (read_begin word).1 then Reading else ReadWaiting) /\
       word' = (read_begin word).2 /\ id' = id)
  | WriteWaiting key =>
      p' = (if (write_try key word).1 then Writing else WriteWaiting key) /\
      word' = (write_try key word).2 /\ id' = id
  | Writing => p' = Idle /\ word' = WriteUnlock word /\ id' = id
  | ReadWaiting =>
      p' = (if read_poll word then Reading else ReadWaiting) /\ word' = word /\ id' = id
  | Reading => p' = Idle /\ word' = ReadUnlock word /\ id' = id
  end.

Record config : Type := mkConfig { word : Z; WriteID : Z; threads : list pc }.

(** One access of one thread, of a node with an id from [nodes]. *)
Inductive step (nodes : Z -> Prop) : config -> config -> Prop :=
| step_thread c i p p' NodeID word' id' :
    threads c !! i = Some p -> nodes NodeID ->
    pc_step NodeID (word c) (WriteID c) p p' word' id' ->
    step nodes c (mkConfig word' id' (<[i := p']> (threads c))).

Definition initial (id : Z) (n : nat) : config := mkConfig 0 id (replicate n Idle).

Definition reachable (nodes : Z -> Prop) (id : Z) (n : nat) (c : config) : Prop :=
  rtc (step nodes) (initial id n) c.

(** Node ids as [getNodeHash] makes them: positive, in a [uint16_t]. *)
Definition positive_nodes (NodeID : Z) : Prop := 0 < NodeID < 2 ^ 16.

(** ** Words *)

Lemma write_key_value NodeID id :
  0 <= NodeID < 2 ^ 16 -> 0 <= id < 2 ^ 16 ->
  write_key NodeID id = (NodeID * 2 ^ 16 + id) * 2 ^ 32.
Proof.
  intros Hn Hi. unfold write_key. rewrite !Z.shiftl_mul_pow2 by lia.
  rewrite (wrap_small 64 (NodeID * 2 ^ 16)) by (unfold in_width; lia).
  rewrite (wrap_small 64 (NodeID * 2 ^ 16 + id)) by (unfold in_width; lia).
  apply wrap_small. unfold in_width. lia.
Qed.

(** A key is a non-zero high half. *)
Definition is_key (key : Z) : Prop := exists k, 0 < k < 2 ^ 32 /\ key = k * 2 ^ 32.

Lemma write_key_is_key NodeID id :
  positive_nodes NodeID -> 0 <= id < 2 ^ 16 -> is_key (write_key NodeID id).
Proof.
  intros Hn Hi. exists (NodeID * 2 ^ 16 + id). unfold positive_nodes in Hn.
  split; [lia|]. apply write_key_value; lia.
Qed.

(** ** The invariant *)

Definition is_reader (p : pc) : bool := match p with ReadWaiting | Reading => true | _ => false end.
Definition is_reading (p : pc) : bool := match p with Reading => true | _ => false end.
Definition is_writing (p : pc) : bool := match p with Writing => true | _ => false end.

Definition tally (f : pc -> bool) (ps : list pc) : nat := length (filter (fun p => f p = true) ps).

Lemma tally_insert f ps i p p' :
  ps !! i = Some p ->
  Z.of_nat (tally f (<[i := p']> ps)) = Z.of_nat (tally f ps) - Z.b2z (f p) + Z.b2z (f p').
Proof.
  intros Hi. unfold tally. rewrite <- (take_drop_middle ps i p Hi) at 2.
  rewrite insert_take_drop by (by eapply lookup_lt_Some).
  rewrite !filter_app, !filter_cons, !length_app.
  destruct (f p), (f p'); simpl; rewrite ?length_cons; lia.
Qed.

Lemma tally_le f ps : (tally f ps <= length ps)%nat.
Proof. apply length_filter. Qed.

Lemma tally_zero f ps i p : tally f ps = 0%nat -> ps !! i = Some p -> f p = false.
Proof.
  intros Ht Hi. destruct (f p) eqn:Hf; [|done]. exfalso.
  unfold tally in Ht. apply length_zero_iff_nil in Ht.
  assert (p ∈ filter (fun p => f p = true) ps) as Hin.
  { apply list_elem_of_filter. split; [done|]. by eapply list_elem_of_lookup_2. }
  rewrite Ht in Hin. by apply not_elem_of_nil in Hin.
Qed.

Lemma tally_pos f ps i p : ps !! i = Some p -> f p = true -> (0 < tally f ps)%nat.
Proof.
  intros Hi Hf. destruct (decide (tally f ps = 0%nat)) as [H0|]; [|lia].
  pose proof (tally_zero f ps i p H0 Hi). congruence.
Qed.

Lemma tally_reading_reader ps : (tally is_reading ps <= tally is_reader ps)%nat.
Proof.
  unfold tally. induction ps as [|q l IH]; [done|].
  rewrite !filter_cons. destruct q; simpl; lia.
Qed.

(** The word is the number of readers, waiting or not, plus the key of the
    writer. A reader is past its lock only while there is no writer. [W], [R]
    and [G] count the writers, the readers and the readers past their lock. *)
Definition word_ok (w W R G : Z) : Prop :=
  (W = 0 /\ w = R) \/ (W = 1 /\ G = 0 /\ exists key, is_key key /\ w = key + R).

Record inv (n : nat) (c : config) : Prop := mkInv {
  inv_len : length (threads c) = n;
  inv_id : 0 <= WriteID c < 2 ^ 16;
  inv_keys : forall i key, threads c !! i = Some (WriteWaiting key) -> is_key key;
  inv_word : word_ok (word c) (Z.of_nat (tally is_writing (threads c)))
    (Z.of_nat (tally is_reader (threads c))) (Z.of_nat (tally is_reading (threads c)))
}.

Lemma tally_idle f n : f Idle = false -> tally f (replicate n Idle) = 0%nat.
Proof.
  intros Hf. induction n as [|n IH]; [done|]. simpl. unfold tally in *.
  rewrite filter_cons, Hf. by rewrite decide_False.
Qed.

Lemma inv_initial n id : 0 <= id < 2 ^ 16 -> inv n (initial id n).
Proof.
  intros Hid. split; simpl; [apply length_replicate|done| |].
  - intros i key [? _]%lookup_replicate. done.
  - left. by rewrite !tally_idle.
Qed.

Lemma high_of_count r : 0 <= r < 2 ^ 32 -> Z.shiftr r 32 = 0.
Proof. intros Hr. rewrite Z.shiftr_div_pow2 by lia. by apply Z.div_small. Qed.

Lemma high_of_key key r : is_key key -> 0 <= r < 2 ^ 32 -> Z.shiftr (key + r) 32 <> 0.
Proof.
  intros (k & Hk & ->) Hr. rewrite Z.shiftr_div_pow2, Z.div_add_l, Z.div_small by lia. lia.
Qed.

Lemma low_of_key key r : is_key key -> 0 <= r < 2 ^ 32 -> (key + r) mod 2 ^ 32 = r.
Proof.
  intros (k & Hk & ->) Hr. rewrite Z.add_comm, Z.mod_add by lia. by apply Z.mod_small.
Qed.

(** The test of the high half tells whether there is a writer. *)
Lemma high_word w W R G :
  word_ok w W R G -> 0 <= R < 2 ^ 32 -> (Z.shiftr w 32 =? 0) = (W =? 0).
Proof.
  intros [(-> & ->)|(-> & _ & key & Hkey & ->)] HR.
  - by rewrite high_of_count.
  - apply Z.eqb_neq, high_of_key; done.
Qed.

(** An access keeps the word in step with the counts. *)
Lemma word_step NodeID w id p p' w' id' W R G :
  pc_step NodeID w id p p' w' id' -> (forall key, p = WriteWaiting key -> is_key key) ->
  word_ok w W R G -> 0 <= G <= R -> R + 1 < 2 ^ 32 ->
  Z.b2z (is_writing p) <= W -> Z.b2z (is_reader p) <= R -> Z.b2z (is_reading p) <= G ->
  word_ok w' (W - Z.b2z (is_writing p) + Z.b2z (is_writing p'))
    (R - Z.b2z (is_reader p) + Z.b2z (is_reader p'))
    (G - Z.b2z (is_reading p) + Z.b2z (is_reading p')).
Proof.
  intros Hpc Hkeys Hw HG HR HpW HpR HpG.
  pose proof (high_word w W R G Hw ltac:(lia)) as Hhigh.
  destruct p as [|key| | |]; unfold pc_step, read_begin, read_poll, write_try in Hpc.
  - destruct Hpc as [(-> & -> & _)|(-> & -> & _)]; cbn [is_writing is_reader is_reading Z.b2z].
    + by rewrite !Z.sub_0_r, !Z.add_0_r.
    + cbn [fst snd]. rewrite Hhigh. destruct Hw as [(-> & ->)|(-> & HG0 & key & Hkey & ->)]; simpl.
      * left. split; [done|]. rewrite wrap_small by (unfold in_width; lia). lia.
      * right. split; [done|]. split; [lia|]. exists key. split; [done|].
        destruct Hkey as (k & Hk & ->). rewrite wrap_small by (unfold in_width; lia). lia.
  - destruct Hpc as (-> & -> & _). destruct (Z.eqb_spec w 0) as [H0|H0];
      cbn [is_writing is_reader is_reading Z.b2z fst snd].
    + destruct Hw as [(-> & Hw)|(-> & _ & k & (k0 & Hk0 & ->) & Hw)]; [|lia].
      right. split; [lia|]. split; [lia|]. exists key. split; [by apply Hkeys|lia].
    + by rewrite !Z.sub_0_r, !Z.add_0_r.
  - destruct Hpc as (-> & -> & _). cbn [is_writing is_reader is_reading Z.b2z] in *. left.
    destruct Hw as [(-> & _)|(-> & _ & key & Hkey & ->)]; [lia|].
    split; [lia|]. unfold WriteUnlock. rewrite low_of_key by (done || lia). lia.
  - destruct Hpc as (-> & -> & _). rewrite Hhigh.
    destruct Hw as [(-> & ->)|(-> & HG0 & key & Hkey & ->)]; cbn [Z.eqb is_writing is_reader is_reading Z.b2z].
    + left. lia.
    + right. split; [lia|]. split; [lia|]. exists key. split; [done|lia].
  - destruct Hpc as (-> & -> & _). cbn [is_writing is_reader is_reading Z.b2z] in *. left.
    destruct Hw as [(-> & ->)|(-> & HG0 & _)]; [|lia].
    split; [lia|]. unfold ReadUnlock. rewrite wrap_small by (unfold in_width; lia). lia.
Qed.

Lemma key_step NodeID w id p p' w' id' :
  pc_step NodeID w id p p' w' id' -> positive_nodes NodeID -> 0 <= id < 2 ^ 16 ->
  (forall key, p = WriteWaiting key -> is_key key) ->
  0 <= id' < 2 ^ 16 /\ forall key, p' = WriteWaiting key -> is_key key.
Proof.
  intros Hpc Hnode Hid Hkeys. destruct p as [|key| | |]; unfold pc_step in Hpc.
  - destruct Hpc as [(-> & _ & ->)|(-> & _ & ->)].
    + split; [apply wrap_range; lia|]. intros key [= <-]. by apply write_key_is_key.
    + split; [done|]. intros key. by destruct (read_begin w).1.
  - destruct Hpc as (-> & _ & ->). split; [done|]. intros k.
    destruct (write_try key w).1; [done|]. intros [= <-]. by apply Hkeys.
  - by destruct Hpc as (-> & _ & ->).
  - destruct Hpc as (-> & _ & ->). split; [done|]. intros k. by destruct (read_poll w).
  - by destruct Hpc as (-> & _ & ->).
Qed.

Lemma tally_at f ps i p : ps !! i = Some p -> Z.b2z (f p) <= Z.of_nat (tally f ps).
Proof.
  intros Hi. destruct (f p) eqn:Hf; simpl; [|lia]. pose proof (tally_pos f ps i p Hi Hf). lia.
Qed.

Lemma inv_step n c c' :
  Z.of_nat n + 1 < 2 ^ 32 -> inv n c -> step positive_nodes c c' -> inv n c'.
Proof.
  intros Hn [Hlen Hid Hkeys Hword] Hstep.
  destruct Hstep as [c i p p' NodeID word' id' Hi Hnode Hpc].
  destruct (key_step _ _ _ _ _ _ _ Hpc Hnode Hid) as [Hid' Hkey']; [by intros key ->; eapply Hkeys|].
  split; cbn [word WriteID threads]; [by rewrite length_insert|done| |].
  - intros j key Hj. destruct (decide (i = j)) as [->|Hne].
    + rewrite list_lookup_insert_eq in Hj by (by eapply lookup_lt_Some).
      apply Hkey'. congruence.
    + rewrite list_lookup_insert_ne in Hj by done. by eapply Hkeys.
  - rewrite !(tally_insert _ _ _ _ p' Hi).
    pose proof (tally_le is_reader (threads c)). pose proof (tally_reading_reader (threads c)).
    apply (word_step NodeID (word c) (WriteID c) p p' word' id'); try done; try lia.
    + intros key ->. by eapply Hkeys.
    + by eapply tally_at.
    + by eapply tally_at.
    + by eapply tally_at.
Qed.

Lemma inv_reachable n id c :
  Z.of_nat n + 1 < 2 ^ 32 -> 0 <= id < 2 ^ 16 -> reachable positive_nodes id n c -> inv n c.
Proof.
  intros Hn Hid Hr. unfold reachable in Hr.
  pose proof (inv_initial n id Hid) as Hinv. revert Hinv.
  induction Hr as [c|c c1 c2 Hs _ IH]; intros Hinv; [done|]. apply IH. by eapply inv_step.
Qed.

(** ** Mutual exclusion *)

Lemma tally_two f ps i j p q :
  f Idle = false -> ps !! i = Some p -> ps !! j = Some q -> f p = true -> f q = true -> i <> j ->
  (2 <= tally f ps)%nat.
Proof.
  intros Hidle Hi Hj Hp Hq Hne. pose proof (tally_insert f ps i p Idle Hi) as H1.
  assert (<[i := Idle]> ps !! j = Some q) as Hj' by by rewrite list_lookup_insert_ne.
  pose proof (tally_at f _ j q Hj'). rewrite Hp, Hq, Hidle in *. simpl in *. lia.
Qed.

Lemma tally_exists f ps :
  tally f ps <> 0%nat -> exists i p, ps !! i = Some p /\ f p = true.
Proof.
  intros Ht. unfold tally in Ht.
  destruct (filter (fun p => f p = true) ps) as [|q l] eqn:Hf; [done|].
  assert (q ∈ filter (fun p => f p = true) ps) as Hq by (rewrite Hf; constructor).
  apply list_elem_of_filter in Hq as [Hq [i Hi]%list_elem_of_lookup_1]. by exists i, q.
Qed.

(** A thread that is waiting in one of the two loops. *)
Definition waiting (p : pc) : bool := match p with WriteWaiting _ | ReadWaiting => true | _ => false end.
Definition inside (p : pc) : bool := is_writing p || is_reading p.

(** C12: The lock words exclude writers. Whatever the interleaving of the
    accesses of up to [2^32 - 2] threads of nodes with positive ids, a thread
    between [WriteLock] and [WriteUnlock] is alone: no other thread is between
    its lock and its unlock, for writing or for reading. *)
Theorem write_lock_excludes n id c i j p :
  Z.of_nat n + 1 < 2 ^ 32 -> 0 <= id < 2 ^ 16 -> reachable positive_nodes id n c ->
  threads c !! i = Some Writing -> threads c !! j = Some p -> i <> j -> inside p = false.
Proof.
  intros Hn Hid Hr Hi Hj Hne. destruct (inv_reachable n id c Hn Hid Hr) as [_ _ _ Hword].
  pose proof (tally_pos is_writing _ _ _ Hi eq_refl) as HW.
  unfold inside. apply orb_false_intro.
  - destruct (is_writing p) eqn:Hp; [|done].
    pose proof (tally_two is_writing _ i j Writing p eq_refl Hi Hj eq_refl Hp Hne).
    destruct Hword as [(? & _)|(? & _)]; lia.
  - destruct (is_reading p) eqn:Hp; [|done].
    pose proof (tally_pos is_reading _ _ _ Hj Hp). destruct Hword as [(? & _)|(? & ? & _)]; lia.
Qed.

(** A step in which thread [h] makes no access. *)
Definition step_besides (nodes : Z -> Prop) (h : nat) (c c' : config) : Prop :=
  step nodes c c' /\ threads c' !! h = threads c !! h.

(** While a writer is in the word, an access does not let a waiting thread in. *)
Lemma waiting_stays NodeID w id p p' w' id' W R G :
  pc_step NodeID w id p p' w' id' -> waiting p = true -> word_ok w W R G -> 0 <= R < 2 ^ 32 -> W <> 0 ->
  p' = p.
Proof.
  intros Hpc Hp Hw HR HW. pose proof (high_word w W R G Hw HR) as Hhigh.
  destruct p as [|key| | |]; try done; destruct Hpc as (-> & _ & _).
  - unfold write_try. destruct (Z.eqb_spec w 0) as [->|]; [|done].
    symmetry in Hhigh. apply Z.eqb_eq in Hhigh. lia.
  - unfold read_poll. rewrite Hhigh. by destruct (Z.eqb_spec W 0).
Qed.

Lemma besides_step n h t p c c' :
  Z.of_nat n + 1 < 2 ^ 32 -> inv n c -> step_besides positive_nodes h c c' ->
  threads c !! h = Some Writing -> threads c !! t = Some p -> waiting p = true ->
  inv n c' /\ threads c' !! h = Some Writing /\ threads c' !! t = Some p.
Proof.
  intros Hn Hinv [Hs Hh] Hw Ht Hp. split; [by eapply inv_step|]. split; [congruence|].
  destruct Hs as [c i q q' NodeID word' id' Hi Hnode Hpc]. cbn [threads] in *.
  destruct (decide (i = t)) as [->|Hne]; [|by rewrite list_lookup_insert_ne].
  rewrite list_lookup_insert_eq by (by eapply lookup_lt_Some). f_equal. simplify_eq.
  destruct Hinv as [Hlen _ _ Hword]. pose proof (tally_le is_reader (threads c)).
  pose proof (tally_pos is_writing _ _ _ Hw eq_refl).
  eapply waiting_stays; [exact Hpc|done|exact Hword|lia|lia].
Qed.


(** ** Examples *)

(** The next access of thread [i], for schedules that are computed. The flag
    says whether an idle thread asks for the lock to write. *)
Definition act (NodeID : Z) (i : nat) (write : bool) (c : config) : config :=
  match threads c !! i with
  | Some Idle =>
      if write then
        mkConfig (word c) (next_WriteID (WriteID c))
          (<[i := WriteWaiting (write_key NodeID (WriteID c))]> (threads c))
      else
        mkConfig (read_begin (word c)).2 (WriteID c)
          (<[i := if (read_begin (word c)).1 then Reading else ReadWaiting]> (threads c))
  | Some (WriteWaiting key) =>
      mkConfig (write_try key (word c)).2 (WriteID c)
        (<[i := if (write_try key (word c)).1 then Writing else WriteWaiting key]> (threads c))
  | Some Writing =>
      mkConfig (WriteUnlock (word c)) (WriteID c) (<[i := Idle]> (threads c))
  | Some ReadWaiting =>
      mkConfig (word c) (WriteID c)
        (<[i := if read_poll (word c) then Reading else ReadWaiting]> (threads c))
  | Some Reading => mkConfig (ReadUnlock (word c)) (WriteID c) (<[i := Idle]> (threads c))
  | None => c
  end.

Lemma act_step (nodes : Z -> Prop) NodeID i write c :
  nodes NodeID -> is_Some (threads c !! i) -> step nodes c (act NodeID i write c).
Proof.
  intros Hn [p Hp]. unfold act. rewrite Hp.
  destruct p as [|key| | |]; [destruct write|..];
    (eapply step_thread; [exact Hp|exact Hn|]); unfold pc_step; tauto.
Qed.

(** A schedule: the threads in the order of their accesses. *)
Definition acts (NodeID : Z) (sched : list (nat * bool)) (c : config) : config :=
  foldl (fun c '(i, write) => act NodeID i write c) c sched.

Lemma act_threads NodeID i write c : length (threads (act NodeID i write c)) = length (threads c).
Proof.
  unfold act. destruct (threads c !! i) as [[]|]; try destruct write;
    cbn [threads]; by rewrite ?length_insert.
Qed.

Lemma acts_reachable (nodes : Z -> Prop) NodeID id n sched :
  nodes NodeID -> Forall (fun a => (a.1 < n)%nat) sched ->
  reachable nodes id n (acts NodeID sched (initial id n)).
Proof.
  intros Hn Hs. unfold reachable, acts.
  assert (forall c, length (threads c) = n ->
    rtc (step nodes) c (foldl (fun c '(i, write) => act NodeID i write c) c sched)) as H.
  { induction sched as [|[i write] sched IH]; intros c Hlen; [apply rtc_refl|].
    apply Forall_cons in Hs as [Hi Hs]. simpl in *.
    eapply rtc_l; [apply (act_step nodes NodeID i write c Hn)|apply IH; [done|]].
    - apply lookup_lt_is_Some. lia.
    - by rewrite act_threads. }
  apply H. simpl. apply length_replicate.
Qed.

(** A reader arrives while a writer is inside and waits. *)
Definition reader_waits : config :=
  acts 1 [(0%nat, true); (0%nat, true); (1%nat, false); (1%nat, false)] (initial 7 3).

Lemma write_lock_excludes_witness :
  threads reader_waits = [Writing; ReadWaiting; Idle] /\ inside ReadWaiting = false.
Proof.
  split; [reflexivity|].
  apply (write_lock_excludes 3 7 reader_waits 0 1 ReadWaiting); [lia|lia| |reflexivity|reflexivity|lia].
  apply acts_reachable; [unfold positive_nodes; lia|repeat constructor; simpl; lia].
Defined.


(** Positive node ids are needed: with node 0 and the counter at 0 the key is
    0, and a second writer enters. *)
Theorem zero_key_admits_two :
  reachable (fun _ => True) 0 2
    (acts 0 [(0%nat, true); (0%nat, true); (1%nat, true); (1%nat, true)] (initial 0 2)) /\
  threads (acts 0 [(0%nat, true); (0%nat, true); (1%nat, true); (1%nat, true)] (initial 0 2)) =
  [Writing; Writing].
Proof.
  split; [|reflexivity]. apply acts_reachable; [done|]. repeat constructor; simpl; lia.
Qed.

End LockService.
