(* ===== verification/OctTx.v ===== *)
(** * Transaction logs of the octopus file system (src/sys/octopus/src/fs/TxManager.cpp)

    Two arrays of log entries in persistent memory, with an index each. Every
    change of an entry is followed by a flush of its cache lines; the model
    keeps the addresses that were flushed, in order. *)

From S2P Require Import Prelude.
From S2P Require Import OctBase.
Open Scope Z_scope.

Module TxManager.

Definition CACHELINE_SIZE : Z := 64.

(** The logged bytes are a list: [memcpy] of [size] bytes replaces a prefix. *)
Record LocalLogEntry : Type := mkLocal {
  local_TxID : Z;
  local_begin : bool;
  logData : list Z;
  local_commit : bool
}.
Definition sizeof_logData : Z := 4086.
Definition sizeof_LocalLogEntry : Z := 8 + 1 + sizeof_logData + 1.

Record DistributedLogEntry : Type := mkDistributed {
  dist_TxID : Z;
  dist_begin : bool;
  dist_prepare : bool;
  dist_commit : bool
}.
Definition sizeof_DistributedLogEntry : Z := 8 + 1 + 1 + 1.

Record TxManager : Type := mkTx {
  LocalLogAddress : Z;
  DistributedLogAddress : Z;
  localLog : array LocalLogEntry;
  distributedLog : array DistributedLogEntry;
  LocalLogIndex : Z;
  DistributedLogIndex : Z;
  flushed : list Z
}.

(** The constructor, over the two logs in memory. *)
Definition construct (la da : Z) (ll : array LocalLogEntry) (dl : array DistributedLogEntry)
    : TxManager :=
  mkTx la da ll dl 0 0 [].

(** ** Flushing *)

(** The loop of [FlushData]: [i] is a [uint32_t]. With the fuel of [FlushData]
    the loop ends unless [i] wraps around, and then it never ends. *)
Fixpoint flush_from (fuel : nat) (address size i : Z) : run (list Z) :=
  match fuel with
  | O => Blocked
  | S fuel =>
      if i <? size then
        rest ← flush_from fuel address size (u32 (i + CACHELINE_SIZE));
        Done (u64 (address + i) :: rest)
      else Done []
  end.

(** The addresses passed to [_mm_clflush]. *)
Definition FlushData (address size : Z) : run (list Z) :=
  let size := u64 (size + Z.land address (CACHELINE_SIZE - 1)) in
  flush_from (Z.to_nat (size / CACHELINE_SIZE + 2)) address size 0.

Definition flush (address size : Z) (t : TxManager) : run TxManager :=
  ls ← FlushData address size;
  Done (mkTx (LocalLogAddress t) (DistributedLogAddress t) (localLog t) (distributedLog t)
          (LocalLogIndex t) (DistributedLogIndex t) (flushed t ++ ls)).

Definition with_local (ll : array LocalLogEntry) (t : TxManager) : TxManager :=
  mkTx (LocalLogAddress t) (DistributedLogAddress t) ll (distributedLog t)
    (LocalLogIndex t) (DistributedLogIndex t) (flushed t).
Definition with_distributed (dl : array DistributedLogEntry) (t : TxManager) : TxManager :=
  mkTx (LocalLogAddress t) (DistributedLogAddress t) (localLog t) dl
    (LocalLogIndex t) (DistributedLogIndex t) (flushed t).
Definition with_index (li di : Z) (t : TxManager) : TxManager :=
  mkTx (LocalLogAddress t) (DistributedLogAddress t) (localLog t) (distributedLog t)
    li di (flushed t).

Definition local_address (t : TxManager) (i : Z) : Z :=
  u64 (LocalLogAddress t + i * sizeof_LocalLogEntry).
Definition distributed_address (t : TxManager) (i : Z) : Z :=
  u64 (DistributedLogAddress t + i * sizeof_DistributedLogEntry).

(** ** Operations *)

Definition TxLocalBegin (t : TxManager) : run (Z * TxManager) :=
  let i := LocalLogIndex t in
  e ← index (localLog t) i;
  ll ← store (localLog t) i (mkLocal i true (logData e) (local_commit e));
  t ← flush (local_address t i) CACHELINE_SIZE (with_local ll t);
  Done (i, with_index (u64 (LocalLogIndex t + 1)) (DistributedLogIndex t) t).

(** The size is not compared with that of [logData]: copying more overwrites
    the commit flag and the next entries. *)
Definition TxWriteData (t : TxManager) (TxID : Z) (data : list Z) : run TxManager :=
  e ← index (localLog t) TxID;
  if Z.of_nat (length data) <=? sizeof_logData then
    ll ← store (localLog t) TxID
      (mkLocal (local_TxID e) (local_begin e) (memcpy (logData e) data (length data)) (local_commit e));
    flush (u64 (local_address t TxID + 9)) (Z.of_nat (length data)) (with_local ll t)
  else Undef.

Definition getTxWriteDataAddress (t : TxManager) (TxID : Z) : Z := u64 (local_address t TxID + 9).

Definition TxLocalCommit (t : TxManager) (TxID : Z) (action : bool) : run TxManager :=
  e ← index (localLog t) TxID;
  ll ← store (localLog t) TxID (mkLocal (local_TxID e) (local_begin e) (logData e) action);
  flush (u64 (local_address t TxID + 9 + sizeof_logData)) CACHELINE_SIZE (with_local ll t).

Definition TxDistributedBegin (t : TxManager) : run (Z * TxManager) :=
  let i := DistributedLogIndex t in
  e ← index (distributedLog t) i;
  dl ← store (distributedLog t) i (mkDistributed i true (dist_prepare e) (dist_commit e));
  t ← flush (distributed_address t i) CACHELINE_SIZE (with_distributed dl t);
  Done (i, with_index (LocalLogIndex t) (u64 (DistributedLogIndex t + 1)) t).

Definition TxDistributedPrepare (t : TxManager) (TxID : Z) (action : bool) : run TxManager :=
  e ← index (distributedLog t) TxID;
  dl ← store (distributedLog t) TxID
    (mkDistributed (dist_TxID e) (dist_begin e) action (dist_commit e));
  flush (u64 (distributed_address t TxID + 9)) CACHELINE_SIZE (with_distributed dl t).

Definition TxDistributedCommit (t : TxManager) (TxID : Z) (action : bool) : run TxManager :=
  e ← index (distributedLog t) TxID;
  dl ← store (distributedLog t) TxID
    (mkDistributed (dist_TxID e) (dist_begin e) (dist_prepare e) action);
  flush (u64 (distributed_address t TxID + 10)) CACHELINE_SIZE (with_distributed dl t).

(** ** Flushing covers what was written *)

Lemma flush_from_spec address size fuel : forall i,
  0 <= address -> address + size < 2 ^ 64 -> 0 <= i -> 0 <= size -> size + 64 < 2 ^ 32 ->
  (i mod 64 = 0) -> size <= i + 64 * (Z.of_nat fuel - 1) -> i <= size + 63 ->
  exists ls, flush_from fuel address size i = Done ls /\
    map (fun a => a / 64) ls = seqZ ((address + i) / 64) ((size - i + 63) / 64).
Proof.
  induction fuel as [|fuel IH]; intros i Ha Hw Hi Hs Hs32 Hmod Hfuel Hle; [lia|].
  cbn [flush_from]. unfold CACHELINE_SIZE. destruct (Z.ltb_spec i size) as [Hlt|Hge].
  - rewrite (wrap_small 32 (i + 64)) by (unfold in_width; lia).
    destruct (IH (i + 64)) as (ls & -> & Hls); try lia.
    { rewrite <- Hmod. replace (i + 64) with (i + 1 * 64) by lia. apply Z.mod_add. lia. }
    eexists. split; [done|]. cbn [map]. rewrite Hls, wrap_small by (unfold in_width; lia).
    rewrite (seqZ_cons ((address + i) / 64)) by (apply Z.div_str_pos; lia). f_equal. f_equal.
    + replace (address + (i + 64)) with (address + i + 1 * 64) by lia. rewrite Z.div_add by lia. lia.
    + replace (size - (i + 64) + 63) with (size - i + 63 + (-1) * 64) by lia.
      rewrite Z.div_add by lia. lia.
  - exists []. split; [done|]. by rewrite (Z.div_small (size - i + 63)) by lia.
Qed.

(** [FlushData] flushes exactly the cache lines of the range, each once
    and in order: the lines of the addresses it passes to [clflush] are those
    from the line of the first byte to the line of the last byte. *)
Theorem flush_covers address size :
  0 <= address -> 0 < size -> address + size + 64 < 2 ^ 64 -> size + 128 < 2 ^ 32 ->
  exists ls, FlushData address size = Done ls /\
    map (fun a => a / 64) ls =
    seqZ (address / 64) ((address + size - 1) / 64 - address / 64 + 1).
Proof.
  intros Ha Hs Hw Hs32. unfold FlushData, CACHELINE_SIZE.
  change (64 - 1) with (Z.ones 6). rewrite Z.land_ones by lia. change (2 ^ 6) with 64.
  pose proof (Z.mod_pos_bound address 64 ltac:(lia)) as Hm.
  rewrite wrap_small by (unfold in_width; lia). set (sz := size + address mod 64).
  pose proof (Z.div_mod sz 64 ltac:(lia)). pose proof (Z.mod_pos_bound sz 64 ltac:(lia)).
  pose proof (Z.div_mod address 64 ltac:(lia)) as Hda.
  destruct (flush_from_spec address sz (Z.to_nat (sz / 64 + 2)) 0) as (ls & -> & Hls);
    try (unfold sz in *; lia); [done|].
  exists ls. split; [done|]. rewrite Hls, Z.add_0_r. f_equal.
  replace (address + size - 1) with (sz - 1 + (address / 64) * 64) by (unfold sz; lia).
  rewrite Z.div_add by lia. replace (sz - 0 + 63) with (sz - 1 + 1 * 64) by lia.
  rewrite Z.div_add by lia. lia.
Qed.

Lemma flush_covers_witness :
  exists ls, FlushData 4105 100 = Done ls /\ map (fun a => a / 64) ls = [64; 65].
Proof.
  destruct (flush_covers 4105 100 ltac:(lia) ltac:(lia) ltac:(lia) ltac:(lia)) as (ls & Hf & Hl).
  exists ls. split; [exact Hf|]. rewrite Hl. vm_compute. reflexivity.
Defined.

(** ** The life of a transaction *)

(** A manager whose index and addresses are in range. *)
Record tx_ok (t : TxManager) : Prop := mkTxOk {
  tx_local_len : 0 <= alen (localLog t) < 2 ^ 32;
  tx_dist_len : 0 <= alen (distributedLog t) < 2 ^ 32;
  tx_local_index : 0 <= LocalLogIndex t;
  tx_dist_index : 0 <= DistributedLogIndex t;
  tx_local_addr : 0 <= LocalLogAddress t /\
    LocalLogAddress t + (alen (localLog t) + 1) * sizeof_LocalLogEntry < 2 ^ 63;
  tx_dist_addr : 0 <= DistributedLogAddress t /\
    DistributedLogAddress t + (alen (distributedLog t) + 1) * sizeof_DistributedLogEntry < 2 ^ 63
}.

Lemma flush_Done t address size :
  0 <= address < 2 ^ 63 -> 0 <= size < 2 ^ 31 ->
  exists ls, flush address size t = Done (mkTx (LocalLogAddress t) (DistributedLogAddress t)
    (localLog t) (distributedLog t) (LocalLogIndex t) (DistributedLogIndex t) (flushed t ++ ls)).
Proof.
  intros Ha Hs. unfold flush. destruct (decide (size = 0)) as [->|Hne].
  - unfold FlushData, CACHELINE_SIZE.
    change (64 - 1) with (Z.ones 6). rewrite Z.land_ones by lia. change (2 ^ 6) with 64.
    pose proof (Z.mod_pos_bound address 64 ltac:(lia)).
    rewrite wrap_small by (unfold in_width; lia). rewrite (Z.div_small (0 + address mod 64)) by lia.
    destruct (flush_from_spec address (0 + address mod 64) (Z.to_nat (0 + 2)) 0)
      as (ls & -> & _); try lia; [done|]. by exists ls.
  - destruct (flush_covers address size) as (ls & -> & _); try lia. by exists ls.
Qed.

Lemma local_address_range t i :
  tx_ok t -> 0 <= i < alen (localLog t) ->
  local_address t i = LocalLogAddress t + i * sizeof_LocalLogEntry /\
  0 <= local_address t i /\ local_address t i + sizeof_LocalLogEntry < 2 ^ 63.
Proof.
  intros Ht Hi. destruct (tx_local_addr _ Ht) as [H0 H1]. unfold local_address.
  unfold sizeof_LocalLogEntry, sizeof_logData in *. rewrite wrap_small by (unfold in_width; lia). lia.
Qed.

(** The next flush returns. *)
Ltac flush_step :=
  match goal with
  | |- context [flush ?a ?n ?t0] =>
      let ls := fresh "ls" in
      destruct (flush_Done t0 a n) as (ls & ->); [lia|unfold CACHELINE_SIZE; lia|]
  end.

Lemma TxLocalBegin_spec t :
  tx_ok t -> LocalLogIndex t < alen (localLog t) ->
  exists t', TxLocalBegin t = Done (LocalLogIndex t, t') /\ tx_ok t' /\
    LocalLogIndex t' = LocalLogIndex t + 1 /\ alen (localLog t') = alen (localLog t) /\
    local_TxID (aget (localLog t') (LocalLogIndex t)) = LocalLogIndex t /\
    local_begin (aget (localLog t') (LocalLogIndex t)) = true /\
    (forall i, i <> LocalLogIndex t -> aget (localLog t') i = aget (localLog t) i).
Proof.
  intros Ht Hi. pose proof (tx_local_index _ Ht) as H0. unfold TxLocalBegin.
  rewrite index_Done by lia. simpl mbind. rewrite store_Done by lia. simpl mbind.
  destruct (local_address_range t (LocalLogIndex t) Ht ltac:(lia)) as (_ & Ha0 & Ha1).
  unfold sizeof_LocalLogEntry, sizeof_logData in Ha1.
  flush_step. simpl mbind.
  eexists. split; [done|]. pose proof (tx_local_len _ Ht).
  simpl LocalLogIndex. rewrite wrap_small by (unfold in_width; lia).
  split; [destruct Ht; split; simpl; try done; lia|].
  split; [done|]. split; [done|]. simpl. rewrite Z.eqb_refl. split; [done|]. split; [done|].
  intros i Hne. by rewrite (proj2 (Z.eqb_neq _ _)).
Qed.

Lemma TxWriteData_spec t id data :
  tx_ok t -> 0 <= id < alen (localLog t) -> Z.of_nat (length data) <= sizeof_logData ->
  exists t', TxWriteData t id data = Done t' /\ tx_ok t' /\
    LocalLogIndex t' = LocalLogIndex t /\ alen (localLog t') = alen (localLog t) /\
    (forall i, aget (localLog t') i =
       if i =? id then
         let e := aget (localLog t) id in
         mkLocal (local_TxID e) (local_begin e) (memcpy (logData e) data (length data)) (local_commit e)
       else aget (localLog t) i).
Proof.
  intros Ht Hi Hlen. unfold TxWriteData. rewrite index_Done by lia. simpl mbind.
  rewrite (proj2 (Z.leb_le _ _)) by lia. rewrite store_Done by lia. simpl mbind.
  destruct (local_address_range t id Ht Hi) as (_ & Ha0 & Ha1).
  unfold sizeof_LocalLogEntry, sizeof_logData in *.
  rewrite wrap_small by (unfold in_width; lia).
  flush_step.
  eexists. split; [done|]. split; [destruct Ht; split; simpl; done|done].
Qed.

Lemma TxLocalCommit_spec t id action :
  tx_ok t -> 0 <= id < alen (localLog t) ->
  exists t', TxLocalCommit t id action = Done t' /\ tx_ok t' /\
    LocalLogIndex t' = LocalLogIndex t /\ alen (localLog t') = alen (localLog t) /\
    (forall i, aget (localLog t') i =
       if i =? id then
         let e := aget (localLog t) id in
         mkLocal (local_TxID e) (local_begin e) (logData e) action
       else aget (localLog t) i).
Proof.
  intros Ht Hi. unfold TxLocalCommit. rewrite index_Done by lia. simpl mbind.
  rewrite store_Done by lia. simpl mbind.
  destruct (local_address_range t id Ht Hi) as (_ & Ha0 & Ha1).
  unfold sizeof_LocalLogEntry, sizeof_logData in *.
  rewrite wrap_small by (unfold in_width; lia).
  flush_step.
  eexists. split; [done|]. split; [destruct Ht; split; simpl; done|done].
Qed.

(** The number of the transaction is its index, which only grows: the log has
    40 MB, room for 10240 entries of 4096 bytes, and the transaction after the
    last writes behind it. *)
Lemma local_log_overrun t :
  LocalLogIndex t = alen (localLog t) -> TxLocalBegin t = Undef.
Proof.
  intros Hi. unfold TxLocalBegin, index, in_bounds.
  rewrite Hi, Z.ltb_irrefl, andb_false_r. done.
Qed.

(** A local transaction is logged in an entry of its own. Begun, given
    its data and committed, it leaves an entry with its number, the begin and
    commit marks and the data at the front, and no other entry changes. *)
Theorem transaction_logged t data action :
  tx_ok t -> LocalLogIndex t < alen (localLog t) -> Z.of_nat (length data) <= sizeof_logData ->
  exists t1 t2 t3, TxLocalBegin t = Done (LocalLogIndex t, t1) /\
    TxWriteData t1 (LocalLogIndex t) data = Done t2 /\
    TxLocalCommit t2 (LocalLogIndex t) action = Done t3 /\
    (exists rest, aget (localLog t3) (LocalLogIndex t) =
       mkLocal (LocalLogIndex t) true (data ++ rest) action) /\
    (forall i, i <> LocalLogIndex t -> aget (localLog t3) i = aget (localLog t) i) /\
    LocalLogIndex t3 = LocalLogIndex t + 1.
Proof.
  intros Ht Hi Hlen. pose proof (tx_local_index _ Ht).
  destruct (TxLocalBegin_spec t Ht Hi) as (t1 & Hb & Ht1 & Hi1 & Hl1 & Hid & Hbeg & Ho1).
  destruct (TxWriteData_spec t1 (LocalLogIndex t) data Ht1 ltac:(lia) Hlen)
    as (t2 & Hw & Ht2 & Hi2 & Hl2 & Ho2).
  destruct (TxLocalCommit_spec t2 (LocalLogIndex t) action Ht2 ltac:(lia))
    as (t3 & Hc & Ht3 & Hi3 & Hl3 & Ho3).
  exists t1, t2, t3. do 3 (split; [done|]). split; [|split].
  - rewrite Ho3, Z.eqb_refl, Ho2, Z.eqb_refl. simpl. rewrite Hid, Hbeg. unfold memcpy.
    rewrite firstn_all. by eexists.
  - intros i Hne. by rewrite Ho3, (proj2 (Z.eqb_neq _ _)), Ho2, (proj2 (Z.eqb_neq _ _)), Ho1.
  - by rewrite Hi3, Hi2.
Qed.

(** Logs of four entries. *)
Definition small_manager : TxManager :=
  construct 4096 65536 (Arr 4 (fun _ => mkLocal 0 false (replicate 8 0) false))
    (Arr 4 (fun _ => mkDistributed 0 false false false)).

Lemma transaction_logged_witness :
  exists t1 t2 t3, TxLocalBegin small_manager = Done (0, t1) /\
    TxWriteData t1 0 [1; 2; 3] = Done t2 /\ TxLocalCommit t2 0 true = Done t3 /\
    (exists rest, aget (localLog t3) 0 = mkLocal 0 true ([1; 2; 3] ++ rest) true) /\
    (forall i, i <> 0 -> aget (localLog t3) i = aget (localLog small_manager) i) /\
    LocalLogIndex t3 = 1.
Proof.
  apply (transaction_logged small_manager [1; 2; 3] true).
  - split; vm_compute; intuition congruence.
  - reflexivity.
  - vm_compute. congruence.
Defined.

End TxManager.
