(* ===== verification/OctStorage.v ===== *)
(** * Storage of the octopus file system (src/sys/octopus/src/fs/storage.cpp)

    The metadata types of common.hpp, their layout in memory, and the class
    that divides the buffers of a server into the path index, the tables of
    file and directory metadata, and the table of blocks. *)

From S2P Require Import Prelude.
From S2P Require Import OctBase.
From S2P Require Import OctBitmap.
From S2P Require Import OctTable.
From S2P Require Import OctHashTable.
From S2P Require Import OctHashProps.
Open Scope Z_scope.

(** ** Metadata *)

Definition MAX_PATH_LENGTH : Z := 255.
Definition MAX_FILE_EXTENT_COUNT : Z := 20.
Definition BLOCK_SIZE : Z := 1 * 1024 * 1024.
Definition MAX_FILE_NAME_LENGTH : Z := 50.
Definition MAX_DIRECTORY_COUNT : Z := 60.
Definition MAX_MESSAGE_BLOCK_COUNT : Z := 10.

Record FileMetaTuple : Type := mkExtent {
  hashNode : Z;
  indexExtentStartBlock : Z;
  countExtentBlock : Z
}.

Record FileMeta : Type := mkFileMeta {
  timeLastModified : Z;
  fm_count : Z;
  fm_size : Z;
  fm_tuple : list FileMetaTuple
}.

(** [names] has the 50 bytes of the array; the name is the string in them. *)
Record DirectoryMetaTuple : Type := mkEntry { names : list Z; isDirectories : bool }.

Record DirectoryMeta : Type := mkDirectoryMeta {
  dm_count : Z;
  dm_tuple : list DirectoryMetaTuple
}.

Definition Block : Type := list Z.

(** ** Layout *)

Definition load_extent (bs : list Z) : FileMetaTuple :=
  mkExtent (le_read 8 bs 0) (le_read 4 bs 8) (le_read 4 bs 12).

Definition load_file_meta (bs : list Z) : FileMeta :=
  mkFileMeta (le_read 8 bs 0) (le_read 8 bs 8) (le_read 8 bs 16)
    (map (fun i => load_extent (drop (24 + i * 16) bs)) (upto 20)).

Definition load_entry (bs : list Z) : DirectoryMetaTuple :=
  mkEntry (take 50 bs) (negb (byte_at bs 50 =? 0)).

Definition load_directory_meta (bs : list Z) : DirectoryMeta :=
  mkDirectoryMeta (le_read 8 bs 0) (map (fun i => load_entry (drop (8 + i * 51) bs)) (upto 60)).

Definition store_extent (e : FileMetaTuple) : list Z :=
  le_bytes 8 (hashNode e) ++ le_bytes 4 (indexExtentStartBlock e) ++ le_bytes 4 (countExtentBlock e).

Definition store_file_meta (f : FileMeta) : list Z :=
  le_bytes 8 (timeLastModified f) ++ le_bytes 8 (fm_count f) ++ le_bytes 8 (fm_size f)
  ++ concat (map store_extent (fm_tuple f)).

Definition store_entry (e : DirectoryMetaTuple) : list Z :=
  names e ++ [if isDirectories e then 1 else 0].

Definition store_directory_meta (d : DirectoryMeta) : list Z :=
  le_bytes 8 (dm_count d) ++ concat (map store_entry (dm_tuple d)) ++ replicate 4 0.

#[export] Instance FileMeta_pod : Table.Pod FileMeta :=
  { Table.sizeof := 8 + 8 + 8 + 20 * 16; Table.load := load_file_meta }.

(** 60 entries of 51 bytes behind the count, padded to a multiple of 8. *)
#[export] Instance DirectoryMeta_pod : Table.Pod DirectoryMeta :=
  { Table.sizeof := 8 + 60 * 51 + 4; Table.load := load_directory_meta }.

#[export] Instance Block_pod : Table.Pod Block :=
  { Table.sizeof := 1048576; Table.load := fun bs => bs }.

(** The parts of the buffer of a path index with [n] chained items. *)
Definition le_array (mem : array Z) (k : nat) (off : Z) : Z :=
  le_read k (map (fun i => aget mem (off + Z.of_nat i)) (upto k)) 0.

Definition load_hash_item (mem : array Z) (i : Z) : HashTable.HashItem :=
  let off := i * HashTable.sizeof_HashItem in
  HashTable.mkHashItem (le_array mem 8 off) (le_array mem 8 (off + 8)).

Definition load_chained_item (mem : array Z) (i : Z) : HashTable.ChainedItem :=
  let off := i * HashTable.sizeof_ChainedItem in
  HashTable.mkChained (le_array mem 8 off) (le_array mem 8 (off + 8))
    (negb (aget mem (off + 16) =? 0))
    (le_array mem 8 (off + 24), le_array mem 8 (off + 32), le_array mem 8 (off + 40),
     le_array mem 8 (off + 48)).

Definition hash_buffer (mem : array Z) (n : Z) : HashTable.buffer :=
  let bits := Table.offset_array mem HashTable.HASH_ITEMS_SIZE in
  let chained := Table.offset_array mem (HashTable.HASH_ITEMS_SIZE + n / 8) in
  HashTable.mkBuffer
    (Arr (alen mem / HashTable.sizeof_HashItem) (load_hash_item mem))
    bits
    (Arr (alen chained / HashTable.sizeof_ChainedItem) (load_chained_item chained)).

(** ** The class *)

Record Storage : Type := mkStorage {
  countNode : Z;
  hashtable : HashTable.HashTable;
  tableFileMeta : Table.Table FileMeta;
  tableDirectoryMeta : Table.Table DirectoryMeta;
  tableBlock : Table.Table Block;
  st_sizeBufferUsed : Z
}.

(** [None] is a null pointer; [st] is used only for the count of nodes. *)
Definition getNodeHash (st : Storage) (h : option HashTable.UniqueHash) : run Z :=
  match h with
  | None => Exits
  | Some h => Done (u64 (HashTable.value3 h mod countNode st + 1))
  end.

Definition storage_construct (buffer bufferBlock : option (Z * array Z))
    (countFile countDirectory countBlock nodes : Z) : run Storage :=
  match buffer, bufferBlock with
  | Some (base, mem), Some (baseBlock, memBlock) =>
      if (countFile =? 0) || (countDirectory =? 0) || (countBlock =? 0) || (nodes =? 0) then Exits
      else
        let n := u64 (countDirectory + countFile) in
        ht ← HashTable.construct (Some (hash_buffer mem n)) n;
        let off1 := HashTable.sizeBufferUsed ht in
        tf ← Table.construct (Some (base + off1, Table.offset_array mem off1)) countFile;
        let off2 := u64 (off1 + Table.sizeBufferUsed tf) in
        td ← Table.construct (Some (base + off2, Table.offset_array mem off2)) countDirectory;
        tb ← Table.construct (Some (baseBlock, memBlock)) countBlock;
        Done (mkStorage nodes ht tf td tb
                (u64 (off1 + Table.sizeBufferUsed tf + Table.sizeBufferUsed td
                      + Table.sizeBufferUsed tb)))
  | _, _ => Exits
  end.

(** ** Layout round trips *)

Definition entry_ok (e : DirectoryMetaTuple) : Prop := length (names e) = 50%nat.
Definition directory_ok (d : DirectoryMeta) : Prop :=
  0 <= dm_count d < 2 ^ 64 /\ length (dm_tuple d) = 60%nat /\ Forall entry_ok (dm_tuple d).

Lemma byte_at_drop l k off :
  0 <= off -> byte_at (drop k l) off = byte_at l (Z.of_nat k + off).
Proof.
  intros Ho. unfold byte_at. rewrite lookup_drop. do 2 f_equal. lia.
Qed.

Lemma le_read_drop n : forall l k off,
  0 <= off -> le_read n (drop k l) off = le_read n l (Z.of_nat k + off).
Proof.
  induction n as [|n IH]; intros l k off Ho; cbn [le_read]; [done|].
  rewrite byte_at_drop, IH by lia. do 3 f_equal. lia.
Qed.

Lemma length_store_entry e : entry_ok e -> length (store_entry e) = 51%nat.
Proof. intros He. unfold store_entry. rewrite length_app, He. done. Qed.

Lemma load_store_entry e rest : entry_ok e -> load_entry (store_entry e ++ rest) = e.
Proof.
  intros He. unfold load_entry, store_entry. rewrite <- app_assoc.
  rewrite take_app_length' by done.
  replace (byte_at _ 50) with (if isDirectories e then 1 else 0).
  - by destruct e as [nm []].
  - unfold byte_at. rewrite lookup_app_r by (rewrite He; simpl; lia). rewrite He. done.
Qed.

Lemma length_store_entries es :
  Forall entry_ok es -> length (concat (map store_entry es)) = (51 * length es)%nat.
Proof.
  induction 1 as [|e es He _ IH]; [done|]. simpl. rewrite length_app, IH, length_store_entry by done. lia.
Qed.

Lemma load_store_entries es rest : forall i,
  Forall entry_ok es -> (i < length es)%nat ->
  Some (load_entry (drop (i * 51) (concat (map store_entry es) ++ rest))) = es !! i.
Proof.
  induction es as [|e es IH]; intros i Hes Hi; simpl in Hi; [lia|].
  apply Forall_cons in Hes as [He Hes]. simpl. rewrite <- app_assoc. destruct i as [|i].
  - simpl. rewrite drop_0, load_store_entry by done. done.
  - rewrite drop_app_ge by (rewrite length_store_entry; [lia|done]).
    rewrite length_store_entry by done.
    replace (S i * 51 - 51)%nat with (i * 51)%nat by lia. apply IH; [done|lia].
Qed.

(** The structure in memory is the value that was copied there. *)
Lemma load_store_directory d : directory_ok d -> load_directory_meta (store_directory_meta d) = d.
Proof.
  intros (Hc & Hlen & Hes). unfold load_directory_meta, store_directory_meta.
  rewrite le_read_le_bytes by (simpl; lia). destruct d as [c es]. cbn [dm_count dm_tuple] in *. f_equal.
  apply list_eq. intros i. rewrite lookup_map.
  destruct (decide (i < 60)%nat) as [Hi|Hi].
  - rewrite lookup_seq_lt by done. cbn [fmap option_fmap option_map].
    rewrite (Nat.add_0_l i), <- drop_drop, drop_app_length' by by rewrite length_le_bytes.
    rewrite <- (load_store_entries es (replicate 4 0) i) by (done || lia). done.
  - rewrite lookup_seq_ge by lia. simpl. symmetry. apply lookup_ge_None_2. lia.
Qed.

(** ** Fresh storage *)

Lemma le_array_zero mem k off : (forall i, aget mem i = 0) -> le_array mem k off = 0.
Proof.
  intros Hz. unfold le_array.
  assert (forall n l o, (forall x, x ∈ l -> x = 0) -> le_read n l o = 0) as H.
  { induction n as [|n IH]; intros l o Hl; cbn [le_read]; [done|]. rewrite IH by done.
    unfold byte_at. destruct (l !! Z.to_nat o) as [x|] eqn:Hx; [|done]. simpl.
    rewrite (Hl x); [done|]. by eapply list_elem_of_lookup_2. }
  apply H. intros x (i & -> & _)%list_elem_of_fmap. apply Hz.
Qed.

Definition index_size (n : Z) : Z :=
  HashTable.HASH_ITEMS_SIZE + n / 8 + HashTable.sizeof_ChainedItem * n.
Definition table_size (sz n : Z) : Z := n / 8 + n * sz.

(** The buffers have room for the counts, which are multiples of eight. *)
Record sizes_ok (mem memBlock : array Z) (countFile countDirectory countBlock : Z) : Prop := mkSizes {
  sz_file : countFile mod 8 = 0 /\ 0 < countFile <= 2 ^ 24;
  sz_dir : countDirectory mod 8 = 0 /\ 0 < countDirectory <= 2 ^ 24;
  sz_block : countBlock mod 8 = 0 /\ 0 < countBlock <= 2 ^ 24;
  sz_mem : index_size (countDirectory + countFile) + table_size 344 countFile
           + table_size 3072 countDirectory <= alen mem;
  sz_mem_block : table_size 1048576 countBlock <= alen memBlock
}.

(** What a storage stands for: the path index and the three tables. *)
Record srep (st : Storage) (paths : gmap HashTable.UniqueHash (Z * bool))
    (files : gmap Z FileMeta) (dirs : gmap Z DirectoryMeta) (blocks : gmap Z Block)
    : Prop := mkSrep {
  sr_paths : hrep (hashtable st) paths;
  sr_files : Table.trep (tableFileMeta st) files;
  sr_dirs : Table.trep (tableDirectoryMeta st) dirs;
  sr_blocks : Table.trep (tableBlock st) blocks
}.

Lemma hash_buffer_ok mem n :
  n mod 8 = 0 -> 0 < n < 2 ^ 35 -> index_size n <= alen mem -> buffer_ok (hash_buffer mem n) n.
Proof.
  intros Ha Hn Hlen. unfold index_size in Hlen.
  pose proof (Z.div_pos n 8 ltac:(lia) ltac:(lia)).
  unfold HashTable.HASH_ITEMS_SIZE, HashTable.sizeof_ChainedItem in *.
  change HashTable.sizeof_HashItem with 16 in *. change HashTable.HASH_ITEMS_COUNT with (2 ^ 20) in *.
  split; [done|]. split; [lia|]. cbn [HashTable.buf_bitmap HashTable.buf_items HashTable.buf_heads hash_buffer].
  unfold HashTable.HASH_ITEMS_SIZE. change HashTable.sizeof_HashItem with 16.
  change HashTable.HASH_ITEMS_COUNT with (2 ^ 20). cbn [alen Table.offset_array].
  split; [lia|]. split; apply Z.div_le_lower_bound; unfold HashTable.sizeof_ChainedItem; lia.
Qed.

Lemma hash_buffer_zero mem n : (forall i, aget mem i = 0) -> buffer_empty (hash_buffer mem n).
Proof.
  intros Hz. split; intros i; simpl.
  - by apply le_array_zero.
  - apply Hz.
Qed.

Lemma table_fresh {T} `{!Table.Pod T} address mem off n :
  n mod 8 = 0 -> 0 < n <= 2 ^ 24 -> 0 < Table.sizeof <= 2 ^ 20 -> 0 <= off ->
  off + table_size Table.sizeof n <= alen mem -> (forall i, aget mem i = 0) ->
  exists t : Table.Table T, Table.construct (Some (address, Table.offset_array mem off)) n = Done t /\
    Table.trep t ∅ /\ Table.total t = n /\ Table.itemsAddress t = address /\
    Table.sizeBufferUsed t = table_size Table.sizeof n.
Proof.
  intros Ha Hn Hs Ho Hlen Hz. unfold table_size in *.
  pose proof (Z.div_pos n 8 ltac:(lia) ltac:(lia)).
  assert (n / 8 <= n) by (apply Z.div_le_upper_bound; lia).
  assert (0 <= n * Table.sizeof <= 2 ^ 44) by nia.
  assert (Table.buffer_ok (Table.offset_array mem off) n) as Hok.
  { split; [done|]. split; [lia|]. split; [lia|]. simpl. split; lia. }
  destruct (Table.construct_zeroed address _ n Hok) as (t & Hc & Htot & Hadr & Ht);
    [intros i _; apply Hz|].
  destruct (Table.table_construct_spec address _ n Hok) as (t' & Hc' & _ & _ & _ & _ & _ & _ & Hsz).
  rewrite Hc in Hc'. injection Hc' as <-. by exists t.
Qed.

Lemma storage_fresh base mem baseBlock memBlock countFile countDirectory countBlock nodes :
  sizes_ok mem memBlock countFile countDirectory countBlock -> nodes <> 0 ->
  (forall i, aget mem i = 0) -> (forall i, aget memBlock i = 0) ->
  exists st,
    storage_construct (Some (base, mem)) (Some (baseBlock, memBlock))
      countFile countDirectory countBlock nodes = Done st /\
    srep st ∅ ∅ ∅ ∅ /\ countNode st = nodes /\
    count (hashtable st) = countDirectory + countFile /\
    Table.total (tableFileMeta st) = countFile /\
    Table.total (tableDirectoryMeta st) = countDirectory /\
    Table.total (tableBlock st) = countBlock /\
    (forall a, HashTable.key (aget (HashTable.itemsHash (hashtable st)) a) = 0) /\
    Table.itemsAddress (tableDirectoryMeta st) =
      base + (index_size (countDirectory + countFile) + table_size 344 countFile).
Proof.
  intros [[Haf Hf] [Had Hd] [Hab Hb] Hmem Hmemb] Hnodes Hz Hzb.
  unfold storage_construct.
  rewrite !(proj2 (Z.eqb_neq _ _)) by lia. cbn [orb].
  rewrite (wrap_small 64 (countDirectory + countFile)) by (unfold in_width; lia).
  set (n := countDirectory + countFile) in *.
  assert (n mod 8 = 0) as Han.
  { unfold n. rewrite Z.add_mod, Had, Haf by lia. done. }
  assert (0 <= table_size 344 countFile <= 2 ^ 44 /\ 0 <= table_size 3072 countDirectory <= 2 ^ 44 /\
    0 <= table_size 1048576 countBlock <= 2 ^ 45) as (Hs1 & Hs2 & Hs3).
  { unfold table_size. pose proof (Z.div_pos countFile 8 ltac:(lia) ltac:(lia)).
    pose proof (Z.div_pos countDirectory 8 ltac:(lia) ltac:(lia)).
    pose proof (Z.div_pos countBlock 8 ltac:(lia) ltac:(lia)).
    assert (countFile / 8 <= countFile) by (apply Z.div_le_upper_bound; lia).
    assert (countDirectory / 8 <= countDirectory) by (apply Z.div_le_upper_bound; lia).
    assert (countBlock / 8 <= countBlock) by (apply Z.div_le_upper_bound; lia). lia. }
  assert (0 <= index_size n < 2 ^ 45) as Hidx.
  { unfold index_size, n. change HashTable.HASH_ITEMS_SIZE with (2 ^ 24).
    pose proof (Z.div_pos (countDirectory + countFile) 8 ltac:(lia) ltac:(lia)).
    assert ((countDirectory + countFile) / 8 <= countDirectory + countFile)
      by (apply Z.div_le_upper_bound; lia).
    unfold HashTable.sizeof_ChainedItem. lia. }
  destruct (construct_empty (hash_buffer mem n) n) as (ht & Hc & Hcount & Hr & Hheads);
    [apply hash_buffer_ok; [done|unfold n; lia|lia]|by apply hash_buffer_zero|].
  assert (HashTable.sizeBufferUsed ht = index_size n) as Hused.
  { revert Hc. unfold HashTable.construct. destruct Bitmap.construct; [|done..].
    cbn [mbind run_bind]. destruct Bitmap.set as [[[] ?]| | |]; cbn [fst]; [|done..].
    intros [= <-]. cbn [HashTable.sizeBufferUsed]. fold (index_size n).
    apply wrap_small. unfold in_width. lia. }
  rewrite Hc. unfold mbind at 1, run_bind at 1. rewrite Hused.
  destruct (table_fresh (T := FileMeta) (base + index_size n) mem (index_size n) countFile)
    as (tf & -> & Htf & Htotf & _ & Husedf); try (done || lia);
    [change (@Table.sizeof FileMeta _) with 344; lia..|].
  change (@Table.sizeof FileMeta _) with 344 in Husedf. unfold mbind at 1, run_bind at 1. rewrite Husedf.
  rewrite (wrap_small 64 (index_size n + table_size 344 countFile)) by (unfold in_width; lia).
  destruct (table_fresh (T := DirectoryMeta) (base + (index_size n + table_size 344 countFile)) mem
    (index_size n + table_size 344 countFile) countDirectory)
    as (td & -> & Htd & Htotd & Hadrd & Husedd); try (done || lia);
    [change (@Table.sizeof DirectoryMeta _) with 3072; lia..|].
  unfold mbind at 1, run_bind at 1.
  destruct (table_fresh (T := Block) baseBlock memBlock 0 countBlock)
    as (tb & Htb & Htb' & Htotb & _ & _); try (done || lia);
    [change (@Table.sizeof Block _) with 1048576; lia..|].
  replace (Table.offset_array memBlock 0) with memBlock in Htb.
  2: { unfold Table.offset_array. destruct memBlock as [len f]. simpl. by rewrite Z.sub_0_r. }
  rewrite Htb. simpl mbind.
  eexists. split; [done|]. split; [by split|]. simpl. do 5 (split; [done|]).
  split; [|done]. intros a. rewrite Hheads. simpl. by apply le_array_zero.
Qed.

(** Node numbers run from 1 to the count of nodes. *)
Lemma getNodeHash_range st h :
  0 < countNode st < 2 ^ 64 ->
  exists v, getNodeHash st (Some h) = Done v /\ 1 <= v <= countNode st.
Proof.
  intros Hc. unfold getNodeHash. pose proof (Z.mod_pos_bound (HashTable.value3 h) (countNode st) ltac:(lia)).
  eexists. split; [done|]. rewrite wrap_small; [lia|]. unfold in_width. lia.
Qed.
