(* ===== verification/OctExtent.v ===== *)
(** * Paths and extents of the octopus file system

    Pure parts of src/sys/octopus/src/fs/filesystem.cpp: the split of a path
    into directory and name, and the translation of a range of a file into
    ranges of the block area. *)

From S2P Require Import Prelude.
From S2P Require Import OctBase.
From S2P Require Import OctTable.
From S2P Require Import OctStorage.
Open Scope Z_scope.

(** ** Paths

    A path is the bytes before its terminator; [slash] is ['/']. *)

Definition slash : Z := 47.

(** The loops [for (int i = lengthPath - 1; i >= 0; i--)]: the index of the
    last slash, [n] indices to go. *)
Fixpoint last_slash (n : nat) (path : list Z) : option nat :=
  match n with
  | O => None
  | S n => if byte_at path (Z.of_nat n) =? slash then Some n else last_slash n path
  end.

Definition is_root (path : list Z) : bool :=
  (Z.of_nat (length path) =? 1) && (byte_at path 0 =? slash).

(** The result and the string left in [parent]; [None] is a null pointer. *)
Definition getParentDirectory (path : option (list Z)) (parent : outptr) : bool * option (list Z) :=
  match path, parent with
  | Some path, Out =>
      if is_root path then (false, Some path)
      else
        match last_slash (length path) path with
        | None => (false, Some path)
        | Some i =>
            let cut := take i path in
            match cut with
            | [] => (true, Some [slash])
            | _ => (true, Some cut)
            end
        end
  | _, _ => (false, None)
  end.

Definition getNameFromPath (path : option (list Z)) (name : outptr) : bool * option (list Z) :=
  match path, name with
  | Some path, Out =>
      if is_root path then (false, None)
      else
        match last_slash (length path) path with
        | None => (false, None)
        | Some i => (true, Some (drop (i + 1) path))
        end
  | _, _ => (false, None)
  end.

Lemma byte_at_app l x r : byte_at (l ++ x :: r) (Z.of_nat (length l)) = x.
Proof.
  unfold byte_at. rewrite Nat2Z.id, lookup_app_r, Nat.sub_diag by lia. done.
Qed.

Lemma last_slash_app dir name : forall n,
  slash ∉ name -> (n <= length name)%nat ->
  last_slash (S (length dir) + n) (dir ++ slash :: name) = Some (length dir).
Proof.
  induction n as [|n IH]; intros Hn Hlen.
  - rewrite Nat.add_0_r. cbn [last_slash]. by rewrite byte_at_app, Z.eqb_refl.
  - rewrite Nat.add_succ_r. cbn [last_slash]. rewrite IH by (done || lia).
    destruct (Z.eqb_spec (byte_at (dir ++ slash :: name) (Z.of_nat (S (length dir) + n))) slash)
      as [He|]; [|done].
    exfalso. apply Hn. unfold byte_at in He.
    rewrite Nat2Z.id, lookup_app_r in He by lia.
    replace (S (length dir) + n - length dir)%nat with (S n) in He by lia. simpl in He.
    destruct (name !! n) as [x|] eqn:Hx; [|done]. simpl in He. subst x.
    by eapply list_elem_of_lookup_2.
Qed.

(** Putting a directory and a name together. *)
Definition join (dir name : list Z) : list Z :=
  if decide (dir = [slash]) then slash :: name else dir ++ slash :: name.

Definition is_dir (dir : list Z) : Prop := dir = [slash] \/ (dir <> [] /\ dir <> [slash]).

Lemma split_spec prefix name :
  slash ∉ name -> (prefix <> [] \/ name <> []) ->
  getNameFromPath (Some (prefix ++ slash :: name)) Out = (true, Some name) /\
  getParentDirectory (Some (prefix ++ slash :: name)) Out =
    (true, Some (if decide (prefix = []) then [slash] else prefix)).
Proof.
  intros Hn Hne. unfold getNameFromPath, getParentDirectory.
  assert (is_root (prefix ++ slash :: name) = false) as ->.
  { unfold is_root. rewrite length_app. simpl length.
    destruct prefix as [|x prefix]; simpl length; [|by rewrite (proj2 (Z.eqb_neq _ _)) by lia].
    destruct name as [|y name]; [by destruct Hne|].
    simpl length. by rewrite (proj2 (Z.eqb_neq _ _)) by lia. }
  rewrite length_app. simpl length. rewrite <- Nat.add_succ_comm.
  rewrite last_slash_app by done.
  rewrite take_app_length. split.
  - do 2 f_equal. rewrite <- Nat.add_1_r. rewrite drop_app_add. done.
  - by destruct prefix.
Qed.

(** Splitting a path and joining it again. For a directory and a name
    without a slash, the path of the name in the directory splits into that
    name and that directory, the root being ["/"]; so different directories
    or names have different paths. *)
Theorem path_roundtrip dir name :
  is_dir dir -> name <> [] -> slash ∉ name ->
  getParentDirectory (Some (join dir name)) Out = (true, Some dir) /\
  getNameFromPath (Some (join dir name)) Out = (true, Some name).
Proof.
  intros Hd Hne Hn. unfold join. destruct (decide (dir = [slash])) as [->|Hroot].
  - destruct (split_spec [] name Hn (or_intror Hne)) as [H1 H2]. done.
  - destruct Hd as [->|[Hd0 _]]; [done|].
    destruct (split_spec dir name Hn (or_introl Hd0)) as [H1 H2].
    by rewrite decide_False in H2.
Qed.

Lemma path_roundtrip_witness :
  getParentDirectory (Some (join [47; 97] [98; 99])) Out = (true, Some [47; 97]) /\
  getNameFromPath (Some (join [47; 97] [98; 99])) Out = (true, Some [98; 99]).
Proof.
  apply (path_roundtrip [47; 97] [98; 99]); [by right|done|].
  apply (bool_decide_unpack _). vm_compute. exact I.
Defined.

(** ** Ranges of a file *)

Record file_pos_tuple : Type := mkPos { node_id : Z; pos_offset : Z; pos_size : Z }.
Record file_pos_info : Type := mkFpi { fpi_len : Z; fpi_tuple : list file_pos_tuple }.

(** [countExtentBlock * BLOCK_SIZE] and [indexExtentStartBlock * BLOCK_SIZE]
    are products of a [uint32_t] and an [int]: 32 bits. *)
Definition extent_bytes (e : FileMetaTuple) : Z := u32 (countExtentBlock e * BLOCK_SIZE).
Definition extent_start (e : FileMetaTuple) : Z := u32 (indexExtentStartBlock e * BLOCK_SIZE).

(** The loops that look for the extent with a byte: its index and the offset
    of its first byte in the file. Without one the variables of the source
    stay unset, and their use is undefined. *)
Fixpoint find_extent (fuel : nat) (meta : FileMeta) (target start i : Z) : run (Z * Z) :=
  match fuel with
  | O => Undef
  | S fuel =>
      if i <? fm_count meta then
        e ← list_index (fm_tuple meta) i;
        if target <=? u64 (start + extent_bytes e - 1) then Done (i, start)
        else find_extent fuel meta target (u64 (start + extent_bytes e)) (i + 1)
      else Undef
  end.

(** The loop over the extents between the first and the last one. *)
Fixpoint fill_middle (n : nat) (meta : FileMeta) (first i : Z) (tuples : list file_pos_tuple)
    : run (list file_pos_tuple) :=
  match n with
  | O => Done tuples
  | S n =>
      e ← list_index (fm_tuple meta) (first + i);
      tuples ← list_store tuples i (mkPos (u16 (hashNode e)) (extent_start e) (extent_bytes e));
      fill_middle n meta first (i + 1) tuples
  end.

Definition fillFilePositionInformation (size offset : Z) (fpi : file_pos_info) (meta : FileMeta)
    : run file_pos_info :=
  let offsetEnd := u64 (size + offset - 1) in
  s ← find_extent (S (length (fm_tuple meta))) meta offset 0 0;
  e ← find_extent (S (length (fm_tuple meta))) meta offsetEnd 0 0;
  es ← list_index (fm_tuple meta) s.1;
  let offsetInStartExtent := u64 (offset - s.2) in
  let sizeInStartExtent := u64 (extent_bytes es - offsetInStartExtent) in
  let sizeInEndExtent := u64 (u64 (offsetEnd - e.2) + 1) in
  let startOffset := u64 (extent_start es + offsetInStartExtent) in
  if s.1 =? e.1 then
    tuples ← list_store (fpi_tuple fpi) 0 (mkPos (u16 (hashNode es)) startOffset size);
    Done (mkFpi 1 tuples)
  else
    let len := u32 (e.1 - s.1 + 1) in
    tuples ← list_store (fpi_tuple fpi) 0 (mkPos (u16 (hashNode es)) startOffset sizeInStartExtent);
    tuples ← fill_middle (Z.to_nat (Table.s32 len - 2)) meta s.1 1 tuples;
    ee ← list_index (fm_tuple meta) e.1;
    tuples ← list_store tuples (len - 1) (mkPos (u16 (hashNode ee)) 0 sizeInEndExtent);
    Done (mkFpi len tuples).

(** ** Where the bytes of a file are *)

(** Byte [k] of a file: its node and its offset in the block area. *)
Fixpoint locate (es : list FileMetaTuple) (k : Z) : option (Z * Z) :=
  match es with
  | [] => None
  | e :: es =>
      if k <? countExtentBlock e * BLOCK_SIZE
      then Some (hashNode e, indexExtentStartBlock e * BLOCK_SIZE + k)
      else locate es (k - countExtentBlock e * BLOCK_SIZE)
  end.

Definition pos_bytes (t : file_pos_tuple) : list (Z * Z) :=
  map (fun j => (node_id t, pos_offset t + j)) (seqZ 0 (pos_size t)).

(** The bytes that position information names, in order. *)
Definition fpi_bytes (f : file_pos_info) : list (Z * Z) :=
  concat (map pos_bytes (take (Z.to_nat (fpi_len f)) (fpi_tuple f))).

(** Extents that the 32-bit products can express: files up to 4095 blocks per
    extent, in the first 4096 blocks of the area. *)
Definition extent_ok (e : FileMetaTuple) : Prop :=
  0 < countExtentBlock e < 4096 /\ 0 <= indexExtentStartBlock e < 4096 /\ 0 <= hashNode e < 2 ^ 16.

Definition bytes_of (es : list FileMetaTuple) : Z :=
  foldr (fun e n => countExtentBlock e * BLOCK_SIZE + n) 0 es.

Lemma extent_bytes_ok e : extent_ok e -> extent_bytes e = countExtentBlock e * BLOCK_SIZE.
Proof.
  intros (H & _). unfold extent_bytes. apply wrap_small. unfold in_width, BLOCK_SIZE. lia.
Qed.

Lemma extent_start_ok e : extent_ok e -> extent_start e = indexExtentStartBlock e * BLOCK_SIZE.
Proof.
  intros (_ & H & _). unfold extent_start. apply wrap_small. unfold in_width, BLOCK_SIZE. lia.
Qed.

Lemma bytes_of_app l1 l2 : bytes_of (l1 ++ l2) = bytes_of l1 + bytes_of l2.
Proof. induction l1 as [|e l1 IH]; simpl; lia. Qed.

Lemma bytes_of_nonneg l : Forall extent_ok l -> 0 <= bytes_of l.
Proof.
  induction 1 as [|e l (He & _) _ IH]; simpl; [lia|]. unfold BLOCK_SIZE in *. lia.
Qed.

Lemma bytes_of_bound l : Forall extent_ok l -> bytes_of l <= Z.of_nat (length l) * 2 ^ 32.
Proof.
  induction 1 as [|e l (He & _) _ IH]; simpl; [lia|]. unfold BLOCK_SIZE in *. lia.
Qed.

(** A file meta with its extents. *)
Definition has_extents (meta : FileMeta) (es : list FileMetaTuple) : Prop :=
  fm_count meta = Z.of_nat (length es) /\ (exists rest, fm_tuple meta = es ++ rest) /\
  Forall extent_ok es /\ (length es <= 20)%nat.

Lemma has_extents_at meta l1 e l2 :
  has_extents meta (l1 ++ e :: l2) ->
  list_index (fm_tuple meta) (Z.of_nat (length l1)) = Done e /\
  Z.of_nat (length l1) < fm_count meta.
Proof.
  intros (Hc & (rest & Ht) & _ & _). split.
  - apply list_index_Done; [lia|]. rewrite Nat2Z.id, Ht, <- app_assoc. simpl.
    by rewrite lookup_app_r, Nat.sub_diag by lia.
  - rewrite Hc, length_app. simpl. lia.
Qed.

Lemma has_extents_bounds meta l0 e l2 :
  has_extents meta (l0 ++ e :: l2) ->
  extent_ok e /\ 0 < countExtentBlock e * BLOCK_SIZE /\ 0 <= bytes_of l0 /\
  bytes_of l0 + countExtentBlock e * BLOCK_SIZE <= 20 * 2 ^ 32.
Proof.
  intros (_ & _ & Hok & Hlen). pose proof (bytes_of_bound _ Hok) as Hb.
  rewrite bytes_of_app in Hb. simpl in Hb.
  apply Forall_app in Hok as [Hok0 [He Hok2]%Forall_cons].
  pose proof (bytes_of_nonneg l0 Hok0). pose proof (bytes_of_nonneg l2 Hok2).
  split; [done|]. destruct He as (He & _). unfold BLOCK_SIZE in *. lia.
Qed.

Lemma find_extent_spec meta e l2 j k : forall l1 l0 fuel,
  has_extents meta (l0 ++ l1 ++ e :: l2) ->
  0 <= j < countExtentBlock e * BLOCK_SIZE -> k = bytes_of (l0 ++ l1) + j ->
  (length l1 < fuel)%nat ->
  find_extent fuel meta k (bytes_of l0) (Z.of_nat (length l0)) =
  Done (Z.of_nat (length (l0 ++ l1)), bytes_of (l0 ++ l1)).
Proof.
  induction l1 as [|x l1 IH]; intros l0 [|fuel] Hm Hj Hk Hf; simpl in Hf; try lia;
    cbn [find_extent].
  - rewrite app_nil_l in Hm. rewrite app_nil_r in Hk |- *.
    destruct (has_extents_at meta l0 e l2 Hm) as [Hi Hlt].
    destruct (has_extents_bounds meta l0 e l2 Hm) as (He & Hpos & H0 & Hb).
    rewrite (proj2 (Z.ltb_lt _ _) Hlt), Hi. simpl mbind.
    rewrite extent_bytes_ok, wrap_small by (done || (unfold in_width; lia)).
    by rewrite (proj2 (Z.leb_le _ _)) by lia.
  - simpl in Hm. destruct (has_extents_at meta l0 x (l1 ++ e :: l2) Hm) as [Hi Hlt].
    destruct (has_extents_bounds meta l0 x (l1 ++ e :: l2) Hm) as (Hx & Hpos & H0 & Hb).
    assert (has_extents meta ((l0 ++ [x]) ++ l1 ++ e :: l2)) as Hm' by by rewrite <- app_assoc.
    assert (l0 ++ x :: l1 = (l0 ++ [x]) ++ l1) as Happ by by rewrite <- app_assoc.
    rewrite Happ in Hk |- *.
    assert (bytes_of (l0 ++ [x]) = bytes_of l0 + countExtentBlock x * BLOCK_SIZE) as Hbx
      by (rewrite bytes_of_app; simpl; lia).
    assert (0 <= bytes_of l1).
    { destruct Hm as (_ & _ & Hok & _). apply Forall_app in Hok as [_ [_ Hok]%Forall_cons].
      apply Forall_app in Hok as [Hok _]. by apply bytes_of_nonneg. }
    rewrite bytes_of_app in Hk.
    rewrite (proj2 (Z.ltb_lt _ _) Hlt), Hi. simpl mbind.
    rewrite extent_bytes_ok, !wrap_small by (done || (unfold in_width; lia)).
    rewrite (proj2 (Z.leb_gt _ _)) by lia. rewrite <- Hbx.
    replace (Z.of_nat (length l0) + 1) with (Z.of_nat (length (l0 ++ [x])))
      by (rewrite length_app; simpl; lia).
    apply IH; [done|done| |lia]. rewrite bytes_of_app. lia.
Qed.

(** ** The tuples that are filled in *)

Definition full_pos (e : FileMetaTuple) : file_pos_tuple :=
  mkPos (hashNode e) (indexExtentStartBlock e * BLOCK_SIZE) (countExtentBlock e * BLOCK_SIZE).

Lemma node_id_ok e : extent_ok e -> u16 (hashNode e) = hashNode e.
Proof. intros (_ & _ & H). by apply wrap_small. Qed.

Lemma fill_middle_spec meta l2 mid : forall l1 done_ old,
  has_extents meta (l1 ++ mid ++ l2) -> (length done_ <= length l1)%nat ->
  (length mid <= length old)%nat ->
  fill_middle (length mid) meta (Z.of_nat (length l1) - Z.of_nat (length done_))
    (Z.of_nat (length done_)) (done_ ++ old) =
  Done (done_ ++ map full_pos mid ++ drop (length mid) old).
Proof.
  induction mid as [|e mid IH]; intros l1 done_ old Hm Hd Hlen; [done|].
  cbn [length fill_middle]. simpl in Hm.
  destruct (has_extents_at meta l1 e (mid ++ l2) Hm) as [Hi _].
  destruct (has_extents_bounds meta l1 e (mid ++ l2) Hm) as (He & _).
  replace (Z.of_nat (length l1) - Z.of_nat (length done_) + Z.of_nat (length done_))
    with (Z.of_nat (length l1)) by lia.
  rewrite Hi. simpl mbind. destruct old as [|o old]; simpl in Hlen; [lia|].
  rewrite list_store_Done by (rewrite length_app; simpl; lia). simpl mbind.
  rewrite Nat2Z.id, insert_app_r_alt, Nat.sub_diag by lia. simpl.
  rewrite node_id_ok, extent_start_ok, extent_bytes_ok by done. fold (full_pos e).
  specialize (IH (l1 ++ [e]) (done_ ++ [full_pos e]) old).
  rewrite <- !app_assoc in IH. simpl in IH. rewrite !length_app in IH. simpl in IH.
  replace (Z.of_nat (length l1) - Z.of_nat (length done_))
    with (Z.of_nat (length l1 + 1) - Z.of_nat (length done_ + 1)) by lia.
  replace (Z.of_nat (length done_) + 1) with (Z.of_nat (length done_ + 1)) by lia.
  rewrite IH by (done || lia). done.
Qed.

(** A range inside one extent. *)
Lemma fill_one meta l1 e l2 size j fpi :
  has_extents meta (l1 ++ e :: l2) -> (0 < length (fpi_tuple fpi))%nat ->
  0 <= j -> 0 < size -> j + size <= countExtentBlock e * BLOCK_SIZE ->
  fillFilePositionInformation size (bytes_of l1 + j) fpi meta =
  Done (mkFpi 1 (mkPos (hashNode e) (indexExtentStartBlock e * BLOCK_SIZE + j) size
                 :: tail (fpi_tuple fpi))).
Proof.
  intros Hm Hfpi Hj Hs Hend. unfold fillFilePositionInformation.
  destruct (has_extents_bounds meta l1 e l2 Hm) as (He & Hpos & H0 & Hb).
  assert (length l1 < S (length (fm_tuple meta)))%nat as Hfuel.
  { destruct Hm as (_ & (rest & ->) & _). rewrite !length_app. lia. }
  pose proof (find_extent_spec meta e l2 j (bytes_of l1 + j) l1 []
    (S (length (fm_tuple meta))) Hm ltac:(lia) eq_refl Hfuel) as Hf1.
  pose proof (find_extent_spec meta e l2 (j + size - 1) (size + (bytes_of l1 + j) - 1) l1 []
    (S (length (fm_tuple meta))) Hm ltac:(lia) ltac:(simpl; lia) Hfuel) as Hf2.
  change (bytes_of []) with 0 in *. simpl app in *. simpl length in Hf1, Hf2.
  rewrite (wrap_small 64 (size + (bytes_of l1 + j) - 1)) by (unfold in_width; lia).
  change (Z.of_nat 0) with 0 in *. rewrite Hf1, Hf2. simpl mbind.
  rewrite (proj1 (has_extents_at meta l1 e l2 Hm)). simpl mbind. rewrite Z.eqb_refl.
  rewrite list_store_Done by (simpl; lia). simpl mbind.
  destruct (fpi_tuple fpi) as [|o old]; simpl in Hfpi; [lia|]. simpl.
  rewrite node_id_ok, extent_start_ok by done.
  replace (bytes_of l1 + j - bytes_of l1) with j by lia.
  destruct He as (? & ? & _). unfold BLOCK_SIZE in *.
  rewrite (wrap_small 64 j) by (unfold in_width; lia).
  by rewrite wrap_small by (unfold in_width; lia).
Qed.

Lemma u64_id x : 0 <= x < 2 ^ 60 -> u64 x = x.
Proof. intros H. apply wrap_small. unfold in_width. lia. Qed.

(** The two searches for a range over several extents. *)
Lemma find_several meta l1 es mid ee l2 size js je :
  has_extents meta (l1 ++ es :: mid ++ ee :: l2) ->
  0 <= js < countExtentBlock es * BLOCK_SIZE -> 0 <= je < countExtentBlock ee * BLOCK_SIZE ->
  size = countExtentBlock es * BLOCK_SIZE - js + bytes_of mid + je + 1 ->
  let fuel := S (length (fm_tuple meta)) in
  let last := bytes_of l1 + countExtentBlock es * BLOCK_SIZE + bytes_of mid in
  find_extent fuel meta (bytes_of l1 + js) 0 0 = Done (Z.of_nat (length l1), bytes_of l1) /\
  u64 (size + (bytes_of l1 + js) - 1) = last + je /\
  find_extent fuel meta (last + je) 0 0 = Done (Z.of_nat (length l1 + S (length mid)), last) /\
  0 <= last /\ last + je < 2 ^ 40.
Proof.
  intros Hm Hjs Hje Hsize fuel last.
  destruct (has_extents_bounds meta l1 es (mid ++ ee :: l2) Hm) as (Hes & Hpos & H0 & Hb).
  assert (has_extents meta ((l1 ++ es :: mid) ++ ee :: l2)) as Hm' by by rewrite <- app_assoc.
  destruct (has_extents_bounds meta (l1 ++ es :: mid) ee l2 Hm') as (Hee & Hpos' & H0' & Hb').
  assert (bytes_of (l1 ++ es :: mid) = last) as Hlast
    by (rewrite bytes_of_app; simpl; unfold last; lia).
  assert (length l1 < fuel /\ length (l1 ++ es :: mid) < fuel)%nat as [Hfuel Hfuel'].
  { unfold fuel. destruct Hm as (_ & (rest & ->) & _).
    rewrite !length_app. simpl. rewrite length_app. simpl. lia. }
  pose proof (find_extent_spec meta es (mid ++ ee :: l2) js _ l1 [] fuel Hm Hjs eq_refl Hfuel) as Hf1.
  pose proof (find_extent_spec meta ee l2 je _ (l1 ++ es :: mid) [] fuel Hm' Hje eq_refl Hfuel') as Hf2.
  simpl app in Hf1, Hf2. rewrite Hlast in *. rewrite length_app in Hf2.
  split; [exact Hf1|]. split; [|split; [exact Hf2|lia]].
  replace (size + (bytes_of l1 + js) - 1) with (last + je) by (unfold last; lia).
  apply u64_id. lia.
Qed.

(** A range over several extents: the last tuple starts at offset 0. *)
Lemma fill_several meta l1 es mid ee l2 size js je fpi :
  has_extents meta (l1 ++ es :: mid ++ ee :: l2) -> (length mid + 2 <= length (fpi_tuple fpi))%nat ->
  0 <= js < countExtentBlock es * BLOCK_SIZE -> 0 <= je < countExtentBlock ee * BLOCK_SIZE ->
  size = countExtentBlock es * BLOCK_SIZE - js + bytes_of mid + je + 1 ->
  fillFilePositionInformation size (bytes_of l1 + js) fpi meta =
  Done (mkFpi (Z.of_nat (length mid) + 2)
    (mkPos (hashNode es) (indexExtentStartBlock es * BLOCK_SIZE + js)
       (countExtentBlock es * BLOCK_SIZE - js)
     :: map full_pos mid ++ mkPos (hashNode ee) 0 (je + 1)
     :: drop (length mid + 2) (fpi_tuple fpi))).
Proof.
  intros Hm Hfpi Hjs Hje Hsize.
  destruct (find_several meta l1 es mid ee l2 size js je Hm Hjs Hje Hsize)
    as (Hf1 & Hend & Hf2 & Hl0 & Hl1).
  destruct (has_extents_bounds meta l1 es (mid ++ ee :: l2) Hm) as (Hes & Hpos & H0 & Hb).
  assert (has_extents meta ((l1 ++ es :: mid) ++ ee :: l2)) as Hm' by by rewrite <- app_assoc.
  destruct (has_extents_bounds meta (l1 ++ es :: mid) ee l2 Hm') as (Hee & _).
  pose proof (proj1 (has_extents_at meta (l1 ++ es :: mid) ee l2 Hm')) as Hie.
  rewrite length_app in Hie. cbn [length] in Hie.
  assert (length l1 + length mid + 2 <= 20)%nat as Hlen20.
  { destruct Hm as (_ & _ & _ & Hl). rewrite !length_app in Hl. simpl in Hl.
    rewrite length_app in Hl. simpl in Hl. lia. }
  assert (0 <= indexExtentStartBlock es * BLOCK_SIZE < 2 ^ 32) as Hstart
    by (destruct Hes as (_ & ? & _); unfold BLOCK_SIZE; lia).
  set (last := bytes_of l1 + countExtentBlock es * BLOCK_SIZE + bytes_of mid) in *.
  set (first := mkPos (hashNode es) (indexExtentStartBlock es * BLOCK_SIZE + js)
    (countExtentBlock es * BLOCK_SIZE - js)).
  unfold fillFilePositionInformation. cbv zeta.
  rewrite Hend, Hf1, Hf2. cbn [mbind run_bind fst snd].
  rewrite (proj1 (has_extents_at meta l1 es _ Hm)). cbn [mbind run_bind].
  rewrite (proj2 (Z.eqb_neq _ _)) by lia.
  rewrite list_store_Done by lia. cbn [mbind run_bind].
  replace (Z.of_nat (length l1 + S (length mid)) - Z.of_nat (length l1) + 1)
    with (Z.of_nat (length mid) + 2) by lia.
  rewrite (wrap_small 32 (Z.of_nat (length mid) + 2)) by (unfold in_width; lia).
  assert (Table.s32 (Z.of_nat (length mid) + 2) = Z.of_nat (length mid) + 2) as ->.
  { unfold Table.s32. rewrite wrap_small by (unfold in_width; lia).
    by rewrite (proj2 (Z.ltb_lt _ _)) by lia. }
  replace (Z.of_nat (length mid) + 2 - 2) with (Z.of_nat (length mid)) by lia. rewrite Nat2Z.id.
  rewrite node_id_ok, extent_start_ok, extent_bytes_ok by done.
  replace (bytes_of l1 + js - bytes_of l1) with js by lia.
  replace (last + je - last) with je by lia.
  rewrite (u64_id js), (u64_id je), (u64_id (je + 1)),
    (u64_id (countExtentBlock es * BLOCK_SIZE - js)),
    (u64_id (indexExtentStartBlock es * BLOCK_SIZE + js)) by lia.
  destruct (fpi_tuple fpi) as [|o old]; simpl in Hfpi; [lia|].
  pose proof (fill_middle_spec meta (ee :: l2) mid (l1 ++ [es]) [first] old) as Hmid.
  rewrite <- app_assoc, length_app in Hmid. cbn [length app] in Hmid.
  replace (Z.of_nat (length l1 + 1) - Z.of_nat 1) with (Z.of_nat (length l1)) in Hmid by lia.
  change (Z.of_nat 1) with 1 in Hmid.
  change (<[Z.to_nat 0:= _]> (o :: old)) with (first :: old).
  rewrite Hmid by (done || lia). cbn [mbind run_bind]. rewrite Hie. cbn [mbind run_bind].
  rewrite node_id_ok by done.
  rewrite list_store_Done.
  2: { simpl length. rewrite length_app, length_map, length_drop. lia. }
  cbn [mbind run_bind]. do 2 f_equal.
  replace (Z.to_nat (Z.of_nat (length mid) + 2 - 1)) with (S (length mid)) by lia. simpl. f_equal.
  rewrite insert_app_r_alt by (rewrite length_map; lia). rewrite length_map, Nat.sub_diag. f_equal.
  replace (length mid + 2)%nat with (S (S (length mid))) by lia. simpl.
  rewrite (drop_S old (default first (old !! length mid)) (length mid)); [done|].
  destruct (lookup_lt_is_Some_2 old (length mid)) as [x ->]; [lia|done].
Qed.

(** ** Theorems on position information *)

Lemma locate_skip l1 l2 k :
  Forall extent_ok l1 -> 0 <= k -> locate (l1 ++ l2) (bytes_of l1 + k) = locate l2 k.
Proof.
  intros Hok Hk. induction Hok as [|e l1 (He & _) Hok IH]; simpl; [done|].
  pose proof (bytes_of_nonneg l1 Hok).
  rewrite (proj2 (Z.ltb_ge _ _)) by lia. rewrite <- IH. f_equal. lia.
Qed.

(** Consecutive bytes of one extent. *)
Lemma locate_segment l1 e l2 j n :
  Forall extent_ok l1 -> 0 <= j -> j + n <= countExtentBlock e * BLOCK_SIZE ->
  map (locate (l1 ++ e :: l2)) (seqZ (bytes_of l1 + j) n) =
  map Some (pos_bytes (mkPos (hashNode e) (indexExtentStartBlock e * BLOCK_SIZE + j) n)).
Proof.
  intros Hok Hj Hn. unfold pos_bytes. simpl. rewrite map_map.
  rewrite <- (Z.add_0_r (bytes_of l1 + j)), <- fmap_add_seqZ. change (fmap (Z.add ?x)) with (map (Z.add x)).
  rewrite map_map. apply map_ext_in. intros k Hk%list_elem_of_In%elem_of_seqZ.
  rewrite <- Z.add_assoc, locate_skip by (done || lia). simpl.
  rewrite (proj2 (Z.ltb_lt _ _)) by lia. do 2 f_equal. lia.
Qed.

(** Consecutive whole extents. *)
Lemma locate_full mid l2 : forall l1,
  Forall extent_ok (l1 ++ mid) ->
  map (locate (l1 ++ mid ++ l2)) (seqZ (bytes_of l1) (bytes_of mid)) =
  map Some (concat (map pos_bytes (map full_pos mid))).
Proof.
  induction mid as [|e mid IH]; intros l1 Hok; [done|]. simpl.
  pose proof Hok as [Hok1 [He Hokm]%Forall_cons]%Forall_app.
  pose proof (bytes_of_nonneg mid Hokm).
  assert (0 <= countExtentBlock e * BLOCK_SIZE) by (destruct He; unfold BLOCK_SIZE; lia).
  rewrite seqZ_app, !map_app by lia. f_equal.
  - rewrite <- (Z.add_0_r (bytes_of l1)), locate_segment by (done || lia).
    unfold full_pos. by rewrite Z.add_0_r.
  - rewrite <- (IH (l1 ++ [e])) by by rewrite <- app_assoc.
    rewrite bytes_of_app, <- app_assoc. simpl. by rewrite Z.add_0_r.
Qed.

(** C34: A range inside one extent is translated to where its bytes are: the
    position information that [fillFilePositionInformation] computes names,
    in order, the node and the place in the block area of every byte of the
    range, and nothing else. This holds for files whose extents have fewer
    than 4096 blocks and lie in the first 4096 blocks (4 GB) of the area,
    since the products with the block size are computed in 32 bits. *)
Theorem range_in_one_extent meta l1 e l2 size j fpi :
  has_extents meta (l1 ++ e :: l2) -> (0 < length (fpi_tuple fpi))%nat ->
  0 <= j -> 0 < size -> j + size <= countExtentBlock e * BLOCK_SIZE ->
  exists f, fillFilePositionInformation size (bytes_of l1 + j) fpi meta = Done f /\
    map Some (fpi_bytes f) = map (locate (l1 ++ e :: l2)) (seqZ (bytes_of l1 + j) size).
Proof.
  intros Hm Hfpi Hj Hs Hend.
  pose proof (fill_one meta l1 e l2 size j fpi Hm Hfpi Hj Hs Hend) as Hfill.
  eexists. split; [exact Hfill|]. unfold fpi_bytes. simpl. rewrite app_nil_r.
  rewrite locate_segment; [done| |done|done].
  destruct Hm as (_ & _ & Hok & _). by apply Forall_app in Hok as [? _].
Qed.

(** A range over several extents is misplaced at its end. The bytes up to
    the last extent are translated correctly; the [je + 1] bytes in the last
    extent are named at offsets 0, 1, ... of the block area, while they are
    at the start block of that extent: unless it is block 0, a write to such a
    range lands in another file. *)
Theorem last_extent_misplaced meta l1 es mid ee l2 size js je fpi :
  has_extents meta (l1 ++ es :: mid ++ ee :: l2) -> (length mid + 2 <= length (fpi_tuple fpi))%nat ->
  0 <= js < countExtentBlock es * BLOCK_SIZE -> 0 <= je < countExtentBlock ee * BLOCK_SIZE ->
  size = countExtentBlock es * BLOCK_SIZE - js + bytes_of mid + je + 1 ->
  let n := size - (je + 1) in
  exists f good, fillFilePositionInformation size (bytes_of l1 + js) fpi meta = Done f /\
    fpi_bytes f = good ++ map (fun j => (hashNode ee, j)) (seqZ 0 (je + 1)) /\
    map Some good = map (locate (l1 ++ es :: mid ++ ee :: l2)) (seqZ (bytes_of l1 + js) n) /\
    (forall j, 0 <= j <= je ->
       locate (l1 ++ es :: mid ++ ee :: l2) (bytes_of l1 + js + n + j) =
       Some (hashNode ee, indexExtentStartBlock ee * BLOCK_SIZE + j)).
Proof.
  intros Hm Hfpi Hjs Hje Hsize n.
  pose proof (fill_several meta l1 es mid ee l2 size js je fpi Hm Hfpi Hjs Hje Hsize) as Hfill.
  assert (Forall extent_ok (l1 ++ es :: mid)) as Hok.
  { destruct Hm as (_ & _ & Hok & _). apply Forall_app in Hok as [H1 [H2 H3]%Forall_cons].
    apply Forall_app in H3 as [H3 _]. apply Forall_app. split; [done|]. by constructor. }
  pose proof Hok as [Hok1 [_ Hokm]%Forall_cons]%Forall_app.
  pose proof (bytes_of_nonneg mid Hokm).
  eexists. exists (pos_bytes (mkPos (hashNode es) (indexExtentStartBlock es * BLOCK_SIZE + js)
    (countExtentBlock es * BLOCK_SIZE - js)) ++ concat (map pos_bytes (map full_pos mid))).
  split; [exact Hfill|]. split; [|split].
  - unfold fpi_bytes. cbn [fpi_len fpi_tuple].
    replace (Z.to_nat (Z.of_nat (length mid) + 2)) with (S (length (map full_pos mid) + 1))
      by (rewrite length_map; lia).
    cbn [take]. rewrite take_app_add. cbn [take map concat]. rewrite map_app, concat_app.
    simpl. rewrite app_nil_r. rewrite <- app_assoc. done.
  - replace n with ((countExtentBlock es * BLOCK_SIZE - js) + bytes_of mid) by (unfold n; lia).
    rewrite seqZ_app, !map_app by lia. f_equal.
    + by rewrite locate_segment by (done || lia).
    + replace (bytes_of l1 + js + (countExtentBlock es * BLOCK_SIZE - js))
        with (bytes_of (l1 ++ [es])) by (rewrite bytes_of_app; simpl; lia).
      rewrite <- (locate_full mid (ee :: l2) (l1 ++ [es])) by by rewrite <- app_assoc.
      by rewrite <- app_assoc.
  - intros j Hj. replace (bytes_of l1 + js + n + j) with (bytes_of (l1 ++ es :: mid) + j)
      by (rewrite bytes_of_app; simpl; unfold n; lia).
    replace (l1 ++ es :: mid ++ ee :: l2) with ((l1 ++ es :: mid) ++ ee :: l2) by by rewrite <- app_assoc.
    rewrite locate_skip by (done || lia). simpl. by rewrite (proj2 (Z.ltb_lt _ _)) by lia.
Qed.

(** A file of two extents, blocks 5 and 9. *)
Definition two_extents : FileMeta :=
  mkFileMeta 0 2 (2 * BLOCK_SIZE)
    (mkExtent 1 5 1 :: mkExtent 1 9 1 :: replicate 18 (mkExtent 0 0 0)).
Definition empty_fpi : file_pos_info := mkFpi 0 (replicate 10 (mkPos 0 0 0)).

Lemma two_extents_ok : has_extents two_extents [mkExtent 1 5 1; mkExtent 1 9 1].
Proof.
  split; [reflexivity|]. split; [by eexists|]. split; [|simpl; lia].
  repeat constructor; simpl; lia.
Qed.

Lemma range_in_one_extent_witness :
  exists f, fillFilePositionInformation 3 7 empty_fpi two_extents = Done f /\
    map Some (fpi_bytes f) =
    map (locate [mkExtent 1 5 1; mkExtent 1 9 1]) (seqZ 7 3).
Proof.
  apply (range_in_one_extent two_extents [] (mkExtent 1 5 1) [mkExtent 1 9 1] 3 7 empty_fpi
    two_extents_ok); [simpl; lia|lia|lia|]. unfold BLOCK_SIZE. simpl. lia.
Defined.

Lemma last_extent_misplaced_witness :
  exists f good,
    fillFilePositionInformation 3 (BLOCK_SIZE - 2) empty_fpi two_extents = Done f /\
    fpi_bytes f = good ++ [(1, 0)] /\
    map Some good = map (locate [mkExtent 1 5 1; mkExtent 1 9 1]) (seqZ (BLOCK_SIZE - 2) 2) /\
    (forall j, 0 <= j <= 0 ->
       locate [mkExtent 1 5 1; mkExtent 1 9 1] (BLOCK_SIZE - 2 + 2 + j) =
       Some (1, 9 * BLOCK_SIZE + j)).
Proof.
  apply (last_extent_misplaced two_extents [] (mkExtent 1 5 1) [] (mkExtent 1 9 1) [] 3
    (BLOCK_SIZE - 2) 0 empty_fpi two_extents_ok);
    [simpl; lia|unfold BLOCK_SIZE; simpl; lia|unfold BLOCK_SIZE; simpl; lia|reflexivity].
Defined.
