(* ===== verification/OctFileSystem.v ===== *)
(** * File system operations of octopus (src/sys/octopus/src/fs/filesystem.cpp)

    Every server of the cluster has a storage, a transaction log and the lock
    words inside the buckets of its path index. A path belongs to the server
    that its digest names; an operation runs on that server and reaches the
    server of the parent directory by a remote call or by writing into its
    memory. The model runs one operation at a time: a lock word that is taken
    is never released by somebody else, so an operation that waits for it is
    [Blocked]; OctLock.v is about concurrent operations. *)

From S2P Require Import Prelude.
From S2P Require Import OctBase.
From S2P Require Import OctBitmap.
From S2P Require Import OctTable.
From S2P Require Import OctHashTable.
From S2P Require Import OctHashProps.
From S2P Require Import OctLock.
From S2P Require Import OctTx.
From S2P Require Import OctStorage.
From S2P Require Import OctExtent.
Open Scope Z_scope.

Module FileSystem.

(** ** State *)

(** A server: its storage, its log, the key counter of its lock service, its
    number and the address at which its buffer is mapped. *)
Record Node : Type := mkNode {
  storage : Storage;
  txlog : TxManager.TxManager;
  lockID : Z;
  hashLocalNode : Z;
  dmfsBase : Z
}.

Abbreviation Cluster := (gmap Z Node).

Definition fs (A : Type) : Type := Cluster -> run (A * Cluster).

#[export] Instance fs_ret : MRet fs := fun A a c => Done (a, c).
#[export] Instance fs_bind : MBind fs := fun A B f m c =>
  match m c with
  | Done (a, c') => f a c'
  | Exits => Exits
  | Undef => Undef
  | Blocked => Blocked
  end.

Definition undefined {A} : fs A := fun _ => Undef.
Definition exits {A} : fs A := fun _ => Exits.

(** A computation without state. *)
Definition pure {A} (r : run A) : fs A := fun c => a ← r; Done (a, c).

(** A step on one server. A server outside the cluster never answers. *)
Definition at_node {A} (me : Z) (f : Node -> run (A * Node)) : fs A := fun c =>
  match c !! me with
  | None => Blocked
  | Some n =>
      match f n with
      | Done (a, n') => Done (a, <[me := n']> c)
      | Exits => Exits
      | Undef => Undef
      | Blocked => Blocked
      end
  end.

Definition with_storage (st : Storage) (n : Node) : Node :=
  mkNode st (txlog n) (lockID n) (hashLocalNode n) (dmfsBase n).
Definition with_txlog (t : TxManager.TxManager) (n : Node) : Node :=
  mkNode (storage n) t (lockID n) (hashLocalNode n) (dmfsBase n).
Definition with_lockID (id : Z) (n : Node) : Node :=
  mkNode (storage n) (txlog n) id (hashLocalNode n) (dmfsBase n).

Definition with_hashtable (ht : HashTable.HashTable) (st : Storage) : Storage :=
  mkStorage (countNode st) ht (tableFileMeta st) (tableDirectoryMeta st) (tableBlock st)
    (st_sizeBufferUsed st).
Definition with_files (t : Table.Table FileMeta) (st : Storage) : Storage :=
  mkStorage (countNode st) (hashtable st) t (tableDirectoryMeta st) (tableBlock st)
    (st_sizeBufferUsed st).
Definition with_dirs (t : Table.Table DirectoryMeta) (st : Storage) : Storage :=
  mkStorage (countNode st) (hashtable st) (tableFileMeta st) t (tableBlock st)
    (st_sizeBufferUsed st).
Definition with_blocks (t : Table.Table Block) (st : Storage) : Storage :=
  mkStorage (countNode st) (hashtable st) (tableFileMeta st) (tableDirectoryMeta st) t
    (st_sizeBufferUsed st).

Definition on_hashtable {A} (f : HashTable.HashTable -> run (A * HashTable.HashTable)) (n : Node)
    : run (A * Node) :=
  r ← f (hashtable (storage n));
  Done (r.1, with_storage (with_hashtable r.2 (storage n)) n).
Definition on_files {A} (f : Table.Table FileMeta -> run (A * Table.Table FileMeta)) (n : Node)
    : run (A * Node) :=
  r ← f (tableFileMeta (storage n));
  Done (r.1, with_storage (with_files r.2 (storage n)) n).
Definition on_dirs {A} (f : Table.Table DirectoryMeta -> run (A * Table.Table DirectoryMeta))
    (n : Node) : run (A * Node) :=
  r ← f (tableDirectoryMeta (storage n));
  Done (r.1, with_storage (with_dirs r.2 (storage n)) n).
Definition on_blocks {A} (f : Table.Table Block -> run (A * Table.Table Block)) (n : Node)
    : run (A * Node) :=
  r ← f (tableBlock (storage n));
  Done (r.1, with_storage (with_blocks r.2 (storage n)) n).
Definition on_tx {A} (f : TxManager.TxManager -> run (A * TxManager.TxManager)) (n : Node)
    : run (A * Node) :=
  r ← f (txlog n);
  Done (r.1, with_txlog r.2 n).

(** ** Transactions: the wrappers of the log, with [Dotx] set *)

Definition TxLocalBegin (me : Z) : fs Z := at_node me (on_tx TxManager.TxLocalBegin).
Definition TxWriteData (me id : Z) (data : list Z) : fs unit :=
  at_node me (on_tx (fun t => t ← TxManager.TxWriteData t id data; Done (tt, t))).
Definition getTxWriteDataAddress (me id : Z) : fs Z :=
  at_node me (on_tx (fun t => Done (TxManager.getTxWriteDataAddress t id, t))).
Definition TxLocalCommit (me id : Z) (action : bool) : fs unit :=
  at_node me (on_tx (fun t => t ← TxManager.TxLocalCommit t id action; Done (tt, t))).
Definition TxDistributedBegin (me : Z) : fs Z := at_node me (on_tx TxManager.TxDistributedBegin).
Definition TxDistributedPrepare (me id : Z) (action : bool) : fs unit :=
  at_node me (on_tx (fun t => t ← TxManager.TxDistributedPrepare t id action; Done (tt, t))).
Definition TxDistributedCommit (me id : Z) (action : bool) : fs unit :=
  at_node me (on_tx (fun t => t ← TxManager.TxDistributedCommit t id action; Done (tt, t))).

(** ** Lock words

    The word of a hash address is the [key] field of its hash item. *)

Definition lock_word (n : Node) (addr : Z) : run Z :=
  it ← index (HashTable.itemsHash (hashtable (storage n))) addr;
  Done (HashTable.key it).

Definition set_lock_word (w addr : Z) (n : Node) : run Node :=
  it ← index (HashTable.itemsHash (hashtable (storage n))) addr;
  hs ← store (HashTable.itemsHash (hashtable (storage n))) addr
         (HashTable.mkHashItem w (HashTable.indexHead it));
  Done (with_storage (with_hashtable (HashTable.with_heads hs (hashtable (storage n))) (storage n)) n).

Definition lockWriteHashItem (hashNode addr : Z) (n : Node) : run (Z * Node) :=
  w ← lock_word n addr;
  let key := LockService.write_key (u16 hashNode) (lockID n) in
  let n := with_lockID (LockService.next_WriteID (lockID n)) n in
  let r := LockService.write_try key w in
  if r.1 : bool then n ← set_lock_word r.2 addr n; Done (key, n) else Blocked.

Definition unlockWriteHashItem (addr : Z) (n : Node) : run (unit * Node) :=
  w ← lock_word n addr;
  n ← set_lock_word (LockService.WriteUnlock w) addr n;
  Done (tt, n).

Definition lockReadHashItem (addr : Z) (n : Node) : run (Z * Node) :=
  w ← lock_word n addr;
  let r := LockService.read_begin w in
  if r.1 : bool then n ← set_lock_word r.2 addr n; Done (1, n) else Blocked.

Definition unlockReadHashItem (addr : Z) (n : Node) : run (unit * Node) :=
  w ← lock_word n addr;
  n ← set_lock_word (LockService.ReadUnlock w) addr n;
  Done (tt, n).

(** ** Strings in directory entries *)

(** [strcpy] into the 50 bytes of a name; a longer string writes behind it. *)
Definition strcpy_name (dst src : list Z) : run (list Z) :=
  if Z.of_nat (length src) <? MAX_FILE_NAME_LENGTH
  then Done (src ++ 0 :: drop (S (length src)) dst) else Undef.

(** Appending an entry: the count is incremented first and not compared with
    [MAX_DIRECTORY_COUNT]. *)
Definition append_entry (d : DirectoryMeta) (name : list Z) (dir : bool) : run DirectoryMeta :=
  let c := u64 (dm_count d + 1) in
  e ← list_index (dm_tuple d) (u64 (c - 1));
  nm ← strcpy_name (names e) name;
  es ← list_store (dm_tuple d) (u64 (c - 1)) (mkEntry nm dir);
  Done (mkDirectoryMeta c es).

(** The loops that copy all entries but those with a name, from entry [i] on,
    [n] to go: the entries of the copy, the number of them, and whether the
    name was met. *)
Fixpoint copy_others (n : nat) (from : list DirectoryMetaTuple) (i : Z) (name : list Z)
    (to : list DirectoryMetaTuple) (k : Z) (found : bool)
    : run (list DirectoryMetaTuple * Z * bool) :=
  match n with
  | O => Done (to, k, found)
  | S n =>
      e ← list_index from i;
      if strcmp (names e) name =? 0 then copy_others n from (i + 1) name to k true
      else
        old ← list_index to k;
        nm ← strcpy_name (names old) (cstr (names e));
        to ← list_store to k (mkEntry nm (isDirectories e));
        copy_others n from (i + 1) name to (k + 1) found
  end.

Definition remove_entry (d : DirectoryMeta) (name : list Z) (uninit : DirectoryMeta)
    : run (DirectoryMeta * bool) :=
  r ← copy_others (Z.to_nat (dm_count d)) (dm_tuple d) 0 name (dm_tuple uninit) 0 false;
  Done (mkDirectoryMeta r.1.2 r.1.1, r.2).

(** ** Memory of directory metadata *)

(** The item at an address of the table of directories. *)
Definition dir_index (t : Table.Table DirectoryMeta) (address : Z) : run Z :=
  let off := address - Table.itemsAddress t in
  if (off mod Table.sizeof (T := DirectoryMeta) =? 0)
     && in_bounds (Table.items t) (off / Table.sizeof (T := DirectoryMeta))
  then Done (off / Table.sizeof (T := DirectoryMeta)) else Undef.

(** [memcpy] of the first [size] bytes of a directory to an address. *)
Definition copy_to_dir (t : Table.Table DirectoryMeta) (address : Z) (meta : DirectoryMeta) (size : Z)
    : run (Table.Table DirectoryMeta) :=
  i ← dir_index t address;
  old ← index (Table.items t) i;
  let bytes := take (Z.to_nat size) (store_directory_meta meta)
               ++ drop (Z.to_nat size) (store_directory_meta old) in
  xs ← store (Table.items t) i (load_directory_meta bytes);
  Done (Table.with_items xs t).

Definition sizeof_DirectoryMeta : Z := 3072.
Definition sizeof_DirectoryMetaTuple : Z := 51.

(** [updateRemoteMeta]: a copy of the structure into the memory of this server,
    or a remote write of its used part into the memory of another. Addresses
    are relative to the buffer of the server. *)
Definition updateRemoteMeta (me parentNodeID : Z) (meta : DirectoryMeta) (metaAddress : Z) : fs unit :=
  if parentNodeID =? me then
    at_node me (fun n =>
      on_dirs (fun t =>
        t ← copy_to_dir t (u64 (metaAddress + dmfsBase n)) meta sizeof_DirectoryMeta; Done (tt, t)) n)
  else
    let size := u64 (sizeof_DirectoryMeta
                     - sizeof_DirectoryMetaTuple * (MAX_DIRECTORY_COUNT - dm_count meta)) in
    at_node parentNodeID (fun n =>
      on_dirs (fun t =>
        t ← copy_to_dir t (u64 (metaAddress + dmfsBase n)) meta size; Done (tt, t)) n).

(** ** Operations *)

Section operations.
Variable CalculateDigest : list Z -> HashTable.UniqueHash.
(** What [ASSERT(false)] does, a macro of r2. *)
Variable ASSERT_false : fs unit.
(** The value of [time(NULL)]. *)
Variable now : Z.
(** What uninitialised variables of the source hold. *)
Variables (uninit_word : Z) (uninit_bool : bool) (uninit_name : list Z)
  (uninit_dir : DirectoryMeta) (uninit_file : FileMeta).

Definition digest (path : list Z) : HashTable.UniqueHash :=
  HashTable.getUniqueHash CalculateDigest path.

Definition node_of (me : Z) (path : list Z) : fs Z :=
  at_node me (fun n => v ← getNodeHash (storage n) (Some (digest path)); Done (v, n)).

Definition checkLocal (me hashNode : Z) : fs bool :=
  at_node me (fun n => Done (hashNode =? hashLocalNode n, n)).

Definition address_of (path : list Z) : Z := HashTable.getAddressHash (digest path).

(** The strings that [getParentDirectory] and [getNameFromPath] leave; their
    results are not tested. *)
Definition parent_of (path : list Z) : list Z :=
  default uninit_name (getParentDirectory (Some path) Out).2.
Definition name_of (path : list Z) : list Z :=
  default uninit_name (getNameFromPath (Some path) Out).2.

Definition hash_get (me : Z) (path : list Z) : fs (option (Z * bool)) :=
  r ← at_node me (on_hashtable (fun ht => HashTable.get ht (Some (digest path)) Out Out));
  mret (if r.1 : bool then r.2 else None).
Definition hash_put (me : Z) (path : list Z) (meta : Z) (dir : bool) : fs bool :=
  at_node me (on_hashtable (fun ht => HashTable.put ht (Some (digest path)) meta dir)).
Definition hash_del (me : Z) (path : list Z) : fs bool :=
  at_node me (on_hashtable (fun ht => HashTable.del ht (Some (digest path)))).

(** The part of [readDirectoryMeta] on the server of the path: the directory,
    its hash address, its address in the buffer and the server. *)
Definition readDirectoryMeta_local (me hashNode : Z) (path : list Z)
    : fs (option (DirectoryMeta * Z * Z * Z)) :=
  let addr := address_of path in
  _ ← at_node me (lockReadHashItem addr);
  found ← hash_get me path;
  r ← match found with
      | None => mret None
      | Some (idx, dir) =>
          if dir : bool then
            m ← at_node me (on_dirs (fun t => Table.get_address t idx Out));
            match m.1, m.2 with
            | true, Some (d, a) =>
                a ← at_node me (fun n => Done (u64 (a - dmfsBase n), n));
                mret (Some (d, addr, a, u16 hashNode))
            | _, _ => mret None
            end
          else mret None
      end;
  _ ← at_node me (unlockReadHashItem addr);
  mret r.

(** [readDirectoryMeta]: on another server by a remote call, which the message
    handler there turns into a call of the same function. Each call that is
    sent on takes a hop. The path is copied into the message, which has room
    for 255 bytes. *)
Fixpoint readDirectoryMeta (hops : nat) (me : Z) (path : list Z)
    : fs (option (DirectoryMeta * Z * Z * Z)) :=
  hashNode ← node_of me path;
  here ← checkLocal me hashNode;
  if here : bool then readDirectoryMeta_local me hashNode path
  else
    match hops with
    | O => fun _ => Blocked
    | S hops =>
        if Z.of_nat (length path) <? MAX_PATH_LENGTH
        then readDirectoryMeta hops (u16 hashNode) path else undefined
    end.

(** One hop reaches the server of the path, when the servers agree on it. *)
Definition read_parent (me : Z) (path : list Z) : fs (option (DirectoryMeta * Z * Z * Z)) :=
  readDirectoryMeta 1 me path.

(** The frame of the operations that lock the item of their path for writing
    and run on its server. *)
Definition on_path {A} (me : Z) (path : option (list Z)) (fail : A) (body : Z -> list Z -> fs A)
    : fs A :=
  match path with
  | None => mret fail
  | Some path =>
      hashNode ← node_of me path;
      here ← checkLocal me hashNode;
      if here : bool then
        _ ← at_node me (lockWriteHashItem hashNode (address_of path));
        r ← body hashNode path;
        _ ← at_node me (unlockWriteHashItem (address_of path));
        mret r
      else mret fail
  end.

(** The same for the operations that lock for reading. *)
Definition on_path_read {A} (me : Z) (path : option (list Z)) (fail : A) (body : list Z -> fs A)
    : fs A :=
  match path with
  | None => mret fail
  | Some path =>
      hashNode ← node_of me path;
      here ← checkLocal me hashNode;
      if here : bool then
        _ ← at_node me (lockReadHashItem (address_of path));
        r ← body path;
        _ ← at_node me (unlockReadHashItem (address_of path));
        mret r
      else mret fail
  end.

Definition mknodWithMeta (me : Z) (path : option (list Z)) (metaFile : option FileMeta) : fs bool :=
  match metaFile with
  | None => mret false
  | Some f =>
      on_path me path false (fun _ path =>
        found ← hash_get me path;
        match found with
        | Some _ => mret false
        | None =>
            let f := mkFileMeta now (fm_count f) (fm_size f) (fm_tuple f) in
            r ← at_node me (on_files (fun t => Table.create t Out (Some f)));
            match r with
            | (true, Some idx) => hash_put me path idx false
            | _ => mret false
            end
        end)
  end.

(** An empty file and an empty directory, in uninitialised variables. *)
Definition new_file : FileMeta := mkFileMeta now 0 0 (fm_tuple uninit_file).
Definition new_dir : DirectoryMeta := mkDirectoryMeta 0 (dm_tuple uninit_dir).

(** The creation of the metadata and of the entry in the path index. *)
Definition create_file (me : Z) (path : list Z) : fs bool :=
  r ← at_node me (on_files (fun t => Table.create t Out (Some new_file)));
  match r with
  | (true, Some idx) => hash_put me path idx false
  | _ => mret false
  end.

Definition create_dir (me : Z) (path : list Z) : fs bool :=
  r ← at_node me (on_dirs (fun t => Table.create t Out (Some new_dir)));
  match r with
  | (true, Some idx) => hash_put me path idx true
  | _ => mret false
  end.

(** The common part of [mknodcd] and [mkdircd]: the entry is added to the
    parent, and then the item is created with [create]. In [mknodcd] the kind
    of the new entry is the variable [isDirectory], which the failed lookup
    has not set. *)
Definition make (me : Z) (path : list Z) (dir : bool) (create : fs bool) : fs bool :=
  id ← TxLocalBegin me;
  p ← read_parent me (parent_of path);
  r ← match p with
      | None => mret false
      | Some (parentMeta, _, parentAddress, parentNode) =>
          found ← hash_get me path;
          match found with
          | Some _ => mret false
          | None =>
              d ← pure (append_entry parentMeta (name_of path) dir);
              _ ← TxWriteData me id (store_directory_meta d);
              _ ← updateRemoteMeta me parentNode d parentAddress;
              create
          end
      end;
  _ ← TxLocalCommit me id r;
  mret r.

Definition mknodcd (me : Z) (path : option (list Z)) : fs bool :=
  on_path me path false (fun _ path => make me path uninit_bool (create_file me path)).

Definition mkdircd (me : Z) (path : option (list Z)) : fs bool :=
  _ ← (if path then mret tt else ASSERT_false);
  on_path me path false (fun _ path => make me path true (create_dir me path)).

Definition mknod (me : Z) (path : option (list Z)) : fs bool := mknodcd me path.
Definition mkdir (me : Z) (path : option (list Z)) : fs bool := mkdircd me path.

(** For a directory only the count of the attribute is set. *)
Definition getattr (me : Z) (path : option (list Z)) (attribute : option FileMeta)
    : fs (bool * option FileMeta) :=
  match attribute with
  | None => mret (false, None)
  | Some att =>
      on_path_read me path (false, Some att) (fun path =>
        found ← hash_get me path;
        match found with
        | None => mret (false, Some att)
        | Some (idx, dir) =>
            if dir : bool then
              mret (true, Some (mkFileMeta (timeLastModified att) MAX_FILE_EXTENT_COUNT (fm_size att)
                                  (fm_tuple att)))
            else
              r ← at_node me (on_files (fun t => Table.get t idx Out));
              match r with
              | (true, Some f) => mret (true, Some f)
              | _ => mret (false, Some att)
              end
        end)
  end.

Definition access (me : Z) (path : option (list Z)) : fs bool :=
  on_path_read me path false (fun path =>
    found ← hash_get me path;
    mret (match found with Some _ => true | None => false end)).

(** The loop that copies the entries to the caller's list. *)
Fixpoint copy_entries (n : nat) (from : list DirectoryMetaTuple) (i : Z)
    (to : list DirectoryMetaTuple) : run (list DirectoryMetaTuple) :=
  match n with
  | O => Done to
  | S n =>
      e ← list_index from i;
      old ← list_index to i;
      nm ← strcpy_name (names old) (cstr (names e));
      to ← list_store to i (mkEntry nm (isDirectories e));
      copy_entries n from (i + 1) to
  end.

Definition readdir (me : Z) (path : option (list Z)) (list_ : option DirectoryMeta)
    : fs (bool * option DirectoryMeta) :=
  match list_ with
  | None => mret (false, None)
  | Some out =>
      on_path_read me path (false, Some out) (fun path =>
        found ← hash_get me path;
        match found with
        | Some (idx, true) =>
            r ← at_node me (on_dirs (fun t => Table.get t idx Out));
            match r with
            | (true, Some d) =>
                es ← pure (copy_entries (Z.to_nat (dm_count d)) (dm_tuple d) 0 (dm_tuple out));
                mret (true, Some (mkDirectoryMeta (dm_count d) es))
            | _ => mret (false, Some out)
            end
        | _ => mret (false, Some out)
        end)
  end.

(** ** Removal *)

(** The loop over the blocks of an extent, [n] to go, with the sum of the
    [uint32_t] start and the [int] counter: failures are ignored. *)
Fixpoint free_blocks (n : nat) (start : Z) (t : Table.Table Block) : run (unit * Table.Table Block) :=
  match n with
  | O => Done (tt, t)
  | S n =>
      r ← Table.remove t (u32 (start + Z.of_nat n));
      free_blocks n start r.2
  end.

(** [(int)count - 1]: the loops count down from it in [int]. *)
Definition int_count (c : Z) : run nat :=
  if Table.s32 c =? - 2 ^ 31 then Undef else Done (Z.to_nat (Table.s32 c)).

(** The loop over the extents on this server, from extent [i] on. *)
Fixpoint free_extents (n : nat) (f : FileMeta) (hashNode i : Z) (t : Table.Table Block)
    : run (unit * Table.Table Block) :=
  match n with
  | O => Done (tt, t)
  | S n =>
      if i <? fm_count f then
        e ← list_index (fm_tuple f) i;
        if OctStorage.hashNode e =? hashNode then
          k ← int_count (countExtentBlock e);
          r ← free_blocks k (indexExtentStartBlock e) t;
          free_extents n f hashNode (i + 1) r.2
        else Done (tt, t)
      else Done (tt, t)
  end.

(** The removal of the entry from the parent, and of the metadata by [drop_meta].
    The log is given the directory as it was. *)
Definition unmake (me : Z) (path : list Z) (id : Z) (drop_meta : fs bool) : fs bool :=
  p ← read_parent me (parent_of path);
  match p with
  | None => mret false
  | Some (parentMeta, _, parentAddress, parentNode) =>
      r ← pure (remove_entry parentMeta (name_of path) uninit_dir);
      _ ← TxWriteData me id (store_directory_meta parentMeta);
      _ ← updateRemoteMeta me parentNode r.1 parentAddress;
      ok ← drop_meta;
      if ok : bool then hash_del me path else mret false
  end.

(** [removecd], with the metadata left in [metaFile]. Without a transaction
    the log entry that is committed at the end is that of transaction 0. *)
Definition removecd (me : Z) (path : option (list Z)) (metaFile : FileMeta) : fs (bool * FileMeta) :=
  on_path me path (false, metaFile) (fun hashNode path =>
    found ← hash_get me path;
    r ← match found with
        | None => mret (false, metaFile, 0)
        | Some (idx, true) =>
            m ← at_node me (on_dirs (fun t => Table.get t idx Out));
            match m with
            | (true, Some d) =>
                let metaFile := mkFileMeta (timeLastModified metaFile) MAX_FILE_EXTENT_COUNT
                                  (fm_size metaFile) (fm_tuple metaFile) in
                if dm_count d =? 0 then
                  id ← TxLocalBegin me;
                  r ← unmake me path id (at_node me (on_dirs (fun t => Table.remove t idx)));
                  mret (r, metaFile, id)
                else mret (false, metaFile, 0)
            | _ => mret (false, metaFile, 0)
            end
        | Some (idx, false) =>
            m ← at_node me (on_files (fun t => Table.get t idx Out));
            match m with
            | (true, Some f) =>
                id ← TxLocalBegin me;
                r ← unmake me path id
                      (_ ← at_node me (on_blocks
                             (free_extents (S (length (fm_tuple f))) f hashNode 0));
                       at_node me (on_files (fun t => Table.remove t idx)));
                mret (r, f, id)
            | _ => mret (false, metaFile, 0)
            end
        end;
    _ ← TxLocalCommit me r.2 r.1.1;
    mret r.1).

Definition remove (me : Z) (path : option (list Z)) (metaFile : FileMeta) : fs (bool * FileMeta) :=
  removecd me path metaFile.

Definition blockFree_loop (n : nat) (start : Z) : Table.Table Block -> run (bool * Table.Table Block) :=
  (fix go (n : nat) (t : Table.Table Block) : run (bool * Table.Table Block) :=
     match n with
     | O => Done (true, t)
     | S n =>
         r ← Table.remove t (u64 (start + Z.of_nat n));
         if r.1 : bool then go n r.2 else Done (false, r.2)
     end) n.

(** [blockFree]: the result is set only when a block cannot be removed. *)
Definition blockFree (me start count : Z) : fs bool :=
  ok ← at_node me (on_blocks (fun t => k ← int_count count; blockFree_loop k start t));
  mret (if ok : bool then uninit_bool else false).

(** ** Roots and construction *)

(** [rootInitialize] on the server [me] that becomes number [LocalNode]. *)
Definition rootInitialize (me LocalNode : Z) : fs unit :=
  _ ← at_node me (fun n =>
        Done (tt, mkNode (storage n) (txlog n) (lockID n) LocalNode (dmfsBase n)));
  hashNode ← node_of me [slash];
  if hashNode =? LocalNode then
    r ← at_node me (on_dirs (fun t => Table.create t Out (Some new_dir)));
    match r with
    | (true, Some idx) =>
        ok ← at_node me (on_hashtable (fun ht => HashTable.put_path CalculateDigest ht (Some [slash]) idx true));
        if ok : bool then mret tt else exits
    | _ => exits
    end
  else mret tt.

Definition construct (buffer bufferBlock : option (Z * array Z))
    (countFile countDirectory countBlock nodes hashLocalNode : Z)
    (tx : TxManager.TxManager) (base : Z) : run Node :=
  match buffer, bufferBlock with
  | Some _, Some _ =>
      if (countFile =? 0) || (countDirectory =? 0) || (countBlock =? 0) || (nodes =? 0)
         || (hashLocalNode <? 1) || (nodes <? hashLocalNode) then Exits
      else
        st ← storage_construct buffer bufferBlock countFile countDirectory countBlock nodes;
        Done (mkNode st tx (u16 uninit_word) uninit_word base)
  | _, _ => Exits
  end.

End operations.

End FileSystem.
