(* ===== verification/OctFileData.v ===== *)
(** * File contents of octopus (src/sys/octopus/src/fs/filesystem.cpp)

    The operations that translate ranges of a file to places in the block
    area, allocate blocks for a write, and release them when a file is
    truncated. [extentRead] and [extentWrite] return with the item of their
    path locked; the message handler unlocks it after them. *)

From S2P Require Import Prelude.
From S2P Require Import OctBase.
From S2P Require Import OctTable.
From S2P Require Import OctHashTable.
From S2P Require Import OctStorage.
From S2P Require Import OctExtent.
From S2P Require Import OctFileSystem.
Open Scope Z_scope.

Module FileData.
Import FileSystem.

(** The allocation loop of [extentWrite], [n] blocks to go. [bound] is the
    current extent, -1 before the first. A block behind the current extent
    makes it longer; another block starts a new extent, for which the file
    has room up to [MAX_FILE_EXTENT_COUNT], which is not compared. *)
Fixpoint extend (n : nat) (hashLocalNode : Z) (f : FileMeta) (bound : Z) (t : Table.Table Block)
    : run (bool * FileMeta * Table.Table Block) :=
  match n with
  | O => Done (true, f, t)
  | S n =>
      r ← Table.create_empty t Out;
      match r with
      | (true, Some idx, t) =>
          last ← (if 0 <=? bound then
                    e ← list_index (fm_tuple f) bound;
                    Done (u32 (indexExtentStartBlock e + countExtentBlock e))
                  else Done (2 ^ 64 - 1));
          if (0 <=? bound) && (idx =? last) then
            e ← list_index (fm_tuple f) bound;
            es ← list_store (fm_tuple f) bound
                   (mkExtent (hashNode e) (indexExtentStartBlock e) (u32 (countExtentBlock e + 1)));
            extend n hashLocalNode (mkFileMeta (timeLastModified f) (fm_count f) (fm_size f) es) bound t
          else if (bound =? -1) || negb (idx =? last) then
            es ← list_store (fm_tuple f) (bound + 1) (mkExtent hashLocalNode (u32 idx) 1);
            extend n hashLocalNode
              (mkFileMeta (timeLastModified f) (u64 (fm_count f + 1)) (fm_size f) es) (bound + 1) t
          else Done (false, f, t)
      | (_, _, t) => Done (false, f, t)
      end
  end.

(** The signed 64-bit value of a count. *)
Definition s64 (z : Z) : Z := if u64 z <? 2 ^ 63 then u64 z else u64 z - 2 ^ 64.

(** The metadata after a write of [size] bytes at [offset] and its position
    information, or [None] without space. *)
Definition write_range (f : FileMeta) (size offset hashLocalNode : Z) (fpi : file_pos_info)
    (t : Table.Table Block) : run (option (FileMeta * file_pos_info) * Table.Table Block) :=
  let last := u64 (u64 (offset + size) - 1) / BLOCK_SIZE in
  if (fm_size f =? 0) || (u64 (fm_size f - 1) / BLOCK_SIZE <? last) then
    let bound := if fm_size f =? 0 then -1 else s64 (fm_count f) - 1 in
    let extra := if fm_size f =? 0 then last + 1 else last - u64 (fm_size f - 1) / BLOCK_SIZE in
    r ← extend (Z.to_nat extra) hashLocalNode f bound t;
    if r.1.1 : bool then
      let f := mkFileMeta (timeLastModified r.1.2) (fm_count r.1.2) (u64 (offset + size))
                 (fm_tuple r.1.2) in
      fpi ← fillFilePositionInformation size offset fpi f;
      Done (Some (f, fpi), r.2)
    else Done (None, r.2)
  else
    let f := mkFileMeta (timeLastModified f) (fm_count f) (Z.max (u64 (offset + size)) (fm_size f))
               (fm_tuple f) in
    fpi ← fillFilePositionInformation size offset fpi f;
    Done (Some (f, fpi), t).

(** The loop of [truncate] that looks for the extent with the last block that
    is kept: its index and the blocks before it. *)
Fixpoint find_last (fuel : nat) (f : FileMeta) (blocks i before : Z) : run (option (Z * Z)) :=
  match fuel with
  | O => Done None
  | S fuel =>
      if i <? fm_count f then
        e ← list_index (fm_tuple f) i;
        if blocks <=? u64 (before + countExtentBlock e) then Done (Some (i, before))
        else find_last fuel f blocks (i + 1) (u64 (before + countExtentBlock e))
      else Done None
  end.

(** The loop [for (int j = j0; j >= lo; j--)] over blocks of an extent, [n] of
    them from [j] down. *)
Fixpoint drop_blocks (n : nat) (start j : Z) (t : Table.Table Block) : run (bool * Table.Table Block) :=
  match n with
  | O => Done (true, t)
  | S n =>
      r ← Table.remove t (u32 (start + j));
      if r.1 : bool then drop_blocks n start (j - 1) r.2 else Done (false, r.2)
  end.

Definition drop_from (e : FileMetaTuple) (lo : Z) (t : Table.Table Block)
    : run (bool * Table.Table Block) :=
  let j := Table.s32 (u32 (countExtentBlock e - 1)) in
  drop_blocks (Z.to_nat (j - lo + 1)) (indexExtentStartBlock e) j t.

(** The extents from [j] on; a failure leaves the inner loop only. *)
Fixpoint drop_rest (fuel : nat) (f : FileMeta) (j : Z) (ok : bool) (t : Table.Table Block)
    : run (bool * Table.Table Block) :=
  match fuel with
  | O => Done (ok, t)
  | S fuel =>
      if j <? fm_count f then
        e ← list_index (fm_tuple f) j;
        r ← drop_from e 0 t;
        drop_rest fuel f (j + 1) (ok && r.1) r.2
      else Done (ok, t)
  end.

(** The metadata of a file cut to [size] bytes. The extent with the last block
    keeps its [countExtentBlock]. *)
Definition cut (f : FileMeta) (size : Z) (t : Table.Table Block)
    : run (option FileMeta * Table.Table Block) :=
  if fm_size f <=? size then Done (None, t)
  else
    let blocks := if size =? 0 then 0 else u64 (u64 (size - 1) / BLOCK_SIZE + 1) in
    let fuel := S (length (fm_tuple f)) in
    l ← find_last fuel f blocks 0 0;
    match l with
    | None => Done (None, t)
    | Some (i, before) =>
        e ← list_index (fm_tuple f) i;
        r ← drop_from e (Table.s32 (u64 (blocks - before))) t;
        if r.1 : bool then
          r ← drop_rest fuel f (i + 1) true r.2;
          if r.1 : bool then
            Done (Some (mkFileMeta (timeLastModified f) (u64 (i + 1)) size (fm_tuple f)), r.2)
          else Done (None, r.2)
        else Done (None, r.2)
    end.

Section operations.
Variable CalculateDigest : list Z -> HashTable.UniqueHash.
Variable now : Z.

Local Abbreviation hash_get := (hash_get CalculateDigest).
Local Abbreviation node_of := (node_of CalculateDigest).
Local Abbreviation address_of := (address_of CalculateDigest).

(** The result of the two operations: whether they succeed, the position
    information, and the hash address and key of the lock when it is taken. *)
Definition extent_result : Type := bool * file_pos_info * option (Z * Z).

Definition extentRead (me : Z) (path : option (list Z)) (size offset : Z)
    (fpi : file_pos_info) : fs extent_result :=
  match path with
  | None => mret (false, fpi, None)
  | Some path =>
      if size =? 0 then mret (false, fpi, None)
      else
        hashNode ← node_of me path;
        here ← checkLocal me hashNode;
        if here : bool then
          key ← at_node me (lockReadHashItem (address_of path));
          let held := Some (address_of path, key) in
          found ← hash_get me path;
          match found with
          | None => mret (false, fpi, held)
          | Some (idx, dir) =>
              if dir : bool then mret (false, fpi, held)
              else
                r ← at_node me (on_files (fun t => Table.get t idx Out));
                match r with
                | (true, Some f) =>
                    if fm_size f <? u64 (offset + 1)
                    then mret (true, mkFpi 0 (fpi_tuple fpi), held)
                    else
                      let size := if u64 (fm_size f - offset) <? size then u64 (fm_size f - offset)
                                  else size in
                      fpi ← pure (fillFilePositionInformation size offset fpi f);
                      mret (true, fpi, held)
                | _ => mret (false, fpi, held)
                end
          end
        else mret (false, fpi, None)
  end.

Definition extentReadEnd (me key : Z) (path : option (list Z)) : fs bool :=
  match path with
  | None => mret false
  | Some path =>
      hashNode ← node_of me path;
      here ← checkLocal me hashNode;
      if here : bool then
        _ ← hash_get me path;
        _ ← at_node me (unlockReadHashItem (address_of path));
        mret true
      else mret false
  end.

(** The new metadata is stored only when the write succeeds; blocks allocated
    before a failure stay allocated. *)
Definition extentWrite (me : Z) (path : option (list Z)) (size offset : Z)
    (fpi : file_pos_info) : fs extent_result :=
  match path with
  | None => mret (false, fpi, None)
  | Some path =>
      hashNode ← node_of me path;
      here ← checkLocal me hashNode;
      if here : bool then
        key ← at_node me (lockWriteHashItem hashNode (address_of path));
        let held := Some (address_of path, key) in
        found ← hash_get me path;
        match found with
        | None => mret (false, fpi, held)
        | Some (idx, dir) =>
            if dir : bool then mret (false, fpi, held)
            else
              r ← at_node me (on_files (fun t => Table.get t idx Out));
              match r with
              | (true, Some f) =>
                  if (u64 (2 ^ 64 - 1 - offset) <? size) || (size =? 0)
                  then mret (false, fpi, held)
                  else
                    r ← at_node me (fun n =>
                          on_blocks (write_range f size offset (hashLocalNode n) fpi) n);
                    match r with
                    | Some (f, fpi) =>
                        let f := mkFileMeta now (fm_count f) (fm_size f) (fm_tuple f) in
                        _ ← at_node me (on_files (fun t => Table.put t idx (Some f)));
                        mret (true, fpi, held)
                    | None => mret (false, fpi, held)
                    end
              | _ => mret (false, fpi, held)
              end
        end
      else mret (false, fpi, None)
  end.

(** [updateMeta] ends a write: it stores the metadata and unlocks. *)
Definition updateMeta (me : Z) (path : option (list Z)) (metaFile : option FileMeta) (key : Z)
    : fs bool :=
  match path, metaFile with
  | Some path, Some f =>
      hashNode ← node_of me path;
      here ← checkLocal me hashNode;
      if here : bool then
        found ← hash_get me path;
        r ← match found with
            | None => mret false
            | Some (idx, dir) =>
                if dir : bool then mret false
                else
                  let f := mkFileMeta now (fm_count f) (fm_size f) (fm_tuple f) in
                  at_node me (on_files (fun t => Table.put t idx (Some f)))
            end;
        _ ← at_node me (unlockWriteHashItem (address_of path));
        mret r
      else mret false
  | _, _ => mret false
  end.

Definition truncate (me : Z) (path : option (list Z)) (size : Z) : fs bool :=
  on_path CalculateDigest me path false (fun _ path =>
    found ← hash_get me path;
    match found with
    | None => mret false
    | Some (idx, dir) =>
        if dir : bool then mret false
        else
          r ← at_node me (on_files (fun t => Table.get t idx Out));
          match r with
          | (true, Some f) =>
              r ← at_node me (on_blocks (cut f size));
              match r with
              | Some f => at_node me (on_files (fun t => Table.put t idx (Some f)))
              | None => mret false
              end
          | _ => mret false
          end
    end).

End operations.

End FileData.
