(* ===== verification/OctMessages.v ===== *)
(** * OctMessages: requests to an octopus server, and the two-phase operations

    src/sys/octopus/src/fs/filesystem.cpp.

    The second way to change a directory: the server of the directory locks
    it and writes the new contents to its log, the caller decides, and a
    second call copies the logged bytes to the directory and unlocks it. The
    operations built for [TRANSACTION_2PC], [rename] and [rmdir] use it.

    [parseMessage] runs the operation that a request names and fills in the
    response. The requests are those of [Message] in global.h that reach it,
    with the fields of their send buffers. *)

From S2P Require Import Prelude.
From S2P Require Import OctBase.
From S2P Require Import OctTable.
From S2P Require Import OctHashTable.
From S2P Require Import OctTx.
From S2P Require Import OctStorage.
From S2P Require Import OctExtent.
From S2P Require Import OctFileSystem.
From S2P Require Import OctFileData.

Open Scope Z_scope.

Module TwoPhase.
Import FileSystem.

(** What the first phase tells the caller: the transaction on the server of
    the directory, the logged bytes, the directory, and the lock. *)
Record Prepared : Type := mkPrepared {
  p_TxID : Z;
  p_srcBuffer : Z;
  p_desBuffer : Z;
  p_size : Z;
  p_key : Z;
  p_offset : Z
}.

(** The bytes at an address that [getTxWriteDataAddress] returned. *)
Definition logged (t : TxManager.TxManager) (address size : Z) : run (list Z) :=
  let off := address - TxManager.LocalLogAddress t - 9 in
  if off mod TxManager.sizeof_LocalLogEntry =? 0 then
    e ← index (TxManager.localLog t) (off / TxManager.sizeof_LocalLogEntry);
    if size <=? Z.of_nat (length (TxManager.logData e))
    then Done (take (Z.to_nat size) (TxManager.logData e)) else Undef
  else Undef.

(** [memcpy(desBuffer, srcBuffer, size)] from the log to a directory. *)
Definition apply_log (src des size : Z) (n : Node) : run (unit * Node) :=
  bytes ← logged (txlog n) src size;
  on_dirs (fun t =>
    i ← dir_index t des;
    old ← index (Table.items t) i;
    xs ← store (Table.items t) i
           (load_directory_meta (bytes ++ drop (length bytes) (store_directory_meta old)));
    Done (tt, Table.with_items xs t)) n.

Section operations.
Variable CalculateDigest : list Z -> HashTable.UniqueHash.
Variable now : Z.
Variables (uninit_word : Z) (uninit_name : list Z) (uninit_dir : DirectoryMeta)
  (uninit_file : FileMeta).

Local Abbreviation hash_get := (hash_get CalculateDigest).
Local Abbreviation hash_put := (hash_put CalculateDigest).
Local Abbreviation hash_del := (hash_del CalculateDigest).
Local Abbreviation node_of := (node_of CalculateDigest).
Local Abbreviation address_of := (address_of CalculateDigest).
Local Abbreviation parent_of := (parent_of uninit_name).
Local Abbreviation name_of := (name_of uninit_name).

(** The first phase on the server of the directory, with the change of the
    directory as a function: [None] is a name that is not there. The lock is
    kept in every case, and without a directory the transaction that is
    committed at the end is the value of an unset variable. *)
Definition prepare_local (me hashNode : Z) (path : list Z)
    (change : DirectoryMeta -> run (option DirectoryMeta)) : fs (bool * option Prepared) :=
  key ← at_node me (lockWriteHashItem hashNode (address_of path));
  let offset := address_of path in
  found ← hash_get me path;
  r ← match found with
      | Some (idx, true) =>
          m ← at_node me (on_dirs (fun t => Table.get t idx Out));
          match m with
          | (true, Some d) =>
              id ← TxLocalBegin me;
              d ← pure (change d);
              match d with
              | None =>
                  _ ← TxLocalCommit me id false;
                  mret (false, None, id)
              | Some d =>
                  _ ← TxWriteData me id (store_directory_meta d);
                  src ← getTxWriteDataAddress me id;
                  a ← at_node me (on_dirs (fun t => Table.put_address t idx (Some d)));
                  match a with
                  | (true, Some des) =>
                      mret (true, Some (mkPrepared id src des sizeof_DirectoryMeta key offset), id)
                  | _ => mret (false, None, id)
                  end
              end
          | _ => mret (false, None, uninit_word)
          end
      | _ => mret (false, None, uninit_word)
      end;
  _ ← TxLocalCommit me r.2 r.1.1;
  mret r.1.

(** A call on the server of the directory: here, or through a message with
    room for a path of 255 bytes and a name of 50. *)
Definition prepare (hops : nat) (me : Z) (path name : list Z)
    (change : DirectoryMeta -> run (option DirectoryMeta)) : fs (bool * option Prepared) :=
  (fix go (hops : nat) (me : Z) : fs (bool * option Prepared) :=
     hashNode ← node_of me path;
     here ← checkLocal me hashNode;
     if here : bool then prepare_local me hashNode path change
     else
       match hops with
       | O => fun _ => Blocked
       | S hops =>
           if (Z.of_nat (length path) <? MAX_PATH_LENGTH)
              && (Z.of_nat (length name) <? MAX_FILE_NAME_LENGTH)
           then go hops (u16 hashNode) else undefined
       end) hops me.

Definition addMetaToDirectory (me : Z) (path name : list Z) (dir : bool)
    : fs (bool * option Prepared) :=
  prepare 1 me path name (fun d => d ← append_entry d name dir; Done (Some d)).

Definition removeMetaFromDirectory (me : Z) (path name : list Z) : fs (bool * option Prepared) :=
  prepare 1 me path name (fun d =>
    r ← remove_entry d name uninit_dir;
    Done (if r.2 : bool then Some r.1 else None)).

(** The second phase. *)
Definition commit_local (me : Z) (path : list Z) (p : Prepared) : fs bool :=
  found ← hash_get me path;
  r ← match found with
      | None => mret false
      | Some _ =>
          _ ← at_node me (apply_log (p_srcBuffer p) (p_desBuffer p) (p_size p));
          mret true
      end;
  _ ← at_node me (unlockWriteHashItem (p_offset p));
  _ ← TxLocalCommit me (p_TxID p) true;
  mret r.

Fixpoint updateDirectoryMeta (hops : nat) (me : Z) (path : option (list Z)) (p : Prepared) : fs bool :=
  match path with
  | None => mret false
  | Some path =>
      hashNode ← node_of me path;
      here ← checkLocal me hashNode;
      if here : bool then commit_local me path p
      else
        match hops with
        | O => fun _ => Blocked
        | S hops =>
            if Z.of_nat (length path) <? MAX_PATH_LENGTH
            then updateDirectoryMeta hops (u16 hashNode) (Some path) p else undefined
        end
  end.

(** The common part of [mknod2pc] and [mkdir2pc]: [log] is written to the local
    log and [create] makes the new item. *)
Definition make2pc (me : Z) (path : list Z) (dir : bool) (log : list Z) (create : fs bool) : fs bool :=
  did ← TxDistributedBegin me;
  id ← TxLocalBegin me;
  a ← addMetaToDirectory me (parent_of path) (name_of path) dir;
  r ← match a with
      | (true, Some p) =>
          found ← hash_get me path;
          match found with
          | Some _ =>
              _ ← TxDistributedPrepare me did false;
              mret false
          | None =>
              _ ← TxWriteData me id log;
              _ ← TxDistributedPrepare me did true;
              _ ← updateDirectoryMeta 1 me (Some (parent_of path)) p;
              create
          end
      | _ =>
          _ ← TxDistributedPrepare me did false;
          mret false
      end;
  _ ← TxLocalCommit me id r;
  _ ← TxDistributedCommit me did r;
  mret r.

Definition mknod2pc (me : Z) (path : option (list Z)) : fs bool :=
  on_path CalculateDigest me path false (fun _ path =>
    make2pc me path false (store_file_meta (new_file now uninit_file))
      (create_file CalculateDigest now uninit_file me path)).

Definition mkdir2pc (me : Z) (path : option (list Z)) : fs bool :=
  on_path CalculateDigest me path false (fun _ path =>
    make2pc me path true (store_directory_meta (new_dir uninit_dir))
      (create_dir CalculateDigest uninit_dir me path)).

(** [sprintf] of ["del "] and the path into a buffer of four bytes more than
    the path: what [remove2pc] logs. The string and its terminating byte have
    to fit. *)
Definition del_record (path : list Z) : run (list Z) :=
  let text := [100; 101; 108; 32] ++ path in
  if (length text + 1 <=? length path + 4)%nat then Done text else Undef.

(** The removal of the entry and of the metadata, after both transactions have
    begun. *)
Definition unmake2pc (me : Z) (path : list Z) (did id : Z) (drop_meta : fs bool) : fs bool :=
  a ← removeMetaFromDirectory me (parent_of path) (name_of path);
  match a with
  | (true, Some p) =>
      text ← pure (del_record path);
      _ ← TxWriteData me id text;
      _ ← TxDistributedPrepare me did true;
      _ ← updateDirectoryMeta 1 me (Some (parent_of path)) p;
      ok ← drop_meta;
      if ok : bool then hash_del me path else mret false
  | _ =>
      _ ← TxDistributedPrepare me did false;
      mret false
  end.

(** [remove2pc]: both transaction numbers are unset variables unless the
    removal starts. *)
Definition remove2pc (me : Z) (path : option (list Z)) (metaFile : FileMeta) : fs (bool * FileMeta) :=
  on_path CalculateDigest me path (false, metaFile) (fun hashNode path =>
    found ← hash_get me path;
    r ← match found with
        | None => mret (false, metaFile, uninit_word, uninit_word)
        | Some (idx, true) =>
            m ← at_node me (on_dirs (fun t => Table.get t idx Out));
            match m with
            | (true, Some d) =>
                let metaFile := mkFileMeta (timeLastModified metaFile) MAX_FILE_EXTENT_COUNT
                                  (fm_size metaFile) (fm_tuple metaFile) in
                if dm_count d =? 0 then
                  did ← TxDistributedBegin me;
                  id ← TxLocalBegin me;
                  r ← unmake2pc me path did id (at_node me (on_dirs (fun t => Table.remove t idx)));
                  mret (r, metaFile, did, id)
                else mret (false, metaFile, uninit_word, uninit_word)
            | _ => mret (false, metaFile, uninit_word, uninit_word)
            end
        | Some (idx, false) =>
            m ← at_node me (on_files (fun t => Table.get t idx Out));
            match m with
            | (true, Some f) =>
                did ← TxDistributedBegin me;
                id ← TxLocalBegin me;
                r ← unmake2pc me path did id
                      (_ ← at_node me (on_blocks
                             (free_extents (S (length (fm_tuple f))) f hashNode 0));
                       at_node me (on_files (fun t => Table.remove t idx)));
                mret (r, f, did, id)
            | _ => mret (false, metaFile, uninit_word, uninit_word)
            end
        end;
    _ ← TxLocalCommit me r.2 r.1.1.1;
    _ ← TxDistributedCommit me r.1.2 r.1.1.1;
    mret r.1.1).

(** [rename]: the old name is removed from its directory, with its metadata
    and its entry in the path index. The new path is not looked at. *)
Definition rename (me : Z) (pathOld pathNew : option (list Z)) : fs bool :=
  match pathNew with
  | None => mret false
  | Some _ =>
      on_path CalculateDigest me pathOld false (fun _ path =>
        found ← hash_get me path;
        match found with
        | Some (idx, false) =>
            a ← removeMetaFromDirectory me (parent_of path) (name_of path);
            match a with
            | (true, Some p) =>
                m ← at_node me (on_files (fun t => Table.get t idx Out));
                match m with
                | (true, Some _) =>
                    _ ← updateDirectoryMeta 1 me (Some (parent_of path)) p;
                    ok ← at_node me (on_files (fun t => Table.remove t idx));
                    if ok : bool then hash_del me path else mret false
                | _ => mret false
                end
            | _ => mret false
            end
        | _ => mret false
        end)
  end.

(** [rmdir]: the first phase of the removal from the directory without the
    second. On another server the answer is [true]. *)
Definition rmdir (me : Z) (path : option (list Z)) : fs bool :=
  match path with
  | None => mret false
  | Some path =>
      hashNode ← node_of me path;
      here ← checkLocal me hashNode;
      if here : bool then
        _ ← at_node me (lockWriteHashItem hashNode (address_of path));
        found ← hash_get me path;
        r ← match found with
            | Some (idx, true) =>
                a ← removeMetaFromDirectory me (parent_of path) (name_of path);
                match a with
                | (true, Some _) =>
                    m ← at_node me (on_dirs (fun t => Table.get t idx Out));
                    match m with
                    | (true, Some d) =>
                        if dm_count d =? 0 then
                          ok ← at_node me (on_dirs (fun t => Table.remove t idx));
                          if ok : bool then hash_del me path else mret false
                        else mret false
                    | _ => mret false
                    end
                | _ => mret false
                end
            | _ => mret false
            end;
        _ ← at_node me (unlockWriteHashItem (address_of path));
        mret r
      else mret true
  end.

End operations.

End TwoPhase.

(** * Requests *)

Module Messages.
Import FileSystem FileData TwoPhase.

Inductive Request : Type :=
| MESSAGE_ADDMETATODIRECTORY (path name : list Z) (isDirectory : bool)
| MESSAGE_REMOVEMETAFROMDIRECTORY (path name : list Z)
| MESSAGE_DOCOMMIT (path : list Z) (p : Prepared)
| MESSAGE_MKNOD (path : list Z)
| MESSAGE_GETATTR (path : list Z)
| MESSAGE_ACCESS (path : list Z)
| MESSAGE_MKDIR (path : list Z)
| MESSAGE_READDIR (path : list Z)
| MESSAGE_READDIRECTORYMETA (path : list Z)
| MESSAGE_EXTENTREAD (path : list Z) (size offset : Z)
| MESSAGE_EXTENTWRITE (path : list Z) (size offset : Z)
| MESSAGE_UPDATEMETA
| MESSAGE_EXTENTREADEND
| MESSAGE_TRUNCATE (path : list Z) (size : Z)
| MESSAGE_RMDIR (path : list Z)
| MESSAGE_REMOVE (path : list Z)
| MESSAGE_FREEBLOCK (startBlock countBlock : Z)
| MESSAGE_MKNODWITHMETA (path : list Z) (metaFile : FileMeta)
| MESSAGE_RENAME (pathOld pathNew : list Z)
| MESSAGE_RAWWRITE (path : list Z) (size offset : Z)
| MESSAGE_RAWREAD (path : list Z) (size offset : Z)
| MESSAGE_OTHER.

(** The receive buffers. [Unfilled] is a response of which only the message
    type is set. *)
Inductive Response : Type :=
| Unfilled
| GeneralReceive (result : bool)
| UpdataDirectoryMetaReceive (result : bool) (p : option Prepared)
| GetAttributeReceive (result : bool) (attribute : FileMeta)
| ReadDirectoryReceive (result : bool) (list_ : DirectoryMeta)
| ReadDirectoryMetaReceive (found : option (DirectoryMeta * Z * Z * Z))
| ExtentReceive (result : bool) (fpi : file_pos_info) (offset key : Z).

(** Always [true]: no message is sent. *)
Definition sendMessage (hashNode : Z) (bufferSend : list Z) : bool := true.

Section operations.
Variable CalculateDigest : list Z -> HashTable.UniqueHash.
Variable ASSERT_false : fs unit.
Variable now : Z.
Variables (uninit_word : Z) (uninit_bool : bool) (uninit_name : list Z)
  (uninit_dir : DirectoryMeta) (uninit_file : FileMeta) (uninit_fpi : file_pos_info).

(** The offset and the key of a lock, which are what the response buffer held
    when the operation did not take it. *)
Definition held_lock (held : option (Z * Z)) : Z * Z := default (uninit_word, uninit_word) held.

Definition extent_response (unlock : Z -> Node -> run (unit * Node)) (me : Z) (op : fs extent_result)
    : fs Response :=
  r ← op;
  let h := held_lock r.2 in
  _ ← at_node me (unlock h.1);
  mret (ExtentReceive r.1.1 r.1.2 h.1 h.2).

Definition read_request (me : Z) (path : list Z) (size offset : Z) : fs Response :=
  extent_response unlockReadHashItem me
    (extentRead CalculateDigest me (Some path) size offset uninit_fpi).

Definition write_request (me : Z) (path : list Z) (size offset : Z) : fs Response :=
  extent_response unlockWriteHashItem me
    (extentWrite CalculateDigest now me (Some path) size offset uninit_fpi).

Definition general (op : fs bool) : fs Response :=
  r ← op; mret (GeneralReceive r).

Definition parseMessage (me : Z) (req : Request) : fs Response :=
  match req with
  | MESSAGE_ADDMETATODIRECTORY path name isDirectory =>
      r ← addMetaToDirectory CalculateDigest uninit_word me path name isDirectory;
      mret (UpdataDirectoryMetaReceive r.1 r.2)
  | MESSAGE_REMOVEMETAFROMDIRECTORY path name =>
      r ← removeMetaFromDirectory CalculateDigest uninit_word uninit_dir me path name;
      mret (UpdataDirectoryMetaReceive r.1 r.2)
  | MESSAGE_DOCOMMIT path p => general (updateDirectoryMeta CalculateDigest 1 me (Some path) p)
  | MESSAGE_MKNOD path =>
      general (mknod CalculateDigest now uninit_bool uninit_name uninit_file me (Some path))
  | MESSAGE_GETATTR path =>
      r ← getattr CalculateDigest me (Some path) (Some uninit_file);
      mret (GetAttributeReceive r.1 (default uninit_file r.2))
  | MESSAGE_ACCESS path => general (access CalculateDigest me (Some path))
  | MESSAGE_MKDIR path => general (mkdir CalculateDigest ASSERT_false uninit_name uninit_dir me (Some path))
  | MESSAGE_READDIR path =>
      r ← readdir CalculateDigest me (Some path) (Some uninit_dir);
      mret (ReadDirectoryReceive r.1 (default uninit_dir r.2))
  | MESSAGE_READDIRECTORYMETA path =>
      r ← readDirectoryMeta CalculateDigest 1 me path;
      mret (ReadDirectoryMetaReceive r)
  | MESSAGE_EXTENTREAD path size offset | MESSAGE_RAWREAD path size offset =>
      read_request me path size offset
  | MESSAGE_EXTENTWRITE path size offset | MESSAGE_RAWWRITE path size offset =>
      write_request me path size offset
  | MESSAGE_UPDATEMETA | MESSAGE_EXTENTREADEND | MESSAGE_OTHER => mret Unfilled
  | MESSAGE_TRUNCATE path size => general (truncate CalculateDigest me (Some path) size)
  | MESSAGE_RMDIR path =>
      general (rmdir CalculateDigest uninit_word uninit_name uninit_dir me (Some path))
  | MESSAGE_REMOVE path =>
      r ← remove CalculateDigest uninit_name uninit_dir me (Some path) uninit_file;
      mret (GetAttributeReceive r.1 r.2)
  | MESSAGE_FREEBLOCK startBlock countBlock => general (blockFree uninit_bool me startBlock countBlock)
  | MESSAGE_MKNODWITHMETA path metaFile =>
      general (mknodWithMeta CalculateDigest now me (Some path) (Some metaFile))
  | MESSAGE_RENAME pathOld pathNew =>
      general (rename CalculateDigest uninit_word uninit_name uninit_dir me (Some pathOld) (Some pathNew))
  end.

(** ** Listing a subtree *)

(** A line of output: the depth, the number of the entry, its kind and name. *)
Definition line : Type := Z * Z * bool * list Z.

(** [strcpy] of the path, a slash unless the path is ["/"], and the name. *)
Definition childPath (path name : list Z) : list Z :=
  (if strcmp (path ++ [0]) [slash; 0] =? 0 then path else path ++ [slash]) ++ name.

Fixpoint list_entries (sub : list Z -> fs (bool * list line)) (n : nat) (d : DirectoryMeta)
    (path : list Z) (depth i : Z) : fs (list line) :=
  match n with
  | O => mret []
  | S n =>
      e ← pure (list_index (dm_tuple d) i);
      let name := cstr (names e) in
      below ← (if isDirectories e : bool then sub (childPath path name) else mret (true, []));
      rest ← list_entries sub n d path depth (i + 1);
      mret ((depth, i, isDirectories e, name) :: below.2 ++ rest)
  end.

(** [recursivereaddir], with the lines it prints. It takes no lock, and visits
    only what is on this server. The fuel bounds the depth. *)
Fixpoint recursivereaddir (fuel : nat) (me : Z) (path : option (list Z)) (depth : Z)
    : fs (bool * list line) :=
  match fuel, path with
  | O, _ => fun _ => Blocked
  | _, None => mret (false, [])
  | S fuel, Some path =>
      hashNode ← node_of CalculateDigest me path;
      here ← checkLocal me hashNode;
      if here : bool then
        found ← hash_get CalculateDigest me path;
        match found with
        | Some (idx, true) =>
            m ← at_node me (on_dirs (fun t => Table.get t idx Out));
            match m with
            | (true, Some d) =>
                ls ← list_entries (fun child => recursivereaddir fuel me (Some child) (depth + 1))
                       (Z.to_nat (dm_count d)) d path depth 0;
                mret (true, ls)
            | _ => mret (false, [])
            end
        | _ => mret (false, [])
        end
      else mret (false, [])
  end.

End operations.

End Messages.
