(* ===== verification/OctDirectory.v ===== *)
(** * Directories as lists of entries

    What the entry routines of OctFileSystem.v do to the list of entries that
    a [DirectoryMeta] holds, and that a copy of the used part of its memory
    carries the list over. *)

From S2P Require Import Prelude.
From S2P Require Import OctBase.
From S2P Require Import OctTable.
From S2P Require Import OctStorage.
From S2P Require Import OctFileSystem.
Open Scope Z_scope.

Module Directory.
Import FileSystem.

(** An entry of a listing: its name and its kind. *)
Abbreviation listed := (list Z * bool)%type.
Definition entry_of (e : DirectoryMetaTuple) : listed := (cstr (names e), isDirectories e).

(** A name that fits an entry. *)
Definition name_ok (name : list Z) : Prop := (0 ∉ name) /\ Z.of_nat (length name) < MAX_FILE_NAME_LENGTH.

Record holds (d : DirectoryMeta) (es : list listed) : Prop := mkHolds {
  ho_tuple : length (dm_tuple d) = 60%nat;
  ho_names : Forall entry_ok (dm_tuple d);
  ho_count : dm_count d = Z.of_nat (length es);
  ho_len : (length es <= 60)%nat;
  ho_entries : map entry_of (take (length es) (dm_tuple d)) = es;
  ho_fit : Forall (fun e => name_ok e.1) es
}.

Lemma holds_ok d es : holds d es -> directory_ok d.
Proof. intros []. split; [lia|]. by split. Qed.

Lemma cstr_app name rest : 0 ∉ name -> cstr (name ++ 0 :: rest) = name.
Proof.
  induction name as [|c name IH]; intros Hn; simpl; [done|].
  apply not_elem_of_cons in Hn as [Hc Hn]. rewrite (proj2 (Z.eqb_neq c 0)) by done.
  by rewrite IH.
Qed.

Lemma cstr_id name : 0 ∉ name -> cstr name = name.
Proof.
  induction name as [|c name IH]; intros Hn; simpl; [done|].
  apply not_elem_of_cons in Hn as [Hc Hn]. rewrite (proj2 (Z.eqb_neq c 0)) by done.
  by rewrite IH.
Qed.

Lemma zero_not_in_cstr s : 0 ∉ cstr s.
Proof.
  induction s as [|c s IH]; simpl; [by apply not_elem_of_nil|].
  destruct (Z.eqb_spec c 0); [by apply not_elem_of_nil|]. apply not_elem_of_cons. split; [done|done].
Qed.

(** Copying a name into an entry. *)
Lemma strcpy_name_spec dst name :
  name_ok name -> length dst = 50%nat ->
  exists nm, strcpy_name dst name = Done nm /\ cstr nm = name /\ length nm = 50%nat.
Proof.
  intros [H0 Hlen] Hd. unfold strcpy_name. rewrite (proj2 (Z.ltb_lt _ _) Hlen).
  unfold MAX_FILE_NAME_LENGTH in Hlen. eexists. split; [done|].
  split; [by apply cstr_app|]. rewrite length_app. simpl. rewrite length_drop. lia.
Qed.

Lemma holds_lookup d es i e :
  holds d es -> es !! i = Some e ->
  exists t, dm_tuple d !! i = Some t /\ entry_of t = e /\ entry_ok t.
Proof.
  intros Hd He. pose proof (lookup_lt_Some _ _ _ He) as Hi.
  pose proof He as He'. rewrite <- (ho_entries _ _ Hd), lookup_map in He'.
  rewrite lookup_take_lt in He' by done.
  destruct (dm_tuple d !! i) as [t|] eqn:Ht; [|done]. simpl in He'. injection He' as He'.
  exists t. split; [done|]. split; [done|].
  by eapply (Forall_lookup_1 _ _ _ _ (ho_names _ _ Hd)).
Qed.

(** Writing entry [k] behind a list of [k] entries. *)
Lemma holds_prefix_store to es k t :
  map entry_of (take k to) = es -> (k < length to)%nat ->
  map entry_of (take (S k) (<[k := t]> to)) = es ++ [entry_of t].
Proof.
  intros Hes Hk. rewrite (take_S_r _ _ t) by by rewrite list_lookup_insert_eq.
  rewrite take_insert_ge by lia. by rewrite map_app, Hes.
Qed.

(** ** Adding an entry *)

Lemma append_entry_spec d es name dir :
  holds d es -> (length es < 60)%nat -> name_ok name ->
  exists d', append_entry d name dir = Done d' /\ holds d' (es ++ [(name, dir)]).
Proof.
  intros Hd Hlen Hn. unfold append_entry. rewrite (ho_count _ _ Hd).
  rewrite (wrap_small 64 (Z.of_nat (length es) + 1)) by (unfold in_width; lia).
  rewrite (wrap_small 64 (Z.of_nat (length es) + 1 - 1)) by (unfold in_width; lia).
  replace (Z.of_nat (length es) + 1 - 1) with (Z.of_nat (length es)) by lia.
  pose proof (ho_tuple _ _ Hd) as H60.
  destruct (lookup_lt_is_Some_2 (dm_tuple d) (length es)) as [old Hold]; [lia|].
  rewrite (list_index_Done _ _ old) by (lia || by rewrite Nat2Z.id). cbn [mbind run_bind].
  assert (entry_ok old) as Hok by (by eapply (Forall_lookup_1 _ _ _ _ (ho_names _ _ Hd))).
  destruct (strcpy_name_spec (names old) name Hn Hok) as (nm & -> & Hnm & Hnl). cbn [mbind run_bind].
  rewrite list_store_Done by lia. cbn [mbind run_bind]. rewrite Nat2Z.id.
  eexists. split; [done|]. split; cbn [dm_tuple dm_count].
  - by rewrite length_insert.
  - apply Forall_insert; [apply Hd|done].
  - rewrite length_app. simpl. lia.
  - rewrite length_app. simpl. lia.
  - rewrite length_app, Nat.add_comm. simpl plus.
    rewrite (holds_prefix_store _ es) by (apply Hd || lia). unfold entry_of. simpl. by rewrite Hnm.
  - apply Forall_app. split; [apply Hd|]. by constructor.
Qed.

(** ** Copying entries *)

Lemma copy_others_spec es name : forall n from i to k found,
  name_ok name -> n = length es -> Forall entry_ok to -> (k + length es <= length to)%nat ->
  (forall j e, es !! j = Some e -> exists t, from !! (i + j)%nat = Some t /\ entry_of t = e) ->
  Forall (fun e => name_ok e.1) es ->
  exists to' found', copy_others n from (Z.of_nat i) name to (Z.of_nat k) found =
    Done (to', Z.of_nat (k + length (filter (fun e => e.1 <> name) es)), found') /\
    length to' = length to /\ Forall entry_ok to' /\
    map entry_of (take (k + length (filter (fun e => e.1 <> name) es)) to') =
    map entry_of (take k to) ++ filter (fun e => e.1 <> name) es /\
    (found' = true <-> found = true \/ Exists (fun e => e.1 = name) es).
Proof.
  induction es as [|e es IH]; intros n from i to k found Hname -> Hto Hk Hfrom Hfit; cbn [copy_others length].
  - exists to, found. rewrite filter_nil, Nat.add_0_r, app_nil_r. split; [done|].
    do 3 (split; [done|]). rewrite Exists_nil. tauto.
  - destruct (Hfrom 0%nat e eq_refl) as (t & Ht & Hte). rewrite Nat.add_0_r in Ht.
    rewrite (list_index_Done from _ t) by (lia || by rewrite Nat2Z.id). cbn [mbind run_bind].
    apply Forall_cons in Hfit as [He Hfit].
    assert (forall j e', es !! j = Some e' ->
      exists t, from !! (S i + j)%nat = Some t /\ entry_of t = e') as Hfrom'.
    { intros j e' Hj. destruct (Hfrom (S j) e' Hj) as (t' & ? & ?). exists t'.
      by replace (S i + j)%nat with (i + S j)%nat by lia. }
    replace (Z.of_nat i + 1) with (Z.of_nat (S i)) by lia.
    simpl in Hk. destruct (Z.eqb_spec (strcmp (names t) name) 0) as [Heq|Hne].
    + apply strcmp_eq in Heq. rewrite (cstr_id name) in Heq by apply Hname.
      assert (e.1 = name) as Hen by by rewrite <- Hte.
      rewrite filter_cons_False by tauto.
      destruct (IH (length es) from (S i) to k true Hname eq_refl Hto ltac:(lia) Hfrom' Hfit)
        as (to' & f' & -> & Hl & Hok & Hm & Hf).
      exists to', f'. do 4 (split; [done|]). rewrite Exists_cons. tauto.
    + assert (e.1 <> name) as Hen.
      { intros Hen. apply Hne, strcmp_eq. rewrite (cstr_id name) by apply Hname. by rewrite <- Hen, <- Hte. }
      rewrite filter_cons_True by done.
      destruct (lookup_lt_is_Some_2 to k) as [old Hold]; [lia|].
      rewrite (list_index_Done to _ old) by (lia || by rewrite Nat2Z.id). cbn [mbind run_bind].
      destruct (strcpy_name_spec (names old) (cstr (names t))) as (nm & -> & Hnm & Hnl);
        [by rewrite <- Hte in He|by eapply (Forall_lookup_1 _ _ _ _ Hto)|]. cbn [mbind run_bind].
      rewrite list_store_Done by lia. cbn [mbind run_bind]. rewrite Nat2Z.id.
      replace (Z.of_nat k + 1) with (Z.of_nat (S k)) by lia.
      destruct (IH (length es) from (S i) (<[k := mkEntry nm (isDirectories t)]> to) (S k) found
        Hname eq_refl) as (to' & f' & -> & Hl & Hok & Hm & Hf); [by apply Forall_insert| |done|done|].
      { rewrite length_insert. lia. }
      exists to', f'. rewrite length_insert in Hl. simpl length. rewrite !Nat.add_succ_r.
      split; [done|]. split; [done|]. split; [done|]. split.
      * rewrite Nat.add_succ_l in Hm. rewrite Hm, (holds_prefix_store _ _ _ _ eq_refl) by lia.
        rewrite <- app_assoc. simpl. do 3 f_equal. unfold entry_of. simpl. rewrite Hnm.
        by rewrite <- Hte.
      * rewrite Hf, Exists_cons. tauto.
Qed.

Lemma remove_entry_spec d es name uninit :
  holds d es -> name_ok name -> length (dm_tuple uninit) = 60%nat -> Forall entry_ok (dm_tuple uninit) ->
  exists d' found, remove_entry d name uninit = Done (d', found) /\
    holds d' (filter (fun e => e.1 <> name) es) /\
    (found = true <-> Exists (fun e => e.1 = name) es).
Proof.
  intros Hd Hn H60 Hok. unfold remove_entry. rewrite (ho_count _ _ Hd), Nat2Z.id.
  pose proof (ho_len _ _ Hd).
  destruct (copy_others_spec es name (length es) (dm_tuple d) 0 (dm_tuple uninit) 0 false)
    as (to' & found & Hc & Hl & Hok' & Hm & Hf); try done.
  - lia.
  - intros j e He. destruct (holds_lookup d es j e Hd He) as (t & ? & ? & _). by exists t.
  - apply Hd.
  - change (Z.of_nat 0) with 0 in Hc. rewrite Hc. cbn [mbind run_bind fst snd].
    eexists _, found. split; [done|]. split; [|rewrite Hf; intuition congruence].
    assert (length (filter (fun e : listed => e.1 <> name) es) <= length es)%nat by apply length_filter.
    split; cbn [dm_tuple dm_count]; try done.
    + by rewrite Hl.
    + lia.
    + apply Forall_forall. intros e [_ He]%list_elem_of_filter.
      by eapply Forall_forall in He; [|apply Hd].
Qed.

Lemma copy_entries_spec es : forall n from i to,
  n = length es -> Forall entry_ok to -> (i + length es <= length to)%nat ->
  (forall j e, es !! j = Some e -> exists t, from !! (i + j)%nat = Some t /\ entry_of t = e) ->
  Forall (fun e => name_ok e.1) es ->
  exists to', copy_entries n from (Z.of_nat i) to = Done to' /\ length to' = length to /\
    Forall entry_ok to' /\
    map entry_of (take (i + length es) to') = map entry_of (take i to) ++ es.
Proof.
  induction es as [|e es IH]; intros n from i to -> Hto Hi Hfrom Hfit; cbn [copy_entries length].
  - exists to. by rewrite Nat.add_0_r, app_nil_r.
  - destruct (Hfrom 0%nat e eq_refl) as (t & Ht & Hte). rewrite Nat.add_0_r in Ht. simpl in Hi.
    apply Forall_cons in Hfit as [He Hfit].
    rewrite (list_index_Done from _ t) by (lia || by rewrite Nat2Z.id). cbn [mbind run_bind].
    destruct (lookup_lt_is_Some_2 to i) as [old Hold]; [lia|].
    rewrite (list_index_Done to _ old) by (lia || by rewrite Nat2Z.id). cbn [mbind run_bind].
    destruct (strcpy_name_spec (names old) (cstr (names t))) as (nm & -> & Hnm & Hnl);
      [by rewrite <- Hte in He|by eapply (Forall_lookup_1 _ _ _ _ Hto)|]. cbn [mbind run_bind].
    rewrite list_store_Done by lia. cbn [mbind run_bind]. rewrite Nat2Z.id.
    replace (Z.of_nat i + 1) with (Z.of_nat (S i)) by lia.
    destruct (IH (length es) from (S i) (<[i := mkEntry nm (isDirectories t)]> to) eq_refl)
      as (to' & -> & Hl & Hok & Hm); [by apply Forall_insert|rewrite length_insert; lia| |done|].
    { intros j e' Hj. destruct (Hfrom (S j) e' Hj) as (t' & ? & ?). exists t'.
      by replace (S i + j)%nat with (i + S j)%nat by lia. }
    exists to'. rewrite length_insert in Hl. split; [done|]. split; [done|]. split; [done|].
    rewrite Nat.add_succ_r. rewrite Nat.add_succ_l in Hm.
    rewrite Hm, (holds_prefix_store _ _ _ _ eq_refl) by lia.
    rewrite <- app_assoc. simpl. do 3 f_equal. unfold entry_of. simpl. rewrite Hnm. by rewrite <- Hte.
Qed.

(** A listing copied into a caller's buffer. *)
Lemma copy_list_spec d es out :
  holds d es -> length (dm_tuple out) = 60%nat -> Forall entry_ok (dm_tuple out) ->
  exists ts, copy_entries (Z.to_nat (dm_count d)) (dm_tuple d) 0 (dm_tuple out) = Done ts /\
    holds (mkDirectoryMeta (dm_count d) ts) es.
Proof.
  intros Hd H60 Hok. rewrite (ho_count _ _ Hd), Nat2Z.id. pose proof (ho_len _ _ Hd).
  destruct (copy_entries_spec es (length es) (dm_tuple d) 0 (dm_tuple out)) as (ts & Hc & Hl & Hok' & Hm);
    try done.
  - lia.
  - intros j e He. destruct (holds_lookup d es j e Hd He) as (t & ? & ? & _). by exists t.
  - apply Hd.
  - change (Z.of_nat 0) with 0 in Hc. exists ts. split; [done|].
    split; cbn [dm_tuple dm_count]; try done; [by rewrite Hl|apply Hd].
Qed.

(** ** Copying memory *)

Lemma byte_at_prefix (a b : list Z) (n : nat) i :
  take n a = take n b -> 0 <= i < Z.of_nat n -> byte_at a i = byte_at b i.
Proof.
  intros Hp Hi. unfold byte_at.
  by rewrite <- (lookup_take_lt a n), <- (lookup_take_lt b n), Hp by lia.
Qed.

Lemma le_read_prefix (a b : list Z) (n : nat) : forall k off,
  take n a = take n b -> 0 <= off -> off + Z.of_nat k <= Z.of_nat n -> le_read k a off = le_read k b off.
Proof.
  induction k as [|k IH]; intros off Hp H0 Hk; cbn [le_read]; [done|].
  rewrite (byte_at_prefix a b n off), IH by (done || lia). done.
Qed.

Lemma load_entry_prefix (a b : list Z) (n k : nat) :
  take n a = take n b -> (k + 51 <= n)%nat -> load_entry (drop k a) = load_entry (drop k b).
Proof.
  intros Hp Hk. unfold load_entry. rewrite !byte_at_drop, (byte_at_prefix a b n) by (done || lia).
  f_equal. rewrite !take_drop_commute. f_equal.
  replace (k + 50)%nat with (Nat.min (k + 50) n) by lia. by rewrite <- !take_take, Hp.
Qed.

Lemma load_directory_prefix (a b : list Z) (n : nat) :
  take (8 + n * 51) a = take (8 + n * 51) b -> (n <= 60)%nat ->
  dm_count (load_directory_meta a) = dm_count (load_directory_meta b) /\
  take n (dm_tuple (load_directory_meta a)) = take n (dm_tuple (load_directory_meta b)).
Proof.
  intros Hp Hn. unfold load_directory_meta. cbn [dm_count dm_tuple]. split.
  - apply (le_read_prefix a b (8 + n * 51)); [done|lia|lia].
  - apply list_eq. intros i. destruct (decide (i < n)%nat) as [Hi|Hi].
    + rewrite !lookup_take_lt, !lookup_map by done. rewrite lookup_seq_lt by lia. simpl. f_equal.
      apply (load_entry_prefix a b (8 + n * 51)); [done|lia].
    + by rewrite !lookup_take_ge by lia.
Qed.

Lemma length_store_directory d : directory_ok d -> length (store_directory_meta d) = 3072%nat.
Proof.
  intros (_ & Hlen & Hes). unfold store_directory_meta.
  rewrite !length_app, length_le_bytes, length_store_entries, Hlen by done. done.
Qed.

(** A directory whose used part is copied over another holds the same list. *)
Lemma copied_holds d old es size :
  holds d es -> directory_ok old -> (8 + length es * 51 <= size <= 3072)%nat ->
  holds (load_directory_meta (take size (store_directory_meta d)
                              ++ drop size (store_directory_meta old))) es.
Proof.
  intros Hd Hold Hsize. pose proof (holds_ok _ _ Hd) as Hok.
  pose proof (length_store_directory _ Hok) as Hl. pose proof (length_store_directory _ Hold) as Hlo.
  set (bs := take size _ ++ drop size _).
  assert (length bs = 3072%nat) as Hbs.
  { unfold bs. rewrite length_app, length_take, length_drop. lia. }
  destruct (load_directory_prefix bs (store_directory_meta d) (length es)) as [Hcount Htake].
  { unfold bs. rewrite take_app_le by (rewrite length_take; lia).
    rewrite take_take. f_equal. lia. }
  { apply Hd. }
  rewrite load_store_directory in Hcount, Htake by done.
  split.
  - unfold load_directory_meta. cbn [dm_tuple]. by rewrite length_map.
  - apply Forall_forall. intros e He. unfold load_directory_meta in He. cbn [dm_tuple] in He.
    apply list_elem_of_fmap in He as (i & -> & Hi%elem_of_seq). unfold entry_ok, load_entry.
    cbn [names]. rewrite length_take, length_drop. lia.
  - rewrite Hcount. apply Hd.
  - apply Hd.
  - rewrite Htake. apply Hd.
  - apply Hd.
Qed.

End Directory.
