(* ===== verification/OctFsRep.v ===== *)
(** * What the servers of an octopus cluster hold

    A view is the abstract state of a server: the maps of its path index and
    of its tables, the lock words that are not zero, and the number of log
    entries in use. [wp] specifies an operation of the file-system monad by
    views: from a cluster with the given views it returns, with a result and
    views that satisfy the postcondition. This file has its rules and the
    specifications of the steps that the operations are made of. *)

From S2P Require Import Prelude.
From S2P Require Import OctBase.
From S2P Require Import OctBitmap.
From S2P Require Import OctTable.
From S2P Require Import OctHashTable.
From S2P Require Import OctHashProps.
From S2P Require Import OctLock.
From S2P Require Import OctTx.
From S2P Require Import OctStorage.
From S2P Require Import OctFileSystem.
From S2P Require Import OctDirectory.
Open Scope Z_scope.

Module FsRep.
Import FileSystem Directory.

(** ** Views *)

(** What does not change on a server: how much it can hold, and the addresses
    of its table of directories and of its buffer. *)
Record capacity : Type := mkCapacity {
  c_items : Z;
  c_files : Z;
  c_dirs : Z;
  c_blocks : Z;
  c_log : Z;
  c_dirs_at : Z;
  c_base : Z
}.

Record view : Type := mkView {
  v_paths : gmap HashTable.UniqueHash (Z * bool);
  v_files : gmap Z FileMeta;
  v_dirs : gmap Z DirectoryMeta;
  v_blocks : gmap Z Block;
  v_locks : gmap Z Z;
  v_log : Z;
  v_cap : capacity
}.

Definition set_paths m v := mkView m (v_files v) (v_dirs v) (v_blocks v) (v_locks v) (v_log v) (v_cap v).
Definition set_files m v := mkView (v_paths v) m (v_dirs v) (v_blocks v) (v_locks v) (v_log v) (v_cap v).
Definition set_dirs m v := mkView (v_paths v) (v_files v) m (v_blocks v) (v_locks v) (v_log v) (v_cap v).
Definition set_blocks m v := mkView (v_paths v) (v_files v) (v_dirs v) m (v_locks v) (v_log v) (v_cap v).
Definition set_locks m v := mkView (v_paths v) (v_files v) (v_dirs v) (v_blocks v) m (v_log v) (v_cap v).
Definition set_log i v := mkView (v_paths v) (v_files v) (v_dirs v) (v_blocks v) (v_locks v) i (v_cap v).

(** Addresses of the table of directories do not wrap around. *)
Definition addresses_ok (t : Table.Table DirectoryMeta) : Prop :=
  0 <= Table.itemsAddress t /\ Table.itemsAddress t + Table.total t * sizeof_DirectoryMeta < 2 ^ 64.

(** Server [k] of [N] servers has view [v]. *)
Record node_rep (N k : Z) (n : Node) (v : view) : Prop := mkNodeRep {
  nr_storage : srep (storage n) (v_paths v) (v_files v) (v_dirs v) (v_blocks v);
  nr_nodes : countNode (storage n) = N;
  nr_local : hashLocalNode n = k;
  nr_lockID : 0 <= lockID n < 2 ^ 16;
  nr_locks : forall a, in_table a ->
    HashTable.key (aget (HashTable.itemsHash (hashtable (storage n))) a) = default 0 (v_locks v !! a);
  nr_tx : TxManager.tx_ok (txlog n);
  nr_log : TxManager.LocalLogIndex (txlog n) = v_log v;
  nr_log_len : alen (TxManager.localLog (txlog n)) = c_log (v_cap v);
  nr_items : count (hashtable (storage n)) = c_items (v_cap v);
  nr_files : Table.total (tableFileMeta (storage n)) = c_files (v_cap v);
  nr_dirs : Table.total (tableDirectoryMeta (storage n)) = c_dirs (v_cap v);
  nr_blocks : Table.total (tableBlock (storage n)) = c_blocks (v_cap v);
  nr_addresses : addresses_ok (tableDirectoryMeta (storage n));
  nr_base : dmfsBase n = c_base (v_cap v);
  nr_dirs_at : Table.itemsAddress (tableDirectoryMeta (storage n)) = c_dirs_at (v_cap v)
}.

Section cluster.
(** The number of servers: their numbers are 1 to [N], in 16 bits. *)
Context (N : Z) (HN : 0 < N < 2 ^ 16).

Definition crep (c : Cluster) (V : gmap Z view) : Prop :=
  forall k v, V !! k = Some v -> exists n, c !! k = Some n /\ node_rep N k n v.

(** ** Weakest preconditions *)

Definition wp {A} (m : fs A) (V : gmap Z view) (Q : A -> gmap Z view -> Prop) : Prop :=
  forall c, crep c V -> exists a c' V', m c = Done (a, c') /\ crep c' V' /\ Q a V'.

Lemma wp_ret {A} (a : A) V (Q : A -> gmap Z view -> Prop) : Q a V -> wp (mret a) V Q.
Proof. intros HQ c Hc. by exists a, c, V. Qed.

Lemma wp_seq {A B} (m : fs A) (f : A -> fs B) V Q :
  wp m V (fun a V' => wp (f a) V' Q) -> wp (m ≫= f) V Q.
Proof.
  intros Hm c Hc. destruct (Hm c Hc) as (a & c1 & V1 & Hr & Hc1 & Hf).
  destruct (Hf c1 Hc1) as (b & c2 & V2 & Hr2 & Hc2 & HQ).
  exists b, c2, V2. split; [|done]. unfold mbind, fs_bind. by rewrite Hr.
Qed.

Lemma wp_conseq {A} (m : fs A) V (Q Q' : A -> gmap Z view -> Prop) :
  wp m V Q -> (forall a V', Q a V' -> Q' a V') -> wp m V Q'.
Proof.
  intros Hm HQ c Hc. destruct (Hm c Hc) as (a & c1 & V1 & Hr & Hc1 & Ha).
  exists a, c1, V1. auto.
Qed.

Lemma wp_pure {A} (r : run A) (a : A) V (Q : A -> gmap Z view -> Prop) :
  r = Done a -> Q a V -> wp (pure r) V Q.
Proof. intros -> HQ c Hc. by exists a, c, V. Qed.

Lemma wp_at_node {A} (me : Z) (f : Node -> run (A * Node)) V v Q :
  V !! me = Some v ->
  (forall n, node_rep N me n v ->
     exists a n' v', f n = Done (a, n') /\ node_rep N me n' v' /\ Q a (<[me := v']> V)) ->
  wp (at_node me f) V Q.
Proof.
  intros Hv Hf c Hc. destruct (Hc me v Hv) as (n & Hn & Hr).
  destruct (Hf n Hr) as (a & n' & v' & Hrun & Hr' & HQ).
  exists a, (<[me := n']> c), (<[me := v']> V). split; [|split; [|done]].
  - unfold at_node. by rewrite Hn, Hrun.
  - intros k w. destruct (decide (me = k)) as [<-|Hne].
    + rewrite !lookup_insert_eq. intros [= <-]. by exists n'.
    + rewrite !lookup_insert_ne by done. apply Hc.
Qed.

(** A step that only reads. *)
Lemma wp_read {A} (me : Z) (f : Node -> run (A * Node)) V v (Q : A -> gmap Z view -> Prop) :
  V !! me = Some v ->
  (forall n, node_rep N me n v -> exists a, f n = Done (a, n) /\ Q a V) ->
  wp (at_node me f) V Q.
Proof.
  intros Hv Hf. apply (wp_at_node me f V v Q Hv). intros n Hr.
  destruct (Hf n Hr) as (a & Ha & HQ). exists a, n, v. rewrite insert_id by done. auto.
Qed.

(** ** Servers of paths *)

Section digests.
Variable CalculateDigest : list Z -> HashTable.UniqueHash.
Local Abbreviation digest := (digest CalculateDigest).

(** The server of a path. *)
Definition home (path : list Z) : Z := HashTable.value3 (digest path) mod N + 1.

Lemma home_range path : 1 <= home path <= N.
Proof using HN.
  unfold home. pose proof (Z.mod_pos_bound (HashTable.value3 (digest path)) N). lia.
Qed.

Lemma home_u16 path : u16 (home path) = home path.
Proof using HN. apply wrap_small. pose proof (home_range path). unfold in_width. lia. Qed.

Lemma wp_node_of me path V v (Q : Z -> gmap Z view -> Prop) :
  V !! me = Some v -> Q (home path) V -> wp (node_of CalculateDigest me path) V Q.
Proof using HN.
  intros Hv HQ. apply (wp_read me _ V v); [done|]. intros n Hr. exists (home path).
  split; [|done]. unfold getNodeHash. simpl mbind. rewrite (nr_nodes _ _ _ _ Hr).
  rewrite wrap_small; [done|]. pose proof (home_range path) as H. unfold home in H. unfold in_width. lia.
Qed.

Lemma wp_checkLocal me h V v (Q : bool -> gmap Z view -> Prop) :
  V !! me = Some v -> Q (h =? me) V -> wp (checkLocal me h) V Q.
Proof.
  intros Hv HQ. apply (wp_read me _ V v); [done|]. intros n Hr. exists (h =? me).
  by rewrite (nr_local _ _ _ _ Hr).
Qed.

(** ** Lock words *)

Lemma hrep_heads ht m hs :
  hrep ht m -> alen hs = alen (HashTable.itemsHash ht) ->
  (forall a, HashTable.indexHead (aget hs a) = HashTable.indexHead (aget (HashTable.itemsHash ht) a)) ->
  hrep (HashTable.with_heads hs ht) m.
Proof.
  intros [Hmx (ch & U & Hs & Hc)] Hlen Hh. split; [done|]. exists ch, U. split; [|done].
  destruct Hs. split; simpl; try done; [by rewrite Hlen|]. intros a Ha. rewrite Hh. auto.
Qed.

Lemma in_table_bound n k v a :
  node_rep N k n v -> in_table a -> 0 <= a < alen (HashTable.itemsHash (hashtable (storage n))).
Proof.
  intros Hr Ha. destruct (sr_paths _ _ _ _ _ (nr_storage _ _ _ _ Hr)) as [_ (ch & U & Hs & _)].
  pose proof (sh_heads_len _ _ _ Hs). unfold in_table in Ha. lia.
Qed.

Lemma lock_word_spec n k v a :
  node_rep N k n v -> in_table a -> lock_word n a = Done (default 0 (v_locks v !! a)).
Proof.
  intros Hr Ha. unfold lock_word. rewrite index_Done by by apply (in_table_bound n k v).
  cbn [mbind run_bind]. by rewrite (nr_locks _ _ _ _ Hr).
Qed.

(** Writing a lock word: [locks] are the words afterwards. *)
Lemma set_lock_word_spec n k v a w locks :
  node_rep N k n v -> in_table a ->
  (forall b, in_table b -> default 0 (locks !! b) = if b =? a then w else default 0 (v_locks v !! b)) ->
  exists n', set_lock_word w a n = Done n' /\ node_rep N k n' (set_locks locks v).
Proof.
  intros Hr Ha Hl. unfold set_lock_word.
  pose proof (in_table_bound n k v a Hr Ha) as Hb.
  rewrite index_Done by done. cbn [mbind run_bind]. rewrite store_Done by done. cbn [mbind run_bind].
  eexists. split; [done|]. destruct Hr as [[Hp Hf Hd Hbl] ? ? ? Hk]. split; try done.
  - split; try done. simpl. apply hrep_heads; [done|done|]. intros b. simpl.
    destruct (Z.eqb_spec b a) as [->|]; done.
  - intros b Hbt. simpl. rewrite Hl by done. destruct (b =? a); simpl; auto.
Qed.

Lemma wp_lock_write me h addr V v (Q : Z -> gmap Z view -> Prop) :
  V !! me = Some v -> v_locks v !! addr = None -> in_table addr -> 0 < h < 2 ^ 16 ->
  (forall key, LockService.is_key key -> Q key (<[me := set_locks (<[addr := key]> (v_locks v)) v]> V)) ->
  wp (at_node me (lockWriteHashItem h addr)) V Q.
Proof.
  intros Hv Hfree Ha Hh HQ. apply (wp_at_node me _ V v); [done|]. intros n Hr.
  unfold lockWriteHashItem. rewrite (lock_word_spec n me v addr Hr Ha), Hfree. cbn [mbind run_bind from_option id].
  rewrite (wrap_small 16 h) by (unfold in_width; lia).
  pose proof (LockService.write_key_is_key h (lockID n) Hh (nr_lockID _ _ _ _ Hr)) as Hkey.
  set (key := LockService.write_key h (lockID n)) in *.
  assert (node_rep N me (with_lockID (LockService.next_WriteID (lockID n)) n) v) as Hr'.
  { destruct Hr. split; try done. simpl. apply wrap_range. lia. }
  destruct (set_lock_word_spec _ me v addr key (<[addr := key]> (v_locks v)) Hr' Ha)
    as (n' & Hset & Hn').
  { intros b _. destruct (Z.eqb_spec b addr) as [->|Hne].
    - by rewrite lookup_insert_eq.
    - by rewrite lookup_insert_ne by done. }
  unfold LockService.write_try. simpl fst. simpl snd. cbv iota. rewrite Hset. cbn [mbind run_bind].
  eexists _, _, _. split; [done|]. split; [exact Hn'|]. by apply HQ.
Qed.

Lemma wp_unlock_write me addr key V v (Q : unit -> gmap Z view -> Prop) :
  V !! me = Some v -> v_locks v !! addr = Some key -> LockService.is_key key -> in_table addr ->
  Q tt (<[me := set_locks (delete addr (v_locks v)) v]> V) ->
  wp (at_node me (unlockWriteHashItem addr)) V Q.
Proof.
  intros Hv Hkey Hk Ha HQ. apply (wp_at_node me _ V v); [done|]. intros n Hr.
  unfold unlockWriteHashItem. rewrite (lock_word_spec n me v addr Hr Ha), Hkey. cbn [mbind run_bind from_option id].
  assert (LockService.WriteUnlock key = 0) as ->.
  { destruct Hk as (k & ? & ->). unfold LockService.WriteUnlock. by apply Z.mod_mul. }
  destruct (set_lock_word_spec n me v addr 0 (delete addr (v_locks v)) Hr Ha) as (n' & -> & Hn').
  { intros b _. destruct (Z.eqb_spec b addr) as [->|Hne].
    - by rewrite lookup_delete_eq.
    - by rewrite lookup_delete_ne by done. }
  cbn [mbind run_bind]. eexists _, _, _. split; [done|]. split; [exact Hn'|]. done.
Qed.

Lemma wp_lock_read me addr V v (Q : Z -> gmap Z view -> Prop) :
  V !! me = Some v -> v_locks v !! addr = None -> in_table addr ->
  Q 1 (<[me := set_locks (<[addr := 1]> (v_locks v)) v]> V) ->
  wp (at_node me (lockReadHashItem addr)) V Q.
Proof.
  intros Hv Hfree Ha HQ. apply (wp_at_node me _ V v); [done|]. intros n Hr.
  unfold lockReadHashItem. rewrite (lock_word_spec n me v addr Hr Ha), Hfree. cbn [mbind run_bind from_option id].
  destruct (set_lock_word_spec n me v addr 1 (<[addr := 1]> (v_locks v)) Hr Ha) as (n' & Hset & Hn').
  { intros b _. destruct (Z.eqb_spec b addr) as [->|Hne].
    - by rewrite lookup_insert_eq.
    - by rewrite lookup_insert_ne by done. }
  change (LockService.read_begin 0) with (true, 1). cbv iota beta. simpl fst. simpl snd. rewrite Hset.
  cbn [mbind run_bind]. eexists _, _, _. split; [done|]. split; [exact Hn'|]. done.
Qed.

Lemma wp_unlock_read me addr V v (Q : unit -> gmap Z view -> Prop) :
  V !! me = Some v -> v_locks v !! addr = Some 1 -> in_table addr ->
  Q tt (<[me := set_locks (delete addr (v_locks v)) v]> V) ->
  wp (at_node me (unlockReadHashItem addr)) V Q.
Proof.
  intros Hv Hkey Ha HQ. apply (wp_at_node me _ V v); [done|]. intros n Hr.
  unfold unlockReadHashItem. rewrite (lock_word_spec n me v addr Hr Ha), Hkey. cbn [mbind run_bind from_option id].
  change (LockService.ReadUnlock 1) with 0.
  destruct (set_lock_word_spec n me v addr 0 (delete addr (v_locks v)) Hr Ha) as (n' & -> & Hn').
  { intros b _. destruct (Z.eqb_spec b addr) as [->|Hne].
    - by rewrite lookup_delete_eq.
    - by rewrite lookup_delete_ne by done. }
  cbn [mbind run_bind]. eexists _, _, _. split; [done|]. split; [exact Hn'|]. done.
Qed.

(** ** The path index *)

Lemma node_rep_paths n k v ht m :
  node_rep N k n v -> hrep ht m -> count ht = count (hashtable (storage n)) ->
  (forall a, HashTable.key (aget (HashTable.itemsHash ht) a) =
             HashTable.key (aget (HashTable.itemsHash (hashtable (storage n))) a)) ->
  node_rep N k (with_storage (with_hashtable ht (storage n)) n) (set_paths m v).
Proof.
  intros [[] ? ? ? Hk] Hh Hc Hkeys. split; try done; simpl.
  - intros a Ha. rewrite Hkeys. auto.
  - by rewrite Hc.
Qed.

Lemma wp_hash_get me path V v (Q : option (Z * bool) -> gmap Z view -> Prop) :
  V !! me = Some v -> Q (v_paths v !! digest path) V -> wp (hash_get CalculateDigest me path) V Q.
Proof.
  intros Hv HQ. apply wp_seq, (wp_read me _ V v _ Hv). intros n Hr.
  unfold on_hashtable. pose proof (sr_paths _ _ _ _ _ (nr_storage _ _ _ _ Hr)) as Hh.
  rewrite (index_get_spec _ _ _ Hh).
  assert (with_storage (with_hashtable (hashtable (storage n)) (storage n)) n = n) as Hsame
    by (by destruct n as [[]]).
  destruct (v_paths v !! digest path) as [x|]; cbn [mbind run_bind fst snd]; rewrite Hsame;
    (eexists; split; [done|]; by apply wp_ret).
Qed.

Lemma wp_hash_put me path meta dir V v (Q : bool -> gmap Z view -> Prop) :
  V !! me = Some v -> v_paths v !! digest path = None ->
  Z.of_nat (size (v_paths v)) < c_items (v_cap v) - 1 ->
  Q true (<[me := set_paths (<[digest path := (meta, dir)]> (v_paths v)) v]> V) ->
  wp (hash_put CalculateDigest me path meta dir) V Q.
Proof.
  intros Hv Hno Hroom HQ. apply (wp_at_node me _ V v); [done|]. intros n Hr.
  unfold on_hashtable. pose proof (sr_paths _ _ _ _ _ (nr_storage _ _ _ _ Hr)) as Hh.
  destruct (index_put_spec _ _ (digest path) meta dir Hh) as (ht & -> & Hh' & Hc & Hk).
  assert (put_ok (count (hashtable (storage n))) (v_paths v) (digest path) = true) as Hok.
  { unfold put_ok. rewrite (nr_items _ _ _ _ Hr), Hno. simpl. by apply Z.ltb_lt. }
  rewrite Hok in Hh' |- *. cbn [mbind run_bind fst snd].
  eexists _, _, _. split; [done|]. split; [by apply node_rep_paths|done].
Qed.

Lemma wp_hash_del me path V v (Q : bool -> gmap Z view -> Prop) :
  V !! me = Some v -> is_Some (v_paths v !! digest path) ->
  Q true (<[me := set_paths (delete (digest path) (v_paths v)) v]> V) ->
  wp (hash_del CalculateDigest me path) V Q.
Proof.
  intros Hv [x Hx] HQ. apply (wp_at_node me _ V v); [done|]. intros n Hr.
  unfold on_hashtable. pose proof (sr_paths _ _ _ _ _ (nr_storage _ _ _ _ Hr)) as Hh.
  destruct (del_spec _ _ (digest path) Hh) as (ht & -> & Hh' & Hc & Hk).
  assert (del_ok (v_paths v) (digest path) = true) as ->.
  { unfold del_ok. apply bool_decide_eq_true. exists (digest path), x. done. }
  cbn [mbind run_bind fst snd].
  eexists _, _, _. split; [done|]. split; [by apply node_rep_paths|done].
Qed.

(** ** The tables *)

Lemma node_rep_files n k v t m :
  node_rep N k n v -> Table.trep t m -> Table.total t = Table.total (tableFileMeta (storage n)) ->
  node_rep N k (with_storage (with_files t (storage n)) n) (set_files m v).
Proof. intros [[]] Ht Htot. split; try done; simpl. by rewrite Htot. Qed.

Lemma node_rep_dirs n k v t m :
  node_rep N k n v -> Table.trep t m -> Table.total t = Table.total (tableDirectoryMeta (storage n)) ->
  Table.itemsAddress t = Table.itemsAddress (tableDirectoryMeta (storage n)) ->
  node_rep N k (with_storage (with_dirs t (storage n)) n) (set_dirs m v).
Proof.
  intros [[] ? ? ? ? ? ? ? ? ? ? ? Ha] Ht Htot Hadr. split; try done; simpl.
  - by rewrite Htot.
  - unfold addresses_ok. by rewrite Htot, Hadr.
  - by rewrite Hadr.
Qed.

Lemma node_rep_blocks n k v t m :
  node_rep N k n v -> Table.trep t m -> Table.total t = Table.total (tableBlock (storage n)) ->
  node_rep N k (with_storage (with_blocks t (storage n)) n) (set_blocks m v).
Proof. intros [[]] Ht Htot. split; try done; simpl. by rewrite Htot. Qed.

Lemma same_files n : with_storage (with_files (tableFileMeta (storage n)) (storage n)) n = n.
Proof. by destruct n as [[]]. Qed.

Lemma same_dirs n : with_storage (with_dirs (tableDirectoryMeta (storage n)) (storage n)) n = n.
Proof. by destruct n as [[]]. Qed.

Lemma trep_nonneg {T} `{!Table.Pod T} (t : Table.Table T) m i : Table.trep t m -> is_Some (m !! i) -> 0 <= i < Table.total t.
Proof.
  intros Ht [x Hx]. apply (Bitmap.brep_elem _ _ _ (Table.trep_bitmap _ _ Ht)). by apply elem_of_dom.
Qed.

Lemma wp_files_get me idx f V v (Q : bool * option FileMeta -> gmap Z view -> Prop) :
  V !! me = Some v -> v_files v !! idx = Some f -> Q (true, Some f) V ->
  wp (at_node me (on_files (fun t => Table.get t idx Out))) V Q.
Proof.
  intros Hv Hf HQ. apply (wp_read me _ V v _ Hv). intros n Hr.
  pose proof (sr_files _ _ _ _ _ (nr_storage _ _ _ _ Hr)) as Ht. unfold on_files.
  rewrite (Table.table_get_spec _ _ idx Ht) by (by apply (trep_nonneg _ _ _ Ht)). rewrite Hf.
  cbn [mbind run_bind fst snd]. rewrite same_files. by eexists.
Qed.

Lemma wp_dirs_get me idx d V v (Q : bool * option DirectoryMeta -> gmap Z view -> Prop) :
  V !! me = Some v -> v_dirs v !! idx = Some d -> Q (true, Some d) V ->
  wp (at_node me (on_dirs (fun t => Table.get t idx Out))) V Q.
Proof.
  intros Hv Hf HQ. apply (wp_read me _ V v _ Hv). intros n Hr.
  pose proof (sr_dirs _ _ _ _ _ (nr_storage _ _ _ _ Hr)) as Ht. unfold on_dirs.
  rewrite (Table.table_get_spec _ _ idx Ht) by (by apply (trep_nonneg _ _ _ Ht)). rewrite Hf.
  cbn [mbind run_bind fst snd]. rewrite same_dirs. by eexists.
Qed.

Lemma free_slot {T} `{!Table.Pod T} (t : Table.Table T) m :
  Table.trep t m -> Z.of_nat (size m) < Table.total t ->
  exists p rest, Table.headFreeBit t = p :: rest.
Proof.
  intros Ht Hs. destruct (Table.headFreeBit t) as [|p rest] eqn:Hfree; [|by exists p, rest].
  pose proof (Table.trep_full t m Ht Hfree) as Hfull.
  assert (list_to_set (seqZ 0 (Table.total t)) ⊆ dom m) as Hsub.
  { intros i [? ?]%elem_of_list_to_set%elem_of_seqZ. apply elem_of_dom, Hfull. lia. }
  apply subseteq_size in Hsub. rewrite size_dom, size_list_to_set in Hsub by apply NoDup_seqZ.
  rewrite length_seqZ in Hsub. lia.
Qed.

Lemma wp_files_create me f V v (Q : bool * option Z -> gmap Z view -> Prop) :
  V !! me = Some v -> Z.of_nat (size (v_files v)) < c_files (v_cap v) ->
  (forall idx, v_files v !! idx = None ->
     Q (true, Some idx) (<[me := set_files (<[idx := f]> (v_files v)) v]> V)) ->
  wp (at_node me (on_files (fun t => Table.create t Out (Some f)))) V Q.
Proof.
  intros Hv Hroom HQ. apply (wp_at_node me _ V v _ Hv). intros n Hr.
  pose proof (sr_files _ _ _ _ _ (nr_storage _ _ _ _ Hr)) as Ht. unfold on_files.
  rewrite <- (nr_files _ _ _ _ Hr) in Hroom.
  destruct (free_slot _ _ Ht Hroom) as (p & rest & Hp).
  pose proof (Table.create_spec _ _ f Ht) as Hc. rewrite Hp in Hc.
  destruct Hc as (Hno & _ & t' & -> & Htot & _ & Ht'). cbn [mbind run_bind fst snd].
  eexists _, _, _. split; [done|]. split; [by apply node_rep_files|]. by apply HQ.
Qed.

Lemma wp_dirs_create me d V v (Q : bool * option Z -> gmap Z view -> Prop) :
  V !! me = Some v -> Z.of_nat (size (v_dirs v)) < c_dirs (v_cap v) ->
  (forall idx, v_dirs v !! idx = None ->
     Q (true, Some idx) (<[me := set_dirs (<[idx := d]> (v_dirs v)) v]> V)) ->
  wp (at_node me (on_dirs (fun t => Table.create t Out (Some d)))) V Q.
Proof.
  intros Hv Hroom HQ. apply (wp_at_node me _ V v _ Hv). intros n Hr.
  pose proof (sr_dirs _ _ _ _ _ (nr_storage _ _ _ _ Hr)) as Ht. unfold on_dirs.
  rewrite <- (nr_dirs _ _ _ _ Hr) in Hroom.
  destruct (free_slot _ _ Ht Hroom) as (p & rest & Hp).
  pose proof (Table.create_spec _ _ d Ht) as Hc. rewrite Hp in Hc.
  destruct Hc as (Hno & _ & t' & -> & Htot & Hadr & Ht'). cbn [mbind run_bind fst snd].
  eexists _, _, _. split; [done|]. split; [by apply node_rep_dirs|]. by apply HQ.
Qed.

Lemma wp_files_remove me idx V v (Q : bool -> gmap Z view -> Prop) :
  V !! me = Some v -> is_Some (v_files v !! idx) ->
  Q true (<[me := set_files (delete idx (v_files v)) v]> V) ->
  wp (at_node me (on_files (fun t => Table.remove t idx))) V Q.
Proof.
  intros Hv Hf HQ. apply (wp_at_node me _ V v _ Hv). intros n Hr.
  pose proof (sr_files _ _ _ _ _ (nr_storage _ _ _ _ Hr)) as Ht. unfold on_files.
  destruct (Table.remove_spec _ _ idx Ht) as (t' & -> & Htot & _ & Ht');
    [by apply (trep_nonneg _ _ _ Ht)|].
  rewrite bool_decide_eq_true_2 by done. cbn [mbind run_bind fst snd].
  eexists _, _, _. split; [done|]. split; [by apply node_rep_files|]. done.
Qed.

Lemma wp_dirs_remove me idx V v (Q : bool -> gmap Z view -> Prop) :
  V !! me = Some v -> is_Some (v_dirs v !! idx) ->
  Q true (<[me := set_dirs (delete idx (v_dirs v)) v]> V) ->
  wp (at_node me (on_dirs (fun t => Table.remove t idx))) V Q.
Proof.
  intros Hv Hf HQ. apply (wp_at_node me _ V v _ Hv). intros n Hr.
  pose proof (sr_dirs _ _ _ _ _ (nr_storage _ _ _ _ Hr)) as Ht. unfold on_dirs.
  destruct (Table.remove_spec _ _ idx Ht) as (t' & -> & Htot & Hadr & Ht');
    [by apply (trep_nonneg _ _ _ Ht)|].
  rewrite bool_decide_eq_true_2 by done. cbn [mbind run_bind fst snd].
  eexists _, _, _. split; [done|]. split; [by apply node_rep_dirs|]. done.
Qed.

(** ** Transactions *)

Lemma node_rep_tx n k v t i :
  node_rep N k n v -> TxManager.tx_ok t -> TxManager.LocalLogIndex t = i ->
  alen (TxManager.localLog t) = alen (TxManager.localLog (txlog n)) ->
  node_rep N k (with_txlog t n) (set_log i v).
Proof. intros [] Ht Hi Hl. split; try done; simpl. by rewrite Hl. Qed.

Lemma set_log_id v : set_log (v_log v) v = v.
Proof. by destruct v. Qed.

Lemma wp_TxLocalBegin me V v (Q : Z -> gmap Z view -> Prop) :
  V !! me = Some v -> v_log v < c_log (v_cap v) ->
  Q (v_log v) (<[me := set_log (v_log v + 1) v]> V) -> wp (TxLocalBegin me) V Q.
Proof.
  intros Hv Hroom HQ. apply (wp_at_node me _ V v _ Hv). intros n Hr. unfold on_tx.
  destruct (TxManager.TxLocalBegin_spec (txlog n)) as (t & -> & Ht & Hi & Hl & _);
    [apply Hr|rewrite (nr_log _ _ _ _ Hr), (nr_log_len _ _ _ _ Hr); done|].
  rewrite (nr_log _ _ _ _ Hr) in *. cbn [mbind run_bind fst snd].
  eexists _, _, _. split; [done|]. split; [by apply node_rep_tx|done].
Qed.

Lemma wp_TxWriteData me id data V v (Q : unit -> gmap Z view -> Prop) :
  V !! me = Some v -> 0 <= id < c_log (v_cap v) -> Z.of_nat (length data) <= 4086 ->
  Q tt V -> wp (TxWriteData me id data) V Q.
Proof.
  intros Hv Hid Hlen HQ. apply (wp_at_node me _ V v _ Hv). intros n Hr. unfold on_tx.
  destruct (TxManager.TxWriteData_spec (txlog n) id data) as (t & -> & Ht & Hi & Hl & _);
    [apply Hr|by rewrite (nr_log_len _ _ _ _ Hr)|done|].
  cbn [mbind run_bind fst snd]. eexists _, _, v. split; [done|]. rewrite insert_id by done.
  split; [|done]. rewrite <- (set_log_id v). apply node_rep_tx; [done|done| |done].
  by rewrite Hi, (nr_log _ _ _ _ Hr).
Qed.

Lemma wp_TxLocalCommit me id ok V v (Q : unit -> gmap Z view -> Prop) :
  V !! me = Some v -> 0 <= id < c_log (v_cap v) -> Q tt V -> wp (TxLocalCommit me id ok) V Q.
Proof.
  intros Hv Hid HQ. apply (wp_at_node me _ V v _ Hv). intros n Hr. unfold on_tx.
  destruct (TxManager.TxLocalCommit_spec (txlog n) id ok) as (t & -> & Ht & Hi & Hl & _);
    [apply Hr|by rewrite (nr_log_len _ _ _ _ Hr)|].
  cbn [mbind run_bind fst snd]. eexists _, _, v. split; [done|]. rewrite insert_id by done.
  split; [|done]. rewrite <- (set_log_id v). apply node_rep_tx; [done|done| |done].
  by rewrite Hi, (nr_log _ _ _ _ Hr).
Qed.

(** ** Directories *)

(** The address of a directory relative to the buffer of its server. *)
Definition dir_address (c : capacity) (idx : Z) : Z :=
  u64 (u64 (c_dirs_at c + idx * sizeof_DirectoryMeta) - c_base c).

Lemma dir_address_spec n k v idx :
  node_rep N k n v -> is_Some (v_dirs v !! idx) ->
  let t := tableDirectoryMeta (storage n) in
  Table.address_of t idx = c_dirs_at (v_cap v) + idx * sizeof_DirectoryMeta /\
  u64 (Table.address_of t idx - dmfsBase n) = dir_address (v_cap v) idx /\
  dir_index t (u64 (dir_address (v_cap v) idx + dmfsBase n)) = Done idx.
Proof.
  intros Hr Hd t. pose proof (sr_dirs _ _ _ _ _ (nr_storage _ _ _ _ Hr)) as Ht. fold t in Ht.
  pose proof (trep_nonneg _ _ _ Ht Hd) as Hi.
  destruct (nr_addresses _ _ _ _ Hr) as [Ha0 Ha1]. fold t in Ha0, Ha1.
  pose proof (nr_dirs_at _ _ _ _ Hr) as Hat. fold t in Hat. pose proof (nr_base _ _ _ _ Hr) as Hb.
  unfold sizeof_DirectoryMeta in *.
  assert (Table.address_of t idx = c_dirs_at (v_cap v) + idx * 3072) as Hadr.
  { unfold Table.address_of. rewrite Hat. apply wrap_small. unfold in_width.
    change (Table.sizeof (T := DirectoryMeta)) with 3072. lia. }
  assert (u64 (c_dirs_at (v_cap v) + idx * 3072) = c_dirs_at (v_cap v) + idx * 3072) as Hu.
  { apply wrap_small. unfold in_width. lia. }
  split; [done|]. split; [unfold dir_address, sizeof_DirectoryMeta; by rewrite Hadr, Hb, Hu|].
  unfold dir_address, sizeof_DirectoryMeta. rewrite Hb, Hu.
  replace (u64 (u64 (c_dirs_at (v_cap v) + idx * 3072 - c_base (v_cap v)) + c_base (v_cap v)))
    with (c_dirs_at (v_cap v) + idx * 3072).
  2: { unfold u64, wrap. rewrite Zplus_mod_idemp_l.
       replace (c_dirs_at (v_cap v) + idx * 3072 - c_base (v_cap v) + c_base (v_cap v))
         with (c_dirs_at (v_cap v) + idx * 3072) by lia. symmetry. apply Hu. }
  unfold dir_index. rewrite Hat. change (Table.sizeof (T := DirectoryMeta)) with 3072.
  replace (c_dirs_at (v_cap v) + idx * 3072 - c_dirs_at (v_cap v)) with (idx * 3072) by lia.
  rewrite Z.mod_mul, Z.div_mul by lia. simpl andb.
  destruct Hd as [d Hd]. by rewrite (proj2 (in_bounds_spec _ _) (proj1 (Table.trep_index _ _ _ _ Ht Hd))).
Qed.

(** What a lookup of a directory finds on its server. *)
Definition find_dir (v : view) (path : list Z) : option (Z * DirectoryMeta) :=
  match v_paths v !! digest path with
  | Some (idx, true) => d ← v_dirs v !! idx; Some (idx, d)
  | _ => None
  end.

(** Every directory of the index has its metadata. *)
Definition dirs_present (v : view) : Prop :=
  forall h idx, v_paths v !! h = Some (idx, true) -> is_Some (v_dirs v !! idx).

Lemma locked_and_unlocked a (L : gmap Z Z) w v :
  L !! a = None -> v_locks v = L ->
  set_locks (delete a (<[a := w]> L)) (set_locks (<[a := w]> L) v) = v.
Proof. intros Ha HL. rewrite delete_insert_id by done. destruct v. simpl in *. by subst. Qed.

Lemma wp_readDirectoryMeta_local me path V v (Q : _ -> gmap Z view -> Prop) :
  V !! me = Some v -> me = home path -> v_locks v !! address_of CalculateDigest path = None ->
  dirs_present v ->
  Q (match find_dir v path with
     | Some (idx, d) => Some (d, address_of CalculateDigest path, dir_address (v_cap v) idx, me)
     | None => None
     end) V ->
  wp (readDirectoryMeta_local CalculateDigest me me path) V Q.
Proof using HN.
  intros Hv Hme Hfree Hpres HQ. set (addr := address_of CalculateDigest path) in *.
  assert (in_table addr) as Ha by apply getAddressHash_range.
  set (v1 := set_locks (<[addr := 1]> (v_locks v)) v).
  assert (<[me := v1]> V !! me = Some v1) as Hv1 by by rewrite lookup_insert_eq.
  assert (forall r, Q r V ->
    wp (_ ← at_node me (unlockReadHashItem addr); mret r) (<[me := v1]> V) Q) as Hend.
  { intros r Hr. apply wp_seq, (wp_unlock_read me addr _ v1); [done| |done|].
    - simpl. by rewrite lookup_insert_eq.
    - apply wp_ret. simpl v_locks. unfold v1. rewrite locked_and_unlocked by done.
      by rewrite insert_insert_eq, insert_id. }
  unfold readDirectoryMeta_local. fold addr.
  apply wp_seq, (wp_lock_read me addr V v); [done..|]. fold v1.
  apply wp_seq, (wp_hash_get me path _ v1); [done|].
  change (v_paths v1) with (v_paths v). unfold find_dir in HQ.
  destruct (v_paths v !! digest path) as [[idx []]|] eqn:Hp.
  - destruct (Hpres _ _ Hp) as [d Hd]. rewrite Hd in HQ. simpl in HQ.
    do 2 apply wp_seq.
    apply (wp_read me _ _ v1 _ Hv1). intros n Hr. unfold on_dirs.
    pose proof (sr_dirs _ _ _ _ _ (nr_storage _ _ _ _ Hr)) as Ht. simpl v_dirs in Ht.
    rewrite (Table.get_address_spec _ _ idx Ht) by (by apply (trep_nonneg _ _ _ Ht)).
    rewrite Hd. cbn [mbind run_bind fst snd]. rewrite same_dirs. eexists. split; [done|]. simpl.
    apply wp_seq, (wp_read me _ _ v1 _ Hv1). intros n' Hr'.
    eexists. split; [done|]. apply wp_ret.
    destruct (dir_address_spec n me v1 idx Hr) as (Ha1 & _ & _); [by exists d|].
    simpl v_cap in Ha1. rewrite Ha1, Hme, home_u16, <- Hme.
    pose proof (nr_base _ _ _ _ Hr') as Hb. simpl v_cap in Hb. rewrite Hb. apply Hend.
    destruct (dir_address_spec n me v1 idx Hr) as (_ & Ha2 & _); [by exists d|].
    simpl v_cap in Ha2. rewrite Ha1 in Ha2. pose proof (nr_base _ _ _ _ Hr) as Hb'.
    simpl v_cap in Hb'. rewrite Hb' in Ha2. by rewrite Ha2.
  - apply wp_seq, wp_ret. by apply Hend.
  - apply wp_seq, wp_ret. by apply Hend.
Qed.

(** The directory is read on its server, at most one call away. *)
Lemma wp_read_parent me path V v w (Q : _ -> gmap Z view -> Prop) :
  V !! me = Some v -> V !! home path = Some w ->
  v_locks w !! address_of CalculateDigest path = None -> dirs_present w ->
  Z.of_nat (length path) < MAX_PATH_LENGTH ->
  Q (match find_dir w path with
     | Some (idx, d) =>
         Some (d, address_of CalculateDigest path, dir_address (v_cap w) idx, home path)
     | None => None
     end) V ->
  wp (read_parent CalculateDigest me path) V Q.
Proof using HN.
  intros Hv Hw Hfree Hpres Hlen HQ. unfold read_parent. cbn [readDirectoryMeta].
  apply wp_seq, (wp_node_of me path V v); [done|].
  apply wp_seq, (wp_checkLocal me _ V v); [done|].
  destruct (Z.eqb_spec (home path) me) as [<-|Hne].
  - by apply (wp_readDirectoryMeta_local _ path V w).
  - rewrite (proj2 (Z.ltb_lt _ _) Hlen), home_u16.
    apply wp_seq, (wp_node_of _ path V w); [done|].
    apply wp_seq, (wp_checkLocal _ _ V w); [done|]. rewrite Z.eqb_refl.
    by apply (wp_readDirectoryMeta_local _ path V w).
Qed.

(** Copying a directory over one of the same table. *)
Lemma copy_to_dir_spec n k v idx d old es (size : Z) :
  node_rep N k n v -> v_dirs v !! idx = Some old -> directory_ok old -> holds d es ->
  8 + Z.of_nat (length es) * 51 <= size <= 3072 ->
  exists d' t', copy_to_dir (tableDirectoryMeta (storage n))
      (u64 (dir_address (v_cap v) idx + dmfsBase n)) d size = Done t' /\ holds d' es /\
    node_rep N k (with_storage (with_dirs t' (storage n)) n) (set_dirs (<[idx := d']> (v_dirs v)) v).
Proof.
  intros Hr Hold Hok Hd Hsize.
  destruct (dir_address_spec n k v idx Hr) as (_ & _ & Hi); [by exists old|].
  pose proof (sr_dirs _ _ _ _ _ (nr_storage _ _ _ _ Hr)) as Ht.
  destruct (Table.trep_index _ _ _ _ Ht Hold) as [Hb Hidx].
  unfold copy_to_dir. rewrite Hi. cbn [mbind run_bind]. rewrite Hidx. cbn [mbind run_bind].
  rewrite store_Done by done. cbn [mbind run_bind].
  exists (load_directory_meta (take (Z.to_nat size) (store_directory_meta d)
                               ++ drop (Z.to_nat size) (store_directory_meta old))).
  eexists. split; [done|]. split; [|apply node_rep_dirs; [done| |done|done]].
  - apply copied_holds; [done|done|]. lia.
  - apply Table.trep_put; [done|by exists old].
Qed.

Lemma wp_updateRemoteMeta me k idx d old es V w (Q : unit -> gmap Z view -> Prop) :
  V !! k = Some w -> v_dirs w !! idx = Some old -> directory_ok old -> holds d es ->
  (forall d', holds d' es -> Q tt (<[k := set_dirs (<[idx := d']> (v_dirs w)) w]> V)) ->
  wp (updateRemoteMeta me k d (dir_address (v_cap w) idx)) V Q.
Proof.
  intros Hw Hold Hok Hd HQ. unfold updateRemoteMeta. pose proof (ho_len _ _ Hd).
  destruct (Z.eqb_spec k me) as [<-|Hne]; apply (wp_at_node _ _ V w _ Hw); intros n Hr; unfold on_dirs.
  - destruct (copy_to_dir_spec n k w idx d old es sizeof_DirectoryMeta Hr Hold Hok Hd)
      as (d' & t' & -> & Hd' & Hn'); [unfold sizeof_DirectoryMeta; lia|].
    eexists _, _, _. split; [done|]. split; [exact Hn'|]. by apply HQ.
  - rewrite (ho_count _ _ Hd).
    change MAX_DIRECTORY_COUNT with 60. unfold sizeof_DirectoryMeta, sizeof_DirectoryMetaTuple.
    rewrite (wrap_small 64 (3072 - _)) by (unfold in_width; lia).
    destruct (copy_to_dir_spec n k w idx d old es (3072 - 51 * (60 - Z.of_nat (length es)))
      Hr Hold Hok Hd) as (d' & t' & -> & Hd' & Hn'); [lia|].
    eexists _, _, _. split; [done|]. split; [exact Hn'|]. by apply HQ.
Qed.

(** ** Frames *)

Lemma wp_on_path {A} me path (fail : A) body V v (Q : A -> gmap Z view -> Prop) :
  V !! me = Some v -> home path = me -> v_locks v !! address_of CalculateDigest path = None ->
  (forall key, LockService.is_key key ->
     wp (body me path) (<[me := set_locks (<[address_of CalculateDigest path := key]> (v_locks v)) v]> V)
       (fun r V' => exists v', V' !! me = Some v' /\
          v_locks v' !! address_of CalculateDigest path = Some key /\
          Q r (<[me := set_locks (delete (address_of CalculateDigest path) (v_locks v')) v']> V'))) ->
  wp (on_path CalculateDigest me (Some path) fail body) V Q.
Proof using HN.
  intros Hv Hme Hfree Hbody. cbn [on_path].
  assert (in_table (address_of CalculateDigest path)) as Ha by apply getAddressHash_range.
  apply wp_seq, (wp_node_of me path V v); [done|].
  apply wp_seq, (wp_checkLocal me _ V v); [done|]. rewrite Hme, Z.eqb_refl.
  pose proof (home_range path).
  apply wp_seq, (wp_lock_write me me _ V v); [done|done|done|lia|]. intros key Hkey.
  apply wp_seq. eapply wp_conseq; [by apply Hbody|]. cbv beta. intros r V' (v' & Hv' & Hl & HQ).
  apply wp_seq, (wp_unlock_write me _ key V' v'); [done..|]. by apply wp_ret.
Qed.

Lemma wp_on_path_read {A} me path (fail : A) body V v (Q : A -> gmap Z view -> Prop) :
  V !! me = Some v -> home path = me -> v_locks v !! address_of CalculateDigest path = None ->
  (forall v', v' = set_locks (<[address_of CalculateDigest path := 1]> (v_locks v)) v ->
     wp (body path) (<[me := v']> V) (fun r V' => V' = <[me := v']> V /\ Q r V)) ->
  wp (on_path_read CalculateDigest me (Some path) fail body) V Q.
Proof using HN.
  intros Hv Hme Hfree Hbody. cbn [on_path_read].
  assert (in_table (address_of CalculateDigest path)) as Ha by apply getAddressHash_range.
  apply wp_seq, (wp_node_of me path V v); [done|].
  apply wp_seq, (wp_checkLocal me _ V v); [done|]. rewrite Hme, Z.eqb_refl.
  apply wp_seq, (wp_lock_read me _ V v); [done|done|done|].
  apply wp_seq. eapply wp_conseq; [by apply Hbody|]. cbv beta. intros r V' [-> HQ].
  eapply wp_seq, wp_unlock_read; [by rewrite lookup_insert_eq|by simpl; rewrite lookup_insert_eq|done|].
  apply wp_ret. simpl v_locks. by rewrite locked_and_unlocked, insert_insert_eq, insert_id.
Qed.

(** On another server nothing is done. *)
Lemma wp_on_path_remote {A} me path (fail : A) body V v (Q : A -> gmap Z view -> Prop) :
  V !! me = Some v -> home path <> me -> Q fail V ->
  wp (on_path CalculateDigest me (Some path) fail body) V Q.
Proof using HN.
  intros Hv Hne HQ. cbn [on_path]. apply wp_seq, (wp_node_of me path V v); [done|].
  apply wp_seq, (wp_checkLocal me _ V v); [done|]. rewrite (proj2 (Z.eqb_neq _ _)) by done.
  by apply wp_ret.
Qed.

End digests.

End cluster.

End FsRep.
