(* ===== verification/OctBlocks.v ===== *)
(** * Blocks of octopus files

    What allocation and truncation (src/sys/octopus/src/fs/filesystem.cpp) do
    to the extents of a file and to the table of blocks. *)

From S2P Require Import Prelude.
From S2P Require Import OctBase.
From S2P Require Import OctBitmap.
From S2P Require Import OctTable.
From S2P Require Import OctStorage.
From S2P Require Import OctExtent.
From S2P Require Import OctFileSystem.
From S2P Require Import OctFsRep.
From S2P Require Import OctFileData.
Open Scope Z_scope.

Module FileBlocks.
Import FileSystem FsRep FileData.

(** The blocks of extents, in the order of the file. *)
Definition extent_blocks (e : FileMetaTuple) : list Z :=
  seqZ (indexExtentStartBlock e) (countExtentBlock e).
Definition blocks_of (es : list FileMetaTuple) : list Z := concat (map extent_blocks es).

Lemma blocks_of_app es es' : blocks_of (es ++ es') = blocks_of es ++ blocks_of es'.
Proof. unfold blocks_of. by rewrite map_app, concat_app. Qed.

(** A file with extents on server [h]. *)
Record file_rep (h : Z) (f : FileMeta) (es : list FileMetaTuple) : Prop := mkFileRep {
  fr_extents : has_extents f es;
  fr_tuple : length (fm_tuple f) = 20%nat;
  fr_node : Forall (fun e => hashNode e = h) es
}.

(** ** Allocation *)

(** The blocks [new] were free and are now taken; nothing else changes. *)
Record took (t t' : Table.Table Block) (m m' : gmap Z Block) (new : list Z) : Prop := mkTook {
  tk_rep : Table.trep t' m';
  tk_total : Table.total t' = Table.total t;
  tk_nodup : NoDup new;
  tk_free : forall b, b ∈ new -> m !! b = None /\ 0 <= b < Table.total t;
  tk_taken : forall b, b ∈ new -> is_Some (m' !! b);
  tk_other : forall b, b ∉ new -> m' !! b = m !! b
}.

Lemma took_none t m : Table.trep t m -> took t t m m [].
Proof.
  intros Ht. split; [done|done|apply NoDup_nil_2| | |done]; intros b Hb; by apply not_elem_of_nil in Hb.
Qed.

Lemma took_cons t t1 t2 m m2 b v new :
  m !! b = None -> 0 <= b < Table.total t -> Table.total t1 = Table.total t ->
  took t1 t2 (<[b := v]> m) m2 new -> took t t2 m m2 (b :: new).
Proof.
  intros Hb Hr Htot [Hrep Ht Hnd Hfree Htaken Hother].
  assert (b ∉ new) as Hbn.
  { intros Hin. destruct (Hfree b Hin) as [H _]. by rewrite lookup_insert_eq in H. }
  split; try done.
  - by rewrite Ht.
  - by apply NoDup_cons.
  - intros x [->|Hx]%elem_of_cons; [done|]. destruct (Hfree x Hx) as [H1 H2].
    apply lookup_insert_None in H1 as [H1 _]. by rewrite <- Htot.
  - intros x [->|Hx]%elem_of_cons; [|by apply Htaken].
    rewrite Hother, lookup_insert_eq by done. by eexists.
  - intros x [Hx1 Hx2]%not_elem_of_cons. rewrite Hother by done. by rewrite lookup_insert_ne.
Qed.

(** The last extent of a file grows by the block behind it. *)
Lemma grow_last h f es e :
  file_rep h f (es ++ [e]) -> indexExtentStartBlock e + countExtentBlock e < 4095 ->
  let e' := mkExtent (hashNode e) (indexExtentStartBlock e) (u32 (countExtentBlock e + 1)) in
  let f' := mkFileMeta (timeLastModified f) (fm_count f) (fm_size f)
              (<[length es := e']> (fm_tuple f)) in
  list_index (fm_tuple f) (Z.of_nat (length es)) = Done e /\
  list_store (fm_tuple f) (Z.of_nat (length es)) e' = Done (<[length es := e']> (fm_tuple f)) /\
  file_rep h f' (es ++ [e']) /\
  blocks_of (es ++ [e']) = blocks_of (es ++ [e]) ++ [indexExtentStartBlock e + countExtentBlock e].
Proof.
  intros [Hx H20 Hnode] Hb e' f'. pose proof (has_extents_at f es e [] Hx) as [Hi _].
  destruct Hx as (Hc & (rest & Ht) & Hok & Hlen). rewrite length_app in Hc, Hlen. simpl in Hc, Hlen.
  pose proof Hok as [Hok1 [He _]%Forall_cons]%Forall_app. destruct He as (He1 & He2 & He3).
  assert (countExtentBlock e' = countExtentBlock e + 1) as Hce.
  { simpl. apply wrap_small. unfold in_width. lia. }
  split; [done|]. split; [rewrite list_store_Done, Nat2Z.id by lia; done|]. split; [split|].
  - split; [simpl; rewrite length_app; simpl; lia|]. split; [|split].
    + exists rest. simpl. rewrite Ht, <- app_assoc. simpl. rewrite insert_app_r_alt by lia.
      rewrite Nat.sub_diag. by rewrite <- app_assoc.
    + apply Forall_app. split; [done|]. constructor; [|done]. unfold extent_ok.
      rewrite Hce. simpl. lia.
    + rewrite length_app. simpl. lia.
  - simpl. by rewrite length_insert.
  - apply Forall_app in Hnode as [Hn1 [Hn2 _]%Forall_cons]. apply Forall_app. split; [done|].
    by constructor.
  - rewrite !blocks_of_app, <- app_assoc. f_equal. unfold blocks_of. cbn [map concat]. rewrite !app_nil_r.
    unfold extent_blocks. rewrite Hce. simpl indexExtentStartBlock. rewrite seqZ_app by lia. done.
Qed.

(** A new extent of one block. *)
Lemma new_extent h f es b :
  file_rep h f es -> (length es < 20)%nat -> 0 <= h < 2 ^ 16 -> 0 <= b < 4095 ->
  let e := mkExtent h (u32 b) 1 in
  let f' := mkFileMeta (timeLastModified f) (u64 (fm_count f + 1)) (fm_size f)
              (<[length es := e]> (fm_tuple f)) in
  list_store (fm_tuple f) (Z.of_nat (length es)) e = Done (<[length es := e]> (fm_tuple f)) /\
  file_rep h f' (es ++ [e]) /\ blocks_of (es ++ [e]) = blocks_of es ++ [b].
Proof.
  intros [(Hc & (rest & Ht) & Hok & _) H20 Hnode] Hlen Hh Hb e f'.
  assert (u32 b = b) as Hub by (apply wrap_small; unfold in_width; lia).
  split; [rewrite list_store_Done, Nat2Z.id by lia; done|]. split; [split|].
  - split; [simpl; rewrite Hc, length_app, wrap_small by (unfold in_width; lia); simpl; lia|].
    split; [|split].
    + exists (drop 1 rest). simpl. rewrite Ht, insert_app_r_alt, Nat.sub_diag by lia.
      rewrite <- app_assoc. f_equal. destruct rest as [|r rest]; [|done].
      rewrite app_nil_r in Ht. rewrite Ht in H20. lia.
    + apply Forall_app. split; [done|]. constructor; [|done]. unfold extent_ok. simpl.
      rewrite Hub. lia.
    + rewrite length_app. simpl. lia.
  - simpl. by rewrite length_insert.
  - apply Forall_app. split; [done|]. by constructor.
  - rewrite blocks_of_app. f_equal. unfold blocks_of, extent_blocks. simpl. by rewrite Hub.
Qed.

Definition allocated (n : nat) (h : Z) (f : FileMeta) (es : list FileMetaTuple) (t : Table.Table Block)
    (m : gmap Z Block) (r : run (bool * FileMeta * Table.Table Block)) : Prop :=
  exists f' es' t' m' new, r = Done (true, f', t') /\ file_rep h f' es' /\ fm_size f' = fm_size f /\
    (length es' <= length es + n)%nat /\
    blocks_of es' = blocks_of es ++ new /\ length new = n /\ took t t' m m' new.

(** The allocation succeeds, or the file gets an extent behind its array. *)
Definition extended (n : nat) (h : Z) (f : FileMeta) (es : list FileMetaTuple) (t : Table.Table Block)
    (m : gmap Z Block) (r : run (bool * FileMeta * Table.Table Block)) : Prop :=
  allocated n h f es t m r \/ (r = Undef /\ (20 < length es + n)%nat).

Definition extends (n : nat) (h : Z) : Prop := forall f es t m,
  file_rep h f es -> 0 <= h < 2 ^ 16 -> Table.trep t m -> Table.total t <= 4095 ->
  Z.of_nat (size m) + Z.of_nat n <= Table.total t ->
  extended n h f es t m (extend n h f (Z.of_nat (length es) - 1) t).

(** After a block [b] has been taken and added to the extents. *)
Lemma extend_next n h f es t m b v t1 f' es' :
  extends n h -> 0 <= h < 2 ^ 16 -> Table.total t <= 4095 ->
  Z.of_nat (size m) + Z.of_nat (S n) <= Table.total t ->
  m !! b = None -> 0 <= b < Table.total t -> Table.trep t1 (<[b := v]> m) ->
  Table.total t1 = Table.total t ->
  file_rep h f' es' -> fm_size f' = fm_size f -> blocks_of es' = blocks_of es ++ [b] ->
  (length es' <= S (length es))%nat ->
  extended (S n) h f es t m (extend n h f' (Z.of_nat (length es') - 1) t1).
Proof.
  intros IH Hh Htot Hroom Hno Hb Ht1 Htot1 Hf' Hs' Hbl Hl'.
  destruct (IH f' es' t1 (<[b := v]> m) Hf' Hh Ht1 ltac:(lia))
    as [(f2 & es2 & t2 & m2 & new & -> & Hf2 & Hs2 & Hl2 & Hbl2 & Hn2 & Htk)|[-> Hlt]].
  - rewrite map_size_insert, Hno. simpl. lia.
  - left. exists f2, es2, t2, m2, (b :: new). split; [done|]. split; [done|]. split; [by rewrite Hs2|].
    split; [lia|]. split; [rewrite Hbl2, Hbl, <- app_assoc; done|]. split; [simpl; lia|]. by eapply took_cons.
  - right. split; [done|lia].
Qed.

(** The branch that starts a new extent. *)
Lemma extend_start n h f es t m b v t1 :
  extends n h -> 0 <= h < 2 ^ 16 -> Table.total t <= 4095 ->
  Z.of_nat (size m) + Z.of_nat (S n) <= Table.total t ->
  m !! b = None -> 0 <= b < Table.total t -> Table.trep t1 (<[b := v]> m) ->
  Table.total t1 = Table.total t -> file_rep h f es ->
  extended (S n) h f es t m
    (xs ← list_store (fm_tuple f) (Z.of_nat (length es)) (mkExtent h (u32 b) 1);
     extend n h (mkFileMeta (timeLastModified f) (u64 (fm_count f + 1)) (fm_size f) xs)
       (Z.of_nat (length es)) t1).
Proof.
  intros IH Hh Htot Hroom Hno Hb Ht1 Htot1 Hf. destruct (decide (length es < 20)%nat) as [Hlt|Hge].
  - destruct (new_extent h f es b Hf Hlt Hh ltac:(lia)) as (-> & Hf' & Hbl). cbn [mbind run_bind].
    pose proof (extend_next n h f es t m b v t1 _ _ IH Hh Htot Hroom Hno Hb Ht1 Htot1 Hf' eq_refl Hbl)
      as Hnext.
    rewrite length_app in Hnext. simpl length in Hnext.
    replace (Z.of_nat (length es + 1) - 1) with (Z.of_nat (length es)) in Hnext by lia.
    apply Hnext. lia.
  - right. split; [|lia]. unfold list_store. rewrite (fr_tuple _ _ _ Hf).
    by rewrite (proj2 (Z.ltb_ge _ _)), andb_false_r by lia.
Qed.

Lemma extend_spec h n : extends n h.
Proof.
  induction n as [|n IH]; intros f es t m Hf Hh Ht Htot Hroom; cbn [extend].
  { left. exists f, es, t, m, []. rewrite app_nil_r. do 3 (split; [done|]). split; [lia|].
    do 2 (split; [done|]). by apply took_none. }
  destruct (free_slot t m Ht ltac:(lia)) as (b & rest & Hfree).
  pose proof (Table.create_empty_spec t m Ht) as Hc. rewrite Hfree in Hc.
  destruct Hc as (Hno & Hb & t1 & v & -> & Htot1 & _ & Ht1). cbn [mbind run_bind].
  pose proof (extend_start n h f es t m b v t1 IH Hh Htot Hroom Hno Hb Ht1 Htot1 Hf) as Hstart.
  destruct (decide (es = [])) as [->|Hne]; [exact Hstart|].
  destruct (exists_last Hne) as (l & e & ->). rewrite length_app in *. simpl length in *.
  replace (Z.of_nat (length l + 1) - 1) with (Z.of_nat (length l)) by lia.
  rewrite (proj2 (Z.leb_le 0 (Z.of_nat (length l)))) by lia.
  destruct (has_extents_at f l e [] (fr_extents _ _ _ Hf)) as [Hi _]. rewrite Hi. cbn [mbind run_bind andb].
  destruct (fr_extents _ _ _ Hf) as (_ & _ & Hok & _).
  apply Forall_app in Hok as [_ [(He1 & He2 & _) _]%Forall_cons].
  rewrite (wrap_small 32 (indexExtentStartBlock e + countExtentBlock e)) by (unfold in_width; lia).
  destruct (Z.eqb_spec b (indexExtentStartBlock e + countExtentBlock e)) as [Heq|Hneq].
  - destruct (grow_last h f l e Hf ltac:(lia)) as (_ & -> & Hf' & Hbl). cbn [mbind run_bind].
    rewrite <- Heq in Hbl.
    pose proof (extend_next n h f _ t m b v t1 _ _ IH Hh Htot Hroom Hno Hb Ht1 Htot1 Hf' eq_refl Hbl)
      as Hnext.
    rewrite length_app in Hnext. simpl length in Hnext.
    replace (Z.of_nat (length l + 1) - 1) with (Z.of_nat (length l)) in Hnext by lia.
    apply Hnext. rewrite length_app. simpl. lia.
  - cbn [negb]. rewrite orb_true_r.
    by replace (Z.of_nat (length l) + 1) with (Z.of_nat (length l + 1)) by lia.
Qed.

(** ** Writing *)

Lemma bytes_of_blocks es :
  Forall extent_ok es -> bytes_of es = Z.of_nat (length (blocks_of es)) * BLOCK_SIZE.
Proof.
  induction 1 as [|e es (He & _) _ IH]; [done|]. unfold blocks_of in *. cbn [map concat bytes_of foldr].
  rewrite length_app. fold (bytes_of es). rewrite IH. unfold extent_blocks. rewrite length_seqZ. lia.
Qed.

(** The extent of a byte. *)
Lemma locate_split es : forall k,
  Forall extent_ok es -> 0 <= k < bytes_of es ->
  exists l1 e l2 j, es = l1 ++ e :: l2 /\ k = bytes_of l1 + j /\ 0 <= j < countExtentBlock e * BLOCK_SIZE.
Proof.
  induction es as [|e es IH]; intros k Hok Hk; [simpl in Hk; lia|].
  apply Forall_cons in Hok as [He Hok]. cbn [bytes_of foldr] in Hk. fold (bytes_of es) in Hk.
  destruct (decide (k < countExtentBlock e * BLOCK_SIZE)) as [Hlt|Hge].
  - exists [], e, es, k. split; [done|]. simpl. lia.
  - destruct (IH (k - countExtentBlock e * BLOCK_SIZE) Hok ltac:(lia)) as (l1 & e1 & l2 & j & -> & Hj & Hb).
    exists (e :: l1), e1, l2, j. split; [done|]. split; [|done].
    cbn [bytes_of foldr]. fold (bytes_of l1). lia.
Qed.

(** Position information for a range inside the extents. *)
Lemma fill_Done f es size offset fpi :
  has_extents f es -> (length es <= length (fpi_tuple fpi))%nat -> 0 < size -> 0 <= offset ->
  offset + size <= bytes_of es ->
  exists fpi', fillFilePositionInformation size offset fpi f = Done fpi'.
Proof.
  intros Hf Hlen Hs Ho Hend. pose proof Hf as (_ & _ & Hok & _).
  destruct (locate_split es offset Hok ltac:(lia)) as (l1 & e & l2 & js & -> & -> & Hjs).
  rewrite bytes_of_app in Hend. cbn [bytes_of foldr] in Hend. fold (bytes_of l2) in Hend.
  rewrite length_app in Hlen. simpl in Hlen.
  destruct (decide (js + size <= countExtentBlock e * BLOCK_SIZE)) as [Hone|Hmany].
  { eexists. eapply (fill_one f l1 e l2 size js fpi); try done; lia. }
  pose proof Hok as [_ [_ Hok2]%Forall_cons]%Forall_app.
  destruct (locate_split l2 (js + size - 1 - countExtentBlock e * BLOCK_SIZE) Hok2 ltac:(lia))
    as (mid & ee & l3 & je & -> & Hje & Hb).
  rewrite length_app in Hlen. simpl in Hlen.
  eexists. eapply (fill_several f l1 e mid ee l3 size js je fpi); try done; lia.
Qed.

(** Only the extents matter for the positions. *)
Lemma fill_meta f g size offset fpi :
  fm_count f = fm_count g -> fm_tuple f = fm_tuple g ->
  fillFilePositionInformation size offset fpi f = fillFilePositionInformation size offset fpi g.
Proof.
  intros Hc Ht.
  assert (forall fuel target start i, find_extent fuel f target start i = find_extent fuel g target start i)
    as Hfind.
  { induction fuel as [|fuel IH]; intros target start i; cbn [find_extent]; [done|]. rewrite Hc, Ht.
    destruct (i <? fm_count g); [|done]. destruct (list_index (fm_tuple g) i); [|done..].
    cbn [mbind run_bind]. by rewrite IH. }
  assert (forall n first i ts, fill_middle n f first i ts = fill_middle n g first i ts) as Hmid.
  { induction n as [|n IH]; intros first i ts; cbn [fill_middle]; [done|]. rewrite Ht.
    destruct (list_index (fm_tuple g) (first + i)); [|done..]. cbn [mbind run_bind].
    destruct (list_store ts i _); [|done..]. cbn [mbind run_bind]. by rewrite IH. }
  unfold fillFilePositionInformation. rewrite Ht, !Hfind.
  destruct (find_extent _ g offset 0 0) as [s| | |]; [|done..]. cbn [mbind run_bind].
  destruct (find_extent _ g _ 0 0) as [e| | |]; [|done..]. cbn [mbind run_bind].
  destruct (list_index (fm_tuple g) s.1); [|done..]. cbn [mbind run_bind].
  destruct (s.1 =? e.1); [done|]. destruct (list_store (fpi_tuple fpi) 0 _); [|done..].
  cbn [mbind run_bind]. by rewrite Hmid.
Qed.

(** The blocks of a file are as many as its size needs. *)
Definition sized (f : FileMeta) (es : list FileMetaTuple) : Prop :=
  (fm_size f = 0 /\ es = []) \/
  (0 < fm_size f < 2 ^ 63 /\ Z.of_nat (length (blocks_of es)) = (fm_size f - 1) / BLOCK_SIZE + 1).

(** The blocks that a write of [size] bytes at [offset] has to add. *)
Definition extra_blocks (f : FileMeta) (size offset : Z) : nat :=
  let last := (offset + size - 1) / BLOCK_SIZE in
  Z.to_nat (if fm_size f =? 0 then last + 1 else last - (fm_size f - 1) / BLOCK_SIZE).

(** What a write leaves: the blocks of the file, and [new] ones behind them,
    with the positions of the range in [fpi]. *)
Record written_to (h : Z) (f : FileMeta) (es : list FileMetaTuple) (size offset : Z) (fpi : file_pos_info)
    (t t' : Table.Table Block) (m m' : gmap Z Block) (f' : FileMeta) (fpi' : file_pos_info)
    (es' : list FileMetaTuple) (new : list Z) : Prop := mkWritten {
  wr_rep : file_rep h f' es';
  wr_sized : sized f' es';
  wr_size : fm_size f' = Z.max (offset + size) (fm_size f);
  wr_blocks : blocks_of es' = blocks_of es ++ new;
  wr_new : length new = extra_blocks f size offset;
  wr_len : (length es' <= length es + extra_blocks f size offset)%nat;
  wr_took : took t t' m m' new;
  wr_fill : fillFilePositionInformation size offset fpi f' = Done fpi'
}.

Definition written (h : Z) (f : FileMeta) (es : list FileMetaTuple) (size offset : Z) (fpi : file_pos_info)
    (t : Table.Table Block) (m : gmap Z Block)
    (r : run (option (FileMeta * file_pos_info) * Table.Table Block)) : Prop :=
  exists f' fpi' t' m' es' new, r = Done (Some (f', fpi'), t') /\
    written_to h f es size offset fpi t t' m m' f' fpi' es' new.

Lemma file_rep_size h f es c time :
  file_rep h f es -> file_rep h (mkFileMeta time (fm_count f) c (fm_tuple f)) es.
Proof. intros [(H1 & H2 & H3 & H4) H5 H6]. split; [by split|done|done]. Qed.

(** The branch that adds blocks. *)
Lemma write_grows h f es size offset fpi t m bound :
  file_rep h f es -> 0 <= h < 2 ^ 16 -> Table.trep t m -> Table.total t <= 4095 ->
  0 < size -> 0 <= offset -> offset + size < 2 ^ 63 ->
  bound = Z.of_nat (length es) - 1 ->
  Z.of_nat (length (blocks_of es) + extra_blocks f size offset) = (offset + size - 1) / BLOCK_SIZE + 1 ->
  fm_size f <= offset + size ->
  (length es + extra_blocks f size offset <= 20)%nat ->
  (length es + extra_blocks f size offset <= length (fpi_tuple fpi))%nat ->
  Z.of_nat (base.size m) + Z.of_nat (extra_blocks f size offset) <= Table.total t ->
  written h f es size offset fpi t m
    (r ← extend (extra_blocks f size offset) h f bound t;
     if r.1.1 : bool then
       let f := mkFileMeta (timeLastModified r.1.2) (fm_count r.1.2) (u64 (offset + size)) (fm_tuple r.1.2) in
       fpi ← fillFilePositionInformation size offset fpi f;
       Done (Some (f, fpi), r.2)
     else Done (None, r.2)).
Proof.
  intros Hf Hh Ht Htot Hs Ho Hw -> Hblocks Hsize Hlen Hfpi Hroom.
  destruct (extend_spec h (extra_blocks f size offset) f es t m Hf Hh Ht Htot Hroom)
    as [(f1 & es1 & t1 & m1 & new & -> & Hf1 & Hs1 & Hl1 & Hbl & Hn & Htk)|[_ Hbad]]; [|lia].
  cbn [mbind run_bind fst snd]. rewrite (wrap_small 64 (offset + size)) by (unfold in_width; lia).
  pose proof (file_rep_size h f1 es1 (offset + size) (timeLastModified f1) Hf1) as Hf2.
  set (f2 := mkFileMeta _ _ _ _) in *.
  assert (Forall extent_ok es1) as Hok by apply (fr_extents _ _ _ Hf1).
  assert (length (blocks_of es1) = (length (blocks_of es) + extra_blocks f size offset)%nat) as Hlb.
  { by rewrite Hbl, length_app, Hn. }
  pose proof (Z.div_mod (offset + size - 1) BLOCK_SIZE ltac:(unfold BLOCK_SIZE; lia)).
  pose proof (Z.mod_pos_bound (offset + size - 1) BLOCK_SIZE ltac:(unfold BLOCK_SIZE; lia)).
  destruct (fill_Done f2 es1 size offset fpi) as [fpi' Hfill]; try done.
  - apply Hf2.
  - lia.
  - rewrite bytes_of_blocks by done. rewrite Hlb, Hblocks. unfold BLOCK_SIZE in *. lia.
  - rewrite Hfill. exists f2, fpi', t1, m1, es1, new. split; [done|]. split; try done.
    + right. simpl. split; [lia|]. by rewrite Hlb, Hblocks.
    + simpl. lia.
Qed.

(** The branch of a write inside the last block. *)
Lemma write_inside h f es size offset fpi t m :
  file_rep h f es -> Table.trep t m -> 0 < size -> 0 <= offset -> offset + size < 2 ^ 63 ->
  0 < fm_size f < 2 ^ 63 -> Z.of_nat (length (blocks_of es)) = (fm_size f - 1) / BLOCK_SIZE + 1 ->
  (length es + extra_blocks f size offset <= length (fpi_tuple fpi))%nat ->
  (offset + size - 1) / BLOCK_SIZE <= (fm_size f - 1) / BLOCK_SIZE ->
  written h f es size offset fpi t m
    (let f := mkFileMeta (timeLastModified f) (fm_count f) (Z.max (offset + size) (fm_size f)) (fm_tuple f) in
     fpi ← fillFilePositionInformation size offset fpi f;
     Done (Some (f, fpi), t)).
Proof.
  intros Hf Ht Hs Ho Hw Hpos Hbl Hfpi Hle.
  assert (extra_blocks f size offset = 0%nat) as H0.
  { unfold extra_blocks. rewrite (proj2 (Z.eqb_neq (fm_size f) 0)) by lia. lia. }
  pose proof (file_rep_size h f es (Z.max (offset + size) (fm_size f)) (timeLastModified f) Hf) as Hf2.
  set (f2 := mkFileMeta _ _ _ _) in *. cbv zeta.
  pose proof (Z.div_mod (offset + size - 1) BLOCK_SIZE ltac:(unfold BLOCK_SIZE; lia)).
  pose proof (Z.mod_pos_bound (offset + size - 1) BLOCK_SIZE ltac:(unfold BLOCK_SIZE; lia)).
  destruct (fill_Done f2 es size offset fpi) as [fpi' Hfill]; try done.
  - apply Hf2.
  - lia.
  - rewrite bytes_of_blocks by apply (fr_extents _ _ _ Hf). rewrite Hbl. unfold BLOCK_SIZE in *. lia.
  - rewrite Hfill. exists f2, fpi', t, m, es, []. split; [done|]. split; try done.
    + right. simpl. split; [lia|]. rewrite Hbl. f_equal.
      destruct (Z.max_spec (offset + size) (fm_size f)) as [[_ ->]|[Hge ->]]; [done|].
      pose proof (Z.div_le_mono (fm_size f - 1) (offset + size - 1) BLOCK_SIZE
        ltac:(unfold BLOCK_SIZE; lia) ltac:(lia)). lia.
    + by rewrite app_nil_r.
    + lia.
    + by apply took_none.
Qed.

(** A write returns, and the file grows by fresh blocks. For a file whose
    extents cover its size, [extentWrite] of [size] bytes at [offset] takes
    exactly the blocks that the new size needs, none of which was in use, and
    appends them to the blocks of the file in order; the blocks that the file
    had, and all other blocks of the table, stay as they are, and the new size
    is the larger of the old one and the end of the range. This holds while
    blocks are free and the extents fit the file and the message. *)
Lemma write_range_spec h f es size offset fpi t m :
  file_rep h f es -> sized f es -> 0 <= h < 2 ^ 16 -> Table.trep t m -> Table.total t <= 4095 ->
  0 < size -> 0 <= offset -> offset + size < 2 ^ 63 ->
  (length es + extra_blocks f size offset <= 20)%nat ->
  (length es + extra_blocks f size offset <= length (fpi_tuple fpi))%nat ->
  Z.of_nat (base.size m) + Z.of_nat (extra_blocks f size offset) <= Table.total t ->
  written h f es size offset fpi t m (write_range f size offset h fpi t).
Proof.
  intros Hf Hsz Hh Ht Htot Hs Ho Hw Hlen Hfpi Hroom. unfold write_range.
  rewrite (wrap_small 64 (offset + size)) by (unfold in_width; lia).
  rewrite (wrap_small 64 (offset + size - 1)) by (unfold in_width; lia).
  assert (0 <= (offset + size - 1) / BLOCK_SIZE) by (apply Z.div_pos; unfold BLOCK_SIZE; lia).
  destruct Hsz as [[H0 ->]|[Hpos Hbl]].
  - rewrite H0, Z.eqb_refl. cbn [orb].
    replace (Z.to_nat _) with (extra_blocks f size offset) by (unfold extra_blocks; by rewrite H0).
    pose proof (write_grows h f [] size offset fpi t m (-1) Hf Hh Ht Htot Hs Ho Hw eq_refl) as Hg.
    rewrite (wrap_small 64 (offset + size)) in Hg by (unfold in_width; lia).
    apply Hg; try done; [|lia]. unfold extra_blocks. rewrite H0, Z.eqb_refl. simpl. lia.
  - rewrite (proj2 (Z.eqb_neq (fm_size f) 0)) by lia. cbn [orb].
    rewrite (wrap_small 64 (fm_size f - 1)) by (unfold in_width; lia).
    assert (0 <= (fm_size f - 1) / BLOCK_SIZE) by (apply Z.div_pos; unfold BLOCK_SIZE; lia).
    destruct (Z.ltb_spec ((fm_size f - 1) / BLOCK_SIZE) ((offset + size - 1) / BLOCK_SIZE)) as [Hlt|Hge].
    + assert (s64 (fm_count f) - 1 = Z.of_nat (length es) - 1) as ->.
      { destruct (fr_extents _ _ _ Hf) as (-> & _ & _ & ?). unfold s64.
        rewrite (wrap_small 64 (Z.of_nat (length es))) by (unfold in_width; lia).
        by rewrite (proj2 (Z.ltb_lt _ _)) by lia. }
      replace (Z.to_nat _) with (extra_blocks f size offset)
        by (unfold extra_blocks; by rewrite (proj2 (Z.eqb_neq (fm_size f) 0)) by lia).
      pose proof (write_grows h f es size offset fpi t m _ Hf Hh Ht Htot Hs Ho Hw eq_refl) as Hg.
      rewrite (wrap_small 64 (offset + size)) in Hg by (unfold in_width; lia).
      apply Hg; try done.
      * unfold extra_blocks. rewrite (proj2 (Z.eqb_neq (fm_size f) 0)) by lia. lia.
      * destruct (decide (fm_size f <= offset + size)); [done|].
        pose proof (Z.div_le_mono (offset + size - 1) (fm_size f - 1) BLOCK_SIZE
          ltac:(unfold BLOCK_SIZE; lia) ltac:(lia)). lia.
    + by apply write_inside.
Qed.

(** ** Truncation *)

(** The blocks [gone] were in use and are now free; nothing else changes. *)
Record gave (t t' : Table.Table Block) (m m' : gmap Z Block) (gone : list Z) : Prop := mkGave {
  gv_rep : Table.trep t' m';
  gv_total : Table.total t' = Table.total t;
  gv_gone : forall b, b ∈ gone -> m' !! b = None;
  gv_other : forall b, b ∉ gone -> m' !! b = m !! b
}.

Lemma gave_none t m : Table.trep t m -> gave t t m m [].
Proof. intros Ht. split; try done. intros b Hb. by apply not_elem_of_nil in Hb. Qed.

Lemma gave_app t t1 t2 m m1 m2 g1 g2 :
  gave t t1 m m1 g1 -> gave t1 t2 m1 m2 g2 -> gave t t2 m m2 (g1 ++ g2).
Proof.
  intros [_ Ht1 Hg1 Ho1] [Hr2 Ht2 Hg2 Ho2]. split; [done|by rewrite Ht2| |].
  - intros b [Hb|Hb]%elem_of_app; [|by apply Hg2].
    destruct (decide (b ∈ g2)); [by apply Hg2|]. rewrite Ho2 by done. by apply Hg1.
  - intros b [Hb1 Hb2]%not_elem_of_app. rewrite Ho2, Ho1 by done. done.
Qed.

Lemma drop_blocks_spec start n : forall j t m,
  Table.trep t m -> 0 <= start -> start + j < 2 ^ 32 -> Z.of_nat n <= j + 1 ->
  (forall b, b ∈ seqZ (start + j + 1 - Z.of_nat n) (Z.of_nat n) -> is_Some (m !! b)) ->
  exists t' m', drop_blocks n start j t = Done (true, t') /\
    gave t t' m m' (seqZ (start + j + 1 - Z.of_nat n) (Z.of_nat n)).
Proof.
  induction n as [|n IH]; intros j t m Ht Hs Hw Hj Hin; cbn [drop_blocks].
  { exists t, m. split; [done|]. by apply gave_none. }
  rewrite (wrap_small 32 (start + j)) by (unfold in_width; lia).
  destruct (Table.remove_spec t m (start + j) Ht ltac:(lia)) as (t1 & -> & Htot & _ & Ht1).
  rewrite bool_decide_eq_true_2 by (apply Hin, elem_of_seqZ; lia). cbn [mbind run_bind fst snd].
  replace (start + j + 1 - Z.of_nat (S n)) with (start + (j - 1) + 1 - Z.of_nat n) in * by lia.
  destruct (IH (j - 1) t1 _ Ht1 Hs ltac:(lia) ltac:(lia)) as (t2 & m2 & -> & Hg).
  { intros b [? ?]%elem_of_seqZ. rewrite lookup_delete_ne by lia. apply Hin, elem_of_seqZ. lia. }
  exists t2, m2. split; [done|].
  assert (gave t t1 m (delete (start + j) m) [start + j]) as Hg1.
  { split; [done|done| |].
    - intros b Hb%list_elem_of_singleton. subst b. by rewrite lookup_delete_eq.
    - intros b Hb. rewrite lookup_delete_ne; [done|]. intros <-. apply Hb. by apply list_elem_of_singleton. }
  pose proof (gave_app _ _ _ _ _ _ _ _ Hg1 Hg) as [Hr Htt Hgone Hother]. split; try done.
  - intros b [? ?]%elem_of_seqZ. apply Hgone, elem_of_app.
    destruct (decide (b = start + j)) as [->|]; [left; by apply list_elem_of_singleton|right].
    apply elem_of_seqZ. lia.
  - intros b Hb. apply Hother. rewrite elem_of_app, list_elem_of_singleton, elem_of_seqZ.
    rewrite elem_of_seqZ in Hb. lia.
Qed.

(** The blocks of an extent from [lo] on. *)
Lemma drop_from_spec e lo t m :
  extent_ok e -> 0 <= lo <= countExtentBlock e -> Table.trep t m ->
  (forall b, b ∈ drop (Z.to_nat lo) (extent_blocks e) -> is_Some (m !! b)) ->
  exists t' m', drop_from e lo t = Done (true, t') /\
    gave t t' m m' (drop (Z.to_nat lo) (extent_blocks e)).
Proof.
  intros (Hc & Hs & _) Hlo Ht Hin. unfold drop_from.
  assert (Table.s32 (u32 (countExtentBlock e - 1)) = countExtentBlock e - 1) as ->.
  { unfold Table.s32. rewrite (wrap_small 32 (countExtentBlock e - 1)) by (unfold in_width; lia).
    rewrite (wrap_small 32 (countExtentBlock e - 1)) by (unfold in_width; lia).
    by rewrite (proj2 (Z.ltb_lt _ _)) by lia. }
  assert (drop (Z.to_nat lo) (extent_blocks e) =
    seqZ (indexExtentStartBlock e + (countExtentBlock e - 1) + 1 - Z.of_nat (Z.to_nat (countExtentBlock e - 1 - lo + 1)))
      (Z.of_nat (Z.to_nat (countExtentBlock e - 1 - lo + 1)))) as Heq.
  { unfold extent_blocks. replace (countExtentBlock e) with (lo + (countExtentBlock e - lo)) at 1 by lia.
    rewrite seqZ_app, drop_app_length' by (rewrite ?length_seqZ; lia). f_equal; lia. }
  rewrite Heq in Hin |- *. apply drop_blocks_spec; try done; lia.
Qed.

(** The extents behind the last one that is kept. *)
Lemma drop_rest_spec f l2 : forall fuel l1 t m,
  has_extents f (l1 ++ l2) -> (length l2 < fuel)%nat -> Table.trep t m -> NoDup (blocks_of l2) ->
  (forall b, b ∈ blocks_of l2 -> is_Some (m !! b)) ->
  exists t' m', drop_rest fuel f (Z.of_nat (length l1)) true t = Done (true, t') /\
    gave t t' m m' (blocks_of l2).
Proof.
  induction l2 as [|e l2 IH]; intros [|fuel] l1 t m Hf Hfuel Ht Hnd Hin; simpl in Hfuel; try lia;
    cbn [drop_rest].
  - rewrite app_nil_r in Hf. destruct Hf as (-> & _). rewrite Z.ltb_irrefl.
    exists t, m. split; [done|]. by apply gave_none.
  - destruct (has_extents_at f l1 e l2 Hf) as [Hi Hlt]. rewrite (proj2 (Z.ltb_lt _ _) Hlt), Hi.
    cbn [mbind run_bind]. destruct (has_extents_bounds f l1 e l2 Hf) as (He & _).
    unfold blocks_of in Hnd, Hin |- *. cbn [map concat] in *. fold (blocks_of l2) in *.
    apply NoDup_app in Hnd as (Hnd1 & Hdisj & Hnd2).
    pose proof He as (Hc & _).
    destruct (drop_from_spec e 0 t m He ltac:(lia) Ht) as (t1 & m1 & -> & Hg1).
    { intros b Hb. rewrite drop_0 in Hb. apply Hin, elem_of_app. by left. }
    change (Z.to_nat 0) with 0%nat in Hg1. rewrite drop_0 in Hg1. cbn [mbind run_bind fst snd andb].
    destruct (IH fuel (l1 ++ [e]) t1 m1) as (t2 & m2 & Hd & Hg2).
    + by rewrite <- app_assoc.
    + lia.
    + apply Hg1.
    + done.
    + intros b Hb. rewrite (gv_other _ _ _ _ _ Hg1); [apply Hin, elem_of_app; by right|].
      intros Hb1. by apply (Hdisj b).
    + rewrite length_app in Hd. simpl length in Hd.
      replace (Z.of_nat (length l1) + 1) with (Z.of_nat (length l1 + 1)) by lia.
      exists t2, m2. split; [done|]. by eapply gave_app.
Qed.

Definition count_blocks (es : list FileMetaTuple) : Z := Z.of_nat (length (blocks_of es)).

Lemma count_blocks_app es es' : count_blocks (es ++ es') = count_blocks es + count_blocks es'.
Proof. unfold count_blocks. rewrite blocks_of_app, length_app. lia. Qed.

Lemma count_blocks_one e : extent_ok e -> count_blocks [e] = countExtentBlock e.
Proof.
  intros (H & _). unfold count_blocks, blocks_of, extent_blocks. simpl. rewrite app_nil_r, length_seqZ. lia.
Qed.

Lemma count_blocks_bound es : Forall extent_ok es -> count_blocks es <= 4096 * Z.of_nat (length es).
Proof.
  induction 1 as [|e es He _ IH]; [done|]. change (e :: es) with ([e] ++ es).
  rewrite count_blocks_app, count_blocks_one by done. destruct He as (H & _). rewrite length_app. simpl. lia.
Qed.

(** The extent with block number [n] of the file, counted from 1. *)
Lemma find_last_spec f e l2 n : forall l1 l0 fuel,
  has_extents f (l0 ++ l1 ++ e :: l2) -> (length l1 < fuel)%nat ->
  (l1 = [] \/ count_blocks (l0 ++ l1) < n) -> n <= count_blocks (l0 ++ l1) + countExtentBlock e ->
  find_last fuel f n (Z.of_nat (length l0)) (count_blocks l0) =
  Done (Some (Z.of_nat (length (l0 ++ l1)), count_blocks (l0 ++ l1))).
Proof.
  induction l1 as [|x l1 IH]; intros l0 [|fuel] Hf Hfuel Hlt Hle; simpl in Hfuel; try lia;
    cbn [find_last]; simpl app in Hf.
  - rewrite app_nil_r in *. destruct (has_extents_at f l0 e l2 Hf) as [Hi Hb].
    rewrite (proj2 (Z.ltb_lt _ _) Hb), Hi. cbn [mbind run_bind].
    pose proof Hf as (_ & _ & Hok & Hlen). apply Forall_app in Hok as [Hok0 [(He & _) _]%Forall_cons].
    pose proof (count_blocks_bound l0 Hok0). rewrite length_app in Hlen.
    rewrite (wrap_small 64 (count_blocks l0 + _)) by (unfold in_width, count_blocks in *; lia).
    by rewrite (proj2 (Z.leb_le _ _)).
  - destruct (has_extents_at f l0 x (l1 ++ e :: l2) Hf) as [Hi Hb].
    rewrite (proj2 (Z.ltb_lt _ _) Hb), Hi. cbn [mbind run_bind].
    pose proof Hf as (_ & _ & Hok & Hlen). apply Forall_app in Hok as [Hok0 [Hx Hok1]%Forall_cons].
    apply Forall_app in Hok1 as [Hok1 _].
    pose proof (count_blocks_bound l0 Hok0). rewrite length_app in Hlen.
    assert (l0 ++ x :: l1 = (l0 ++ [x]) ++ l1) as Happ by by rewrite <- app_assoc.
    assert (count_blocks (l0 ++ [x]) = count_blocks l0 + countExtentBlock x) as Hcx
      by by rewrite count_blocks_app, count_blocks_one.
    pose proof Hx as (Hxc & _). rewrite Happ in Hlt, Hle |- *.
    rewrite (wrap_small 64 (count_blocks l0 + _)) by (unfold in_width, count_blocks in *; lia).
    assert (0 <= count_blocks l1) by (unfold count_blocks; lia).
    rewrite count_blocks_app in Hlt. destruct Hlt as [|Hlt]; [done|].
    rewrite (proj2 (Z.leb_gt _ _)) by lia. rewrite <- Hcx.
    replace (Z.of_nat (length l0) + 1) with (Z.of_nat (length (l0 ++ [x]))) by (rewrite length_app; simpl; lia).
    apply IH; [by rewrite <- app_assoc|lia|right; rewrite count_blocks_app; lia|done].
Qed.

(** The number of blocks of [size] bytes. *)
Definition blocks_for (size : Z) : Z := if size =? 0 then 0 else (size - 1) / BLOCK_SIZE + 1.

Lemma blocks_for_range size :
  0 <= size < 2 ^ 63 ->
  (if size =? 0 then 0 else u64 (u64 (size - 1) / BLOCK_SIZE + 1)) = blocks_for size /\
  0 <= blocks_for size.
Proof.
  intros Hs. unfold blocks_for. destruct (Z.eqb_spec size 0); [done|].
  rewrite (wrap_small 64 (size - 1)) by (unfold in_width; lia).
  pose proof (Z.div_pos (size - 1) BLOCK_SIZE ltac:(lia) ltac:(unfold BLOCK_SIZE; lia)).
  assert ((size - 1) / BLOCK_SIZE <= size - 1) by (apply Z.div_le_upper_bound; unfold BLOCK_SIZE; lia).
  split; [|lia]. apply wrap_small. unfold in_width. lia.
Qed.

(** The blocks of a file from block [n] on, which is in extent [e]. *)
Lemma cut_tail l1 e l2 n :
  extent_ok e -> count_blocks l1 <= n <= count_blocks l1 + countExtentBlock e ->
  drop (Z.to_nat n) (blocks_of (l1 ++ e :: l2)) =
  drop (Z.to_nat (n - count_blocks l1)) (extent_blocks e) ++ blocks_of l2.
Proof.
  intros (He & _) Hn. rewrite blocks_of_app. unfold count_blocks in *.
  rewrite drop_app_ge by lia.
  replace (Z.to_nat n - length (blocks_of l1))%nat
    with (Z.to_nat (n - Z.of_nat (length (blocks_of l1)))) by lia.
  unfold blocks_of at 1. cbn [map concat]. fold (blocks_of l2). apply drop_app_le.
  unfold extent_blocks. rewrite length_seqZ. lia.
Qed.

(** The metadata of the kept extents. *)
Lemma file_rep_prefix h f l1 e l2 time size :
  file_rep h f (l1 ++ e :: l2) ->
  file_rep h (mkFileMeta time (u64 (Z.of_nat (length l1 + 1))) size (fm_tuple f)) (l1 ++ [e]).
Proof.
  intros [(Hc & (rest & Ht) & Hok & Hlen) H20 Hn]. rewrite length_app in Hlen. simpl in Hlen.
  change (e :: l2) with ([e] ++ l2) in *. rewrite app_assoc in *.
  apply Forall_app in Hok as [Hok _]. apply Forall_app in Hn as [Hn _]. split; [|done|done].
  split; [|split; [|split; [done|]]].
  - simpl. rewrite wrap_small by (unfold in_width; lia). rewrite length_app. simpl. lia.
  - exists (l2 ++ rest). simpl. by rewrite Ht, <- app_assoc.
  - rewrite length_app. simpl. lia.
Qed.

(** Everything behind block [lo] of extent [e]. *)
Lemma drop_tail h f l1 e l2 lo t m :
  file_rep h f (l1 ++ e :: l2) -> Table.trep t m -> 0 <= lo <= countExtentBlock e ->
  NoDup (drop (Z.to_nat lo) (extent_blocks e) ++ blocks_of l2) ->
  (forall b, b ∈ drop (Z.to_nat lo) (extent_blocks e) ++ blocks_of l2 -> is_Some (m !! b)) ->
  exists t1 t2 m2, drop_from e lo t = Done (true, t1) /\
    drop_rest (S (length (fm_tuple f))) f (Z.of_nat (length l1) + 1) true t1 = Done (true, t2) /\
    gave t t2 m m2 (drop (Z.to_nat lo) (extent_blocks e) ++ blocks_of l2).
Proof.
  intros Hf Ht Hlo (_ & Hdisj & Hnd2)%NoDup_app Hin. pose proof (fr_extents _ _ _ Hf) as Hx.
  pose proof (has_extents_bounds f l1 e l2 Hx) as (He & _).
  destruct (drop_from_spec e lo t m He Hlo Ht) as (t1 & m1 & Hd1 & Hg1).
  { intros b Hb. apply Hin, elem_of_app. by left. }
  destruct (drop_rest_spec f l2 (S (length (fm_tuple f))) (l1 ++ [e]) t1 m1) as (t2 & m2 & Hd2 & Hg2).
  - by rewrite <- app_assoc.
  - rewrite (fr_tuple _ _ _ Hf). destruct Hx as (_ & _ & _ & Hlen). rewrite length_app in Hlen.
    simpl in Hlen. lia.
  - apply Hg1.
  - done.
  - intros b Hb. rewrite (gv_other _ _ _ _ _ Hg1); [apply Hin, elem_of_app; by right|].
    intros Hb1. by apply (Hdisj b).
  - rewrite length_app in Hd2. simpl length in Hd2.
    replace (Z.of_nat (length l1) + 1) with (Z.of_nat (length l1 + 1)) by lia.
    exists t1, t2, m2. split; [done|]. split; [done|]. by eapply gave_app.
Qed.

(** What [cut] releases, for a new size whose last block is in extent [e]. *)
Lemma cut_spec h f l1 e l2 size t m :
  file_rep h f (l1 ++ e :: l2) -> Table.trep t m -> NoDup (blocks_of (l1 ++ e :: l2)) ->
  (forall b, b ∈ blocks_of (l1 ++ e :: l2) -> is_Some (m !! b)) ->
  0 <= size < fm_size f -> fm_size f < 2 ^ 63 ->
  (l1 = [] \/ count_blocks l1 < blocks_for size) -> blocks_for size <= count_blocks l1 + countExtentBlock e ->
  exists f' t' m', cut f size t = Done (Some f', t') /\
    fm_size f' = size /\ file_rep h f' (l1 ++ [e]) /\
    gave t t' m m' (drop (Z.to_nat (blocks_for size)) (blocks_of (l1 ++ e :: l2))) /\
    (forall b, b ∈ drop (Z.to_nat (blocks_for size)) (blocks_of (l1 ++ [e])) -> m' !! b = None).
Proof.
  intros Hf Ht Hnd Hin Hsize Hw Hl1 Hle. pose proof (fr_extents _ _ _ Hf) as Hx.
  pose proof (has_extents_bounds f l1 e l2 Hx) as (He & _). pose proof He as (Hc & _).
  assert (length (l1 ++ e :: l2) <= 20)%nat as H20 by apply Hx.
  rewrite length_app in H20. simpl in H20.
  destruct (blocks_for_range size ltac:(lia)) as [Hwrap Hb0].
  assert (0 <= blocks_for size - count_blocks l1 <= countExtentBlock e) as Hlo
    by (destruct Hl1 as [->|?]; [change (count_blocks []) with 0 in *|]; lia).
  set (nb := blocks_for size) in *. set (lo := nb - count_blocks l1) in *.
  pose proof (cut_tail l1 e l2 nb He ltac:(lia)) as Htail. fold lo in Htail.
  destruct (drop_tail h f l1 e l2 lo t m Hf Ht Hlo) as (t1 & t2 & m2 & Hd1 & Hd2 & Hg).
  { rewrite <- Htail. by eapply sublist_NoDup, sublist_drop. }
  { intros b Hb. rewrite <- Htail in Hb. apply Hin. by eapply subseteq_drop. }
  assert (length l1 < S (length (fm_tuple f)))%nat as Hfuel by (rewrite (fr_tuple _ _ _ Hf); lia).
  pose proof (find_last_spec f e l2 nb l1 [] (S (length (fm_tuple f))) Hx Hfuel Hl1 Hle) as Hfind.
  simpl app in Hfind. simpl length in Hfind. change (Z.of_nat 0) with 0 in Hfind.
  change (count_blocks []) with 0 in Hfind.
  unfold cut. rewrite (proj2 (Z.leb_gt _ _)) by lia. cbv zeta. rewrite Hwrap, Hfind. cbn [mbind run_bind].
  rewrite (proj1 (has_extents_at f l1 e l2 Hx)). cbn [mbind run_bind]. fold lo.
  assert (Table.s32 (u64 lo) = lo) as ->.
  { unfold Table.s32. rewrite (wrap_small 64 lo), (wrap_small 32 lo) by (unfold in_width; lia).
    by rewrite (proj2 (Z.ltb_lt _ _)) by lia. }
  rewrite Hd1. cbn [mbind run_bind fst snd]. rewrite Hd2. cbn [mbind run_bind fst snd].
  replace (Z.of_nat (length l1) + 1) with (Z.of_nat (length l1 + 1)) by lia.
  eexists _, t2, m2. split; [done|]. split; [done|]. split; [|split].
  - by apply (file_rep_prefix h f l1 e l2).
  - by rewrite Htail.
  - intros b Hb. apply (gv_gone _ _ _ _ _ Hg), elem_of_app. left.
    pose proof (cut_tail l1 e [] nb He ltac:(lia)) as Htail0. rewrite Htail0 in Hb.
    change (blocks_of []) with (@nil Z) in Hb. rewrite app_nil_r in Hb. done.
Qed.

(** ** Removal *)

Lemma gave_one t t' m b :
  Table.trep t' (delete b m) -> Table.total t' = Table.total t -> gave t t' m (delete b m) [b].
Proof.
  intros Ht Htot. split; [done|done| |].
  - intros x Hx%list_elem_of_singleton. subst x. by rewrite lookup_delete_eq.
  - intros x Hx. rewrite lookup_delete_ne; [done|]. intros <-. apply Hx. by apply list_elem_of_singleton.
Qed.

Lemma gave_perm t t' m m' g g' :
  (forall b, b ∈ g <-> b ∈ g') -> gave t t' m m' g -> gave t t' m m' g'.
Proof.
  intros Hg [Hr Ht Hgone Hother]. split; [done|done| |]; intros b Hb.
  - by apply Hgone, Hg.
  - apply Hother. by rewrite Hg.
Qed.

Lemma free_blocks_spec start n : forall t m,
  Table.trep t m -> 0 <= start -> start + Z.of_nat n <= 2 ^ 32 ->
  exists t' m', free_blocks n start t = Done (tt, t') /\ gave t t' m m' (seqZ start (Z.of_nat n)).
Proof.
  induction n as [|n IH]; intros t m Ht Hs Hw; cbn [free_blocks].
  { exists t, m. split; [done|]. by apply gave_none. }
  rewrite (wrap_small 32 (start + Z.of_nat n)) by (unfold in_width; lia).
  destruct (Table.remove_spec t m (start + Z.of_nat n) Ht ltac:(lia)) as (t1 & -> & Htot & _ & Ht1).
  cbn [mbind run_bind snd]. destruct (IH t1 _ Ht1 Hs ltac:(lia)) as (t2 & m2 & -> & Hg).
  exists t2, m2. split; [done|]. eapply gave_perm; [|exact (gave_app _ _ _ _ _ _ _ _ (gave_one t t1 m _ Ht1 Htot) Hg)].
  intros b. rewrite elem_of_app, list_elem_of_singleton, !elem_of_seqZ. lia.
Qed.

Lemma int_count_small c : 0 <= c < 2 ^ 31 -> int_count c = Done (Z.to_nat c).
Proof.
  intros Hc. unfold int_count, Table.s32. rewrite wrap_small by (unfold in_width; lia).
  rewrite (proj2 (Z.ltb_lt _ _)) by lia. by rewrite (proj2 (Z.eqb_neq _ _)) by lia.
Qed.

(** The loop over the extents on server [h], from the first of [l2] on. *)
Lemma free_extents_spec f h l2 : forall fuel l1 t m,
  has_extents f (l1 ++ l2) -> Forall (fun e => hashNode e = h) l2 -> (length l2 < fuel)%nat ->
  Table.trep t m ->
  exists t' m', free_extents fuel f h (Z.of_nat (length l1)) t = Done (tt, t') /\
    gave t t' m m' (blocks_of l2).
Proof.
  induction l2 as [|e l2 IH]; intros [|fuel] l1 t m Hf Hn Hfuel Ht; simpl in Hfuel; try lia;
    cbn [free_extents].
  - rewrite app_nil_r in Hf. destruct Hf as (-> & _). rewrite Z.ltb_irrefl.
    exists t, m. split; [done|]. by apply gave_none.
  - destruct (has_extents_at f l1 e l2 Hf) as [Hi Hlt]. rewrite (proj2 (Z.ltb_lt _ _) Hlt), Hi.
    cbn [mbind run_bind]. apply Forall_cons in Hn as [Hne Hn]. rewrite Hne, Z.eqb_refl.
    destruct (has_extents_bounds f l1 e l2 Hf) as ((Hc & Hs & _) & _).
    rewrite int_count_small by lia. cbn [mbind run_bind].
    destruct (free_blocks_spec (indexExtentStartBlock e) (Z.to_nat (countExtentBlock e)) t m Ht)
      as (t1 & m1 & -> & Hg1); [lia|lia|]. cbn [mbind run_bind snd]. rewrite Z2Nat.id in Hg1 by lia.
    destruct (IH fuel (l1 ++ [e]) t1 m1) as (t2 & m2 & Hd & Hg2);
      [by rewrite <- app_assoc|done|lia|apply Hg1|].
    rewrite length_app in Hd. simpl length in Hd.
    replace (Z.of_nat (length l1) + 1) with (Z.of_nat (length l1 + 1)) by lia.
    exists t2, m2. split; [done|]. unfold blocks_of. cbn [map concat]. fold (blocks_of l2).
    by eapply gave_app.
Qed.

(** ** Files *)

(** The extents of a file, and its blocks in order. *)
Definition extents (f : FileMeta) : list FileMetaTuple := take (Z.to_nat (fm_count f)) (fm_tuple f).
Definition file_blocks (f : FileMeta) : list Z := blocks_of (extents f).

Lemma file_rep_extents h f es : file_rep h f es -> extents f = es.
Proof.
  intros [(Hc & (rest & Ht) & _) _ _]. unfold extents. rewrite Hc, Ht, Nat2Z.id. by apply take_app_length.
Qed.

(** A file on server [h] whose metadata is in order. *)
Record sound (h : Z) (f : FileMeta) : Prop := mkSound {
  so_rep : file_rep h f (extents f);
  so_sized : sized f (extents f);
  so_nodup : NoDup (file_blocks f)
}.

Lemma sound_intro h f es :
  file_rep h f es -> sized f es -> NoDup (blocks_of es) -> sound h f /\ file_blocks f = blocks_of es.
Proof.
  intros Hf Hs Hnd. pose proof (file_rep_extents h f es Hf) as Hes. unfold file_blocks.
  split; [|by rewrite Hes]. split; unfold file_blocks; by rewrite Hes.
Qed.

(** The time of the last change does not matter. *)
Lemma sound_time h f time :
  sound h f -> sound h (mkFileMeta time (fm_count f) (fm_size f) (fm_tuple f)).
Proof.
  intros [Hf Hs Hnd]. apply (sound_intro h _ (extents f)); [by apply file_rep_size|done|done].
Qed.

End FileBlocks.
