(* ===== verification/OctNamespace.v ===== *)
(** * The namespace of an octopus cluster

    The abstract file system is a map from paths to files and directories.
    [inv] relates it to the views of the servers; every step of an operation
    that changes a view is followed by a lemma on the invariant. *)

From S2P Require Import Prelude.
From S2P Require Import OctBase.
From S2P Require Import OctTable.
From S2P Require Import OctHashTable.
From S2P Require Import OctHashProps.
From S2P Require Import OctLock.
From S2P Require Import OctStorage.
From S2P Require Import OctExtent.
From S2P Require Import OctFileSystem.
From S2P Require Import OctDirectory.
From S2P Require Import OctFsRep.
From S2P Require Import OctBlocks.
Open Scope Z_scope.

Module Namespace.
Import FileSystem Directory FsRep FileBlocks.

(** ** The abstract state *)

Inductive entry : Type :=
| EFile (f : FileMeta)
| EDir (es : list listed).

Definition kind (e : entry) : bool := match e with EFile _ => false | EDir _ => true end.

Abbreviation tree := (gmap (list Z) entry).

(** The entry with number [idx] of a server. *)
Definition entry_rep (v : view) (idx : Z) (e : entry) : Prop :=
  match e with
  | EFile f => v_files v !! idx = Some f
  | EDir es => exists d, v_dirs v !! idx = Some d /\ holds d es
  end.

(** The blocks of an entry, and metadata in order. *)
Definition entry_blocks (e : entry) : list Z :=
  match e with EFile f => file_blocks f | EDir _ => [] end.
Definition entry_sound (h : Z) (e : entry) : Prop :=
  match e with EFile f => sound h f | EDir _ => True end.

(** How many operations a cluster is asked to do, and how many blocks each
    server has at least. *)
Record limits : Type := mkLimits { max_ops :> Z; max_blocks : Z }.

Section namespace.
Context (N : Z) (HN : 0 < N < 2 ^ 16).
Variable CalculateDigest : list Z -> HashTable.UniqueHash.
Local Abbreviation digest := (digest CalculateDigest).
Local Abbreviation home := (home N CalculateDigest).

(** The paths that the clients use; their digests are different. *)
Context (used : list Z -> Prop).
Definition collision_free : Prop := forall p q, used p -> used q -> digest p = digest q -> p = q.
Context (Hcf : collision_free).

(** Each server has room for that; the offsets of 4095 blocks fit 32 bits. *)
Definition cap_ok (n : limits) (c : capacity) : Prop :=
  n <= c_log c /\ n < c_items c - 1 /\ n <= c_files c /\ n < c_dirs c /\
  max_blocks n <= c_blocks c <= 4095.

(** The blocks in use on a server are those of the files it keeps, and no two
    files share one. *)
Record blocks_rep (V : gmap Z view) (T : tree) : Prop := mkBlocks {
  bl_sound : forall p e, T !! p = Some e -> entry_sound (home p) e;
  bl_in : forall p e v b, T !! p = Some e -> V !! home p = Some v -> b ∈ entry_blocks e ->
    is_Some (v_blocks v !! b);
  bl_apart : forall p q e e' b, T !! p = Some e -> T !! q = Some e' -> home p = home q ->
    b ∈ entry_blocks e -> b ∈ entry_blocks e' -> p = q;
  bl_only : forall k v b, V !! k = Some v -> is_Some (v_blocks v !! b) ->
    exists p e, T !! p = Some e /\ home p = k /\ b ∈ entry_blocks e
}.

Record names_rep (V : gmap Z view) (T : tree) : Prop := mkNames {
  ns_nodes : forall k, 1 <= k <= N -> is_Some (V !! k);
  ns_used : forall p e, T !! p = Some e -> used p;
  ns_path : forall p e, T !! p = Some e -> exists v idx, V !! home p = Some v /\
    v_paths v !! digest p = Some (idx, kind e) /\ entry_rep v idx e;
  ns_only : forall k v h x, V !! k = Some v -> v_paths v !! h = Some x ->
    exists p e, T !! p = Some e /\ digest p = h /\ home p = k;
  ns_inj : forall k v h1 h2 x, V !! k = Some v ->
    v_paths v !! h1 = Some x -> v_paths v !! h2 = Some x -> h1 = h2;
  ns_blocks : blocks_rep V T
}.

(** The lock words of server [me] are [L], those of the others are zero. *)
Definition held (V : gmap Z view) (me : Z) (L : gmap Z Z) : Prop :=
  forall k v, V !! k = Some v -> v_locks v = if decide (k = me) then L else ∅.

(** Every item was created by an operation with a transaction of its own; the
    root has none. Server [me] may create [s] more items. *)
Record room_at (total : limits) (n : Z) (v : view) (s : Z) : Prop := mkRoom {
  ro_paths : Z.of_nat (size (v_paths v)) + s <= v_log v + 1;
  ro_files : Z.of_nat (size (v_files v)) + s <= v_log v;
  ro_dirs : Z.of_nat (size (v_dirs v)) + s <= v_log v + 1;
  ro_log : 0 <= v_log v <= n;
  ro_cap : cap_ok total (v_cap v)
}.

Definition room (total : limits) (n : Z) (V : gmap Z view) (me s : Z) : Prop :=
  forall k v, V !! k = Some v -> room_at total n v (if decide (k = me) then s else 0).

Record inv (total : limits) (n : Z) (V : gmap Z view) (T : tree) (me : Z) (L : gmap Z Z) (s : Z) : Prop := mkInv {
  in_names : names_rep V T;
  in_held : held V me L;
  in_room : room total n V me s
}.

(** ** Lookups *)

Lemma names_some V T p e v :
  names_rep V T -> T !! p = Some e -> V !! home p = Some v ->
  exists idx, v_paths v !! digest p = Some (idx, kind e) /\ entry_rep v idx e.
Proof.
  intros Hn Hp Hv. destruct (ns_path _ _ Hn p e Hp) as (v' & idx & Hv' & Hx & He).
  simplify_eq. by exists idx.
Qed.

Lemma names_none V T p k v :
  names_rep V T -> T !! p = None -> used p -> V !! k = Some v -> v_paths v !! digest p = None.
Proof using Hcf.
  intros Hn Hp Hu Hv. destruct (v_paths v !! digest p) as [x|] eqn:Hx; [|done].
  destruct (ns_only _ _ Hn k v _ x Hv Hx) as (q & e & Hq & Hd & _).
  apply Hcf in Hd; [by subst; congruence|by eapply ns_used|done].
Qed.

Lemma names_dirs_present V T k v : names_rep V T -> V !! k = Some v -> dirs_present v.
Proof.
  intros Hn Hv h idx Hx. destruct (ns_only _ _ Hn k v h _ Hv Hx) as (p & e & Hp & <- & <-).
  destruct (names_some V T p e v Hn Hp Hv) as (idx' & Hx' & He). rewrite Hx in Hx'.
  destruct e as [f|es]; simplify_eq. destruct He as (d & -> & _). by exists d.
Qed.

Lemma find_dir_spec V T q v :
  names_rep V T -> used q -> V !! home q = Some v ->
  match T !! q with
  | Some (EDir es) => exists idx d, find_dir CalculateDigest v q = Some (idx, d) /\
      v_paths v !! digest q = Some (idx, true) /\ v_dirs v !! idx = Some d /\ holds d es
  | _ => find_dir CalculateDigest v q = None
  end.
Proof using Hcf.
  intros Hn Hu Hv. unfold find_dir. destruct (T !! q) as [e|] eqn:Hq.
  - destruct (names_some V T q e v Hn Hq Hv) as (idx & Hx & He). rewrite Hx.
    destruct e as [f|es]; [done|]. simpl in He. destruct He as (d & Hd & Hh). simpl. rewrite Hd.
    by exists idx, d.
  - by rewrite (names_none V T q _ v Hn Hq Hu Hv).
Qed.

(** ** Changes of blocks *)

Definition oblocks (o : option entry) : list Z := from_option entry_blocks [] o.

(** The entry of a path becomes [o'], and its server [v']. *)
Lemma blocks_change V T p v v' (o' : option entry) :
  blocks_rep V T -> V !! home p = Some v -> (forall e, o' = Some e -> entry_sound (home p) e) ->
  (forall b, b ∈ oblocks o' -> is_Some (v_blocks v' !! b)) ->
  (forall b, b ∈ oblocks o' -> b ∈ oblocks (T !! p) \/ v_blocks v !! b = None) ->
  (forall b, b ∈ oblocks (T !! p) -> b ∉ oblocks o' -> v_blocks v' !! b = None) ->
  (forall b, b ∉ oblocks (T !! p) -> b ∉ oblocks o' -> v_blocks v' !! b = v_blocks v !! b) ->
  blocks_rep (<[home p := v']> V) (partial_alter (fun _ => o') p T).
Proof.
  intros [Hs Hin Hap Hon] Hv Hs' Hnew Hfresh Hgone Hsame.
  assert (forall q e b, q <> p -> T !! q = Some e -> home q = home p -> b ∈ entry_blocks e ->
    b ∉ oblocks (T !! p) /\ b ∉ oblocks o') as Hothers.
  { intros q e b Hne Hq Hh Hb.
    assert (b ∉ oblocks (T !! p)) as Hold.
    { intros Hb'. destruct (T !! p) as [e0|] eqn:Hp; [|by apply not_elem_of_nil in Hb'].
      by apply Hne, (Hap q p e e0 b). }
    split; [done|]. intros Hb'. destruct (Hfresh b Hb') as [|Hno]; [done|].
    destruct (Hin q e v b Hq) as [x Hx]; [by rewrite Hh|done|congruence]. }
  split.
  - intros q e. destruct (decide (p = q)) as [<-|Hne].
    + rewrite lookup_partial_alter_eq. apply Hs'.
    + rewrite lookup_partial_alter_ne by done. apply Hs.
  - intros q e w b. destruct (decide (p = q)) as [<-|Hne].
    + rewrite lookup_partial_alter_eq, lookup_insert_eq. intros Ho [= <-] Hb. apply Hnew. by rewrite Ho.
    + rewrite lookup_partial_alter_ne by done. intros Hq.
      destruct (decide (home p = home q)) as [Heq|Hnh].
      * rewrite <- Heq, lookup_insert_eq. intros [= <-] Hb.
        destruct (Hothers q e b) as [H1 H2]; [done|done|done|done|]. rewrite Hsame by done.
        apply (Hin q e); [done|by rewrite <- Heq|done].
      * rewrite lookup_insert_ne by done. by apply Hin.
  - intros q r e e' b. destruct (decide (p = q)) as [<-|Hq], (decide (p = r)) as [<-|Hr].
    + done.
    + rewrite lookup_partial_alter_eq, lookup_partial_alter_ne by done. intros Ho Hre Hh Hb Hb'.
      destruct (Hothers r e' b) as [_ []]; [done|done|done|done|by rewrite Ho].
    + rewrite lookup_partial_alter_eq, lookup_partial_alter_ne by done. intros Hqe Ho Hh Hb Hb'.
      destruct (Hothers q e b) as [_ []]; [done|done|done|done|by rewrite Ho].
    + rewrite !lookup_partial_alter_ne by done. apply Hap.
  - intros k w b. destruct (decide (home p = k)) as [<-|Hne].
    + rewrite lookup_insert_eq. intros [= <-] Hb. destruct (decide (b ∈ oblocks o')) as [Hb'|Hb'].
      { destruct o' as [e|]; [|by apply not_elem_of_nil in Hb']. exists p, e.
        by rewrite lookup_partial_alter_eq. }
      destruct (decide (b ∈ oblocks (T !! p))) as [Hold|Hold].
      { rewrite Hgone in Hb by done. by destruct Hb. }
      rewrite Hsame in Hb by done. destruct (Hon _ v b Hv Hb) as (q & e & Hq & Hh & Hbe).
      exists q, e. rewrite lookup_partial_alter_ne; [done|]. intros <-. apply Hold. by rewrite Hq.
    + rewrite lookup_insert_ne by done. intros Hw Hb.
      destruct (Hon k w b Hw Hb) as (q & e & Hq & Hh & Hbe). exists q, e.
      rewrite lookup_partial_alter_ne; [done|]. by intros <-.
Qed.

Lemma back_entry (T : tree) p o' q e b :
  oblocks o' = oblocks (T !! p) -> partial_alter (fun _ => o') p T !! q = Some e -> b ∈ entry_blocks e ->
  exists e0, T !! q = Some e0 /\ b ∈ entry_blocks e0.
Proof.
  intros Ho. destruct (decide (p = q)) as [<-|Hne].
  - rewrite lookup_partial_alter_eq. intros -> Hb. simpl in Ho. rewrite Ho in Hb.
    destruct (T !! p) as [e0|]; [by exists e0|by apply not_elem_of_nil in Hb].
  - rewrite lookup_partial_alter_ne by done. intros Hq Hb. by exists e.
Qed.

(** Blocks stay, and a path changes to an entry with the same ones. *)
Lemma blocks_keep V T k v v' p o' :
  blocks_rep V T -> V !! k = Some v -> v_blocks v' = v_blocks v ->
  (forall e, o' = Some e -> entry_sound (home p) e) -> oblocks o' = oblocks (T !! p) ->
  blocks_rep (<[k := v']> V) (partial_alter (fun _ => o') p T).
Proof.
  intros HB Hv Hb Hs Ho.
  assert (blocks_rep (<[k := v']> V) T) as HB'.
  { destruct HB as [H1 H2 H3 H4]. split; [done| |done|].
    - intros q e w b Hq. destruct (decide (k = home q)) as [->|Hne].
      + rewrite lookup_insert_eq. intros [= <-]. rewrite Hb. by apply (H2 q e).
      + rewrite lookup_insert_ne by done. by apply H2.
    - intros j w b. destruct (decide (k = j)) as [<-|Hne].
      + rewrite lookup_insert_eq. intros [= <-]. rewrite Hb. by apply H4.
      + rewrite lookup_insert_ne by done. apply H4. }
  clear HB. destruct HB' as [H1 H2 H3 H4]. split.
  - intros q e. destruct (decide (p = q)) as [<-|Hne].
    + rewrite lookup_partial_alter_eq. apply Hs.
    + rewrite lookup_partial_alter_ne by done. apply H1.
  - intros q e w b Hq Hw Hbe. destruct (back_entry T p o' q e b Ho Hq Hbe) as (e0 & Hq0 & Hb0).
    by apply (H2 q e0).
  - intros q r e e' b Hq Hr Hh Hbq Hbr. destruct (back_entry T p o' q e b Ho Hq Hbq) as (e0 & Hq0 & Hb0).
    destruct (back_entry T p o' r e' b Ho Hr Hbr) as (e1 & Hr1 & Hb1). by apply (H3 q r e0 e1 b).
  - intros j w b Hw Hbw. destruct (H4 j w b Hw Hbw) as (q & e & Hq & Hh & Hbe).
    destruct (decide (p = q)) as [<-|Hne].
    + rewrite Hq in Ho. simpl in Ho. destruct o' as [e'|]; simpl in Ho.
      * exists p, e'. rewrite lookup_partial_alter_eq. split; [done|]. by rewrite Ho.
      * rewrite <- Ho in Hbe. by apply not_elem_of_nil in Hbe.
    + exists q, e. by rewrite lookup_partial_alter_ne.
Qed.

(** ** Changes *)

Lemma nodes_insert (V : gmap Z view) k v' :
  (forall j, 1 <= j <= N -> is_Some (V !! j)) -> forall j, 1 <= j <= N -> is_Some (<[k := v']> V !! j).
Proof. intros H j Hj. apply lookup_insert_is_Some'. right. auto. Qed.

(** Nothing of the namespace changes on a server. *)
Lemma names_same V T k v v' :
  names_rep V T -> V !! k = Some v -> v_paths v' = v_paths v -> v_files v' = v_files v ->
  v_dirs v' = v_dirs v -> v_blocks v' = v_blocks v -> names_rep (<[k := v']> V) T.
Proof.
  intros [Hnodes Hused Hpath Honly Hinj Hblocks] Hv H1 H2 H3 H4.
  assert (forall j w, <[k := v']> V !! j = Some w -> exists w0, V !! j = Some w0 /\
    v_paths w = v_paths w0 /\ v_files w = v_files w0 /\ v_dirs w = v_dirs w0) as Hback.
  { intros j w. destruct (decide (k = j)) as [<-|Hne].
    - rewrite lookup_insert_eq. intros [= <-]. by exists v.
    - rewrite lookup_insert_ne by done. intros Hw. by exists w. }
  split; [| done | | | |].
  - by apply nodes_insert.
  - intros p e Hp. destruct (Hpath p e Hp) as (w & idx & Hw & Hx & He).
    destruct (decide (k = home p)) as [->|Hne].
    + rewrite lookup_insert_eq. simplify_eq. exists v', idx. rewrite H1. split; [done|].
      split; [done|]. destruct e; simpl in *; by rewrite ?H2, ?H3.
    + rewrite lookup_insert_ne by done. by exists w, idx.
  - intros j w h x Hw Hx. destruct (Hback j w Hw) as (w0 & Hw0 & Hp & _). rewrite Hp in Hx.
    by apply (Honly j w0 h x).
  - intros j w h1 h2 x Hw Hx1 Hx2. destruct (Hback j w Hw) as (w0 & Hw0 & Hp & _).
    rewrite Hp in Hx1, Hx2. by apply (Hinj j w0 h1 h2 x).
  - rewrite <- (partial_alter_self T []). apply (blocks_keep V T k v); try done.
    intros e. apply (bl_sound _ _ Hblocks).
Qed.

(** The entry of a path is replaced, in its position. *)
Lemma names_update V T p e e' v v' idx :
  names_rep V T -> T !! p = Some e -> V !! home p = Some v ->
  v_paths v !! digest p = Some (idx, kind e) -> kind e' = kind e ->
  v_paths v' = v_paths v -> entry_rep v' idx e' ->
  (forall i x, (i, kind x) <> (idx, kind e) -> entry_rep v i x -> entry_rep v' i x) ->
  blocks_rep (<[home p := v']> V) (<[p := e']> T) ->
  names_rep (<[home p := v']> V) (<[p := e']> T).
Proof using Hcf.
  intros [Hnodes Hused Hpath Honly Hinj _] Hp Hv Hx Hk Hpaths He' Hold Hblocks. split.
  - by apply nodes_insert.
  - intros q x. destruct (decide (p = q)) as [<-|Hne]; [intros _; by eapply Hused|].
    rewrite lookup_insert_ne by done. apply Hused.
  - intros q x. destruct (decide (p = q)) as [<-|Hne].
    + rewrite lookup_insert_eq. intros [= <-]. rewrite lookup_insert_eq. exists v', idx.
      by rewrite Hpaths, Hk.
    + rewrite lookup_insert_ne by done. intros Hq.
      destruct (Hpath q x Hq) as (w & i & Hw & Hi & He).
      destruct (decide (home p = home q)) as [Heq|Hnh].
      * rewrite <- Heq in Hw |- *. rewrite lookup_insert_eq. simplify_eq. exists v', i.
        rewrite Hpaths. split; [done|]. split; [done|]. apply Hold; [|done]. intros Hsame.
        apply Hne, Hcf; [by eapply Hused|by eapply Hused|].
        apply (Hinj (home p) v _ _ (idx, kind e)); [done|done|by rewrite <- Hsame].
      * rewrite lookup_insert_ne by done. by exists w, i.
  - intros k w h x. destruct (decide (home p = k)) as [<-|Hne].
    + rewrite lookup_insert_eq. intros [= <-]. rewrite Hpaths. intros Hh.
      destruct (Honly _ _ _ _ Hv Hh) as (q & y & Hq & <- & Hhq).
      destruct (decide (p = q)) as [<-|Hpq].
      * exists p, e'. by rewrite lookup_insert_eq.
      * exists q, y. by rewrite lookup_insert_ne.
    + rewrite lookup_insert_ne by done. intros Hw Hh.
      destruct (Honly _ _ _ _ Hw Hh) as (q & y & Hq & <- & Hhq).
      exists q, y. rewrite lookup_insert_ne; [done|]. intros <-. done.
  - intros k w h1 h2 x. destruct (decide (home p = k)) as [<-|Hne].
    + rewrite lookup_insert_eq. intros [= <-]. rewrite Hpaths. by apply (Hinj (home p) v).
    + rewrite lookup_insert_ne by done. apply Hinj.
  - done.
Qed.

(** The entries of a directory change. *)
Lemma names_dir V T q es es' v idx d' :
  names_rep V T -> T !! q = Some (EDir es) -> V !! home q = Some v ->
  v_paths v !! digest q = Some (idx, true) -> holds d' es' ->
  names_rep (<[home q := set_dirs (<[idx := d']> (v_dirs v)) v]> V) (<[q := EDir es']> T).
Proof using Hcf.
  intros Hn Hq Hv Hx Hd. eapply (names_update V T q (EDir es) (EDir es') v _ idx); try done.
  - exists d'. simpl. by rewrite lookup_insert_eq.
  - intros i [f|es2] Hne; [done|]. intros (d2 & Hd2 & Hh2). exists d2. simpl.
    rewrite lookup_insert_ne; [done|]. intros <-. by apply Hne.
  - apply (blocks_keep V T _ v _ q (Some _)); try done; [apply Hn|by intros e [= <-]|by rewrite Hq].
Qed.

(** The metadata of a file changes, and with it its blocks. *)
Lemma names_file V T p f f' v idx m' :
  names_rep V T -> T !! p = Some (EFile f) -> V !! home p = Some v ->
  v_paths v !! digest p = Some (idx, false) -> sound (home p) f' ->
  (forall b, b ∈ file_blocks f' -> is_Some (m' !! b)) ->
  (forall b, b ∈ file_blocks f' -> b ∈ file_blocks f \/ v_blocks v !! b = None) ->
  (forall b, b ∈ file_blocks f -> b ∉ file_blocks f' -> m' !! b = None) ->
  (forall b, b ∉ file_blocks f -> b ∉ file_blocks f' -> m' !! b = v_blocks v !! b) ->
  names_rep (<[home p := set_files (<[idx := f']> (v_files v)) (set_blocks m' v)]> V)
    (<[p := EFile f']> T).
Proof using Hcf.
  intros Hn Hp Hv Hx Hs H1 H2 H3 H4. eapply (names_update V T p (EFile f) (EFile f') v _ idx); try done.
  - simpl. by rewrite lookup_insert_eq.
  - intros i [g|es2] Hne; [|done]. intros Hg. simpl in *.
    rewrite lookup_insert_ne; [done|]. intros <-. by apply Hne.
  - apply (blocks_change V T p v _ (Some (EFile f'))); simpl; rewrite ?Hp; try done; [apply Hn|].
    by intros e [= <-].
Qed.

(** A path is added; [v'] is its server with the entry in a new position. *)
Lemma names_add V T p e v v' idx :
  names_rep V T -> T !! p = None -> used p -> V !! home p = Some v ->
  v_paths v' = <[digest p := (idx, kind e)]> (v_paths v) ->
  entry_rep v' idx e ->
  (forall i e', entry_rep v i e' -> (i, kind e') <> (idx, kind e) /\ entry_rep v' i e') ->
  v_blocks v' = v_blocks v -> entry_sound (home p) e -> entry_blocks e = [] ->
  names_rep (<[home p := v']> V) (<[p := e]> T).
Proof using Hcf.
  intros Hnames Hp Hu Hv Hpaths He Hold Hbl Hsound Hempty. pose proof (names_none V T p _ v Hnames Hp Hu Hv) as Hnone.
  destruct Hnames as [Hnodes Hused Hpath Honly Hinj Hblocks].
  assert (forall h i k, v_paths v !! h = Some (i, k) -> (i, k) <> (idx, kind e)) as Hfresh.
  { intros h i k Hh. destruct (Honly _ _ _ _ Hv Hh) as (q & e2 & Hq & <- & Hhq).
    destruct (Hpath q e2 Hq) as (w & i' & Hw & Hi & He2). rewrite Hhq in Hw. simplify_eq.
    by apply Hold. }
  split.
  - by apply nodes_insert.
  - intros q e2. destruct (decide (p = q)) as [<-|Hne]; [done|].
    rewrite lookup_insert_ne by done. apply Hused.
  - intros q e2. destruct (decide (p = q)) as [<-|Hne].
    + rewrite lookup_insert_eq. intros [= <-]. rewrite lookup_insert_eq. exists v', idx.
      rewrite Hpaths, lookup_insert_eq. done.
    + rewrite lookup_insert_ne by done. intros Hq. destruct (Hpath q e2 Hq) as (w & i & Hw & Hi & He2).
      destruct (decide (home p = home q)) as [Heq|Hnh].
      * rewrite <- Heq in Hw |- *. rewrite lookup_insert_eq. simplify_eq. exists v', i.
        split; [done|]. rewrite Hpaths, lookup_insert_ne; [split; [done|by apply Hold]|].
        intros Hdig. apply Hne, Hcf; [done|by eapply Hused|done].
      * rewrite lookup_insert_ne by done. by exists w, i.
  - intros k w h x. destruct (decide (home p = k)) as [<-|Hne].
    + rewrite lookup_insert_eq. intros [= <-]. rewrite Hpaths.
      destruct (decide (digest p = h)) as [<-|Hnd].
      * rewrite lookup_insert_eq. intros [= <-]. exists p, e. by rewrite lookup_insert_eq.
      * rewrite lookup_insert_ne by done. intros Hh.
        destruct (Honly _ _ _ _ Hv Hh) as (q & e2 & Hq & <- & Hhq).
        exists q, e2. rewrite lookup_insert_ne; [done|]. intros <-. done.
    + rewrite lookup_insert_ne by done. intros Hw Hh.
      destruct (Honly _ _ _ _ Hw Hh) as (q & e2 & Hq & <- & Hhq).
      exists q, e2. rewrite lookup_insert_ne; [done|]. intros <-. done.
  - intros k w h1 h2 x. destruct (decide (home p = k)) as [<-|Hne].
    + rewrite lookup_insert_eq. intros [= <-]. rewrite Hpaths. destruct x as [i b].
      destruct (decide (digest p = h1)) as [<-|H1], (decide (digest p = h2)) as [<-|H2];
        rewrite ?lookup_insert_eq, ?lookup_insert_ne by done; [done| | |].
      * intros [= <- <-] Hh. by apply Hfresh in Hh.
      * intros Hh [= <- <-]. by apply Hfresh in Hh.
      * by apply (Hinj (home p) v).
    + rewrite lookup_insert_ne by done. apply Hinj.
  - apply (blocks_keep V T _ v _ p (Some e)); try done; [by intros e' [= <-]|by rewrite Hp].
Qed.

(** A path is removed. *)
Lemma names_delete V T p v v' idx e :
  names_rep V T -> T !! p = Some e -> V !! home p = Some v ->
  v_paths v !! digest p = Some (idx, kind e) ->
  v_paths v' = delete (digest p) (v_paths v) ->
  (forall i e', (i, kind e') <> (idx, kind e) -> entry_rep v i e' -> entry_rep v' i e') ->
  (forall b, b ∈ entry_blocks e -> v_blocks v' !! b = None) ->
  (forall b, b ∉ entry_blocks e -> v_blocks v' !! b = v_blocks v !! b) ->
  names_rep (<[home p := v']> V) (delete p T).
Proof using Hcf.
  intros [Hnodes Hused Hpath Honly Hinj Hblocks] Hp Hv Hx Hpaths Hold Hgone Hkept. split.
  - by apply nodes_insert.
  - intros q e2 [_ Hq]%lookup_delete_Some. by eapply Hused.
  - intros q e2 [Hne Hq]%lookup_delete_Some. destruct (Hpath q e2 Hq) as (w & i & Hw & Hi & He2).
    destruct (decide (home p = home q)) as [Heq|Hnh].
    + rewrite <- Heq in Hw |- *. rewrite lookup_insert_eq. simplify_eq. exists v', i.
      assert (digest p <> digest q) as Hnd.
      { intros Hd. apply Hne, Hcf; [by eapply Hused|by eapply Hused|done]. }
      split; [done|]. rewrite Hpaths, lookup_delete_ne by done. split; [done|]. apply Hold; [|done].
      intros Heq2. rewrite Heq2 in Hi. by apply Hnd, (Hinj (home p) v _ _ _ Hv Hx Hi).
    + rewrite lookup_insert_ne by done. by exists w, i.
  - intros k w h x. destruct (decide (home p = k)) as [<-|Hne].
    + rewrite lookup_insert_eq. intros [= <-]. rewrite Hpaths. intros [Hnd Hh]%lookup_delete_Some.
      destruct (Honly _ _ _ _ Hv Hh) as (q & e2 & Hq & <- & Hhq).
      exists q, e2. rewrite lookup_delete_ne; [done|]. intros <-. done.
    + rewrite lookup_insert_ne by done. intros Hw Hh.
      destruct (Honly _ _ _ _ Hw Hh) as (q & e2 & Hq & <- & Hhq).
      exists q, e2. rewrite lookup_delete_ne; [done|]. intros <-. done.
  - intros k w h1 h2 x. destruct (decide (home p = k)) as [<-|Hne].
    + rewrite lookup_insert_eq. intros [= <-]. rewrite Hpaths.
      intros [_ H1]%lookup_delete_Some [_ H2]%lookup_delete_Some. by apply (Hinj (home p) v h1 h2 x).
    + rewrite lookup_insert_ne by done. apply Hinj.
  - apply (blocks_change V T p v v' None); try done; rewrite ?Hp; simpl.
    + intros b Hb. by apply not_elem_of_nil in Hb.
    + intros b Hb. by apply not_elem_of_nil in Hb.
    + intros b Hb _. by apply Hgone.
    + intros b Hb _. by apply Hkept.
Qed.

(** ** Steps on the invariant *)

(** A step on server [me]. *)
Lemma inv_own total n n' V T T' me L s s' v v' :
  inv total n V T me L s -> V !! me = Some v -> n <= n' ->
  names_rep (<[me := v']> V) T' -> room_at total n' v' s' ->
  inv total n' (<[me := v']> V) T' me (v_locks v') s'.
Proof.
  intros [_ Hheld Hroom] Hv Hn Hnames Hr. split; [done| |].
  - intros k w. destruct (decide (me = k)) as [<-|Hne].
    + rewrite lookup_insert_eq. intros [= <-]. by rewrite decide_True.
    + rewrite lookup_insert_ne by done. intros Hw. rewrite (Hheld k w Hw).
      by rewrite !decide_False by done.
  - intros k w. destruct (decide (me = k)) as [<-|Hne].
    + rewrite lookup_insert_eq. intros [= <-]. by rewrite decide_True.
    + rewrite lookup_insert_ne by done. intros Hw. pose proof (Hroom k w Hw) as Hr'.
      rewrite decide_False in Hr' |- * by done. destruct Hr'. split; try done; lia.
Qed.

(** A step on server [me] that leaves the namespace alone. *)
Lemma inv_same total n n' V T me L s s' v v' :
  inv total n V T me L s -> V !! me = Some v -> n <= n' ->
  v_paths v' = v_paths v -> v_files v' = v_files v -> v_dirs v' = v_dirs v ->
  v_blocks v' = v_blocks v -> room_at total n' v' s' ->
  inv total n' (<[me := v']> V) T me (v_locks v') s'.
Proof.
  intros Hi Hv Hn H1 H2 H3 H4 Hr. apply (inv_own total n n' V T T me L s s' v v'); try done.
  apply (names_same V T me v v'); try done. apply Hi.
Qed.

Lemma inv_room total n V T me L s v :
  inv total n V T me L s -> V !! me = Some v -> room_at total n v s.
Proof. intros Hi Hv. pose proof (in_room _ _ _ _ _ _ _ Hi me v Hv) as H. by rewrite decide_True in H. Qed.

Lemma inv_locks total n V T me L s v :
  inv total n V T me L s -> V !! me = Some v -> v_locks v = L.
Proof. intros Hi Hv. rewrite (in_held _ _ _ _ _ _ _ Hi me v Hv). by rewrite decide_True. Qed.

Lemma inv_set_locks total n V T me L L' s v :
  inv total n V T me L s -> V !! me = Some v -> inv total n (<[me := set_locks L' v]> V) T me L' s.
Proof.
  intros Hi Hv. apply (inv_same total n n V T me L s s v (set_locks L' v)); try done.
  destruct (inv_room _ _ _ _ _ _ _ _ Hi Hv). by split.
Qed.

Lemma inv_begin total n V T me L v :
  inv total n V T me L 0 -> V !! me = Some v ->
  inv total (n + 1) (<[me := set_log (v_log v + 1) v]> V) T me L 1.
Proof.
  intros Hi Hv. rewrite <- (inv_locks _ _ _ _ _ _ _ _ Hi Hv).
  apply (inv_same total n (n + 1) V T me L 0 1 v (set_log (v_log v + 1) v)); try done; [lia|].
  destruct (inv_room _ _ _ _ _ _ _ _ Hi Hv). split; simpl; try done; lia.
Qed.

Lemma inv_weaken total n n' V T me L s s' :
  inv total n V T me L s -> n <= n' -> s' <= s -> inv total n' V T me L s'.
Proof.
  intros [Hnames Hheld Hroom] Hn Hs. split; [done|done|]. intros k v Hv.
  destruct (Hroom k v Hv). destruct (decide (k = me)); split; try done; lia.
Qed.

(** Without locks and pending items no server is special. *)
Lemma inv_quiet total n V T me me' : inv total n V T me ∅ 0 -> inv total n V T me' ∅ 0.
Proof.
  intros [Hnames Hheld Hroom]. split; [done| |]; intros k v Hv.
  - rewrite (Hheld k v Hv). by repeat case_decide.
  - pose proof (Hroom k v Hv) as H. by repeat case_decide.
Qed.

Lemma size_insert_some {A} (m : gmap Z A) i x y :
  m !! i = Some x -> size (<[i := y]> m) = size m.
Proof. intros Hi. by rewrite map_size_insert, Hi. Qed.

(** The entries of a directory change, on any server. *)
Lemma inv_dir total n V T me L s q es es' v idx d d' :
  inv total n V T me L s -> T !! q = Some (EDir es) -> V !! home q = Some v ->
  v_paths v !! digest q = Some (idx, true) -> v_dirs v !! idx = Some d -> holds d' es' ->
  inv total n (<[home q := set_dirs (<[idx := d']> (v_dirs v)) v]> V) (<[q := EDir es']> T) me L s.
Proof using Hcf.
  intros [Hnames Hheld Hroom] Hq Hv Hx Hd Hd'. split.
  - by apply (names_dir V T q es).
  - intros k w. destruct (decide (home q = k)) as [<-|Hne].
    + rewrite lookup_insert_eq. intros [= <-]. simpl. by apply Hheld.
    + rewrite lookup_insert_ne by done. apply Hheld.
  - intros k w. destruct (decide (home q = k)) as [<-|Hne].
    + rewrite lookup_insert_eq. intros [= <-]. destruct (Hroom _ v Hv). split; try done; simpl.
      by rewrite (size_insert_some _ _ d).
    + rewrite lookup_insert_ne by done. apply Hroom.
Qed.

(** The metadata of a file changes on server [me]. *)
Lemma inv_file total n V T L s p f f' v idx m' :
  inv total n V T (home p) L s -> V !! home p = Some v ->
  v_files v !! idx = Some f ->
  names_rep (<[home p := set_files (<[idx := f']> (v_files v)) (set_blocks m' v)]> V)
    (<[p := EFile f']> T) ->
  inv total n (<[home p := set_files (<[idx := f']> (v_files v)) (set_blocks m' v)]> V)
    (<[p := EFile f']> T) (home p) L s.
Proof.
  intros Hi Hv Hf Hn. rewrite <- (inv_locks _ _ _ _ _ _ _ _ Hi Hv).
  apply (inv_own total n n V T _ (home p) L s s v (set_files _ (set_blocks m' v)) Hi Hv); [lia|done|].
  destruct (inv_room _ _ _ _ _ _ _ _ Hi Hv). split; simpl; try done.
  by rewrite (size_insert_some _ _ f).
Qed.

End namespace.

End Namespace.
