(* ===== verification/OctFsOps.v ===== *)
(** * The operations of the file system on the namespace

    The abstract operations on the map of paths, and that the operations of
    OctFileSystem.v return what they return and leave the invariant with the
    map that they leave. *)

From S2P Require Import Prelude.
From S2P Require Import OctBase.
From S2P Require Import OctTable.
From S2P Require Import OctHashTable.
From S2P Require Import OctHashProps.
From S2P Require Import OctLock.
From S2P Require Import OctStorage.
From S2P Require Import OctExtent.
From S2P Require Import OctFileSystem.
From S2P Require Import OctDirectory.
From S2P Require Import OctFsRep.
From S2P Require Import OctBlocks.
From S2P Require Import OctNamespace.
Open Scope Z_scope.

Module FsOps.
Import FileSystem Directory FsRep FileBlocks Namespace.

(** One step of a monadic operation, by the specification of its first call. *)
Ltac wp_step lem := apply wp_seq; eapply lem.

Section operations.
Context (N : Z) (HN : 0 < N < 2 ^ 16).
Variable CalculateDigest : list Z -> HashTable.UniqueHash.
Variable ASSERT_false : fs unit.
Variable now : Z.
Variables (uninit_bool : bool) (uninit_name : list Z) (uninit_dir : DirectoryMeta)
  (uninit_file : FileMeta).
Context (used : list Z -> Prop) (Hcf : collision_free CalculateDigest used).

Local Abbreviation digest := (digest CalculateDigest).
Local Abbreviation home := (home N CalculateDigest).
Local Abbreviation address_of := (address_of CalculateDigest).
Local Abbreviation parent_of := (parent_of uninit_name).
Local Abbreviation name_of := (name_of uninit_name).
Local Abbreviation wp := (wp N).
Local Abbreviation inv := (inv N CalculateDigest used).

(** ** Abstract operations *)

Definition spec_make (dir : bool) (e : entry) (p : list Z) (T : tree) : bool * tree :=
  match T !! parent_of p, T !! p with
  | Some (EDir es), None => (true, <[p := e]> (<[parent_of p := EDir (es ++ [(name_of p, dir)])]> T))
  | _, _ => (false, T)
  end.

Definition spec_mkdir : list Z -> tree -> bool * tree := spec_make true (EDir []).
(** The kind that [mknod] lists is an unset variable. *)
Definition spec_mknod : list Z -> tree -> bool * tree :=
  spec_make uninit_bool (EFile (new_file now uninit_file)).

Definition spec_remove (p : list Z) (T : tree) : bool * tree :=
  match T !! p, T !! parent_of p with
  | None, _ | Some (EDir (_ :: _)), _ => (false, T)
  | Some _, Some (EDir es) =>
      (true, delete p (<[parent_of p := EDir (filter (fun e => e.1 <> name_of p) es)]> T))
  | Some _, _ => (false, T)
  end.

(** A path whose directory and name the operations can handle: in use, with a
    name that fits, and not in the bucket of its directory on the same server. *)
Record placed (p : list Z) : Prop := mkPlaced {
  pl_used : used p;
  pl_parent : used (parent_of p);
  pl_name : name_ok (name_of p);
  pl_length : Z.of_nat (length (parent_of p)) < MAX_PATH_LENGTH;
  pl_apart : home (parent_of p) <> home p \/ address_of (parent_of p) <> address_of p
}.

Lemma placed_ne p : placed p -> parent_of p <> p.
Proof. intros Hp Heq. destruct (pl_apart p Hp) as [H|H]; apply H; by rewrite Heq. Qed.

Lemma node_view (total : limits) n V T me L s k :
  inv total n V T me L s -> 1 <= k <= N -> exists v, V !! k = Some v.
Proof. intros Hi Hk. by destruct (ns_nodes _ _ _ _ _ (in_names _ _ _ _ _ _ _ _ _ _ Hi) k Hk) as [v Hv]; exists v. Qed.

Lemma home_view (total : limits) n V T me L s p :
  inv total n V T me L s -> exists v, V !! home p = Some v.
Proof using HN. intros Hi. eapply node_view; [done|]. by apply home_range. Qed.

(** The parent of a path is not locked while the path is. *)
Lemma parent_unlocked (total : limits) n V T p key s w :
  placed p -> inv total n V T (home p) {[address_of p := key]} s -> V !! home (parent_of p) = Some w ->
  v_locks w !! address_of (parent_of p) = None.
Proof.
  intros Hp Hi Hw. rewrite (in_held _ _ _ _ _ _ _ _ _ _ Hi _ w Hw). case_decide as Heq; [|done].
  apply lookup_singleton_ne. intros Ha. destruct (pl_apart p Hp) as [H|H]; congruence.
Qed.

(** Reading the directory of a path, while the path is locked. *)
Lemma wp_parent (total : limits) n V T p key s v (Q : _ -> gmap Z view -> Prop) :
  placed p -> inv total n V T (home p) {[address_of p := key]} s -> V !! home p = Some v ->
  (forall w, V !! home (parent_of p) = Some w ->
     match T !! parent_of p with
     | Some (EDir es) => forall idx d, v_paths w !! digest (parent_of p) = Some (idx, true) ->
         v_dirs w !! idx = Some d -> holds d es ->
         Q (Some (d, address_of (parent_of p), dir_address (v_cap w) idx, home (parent_of p))) V
     | _ => Q None V
     end) ->
  wp (read_parent CalculateDigest (home p) (parent_of p)) V Q.
Proof using HN Hcf.
  intros Hp Hi Hv HQ. destruct (home_view _ _ _ _ _ _ _ (parent_of p) Hi) as [w Hw].
  pose proof (in_names _ _ _ _ _ _ _ _ _ _ Hi) as Hn.
  eapply wp_read_parent; [exact HN|exact Hv|exact Hw| | |by apply pl_length|].
  - by eapply parent_unlocked.
  - by eapply names_dirs_present.
  - pose proof (find_dir_spec _ _ _ Hcf V T (parent_of p) w Hn (pl_parent p Hp) Hw) as Hf.
    specialize (HQ w Hw). destruct (T !! parent_of p) as [[f|es]|]; [by rewrite Hf| |by rewrite Hf].
    destruct Hf as (idx & d & -> & Hx & Hd & Hh). by eapply HQ.
Qed.

(** What the path index says about a path. *)
Lemma wp_lookup (total : limits) n V T me L s p v (Q : _ -> gmap Z view -> Prop) :
  used p -> inv total n V T me L s -> V !! home p = Some v ->
  match T !! p with
  | None => v_paths v !! digest p = None -> Q None V
  | Some e => forall idx, v_paths v !! digest p = Some (idx, kind e) -> entry_rep v idx e ->
      Q (Some (idx, kind e)) V
  end ->
  wp (hash_get CalculateDigest (home p) p) V Q.
Proof using Hcf.
  intros Hu Hi Hv HQ. eapply wp_hash_get; [done|]. pose proof (in_names _ _ _ _ _ _ _ _ _ _ Hi) as Hn.
  destruct (T !! p) as [e|] eqn:Hp.
  - destruct (names_some _ _ _ _ _ _ _ _ Hn Hp Hv) as (idx & Hx & He). rewrite Hx. auto.
  - pose proof (names_none _ _ _ Hcf _ _ _ _ _ Hn Hp Hu Hv) as Hx. rewrite Hx. auto.
Qed.

(** ** Creation *)

(** The result of an operation at level [n]: its answer, and the invariant for
    the new map. *)
Definition result (total : limits) (n : Z) (me : Z) (L : gmap Z Z) (x : bool * tree) (r : bool)
    (V : gmap Z view) : Prop :=
  r = x.1 /\ inv total n V x.2 me L 0.

Lemma wp_commit (total : limits) n V T me L s v id r (Q : unit -> gmap Z view -> Prop) :
  inv total n V T me L s -> V !! me = Some v -> 0 <= id < total -> Q tt V ->
  wp (TxLocalCommit me id r) V Q.
Proof.
  intros Hi Hv Hid HQ. eapply wp_TxLocalCommit; [done| |done].
  destruct (ro_cap _ _ _ _ (inv_room _ _ _ _ _ _ _ _ _ _ _ Hi Hv)) as (H & _). lia.
Qed.

Lemma wp_make (total : limits) n V T p key dir e create v :
  placed p -> n < total -> inv total n V T (home p) {[address_of p := key]} 0 ->
  V !! home p = Some v ->
  (forall es, T !! parent_of p = Some (EDir es) -> (length es < 60)%nat) ->
  (forall V' T', inv total (n + 1) V' T' (home p) {[address_of p := key]} 1 -> T' !! p = None ->
     wp create V' (result total (n + 1) (home p) {[address_of p := key]} (true, <[p := e]> T'))) ->
  wp (make CalculateDigest uninit_name (home p) p dir create) V
    (result total (n + 1) (home p) {[address_of p := key]} (spec_make dir e p T)).
Proof using HN Hcf.
  intros Hp Hn Hi Hv Hlen Hcreate. pose proof (inv_room _ _ _ _ _ _ _ _ _ _ _ Hi Hv) as Hr.
  pose proof (ro_cap _ _ _ _ Hr) as (Hlog & _). pose proof (ro_log _ _ _ _ Hr) as Hl.
  unfold make. wp_step wp_TxLocalBegin; [exact Hv|lia|].
  pose proof (inv_begin _ _ _ _ _ _ _ _ _ _ Hi Hv) as Hi1.
  set (V1 := <[home p := set_log (v_log v + 1) v]> V) in *.
  destruct (home_view _ _ _ _ _ _ _ p Hi1) as [v1 Hv1].
  assert (forall V' x r, inv total (n + 1) V' x.2 (home p) {[address_of p := key]} 0 -> r = x.1 ->
    wp (_ ← TxLocalCommit (home p) (v_log v) r; mret r) V'
      (result total (n + 1) (home p) {[address_of p := key]} x)) as Hend.
  { intros V' x r Hi' Hr'. destruct (home_view _ _ _ _ _ _ _ p Hi') as [v' Hv'].
    wp_step wp_commit; [exact Hi'|exact Hv'|lia|]. by apply wp_ret. }
  assert (spec_make dir e p T = (false, T) ->
    wp (_ ← TxLocalCommit (home p) (v_log v) false; mret false) V1
      (result total (n + 1) (home p) {[address_of p := key]} (spec_make dir e p T))) as Hfalse.
  { intros ->. apply Hend; [|done]. eapply inv_weaken; [exact Hi1|lia|lia]. }
  wp_step wp_parent; [exact Hp|exact Hi1|exact Hv1|]. intros w Hw.
  unfold spec_make in *. destruct (T !! parent_of p) as [[f|es]|] eqn:Hq;
    [apply wp_seq, wp_ret; by apply Hfalse| |apply wp_seq, wp_ret; by apply Hfalse].
  intros idx d Hx Hd Hh. apply wp_seq. wp_step wp_lookup; [by apply pl_used|exact Hi1|exact Hv1|].
  destruct (T !! p) as [e0|] eqn:Hpe.
  { intros i _ _. destruct (kind e0); apply wp_ret; by apply Hfalse. }
  intros Hnone. destruct (append_entry_spec d es (name_of p) dir Hh) as (d1 & Ha & Hd1);
    [by apply Hlen|by apply pl_name|].
  apply wp_seq. eapply wp_pure; [exact Ha|].
  wp_step wp_TxWriteData; [exact Hv1| |rewrite length_store_directory by (by eapply holds_ok); lia|].
  { pose proof (inv_room _ _ _ _ _ _ _ _ _ _ _ Hi1 Hv1) as Hr1.
    destruct (ro_cap _ _ _ _ Hr1) as (? & _). lia. }
  wp_step wp_updateRemoteMeta; [exact Hw|exact Hd|by eapply holds_ok|exact Hd1|]. intros d' Hd'.
  eapply wp_conseq; [apply Hcreate|].
  - eapply inv_dir; [exact Hcf|exact Hi1|exact Hq|exact Hw|exact Hx|exact Hd|exact Hd'].
  - rewrite lookup_insert_ne; [done|]. by apply placed_ne.
  - intros r V' [-> Hi']. by apply Hend.
Qed.

(** The frame of the operations that change the namespace. *)
Lemma wp_locked_op {A} (total : limits) n V T p (fail : A) body (Q : A -> gmap Z view -> Prop) :
  inv total n V T (home p) ∅ 0 ->
  (forall key V' v', inv total n V' T (home p) {[address_of p := key]} 0 -> V' !! home p = Some v' ->
     wp (body (home p) p) V' (fun r V2 => exists T2,
        inv total (n + 1) V2 T2 (home p) {[address_of p := key]} 0 /\
        (forall V3, inv total (n + 1) V3 T2 (home p) ∅ 0 -> Q r V3))) ->
  wp (on_path CalculateDigest (home p) (Some p) fail body) V Q.
Proof using HN.
  intros Hi Hbody. destruct (home_view _ _ _ _ _ _ _ p Hi) as [v Hv].
  pose proof (inv_locks _ _ _ _ _ _ _ _ _ _ _ Hi Hv) as HL.
  eapply wp_on_path; [exact HN|exact Hv|done|by rewrite HL|]. intros key Hkey. rewrite HL.
  eapply wp_conseq; [eapply Hbody|].
  - by eapply inv_set_locks.
  - by rewrite lookup_insert_eq.
  - cbv beta. intros r V2 (T2 & Hi2 & HQ). destruct (home_view _ _ _ _ _ _ _ p Hi2) as [v2 Hv2].
    pose proof (inv_locks _ _ _ _ _ _ _ _ _ _ _ Hi2 Hv2) as HL2. exists v2. split; [done|].
    rewrite HL2. split; [by rewrite lookup_singleton_eq|]. apply HQ.
    rewrite delete_singleton_eq. by eapply inv_set_locks.
Qed.

(** ** Reading *)

(** The frame of the operations that only read. *)
Lemma wp_reading_op {A} (total : limits) n V T p (fail : A) body (Q : A -> Prop) :
  inv total n V T (home p) ∅ 0 ->
  (forall V' v', inv total n V' T (home p) {[address_of p := 1]} 0 -> V' !! home p = Some v' ->
     wp (body p) V' (fun r V2 => V2 = V' /\ Q r)) ->
  wp (on_path_read CalculateDigest (home p) (Some p) fail body) V (fun r V' => V' = V /\ Q r).
Proof using HN.
  intros Hi Hbody. destruct (home_view _ _ _ _ _ _ _ p Hi) as [v Hv].
  pose proof (inv_locks _ _ _ _ _ _ _ _ _ _ _ Hi Hv) as HL.
  eapply wp_on_path_read; [exact HN|exact Hv|done|by rewrite HL|]. intros v' ->. rewrite HL.
  eapply wp_conseq; [eapply Hbody|].
  - by eapply inv_set_locks.
  - by rewrite lookup_insert_eq.
  - intros r V2 [-> HQ]. auto.
Qed.

Lemma wp_access (total : limits) n V T p :
  used p -> inv total n V T (home p) ∅ 0 ->
  wp (access CalculateDigest (home p) (Some p)) V
    (fun r V' => V' = V /\ r = bool_decide (is_Some (T !! p))).
Proof using HN Hcf.
  intros Hu Hi. eapply wp_reading_op; [exact Hi|]. intros V' v' Hi' Hv'.
  wp_step wp_lookup; [exact Hu|exact Hi'|exact Hv'|].
  destruct (T !! p); intros; by apply wp_ret.
Qed.

Definition spec_getattr (p : list Z) (att : FileMeta) (T : tree) : bool * option FileMeta :=
  match T !! p with
  | None => (false, Some att)
  | Some (EDir _) =>
      (true, Some (mkFileMeta (timeLastModified att) MAX_FILE_EXTENT_COUNT (fm_size att) (fm_tuple att)))
  | Some (EFile f) => (true, Some f)
  end.

Lemma wp_getattr (total : limits) n V T p att :
  used p -> inv total n V T (home p) ∅ 0 ->
  wp (getattr CalculateDigest (home p) (Some p) (Some att)) V
    (fun r V' => V' = V /\ r = spec_getattr p att T).
Proof using HN Hcf.
  intros Hu Hi. eapply wp_reading_op; [exact Hi|]. intros V' v' Hi' Hv'. unfold spec_getattr.
  wp_step wp_lookup; [exact Hu|exact Hi'|exact Hv'|].
  destruct (T !! p) as [[f|es]|]; [|intros; by apply wp_ret..].
  intros idx _ Hf. wp_step wp_files_get; [exact Hv'|exact Hf|]. by apply wp_ret.
Qed.

(** What [readdir] leaves in the buffer [out]. *)
Definition lists (p : list Z) (out : DirectoryMeta) (T : tree) (r : bool * option DirectoryMeta) : Prop :=
  match T !! p with
  | Some (EDir es) => exists d, r = (true, Some d) /\ holds d es
  | _ => r = (false, Some out)
  end.

Lemma wp_readdir (total : limits) n V T p out :
  used p -> inv total n V T (home p) ∅ 0 ->
  length (dm_tuple out) = 60%nat -> Forall entry_ok (dm_tuple out) ->
  wp (readdir CalculateDigest (home p) (Some p) (Some out)) V
    (fun r V' => V' = V /\ lists p out T r).
Proof using HN Hcf.
  intros Hu Hi H60 Hok. eapply wp_reading_op; [exact Hi|]. intros V' v' Hi' Hv'. unfold lists.
  wp_step wp_lookup; [exact Hu|exact Hi'|exact Hv'|].
  destruct (T !! p) as [[f|es]|]; [intros; by apply wp_ret| |intros; by apply wp_ret].
  intros idx _ (d & Hd & Hh). wp_step wp_dirs_get; [exact Hv'|exact Hd|].
  destruct (copy_list_spec d es out Hh H60 Hok) as (ts & Hts & Hh').
  apply wp_seq. eapply wp_pure; [exact Hts|]. apply wp_ret. split; [done|]. by eexists.
Qed.

(** ** Removal *)

(** The metadata of an entry is gone, everything else is still there. *)
Record dropped (v v' : view) (idx : Z) (e : entry) : Prop := mkDropped {
  dr_paths : v_paths v' = v_paths v;
  dr_locks : v_locks v' = v_locks v;
  dr_log : v_log v' = v_log v;
  dr_cap : v_cap v' = v_cap v;
  dr_files : (size (v_files v') <= size (v_files v))%nat;
  dr_dirs : (size (v_dirs v') <= size (v_dirs v))%nat;
  dr_others : forall i e', (i, kind e') <> (idx, kind e) -> entry_rep v i e' -> entry_rep v' i e';
  dr_gone : forall b, b ∈ entry_blocks e -> v_blocks v' !! b = None;
  dr_kept : forall b, b ∉ entry_blocks e -> v_blocks v' !! b = v_blocks v !! b
}.

(** What is done to the metadata of entry [e] with number [idx]. *)
Definition drops (p : list Z) (idx : Z) (e : entry) (drop_meta : fs bool) : Prop :=
  forall V v, V !! home p = Some v -> entry_rep v idx e ->
    wp drop_meta V (fun r V' => r = true /\
      exists v', V' = <[home p := v']> V /\ dropped v v' idx e).

Lemma paths_kept (V : gmap Z view) k m w p v v' :
  V !! k = Some w -> V !! home p = Some v -> <[k := set_dirs m w]> V !! home p = Some v' ->
  v_paths v' = v_paths v.
Proof.
  intros Hw Hv. destruct (decide (k = home p)) as [->|Hne].
  - rewrite lookup_insert_eq. intros [= <-]. by simplify_eq.
  - rewrite lookup_insert_ne by done. intros ?. by simplify_eq.
Qed.

Lemma drops_dir p idx es :
  drops p idx (EDir es) (at_node (home p) (on_dirs (fun t => Table.remove t idx))).
Proof.
  intros V v Hv (d & Hd & _). eapply wp_dirs_remove; [exact Hv|by exists d|]. split; [done|].
  eexists. split; [done|]. split; try done; simpl.
  - rewrite map_size_delete, Hd. simpl. lia.
  - intros i [f|es'] Hne He; simpl in *; [done|]. destruct He as (d' & Hd' & Hh). exists d'.
    rewrite lookup_delete_ne; [done|]. congruence.
  - intros b Hb. by apply not_elem_of_nil in Hb.
Qed.

Lemma wp_free_extents p f V v (Q : unit -> gmap Z view -> Prop) :
  sound (home p) f -> V !! home p = Some v ->
  (forall m, (forall b, b ∈ file_blocks f -> m !! b = None) ->
     (forall b, b ∉ file_blocks f -> m !! b = v_blocks v !! b) ->
     Q tt (<[home p := set_blocks m v]> V)) ->
  wp (at_node (home p) (on_blocks (free_extents (S (length (fm_tuple f))) f (home p) 0))) V Q.
Proof.
  intros Hf Hv HQ. apply (wp_at_node _ _ _ V v _ Hv). intros n Hr. unfold on_blocks.
  pose proof (so_rep _ _ Hf) as [Hx H20 Hnode].
  destruct (free_extents_spec f (home p) (extents f) (S (length (fm_tuple f))) []
    (tableBlock (storage n)) (v_blocks v) Hx Hnode) as (t' & m' & Hfree & Hg).
  - rewrite H20. destruct Hx as (_ & _ & _ & Hlen). lia.
  - apply (sr_blocks _ _ _ _ _ (nr_storage _ _ _ _ Hr)).
  - simpl length in Hfree. change (Z.of_nat 0) with 0 in Hfree. rewrite Hfree. cbn [mbind run_bind fst snd].
    eexists _, _, _. split; [done|]. split; [by apply node_rep_blocks, Hg; [done|apply Hg]|].
    by apply HQ; apply Hg.
Qed.

Lemma drops_file p idx f :
  sound (home p) f ->
  drops p idx (EFile f)
    (_ ← at_node (home p) (on_blocks (free_extents (S (length (fm_tuple f))) f (home p) 0));
     at_node (home p) (on_files (fun t => Table.remove t idx))).
Proof.
  intros Hok V v Hv Hf. simpl in Hf. wp_step wp_free_extents; [exact Hok|exact Hv|]. intros m Hgone Hkept.
  eapply wp_files_remove; [by rewrite lookup_insert_eq|by exists f|]. split; [done|].
  rewrite insert_insert_eq. eexists. split; [done|]. split; try done; simpl.
  - rewrite map_size_delete, Hf. simpl. lia.
  - intros i [f'|es'] Hne He; simpl in *; [|done]. rewrite lookup_delete_ne; [done|]. congruence.
Qed.

Lemma holds_empty d es : holds d es -> (dm_count d =? 0) = bool_decide (es = []).
Proof. intros Hh. rewrite (ho_count _ _ Hh). by destruct es. Qed.

(** Uninitialised directories have the size of their type. *)
Context (Hdir : length (dm_tuple uninit_dir) = 60%nat) (Hdir' : Forall entry_ok (dm_tuple uninit_dir)).

Lemma new_dir_holds : holds (new_dir uninit_dir) [].
Proof using Hdir Hdir'. split; simpl; try done; lia. Qed.

Lemma wp_create_dir (total : limits) n V T p L v :
  used p -> n <= total -> inv total n V T (home p) L 1 -> V !! home p = Some v -> T !! p = None ->
  wp (create_dir CalculateDigest uninit_dir (home p) p) V
    (result total n (home p) L (true, <[p := EDir []]> T)).
Proof using Hcf Hdir Hdir'.
  intros Hu Hn Hi Hv Hp. pose proof (inv_room _ _ _ _ _ _ _ _ _ _ _ Hi Hv) as Hr.
  pose proof (ro_cap _ _ _ _ Hr) as (_ & Hci & _ & Hcd & _). pose proof (ro_paths _ _ _ _ Hr).
  pose proof (ro_dirs _ _ _ _ Hr). pose proof (ro_log _ _ _ _ Hr).
  pose proof (in_names _ _ _ _ _ _ _ _ _ _ Hi) as Hnames.
  pose proof (names_none _ _ _ Hcf _ _ _ _ _ Hnames Hp Hu Hv) as Hno.
  unfold create_dir. wp_step wp_dirs_create; [exact Hv|lia|]. intros idx Hidx.
  eapply wp_hash_put; [by rewrite lookup_insert_eq|done|simpl; lia|].
  rewrite insert_insert_eq. simpl set_paths. split; [done|].
  rewrite <- (inv_locks _ _ _ _ _ _ _ _ _ _ _ Hi Hv). set (v' := set_paths _ _).
  apply (inv_own _ _ _ total n n V T _ (home p) L 1 0 v v' Hi Hv); [lia| |].
  - eapply (names_add _ _ _ Hcf V T p _ v v' idx); try done.
    + simpl. rewrite lookup_insert_eq. eexists. split; [done|]. apply new_dir_holds.
    + intros i [f|es] He; simpl in *; [done|]. destruct He as (d & Hd & Hh).
      assert (i <> idx) by congruence. split; [congruence|]. exists d.
      by rewrite lookup_insert_ne.
  - destruct Hr. split; simpl; try done; try lia.
    + rewrite map_size_insert, Hno. simpl. lia.
    + rewrite map_size_insert, Hidx. simpl. lia.
Qed.

Lemma wp_mkdir (total : limits) n V T p :
  placed p -> n < total -> inv total n V T (home p) ∅ 0 ->
  (forall es, T !! parent_of p = Some (EDir es) -> (length es < 60)%nat) ->
  wp (mkdir CalculateDigest ASSERT_false uninit_name uninit_dir (home p) (Some p)) V
    (result total (n + 1) (home p) ∅ (spec_mkdir p T)).
Proof using HN Hcf Hdir Hdir'.
  intros Hp Hn Hi Hlen. eapply wp_locked_op; [exact Hi|]. intros key V' v' Hi' Hv'.
  eapply wp_conseq; [eapply (wp_make total n V' T p key true (EDir [])); try done|].
  - intros V2 T2 Hi2 Hno. destruct (home_view _ _ _ _ _ _ _ p Hi2) as [v2 Hv2].
    eapply wp_create_dir; try done; [by apply pl_used|lia].
  - cbv beta. intros r V2 [-> Hi2]. eexists. split; [exact Hi2|]. by intros V3 Hi3.
Qed.

(** ** Operations that build a directory *)

Lemma wp_unmake (total : limits) n V T p key s id drop_meta idx e v :
  placed p -> n <= total -> 0 <= s -> 0 <= id < total ->
  inv total n V T (home p) {[address_of p := key]} s -> V !! home p = Some v ->
  T !! p = Some e -> v_paths v !! digest p = Some (idx, kind e) -> drops p idx e drop_meta ->
  wp (unmake CalculateDigest uninit_name uninit_dir (home p) p id drop_meta) V
    (result total n (home p) {[address_of p := key]}
       (match T !! parent_of p with
        | Some (EDir es) =>
            (true, delete p (<[parent_of p := EDir (filter (fun e => e.1 <> name_of p) es)]> T))
        | _ => (false, T)
        end)).
Proof using HN Hcf Hdir Hdir'.
  intros Hp Hn Hs Hid Hi Hv He Hx Hdrop. unfold unmake.
  pose proof (ro_cap _ _ _ _ (inv_room _ _ _ _ _ _ _ _ _ _ _ Hi Hv)) as (Hlog & _).
  wp_step wp_parent; [exact Hp|exact Hi|exact Hv|]. intros w Hw.
  destruct (T !! parent_of p) as [[f|es]|] eqn:Hq;
    [apply wp_ret; split; [done|by eapply inv_weaken]| |apply wp_ret; split; [done|by eapply inv_weaken]].
  intros pidx d Hpx Hd Hh.
  destruct (remove_entry_spec d es (name_of p) uninit_dir Hh (pl_name p Hp) Hdir Hdir')
    as (d1 & found & Hre & Hd1 & _).
  apply wp_seq. eapply wp_pure; [exact Hre|].
  wp_step wp_TxWriteData; [exact Hv|lia|rewrite length_store_directory by (by eapply holds_ok); lia|].
  wp_step wp_updateRemoteMeta; [exact Hw|exact Hd|by eapply holds_ok|exact Hd1|]. intros d' Hd'.
  pose proof (inv_dir _ _ _ Hcf total n V T _ _ s (parent_of p) es _ w pidx d d' Hi Hq Hw Hpx Hd Hd')
    as Hi1.
  destruct (home_view _ _ _ _ _ _ _ p Hi1) as [v1 Hv1].
  pose proof (paths_kept V _ _ w p v v1 Hw Hv Hv1) as Hkept.
  set (V1 := <[home (parent_of p) := _]> V) in *. set (T1 := <[parent_of p := _]> T) in *.
  assert (T1 !! p = Some e) as He1.
  { unfold T1. rewrite lookup_insert_ne; [done|]. by apply placed_ne. }
  assert (v_paths v1 !! digest p = Some (idx, kind e)) as Hx1 by by rewrite Hkept.
  destruct (names_some _ _ _ _ _ _ _ _ (in_names _ _ _ _ _ _ _ _ _ _ Hi1) He1 Hv1)
    as (idx' & Hx2 & Hrep). simplify_eq.
  apply wp_seq. eapply wp_conseq; [by apply (Hdrop V1 v1)|]. cbv beta.
  intros r V2 (-> & v2 & -> & Hdr).
  eapply wp_hash_del; [by rewrite lookup_insert_eq|by rewrite (dr_paths _ _ _ _ Hdr), Hx1|].
  rewrite insert_insert_eq. split; [done|]. simpl.
  rewrite <- (inv_locks _ _ _ _ _ _ _ _ _ _ _ Hi1 Hv1), <- (dr_locks _ _ _ _ Hdr).
  set (v' := set_paths _ _). change (v_locks v2) with (v_locks v').
  apply (inv_own _ _ _ total n n V1 T1 _ (home p) _ s 0 v1 v' Hi1 Hv1); [lia| |].
  - eapply (names_delete _ _ _ Hcf V1 T1 p v1 v' idx e); try done.
    + apply Hi1.
    + simpl. by rewrite (dr_paths _ _ _ _ Hdr).
    + apply Hdr.
    + apply Hdr.
    + apply Hdr.
  - pose proof (inv_room _ _ _ _ _ _ _ _ _ _ _ Hi1 Hv1) as [].
    destruct Hdr as [Hdp _ Hdl Hdc Hdf Hdd _ _ _].
    assert (size (delete (digest p) (v_paths v2)) <= size (v_paths v1))%nat
      by (rewrite Hdp, map_size_delete; destruct (v_paths v1 !! digest p); simpl; lia).
    split; simpl; rewrite ?Hdl, ?Hdc; try done; lia.
Qed.

(** What [remove] answers and the metadata that it returns for a file. *)
Definition removed (total : limits) (n : Z) (p : list Z) (T : tree) (r : bool * FileMeta) (V : gmap Z view) : Prop :=
  result total n (home p) ∅ (spec_remove p T) r.1 V /\
  (forall f, T !! p = Some (EFile f) -> r.2 = f).

Lemma wp_remove (total : limits) n V T p att :
  placed p -> n < total -> inv total n V T (home p) ∅ 0 ->
  wp (remove CalculateDigest uninit_name uninit_dir (home p) (Some p) att) V
    (removed total (n + 1) p T).
Proof using HN Hcf Hdir Hdir'.
  intros Hp Hn Hi. eapply wp_locked_op; [exact Hi|]. intros key V' v Hi' Hv.
  pose proof (inv_room _ _ _ _ _ _ _ _ _ _ _ Hi' Hv) as Hr.
  pose proof (ro_cap _ _ _ _ Hr) as (Hlog & _). pose proof (ro_log _ _ _ _ Hr) as Hl.
  set (L := {[address_of p := key]}) in *.
  assert (forall V2 r id, inv total (n + 1) V2 (spec_remove p T).2 (home p) L 0 ->
    r.1 = (spec_remove p T).1 -> (forall f, T !! p = Some (EFile f) -> r.2 = f) -> 0 <= id < total ->
    wp (_ ← TxLocalCommit (home p) (r, id).2 (r, id).1.1; mret (r, id).1) V2
      (fun r V2 => exists T2, inv total (n + 1) V2 T2 (home p) L 0 /\
         (forall V3, inv total (n + 1) V3 T2 (home p) ∅ 0 -> removed total (n + 1) p T r V3))) as Hend.
  { intros V2 r id Hi2 Hr2 Hf2 Hid. destruct (home_view _ _ _ _ _ _ _ p Hi2) as [v2 Hv2].
    wp_step wp_commit; [exact Hi2|exact Hv2|exact Hid|]. apply wp_ret. eexists.
    split; [exact Hi2|]. by intros V3 Hi3. }
  assert (inv total (n + 1) V' T (home p) L 0) as Hi0 by (eapply inv_weaken; [exact Hi'|lia|lia]).
  wp_step wp_lookup; [by apply pl_used|exact Hi'|exact Hv|].
  unfold spec_remove in *. destruct (T !! p) as [e|] eqn:He.
  2: { intros _. apply wp_seq, wp_ret. apply Hend; [done|done|done|lia]. }
  intros idx Hx Hrep.
  pose proof (inv_begin _ _ _ _ _ _ _ _ _ _ Hi' Hv) as Hi1.
  destruct (home_view _ _ _ _ _ _ _ p Hi1) as [v1 Hv1].
  assert (v_paths v1 !! digest p = Some (idx, kind e)) as Hx1.
  { rewrite lookup_insert_eq in Hv1. by injection Hv1 as <-. }
  destruct e as [f|es]; cbn [kind] in *.
  - wp_step wp_seq. eapply wp_files_get; [exact Hv|exact Hrep|].
    wp_step wp_TxLocalBegin; [exact Hv|lia|].
    wp_step wp_conseq; [eapply (wp_unmake total (n + 1) _ T p key 1 _ _ idx (EFile f));
      try done; [lia|lia|apply drops_file]|].
    { apply (bl_sound _ _ _ _ (ns_blocks _ _ _ _ _ (in_names _ _ _ _ _ _ _ _ _ _ Hi')) p (EFile f) He). }
    cbv beta. intros r V2 [-> Hi2]. apply wp_ret. apply (Hend V2 (_, f)); [|done|by intros ? [=]|lia].
    by destruct (T !! parent_of p) as [[]|].
  - destruct Hrep as (d & Hd & Hh). wp_step wp_seq. eapply wp_dirs_get; [exact Hv|exact Hd|].
    rewrite (holds_empty d es Hh). case_bool_decide as Hes.
    + subst es. wp_step wp_TxLocalBegin; [exact Hv|lia|].
      wp_step wp_conseq; [eapply (wp_unmake total (n + 1) _ T p key 1 _ _ idx (EDir []));
        try done; [lia|lia|apply drops_dir]|].
      cbv beta. intros r V2 [-> Hi2]. apply wp_ret. apply (Hend V2 (_, _)); [|done|congruence|lia].
      by destruct (T !! parent_of p) as [[]|].
    + apply wp_ret. destruct es as [|x es]; [done|]. apply Hend; [done|done|congruence|lia].
Qed.

(** ** Creation of files *)

(** Uninitialised files have the size of their type. *)
Context (Hfile : length (fm_tuple uninit_file) = 20%nat).

Lemma new_file_sound h : sound h (new_file now uninit_file) /\ file_blocks (new_file now uninit_file) = [].
Proof using Hfile.
  clear Hdir Hdir'.
  apply (sound_intro h _ []); [|by left|constructor]. split; [|done|constructor].
  split; [done|]. split; [by eexists|]. split; [constructor|simpl; lia].
Qed.

Lemma wp_create_file (total : limits) n V T p L v :
  used p -> n <= total -> inv total n V T (home p) L 1 -> V !! home p = Some v -> T !! p = None ->
  wp (create_file CalculateDigest now uninit_file (home p) p) V
    (result total n (home p) L (true, <[p := EFile (new_file now uninit_file)]> T)).
Proof using Hcf Hfile.
  clear Hdir Hdir'.
  intros Hu Hn Hi Hv Hp. pose proof (inv_room _ _ _ _ _ _ _ _ _ _ _ Hi Hv) as Hr.
  pose proof (ro_cap _ _ _ _ Hr) as (_ & Hci & Hcf1 & _ & _). pose proof (ro_paths _ _ _ _ Hr).
  pose proof (ro_files _ _ _ _ Hr). pose proof (ro_log _ _ _ _ Hr).
  pose proof (in_names _ _ _ _ _ _ _ _ _ _ Hi) as Hnames.
  pose proof (names_none _ _ _ Hcf _ _ _ _ _ Hnames Hp Hu Hv) as Hno.
  unfold create_file. wp_step wp_files_create; [exact Hv|lia|]. intros idx Hidx.
  eapply wp_hash_put; [by rewrite lookup_insert_eq|done|simpl; lia|].
  rewrite insert_insert_eq. simpl set_paths. split; [done|].
  rewrite <- (inv_locks _ _ _ _ _ _ _ _ _ _ _ Hi Hv). set (v' := set_paths _ _).
  apply (inv_own _ _ _ total n n V T _ (home p) L 1 0 v v' Hi Hv); [lia| |].
  - eapply (names_add _ _ _ Hcf V T p _ v v' idx); try done.
    + simpl. by rewrite lookup_insert_eq.
    + intros i [f|es] He; simpl in *; [|done]. split; [by intros [= ->]; congruence|].
      rewrite lookup_insert_ne; [done|]. congruence.
    + apply new_file_sound.
  - destruct Hr. split; simpl; try done; try lia.
    + rewrite map_size_insert, Hno. simpl. lia.
    + rewrite map_size_insert, Hidx. simpl. lia.
Qed.

Lemma wp_mknod (total : limits) n V T p :
  placed p -> n < total -> inv total n V T (home p) ∅ 0 ->
  (forall es, T !! parent_of p = Some (EDir es) -> (length es < 60)%nat) ->
  wp (mknod CalculateDigest now uninit_bool uninit_name uninit_file (home p) (Some p)) V
    (result total (n + 1) (home p) ∅ (spec_mknod p T)).
Proof using HN Hcf Hfile.
  clear Hdir Hdir'.
  intros Hp Hn Hi Hlen. eapply wp_locked_op; [exact Hi|]. intros key V' v' Hi' Hv'.
  eapply wp_conseq;
    [eapply (wp_make total n V' T p key uninit_bool (EFile (new_file now uninit_file))); try done|].
  - intros V2 T2 Hi2 Hno. destruct (home_view _ _ _ _ _ _ _ p Hi2) as [v2 Hv2].
    eapply wp_create_file; try done; [by apply pl_used|lia].
  - cbv beta. intros r V2 [-> Hi2]. eexists. split; [exact Hi2|]. by intros V3 Hi3.
Qed.

End operations.

End FsOps.
