(* ===== verification/OctDataOps.v ===== *)
(** * Reads, writes and truncation on an octopus cluster

    The requests for file data (src/sys/octopus/src/fs/filesystem.cpp), from
    the abstract state of the cluster: what they answer, and which blocks the
    files have afterwards. *)

From S2P Require Import Prelude.
From S2P Require Import OctBase.
From S2P Require Import OctTable.
From S2P Require Import OctHashTable.
From S2P Require Import OctHashProps.
From S2P Require Import OctLock.
From S2P Require Import OctStorage.
From S2P Require Import OctExtent.
From S2P Require Import OctFileSystem.
From S2P Require Import OctFileData.
From S2P Require Import OctMessages.
From S2P Require Import OctDirectory.
From S2P Require Import OctFsRep.
From S2P Require Import OctBlocks.
From S2P Require Import OctNamespace.
From S2P Require Import OctFsOps.
Open Scope Z_scope.

Module DataOps.
Import FileSystem FileData Messages Directory FsRep FileBlocks Namespace FsOps.

Section operations.
Context (N : Z) (HN : 0 < N < 2 ^ 16).
Variable CalculateDigest : list Z -> HashTable.UniqueHash.
Variable now : Z.
Variables (uninit_word : Z) (uninit_fpi : file_pos_info).
Context (used : list Z -> Prop) (Hcf : collision_free CalculateDigest used).

Local Abbreviation digest := (digest CalculateDigest).
Local Abbreviation home := (home N CalculateDigest).
Local Abbreviation address_of := (address_of CalculateDigest).
Local Abbreviation wp := (wp N).
Local Abbreviation inv := (inv N CalculateDigest used).

(** ** Abstract operations *)

(** The answer to a read: the positions of the part of the range that is in
    the file. *)
Definition reads (p : list Z) (size offset : Z) (T : tree) (ok : bool) (fpi : file_pos_info) : Prop :=
  match T !! p with
  | Some (EFile f) =>
      ok = true /\
      (if fm_size f <=? offset then fpi = mkFpi 0 (fpi_tuple uninit_fpi)
       else fillFilePositionInformation (Z.min size (fm_size f - offset)) offset uninit_fpi f = Done fpi)
  | _ => ok = false /\ fpi = uninit_fpi
  end.

(** A write: the file gets [new] blocks that no file of the server has. *)
Definition grows (p : list Z) (f : FileMeta) (size offset : Z) (T : tree) (f' : FileMeta)
    (fpi : file_pos_info) : Prop :=
  exists new, file_blocks f' = file_blocks f ++ new /\ length new = extra_blocks f size offset /\
    (forall b q e, b ∈ new -> T !! q = Some e -> home q = home p -> b ∉ entry_blocks e) /\
    fm_size f' = Z.max (offset + size) (fm_size f) /\
    (length (extents f') <= length (extents f) + length new)%nat /\
    fillFilePositionInformation size offset uninit_fpi f' = Done fpi.

Definition writes (p : list Z) (size offset : Z) (T : tree) (ok : bool) (fpi : file_pos_info) (T' : tree)
    : Prop :=
  match T !! p with
  | Some (EFile f) =>
      if size =? 0 then ok = false /\ fpi = uninit_fpi /\ T' = T
      else ok = true /\ exists f', T' = <[p := EFile f']> T /\ grows p f size offset T f' fpi
  | _ => ok = false /\ fpi = uninit_fpi /\ T' = T
  end.

(** A truncation: the file keeps the blocks that the new size needs. *)
Definition truncates (p : list Z) (size : Z) (T : tree) (ok : bool) (T' : tree) : Prop :=
  match T !! p with
  | Some (EFile f) =>
      if fm_size f <=? size then ok = false /\ T' = T
      else ok = true /\ exists f', T' = <[p := EFile f']> T /\ fm_size f' = size /\
        file_blocks f' = take (Z.to_nat (blocks_for size)) (file_blocks f) /\
        extents f' `prefix_of` extents f
  | _ => ok = false /\ T' = T
  end.

(** What is asked of the file of a request. *)
Definition on_file (p : list Z) (T : tree) (P : FileMeta -> Prop) : Prop :=
  forall f, T !! p = Some (EFile f) -> P f.

Definition range_ok (size offset : Z) : Prop := 0 <= size /\ 0 <= offset /\ offset + size < 2 ^ 63.

(** The new end is the end of an extent, or nothing is to be cut. *)
Definition cut_ok (size : Z) (f : FileMeta) : Prop :=
  fm_size f <= size \/
  (0 < size /\ exists l1 e l2, extents f = l1 ++ e :: l2 /\ blocks_for size = count_blocks (l1 ++ [e])).

(** ** Files of the invariant *)

Lemma inv_sound (total : limits) n V T me L s p f :
  inv total n V T me L s -> T !! p = Some (EFile f) -> sound (home p) f.
Proof.
  intros Hi Hp.
  apply (bl_sound _ _ _ _ (ns_blocks _ _ _ _ _ (in_names _ _ _ _ _ _ _ _ _ _ Hi)) p (EFile f) Hp).
Qed.

Lemma inv_taken (total : limits) n V T me L s p f v b :
  inv total n V T me L s -> T !! p = Some (EFile f) -> V !! home p = Some v -> b ∈ file_blocks f ->
  is_Some (v_blocks v !! b).
Proof.
  intros Hi Hp Hv Hb.
  by apply (bl_in _ _ _ _ (ns_blocks _ _ _ _ _ (in_names _ _ _ _ _ _ _ _ _ _ Hi)) p (EFile f) v b).
Qed.

(** A free block belongs to no file of the server. *)
Lemma inv_free (total : limits) n V T me L s p v b q e :
  inv total n V T me L s -> V !! home p = Some v -> v_blocks v !! b = None ->
  T !! q = Some e -> home q = home p -> b ∉ entry_blocks e.
Proof.
  intros Hi Hv Hno Hq Hh Hb.
  destruct (bl_in _ _ _ _ (ns_blocks _ _ _ _ _ (in_names _ _ _ _ _ _ _ _ _ _ Hi)) q e v b) as [x Hx];
    [done|by rewrite Hh|done|congruence].
Qed.

Lemma sound_sized h f : sound h f -> 0 <= fm_size f < 2 ^ 63 /\
  (0 < fm_size f -> fm_size f <= bytes_of (extents f)).
Proof.
  intros [Hf [[-> _]|[Hs Hb]] _]; [lia|]. split; [lia|]. intros _.
  rewrite bytes_of_blocks by apply (fr_extents _ _ _ Hf). rewrite Hb.
  pose proof (Z.div_mod (fm_size f - 1) BLOCK_SIZE ltac:(unfold BLOCK_SIZE; lia)).
  pose proof (Z.mod_pos_bound (fm_size f - 1) BLOCK_SIZE ltac:(unfold BLOCK_SIZE; lia)).
  unfold BLOCK_SIZE in *. lia.
Qed.

(** The blocks of the files of server [k]. *)
Definition blocks_at (T : tree) (k : Z) : gset Z :=
  list_to_set (map_to_list T ≫= fun x => if decide (home x.1 = k) then entry_blocks x.2 else []).

Lemma elem_of_blocks_at T k b :
  b ∈ blocks_at T k <-> exists p e, T !! p = Some e /\ home p = k /\ b ∈ entry_blocks e.
Proof.
  unfold blocks_at. rewrite elem_of_list_to_set, list_elem_of_bind. split.
  - intros ([p e] & Hb & Hp%elem_of_map_to_list). simpl in Hb. case_decide; [by exists p, e|].
    by apply not_elem_of_nil in Hb.
  - intros (p & e & Hp & Hh & Hb). exists (p, e). simpl. rewrite decide_True by done.
    split; [done|]. by apply elem_of_map_to_list.
Qed.

Lemma inv_blocks_at (total : limits) n V T me L s k v :
  inv total n V T me L s -> V !! k = Some v -> dom (v_blocks v) = blocks_at T k.
Proof.
  intros Hi Hv. pose proof (ns_blocks _ _ _ _ _ (in_names _ _ _ _ _ _ _ _ _ _ Hi)) as HB.
  apply set_eq. intros b. rewrite elem_of_dom, elem_of_blocks_at. split.
  - by apply (bl_only _ _ _ _ HB).
  - intros (p & e & Hp & <- & Hb). by apply (bl_in _ _ _ _ HB p e).
Qed.

Lemma inv_blocks_size (total : limits) n V T me L s k v :
  inv total n V T me L s -> V !! k = Some v -> size (v_blocks v) = size (blocks_at T k).
Proof. intros Hi Hv. by rewrite <- (inv_blocks_at _ _ _ _ _ _ _ _ _ Hi Hv), size_dom. Qed.

(** ** Steps on a server *)

Lemma wp_files_put me idx f f' V v (Q : bool -> gmap Z view -> Prop) :
  V !! me = Some v -> v_files v !! idx = Some f ->
  Q true (<[me := set_files (<[idx := f']> (v_files v)) v]> V) ->
  wp (at_node me (on_files (fun t => Table.put t idx (Some f')))) V Q.
Proof.
  intros Hv Hf HQ. apply (wp_at_node _ me _ V v _ Hv). intros n Hr.
  pose proof (sr_files _ _ _ _ _ (nr_storage _ _ _ _ Hr)) as Ht. unfold on_files.
  destruct (Table.table_put_spec _ _ idx f' Ht) as (t' & -> & Htot & _ & Ht').
  { by apply (trep_nonneg _ _ _ Ht). }
  rewrite Hf in *. rewrite bool_decide_eq_true_2 by done. rewrite decide_True in Ht' by done.
  cbn [mbind run_bind fst snd].
  eexists _, _, _. split; [done|]. split; [by apply node_rep_files|done].
Qed.

(** What a write does to the blocks of the server [v]. *)
Record grown (p : list Z) (f : FileMeta) (size offset : Z) (v : view) (f' : FileMeta)
    (fpi : file_pos_info) (m' : gmap Z Block) (new : list Z) : Prop := mkGrown {
  gw_sound : sound (home p) f';
  gw_blocks : file_blocks f' = file_blocks f ++ new;
  gw_new : length new = extra_blocks f size offset;
  gw_free : forall b, b ∈ new -> v_blocks v !! b = None;
  gw_taken : forall b, b ∈ new -> is_Some (m' !! b);
  gw_other : forall b, b ∉ new -> m' !! b = v_blocks v !! b;
  gw_size : fm_size f' = Z.max (offset + size) (fm_size f);
  gw_len : (length (extents f') <= length (extents f) + length new)%nat;
  gw_fill : fillFilePositionInformation size offset uninit_fpi f' = Done fpi
}.

Lemma wp_write_range p f size offset V v (Q : _ -> gmap Z view -> Prop) :
  sound (home p) f -> V !! home p = Some v -> (forall b, b ∈ file_blocks f -> is_Some (v_blocks v !! b)) ->
  c_blocks (v_cap v) <= 4095 -> range_ok size offset -> size <> 0 ->
  (length (extents f) + extra_blocks f size offset <= 20)%nat ->
  (length (extents f) + extra_blocks f size offset <= length (fpi_tuple uninit_fpi))%nat ->
  Z.of_nat (base.size (v_blocks v)) + Z.of_nat (extra_blocks f size offset) <= c_blocks (v_cap v) ->
  (forall f' fpi m' new, grown p f size offset v f' fpi m' new ->
     Q (Some (f', fpi)) (<[home p := set_blocks m' v]> V)) ->
  wp (at_node (home p) (fun n =>
        on_blocks (write_range f size offset (hashLocalNode n) uninit_fpi) n)) V Q.
Proof using HN.
  intros [Hf Hsz Hnd] Hv Hin Hcap (Hs0 & Ho & Hw) Hs Hlen Hfpi Hroom HQ.
  apply (wp_at_node _ _ _ V v _ Hv). intros n Hr. unfold on_blocks. rewrite (nr_local _ _ _ _ Hr).
  pose proof (sr_blocks _ _ _ _ _ (nr_storage _ _ _ _ Hr)) as Ht.
  pose proof (home_range N HN CalculateDigest p) as Hh.
  destruct (write_range_spec (home p) f (extents f) size offset uninit_fpi (tableBlock (storage n))
    (v_blocks v)) as (f' & fpi' & t' & m' & es' & new & -> & Hwr); try done; try lia.
  { by rewrite (nr_blocks _ _ _ _ Hr). }
  { by rewrite (nr_blocks _ _ _ _ Hr). }
  destruct Hwr as [Hf' Hsz' Hsize Hbl Hnew Hlen' [Htk1 Htk2 Htk3 Htk4 Htk5 Htk6] Hfill].
  cbn [mbind run_bind fst snd]. eexists _, _, _. split; [done|]. split; [by apply node_rep_blocks|].
  destruct (sound_intro (home p) f' es') as [Hsound Hbl']; [done|done| |].
  { rewrite Hbl. apply NoDup_app. split; [done|]. split; [|done].
    intros b Hb Hb'. destruct (Hin b Hb) as [x Hx]. destruct (Htk4 b Hb') as [Hno _]. congruence. }
  apply (HQ f' fpi' m' new). split; try done.
  - by rewrite Hbl', Hbl.
  - intros b Hb. by apply Htk4.
  - rewrite (file_rep_extents _ _ _ Hf'). lia.
Qed.

(** The invariant after a write. *)
Lemma inv_grown (total : limits) n V T L s p f v idx size offset f' fpi m' new time :
  inv total n V T (home p) L s -> T !! p = Some (EFile f) -> V !! home p = Some v ->
  v_paths v !! digest p = Some (idx, false) -> v_files v !! idx = Some f ->
  grown p f size offset v f' fpi m' new ->
  let f2 := mkFileMeta time (fm_count f') (fm_size f') (fm_tuple f') in
  inv total n (<[home p := set_files (<[idx := f2]> (v_files v)) (set_blocks m' v)]> V)
    (<[p := EFile f2]> T) (home p) L s /\
  grows p f size offset T f2 fpi.
Proof using HN Hcf.
  intros Hi Hp Hv Hx Hf [Hso Hbl Hnew Hfree Htaken Hother Hsize Hlen Hfill] f2.
  pose proof (sound_time _ _ time Hso) as Hso2. fold f2 in Hso2.
  change (file_blocks f') with (file_blocks f2) in Hbl.
  split; [eapply inv_file; [exact Hi|exact Hv|exact Hf|]|].
  - eapply (names_file _ _ _ Hcf V T p f); try done.
    + apply Hi.
    + intros b. rewrite Hbl, elem_of_app. intros [Hb|Hb]; [|by apply Htaken].
      destruct (decide (b ∈ new)); [by apply Htaken|]. rewrite Hother by done. by eapply inv_taken.
    + intros b. rewrite Hbl, elem_of_app. intros [Hb|Hb]; [by left|right; by apply Hfree].
    + intros b Hb. rewrite Hbl, elem_of_app. intros []. by left.
    + intros b _. rewrite Hbl, elem_of_app. intros Hb. apply Hother. tauto.
  - exists new. split; [done|]. split; [done|]. split; [|split; [done|split; [done|]]].
    + intros b q e Hb Hq Hh. eapply inv_free; try done. by apply Hfree.
    + by rewrite (fill_meta f2 f') by done.
Qed.

(** ** Requests *)

(** The frame of a read: the lock word of the path is taken for reading. *)
Lemma wp_extentRead (total : limits) n V T p size offset v (Q : extent_result -> gmap Z view -> Prop) :
  used p -> inv total n V T (home p) ∅ 0 -> V !! home p = Some v ->
  0 < size -> range_ok size offset ->
  on_file p T (fun f => (length (extents f) <= length (fpi_tuple uninit_fpi))%nat) ->
  (forall ok fpi, reads p size offset T ok fpi ->
     Q (ok, fpi, Some (address_of p, 1)) (<[home p := set_locks {[address_of p := 1]} v]> V)) ->
  wp (extentRead CalculateDigest (home p) (Some p) size offset uninit_fpi) V Q.
Proof using HN Hcf.
  intros Hu Hi Hv Hs (_ & Ho & Hw) Hfits HQ. unfold extentRead. rewrite (proj2 (Z.eqb_neq size 0)) by lia.
  pose proof (inv_locks _ _ _ _ _ _ _ _ _ _ _ Hi Hv) as HL.
  apply wp_seq, (wp_node_of _ HN _ _ _ V v); [done|]. apply wp_seq, (wp_checkLocal _ _ _ V v); [done|].
  rewrite Z.eqb_refl. wp_step wp_lock_read; [exact Hv|by rewrite HL|apply getAddressHash_range|].
  rewrite HL. change (<[address_of p := 1]> ∅) with ({[address_of p := 1]} : gmap Z Z).
  pose proof (inv_set_locks _ _ _ _ _ _ _ _ _ {[address_of p := 1]} _ _ Hi Hv) as Hi1.
  set (v1 := set_locks _ v) in *. set (V1 := <[home p := v1]> V) in *.
  assert (V1 !! home p = Some v1) as Hv1 by by unfold V1; rewrite lookup_insert_eq.
  unfold reads in HQ. wp_step wp_lookup; [exact Hcf|exact Hu|exact Hi1|exact Hv1|].
  destruct (T !! p) as [[f|es]|] eqn:Hp; [|intros; apply wp_ret; by apply HQ..].
  intros idx _ Hf. cbn [kind]. wp_step wp_files_get; [exact Hv1|exact Hf|].
  pose proof (inv_sound _ _ _ _ _ _ _ _ _ Hi1 Hp) as Hso.
  destruct (sound_sized _ _ Hso) as [Hsz Hbytes].
  rewrite (wrap_small 64 (offset + 1)) by (unfold in_width; lia).
  destruct (Z.leb_spec (fm_size f) offset) as [Hle|Hgt].
  - rewrite (proj2 (Z.ltb_lt _ _)) by lia. apply wp_ret. by apply HQ.
  - rewrite (proj2 (Z.ltb_ge _ _)) by lia.
    rewrite (wrap_small 64 (fm_size f - offset)) by (unfold in_width; lia).
    assert ((if fm_size f - offset <? size then fm_size f - offset else size) =
            Z.min size (fm_size f - offset)) as ->
      by (destruct (Z.ltb_spec (fm_size f - offset) size); lia).
    destruct (fill_Done f (extents f) (Z.min size (fm_size f - offset)) offset uninit_fpi)
      as [fpi Hfill]; [apply Hso|by apply Hfits|lia|lia|lia|].
    apply wp_seq. eapply wp_pure; [exact Hfill|]. apply wp_ret. by apply HQ.
Qed.

Lemma wp_read_request (total : limits) n V T p size offset :
  used p -> inv total n V T (home p) ∅ 0 -> 0 < size -> range_ok size offset ->
  on_file p T (fun f => (length (extents f) <= length (fpi_tuple uninit_fpi))%nat) ->
  wp (read_request CalculateDigest uninit_word uninit_fpi (home p) p size offset) V
    (fun a V' => V' = V /\ exists ok fpi, a = ExtentReceive ok fpi (address_of p) 1 /\
       reads p size offset T ok fpi).
Proof using HN Hcf.
  intros Hu Hi Hs Hr Hfits. destruct (home_view _ HN _ _ _ _ _ _ _ _ _ p Hi) as [v Hv].
  pose proof (inv_locks _ _ _ _ _ _ _ _ _ _ _ Hi Hv) as HL.
  apply wp_seq. eapply wp_extentRead; try done. intros ok fpi Hread. cbn [snd held_lock default fst].
  wp_step wp_unlock_read; [by rewrite lookup_insert_eq|by apply lookup_singleton_eq|apply getAddressHash_range|].
  rewrite insert_insert_eq. apply wp_ret. simpl v_locks. rewrite delete_singleton_eq.
  split; [|by exists ok, fpi]. apply insert_id. rewrite Hv. f_equal. rewrite <- HL. by destruct v.
Qed.

(** The file has room for a write: in its extents, in the message, and on the
    server. *)
Definition write_fits (total : limits) (p : list Z) (size offset : Z) (T : tree) (f : FileMeta) : Prop :=
  (length (extents f) + extra_blocks f size offset <= 20)%nat /\
  (length (extents f) + extra_blocks f size offset <= length (fpi_tuple uninit_fpi))%nat /\
  Z.of_nat (base.size (blocks_at T (home p))) + Z.of_nat (extra_blocks f size offset) <= max_blocks total.

Lemma wp_extentWrite (total : limits) n V T p size offset v (Q : extent_result -> gmap Z view -> Prop) :
  used p -> inv total n V T (home p) ∅ 0 -> V !! home p = Some v -> range_ok size offset ->
  on_file p T (write_fits total p size offset T) ->
  (forall ok fpi key V' T', LockService.is_key key -> writes p size offset T ok fpi T' ->
     inv total n V' T' (home p) {[address_of p := key]} 0 ->
     Q (ok, fpi, Some (address_of p, key)) V') ->
  wp (extentWrite CalculateDigest now (home p) (Some p) size offset uninit_fpi) V Q.
Proof using HN Hcf.
  intros Hu Hi Hv Hr Hfits HQ. unfold extentWrite.
  pose proof (inv_locks _ _ _ _ _ _ _ _ _ _ _ Hi Hv) as HL. pose proof (home_range N HN CalculateDigest p).
  apply wp_seq, (wp_node_of _ HN _ _ _ V v); [done|]. apply wp_seq, (wp_checkLocal _ _ _ V v); [done|].
  rewrite Z.eqb_refl. wp_step wp_lock_write; [exact Hv|by rewrite HL|apply getAddressHash_range|lia|].
  intros key Hkey. rewrite HL. change (<[address_of p := key]> ∅) with ({[address_of p := key]} : gmap Z Z).
  pose proof (inv_set_locks _ _ _ _ _ _ _ _ _ {[address_of p := key]} _ _ Hi Hv) as Hi1.
  set (v1 := set_locks _ v) in *. set (V1 := <[home p := v1]> V) in *.
  assert (V1 !! home p = Some v1) as Hv1 by by unfold V1; rewrite lookup_insert_eq.
  unfold writes in HQ. wp_step wp_lookup; [exact Hcf|exact Hu|exact Hi1|exact Hv1|].
  destruct (T !! p) as [[f|es]|] eqn:Hp; [|intros; apply wp_ret; by eapply HQ..].
  intros idx Hx Hf. cbn [kind] in *. wp_step wp_files_get; [exact Hv1|exact Hf|].
  pose proof Hr as (Hs0 & Ho & Hw).
  rewrite (wrap_small 64 (2 ^ 64 - 1 - offset)) by (unfold in_width; lia).
  rewrite (proj2 (Z.ltb_ge (2 ^ 64 - 1 - offset) size)) by lia. cbn [orb].
  destruct (Z.eqb_spec size 0) as [H0|Hne]; [apply wp_ret; by eapply HQ|].
  destruct (Hfits f Hp) as (Hl1 & Hl2 & Hroom).
  pose proof (inv_room _ _ _ _ _ _ _ _ _ _ _ Hi1 Hv1) as Hrm.
  destruct (ro_cap _ _ _ _ Hrm) as (_ & _ & _ & _ & Hcb1 & Hcb2).
  wp_step wp_write_range; [by eapply inv_sound|exact Hv1| |exact Hcb2|exact Hr|exact Hne|exact Hl1|exact Hl2| |].
  { intros b Hb. by eapply inv_taken. }
  { rewrite (inv_blocks_size _ _ _ _ _ _ _ _ _ Hi1 Hv1). lia. }
  intros f' fpi m' new Hg.
  destruct (inv_grown _ _ _ _ _ _ _ _ _ _ _ _ _ _ _ _ now Hi1 Hp Hv1 Hx Hf Hg) as [Hi2 Hgrows].
  wp_step wp_files_put; [by rewrite lookup_insert_eq|exact Hf|]. rewrite insert_insert_eq. apply wp_ret.
  eapply HQ; [exact Hkey| |exact Hi2]. split; [done|]. by eexists.
Qed.

Lemma wp_write_request (total : limits) n V T p size offset :
  used p -> inv total n V T (home p) ∅ 0 -> range_ok size offset ->
  on_file p T (write_fits total p size offset T) ->
  wp (write_request CalculateDigest now uninit_word uninit_fpi (home p) p size offset) V
    (fun a V' => exists ok fpi key T', a = ExtentReceive ok fpi (address_of p) key /\
       writes p size offset T ok fpi T' /\ inv total n V' T' (home p) ∅ 0).
Proof using HN Hcf.
  intros Hu Hi Hr Hfits. destruct (home_view _ HN _ _ _ _ _ _ _ _ _ p Hi) as [v Hv].
  apply wp_seq. eapply wp_extentWrite; try done. intros ok fpi key V' T' Hkey Hwr Hi'.
  cbn [snd held_lock default fst]. destruct (home_view _ HN _ _ _ _ _ _ _ _ _ p Hi') as [v' Hv'].
  pose proof (inv_locks _ _ _ _ _ _ _ _ _ _ _ Hi' Hv') as HL'.
  wp_step wp_unlock_write; [exact Hv'|by rewrite HL'; apply lookup_singleton_eq|exact Hkey|apply getAddressHash_range|].
  apply wp_ret. exists ok, fpi, key, T'. split; [done|]. split; [done|].
  rewrite HL', delete_singleton_eq. by eapply inv_set_locks.
Qed.

(** What a truncation does to the blocks of the server [v]. *)
Record shrunk (p : list Z) (f : FileMeta) (size : Z) (v : view) (f' : FileMeta) (m' : gmap Z Block)
    : Prop := mkShrunk {
  sk_sound : sound (home p) f';
  sk_size : fm_size f' = size;
  sk_blocks : file_blocks f' = take (Z.to_nat (blocks_for size)) (file_blocks f);
  sk_prefix : extents f' `prefix_of` extents f;
  sk_gone : forall b, b ∈ drop (Z.to_nat (blocks_for size)) (file_blocks f) -> m' !! b = None;
  sk_other : forall b, b ∉ drop (Z.to_nat (blocks_for size)) (file_blocks f) -> m' !! b = v_blocks v !! b
}.

Lemma wp_cut p f size V v (Q : option FileMeta -> gmap Z view -> Prop) :
  sound (home p) f -> V !! home p = Some v -> (forall b, b ∈ file_blocks f -> is_Some (v_blocks v !! b)) ->
  0 <= size -> cut_ok size f -> (fm_size f <= size -> Q None V) ->
  (forall f' m', size < fm_size f -> shrunk p f size v f' m' -> Q (Some f') (<[home p := set_blocks m' v]> V)) ->
  wp (at_node (home p) (on_blocks (cut f size))) V Q.
Proof.
  intros Hso Hv Hin Hs Hcut HQ0 HQ. apply (wp_at_node _ _ _ V v _ Hv). intros n Hr. unfold on_blocks.
  pose proof (sr_blocks _ _ _ _ _ (nr_storage _ _ _ _ Hr)) as Ht.
  destruct (Z.leb_spec (fm_size f) size) as [Hle|Hlt].
  { exists None, n, v. unfold cut. rewrite (proj2 (Z.leb_le _ _)) by done. cbn [mbind run_bind fst snd].
    rewrite insert_id by done. split; [by destruct n as [[]]|]. split; [done|by apply HQ0]. }
  destruct Hcut as [|(Hpos & l1 & e & l2 & Hes & Hnb)]; [lia|].
  destruct (sound_sized _ _ Hso) as [Hsz _]. destruct Hso as [Hf _ Hnd]. unfold file_blocks in *.
  rewrite Hes in *.
  pose proof (has_extents_bounds f l1 e l2 (fr_extents _ _ _ Hf)) as (He & _).
  rewrite count_blocks_app, (count_blocks_one e He) in Hnb. pose proof He as (Hc & _).
  destruct (cut_spec (home p) f l1 e l2 size (tableBlock (storage n)) (v_blocks v) Hf Ht Hnd Hin)
    as (f' & t' & m' & -> & Hsize & Hf' & Hg & _); [lia|lia|right; lia|lia|].
  cbn [mbind run_bind fst snd]. eexists _, _, _. split; [done|].
  split; [apply node_rep_blocks; [done|apply Hg|apply Hg]|].
  assert (blocks_of (l1 ++ [e]) = take (Z.to_nat (blocks_for size)) (blocks_of (l1 ++ e :: l2))) as Htake.
  { change (e :: l2) with ([e] ++ l2). rewrite app_assoc, (blocks_of_app (l1 ++ [e])).
    rewrite take_app_length'; [done|]. rewrite Hnb, <- (count_blocks_one e He), <- count_blocks_app.
    unfold count_blocks. lia. }
  destruct (sound_intro (home p) f' (l1 ++ [e])) as [Hso' Hbl']; [done| | |].
  - right. rewrite Hsize. split; [lia|].
    change (Z.of_nat (length (blocks_of (l1 ++ [e])))) with (count_blocks (l1 ++ [e])).
    rewrite count_blocks_app, (count_blocks_one e He), <- Hnb. unfold blocks_for.
    by rewrite (proj2 (Z.eqb_neq size 0)) by lia.
  - rewrite Htake. eapply sublist_NoDup; [exact Hnd|]. apply sublist_take.
  - apply HQ; [done|]. split; try done; unfold file_blocks; rewrite ?Hes.
    + unfold file_blocks in Hbl'. by rewrite Hbl'.
    + rewrite (file_rep_extents _ _ _ Hf'). exists l2. by rewrite <- app_assoc.
    + apply Hg.
    + apply Hg.
Qed.

Lemma inv_truncate (total : limits) n V T L s p f v idx size f' m' :
  inv total n V T (home p) L s -> T !! p = Some (EFile f) -> V !! home p = Some v ->
  v_paths v !! digest p = Some (idx, false) -> v_files v !! idx = Some f ->
  shrunk p f size v f' m' ->
  inv total n (<[home p := set_files (<[idx := f']> (v_files v)) (set_blocks m' v)]> V)
    (<[p := EFile f']> T) (home p) L s.
Proof using HN Hcf.
  intros Hi Hp Hv Hx Hf [Hso Hsize Hbl _ Hgone Hother].
  pose proof (so_nodup _ _ (inv_sound _ _ _ _ _ _ _ _ _ Hi Hp)) as Hnd.
  rewrite <- (take_drop (Z.to_nat (blocks_for size)) (file_blocks f)) in Hnd.
  apply NoDup_app in Hnd as (_ & Hdisj & _). rewrite <- Hbl in Hdisj.
  assert (forall b, b ∈ file_blocks f <-> b ∈ file_blocks f' \/ b ∈ drop (Z.to_nat (blocks_for size)) (file_blocks f))
    as Hsplit.
  { intros b. rewrite Hbl, <- elem_of_app, take_drop. done. }
  eapply inv_file; [exact Hi|exact Hv|exact Hf|]. eapply (names_file _ _ _ Hcf V T p f); try done.
  - apply Hi.
  - intros b Hb. rewrite Hother by by apply Hdisj. eapply inv_taken; try done. apply Hsplit. by left.
  - intros b Hb. left. apply Hsplit. by left.
  - intros b Hb Hb'. apply Hgone. apply Hsplit in Hb as [|]; done.
  - intros b Hb Hb'. apply Hother. intros Hd. apply Hb, Hsplit. by right.
Qed.

Lemma wp_truncate (total : limits) n V T p size :
  used p -> inv total n V T (home p) ∅ 0 -> 0 <= size -> on_file p T (cut_ok size) ->
  wp (truncate CalculateDigest (home p) (Some p) size) V
    (fun r V' => exists T', truncates p size T r T' /\ inv total (n + 1) V' T' (home p) ∅ 0).
Proof using HN Hcf.
  intros Hu Hi Hs Hcut. eapply (wp_locked_op _ HN); [exact Hi|]. intros key V' v Hi' Hv.
  assert (inv total (n + 1) V' T (home p) {[address_of p := key]} 0) as Hi0
    by (eapply inv_weaken; [exact Hi'|lia|lia]).
  assert (truncates p size T false T ->
    wp (mret false) V' (fun r V2 => exists T2, inv total (n + 1) V2 T2 (home p) {[address_of p := key]} 0 /\
      (forall V3, inv total (n + 1) V3 T2 (home p) ∅ 0 ->
         exists T', truncates p size T r T' /\ inv total (n + 1) V3 T' (home p) ∅ 0))) as Hfalse.
  { intros Ht. apply wp_ret. exists T. split; [done|]. intros V3 Hi3. by exists T. }
  unfold truncates in *. wp_step wp_lookup; [exact Hcf|exact Hu|exact Hi'|exact Hv|].
  destruct (T !! p) as [[f|es]|] eqn:Hp; [|intros; by apply Hfalse..].
  intros idx Hx Hf. cbn [kind] in *. wp_step wp_files_get; [exact Hv|exact Hf|].
  wp_step wp_cut; [by eapply inv_sound|exact Hv|intros b Hb; by eapply inv_taken|exact Hs|by apply Hcut| |].
  { intros Hle. apply Hfalse. by rewrite (proj2 (Z.leb_le _ _)). }
  intros f' m' Hlt Hsk. eapply wp_files_put; [by rewrite lookup_insert_eq|exact Hf|].
  rewrite insert_insert_eq. pose proof (inv_truncate _ _ _ _ _ _ _ _ _ _ _ _ _ Hi0 Hp Hv Hx Hf Hsk) as Hi2.
  eexists. split; [exact Hi2|]. intros V3 Hi3. eexists. split; [|exact Hi3].
  rewrite (proj2 (Z.leb_gt _ _)) by done. split; [done|]. exists f'. split; [done|].
  split; [apply Hsk|]. split; apply Hsk.
Qed.

End operations.

End DataOps.
