(* ===== verification/OctFsSpec.v ===== *)
(** * OctFsSpec: what an octopus cluster answers to requests, from its start on

    Clients send each request to the server of its path. The abstract file
    system is a transition relation on trees of paths; every request on a
    cluster that represents a tree is a transition of it.

    The servers are constructed over zeroed buffers and then initialise the
    root directory, which only one of them has. From there the refinement
    applies. *)

From S2P Require Import Prelude.
From S2P Require Import OctBase.
From S2P Require Import OctTable.
From S2P Require Import OctHashTable.
From S2P Require Import OctHashProps.
From S2P Require Import OctLock.
From S2P Require Import OctTx.
From S2P Require Import OctStorage.
From S2P Require Import OctExtent.
From S2P Require Import OctFileSystem.
From S2P Require Import OctFileData.
From S2P Require Import OctMessages.
From S2P Require Import OctDirectory.
From S2P Require Import OctFsRep.
From S2P Require Import OctBlocks.
From S2P Require Import OctNamespace.
From S2P Require Import OctFsOps.
From S2P Require Import OctDataOps.

Open Scope Z_scope.

Module FsSpec.
Import FileSystem FileData Messages Directory FsRep FileBlocks Namespace FsOps DataOps.

(** The path that decides where a request is sent. *)
Definition path_of (r : Request) : list Z :=
  match r with
  | MESSAGE_ADDMETATODIRECTORY p _ _ | MESSAGE_REMOVEMETAFROMDIRECTORY p _ | MESSAGE_DOCOMMIT p _
  | MESSAGE_MKNOD p | MESSAGE_GETATTR p | MESSAGE_ACCESS p | MESSAGE_MKDIR p | MESSAGE_READDIR p
  | MESSAGE_READDIRECTORYMETA p | MESSAGE_EXTENTREAD p _ _ | MESSAGE_EXTENTWRITE p _ _
  | MESSAGE_TRUNCATE p _ | MESSAGE_RMDIR p | MESSAGE_REMOVE p | MESSAGE_MKNODWITHMETA p _
  | MESSAGE_RENAME p _ | MESSAGE_RAWWRITE p _ _ | MESSAGE_RAWREAD p _ _ => p
  | MESSAGE_UPDATEMETA | MESSAGE_EXTENTREADEND | MESSAGE_FREEBLOCK _ _ | MESSAGE_OTHER => []
  end.

Section spec.
Context (N : Z) (HN : 0 < N < 2 ^ 16).
Variable CalculateDigest : list Z -> HashTable.UniqueHash.
Variable ASSERT_false : fs unit.
Variable now : Z.
Variables (uninit_word : Z) (uninit_bool : bool) (uninit_name : list Z)
  (uninit_dir : DirectoryMeta) (uninit_file : FileMeta) (uninit_fpi : file_pos_info).

Local Abbreviation home := (home N CalculateDigest).
Local Abbreviation address_of := (address_of CalculateDigest).
Local Abbreviation parent_of := (parent_of uninit_name).

(** ** Requests on the server of their path *)

Definition exec (r : Request) : fs Response :=
  parseMessage CalculateDigest ASSERT_false now uninit_word uninit_bool uninit_name uninit_dir
    uninit_file uninit_fpi (home (path_of r)) r.

Fixpoint execs (rs : list Request) : fs (list Response) :=
  match rs with
  | [] => mret []
  | r :: rs => a ← exec r; as_ ← execs rs; mret (a :: as_)
  end.

(** ** The abstract file system *)

(** The answer of [readDirectoryMeta]: the directory, with its bucket, a place
    in the buffer and its server. *)
Definition finds (p : list Z) (T : tree) (found : option (DirectoryMeta * Z * Z * Z)) : Prop :=
  match T !! p with
  | Some (EDir es) => exists d at_, found = Some (d, address_of p, at_, home p) /\ holds d es
  | _ => found = None
  end.

(** The transitions: a request, the tree before, the answer and the tree after.
    The requests of the two-phase protocol, [MESSAGE_RMDIR], [MESSAGE_RENAME],
    [MESSAGE_FREEBLOCK] and [MESSAGE_MKNODWITHMETA] have none: they do not keep
    a tree of paths. *)
Definition step (r : Request) (T : tree) (a : Response) (T' : tree) : Prop :=
  match r with
  | MESSAGE_ACCESS p => a = GeneralReceive (bool_decide (is_Some (T !! p))) /\ T' = T
  | MESSAGE_GETATTR p =>
      let x := spec_getattr p uninit_file T in
      a = GetAttributeReceive x.1 (default uninit_file x.2) /\ T' = T
  | MESSAGE_READDIR p =>
      exists x, a = ReadDirectoryReceive x.1 (default uninit_dir x.2) /\ lists p uninit_dir T x /\ T' = T
  | MESSAGE_READDIRECTORYMETA p =>
      exists found, a = ReadDirectoryMetaReceive found /\ finds p T found /\ T' = T
  | MESSAGE_MKDIR p =>
      let x := spec_mkdir uninit_name p T in a = GeneralReceive x.1 /\ T' = x.2
  | MESSAGE_MKNOD p =>
      let x := spec_mknod now uninit_bool uninit_name uninit_file p T in
      a = GeneralReceive x.1 /\ T' = x.2
  | MESSAGE_REMOVE p =>
      let x := spec_remove uninit_name p T in
      exists f, a = GetAttributeReceive x.1 f /\ (forall g, T !! p = Some (EFile g) -> f = g) /\ T' = x.2
  | MESSAGE_EXTENTREAD p size offset | MESSAGE_RAWREAD p size offset =>
      exists ok fpi o key, a = ExtentReceive ok fpi o key /\ reads uninit_fpi p size offset T ok fpi /\ T' = T
  | MESSAGE_EXTENTWRITE p size offset | MESSAGE_RAWWRITE p size offset =>
      exists ok fpi o key, a = ExtentReceive ok fpi o key /\
        writes N CalculateDigest uninit_fpi p size offset T ok fpi T'
  | MESSAGE_TRUNCATE p size => exists ok, a = GeneralReceive ok /\ truncates p size T ok T'
  | MESSAGE_UPDATEMETA | MESSAGE_EXTENTREADEND | MESSAGE_OTHER => a = Unfilled /\ T' = T
  | _ => False
  end.

Inductive steps : list Request -> tree -> list Response -> tree -> Prop :=
| steps_nil T : steps [] T [] T
| steps_cons r rs T a T1 as_ T2 :
    step r T a T1 -> steps rs T1 as_ T2 -> steps (r :: rs) T (a :: as_) T2.

Context (used : list Z -> Prop).
Local Abbreviation placed := (placed N CalculateDigest uninit_name used).
Local Abbreviation inv := (inv N CalculateDigest used).

(** What a request needs: a path in use; to change the namespace, a path that
    is [placed], and to add to a directory, fewer than 60 entries; for data, a
    range below 2^63, positions that fit the message, and free blocks; to cut
    a file, an end of one of its extents. *)
Definition op_ok (total : limits) (r : Request) (T : tree) : Prop :=
  match r with
  | MESSAGE_ACCESS p | MESSAGE_GETATTR p | MESSAGE_READDIR p => used p
  | MESSAGE_READDIRECTORYMETA p => used p /\ Z.of_nat (length p) < MAX_PATH_LENGTH
  | MESSAGE_MKDIR p | MESSAGE_MKNOD p =>
      placed p /\ (forall es, T !! parent_of p = Some (EDir es) -> (length es < 60)%nat)
  | MESSAGE_REMOVE p => placed p
  | MESSAGE_EXTENTREAD p size offset | MESSAGE_RAWREAD p size offset =>
      used p /\ 0 < size /\ range_ok size offset /\
      on_file p T (fun f => (length (extents f) <= length (fpi_tuple uninit_fpi))%nat)
  | MESSAGE_EXTENTWRITE p size offset | MESSAGE_RAWWRITE p size offset =>
      used p /\ range_ok size offset /\
      on_file p T (write_fits N CalculateDigest uninit_fpi total p size offset T)
  | MESSAGE_TRUNCATE p size => used p /\ 0 <= size /\ on_file p T (cut_ok size)
  | MESSAGE_UPDATEMETA | MESSAGE_EXTENTREADEND | MESSAGE_OTHER => True
  | _ => False
  end.

Fixpoint ops_ok (total : limits) (rs : list Request) (T : tree) : Prop :=
  match rs with
  | [] => True
  | r :: rs => op_ok total r T /\ (forall a T', step r T a T' -> ops_ok total rs T')
  end.

Context (Hcf : collision_free CalculateDigest used).

(** ** One request *)

(** The result of a request on a cluster that represents [T]. *)
Definition stepped (total : limits) (n : Z) (r : Request) (T : tree) (a : Response) (V : gmap Z view) : Prop :=
  exists T', step r T a T' /\ inv total n V T' 1 ∅ 0.

Lemma stepped_intro (total : limits) n r T a V T' me :
  step r T a T' -> inv total n V T' me ∅ 0 -> stepped total n r T a V.
Proof. intros Hs Hi. exists T'. split; [done|]. by eapply inv_quiet. Qed.

Lemma wp_general (m : fs bool) V (Q : Response -> gmap Z view -> Prop) :
  wp N m V (fun r V' => Q (GeneralReceive r) V') -> wp N (general m) V Q.
Proof.
  intros Hm. apply wp_seq. eapply wp_conseq; [exact Hm|]. cbv beta. intros r V' HQ. by apply wp_ret.
Qed.

Section one.
Context (total : limits) (n : Z) (V : gmap Z view) (T : tree).
Context (Hi : forall me, inv total n V T me ∅ 0).

Lemma stay me : inv total (n + 1) V T me ∅ 0.
Proof using Hi. eapply inv_weaken; [apply Hi|lia|lia]. Qed.

Lemma wp_read_directory p (Q : _ -> gmap Z view -> Prop) :
  used p -> Z.of_nat (length p) < MAX_PATH_LENGTH -> (forall found, finds p T found -> Q found V) ->
  wp N (readDirectoryMeta CalculateDigest 1 (home p) p) V Q.
Proof using HN Hcf Hi.
  intros Hu Hlen HQ. destruct (home_view _ HN _ _ _ _ _ _ _ _ _ p (Hi 1)) as [v Hv].
  pose proof (in_names _ _ _ _ _ _ _ _ _ _ (Hi 1)) as Hn.
  eapply (wp_read_parent N HN); [exact Hv|exact Hv| |by eapply names_dirs_present|exact Hlen|].
  - by rewrite (inv_locks _ _ _ _ _ _ _ _ _ _ _ (Hi (home p)) Hv).
  - apply HQ. unfold finds. pose proof (find_dir_spec _ _ _ Hcf V T p v Hn Hu Hv) as Hf.
    destruct (T !! p) as [[f|es]|]; [by rewrite Hf| |by rewrite Hf].
    destruct Hf as (idx & d & -> & _ & _ & Hh). by eexists _, _.
Qed.

Lemma wp_data_read r p size offset :
  step r T = (fun a T' => exists ok fpi o key, a = ExtentReceive ok fpi o key /\
    reads uninit_fpi p size offset T ok fpi /\ T' = T) ->
  used p /\ 0 < size /\ range_ok size offset /\
    on_file p T (fun f => (length (extents f) <= length (fpi_tuple uninit_fpi))%nat) ->
  wp N (read_request CalculateDigest uninit_word uninit_fpi (home p) p size offset) V
    (stepped total (n + 1) r T).
Proof using HN Hcf Hi.
  intros Hr (Hu & Hs & Hrange & Hfits). eapply wp_conseq;
    [by apply (wp_read_request N HN _ uninit_word uninit_fpi used Hcf total n V T p size offset Hu (Hi _))|].
  cbv beta. intros a V' (-> & ok & fpi & -> & Hread). apply (stepped_intro _ _ _ _ _ _ T 1); [|apply stay].
  rewrite Hr. by eexists _, _, _, _.
Qed.

Lemma wp_data_write r p size offset :
  step r T = (fun a T' => exists ok fpi o key, a = ExtentReceive ok fpi o key /\
    writes N CalculateDigest uninit_fpi p size offset T ok fpi T') ->
  used p /\ range_ok size offset /\
    on_file p T (write_fits N CalculateDigest uninit_fpi total p size offset T) ->
  wp N (write_request CalculateDigest now uninit_word uninit_fpi (home p) p size offset) V
    (stepped total (n + 1) r T).
Proof using HN Hcf Hi.
  intros Hr (Hu & Hrange & Hfits). eapply wp_conseq;
    [by apply (wp_write_request N HN _ now uninit_word uninit_fpi used Hcf total n V T p size offset Hu (Hi _))|].
  cbv beta. intros a V' (ok & fpi & key & T' & -> & Hwr & Hi').
  apply (stepped_intro _ _ _ _ _ _ T' (home p)); [|eapply inv_weaken; [exact Hi'|lia|lia]].
  rewrite Hr. by eexists _, _, _, _.
Qed.

End one.

Context (Hdir : length (dm_tuple uninit_dir) = 60%nat) (Hdir' : Forall entry_ok (dm_tuple uninit_dir)).
Context (Hfile : length (fm_tuple uninit_file) = 20%nat).

Lemma wp_exec (total : limits) n V T r :
  op_ok total r T -> n < total -> inv total n V T 1 ∅ 0 ->
  wp N (exec r) V (stepped total (n + 1) r T).
Proof using HN Hcf Hdir Hdir' Hfile.
  intros Ho Hn Hi1.
  assert (forall me, inv total n V T me ∅ 0) as Hi by (intros me; by eapply inv_quiet).
  pose proof (stay total n V T Hi) as Hsame.
  unfold exec. destruct r; cbn [op_ok path_of parseMessage] in *; try done;
    try (by apply wp_ret, (stepped_intro _ _ _ _ _ _ T 1)).
  - destruct Ho as [Hp Hlen]. apply wp_general.
    eapply wp_conseq; [by eapply (wp_mknod N HN _ now uninit_bool uninit_name)|].
    cbv beta. intros b V' [-> Hi']. by eapply stepped_intro.
  - apply wp_seq. eapply wp_conseq; [by eapply (wp_getattr N HN)|]. cbv beta. intros b V' [-> ->].
    by apply wp_ret, (stepped_intro _ _ _ _ _ _ T 1).
  - apply wp_general. eapply wp_conseq; [by eapply (wp_access N HN)|]. cbv beta. intros b V' [-> ->].
    by apply (stepped_intro _ _ _ _ _ _ T 1).
  - destruct Ho as [Hp Hlen]. apply wp_general. eapply wp_conseq; [by eapply (wp_mkdir N HN)|].
    cbv beta. intros b V' [-> Hi']. by eapply stepped_intro.
  - apply wp_seq. eapply wp_conseq; [by eapply (wp_readdir N HN)|]. cbv beta. intros b V' [-> Hl].
    apply wp_ret, (stepped_intro _ _ _ _ _ _ T 1); [|done]. by exists b.
  - destruct Ho as [Hu Hlen]. apply wp_seq. eapply (wp_read_directory total n V T Hi); [done|done|].
    intros found Hf. apply wp_ret, (stepped_intro _ _ _ _ _ _ T 1); [|done]. by exists found.
  - by eapply wp_data_read.
  - by eapply wp_data_write.
  - destruct Ho as (Hu & Hs & Hcut). apply wp_general. eapply wp_conseq; [by eapply (wp_truncate N HN)|].
    cbv beta. intros b V' (T' & Ht & Hi'). eapply stepped_intro; [|exact Hi']. by exists b.
  - apply wp_seq. eapply wp_conseq; [by eapply (wp_remove N HN)|]. cbv beta. intros b V' [[Hb Hi'] Hf].
    apply wp_ret. eapply stepped_intro; [|exact Hi']. exists b.2. by rewrite Hb.
  - by eapply wp_data_write.
  - by eapply wp_data_read.
Qed.

Lemma wp_execs (total : limits) rs : forall n V T,
  ops_ok total rs T -> n + Z.of_nat (length rs) <= total -> inv total n V T 1 ∅ 0 ->
  wp N (execs rs) V (fun as_ V' => exists T', steps rs T as_ T' /\
    inv total (n + Z.of_nat (length rs)) V' T' 1 ∅ 0).
Proof using HN Hcf Hdir Hdir' Hfile.
  induction rs as [|r rs IH]; intros n V T Hrs Hn Hi; cbn [execs].
  - apply wp_ret. exists T. rewrite Z.add_0_r. split; [constructor|done].
  - destruct Hrs as [Hr Hrs]. cbn [length] in *.
    wp_step wp_conseq; [eapply (wp_exec total n V T r); try done; lia|]. cbv beta.
    intros a V1 (T1 & Hs1 & Hi1).
    wp_step wp_conseq; [eapply (IH (n + 1)); try done; [by eapply Hrs|lia]|]. cbv beta.
    intros as_ V2 (T2 & Hs2 & Hi2). apply wp_ret. exists T2. split; [by econstructor|].
    by replace (n + Z.of_nat (S (length rs))) with (n + 1 + Z.of_nat (length rs)) by lia.
Qed.

End spec.

End FsSpec.

(** * Fresh clusters *)

Module FsBoot.
Import FileSystem Messages Directory FsRep FileBlocks Namespace FsOps FsSpec.

Section boot.
Context (N : Z) (HN : 0 < N < 2 ^ 16).
Variable CalculateDigest : list Z -> HashTable.UniqueHash.
Variables (uninit_word : Z) (uninit_dir : DirectoryMeta).
Local Abbreviation home := (home N CalculateDigest).
Local Abbreviation digest := (digest CalculateDigest).

(** A server as its constructor leaves it, with room for the operations and
    blocks of [total]: that many log entries and files, and one more directory
    for the root. *)
Definition fresh_server (total : limits) (n : Node) : Prop :=
  exists at_ mem blocks_at memBlock countFile countDirectory countBlock h tx base,
    construct uninit_word (Some (at_, mem)) (Some (blocks_at, memBlock))
      countFile countDirectory countBlock N h tx base = Done n /\
    sizes_ok mem memBlock countFile countDirectory countBlock /\
    (forall i, aget mem i = 0) /\ (forall i, aget memBlock i = 0) /\
    TxManager.tx_ok tx /\ TxManager.LocalLogIndex tx = 0 /\
    total <= alen (TxManager.localLog tx) /\ total <= countFile /\ total < countDirectory /\
    max_blocks total <= countBlock <= 4095 /\
    0 <= at_ /\ at_ + alen mem < 2 ^ 64.

Definition fresh_view (c : capacity) : view := mkView ∅ ∅ ∅ ∅ ∅ 0 c.

Definition with_local_node (k : Z) (n : Node) : Node :=
  mkNode (storage n) (txlog n) (lockID n) k (dmfsBase n).

Lemma fresh_server_rep (total : limits) n k :
  fresh_server total n ->
  exists c, node_rep N k (with_local_node k n) (fresh_view c) /\ cap_ok total c.
Proof using HN.
  intros (at_ & mem & bat & memb & cf & cd & cb & h & tx & base & Hc & Hsz & Hz & Hzb & Htx & Hidx
          & Hlog & Hf & Hd & Hb & Hat & Hend).
  unfold construct in Hc. match type of Hc with (if ?b then _ else _) = _ => destruct b; [done|] end.
  destruct (storage_fresh at_ mem bat memb cf cd cb N Hsz ltac:(lia) Hz Hzb)
    as (st & Hst & Hrep & Hn & Hci & Hcf & Hcd & Hcb & Hkeys & Hadr).
  rewrite Hst in Hc. cbn [mbind run_bind] in Hc. injection Hc as <-.
  pose proof (sz_file _ _ _ _ _ Hsz) as [_ Hcf']. pose proof (sz_dir _ _ _ _ _ Hsz) as [_ Hcd'].
  pose proof (sz_mem _ _ _ _ _ Hsz) as Hmem.
  exists (mkCapacity (cd + cf) cf cd cb (alen (TxManager.localLog tx))
            (at_ + (index_size (cd + cf) + table_size 344 cf)) base).
  split; [|unfold cap_ok; simpl; lia]. split; try done; simpl.
  - apply wrap_range. lia.
  - unfold addresses_ok. rewrite Hadr, Hcd. unfold sizeof_DirectoryMeta, table_size in *.
    pose proof (Z.div_pos cd 8 ltac:(lia) ltac:(lia)). pose proof (Z.div_pos cf 8 ltac:(lia) ltac:(lia)).
    assert (0 <= index_size (cd + cf)).
    { unfold index_size. change HashTable.HASH_ITEMS_SIZE with (2 ^ 24).
      pose proof (Z.div_pos (cd + cf) 8 ltac:(lia) ltac:(lia)). unfold HashTable.sizeof_ChainedItem. lia. }
    lia.
Qed.

(** A server after [rootInitialize]. *)
Record booted (total : limits) (k : Z) (v : view) : Prop := mkBooted {
  bo_locks : v_locks v = ∅;
  bo_log : v_log v = 0;
  bo_cap : cap_ok total (v_cap v);
  bo_files : v_files v = ∅;
  bo_blocks : v_blocks v = ∅;
  bo_root : if decide (home [slash] = k)
    then exists idx d, v_paths v = {[digest [slash] := (idx, true)]} /\ v_dirs v = {[idx := d]} /\ holds d []
    else v_paths v = ∅ /\ v_dirs v = ∅
}.

Context (Hdir : length (dm_tuple uninit_dir) = 60%nat) (Hdir' : Forall entry_ok (dm_tuple uninit_dir)).

Lemma boot_one (total : limits) k n (c : Cluster) :
  0 <= total -> fresh_server total n -> c !! k = Some n ->
  exists n' v, rootInitialize CalculateDigest uninit_dir k k c = Done (tt, <[k := n']> c) /\
    node_rep N k n' v /\ booted total k v.
Proof using HN Hdir Hdir'.
  intros Htot Hfresh Hn. destruct (fresh_server_rep total n k Hfresh) as (cap & Hr & Hcap).
  set (n0 := with_local_node k n) in *. unfold rootInitialize.
  assert (c !! k = Some n ->
    at_node k (fun n => Done (tt, mkNode (storage n) (txlog n) (lockID n) k (dmfsBase n))) c =
    Done (tt, <[k := n0]> c)) as Hfirst.
  { intros H. unfold at_node. by rewrite H. }
  unfold mbind at 1, fs_bind at 1. rewrite (Hfirst Hn). clear Hfirst.
  assert (node_of CalculateDigest k [slash] (<[k := n0]> c) = Done (home [slash], <[k := n0]> c)) as Hnode.
  { unfold node_of, at_node. rewrite lookup_insert_eq. unfold getNodeHash. cbn [mbind run_bind].
    rewrite (nr_nodes _ _ _ _ Hr). rewrite insert_insert_eq.
    pose proof (home_range N HN CalculateDigest [slash]) as H. unfold FsRep.home in H |- *.
    by rewrite wrap_small by (unfold in_width; lia). }
  unfold mbind at 1, fs_bind at 1. rewrite Hnode.
  destruct (Z.eqb_spec (home [slash]) k) as [Hk|Hk].
  2: { exists n0, (fresh_view cap). split; [done|]. split; [done|]. split; try done.
       by rewrite decide_False. }
  pose proof (sr_dirs _ _ _ _ _ (nr_storage _ _ _ _ Hr)) as Ht.
  pose proof (sr_paths _ _ _ _ _ (nr_storage _ _ _ _ Hr)) as Hh.
  destruct Hcap as (Hc1 & Hc2 & Hc3 & Hc4 & Hc5).
  destruct (free_slot _ _ Ht) as (idx & rest & Hfree).
  { rewrite (nr_dirs _ _ _ _ Hr). simpl. change (size (∅ : gmap Z DirectoryMeta)) with 0%nat. lia. }
  pose proof (Table.create_spec _ _ (new_dir uninit_dir) Ht) as Hcreate. rewrite Hfree in Hcreate.
  destruct Hcreate as (_ & _ & t' & Hcreate & Htot' & Hadr' & Ht').
  unfold mbind at 1, fs_bind at 1. unfold at_node at 1. rewrite lookup_insert_eq.
  unfold on_dirs. rewrite Hcreate. cbn [mbind run_bind fst snd].
  rewrite insert_insert_eq. set (n1 := with_storage _ n0).
  pose proof (node_rep_dirs N n0 k _ t' _ Hr Ht' Htot' Hadr') as Hr1. fold n1 in Hr1.
  destruct (index_put_spec _ _ (digest [slash]) idx true Hh) as (ht & Hput & Hh' & Hcount & Hkeys).
  assert (put_ok (count (hashtable (storage n0))) (v_paths (fresh_view cap)) (digest [slash]) = true) as Hok.
  { unfold put_ok. rewrite (nr_items _ _ _ _ Hr). simpl.
    change (size (∅ : gmap HashTable.UniqueHash (Z * bool))) with 0%nat. apply Z.ltb_lt. simpl in *. lia. }
  rewrite Hok in Hput, Hh'.
  unfold mbind at 1, fs_bind at 1, at_node at 1. rewrite lookup_insert_eq. unfold on_hashtable.
  change (HashTable.put_path CalculateDigest (hashtable (storage n1)) (Some [slash]) idx true)
    with (HashTable.put (hashtable (storage n0)) (Some (digest [slash])) idx true).
  rewrite Hput. cbn [mbind run_bind fst snd]. rewrite insert_insert_eq.
  eexists _, _. split; [done|]. split; [exact (node_rep_paths N n1 k _ ht _ Hr1 Hh' Hcount Hkeys)|].
  split; try done; simpl. rewrite decide_True by done.
  eexists _, _. split; [done|]. split; [done|]. by apply new_dir_holds.
Qed.

Fixpoint boot (ks : list Z) : fs unit :=
  match ks with
  | [] => mret tt
  | k :: ks => _ ← rootInitialize CalculateDigest uninit_dir k k; boot ks
  end.

Lemma boot_spec (total : limits) ks : forall (c : Cluster),
  0 <= total -> NoDup ks -> (forall k, k ∈ ks -> exists n, c !! k = Some n /\ fresh_server total n) ->
  exists c', boot ks c = Done (tt, c') /\ (forall k, k ∉ ks -> c' !! k = c !! k) /\
    (forall k, k ∈ ks -> exists n v, c' !! k = Some n /\ node_rep N k n v /\ booted total k v).
Proof using HN Hdir Hdir'.
  induction ks as [|k ks IH]; intros c Htot Hnd Hks; cbn [boot].
  - exists c. split; [done|]. split; [done|]. intros k Hk. by apply not_elem_of_nil in Hk.
  - apply NoDup_cons in Hnd as [Hk Hnd]. destruct (Hks k) as (n & Hn & Hfresh); [by left|].
    destruct (boot_one total k n c Htot Hfresh Hn) as (n' & v & Hb & Hr & Hv).
    unfold mbind, fs_bind. rewrite Hb.
    destruct (IH (<[k := n']> c)) as (c' & Hc' & Hother & Hin); [done|done| |].
    { intros j Hj. rewrite lookup_insert_ne by (by intros ->). apply Hks. by right. }
    exists c'. split; [done|]. split.
    + intros j [Hj1 Hj2]%not_elem_of_cons. rewrite Hother by done. by rewrite lookup_insert_ne.
    + intros j [->|Hj]%elem_of_cons; [|by apply Hin]. exists n', v.
      rewrite Hother by done. by rewrite lookup_insert_eq.
Qed.

(** The namespace of a fresh cluster: the root directory, empty. *)
Definition root_tree : tree := {[ [slash] := EDir [] ]}.

(** The views of booted servers, collected in a map. *)
Lemma collect_views (total : limits) (c : Cluster) (ks : list Z) :
  (forall k, k ∈ ks -> exists n v, c !! k = Some n /\ node_rep N k n v /\ booted total k v) ->
  exists V : gmap Z view, (forall k, k ∈ ks -> is_Some (V !! k)) /\
    (forall k v, V !! k = Some v -> k ∈ ks /\ booted total k v /\
       exists n, c !! k = Some n /\ node_rep N k n v).
Proof.
  induction ks as [|k ks IH]; intros Hks.
  - exists ∅. split; [intros k Hk; by apply not_elem_of_nil in Hk|]. intros k v. by rewrite lookup_empty.
  - destruct IH as (V & Hin & Hout); [intros j Hj; apply Hks; by right|].
    destruct (Hks k) as (n & v & Hn & Hr & Hb); [by left|].
    exists (<[k := v]> V). split.
    + intros j [->|Hj]%elem_of_cons; [by rewrite lookup_insert_eq; eexists|].
      apply lookup_insert_is_Some'. right. by apply Hin.
    + intros j w [[<- <-]|[Hne Hw]]%lookup_insert_Some.
      * split; [by left|]. split; [done|]. by exists n.
      * destruct (Hout j w Hw) as (? & ? & ?). split; [by right|done].
Qed.

Lemma booted_inv (total : limits) (c : Cluster) (used : list Z -> Prop) :
  0 <= total -> used [slash] ->
  (forall k, 1 <= k <= N -> exists n v, c !! k = Some n /\ node_rep N k n v /\ booted total k v) ->
  exists V, crep N c V /\ inv N CalculateDigest used total 0 V root_tree 1 ∅ 0.
Proof using HN.
  clear Hdir Hdir'. intros Htot Hused Hks. destruct (collect_views total c (seqZ 1 N)) as (V & Hin & Hout).
  { intros k Hk%elem_of_seqZ. apply Hks. lia. }
  exists V. split; [intros k v Hv; by destruct (Hout k v Hv) as (_ & _ & n & ? & ?); exists n|].
  assert (forall k v, V !! k = Some v -> forall h x, v_paths v !! h = Some x ->
    k = home [slash] /\ h = digest [slash] /\
    exists idx d, x = (idx, true) /\ v_dirs v = {[idx := d]} /\ holds d []) as Honly.
  { intros k v Hv h x Hx. destruct (Hout k v Hv) as (_ & [_ _ _ _ _ Hroot] & _).
    case_decide as Hk.
    - destruct Hroot as (idx & d & Hp & Hd & Hh). rewrite Hp in Hx.
      apply lookup_singleton_Some in Hx as [<- <-]. split; [done|]. split; [done|]. by exists idx, d.
    - destruct Hroot as [Hp _]. by rewrite Hp in Hx. }
  unfold root_tree. split; [split|..].
  - intros k Hk. apply Hin, elem_of_seqZ. lia.
  - intros p e [<- _]%lookup_singleton_Some. done.
  - intros p e [<- <-]%lookup_singleton_Some.
    destruct (Hin (home [slash])) as [v Hv].
    { apply elem_of_seqZ. pose proof (home_range N HN CalculateDigest [slash]). lia. }
    destruct (Hout _ v Hv) as (_ & [_ _ _ _ _ Hroot] & _). rewrite decide_True in Hroot by done.
    destruct Hroot as (idx & d & Hp & Hd & Hh). exists v, idx. split; [done|].
    rewrite Hp. split; [by rewrite lookup_singleton_eq|]. exists d.
    by rewrite Hd, lookup_singleton_eq.
  - intros k v h x Hv Hx. destruct (Honly k v Hv h x Hx) as (-> & -> & _).
    exists [slash], (EDir []). by rewrite lookup_singleton_eq.
  - intros k v h1 h2 x Hv H1 H2. destruct (Honly k v Hv h1 x H1) as (_ & -> & _).
    by destruct (Honly k v Hv h2 x H2) as (_ & -> & _).
  - split.
    + by intros p e [_ <-]%lookup_singleton_Some.
    + intros p e v b [_ <-]%lookup_singleton_Some _ Hb. by apply not_elem_of_nil in Hb.
    + intros p q e e' b [_ <-]%lookup_singleton_Some _ _ Hb. by apply not_elem_of_nil in Hb.
    + intros k v b Hv [x Hx]. destruct (Hout k v Hv) as (_ & [_ _ _ _ Hb _] & _). by rewrite Hb in Hx.
  - intros k v Hv. destruct (Hout k v Hv) as (_ & [Hl _ _ _ _ _] & _). rewrite Hl. by destruct (decide (k = 1)).
  - intros k v Hv. destruct (Hout k v Hv) as (_ & [_ Hlog Hcap Hfiles _ Hroot] & _).
    assert ((if decide (k = 1) then 0 else 0) = 0) as -> by (by destruct (decide (k = 1))).
    assert (size (v_paths v) <= 1 /\ size (v_dirs v) <= 1)%nat as [Hp Hd].
    { case_decide; [destruct Hroot as (idx & d & -> & -> & _)|destruct Hroot as [-> ->]];
        rewrite ?map_size_singleton, ?map_size_empty; lia. }
    split; rewrite ?Hlog, ?Hfiles; try done; try lia.
Qed.

End boot.

(** ** The refinement *)

Section refinement.
Context (N : Z) (HN : 0 < N < 2 ^ 16).
Variable CalculateDigest : list Z -> HashTable.UniqueHash.
Variable ASSERT_false : fs unit.
Variable now : Z.
Variables (uninit_word : Z) (uninit_bool : bool) (uninit_name : list Z)
  (uninit_dir : DirectoryMeta) (uninit_file : FileMeta) (uninit_fpi : file_pos_info).
Context (used : list Z -> Prop) (Hcf : collision_free CalculateDigest used).
Context (Hdir : length (dm_tuple uninit_dir) = 60%nat) (Hdir' : Forall entry_ok (dm_tuple uninit_dir)).
Context (Hfile : length (fm_tuple uninit_file) = 20%nat).

Local Abbreviation boot := (boot CalculateDigest uninit_dir).
Local Abbreviation execs := (execs N CalculateDigest ASSERT_false now uninit_word uninit_bool uninit_name
  uninit_dir uninit_file uninit_fpi).
Local Abbreviation steps := (steps N CalculateDigest now uninit_bool uninit_name uninit_dir uninit_file
  uninit_fpi).
Local Abbreviation ops_ok := (ops_ok N CalculateDigest now uninit_bool uninit_name uninit_dir uninit_file
  uninit_fpi used).

(** A cluster of [N] fresh servers. *)
Definition fresh_cluster (total : limits) (c : Cluster) : Prop :=
  forall k, 1 <= k <= N -> exists n, c !! k = Some n /\ fresh_server N uninit_word total n.

Lemma fresh_cluster_runs (total : limits) c rs :
  0 <= total -> fresh_cluster total c -> used [slash] ->
  Z.of_nat (length rs) <= total -> ops_ok total rs root_tree ->
  exists c1 c2 V as_ T, boot (seqZ 1 N) c = Done (tt, c1) /\ execs rs c1 = Done (as_, c2) /\
    steps rs root_tree as_ T /\ crep N c2 V /\
    inv N CalculateDigest used total (Z.of_nat (length rs)) V T 1 ∅ 0.
Proof using HN Hcf Hdir Hdir' Hfile.
  intros Htot Hfresh Hroot Hlen Hok.
  destruct (boot_spec N HN CalculateDigest uninit_word uninit_dir Hdir Hdir' total (seqZ 1 N) c Htot)
    as (c1 & Hb & _ & Hbooted); [apply NoDup_seqZ|intros k Hk%elem_of_seqZ; apply Hfresh; lia|].
  destruct (booted_inv N HN CalculateDigest total c1 used Htot Hroot) as (V & Hc & Hi).
  { intros k Hk. apply Hbooted, elem_of_seqZ. lia. }
  destruct (wp_execs N HN CalculateDigest ASSERT_false now uninit_word uninit_bool uninit_name uninit_dir
    uninit_file uninit_fpi used Hcf Hdir Hdir' Hfile total rs 0 V root_tree Hok) with (c := c1)
    as (as_ & c2 & V2 & Hrun & Hc2 & T & Hs & Hi2); [lia|done|done|].
  exists c1, c2, V2, as_, T. done.
Qed.

End refinement.

End FsBoot.
