(* ===== verification/OctFsProps.v ===== *)
(** * OctFsProps: correctness of the octopus file system operations

    First what [truncate] of a file (src/sys/octopus/src/fs/filesystem.cpp) keeps,
    then the theorems on whole clusters. *)

From S2P Require Import Prelude.
From S2P Require Import OctBase.
From S2P Require Import OctBitmap.
From S2P Require Import OctTable.
From S2P Require Import OctStorage.
From S2P Require Import OctExtent.
From S2P Require Import OctFileSystem.
From S2P Require Import OctFsRep.
From S2P Require Import OctFileData.
From S2P Require Import OctBlocks.
From S2P Require Import OctHashTable.
From S2P Require Import OctHashProps.
From S2P Require Import OctLock.
From S2P Require Import OctTx.
From S2P Require Import OctMessages.
From S2P Require Import OctDirectory.
From S2P Require Import OctNamespace.
From S2P Require Import OctFsOps.
From S2P Require Import OctDataOps.
From S2P Require Import OctFsSpec.

Open Scope Z_scope.

Module FileDataProps.
Import FileSystem FsRep FileData FileBlocks.

(** What [truncate] releases and what it keeps. The blocks of the file
    behind those that the new size needs are released, and no others. The
    metadata keeps the extents up to and including the one with the last block
    that is kept, and that extent keeps its block count: when the cut is inside
    it, the file goes on naming blocks that are free. *)
Theorem truncate_keeps_freed_blocks h f l1 e l2 size t m :
  file_rep h f (l1 ++ e :: l2) -> Table.trep t m -> NoDup (blocks_of (l1 ++ e :: l2)) ->
  (forall b, b ∈ blocks_of (l1 ++ e :: l2) -> is_Some (m !! b)) ->
  0 <= size < fm_size f -> fm_size f < 2 ^ 63 ->
  (l1 = [] \/ count_blocks l1 < blocks_for size) -> blocks_for size <= count_blocks l1 + countExtentBlock e ->
  exists f' t' m', cut f size t = Done (Some f', t') /\
    fm_size f' = size /\ file_rep h f' (l1 ++ [e]) /\
    gave t t' m m' (drop (Z.to_nat (blocks_for size)) (blocks_of (l1 ++ e :: l2))) /\
    (forall b, b ∈ drop (Z.to_nat (blocks_for size)) (blocks_of (l1 ++ [e])) -> m' !! b = None).
Proof. apply cut_spec. Qed.

(** ** Witnesses: a table of eight blocks *)

Module Example.

Definition zeros (n : Z) : array Z := Arr n (fun _ => 0).

Lemma ex_blocks : exists t : Table.Table Block,
  Table.trep t ∅ /\ Table.total t = 8 /\ Table.headFreeBit t = [0; 1; 2; 3; 4; 5; 6; 7].
Proof.
  assert (Table.buffer_ok (T := Block) (zeros (2 ^ 24)) 8) as Hok
    by (split; [done|vm_compute; intuition congruence]).
  destruct (Table.construct_zeroed (T := Block) 0 _ _ Hok) as (t & Hc & Htot & _ & Ht); [done|].
  destruct (Table.table_construct_spec (T := Block) 0 _ _ Hok) as (t' & Hc' & _ & _ & _ & _ & _ & Hfree & _).
  rewrite Hc in Hc'. injection Hc' as <-. exists t. split; [done|]. split; [done|].
  rewrite Hfree. vm_compute. reflexivity.
Qed.

Lemma take_slot (t : Table.Table Block) m p free :
  Table.trep t m -> Table.headFreeBit t = p :: free ->
  exists t' v, Table.trep t' (<[p := v]> m) /\ Table.headFreeBit t' = free /\ Table.total t' = Table.total t.
Proof.
  intros Ht Hf. pose proof (proj1 (Table.trep_free _ _ Ht p)) as Hp. rewrite Hf in Hp.
  destruct Hp as [Hp _]; [by left|].
  destruct (Bitmap.bitmap_set_spec _ _ p (Table.trep_bitmap _ _ Ht) Hp) as (b & _ & Hb & Htot).
  eexists _, _. split; [by eapply (Table.trep_create t m p free b _ (Table.items t))|done].
Qed.

Definition ex_file (count size : Z) (es : list FileMetaTuple) : FileMeta :=
  mkFileMeta 0 count size (es ++ replicate (20 - length es) (mkExtent 0 0 0)).
Definition ex_fpi : file_pos_info := mkFpi 0 (replicate 10 (mkPos 0 0 0)).

Lemma truncate_keeps_freed_blocks_witness :
  exists t m f' t' m',
    cut (ex_file 1 (3 * BLOCK_SIZE) [mkExtent 1 0 3]) BLOCK_SIZE t = Done (Some f', t') /\
    fm_size f' = BLOCK_SIZE /\ file_rep 1 f' [mkExtent 1 0 3] /\ gave t t' m m' [1; 2] /\
    (forall b, b ∈ [1; 2] -> m' !! b = None).
Proof.
  destruct ex_blocks as (t0 & Ht0 & _ & Hf0).
  destruct (take_slot t0 _ _ _ Ht0 Hf0) as (t1 & v0 & Ht1 & Hf1 & _).
  destruct (take_slot t1 _ _ _ Ht1 Hf1) as (t2 & v1 & Ht2 & Hf2 & _).
  destruct (take_slot t2 _ _ _ Ht2 Hf2) as (t3 & v2 & Ht3 & _ & _).
  exists t3, (<[2 := v2]> (<[1 := v1]> (<[0 := v0]> ∅))).
  apply (truncate_keeps_freed_blocks 1 (ex_file 1 (3 * BLOCK_SIZE) [mkExtent 1 0 3]) [] (mkExtent 1 0 3) []
    BLOCK_SIZE t3).
  - split; [|done|by constructor]. split; [done|]. split; [by eexists|].
    split; [|simpl; lia]. constructor; [|done]. unfold extent_ok. simpl. lia.
  - exact Ht3.
  - apply (bool_decide_unpack _). vm_compute. exact I.
  - intros b Hb. change (blocks_of _) with [0; 1; 2] in Hb. rewrite !elem_of_cons in Hb.
    destruct Hb as [->|[->|[->|Hb%not_elem_of_nil]]]; [by eexists..|done].
  - unfold BLOCK_SIZE. simpl. lia.
  - unfold BLOCK_SIZE. simpl. lia.
  - by left.
  - vm_compute. congruence.
Defined.

End Example.

End FileDataProps.

(** * Clusters *)

Module FsProps.
Import FileSystem FileData Messages Directory FsRep FileBlocks Namespace FsOps DataOps FsSpec FsBoot.

(** ** The tree of paths is consistent *)

Section tree.
Variable uninit_name : list Z.
Variables (now : Z) (uninit_bool : bool) (uninit_file : FileMeta).
Local Abbreviation parent_of := (parent_of uninit_name).
Local Abbreviation name_of := (name_of uninit_name).

Definition proper_name (name : list Z) : Prop := name <> [] /\ slash ∉ name.

(** A path of a name in a directory. *)
Definition proper (p : list Z) : Prop :=
  is_dir (parent_of p) /\ proper_name (name_of p) /\ p = join (parent_of p) (name_of p).

Lemma join_parts d name :
  is_dir d -> proper_name name -> parent_of (join d name) = d /\ name_of (join d name) = name.
Proof.
  intros Hd [Hne Hn]. unfold FileSystem.parent_of, FileSystem.name_of, join.
  destruct (decide (d = [slash])) as [->|Hroot].
  - destruct (split_spec [] name Hn (or_intror Hne)) as [H1 H2]. simpl app in H1, H2.
    by rewrite H1, H2.
  - destruct Hd as [->|[Hd0 _]]; [done|].
    destruct (split_spec d name Hn (or_introl Hd0)) as [-> ->]. by rewrite decide_False.
Qed.

(** Every path but the root is an entry of its directory, every entry of a
    directory is a path, and no name is listed twice. *)
Record consistent (T : tree) : Prop := mkConsistent {
  cs_root : exists es, T !! [slash] = Some (EDir es);
  cs_paths : forall p e, T !! p = Some e -> p = [slash] \/ proper p;
  cs_listed : forall p e, T !! p = Some e -> p <> [slash] ->
    exists es, T !! parent_of p = Some (EDir es) /\ name_of p ∈ es.*1;
  cs_entries : forall d es name, T !! d = Some (EDir es) -> name ∈ es.*1 ->
    proper_name name /\ is_Some (T !! join d name);
  cs_nodup : forall d es, T !! d = Some (EDir es) -> NoDup es.*1
}.

Lemma dir_path T d es : consistent T -> T !! d = Some (EDir es) -> is_dir d.
Proof.
  intros HT Hd. destruct (cs_paths T HT d _ Hd) as [->|(Hp & Hn & ->)]; [by left|]. right.
  unfold join. case_decide.
  - split; [done|]. intros [= Heq]. destruct Hn as [Hn _]. by rewrite Heq in Hn.
  - destruct (parent_of d) as [|x r]; simpl; [by destruct Hp as [|[]]|].
    split; [done|]. intros [= _ Heq]. by destruct r.
Qed.

Lemma join_ne_root d name : proper_name name -> join d name <> [slash].
Proof.
  intros [Hne _]. unfold join. case_decide; [by intros [= ->]|].
  intros Heq. apply (f_equal length) in Heq. rewrite length_app in Heq. simpl in Heq.
  destruct name; simpl in Heq; [done|lia].
Qed.

Lemma consistent_root : consistent root_tree.
Proof.
  unfold root_tree. split.
  - exists []. by rewrite lookup_singleton_eq.
  - intros p e [<- _]%lookup_singleton_Some. by left.
  - intros p e [<- _]%lookup_singleton_Some. done.
  - intros d es name [_ [= <-]]%lookup_singleton_Some Hn. by apply not_elem_of_nil in Hn.
  - intros d es [_ [= <-]]%lookup_singleton_Some. constructor.
Qed.

Lemma proper_ne_root p : proper p -> p <> [slash].
Proof. intros (_ & Hn & ->). by apply join_ne_root. Qed.

(** A change of path [p] and of its directory [q]: the new entries of [q] are
    the other entries and, when [p] is a path afterwards, its name. *)
Section change.
Context (T T' : tree) (p q : list Z) (es es' : list listed).
Hypothesis (HT : consistent T) (Hp : proper p) (Hqp : q = parent_of p) (Hne : q <> p).
Hypothesis (Hq : T !! q = Some (EDir es)) (Hq' : T' !! q = Some (EDir es')).
Hypothesis (Hother : forall x, x <> p -> x <> q -> T' !! x = T !! x).
Hypothesis (Hes : forall x, x ∈ es'.*1 <->
  (x ∈ es.*1 /\ x <> name_of p) \/ (x = name_of p /\ is_Some (T' !! p))).
Hypothesis (Hnd : NoDup es'.*1).
Hypothesis (Hleaf : forall fs, T !! p = Some (EDir fs) \/ T' !! p = Some (EDir fs) -> fs = []).

(** A path of the new tree: [p], [q], or a path of the old tree. *)
Lemma change_back x y :
  T' !! x = Some y -> (x = p) \/ (x = q /\ y = EDir es') \/ (x <> p /\ x <> q /\ T !! x = Some y).
Proof using Hother Hq'.
  intros Hx. destruct (decide (x = p)); [by left|]. destruct (decide (x = q)) as [->|]; right.
  - left. split; [done|]. congruence.
  - right. by rewrite <- Hother.
Qed.

(** A directory with an entry stays one, and keeps its other entries. *)
Lemma change_dir d fs x :
  T !! d = Some (EDir fs) -> x ∈ fs.*1 -> join d x <> p ->
  exists fs', T' !! d = Some (EDir fs') /\ x ∈ fs'.*1.
Proof using HT Hp Hqp Hq Hq' Hother Hes Hleaf.
  intros Hd Hx Hj. destruct (decide (d = p)) as [->|Hdp].
  { rewrite (Hleaf fs) in Hx by by left. by apply not_elem_of_nil in Hx. }
  destruct (decide (d = q)) as [->|Hdq].
  - rewrite Hq in Hd. injection Hd as <-. exists es'. split; [done|]. apply Hes. left. split; [done|]. intros ->.
    apply Hj. rewrite Hqp. symmetry. apply Hp.
  - exists fs. by rewrite Hother.
Qed.

(** The other paths stay. *)
Lemma change_path x : x <> p -> is_Some (T !! x) -> is_Some (T' !! x).
Proof using Hother Hq'.
  intros Hx. destruct (decide (x = q)) as [->|Hxq]; [by rewrite Hq'|]. by rewrite Hother.
Qed.

Lemma change_consistent : consistent T'.
Proof using HT Hp Hqp Hne Hq Hq' Hother Hes Hnd Hleaf.
  pose proof (proper_ne_root p Hp) as Hpr. split.
  - destruct (cs_root T HT) as [rs Hrs]. destruct (decide ([slash] = q)) as [->|Hr]; [by eexists|].
    exists rs. by rewrite Hother.
  - intros x y [->|[[-> _]|(_ & _ & Hx)]]%change_back; [by right| |]; by eapply (cs_paths T HT).
  - intros x y Hx Hroot.
    assert (x <> p -> exists z, T !! x = Some z) as Hold.
    { intros Hxp. destruct (change_back x y Hx) as [|[[-> _]|(_ & _ & Hx')]]; [done|by eexists|by eexists]. }
    destruct (decide (x = p)) as [->|Hxp].
    { exists es'. rewrite <- Hqp. split; [done|]. apply Hes. right. by rewrite Hx. }
    destruct (Hold Hxp) as [z Hz]. destruct (cs_listed T HT x z Hz Hroot) as (ps & Hps & Hin).
    destruct (cs_paths T HT x z Hz) as [|(_ & _ & Hj)]; [done|].
    apply (change_dir _ ps); [done|done|by rewrite <- Hj].
  - intros d fs x Hd Hx. destruct (change_back d _ Hd) as [->|[[-> Heq]|(_ & Hdq & Hd')]].
    + rewrite (Hleaf fs) in Hx by by right. by apply not_elem_of_nil in Hx.
    + injection Heq as ->. apply Hes in Hx as [[Hx Hxn]|[-> Hs]].
      * destruct (cs_entries T HT _ _ _ Hq Hx) as [Hpn Hs]. split; [done|]. apply change_path; [|done].
        intros Heq. apply Hxn. rewrite <- Heq. symmetry. apply join_parts; [|done].
        by eapply dir_path.
      * destruct Hp as (_ & Hn & Hj). split; [done|]. by rewrite Hqp, <- Hj.
    + destruct (cs_entries T HT _ _ _ Hd' Hx) as [Hpn Hs]. split; [done|]. apply change_path; [|done].
      intros Heq. apply Hdq. rewrite Hqp, <- Heq. symmetry. apply join_parts; [|done].
      by eapply dir_path.
  - intros d fs Hd. destruct (change_back d _ Hd) as [->|[[-> Heq]|(_ & _ & Hd')]].
    + rewrite (Hleaf fs) by by right. constructor.
    + by injection Heq as ->.
    + by eapply (cs_nodup T HT).
Qed.

End change.

Lemma consistent_make T p es dir e :
  consistent T -> proper p -> T !! parent_of p = Some (EDir es) -> T !! p = None ->
  parent_of p <> p -> (forall fs, e = EDir fs -> fs = []) ->
  consistent (<[p := e]> (<[parent_of p := EDir (es ++ [(name_of p, dir)])]> T)).
Proof.
  intros HT Hp Hq Hno Hne He.
  assert (name_of p ∉ es.*1) as Hnl.
  { intros Hin. destruct (cs_entries T HT _ es _ Hq Hin) as [_ [x Hx]].
    destruct Hp as (_ & _ & Hj). rewrite <- Hj in Hx. congruence. }
  eapply (change_consistent T _ p (parent_of p) es (es ++ [(name_of p, dir)])); try done.
  - rewrite lookup_insert_ne by done. by rewrite lookup_insert_eq.
  - intros x Hx Hxq. by rewrite !lookup_insert_ne by done.
  - intros x. rewrite fmap_app, elem_of_app, lookup_insert_eq. simpl. rewrite list_elem_of_singleton.
    split.
    + intros [Hx| ->]; [left; split; [done|by intros ->]|right; split; [done|by eexists]].
    + intros [[? _]|[-> _]]; auto.
  - rewrite fmap_app. apply NoDup_app. split; [by apply (cs_nodup T HT _ _ Hq)|].
    split; [|apply NoDup_singleton]. intros x Hx Hx'%list_elem_of_singleton. by subst x.
  - intros fs. rewrite Hno, lookup_insert_eq. intros [|[= ->]]; [done|]. by apply He.
Qed.

Lemma consistent_remove T p es e :
  consistent T -> proper p -> T !! parent_of p = Some (EDir es) -> T !! p = Some e ->
  parent_of p <> p -> (forall fs, e = EDir fs -> fs = []) ->
  consistent (delete p (<[parent_of p := EDir (filter (fun x => x.1 <> name_of p) es)]> T)).
Proof.
  intros HT Hp Hq Hpe Hne He.
  eapply (change_consistent T _ p (parent_of p) es (filter (fun x => x.1 <> name_of p) es)); try done.
  - rewrite lookup_delete_ne by done. by rewrite lookup_insert_eq.
  - intros x Hx Hxq. by rewrite lookup_delete_ne, lookup_insert_ne by done.
  - intros x. rewrite lookup_delete_eq. split.
    + intros (y & -> & [Hy Hin]%list_elem_of_filter)%list_elem_of_fmap. left. split; [|done].
      apply list_elem_of_fmap. by exists y.
    + intros [[(y & -> & Hy)%list_elem_of_fmap Hyn]|[_ [? ?]]]; [|done].
      apply list_elem_of_fmap. exists y. split; [done|]. by apply list_elem_of_filter.
  - eapply (sublist_NoDup _ (es.*1)); [by apply (cs_nodup T HT _ _ Hq)|].
    apply fmap_sublist, sublist_filter.
  - intros fs. rewrite lookup_delete_eq. intros [Hfs|]; [|done]. apply He. congruence.
Qed.

(** The path whose entry in its directory a request may change. *)
Definition changes (r : Request) : option (list Z) :=
  match r with MESSAGE_MKDIR p | MESSAGE_MKNOD p | MESSAGE_REMOVE p => Some p | _ => None end.

(** The metadata of a file changes. *)
Lemma consistent_file T p f f' :
  consistent T -> T !! p = Some (EFile f) -> consistent (<[p := EFile f']> T).
Proof.
  intros [[rs Hroot] Hpaths Hlisted Hentries Hnd] Hp.
  assert (forall q es, T !! q = Some (EDir es) <-> <[p := EFile f']> T !! q = Some (EDir es)) as Hdir.
  { intros q es. destruct (decide (p = q)) as [<-|Hne]; [rewrite lookup_insert_eq; naive_solver|].
    by rewrite lookup_insert_ne. }
  assert (forall q, is_Some (<[p := EFile f']> T !! q) <-> is_Some (T !! q)) as Hsome.
  { intros q. rewrite lookup_insert_is_Some'. split; [|by right]. intros [<-|H]; [by eexists|done]. }
  split.
  - exists rs. by apply Hdir.
  - intros q e Hq. destruct (proj1 (Hsome q)) as [x Hx]; [by eexists|]. by eapply Hpaths.
  - intros q e Hq Hne. destruct (proj1 (Hsome q)) as [x Hx]; [by eexists|].
    destruct (Hlisted q x Hx Hne) as (es & Hes & Hin). exists es. split; [by apply Hdir|done].
  - intros d es name Hd%Hdir Hin. rewrite Hsome. by eapply Hentries.
  - intros d es Hd%Hdir. by eapply Hnd.
Qed.

Section steps.
Context (N : Z).
Variable CalculateDigest : list Z -> HashTable.UniqueHash.
Variables (uninit_dir : DirectoryMeta) (uninit_fpi : file_pos_info).
Local Abbreviation step := (step N CalculateDigest now uninit_bool uninit_name uninit_dir uninit_file
  uninit_fpi).
Local Abbreviation steps := (steps N CalculateDigest now uninit_bool uninit_name uninit_dir uninit_file
  uninit_fpi).

Lemma writes_file p size offset T ok fpi T' :
  writes N CalculateDigest uninit_fpi p size offset T ok fpi T' ->
  T' = T \/ exists f f', T !! p = Some (EFile f) /\ T' = <[p := EFile f']> T.
Proof.
  unfold writes. intros Hw. destruct (T !! p) as [[f|es]|]; [|left; by destruct Hw as (_ & _ & ->)..].
  destruct (size =? 0); [left; by destruct Hw as (_ & _ & ->)|right]. destruct Hw as (_ & f' & -> & _).
  by exists f, f'.
Qed.

Lemma truncates_file p size T ok T' :
  truncates p size T ok T' ->
  T' = T \/ exists f f', T !! p = Some (EFile f) /\ T' = <[p := EFile f']> T.
Proof.
  unfold truncates. intros Hw. destruct (T !! p) as [[f|es]|]; [|left; by destruct Hw as (_ & ->)..].
  destruct (fm_size f <=? size); [left; by destruct Hw as (_ & ->)|right].
  destruct Hw as (_ & f' & -> & _). by exists f, f'.
Qed.

(** What a step does to the tree: an operation on names, or a new version of
    the file of the request. *)
Inductive effect (r : Request) (T T' : tree) : Prop :=
| effect_none : T' = T -> effect r T T'
| effect_mkdir p : r = MESSAGE_MKDIR p -> T' = (spec_mkdir uninit_name p T).2 -> effect r T T'
| effect_mknod p : r = MESSAGE_MKNOD p ->
    T' = (spec_mknod now uninit_bool uninit_name uninit_file p T).2 -> effect r T T'
| effect_remove p : r = MESSAGE_REMOVE p -> T' = (spec_remove uninit_name p T).2 -> effect r T T'
| effect_file f f' : T !! path_of r = Some (EFile f) -> T' = <[path_of r := EFile f']> T -> effect r T T'.

Lemma step_effect r T a T' : step r T a T' -> effect r T T'.
Proof.
  intros Hs. destruct r; cbn [FsSpec.step] in Hs; try done;
    try (by eapply effect_none; destruct_and?; naive_solver).
  - destruct Hs as [_ ->]. by eapply effect_mknod.
  - destruct Hs as [_ ->]. by eapply effect_mkdir.
  - destruct Hs as (ok & fpi & o & key & _ & [->|(f & f' & Hf & ->)]%writes_file);
      [by apply effect_none|by eapply effect_file].
  - destruct Hs as (ok & _ & [->|(f & f' & Hf & ->)]%truncates_file);
      [by apply effect_none|by eapply effect_file].
  - destruct Hs as (f & _ & _ & ->). by eapply effect_remove.
  - destruct Hs as (ok & fpi & o & key & _ & [->|(f & f' & Hf & ->)]%writes_file);
      [by apply effect_none|by eapply effect_file].
Qed.

Lemma consistent_step r T a T' :
  consistent T -> (forall p, changes r = Some p -> proper p /\ parent_of p <> p) ->
  step r T a T' -> consistent T'.
Proof.
  intros HT Hr [->|p -> ->|p -> ->|p -> ->|f f' Hf ->]%step_effect; [done|..];
    try (destruct (Hr p eq_refl) as [Hp Hne]).
  - unfold spec_mkdir, spec_make. destruct (T !! parent_of p) as [[f|es]|] eqn:Hq; try done.
    destruct (T !! p) eqn:Hpe; [done|]. apply consistent_make; try done. by intros fs [= <-].
  - unfold spec_mknod, spec_make. destruct (T !! parent_of p) as [[f|es]|] eqn:Hq; try done.
    destruct (T !! p) eqn:Hpe; [done|]. by apply consistent_make.
  - unfold spec_remove. destruct (T !! p) as [[f|[|x fs]]|] eqn:Hpe; try done;
      (destruct (T !! parent_of p) as [[f'|es]|] eqn:Hq; try done); eapply consistent_remove; try done.
    by intros ? [= <-].
  - by eapply consistent_file.
Qed.

Lemma consistent_steps rs T as_ T' :
  steps rs T as_ T' -> consistent T ->
  (forall r p, r ∈ rs -> changes r = Some p -> proper p /\ parent_of p <> p) -> consistent T'.
Proof.
  induction 1 as [|r rs T a T1 as_ T2 Hs _ IH]; intros HT Hrs; [done|]. apply IH.
  - eapply consistent_step; [done| |done]. intros p. apply Hrs. by left.
  - intros r' p Hr'. apply Hrs. by right.
Qed.

(** A file stays as it is while no request is about it. *)
Lemma file_stays r T a T' p f :
  step r T a T' -> path_of r <> p -> T !! p = Some (EFile f) -> T' !! p = Some (EFile f).
Proof.
  intros [->|q -> ->|q -> ->|q -> ->|g g' _ ->]%step_effect Hne Hp; [done|..]; simpl in Hne.
  - unfold spec_mkdir, spec_make. destruct (T !! parent_of q) as [[g|es]|] eqn:Hq; try done.
    destruct (T !! q) eqn:Hqe; [done|]. simpl. rewrite !lookup_insert_ne; [done| |done]. congruence.
  - unfold spec_mknod, spec_make. destruct (T !! parent_of q) as [[g|es]|] eqn:Hq; try done.
    destruct (T !! q) eqn:Hqe; [done|]. simpl. rewrite !lookup_insert_ne; [done| |done]. congruence.
  - unfold spec_remove. destruct (T !! q) as [[g|[|x fs]]|] eqn:Hqe; try done;
      (destruct (T !! parent_of q) as [[g'|es]|] eqn:Hq; try done); simpl;
      rewrite lookup_delete_ne, lookup_insert_ne; [done| |done|done| |done]; congruence.
  - by rewrite lookup_insert_ne.
Qed.

Lemma file_stays_steps rs T as_ T' p f :
  steps rs T as_ T' -> (forall r, r ∈ rs -> path_of r <> p) -> T !! p = Some (EFile f) ->
  T' !! p = Some (EFile f).
Proof.
  induction 1 as [|r rs T a T1 as_ T2 Hs _ IH]; intros Hrs Hp; [done|]. apply IH.
  - intros r' Hr'. apply Hrs. by right.
  - eapply file_stays; [exact Hs|apply Hrs; by left|done].
Qed.

Lemma steps_app rs1 rs2 T as_ T2 :
  steps (rs1 ++ rs2) T as_ T2 ->
  exists as1 as2 T1, as_ = as1 ++ as2 /\ length as1 = length rs1 /\ steps rs1 T as1 T1 /\ steps rs2 T1 as2 T2.
Proof.
  revert T as_. induction rs1 as [|r rs1 IH]; intros T as_ Hs.
  - exists [], as_, T. split; [done|]. split; [done|]. split; [constructor|done].
  - inversion Hs as [|? ? ? a T1 as' ? Hr Hrs]; subst.
    destruct (IH _ _ Hrs) as (as1 & as2 & T3 & -> & Hl & H1 & H2).
    exists (a :: as1), as2, T3. split; [done|]. split; [simpl; lia|]. split; [by econstructor|done].
Qed.

(** A range that has been written is read back from the same place. *)
Lemma written_read p size offset T fpi T1 T2 ok' fpi' :
  range_ok size offset ->
  writes N CalculateDigest uninit_fpi p size offset T true fpi T1 ->
  (forall f, T1 !! p = Some (EFile f) -> T2 !! p = Some (EFile f)) ->
  reads uninit_fpi p size offset T2 ok' fpi' -> ok' = true /\ fpi' = fpi.
Proof.
  intros (Hs & Ho & Hend) Hw Hsame Hr. unfold writes in Hw.
  destruct (T !! p) as [[f|es]|]; [|by destruct Hw as (? & _)..].
  destruct (Z.eqb_spec size 0) as [H0|H0]; [by destruct Hw as (? & _)|].
  destruct Hw as (_ & f' & -> & new & _ & _ & _ & Hsize & _ & Hfill).
  unfold reads in Hr. rewrite (Hsame f') in Hr by apply lookup_insert_eq. destruct Hr as [-> Hr].
  split; [done|]. rewrite (proj2 (Z.leb_gt _ _)) in Hr by lia.
  rewrite Z.min_l in Hr by lia. congruence.
Qed.

End steps.

End tree.

(** ** Refinement *)

Section refinement.
Context (N : Z) (HN : 0 < N < 2 ^ 16).
Variable CalculateDigest : list Z -> HashTable.UniqueHash.
Variable ASSERT_false : fs unit.
Variable now : Z.
Variables (uninit_word : Z) (uninit_bool : bool) (uninit_name : list Z)
  (uninit_dir : DirectoryMeta) (uninit_file : FileMeta) (uninit_fpi : file_pos_info).
Context (used : list Z -> Prop) (Hcf : collision_free CalculateDigest used).
Context (Hdir : length (dm_tuple uninit_dir) = 60%nat) (Hdir' : Forall entry_ok (dm_tuple uninit_dir)).
Context (Hfile : length (fm_tuple uninit_file) = 20%nat).

Local Abbreviation home := (home N CalculateDigest).
Local Abbreviation parent_of := (parent_of uninit_name).
Local Abbreviation boot := (boot CalculateDigest uninit_dir).
Local Abbreviation exec := (exec N CalculateDigest ASSERT_false now uninit_word uninit_bool uninit_name
  uninit_dir uninit_file uninit_fpi).
Local Abbreviation execs := (execs N CalculateDigest ASSERT_false now uninit_word uninit_bool uninit_name
  uninit_dir uninit_file uninit_fpi).
Local Abbreviation steps := (steps N CalculateDigest now uninit_bool uninit_name uninit_dir uninit_file
  uninit_fpi).
Local Abbreviation ops_ok := (ops_ok N CalculateDigest now uninit_bool uninit_name uninit_dir uninit_file
  uninit_fpi used).
Local Abbreviation fresh_cluster := (fresh_cluster N uninit_word).
Local Abbreviation placed := (placed N CalculateDigest uninit_name used).
Local Abbreviation runs := (fresh_cluster_runs N HN CalculateDigest ASSERT_false now uninit_word uninit_bool
  uninit_name uninit_dir uninit_file uninit_fpi used Hcf Hdir Hdir' Hfile).

(** C5: The requests of clients to a cluster refine a file system with a tree of
    paths. In a cluster of [N] servers constructed over zeroed buffers, where
    each has initialised the root directory, a sequence of requests that
    satisfies [ops_ok], each handled by the server that the digest of its path
    names and one at a time, returns (no handler blocks, exits or has undefined
    behaviour) and is answered as the abstract file system answers it: [mkdir]
    and [mknod] need an existing directory and a new path, [remove] an existing
    path that is not a directory with entries, a write appends blocks that no
    other file has. [ops_ok] admits [access], [getattr], [readdir], [mkdir],
    [mknod], [remove], reads, writes and truncations, but not [rmdir], [rename],
    [mknodWithMeta], the release of blocks or the two-phase operations; and of
    these only requests whose paths have no digest collision, whose names and
    paths fit, that do not share a lock word with their directory (so not a
    [mkdir] of the root), that add to a directory with fewer than 60 entries,
    that leave a file with at most 10 extents and find free blocks for it, that
    ask for ranges below 2^63 (reads not empty) whose positions fit the message, and
    truncations that cut nothing or end with the last block of an extent and
    not at 0. There are at most [total] requests, for which the logs and tables
    have room. *)
Theorem cluster_refines_tree (total : limits) c rs :
  0 <= total -> fresh_cluster total c -> used [slash] ->
  Z.of_nat (length rs) <= total -> ops_ok total rs root_tree ->
  exists c1 c2 as_ T, boot (seqZ 1 N) c = Done (tt, c1) /\ execs rs c1 = Done (as_, c2) /\
    steps rs root_tree as_ T.
Proof using HN Hcf Hdir Hdir' Hfile.
  intros Htot Hc Hr Hlen Hok. destruct (runs total c rs Htot Hc Hr Hlen Hok) as (c1 & c2 & V & as_ & T & H).
  exists c1, c2, as_, T. tauto.
Qed.

Lemma ops_ok_placed (total : limits) rs T as_ T' :
  steps rs T as_ T' -> ops_ok total rs T -> forall r p, r ∈ rs -> changes r = Some p -> placed p.
Proof.
  induction 1 as [|r rs T a T1 as_ T2 Hs _ IH]; intros Hok r' p Hin Hr; [by apply not_elem_of_nil in Hin|].
  destruct Hok as [Hop Hok]. apply elem_of_cons in Hin as [->|Hin]; [|by eapply IH; [by eapply Hok|..]].
  destruct r; simplify_eq/=; try done; by destruct Hop.
Qed.

(** C17: Files do not share blocks, and no block is lost. After a sequence of
    requests that satisfies [ops_ok] on a fresh cluster (the requests and
    conditions of [ops_ok]: in particular no truncation inside an extent or to
    0, after which a file goes on naming blocks it has released), the blocks in
    use on a server are exactly the blocks of the files whose paths it keeps; a
    block belongs to one file, and a file names it once. *)
Theorem files_own_blocks (total : limits) c rs :
  0 <= total -> fresh_cluster total c -> used [slash] ->
  Z.of_nat (length rs) <= total -> ops_ok total rs root_tree ->
  exists c1 c2 as_ T V, boot (seqZ 1 N) c = Done (tt, c1) /\ execs rs c1 = Done (as_, c2) /\
    steps rs root_tree as_ T /\ crep N c2 V /\
    (forall k, 1 <= k <= N -> exists v, V !! k = Some v /\
       forall b, is_Some (v_blocks v !! b) <->
         exists p f, T !! p = Some (EFile f) /\ home p = k /\ b ∈ file_blocks f) /\
    (forall p f, T !! p = Some (EFile f) -> NoDup (file_blocks f)) /\
    (forall p q f g b, T !! p = Some (EFile f) -> T !! q = Some (EFile g) -> home p = home q ->
       b ∈ file_blocks f -> b ∈ file_blocks g -> p = q).
Proof using HN Hcf Hdir Hdir' Hfile.
  intros Htot Hc Hr Hlen Hok.
  destruct (runs total c rs Htot Hc Hr Hlen Hok) as (c1 & c2 & V & as_ & T & Hb & He & Hs & Hrep & Hi).
  exists c1, c2, as_, T, V. do 4 (split; [done|]).
  pose proof (ns_blocks _ _ _ _ _ (in_names _ _ _ _ _ _ _ _ _ _ Hi)) as HB. split; [|split].
  - intros k Hk. destruct (node_view _ _ _ _ _ _ _ _ _ _ k Hi Hk) as [v Hv]. exists v. split; [done|].
    intros b. rewrite <- elem_of_dom, (inv_blocks_at _ _ _ _ _ _ _ _ _ _ _ _ Hi Hv), elem_of_blocks_at. split.
    + intros (p & [f|es] & Hp & Hh & Hbe); [by exists p, f|by apply not_elem_of_nil in Hbe].
    + intros (p & f & Hp & Hh & Hbe). by exists p, (EFile f).
  - intros p f Hp. apply (so_nodup _ _ (bl_sound _ _ _ _ HB p (EFile f) Hp)).
  - intros p q f g b Hp Hq Hh Hbf Hbg. by apply (bl_apart _ _ _ _ HB p q (EFile f) (EFile g) b).
Qed.

(** C18: Data stays where it was written. When a write is answered with the
    positions of its range, a later read of the range is answered with the same
    positions, whatever was asked in between for other paths: files created,
    written, truncated or removed, on the same server or on others. *)
Theorem data_stays_in_place (total : limits) c rs1 p size offset rs2 :
  let rs := rs1 ++ MESSAGE_EXTENTWRITE p size offset :: rs2 ++ [MESSAGE_EXTENTREAD p size offset] in
  0 <= total -> fresh_cluster total c -> used [slash] -> Z.of_nat (length rs) <= total ->
  ops_ok total rs root_tree -> range_ok size offset -> (forall r, r ∈ rs2 -> path_of r <> p) ->
  exists c1 c2 as_, boot (seqZ 1 N) c = Done (tt, c1) /\ execs rs c1 = Done (as_, c2) /\
    forall fpi o key, as_ !! length rs1 = Some (ExtentReceive true fpi o key) ->
      exists o' key', last as_ = Some (ExtentReceive true fpi o' key').
Proof using HN Hcf Hdir Hdir' Hfile.
  intros rs Htot Hc Hr Hlen Hok Hrange Hrs2.
  destruct (runs total c rs Htot Hc Hr Hlen Hok) as (c1 & c2 & V & as_ & T & Hb & He & Hs & _ & _).
  exists c1, c2, as_. do 2 (split; [done|]). intros fpi o key Hw. unfold rs in Hs.
  apply steps_app in Hs as (as1 & as2 & T1 & -> & Hl1 & _ & Hs).
  inversion Hs as [|? ? ? a T2 as3 ? Hwrite Hs2]; subst.
  apply steps_app in Hs2 as (as4 & as5 & T3 & -> & _ & Hmid & Hs3).
  inversion Hs3 as [|? ? ? a' T4 as6 ? Hread Hs4]; subst. inversion Hs4; subst.
  rewrite lookup_app_r, Hl1, Nat.sub_diag in Hw by lia. injection Hw as ->.
  destruct Hwrite as (ok & fpi0 & o0 & key0 & [= <- <- <- <-] & Hwrite).
  destruct Hread as (ok' & fpi' & o' & key' & -> & Hread & _).
  destruct (written_read N CalculateDigest uninit_fpi p size offset T1 fpi T2 T3 ok' fpi') as [-> ->];
    [done|done| |done|].
  - intros f Hf. by eapply file_stays_steps.
  - exists o', key'. change (?x :: ?y ++ [?z]) with ((x :: y) ++ [z]). by rewrite app_assoc, last_snoc.
Qed.

(** C19: Listings and paths agree. After a sequence of requests that satisfies
    [ops_ok] on a fresh cluster ([mkdir], [mknod], [remove], reads, writes,
    truncations and queries under its conditions; [rmdir], [rename] and the
    two-phase operations are not among them, and [rmdir] does not keep this),
    with paths whose names are proper, if [readdir] of a directory returns a
    list then [access] finds the path of a name in that directory exactly when
    the list has the name: the entry that the server of the directory keeps
    and the item that the server of the path keeps are created and removed
    together, also when they are different servers. *)
Theorem listing_agrees (total : limits) c rs d name :
  0 <= total -> fresh_cluster total c -> used [slash] -> Z.of_nat (length rs) < total ->
  ops_ok total rs root_tree -> (forall r p, r ∈ rs -> changes r = Some p -> proper uninit_name p) ->
  used d -> used (join d name) -> proper_name name ->
  exists c1 c2 as_, boot (seqZ 1 N) c = Done (tt, c1) /\ execs rs c1 = Done (as_, c2) /\
    forall dm c3, exec (MESSAGE_READDIR d) c2 = Done (ReadDirectoryReceive true dm, c3) ->
      exists es c4, holds dm es /\ exec (MESSAGE_ACCESS (join d name)) c2 =
        Done (GeneralReceive (bool_decide (name ∈ es.*1)), c4).
Proof using HN Hcf Hdir Hdir' Hfile.
  intros Htot Hc Hr Hlen Hok Hprop Hd Hj Hn.
  destruct (runs total c rs Htot Hc Hr ltac:(lia) Hok) as (c1 & c2 & V & as_ & T & Hb & He & Hs & Hrep & Hi).
  exists c1, c2, as_. split; [done|]. split; [done|].
  assert (consistent uninit_name T) as HT.
  { eapply consistent_steps; [exact Hs|apply consistent_root|]. intros r p Hin Hp.
    split; [by eapply Hprop|]. eapply placed_ne. by eapply ops_ok_placed. }
  pose proof (fun r Ho => wp_exec N HN CalculateDigest ASSERT_false now uninit_word uninit_bool uninit_name
    uninit_dir uninit_file uninit_fpi used Hcf Hdir Hdir' Hfile total _ V T r Ho Hlen Hi c2 Hrep) as Hexec.
  intros dm c3 Hread.
  destruct (Hexec (MESSAGE_READDIR d) Hd) as (a & c4 & V3 & Hread' & _ & T3 & Hst & _).
  rewrite Hread in Hread'. injection Hread' as <- <-. destruct Hst as ([b o] & [= <- ->] & Hl & _).
  unfold lists in Hl. destruct (T !! d) as [[f|es]|] eqn:HTd; try done. destruct Hl as (dd & [= ->] & Hh).
  exists es. destruct (Hexec (MESSAGE_ACCESS (join d name)) Hj) as (a & c4 & V4 & Ha & _ & T4 & Hst & _).
  destruct Hst as [-> _]. exists c4. split; [done|]. rewrite Ha. do 3 f_equal. apply bool_decide_ext. split.
  - intros [e Hje]. destruct (cs_listed _ T HT _ e Hje) as (ps & Hps & Hin); [by apply join_ne_root|].
    destruct (join_parts uninit_name d name) as [Hpar Hnm]; [by eapply dir_path|done|].
    rewrite Hpar in Hps. rewrite Hnm in Hin. by simplify_eq.
  - intros Hin. by apply (cs_entries _ T HT d es name).
Qed.

End refinement.

(** ** Calls that do not return *)

Section stops.
Context (N : Z) (HN : 0 < N < 2 ^ 16).
Variable CalculateDigest : list Z -> HashTable.UniqueHash.
Variable ASSERT_false : fs unit.
Variables (uninit_name : list Z) (uninit_dir : DirectoryMeta).
Context (used : list Z -> Prop) (Hcf : collision_free CalculateDigest used).

Local Abbreviation home := (home N CalculateDigest).
Local Abbreviation address_of := (address_of CalculateDigest).
Local Abbreviation parent_of := (parent_of uninit_name).
Local Abbreviation placed := (placed N CalculateDigest uninit_name used).

(** From every cluster with the views [V] the call has outcome [r]. *)
Definition stops {A} (m : fs A) (V : gmap Z view) (r : run (A * Cluster)) : Prop :=
  forall c, crep N c V -> m c = r.

(** The outcomes other than a return. *)
Inductive stuck : Type := SBlocked | SUndef.
Definition outcome {A} (s : stuck) : run A := match s with SBlocked => Blocked | SUndef => Undef end.

Lemma stops_bind {A B} (m : fs A) (f : A -> fs B) V s :
  stops m V (outcome s) -> stops (m ≫= f) V (outcome s).
Proof. intros Hm c Hc. unfold mbind, fs_bind. rewrite (Hm c Hc). by destruct s. Qed.

Lemma stops_after {A B} (m : fs A) (f : A -> fs B) V s :
  wp N m V (fun a V' => stops (f a) V' (outcome s)) -> stops (m ≫= f) V (outcome s).
Proof.
  intros Hm c Hc. destruct (Hm c Hc) as (a & c' & V' & Hr & Hc' & Hf).
  unfold mbind, fs_bind. rewrite Hr. auto.
Qed.

(** A reader waits for a writer. *)
Lemma stops_lock_read me addr key V v :
  V !! me = Some v -> v_locks v !! addr = Some key -> LockService.is_key key -> in_table addr ->
  stops (at_node me (lockReadHashItem addr)) V Blocked.
Proof.
  intros Hv Hl Hkey Ha c Hc. destruct (Hc me v Hv) as (n & Hn & Hr).
  unfold at_node. rewrite Hn. unfold lockReadHashItem.
  rewrite (lock_word_spec N n me v addr Hr Ha), Hl. cbn [mbind run_bind from_option id].
  unfold LockService.read_begin. cbn [fst].
  pose proof (LockService.high_of_key key 0 Hkey ltac:(lia)) as Hh. rewrite Z.add_0_r in Hh.
  by rewrite (proj2 (Z.eqb_neq _ _) Hh).
Qed.

(** The body of [mkdir] and [mknod] when path and directory share a lock word. *)
Lemma make_stops p dir create key V v :
  home (parent_of p) = home p -> address_of (parent_of p) = address_of p ->
  V !! home p = Some v -> v_locks v !! address_of p = Some key -> LockService.is_key key ->
  v_log v < c_log (v_cap v) ->
  stops (make CalculateDigest uninit_name (home p) p dir create) V Blocked.
Proof using HN.
  intros Hh Ha Hv Hl Hkey Hlog. change (@Blocked (bool * Cluster)) with (@outcome (bool * Cluster) SBlocked).
  unfold make. apply stops_after. eapply wp_TxLocalBegin; [exact Hv|done|].
  apply stops_bind. unfold read_parent. cbn [readDirectoryMeta].
  set (v1 := set_log (v_log v + 1) v). set (V1 := <[home p := v1]> V).
  assert (V1 !! home p = Some v1) as Hv1 by apply lookup_insert_eq.
  apply stops_after. eapply wp_node_of; [exact HN|exact Hv1|].
  apply stops_after. eapply wp_checkLocal; [exact Hv1|]. rewrite Hh, Z.eqb_refl.
  unfold readDirectoryMeta_local. apply stops_bind. rewrite Ha.
  eapply stops_lock_read; [exact Hv1|exact Hl|exact Hkey|apply getAddressHash_range].
Qed.

(** The frame of [mkdir] and [mknod] around a body that stops. *)
Lemma on_path_stops p (body : Z -> list Z -> fs bool) V v s :
  V !! home p = Some v -> v_locks v !! address_of p = None ->
  (forall key, LockService.is_key key ->
     stops (body (home p) p) (<[home p := set_locks (<[address_of p := key]> (v_locks v)) v]> V) (outcome s)) ->
  stops (on_path CalculateDigest (home p) (Some p) false body) V (outcome s).
Proof using HN.
  intros Hv Hfree Hbody. cbn [on_path].
  apply stops_after. eapply wp_node_of; [exact HN|exact Hv|].
  apply stops_after. eapply wp_checkLocal; [exact Hv|]. rewrite Z.eqb_refl.
  pose proof (home_range N HN CalculateDigest p).
  apply stops_after. eapply wp_lock_write; [exact Hv|done|apply getAddressHash_range|lia|].
  intros key Hkey. apply stops_bind. by apply Hbody.
Qed.

(** C37: [mkdir] never returns when the directory of the path has the same lock
    word as the path: it takes the word for writing and then waits for it as a
    reader. This is so for ["/"], whose directory is itself, and for every
    path whose digest agrees with that of its directory in the 20 bits of the
    bucket, on the same server. *)
Theorem mkdir_waits_for_itself p V v c :
  home (parent_of p) = home p -> address_of (parent_of p) = address_of p ->
  crep N c V -> V !! home p = Some v -> v_locks v !! address_of p = None ->
  v_log v < c_log (v_cap v) ->
  mkdir CalculateDigest ASSERT_false uninit_name uninit_dir (home p) (Some p) c = Blocked.
Proof using HN.
  intros Hh Ha Hc Hv Hfree Hlog. apply (on_path_stops p _ V v SBlocked Hv Hfree); [|done].
  intros key Hkey. eapply make_stops; [done|done|apply lookup_insert_eq| |exact Hkey|done].
  simpl. by rewrite lookup_insert_eq.
Qed.

(** Entry 61 is outside the array. *)
Lemma append_entry_full d es name dir :
  holds d es -> length es = 60%nat -> append_entry d name dir = Undef.
Proof.
  intros Hd Hlen. unfold append_entry. rewrite (ho_count _ _ Hd), Hlen.
  change (u64 (u64 (Z.of_nat 60 + 1) - 1)) with 60. unfold list_index. simpl (0 <=? 60). cbv iota.
  rewrite lookup_ge_None_2; [done|]. rewrite (ho_tuple _ _ Hd). simpl. lia.
Qed.

(** A directory with 60 entries has no room, and nobody notices: [mkdir]
    in it writes behind the array of entries. The count is not compared with
    [MAX_DIRECTORY_COUNT]. *)
Theorem full_directory_overflows (total : limits) n V T p c es :
  inv N CalculateDigest used total n V T (home p) ∅ 0 -> crep N c V -> placed p -> n < total ->
  T !! parent_of p = Some (EDir es) -> length es = 60%nat -> T !! p = None ->
  mkdir CalculateDigest ASSERT_false uninit_name uninit_dir (home p) (Some p) c = Undef.
Proof using HN Hcf.
  intros Hi Hc Hp Hn Hq Hlen Hno. destruct (home_view N HN _ _ _ _ _ _ _ _ _ p Hi) as [v Hv].
  pose proof (inv_locks _ _ _ _ _ _ _ _ _ _ _ Hi Hv) as HL.
  apply (on_path_stops p _ V v SUndef Hv); [by rewrite HL| |done]. intros key _. rewrite HL.
  assert (inv N CalculateDigest used total n (<[home p := set_locks (<[address_of p := key]> ∅) v]> V) T
    (home p) {[address_of p := key]} 0) as Hi0 by by eapply inv_set_locks.
  set (V0 := <[home p := _]> V) in *.
  destruct (home_view N HN _ _ _ _ _ _ _ _ _ p Hi0) as [v0 Hv0].
  pose proof (inv_room _ _ _ _ _ _ _ _ _ _ _ Hi0 Hv0) as Hr.
  pose proof (ro_cap _ _ _ _ Hr) as (Hlog & _). pose proof (ro_log _ _ _ _ Hr).
  unfold make. apply stops_after. eapply wp_TxLocalBegin; [exact Hv0|lia|].
  pose proof (inv_begin _ _ _ _ _ _ _ _ _ _ Hi0 Hv0) as Hi1.
  destruct (home_view N HN _ _ _ _ _ _ _ _ _ p Hi1) as [v1 Hv1].
  apply stops_after. eapply (wp_parent N HN); [exact Hcf|exact Hp|exact Hi1|exact Hv1|]. intros w Hw.
  rewrite Hq. intros idx d Hx Hd Hh. apply stops_bind, stops_after.
  eapply (wp_lookup N); [exact Hcf|by eapply pl_used|exact Hi1|exact Hv1|]. rewrite Hno. intros _.
  apply stops_bind. intros c' _. unfold pure. by rewrite (append_entry_full d es).
Qed.

End stops.

(** ** Witnesses: a cluster of one server *)

Module Example.

Definition ex_file : FileMeta := mkFileMeta 0 0 0 (replicate 20 (mkExtent 0 0 0)).
Definition ex_dir : DirectoryMeta := mkDirectoryMeta 0 (replicate 60 (mkEntry (replicate 50 0) false)).

Definition ex_fpi : file_pos_info := mkFpi 0 (replicate 10 (mkPos 0 0 0)).
(** 62 operations, 8 blocks. *)
Definition ex_limits : limits := mkLimits 62 8.

Lemma ex_dir_ok : Forall entry_ok (dm_tuple ex_dir).
Proof. apply Forall_replicate. done. Qed.

(** Zeroed buffers for 64 files and 64 directories, and a log of 64 entries. *)
Definition ex_tx : TxManager.TxManager :=
  TxManager.construct 4096 1048576 (Arr 64 (fun _ => TxManager.mkLocal 0 false [] false))
    (Arr 64 (fun _ => TxManager.mkDistributed 0 false false false)).
Definition zeros (n : Z) : array Z := Arr n (fun _ => 0).

Lemma ex_cluster : exists c, fresh_cluster 1 0 ex_limits c.
Proof.
  assert (sizes_ok (zeros (2 ^ 25)) (zeros (2 ^ 24)) 64 64 8) as Hsz.
  { split; vm_compute; intuition congruence. }
  destruct (storage_fresh 0 (zeros (2 ^ 25)) 0 (zeros (2 ^ 24)) 64 64 8 1 Hsz) as (st & Hst & _);
    [done|done|done|].
  exists {[1 := mkNode st ex_tx (u16 0) 0 0]}. intros k Hk. assert (k = 1) as -> by lia.
  eexists. split; [apply lookup_singleton_eq|].
  exists 0, (zeros (2 ^ 25)), 0, (zeros (2 ^ 24)), 64, 64, 8, 1, ex_tx, 0.
  split; [|split; [done|]].
  - unfold construct. change ((_ =? 0) || _ || _ || _ || _ || _) with false. cbv iota.
    by rewrite Hst.
  - do 2 (split; [done|]). split; [split; vm_compute; intuition congruence|].
    vm_compute. intuition congruence.
Qed.

(** The root, ["/a"] and ["/a/b"]. *)
Definition ex_used (p : list Z) : Prop := p ∈ [[47]; [47; 97]; [47; 97; 47; 98]].

Lemma ex_cf : collision_free length_digest ex_used.
Proof.
  intros p q Hp Hq. unfold ex_used in *. rewrite !elem_of_cons in Hp, Hq.
  destruct Hp as [->|[->|[->|Hp%not_elem_of_nil]]]; [..|done];
    destruct Hq as [->|[->|[->|Hq%not_elem_of_nil]]]; try done.
Qed.

Lemma ex_placed p : p = [47; 97] \/ p = [47; 97; 47; 98] -> placed 1 length_digest [] ex_used p.
Proof.
  intros [->| ->]; split; try (unfold ex_used; vm_compute; set_solver); try (vm_compute; done);
    try (right; vm_compute; done).
  all: split; [set_solver|vm_compute; done].
Qed.

Lemma ex_proper p : p = [47; 97] \/ p = [47; 97; 47; 98] -> proper [] p.
Proof.
  intros [->| ->]; (split; [vm_compute; auto|split; [split; [done|vm_compute; set_solver]|done]]).
  right. done.
Qed.

Local Abbreviation dir_a := [47; 97] (only parsing).
Local Abbreviation file_b := [47; 97; 47; 98] (only parsing).
Local Abbreviation exs := (execs 1 length_digest exits 0 0 false [] ex_dir ex_file ex_fpi).
Local Abbreviation ex1 := (exec 1 length_digest exits 0 0 false [] ex_dir ex_file ex_fpi).
Local Abbreviation st := (step 1 length_digest 0 false [] ex_dir ex_file ex_fpi).
Local Abbreviation sts := (steps 1 length_digest 0 false [] ex_dir ex_file ex_fpi).
Local Abbreviation oks := (ops_ok 1 length_digest 0 false [] ex_dir ex_file ex_fpi).

(** The tree with the directory, and with the directory and an empty file. *)
Definition ex_tree1 : tree := (spec_mkdir [] dir_a root_tree).2.
Definition ex_tree2 : tree := (spec_mknod 0 false [] ex_file file_b ex_tree1).2.

Lemma ex_setup rest :
  oks ex_used ex_limits rest ex_tree2 ->
  oks ex_used ex_limits (MESSAGE_MKDIR dir_a :: MESSAGE_MKNOD file_b :: rest) root_tree.
Proof.
  intros Hrest. split; [|intros a T [_ ->]; split; [|intros a' T' [_ ->]; exact Hrest]];
    (split; [apply ex_placed; tauto|]); intros es Hes; vm_compute in Hes; simplify_eq; simpl; lia.
Qed.

Lemma ex_write_ok : op_ok 1 length_digest [] ex_fpi ex_used ex_limits (MESSAGE_EXTENTWRITE file_b 100 0) ex_tree2.
Proof.
  split; [unfold ex_used; set_solver|]. split; [unfold range_ok; lia|]. intros f Hf.
  assert (f = new_file 0 ex_file) as -> by (vm_compute in Hf |- *; congruence).
  split; [vm_compute; lia|]. split; [vm_compute; lia|]. vm_compute. congruence.
Qed.

(** The tree after a write of 100 bytes. *)
Lemma ex_written a T :
  st (MESSAGE_EXTENTWRITE file_b 100 0) ex_tree2 a T ->
  exists f, T !! file_b = Some (EFile f) /\ fm_size f = 100 /\ (length (extents f) <= 1)%nat.
Proof.
  intros (ok & fpi & o & key & _ & Hw). unfold writes in Hw.
  assert (ex_tree2 !! file_b = Some (EFile (new_file 0 ex_file))) as Hf by (vm_compute; reflexivity).
  rewrite Hf in Hw. destruct Hw as (_ & f' & -> & new & _ & Hn & _ & Hsize & Hlen & _).
  exists f'. split; [apply lookup_insert_eq|]. split; [exact Hsize|].
  rewrite Hn in Hlen. change (extra_blocks (new_file 0 ex_file) 100 0) with 1%nat in Hlen.
  change (length (extents (new_file 0 ex_file))) with 0%nat in Hlen. lia.
Qed.

Lemma ex_read_ok T f :
  T !! file_b = Some (EFile f) -> (length (extents f) <= 1)%nat ->
  op_ok 1 length_digest [] ex_fpi ex_used ex_limits (MESSAGE_EXTENTREAD file_b 100 0) T.
Proof.
  intros Hf Hlen. split; [unfold ex_used; set_solver|]. split; [lia|]. split; [unfold range_ok; lia|].
  intros g Hg. rewrite Hf in Hg. injection Hg as <-. simpl. lia.
Qed.

Definition ex_rs : list Request :=
  [MESSAGE_MKDIR dir_a; MESSAGE_MKNOD file_b; MESSAGE_EXTENTWRITE file_b 100 0;
   MESSAGE_EXTENTREAD file_b 100 0; MESSAGE_TRUNCATE file_b 200; MESSAGE_READDIR dir_a;
   MESSAGE_REMOVE dir_a; MESSAGE_REMOVE file_b; MESSAGE_REMOVE dir_a; MESSAGE_ACCESS dir_a].

Lemma ex_rs_ok : oks ex_used ex_limits ex_rs root_tree.
Proof.
  apply ex_setup. split; [apply ex_write_ok|]. intros a T (f & Hf & Hsize & Hlen)%ex_written.
  split; [by apply (ex_read_ok T f)|]. intros a1 T1 (ok & fpi & o & key & _ & _ & ->).
  split.
  { split; [unfold ex_used; set_solver|]. split; [lia|]. intros g Hg. rewrite Hf in Hg.
    injection Hg as <-. left. lia. }
  intros a2 T2 _. split; [unfold ex_used; set_solver|]. intros a3 T3 _.
  split; [apply ex_placed; tauto|]. intros a4 T4 _. split; [apply ex_placed; tauto|]. intros a5 T5 _.
  split; [apply ex_placed; tauto|]. intros a6 T6 _. split; [unfold ex_used; set_solver|]. done.
Qed.

Lemma ex_root : ex_used [slash].
Proof. unfold ex_used. set_solver. Qed.

Lemma cluster_refines_tree_witness :
  exists c c1 c2 as_ T, boot length_digest ex_dir (seqZ 1 1) c = Done (tt, c1) /\
    exs ex_rs c1 = Done (as_, c2) /\ sts ex_rs root_tree as_ T.
Proof.
  destruct ex_cluster as [c Hc]. exists c.
  apply (cluster_refines_tree 1 ltac:(lia) length_digest exits 0 0 false [] ex_dir ex_file ex_fpi ex_used ex_cf
    eq_refl ex_dir_ok eq_refl ex_limits c ex_rs ltac:(done) Hc ex_root ltac:(simpl; lia) ex_rs_ok).
Defined.

Lemma files_own_blocks_witness :
  exists c c1 c2 as_ T V, boot length_digest ex_dir (seqZ 1 1) c = Done (tt, c1) /\
    exs (take 3 ex_rs) c1 = Done (as_, c2) /\ sts (take 3 ex_rs) root_tree as_ T /\ crep 1 c2 V /\
    (forall k, 1 <= k <= 1 -> exists v, V !! k = Some v /\
       forall b, is_Some (v_blocks v !! b) <->
         exists p f, T !! p = Some (EFile f) /\ home 1 length_digest p = k /\ b ∈ file_blocks f) /\
    (forall p f, T !! p = Some (EFile f) -> NoDup (file_blocks f)) /\
    (forall p q f g b, T !! p = Some (EFile f) -> T !! q = Some (EFile g) ->
       home 1 length_digest p = home 1 length_digest q -> b ∈ file_blocks f -> b ∈ file_blocks g -> p = q).
Proof.
  destruct ex_cluster as [c Hc]. exists c.
  apply (files_own_blocks 1 ltac:(lia) length_digest exits 0 0 false [] ex_dir ex_file ex_fpi ex_used ex_cf
    eq_refl ex_dir_ok eq_refl ex_limits c (take 3 ex_rs) ltac:(done) Hc ex_root ltac:(simpl; lia)).
  apply ex_setup. split; [apply ex_write_ok|]. done.
Defined.

Lemma data_stays_in_place_witness :
  exists c c1 c2 as_, boot length_digest ex_dir (seqZ 1 1) c = Done (tt, c1) /\
    exs [MESSAGE_MKDIR dir_a; MESSAGE_MKNOD file_b; MESSAGE_EXTENTWRITE file_b 100 0;
         MESSAGE_REMOVE dir_a; MESSAGE_EXTENTREAD file_b 100 0] c1 = Done (as_, c2) /\
    forall fpi o key, as_ !! 2%nat = Some (ExtentReceive true fpi o key) ->
      exists o' key', last as_ = Some (ExtentReceive true fpi o' key').
Proof.
  destruct ex_cluster as [c Hc]. exists c.
  apply (data_stays_in_place 1 ltac:(lia) length_digest exits 0 0 false [] ex_dir ex_file ex_fpi ex_used ex_cf
    eq_refl ex_dir_ok eq_refl ex_limits c [MESSAGE_MKDIR dir_a; MESSAGE_MKNOD file_b] file_b 100 0
    [MESSAGE_REMOVE dir_a] ltac:(done) Hc ex_root ltac:(simpl; lia)).
  - apply ex_setup. split; [apply ex_write_ok|]. intros a T (f & Hf & Hsize & Hlen)%ex_written.
    split; [apply ex_placed; tauto|]. intros a1 T1 Hs. split; [|done].
    apply (ex_read_ok T1 f); [|done]. by eapply (file_stays [] 0 false ex_file 1); [exact Hs|done|].
  - unfold range_ok. lia.
  - intros r Hr%list_elem_of_singleton. subst r. done.
Defined.

Lemma listing_agrees_witness :
  exists c c1 c2 as_, boot length_digest ex_dir (seqZ 1 1) c = Done (tt, c1) /\
    exs [MESSAGE_MKDIR dir_a; MESSAGE_MKNOD file_b] c1 = Done (as_, c2) /\
    forall dm c3, ex1 (MESSAGE_READDIR dir_a) c2 = Done (ReadDirectoryReceive true dm, c3) ->
      exists es c4, holds dm es /\ ex1 (MESSAGE_ACCESS file_b) c2 =
        Done (GeneralReceive (bool_decide ([98] ∈ es.*1)), c4).
Proof.
  destruct ex_cluster as [c Hc]. exists c.
  apply (listing_agrees 1 ltac:(lia) length_digest exits 0 0 false [] ex_dir ex_file ex_fpi ex_used ex_cf
    eq_refl ex_dir_ok eq_refl ex_limits c [MESSAGE_MKDIR dir_a; MESSAGE_MKNOD file_b] dir_a [98]
    ltac:(done) Hc ex_root).
  - simpl. lia.
  - by apply ex_setup.
  - intros r p Hr Hp. apply ex_proper. rewrite !elem_of_cons in Hr.
    destruct Hr as [->|[->|Hr%not_elem_of_nil]]; [injection Hp as <-; auto..|done].
  - unfold ex_used. set_solver.
  - unfold ex_used. vm_compute. set_solver.
  - split; [done|vm_compute; set_solver].
Defined.

(** The cluster after some requests. *)
Lemma ex_state used rs :
  collision_free length_digest used -> used [slash] -> (length rs <= 62)%nat ->
  oks used ex_limits rs root_tree ->
  exists c V as_ T, crep 1 c V /\ sts rs root_tree as_ T /\
    inv 1 length_digest used ex_limits (Z.of_nat (length rs)) V T 1 ∅ 0.
Proof.
  intros Hcf Hr Hlen Hok. destruct ex_cluster as [c Hc].
  destruct (fresh_cluster_runs 1 ltac:(lia) length_digest exits 0 0 false [] ex_dir ex_file ex_fpi used Hcf
    eq_refl ex_dir_ok eq_refl ex_limits c rs ltac:(done) Hc Hr ltac:(simpl; lia) Hok)
    as (c1 & c2 & V & as_ & T & _ & _ & Hs & Hc2 & Hi).
  by exists c2, V, as_, T.
Qed.

Lemma mkdir_waits_for_itself_witness :
  exists c, mkdir length_digest exits [] ex_dir 1 (Some [47]) c = Blocked.
Proof.
  destruct (ex_state ex_used [] ex_cf ex_root) as (c & V & as_ & T & Hc & _ & Hi); [simpl; lia|done|].
  destruct (home_view 1 ltac:(lia) _ _ _ _ _ _ _ _ _ [47] Hi) as [v Hv].
  pose proof (inv_locks _ _ _ _ _ _ _ _ _ _ _ Hi Hv) as HL.
  pose proof (inv_room _ _ _ _ _ _ _ _ _ _ _ Hi Hv) as Hr.
  exists c. apply (mkdir_waits_for_itself 1 ltac:(lia) length_digest exits [] ex_dir [47] V v c);
    [reflexivity|reflexivity|exact Hc|exact Hv|rewrite HL; apply lookup_empty|].
  destruct (ro_cap _ _ _ _ Hr) as (H & _). pose proof (ro_log _ _ _ _ Hr). simpl in *. lia.
Defined.

(** Files ["/k"] in the root, for bytes [k]. *)
Definition many_used (p : list Z) : Prop := p = [47] \/ exists k, 100 <= k < 200 /\ p = [47; k].

Lemma many_cf : collision_free length_digest many_used.
Proof.
  intros p q [->|(k & Hk & ->)] [->|(j & Hj & ->)]; try done.
  unfold digest, HashTable.getUniqueHash, length_digest. simpl. intros [=]. f_equal. f_equal. lia.
Qed.

Lemma many_parts k : 100 <= k < 200 -> parent_of [] [47; k] = [47] /\ name_of [] [47; k] = [k].
Proof.
  intros Hk. apply (join_parts [] [slash] [k]); [by left|]. split; [done|].
  unfold slash. intros H%list_elem_of_singleton. lia.
Qed.

Lemma many_placed k : 100 <= k < 200 -> placed 1 length_digest [] many_used [47; k].
Proof.
  intros Hk. destruct (many_parts k Hk) as [Hp Hn]. split; rewrite ?Hp, ?Hn.
  - right. by exists k.
  - by left.
  - split; [|simpl; unfold MAX_FILE_NAME_LENGTH; lia]. intros H%list_elem_of_singleton. lia.
  - simpl. unfold MAX_PATH_LENGTH. lia.
  - right. done.
Qed.

Lemma many_ops ks : forall T es,
  Forall (fun k => 100 <= k < 200) ks -> NoDup ks -> T !! [47] = Some (EDir es) ->
  (length es + length ks <= 60)%nat -> (forall k, k ∈ ks -> T !! [47; k] = None) ->
  let rs := map (fun k => MESSAGE_MKNOD [47; k]) ks in
  oks many_used ex_limits rs T /\
  (forall as_ T', sts rs T as_ T' ->
     (exists es', T' !! [47] = Some (EDir es') /\ length es' = (length es + length ks)%nat) /\
     (forall k, k ∉ ks -> T' !! [47; k] = T !! [47; k])).
Proof.
  induction ks as [|k ks IH]; intros T es Hks Hnd HT Hlen Hno; cbn [map].
  { split; [done|]. intros as_ T' Hs. inversion Hs; subst. split; [|done]. exists es. simpl.
    split; [done|lia]. }
  apply Forall_cons in Hks as [Hk Hks]. apply NoDup_cons in Hnd as [Hnk Hnd]. simpl in Hlen.
  destruct (many_parts k Hk) as [Hp Hn].
  assert (forall a T', st (MESSAGE_MKNOD [47; k]) T a T' ->
    T' = <[[47; k] := EFile (new_file 0 ex_file)]> (<[[47] := EDir (es ++ [([k], false)])]> T)) as Hstep.
  { intros a T' [_ ->]. unfold spec_mknod, spec_make. by rewrite Hp, Hn, HT, Hno by by left. }
  set (T1 := <[[47; k] := _]> _) in Hstep.
  destruct (IH T1 (es ++ [([k], false)]) Hks Hnd) as (Hok & Hres).
  - unfold T1. rewrite lookup_insert_ne by done. apply lookup_insert_eq.
  - rewrite length_app. simpl. lia.
  - intros j Hj. unfold T1. rewrite !lookup_insert_ne; [apply Hno; by right|done|]. intros [= ->]. done.
  - split; [split|].
    + split; [by apply many_placed|]. rewrite Hp, HT. intros es0 [= <-]. lia.
    + intros a T' ->%Hstep. exact Hok.
    + intros as_ T' Hs. inversion Hs as [|? ? ? a T0 as' ? Hfirst Hrest]; subst.
      apply Hstep in Hfirst as ->. destruct (Hres _ _ Hrest) as [(es' & He' & Hl') Hoth]. split.
      * exists es'. split; [done|]. rewrite Hl', length_app. simpl. lia.
      * intros j [Hjk Hj]%not_elem_of_cons. rewrite Hoth by done. unfold T1.
        rewrite !lookup_insert_ne; [done|done|]. by intros [= ->].
Qed.

Lemma full_directory_overflows_witness :
  exists c, mkdir length_digest exits [] ex_dir 1 (Some [47; 180]) c = Undef.
Proof.
  destruct (many_ops (seqZ 100 60) root_tree []) as (Hok & Hres).
  { apply Forall_forall. intros k Hk%elem_of_seqZ. lia. }
  { apply NoDup_seqZ. }
  { reflexivity. }
  { rewrite length_seqZ. simpl. lia. }
  { intros k _. unfold root_tree. by apply lookup_singleton_ne. }
  destruct (ex_state many_used (map (fun k => MESSAGE_MKNOD [47; k]) (seqZ 100 60)) many_cf)
    as (c & V & as_ & T & Hc & Hs & Hi); [by left|rewrite length_map, length_seqZ; lia|exact Hok|].
  rewrite length_map, length_seqZ in Hi. destruct (Hres _ _ Hs) as [(es & Hes & Hlen) Hother].
  exists c. eapply (full_directory_overflows 1 ltac:(lia) length_digest exits [] ex_dir many_used many_cf
    ex_limits 60 V T [47; 180] c es).
  - exact Hi.
  - exact Hc.
  - apply many_placed. lia.
  - simpl. lia.
  - exact Hes.
  - rewrite Hlen, length_seqZ. reflexivity.
  - rewrite Hother; [reflexivity|]. rewrite elem_of_seqZ. lia.
Defined.

End Example.

End FsProps.
