(* ===== verification/KvBucket.v ===== *)
(** * KvBucket: keys, values and buckets of the DPU key-value store

    levelkv/src/common/type.hpp and level_hashing.hpp. A [GenericType<N>] is
    the list of its [N] bytes; a bucket has [ASSOC_NUM] slots, each with a token
    that says whether it is in use. The methods that take [bool &dirty_flag]
    return the flag's new value. *)

From stdpp Require Import gmap.
From S2P Require Import Prelude.
From S2P Require Import StringHash.

(** ** GenericType *)

Module GenericType.

(** [GenericType<N>(std::string)]: zero-padded; a longer string throws
    [std::overflow_error]. *)
Definition construct (N : nat) (str : list Z) : option (list Z) :=
  if (N <? length str)%nat then None
  else Some (memcpy (replicate N 0) str (length str)).

(** The decimal digits that [operator<<] writes for an unsigned integer, at
    most [fuel] of them. *)
Fixpoint digits (fuel : nat) (n : Z) (acc : list Z) : list Z :=
  match fuel with
  | O => acc
  | S fuel => let acc := (48 + n mod 10) :: acc in
              if n <? 10 then acc else digits fuel (n / 10) acc
  end.

(** [ConvertToString] of a [size_t], which has at most 20 digits. *)
Definition ConvertToString (n : Z) : list Z := digits 20 n [].

(** [strnlen] bounds the search for the terminator by [N]. *)
Definition ToString (data : list Z) : list Z := cstr data.

Definition Hash (data : list Z) (seed : Z) : Z :=
  StringHash.hash_ 0 data (Z.of_nat (length data)) seed.

Lemma construct_length N str d : construct N str = Some d -> length d = N.
Proof.
  unfold construct, memcpy. case_match eqn:E; [done|]. intros [= <-].
  apply Nat.ltb_ge in E.
  rewrite length_app, length_take, length_drop, length_replicate. lia.
Qed.

End GenericType.

(** [FixedKey] and [FixedValue]. *)
Definition FixedKey_len : nat := 16.
Definition FixedValue_len : nat := 15.

(** ** Buckets *)

Definition ASSOC_NUM : nat := 4.

Record Entry := mkEntry { key_ : list Z; value_ : list Z }.

Record LevelBucket := mkBucket { token_ : list Z; slots_ : list Entry }.

#[export] Instance Entry_inhabited : Inhabited Entry := populate (mkEntry [] []).
#[export] Instance LevelBucket_inhabited : Inhabited LevelBucket := populate (mkBucket [] []).
#[export] Instance Entry_eq_dec : EqDecision Entry.
Proof. solve_decision. Defined.
#[export] Instance LevelBucket_eq_dec : EqDecision LevelBucket.
Proof. solve_decision. Defined.

(** [sizeof(FixedBucket)]; the structures are packed. *)
Definition sizeof_FixedBucket : Z := 128.

(** A bucket after [memset(b, 0, sizeof(FixedBucket))]. *)
Definition zero_bucket : LevelBucket :=
  mkBucket (replicate ASSOC_NUM 0)
    (replicate ASSOC_NUM (mkEntry (replicate FixedKey_len 0) (replicate FixedValue_len 0))).

Definition token_at (b : LevelBucket) (i : nat) : Z := default 0 (token_ b !! i).
Definition slot_at (b : LevelBucket) (i : nat) : Entry := slots_ b !!! i.

(** [token_[i] = t] *)
Definition set_token (b : LevelBucket) (i : nat) (t : Z) : LevelBucket :=
  mkBucket (<[i := t]> (token_ b)) (slots_ b).

(** [assert] is compiled in: the build does not define [NDEBUG]. *)
Definition SetSlot (b : LevelBucket) (slot_number : nat) (key value : list Z) : option LevelBucket :=
  if (slot_number <? ASSOC_NUM)%nat then
    Some (mkBucket (<[slot_number := 1]> (token_ b)) (<[slot_number := mkEntry key value]> (slots_ b)))
  else None.

(** The slot of a key: the condition of the loops of [SearchSlot],
    [DeleteSlot] and [UpdateSlot]. *)
Definition find_slot (b : LevelBucket) (key : list Z) : option nat :=
  for_first (upto ASSOC_NUM) (fun i =>
    if (token_at b i =? 1) && bool_decide (key_ (slot_at b i) = key) then Some i else None).

Definition SearchSlot (b : LevelBucket) (key : list Z) : option (list Z) :=
  i ← find_slot b key; Some (value_ (slot_at b i)).

Definition DeleteSlot (b : LevelBucket) (key : list Z) (dirty_flag : bool)
  : bool * LevelBucket * bool :=
  match find_slot b key with
  | Some i => (true, set_token b i 0, true)
  | None => (false, b, dirty_flag)
  end.

Definition free_slot (b : LevelBucket) : option nat :=
  for_first (upto ASSOC_NUM) (fun i => if token_at b i =? 0 then Some i else None).

Definition InsertSlot (b : LevelBucket) (key value : list Z) (dirty_flag : bool)
  : bool * LevelBucket * bool :=
  match free_slot b with
  | Some i => (true, mkBucket (<[i := 1]> (token_ b)) (<[i := mkEntry key value]> (slots_ b)), true)
  | None => (false, b, dirty_flag)
  end.

Definition UpdateSlot (b : LevelBucket) (key value : list Z) (dirty_flag : bool)
  : bool * LevelBucket * bool :=
  match find_slot b key with
  | Some i =>
      if bool_decide (value_ (slot_at b i) = value) then (true, b, dirty_flag)
      else (true, mkBucket (token_ b) (<[i := mkEntry (key_ (slot_at b i)) value]> (slots_ b)), true)
  | None => (false, b, dirty_flag)
  end.

Definition Count (b : LevelBucket) : nat :=
  length (filter (fun i => token_at b i = 1) (upto ASSOC_NUM)).

(** ** What a bucket holds *)

Definition wf_bucket (b : LevelBucket) : Prop :=
  length (token_ b) = ASSOC_NUM /\ length (slots_ b) = ASSOC_NUM /\
  Forall (fun t => t = 0 \/ t = 1) (token_ b).

(** The pairs in the used slots. *)
Definition entries (b : LevelBucket) : list (list Z * list Z) :=
  zip (token_ b) (slots_ b) ≫= fun '(t, e) => if t =? 1 then [(key_ e, value_ e)] else [].

Lemma wf_bucket_cases b :
  wf_bucket b -> exists t0 t1 t2 t3 e0 e1 e2 e3,
  b = mkBucket [t0; t1; t2; t3] [e0; e1; e2; e3] /\
  (t0 = 0 \/ t0 = 1) /\ (t1 = 0 \/ t1 = 1) /\ (t2 = 0 \/ t2 = 1) /\ (t3 = 0 \/ t3 = 1).
Proof.
  destruct b as [ts es]. intros (Ht & He & Hb). simpl in *.
  destruct ts as [|t0 [|t1 [|t2 [|t3 [|]]]]]; try done.
  destruct es as [|e0 [|e1 [|e2 [|e3 [|]]]]]; try done.
  rewrite !Forall_cons in Hb. destruct Hb as (?&?&?&?&_).
  by exists t0, t1, t2, t3, e0, e1, e2, e3.
Qed.

(** Case analysis on the four tokens of a well-formed bucket. *)
Ltac bucket_cases H :=
  let Hb := fresh in
  apply wf_bucket_cases in H as (? & ? & ? & ? & [? ?] & [? ?] & [? ?] & [? ?] & Hb & [-> | ->] & [-> | ->] & [-> | ->] & [-> | ->]);
  subst.

Lemma zero_bucket_wf : wf_bucket zero_bucket.
Proof. by repeat split; repeat (constructor; auto). Qed.

Lemma entries_zero : entries zero_bucket = [].
Proof. done. Qed.

Lemma Count_entries b : wf_bucket b -> Count b = length (entries b).
Proof. intros H. by bucket_cases H. Qed.

Lemma Count_le b : wf_bucket b -> (Count b <= ASSOC_NUM)%nat.
Proof. intros H. bucket_cases H; cbv; lia. Qed.

Lemma SearchSlot_correct b k :
  wf_bucket b ->
  match SearchSlot b k with
  | Some v => (k, v) ∈ entries b
  | None => forall v, (k, v) ∉ entries b
  end.
Proof.
  intros H. unfold SearchSlot, find_slot.
  bucket_cases H; cbn; repeat case_bool_decide; cbn; subst;
    try intros v; rewrite ?elem_of_cons, ?elem_of_nil; intuition congruence.
Qed.

Lemma InsertSlot_correct b k v d :
  wf_bucket b ->
  match InsertSlot b k v d with
  | (true, b', d') => wf_bucket b' /\ entries b' ≡ₚ (k, v) :: entries b /\ d' = true /\ (Count b < ASSOC_NUM)%nat
  | (false, b', d') => b' = b /\ d' = d /\ Count b = ASSOC_NUM
  end.
Proof.
  intros H. unfold InsertSlot, free_slot. bucket_cases H; cbn; repeat split; simpl; auto;
    repeat (constructor; auto); unfold ASSOC_NUM; try lia; cbn;
    (reflexivity || solve_Permutation || idtac).
Qed.

Lemma DeleteSlot_correct b k d :
  wf_bucket b ->
  match DeleteSlot b k d with
  | (true, b', d') => wf_bucket b' /\ (exists v, entries b ≡ₚ (k, v) :: entries b') /\ d' = true
  | (false, b', d') => b' = b /\ d' = d /\ forall v, (k, v) ∉ entries b
  end.
Proof.
  intros H. unfold DeleteSlot, find_slot.
  bucket_cases H; cbn; repeat case_bool_decide; cbn; subst; repeat split; simpl; auto;
    try (repeat (constructor; auto); fail); try (eexists; (reflexivity || solve_Permutation));
    try (intros v; rewrite ?elem_of_cons, ?elem_of_nil; intuition congruence).
Qed.

(** The pair at position [i] is the one that changed. *)
Local Ltac changed_at i :=
  eexists _, _; split;
  [ apply (delete_Permutation _ i); reflexivity
  | match goal with |- ?l ≡ₚ _ => exact (delete_Permutation l i _ eq_refl) end ].

(** Updating changes the value of one pair with the key, or nothing when the
    value is the same; the flag is raised exactly when a byte changed. *)
Lemma UpdateSlot_correct b k v d :
  wf_bucket b ->
  match UpdateSlot b k v d with
  | (true, b', d') =>
      wf_bucket b' /\ (exists v' rest, entries b ≡ₚ (k, v') :: rest /\ entries b' ≡ₚ (k, v) :: rest) /\
      d' = d || bool_decide (b' <> b)
  | (false, b', d') => b' = b /\ d' = d /\ forall v, (k, v) ∉ entries b
  end.
Proof.
  intros H. unfold UpdateSlot, find_slot.
  bucket_cases H; cbn; repeat case_bool_decide; cbn in *; subst; try congruence;
    rewrite ?orb_true_r, ?orb_false_r;
    repeat split; simpl; auto; try (repeat (constructor; auto); fail);
    try (intros ?; rewrite ?elem_of_cons, ?elem_of_nil; intuition congruence);
    first [ changed_at 0%nat | changed_at 1%nat | changed_at 2%nat | changed_at 3%nat ].
Qed.

(** [token_[slot] = 0] in a full bucket. *)
Lemma clear_slot b i :
  wf_bucket b -> Count b = ASSOC_NUM -> (i < ASSOC_NUM)%nat ->
  wf_bucket (set_token b i 0) /\
  entries b ≡ₚ (key_ (slot_at b i), value_ (slot_at b i)) :: entries (set_token b i 0).
Proof.
  intros H. bucket_cases H; cbv [Count ASSOC_NUM token_at]; try done; intros _ Hi.
  destruct i as [|[|[|[|]]]]; try lia; cbn; (split; [by repeat (constructor; auto)|]); solve_Permutation.
Qed.

Lemma SetSlot_correct b i k v :
  wf_bucket b ->
  match SetSlot b i k v with
  | Some b' => wf_bucket b' /\ (i < ASSOC_NUM)%nat /\ slot_at b' i = mkEntry k v /\ token_at b' i = 1
  | None => (ASSOC_NUM <= i)%nat
  end.
Proof.
  intros H. unfold SetSlot. destruct (Nat.ltb_spec i ASSOC_NUM); [|done].
  bucket_cases H; destruct i as [|[|[|[|]]]]; unfold ASSOC_NUM in *; try lia;
    cbn; repeat split; repeat (constructor; auto).
Qed.
