(* ===== verification/KvReplacer.v ===== *)
(** * KvReplacer: levelkv/src/dpu/replacer.cpp

    The least-recently-used order of the cache frames: a [std::list] of frames
    and a map from a frame to its node. A list iterator is the identity of a
    node; identities are never reused. The file ends with the refinement of a
    plain list of frames, most recent first. *)

From stdpp Require Import gmap.
From S2P Require Import Prelude.

Record Replacer := mkReplacer {
  lru_ : list (nat * Z);        (* node identity and frame, front first *)
  map_ : gmap Z nat;
  next_node : nat
}.

Definition replacer_init : Replacer := mkReplacer [] ∅ 0.

(** [lru_.erase(it)]: undefined for the iterator of an element that is gone. *)
Definition list_erase (it : nat) (l : list (nat * Z)) : res (list (nat * Z)) :=
  if decide (it ∈ l.*1) then Ret (filter (fun n => n.1 <> it) l) else UB.

Definition RecordAccess (r : Replacer) (frame : Z) : res Replacer :=
  lru ← match map_ r !! frame with
        | Some it => list_erase it (lru_ r)
        | None => Ret (lru_ r)
        end;
  Ret (mkReplacer ((next_node r, frame) :: lru) (<[frame := next_node r]> (map_ r)) (S (next_node r))).

(** The frame is -1 when there is nothing to evict. *)
Definition Evict (r : Replacer) : Z * Replacer :=
  match last (lru_ r) with
  | None => (-1, r)
  | Some (_, evict) =>
      (evict, mkReplacer (take (length (lru_ r) - 1) (lru_ r)) (base.delete evict (map_ r)) (next_node r))
  end.

(** ** Refinement of a recency list *)

(** Frames, most recently used first. *)
Definition order (r : Replacer) : list Z := (lru_ r).*2.

Definition touch (f : Z) (l : list Z) : list Z := f :: filter (fun g => g <> f) l.

(** The least recently used frame is the last. *)
Definition drop_last (l : list Z) : list Z := take (length l - 1) l.

Record replacer_ok (r : Replacer) : Prop := {
  ro_frames : NoDup (order r);
  ro_nodes : NoDup (lru_ r).*1;
  ro_next : forall n f, (n, f) ∈ lru_ r -> (n < next_node r)%nat;
  ro_map : forall n f, map_ r !! f = Some n <-> (n, f) ∈ lru_ r
}.

Lemma replacer_init_ok : replacer_ok replacer_init.
Proof.
  split; simpl; [constructor|constructor|set_solver|]. intros n f. split; [done|set_solver].
Qed.

Lemma map_order r f : replacer_ok r -> map_ r !! f = None <-> f ∉ order r.
Proof.
  intros Hr. split.
  - intros Hn ([n g] & -> & Hin)%list_elem_of_fmap. apply (ro_map _ Hr) in Hin. simpl in *. congruence.
  - intros Hf. destruct (map_ r !! f) as [n|] eqn:E; [|done]. apply (ro_map _ Hr) in E.
    destruct Hf. apply list_elem_of_fmap. by exists (n, f).
Qed.

(** Erasing the node of a frame removes the frame from the order. *)
Lemma order_erase r it f :
  replacer_ok r -> (it, f) ∈ lru_ r ->
  (filter (fun n => n.1 <> it) (lru_ r)).*2 = filter (fun g => g <> f) (order r).
Proof.
  intros Hr Hin. unfold order.
  assert (forall n g, (n, g) ∈ lru_ r -> n <> it <-> g <> f) as Heq.
  { intros n g Hng. split; intros Hne ->; apply Hne.
    - apply (ro_map _ Hr) in Hin, Hng. congruence.
    - apply (elem_of_list_to_map_1 (M := gmap nat)) in Hin, Hng; [congruence|apply Hr..]. }
  clear Hin. induction (lru_ r) as [|[n g] l IH]; [done|].
  simpl. rewrite !filter_cons. simpl.
  pose proof (Heq n g (list_elem_of_here _ _)).
  destruct (decide (n <> it)), (decide (g <> f)); simpl; try (exfalso; tauto).
  - f_equal. apply IH. intros n' g' Hin. apply Heq. by right.
  - apply IH. intros n' g' Hin. apply Heq. by right.
Qed.

Lemma filter_absent (l : list Z) f : f ∉ l -> filter (fun g => g <> f) l = l.
Proof.
  induction l as [|g l IH]; [done|]. intros [? ?]%not_elem_of_cons.
  rewrite filter_cons_True by congruence. by rewrite IH.
Qed.

(** The replacer after an access whose iterator, if there is one, is valid. *)
Definition accessed (r : Replacer) (frame : Z) : Replacer :=
  let lru := match map_ r !! frame with
             | Some it => filter (fun n => n.1 <> it) (lru_ r)
             | None => lru_ r
             end in
  mkReplacer ((next_node r, frame) :: lru) (<[frame := next_node r]> (map_ r)) (S (next_node r)).

Lemma RecordAccess_valid r f : replacer_ok r -> RecordAccess r f = Ret (accessed r f).
Proof.
  intros Hr. unfold RecordAccess, accessed, list_erase. destruct (map_ r !! f) as [it|] eqn:E; [|done].
  apply (ro_map _ Hr) in E. rewrite decide_True; [done|]. apply list_elem_of_fmap. by exists (it, f).
Qed.

Lemma order_accessed r f : replacer_ok r -> order (accessed r f) = touch f (order r).
Proof.
  intros Hr. unfold accessed, touch. unfold order at 1. simpl. f_equal.
  destruct (map_ r !! f) as [it|] eqn:E.
  - apply order_erase; [done|]. by apply (ro_map _ Hr).
  - apply (map_order _ _ Hr) in E. by rewrite filter_absent.
Qed.

Lemma accessed_ok r f : replacer_ok r -> replacer_ok (accessed r f).
Proof.
  intros Hr. set (l := match map_ r !! f with Some it => filter (fun n => n.1 <> it) (lru_ r) | None => lru_ r end).
  assert (forall n g, (n, g) ∈ l <-> (n, g) ∈ lru_ r /\ g <> f) as Hl.
  { intros n g. subst l. destruct (map_ r !! f) as [it|] eqn:E.
    - pose proof E as Hin. apply (ro_map _ Hr) in Hin. rewrite list_elem_of_filter. simpl.
      split; [intros [Hne Hng]; split; [done|]|intros [Hng Hne]; split; [|done]]; intros ->.
      + apply Hne. apply (ro_map _ Hr) in Hng. congruence.
      + apply Hne. apply (elem_of_list_to_map_1 (M := gmap nat)) in Hin, Hng; [congruence|apply Hr..].
    - split; [|by intros []]. intros Hng. split; [done|]. intros ->. apply (ro_map _ Hr) in Hng. congruence. }
  split.
  - rewrite order_accessed by done. unfold touch. constructor; [|by apply NoDup_filter, Hr].
    rewrite list_elem_of_filter. tauto.
  - unfold accessed. fold l. simpl. constructor.
    + intros ([n g] & Hn & Hin)%list_elem_of_fmap. apply Hl in Hin as [Hin _].
      apply (ro_next _ Hr) in Hin. simpl in Hn. lia.
    + subst l. destruct (map_ r !! f); [|apply Hr].
      eapply sublist_NoDup; [exact (ro_nodes _ Hr)|]. by apply fmap_sublist, sublist_filter.
  - unfold accessed. fold l. simpl. intros n g [?|Hin]%elem_of_cons; [simplify_eq; lia|].
    apply Hl in Hin as [Hin _]. apply (ro_next _ Hr) in Hin. lia.
  - unfold accessed. fold l. simpl. intros n g. rewrite elem_of_cons, Hl, <- (ro_map _ Hr).
    destruct (decide (g = f)) as [->|Hne].
    + rewrite lookup_insert_eq. split; [intros [= <-]; by left|]. intros [?|[_ []]]; by simplify_eq.
    + rewrite lookup_insert_ne by done. split; [by right|]. intros [?|[? _]]; by simplify_eq.
Qed.

Lemma order_Evict r :
  replacer_ok r -> (Evict r).1 = default (-1) (last (order r)) /\ order (Evict r).2 = drop_last (order r).
Proof.
  intros Hr. unfold Evict, drop_last, order. rewrite fmap_last, length_fmap.
  destruct (last (lru_ r)) as [[n f]|] eqn:E; simpl.
  - split; [done|]. by rewrite fmap_take.
  - apply last_None in E. by rewrite E.
Qed.

Lemma Evict_ok r : replacer_ok r -> replacer_ok (Evict r).2.
Proof.
  intros Hr. unfold Evict. destruct (last (lru_ r)) as [[n f]|] eqn:E; [|done].
  apply last_Some in E as [l El].
  assert (take (length (lru_ r) - 1) (lru_ r) = l) as Htake.
  { rewrite El, length_app. simpl. rewrite Nat.add_sub. apply take_app_length. }
  rewrite Htake. destruct Hr as [Hf Hn Hx Hm]. unfold order in Hf.
  rewrite El in Hf, Hn, Hx, Hm. rewrite fmap_app in Hf. rewrite fmap_app in Hn.
  apply NoDup_app in Hf as (Hf & Hd & _). apply NoDup_app in Hn as (Hn & _ & _).
  split; simpl; [done|done|intros n' g Hin; eapply Hx; apply elem_of_app; by left|].
  intros n' g. destruct (decide (g = f)) as [->|Hne].
  - rewrite lookup_delete_eq. split; [done|]. intros Hin. destruct (Hd f); [|by constructor].
    apply list_elem_of_fmap. by exists (n', f).
  - rewrite lookup_delete_ne, Hm, elem_of_app by done. split; [|by left].
    intros [?|?%list_elem_of_singleton]; [done|]. by simplify_eq.
Qed.

(** ** Recency

    A frame among the [k] most recently used ones is not evicted while fewer
    than [length - k] further frames are touched. *)

Lemma touch_perm f l : NoDup l -> f ∈ l -> touch f l ≡ₚ l.
Proof.
  intros Hl Hf. unfold touch. apply NoDup_Permutation; [|done|].
  - constructor; [rewrite list_elem_of_filter; tauto|by apply NoDup_filter].
  - intros g. rewrite elem_of_cons, list_elem_of_filter. destruct (decide (g = f)); naive_solver.
Qed.

Lemma take_filter_incl (P : Z -> Prop) `{forall x, Decision (P x)} (l : list Z) k g :
  g ∈ take k l -> P g -> g ∈ take k (filter P l).
Proof.
  revert k. induction l as [|h l IH]; intros [|k] Hin HP; simpl in *; try by apply not_elem_of_nil in Hin.
  apply elem_of_cons in Hin as [->|Hin].
  - rewrite filter_cons_True by done. by left.
  - destruct (decide (P h)).
    + rewrite filter_cons_True by done. right. by apply IH.
    + rewrite filter_cons_False by done. specialize (IH k Hin HP).
      apply elem_of_take in IH as (i & Hi & Hlt). apply elem_of_take. exists i. split; [done|lia].
Qed.

(** Touching a frame lets the others sink by at most one position. *)
Lemma recent_touch f l k g : g ∈ take k l -> g ∈ take (S k) (touch f l).
Proof.
  intros Hg. unfold touch. simpl. destruct (decide (g = f)) as [->|Hne]; [by left|right].
  by apply take_filter_incl.
Qed.

Lemma recent_front f l k : f ∈ take (S k) (touch f l).
Proof. by left. Qed.

Lemma recent_not_last (l : list Z) k g f : NoDup l -> (k < length l)%nat -> g ∈ take k l -> last l = Some f -> g <> f.
Proof.
  intros Hl Hk Hg [l' ->]%last_Some ->. rewrite length_app in Hk. simpl in Hk.
  rewrite take_app_le in Hg by lia. apply NoDup_app in Hl as (_ & Hd & _).
  apply (Hd f); [|by constructor]. apply elem_of_take in Hg as (i & Hi & _). by eapply list_elem_of_lookup_2.
Qed.

Lemma drop_last_snoc l f : last l = Some f -> l = drop_last l ++ [f].
Proof.
  intros [l' ->]%last_Some. unfold drop_last. rewrite length_app, Nat.add_sub. by rewrite take_app_length.
Qed.

(** The evicted frame is touched again by its new owner. *)
Lemma touch_evicted l f : NoDup l -> last l = Some f -> touch f (drop_last l) = f :: drop_last l.
Proof.
  intros Hl Hf. unfold touch. rewrite filter_absent; [done|].
  rewrite (drop_last_snoc l f Hf) in Hl. apply NoDup_app in Hl as (_ & Hd & _). intros Hin.
  apply (Hd f Hin). by constructor.
Qed.

(** ** Any sequence of calls *)

Inductive lru_op := OpAccess (f : Z) | OpEvict.

Fixpoint lru_run (ops : list lru_op) (r : Replacer) : res (list Z * Replacer) :=
  match ops with
  | [] => Ret ([], r)
  | OpAccess f :: ops => r ← RecordAccess r f; lru_run ops r
  | OpEvict :: ops => let '(f, r) := Evict r in '(fs, r) ← lru_run ops r; Ret (f :: fs, r)
  end.

Fixpoint recency_run (ops : list lru_op) (l : list Z) : list Z * list Z :=
  match ops with
  | [] => ([], l)
  | OpAccess f :: ops => recency_run ops (touch f l)
  | OpEvict :: ops => let '(fs, l') := recency_run ops (drop_last l) in (default (-1) (last l) :: fs, l')
  end.

(** C15: the replacer implements a recency list. Any sequence of accesses and
    evictions runs without using the iterator of a list element that is gone, and
    the evicted frames are those of the list that moves an accessed frame to the
    front and evicts its last element (-1 when it is empty). *)
Theorem replacer_refines_recency ops :
  exists r', lru_run ops replacer_init = Ret ((recency_run ops []).1, r') /\ order r' = (recency_run ops []).2.
Proof.
  change (@nil Z) with (order replacer_init). generalize replacer_init_ok.
  generalize replacer_init. induction ops as [|[f|] ops IH]; intros r Hr; simpl; [by exists r| |].
  - rewrite RecordAccess_valid by done. cbn [mbind res_bind].
    rewrite <- order_accessed by done. by apply IH, accessed_ok.
  - destruct (order_Evict r Hr) as [H1 H2]. pose proof (Evict_ok r Hr) as Hr'.
    destruct (Evict r) as [f r']. simpl in *. destruct (IH r' Hr') as (r2 & -> & Ho).
    rewrite H2 in *. destruct (recency_run ops (drop_last (order r))). simpl in *. subst f. by exists r2.
Qed.
