(* ===== verification/KvState.v ===== *)
(** * KvState: the state of the DPU key-value store

    levelkv/src/dpu and levelkv/src/host: the DPU keeps a cache of buckets and
    serves requests; the buckets themselves are in the memory of the host,
    reached by DMA. Every [DmaClient] has a thread and a queue of its own, and
    the host is another machine, so several threads act on the [world]:

    - the worker of the DPU, whose code is the model's programs;
    - a thread per DMA client, which serves its queue in order;
    - the thread of the host, which serves messages of the comm channel.

    The worker is written as a state-passing computation [kv]. [tick] marks
    the points where other threads may act: there, [sched] says which threads
    take a step, in which order. Every function is possible for it, so a
    theorem about all of them is one about all interleavings; [tick] stands
    before each access to memory that other threads touch. [fault] says which
    DMA operations the hardware reports as failed. *)

From stdpp Require Import gmap.
From S2P Require Import Prelude.
From S2P Require Import KvBucket.
From S2P Require Import KvReplacer.

Inductive actor := DmaThread (client : nat) | HostThread.

(** [sched] says which threads act when, [fault] which DMA transfers fail, [oom]
    which allocations of the host fail. *)
Class Env := { sched : nat -> list actor; fault : nat -> bool; oom : nat -> bool }.

(** No transfer and no allocation fails. *)
Definition calm {E : Env} : Prop := (forall p, fault p = false) /\ (forall b, oom b = false).

Definition THREADS : nat := 8.
Definition CACHE_SIZE : nat := 128.

(** ** Messages (comch_common.hpp) *)

Inductive ControlSignal := EXPAND | EXPAND_FINISH | EXIT.
Inductive OprationType := OP_SEARCH | OP_INSERT.

(** A pointer into host memory: a block and a byte offset in it. *)
Record hptr := HPtr { blk : nat; off : Z }.

Inductive ComchMsg :=
| COMCH_MSG_EXPORT_DESCRIPTOR (host_addr_ : hptr) (mmap_len : Z)
| COMCH_MSG_EXPORT_SEEDS (f_seed_ s_seed_ : Z)
| COMCH_MSG_CONTROL (control_signal_ : ControlSignal)
| COMCH_MSG_OPERATION (op_type_ : OprationType) (key_ value_ : list Z)
| COMCH_MSG_OPERATION_RESULT (success : bool) (search_result_ : list Z).

(** ** DMA (dma_client.hpp, dma_common.hpp, dma_server.hpp) *)

(** A [std::promise<bool>] is a number; [promises] of the world holds the
    values that were set. *)
Record DmaRequest := mkDmaRequest {
  is_write_ : bool;
  src_offset_ : Z;
  dst_offset_ : Z;
  len_ : Z;
  promise_ : nat
}.

(** [remote] is what [Import] has set: the address and the extent of the
    remote memory map. *)
Record DmaClient := mkDmaClient {
  dma_client_id_ : Z;
  remote : option (hptr * Z);
  queue : list DmaRequest
}.

Record DmaServer := mkDmaServer { dma_server_id_ : Z; addr_ : hptr; slen_ : Z }.

(** ** Requests (dpu.hpp) *)

Inductive RequestType := SEARCH | DELETE | INSERT | UPDATE | START | END_.

(** The callback of a request only receives the result of a search; [replies]
    of the world collects the calls. *)
Record Request := mkRequest {
  request_type_ : RequestType;
  rkey_ : list Z;
  rvalue_ : list Z;
  hash1_ : Z;
  hash2_ : Z
}.

(** ** The DPU (dpu.hpp) *)

(** The sizes of the table and the first bucket of each level. *)
Record geometry := mkGeometry {
  bl_start_bucket_id_ : Z;
  tl_start_bucket_id_ : Z;
  next_start_bucket_id_ : Z;
  level_ : Z;
  addr_capacity_ : Z;
  bl_capacity_ : Z
}.

Record Dpu := mkDpu {
  geo : geometry;
  dirty_flag_ : list bool;
  bucket_table_ : gmap Z Z;
  bucket_ids_ : list Z;
  replacer_ : Replacer;
  free_list_ : list Z;
  new_bucket_constructed_ : list bool;
  f_seed_ : Z;
  s_seed_ : Z;
  mmap_to_recv_ : Z;
  seed_recved_ : bool;
  in_init_ : bool;
  in_rehash_ : bool;
  next_client_id_ : Z;
  size_ : Z;
  stop_ : bool;
  running_ : bool;
  request_queue_ : list Request
}.

(** ** The host (host.hpp, level_hashing.hpp)

    [expanding] has the local variables of the calls of [Host::Expand] that wait
    for the end of the rehashing, the innermost first: the call is made from a
    callback, and waits by polling the channel, which may call it again. *)
Record Host := mkHost {
  buckets0 : nat;
  buckets1 : nat;
  h_addr_capacity : Z;
  h_bl_capacity : Z;
  h_total_capacity : Z;
  h_level : Z;
  h_f_seed : Z;
  h_s_seed : Z;
  tl_dma_server_ : list DmaServer;
  bl_dma_server_ : list DmaServer;
  next_server_id_ : Z;
  h_in_rehash : bool;
  h_stop : bool;
  expanding : list (nat * list DmaServer)
}.

(** ** The world *)

Record world := mkWorld {
  dma_client_ : list DmaClient;
  cache_ : list LevelBucket;
  heap : gmap nat (list LevelBucket);
  next_blk : nat;
  promises : gmap nat bool;
  next_promise : nat;
  clock : nat;
  dpu : Dpu;
  host : Host;
  to_host : list ComchMsg;
  to_dpu : list ComchMsg;
  replies : list (option (list Z))
}.

(** ** Field updates *)

Definition set_dma_client (x : list DmaClient) (w : world) : world :=
  mkWorld x (cache_ w) (heap w) (next_blk w) (promises w) (next_promise w) (clock w) (dpu w)
    (host w) (to_host w) (to_dpu w) (replies w).
Definition set_cache (x : list LevelBucket) (w : world) : world :=
  mkWorld (dma_client_ w) x (heap w) (next_blk w) (promises w) (next_promise w) (clock w) (dpu w)
    (host w) (to_host w) (to_dpu w) (replies w).
Definition set_heap (x : gmap nat (list LevelBucket)) (w : world) : world :=
  mkWorld (dma_client_ w) (cache_ w) x (next_blk w) (promises w) (next_promise w) (clock w)
    (dpu w) (host w) (to_host w) (to_dpu w) (replies w).
Definition set_next_blk (x : nat) (w : world) : world :=
  mkWorld (dma_client_ w) (cache_ w) (heap w) x (promises w) (next_promise w) (clock w) (dpu w)
    (host w) (to_host w) (to_dpu w) (replies w).
Definition set_promises (x : gmap nat bool) (w : world) : world :=
  mkWorld (dma_client_ w) (cache_ w) (heap w) (next_blk w) x (next_promise w) (clock w) (dpu w)
    (host w) (to_host w) (to_dpu w) (replies w).
Definition set_next_promise (x : nat) (w : world) : world :=
  mkWorld (dma_client_ w) (cache_ w) (heap w) (next_blk w) (promises w) x (clock w) (dpu w)
    (host w) (to_host w) (to_dpu w) (replies w).
Definition set_clock (x : nat) (w : world) : world :=
  mkWorld (dma_client_ w) (cache_ w) (heap w) (next_blk w) (promises w) (next_promise w) x (dpu w)
    (host w) (to_host w) (to_dpu w) (replies w).
Definition set_dpu (x : Dpu) (w : world) : world :=
  mkWorld (dma_client_ w) (cache_ w) (heap w) (next_blk w) (promises w) (next_promise w) (clock w)
    x (host w) (to_host w) (to_dpu w) (replies w).
Definition set_host (x : Host) (w : world) : world :=
  mkWorld (dma_client_ w) (cache_ w) (heap w) (next_blk w) (promises w) (next_promise w) (clock w)
    (dpu w) x (to_host w) (to_dpu w) (replies w).
Definition set_to_host (x : list ComchMsg) (w : world) : world :=
  mkWorld (dma_client_ w) (cache_ w) (heap w) (next_blk w) (promises w) (next_promise w) (clock w)
    (dpu w) (host w) x (to_dpu w) (replies w).
Definition set_to_dpu (x : list ComchMsg) (w : world) : world :=
  mkWorld (dma_client_ w) (cache_ w) (heap w) (next_blk w) (promises w) (next_promise w) (clock w)
    (dpu w) (host w) (to_host w) x (replies w).
Definition set_replies (x : list (option (list Z))) (w : world) : world :=
  mkWorld (dma_client_ w) (cache_ w) (heap w) (next_blk w) (promises w) (next_promise w) (clock w)
    (dpu w) (host w) (to_host w) (to_dpu w) x.

Definition set_geo (x : geometry) (d : Dpu) : Dpu :=
  mkDpu x (dirty_flag_ d) (bucket_table_ d) (bucket_ids_ d) (replacer_ d) (free_list_ d)
    (new_bucket_constructed_ d) (f_seed_ d) (s_seed_ d) (mmap_to_recv_ d) (seed_recved_ d)
    (in_init_ d) (in_rehash_ d) (next_client_id_ d) (size_ d) (stop_ d) (running_ d)
    (request_queue_ d).
Definition set_dirty_flag (x : list bool) (d : Dpu) : Dpu :=
  mkDpu (geo d) x (bucket_table_ d) (bucket_ids_ d) (replacer_ d) (free_list_ d)
    (new_bucket_constructed_ d) (f_seed_ d) (s_seed_ d) (mmap_to_recv_ d) (seed_recved_ d)
    (in_init_ d) (in_rehash_ d) (next_client_id_ d) (size_ d) (stop_ d) (running_ d)
    (request_queue_ d).
Definition set_bucket_table (x : gmap Z Z) (d : Dpu) : Dpu :=
  mkDpu (geo d) (dirty_flag_ d) x (bucket_ids_ d) (replacer_ d) (free_list_ d)
    (new_bucket_constructed_ d) (f_seed_ d) (s_seed_ d) (mmap_to_recv_ d) (seed_recved_ d)
    (in_init_ d) (in_rehash_ d) (next_client_id_ d) (size_ d) (stop_ d) (running_ d)
    (request_queue_ d).
Definition set_bucket_ids (x : list Z) (d : Dpu) : Dpu :=
  mkDpu (geo d) (dirty_flag_ d) (bucket_table_ d) x (replacer_ d) (free_list_ d)
    (new_bucket_constructed_ d) (f_seed_ d) (s_seed_ d) (mmap_to_recv_ d) (seed_recved_ d)
    (in_init_ d) (in_rehash_ d) (next_client_id_ d) (size_ d) (stop_ d) (running_ d)
    (request_queue_ d).
Definition set_replacer (x : Replacer) (d : Dpu) : Dpu :=
  mkDpu (geo d) (dirty_flag_ d) (bucket_table_ d) (bucket_ids_ d) x (free_list_ d)
    (new_bucket_constructed_ d) (f_seed_ d) (s_seed_ d) (mmap_to_recv_ d) (seed_recved_ d)
    (in_init_ d) (in_rehash_ d) (next_client_id_ d) (size_ d) (stop_ d) (running_ d)
    (request_queue_ d).
Definition set_free_list (x : list Z) (d : Dpu) : Dpu :=
  mkDpu (geo d) (dirty_flag_ d) (bucket_table_ d) (bucket_ids_ d) (replacer_ d) x
    (new_bucket_constructed_ d) (f_seed_ d) (s_seed_ d) (mmap_to_recv_ d) (seed_recved_ d)
    (in_init_ d) (in_rehash_ d) (next_client_id_ d) (size_ d) (stop_ d) (running_ d)
    (request_queue_ d).
Definition set_new_bucket_constructed (x : list bool) (d : Dpu) : Dpu :=
  mkDpu (geo d) (dirty_flag_ d) (bucket_table_ d) (bucket_ids_ d) (replacer_ d) (free_list_ d) x
    (f_seed_ d) (s_seed_ d) (mmap_to_recv_ d) (seed_recved_ d) (in_init_ d) (in_rehash_ d)
    (next_client_id_ d) (size_ d) (stop_ d) (running_ d) (request_queue_ d).
Definition set_f_seed (x : Z) (d : Dpu) : Dpu :=
  mkDpu (geo d) (dirty_flag_ d) (bucket_table_ d) (bucket_ids_ d) (replacer_ d) (free_list_ d)
    (new_bucket_constructed_ d) x (s_seed_ d) (mmap_to_recv_ d) (seed_recved_ d) (in_init_ d)
    (in_rehash_ d) (next_client_id_ d) (size_ d) (stop_ d) (running_ d) (request_queue_ d).
Definition set_s_seed (x : Z) (d : Dpu) : Dpu :=
  mkDpu (geo d) (dirty_flag_ d) (bucket_table_ d) (bucket_ids_ d) (replacer_ d) (free_list_ d)
    (new_bucket_constructed_ d) (f_seed_ d) x (mmap_to_recv_ d) (seed_recved_ d) (in_init_ d)
    (in_rehash_ d) (next_client_id_ d) (size_ d) (stop_ d) (running_ d) (request_queue_ d).
Definition set_mmap_to_recv (x : Z) (d : Dpu) : Dpu :=
  mkDpu (geo d) (dirty_flag_ d) (bucket_table_ d) (bucket_ids_ d) (replacer_ d) (free_list_ d)
    (new_bucket_constructed_ d) (f_seed_ d) (s_seed_ d) x (seed_recved_ d) (in_init_ d)
    (in_rehash_ d) (next_client_id_ d) (size_ d) (stop_ d) (running_ d) (request_queue_ d).
Definition set_seed_recved (x : bool) (d : Dpu) : Dpu :=
  mkDpu (geo d) (dirty_flag_ d) (bucket_table_ d) (bucket_ids_ d) (replacer_ d) (free_list_ d)
    (new_bucket_constructed_ d) (f_seed_ d) (s_seed_ d) (mmap_to_recv_ d) x (in_init_ d)
    (in_rehash_ d) (next_client_id_ d) (size_ d) (stop_ d) (running_ d) (request_queue_ d).
Definition set_in_init (x : bool) (d : Dpu) : Dpu :=
  mkDpu (geo d) (dirty_flag_ d) (bucket_table_ d) (bucket_ids_ d) (replacer_ d) (free_list_ d)
    (new_bucket_constructed_ d) (f_seed_ d) (s_seed_ d) (mmap_to_recv_ d) (seed_recved_ d) x
    (in_rehash_ d) (next_client_id_ d) (size_ d) (stop_ d) (running_ d) (request_queue_ d).
Definition set_in_rehash (x : bool) (d : Dpu) : Dpu :=
  mkDpu (geo d) (dirty_flag_ d) (bucket_table_ d) (bucket_ids_ d) (replacer_ d) (free_list_ d)
    (new_bucket_constructed_ d) (f_seed_ d) (s_seed_ d) (mmap_to_recv_ d) (seed_recved_ d)
    (in_init_ d) x (next_client_id_ d) (size_ d) (stop_ d) (running_ d) (request_queue_ d).
Definition set_next_client_id (x : Z) (d : Dpu) : Dpu :=
  mkDpu (geo d) (dirty_flag_ d) (bucket_table_ d) (bucket_ids_ d) (replacer_ d) (free_list_ d)
    (new_bucket_constructed_ d) (f_seed_ d) (s_seed_ d) (mmap_to_recv_ d) (seed_recved_ d)
    (in_init_ d) (in_rehash_ d) x (size_ d) (stop_ d) (running_ d) (request_queue_ d).
Definition set_size (x : Z) (d : Dpu) : Dpu :=
  mkDpu (geo d) (dirty_flag_ d) (bucket_table_ d) (bucket_ids_ d) (replacer_ d) (free_list_ d)
    (new_bucket_constructed_ d) (f_seed_ d) (s_seed_ d) (mmap_to_recv_ d) (seed_recved_ d)
    (in_init_ d) (in_rehash_ d) (next_client_id_ d) x (stop_ d) (running_ d) (request_queue_ d).
Definition set_stop (x : bool) (d : Dpu) : Dpu :=
  mkDpu (geo d) (dirty_flag_ d) (bucket_table_ d) (bucket_ids_ d) (replacer_ d) (free_list_ d)
    (new_bucket_constructed_ d) (f_seed_ d) (s_seed_ d) (mmap_to_recv_ d) (seed_recved_ d)
    (in_init_ d) (in_rehash_ d) (next_client_id_ d) (size_ d) x (running_ d) (request_queue_ d).
Definition set_running (x : bool) (d : Dpu) : Dpu :=
  mkDpu (geo d) (dirty_flag_ d) (bucket_table_ d) (bucket_ids_ d) (replacer_ d) (free_list_ d)
    (new_bucket_constructed_ d) (f_seed_ d) (s_seed_ d) (mmap_to_recv_ d) (seed_recved_ d)
    (in_init_ d) (in_rehash_ d) (next_client_id_ d) (size_ d) (stop_ d) x (request_queue_ d).
Definition set_request_queue (x : list Request) (d : Dpu) : Dpu :=
  mkDpu (geo d) (dirty_flag_ d) (bucket_table_ d) (bucket_ids_ d) (replacer_ d) (free_list_ d)
    (new_bucket_constructed_ d) (f_seed_ d) (s_seed_ d) (mmap_to_recv_ d) (seed_recved_ d)
    (in_init_ d) (in_rehash_ d) (next_client_id_ d) (size_ d) (stop_ d) (running_ d) x.


(** ** The worker's computations *)

Definition kv (A : Type) : Type := world -> res (A * world).

#[export] Instance kv_ret : MRet kv := fun A a w => Ret (a, w).
#[export] Instance kv_bind : MBind kv := fun A B f m w => '(a, w) ← m w; f a w.

Definition undefined {A} : kv A := fun _ => UB.
Definition stuck {A} : kv A := fun _ => NoFuel.
Definition gets {A} (f : world -> A) : kv A := fun w => Ret (f w, w).
Definition modify (f : world -> world) : kv unit := fun w => Ret (tt, f w).
Definition getd {A} (f : Dpu -> A) : kv A := gets (fun w => f (dpu w)).
Definition modd (f : Dpu -> Dpu) : kv unit := modify (fun w => set_dpu (f (dpu w)) w).

(** An element of an array; an index outside it is undefined behaviour. *)
Definition at_index {A} (l : list A) (i : Z) : kv A :=
  if 0 <=? i then match l !! Z.to_nat i with Some x => mret x | None => undefined end
  else undefined.

(** A function of an object that may be undefined. *)
Definition run_res {A} (r : res A) : kv A := fun w => a ← r; Ret (a, w).

(** ** Reasoning

    [kwp m w Q]: from [w] the computation [m] returns, and its result and the
    world after it satisfy [Q]. *)
Definition kwp {A} (m : kv A) (w : world) (Q : A -> world -> Prop) : Prop :=
  match m w with Ret (a, w') => Q a w' | _ => False end.

Lemma kwp_ret {A} (a : A) w (Q : A -> world -> Prop) : Q a w -> kwp (mret a) w Q.
Proof. done. Qed.

Lemma kwp_bind {A B} (m : kv A) (f : A -> kv B) w (Q : B -> world -> Prop) :
  kwp m w (fun a w' => kwp (f a) w' Q) -> kwp (m ≫= f) w Q.
Proof.
  unfold kwp, mbind, kv_bind. destruct (m w) as [[a w']| | |]; simpl; done.
Qed.

Lemma kwp_mono {A} (m : kv A) w (P Q : A -> world -> Prop) :
  kwp m w P -> (forall a w', P a w' -> Q a w') -> kwp m w Q.
Proof. unfold kwp. destruct (m w) as [[a w']| | |]; simpl; auto. Qed.

Lemma kwp_call {A B} (m : kv A) (f : A -> kv B) w (P : A -> world -> Prop) (Q : B -> world -> Prop) :
  kwp m w P -> (forall a w', P a w' -> kwp (f a) w' Q) -> kwp (m ≫= f) w Q.
Proof. intros Hm Hf. apply kwp_bind. by eapply kwp_mono. Qed.

Lemma kwp_run {A} (m : kv A) w (Q : A -> world -> Prop) :
  kwp m w Q <-> exists a w', m w = Ret (a, w') /\ Q a w'.
Proof.
  unfold kwp. split.
  - destruct (m w) as [[a w']| | |]; try done. eauto.
  - intros (a & w' & -> & HQ). done.
Qed.

Lemma kwp_gets {A B} (g : world -> A) (f : A -> kv B) w (Q : B -> world -> Prop) :
  kwp (f (g w)) w Q -> kwp (gets g ≫= f) w Q.
Proof. done. Qed.

Lemma kwp_getd {A B} (g : Dpu -> A) (f : A -> kv B) w (Q : B -> world -> Prop) :
  kwp (f (g (dpu w))) w Q -> kwp (getd g ≫= f) w Q.
Proof. done. Qed.

Lemma kwp_modd {B} (g : Dpu -> Dpu) (f : unit -> kv B) w (Q : B -> world -> Prop) :
  kwp (f tt) (set_dpu (g (dpu w)) w) Q -> kwp (modd g ≫= f) w Q.
Proof. done. Qed.

Lemma kwp_modify {B} (g : world -> world) (f : unit -> kv B) w (Q : B -> world -> Prop) :
  kwp (f tt) (g w) Q -> kwp (modify g ≫= f) w Q.
Proof. done. Qed.

Lemma kwp_at_index {A B} (l : list A) (i : Z) x (f : A -> kv B) w (Q : B -> world -> Prop) :
  0 <= i -> l !! Z.to_nat i = Some x -> kwp (f x) w Q -> kwp (at_index l i ≫= f) w Q.
Proof.
  intros Hi Hx Hf. unfold at_index. rewrite (proj2 (Z.leb_le _ _) Hi), Hx. done.
Qed.
