(* ===== verification/KvDma.v ===== *)
(** * KvDma: levelkv/src/dpu/dma_client.cpp and host/dma_server.cpp

    A [DmaClient] copies between the cache and one part of the host's memory.
    Its thread takes the requests of its queue in order. Host memory is the
    blocks of buckets the host allocated; a copy is of one whole bucket. A copy
    outside the cache, outside the imported memory map or in a block that was
    freed is undefined behaviour. *)

From stdpp Require Import gmap.
From S2P Require Import Prelude.
From S2P Require Import KvBucket.
From S2P Require Import KvReplacer.
From S2P Require Import KvState.

(** The frame that the bytes [offset, offset + len) of the cache are. *)
Definition frame_cell (offset len : Z) : res nat :=
  if (0 <=? offset) && (offset mod sizeof_FixedBucket =? 0) && (len =? sizeof_FixedBucket) &&
     (offset + len <=? Z.of_nat CACHE_SIZE * sizeof_FixedBucket)
  then Ret (Z.to_nat (offset / sizeof_FixedBucket)) else UB.

(** The bucket of host memory at an offset from the imported address. *)
Definition host_cell (h : gmap nat (list LevelBucket)) (r : hptr * Z) (offset len : Z)
  : res (nat * nat * LevelBucket) :=
  let o := off r.1 + offset in
  if (0 <=? offset) && (offset + len <=? r.2) && (0 <=? o) &&
     (o mod sizeof_FixedBucket =? 0) && (len =? sizeof_FixedBucket)
  then match h !! blk r.1 with
       | Some bs => match bs !! Z.to_nat (o / sizeof_FixedBucket) with
                    | Some b => Ret (blk r.1, Z.to_nat (o / sizeof_FixedBucket), b)
                    | None => UB
                    end
       | None => UB
       end
  else UB.

Definition set_host_cell (h : gmap nat (list LevelBucket)) (c : nat) (i : nat) (b : LevelBucket)
  : gmap nat (list LevelBucket) := alter (fun bs => <[i := b]> bs) c h.

(** [ScheduleReadWrite]: queue a request; the result is its promise. *)
Definition ScheduleReadWrite (client : nat) (is_write : bool) (src_offset dst_offset len : Z)
  : kv nat :=
  cls ← gets dma_client_;
  match cls !! client with
  | None => undefined
  | Some cl =>
      p ← gets next_promise;
      modify (fun w =>
        set_next_promise (S p)
          (set_dma_client
             (<[client := mkDmaClient (dma_client_id_ cl) (remote cl)
                            (queue cl ++ [mkDmaRequest is_write src_offset dst_offset len p])]>
                (dma_client_ w)) w));;
      mret p
  end.

(** [Import] *)
Definition Import (cl : DmaClient) (host_addr : hptr) (len : Z) : DmaClient :=
  mkDmaClient (dma_client_id_ cl) (Some (host_addr, len)) (queue cl).

(** [ExportMmap] *)
Definition ExportMmap (s : DmaServer) : ComchMsg := COMCH_MSG_EXPORT_DESCRIPTOR (addr_ s) (slen_ s).

Section threads.
Context {E : Env}.

(** One round of [ProcessQueue] in the thread of a client: the first request
    of the queue is carried out and its promise set. *)
Definition ProcessQueue_step (client : nat) (w : world) : res world :=
  match dma_client_ w !! client with
  | None => Ret w
  | Some cl =>
      match queue cl, remote cl with
      | [], _ => Ret w
      | _ :: _, None => UB
      | request :: rest, Some r =>
          let finish ok :=
            fun w => set_promises (<[promise_ request := ok]> (promises w))
                       (set_dma_client
                          (<[client := mkDmaClient (dma_client_id_ cl) (remote cl) rest]>
                             (dma_client_ w)) w) in
          if is_write_ request then
            f ← frame_cell (src_offset_ request) (len_ request);
            '(c, i, _) ← host_cell (heap w) r (dst_offset_ request) (len_ request);
            if fault (promise_ request) then Ret (finish false w)
            else Ret (finish true (set_heap (set_host_cell (heap w) c i (cache_ w !!! f)) w))
          else
            '(_, b) ← host_cell (heap w) r (src_offset_ request) (len_ request);
            f ← frame_cell (dst_offset_ request) (len_ request);
            if fault (promise_ request) then Ret (finish false w)
            else Ret (finish true (set_cache (<[f := b]> (cache_ w)) w))
      end
  end.
End threads.
