(* ===== verification/KvHost.v ===== *)
(** * KvHost: levelkv/src/host/host.cpp and the table of level_hashing.hpp

    The host allocates the two levels, exports each through four DMA servers,
    and allocates a new top level when the DPU asks for it. The functions work
    on the [world], whose [host] is the [Host] object. *)

From stdpp Require Import gmap.
From S2P Require Import Prelude.
From S2P Require Import KvBucket.
From S2P Require Import KvReplacer.
From S2P Require Import KvState.
From S2P Require Import KvDma.

(** [1 << n] of type [int]. *)
Definition shift1 (n : Z) : res Z := if (0 <=? n) && (n <? 31) then Ret (2 ^ n) else UB.

(** [GenSeeds]: random seeds until they differ; [rand] is the sequence of
    values of [rand()], [n] the next of them. *)
Fixpoint GenSeeds (fuel : nat) (rand : nat -> Z) (n : nat) : res (Z * Z) :=
  match fuel with
  | O => NoFuel
  | S fuel =>
      let f := u64 (rand n * 2 ^ (rand (n + 2)%nat mod 63)) in
      let s := u64 (rand (n + 1)%nat * 2 ^ (rand (n + 3)%nat mod 63)) in
      if f =? s then GenSeeds fuel rand (n + 4) else Ret (f, s)
  end.

Definition set_hs_expanding (x : list (nat * list DmaServer)) (h : Host) : Host :=
  mkHost (buckets0 h) (buckets1 h) (h_addr_capacity h) (h_bl_capacity h) (h_total_capacity h)
    (h_level h) (h_f_seed h) (h_s_seed h) (tl_dma_server_ h) (bl_dma_server_ h)
    (next_server_id_ h) (h_in_rehash h) (h_stop h) x.
Definition set_hs_flags (in_rehash stop : bool) (h : Host) : Host :=
  mkHost (buckets0 h) (buckets1 h) (h_addr_capacity h) (h_bl_capacity h) (h_total_capacity h)
    (h_level h) (h_f_seed h) (h_s_seed h) (tl_dma_server_ h) (bl_dma_server_ h)
    (next_server_id_ h) in_rehash stop (expanding h).
Definition set_hs_next_id (x : Z) (h : Host) : Host :=
  mkHost (buckets0 h) (buckets1 h) (h_addr_capacity h) (h_bl_capacity h) (h_total_capacity h)
    (h_level h) (h_f_seed h) (h_s_seed h) (tl_dma_server_ h) (bl_dma_server_ h)
    x (h_in_rehash h) (h_stop h) (expanding h).

(** [n] DMA servers for consecutive parts of a block, with numbers from [id]
    ([GetNextServerId]). *)
Fixpoint servers_from (n : nat) (id : Z) (p : hptr) (mmap_size : Z) : list DmaServer :=
  match n with
  | O => []
  | S n => mkDmaServer id p mmap_size ::
           servers_from n (u64 (id + 1)) (HPtr (blk p) (off p + mmap_size)) mmap_size
  end.

Section host.
Context {E : Env}.

(** [alignedmalloc] of [n] buckets, then [memset] to 0. When the allocation
    fails, [alignedmalloc] returns an indeterminate pointer, which [memset]
    writes to. *)
Definition alloc_buckets (n : Z) (w : world) : res (nat * world) :=
  if oom (next_blk w) then UB
  else
    Ret (next_blk w,
         set_next_blk (S (next_blk w))
           (set_heap (<[next_blk w := replicate (Z.to_nat n) zero_bucket]> (heap w)) w)).

(** [Comch::Send] of the host. *)
Definition host_send (m : ComchMsg) (w : world) : world := set_to_dpu (to_dpu w ++ [m]) w.

Definition send_all (ms : list ComchMsg) (w : world) : world := foldl (fun w m => host_send m w) w ms.

(** The constructors of [LevelHashTable] and [Host]: [w] is the world before. *)
Definition Host_construct (level f_seed s_seed : Z) (w : world) : res world :=
  if level <? 3 then Exit 134 0 (* assert(level >= 3) *)
  else
    addr_capacity ← shift1 level;
    bl_capacity ← shift1 (level - 1);
    '(b0, w) ← alloc_buckets addr_capacity w;
    '(b1, w) ← alloc_buckets bl_capacity w;
    let half := Z.of_nat (THREADS / 2) in
    let bl_servers := servers_from (THREADS / 2) 0 (HPtr b1 0)
                        (bl_capacity / half * sizeof_FixedBucket) in
    let tl_servers := servers_from (THREADS / 2) half (HPtr b0 0)
                        (addr_capacity / half * sizeof_FixedBucket) in
    let h := mkHost b0 b1 addr_capacity bl_capacity (u64 (addr_capacity + bl_capacity)) level
               f_seed s_seed tl_servers bl_servers (2 * half) false false [] in
    Ret (send_all (COMCH_MSG_EXPORT_SEEDS f_seed s_seed ::
                   map ExportMmap bl_servers ++ map ExportMmap tl_servers) (set_host h w)).

(** [Host::Expand] up to its waiting loop. *)
Definition Expand_begin (w : world) : res world :=
  let h := host w in
  let new_size := u64 (h_addr_capacity h * 2 * sizeof_FixedBucket) in
  let new_size_per_server := new_size / Z.of_nat (THREADS / 2) in
  '(new_mem, w) ← alloc_buckets (new_size / sizeof_FixedBucket) w;
  let servers := servers_from (THREADS / 2) (next_server_id_ h) (HPtr new_mem 0)
                   new_size_per_server in
  let h := set_hs_expanding ((new_mem, servers) :: expanding h)
             (set_hs_flags true (h_stop h)
                (set_hs_next_id (u64 (next_server_id_ h + Z.of_nat (THREADS / 2))) h)) in
  Ret (send_all (map ExportMmap servers) (set_host h w)).

(** [Host::Expand] after its waiting loop, [ExpandParameters] included. The
    bottom level is freed; freeing it twice would be undefined. *)
Definition Expand_end (new_mem : nat) (servers : list DmaServer)
  (rest : list (nat * list DmaServer)) (w : world) : res world :=
  let h := host w in
  match heap w !! buckets1 h with
  | None => UB
  | Some _ =>
      let addr := u64 (h_addr_capacity h * 2) in
      let bl := u64 (h_bl_capacity h * 2) in
      Ret (set_host (mkHost new_mem (buckets0 h) addr bl (u64 (addr + bl)) (u64 (h_level h + 1))
                       (h_f_seed h) (h_s_seed h) servers (tl_dma_server_ h)
                       (next_server_id_ h) (h_in_rehash h) (h_stop h) rest)
             (set_heap (base.delete (buckets1 h) (heap w)) w))
  end.

(** [comch_host_recv_callback] *)
Definition comch_host_recv_callback (msg : ComchMsg) (w : world) : res world :=
  match msg with
  | COMCH_MSG_CONTROL EXPAND => Expand_begin w
  | COMCH_MSG_CONTROL EXPAND_FINISH =>
      Ret (host_send (COMCH_MSG_CONTROL EXPAND_FINISH)
             (set_host (set_hs_flags false (h_stop (host w)) (host w)) w))
  | COMCH_MSG_CONTROL EXIT =>
      Ret (set_host (set_hs_flags (h_in_rehash (host w)) true (host w)) w)
  | _ => Ret w
  end.

(** A step of the host's thread, in [Host::Run] or in the waiting loop of
    [Host::Expand]: leave the loop when the rehashing is over, otherwise serve a
    message. *)
Definition host_step (w : world) : res world :=
  match expanding (host w), h_in_rehash (host w) with
  | (new_mem, servers) :: rest, false => Expand_end new_mem servers rest w
  | stack, _ =>
      if match stack with [] => h_stop (host w) | _ => false end then Ret w
      else match to_host w with
           | [] => Ret w
           | msg :: ms => comch_host_recv_callback msg (set_to_host ms w)
           end
  end.
End host.
