(* ===== verification/KvDpu.v ===== *)
(** * KvDpu: levelkv/src/dpu/dpu.cpp

    The DPU's side of the store: the cache of buckets, the four kinds of
    requests, and the expansion of the table. [ENSURE(expr, message)] expands
    to [((void)0)] (utils.hpp), so that its argument is not evaluated: where an
    insertion stands inside [ENSURE], nothing is inserted. *)

From stdpp Require Import gmap.
From Stdlib Require Import SpecFloat.
From S2P Require Import Prelude.
From S2P Require Import KvBucket.
From S2P Require Import KvReplacer.
From S2P Require Import KvState.
From S2P Require Import KvDma.
From S2P Require Import KvHost.

(** A [size_t] stored in an [int64_t]. *)
Definition s64 (z : Z) : Z := let r := u64 z in if r <? 2 ^ 63 then r else r - 2 ^ 64.

(** ** Placement *)

Definition GetClientBucket (g : geometry) (bucket : Z) : Z * Z :=
  let half := Z.of_nat (THREADS / 2) in
  if bucket <? tl_start_bucket_id_ g then
    let k := u64 (bucket - bl_start_bucket_id_ g) in
    let gs := bl_capacity_ g / half in
    (k / gs, (k mod gs) * sizeof_FixedBucket)
  else if u64 bucket <? u64 (tl_start_bucket_id_ g + addr_capacity_ g) then
    let k := u64 (bucket - tl_start_bucket_id_ g) in
    let gs := addr_capacity_ g / half in
    (k / gs + half, (k mod gs) * sizeof_FixedBucket)
  else
    let k := u64 (bucket - next_start_bucket_id_ g) in
    let gs := u64 (addr_capacity_ g * 2) / half in
    (k / gs + Z.of_nat THREADS, (k mod gs) * sizeof_FixedBucket).

Definition Get4Buckets (g : geometry) (hash1 hash2 : Z) : list Z :=
  let addr := addr_capacity_ g in
  let bl := bl_capacity_ g in
  let idx1 := hash1 mod (addr / 2) in
  let idx2 := addr / 2 + hash2 mod (addr / 2) in
  let idx3 := hash1 mod (addr / 4) in
  let idx4 := addr / 4 + hash2 mod (addr / 4) in
  [s64 (addr - 4 + idx1); s64 (addr - 4 + idx2); s64 (bl - 4 + idx3); s64 (bl - 4 + idx4)].

Definition GetExpandBucketIds (d : Dpu) (key : list Z) : Z * Z :=
  let g := geo d in
  let hash1 := GenericType.Hash key (f_seed_ d) in
  let hash2 := GenericType.Hash key (s_seed_ d) in
  (s64 (tl_start_bucket_id_ g + addr_capacity_ g + hash1 mod addr_capacity_ g),
   s64 (tl_start_bucket_id_ g + addr_capacity_ g * 2 + hash2 mod addr_capacity_ g)).

(** ** The load factor

    [double(size_) / double(ASSOC_NUM * (bl_capacity_ + addr_capacity_))],
    returned as a [float], compared with the [double] 0.95. *)
Definition double_of (z : Z) : spec_float := binary_normalize 53 1024 z 0 false.

(** A value rounded to [prec] bits; [SFcompare] needs one common format. *)
Definition round_to (prec emax : Z) (x : spec_float) : spec_float :=
  match x with
  | S754_finite s m e => binary_normalize prec emax (if s then Zneg m else Zpos m) e s
  | x => x
  end.

Definition GetCurrentLoadFactor (d : Dpu) : spec_float :=
  round_to 24 128
    (SFdiv 53 1024 (double_of (size_ d))
       (double_of (u64 (Z.of_nat ASSOC_NUM * (bl_capacity_ (geo d) + addr_capacity_ (geo d)))))).

(** [GetCurrentLoadFactor() >= 0.95] *)
Definition load_reached (d : Dpu) : bool :=
  match SFcompare (round_to 53 1024 (GetCurrentLoadFactor d))
          (SFdiv 53 1024 (double_of 95) (double_of 100)) with
  | Some Gt | Some Eq => true
  | _ => false
  end.

Section worker.
Context {E : Env}.

(** ** Other threads *)

Definition actor_step (a : actor) (w : world) : res world :=
  match a with
  | DmaThread c => ProcessQueue_step c w
  | HostThread => host_step w
  end.

Definition tick : kv unit := fun w =>
  w' ← for_each (sched (clock w)) (set_clock (S (clock w)) w) actor_step;
  Ret (tt, w').

(** Waiting for a promise: the client's thread gets to it, because it serves its
    queue in order; [fuel] bounds the requests before it. *)
Fixpoint await (fuel : nat) (client promise : nat) : kv bool := fun w =>
  match promises w !! promise with
  | Some ok => Ret (ok, w)
  | None => match fuel with
            | O => NoFuel
            | S fuel => w ← ProcessQueue_step client w; await fuel client promise w
            end
  end.

(** [std::future<bool>]: the client and the promise. *)
Definition future : Type := nat * nat.

Definition future_get (f : future) : kv bool :=
  tick;;
  cls ← gets dma_client_;
  await (default O (length ∘ queue <$> cls !! f.1)) f.1 f.2.

(** ** Accesses to the cache *)

Definition frame_read (frame : Z) : kv LevelBucket := tick;; c ← gets cache_; at_index c frame.

Definition frame_write (frame : Z) (b : LevelBucket) : kv unit :=
  tick;;
  c ← gets cache_;
  _ ← at_index c frame;
  modify (fun w => set_cache (<[Z.to_nat frame := b]> (cache_ w)) w).

Definition dirty (frame : Z) : kv bool := fl ← getd dirty_flag_; at_index fl frame.

Definition put_dirty (frame : Z) (b : bool) : kv unit :=
  _ ← dirty frame;
  modd (fun d => set_dirty_flag (<[Z.to_nat frame := b]> (dirty_flag_ d)) d).

(** [cache_[frame].op(..., dirty_flag_[frame])] *)
Definition frame_update (frame : Z) (op : LevelBucket -> bool -> bool * LevelBucket * bool) : kv bool :=
  b ← frame_read frame;
  fl ← dirty frame;
  let '(r, b', fl') := op b fl in
  frame_write frame b';;
  put_dirty frame fl';;
  mret r.

Definition RecordAccess_ (frame : Z) : kv unit :=
  r ← getd replacer_;
  r ← run_res (RecordAccess r frame);
  modd (set_replacer r).

Definition table_put (bucket frame : Z) : kv unit :=
  modd (fun d => set_bucket_table (<[bucket := frame]> (bucket_table_ d)) d).

(** ** Filling frames *)

Definition FlushBucket (frame : Z) : kv future :=
  ids ← getd bucket_ids_;
  bucket ← at_index ids frame;
  g ← getd geo;
  let '(client, offset) := GetClientBucket g bucket in
  p ← ScheduleReadWrite (Z.to_nat client) true (frame * sizeof_FixedBucket) offset sizeof_FixedBucket;
  mret (Z.to_nat client, p).

(** The first half of [FetchBucket] and of [NewBucket]: a frame for the bucket,
    and the write-back of its previous contents if they are dirty. *)
Definition take_frame (bucket : Z) : kv (Z * option future) :=
  free ← getd free_list_;
  tf ←
    (match free with
    | [] =>
        r ← getd replacer_;
        let '(frame, r) := Evict r in
        modd (set_replacer r);;
        fl ← dirty frame;
        if fl : bool then
          f ← FlushBucket frame;
          put_dirty frame false;;
          mret (frame, Some f)
        else mret (frame, None)
    | frame :: rest =>
        modd (set_free_list rest);;
        put_dirty frame false;;
        mret (frame, None)
    end : kv (Z * option future));
  let '(target_frame, flush) := tf in
  ids ← getd bucket_ids_;
  old ← at_index ids target_frame;
  modd (fun d => set_bucket_table (base.delete old (bucket_table_ d)) d);;
  modd (fun d => set_bucket_ids (<[Z.to_nat target_frame := bucket]> (bucket_ids_ d)) d);;
  RecordAccess_ target_frame;;
  mret (target_frame, flush).

(** [flush_future.wait()] when a flush was started; its result is not used. *)
Definition wait_flush (flush : option future) : kv unit :=
  match flush with
  | Some f => future_get f;; mret tt
  | None => mret tt
  end.

(** A fetch in progress: the read and the frame it fills. *)
Definition fetch : Type := future * Z.

Definition FetchBucket (bucket : Z) : kv fetch :=
  '(target_frame, flush) ← take_frame bucket;
  g ← getd geo;
  let '(client, offset) := GetClientBucket g bucket in
  wait_flush flush;;
  p ← ScheduleReadWrite (Z.to_nat client) false offset (target_frame * sizeof_FixedBucket)
        sizeof_FixedBucket;
  mret ((Z.to_nat client, p), target_frame).

(** [f.get()]: the success flag and the frame. *)
Definition fetch_get (f : fetch) : kv (bool * Z) :=
  ok ← future_get f.1; mret (ok, f.2).

Definition CopyBucket (bucket frame : Z) : kv future :=
  g ← getd geo;
  let '(client, offset) := GetClientBucket g bucket in
  p ← ScheduleReadWrite (Z.to_nat client) false offset (frame * sizeof_FixedBucket) sizeof_FixedBucket;
  mret (Z.to_nat client, p).

Definition NewBucket (bucket : Z) : kv Z :=
  '(target_frame, flush) ← take_frame bucket;
  wait_flush flush;;
  frame_write target_frame zero_bucket;;
  mret target_frame.

(** The first loop of [FetchNBuckets]: new buckets of the next level are
    zeroed, cached ones are found, the others are being fetched. *)
Fixpoint fetch_start (buckets : list Z) : kv (list (Z + fetch)) :=
  match buckets with
  | [] => mret []
  | bucket :: rest =>
      g ← getd geo;
      constructed ← getd new_bucket_constructed_;
      fresh ← (if next_start_bucket_id_ g <=? bucket
               then b ← at_index constructed (bucket - next_start_bucket_id_ g); mret (negb b)
               else mret false);
      table ← getd bucket_table_;
      x ← (if fresh : bool then
             frame ← NewBucket bucket;
             table_put bucket frame;;
             modd (fun d => set_new_bucket_constructed
                     (<[Z.to_nat (bucket - next_start_bucket_id_ g) := true]> (new_bucket_constructed_ d)) d);;
             mret (inl frame)
           else match table !! bucket with
                | Some frame => RecordAccess_ frame;; mret (inl frame)
                | None => f ← FetchBucket bucket; mret (inr f)
                end);
      xs ← fetch_start rest;
      mret (x :: xs)
  end.

(** Its second loop. *)
Fixpoint fetch_finish (buckets : list Z) (xs : list (Z + fetch)) : kv (list Z) :=
  match buckets, xs with
  | bucket :: buckets, inl frame :: xs => fs ← fetch_finish buckets xs; mret (frame :: fs)
  | bucket :: buckets, inr f :: xs =>
      '(_, frame) ← fetch_get f;
      table_put bucket frame;;
      fs ← fetch_finish buckets xs;
      mret (frame :: fs)
  | _, _ => mret []
  end.

Definition FetchNBuckets (buckets : list Z) : kv (list Z) :=
  xs ← fetch_start buckets; fetch_finish buckets xs.

(** [FlushAll]: write back every frame, dirty or not. *)
Fixpoint flush_start (frames : list nat) : kv (list future) :=
  match frames with
  | [] => mret []
  | i :: rest =>
      f ← FlushBucket (Z.of_nat i);
      put_dirty (Z.of_nat i) false;;
      fs ← flush_start rest;
      mret (f :: fs)
  end.

Fixpoint wait_all (fs : list future) : kv unit :=
  match fs with
  | [] => mret tt
  | f :: fs => future_get f;; wait_all fs
  end.

Definition FlushAll : kv unit := fs ← flush_start (upto CACHE_SIZE); wait_all fs.

(** ** Requests *)

(** The first loop of [ProcessSearch], [ProcessDelete] and [ProcessUpdate] over
    the candidate buckets: [op] is tried on those in the cache; the others are
    collected. *)
Fixpoint scan_cached (op : Z -> kv bool) (bs to_fetch : list Z) : kv (bool * list Z) :=
  match bs with
  | [] => mret (false, to_fetch)
  | b :: bs =>
      table ← getd bucket_table_;
      match table !! b with
      | Some frame =>
          RecordAccess_ frame;;
          r ← op frame;
          if r : bool then mret (true, to_fetch) else scan_cached op bs to_fetch
      | None => scan_cached op bs (to_fetch ++ [b])
      end
  end.

(** Their second loop. *)
Fixpoint start_fetches (to_fetch : list Z) : kv (list fetch) :=
  match to_fetch with
  | [] => mret []
  | b :: rest => f ← FetchBucket b; fs ← start_fetches rest; mret (f :: fs)
  end.

(** [SearchSlot] and the callback on success. *)
Definition search_frame (key : list Z) (frame : Z) : kv bool :=
  b ← frame_read frame;
  match SearchSlot b key with
  | Some v => modify (fun w => set_replies (replies w ++ [Some (GenericType.ToString v)]) w);; mret true
  | None => mret false
  end.

(** The third loop of [ProcessSearch]: every fetch is completed. *)
Fixpoint search_fetched (key : list Z) (to_fetch : list Z) (fs : list fetch) (searched : bool) : kv bool :=
  match to_fetch, fs with
  | b :: to_fetch, f :: fs =>
      '(success, frame) ← fetch_get f;
      if success : bool then
        table_put b frame;;
        found ← (if searched then mret false else search_frame key frame);
        search_fetched key to_fetch fs (searched || found)
      else search_fetched key to_fetch fs searched
  | _, _ => mret searched
  end.

Definition ProcessSearch (request : Request) : kv bool :=
  g ← getd geo;
  '(found, to_fetch) ← scan_cached (search_frame (rkey_ request))
                         (Get4Buckets g (hash1_ request) (hash2_ request)) [];
  if found : bool then mret true
  else
    fs ← start_fetches to_fetch;
    search_fetched (rkey_ request) to_fetch fs false.

(** The third loop of [ProcessDelete] and [ProcessUpdate]: it returns as soon
    as the key was found. *)
Fixpoint change_fetched (op : Z -> kv bool) (to_fetch : list Z) (fs : list fetch) : kv bool :=
  match to_fetch, fs with
  | b :: to_fetch, f :: fs =>
      '(success, frame) ← fetch_get f;
      if success : bool then
        table_put b frame;;
        r ← op frame;
        if r : bool then mret true else change_fetched op to_fetch fs
      else change_fetched op to_fetch fs
  | _, _ => mret false
  end.

Definition change_first (op : Z -> kv bool) (request : Request) : kv bool :=
  g ← getd geo;
  '(found, to_fetch) ← scan_cached op (Get4Buckets g (hash1_ request) (hash2_ request)) [];
  if found : bool then mret true
  else
    fs ← start_fetches to_fetch;
    change_fetched op to_fetch fs.

Definition ProcessDelete (request : Request) : kv bool :=
  change_first (fun frame => frame_update frame (fun b d => DeleteSlot b (rkey_ request) d)) request.

Definition ProcessUpdate (request : Request) : kv bool :=
  change_first (fun frame =>
    frame_update frame (fun b d => UpdateSlot b (rkey_ request) (rvalue_ request) d)) request.

(** ** Insertion *)

(** The loop of [tryInsertInto2Buckets] that finds or fetches the buckets. *)
Fixpoint pair_start (bs : list Z) : kv (list (Z + fetch)) :=
  match bs with
  | [] => mret []
  | b :: bs =>
      table ← getd bucket_table_;
      x ← (match table !! b with
           | None => f ← FetchBucket b; mret (inr f)
           | Some frame => RecordAccess_ frame;; mret (inl frame)
           end : kv (Z + fetch));
      xs ← pair_start bs;
      mret (x :: xs)
  end.

(** The loop that completes the fetches; a failed one ends the attempt. *)
Fixpoint pair_finish (bs : list Z) (xs : list (Z + fetch)) : kv (option (list Z)) :=
  match bs, xs with
  | b :: bs, inl frame :: xs => fs ← pair_finish bs xs; mret (cons frame <$> fs)
  | b :: bs, inr f :: xs =>
      '(success, frame) ← fetch_get f;
      if success : bool then
        table_put b frame;;
        fs ← pair_finish bs xs;
        mret (cons frame <$> fs)
      else mret None
  | _, _ => mret (Some [])
  end.

Definition insert_frame (request : Request) (frame : Z) : kv bool :=
  frame_update frame (fun b d => InsertSlot b (rkey_ request) (rvalue_ request) d).

Definition tryInsertInto2Buckets (request : Request) (b0 b1 : Z) : kv bool :=
  xs ← pair_start [b0; b1];
  frames ← pair_finish [b0; b1] xs;
  match frames with
  | Some [f0; f1] =>
      c0 ← frame_read f0;
      c1 ← frame_read f1;
      if (Count c1 <? Count c0)%nat then insert_frame request f1 else insert_frame request f0
  | _ => mret false
  end.

(** A frame that holds a bucket: from the cache, else fetched at once. *)
Definition frame_of (bucket : Z) : kv Z :=
  table ← getd bucket_table_;
  match table !! bucket with
  | Some frame => mret frame
  | None =>
      f ← FetchBucket bucket;
      '(_, frame) ← fetch_get f;
      table_put bucket frame;;
      mret frame
  end.

(** The loop over [j]: move slot [slot] of the source to one of its two
    buckets in the top level. *)
Fixpoint move_to (src_frame : Z) (slot : nat) (src_bucket : Z) (dsts : list Z) : kv bool :=
  match dsts with
  | [] => mret false
  | dst_nb :: dsts =>
      if dst_nb =? src_bucket then move_to src_frame slot src_bucket dsts
      else
        dst_frame ← frame_of dst_nb;
        src ← frame_read src_frame;
        let e := slot_at src slot in
        r ← frame_update dst_frame (fun b d => InsertSlot b (key_ e) (value_ e) d);
        if r : bool then
          src ← frame_read src_frame;
          frame_write src_frame (set_token src slot 0);;
          mret true
        else move_to src_frame slot src_bucket dsts
  end.

(** The loop over the slots of the source bucket. *)
Fixpoint move_slots (src_frame src_bucket : Z) (slots : list nat) : kv bool :=
  match slots with
  | [] => mret false
  | slot :: slots =>
      src ← frame_read src_frame;
      let k := key_ (slot_at src slot) in
      d ← getd id;
      let dst_nbs := Get4Buckets (geo d) (GenericType.Hash k (f_seed_ d)) (GenericType.Hash k (s_seed_ d)) in
      r ← move_to src_frame slot src_bucket (take 2 dst_nbs);
      if r : bool then mret true else move_slots src_frame src_bucket slots
  end.

(** The loop over the candidate buckets. After a move the insertion into the
    freed slot stands inside [ENSURE]. *)
Fixpoint move_one (bs : list Z) : kv bool :=
  match bs with
  | [] => mret false
  | src_bucket :: bs =>
      src_frame ← frame_of src_bucket;
      moved ← move_slots src_frame src_bucket (upto ASSOC_NUM);
      if moved : bool then mret true else move_one bs
  end.

(** ** Expansion *)

(** The loop of [splitBucket] over the slots of a copy of the bucket: the two
    buckets of the next level are brought into the cache and counted; the
    insertion stands inside [ENSURE]. *)
Fixpoint split_slots (bucket : LevelBucket) (slots : list nat) : kv unit :=
  match slots with
  | [] => mret tt
  | slot :: slots =>
      (if token_at bucket slot =? 1 then
         d ← getd id;
         let nbs := GetExpandBucketIds d (key_ (slot_at bucket slot)) in
         fs ← FetchNBuckets [nbs.1; nbs.2];
         match fs with
         | [f0; f1] => _ ← frame_read f0; _ ← frame_read f1; mret tt
         | _ => mret tt
         end
       else mret tt);;
      split_slots bucket slots
  end.

Definition splitBucket (frame : Z) : kv unit :=
  bucket ← frame_read frame;
  split_slots bucket (upto ASSOC_NUM);;
  put_dirty frame false.

Fixpoint split_all (n : nat) (b : Z) : kv unit :=
  match n with
  | O => mret tt
  | S n =>
      frame ← frame_of b;
      splitBucket frame;;
      split_all n (b + 1)
  end.

(** [Comch::Send] of the DPU. *)
Definition dpu_send (m : ComchMsg) : kv unit := modify (fun w => set_to_host (to_host w ++ [m]) w).

(** [GenNextClientId] and a new [DmaClient], appended. *)
Definition new_client : kv unit :=
  id ← getd next_client_id_;
  modd (set_next_client_id (u64 (id + 1)));;
  modify (fun w => set_dma_client (dma_client_ w ++ [mkDmaClient id None []]) w).

Fixpoint repeat_kv (n : nat) (m : kv unit) : kv unit :=
  match n with O => mret tt | S n => m;; repeat_kv n m end.

(** [dma_client_[i]->Import(msg->exp_msg_)] *)
Definition import_client (i : Z) (a : hptr) (len : Z) : kv unit :=
  cls ← gets dma_client_;
  cl ← at_index cls i;
  modify (fun w => set_dma_client (<[Z.to_nat i := Import cl a len]> (dma_client_ w)) w).

Definition comch_dpu_recv_callback (msg : ComchMsg) : kv unit :=
  match msg with
  | COMCH_MSG_EXPORT_DESCRIPTOR a len =>
      d ← getd id;
      if in_init_ d then
        import_client (u64 (Z.of_nat THREADS - mmap_to_recv_ d)) a len;;
        modd (fun d => set_mmap_to_recv (u64 (mmap_to_recv_ d - 1)) d);;
        modd (fun d => if mmap_to_recv_ d =? 0 then set_in_init false d else d)
      else if in_rehash_ d then
        import_client (u64 (Z.of_nat (THREADS + THREADS / 2) - mmap_to_recv_ d)) a len;;
        modd (fun d => set_mmap_to_recv (u64 (mmap_to_recv_ d - 1)) d)
      else mret tt
  | COMCH_MSG_EXPORT_SEEDS f s =>
      modd (fun d => set_seed_recved true (set_s_seed s (set_f_seed f d)))
  | COMCH_MSG_CONTROL EXPAND_FINISH => modd (set_in_rehash false)
  | _ => mret tt
  end.

(** [dpu_comch_->Progress()]: serve a message if there is one. *)
Definition Progress : kv unit :=
  ms ← gets to_dpu;
  match ms with
  | [] => mret tt
  | m :: ms => modify (set_to_dpu ms);; comch_dpu_recv_callback m
  end.

(** A loop that polls the channel while [cond] holds. Other threads act as
    scheduled; when there is nothing to serve, the poll is repeated until the
    host has taken a step. *)
Fixpoint poll_while (fuel : nat) (cond : Dpu -> bool) : kv unit :=
  d ← getd id;
  if cond d then
    match fuel with
    | O => stuck
    | S fuel =>
        tick;;
        ms ← gets to_dpu;
        (match ms with
         | [] => fun w => w ← host_step w; Ret (tt, w)
         | _ => mret tt
         end);;
        Progress;;
        poll_while fuel cond
    end
  else mret tt.

(** Rounds of the polling loops of [Expand]: the host may still have to leave
    the loop of its last expansion, and then sends at most four messages. *)
Definition poll_fuel : nat := 8.

Definition Expand : kv unit :=
  g ← getd geo;
  modd (set_new_bucket_constructed (replicate (Z.to_nat (u64 (addr_capacity_ g * 2))) false));;
  modd (set_in_rehash true);;
  modd (set_mmap_to_recv (Z.of_nat (THREADS / 2)));;
  dpu_send (COMCH_MSG_CONTROL EXPAND);;
  repeat_kv (THREADS / 2) new_client;;
  poll_while poll_fuel (fun d => negb (mmap_to_recv_ d =? 0));;
  split_all (Z.to_nat (tl_start_bucket_id_ g - bl_start_bucket_id_ g)) (bl_start_bucket_id_ g);;
  dpu_send (COMCH_MSG_CONTROL EXPAND_FINISH);;
  let addr := u64 (addr_capacity_ g * 2) in
  modd (set_geo (mkGeometry (tl_start_bucket_id_ g) (next_start_bucket_id_ g)
                   (s64 (next_start_bucket_id_ g + addr)) (u64 (level_ g + 1))
                   addr (u64 (bl_capacity_ g * 2))));;
  modify (fun w => set_dma_client (drop (THREADS / 2) (dma_client_ w)) w);;
  poll_while poll_fuel in_rehash_.

Definition ProcessInsert (request : Request) : kv bool :=
  d ← getd id;
  (if load_reached d then Expand else mret tt);;
  g ← getd geo;
  match Get4Buckets g (hash1_ request) (hash2_ request) with
  | [b0; b1; b2; b3] =>
      r ← tryInsertInto2Buckets request b0 b1;
      if r : bool then mret true
      else
        r ← tryInsertInto2Buckets request b2 b3;
        if r : bool then mret true
        else move_one [b0; b1; b2; b3]
  | _ => mret false
  end.

(** ** The worker thread *)

(** The body of the [switch] of [Run]. *)
Definition process (request : Request) : kv unit :=
  match request_type_ request with
  | START => mret tt
  | END_ => dpu_send (COMCH_MSG_CONTROL EXIT);; modd (set_stop true)
  | SEARCH =>
      r ← ProcessSearch request;
      if r : bool then mret tt
      else modify (fun w => set_replies (replies w ++ [None]) w)
  | INSERT =>
      r ← ProcessInsert request;
      if r : bool then modd (fun d => set_size (u64 (size_ d + 1)) d) else mret tt
  | DELETE => ProcessDelete request;; mret tt
  | UPDATE => mret tt
  end.

(** [Run] after [running_] was set: [front()] of an empty queue is undefined.
    [fuel] bounds the requests served. *)
Fixpoint Run (fuel : nat) : kv unit :=
  d ← getd id;
  if stop_ d then mret tt
  else match fuel with
       | O => stuck
       | S fuel =>
           match request_queue_ d with
           | [] => undefined
           | request :: rest =>
               modd (set_request_queue rest);;
               process request;;
               Run fuel
           end
       end.

(** ** The constructor and the client's calls *)

(** [Dpu::Dpu] up to the loop that waits for the host's messages; [f_seed] and
    [s_seed] are those of [GenSeeds]. *)
Definition Dpu_construct (level f_seed s_seed : Z) (w : world) : res world :=
  addr ← shift1 level;
  bl ← shift1 (level - 1);
  next ← shift1 (level + 1);
  let g := mkGeometry (bl - 4) (addr - 4) (next - 4) level addr bl in
  let d := mkDpu g (replicate CACHE_SIZE false) ∅ (replicate CACHE_SIZE (-1)) replacer_init
             (map Z.of_nat (upto CACHE_SIZE)) (replicate (Z.to_nat (u64 (addr * 2))) false)
             f_seed s_seed (Z.of_nat THREADS) false true false (Z.of_nat THREADS) 0 false false [] in
  Ret (set_dma_client (map (fun i => mkDmaClient (Z.of_nat i) None []) (upto THREADS))
         (set_cache (replicate CACHE_SIZE zero_bucket) (set_dpu d w))).

(** The waiting loop of the constructor: eight memory maps and the seeds. *)
Definition Dpu_connect : kv unit :=
  poll_while 9 (fun d => (0 <? mmap_to_recv_ d) || negb (seed_recved_ d));;
  modd (set_in_init false).

(** [Search], [Insert], [Update] and [Delete]: hash the key and queue the
    request. *)
Definition enqueue (t : RequestType) (key value : list Z) (d : Dpu) : Dpu :=
  set_request_queue
    (request_queue_ d ++
     [mkRequest t key value (GenericType.Hash key (f_seed_ d)) (GenericType.Hash key (s_seed_ d))]) d.

(** [Start] and [End]. *)
Definition enqueue_control (t : RequestType) (d : Dpu) : Dpu :=
  set_request_queue
    (request_queue_ d ++
     [mkRequest t (replicate FixedKey_len 0) (replicate FixedValue_len 0) 0 0]) d.

Definition RunBegin (d : Dpu) : Dpu := set_running true d.

End worker.
