(* ===== verification/KvAsync.v ===== *)
(** * KvAsync: where buckets are, and the threads beside the worker

    The DPU numbers the buckets of all levels it ever had; the host has a block
    of memory per level, which the DMA clients reach in four parts each. This
    file relates the two: the geometry of a table, the place of a bucket in
    host memory, and that [GetClientBucket] leads there.

    The DMA requests that were scheduled and not yet waited for, and what the
    other threads may do at a [tick] meanwhile: a read changes its frame and
    nothing else, a write changes its bucket in host memory and nothing else,
    and the host keeps the buckets of the table. The results hold for every
    schedule of the threads, provided that the DMA hardware reports no error. *)

From stdpp Require Import gmap.
From S2P Require Import Prelude.
From S2P Require Import KvBucket.
From S2P Require Import KvReplacer.
From S2P Require Import KvState.
From S2P Require Import KvDma.
From S2P Require Import KvHost.
From S2P Require Import KvDpu.

(** The largest level: its [2 ^ 50] buckets of 128 bytes are beyond any memory,
    and numbers of buckets and bytes stay within 64 bits. *)
Definition MAX_LEVEL : Z := 50.

(** The fields of a geometry are determined by the level. *)
Definition geo_at (n : Z) : geometry :=
  mkGeometry (2 ^ (n - 1) - 4) (2 ^ n - 4) (2 ^ (n + 1) - 4) n (2 ^ n) (2 ^ (n - 1)).

Definition level_ok (n : Z) : Prop := 3 <= n <= MAX_LEVEL.

(** The blocks of the levels; [b_new] is the next one during an expansion, and
    [b_lo] the first bucket that is still in use then. *)
Record blocks := mkBlocks { b_bl : nat; b_tl : nat; b_new : option nat; b_lo : Z }.

Definition distinct (B : blocks) : Prop :=
  b_bl B <> b_tl B /\ forall N, b_new B = Some N -> N <> b_bl B /\ N <> b_tl B.

(** The block and the position in it of a bucket of a table of level [n]. *)
Definition place (B : blocks) (n b : Z) : nat * nat :=
  if b <? 2 ^ n - 4 then (b_bl B, Z.to_nat (b - (2 ^ (n - 1) - 4)))
  else if b <? 2 ^ (n + 1) - 4 then (b_tl B, Z.to_nat (b - (2 ^ n - 4)))
  else (default O (b_new B), Z.to_nat (b - (2 ^ (n + 1) - 4))).

(** The buckets that exist: both levels, and the next one while it is built. *)
Definition valid (B : blocks) (n b : Z) : Prop :=
  (b_lo B <= b /\ 2 ^ (n - 1) - 4 <= b < 2 ^ (n + 1) - 4) \/
  (b_new B <> None /\ 2 ^ (n + 1) - 4 <= b < 2 ^ (n + 2) - 4).

(** What the DMA clients have imported: four parts of each block. *)
Definition part (c : nat) (sz : Z) : list (option (hptr * Z)) :=
  map (fun i => Some (HPtr c (Z.of_nat i * sz), sz)) (upto 4).

Definition remotes_of (B : blocks) (n : Z) : list (option (hptr * Z)) :=
  part (b_bl B) (2 ^ (n - 3) * sizeof_FixedBucket) ++
  part (b_tl B) (2 ^ (n - 2) * sizeof_FixedBucket) ++
  match b_new B with None => [] | Some N => part N (2 ^ (n - 1) * sizeof_FixedBucket) end.

Lemma pow2_split n k : 0 <= k -> 0 <= n -> 2 ^ (n + k) = 2 ^ k * 2 ^ n.
Proof. intros. rewrite Z.pow_add_r by lia. lia. Qed.

(** Every power the level bounds, in terms of one unknown. *)
Lemma level_powers n :
  level_ok n -> exists q, 1 <= q <= 2 ^ 47 /\ 2 ^ (n - 3) = q /\ 2 ^ (n - 2) = 2 * q /\
  2 ^ (n - 1) = 4 * q /\ 2 ^ n = 8 * q /\ 2 ^ (n + 1) = 16 * q /\ 2 ^ (n + 2) = 32 * q.
Proof.
  intros [H1 H2]. exists (2 ^ (n - 3)). unfold MAX_LEVEL in H2.
  replace (n - 2) with (n - 3 + 1) by lia. replace (n - 1) with (n - 3 + 2) by lia.
  replace (2 ^ n) with (2 ^ (n - 3 + 3)) by (f_equal; lia).
  replace (n + 1) with (n - 3 + 4) by lia. replace (n + 2) with (n - 3 + 5) by lia.
  rewrite !pow2_split by lia.
  pose proof (Z.pow_le_mono_r 2 0 (n - 3)). pose proof (Z.pow_le_mono_r 2 (n - 3) 47). lia.
Qed.

Ltac powers H :=
  let q := fresh "q" in
  let Hq := fresh "Hq" in
  let E3 := fresh "Ep" in let E2 := fresh "Ep" in let E1 := fresh "Ep" in
  let E0 := fresh "Ep" in let F1 := fresh "Ep" in let F2 := fresh "Ep" in
  pose proof (level_powers _ H) as (q & Hq & E3 & E2 & E1 & E0 & F1 & F2);
  rewrite ?E3, ?E2, ?E1, ?E0, ?F1, ?F2 in *.

Lemma part_lookup c sz i : (i < 4)%nat -> part c sz !! i = Some (Some (HPtr c (Z.of_nat i * sz), sz)).
Proof. intros Hi. destruct i as [|[|[|[|]]]]; try lia; done. Qed.

Lemma length_part c sz : length (part c sz) = 4%nat.
Proof. done. Qed.

(** The distance [k] of a bucket in its level, split into client and offset. *)
Lemma part_reaches c gs k :
  0 < gs -> 0 <= k < 4 * gs ->
  0 <= k / gs < 4 /\
  exists r, part c (gs * sizeof_FixedBucket) !! Z.to_nat (k / gs) = Some (Some r) /\ blk r.1 = c /\
  off r.1 + k mod gs * sizeof_FixedBucket = k * sizeof_FixedBucket /\ 0 <= off r.1 /\
  0 <= k mod gs * sizeof_FixedBucket /\ k mod gs * sizeof_FixedBucket + sizeof_FixedBucket <= r.2.
Proof.
  intros Hg Hk. assert (0 <= k / gs < 4) as Hq.
  { split; [by apply Z.div_pos; lia|]. apply Z.div_lt_upper_bound; lia. }
  split; [done|]. eexists. split; [apply part_lookup; lia|]. simpl. rewrite Z2Nat.id by lia.
  pose proof (Z.div_mod k gs ltac:(lia)). pose proof (Z.mod_pos_bound k gs Hg).
  unfold sizeof_FixedBucket. repeat split; nia.
Qed.

Lemma u64_fits z : 0 <= z < 2 ^ 64 -> u64 z = z.
Proof. intros H. by apply wrap_small. Qed.

Lemma s64_id z : 0 <= z < 2 ^ 63 -> s64 z = z.
Proof.
  intros H. unfold s64. rewrite u64_fits by lia. by rewrite (proj2 (Z.ltb_lt _ _)) by lia.
Qed.

(** The client of a bucket and its offset there. *)
Definition client_of (n b : Z) : nat := Z.to_nat (GetClientBucket (geo_at n) b).1.
Definition offset_of (n b : Z) : Z := (GetClientBucket (geo_at n) b).2.

Lemma client_reaches B n b :
  level_ok n -> valid B n b ->
  0 <= (GetClientBucket (geo_at n) b).1 /\
  exists r, remotes_of B n !! client_of n b = Some (Some r) /\ blk r.1 = (place B n b).1 /\
  off r.1 + offset_of n b = Z.of_nat (place B n b).2 * sizeof_FixedBucket /\ 0 <= off r.1 /\
  0 <= offset_of n b /\ offset_of n b + sizeof_FixedBucket <= r.2.
Proof.
  intros Hn Hb. unfold client_of, offset_of, GetClientBucket, place, remotes_of, valid in *.
  cbn [tl_start_bucket_id_ bl_start_bucket_id_ next_start_bucket_id_ addr_capacity_ bl_capacity_ geo_at].
  change (Z.of_nat (THREADS / 2)) with 4. change (Z.of_nat THREADS) with 8. powers Hn.
  replace (4 * q / 4) with q by (apply Z.div_unique_exact; lia).
  replace (8 * q / 4) with (2 * q) by (apply Z.div_unique_exact; lia).
  destruct (Z.ltb_spec b (8 * q - 4)); [|rewrite (u64_fits b) by lia].
  - rewrite u64_fits by lia.
    destruct (part_reaches (b_bl B) q (b - (4 * q - 4))) as (H1 & r & Hr & H2); [lia..|].
    cbn [fst snd]. split; [lia|]. exists r. rewrite Z2Nat.id by lia. split; [|done].
    rewrite lookup_app_l; [done|]. by eapply lookup_lt_Some.
  - rewrite (u64_fits (8 * q - 4 + 8 * q)) by lia. replace (8 * q - 4 + 8 * q) with (16 * q - 4) by lia.
    destruct (Z.ltb_spec b (16 * q - 4)).
    + rewrite u64_fits by lia.
      destruct (part_reaches (b_tl B) (2 * q) (b - (8 * q - 4))) as (H1 & r & Hr & H2); [lia..|].
      cbn [fst snd]. split; [lia|]. exists r. rewrite Z2Nat.id by lia. split; [|done].
      rewrite Z2Nat.inj_add by lia. rewrite lookup_app_r by (rewrite ?length_part; lia).
      rewrite lookup_app_l by (rewrite ?length_part; lia).
      replace (_ - _)%nat with (Z.to_nat ((b - (8 * q - 4)) / (2 * q))) by (rewrite ?length_part; lia). done.
    + rewrite !u64_fits by lia. replace (8 * q * 2 / 4) with (4 * q) by (apply Z.div_unique_exact; lia).
      destruct Hb as [Hb|[HN Hb]]; [lia|]. destruct (b_new B) as [N|]; [|done].
      destruct (part_reaches N (4 * q) (b - (16 * q - 4))) as (H1 & r & Hr & H2); [lia..|].
      cbn [fst snd]. split; [lia|]. exists r. rewrite Z2Nat.id by lia. split; [|done].
      rewrite Z2Nat.inj_add by lia. rewrite lookup_app_r by (rewrite ?length_part; lia).
      rewrite lookup_app_r by (rewrite ?length_part; lia).
      replace (_ - _ - _)%nat with (Z.to_nat ((b - (16 * q - 4)) / (4 * q))) by (rewrite ?length_part; lia). done.
Qed.

(** Different buckets are in different places. *)
Lemma place_inj B n b b' :
  level_ok n -> distinct B -> valid B n b -> valid B n b' -> place B n b = place B n b' -> b = b'.
Proof.
  intros Hn [HB HN] Hb Hb'. unfold place, valid in *. powers Hn.
  destruct (b_new B) as [N|]; [destruct (HN N eq_refl)|]; simpl;
    repeat case_match; rewrite ?Z.ltb_lt, ?Z.ltb_ge in *; intros ?; simplify_eq/=; try congruence; try lia;
    destruct Hb as [|[]], Hb' as [|[]]; try congruence; lia.
Qed.

Lemma valid_nonneg B n b : level_ok n -> valid B n b -> 0 <= b.
Proof. intros Hn [?|?]; powers Hn; lia. Qed.

(** ** The candidates of a key *)

Lemma Get4Buckets_eq n h1 h2 :
  level_ok n -> 0 <= h1 -> 0 <= h2 ->
  Get4Buckets (geo_at n) h1 h2 =
    [2 ^ n - 4 + h1 mod 2 ^ (n - 1); 2 ^ n - 4 + 2 ^ (n - 1) + h2 mod 2 ^ (n - 1);
     2 ^ (n - 1) - 4 + h1 mod 2 ^ (n - 2); 2 ^ (n - 1) - 4 + 2 ^ (n - 2) + h2 mod 2 ^ (n - 2)].
Proof.
  intros Hn H1 H2. unfold Get4Buckets. cbn [addr_capacity_ bl_capacity_ geo_at]. powers Hn.
  replace (8 * q / 2) with (4 * q) by (apply Z.div_unique_exact; lia).
  replace (8 * q / 4) with (2 * q) by (apply Z.div_unique_exact; lia).
  pose proof (Z.mod_pos_bound h1 (4 * q)). pose proof (Z.mod_pos_bound h2 (4 * q)).
  pose proof (Z.mod_pos_bound h1 (2 * q)). pose proof (Z.mod_pos_bound h2 (2 * q)).
  rewrite !s64_id by lia. repeat (f_equal; try lia).
Qed.

Lemma candidates_range n h1 h2 b :
  level_ok n -> 0 <= h1 -> 0 <= h2 -> b ∈ Get4Buckets (geo_at n) h1 h2 ->
  2 ^ (n - 1) - 4 <= b < 2 ^ (n + 1) - 4.
Proof.
  intros Hn H1 H2. rewrite Get4Buckets_eq by done. powers Hn.
  pose proof (Z.mod_pos_bound h1 (4 * q)). pose proof (Z.mod_pos_bound h2 (4 * q)).
  pose proof (Z.mod_pos_bound h1 (2 * q)). pose proof (Z.mod_pos_bound h2 (2 * q)).
  rewrite !elem_of_cons, elem_of_nil. intros [->|[->|[->|[->|[]]]]]; lia.
Qed.

(** The four candidates are different buckets. *)
Lemma candidates_NoDup n h1 h2 :
  level_ok n -> 0 <= h1 -> 0 <= h2 -> NoDup (Get4Buckets (geo_at n) h1 h2).
Proof.
  intros Hn H1 H2. rewrite Get4Buckets_eq by done. powers Hn.
  pose proof (Z.mod_pos_bound h1 (4 * q)). pose proof (Z.mod_pos_bound h2 (4 * q)).
  pose proof (Z.mod_pos_bound h1 (2 * q)). pose proof (Z.mod_pos_bound h2 (2 * q)).
  rewrite !NoDup_cons, !elem_of_cons, !elem_of_nil. repeat split; try lia. apply NoDup_nil_2.
Qed.

(** An expansion keeps the buckets of the top level as candidates. *)
Lemma candidates_expand n h1 h2 :
  level_ok n -> level_ok (n + 1) -> 0 <= h1 -> 0 <= h2 ->
  drop 2 (Get4Buckets (geo_at (n + 1)) h1 h2) = take 2 (Get4Buckets (geo_at n) h1 h2).
Proof.
  intros Hn Hn' H1 H2. rewrite !Get4Buckets_eq by done. simpl.
  replace (n + 1 - 1) with n by lia. by replace (n + 1 - 2) with (n - 1) by lia.
Qed.

(** * The threads beside the worker *)

(** A bucket of host memory. *)
Definition hostb (B : blocks) (n : Z) (h : gmap nat (list LevelBucket)) (b : Z) : option LevelBucket :=
  bs ← h !! (place B n b).1; bs !! (place B n b).2.

(** A DMA operation under way. *)
Record pending := Pend {
  p_write : bool;
  p_bucket : Z;
  p_frame : nat;
  p_client : nat;
  p_promise : nat
}.

#[export] Instance pending_eq_dec : EqDecision pending.
Proof. solve_decision. Defined.

Definition request_of (n : Z) (o : pending) : DmaRequest :=
  let fo := Z.of_nat (p_frame o) * sizeof_FixedBucket in
  let ho := offset_of n (p_bucket o) in
  if p_write o then mkDmaRequest true fo ho sizeof_FixedBucket (p_promise o)
  else mkDmaRequest false ho fo sizeof_FixedBucket (p_promise o).

Record io_ok (B : blocks) (n : Z) (w : world) (pend : list pending) : Prop := {
  io_level : level_ok n;
  io_distinct : distinct B;
  io_cache : length (cache_ w) = CACHE_SIZE;
  io_cache_wf : forall f x, cache_ w !! f = Some x -> wf_bucket x;
  io_remotes : remotes_of B n `prefix_of` (remote <$> dma_client_ w);
  io_host : forall b, valid B n b -> exists x, hostb B n (heap w) b = Some x /\ wf_bucket x;
  io_pend : forall o, o ∈ pend ->
    valid B n (p_bucket o) /\ (p_frame o < CACHE_SIZE)%nat /\
    p_client o = client_of n (p_bucket o) /\ (p_promise o < next_promise w)%nat;
  io_frames : NoDup (p_frame <$> pend);
  io_buckets : NoDup (p_bucket <$> pend);
  io_promises : NoDup (p_promise <$> pend);
  io_queue : forall c cl, dma_client_ w !! c = Some cl ->
    NoDup (promise_ <$> queue cl) /\
    forall r, r ∈ queue cl <->
      exists o, o ∈ pend /\ p_client o = c /\ promises w !! p_promise o = None /\ r = request_of n o;
  io_set : forall p x, promises w !! p = Some x -> (p < next_promise w)%nat;
  io_done : forall o x, o ∈ pend -> promises w !! p_promise o = Some x ->
    x = true /\ cache_ w !! p_frame o = hostb B n (heap w) (p_bucket o)
}.

(** What other threads leave as it is. *)
Record evolves (B : blocks) (n : Z) (pend : list pending) (w w' : world) : Prop := {
  ev_dpu : dpu w' = dpu w;
  ev_replies : replies w' = replies w;
  ev_next : next_promise w' = next_promise w;
  ev_remote : remote <$> dma_client_ w' = remote <$> dma_client_ w;
  ev_cache : forall f, (forall o, o ∈ pend -> p_write o = false -> p_frame o <> f) ->
    cache_ w' !! f = cache_ w !! f;
  ev_host : forall b, valid B n b -> (forall o, o ∈ pend -> p_write o = true -> p_bucket o <> b) ->
    hostb B n (heap w') b = hostb B n (heap w) b;
  ev_set : forall p x, promises w !! p = Some x -> promises w' !! p = Some x
}.

Lemma evolves_refl B n pend w : evolves B n pend w w.
Proof. by split. Qed.

Lemma evolves_trans B n pend w1 w2 w3 :
  evolves B n pend w1 w2 -> evolves B n pend w2 w3 -> evolves B n pend w1 w3.
Proof.
  intros [] []. split; try congruence.
  - intros f Hf. rewrite ev_cache1 by done. by apply ev_cache0.
  - intros b Hb Hp. rewrite ev_host1 by done. by apply ev_host0.
  - auto.
Qed.

(** An invariant of the host: its thread keeps it and the buckets of the table,
    and it does not depend on what DMA changes. *)
Class HostInv {E : Env} (B : blocks) (n : Z) (HI : world -> Prop) : Prop := {
  hi_step : forall w, HI w -> exists w', host_step w = Ret w' /\ HI w' /\
    dma_client_ w' = dma_client_ w /\ cache_ w' = cache_ w /\ promises w' = promises w /\
    next_promise w' = next_promise w /\ dpu w' = dpu w /\ replies w' = replies w /\
    (forall b, valid B n b -> hostb B n (heap w') b = hostb B n (heap w) b);
  hi_dma : forall w w', HI w -> host w' = host w -> to_host w' = to_host w -> to_dpu w' = to_dpu w ->
    next_blk w' = next_blk w -> (forall k, is_Some (heap w' !! k) <-> is_Some (heap w !! k)) ->
    (forall k, k <> b_bl B -> k <> b_tl B -> b_new B <> Some k -> heap w' !! k = heap w !! k) -> HI w'
}.

(** Buckets are in the blocks of the table. *)
Lemma place_block B n b k :
  valid B n b -> k <> b_bl B -> k <> b_tl B -> b_new B <> Some k -> k <> (place B n b).1.
Proof.
  intros Hb H1 H2 H3. unfold place. repeat case_match; simpl; try done. rewrite Z.ltb_ge in *.
  destruct Hb as [|[HN _]]; [lia|]. destruct (b_new B) as [N|]; [|done]. simpl. congruence.
Qed.

(** ** Cells *)

Lemma frame_cell_ok f :
  (f < CACHE_SIZE)%nat ->
  frame_cell (Z.of_nat f * sizeof_FixedBucket) sizeof_FixedBucket = Ret f.
Proof.
  intros Hf. unfold frame_cell, sizeof_FixedBucket, CACHE_SIZE in *.
  rewrite Z.mod_mul, Z.div_mul by lia. rewrite Nat2Z.id.
  by rewrite !(proj2 (Z.leb_le _ _)) by lia.
Qed.

Lemma host_cell_ok B n (cls : list DmaClient) h b x :
  level_ok n -> valid B n b -> remotes_of B n `prefix_of` (remote <$> cls) ->
  hostb B n h b = Some x ->
  exists cl r, cls !! client_of n b = Some cl /\ remote cl = Some r /\
  host_cell h r (offset_of n b) sizeof_FixedBucket = Ret (place B n b, x).
Proof.
  intros Hn Hb Hr Hx. destruct (client_reaches B n b Hn Hb) as (_ & r & Hc & Hblk & Hoff & H1 & H2 & H3).
  eapply prefix_lookup_Some in Hc; [|done]. rewrite list_lookup_fmap in Hc.
  apply fmap_Some in Hc as (cl & Hcl & Hrem). exists cl, r. split; [done|split; [done|]].
  unfold host_cell. rewrite Hoff, Hblk. unfold sizeof_FixedBucket in *.
  rewrite !(proj2 (Z.leb_le _ _)) by lia. rewrite Z.mod_mul, Z.div_mul by lia. simpl.
  rewrite Nat2Z.id. unfold hostb in Hx. destruct (h !! (place B n b).1) as [bs|]; [|done].
  simpl in Hx. rewrite Hx. by destruct (place B n b).
Qed.

(** Writing one cell. *)
Lemma hostb_set B n h b b' x :
  level_ok n -> distinct B -> valid B n b -> valid B n b' ->
  hostb B n (set_host_cell h (place B n b).1 (place B n b).2 x) b' =
  if decide (b' = b) then (fun _ => x) <$> hostb B n h b else hostb B n h b'.
Proof.
  intros Hn HB Hb Hb'. unfold hostb, set_host_cell. destruct (decide (b' = b)) as [->|Hne].
  - rewrite lookup_alter_eq. destruct (h !! (place B n b).1) as [bs|]; [|done]. simpl.
    destruct (bs !! (place B n b).2) eqn:E; simpl.
    + rewrite list_lookup_insert_eq; [done|]. by eapply lookup_lt_Some.
    + apply lookup_ge_None in E. by rewrite lookup_ge_None_2 by (rewrite length_insert; lia).
  - destruct (decide ((place B n b').1 = (place B n b).1)) as [Heq|Hne'].
    + rewrite Heq, lookup_alter_eq. destruct (h !! (place B n b).1) as [bs|]; [|done]. simpl.
      rewrite list_lookup_insert_ne; [done|]. intros Heq'. apply Hne, (place_inj B n); try done.
      apply injective_projections; congruence.
    + by rewrite lookup_alter_ne by congruence.
Qed.

Lemma set_host_cell_dom h c i x k : is_Some (set_host_cell h c i x !! k) <-> is_Some (h !! k).
Proof.
  unfold set_host_cell. destruct (decide (c = k)) as [->|Hne].
  - rewrite lookup_alter_eq, fmap_is_Some. done.
  - by rewrite lookup_alter_ne.
Qed.

(** Operations of one list are told apart by any of their fields. *)
Lemma pend_unique {A} (f : pending -> A) pend o o' :
  NoDup (f <$> pend) -> o ∈ pend -> o' ∈ pend -> f o = f o' -> o = o'.
Proof.
  intros Hnd Ho Ho' Heq. apply list_elem_of_lookup in Ho as [i Hi], Ho' as [j Hj].
  assert (i = j) as ->; [|congruence].
  eapply (NoDup_lookup _ i j (f o)); [done|..]; rewrite list_lookup_fmap, ?Hi, ?Hj; simpl; congruence.
Qed.

Section async.
Context {E : Env} (no_fault : calm).
Context (B : blocks) (n : Z) (HI : world -> Prop) `{!HostInv B n HI}.

Lemma promise_request o : promise_ (request_of n o) = p_promise o.
Proof. unfold request_of. by destruct (p_write o). Qed.

(** The world after the operation [o], first in the queue of its client, was
    carried out. *)
Definition performed (o : pending) (cl : DmaClient) (rest : list DmaRequest) (w : world) : world :=
  let w := if p_write o
           then set_heap (set_host_cell (heap w) (place B n (p_bucket o)).1 (place B n (p_bucket o)).2
                            (cache_ w !!! p_frame o)) w
           else set_cache (<[p_frame o := default zero_bucket (hostb B n (heap w) (p_bucket o))]> (cache_ w)) w in
  set_promises (<[p_promise o := true]> (promises w))
    (set_dma_client (<[p_client o := mkDmaClient (dma_client_id_ cl) (remote cl) rest]> (dma_client_ w)) w).

Lemma ProcessQueue_step_performs w pend c :
  io_ok B n w pend ->
  ProcessQueue_step c w = Ret w /\ (forall cl, dma_client_ w !! c = Some cl -> queue cl = []) \/
  exists o cl rest, o ∈ pend /\ p_client o = c /\ promises w !! p_promise o = None /\
    dma_client_ w !! c = Some cl /\ queue cl = request_of n o :: rest /\
    ProcessQueue_step c w = Ret (performed o cl rest w).
Proof using no_fault.
  intros Hio. unfold ProcessQueue_step. destruct (dma_client_ w !! c) as [cl|] eqn:Hcl; [|by left].
  destruct (queue cl) as [|r rest] eqn:Hq; [left; split; [done|]; by intros ? [= <-]|right].
  destruct (io_queue _ _ _ _ Hio c cl Hcl) as [_ Hr]. rewrite Hq in Hr.
  destruct (proj1 (Hr r) ltac:(by left)) as (o & Ho & Hc & Hp & ->). subst c.
  exists o, cl, rest. do 5 (split; [done|]).
  destruct (io_pend _ _ _ _ Hio o Ho) as (Hv & Hf & Hcli & _).
  destruct (io_host _ _ _ _ Hio (p_bucket o) Hv) as (x & Hx & _).
  destruct (host_cell_ok B n (dma_client_ w) (heap w) (p_bucket o) x) as (cl' & r & Hcl' & Hrem & Hcell);
    [apply Hio|done|apply Hio|done|].
  rewrite Hcli in Hcl. assert (cl' = cl) as -> by congruence. rewrite Hrem.
  unfold performed, request_of. rewrite Hx. destruct (place B n (p_bucket o)) as [pb pi].
  destruct (p_write o); simpl; rewrite ?frame_cell_ok by done; simpl; rewrite Hcell; simpl;
    rewrite ?frame_cell_ok by done; simpl; by rewrite (proj1 no_fault), ?Hrem.
Qed.

Lemma performed_evolves w pend o cl rest :
  io_ok B n w pend -> o ∈ pend -> promises w !! p_promise o = None ->
  dma_client_ w !! p_client o = Some cl ->
  evolves B n pend w (performed o cl rest w).
Proof.
  intros Hio Ho Hp Hcl. unfold performed. split; try (by destruct (p_write o)).
  - transitivity (remote <$> <[p_client o := mkDmaClient (dma_client_id_ cl) (remote cl) rest]> (dma_client_ w));
      [by destruct (p_write o)|].
    rewrite list_fmap_insert. simpl. apply list_insert_id. by rewrite list_lookup_fmap, Hcl.
  - intros f Hf. destruct (p_write o) eqn:Ew; [done|]. simpl.
    rewrite list_lookup_insert_ne; [done|]. by apply Hf.
  - intros b Hb Hw. destruct (p_write o) eqn:Ew; [|done]. simpl.
    rewrite hostb_set; [|apply Hio|apply Hio|by apply Hio|done].
    rewrite decide_False; [done|]. intros ->. by destruct (Hw o Ho Ew).
  - intros p x Hx. simpl. destruct (p_write o); simpl; rewrite lookup_insert_ne; congruence.
Qed.

Lemma performed_fields o cl rest w :
  promises (performed o cl rest w) = <[p_promise o := true]> (promises w) /\
  dma_client_ (performed o cl rest w) =
    <[p_client o := mkDmaClient (dma_client_id_ cl) (remote cl) rest]> (dma_client_ w).
Proof. unfold performed. by destruct (p_write o). Qed.

(** The queues without the operation that was carried out. *)
Lemma performed_queue w pend o cl rest :
  io_ok B n w pend -> o ∈ pend -> promises w !! p_promise o = None ->
  dma_client_ w !! p_client o = Some cl -> queue cl = request_of n o :: rest ->
  forall c cl', dma_client_ (performed o cl rest w) !! c = Some cl' ->
    NoDup (promise_ <$> queue cl') /\
    forall r, r ∈ queue cl' <->
      exists o', o' ∈ pend /\ p_client o' = c /\
        promises (performed o cl rest w) !! p_promise o' = None /\ r = request_of n o'.
Proof.
  intros Hio Ho Hp Hcl Hq c cl'. destruct (performed_fields o cl rest w) as [-> ->]. intros Hc.
  destruct (io_queue _ _ _ _ Hio _ _ Hcl) as [Hnd Hin]. rewrite Hq in Hnd, Hin.
  rewrite fmap_cons, NoDup_cons, promise_request in Hnd. destruct Hnd as [Hnin Hnd].
  destruct (decide (c = p_client o)) as [->|Hne].
  - rewrite list_lookup_insert_eq in Hc by (by eapply lookup_lt_Some). injection Hc as <-. simpl.
    split; [done|]. intros r. split.
    + intros Hr. destruct (proj1 (Hin r) ltac:(by right)) as (o' & Ho' & Hc' & Hp' & ->).
      exists o'. split; [done|split; [done|split; [|done]]]. rewrite lookup_insert_ne; [done|].
      intros Heq. apply Hnin. rewrite Heq. apply list_elem_of_fmap.
      exists (request_of n o'). by rewrite promise_request.
    + intros (o' & Ho' & Hc' & Hp' & ->). rewrite lookup_insert_None in Hp'. destruct Hp' as [Hp' Hne'].
      assert (request_of n o' ∈ request_of n o :: rest) as Hr by (apply Hin; eauto).
      apply elem_of_cons in Hr as [Heq|Hr]; [|done]. destruct Hne'.
      by rewrite <- (promise_request o), <- Heq, promise_request.
  - rewrite list_lookup_insert_ne in Hc by done. destruct (io_queue _ _ _ _ Hio _ _ Hc) as [Hnd' Hin'].
    split; [done|]. intros r. rewrite Hin'. split; intros (o' & Ho' & Hc' & Hp' & ->);
      exists o'; (split; [done|split; [done|split; [|done]]]).
    + rewrite lookup_insert_ne; [done|]. intros Heq.
      assert (o = o') as -> by (eapply (pend_unique p_promise); [apply Hio|done..]). done.
    + rewrite lookup_insert_None in Hp'. tauto.
Qed.

(** The operation has copied its bucket, and no completed one is undone. *)
Lemma performed_done w pend o cl rest :
  io_ok B n w pend -> o ∈ pend -> promises w !! p_promise o = None ->
  forall o' x, o' ∈ pend -> promises (performed o cl rest w) !! p_promise o' = Some x ->
    x = true /\ cache_ (performed o cl rest w) !! p_frame o' =
                hostb B n (heap (performed o cl rest w)) (p_bucket o').
Proof.
  intros Hio Ho Hp o' z Ho'. destruct (performed_fields o cl rest w) as [-> _].
  destruct (io_pend _ _ _ _ Hio o Ho) as (Hv & Hf & _).
  destruct (decide (o' = o)) as [->|Hne].
  - rewrite lookup_insert_eq. intros [= <-]. split; [done|].
    destruct (io_host _ _ _ _ Hio (p_bucket o) Hv) as (x & Hx & _).
    unfold performed. destruct (p_write o); simpl.
    + rewrite hostb_set, decide_True, Hx by (done || apply Hio). simpl.
      destruct (lookup_lt_is_Some_2 (cache_ w) (p_frame o)) as [y Hy]; [by rewrite (io_cache _ _ _ _ Hio)|].
      by erewrite list_lookup_total_correct.
    + rewrite Hx, list_lookup_insert_eq; [done|]. by rewrite (io_cache _ _ _ _ Hio).
  - rewrite lookup_insert_ne.
    2: { intros Heq. apply Hne. eapply (pend_unique p_promise); [apply Hio|done..]. }
    intros Hz. destruct (io_done _ _ _ _ Hio o' z Ho' Hz) as [-> Heq]. split; [done|].
    unfold performed. destruct (p_write o); simpl.
    + rewrite hostb_set; [|apply Hio|apply Hio|done|by apply Hio]. rewrite decide_False; [done|].
      intros Hb. apply Hne. eapply (pend_unique p_bucket); [apply Hio|done..].
    + rewrite list_lookup_insert_ne; [done|].
      intros Hb. apply Hne. symmetry. eapply (pend_unique p_frame); [apply Hio|done..].
Qed.

Lemma performed_ok w pend o cl rest :
  io_ok B n w pend -> o ∈ pend -> promises w !! p_promise o = None ->
  dma_client_ w !! p_client o = Some cl -> queue cl = request_of n o :: rest ->
  io_ok B n (performed o cl rest w) pend.
Proof.
  intros Hio Ho Hp Hcl Hq. pose proof (performed_evolves w pend o cl rest Hio Ho Hp Hcl) as Hev.
  destruct (io_pend _ _ _ _ Hio o Ho) as (Hv & Hf & Hcli & Hnext).
  destruct (io_host _ _ _ _ Hio (p_bucket o) Hv) as (x & Hx & Hxwf).
  split; [apply Hio|apply Hio| | | | | |apply Hio|apply Hio|apply Hio|by apply performed_queue| |by apply performed_done].
  - unfold performed. destruct (p_write o); simpl; rewrite ?length_insert; apply Hio.
  - intros f z. unfold performed. destruct (p_write o); simpl; [apply Hio|].
    rewrite Hx. simpl. intros [(_ & <- & _)|[_ ?]]%list_lookup_insert_Some; [done|]. by eapply Hio.
  - rewrite (ev_remote _ _ _ _ _ Hev). apply Hio.
  - intros b Hb. unfold performed. destruct (p_write o); simpl; [|by apply Hio].
    rewrite hostb_set by (done || apply Hio). destruct (decide (b = p_bucket o)) as [->|]; [|by apply Hio].
    rewrite Hx. simpl. eexists. split; [done|].
    destruct (lookup_lt_is_Some_2 (cache_ w) (p_frame o)) as [y Hy]; [by rewrite (io_cache _ _ _ _ Hio)|].
    erewrite list_lookup_total_correct by done. by eapply Hio.
  - intros o' Ho'. rewrite (ev_next _ _ _ _ _ Hev). by apply Hio.
  - intros p z. destruct (performed_fields o cl rest w) as [-> _]. rewrite (ev_next _ _ _ _ _ Hev).
    intros [[<- _]|[_ ?]]%lookup_insert_Some; [done|]. by eapply Hio.
Qed.

(** ** Steps of the threads *)

Lemma actor_step_ok w pend a :
  io_ok B n w pend -> HI w ->
  exists w', actor_step a w = Ret w' /\ io_ok B n w' pend /\ HI w' /\ evolves B n pend w w'.
Proof using no_fault HostInv0.
  intros Hio Hhi. destruct a as [c|]; simpl.
  - destruct (ProcessQueue_step_performs w pend c Hio) as [[-> _]|(o & cl & rest & Ho & <- & Hp & Hcl & Hq & ->)].
    { exists w. split; [done|split; [done|split; [done|apply evolves_refl]]]. }
    exists (performed o cl rest w). split; [done|split; [by eapply performed_ok|split; [|by apply performed_evolves]]].
    eapply hi_dma; [exact Hhi|..]; unfold performed; destruct (p_write o); try done; simpl; intros k.
    + apply set_host_cell_dom.
    + intros H1 H2 H3. unfold set_host_cell. apply lookup_alter_ne, not_eq_sym.
      apply place_block; [by apply Hio|done..].
  - destruct (hi_step w Hhi) as (w' & -> & Hhi' & E1 & E2 & E3 & E4 & E5 & E6 & E7).
    exists w'. split; [done|]. split; [|split; [done|]].
    + destruct Hio. split; rewrite ?E1, ?E2, ?E3, ?E4; try done.
      * intros b Hb. rewrite E7 by done. auto.
      * intros o x Ho. rewrite E7 by naive_solver. auto.
    + split; rewrite ?E1, ?E2, ?E3, ?E4; try done. intros b Hb _. by apply E7.
Qed.

Lemma tick_ok w pend :
  io_ok B n w pend -> HI w ->
  kwp tick w (fun _ w' => io_ok B n w' pend /\ HI w' /\ evolves B n pend w w').
Proof using no_fault HostInv0.
  intros Hio Hhi. unfold kwp, tick.
  assert (io_ok B n (set_clock (S (clock w)) w) pend) as Hio' by (destruct Hio; by split).
  assert (HI (set_clock (S (clock w)) w)) as Hhi' by (by eapply hi_dma).
  assert (evolves B n pend w (set_clock (S (clock w)) w)) as Hev by (by split).
  revert Hio' Hhi' Hev. generalize (set_clock (S (clock w)) w).
  induction (sched (clock w)) as [|a as_ IH]; intros w1 Hio1 Hhi1 Hev1; simpl; [done|].
  destruct (actor_step_ok w1 pend a Hio1 Hhi1) as (w2 & -> & Hio2 & Hhi2 & Hev2). simpl.
  apply IH; [done..|]. by eapply evolves_trans.
Qed.

Lemma ProcessQueue_step_shrinks w pend c cl :
  io_ok B n w pend -> HI w -> dma_client_ w !! c = Some cl -> queue cl <> [] ->
  exists w' cl', ProcessQueue_step c w = Ret w' /\ io_ok B n w' pend /\ HI w' /\ evolves B n pend w w' /\
    dma_client_ w' !! c = Some cl' /\ (length (queue cl') < length (queue cl))%nat.
Proof using no_fault HostInv0.
  intros Hio Hhi Hcl Hne. destruct (actor_step_ok w pend (DmaThread c) Hio Hhi) as (w' & Hs & Hio' & Hhi' & Hev).
  simpl in Hs. destruct (ProcessQueue_step_performs w pend c Hio)
    as [[_ Hid]|(o & cl' & rest & Ho & <- & Hp & Hcl' & Hq & Hst)].
  - by destruct Hne; apply Hid.
  - exists w', (mkDmaClient (dma_client_id_ cl') (remote cl') rest). split; [done|].
    do 3 (split; [done|]). rewrite Hst in Hs. injection Hs as <-.
    destruct (performed_fields o cl' rest w) as [_ ->].
    rewrite list_lookup_insert_eq by (by eapply lookup_lt_Some). split; [done|].
    rewrite Hcl in Hcl'. injection Hcl' as <-. rewrite Hq. simpl. lia.
Qed.

(** ** Waiting *)

Lemma await_ok fuel o pend : o ∈ pend -> forall w,
  io_ok B n w pend -> HI w ->
  (forall cl, dma_client_ w !! p_client o = Some cl -> (length (queue cl) <= fuel)%nat) ->
  kwp (await fuel (p_client o) (p_promise o)) w (fun ok w' =>
    ok = true /\ promises w' !! p_promise o = Some true /\
    io_ok B n w' pend /\ HI w' /\ evolves B n pend w w').
Proof using no_fault HostInv0.
  intros Ho. induction fuel as [|fuel IH]; intros w Hio Hhi Hfuel; unfold kwp; simpl;
    destruct (promises w !! p_promise o) as [ok|] eqn:Hp.
  1,3: destruct (io_done _ _ _ _ Hio o ok Ho Hp) as [-> _]; do 4 (split; [done|]); apply evolves_refl.
  all: destruct (io_pend _ _ _ _ Hio o Ho) as (Hv & _ & Hc & _).
  all: destruct (io_host _ _ _ _ Hio _ Hv) as (x & Hx & _).
  all: destruct (host_cell_ok B n (dma_client_ w) _ _ x (io_level _ _ _ _ Hio) Hv (io_remotes _ _ _ _ Hio) Hx)
    as (cl & _ & Hcl & _); rewrite <- Hc in Hcl.
  all: assert (request_of n o ∈ queue cl) as Hin by (apply (io_queue _ _ _ _ Hio _ _ Hcl); eauto).
  all: specialize (Hfuel cl Hcl).
  { destruct (queue cl); [by apply not_elem_of_nil in Hin|simpl in Hfuel; lia]. }
  destruct (ProcessQueue_step_shrinks w pend (p_client o) cl) as (w' & cl' & -> & Hio' & Hhi' & Hev & Hcl' & Hlt);
    [done..|by intros Hq; rewrite Hq in Hin; apply not_elem_of_nil in Hin|].
  simpl. eapply kwp_mono.
  { apply IH; [done..|]. intros cl2 Hcl2. rewrite Hcl' in Hcl2. injection Hcl2 as <-. lia. }
  intros ok w2 (-> & Hp2 & Hio2 & Hhi2 & Hev2). do 4 (split; [done|]). by eapply evolves_trans.
Qed.

Lemma future_get_ok o pend w :
  o ∈ pend -> io_ok B n w pend -> HI w ->
  kwp (future_get (p_client o, p_promise o)) w (fun ok w' =>
    ok = true /\ promises w' !! p_promise o = Some true /\
    io_ok B n w' pend /\ HI w' /\ evolves B n pend w w').
Proof using no_fault HostInv0.
  intros Ho Hio Hhi. unfold future_get. eapply kwp_call; [by apply tick_ok|].
  intros _ w1 (Hio1 & Hhi1 & Hev1). apply kwp_gets. eapply kwp_mono.
  - apply await_ok; [done..|]. intros cl Hcl. simpl. by rewrite Hcl.
  - intros ok w2 (-> & Hp2 & Hio2 & Hhi2 & Hev2). do 4 (split; [done|]). by eapply evolves_trans.
Qed.

(** ** Starting and forgetting operations *)

(** A completed operation no longer matters. *)
Lemma io_forget w pend1 o pend2 x :
  io_ok B n w (pend1 ++ o :: pend2) -> promises w !! p_promise o = Some x -> io_ok B n w (pend1 ++ pend2).
Proof.
  intros Hio Hp.
  assert (forall o', o' ∈ pend1 ++ pend2 -> o' ∈ pend1 ++ o :: pend2) as Hin.
  { intros o'. rewrite !elem_of_app, elem_of_cons. tauto. }
  assert (forall {A} (f : pending -> A), NoDup (f <$> pend1 ++ o :: pend2) -> NoDup (f <$> pend1 ++ pend2)) as Hnd.
  { intros A f. rewrite !fmap_app, fmap_cons, <- Permutation_middle, NoDup_cons. tauto. }
  destruct Hio. split; auto.
  intros c cl Hcl. destruct (io_queue0 c cl Hcl) as [Hd Hr]. split; [done|]. intros r. rewrite Hr.
  split; intros (o' & Ho' & Hc & Hp' & ->); exists o'; [|by auto].
  split; [|done]. rewrite elem_of_app, elem_of_cons in Ho'. rewrite elem_of_app.
  destruct Ho' as [|[->|]]; [tauto|congruence|tauto].
Qed.

Lemma NoDup_snoc_fmap {A} (f : pending -> A) pend o :
  NoDup (f <$> pend) -> f o ∉ f <$> pend -> NoDup (f <$> pend ++ [o]).
Proof.
  intros Hnd Ho. rewrite fmap_app. apply NoDup_app. split; [done|]. split; [|apply NoDup_singleton].
  intros y Hy Hs. apply list_elem_of_singleton in Hs. by subst.
Qed.

(** The world with [o] appended to the queue of its client. *)
Definition scheduled (o : pending) (cl : DmaClient) (w : world) : world :=
  set_next_promise (S (p_promise o))
    (set_dma_client (<[p_client o := mkDmaClient (dma_client_id_ cl) (remote cl)
                                       (queue cl ++ [request_of n o])]> (dma_client_ w)) w).

Lemma scheduled_queue w pend o cl :
  io_ok B n w pend -> dma_client_ w !! p_client o = Some cl ->
  promises w !! p_promise o = None -> p_promise o ∉ p_promise <$> pend ->
  forall c cl', dma_client_ (scheduled o cl w) !! c = Some cl' ->
    NoDup (promise_ <$> queue cl') /\
    forall r, r ∈ queue cl' <->
      exists o', o' ∈ pend ++ [o] /\ p_client o' = c /\ promises w !! p_promise o' = None /\ r = request_of n o'.
Proof.
  intros Hio Hcl Hp Hpf c cl' Hc. simpl in Hc.
  assert (forall o', o' ∈ pend ++ [o] <-> o' ∈ pend \/ o' = o) as Hin.
  { intros o'. by rewrite elem_of_app, list_elem_of_singleton. }
  destruct (decide (c = p_client o)) as [->|Hne].
  - rewrite list_lookup_insert_eq in Hc by (by eapply lookup_lt_Some). injection Hc as <-. simpl.
    destruct (io_queue _ _ _ _ Hio _ _ Hcl) as [Hnd Hr]. split.
    + rewrite fmap_app. apply NoDup_app. split; [done|]. split; [|apply NoDup_singleton].
      intros q (r & -> & Hq)%list_elem_of_fmap Hs%list_elem_of_singleton.
      apply Hr in Hq as (o' & Ho' & _ & _ & ->). rewrite !promise_request in Hs. apply Hpf.
      rewrite <- Hs. by apply list_elem_of_fmap_2.
    + intros r. rewrite elem_of_app, list_elem_of_singleton, Hr. split.
      * intros [(o' & Ho' & Hc' & Hp' & ->)| ->]; [exists o'|exists o]; rewrite Hin; auto.
      * intros (o' & Ho' & Hc' & Hp' & ->). apply Hin in Ho' as [Ho'| ->]; [left; by exists o'|by right].
  - rewrite list_lookup_insert_ne in Hc by done. destruct (io_queue _ _ _ _ Hio _ _ Hc) as [Hnd Hr].
    split; [done|]. intros r. rewrite Hr. split; intros (o' & Ho' & Hc' & Hp' & ->); exists o'.
    + rewrite Hin. auto.
    + apply Hin in Ho' as [Ho'| ->]; [done|congruence].
Qed.

Lemma scheduled_ok w pend o cl :
  io_ok B n w pend -> dma_client_ w !! p_client o = Some cl -> p_promise o = next_promise w ->
  valid B n (p_bucket o) -> (p_frame o < CACHE_SIZE)%nat -> p_client o = client_of n (p_bucket o) ->
  p_frame o ∉ p_frame <$> pend -> p_bucket o ∉ p_bucket <$> pend ->
  io_ok B n (scheduled o cl w) (pend ++ [o]).
Proof.
  intros Hio Hcl Hp Hv Hf Hc Hff Hbf.
  assert (promises w !! p_promise o = None) as Hpn.
  { destruct (promises w !! p_promise o) eqn:Ep; [|done]. apply (io_set _ _ _ _ Hio) in Ep. lia. }
  assert (p_promise o ∉ p_promise <$> pend) as Hpf.
  { intros (o' & Heq & Ho')%list_elem_of_fmap. apply (io_pend _ _ _ _ Hio) in Ho'. lia. }
  assert (forall o', o' ∈ pend ++ [o] <-> o' ∈ pend \/ o' = o) as Hin.
  { intros o'. by rewrite elem_of_app, list_elem_of_singleton. }
  pose proof Hio as Hio'. destruct Hio'.
  split; try done; try (by apply NoDup_snoc_fmap); [| |exact (scheduled_queue w pend o cl Hio Hcl Hpn Hpf)|..].
  - simpl. rewrite list_fmap_insert. simpl.
    rewrite list_insert_id by (by rewrite list_lookup_fmap, Hcl). apply Hio.
  - intros o' [Ho'| ->]%Hin; simpl.
    + destruct (io_pend _ _ _ _ Hio o' Ho') as (? & ? & ? & ?). repeat (split; [done|]). lia.
    + repeat (split; [done|]). lia.
  - intros q y Hq. apply (io_set _ _ _ _ Hio) in Hq. simpl. lia.
  - intros o' y [Ho'| ->]%Hin; simpl; [by apply Hio|]. congruence.
Qed.

(** Scheduling an operation on a frame and a bucket that no other one uses. *)
Lemma ScheduleReadWrite_ok (wr : bool) b f pend w src dst (Q : nat -> world -> Prop) :
  io_ok B n w pend -> HI w -> valid B n b -> (f < CACHE_SIZE)%nat ->
  f ∉ p_frame <$> pend -> b ∉ p_bucket <$> pend ->
  (src, dst) = (if wr then (Z.of_nat f * sizeof_FixedBucket, offset_of n b)
                else (offset_of n b, Z.of_nat f * sizeof_FixedBucket)) ->
  (forall p w', io_ok B n w' (pend ++ [Pend wr b f (client_of n b) p]) -> HI w' ->
     dpu w' = dpu w -> replies w' = replies w -> cache_ w' = cache_ w -> heap w' = heap w -> Q p w') ->
  kwp (ScheduleReadWrite (client_of n b) wr src dst sizeof_FixedBucket) w Q.
Proof using HostInv0.
  intros Hio Hhi Hv Hf Hff Hbf Hsd HQ. destruct (io_host _ _ _ _ Hio _ Hv) as (x & Hx & _).
  destruct (host_cell_ok B n (dma_client_ w) _ _ x (io_level _ _ _ _ Hio) Hv (io_remotes _ _ _ _ Hio) Hx)
    as (cl & r & Hcl & Hrem & _).
  unfold ScheduleReadWrite. apply kwp_gets. rewrite Hcl. apply kwp_gets, kwp_modify, kwp_ret.
  set (o := Pend wr b f (client_of n b) (next_promise w)).
  assert (mkDmaRequest wr src dst sizeof_FixedBucket (next_promise w) = request_of n o) as ->.
  { unfold request_of, o. simpl. destruct wr; by simplify_eq. }
  apply (HQ _ (scheduled o cl w)); [by apply scheduled_ok|by eapply hi_dma|done..].
Qed.
End async.
