(* ===== verification/KvCoherence.v ===== *)
(** * KvCoherence: the cache of the DPU against the host's memory

    The invariant that ties the worker's tables, the cache frames, the fetches
    under way and the host's memory together, and the specifications of the
    cache operations against it. [view] is the current contents of a bucket,
    wherever they are.

    The invariant is parametric in [sub]: a clean cached bucket [x] and its copy
    [y] in host memory are related by [sub x y]. With equality the cache is an
    exact copy; the insertion that moves an entry without marking the source as
    dirty (see KvStore.v) needs a weaker relation. *)

From stdpp Require Import gmap.
From S2P Require Import Prelude.
From S2P Require Import KvBucket.
From S2P Require Import KvReplacer.
From S2P Require Import KvState.
From S2P Require Import KvDma.
From S2P Require Import KvHost.
From S2P Require Import KvDpu.
From S2P Require Import KvAsync.

(** ** The host between messages *)

(** No expansion is under way; the host may still have to leave the loop of
    the last one and to free the old bottom level. *)
Definition host_idle (B : blocks) (n : Z) (w : world) : Prop :=
  let h := host w in
  (expanding h = [] /\ h_addr_capacity h = 2 ^ n /\ h_bl_capacity h = 2 ^ (n - 1) /\
   buckets0 h = b_tl B /\ buckets1 h = b_bl B) \/
  (exists srv, expanding h = [(b_tl B, srv)] /\ h_in_rehash h = false /\ h_addr_capacity h = 2 ^ (n - 1) /\
   h_bl_capacity h = 2 ^ (n - 2) /\ buckets0 h = b_bl B /\ is_Some (heap w !! buckets1 h) /\
   buckets1 h <> b_bl B /\ buckets1 h <> b_tl B).

(** The host waits for the end of the rehashing. *)
Definition host_waits (B : blocks) (n : Z) (w : world) : Prop :=
  let h := host w in
  exists N srv, b_new B = Some N /\ expanding h = [(N, srv)] /\ h_in_rehash h = true /\
  h_addr_capacity h = 2 ^ n /\ h_bl_capacity h = 2 ^ (n - 1) /\
  buckets0 h = b_tl B /\ buckets1 h = b_bl B.

(** Nothing is under way on the channel, in either state. *)
Definition steady (B : blocks) (n : Z) (w : world) : Prop :=
  to_host w = [] /\ to_dpu w = [] /\ h_stop (host w) = false /\
  (forall k, is_Some (heap w !! k) -> (k < next_blk w)%nat) /\
  is_Some (heap w !! b_bl B) /\ is_Some (heap w !! b_tl B) /\
  (b_new B = None /\ host_idle B n w \/ host_waits B n w).

Lemma hostb_delete B n h k b :
  valid B n b -> k <> b_bl B -> k <> b_tl B -> (forall N, b_new B = Some N -> k <> N) ->
  hostb B n (base.delete k h) b = hostb B n h b.
Proof.
  intros Hb H1 H2 H3. unfold hostb. rewrite lookup_delete_ne; [done|].
  apply place_block; [done..|]. intros HN. by apply (H3 k).
Qed.

#[export] Instance steady_HostInv {E : Env} B n : level_ok n -> HostInv B n (steady B n).
Proof.
  intros Hn. split.
  - intros w Hw. pose proof Hw as (Hth & Htd & Hst & Hfr & Hbl & Htl & Hs). unfold host_step.
    destruct Hs as [[HN [(He & Ha)|(srv & He & Hr & Ha & Hb & H0 & H1 & Hne1 & Hne2)]]
                   |(N & srv & HN & He & Hr & Ha)].
    + rewrite He, Hst, Hth. by exists w.
    + rewrite He, Hr. unfold Expand_end. destruct H1 as [bs Hbs]. rewrite Hbs.
      eexists. split; [done|]. split; [|repeat (split; [done|]); intros b Hb'; apply hostb_delete; congruence].
      unfold steady. simpl. rewrite !lookup_delete_ne by congruence. do 3 (split; [done|]). split.
      { intros k Hk. apply Hfr. rewrite lookup_delete_is_Some in Hk. tauto. }
      do 2 (split; [done|]). left. split; [done|]. left. simpl.
      rewrite Ha, Hb. powers Hn. rewrite !u64_fits by lia. repeat split; try done; lia.
    + rewrite He, Hr, Hth. by exists w.
  - intros w w' (Hth & Htd & Hst & Hfr & Hbl & Htl & Hs) E1 E2 E3 E4 E5 _.
    unfold steady, host_idle, host_waits in *. rewrite E1, E2, E3, E4, !E5. setoid_rewrite E5. done.
Qed.

(** ** Views *)

Definition hostv (B : blocks) (n : Z) (w : world) (b : Z) : LevelBucket :=
  default zero_bucket (hostb B n (heap w) b).

(** The current contents of a bucket. *)
Definition view (B : blocks) (n : Z) (w : world) (b : Z) : LevelBucket :=
  match bucket_table_ (dpu w) !! b with
  | Some f => cache_ w !!! Z.to_nat f
  | None => hostv B n w b
  end.

(** What the cache operations do not change. *)
Definition rest (d : Dpu) : Dpu :=
  mkDpu (geo d) [] ∅ [] replacer_init [] (new_bucket_constructed_ d) (f_seed_ d) (s_seed_ d)
    (mmap_to_recv_ d) (seed_recved_ d) (in_init_ d) (in_rehash_ d) (next_client_id_ d) (size_ d)
    (stop_ d) (running_ d) (request_queue_ d).

Definition lru (w : world) : list Z := order (replacer_ (dpu w)).

(** ** The invariant *)

Section coherence.
Context (sub : LevelBucket -> LevelBucket -> Prop) `{!PreOrder sub}.
Context (B : blocks) (n : Z).

(** A bucket of the next level that was not created yet. *)
Definition unborn (w : world) (b : Z) : Prop :=
  b_new B <> None /\ 2 ^ (n + 1) - 4 <= b < 2 ^ (n + 2) - 4 /\
  new_bucket_constructed_ (dpu w) !! Z.to_nat (b - (2 ^ (n + 1) - 4)) = Some false.

(** The first bucket beyond the levels. *)
Definition top : Z := match b_new B with Some _ => 2 ^ (n + 2) - 4 | None => 2 ^ (n + 1) - 4 end.

Lemma valid_top b : level_ok n -> valid B n b -> b < top.
Proof.
  intros Hn [Hb|[HN Hb]]; unfold top; destruct (b_new B); try done; powers Hn; lia.
Qed.

(** The tables of the worker. [outs] are the reads under way, [hole] a frame
    that was taken for a bucket and has no contents yet. *)
Record tables_ok (w : world) (outs : list pending) (hole : option (nat * Z)) : Prop := {
  to_geo : geo (dpu w) = geo_at n;
  to_dirty : length (dirty_flag_ (dpu w)) = CACHE_SIZE;
  to_ids : length (bucket_ids_ (dpu w)) = CACHE_SIZE;
  to_repl : replacer_ok (replacer_ (dpu w));
  to_frames : lru w ++ free_list_ (dpu w) ≡ₚ Z.of_nat <$> upto CACHE_SIZE;
  to_free : forall f, Z.of_nat f ∈ free_list_ (dpu w) -> bucket_ids_ (dpu w) !! f = Some (-1);
  to_table : forall b f, bucket_table_ (dpu w) !! b = Some f ->
    0 <= b /\ 0 <= f /\ bucket_ids_ (dpu w) !! Z.to_nat f = Some b /\ f ∈ lru w;
  to_used : forall f, Z.of_nat f ∈ lru w -> exists b, bucket_ids_ (dpu w) !! f = Some b /\
    (bucket_table_ (dpu w) !! b = Some (Z.of_nat f) \/
     (exists o, o ∈ outs /\ p_bucket o = b /\ p_frame o = f) \/ hole = Some (f, b));
  to_outs : forall o, o ∈ outs -> p_write o = false /\
    bucket_table_ (dpu w) !! p_bucket o = None /\
    bucket_ids_ (dpu w) !! p_frame o = Some (p_bucket o) /\ Z.of_nat (p_frame o) ∈ lru w /\
    dirty_flag_ (dpu w) !! p_frame o = Some false;
  to_hole : forall f b, hole = Some (f, b) ->
    bucket_table_ (dpu w) !! b = None /\ bucket_ids_ (dpu w) !! f = Some b /\ Z.of_nat f ∈ lru w /\
    dirty_flag_ (dpu w) !! f = Some false /\ f ∉ p_frame <$> outs /\ b ∉ p_bucket <$> outs;
  to_live : forall b f, bucket_table_ (dpu w) !! b = Some f ->
    dirty_flag_ (dpu w) !! Z.to_nat f = Some true -> valid B n b;
  to_clean : forall b f x, bucket_table_ (dpu w) !! b = Some f -> valid B n b ->
    dirty_flag_ (dpu w) !! Z.to_nat f = Some false -> cache_ w !! Z.to_nat f = Some x ->
    sub x (hostv B n w b);
  to_unborn : forall b, unborn w b -> bucket_table_ (dpu w) !! b = None /\
    b ∉ p_bucket <$> outs /\ hostv B n w b = zero_bucket;
  to_top : forall b f, bucket_table_ (dpu w) !! b = Some f -> b < top
}.

(** The invariant between operations of the cache. *)
Record coh (w : world) (outs : list pending) : Prop := {
  co_io : io_ok B n w outs;
  co_host : steady B n w;
  co_tables : tables_ok w outs None
}.

(** Replies that were added. *)
Definition said (rs l : list (option (list Z))) : list (option (list Z)) :=
  foldl (fun l r => l ++ [r]) l rs.

(** What an operation of the cache does: the contents of buckets stay (or grow,
    as [sub] allows), and the [k] most recent frames stay where they are, among
    the [k'] most recent ones; [rs] are the replies it gives. Of the two copies of a
    bucket, the current one and the one in host memory, no new version arises. *)
Definition copies (w w' : world) (b : Z) : Prop :=
  (view B n w' b = view B n w b \/ view B n w' b = hostv B n w b) /\
  (hostv B n w' b = hostv B n w b \/ hostv B n w' b = view B n w b).

Record advance (rs : list (option (list Z))) (k k' : nat) (w w' : world) : Prop := {
  ad_rest : rest (dpu w') = rest (dpu w);
  ad_replies : replies w' = said rs (replies w);
  ad_view : forall b, valid B n b -> sub (view B n w b) (view B n w' b);
  ad_copies : forall b, valid B n b -> copies w w' b;
  ad_lru : forall g, g ∈ take k (lru w) -> g ∈ take k' (lru w');
  ad_keep : forall b g, bucket_table_ (dpu w) !! b = Some g -> g ∈ take k (lru w) ->
    bucket_table_ (dpu w') !! b = Some g /\ cache_ w' !! Z.to_nat g = cache_ w !! Z.to_nat g;
  ad_dirty : forall b g, bucket_table_ (dpu w') !! b = Some g -> dirty_flag_ (dpu w') !! Z.to_nat g = Some true ->
    bucket_table_ (dpu w) !! b = Some g /\ dirty_flag_ (dpu w) !! Z.to_nat g = Some true
}.

Lemma advance_refl k w : advance [] k k w w.
Proof using PreOrder0. split; try done. intros b Hb. by split; left. Qed.

Lemma advance_trans rs1 rs2 k1 k2 k3 w1 w2 w3 :
  advance rs1 k1 k2 w1 w2 -> advance rs2 k2 k3 w2 w3 -> advance (rs1 ++ rs2) k1 k3 w1 w3.
Proof using PreOrder0.
  intros [R1 P1 V1 C1 L1 K1 D1] [R2 P2 V2 C2 L2 K2 D2]. split; try congruence; auto.
  - unfold said in *. rewrite foldl_app. congruence.
  - intros b Hb. etransitivity; [by apply V1|by apply V2].
  - intros b Hb. destruct (C1 b Hb) as [H1 H2], (C2 b Hb) as [H3 H4].
    split; [destruct H3 as [->| ->]|destruct H4 as [->| ->]]; tauto.
  - intros b g Hb Hg. destruct (K1 b g Hb Hg) as (Hb2 & E1).
    destruct (K2 b g Hb2 (L1 g Hg)) as (Hb3 & E2). split; congruence.
  - intros b g Hb Hd. destruct (D2 b g Hb Hd). auto.
Qed.

Lemma take_mono {A} (l : list A) k k' x : (k <= k')%nat -> x ∈ take k l -> x ∈ take k' l.
Proof.
  intros Hk (i & Hi & Hlt)%elem_of_take. apply elem_of_take. exists i. split; [done|lia].
Qed.

Lemma advance_weaken rs k k' k'' w w' : (k' <= k'')%nat -> advance rs k k' w w' -> advance rs k k'' w w'.
Proof.
  intros Hk [R P V C L K D]. split; auto. intros g Hg. eapply take_mono; [exact Hk|auto].
Qed.

(** ** Other threads *)

Lemma hostv_evolves pend w w' b :
  evolves B n pend w w' -> valid B n b -> (forall o, o ∈ pend -> p_write o = true -> p_bucket o <> b) ->
  hostv B n w' b = hostv B n w b.
Proof. intros Hev Hb Hp. unfold hostv. by rewrite (ev_host _ _ _ _ _ Hev). Qed.

(** What the tables allow other threads to change is not cached: reads fill the
    frames of [outs], and a write back is of a bucket that has left the table. *)
Lemma tables_evolve w w' outs pend hole :
  tables_ok w outs hole -> evolves B n pend w w' ->
  (forall o, o ∈ pend -> if p_write o then bucket_table_ (dpu w) !! p_bucket o = None /\ ~ unborn w (p_bucket o)
                        else o ∈ outs) ->
  tables_ok w' outs hole /\
  forall b f, bucket_table_ (dpu w) !! b = Some f -> cache_ w' !! Z.to_nat f = cache_ w !! Z.to_nat f.
Proof.
  intros Ht Hev Hp.
  assert (forall b f, bucket_table_ (dpu w) !! b = Some f ->
    cache_ w' !! Z.to_nat f = cache_ w !! Z.to_nat f) as Hc.
  { intros b f Hb. apply (ev_cache _ _ _ _ _ Hev). intros o Ho Hr Hf. specialize (Hp o Ho).
    rewrite Hr in Hp. destruct (to_outs _ _ _ Ht o Hp) as (_ & Hn & Hi & _).
    destruct (to_table _ _ _ Ht b f Hb) as (_ & _ & Hi' & _). congruence. }
  split; [|done]. destruct Ht. unfold lru in *.
  split; unfold lru; rewrite ?(ev_dpu _ _ _ _ _ Hev); auto.
  - intros b f x Hb Hv Hd Hx. rewrite (Hc b f Hb) in Hx.
    rewrite (hostv_evolves pend w w' b Hev Hv); [by eapply to_clean0|].
    intros o Ho Hw Heq. specialize (Hp o Ho). rewrite Hw in Hp. destruct Hp. congruence.
  - intros b Hb. unfold unborn in Hb. rewrite (ev_dpu _ _ _ _ _ Hev) in Hb.
    destruct (to_unborn0 b Hb) as (H1 & H2 & H3). do 2 (split; [done|]). rewrite <- H3.
    eapply hostv_evolves; [done|right; split; apply Hb|]. intros o Ho Hw Heq.
    specialize (Hp o Ho). rewrite Hw in Hp. apply Hp. by rewrite Heq.
Qed.

(** A scheduling point between operations: no bucket changes. *)
Lemma coh_evolves w w' outs :
  coh w outs -> io_ok B n w' outs -> steady B n w' -> evolves B n outs w w' ->
  coh w' outs /\ (forall b, valid B n b -> view B n w' b = view B n w b) /\
  (forall b f, bucket_table_ (dpu w) !! b = Some f -> cache_ w' !! Z.to_nat f = cache_ w !! Z.to_nat f).
Proof.
  intros [Hio Hst Ht] Hio' Hst' Hev.
  assert (forall o, o ∈ outs -> if p_write o then bucket_table_ (dpu w) !! p_bucket o = None /\ ~ unborn w (p_bucket o)
                                else o ∈ outs) as Hp.
  { intros o Ho. destruct (to_outs _ _ _ Ht o Ho) as (-> & _). done. }
  destruct (tables_evolve w w' outs outs None Ht Hev Hp) as [Ht' Hc]. split; [done|]. split; [|done].
  intros b Hb. unfold view. rewrite (ev_dpu _ _ _ _ _ Hev).
  destruct (bucket_table_ (dpu w) !! b) as [f|] eqn:Ef.
  - rewrite !list_lookup_total_alt. by rewrite (Hc b f Ef).
  - apply (hostv_evolves outs w w' b Hev Hb). intros o Ho Hw _.
    destruct (to_outs _ _ _ Ht o Ho) as (Hr & _). congruence.
Qed.

Lemma advance_evolves k w w' outs :
  coh w outs -> io_ok B n w' outs -> steady B n w' -> evolves B n outs w w' -> advance [] k k w w'.
Proof using PreOrder0.
  intros Hc Hio Hst Hev. destruct (coh_evolves w w' outs Hc Hio Hst Hev) as (_ & Hv & Hf).
  split; unfold lru; rewrite ?(ev_dpu _ _ _ _ _ Hev), ?(ev_replies _ _ _ _ _ Hev); try done.
  - intros b Hb. by rewrite Hv.
  - intros b Hb. split; left; [by apply Hv|]. apply (hostv_evolves outs w w' b Hev Hb). intros o Ho Hw _.
    destruct (to_outs _ _ _ (co_tables _ _ Hc) o Ho) as (Hr & _). congruence.
  - intros b g Hb Hg. split; [done|]. by eapply Hf.
Qed.
End coherence.
