(* ===== verification/KvFetch.v ===== *)
(** * KvFetch: bringing buckets into the cache

    Taking a frame, writing back what it held, fetching a bucket and creating
    one, against the invariant of KvCoherence.v. *)

From stdpp Require Import gmap.
From S2P Require Import Prelude.
From S2P Require Import KvBucket.
From S2P Require Import KvReplacer.
From S2P Require Import KvState.
From S2P Require Import KvDma.
From S2P Require Import KvHost.
From S2P Require Import KvDpu.
From S2P Require Import KvAsync.
From S2P Require Import KvCoherence.

(** ** Rules for single accesses *)

Lemma kwp_index {A} (l : list A) f x w (Q : A -> world -> Prop) :
  l !! f = Some x -> Q x w -> kwp (at_index l (Z.of_nat f)) w Q.
Proof.
  intros Hx HQ. unfold at_index. rewrite (proj2 (Z.leb_le _ _)), Nat2Z.id, Hx by lia. done.
Qed.

Lemma kwp_dirty f x w (Q : bool -> world -> Prop) :
  dirty_flag_ (dpu w) !! f = Some x -> Q x w -> kwp (dirty (Z.of_nat f)) w Q.
Proof. intros Hx HQ. unfold dirty. apply kwp_getd. by eapply kwp_index. Qed.

Definition with_dirty (f : nat) (x : bool) (w : world) : world :=
  set_dpu (set_dirty_flag (<[f := x]> (dirty_flag_ (dpu w))) (dpu w)) w.

Lemma kwp_put_dirty f x w (Q : unit -> world -> Prop) :
  (f < length (dirty_flag_ (dpu w)))%nat -> Q tt (with_dirty f x w) -> kwp (put_dirty (Z.of_nat f) x) w Q.
Proof.
  intros Hf HQ. destruct (lookup_lt_is_Some_2 _ _ Hf) as [y Hy]. unfold put_dirty. apply kwp_bind.
  eapply kwp_dirty; [done|]. unfold with_dirty in HQ. rewrite <- (Nat2Z.id f) in HQ. done.
Qed.

Section fetch.
Context {E : Env} (no_fault : calm).
Context (sub : LevelBucket -> LevelBucket -> Prop) `{!PreOrder sub}.
Context (B : blocks) (n : Z).

Abbreviation tables := (tables_ok sub B n).
Abbreviation cohw := (coh sub B n).
Abbreviation adv := (advance sub B n []).

(** ** Frames *)

Lemma frame_number w outs hole g :
  tables w outs hole -> g ∈ lru w ++ free_list_ (dpu w) -> exists f, g = Z.of_nat f /\ (f < CACHE_SIZE)%nat.
Proof.
  intros Ht Hg. rewrite (to_frames _ _ _ _ _ _ Ht) in Hg.
  apply list_elem_of_fmap in Hg as (f & -> & Hf). apply elem_of_seq in Hf. exists f. split; [done|lia].
Qed.

Lemma frames_NoDup w outs hole : tables w outs hole -> NoDup (lru w ++ free_list_ (dpu w)).
Proof.
  intros Ht. rewrite (to_frames _ _ _ _ _ _ Ht). apply NoDup_fmap_2; [apply _|apply NoDup_seq].
Qed.

Lemma frames_length w outs hole :
  tables w outs hole -> (length (lru w) + length (free_list_ (dpu w)) = CACHE_SIZE)%nat.
Proof.
  intros Ht. rewrite <- length_app, (to_frames _ _ _ _ _ _ Ht), length_fmap, length_seq. done.
Qed.

(** Two buckets are never in one frame. *)
Lemma table_inj w outs hole b b' f :
  tables w outs hole -> bucket_table_ (dpu w) !! b = Some f -> bucket_table_ (dpu w) !! b' = Some f -> b = b'.
Proof.
  intros Ht Hb Hb'. apply (to_table _ _ _ _ _ _ Ht) in Hb as (_ & _ & Hb & _), Hb' as (_ & _ & Hb' & _).
  congruence.
Qed.

(** The fetches under way and the frames in use are among the [k] most recent
    frames. *)
Definition guarded (k : nat) (w : world) (outs : list pending) : Prop :=
  (k < CACHE_SIZE)%nat /\ forall o, o ∈ outs -> Z.of_nat (p_frame o) ∈ take k (lru w).

(** The least recent frame holds a bucket that is in the table. *)
Lemma last_frame_registered w outs k g :
  tables w outs None -> guarded k w outs -> free_list_ (dpu w) = [] -> last (lru w) = Some g ->
  exists f b, g = Z.of_nat f /\ (f < CACHE_SIZE)%nat /\ bucket_ids_ (dpu w) !! f = Some b /\
    bucket_table_ (dpu w) !! b = Some g.
Proof.
  intros Ht [Hk Ho] Hfree Hl.
  assert (g ∈ lru w) as Hg by (apply last_Some in Hl as [l' ->]; apply elem_of_app; right; by constructor).
  destruct (frame_number w outs None g Ht) as (f & -> & Hf); [apply elem_of_app; by left|].
  destruct (to_used _ _ _ _ _ _ Ht f Hg) as (b & Hb & [Hreg|[(o & Hin & <- & <-)|Hh]]); [by exists f, b| |done].
  exfalso. pose proof (frames_length w outs None Ht) as Hlen. rewrite Hfree in Hlen. simpl in Hlen.
  eapply (recent_not_last (lru w) k); [apply Ht|lia|by apply Ho|done|done].
Qed.

(** ** Taking a frame *)

(** The worker's tables after a frame [f] was taken for bucket [b]. *)
Definition retake (f : nat) (b old : Z) (d : Dpu) : Dpu :=
  set_replacer (accessed (replacer_ d) (Z.of_nat f))
    (set_bucket_ids (<[f := b]> (bucket_ids_ d)) (set_bucket_table (base.delete old (bucket_table_ d)) d)).

Lemma kwp_RecordAccess {A} F (f : unit -> kv A) w (Q : A -> world -> Prop) :
  replacer_ok (replacer_ (dpu w)) ->
  kwp (f tt) (set_dpu (set_replacer (accessed (replacer_ (dpu w)) F) (dpu w)) w) Q -> kwp (RecordAccess_ F ≫= f) w Q.
Proof. intros Hr Hf. apply kwp_bind. unfold RecordAccess_. apply kwp_getd. by rewrite RecordAccess_valid. Qed.

(** The end of [take_frame]. *)
Lemma kwp_retake f b (fl : option future) old w (Q : Z * option future -> world -> Prop) :
  replacer_ok (replacer_ (dpu w)) -> bucket_ids_ (dpu w) !! f = Some old ->
  Q (Z.of_nat f, fl) (set_dpu (retake f b old (dpu w)) w) ->
  kwp (ids ← getd bucket_ids_;
       old ← at_index ids (Z.of_nat f);
       modd (fun d => set_bucket_table (base.delete old (bucket_table_ d)) d);;
       modd (fun d => set_bucket_ids (<[Z.to_nat (Z.of_nat f) := b]> (bucket_ids_ d)) d);;
       RecordAccess_ (Z.of_nat f);;
       mret (Z.of_nat f, fl)) w Q.
Proof.
  intros Hr Hold HQ. apply kwp_getd, kwp_bind. eapply kwp_index; [done|]. rewrite Nat2Z.id.
  apply kwp_modd, kwp_modd, kwp_RecordAccess; [done|]. exact HQ.
Qed.

(** [w1] is [w] with frame [f] taken from its bucket [old] and given to [b]. *)
Record retaken (w w1 : world) (f : nat) (b old : Z) : Prop := {
  rt_rest : rest (dpu w1) = rest (dpu w);
  rt_replies : replies w1 = replies w;
  rt_cache : cache_ w1 = cache_ w;
  rt_heap : heap w1 = heap w;
  rt_dirty : dirty_flag_ (dpu w1) = <[f := false]> (dirty_flag_ (dpu w));
  rt_ids : bucket_ids_ (dpu w1) = <[f := b]> (bucket_ids_ (dpu w));
  rt_table : bucket_table_ (dpu w1) = base.delete old (bucket_table_ (dpu w));
  rt_repl : replacer_ok (replacer_ (dpu w1));
  rt_lru : exists L, lru w1 = Z.of_nat f :: L /\
    (forall g, g ∈ lru w -> g = Z.of_nat f \/ g ∈ L) /\ (forall g, g ∈ L -> g ∈ lru w) /\
    (forall k g, (k < CACHE_SIZE)%nat -> g ∈ take k (lru w) -> g ∈ take k L);
  rt_frames : lru w1 ++ free_list_ (dpu w1) ≡ₚ lru w ++ free_list_ (dpu w);
  rt_free : forall g, g ∈ free_list_ (dpu w1) -> g ∈ free_list_ (dpu w);
  rt_old : bucket_ids_ (dpu w) !! f = Some old /\
    (bucket_table_ (dpu w) !! old = Some (Z.of_nat f) \/ old = -1 /\ Z.of_nat f ∉ lru w)
}.

(** The frame of another bucket is another frame. *)
Lemma retaken_other w w1 outs f b old b' g :
  tables w outs None -> retaken w w1 f b old -> bucket_table_ (dpu w1) !! b' = Some g ->
  bucket_table_ (dpu w) !! b' = Some g /\ Z.to_nat g <> f /\ g <> Z.of_nat f.
Proof.
  intros Ht Hr Hb. rewrite (rt_table _ _ _ _ _ Hr) in Hb. apply lookup_delete_Some in Hb as [Hne Hb].
  destruct (to_table _ _ _ _ _ _ Ht b' g Hb) as (_ & Hg & Hi & _). split; [done|].
  destruct (rt_old _ _ _ _ _ Hr) as [Ho _]. split; [intros <-|intros ->; rewrite Nat2Z.id in Hi]; congruence.
Qed.

Lemma retaken_kept w w1 outs f b old b' g :
  tables w outs None -> retaken w w1 f b old -> bucket_table_ (dpu w) !! b' = Some g ->
  g <> Z.of_nat f -> bucket_table_ (dpu w1) !! b' = Some g.
Proof.
  intros Ht Hr Hb Hne. rewrite (rt_table _ _ _ _ _ Hr), lookup_delete_ne; [done|]. intros ->.
  destruct (rt_old _ _ _ _ _ Hr) as [_ [Ho|[-> _]]]; [congruence|].
  apply (to_table _ _ _ _ _ _ Ht) in Hb. lia.
Qed.

Lemma retaken_tables w w1 outs f b old :
  tables w outs None -> retaken w w1 f b old -> (f < CACHE_SIZE)%nat ->
  f ∉ p_frame <$> outs -> b ∉ p_bucket <$> outs -> bucket_table_ (dpu w) !! b = None ->
  tables w1 outs (Some (f, b)).
Proof.
  intros Ht Hr Hf Hfo Hbo Hb. destruct (rt_lru _ _ _ _ _ Hr) as (L & EL & HL1 & HL2 & _).
  pose proof (rt_rest _ _ _ _ _ Hr) as Hrest. assert (geo (dpu w1) = geo (dpu w)) as Eg by by injection Hrest.
  assert (NoDup (lru w1 ++ free_list_ (dpu w1))) as Hnd.
  { rewrite (rt_frames _ _ _ _ _ Hr). by eapply frames_NoDup. }
  rewrite EL in Hnd. apply NoDup_cons in Hnd as [HfL _].
  assert (forall o, o ∈ outs -> p_frame o <> f) as Hof.
  { intros o Ho <-. apply Hfo. by apply list_elem_of_fmap_2. }
  split; try (rewrite ?Eg, ?(rt_dirty _ _ _ _ _ Hr), ?(rt_ids _ _ _ _ _ Hr), ?length_insert; apply Ht).
  - apply Hr.
  - rewrite (rt_frames _ _ _ _ _ Hr). apply Ht.
  - intros g Hg. rewrite (rt_ids _ _ _ _ _ Hr), list_lookup_insert_ne; [by apply Ht, Hr|]. intros <-.
    apply HfL, elem_of_app. by right.
  - intros b' g Hg. destruct (retaken_other w w1 outs f b old b' g Ht Hr Hg) as (Hg' & Hne & _).
    destruct (to_table _ _ _ _ _ _ Ht b' g Hg') as (H1 & H2 & H3 & H4).
    do 2 (split; [done|]). rewrite (rt_ids _ _ _ _ _ Hr), list_lookup_insert_ne by done. split; [done|].
    rewrite EL, elem_of_cons. auto.
  - intros g. rewrite EL, elem_of_cons. intros [Heq|Hg].
    + assert (g = f) as -> by lia. exists b. rewrite (rt_ids _ _ _ _ _ Hr).
      rewrite list_lookup_insert_eq by (by rewrite (to_ids _ _ _ _ _ _ Ht)). auto.
    + assert (g <> f) as Hne by (intros ->; apply HfL, elem_of_app; by left).
      destruct (to_used _ _ _ _ _ _ Ht g (HL2 _ Hg)) as (b' & Hb' & Hu). exists b'.
      rewrite (rt_ids _ _ _ _ _ Hr), list_lookup_insert_ne by done. split; [done|].
      destruct Hu as [Hu|[Hu|Hu]]; [left|by right; left|done].
      eapply retaken_kept; [done..|lia].
  - intros o Ho. destruct (to_outs _ _ _ _ _ _ Ht o Ho) as (H1 & H2 & H3 & H4 & H5). split; [done|].
    rewrite (rt_table _ _ _ _ _ Hr), (rt_ids _ _ _ _ _ Hr), (rt_dirty _ _ _ _ _ Hr), EL.
    rewrite !list_lookup_insert_ne by (by apply not_eq_sym, Hof).
    split; [by apply lookup_delete_None; right|]. split; [done|]. split; [|done].
    rewrite elem_of_cons. auto.
  - intros f' b' [= <- <-]. rewrite (rt_table _ _ _ _ _ Hr), (rt_ids _ _ _ _ _ Hr), (rt_dirty _ _ _ _ _ Hr), EL.
    rewrite !list_lookup_insert_eq by (by rewrite ?(to_ids _ _ _ _ _ _ Ht), ?(to_dirty _ _ _ _ _ _ Ht)).
    split; [by apply lookup_delete_None; right|]. repeat (split; [done|]). split; [by left|]. done.
  - intros b' g Hg. destruct (retaken_other w w1 outs f b old b' g Ht Hr Hg) as (Hg' & Hne & _).
    rewrite (rt_dirty _ _ _ _ _ Hr), list_lookup_insert_ne by done. by apply Ht.
  - intros b' g x Hg. destruct (retaken_other w w1 outs f b old b' g Ht Hr Hg) as (Hg' & Hne & _).
    rewrite (rt_dirty _ _ _ _ _ Hr), list_lookup_insert_ne by done.
    unfold hostv. rewrite (rt_cache _ _ _ _ _ Hr), (rt_heap _ _ _ _ _ Hr). by apply Ht.
  - intros b' Hb'. unfold unborn in Hb'. assert (new_bucket_constructed_ (dpu w1) = new_bucket_constructed_ (dpu w))
      as Ec by (by injection Hrest). rewrite Ec in Hb'. unfold hostv. rewrite (rt_heap _ _ _ _ _ Hr), (rt_table _ _ _ _ _ Hr).
    destruct (to_unborn _ _ _ _ _ _ Ht b' Hb') as (H1 & H2 & H3).
    split; [by apply lookup_delete_None; right|]. done.
  - intros b' g Hg. destruct (retaken_other w w1 outs f b old b' g Ht Hr Hg) as (Hg' & _).
    by eapply (to_top _ _ _ _ _ _ Ht).
Qed.

(** The result of [take_frame]: either the previous contents need no write-back,
    or it is under way. *)
Definition taken (outs : list pending) (w : world) (b : Z) (f : nat) (flush : option future) (w1 : world) : Prop :=
  exists old, retaken w w1 f b old /\ steady B n w1 /\
  match flush with
  | None => io_ok B n w1 outs /\ (dirty_flag_ (dpu w) !! f = Some false \/ Z.of_nat f ∉ lru w)
  | Some (c, p) => io_ok B n w1 (outs ++ [Pend true old f c p]) /\
                   bucket_table_ (dpu w) !! old = Some (Z.of_nat f) /\ valid B n old
  end.

(** A change of the worker's tables is none of the DMA threads' business. *)
Lemma io_dpu w pend d : io_ok B n w pend -> io_ok B n (set_dpu d w) pend.
Proof. intros []. by split. Qed.

Lemma steady_dpu w d : steady B n w -> steady B n (set_dpu d w).
Proof. done. Qed.

(** A frame from the free list. *)
Lemma take_free w outs b g fr :
  cohw w outs -> free_list_ (dpu w) = g :: fr ->
  exists f, g = Z.of_nat f /\ (f < CACHE_SIZE)%nat /\ f ∉ p_frame <$> outs /\ Z.of_nat f ∉ lru w /\
  retaken w (set_dpu (retake f b (-1) (set_dirty_flag (<[f := false]> (dirty_flag_ (dpu w)))
                                          (set_free_list fr (dpu w)))) w) f b (-1).
Proof.
  intros [Hio Hst Ht] Hfree. pose proof (frames_NoDup _ _ _ Ht) as Hnd. rewrite Hfree in Hnd.
  destruct (frame_number w outs None g Ht) as (f & -> & Hf).
  { rewrite Hfree. apply elem_of_app. right. by left. }
  exists f. do 2 (split; [done|]). apply NoDup_app in Hnd as (_ & Hd & Hfr).
  assert (Z.of_nat f ∉ lru w) as Hl by (intros Hl; apply (Hd _ Hl); by left).
  split. { intros (o & -> & Ho)%list_elem_of_fmap. by destruct (to_outs _ _ _ _ _ _ Ht o Ho) as (_ & _ & _ & Hin & _). }
  split; [done|].
  assert (order (accessed (replacer_ (dpu w)) (Z.of_nat f)) = Z.of_nat f :: lru w) as Eo.
  { rewrite order_accessed by apply Ht. unfold touch. by rewrite filter_absent. }
  split; try done.
  - apply accessed_ok, Ht.
  - exists (lru w). split; [done|]. split; [auto|]. split; [auto|]. done.
  - transitivity ((Z.of_nat f :: lru w) ++ fr); [by rewrite <- Eo|]. rewrite Hfree. solve_Permutation.
  - rewrite Hfree. simpl. by right.
  - split; [|by right]. apply Ht. rewrite Hfree. by left.
Qed.

(** The least recently used frame. *)
Lemma take_evicted w outs b g k :
  cohw w outs -> guarded k w outs -> free_list_ (dpu w) = [] -> last (lru w) = Some g ->
  exists f old, g = Z.of_nat f /\ (f < CACHE_SIZE)%nat /\ f ∉ p_frame <$> outs /\
  bucket_ids_ (dpu w) !! f = Some old /\ bucket_table_ (dpu w) !! old = Some g /\
  forall w1 fl, dpu w1 = retake f b old (set_dirty_flag fl (set_replacer (Evict (replacer_ (dpu w))).2 (dpu w))) ->
  fl = <[f := false]> (dirty_flag_ (dpu w)) -> replies w1 = replies w -> cache_ w1 = cache_ w -> heap w1 = heap w ->
  retaken w w1 f b old.
Proof.
  intros [Hio Hst Ht] Hg Hfree Hl. pose proof Hg as [Hk Ho].
  destruct (last_frame_registered w outs k g Ht Hg Hfree Hl) as (f & old & -> & Hf & Hi & Hb).
  pose proof (frames_length w outs None Ht) as Hlen. rewrite Hfree in Hlen. simpl in Hlen.
  exists f, old. do 2 (split; [done|]). split.
  { intros (o & -> & Hin)%list_elem_of_fmap. eapply (recent_not_last (lru w) k); [apply Ht|lia|by apply Ho|done|done]. }
  do 2 (split; [done|]). intros w1 fl Ed -> E1 E2 E3.
  pose proof (order_Evict _ (to_repl _ _ _ _ _ _ Ht)) as [_ Eev].
  assert (order (accessed (Evict (replacer_ (dpu w))).2 (Z.of_nat f)) = Z.of_nat f :: drop_last (lru w)) as Eo.
  { rewrite order_accessed by (apply Evict_ok, Ht). rewrite Eev. apply touch_evicted; [apply Ht|done]. }
  assert (lru w1 = Z.of_nat f :: drop_last (lru w)) as El by (unfold lru at 1; by rewrite Ed).
  split; rewrite ?El, ?Ed; try done.
  - apply accessed_ok, Evict_ok, Ht.
  - exists (drop_last (lru w)). split; [done|]. split; [|split].
    + intros x Hx. rewrite (drop_last_snoc _ _ Hl), elem_of_app, list_elem_of_singleton in Hx. tauto.
    + intros x Hx. rewrite (drop_last_snoc _ _ Hl). apply elem_of_app. by left.
    + intros k' x Hk' Hx. unfold drop_last. rewrite take_take, Nat.min_l by lia. done.
  - transitivity ((Z.of_nat f :: drop_last (lru w)) ++ free_list_ (dpu w)); [done|].
    rewrite (drop_last_snoc _ _ Hl) at 2. solve_Permutation.
  - split; [done|]. by left.
Qed.

Lemma FlushBucket_ok w outs f old (Q : future -> world -> Prop) :
  io_ok B n w outs -> steady B n w -> geo (dpu w) = geo_at n -> bucket_ids_ (dpu w) !! f = Some old ->
  valid B n old -> (f < CACHE_SIZE)%nat -> f ∉ p_frame <$> outs -> old ∉ p_bucket <$> outs ->
  (forall p w', io_ok B n w' (outs ++ [Pend true old f (client_of n old) p]) -> steady B n w' ->
     dpu w' = dpu w -> replies w' = replies w -> cache_ w' = cache_ w -> heap w' = heap w ->
     Q (client_of n old, p) w') ->
  kwp (FlushBucket (Z.of_nat f)) w Q.
Proof using E.
  intros Hio Hst Hg Hi Hv Hf Hfo Hbo HQ. unfold FlushBucket. apply kwp_getd, kwp_bind.
  eapply kwp_index; [done|]. apply kwp_getd. rewrite Hg.
  destruct (GetClientBucket (geo_at n) old) as [c o] eqn:Ec.
  assert (Z.to_nat c = client_of n old) as -> by (unfold client_of; by rewrite Ec).
  assert (o = offset_of n old) as -> by (unfold offset_of; by rewrite Ec).
  pose proof (steady_HostInv B n (io_level _ _ _ _ Hio)).
  apply kwp_bind. eapply (ScheduleReadWrite_ok B n (steady B n)); [done..|].
  intros p w' Hio' Hst' E1 E2 E3 E4. apply kwp_ret. by apply HQ.
Qed.

Lemma take_frame_ok w outs b k :
  cohw w outs -> guarded k w outs ->
  kwp (take_frame b) w (fun r w1 => exists f, r.1 = Z.of_nat f /\ (f < CACHE_SIZE)%nat /\
    f ∉ p_frame <$> outs /\ taken outs w b f r.2 w1).
Proof using E.
  intros Hc Hg. pose proof Hc as [Hio Hst Ht]. unfold take_frame. apply kwp_getd.
  destruct (free_list_ (dpu w)) as [|g fr] eqn:Hfree.
  - destruct (last (lru w)) as [g|] eqn:Hl.
    2: { apply last_None in Hl. pose proof (frames_length _ _ _ Ht) as Hlen.
         rewrite Hl, Hfree in Hlen. done. }
    destruct (take_evicted w outs b g k Hc Hg Hfree Hl) as (f & old & -> & Hf & Hfo & Hi & Hb & Hr).
    pose proof (order_Evict _ (to_repl _ _ _ _ _ _ Ht)) as [Ev _]. unfold lru in Hl. rewrite Hl in Ev. simpl in Ev.
    pose proof (Evict_ok _ (to_repl _ _ _ _ _ _ Ht)) as Hev.
    apply kwp_bind, kwp_getd. destruct (Evict (replacer_ (dpu w))) as [frame r]. simpl in Ev. subst frame.
    apply kwp_modd, kwp_bind. destruct (lookup_lt_is_Some_2 (dirty_flag_ (dpu w)) f) as [fl Hfl].
    { by rewrite (to_dirty _ _ _ _ _ _ Ht). }
    eapply kwp_dirty; [exact Hfl|]. destruct fl.
    + apply kwp_bind. eapply FlushBucket_ok.
      * by apply io_dpu.
      * exact Hst.
      * apply Ht.
      * exact Hi.
      * by eapply (to_live _ _ _ _ _ _ Ht old (Z.of_nat f)); [|rewrite Nat2Z.id].
      * done.
      * done.
      * intros (o & -> & Ho)%list_elem_of_fmap. destruct (to_outs _ _ _ _ _ _ Ht o Ho) as (_ & Hn & _). congruence.
      * intros p w2 Hio2 Hst2 E1 E2 E3 E4. apply kwp_bind, kwp_put_dirty.
        { rewrite E1. simpl. by rewrite (to_dirty _ _ _ _ _ _ Ht). }
        apply kwp_ret. eapply kwp_retake; [simpl; rewrite E1; exact Hev|simpl; rewrite E1; exact Hi|]. exists f. do 3 (split; [done|]).
        exists old. split; [eapply Hr; [simpl; by rewrite E1|done..]|]. split; [exact Hst2|].
        split; [by do 2 apply io_dpu|]. split; [done|].
        by eapply (to_live _ _ _ _ _ _ Ht old (Z.of_nat f)); [|rewrite Nat2Z.id].
    + apply kwp_ret. eapply kwp_retake; [exact Hev|exact Hi|]. exists f. do 3 (split; [done|]). exists old.
      split; [|split; [exact Hst|split; [by do 2 apply io_dpu|by left]]].
      eapply (Hr _ (dirty_flag_ (dpu w))); try done. by rewrite list_insert_id.
  - destruct (take_free w outs b g fr Hc Hfree) as (f & -> & Hf & Hfo & Hl & Hr).
    apply kwp_bind, kwp_modd, kwp_bind, kwp_put_dirty.
    { simpl. by rewrite (to_dirty _ _ _ _ _ _ Ht). }
    apply kwp_ret. eapply kwp_retake; [apply Ht|exact (proj1 (rt_old _ _ _ _ _ Hr))|].
    exists f. do 3 (split; [done|]). exists (-1). split; [exact Hr|]. split; [exact Hst|].
    split; [by do 3 apply io_dpu|]. by right.
Qed.

(** The frame [f] is empty and belongs to [b]; nothing else has changed. *)
Definition ready (k : nat) (outs : list pending) (w : world) (b : Z) (f : nat) (w2 : world) : Prop :=
  io_ok B n w2 outs /\ steady B n w2 /\ tables w2 outs (Some (f, b)) /\ adv k (S k) w w2 /\
  Z.of_nat f ∈ take (S k) (lru w2) /\
  (forall o, o ∈ outs -> Z.of_nat (p_frame o) ∈ take (S k) (lru w2)) /\
  (forall b', bucket_table_ (dpu w) !! b' = None -> bucket_table_ (dpu w2) !! b' = None).

Lemma retaken_recent w w1 f b old k :
  retaken w w1 f b old -> (k < CACHE_SIZE)%nat ->
  Z.of_nat f ∈ take (S k) (lru w1) /\ forall g, g ∈ take k (lru w) -> g ∈ take (S k) (lru w1).
Proof.
  intros Hr Hk. destruct (rt_lru _ _ _ _ _ Hr) as (L & -> & _ & _ & HL). simpl. split; [by left|].
  intros g Hg. right. by apply HL.
Qed.

Lemma retaken_unborn w w1 f b old b' : retaken w w1 f b old -> unborn B n w1 b' -> unborn B n w b'.
Proof.
  intros Hr. unfold unborn. pose proof (rt_rest _ _ _ _ _ Hr) as Hrest.
  assert (new_bucket_constructed_ (dpu w1) = new_bucket_constructed_ (dpu w)) as -> by (by injection Hrest). done.
Qed.

(** A frame that is protected is not the one that was taken. *)
Lemma retaken_protected w w1 outs f b old k :
  tables w outs None -> retaken w w1 f b old -> (k < CACHE_SIZE)%nat -> Z.of_nat f ∉ take k (lru w).
Proof.
  intros Ht Hr Hk Hin. destruct (rt_lru _ _ _ _ _ Hr) as (L & EL & _ & _ & HL).
  assert (NoDup (lru w1)) as Hnd by apply Hr. rewrite EL in Hnd. apply NoDup_cons in Hnd as [Hnin _].
  apply Hnin. specialize (HL k _ Hk Hin). apply elem_of_take in HL as (i & Hi & _). by eapply list_elem_of_lookup_2.
Qed.

(** The buckets before and after the frame was taken and flushed: those of other
    frames are untouched, that of the frame is in host memory. *)
Lemma retaken_advance k w w1 w2 outs f b old :
  level_ok n -> tables w outs None -> retaken w w1 f b old -> (k < CACHE_SIZE)%nat ->
  dpu w2 = dpu w1 -> replies w2 = replies w1 ->
  (forall b' g, bucket_table_ (dpu w1) !! b' = Some g -> cache_ w2 !! Z.to_nat g = cache_ w1 !! Z.to_nat g) ->
  (forall b', valid B n b' -> b' <> old -> hostv B n w2 b' = hostv B n w b') ->
  (bucket_table_ (dpu w) !! old = Some (Z.of_nat f) -> valid B n old ->
     sub (cache_ w !!! f) (hostv B n w2 old) /\
     (hostv B n w2 old = hostv B n w old \/ hostv B n w2 old = cache_ w !!! f)) ->
  adv k (S k) w w2.
Proof using PreOrder0.
  intros Hn Ht Hr Hk Ed Er Hc Hh Hold. split.
  - rewrite Ed. apply Hr.
  - rewrite Er. apply Hr.
  - intros b' Hb'. unfold view. rewrite Ed. destruct (bucket_table_ (dpu w) !! b') as [g|] eqn:Eg.
    + destruct (decide (g = Z.of_nat f)) as [->|Hne].
      * assert (b' = old) as ->.
        { destruct (rt_old _ _ _ _ _ Hr) as [Hi _]. apply (to_table _ _ _ _ _ _ Ht) in Eg as (_ & _ & Eg & _).
          rewrite Nat2Z.id in Eg. congruence. }
        rewrite (rt_table _ _ _ _ _ Hr), lookup_delete_eq, Nat2Z.id. by apply Hold.
      * assert (bucket_table_ (dpu w1) !! b' = Some g) as Eg1 by (by eapply retaken_kept).
        rewrite Eg1. rewrite !list_lookup_total_alt, (Hc b' g Eg1), (rt_cache _ _ _ _ _ Hr). done.
    + assert (bucket_table_ (dpu w1) !! b' = None) as ->.
      { rewrite (rt_table _ _ _ _ _ Hr). by apply lookup_delete_None; right. }
      destruct (decide (b' = old)) as [->|Hne]; [|by rewrite Hh].
      destruct (rt_old _ _ _ _ _ Hr) as [_ [Ho|[-> _]]]; [congruence|].
      by apply valid_nonneg in Hb'.
  - intros b' Hb'. destruct (decide (b' = old)) as [->|Hne].
    + destruct (rt_old _ _ _ _ _ Hr) as [_ [Ho|[-> _]]]; [|by apply valid_nonneg in Hb'].
      destruct (Hold Ho Hb') as [_ Hcp]. unfold copies, view.
      rewrite Ed, (rt_table _ _ _ _ _ Hr), lookup_delete_eq, Ho, Nat2Z.id. tauto.
    + split; [left|left; by apply Hh]. unfold view. rewrite Ed. destruct (bucket_table_ (dpu w) !! b') as [g|] eqn:Eg.
      * destruct (to_table _ _ _ _ _ _ Ht b' g Eg) as (_ & _ & Ei & _).
        assert (g <> Z.of_nat f) as Hg.
        { intros ->. destruct (rt_old _ _ _ _ _ Hr) as [Hi _]. rewrite Nat2Z.id in Ei. congruence. }
        assert (bucket_table_ (dpu w1) !! b' = Some g) as Eg1 by (by eapply retaken_kept).
        by rewrite Eg1, !list_lookup_total_alt, (Hc b' g Eg1), (rt_cache _ _ _ _ _ Hr).
      * rewrite (rt_table _ _ _ _ _ Hr), lookup_delete_ne, Eg by done. by apply Hh.
  - unfold lru at 2. rewrite Ed. by apply (retaken_recent w w1 f b old k).
  - intros b' g Hb' Hg. rewrite Ed. assert (g <> Z.of_nat f) as Hne.
    { intros ->. by eapply (retaken_protected w w1 outs f b old k). }
    assert (bucket_table_ (dpu w1) !! b' = Some g) as Eg1 by (by eapply retaken_kept).
    split; [done|]. by rewrite (Hc b' g Eg1), (rt_cache _ _ _ _ _ Hr).
  - intros b' g. rewrite Ed. intros Eg1.
    apply (retaken_other w w1 outs f b old b' g Ht Hr) in Eg1 as (Eg & Hne' & _).
    rewrite (rt_dirty _ _ _ _ _ Hr), list_lookup_insert_ne by congruence. done.
Qed.

Lemma wait_flush_ok k w outs b f flush w1 :
  cohw w outs -> guarded k w outs -> (f < CACHE_SIZE)%nat -> f ∉ p_frame <$> outs ->
  bucket_table_ (dpu w) !! b = None -> b ∉ p_bucket <$> outs ->
  taken outs w b f flush w1 ->
  kwp (wait_flush flush) w1 (fun _ w2 => ready k outs w b f w2).
Proof using no_fault PreOrder0.
  intros [Hio Hst Ht] [Hk Hg] Hf Hfo Hb Hbo (old & Hr & Hst1 & Hfl).
  pose proof (io_level _ _ _ _ Hio) as Hn. pose proof (steady_HostInv B n Hn).
  pose proof (retaken_tables w w1 outs f b old Ht Hr Hf Hfo Hbo Hb) as Ht1.
  pose proof (retaken_recent w w1 f b old k Hr Hk) as [Hrec1 Hrec2].
  assert (forall b', bucket_table_ (dpu w) !! b' = None -> bucket_table_ (dpu w1) !! b' = None) as Hnone.
  { intros b' Hb'. rewrite (rt_table _ _ _ _ _ Hr). by apply lookup_delete_None; right. }
  assert (forall b', hostv B n w1 b' = hostv B n w b') as Hh1 by (intros; unfold hostv; by rewrite (rt_heap _ _ _ _ _ Hr)).
  destruct flush as [[c p]|]; simpl.
  - destruct Hfl as (Hio1 & Hreg & Hv). set (o := Pend true old f c p) in *.
    apply kwp_bind. eapply kwp_mono.
    { apply (future_get_ok no_fault B n (steady B n) o (outs ++ [o]));
        [apply elem_of_app; right; by constructor|done|done]. }
    intros _ w2 (-> & Hp2 & Hio2 & Hst2 & Hev). apply kwp_ret.
    destruct (tables_evolve sub B n w1 w2 outs (outs ++ [o]) _ Ht1 Hev) as [Ht2 Hc2].
    { intros o' [Ho'|Ho'%list_elem_of_singleton]%elem_of_app.
      - destruct (to_outs _ _ _ _ _ _ Ht o' Ho') as (-> & _). done.
      - subst o'. simpl. rewrite (rt_table _ _ _ _ _ Hr). split; [apply lookup_delete_eq|].
        intros Hub. apply (retaken_unborn w w1 f b old _ Hr) in Hub.
        apply (to_unborn _ _ _ _ _ _ Ht) in Hub as [Hub _]. congruence. }
    pose proof (io_forget B n w2 outs o [] true Hio2 Hp2) as Hio2'. rewrite app_nil_r in Hio2'.
    assert (lru w2 = lru w1) as El by (unfold lru; by rewrite (ev_dpu _ _ _ _ _ Hev)).
    repeat (split; [done|]). split; [|rewrite El, (ev_dpu _ _ _ _ _ Hev); auto].
    eapply (retaken_advance k w w1 w2); try done; try apply Hev.
    + intros b' Hb' Hne. rewrite <- Hh1. eapply hostv_evolves; [done..|].
      intros o' [Ho'|Ho'%list_elem_of_singleton]%elem_of_app Hw; [|by subst o'; simpl; congruence].
      destruct (to_outs _ _ _ _ _ _ Ht o' Ho'). congruence.
    + intros _ _. destruct (io_done _ _ _ _ Hio2 o true) as [_ Hdone];
        [apply elem_of_app; right; by constructor|done|].
      assert (hostv B n w2 old = cache_ w !!! f) as ->; [|by split; [|right]].
      unfold hostv. simpl in Hdone. rewrite <- Hdone, (ev_cache _ _ _ _ _ Hev), (rt_cache _ _ _ _ _ Hr).
      * rewrite list_lookup_total_alt. destruct (lookup_lt_is_Some_2 (cache_ w) f) as [x ->]; [|done].
        by rewrite (io_cache _ _ _ _ Hio).
      * intros o' [Ho'|Ho'%list_elem_of_singleton]%elem_of_app Hw; [|by subst o'].
        intros <-. apply Hfo. by apply list_elem_of_fmap_2.
  - destruct Hfl as [Hio1 Hcl]. repeat (split; [done|]). split; [|auto].
    eapply (retaken_advance k w w1 w1); try done.
    intros Hreg Hv. rewrite Hh1. split; [|by left]. destruct Hcl as [Hcl|Hcl].
    + destruct (lookup_lt_is_Some_2 (cache_ w) f) as [x Hx]; [by rewrite (io_cache _ _ _ _ Hio)|].
      rewrite (list_lookup_total_correct _ _ _ Hx).
      eapply (to_clean _ _ _ _ _ _ Ht old (Z.of_nat f)); rewrite ?Nat2Z.id; done.
    + by apply (to_table _ _ _ _ _ _ Ht) in Hreg as (_ & _ & _ & Hin).
Qed.

(** ** Fetching *)

(** The hole becomes a read under way. *)
Lemma tables_start w w' outs f b p :
  tables w outs (Some (f, b)) -> dpu w' = dpu w -> cache_ w' = cache_ w -> heap w' = heap w -> ~ unborn B n w b ->
  tables w' (outs ++ [Pend false b f (client_of n b) p]) None.
Proof.
  intros Ht Ed Ec Eh Hub. destruct (to_hole _ _ _ _ _ _ Ht f b eq_refl) as (H1 & H2 & H3 & H4 & H5 & H6).
  set (o := Pend false b f (client_of n b) p).
  assert (forall o', o' ∈ outs ++ [o] <-> o' ∈ outs \/ o' = o) as Hin.
  { intros o'. by rewrite elem_of_app, list_elem_of_singleton. }
  destruct Ht. unfold lru, hostv, unborn in *. split; unfold lru, hostv, unborn; rewrite ?Ed, ?Ec, ?Eh; auto.
  - intros g Hg. destruct (to_used g Hg) as (b' & Hb' & Hu). exists b'. split; [done|].
    destruct Hu as [Hu|[(o' & Ho' & Hu)|[= <- <-]]]; [by left| |]; right; left.
    + exists o'. rewrite Hin. auto.
    + exists o. rewrite Hin. auto.
  - intros o' [Ho'| ->]%Hin; [by apply to_outs|]. done.
  - done.
  - intros b' Hb'. destruct (to_unborn b' Hb') as (U1 & U2 & U3). split; [done|]. split; [|done].
    rewrite fmap_app, elem_of_app. simpl. rewrite list_elem_of_singleton. intros [|Heq]; [done|]. congruence.
Qed.

(** A fetch of [b] into [f] is under way. *)
Definition fetching (k : nat) (outs : list pending) (w : world) (b : Z) (r : fetch) (w' : world) : Prop :=
  exists f p, let o := Pend false b f (client_of n b) p in
  r = ((client_of n b, p), Z.of_nat f) /\ cohw w' (outs ++ [o]) /\ adv k (S k) w w' /\
  (forall o', o' ∈ outs ++ [o] -> Z.of_nat (p_frame o') ∈ take (S k) (lru w')) /\
  (forall b', bucket_table_ (dpu w) !! b' = None -> bucket_table_ (dpu w') !! b' = None).

Lemma FetchBucket_ok k w outs b :
  cohw w outs -> guarded k w outs -> valid B n b -> ~ unborn B n w b ->
  bucket_table_ (dpu w) !! b = None -> b ∉ p_bucket <$> outs ->
  kwp (FetchBucket b) w (fun r w' => fetching k outs w b r w').
Proof using no_fault PreOrder0.
  intros Hc Hg Hv Hub Hb Hbo. unfold FetchBucket. eapply kwp_call; [by apply (take_frame_ok w outs b k)|].
  intros [F flush] w1 (f & HF & Hf & Hfo & Htk). simpl in HF, Htk. subst F. apply kwp_getd.
  assert (rest (dpu w1) = rest (dpu w)) as Hrest by (destruct Htk as (old & Hr & _); apply Hr).
  assert (geo (dpu w1) = geo_at n) as ->.
  { injection Hrest as Hgeo. rewrite Hgeo. apply Hc. }
  destruct (GetClientBucket (geo_at n) b) as [c o] eqn:Ec.
  assert (Z.to_nat c = client_of n b) as -> by (unfold client_of; by rewrite Ec).
  assert (o = offset_of n b) as -> by (unfold offset_of; by rewrite Ec).
  eapply kwp_call; [by apply (wait_flush_ok k w outs b f flush w1)|].
  intros _ w2 (Hio2 & Hst2 & Ht2 & Had & Hf2 & Ho2 & Hnone). apply kwp_bind.
  pose proof (steady_HostInv B n (io_level _ _ _ _ Hio2)).
  eapply (ScheduleReadWrite_ok B n (steady B n) false b f outs); [done..|].
  intros p w3 Hio3 Hst3 E1 E2 E3 E4. apply kwp_ret. exists f, p. split; [done|].
  assert (lru w3 = lru w2) as El by (unfold lru; by rewrite E1).
  split; [|split; [|split]].
  - split; [done|done|]. eapply tables_start; [done..|]. intros Hub2. apply Hub. unfold unborn in *.
    assert (new_bucket_constructed_ (dpu w2) = new_bucket_constructed_ (dpu w)) as <-; [|done].
    pose proof (ad_rest _ _ _ _ _ _ _ _ Had) as Hr2. by injection Hr2.
  - destruct Had. unfold copies, view, hostv, lru in *. split; unfold copies, view, hostv, lru; rewrite ?E1, ?E2, ?E3, ?E4; auto.
  - rewrite El. intros o' [Ho'|Ho'%list_elem_of_singleton]%elem_of_app; [auto|by subst o'].
  - by rewrite E1.
Qed.

(** [f.get()] of the oldest fetch. *)
Lemma fetch_get_ok k w o outs :
  cohw w (o :: outs) ->
  kwp (fetch_get ((p_client o, p_promise o), Z.of_nat (p_frame o))) w (fun r w' =>
    r = (true, Z.of_nat (p_frame o)) /\ cohw w' (o :: outs) /\ adv k k w w' /\ dpu w' = dpu w /\
    promises w' !! p_promise o = Some true).
Proof using no_fault PreOrder0.
  intros Hc. pose proof Hc as [Hio Hst Ht]. pose proof (steady_HostInv B n (io_level _ _ _ _ Hio)).
  unfold fetch_get. apply kwp_bind. eapply kwp_mono.
  { apply (future_get_ok no_fault B n (steady B n) o (o :: outs)); [by left|done|done]. }
  intros ok w' (-> & Hp & Hio' & Hst' & Hev). apply kwp_ret. split; [done|].
  destruct (coh_evolves sub B n w w' (o :: outs) Hc Hio' Hst' Hev) as [Hc' _].
  split; [done|]. split; [by eapply advance_evolves|]. split; [apply Hev|done].
Qed.

Definition with_table (b F : Z) (w : world) : world :=
  set_dpu (set_bucket_table (<[b := F]> (bucket_table_ (dpu w))) (dpu w)) w.

(** The frame of a bucket that was filled enters the table. *)
Lemma tables_register w outs hole f b :
  tables w outs hole -> bucket_ids_ (dpu w) !! f = Some b -> Z.of_nat f ∈ lru w -> 0 <= b < top B n ->
  bucket_table_ (dpu w) !! b = None -> dirty_flag_ (dpu w) !! f = Some false ->
  forall outs', (forall o, o ∈ outs' -> o ∈ outs /\ p_bucket o <> b) ->
  (forall o, o ∈ outs -> o ∈ outs' \/ p_bucket o = b /\ p_frame o = f) ->
  (hole = None \/ hole = Some (f, b)) -> ~ unborn B n w b ->
  (forall x, cache_ w !! f = Some x -> valid B n b -> sub x (hostv B n w b)) ->
  tables (with_table b (Z.of_nat f) w) outs' None.
Proof.
  intros Ht Hi Hl H0 Hb Hd outs' Ho1 Ho2 Hh Hub Hx. destruct Ht. unfold lru, hostv, unborn in *.
  split; unfold lru, hostv, unborn; simpl; auto.
  - intros b' g [[<- <-]|[_ Hg]]%lookup_insert_Some; [rewrite Nat2Z.id; auto with lia|by apply to_table].
  - intros g Hg. destruct (to_used g Hg) as (b' & Hb' & Hu). exists b'. split; [done|].
    destruct (decide (b' = b)) as [->|Hne].
    { left. rewrite lookup_insert_eq. f_equal. destruct (decide (g = f)) as [->|Hgf]; [done|]. exfalso.
      destruct Hu as [Hu|[(o & Ho & E1 & E2)|Hu]]; [congruence| |destruct Hh; congruence].
      destruct (Ho2 o Ho) as [Ho'|[_ E3]]; [|congruence]. by apply Ho1 in Ho' as []. }
    rewrite lookup_insert_ne by done. destruct Hu as [Hu|[(o & Ho & E1 & E2)|Hu]]; [by left| |].
    + right; left. exists o. destruct (Ho2 o Ho) as [|[? _]]; [done|congruence].
    + destruct Hh; congruence.
  - intros o Ho. destruct (Ho1 o Ho) as [Ho' Hne]. rewrite lookup_insert_ne by done. by apply to_outs.
  - done.
  - intros b' g [[<- <-]|[_ Hg]]%lookup_insert_Some; [rewrite Nat2Z.id; congruence|by apply to_live].
  - intros b' g x [[<- <-]|[_ Hg]]%lookup_insert_Some Hv; [rewrite Nat2Z.id; auto|by apply to_clean].
  - intros b' Hb'. destruct (to_unborn b' Hb') as (U1 & U2 & U3).
    rewrite lookup_insert_ne by congruence. split; [done|]. split; [|done].
    intros (o & -> & Ho)%list_elem_of_fmap. apply U2, list_elem_of_fmap_2. by apply Ho1.
  - intros b' g [[<- <-]|[_ Hg]]%lookup_insert_Some; [lia|by eapply to_top].
Qed.

(** A change of the table that keeps every bucket's contents. *)
Lemma advance_register k w f b :
  bucket_table_ (dpu w) !! b = None -> dirty_flag_ (dpu w) !! f = Some false ->
  (valid B n b -> hostv B n w b = cache_ w !!! f) -> adv k k w (with_table b (Z.of_nat f) w).
Proof using PreOrder0.
  intros Hb Hd Hv.
  assert (forall b', valid B n b' -> view B n (with_table b (Z.of_nat f) w) b' = view B n w b') as Hsame.
  { intros b' Hb'. unfold view. simpl. destruct (decide (b' = b)) as [->|Hne].
    - rewrite lookup_insert_eq, Hb, Nat2Z.id. symmetry. by apply Hv.
    - by rewrite lookup_insert_ne. }
  split; try done.
  - intros b' Hb'. by rewrite Hsame.
  - intros b' Hb'. split; left; [by apply Hsame|done].
  - intros b' g Hb' _. simpl. rewrite lookup_insert_ne by congruence. done.
  - intros b' g. simpl. intros [[<- <-]|[_ Hg]]%lookup_insert_Some Hg'; [|done]. rewrite Nat2Z.id in Hg'. congruence.
Qed.

(** The oldest fetch is complete and enters the table. *)
Lemma register_fetched k w o outs :
  cohw w (o :: outs) -> promises w !! p_promise o = Some true ->
  cohw (with_table (p_bucket o) (Z.of_nat (p_frame o)) w) outs /\
  adv k k w (with_table (p_bucket o) (Z.of_nat (p_frame o)) w).
Proof using PreOrder0.
  intros [Hio Hst Ht] Hp. destruct (to_outs _ _ _ _ _ _ Ht o) as (_ & Hb & Hi & Hl & Hd); [by left|].
  destruct (io_pend _ _ _ _ Hio o) as (Hv & Hf & _); [by left|].
  destruct (io_done _ _ _ _ Hio o true) as [_ Hdone]; [by left|done|].
  assert (cache_ w !!! p_frame o = hostv B n w (p_bucket o)) as Heq.
  { unfold hostv. rewrite <- Hdone, list_lookup_total_alt.
    destruct (lookup_lt_is_Some_2 (cache_ w) (p_frame o)) as [x ->]; [by rewrite (io_cache _ _ _ _ Hio)|done]. }
  split; [|apply advance_register; [done|done|by rewrite Heq]].
  split; [by apply io_dpu, (io_forget B n w [] o outs true)|exact Hst|].
  eapply (tables_register w (o :: outs) None); try done.
  - split; [by eapply valid_nonneg; [apply Hio|]|]. by apply valid_top; [apply Hio|].
  - intros o' Ho'. split; [by right|]. intros Heq'. pose proof (io_buckets _ _ _ _ Hio) as Hnd.
    rewrite fmap_cons, NoDup_cons in Hnd. destruct Hnd as [Hnin _]. apply Hnin. rewrite <- Heq'.
    by apply list_elem_of_fmap_2.
  - intros o' [->|Ho']%elem_of_cons; auto.
  - by left.
  - intros Hub. apply (to_unborn _ _ _ _ _ _ Ht) in Hub as (_ & Hub & _). apply Hub. simpl. by left.
  - intros x Hx _. rewrite <- Heq. by rewrite (list_lookup_total_correct _ _ _ Hx).
Qed.

(** ** Hits *)

Definition with_access (F : Z) (w : world) : world :=
  set_dpu (set_replacer (accessed (replacer_ (dpu w)) F) (dpu w)) w.

Lemma record_access k w outs b F :
  cohw w outs -> bucket_table_ (dpu w) !! b = Some F ->
  cohw (with_access F w) outs /\ adv k (S k) w (with_access F w) /\ F ∈ take (S k) (lru (with_access F w)).
Proof using PreOrder0.
  intros [Hio Hst Ht] Hb. destruct (to_table _ _ _ _ _ _ Ht b F Hb) as (_ & _ & _ & Hin).
  assert (lru (with_access F w) = touch F (lru w)) as El.
  { unfold lru, with_access. simpl. apply order_accessed, Ht. }
  assert (touch F (lru w) ≡ₚ lru w) as Hp by (apply touch_perm; [apply Ht|done]).
  split; [|split].
  - split; [by apply io_dpu|exact Hst|]. destruct Ht. split; try done; rewrite ?El, ?Hp; try done.
    + by apply accessed_ok.
    + intros b' f Hb'. rewrite Hp. by apply to_table.
    + intros f Hf. rewrite Hp in Hf. by apply to_used.
    + intros o Ho. rewrite Hp. by apply to_outs.
  - split; try done; [intros b' _; by split; left|]. intros g Hg. rewrite El. by apply recent_touch.
  - rewrite El. apply recent_front.
Qed.

(** ** Reading and writing frames *)

Lemma frame_read_ok k w outs b F :
  cohw w outs -> bucket_table_ (dpu w) !! b = Some F ->
  kwp (frame_read F) w (fun x w' =>
    x = cache_ w !!! Z.to_nat F /\ wf_bucket x /\ cohw w' outs /\ adv k k w w' /\ dpu w' = dpu w /\
    cache_ w' !! Z.to_nat F = Some x /\ forall b', valid B n b' -> view B n w' b' = view B n w b').
Proof using no_fault PreOrder0.
  intros Hc Hb. pose proof Hc as [Hio Hst Ht]. pose proof (steady_HostInv B n (io_level _ _ _ _ Hio)).
  destruct (to_table _ _ _ _ _ _ Ht b F Hb) as (_ & H0 & _ & Hin).
  destruct (frame_number w outs None F Ht) as (f & -> & Hf); [apply elem_of_app; by left|].
  unfold frame_read. eapply kwp_call; [by apply (tick_ok no_fault B n (steady B n) w outs)|].
  intros _ w' (Hio' & Hst' & Hev). destruct (coh_evolves sub B n w w' outs Hc Hio' Hst' Hev) as (Hc' & Hvw & Hca).
  destruct (lookup_lt_is_Some_2 (cache_ w') f) as [x Hx]; [by rewrite (io_cache _ _ _ _ Hio')|].
  apply kwp_gets. eapply kwp_index; [done|]. rewrite Nat2Z.id.
  split; [|split; [by eapply Hio'|split; [done|split; [by eapply advance_evolves|split; [apply Hev|split; [done|exact Hvw]]]]]].
  specialize (Hca b _ Hb). rewrite Nat2Z.id in Hca. symmetry. apply list_lookup_total_correct. congruence.
Qed.

(** [w'] is [w] with the bucket [b] changed to [x] in its frame. *)
Record stored (b : Z) (x : LevelBucket) (w w' : world) : Prop := {
  sd_rest : rest (dpu w') = rest (dpu w);
  sd_replies : replies w' = replies w;
  sd_lru : lru w' = lru w;
  sd_table : bucket_table_ (dpu w') = bucket_table_ (dpu w);
  sd_view : view B n w' b = x;
  sd_same : forall b', valid B n b' -> b' <> b -> view B n w' b' = view B n w b'
}.

Lemma view_cached w b F : bucket_table_ (dpu w) !! b = Some F -> view B n w b = cache_ w !!! Z.to_nat F.
Proof. intros Hb. unfold view. by rewrite Hb. Qed.

Lemma store_coh w outs b f x fl :
  cohw w outs -> bucket_table_ (dpu w) !! b = Some (Z.of_nat f) -> (f < CACHE_SIZE)%nat -> wf_bucket x ->
  (fl = true -> valid B n b) -> (fl = false -> valid B n b -> sub x (hostv B n w b)) ->
  let w' := with_dirty f fl (set_cache (<[f := x]> (cache_ w)) w) in
  cohw w' outs /\ stored b x w w'.
Proof.
  intros [Hio Hst Ht] Hb Hf Hx Hfl1 Hfl2 w'.
  destruct (to_table _ _ _ _ _ _ Ht b _ Hb) as (_ & _ & Hi & _). rewrite Nat2Z.id in Hi.
  assert (forall o, o ∈ outs -> p_frame o <> f) as Hof.
  { intros o Ho <-. destruct (to_outs _ _ _ _ _ _ Ht o Ho) as (_ & H1 & H2 & _). congruence. }
  assert (forall b' g, bucket_table_ (dpu w) !! b' = Some g -> b' <> b -> Z.to_nat g <> f) as Hother.
  { intros b' g Hg Hne <-. destruct (to_table _ _ _ _ _ _ Ht b' g Hg) as (_ & _ & Hi' & _). congruence. }
  split.
  - split; [|exact Hst|].
    + destruct Hio. split; simpl; rewrite ?length_insert; auto.
      * intros g y [(_ & <- & _)|[_ Hy]]%list_lookup_insert_Some; eauto.
      * intros o y Ho Hp. rewrite list_lookup_insert_ne by (by apply not_eq_sym, Hof). auto.
    + destruct Ht. split; simpl; rewrite ?length_insert; auto.
      * intros o Ho. rewrite list_lookup_insert_ne by (by apply not_eq_sym, Hof). auto.
      * done.
      * intros b' g Hg. destruct (decide (b' = b)) as [->|Hne].
        -- assert (g = Z.of_nat f) as -> by congruence. rewrite Nat2Z.id, list_lookup_insert_eq by lia.
           intros [= Hfl]. by apply Hfl1.
        -- rewrite list_lookup_insert_ne by (by apply not_eq_sym, (Hother b')). by apply to_live.
      * intros b' g y Hg Hv. destruct (decide (b' = b)) as [->|Hne].
        -- assert (g = Z.of_nat f) as -> by congruence.
           rewrite Nat2Z.id, !list_lookup_insert_eq by (rewrite ?(io_cache _ _ _ _ Hio); lia).
           intros [= ->] [= <-]. by apply Hfl2.
        -- rewrite !list_lookup_insert_ne by (by apply not_eq_sym, (Hother b')). by apply to_clean.
  - split; try done.
    + unfold view. simpl. rewrite Hb, Nat2Z.id. apply list_lookup_total_insert_eq.
      by rewrite (io_cache _ _ _ _ Hio).
    + intros b' Hv Hne. unfold view. simpl. destruct (bucket_table_ (dpu w) !! b') as [g|] eqn:Hg; [|done].
      apply list_lookup_total_insert_ne. by apply not_eq_sym, (Hother b').
Qed.

Lemma stored_after w1 w2 w3 b x :
  dpu w2 = dpu w1 -> replies w2 = replies w1 ->
  (forall b', valid B n b' -> view B n w2 b' = view B n w1 b') ->
  stored b x w2 w3 -> stored b x w1 w3.
Proof.
  intros Ed Er Hv [S1 S2 S3 S4 S5 S6]. unfold lru in *. rewrite Ed in S1, S3, S4.
  split; try done; [congruence|]. intros b' Hb' Hne. rewrite S6, Hv by done. done.
Qed.

Lemma stored_then w1 w2 w3 b x :
  stored b x w1 w2 -> dpu w3 = dpu w2 -> replies w3 = replies w2 -> valid B n b ->
  (forall b', valid B n b' -> view B n w3 b' = view B n w2 b') -> stored b x w1 w3.
Proof.
  intros [S1 S2 S3 S4 S5 S6] Ed Er Hb Hv. unfold lru in *. split; unfold lru; rewrite ?Ed, ?Er; try done.
  - by rewrite Hv.
  - intros b' Hb' Hne. rewrite Hv by done. by apply S6.
Qed.

(** [cache_[frame].op(..., dirty_flag_[frame])] on a cached bucket, for an
    operation that raises the flag when it changes the bucket. *)
Definition marks_dirty (op : LevelBucket -> bool -> bool * LevelBucket * bool) : Prop :=
  forall x fl, wf_bucket x ->
    let '(_, x', fl') := op x fl in wf_bucket x' /\ (fl' = true \/ x' = x /\ fl' = fl).

(** Worlds that agree on what [advance] looks at. *)
Lemma advance_same k w w2 w3 :
  adv k k w w2 -> dpu w3 = dpu w2 -> replies w3 = replies w2 -> cache_ w3 = cache_ w2 -> heap w3 = heap w2 ->
  adv k k w w3.
Proof.
  intros [] E1 E2 E3 E4. unfold copies, view, hostv, lru in *.
  split; unfold copies, view, hostv, lru; rewrite ?E1, ?E2, ?E3, ?E4; auto.
Qed.

Lemma frame_update_ok k w outs b F op :
  cohw w outs -> bucket_table_ (dpu w) !! b = Some F -> valid B n b -> marks_dirty op ->
  kwp (frame_update F op) w (fun r w' => wf_bucket (view B n w b) /\ exists fl,
    let '(r', x', fl') := op (view B n w b) fl in
    r = r' /\ cohw w' outs /\ stored b x' w w' /\ (x' = view B n w b -> fl' = fl -> adv k k w w')).
Proof using no_fault PreOrder0.
  intros Hc Hb Hv Hop. pose proof Hc as [Hio Hst Ht]. pose proof (steady_HostInv B n (io_level _ _ _ _ Hio)).
  destruct (to_table _ _ _ _ _ _ Ht b F Hb) as (_ & H0 & _ & Hin).
  destruct (frame_number w outs None F Ht) as (f & -> & Hf); [apply elem_of_app; by left|].
  unfold frame_update, frame_read, frame_write. apply kwp_bind, kwp_bind. eapply kwp_mono.
  { by apply (tick_ok no_fault B n (steady B n) w outs). }
  intros _ w1 (Hio1 & Hst1 & Hev1). destruct (coh_evolves sub B n w w1 outs Hc Hio1 Hst1 Hev1) as (Hc1 & Hv1 & Hca1).
  pose proof (ev_dpu _ _ _ _ _ Hev1) as Ed1.
  destruct (lookup_lt_is_Some_2 (cache_ w1) f) as [x Hx]; [by rewrite (io_cache _ _ _ _ Hio1)|].
  assert (view B n w b = x) as Evx.
  { rewrite <- (Hv1 b Hv). unfold view. rewrite Ed1, Hb, Nat2Z.id. by apply list_lookup_total_correct. }
  assert (wf_bucket x) as Hxwf by (by eapply Hio1). rewrite Evx.
  apply kwp_gets. eapply kwp_index; [done|]. apply kwp_bind.
  destruct (lookup_lt_is_Some_2 (dirty_flag_ (dpu w1)) f) as [fl Hfl]; [by rewrite Ed1, (to_dirty _ _ _ _ _ _ Ht)|].
  eapply kwp_dirty; [done|]. specialize (Hop x fl Hxwf). destruct (op x fl) as [[r x'] fl'] eqn:Eop.
  destruct Hop as [Hx'wf Hop]. apply kwp_bind, kwp_bind. eapply kwp_mono.
  { by apply (tick_ok no_fault B n (steady B n) w1 outs). }
  intros _ w2 (Hio2 & Hst2 & Hev2). destruct (coh_evolves sub B n w1 w2 outs Hc1 Hio2 Hst2 Hev2) as (Hc2 & Hv2 & Hca2).
  pose proof (ev_dpu _ _ _ _ _ Hev2) as Ed2. rewrite Ed1 in Ed2.
  destruct (lookup_lt_is_Some_2 (cache_ w2) f) as [y Hy]; [by rewrite (io_cache _ _ _ _ Hio2)|].
  apply kwp_gets, kwp_bind. eapply kwp_index; [done|]. unfold kwp at 1. simpl. rewrite Nat2Z.id.
  apply kwp_bind, kwp_put_dirty; [simpl; by rewrite Ed2, (to_dirty _ _ _ _ _ _ Ht)|]. apply kwp_ret.
  split; [done|]. exists fl. rewrite Eop. split; [done|].
  assert (bucket_table_ (dpu w2) !! b = Some (Z.of_nat f)) as Hb2 by (by rewrite Ed2).
  destruct (store_coh w2 outs b f x' fl' Hc2 Hb2 Hf Hx'wf) as [Hc3 Hs3].
  { done. }
  { intros -> _. destruct Hop as [|[-> <-]]; [done|].
    eapply (to_clean _ _ _ _ _ _ (co_tables _ _ _ _ _ Hc2) b (Z.of_nat f)); try done; rewrite Nat2Z.id.
    - by rewrite Ed2, <- Ed1.
    - specialize (Hca2 b (Z.of_nat f)). rewrite Ed1, Nat2Z.id in Hca2. rewrite Hca2; done. }
  split; [done|]. split.
  { eapply (stored_after w w2); [done| | |done].
    - rewrite (ev_replies _ _ _ _ _ Hev2). apply Hev1.
    - intros b' Hb'. by rewrite Hv2, Hv1. }
  intros Exx ->. eapply (advance_same k w w2).
  - exact (advance_trans sub B n [] [] _ _ _ _ _ _ (advance_evolves sub B n k _ _ _ Hc Hio1 Hst1 Hev1)
             (advance_evolves sub B n k _ _ _ Hc1 Hio2 Hst2 Hev2)).
  - unfold with_dirty. simpl. f_equal. rewrite list_insert_id; [by destruct (dpu w2)|]. by rewrite Ed2, <- Ed1.
  - done.
  - unfold with_dirty. simpl. subst x'. apply list_insert_id.
    specialize (Hca2 b (Z.of_nat f)). rewrite Ed1, Nat2Z.id in Hca2. rewrite Hca2; done.
  - done.
Qed.

End fetch.
