(* ===== verification/KvMove.v ===== *)
(** * KvMove: making room by moving an entry

    When all candidate buckets of a key are full, [ProcessInsert] moves one
    entry of them to another bucket of the top level. The source bucket is not
    marked as dirty: its copy in host memory may keep the entry and come back.
    [sub_of S] is the relation between cached buckets and their copies that
    survives this: the copy may have more entries, all of them in the store [S]. *)

From stdpp Require Import gmap.
From S2P Require Import Prelude.
From S2P Require Import StringHash.
From S2P Require Import KvBucket.
From S2P Require Import KvReplacer.
From S2P Require Import KvState.
From S2P Require Import KvDma.
From S2P Require Import KvHost.
From S2P Require Import KvDpu.
From S2P Require Import KvAsync.
From S2P Require Import KvCoherence.
From S2P Require Import KvFetch.
From S2P Require Import KvRequests.

Abbreviation pair_ := (list Z * list Z)%type.

Definition sub_of (S : pair_ -> Prop) (x y : LevelBucket) : Prop :=
  x = y \/ (forall e, e ∈ entries x -> e ∈ entries y) /\ (forall e, e ∈ entries y -> S e).

#[export] Instance sub_of_preorder S : PreOrder (sub_of S).
Proof.
  split.
  - intros x. by left.
  - intros x y z [->|[H1 H2]] [->|[H3 H4]]; [by left|by right|by right|right]. split; auto.
Qed.

(** Entries of the upper bucket are stored if those of the lower one are. *)
Lemma sub_of_stored (S : pair_ -> Prop) x y :
  sub_of S x y -> (forall e, e ∈ entries x -> S e) -> forall e, e ∈ entries y -> S e.
Proof. intros [->|[_ H]]; auto. Qed.

Lemma sub_of_incl (S : pair_ -> Prop) x y e : sub_of S x y -> e ∈ entries x -> e ∈ entries y.
Proof. intros [->|[H _]]; auto. Qed.

(** More may be stored. *)
Lemma sub_of_mono (S S' : pair_ -> Prop) x y : (forall e, S e -> S' e) -> sub_of S x y -> sub_of S' x y.
Proof. intros H [->|[H1 H2]]; [by left|right; auto]. Qed.

Section move.
Context {E : Env} (no_fault : calm).
Context (S : pair_ -> Prop) (B : blocks) (n : Z).

Abbreviation cohw := (coh (sub_of S) B n).
Abbreviation adv := (advance (sub_of S) B n []).
Abbreviation livew := (live B n).

(** Everything in the buckets is stored. *)
Definition holds (w : world) : Prop := forall b e, valid B n b -> e ∈ entries (view B n w b) -> S e.

Lemma holds_advance rs k k' w w' : advance (sub_of S) B n rs k k' w w' -> holds w -> holds w'.
Proof.
  intros Had Hh b e Hv. eapply sub_of_stored; [by apply Had|]. intros e'. by apply Hh.
Qed.

(** ** Access without touching the recency list *)

Lemma frame_of_ok k w b :
  cohw w [] -> (k < CACHE_SIZE)%nat -> livew b ->
  kwp (frame_of b) w (fun F w' => cohw w' [] /\ adv k (1 + k) w w' /\ bucket_table_ (dpu w') !! b = Some F /\
    (forall F', bucket_table_ (dpu w) !! b = Some F' -> w' = w)).
Proof using no_fault.
  intros Hc Hk Hl. unfold frame_of. apply kwp_getd. destruct (bucket_table_ (dpu w) !! b) as [F|] eqn:Hb.
  - apply kwp_ret. split; [done|]. split; [|done].
    apply (advance_weaken (sub_of S) B n [] k k); [lia|by apply advance_refl; apply _].
  - eapply kwp_call.
    { apply (FetchBucket_ok no_fault (sub_of S) B n k w [] b); try done.
      - split; [done|]. intros o Ho. by apply not_elem_of_nil in Ho.
      - apply Hl.
      - by apply live_not_unborn.
      - apply not_elem_of_nil. }
    intros r w1 (f & p & -> & Hc1 & Had1 & _ & _).
    apply (complete_ok no_fault (sub_of S) B n (1 + k) w1 (Pend false b f (client_of n b) p) []); [done|].
    intros w2 Hc2 Had2 Hb2 w3 Ew. cbn iota beta. apply kwp_table_put. simpl in *. rewrite <- Ew. apply kwp_ret.
    split; [done|]. split; [exact (advance_trans (sub_of S) B n [] [] _ _ _ _ _ _ Had1 Had2)|]. by split.
Qed.

(** ** Writing a frame without marking it *)

Lemma with_dirty_id w f fl : dirty_flag_ (dpu w) !! f = Some fl -> with_dirty f fl w = w.
Proof.
  intros Hf. destruct w, dpu. unfold with_dirty, set_dpu, set_dirty_flag. simpl in *. by rewrite list_insert_id.
Qed.

Lemma frame_write_ok w b F x :
  cohw w [] -> bucket_table_ (dpu w) !! b = Some F -> valid B n b -> wf_bucket x ->
  (forall y, sub_of S (view B n w b) y -> sub_of S x y) ->
  kwp (frame_write F x) w (fun _ w' => cohw w' [] /\ stored B n b x w w').
Proof using no_fault.
  intros Hc Hb Hv Hx Hsub. pose proof Hc as [Hio Hst Ht]. pose proof (steady_HostInv B n (io_level _ _ _ _ Hio)).
  destruct (to_table _ _ _ _ _ _ Ht b F Hb) as (_ & H0 & _ & Hin).
  destruct (frame_number (sub_of S) B n w [] None F Ht) as (f & -> & Hf); [apply elem_of_app; by left|].
  unfold frame_write. eapply kwp_call; [by apply (tick_ok no_fault B n (steady B n) w [])|].
  intros _ w1 (Hio1 & Hst1 & Hev1). destruct (coh_evolves (sub_of S) B n w w1 [] Hc Hio1 Hst1 Hev1) as (Hc1 & Hv1 & Hca1).
  pose proof (ev_dpu _ _ _ _ _ Hev1) as Ed1.
  destruct (lookup_lt_is_Some_2 (cache_ w1) f) as [y Hy]; [by rewrite (io_cache _ _ _ _ Hio1)|].
  apply kwp_gets, kwp_bind. eapply kwp_index; [done|]. unfold kwp. simpl. rewrite Nat2Z.id.
  destruct (lookup_lt_is_Some_2 (dirty_flag_ (dpu w1)) f) as [fl Hfl]; [by rewrite Ed1, (to_dirty _ _ _ _ _ _ Ht)|].
  set (w2 := set_cache _ _). assert (with_dirty f fl w2 = w2) as Ew by (by apply with_dirty_id).
  assert (bucket_table_ (dpu w1) !! b = Some (Z.of_nat f)) as Hb1 by (by rewrite Ed1).
  destruct (store_coh (sub_of S) B n w1 [] b f x fl Hc1 Hb1 Hf Hx) as [Hc2 Hs2].
  - done.
  - intros -> _. apply Hsub. rewrite <- (Hv1 b Hv), (view_cached B n w1 b _ Hb1), Nat2Z.id.
    rewrite (list_lookup_total_correct _ _ _ Hy).
    eapply (to_clean _ _ _ _ _ _ (co_tables _ _ _ _ _ Hc1) b (Z.of_nat f)); rewrite ?Nat2Z.id; done.
  - fold w2 in Hc2, Hs2. rewrite Ew in Hc2, Hs2. split; [done|].
    eapply (stored_after B n w w1); [done|apply Hev1|done|done].
Qed.

(** ** The loops *)

(** The candidate buckets are cached, recently used and full. *)
Definition full (k : nat) (w : world) (bs fs : list Z) : Prop :=
  gathered w k bs fs /\ forall b, b ∈ bs -> Count (view B n w b) = ASSOC_NUM.

Lemma gathered_advance k k' w w' bs : forall fs,
  adv k k' w w' -> gathered w k bs fs ->
  gathered w' k' bs fs /\ forall b, b ∈ bs -> view B n w' b = view B n w b.
Proof.
  induction bs as [|b bs IH]; intros [|F fs] Had; simpl; try done.
  - intros _. split; [done|]. intros b Hb. by apply not_elem_of_nil in Hb.
  - intros (Hb & HF & Hg). destruct (IH fs Had Hg) as [Hg' Hv].
    destruct (ad_keep _ _ _ _ _ _ _ _ Had b F Hb HF) as [Hb' Hc].
    split; [split; [done|split; [by apply (ad_lru _ _ _ _ _ _ _ _ Had)|done]]|].
    intros b' [->|Hin]%elem_of_cons; [|by apply Hv].
    rewrite (view_cached B n w' b F Hb'), (view_cached B n w b F Hb), !list_lookup_total_alt. by rewrite Hc.
Qed.

Lemma full_advance k k' w w' bs fs : adv k k' w w' -> full k w bs fs -> full k' w' bs fs.
Proof.
  intros Had [Hg Hf]. destruct (gathered_advance k k' w w' bs fs Had Hg) as [Hg' Hv].
  split; [done|]. intros b Hb. rewrite Hv by done. by apply Hf.
Qed.

Lemma gathered_lookup k w bs : forall fs b,
  gathered w k bs fs -> b ∈ bs -> exists F, bucket_table_ (dpu w) !! b = Some F /\ F ∈ take k (lru w).
Proof.
  induction bs as [|b' bs IH]; intros [|F fs] b; simpl; try done; [by intros _ ?%not_elem_of_nil|].
  intros (Hb & HF & Hg) [->|Hin]%elem_of_cons; [by exists F|]. by eapply IH.
Qed.

(** An entry of the full bucket [src] is now in [dst]. *)
Definition moved (w : world) (src dst : Z) (e : pair_) (w' : world) : Prop :=
  cohw w [] /\ exists w1 x y, cohw w1 [] /\ stored B n dst x w w1 /\ stored B n src y w1 w' /\ src <> dst /\
  wf_bucket x /\ wf_bucket y /\ entries x ≡ₚ e :: entries (view B n w dst) /\
  entries (view B n w src) ≡ₚ e :: entries y.

(** Clearing a slot is compatible with a copy that has it. *)
Lemma sub_of_clear x y i :
  wf_bucket x -> Count x = ASSOC_NUM -> (i < ASSOC_NUM)%nat -> (forall e, e ∈ entries x -> S e) ->
  sub_of S x y -> sub_of S (set_token x i 0) y.
Proof.
  intros Hx Hf Hi HS Hsub. destruct (clear_slot x i Hx Hf Hi) as [_ He]. right. split.
  - intros e Hin. eapply sub_of_incl; [done|]. rewrite He. by right.
  - by eapply sub_of_stored.
Qed.

Definition slot_entry (x : LevelBucket) (i : nat) : pair_ := (key_ (slot_at x i), value_ (slot_at x i)).

(** One attempt: slot [slot] of [src] into the cached bucket [dst]. *)
Lemma move_attempt_ok k w src dst Fs Fd slot (rest : kv bool) (Q : bool -> world -> Prop) :
  cohw w [] -> holds w -> bucket_table_ (dpu w) !! src = Some Fs -> bucket_table_ (dpu w) !! dst = Some Fd ->
  valid B n src -> valid B n dst -> src <> dst -> Count (view B n w src) = ASSOC_NUM -> (slot < ASSOC_NUM)%nat ->
  (forall w1 w', adv k k w w1 -> cohw w' [] -> moved w1 src dst (slot_entry (view B n w src) slot) w' -> Q true w') ->
  (forall w', cohw w' [] -> adv k k w w' -> kwp rest w' Q) ->
  kwp (src ← frame_read Fs;
       let e := slot_at src slot in
       r ← frame_update Fd (fun b d => InsertSlot b (key_ e) (value_ e) d);
       if r : bool then
         src ← frame_read Fs;
         frame_write Fs (set_token src slot 0);;
         mret true
       else rest) w Q.
Proof using no_fault.
  intros Hc Hh Hs Hd Hvs Hvd Hne Hfull Hslot HQ1 HQ2.
  eapply kwp_call; [by apply (frame_read_ok no_fault (sub_of S) B n k w [] src Fs)|].
  intros x w1 (Ex & Hx & Hc1 & Had1 & Ed1 & Hx1 & _). rewrite <- (view_cached B n w src Fs Hs) in Ex.
  assert (bucket_table_ (dpu w1) !! src = Some Fs) as Hs1 by (by rewrite Ed1).
  assert (bucket_table_ (dpu w1) !! dst = Some Fd) as Hd1 by (by rewrite Ed1).
  assert (view B n w1 src = x) as Ex1.
  { rewrite (view_cached B n w1 src Fs Hs1). by apply list_lookup_total_correct. }
  cbv zeta. apply kwp_bind. eapply kwp_mono.
  { apply (frame_update_ok no_fault (sub_of S) B n k w1 [] dst Fd); [done..|apply InsertSlot_marks]. }
  intros r w2 (Hwf & fl & Hop).
  pose proof (InsertSlot_correct (view B n w1 dst) (key_ (slot_at x slot)) (value_ (slot_at x slot)) fl Hwf) as Hi.
  destruct (InsertSlot (view B n w1 dst) (key_ (slot_at x slot)) (value_ (slot_at x slot)) fl) as [[r' z] fl'].
  destruct Hop as (-> & Hc2 & Hs2 & Had2). destruct r'.
  - destruct Hi as (Hz & He & _ & _).
    assert (bucket_table_ (dpu w2) !! src = Some Fs) as Hsw2 by (by rewrite (sd_table _ _ _ _ _ _ Hs2)).
    assert (view B n w2 src = x) as Ex2 by (by rewrite (sd_same _ _ _ _ _ _ Hs2)).
    eapply kwp_call; [by apply (frame_read_ok no_fault (sub_of S) B n k w2 [] src Fs)|].
    intros x' w3 (Ex' & _ & Hc3 & Had3 & Ed3 & Hx3 & Hv3). rewrite <- (view_cached B n w2 src Fs Hsw2), Ex2 in Ex'. subst x'.
    assert (bucket_table_ (dpu w3) !! src = Some Fs) as Hs3 by (by rewrite Ed3).
    assert (view B n w3 src = x) as Exw3.
    { rewrite (view_cached B n w3 src Fs Hs3). by apply list_lookup_total_correct. }
    assert (forall e, e ∈ entries x -> S e) as HxS by (subst x; intros e; by apply Hh).
    destruct (clear_slot x slot Hx) as [Hcl Hce]; [by rewrite Ex|done|].
    eapply kwp_call.
    { apply (frame_write_ok w3 src Fs); [done..|]. rewrite Exw3. intros y. apply sub_of_clear; [done|by rewrite Ex|done|done]. }
    intros _ w4 (Hc4 & Hs4). apply kwp_ret. apply (HQ1 w1 w4 Had1 Hc4). rewrite <- Ex.
    split; [done|]. exists w3, z, (set_token x slot 0). split; [done|]. split.
    { eapply stored_then; [exact Hs2|done|apply Had3|done|done]. }
    split; [done|]. split; [done|]. split; [done|]. split; [done|]. split; [done|]. by rewrite Ex1.
  - destruct Hi as (-> & -> & _). apply HQ2; [done|].
    exact (advance_trans (sub_of S) B n [] [] _ _ _ _ _ _ Had1 (Had2 eq_refl eq_refl)).
Qed.

(** [full] and the rest of what the loops keep. *)
Record scene (k : nat) (w : world) (bs fs : list Z) : Prop := {
  sc_coh : cohw w [];
  sc_holds : holds w;
  sc_full : full k w bs fs
}.

Lemma scene_advance k k' w w' bs fs : adv k k' w w' -> cohw w' [] -> scene k w bs fs -> scene k' w' bs fs.
Proof. intros Had Hc' [Hc Hh Hf]. split; [done|by eapply holds_advance|by eapply full_advance]. Qed.

(** The outcome of a search for a place: [r] says whether an entry was moved from
    a bucket of [srcs] to one of the first two candidates of its key. *)
Definition move_result (d : Dpu) (k k' : nat) (w : world) (srcs : list Z) (r : bool) (w' : world) : Prop :=
  cohw w' [] /\
  if r then exists w1 src dst e, adv k k' w w1 /\ src ∈ srcs /\ moved w1 src dst e w' /\
    dst ∈ take 2 (Get4Buckets (geo_at n) (GenericType.Hash e.1 (f_seed_ d)) (GenericType.Hash e.1 (s_seed_ d)))
  else adv k k' w w'.

Lemma move_to_ok slot src Fs bs fs d dsts : forall k w,
  scene k w bs fs -> src ∈ bs -> livew src -> bucket_table_ (dpu w) !! src = Some Fs -> (slot < ASSOC_NUM)%nat ->
  Fs ∈ take k (lru w) -> (k + length dsts < CACHE_SIZE)%nat -> (forall b, b ∈ dsts -> livew b) ->
  (forall b, b ∈ dsts -> b ∈ take 2 (Get4Buckets (geo_at n)
     (GenericType.Hash (key_ (slot_at (view B n w src) slot)) (f_seed_ d))
     (GenericType.Hash (key_ (slot_at (view B n w src) slot)) (s_seed_ d)))) ->
  kwp (move_to Fs slot src dsts) w (move_result d k (k + length dsts) w [src]).
Proof using no_fault.
  induction dsts as [|dst dsts IH]; intros k w Hsc Hin Hl Hs Hslot HF Hk Hd Hd2; simpl.
  - apply kwp_ret. rewrite Nat.add_0_r. split; [apply Hsc|]. by apply advance_refl; apply _.
  - simpl in Hk. destruct (Z.eqb_spec dst src) as [->|Hne].
    + eapply kwp_mono.
      { apply (IH k w); try done; [lia|intros b Hb; apply Hd; by right|intros b Hb; apply Hd2; by right]. }
      intros [|] w' [Hc' Hr]; (split; [done|]).
      * destruct Hr as (w1 & s0 & t0 & e & Had & Hr). exists w1, s0, t0, e.
        split; [eapply advance_weaken; [|exact Had]; lia|done].
      * eapply advance_weaken; [|exact Hr]; lia.
    + eapply kwp_call; [apply (frame_of_ok k w dst); [apply Hsc|lia|apply Hd; by left]|].
      intros Fd w1 (Hc1 & Had1 & Hb1 & _). pose proof (scene_advance _ _ _ _ _ _ Had1 Hc1 Hsc) as Hsc1.
      destruct (ad_keep _ _ _ _ _ _ _ _ Had1 src Fs Hs HF) as [Hs1 Hcs].
      pose proof (ad_lru _ _ _ _ _ _ _ _ Had1 _ HF) as HF1.
      assert (view B n w1 src = view B n w src) as Evs.
      { rewrite (view_cached B n w1 src Fs Hs1), (view_cached B n w src Fs Hs), !list_lookup_total_alt. by rewrite Hcs. }
      apply (move_attempt_ok (1 + k) w1 src dst Fs Fd); try done; [apply Hsc1|apply Hl|apply Hd; by left|by apply Hsc1|..].
      * intros w2 w' Had2 Hc' Hm. split; [done|].
        exists w2, src, dst, (slot_entry (view B n w1 src) slot). split; [|split; [set_solver|split; [done|]]].
        -- eapply advance_weaken; [|exact (advance_trans (sub_of S) B n [] [] _ _ _ _ _ _ Had1 Had2)]. lia.
        -- simpl. rewrite Evs. apply Hd2. by left.
      * intros w2 Hc2 Had2. pose proof (advance_trans (sub_of S) B n [] [] _ _ _ _ _ _ Had1 Had2 : adv k (1 + k) w w2) as Had.
        destruct (ad_keep _ _ _ _ _ _ _ _ Had2 src Fs Hs1 HF1) as [Hs2 Hcs2].
        assert (view B n w2 src = view B n w src) as Evs2.
        { rewrite <- Evs, (view_cached B n w2 src Fs Hs2), (view_cached B n w1 src Fs Hs1), !list_lookup_total_alt. by rewrite Hcs2. }
        eapply kwp_mono.
        { apply (IH (1 + k)%nat w2); try done; [by eapply scene_advance|by apply (ad_lru _ _ _ _ _ _ _ _ Had2)|lia|by intros; apply Hd; right|].
          rewrite Evs2. intros; apply Hd2; by right. }
        intros [|] w' [Hc' Hr]; (split; [done|]); rewrite <- Nat.add_succ_comm.
        -- destruct Hr as (w3 & s0 & t0 & e & Had3 & Hr). exists w3, s0, t0, e. split; [|done].
           exact (advance_trans (sub_of S) B n [] [] _ _ _ _ _ _ Had Had3).
        -- exact (advance_trans (sub_of S) B n [] [] _ _ _ _ _ _ Had Hr).
Qed.

(** Seeds do not change. *)
Lemma rest_seeds d d' : rest d = rest d' -> f_seed_ d = f_seed_ d' /\ s_seed_ d = s_seed_ d' /\ geo d = geo d'.
Proof. unfold rest. intros [=]. done. Qed.

Lemma move_result_weaken d k k' k'' w srcs srcs' r w' :
  (k' <= k'')%nat -> (forall b, b ∈ srcs -> b ∈ srcs') -> move_result d k k' w srcs r w' -> move_result d k k'' w srcs' r w'.
Proof.
  intros Hk Hs [Hc Hr]. split; [done|]. destruct r; [|by eapply advance_weaken].
  destruct Hr as (w1 & src & dst & e & Had & Hin & Hr). exists w1, src, dst, e.
  split; [by eapply advance_weaken|]. split; [by apply Hs|done].
Qed.

Lemma move_result_after d k k' k'' w w' srcs r w'' :
  adv k k' w w' -> move_result d k' k'' w' srcs r w'' -> move_result d k k'' w srcs r w''.
Proof.
  intros Had [Hc Hr]. split; [done|]. destruct r.
  - destruct Hr as (w1 & src & dst & e & Had1 & Hr). exists w1, src, dst, e.
    split; [|done]. exact (advance_trans (sub_of S) B n [] [] _ _ _ _ _ _ Had Had1).
  - exact (advance_trans (sub_of S) B n [] [] _ _ _ _ _ _ Had Hr).
Qed.

(** Every bucket of the two levels is in use. *)
Context (all_live : forall b, 2 ^ (n - 1) - 4 <= b < 2 ^ (n + 1) - 4 -> livew b).

Lemma Hash_nonneg key seed : 0 <= GenericType.Hash key seed.
Proof. unfold GenericType.Hash. rewrite XXH64.hash_xxh64 by lia. apply XXH64.xxh64_range. Qed.

Lemma candidates_live h1 h2 b : level_ok n -> 0 <= h1 -> 0 <= h2 -> b ∈ Get4Buckets (geo_at n) h1 h2 -> livew b.
Proof using all_live. intros Hn H1 H2 Hb. apply all_live. exact (candidates_range n h1 h2 b Hn H1 H2 Hb). Qed.

Lemma elem_of_take_incl {A} (x : A) k l : x ∈ take k l -> x ∈ l.
Proof. intros (i & Hi & _)%elem_of_take. by eapply list_elem_of_lookup_2. Qed.

Lemma move_slots_ok src Fs bs fs d slots : forall k w,
  scene k w bs fs -> src ∈ bs -> livew src -> bucket_table_ (dpu w) !! src = Some Fs ->
  Fs ∈ take k (lru w) -> rest (dpu w) = rest d -> (k + 2 * length slots < CACHE_SIZE)%nat ->
  (forall slot, slot ∈ slots -> (slot < ASSOC_NUM)%nat) ->
  kwp (move_slots Fs src slots) w (move_result d k (k + 2 * length slots) w [src]).
Proof using no_fault all_live.
  induction slots as [|slot slots IH]; intros k w Hsc Hin Hl Hs HF Hd Hk Hsl; cbn [move_slots length].
  - apply kwp_ret. rewrite Nat.mul_0_r, Nat.add_0_r. split; [apply Hsc|]. by apply advance_refl; apply _.
  - cbn [length] in Hk. eapply kwp_call; [apply (frame_read_ok no_fault (sub_of S) B n k w [] src Fs); [apply Hsc|done]|].
    intros x w1 (Ex & Hx & Hc1 & Had1 & Ed1 & Hx1 & _). rewrite <- (view_cached B n w src Fs Hs) in Ex.
    pose proof (scene_advance _ _ _ _ _ _ Had1 Hc1 Hsc) as Hsc1.
    assert (bucket_table_ (dpu w1) !! src = Some Fs) as Hs1 by (by rewrite Ed1).
    assert (view B n w1 src = x) as Ex1.
    { rewrite (view_cached B n w1 src Fs Hs1). by apply list_lookup_total_correct. }
    pose proof (ad_lru _ _ _ _ _ _ _ _ Had1 _ HF) as HF1. cbv zeta. apply kwp_getd. unfold id.
    rewrite (to_geo _ _ _ _ _ _ (co_tables _ _ _ _ _ Hc1)).
    pose proof Hd as (Ef & Es & _)%rest_seeds. rewrite <- Ed1 in Ef, Es.
    eapply kwp_call.
    { apply (move_to_ok slot src Fs bs fs d _ k w1); try done.
      - apply Hsl. by left.
      - simpl. lia.
      - intros b Hb%elem_of_take_incl. eapply candidates_live; [apply Hc1|apply Hash_nonneg..|done].
      - intros b Hb. by rewrite Ex1, <- Ef, <- Es. }
    intros r w2 Hr. apply (move_result_after d k k _ w w1 _ _ _ Had1) in Hr. simpl in Hr.
    destruct r; [apply kwp_ret; by eapply move_result_weaken; [|done|exact Hr]; lia|].
    destruct Hr as [Hc2 Had2]. destruct (ad_keep _ _ _ _ _ _ _ _ Had2 src Fs Hs HF) as [Hs2 _].
    eapply kwp_mono.
    { apply (IH (k + 2)%nat w2); try done.
      - by eapply scene_advance.
      - by apply (ad_lru _ _ _ _ _ _ _ _ Had2).
      - rewrite <- Hd. apply Had2.
      - lia.
      - intros sl Hsl'. apply Hsl. by right. }
    intros r w3 Hr. apply (move_result_after d k _ _ w w2 _ _ _ Had2) in Hr.
    eapply move_result_weaken; [|done|exact Hr]. lia.
Qed.

Lemma move_one_ok bs0 fs d bs : forall k w,
  scene k w bs0 fs -> rest (dpu w) = rest d -> (k + 8 * length bs < CACHE_SIZE)%nat ->
  (forall b, b ∈ bs -> b ∈ bs0 /\ livew b) ->
  kwp (move_one bs) w (move_result d k (k + 8 * length bs) w bs).
Proof using no_fault all_live.
  induction bs as [|src bs IH]; intros k w Hsc Hd Hk Hbs; cbn [move_one length].
  - apply kwp_ret. rewrite Nat.mul_0_r, Nat.add_0_r. split; [apply Hsc|]. by apply advance_refl; apply _.
  - cbn [length] in Hk. destruct (Hbs src) as [Hin Hl]; [by left|].
    destruct (gathered_lookup k w bs0 fs src) as (F & HF & HFr); [apply Hsc|done|].
    eapply kwp_call; [apply (frame_of_ok k w src); [apply Hsc|lia|done]|].
    intros F' w1 (_ & _ & HF' & Hsame).
    rewrite (Hsame F HF) in *. assert (F' = F) as -> by congruence.
    eapply kwp_call.
    { apply (move_slots_ok src F bs0 fs d _ k w); try done; [rewrite length_seq; unfold ASSOC_NUM; lia|].
      intros sl Hsl%elem_of_seq. lia. }
    intros r w2 Hr. destruct r; [apply kwp_ret; eapply move_result_weaken; [| |exact Hr]; [simpl; lia|set_solver]|].
    destruct Hr as [Hc2 Had2]. eapply kwp_mono.
    { apply (IH (k + 8)%nat w2); [by eapply scene_advance|rewrite <- Hd; apply Had2|lia|]. intros b Hb. apply Hbs. by right. }
    intros r w3 Hr. apply (move_result_after d k _ _ w w2 _ _ _ Had2) in Hr.
    eapply move_result_weaken; [| |exact Hr]; [lia|set_solver].
Qed.
End move.
