(* ===== verification/KvStore.v ===== *)
(** * KvStore: the DPU key-value store as a set of pairs, and its next level

    The store that the requests work on is described by two sets of pairs:
    [S], those that a search may return, and [T], those that it must not miss.
    [store] says that the buckets represent them; the requests keep it.

    While the table is expanded, [FetchNBuckets] brings buckets of the next level
    into the cache: they are created empty the first time. [grows] is what this
    does to the world, [create_ok] the creation and [FetchN_ok] the whole. *)

From stdpp Require Import gmap.
From S2P Require Import Prelude.
From S2P Require Import StringHash.
From S2P Require Import KvBucket.
From S2P Require Import KvReplacer.
From S2P Require Import KvState.
From S2P Require Import KvDma.
From S2P Require Import KvHost.
From S2P Require Import KvDpu.
From S2P Require Import KvAsync.
From S2P Require Import KvCoherence.
From S2P Require Import KvFetch.
From S2P Require Import KvRequests.
From S2P Require Import KvMove.

(** The relation between cached buckets and their copies, for a finite set. *)
Definition within (S : gset pair_) : LevelBucket -> LevelBucket -> Prop := sub_of (fun e => e ∈ S).

#[export] Instance within_preorder S : PreOrder (within S).
Proof. apply sub_of_preorder. Qed.

(** The buckets that may hold a key. *)
Definition cand (d : Dpu) (key : list Z) : list Z :=
  Get4Buckets (geo d) (GenericType.Hash key (f_seed_ d)) (GenericType.Hash key (s_seed_ d)).

(** The buckets of the two levels, for a table that is not being expanded. *)
Definition settled (B : blocks) (n : Z) : Prop := b_new B = None /\ b_lo B = 2 ^ (n - 1) - 4.

Record store (S T : gset pair_) (B : blocks) (n : Z) (w : world) : Prop := {
  st_coh : coh (within S) B n w [];
  st_settled : settled B n;
  st_holds : holds (fun e => e ∈ S) B n w;
  st_complete : forall e, e ∈ T -> exists b, b ∈ cand (dpu w) e.1 /\ e ∈ entries (view B n w b);
  st_init : in_init_ (dpu w) = false
}.

(** More pairs may be allowed. *)
Lemma coh_mono (sub sub' : LevelBucket -> LevelBucket -> Prop) B n w outs :
  (forall x y, sub x y -> sub' x y) -> coh sub B n w outs -> coh sub' B n w outs.
Proof.
  intros Hs [Hio Hst Ht]. split; [done|done|]. destruct Ht. split; try done.
  intros b f x Hb Hv Hd Hx. eapply Hs, to_clean; done.
Qed.

Lemma settled_live B n : settled B n -> forall b, 2 ^ (n - 1) - 4 <= b < 2 ^ (n + 1) - 4 -> live B n b.
Proof. intros [_ Hlo] b Hb. unfold live, valid. rewrite Hlo. split; [left|]; lia. Qed.

Lemma cand_rest d d' key : rest d = rest d' -> cand d key = cand d' key.
Proof. intros (Ef & Es & Eg)%rest_seeds. unfold cand. by rewrite Ef, Es, Eg. Qed.

Lemma rest_init d d' : rest d = rest d' -> in_init_ d = in_init_ d'.
Proof. unfold rest. by intros [=]. Qed.

Section store.

Context (S T : gset pair_) (B : blocks) (n : Z).

Lemma store_level w : store S T B n w -> level_ok n.
Proof. intros Hs. apply (st_coh _ _ _ _ _ Hs). Qed.

Lemma store_geo w : store S T B n w -> geo (dpu w) = geo_at n.
Proof. intros Hs. apply (st_coh _ _ _ _ _ Hs). Qed.

Lemma cand_live w key b : store S T B n w -> b ∈ cand (dpu w) key -> live B n b.
Proof.
  intros Hs. unfold cand. rewrite (store_geo w Hs). apply candidates_live.
  - apply settled_live, Hs.
  - by eapply store_level.
  - apply Hash_nonneg.
  - apply Hash_nonneg.
Qed.

Lemma cand_NoDup w key : store S T B n w -> NoDup (cand (dpu w) key).
Proof.
  intros Hs. unfold cand. rewrite (store_geo w Hs).
  apply candidates_NoDup; [by eapply store_level|apply Hash_nonneg..].
Qed.

Lemma store_advance rs k k' w w' :
  store S T B n w -> coh (within S) B n w' [] -> advance (within S) B n rs k k' w w' -> store S T B n w'.
Proof.
  intros Hs Hc Had. pose proof Hs as [Hc0 Hst Hh Hco Hi]. split; [done|done|by eapply holds_advance| |].
  2: { rewrite (rest_init _ (dpu w)); [done|apply Had]. }
  intros e He. destruct (Hco e He) as (b & Hb & Hin). exists b.
  rewrite (cand_rest _ (dpu w)) by apply Had. split; [done|].
  eapply sub_of_incl; [apply (ad_view _ _ _ _ _ _ _ _ Had)|done]. by eapply cand_live.
Qed.

(** A pair was put into one of its buckets. *)
Lemma store_insert w w' b x e :
  store S T B n w -> coh (within S) B n w' [] -> stored B n b x w w' -> b ∈ cand (dpu w) e.1 ->
  entries x ≡ₚ e :: entries (view B n w b) -> store (S ∪ {[e]}) (T ∪ {[e]}) B n w'.
Proof.
  intros Hs Hc Hst Hb He. pose proof Hs as [_ Hse Hh Hco Hi]. split; [|done|..|by rewrite (rest_init _ (dpu w)); [|apply Hst]].
  - eapply coh_mono; [|exact Hc]. intros y z. apply sub_of_mono. set_solver.
  - intros b' e' Hv Hin. destruct (decide (b' = b)) as [->|Hne].
    + rewrite (sd_view _ _ _ _ _ _ Hst), He in Hin. apply elem_of_cons in Hin as [->|Hin]; [set_solver|].
      pose proof (Hh b e' Hv Hin). set_solver.
    + rewrite (sd_same _ _ _ _ _ _ Hst) in Hin by done. pose proof (Hh b' e' Hv Hin). set_solver.
  - intros e' He'. rewrite (cand_rest _ (dpu w)) by apply Hst.
    apply elem_of_union in He' as [He'|He'].
    + destruct (Hco e' He') as (b' & Hb' & Hin). exists b'. split; [done|].
      destruct (decide (b' = b)) as [->|Hne].
      * rewrite (sd_view _ _ _ _ _ _ Hst), He. by right.
      * rewrite (sd_same _ _ _ _ _ _ Hst); [done| |done]. by eapply cand_live.
    + apply elem_of_singleton in He' as ->. exists b. split; [done|].
      rewrite (sd_view _ _ _ _ _ _ Hst), He. by left.
Qed.

(** A pair was moved to another of its buckets. *)
Lemma store_move w w' src dst e :
  store S T B n w -> coh (within S) B n w' [] -> moved (fun e => e ∈ S) B n w src dst e w' ->
  live B n src -> dst ∈ cand (dpu w) e.1 -> store S T B n w'.
Proof.
  intros Hs Hc (_ & w1 & x & y & Hc1 & Hs1 & Hs2 & Hne & Hx & Hy & Ex & Ey) [Hvs _] Hd.
  pose proof Hs as [_ Hse Hh Hco Hi].
  assert (valid B n dst) as Hvd by (by eapply cand_live).
  assert (view B n w' dst = x) as Ed.
  { rewrite (sd_same _ _ _ _ _ _ Hs2) by done. apply Hs1. }
  assert (view B n w' src = y) as Es by apply Hs2.
  assert (forall b, valid B n b -> b <> src -> b <> dst -> view B n w' b = view B n w b) as Eo.
  { intros b Hv H1 H2. by rewrite (sd_same _ _ _ _ _ _ Hs2), (sd_same _ _ _ _ _ _ Hs1). }
  assert (e ∈ S) as HeS by (apply (Hh src); [done|]; rewrite Ey; by left).
  assert (rest (dpu w') = rest (dpu w)) as Hr by (rewrite (sd_rest _ _ _ _ _ _ Hs2); apply Hs1).
  split; [done|done|..|by rewrite (rest_init _ (dpu w))].
  - intros b e' Hv Hin. destruct (decide (b = src)) as [->|H1].
    + rewrite Es in Hin. apply (Hh src); [done|]. rewrite Ey. by right.
    + destruct (decide (b = dst)) as [->|H2].
      * rewrite Ed, Ex in Hin. apply elem_of_cons in Hin as [->|Hin]; [done|]. by apply (Hh dst).
      * rewrite Eo in Hin by done. by apply (Hh b).
  - intros e' He'. rewrite (cand_rest _ (dpu w)) by done.
    destruct (Hco e' He') as (b & Hb & Hin). destruct (decide (b = src)) as [->|H1].
    + rewrite Ey in Hin. apply elem_of_cons in Hin as [->|Hin].
      * exists dst. split; [done|]. rewrite Ed, Ex. by left.
      * exists src. by rewrite Es.
    + exists b. split; [done|]. destruct (decide (b = dst)) as [->|H2].
      * rewrite Ed, Ex. by right.
      * rewrite Eo; [done| |done|done]. by eapply cand_live.
Qed.

(** ** Insertion *)

Context {E : Env} (no_fault : calm).
Abbreviation adv := (advance (within S) B n []).

(** [ProcessInsert] after the expansion. *)
Definition insert_body (request : Request) : kv bool :=
  g ← getd geo;
  match Get4Buckets g (hash1_ request) (hash2_ request) with
  | [b0; b1; b2; b3] =>
      r ← tryInsertInto2Buckets request b0 b1;
      if r : bool then mret true
      else
        r ← tryInsertInto2Buckets request b2 b3;
        if r : bool then mret true
        else move_one [b0; b1; b2; b3]
  | _ => mret false
  end.

(** What was hashed: the key, with the seeds of the table. *)
Definition hashed (d : Dpu) (request : Request) : Prop :=
  hash1_ request = GenericType.Hash (rkey_ request) (f_seed_ d) /\
  hash2_ request = GenericType.Hash (rkey_ request) (s_seed_ d).

Definition pair_of (request : Request) : pair_ := (rkey_ request, rvalue_ request).

(** Every bucket of the key is full, in its current version or in that of host
    memory, which is the one that counts when the cached one is dropped. *)
Definition crowded (w : world) (key : list Z) : Prop :=
  forall b, b ∈ cand (dpu w) key -> Count (view B n w b) = ASSOC_NUM \/ Count (hostv B n w b) = ASSOC_NUM.

(** The outcome of an insertion: the pair is stored, or all its buckets are
    full and nothing changes, whatever the returned flag says. *)
Definition insertion (w : world) (request : Request) (r : bool) (w' : world) : Prop :=
  rest (dpu w') = rest (dpu w) /\ replies w' = replies w /\
  (r = true /\ store (S ∪ {[pair_of request]}) (T ∪ {[pair_of request]}) B n w' \/
   store S T B n w' /\ crowded w (rkey_ request)).

Lemma crowded_before k w w1 key :
  (forall b, b ∈ cand (dpu w) key -> valid B n b) -> adv 0 k w w1 ->
  (forall b, b ∈ cand (dpu w) key -> Count (view B n w1 b) = ASSOC_NUM) -> crowded w key.
Proof using.
  intros Hv Had Hf b Hb. specialize (Hf b Hb).
  destruct (ad_copies _ _ _ _ _ _ _ _ Had b (Hv b Hb)) as [[Ev|Ev] _]; rewrite Ev in Hf; auto.
Qed.

(** One of the two attempts. *)
Lemma attempt_ok k w w0 request b0 b1 (rest_ : kv bool) (Q : bool -> world -> Prop) :
  store S T B n w0 -> adv 0 k w0 w -> coh (within S) B n w [] -> (k + 2 < CACHE_SIZE)%nat ->
  b0 ∈ cand (dpu w0) (rkey_ request) -> b1 ∈ cand (dpu w0) (rkey_ request) -> b0 <> b1 ->
  (forall w', insertion w0 request true w' -> Q true w') ->
  (forall w', coh (within S) B n w' [] -> adv k (k + 2) w w' ->
     (exists F0 F1, gathered w' (k + 2) [b0; b1] [F0; F1]) ->
     Count (view B n w' b0) = ASSOC_NUM -> Count (view B n w' b1) = ASSOC_NUM -> kwp rest_ w' Q) ->
  kwp (r ← tryInsertInto2Buckets request b0 b1; if r : bool then mret true else rest_) w Q.
Proof using no_fault.
  intros Hs Had Hc Hk Hb0 Hb1 Hne HQ1 HQ2. eapply kwp_call.
  { apply (tryInsert_ok no_fault (within S) B n k w request b0 b1); [done|done|by eapply cand_live..|done]. }
  intros [|] w' [Hc' Hr]; [apply kwp_ret, HQ1|destruct Hr as (? & ? & ? & ?); by apply HQ2].
  destruct Hr as (w1 & b & x & Hc1 & Had1 & Hb & Hx & He & Hst).
  pose proof (advance_trans (within S) B n [] [] _ _ _ _ _ _ Had Had1 : adv 0 (k + 2) w0 w1) as Had2.
  split; [rewrite (sd_rest _ _ _ _ _ _ Hst); apply Had2|].
  split; [rewrite (sd_replies _ _ _ _ _ _ Hst); apply Had2|].
  left. split; [done|]. eapply (store_insert w1 w' b x); [by eapply store_advance|done|done| |done].
  rewrite (cand_rest _ (dpu w0)) by apply Had2. simpl.
  rewrite !elem_of_cons in Hb. by destruct Hb as [->|[->|Hb%not_elem_of_nil]].
Qed.

Lemma insert_body_ok w request :
  store S T B n w -> hashed (dpu w) request -> kwp (insert_body request) w (insertion w request).
Proof using no_fault.
  intros Hs [H1 H2]. unfold insert_body. apply kwp_getd. rewrite H1, H2. fold (cand (dpu w) (rkey_ request)).
  pose proof (cand_NoDup w (rkey_ request) Hs) as Hnd.
  assert (exists b0 b1 b2 b3, cand (dpu w) (rkey_ request) = [b0; b1; b2; b3]) as (b0 & b1 & b2 & b3 & Ec)
    by (by eexists _, _, _, _).
  pose proof (advance_refl (within S) B n 0 w) as Had0.
  assert (forall b, b ∈ [b0; b1; b2; b3] -> b ∈ cand (dpu w) (rkey_ request)) as Hin by (by rewrite Ec).
  rewrite Ec in Hnd |- *. rewrite !NoDup_cons, !elem_of_cons in Hnd.
  apply (attempt_ok 0 w w); [done|done|apply Hs|unfold CACHE_SIZE; lia|apply Hin; set_solver..|tauto|done|].
  intros w1 Hc1 Had1 (F0 & F1 & Hg01) Hf0 Hf1.
  apply (attempt_ok 2 w1 w); [done|done|done|unfold CACHE_SIZE; lia|apply Hin; set_solver..|tauto|done|].
  intros w2 Hc2 Had2 (F2 & F3 & Hg23) Hf2 Hf3.
  pose proof (advance_trans (within S) B n [] [] _ _ _ _ _ _ Had1 Had2 : adv 0 4 w w2) as Had.
  destruct (gathered_advance (fun e => e ∈ S) B n 2 4 w1 w2 [b0; b1] [F0; F1] Had2 Hg01) as [Hg01' Hv].
  assert (full B n 4 w2 [b0; b1; b2; b3] [F0; F1; F2; F3]) as Hfull.
  { split; [simpl in *; tauto|]. intros b. rewrite !elem_of_cons. 
    intros [->|[->|[->|[->|Hb%not_elem_of_nil]]]]; [rewrite Hv; [done|by left]|rewrite Hv; [done|by right; left]|done..]. }
  assert (crowded w (rkey_ request)) as Hcr.
  { apply (crowded_before 4 w w2); [|done|intros b; rewrite Ec; apply Hfull].
    intros b Hb. exact (proj1 (cand_live w _ b Hs Hb)). }
  eapply kwp_mono.
  { apply (move_one_ok no_fault (fun e => e ∈ S) B n ltac:(apply settled_live, Hs) [b0; b1; b2; b3] [F0; F1; F2; F3]
             (dpu w) [b0; b1; b2; b3] 4 w2).
    - split; [done|eapply holds_advance; [exact Had|apply Hs]|done].
    - apply Had.
    - unfold CACHE_SIZE. simpl. lia.
    - intros b Hb. split; [done|]. by eapply cand_live, Hin. }
  intros r w3 [Hc3 Hr]. assert (store S T B n w2) as Hs2 by (by eapply store_advance). destruct r.
  - destruct Hr as (w4 & src & dst & e & Had4 & Hsrc & Hm & Hd).
    pose proof Hm as (Hc4 & wm & x & y & _ & Hs3 & Hs4 & _). split; [|split; [|right; split]].
    + rewrite (sd_rest _ _ _ _ _ _ Hs4), (sd_rest _ _ _ _ _ _ Hs3), (ad_rest _ _ _ _ _ _ _ _ Had4). apply Had.
    + rewrite (sd_replies _ _ _ _ _ _ Hs4), (sd_replies _ _ _ _ _ _ Hs3), (ad_replies _ _ _ _ _ _ _ _ Had4). apply Had.
    + eapply (store_move w4 w3 src dst e); [by eapply store_advance|done|done|by eapply cand_live, Hin|].
      apply elem_of_take_incl in Hd. rewrite <- (store_geo w Hs) in Hd.
      rewrite (cand_rest _ (dpu w)); [done|]. rewrite (ad_rest _ _ _ _ _ _ _ _ Had4). apply Had.
    + exact Hcr.
  - pose proof (advance_trans (within S) B n [] [] _ _ _ _ _ _ Had Hr) as Had3.
    split; [apply Had3|split; [apply Had3|right; split]].
    + by eapply store_advance.
    + exact Hcr.
Qed.
End store.

(** * The buckets of the next level *)

Definition with_constructed (c : list bool) (w : world) : world :=
  set_dpu (set_new_bucket_constructed c (dpu w)) w.

Section split.
Context {E : Env} (no_fault : calm).
Context (sub : LevelBucket -> LevelBucket -> Prop) `{!PreOrder sub}.
Context (B : blocks) (n : Z).

Abbreviation cohw := (coh sub B n).
Abbreviation adv := (advance sub B n []).

(** As [advance], but buckets of the next level may have been created. *)
Definition grows (k k' : nat) (w w' : world) : Prop :=
  length (new_bucket_constructed_ (dpu w')) = length (new_bucket_constructed_ (dpu w)) /\
  adv k k' (with_constructed (new_bucket_constructed_ (dpu w')) w) w'.

Lemma advance_constructed c k k' w w' : adv k k' w w' -> adv k k' (with_constructed c w) (with_constructed c w').
Proof.
  intros [R P V C L K D]. split; try done.
  change (set_new_bucket_constructed c (rest (dpu w')) = set_new_bucket_constructed c (rest (dpu w))). by rewrite R.
Qed.

Lemma grows_advance k k' w w' : adv k k' w w' -> grows k k' w w'.
Proof.
  intros Had. assert (new_bucket_constructed_ (dpu w') = new_bucket_constructed_ (dpu w)) as Ec.
  { pose proof (ad_rest _ _ _ _ _ _ _ _ Had) as Hr. by injection Hr. }
  split; [by rewrite Ec|]. rewrite Ec. replace (with_constructed _ w) with w; [done|]. by destruct w, dpu.
Qed.

Lemma grows_trans k1 k2 k3 w1 w2 w3 : grows k1 k2 w1 w2 -> grows k2 k3 w2 w3 -> grows k1 k3 w1 w3.
Proof using PreOrder0.
  intros [L1 H1] [L2 H2]. split; [congruence|].
  apply (advance_constructed (new_bucket_constructed_ (dpu w3))) in H1.
  exact (advance_trans sub B n [] [] _ _ _ _ _ _ H1 H2).
Qed.

Lemma grows_weaken k k' k'' w w' : (k' <= k'')%nat -> grows k k' w w' -> grows k k'' w w'.
Proof. intros Hk [L H]. split; [done|]. by eapply advance_weaken. Qed.

(** Other threads, while a frame has no contents. *)
Lemma hole_evolves k w w' outs hole :
  tables_ok sub B n w outs hole -> evolves B n outs w w' ->
  tables_ok sub B n w' outs hole /\ adv k k w w' /\
  forall b f, bucket_table_ (dpu w) !! b = Some f -> cache_ w' !! Z.to_nat f = cache_ w !! Z.to_nat f.
Proof using PreOrder0.
  intros Ht Hev. destruct (tables_evolve sub B n w w' outs outs hole Ht Hev) as [Ht' Hc].
  { intros o Ho. destruct (to_outs _ _ _ _ _ _ Ht o Ho) as (-> & _). done. }
  split; [done|]. split; [|done].
  split; unfold lru; rewrite ?(ev_dpu _ _ _ _ _ Hev), ?(ev_replies _ _ _ _ _ Hev); try done.
  - intros b Hb. unfold view. rewrite (ev_dpu _ _ _ _ _ Hev).
    destruct (bucket_table_ (dpu w) !! b) as [f|] eqn:Ef; [rewrite !list_lookup_total_alt; by rewrite (Hc b f Ef)|].
    rewrite (hostv_evolves B n outs w w' b Hev Hb); [done|]. intros o Ho Hw _.
    destruct (to_outs _ _ _ _ _ _ Ht o Ho) as (Hr & _). congruence.
  - intros b Hb. assert (hostv B n w' b = hostv B n w b) as Eh.
    { rewrite (hostv_evolves B n outs w w' b Hev Hb); [done|]. intros o Ho Hw _.
      destruct (to_outs _ _ _ _ _ _ Ht o Ho) as (Hr & _). congruence. }
    split; left; [|done]. unfold view. rewrite (ev_dpu _ _ _ _ _ Hev).
    destruct (bucket_table_ (dpu w) !! b) as [f|] eqn:Ef; [rewrite !list_lookup_total_alt; by rewrite (Hc b f Ef)|done].
  - intros b g Hb Hg. split; [done|]. by eapply Hc.
Qed.

(** ** Creating a bucket *)

(** The world after an empty bucket [b] was put into the frame [f]. *)
Definition created (b : Z) (f : nat) (w : world) : world :=
  with_table b (Z.of_nat f)
    (with_constructed (<[Z.to_nat (b - (2 ^ (n + 1) - 4)) := true]> (new_bucket_constructed_ (dpu w)))
       (set_cache (<[f := zero_bucket]> (cache_ w)) w)).

Lemma created_unborn b f w b' : unborn B n (created b f w) b' -> unborn B n w b' /\ b' <> b.
Proof.
  intros (H1 & H2 & H3). simpl in H3. destruct (decide (b' = b)) as [->|Hne].
  - apply list_lookup_insert_Some in H3 as [(_ & ? & _)|[? _]]; done.
  - split; [|done]. split; [done|]. split; [done|]. apply list_lookup_insert_Some in H3 as [(_ & ? & _)|[_ ?]]; done.
Qed.

Lemma created_coh k w outs b f :
  io_ok B n w outs -> steady B n w -> tables_ok sub B n w outs (Some (f, b)) -> (f < CACHE_SIZE)%nat ->
  unborn B n w b -> Z.of_nat f ∈ take k (lru w) ->
  cohw (created b f w) outs /\ grows k k w (created b f w).
Proof using PreOrder0.
  intros Hio Hst Ht Hf Hub HF. destruct (to_hole _ _ _ _ _ _ Ht f b eq_refl) as (H1 & H2 & H3 & H4 & H5 & H6).
  pose proof Hub as (HN & Hr & _). pose proof (io_level _ _ _ _ Hio) as Hn.
  assert (valid B n b) as Hv by (by right).
  assert (hostv B n w b = zero_bucket) as Hz by (by apply (to_unborn _ _ _ _ _ _ Ht)).
  assert (forall o, o ∈ outs -> p_frame o <> f) as Hof.
  { intros o Ho <-. apply H5. by apply list_elem_of_fmap_2. }
  assert (forall b' g, bucket_table_ (dpu w) !! b' = Some g -> Z.to_nat g <> f) as Hother.
  { intros b' g Hg <-. destruct (to_table _ _ _ _ _ _ Ht b' g Hg) as (_ & _ & Hi' & _). congruence. }
  set (w1 := with_constructed (<[Z.to_nat (b - (2 ^ (n + 1) - 4)) := true]> (new_bucket_constructed_ (dpu w)))
               (set_cache (<[f := zero_bucket]> (cache_ w)) w)).
  assert (tables_ok sub B n w1 outs (Some (f, b))) as Ht1.
  { destruct Ht. split; try done.
    - intros b' g x Hg Hvb. simpl. rewrite list_lookup_insert_ne by (by apply not_eq_sym, (Hother b')). by apply to_clean.
    - intros b' Hb'. apply to_unborn. apply (created_unborn b f w b'). exact Hb'. }
  split.
  - split; [|exact Hst|].
    + destruct Hio. split; simpl; rewrite ?length_insert; auto.
      * intros g y [(_ & <- & _)|[_ Hy]]%list_lookup_insert_Some; [apply zero_bucket_wf|eauto].
      * intros o y Ho Hp. rewrite list_lookup_insert_ne by (by apply not_eq_sym, Hof). auto.
    + apply (tables_register sub B n w1 outs (Some (f, b)) f b Ht1); try done.
      * split; [by eapply valid_nonneg|by apply valid_top].
      * intros o Ho. split; [done|]. intros <-. apply H6. by apply list_elem_of_fmap_2.
      * by left.
      * by right.
      * intros Hu. by apply (created_unborn b f w b) in Hu as [_ ?].
      * intros x Hx _. simpl in Hx. rewrite list_lookup_insert_eq in Hx by (by rewrite (io_cache _ _ _ _ Hio)).
        injection Hx as <-. by change (hostv B n w1 b) with (hostv B n w b); rewrite Hz.
  - set (w0 := with_constructed (new_bucket_constructed_ (dpu (created b f w))) w).
    assert (forall b', view B n (created b f w) b' = view B n w0 b') as Hsame.
    { intros b'. unfold view. simpl. destruct (decide (b' = b)) as [->|Hne].
      - rewrite lookup_insert_eq, H1, Nat2Z.id, list_lookup_total_insert_eq by (by rewrite (io_cache _ _ _ _ Hio)).
        by change (hostv B n _ b) with (hostv B n w b); rewrite Hz.
      - rewrite lookup_insert_ne by done. destruct (bucket_table_ (dpu w) !! b') as [g|] eqn:Hg; [|done].
        by rewrite list_lookup_total_insert_ne by (by apply not_eq_sym, (Hother b')). }
    split; [simpl; by rewrite length_insert|]. split; try done.
    + intros b' Hb'. by rewrite Hsame.
    + intros b' Hb'. split; left; [apply Hsame|done].
    + intros b' g Hg _. simpl in *. rewrite lookup_insert_ne by congruence. split; [done|].
      by rewrite list_lookup_insert_ne by (by apply not_eq_sym, (Hother b')).
    + intros b' g. simpl. intros [[<- <-]|[_ Hg]]%lookup_insert_Some Hg'; [|done]. rewrite Nat2Z.id in Hg'. congruence.
Qed.

(** The branch of [fetch_start] for a bucket that does not exist yet. *)
Lemma create_ok k w outs b :
  cohw w outs -> guarded k w outs -> unborn B n w b ->
  kwp (frame ← NewBucket b;
       table_put b frame;;
       modd (fun d => set_new_bucket_constructed
               (<[Z.to_nat (b - (2 ^ (n + 1) - 4)) := true]> (new_bucket_constructed_ d)) d);;
       mret (inl frame : Z + fetch)) w (fun x w' => exists F, x = inl F /\ cohw w' outs /\ grows k (S k) w w' /\
    bucket_table_ (dpu w') !! b = Some F /\ F ∈ take (S k) (lru w') /\
    forall o, o ∈ outs -> Z.of_nat (p_frame o) ∈ take (S k) (lru w')).
Proof using no_fault PreOrder0.
  intros Hc Hg Hub. pose proof Hc as [Hio Hst Ht]. destruct (to_unborn _ _ _ _ _ _ Ht b Hub) as (Hb & Hbo & _).
  unfold NewBucket. apply kwp_bind. eapply kwp_call; [by apply (take_frame_ok sub B n w outs b k)|].
  intros [F flush] w1 (f & HF & Hf & Hfo & Htk). simpl in HF, Htk. subst F.
  eapply kwp_call; [by apply (wait_flush_ok no_fault sub B n k w outs b f flush w1)|].
  intros _ w2 (Hio2 & Hst2 & Ht2 & Had & Hf2 & Ho2 & Hnone). pose proof (steady_HostInv B n (io_level _ _ _ _ Hio2)).
  unfold frame_write. apply kwp_bind. eapply kwp_call; [by apply (tick_ok no_fault B n (steady B n) w2 outs)|].
  intros _ w3 (Hio3 & Hst3 & Hev). destruct (hole_evolves (S k) w2 w3 outs _ Ht2 Hev) as (Ht3 & Had3 & _).
  pose proof (advance_trans sub B n [] [] _ _ _ _ _ _ Had Had3 : adv k (S k) w w3) as Had13.
  destruct (lookup_lt_is_Some_2 (cache_ w3) f) as [y Hy]; [by rewrite (io_cache _ _ _ _ Hio3)|].
  apply kwp_gets, kwp_bind. eapply kwp_index; [done|]. unfold kwp at 1. simpl. rewrite Nat2Z.id.
  assert (unborn B n w3 b) as Hub3.
  { destruct Hub as (U1 & U2 & U3). split; [done|]. split; [done|]. rewrite <- U3.
    pose proof (ad_rest _ _ _ _ _ _ _ _ Had13) as Hr. injection Hr. intros. congruence. }
  assert (Z.of_nat f ∈ take (S k) (lru w3)) as Hf3 by (unfold lru; by rewrite (ev_dpu _ _ _ _ _ Hev)).
  destruct (created_coh (S k) w3 outs b f Hio3 Hst3 Ht3 Hf Hub3 Hf3) as [Hc4 Hgr].
  exists (Z.of_nat f). split; [done|]. split; [exact Hc4|]. split; [|split; [apply lookup_insert_eq|split; [exact Hf3|]]].
  - eapply grows_trans; [by apply grows_advance|exact Hgr].
  - intros o Ho. apply (ad_lru _ _ _ _ _ _ _ _ Had3). by apply Ho2.
Qed.

(** A bucket of the next level. *)
Definition next_level (b : Z) : Prop := 2 ^ (n + 1) - 4 <= b < 2 ^ (n + 2) - 4.

Lemma fetch_start_ok bs : forall k w outs,
  cohw w outs -> (forall o, o ∈ outs -> Z.of_nat (p_frame o) ∈ take k (lru w)) ->
  (k + length bs < CACHE_SIZE)%nat -> NoDup bs -> b_new B <> None ->
  length (new_bucket_constructed_ (dpu w)) = Z.to_nat (2 ^ (n + 1)) ->
  (forall b, b ∈ bs -> next_level b /\ b ∉ p_bucket <$> outs) ->
  kwp (fetch_start bs) w (fun xs w' => exists os,
    cohw w' (outs ++ os) /\ grows k (k + length bs) w w' /\ grouped w' (k + length bs) bs xs os /\
    forall o, o ∈ outs ++ os -> Z.of_nat (p_frame o) ∈ take (k + length bs) (lru w')).
Proof using no_fault PreOrder0.
  induction bs as [|b bs IH]; intros k w outs Hc Ho Hk Hnd HN Hlen Hbs; cbn [fetch_start length].
  - apply kwp_ret. exists []. rewrite app_nil_r, Nat.add_0_r. split; [done|].
    split; [by apply grows_advance, advance_refl|]. done.
  - destruct (Hbs b) as (Hl & Hbo); [by left|]. cbn [length] in Hk. apply NoDup_cons in Hnd as [Hnin Hnd].
    pose proof (io_level _ _ _ _ (co_io _ _ _ _ _ Hc)) as Hn.
    apply kwp_getd, kwp_getd. rewrite (to_geo _ _ _ _ _ _ (co_tables _ _ _ _ _ Hc)). cbn [next_start_bucket_id_ geo_at].
    destruct (lookup_lt_is_Some_2 (new_bucket_constructed_ (dpu w)) (Z.to_nat (b - (2 ^ (n + 1) - 4)))) as [c Hcon].
    { rewrite Hlen. unfold next_level in Hl. powers Hn. lia. }
    rewrite (proj2 (Z.leb_le _ _)) by apply Hl. apply kwp_bind, kwp_bind.
    unfold at_index at 1. rewrite (proj2 (Z.leb_le _ _)) by (unfold next_level in Hl; lia). rewrite Hcon.
    apply kwp_ret, kwp_ret, kwp_getd. rewrite <- Nat.add_succ_comm.
    assert (forall w1 x os1, cohw w1 (outs ++ os1) -> grows k (S k) w w1 ->
      (forall o, o ∈ outs ++ os1 -> Z.of_nat (p_frame o) ∈ take (S k) (lru w1)) ->
      (forall o, o ∈ os1 -> p_bucket o = b) ->
      (forall w' xs os k', grows (S k) k' w1 w' -> grouped w' k' bs xs os -> grouped w' k' (b :: bs) (x :: xs) (os1 ++ os)) ->
      kwp (xs ← fetch_start bs; mret (x :: xs)) w1 (fun xs w' => exists os,
        cohw w' (outs ++ os) /\ grows k (S k + length bs) w w' /\ grouped w' (S k + length bs) (b :: bs) xs os /\
        forall o, o ∈ outs ++ os -> Z.of_nat (p_frame o) ∈ take (S k + length bs) (lru w'))) as Hrest.
    { intros w1 x os1 Hc1 Hg1 Ho1 Hos1 Hgr. eapply kwp_call.
      { apply (IH (S k) w1 (outs ++ os1)); [done|done|lia|done|done|destruct Hg1; congruence|].
        intros b' Hb'. destruct (Hbs b') as (Hl' & Hbo'); [by right|]. split; [done|].
        rewrite fmap_app, elem_of_app. intros [|(o & Heq & Ho')%list_elem_of_fmap]; [done|].
        rewrite (Hos1 o Ho') in Heq. by subst. }
      intros xs w2 (os & Hc2 & Hg2 & Hgrp & Ho2). apply kwp_ret. exists (os1 ++ os). rewrite (assoc_L (++)).
      split; [done|]. split; [by eapply grows_trans|]. split; [by apply Hgr|done]. }
    destruct c; simpl negb; cbn iota.
    + destruct (bucket_table_ (dpu w) !! b) as [F|] eqn:Hb.
      * apply kwp_bind; eapply kwp_access; [exact Hc|]; apply kwp_ret. destruct (record_access sub B n k w outs b F Hc Hb) as (Hc1 & Had1 & HF).
        apply (Hrest (with_access F w) (inl F) []); [by rewrite app_nil_r|by apply grows_advance| |set_solver|].
        { rewrite app_nil_r. intros o Ho'. apply (ad_lru _ _ _ _ _ _ _ _ Had1). by apply Ho. }
        intros w' xs os k' [_ Hg'] Hgrp. simpl. split; [by apply (ad_keep _ _ _ _ _ _ _ _ Hg')|].
        split; [by apply (ad_lru _ _ _ _ _ _ _ _ Hg')|done].
      * apply kwp_bind. eapply kwp_call.
        { apply (FetchBucket_ok no_fault sub B n k w outs b); try done; [split; [lia|done]|by right|].
          intros (_ & _ & Hu). congruence. }
        intros r w1 (f & p & -> & Hc1 & Had1 & Ho1 & Hnone). apply kwp_ret.
        apply (Hrest w1 _ [Pend false b f (client_of n b) p]); [done|by apply grows_advance|done|set_solver|].
        intros w' xs os k' _ Hgrp. simpl. by eexists _, _.
    + apply kwp_bind. eapply kwp_mono; [apply (create_ok k w outs b); [done|split; [lia|done]|done]|].
      intros x w1 (F & -> & Hc1 & Hg1 & Hb1 & HF1 & Ho1).
      apply (Hrest w1 (inl F) []); [by rewrite app_nil_r|done|by rewrite app_nil_r|set_solver|].
      intros w' xs os k' [_ Hg'] Hgrp. simpl. split; [by apply (ad_keep _ _ _ _ _ _ _ _ Hg')|].
      split; [by apply (ad_lru _ _ _ _ _ _ _ _ Hg')|done].
Qed.

Lemma fetch_finish_ok k bs : forall w xs os,
  cohw w os -> (forall o, o ∈ os -> Z.of_nat (p_frame o) ∈ take k (lru w)) -> grouped w k bs xs os ->
  kwp (fetch_finish bs xs) w (fun fs w' => cohw w' [] /\ adv k k w w' /\ gathered w' k bs fs).
Proof using no_fault PreOrder0.
  induction bs as [|b bs IH]; intros w [|[F|ft] xs] os Hc Ho; simpl; try done.
  - intros ->. apply kwp_ret. split; [done|]. split; [by apply advance_refl|done].
  - intros (Hb & HF & Hg). eapply kwp_call; [by apply (IH w xs os)|].
    intros fs w' (Hc' & Had & Hga). apply kwp_ret. do 2 (split; [done|]). simpl.
    split; [by apply (ad_keep _ _ _ _ _ _ _ _ Had b F)|]. split; [by apply (ad_lru _ _ _ _ _ _ _ _ Had)|done].
  - intros (o & os' & -> & -> & <- & Hg). apply (complete_ok no_fault sub B n k w o os'); [done|].
    intros w1 Hc1 Had1 Hb w2 Ew1. cbn iota beta. apply kwp_table_put. rewrite <- Ew1.
    assert (Z.of_nat (p_frame o) ∈ take k (lru w1)) as HF.
    { apply (ad_lru _ _ _ _ _ _ _ _ Had1). apply Ho. by left. }
    eapply kwp_call.
    { apply (IH w1 xs os'); [done| |by eapply grouped_advance].
      intros o' Ho'. apply (ad_lru _ _ _ _ _ _ _ _ Had1). apply Ho. by right. }
    intros fs w3 (Hc3 & Had3 & Hga). apply kwp_ret. split; [done|].
    split; [exact (advance_trans sub B n [] [] _ _ _ _ _ _ Had1 Had3)|]. simpl.
    split; [by apply (ad_keep _ _ _ _ _ _ _ _ Had3)|]. split; [by apply (ad_lru _ _ _ _ _ _ _ _ Had3)|done].
Qed.

(** ** Splitting *)

Lemma expand_ids d key :
  level_ok n -> geo d = geo_at n ->
  let nbs := GetExpandBucketIds d key in next_level nbs.1 /\ next_level nbs.2 /\ nbs.1 <> nbs.2.
Proof.
  intros Hn Hg. unfold GetExpandBucketIds, next_level. rewrite Hg. cbn [addr_capacity_ tl_start_bucket_id_ geo_at fst snd].
  powers Hn. generalize (GenericType.Hash key (f_seed_ d)) (GenericType.Hash key (s_seed_ d)). intros h1 h2.
  pose proof (Z.mod_pos_bound h1 (8 * q)). pose proof (Z.mod_pos_bound h2 (8 * q)).
  rewrite !s64_id by lia. lia.
Qed.

Lemma FetchN_ok k w b0 b1 :
  cohw w [] -> (k + 2 < CACHE_SIZE)%nat -> b_new B <> None ->
  length (new_bucket_constructed_ (dpu w)) = Z.to_nat (2 ^ (n + 1)) ->
  next_level b0 -> next_level b1 -> b0 <> b1 ->
  kwp (FetchNBuckets [b0; b1]) w (fun fs w' => cohw w' [] /\ grows k (k + 2) w w' /\ gathered w' (k + 2) [b0; b1] fs).
Proof using no_fault PreOrder0.
  intros Hc Hk HN Hlen H0 H1 Hne. unfold FetchNBuckets. eapply kwp_call.
  { apply (fetch_start_ok [b0; b1] k w []); [done|set_solver|done| |done|done|].
    - constructor; [set_solver|]. constructor; [set_solver|]. constructor.
    - intros b. rewrite !elem_of_cons. intros [->|[->|Hb%not_elem_of_nil]]; [..|done]; (split; [done|set_solver]). }
  intros xs w1 (os & Hc1 & Hg1 & Hgr & Ho). eapply kwp_mono; [by apply (fetch_finish_ok (k + 2) [b0; b1] w1 xs os)|].
  intros fs w2 (Hc2 & Had2 & Hga). split; [done|]. split; [|done]. eapply grows_trans; [done|by apply grows_advance].
Qed.

Lemma split_slots_ok bucket slots : forall k w,
  cohw w [] -> (k + 2 * length slots < CACHE_SIZE)%nat -> b_new B <> None ->
  length (new_bucket_constructed_ (dpu w)) = Z.to_nat (2 ^ (n + 1)) ->
  kwp (split_slots bucket slots) w (fun _ w' => cohw w' [] /\ grows k (k + 2 * length slots) w w').
Proof using no_fault PreOrder0.
  induction slots as [|slot slots IH]; intros k w Hc Hk HN Hlen; cbn [split_slots length].
  - apply kwp_ret. rewrite Nat.mul_0_r, Nat.add_0_r. split; [done|]. by apply grows_advance, advance_refl.
  - cbn [length] in Hk. apply (kwp_call _ _ _ (fun _ w' => cohw w' [] /\ grows k (k + 2) w w')).
    + destruct (token_at bucket slot =? 1); [|apply kwp_ret; split; [done|]].
      2: { apply grows_advance. apply (advance_weaken sub B n [] k k); [lia|by apply advance_refl]. }
      apply kwp_getd. unfold id. cbv zeta. pose proof (expand_ids (dpu w) (key_ (slot_at bucket slot))) as Hids.
      destruct Hids as (H0 & H1 & Hne); [apply Hc|apply Hc|].
      eapply kwp_call; [apply (FetchN_ok k w); [done|lia|done..]|].
      intros fs w1 (Hc1 & Hg1 & Hga). destruct fs as [|F0 [|F1 [|]]]; simpl in Hga; try tauto.
      destruct Hga as (Hb0 & _ & Hb1 & _).
      eapply kwp_call; [eapply (frame_read_ok no_fault sub B n (k + 2) w1 [] _ F0); [done|exact Hb0]|].
      intros x0 w2 (_ & _ & Hc2 & Had2 & Ed2 & _). rewrite <- Ed2 in Hb1.
      eapply kwp_call; [eapply (frame_read_ok no_fault sub B n (k + 2) w2 [] _ F1); [done|exact Hb1]|].
      intros x1 w3 (_ & _ & Hc3 & Had3 & _). apply kwp_ret. split; [done|]. eapply grows_trans; [done|].
      apply grows_advance. exact (advance_trans sub B n [] [] _ _ _ _ _ _ Had2 Had3).
    + intros _ w1 [Hc1 Hg1]. eapply kwp_mono; [apply (IH (k + 2)%nat w1); [done|lia|done|destruct Hg1; congruence]|].
      intros _ w2 [Hc2 Hg2]. split; [done|]. eapply grows_trans; [done|]. eapply grows_weaken; [|done]. lia.
Qed.

(** A bucket is split; its frame is marked as clean afterwards. *)
Lemma splitBucket_ok w b F :
  cohw w [] -> bucket_table_ (dpu w) !! b = Some F -> b_new B <> None ->
  length (new_bucket_constructed_ (dpu w)) = Z.to_nat (2 ^ (n + 1)) ->
  kwp (splitBucket F) w (fun _ w' => exists w1 f, F = Z.of_nat f /\ (f < CACHE_SIZE)%nat /\ cohw w1 [] /\ grows 0 8 w w1 /\
    w' = with_dirty f false w1).
Proof using no_fault PreOrder0.
  intros Hc Hb HN Hlen. destruct (to_table _ _ _ _ _ _ (co_tables _ _ _ _ _ Hc) b F Hb) as (_ & _ & _ & Hin).
  destruct (frame_number sub B n w [] None F (co_tables _ _ _ _ _ Hc)) as (f & -> & Hf); [apply elem_of_app; by left|].
  unfold splitBucket. eapply kwp_call; [by apply (frame_read_ok no_fault sub B n 0 w [] b)|].
  intros x w1 (_ & _ & Hc1 & Had1 & Ed1 & _).
  eapply kwp_call; [apply (split_slots_ok x (upto ASSOC_NUM) 0 w1); [done|simpl; unfold CACHE_SIZE; lia|done|by rewrite Ed1]|].
  intros _ w2 [Hc2 Hg2]. apply kwp_put_dirty.
  - rewrite (to_dirty _ _ _ _ _ _ (co_tables _ _ _ _ _ Hc2)). done.
  - exists w2, f. do 3 (split; [done|]). split; [|done]. eapply grows_trans; [by apply grows_advance|done].
Qed.
End split.
