(* ===== verification/KvExpand.v ===== *)
(** * KvExpand: the expansion of the DPU's table

    The messages that the DPU and the host exchange while the table is
    expanded, as invariants of the host's thread: [opening] from the request to
    the import of the last memory map, [closing] from the end of the rehashing
    to its confirmation. The polling loops end in both.

    [Expand] asks the host for a larger level, visits every bucket of the
    bottom level and leaves it behind: the insertions into the new level stand
    inside [ENSURE], so the pairs of the bottom level are lost. [Expand_ok]
    says what remains, for every interleaving with the host's thread. *)

From stdpp Require Import gmap.
From S2P Require Import Prelude.
From S2P Require Import KvBucket.
From S2P Require Import KvReplacer.
From S2P Require Import KvState.
From S2P Require Import KvDma.
From S2P Require Import KvHost.
From S2P Require Import KvDpu.
From S2P Require Import KvAsync.
From S2P Require Import KvCoherence.
From S2P Require Import KvFetch.
From S2P Require Import KvStore.
From S2P Require Import KvRequests.
From S2P Require Import KvMove.

(** The table with the block [N] as its next level. *)
Definition grown (B : blocks) (N : nat) : blocks := mkBlocks (b_bl B) (b_tl B) (Some N) (b_lo B).

(** The size of a part of the next level, and the messages that export it. *)
Definition part_size (n : Z) : Z := 2 ^ (n - 1) * sizeof_FixedBucket.

Definition exports (N : nat) (sz : Z) : list ComchMsg :=
  map (fun i => COMCH_MSG_EXPORT_DESCRIPTOR (HPtr N (Z.of_nat i * sz)) sz) (upto 4).

Definition fresh_level (n : Z) : list LevelBucket := replicate (Z.to_nat (2 ^ (n + 1))) zero_bucket.

Lemma exports_servers N sz id :
  map ExportMmap (servers_from (THREADS / 2) id (HPtr N 0) sz) = exports N sz.
Proof. unfold exports. simpl. unfold ExportMmap. simpl. repeat (f_equal; try lia). Qed.

Lemma send_all_eq ms w : send_all ms w = set_to_dpu (to_dpu w ++ ms) w.
Proof.
  unfold send_all. revert w. induction ms as [|m ms IH]; intros w; simpl.
  - rewrite app_nil_r. by destruct w.
  - rewrite IH. unfold host_send. simpl. by rewrite <- (assoc_L (++)).
Qed.

(** [Host::Expand] up to its loop. *)
Lemma Expand_begin_eq {E : Env} n w :
  calm -> level_ok n -> h_addr_capacity (host w) = 2 ^ n ->
  exists srv id, Expand_begin w = Ret
    (set_to_dpu (to_dpu w ++ exports (next_blk w) (part_size n))
      (set_host (set_hs_expanding ((next_blk w, srv) :: expanding (host w))
                   (set_hs_flags true (h_stop (host w)) (set_hs_next_id id (host w))))
         (set_next_blk (S (next_blk w)) (set_heap (<[next_blk w := fresh_level n]> (heap w)) w)))).
Proof.
  intros [_ Hoom] Hn Ha. unfold Expand_begin, alloc_buckets, part_size, fresh_level. rewrite Ha, Hoom.
  cbn [mbind res_bind].
  assert (u64 (2 ^ n * 2 * sizeof_FixedBucket) = 2 ^ (n + 1) * sizeof_FixedBucket) as ->.
  { unfold sizeof_FixedBucket. powers Hn. rewrite u64_fits by lia. lia. }
  rewrite Z.div_mul by done.
  assert (2 ^ (n + 1) * sizeof_FixedBucket / Z.of_nat (THREADS / 2) = 2 ^ (n - 1) * sizeof_FixedBucket) as ->.
  { unfold sizeof_FixedBucket. powers Hn. symmetry. apply Z.div_unique_exact; [done|]. change (Z.of_nat (THREADS / 2)) with 4. lia. }
  rewrite exports_servers, send_all_eq. by eexists _, _.
Qed.

Section phases.
Context {E : Env} (no_fault : calm).
Context (B : blocks) (n : Z) (N : nat).
Context (no_new : b_new B = None) (Hn : level_ok n).

(** What holds of the host in all phases. *)
Definition blocks_kept (w : world) : Prop :=
  h_stop (host w) = false /\ (forall k, is_Some (heap w !! k) -> (k < next_blk w)%nat) /\
  is_Some (heap w !! b_bl B) /\ is_Some (heap w !! b_tl B).

(** The request is under way; the host may first have to leave the loop of the
    last expansion. *)
Definition asked (r : nat) (w : world) : Prop :=
  to_host w = [COMCH_MSG_CONTROL EXPAND] /\ to_dpu w = [] /\ next_blk w = N /\ host_idle B n w /\
  (4 + length (expanding (host w)) <= r)%nat.

(** The next level is there, and [j] of its parts were imported. *)
Definition answered (j r : nat) (w : world) : Prop :=
  to_host w = [] /\ to_dpu w = drop j (exports N (part_size n)) /\ N <> b_bl B /\ N <> b_tl B /\
  heap w !! N = Some (fresh_level n) /\ host_waits (grown B N) n w /\ (4 - j <= r)%nat.

Definition opening (j r : nat) (w : world) : Prop :=
  blocks_kept w /\ (j = O /\ asked r w \/ answered j r w).

Lemma opening_step j r w :
  opening j r w -> exists w', host_step w = Ret w' /\ opening j r w' /\
    dma_client_ w' = dma_client_ w /\ cache_ w' = cache_ w /\ promises w' = promises w /\
    next_promise w' = next_promise w /\ dpu w' = dpu w /\ replies w' = replies w /\
    (forall b, valid B n b -> hostb B n (heap w') b = hostb B n (heap w) b) /\
    (asked r w -> answered 0 4 w' \/ (1 <= r)%nat /\ asked (r - 1) w').
Proof using no_new Hn no_fault.
  intros [Hk Hph]. pose proof Hk as (Hst & Hfr & Hbl & Htl). unfold host_step.
  destruct Hph as [[-> (Hth & Htd & HN & Hid & Hr)]|Hans].
  - destruct Hid as [(He & Ha & Hb & H0 & H1)|(srv & He & Hre & Ha & Hb & H0 & H1 & Hne1 & Hne2)].
    + rewrite He, Hst, Hth. simpl.
      destruct (Expand_begin_eq n (set_to_host [] w) no_fault Hn Ha) as (srv & id & ->). eexists. split; [done|].
      pose proof (Hfr _ Hbl). pose proof (Hfr _ Htl).
      assert (answered 0 4 (set_to_dpu (to_dpu w ++ exports (next_blk w) (part_size n))
        (set_host (set_hs_expanding [(next_blk w, srv)] (set_hs_flags true (h_stop (host w)) (set_hs_next_id id (host w))))
          (set_next_blk (S (next_blk w)) (set_heap (<[next_blk w := fresh_level n]> (heap w)) (set_to_host [] w)))))) as Hans.
      { unfold answered. simpl. rewrite Htd, HN, lookup_insert_eq. split; [done|]. split; [done|]. split; [lia|].
        split; [lia|]. split; [done|]. split; [|lia]. exists N, srv. simpl. by rewrite H0, H1. }
      simpl. rewrite He in *. split.
      { split; [|right; destruct Hans as (A1 & A2 & A3 & A4 & A5 & A6 & _); repeat (split; [done|]); simpl in Hr; lia].
        split; [done|]. simpl. rewrite !lookup_insert_ne by lia. split; [|done].
        intros k. destruct (decide (next_blk w = k)) as [<-|Hne]; [lia|]. rewrite lookup_insert_ne by done.
        intros Hk'. specialize (Hfr k Hk'). lia. }
      repeat (split; [done|]). split; [|by left].
      intros b Hb'. simpl. unfold hostb. rewrite lookup_insert_ne; [done|].
      apply place_block; [done|lia|lia|congruence].
    + rewrite He, Hre. unfold Expand_end. destruct H1 as [bs Hbs]. rewrite Hbs. eexists. split; [done|].
      assert (asked (r - 1) (set_host (mkHost (b_tl B) (buckets0 (host w)) (u64 (h_addr_capacity (host w) * 2))
        (u64 (h_bl_capacity (host w) * 2)) (u64 (u64 (h_addr_capacity (host w) * 2) + u64 (h_bl_capacity (host w) * 2)))
        (u64 (h_level (host w) + 1)) (h_f_seed (host w)) (h_s_seed (host w)) srv (tl_dma_server_ (host w))
        (next_server_id_ (host w)) (h_in_rehash (host w)) (h_stop (host w)) [])
        (set_heap (base.delete (buckets1 (host w)) (heap w)) w))) as Has.
      { unfold asked. simpl. do 3 (split; [done|]). rewrite He in Hr. simpl in Hr. split; [|lia]. left. simpl.
        rewrite Ha, Hb. powers Hn. rewrite !u64_fits by lia. repeat split; try done; lia. }
      split.
      { split; [|left; split; [done|]; destruct Has as (A1 & A2 & A3 & A4 & A5); repeat (split; [done|]); simpl in *; lia].
        unfold blocks_kept. simpl. rewrite !lookup_delete_ne by congruence. split; [done|]. split; [|done].
        intros k Hk'. apply Hfr. rewrite lookup_delete_is_Some in Hk'. tauto. }
      repeat (split; [done|]). split; [intros b Hb'; apply hostb_delete; congruence|].
      intros _. right. split; [lia|done].
  - pose proof Hans as (A1 & A2 & A3 & A4 & A5 & (N' & srv & _ & He & Hre & Hw) & A7).
    rewrite He, Hre, A1. exists w. split; [done|]. split; [split; [done|by right]|]. repeat (split; [done|]).
    intros (Hth & _). congruence.
Qed.

#[export] Instance opening_HostInv j r : HostInv B n (opening j r).
Proof using no_new Hn no_fault.
  split.
  - intros w Hw. destruct (opening_step j r w Hw) as (w' & H1 & H2 & H3 & H4 & H5 & H6 & H7 & H8 & H9 & _).
    exists w'. tauto.
  - intros w w' [(K1 & K2 & K3 & K4) Hp] E1 E2 E3 E4 E5 E6. split.
    + unfold blocks_kept. rewrite E1, E4, !E5. split; [done|]. split; [|done]. intros k Hk. by apply K2, E5.
    + destruct Hp as [[-> (A1 & A2 & A3 & A4' & A5)]|(A1 & A2 & A3 & A4' & A5 & A6 & A7)]; [left; split; [done|]|right].
      * unfold asked, host_idle in *. rewrite E1, E2, E3, E4. destruct A4' as [A4'|(srv & B1 & B2 & B3 & B4 & B5 & B6 & B7)]; repeat (split; [done|]); (split; [|done]); [by left|right; exists srv]. rewrite E5. done.
      * unfold answered, host_waits in *. rewrite E1, E2, E3, (E6 N) by congruence. done.
Qed.
End phases.

(** ** The worker's side of the opening *)

Lemma prefix_insert_far {A} (l1 l : list A) i x : l1 `prefix_of` l -> (length l1 <= i)%nat -> l1 `prefix_of` <[i := x]> l.
Proof.
  intros [k ->] Hi. rewrite insert_app_r_alt by done. by apply prefix_app_r.
Qed.

Lemma prefix_insert_next {A} (l1 l : list A) x :
  l1 `prefix_of` l -> (length l1 < length l)%nat -> l1 ++ [x] `prefix_of` <[length l1 := x]> l.
Proof.
  intros [k ->]. rewrite length_app. intros Hl. rewrite insert_app_r_alt, Nat.sub_diag by done.
  destruct k as [|y k]; [simpl in Hl; lia|]. simpl. exists k. by rewrite <- (assoc_L (++)).
Qed.

(** The tables depend on these parts of the world only. *)
Lemma tables_core sub B n w w' outs hole :
  tables_ok sub B n w outs hole -> geo (dpu w') = geo (dpu w) -> dirty_flag_ (dpu w') = dirty_flag_ (dpu w) ->
  bucket_table_ (dpu w') = bucket_table_ (dpu w) -> bucket_ids_ (dpu w') = bucket_ids_ (dpu w) ->
  replacer_ (dpu w') = replacer_ (dpu w) -> free_list_ (dpu w') = free_list_ (dpu w) ->
  (b_new B = None \/ new_bucket_constructed_ (dpu w') = new_bucket_constructed_ (dpu w)) ->
  cache_ w' = cache_ w -> heap w' = heap w -> tables_ok sub B n w' outs hole.
Proof.
  intros [] E1 E2 E3 E4 E5 E6 E7 E8 E9. unfold lru, hostv, unborn in *.
  split; unfold lru, hostv, unborn; rewrite ?E1, ?E2, ?E3, ?E4, ?E5, ?E6, ?E8, ?E9; auto.
  intros b. destruct E7 as [E7| ->]; [by intros (HN & _)|]. auto.
Qed.

Lemma kwp_modify_last (g : world -> world) w (Q : unit -> world -> Prop) : Q tt (g w) -> kwp (modify g) w Q.
Proof. done. Qed.

Lemma kwp_modd_last (g : Dpu -> Dpu) w (Q : unit -> world -> Prop) :
  Q tt (set_dpu (g (dpu w)) w) -> kwp (modd g) w Q.
Proof. done. Qed.

Section opening.
Context {E : Env} (no_fault : calm).
Context (sub : LevelBucket -> LevelBucket -> Prop) `{!PreOrder sub}.
Context (B : blocks) (n : Z) (N : nat) (no_new : b_new B = None).
Context (d0 : Dpu) (in_rehash : in_rehash_ d0 = true) (in_init : in_init_ d0 = false).
Context (rp : list (option (list Z))) (v0 : Z -> LevelBucket).

Record importing (j r : nat) (w : world) : Prop := {
  im_io : io_ok B n w [];
  im_tables : tables_ok sub B n w [] None;
  im_host : opening B n N j r w;
  im_dpu : dpu w = set_mmap_to_recv (Z.of_nat (4 - j)) d0;
  im_replies : replies w = rp;
  im_view : forall b, valid B n b -> sub (v0 b) (view B n w b);
  im_remotes : remotes_of B n ++ take j (part N (part_size n)) `prefix_of` (remote <$> dma_client_ w);
  im_clients : (12 <= length (dma_client_ w))%nat
}.

Lemma importing_evolves j r r' w w' :
  importing j r w -> io_ok B n w' [] -> opening B n N j r' w' -> evolves B n [] w w' -> importing j r' w'.
Proof using PreOrder0.
  intros [] Hio Hop Hev. destruct (hole_evolves sub B n 0 w w' [] None im_tables0 Hev) as (Ht & Had & _).
  split; try done.
  - by rewrite (ev_dpu _ _ _ _ _ Hev).
  - by rewrite (ev_replies _ _ _ _ _ Hev).
  - intros b Hb. etransitivity; [by apply im_view0|]. by apply Had.
  - by rewrite (ev_remote _ _ _ _ _ Hev).
  - rewrite <- (length_fmap remote), (ev_remote _ _ _ _ _ Hev), length_fmap. done.
Qed.

Lemma exports_drop j : (j < 4)%nat -> exists ms,
  drop j (exports N (part_size n)) = COMCH_MSG_EXPORT_DESCRIPTOR (HPtr N (Z.of_nat j * part_size n)) (part_size n) :: ms /\
  ms = drop (S j) (exports N (part_size n)).
Proof. intros Hj. destruct j as [|[|[|[|]]]]; try lia; by eexists. Qed.

Lemma progress_import j r w :
  importing j r w -> (j < 4)%nat -> answered B n N j r w ->
  kwp Progress w (fun _ w' => importing (S j) (r - 1) w').
Proof using no_new in_rehash in_init.
  intros [Hio Ht [Hk _] Ed Hrp Hv Hrem Hcl] Hj (A1 & A2 & A3 & A4 & A5 & A6 & A7). unfold Progress. apply kwp_gets.
  destruct (exports_drop j Hj) as (ms & Edr & Ems). rewrite A2, Edr. apply kwp_modify. cbn [comch_dpu_recv_callback].
  apply kwp_getd. unfold id. cbn [dpu set_to_dpu]. rewrite Ed. cbn [in_init_ in_rehash_ mmap_to_recv_ set_mmap_to_recv].
  rewrite in_init, in_rehash.
  assert (u64 (Z.of_nat (THREADS + THREADS / 2) - Z.of_nat (4 - j)) = Z.of_nat (8 + j)) as ->.
  { change (THREADS + THREADS / 2)%nat with 12%nat. rewrite u64_fits; lia. }
  destruct (lookup_lt_is_Some_2 (dma_client_ w) (8 + j)) as [cl Hcli]; [lia|].
  unfold import_client. apply kwp_bind, kwp_gets, kwp_bind. eapply kwp_index; [exact Hcli|].
  apply kwp_modify_last, kwp_modd_last. rewrite Nat2Z.id. cbn [dpu set_dma_client set_to_dpu]. rewrite Ed. cbn [mmap_to_recv_ set_mmap_to_recv].
  assert (u64 (Z.of_nat (4 - j) - 1) = Z.of_nat (4 - S j)) as -> by (rewrite u64_fits; lia).
  assert (length (remotes_of B n ++ take j (part N (part_size n))) = (8 + j)%nat) as Hlen.
  { rewrite length_app, length_take, length_part. unfold remotes_of. rewrite no_new, app_nil_r, length_app, !length_part. lia. }
  split; try done.
  - destruct Hio. split; try done; try (intros o * Ho; by apply not_elem_of_nil in Ho).
    + simpl. rewrite list_fmap_insert. apply prefix_insert_far; [done|].
      rewrite length_app, length_take, length_part in Hlen. lia.
    + intros c cl'. simpl. intros [(<- & <- & _)|[_ Hc]]%list_lookup_insert_Some; [|by apply io_queue].
      destruct (io_queue _ _ Hcli) as [Q1 Q2]. split; [done|]. intros r'. rewrite (Q2 r').
      split; intros (o & Ho & _); by apply not_elem_of_nil in Ho.
  - eapply tables_core; [exact Ht|..]; simpl; rewrite ?Ed; auto.
  - split; [exact Hk|]. right. split; [done|]. simpl. split; [done|]. repeat (split; [done|]). lia.
  - intros b Hb. specialize (Hv b Hb). unfold view in *. by rewrite Ed in Hv.
  - cbn [dma_client_ set_dpu set_dma_client]. rewrite list_fmap_insert, <- Hlen.
    assert (take (S j) (part N (part_size n)) =
            take j (part N (part_size n)) ++ [Some (HPtr N (Z.of_nat j * part_size n), part_size n)]) as ->
      by (apply take_S_r, part_lookup; lia).
    rewrite (assoc_L (++)). apply prefix_insert_next; [done|]. rewrite length_fmap, Hlen. cbn [dma_client_ set_to_dpu]. lia.
  - simpl. by rewrite length_insert.
Qed.

Lemma kwp_host_step {A} (f : unit -> kv A) w w' (Q : A -> world -> Prop) :
  host_step w = Ret w' -> kwp (f tt) w' Q -> kwp ((fun w => w ← host_step w; Ret (tt, w)) ≫= f) w Q.
Proof. intros Hs Hf. apply kwp_bind. unfold kwp. by rewrite Hs. Qed.

(** The last conjunct of [opening_step], as a step of the invariant. *)
Lemma importing_host_step r w :
  importing 0 r w -> asked B n N r w -> exists w', host_step w = Ret w' /\ importing 0 r w' /\
  (answered B n N 0 4 w' \/ (1 <= r)%nat /\ asked B n N (r - 1) w').
Proof using PreOrder0 no_new no_fault.
  intros Him Hask. pose proof (io_level _ _ _ _ (im_io _ _ _ Him)) as Hn.
  destruct (opening_step no_fault B n N no_new Hn 0 r w (im_host _ _ _ Him)) as (w' & Hs & Hop & H1 & H2 & H3 & H4 & H5 & H6 & H7 & H8).
  exists w'. split; [done|]. split; [|by apply H8]. pose proof (im_io _ _ _ Him) as Hio.
  eapply importing_evolves; [exact Him| |exact Hop|].
  - destruct Hio. split; rewrite ?H1, ?H2, ?H3, ?H4; try done.
    + intros b Hb. rewrite H7 by done. auto.
    + intros o * Ho. by apply not_elem_of_nil in Ho.
  - split; rewrite ?H1, ?H2, ?H3, ?H4; try done. intros b Hb _. by apply H7.
Qed.

(** The polling loop returns when the four parts are imported. *)
Lemma poll_open fuel : forall j r w,
  importing j r w -> (j <= 4)%nat -> (r <= fuel)%nat ->
  kwp (poll_while fuel (fun d => negb (mmap_to_recv_ d =? 0))) w (fun _ w' => exists r', importing 4 r' w').
Proof using no_fault PreOrder0 no_new in_rehash in_init.
  induction fuel as [|fuel IH]; intros j r w Him Hj Hr; simpl; apply kwp_getd; unfold id;
    rewrite (im_dpu _ _ _ Him); cbn [mmap_to_recv_ set_mmap_to_recv];
    (destruct (decide (j = 4%nat)) as [->|Hne]; [apply kwp_ret; by exists r|]).
  - exfalso. destruct (im_host _ _ _ Him) as [_ [[-> (_ & _ & _ & _ & ?)]|(_ & _ & _ & _ & _ & _ & ?)]]; lia.
  - rewrite (proj2 (Z.eqb_neq _ _)) by lia. simpl negb. cbn iota.
    pose proof (io_level _ _ _ _ (im_io _ _ _ Him)) as Hn. pose proof (opening_HostInv no_fault B n N no_new Hn j r).
    eapply kwp_call; [apply (tick_ok no_fault B n (opening B n N j r) w []); apply Him|].
    intros _ w1 (Hio1 & Hop1 & Hev1). pose proof (importing_evolves j r r w w1 Him Hio1 Hop1 Hev1) as Him1.
    clear Him Hio1 Hev1. apply kwp_gets. pose proof Hop1 as [_ Hph]. destruct Hph as [[-> Hask]|Hans].
    + pose proof Hask as (_ & Htd & _). rewrite Htd.
      destruct (importing_host_step r w1 Him1 Hask) as (w2 & Hs2 & Him2 & Hnext). eapply kwp_host_step; [exact Hs2|].
      destruct Hnext as [Hans|[Hr1 Hask']].
      * assert (4 <= r)%nat as Hr4 by (destruct Hask as (_ & _ & _ & _ & ?); lia).
        assert (answered B n N 0 r w2) as Hans' by (destruct Hans as (? & ? & ? & ? & ? & ? & ?); repeat (split; [done|]); lia).
        eapply kwp_call; [by apply (progress_import 0 r w2); [|lia|]|]. intros [] w3 Him3. apply (IH 1%nat (r - 1)%nat w3); [done|lia..].
      * eapply (kwp_call _ _ _ (fun _ w3 => w3 = w2)).
        { unfold Progress. apply kwp_gets. destruct Hask' as (_ & -> & _). by apply kwp_ret. }
        intros _ w3 ->. apply (IH 0%nat (r - 1)%nat w2); [|lia..]. destruct Him2. split; try done.
        split; [apply im_host0|]. left. done.
    + assert (j < 4)%nat as Hj4 by lia. destruct (exports_drop j Hj4) as (ms & Edr & _).
      pose proof Hans as (_ & Htd & _). rewrite Htd, Edr. apply kwp_bind, kwp_ret.
      eapply kwp_call; [by apply (progress_import j r w1)|]. intros [] w3 Him3.
      assert (1 <= r)%nat by (destruct Hans as (_ & _ & _ & _ & _ & _ & ?); lia).
      apply (IH (S j) (r - 1)%nat w3); [done|lia..].
Qed.
End opening.

(** ** The end of the rehashing *)

Section closing.
Context {E : Env} (B : blocks) (n : Z) (no_new : b_new B = None) (Hn : level_ok n).

(** The notice is under way, or its confirmation. *)
Definition finishing (w : world) : Prop :=
  to_host w = [COMCH_MSG_CONTROL EXPAND_FINISH] /\ to_dpu w = [] /\
  exists srv, expanding (host w) = [(b_tl B, srv)] /\ h_in_rehash (host w) = true /\
  h_addr_capacity (host w) = 2 ^ (n - 1) /\ h_bl_capacity (host w) = 2 ^ (n - 2) /\ buckets0 (host w) = b_bl B /\
  is_Some (heap w !! buckets1 (host w)) /\ buckets1 (host w) <> b_bl B /\ buckets1 (host w) <> b_tl B.

Definition finished (w : world) : Prop :=
  to_host w = [] /\ to_dpu w = [COMCH_MSG_CONTROL EXPAND_FINISH] /\ host_idle B n w.

Definition closing (w : world) : Prop := blocks_kept B w /\ (finishing w \/ finished w).

Lemma closing_step w :
  closing w -> exists w', host_step w = Ret w' /\ closing w' /\
    dma_client_ w' = dma_client_ w /\ cache_ w' = cache_ w /\ promises w' = promises w /\
    next_promise w' = next_promise w /\ dpu w' = dpu w /\ replies w' = replies w /\
    (forall b, valid B n b -> hostb B n (heap w') b = hostb B n (heap w) b) /\ finished w'.
Proof using no_new Hn.
  intros [Hk Hph]. pose proof Hk as (Hst & Hfr & Hbl & Htl). unfold host_step.
  destruct Hph as [(Hth & Htd & srv & He & Hre & Ha & Hb & H0 & H1 & Hne1 & Hne2)|(Hth & Htd & Hid)].
  - rewrite He, Hre, Hth. eexists. split; [done|]. unfold closing, blocks_kept. simpl. split; [|repeat (split; [done|])].
    + split; [done|]. right. split; [done|]. split; [by simpl; rewrite Htd|]. right. by exists srv.
    + split; [by simpl; rewrite Htd|]. right. by exists srv.
  - destruct Hid as [(He & Hid)|(srv & He & Hre & Ha & Hb & H0 & H1 & Hne1 & Hne2)].
    + rewrite He, Hst, Hth. exists w. split; [done|]. split; [split; [done|right; split; [done|split; [done|by left]]]|].
      repeat (split; [done|]). by left.
    + rewrite He, Hre. unfold Expand_end. destruct H1 as [bs Hbs]. rewrite Hbs. eexists. split; [done|].
      unfold closing, blocks_kept. simpl. rewrite !lookup_delete_ne by congruence.
      assert (host_idle B n (set_host (mkHost (b_tl B) (buckets0 (host w)) (u64 (h_addr_capacity (host w) * 2))
        (u64 (h_bl_capacity (host w) * 2)) (u64 (u64 (h_addr_capacity (host w) * 2) + u64 (h_bl_capacity (host w) * 2)))
        (u64 (h_level (host w) + 1)) (h_f_seed (host w)) (h_s_seed (host w)) srv (tl_dma_server_ (host w))
        (next_server_id_ (host w)) (h_in_rehash (host w)) (h_stop (host w)) [])
        (set_heap (base.delete (buckets1 (host w)) (heap w)) w))) as Hid.
      { left. simpl. rewrite Ha, Hb. powers Hn. rewrite !u64_fits by lia. repeat split; try done; lia. }
      split; [|repeat (split; [done|])].
      * split; [|by right]. split; [done|]. split; [|done].
        intros k Hk'. apply Hfr. rewrite lookup_delete_is_Some in Hk'. tauto.
      * split; [intros b Hb'; apply hostb_delete; congruence|done].
Qed.

#[export] Instance closing_HostInv : HostInv B n closing.
Proof using no_new Hn.
  split.
  - intros w Hw. destruct (closing_step w Hw) as (w' & H1 & H2 & H3 & H4 & H5 & H6 & H7 & H8 & H9 & _).
    exists w'. tauto.
  - intros w w' [(K1 & K2 & K3 & K4) Hp] E1 E2 E3 E4 E5 E6. split.
    + unfold blocks_kept. rewrite E1, E4, !E5. split; [done|]. split; [|done]. intros k Hk. by apply K2, E5.
    + destruct Hp as [(A1 & A2 & srv & B1 & B2 & B3 & B4 & B5 & B6 & B7)|(A1 & A2 & A3)]; [left|right].
      * unfold finishing. rewrite E1, E2, E3. do 2 (split; [done|]). exists srv. by rewrite E5.
      * unfold finished, host_idle in *. rewrite E1, E2, E3. do 2 (split; [done|]).
        destruct A3 as [A3|(srv & B1 & B2 & B3 & B4 & B5 & B6 & B7)]; [by left|right; exists srv]. by rewrite E5.
Qed.

Lemma finished_steady w : blocks_kept B w -> finished w -> steady B n (set_to_dpu [] w).
Proof using no_new.
  intros (K1 & K2 & K3 & K4) (F1 & F2 & F3). repeat (split; [done|]). by left.
Qed.
End closing.

Section close.
Context {E : Env} (no_fault : calm).
Context (sub : LevelBucket -> LevelBucket -> Prop) `{!PreOrder sub}.
Context (B : blocks) (n : Z) (no_new : b_new B = None).

(** What the polling loop keeps. *)
Definition unchanged (w w' : world) : Prop :=
  tables_ok sub B n w' [] None /\ dpu w' = dpu w /\ replies w' = replies w /\
  forall b, valid B n b -> sub (view B n w b) (view B n w' b).

Lemma unchanged_evolves w w' : tables_ok sub B n w [] None -> evolves B n [] w w' -> unchanged w w'.
Proof using PreOrder0.
  intros Ht Hev. destruct (hole_evolves sub B n 0 w w' [] None Ht Hev) as (Ht' & Had & _).
  split; [done|]. split; [apply Hev|]. split; [apply Hev|]. apply Had.
Qed.

(** The confirmation is served. *)
Lemma progress_close w w1 (Q : unit -> world -> Prop) :
  io_ok B n w1 [] -> unchanged w w1 -> blocks_kept B w1 -> finished B n w1 ->
  (forall w', coh sub B n w' [] -> dpu w' = set_in_rehash false (dpu w) -> replies w' = replies w ->
     (forall b, valid B n b -> sub (view B n w b) (view B n w' b)) -> Q tt w') ->
  kwp Progress w1 Q.
Proof using no_new.
  intros Hio (Ht & Ed & Er & Hv) Hk Hf HQ. pose proof (finished_steady B n no_new w1 Hk Hf) as Hst.
  destruct Hf as (F1 & F2 & F3). unfold Progress. apply kwp_gets. rewrite F2. apply kwp_modify.
  cbn [comch_dpu_recv_callback]. apply kwp_modd_last. apply HQ.
  - split; [|exact Hst|by eapply tables_core; [exact Ht|..]; try done; right]. destruct Hio. by split.
  - cbn. by rewrite Ed.
  - done.
  - done.
Qed.

Lemma poll_close fuel w :
  io_ok B n w [] -> tables_ok sub B n w [] None -> closing B n w -> in_rehash_ (dpu w) = true ->
  kwp (poll_while (S fuel) in_rehash_) w (fun _ w' => coh sub B n w' [] /\
    dpu w' = set_in_rehash false (dpu w) /\ replies w' = replies w /\
    forall b, valid B n b -> sub (view B n w b) (view B n w' b)).
Proof using no_fault PreOrder0 no_new.
  intros Hio Ht Hcl Hre. pose proof (io_level _ _ _ _ Hio) as Hn. pose proof (closing_HostInv B n no_new Hn).
  cbn [poll_while]. apply kwp_getd. unfold id. rewrite Hre.
  eapply kwp_call; [by apply (tick_ok no_fault B n (closing B n) w [])|].
  intros _ w1 (Hio1 & Hcl1 & Hev1). pose proof (unchanged_evolves w w1 Ht Hev1) as Hu1. pose proof Hu1 as (Ht1 & Ed1 & Er1 & Hv1).
  apply kwp_gets.
  apply (kwp_call _ _ _ (fun _ w2 => io_ok B n w2 [] /\ unchanged w w2 /\ blocks_kept B w2 /\ finished B n w2)).
  - destruct Hcl1 as [Hk1 [Hfi|Hfi]].
    + pose proof Hfi as (_ & Htd & _). rewrite Htd.
      destruct (actor_step_ok no_fault B n (closing B n) w1 [] HostThread Hio1) as (w2 & Hs & Hio2 & Hcl2 & Hev2).
      { split; [done|by left]. }
      destruct (closing_step B n no_new Hn w1) as (w2' & Hs' & _ & _ & _ & _ & _ & _ & _ & _ & Hfin); [split; [done|by left]|].
      simpl in Hs. rewrite Hs' in Hs. injection Hs as ->. unfold kwp. rewrite Hs'. cbn.
      split; [done|]. split; [|split; [apply Hcl2|done]].
      destruct (unchanged_evolves w1 w2 Ht1 Hev2) as (Ht2 & Ed2 & Er2 & Hv2).
      split; [done|]. split; [congruence|]. split; [congruence|]. intros b Hb. etransitivity; [by apply Hv1|by apply Hv2].
    + pose proof Hfi as (_ & -> & _). apply kwp_ret. done.
  - intros _ w2 (Hio2 & Hu2 & Hk2 & Hf2). apply kwp_bind. apply (progress_close w w2); [done..|].
    intros w3 Hc3 Ed3 Er3 Hv3. destruct fuel; cbn [poll_while]; apply kwp_getd; unfold id; rewrite Ed3; by apply kwp_ret.
Qed.
End close.

(** * Expanding the table *)

(** The buckets below [lo] are not used any more. *)
Definition raise (B : blocks) (lo : Z) : blocks := mkBlocks (b_bl B) (b_tl B) (b_new B) lo.

Lemma raise_valid B n lo lo' b : lo <= lo' -> valid (raise B lo') n b -> valid (raise B lo) n b.
Proof. intros Hlo [[H1 H2]|H]; [left|by right]. simpl in *. split; [lia|done]. Qed.

Lemma raise_other B n lo b : valid (raise B lo) n b -> b <> lo -> valid (raise B (lo + 1)) n b.
Proof. intros [[H1 H2]|H] Hne; [left|by right]. simpl in *. split; [lia|done]. Qed.

(** A bucket that is dropped may be marked as clean. *)
Lemma drop_coh sub B n lo f w :
  coh sub (raise B lo) n w [] -> (f < CACHE_SIZE)%nat -> lo < 2 ^ (n + 1) - 4 ->
  (forall b g, bucket_table_ (dpu w) !! b = Some g -> dirty_flag_ (dpu w) !! Z.to_nat g = Some true ->
     b = lo <-> Z.to_nat g = f) ->
  coh sub (raise B (lo + 1)) n (with_dirty f false w) [].
Proof.
  intros [Hio Hst Ht] Hf Hlo Hd. pose proof (to_dirty _ _ _ _ _ _ Ht) as Hlen. split; [|exact Hst|].
  - destruct Hio. split; try done; try (intros o * Ho; by apply not_elem_of_nil in Ho).
    intros b Hb. apply io_host. eapply raise_valid; [|done]. lia.
  - pose proof Ht as Ht'. destruct Ht'. split; try done; try (intros o * Ho; by apply not_elem_of_nil in Ho).
    + simpl. by rewrite length_insert.
    + intros b g Hb Hg. simpl in Hg. apply list_lookup_insert_Some in Hg as [(_ & ? & _)|[Hne Hg]]; [done|].
      apply raise_other; [by eapply to_live|]. intros ->. by apply Hne, eq_sym, (Hd lo g).
    + intros b g x Hb Hv Hg Hx. simpl in Hg. assert (valid (raise B lo) n b) as Hv'.
      { eapply raise_valid; [|done]. lia. }
      apply list_lookup_insert_Some in Hg as [(Hgf & _ & _)|[Hne Hg]]; [|by eapply to_clean].
      destruct (lookup_lt_is_Some_2 (dirty_flag_ (dpu w)) f) as [[] Hfl]; [by rewrite Hlen| |].
      * rewrite Hgf in Hfl. symmetry in Hgf. apply (Hd b g Hb Hfl) in Hgf. subst b. destruct Hv as [[]|[]]; simpl in *; lia.
      * eapply to_clean; [done|done| |done]. by rewrite <- Hgf.
Qed.

(** ** The loop over the bottom level *)

(** The tables apart from the record of created buckets. *)
Definition stable (d : Dpu) : Dpu := rest (set_new_bucket_constructed [] d).

Lemma stable_rest d d' : rest d = rest d' -> stable d = stable d'.
Proof.
  intros Hr. change (set_new_bucket_constructed [] (rest d) = set_new_bucket_constructed [] (rest d')). by rewrite Hr.
Qed.

Lemma cand_stable d d' key : stable d = stable d' -> cand d key = cand d' key.
Proof. unfold stable. intros [=]. unfold cand. simpl in *. congruence. Qed.

Section expand.
Context {E : Env} (no_fault : calm).
Context (S T : gset pair_) (B : blocks) (n : Z).

(** The buckets from [lo] on are in use; the pairs of [T] are in the top level. *)
Record splitting (d : Dpu) (rp : list (option (list Z))) (lo : Z) (w : world) : Prop := {
  sp_coh : coh (within S) (raise B lo) n w [];
  sp_holds : holds (fun e => e ∈ S) (raise B lo) n w;
  sp_top : forall e, e ∈ T -> exists b, b ∈ take 2 (cand d e.1) /\ e ∈ entries (view B n w b);
  sp_len : length (new_bucket_constructed_ (dpu w)) = Z.to_nat (2 ^ (n + 1));
  sp_stable : stable (dpu w) = stable d;
  sp_replies : replies w = rp
}.

Lemma top_range d key b : level_ok n -> geo d = geo_at n -> b ∈ take 2 (cand d key) -> 2 ^ n - 4 <= b < 2 ^ (n + 1) - 4.
Proof.
  intros Hn Hg. unfold cand. rewrite Hg, Get4Buckets_eq by (done || apply Hash_nonneg).
  generalize (GenericType.Hash key (f_seed_ d)) (GenericType.Hash key (s_seed_ d)). intros h1 h2. powers Hn.
  pose proof (Z.mod_pos_bound h1 (4 * q)). pose proof (Z.mod_pos_bound h2 (4 * q)).
  cbn [take]. rewrite !elem_of_cons, elem_of_nil. intros [->|[->|[]]]; lia.
Qed.

Lemma splitting_geo d rp lo w : splitting d rp lo w -> geo d = geo_at n /\ level_ok n.
Proof.
  intros Hs. split; [|apply (sp_coh _ _ _ _ Hs)]. pose proof (sp_stable _ _ _ _ Hs) as Hst. unfold stable in Hst.
  injection Hst as Hg. rewrite <- Hg. apply (sp_coh _ _ _ _ Hs).
Qed.

Lemma splitting_grows d rp lo k k' w w' :
  lo <= 2 ^ n - 4 -> splitting d rp lo w -> coh (within S) (raise B lo) n w' [] -> grows (within S) (raise B lo) n k k' w w' ->
  splitting d rp lo w'.
Proof.
  intros Hlo Hs Hc [Hlen Had]. destruct (splitting_geo _ _ _ _ Hs) as [Hg Hn]. destruct Hs as [Hc0 Hh Ht Hl Hst Hr].
  split; [done| | |congruence| |].
  - eapply holds_advance; [exact Had|exact Hh].
  - intros e He. destruct (Ht e He) as (b & Hb & Hin). exists b. split; [done|].
    eapply sub_of_incl; [apply (ad_view _ _ _ _ _ _ _ _ Had)|exact Hin].
    destruct (top_range d e.1 b Hn Hg Hb). left. simpl. powers Hn. lia.
  - rewrite <- Hst. exact (stable_rest _ _ (ad_rest _ _ _ _ _ _ _ _ Had)).
  - rewrite <- Hr. apply Had.
Qed.

Lemma splitting_drop d rp lo f w :
  lo < 2 ^ n - 4 -> splitting d rp lo w -> (f < CACHE_SIZE)%nat ->
  (forall b g, bucket_table_ (dpu w) !! b = Some g -> dirty_flag_ (dpu w) !! Z.to_nat g = Some true ->
     b = lo <-> Z.to_nat g = f) ->
  splitting d rp (lo + 1) (with_dirty f false w).
Proof.
  intros Hlo Hs Hf Hd. destruct (splitting_geo _ _ _ _ Hs) as [Hg Hn]. destruct Hs as [Hc0 Hh Ht Hl Hst Hr].
  split; try done.
  - apply drop_coh; [done|done| |done]. powers Hn. lia.
  - intros b e Hv. apply (Hh b e). eapply raise_valid; [|exact Hv]. lia.
Qed.

Lemma split_all_ok d rp m : forall lo w,
  2 ^ (n - 1) - 4 <= lo -> lo + Z.of_nat m = 2 ^ n - 4 -> b_new B <> None -> splitting d rp lo w ->
  kwp (split_all m lo) w (fun _ w' => splitting d rp (2 ^ n - 4) w').
Proof using no_fault.
  induction m as [|m IH]; intros lo w Hlo Hm HN Hs; cbn [split_all].
  - apply kwp_ret. by replace (2 ^ n - 4) with lo by lia.
  - destruct (splitting_geo _ _ _ _ Hs) as [_ Hn].
    assert (live (raise B lo) n lo) as Hl.
    { split; [left; simpl|]; powers Hn; lia. }
    eapply kwp_call.
    { apply (frame_of_ok no_fault (fun e => e ∈ S) (raise B lo) n 0 w lo); [apply Hs|unfold CACHE_SIZE; lia|done]. }
    intros F w1 (Hc1 & Had1 & Hb1 & _).
    assert (splitting d rp lo w1) as Hs1.
    { eapply splitting_grows; [|exact Hs|exact Hc1|by apply grows_advance]. lia. }
    eapply kwp_call; [apply (splitBucket_ok no_fault (within S) (raise B lo) n w1 lo F); [done|done|done|apply Hs1]|].
    intros _ w2 (w3 & f & -> & Hf & Hc3 & Hg3 & ->). apply (IH (lo + 1)); [lia|lia|done|].
    assert (splitting d rp lo w3) as Hs3 by (eapply splitting_grows; [|exact Hs1|exact Hc3|exact Hg3]; lia).
    apply splitting_drop; [lia|done|done|]. intros b g Hb Hd.
    destruct (ad_dirty _ _ _ _ _ _ _ _ (proj2 Hg3) b g Hb Hd) as [Hb' _]. simpl in Hb'. split.
    + intros ->. assert (g = Z.of_nat f) as -> by congruence. lia.
    + intros <-. destruct (to_table _ _ _ _ _ _ (co_tables _ _ _ _ _ Hc1) b g Hb') as (_ & H0 & Hi & _).
      destruct (to_table _ _ _ _ _ _ (co_tables _ _ _ _ _ Hc1) lo _ Hb1) as (_ & _ & Hi' & _).
      rewrite Z2Nat.id in Hi' by done. congruence.
Qed.
End expand.

(** ** From the request to the loop *)

Lemma repeat_new_client {E : Env} m : forall w,
  kwp (repeat_kv m new_client) w (fun _ w' => exists id cls,
    w' = set_dma_client (dma_client_ w ++ cls) (set_dpu (set_next_client_id id (dpu w)) w) /\
    length cls = m /\ forall cl, cl ∈ cls -> queue cl = []).
Proof.
  induction m as [|m IH]; intros w; cbn [repeat_kv].
  - apply kwp_ret. exists (next_client_id_ (dpu w)), []. rewrite app_nil_r. split; [by destruct w, dpu|].
    split; [done|]. set_solver.
  - unfold new_client at 1. apply kwp_bind, kwp_getd, kwp_modd, kwp_modify_last. eapply kwp_mono; [apply IH|].
    intros _ w' (id & cls & -> & Hl & Hq). eexists _, (_ :: cls). cbn [dma_client_ set_dma_client].
    rewrite <- (assoc_L (++)). split; [done|]. split; [simpl; by rewrite Hl|]. intros cl [->|Hcl]%elem_of_cons; [done|auto].
Qed.

(** The places of the buckets do not change when a level is added. *)
Lemma place_grown B n N b : b < 2 ^ (n + 1) - 4 -> place (grown B N) n b = place B n b.
Proof. intros Hb. unfold place. simpl. repeat case_match; try done. rewrite Z.ltb_ge in *. lia. Qed.

Lemma hostb_grown B n N h b : b < 2 ^ (n + 1) - 4 -> hostb (grown B N) n h b = hostb B n h b.
Proof. intros Hb. unfold hostb. by rewrite place_grown. Qed.

Lemma hostb_next B n N h bs b :
  level_ok n -> h !! N = Some bs -> next_level n b ->
  hostb (grown B N) n h b = bs !! Z.to_nat (b - (2 ^ (n + 1) - 4)).
Proof.
  intros Hn Hh [H1 H2]. unfold hostb, place. powers Hn. rewrite !(proj2 (Z.ltb_ge _ _)) by lia. simpl. by rewrite Hh.
Qed.

Lemma valid_grown B n N b : valid (grown B N) n b -> valid B n b /\ b < 2 ^ (n + 1) - 4 \/ next_level n b.
Proof. intros [Hb|[_ Hb]]; [left|by right]. split; [by left|lia]. Qed.

Section begin.
Context (sub : LevelBucket -> LevelBucket -> Prop) `{!PreOrder sub}.
Context (B : blocks) (n : Z) (N : nat) (no_new : b_new B = None).
Context (d0 : Dpu) (rp : list (option (list Z))) (v0 : Z -> LevelBucket).

Abbreviation imported := (importing sub B n N d0 rp v0).

Lemma imported_answered r w : imported 4 r w -> blocks_kept B w /\ answered B n N 4 r w.
Proof. intros Him. destruct (im_host _ _ _ _ _ _ _ _ _ _ Him) as [Hk [[? _]|Ha]]; done. Qed.

(** The buckets of the next level are there and empty. *)
Lemma fresh_bucket r w b : imported 4 r w -> next_level n b -> hostb (grown B N) n (heap w) b = Some zero_bucket.
Proof.
  intros Him Hb. destruct (imported_answered r w Him) as [_ (_ & _ & _ & _ & Hh & _)].
  rewrite (hostb_next B n N _ (fresh_level n)); [|apply Him|done|done].
  apply lookup_replicate_2. pose proof (io_level _ _ _ _ (im_io _ _ _ _ _ _ _ _ _ _ Him)) as Hn.
  unfold next_level in Hb. powers Hn. lia.
Qed.

Lemma opened_io r w : imported 4 r w -> io_ok (grown B N) n w [].
Proof using no_new.
  intros Him. destruct (imported_answered r w Him) as [_ (_ & _ & H1 & H2 & _)]. pose proof (fresh_bucket r w) as Hfr.
  pose proof (im_io _ _ _ _ _ _ _ _ _ _ Him) as Hio. pose proof (im_remotes _ _ _ _ _ _ _ _ _ _ Him) as Hrem.
  destruct Hio. split; try done; try (intros o * Ho; by apply not_elem_of_nil in Ho).
  - destruct io_distinct as [HB _]. split; [done|]. intros N' [= <-]. done.
  - unfold remotes_of in *. simpl. rewrite no_new, app_nil_r in Hrem. rewrite <- (assoc_L (++)) in Hrem. done.
  - intros b Hb. apply valid_grown in Hb as [[Hb Hlt]|Hb].
    + rewrite hostb_grown by done. by apply io_host.
    + rewrite Hfr by done. eexists. split; [done|]. apply zero_bucket_wf.
Qed.

Lemma view_grown w b : b < 2 ^ (n + 1) - 4 -> view (grown B N) n w b = view B n w b.
Proof. intros Hb. unfold view, hostv. by rewrite hostb_grown. Qed.

Lemma opened_tables r w : imported 4 r w -> tables_ok sub (grown B N) n w [] None.
Proof using no_new.
  intros Him. pose proof (im_tables _ _ _ _ _ _ _ _ _ _ Him) as Ht. pose proof (fresh_bucket r w) as Hfr.
  pose proof (io_level _ _ _ _ (im_io _ _ _ _ _ _ _ _ _ _ Him)) as Hn. pose proof Ht as Ht'. destruct Ht'.
  assert (forall b f, bucket_table_ (dpu w) !! b = Some f -> b < 2 ^ (n + 1) - 4) as Htop.
  { intros b f Hb. apply to_top in Hb. unfold top in Hb. by rewrite no_new in Hb. }
  split; try done.
  - intros b f Hb Hd. destruct (to_live b f Hb Hd) as [?|[? _]]; [by left|done].
  - intros b f x Hb Hv Hd Hx. unfold hostv. rewrite hostb_grown by (by eapply Htop).
    apply valid_grown in Hv as [[Hv _]|Hv]; [by eapply to_clean|]. apply Htop in Hb. unfold next_level in Hv. lia.
  - intros b (_ & Hb & _). assert (bucket_table_ (dpu w) !! b = None) as Hnone.
    { destruct (bucket_table_ (dpu w) !! b) as [f|] eqn:Hf; [|done]. apply Htop in Hf. lia. }
    split; [done|]. split; [apply not_elem_of_nil|]. unfold hostv. by rewrite Hfr.
  - intros b f Hb. apply Htop in Hb. unfold top. simpl. powers Hn. lia.
Qed.

Lemma opened_coh r w : imported 4 r w -> coh sub (grown B N) n w [].
Proof using no_new.
  intros Him. destruct (imported_answered r w Him) as [(K1 & K2 & K3 & K4) (A1 & A2 & _ & _ & _ & A6 & _)].
  split; [by eapply opened_io| |by eapply opened_tables]. split; [done|]. split; [by rewrite A2|].
  repeat (split; [done|]). by right.
Qed.
End begin.

(** ** From the loop to the new table *)

(** The blocks after the expansion: the top level is the bottom level now. *)
Definition shifted (B : blocks) (n : Z) (N : nat) : blocks := mkBlocks (b_tl B) N None (2 ^ n - 4).

Lemma shifted_valid B n N b : valid (shifted B n N) (n + 1) b <-> 2 ^ n - 4 <= b < 2 ^ (n + 2) - 4.
Proof.
  unfold valid. simpl. replace (n + 1 - 1) with n by lia. replace (n + 1 + 1) with (n + 2) by lia.
  split; [intros [[]|[? _]]; [lia|done]|]. intros Hb. left. lia.
Qed.

Lemma shifted_place B n N b :
  level_ok n -> 2 ^ n - 4 <= b < 2 ^ (n + 2) - 4 -> place (shifted B n N) (n + 1) b = place (grown B N) n b.
Proof.
  intros Hn Hb. unfold place. simpl. replace (n + 1 - 1) with n by lia. replace (n + 1 + 1) with (n + 2) by lia.
  powers Hn. rewrite (proj2 (Z.ltb_ge b (8 * q - 4))) by lia. destruct (b <? 16 * q - 4); [done|].
  by rewrite (proj2 (Z.ltb_lt _ _)) by lia.
Qed.

Lemma shifted_was_valid B n N b :
  level_ok n -> valid (shifted B n N) (n + 1) b -> valid (raise (grown B N) (2 ^ n - 4)) n b.
Proof.
  intros Hn Hb%shifted_valid. unfold valid. simpl. powers Hn.
  destruct (decide (b < 16 * q - 4)); [left|right; split; [done|]]; lia.
Qed.

Definition settle (n : Z) (w : world) : world :=
  set_dma_client (drop (THREADS / 2) (dma_client_ w))
    (set_dpu (set_geo (geo_at (n + 1)) (dpu w)) (set_to_host (to_host w ++ [COMCH_MSG_CONTROL EXPAND_FINISH]) w)).

Section settle.
Context (sub : LevelBucket -> LevelBucket -> Prop) `{!PreOrder sub}.
Context (B : blocks) (n : Z) (N : nat) (Hn' : level_ok (n + 1)).

Abbreviation before := (raise (grown B N) (2 ^ n - 4)).
Abbreviation after := (shifted B n N).

Lemma settle_hostb w b : level_ok n -> valid after (n + 1) b ->
  hostb after (n + 1) (heap (settle n w)) b = hostb before n (heap w) b.
Proof. intros Hn Hb%shifted_valid. unfold hostb. by rewrite shifted_place. Qed.

Lemma settle_view w b : level_ok n -> valid after (n + 1) b ->
  view after (n + 1) (settle n w) b = view before n w b.
Proof. intros Hn Hb. unfold view, hostv. by rewrite settle_hostb. Qed.

Lemma drop_prefix {A} k (l1 l : list A) : l1 `prefix_of` l -> drop k l1 `prefix_of` drop k l.
Proof. intros [l2 ->]. rewrite drop_app. by apply prefix_app_r. Qed.

Lemma settle_io w : coh sub before n w [] -> io_ok after (n + 1) (settle n w) [].
Proof using Hn'.
  intros [Hio _ _]. pose proof (io_level _ _ _ _ Hio) as Hn. pose proof (settle_hostb w) as Hh. 
  pose proof Hio as Hio'. destruct Hio'. split; try done; try (intros o * Ho; by apply not_elem_of_nil in Ho).
  - destruct io_distinct as [_ HD]. destruct (HD N eq_refl). split; [simpl in *; congruence|done].
  - unfold settle. cbn [dma_client_ set_dma_client]. rewrite fmap_drop. apply (drop_prefix (THREADS / 2)) in io_remotes.
    etransitivity; [|exact io_remotes]. unfold remotes_of. simpl.
    replace (n + 1 - 3) with (n - 2) by lia. replace (n + 1 - 2) with (n - 1) by lia. done.
  - intros b Hb. rewrite Hh by done. apply io_host. by apply shifted_was_valid.
  - intros c cl. unfold settle. cbn [dma_client_ set_dma_client]. rewrite lookup_drop. intros Hc.
    destruct (io_queue _ _ Hc) as [Q1 Q2]. split; [done|]. intros r. rewrite (Q2 r).
    split; intros (o & Ho & _); by apply not_elem_of_nil in Ho.
Qed.

Lemma settle_tables w : coh sub before n w [] -> tables_ok sub after (n + 1) (settle n w) [] None.
Proof.
  intros [Hio _ Ht]. pose proof (io_level _ _ _ _ Hio) as Hn. pose proof (settle_hostb w) as Hh.
  pose proof Ht as Ht'. destruct Ht'. split; try done.
  - intros b f Hb Hd. apply shifted_valid. pose proof (to_live b f Hb Hd) as Hv. apply to_top in Hb.
    unfold top in Hb. simpl in Hb. destruct Hv as [[Hv _]|[_ Hv]]; simpl in *; [lia|]. powers Hn. lia.
  - intros b f x Hb Hv Hd Hx. unfold hostv. rewrite Hh by done. apply (to_clean b f x); try done.
    by apply shifted_was_valid.
  - by intros b (? & _).
  - intros b f Hb. unfold top. simpl. replace (n + 1 + 1) with (n + 2) by lia. by apply to_top in Hb.
Qed.

Lemma settle_closing w : coh sub before n w [] -> closing after (n + 1) (settle n w).
Proof.
  intros [Hio Hst Ht]. pose proof (io_level _ _ _ _ Hio) as Hn. destruct Hst as (Hth & Htd & Hs & Hfr & Hbl & Htl & Hw).
  destruct Hw as [[? _]|(N' & srv & HN & He & Hre & Ha & Hb & H0 & H1)]; [done|]. injection HN as <-.
  destruct (io_distinct _ _ _ _ Hio) as [HD1 HD2]. destruct (HD2 N eq_refl) as [HD3 HD4]. simpl in *. split.
  - split; [done|]. split; [done|]. split; [done|].
    destruct (io_host _ _ _ _ Hio (2 ^ (n + 1) - 4)) as (x & Hx & _).
    { right. simpl. split; [done|]. powers Hn. lia. }
    change (hostb before n (heap w)) with (hostb (grown B N) n (heap w)) in Hx. unfold hostb in Hx.
    assert ((place (grown B N) n (2 ^ (n + 1) - 4)).1 = N) as Hp.
    { unfold place. rewrite Z.ltb_irrefl. simpl. powers Hn. by rewrite (proj2 (Z.ltb_ge _ _)) by lia. }
    rewrite Hp in Hx. simpl. destruct (heap w !! N); [done|discriminate].
  - left. simpl. split; [simpl; by rewrite Hth|]. split; [done|]. exists srv. simpl.
    replace (n + 1 - 1) with n by lia. replace (n + 1 - 2) with (n - 1) by lia. rewrite H0, H1. repeat (split; [done|]). done.
Qed.
End settle.

(** ** The expansion *)

(** A pair that is in a bucket of the top level. *)
Definition in_top (B : blocks) (n : Z) (w : world) (e : pair_) : Prop :=
  Exists (fun b => e ∈ entries (view B n w b)) (take 2 (cand (dpu w) e.1)).

#[export] Instance in_top_dec B n w e : Decision (in_top B n w e).
Proof. apply _. Defined.

(** What an expansion does not change. *)
Definition carried (d d' : Dpu) : Prop :=
  f_seed_ d' = f_seed_ d /\ s_seed_ d' = s_seed_ d /\ size_ d' = size_ d /\ stop_ d' = stop_ d /\
  running_ d' = running_ d /\ request_queue_ d' = request_queue_ d /\ in_init_ d' = in_init_ d.

Lemma stable_carried d d' : stable d' = stable d -> carried d d'.
Proof. unfold stable. intros [=]. done. Qed.

Lemma carried_trans d1 d2 d3 : carried d1 d2 -> carried d2 d3 -> carried d1 d3.
Proof. unfold carried. intros H1 H2. decompose [and] H1. decompose [and] H2. repeat split; congruence. Qed.

Section whole.
Context {E : Env} (no_fault : calm).
Context (S T : gset pair_) (B : blocks) (n : Z).

(** The world when the polling begins. *)
Definition asking (id : Z) (cls : list DmaClient) (w : world) : world :=
  set_dma_client (dma_client_ w ++ cls)
    (set_dpu (set_next_client_id id (set_mmap_to_recv 4 (set_in_rehash true
       (set_new_bucket_constructed (replicate (Z.to_nat (2 ^ (n + 1))) false) (dpu w)))))
       (set_to_host (to_host w ++ [COMCH_MSG_CONTROL EXPAND]) w)).

Lemma importing_start w id cls :
  store S T B n w -> length cls = 4%nat -> (forall cl, cl ∈ cls -> queue cl = []) ->
  importing (within S) B n (next_blk w) (dpu (asking id cls w)) (replies w) (view B n w) 0 5 (asking id cls w).
Proof.
  intros Hs Hlen Hq. pose proof Hs as [[Hio Hst Ht] [HN Hlo] Hh Hco Hi].
  destruct Hst as (Hth & Htd & Hstop & Hfr & Hbl & Htl & Hw). split; try done.
  - pose proof Hio as Hio'. destruct Hio'. split; try done.
    + unfold asking. cbn [dma_client_ set_dma_client]. rewrite fmap_app. by apply prefix_app_r.
    + intros c cl. unfold asking. cbn [dma_client_ set_dma_client]. intros [Hc|[_ Hc]]%lookup_app_Some; [by apply io_queue|].
      apply list_elem_of_lookup_2, Hq in Hc. rewrite Hc. split; [apply NoDup_nil_2|]. intros r. split.
      * by intros ?%not_elem_of_nil.
      * intros (o & Ho & _). by apply not_elem_of_nil in Ho.
  - eapply tables_core; [exact Ht|done..|by left|done|done].
  - split; [done|]. left. split; [done|]. destruct Hw as [[_ Hid]|(? & ? & ? & _)]; [|congruence].
    unfold asking, asked. simpl. rewrite Hth, Htd. do 3 (split; [done|]). split; [done|].
    destruct Hid as [[-> _]|(srv & -> & _)]; simpl; lia.
  - rewrite app_nil_r. unfold asking. cbn [dma_client_ set_dma_client]. rewrite fmap_app. apply prefix_app_r, Hio.
  - unfold asking. cbn [dma_client_ set_dma_client]. rewrite length_app, Hlen.
    pose proof (prefix_length _ _ (io_remotes _ _ _ _ Hio)) as Hl. unfold remotes_of in Hl. rewrite HN in Hl.
    rewrite length_fmap, app_nil_r, length_app, !length_part in Hl. lia.
Qed.

(** The rehashing begins. *)
Lemma splitting_start w id cls r w1 :
  store S T B n w ->
  importing (within S) B n (next_blk w) (dpu (asking id cls w)) (replies w) (view B n w) 4 r w1 ->
  splitting S (filter (in_top B n w) T) (grown B (next_blk w)) n (dpu w1) (replies w) (2 ^ (n - 1) - 4) w1 /\
  carried (dpu w) (dpu w1) /\ in_rehash_ (dpu w1) = true.
Proof.
  intros Hs Him. pose proof Hs as [Hc0 [HN Hlo] Hh Hco Hi]. pose proof (io_level _ _ _ _ (co_io _ _ _ _ _ Hc0)) as Hn.
  pose proof (im_dpu _ _ _ _ _ _ _ _ _ _ Him) as Ed. pose proof (opened_coh (within S) B n _ HN _ _ _ r w1 Him) as Hc.
  assert (raise (grown B (next_blk w)) (2 ^ (n - 1) - 4) = grown B (next_blk w)) as Er.
  { unfold raise, grown. simpl. by rewrite Hlo. }
  assert (forall key, cand (dpu w1) key = cand (dpu w) key) as Ecand by (intros; rewrite Ed; done).
  split; [|by rewrite Ed]. split; try (by rewrite Er); try done.
  - rewrite Er. intros b e Hv Hin. apply valid_grown in Hv as [[Hv Hlt]|Hv].
    + rewrite view_grown in Hin by done. apply (sub_of_stored (fun e => e ∈ S) (view B n w b) (view B n w1 b)); [by apply (im_view _ _ _ _ _ _ _ _ _ _ Him)| |exact Hin].
      intros e'. by apply Hh.
    + pose proof (fresh_bucket (within S) B n _ _ _ _ r w1 b Him Hv) as Hz. unfold view, hostv in Hin.
      destruct (bucket_table_ (dpu w1) !! b) as [f|] eqn:Hf.
      * apply (to_top _ _ _ _ _ _ (im_tables _ _ _ _ _ _ _ _ _ _ Him)) in Hf. unfold top in Hf. rewrite HN in Hf.
        unfold next_level in Hv. lia.
      * rewrite Hz in Hin. simpl in Hin. rewrite entries_zero in Hin. by apply not_elem_of_nil in Hin.
  - intros e [Htop He]%elem_of_filter. unfold in_top in Htop. apply Exists_exists in Htop as (b & Hb & Hin).
    exists b. rewrite Ecand. split; [done|]. destruct (top_range n (dpu w) e.1 b Hn (store_geo S T B n w Hs) Hb).
    rewrite view_grown by done. eapply (sub_of_incl (fun e => e ∈ S)); [apply (im_view _ _ _ _ _ _ _ _ _ _ Him)|done].
    left. rewrite Hlo. powers Hn. lia.
  - rewrite Ed. simpl. by rewrite length_replicate.
  - apply (im_replies _ _ _ _ _ _ _ _ _ _ Him).
Qed.

(** The new table, after the confirmation. *)
Lemma settle_store d rp w w' :
  level_ok (n + 1) -> b_new B = None -> in_init_ d = false ->
  splitting S T (grown B (next_blk w)) n d rp (2 ^ n - 4) w' -> forall w2,
  coh (within S) (shifted B n (next_blk w)) (n + 1) w2 [] -> dpu w2 = set_in_rehash false (dpu (settle n w')) ->
  (forall b, valid (shifted B n (next_blk w)) (n + 1) b ->
     within S (view (shifted B n (next_blk w)) (n + 1) (settle n w') b) (view (shifted B n (next_blk w)) (n + 1) w2 b)) ->
  store S T (shifted B n (next_blk w)) (n + 1) w2.
Proof.
  intros Hn' HN Hi Hsp w2 Hc2 Ed2 Hv2. destruct (splitting_geo _ _ _ _ _ _ _ _ Hsp) as [Hg Hn].
  pose proof (sp_stable _ _ _ _ _ _ _ _ Hsp) as Hstab. split; [done| | | |].
  - split; [done|]. simpl. by replace (n + 1 - 1) with n by lia.
  - intros b e Hv. apply (sub_of_stored (fun e => e ∈ S) (view (shifted B n (next_blk w)) (n + 1) (settle n w') b)); [by apply Hv2|].
    rewrite settle_view by done. intros e' He'. eapply (sp_holds _ _ _ _ _ _ _ _ Hsp b); [by apply shifted_was_valid|exact He'].
  - intros e He. destruct (sp_top _ _ _ _ _ _ _ _ Hsp e He) as (b & Hb & Hin). exists b.
    destruct (top_range n d e.1 b Hn Hg Hb) as [H1 H2].
    assert (valid (shifted B n (next_blk w)) (n + 1) b) as Hv by (apply shifted_valid; powers Hn; lia). split.
    + apply stable_carried in Hstab as (Ef & Es & _). unfold cand in Hb. rewrite Hg, <- Ef, <- Es in Hb.
      rewrite <- candidates_expand in Hb by (done || apply Hash_nonneg).
      rewrite Ed2. unfold cand. simpl in Hb |- *. by do 2 right.
    + eapply (sub_of_incl (fun e => e ∈ S)); [by apply Hv2|]. by rewrite settle_view.
  - rewrite Ed2. simpl. apply stable_carried in Hstab. destruct Hstab as (_ & _ & _ & _ & _ & _ & Hi').
    by rewrite Hi'.
Qed.
End whole.

Section expansion.
Context {E : Env} (no_fault : calm).

(** [Expand] returns, and the new table has the pairs of the old top level. *)
Lemma Expand_ok S T B n w :
  store S T B n w -> level_ok (n + 1) ->
  kwp Expand w (fun _ w' => store S (filter (in_top B n w) T) (shifted B n (next_blk w)) (n + 1) w' /\
    replies w' = replies w /\ carried (dpu w) (dpu w')).
Proof using no_fault.
  intros Hs Hn'. pose proof (store_level _ _ _ _ _ Hs) as Hn. pose proof (st_settled _ _ _ _ _ Hs) as [HN Hlo].
  unfold Expand. apply kwp_getd. rewrite (store_geo _ _ _ _ _ Hs).
  cbn [addr_capacity_ tl_start_bucket_id_ bl_start_bucket_id_ next_start_bucket_id_ level_ bl_capacity_ geo_at].
  assert (u64 (2 ^ n * 2) = 2 ^ (n + 1)) as -> by (powers Hn; rewrite u64_fits; lia).
  assert (u64 (2 ^ (n - 1) * 2) = 2 ^ n) as -> by (powers Hn; rewrite u64_fits; lia).
  do 3 apply kwp_modd. unfold dpu_send at 1. apply kwp_modify.
  eapply kwp_call; [apply repeat_new_client|]. intros _ w0 (id & cls & -> & Hlen & Hq).
  match goal with |- kwp _ ?x _ => change x with (asking n id cls w) end.
  eapply kwp_call.
  { apply (poll_open no_fault (within S) B n (next_blk w) HN (dpu (asking n id cls w)) eq_refl ltac:(apply Hs) (replies w)
             (view B n w) poll_fuel 0 5); [by eapply importing_start|lia|unfold poll_fuel; lia]. }
  intros _ w1 (r & Him). destruct (splitting_start S T B n w id cls r w1 Hs Him) as (Hsp1 & Hca1 & Hre1).
  eapply kwp_call.
  { eapply (split_all_ok no_fault S _ (grown B (next_blk w)) n (dpu w1) (replies w)); [lia| |done|exact Hsp1].
    powers Hn. lia. }
  intros [] w2 Hsp2. unfold dpu_send. apply kwp_modify, kwp_modd, kwp_modify.
  assert (s64 (2 ^ (n + 1) - 4 + 2 ^ (n + 1)) = 2 ^ (n + 2) - 4) as -> by (powers Hn; rewrite s64_id; lia).
  assert (u64 (n + 1) = n + 1) as -> by (apply u64_fits; unfold level_ok, MAX_LEVEL in *; lia).
  assert (mkGeometry (2 ^ n - 4) (2 ^ (n + 1) - 4) (2 ^ (n + 2) - 4) (n + 1) (2 ^ (n + 1)) (2 ^ n) = geo_at (n + 1)) as ->.
  { unfold geo_at. replace (n + 1 - 1) with n by lia. by replace (n + 1 + 1) with (n + 2) by lia. }
  match goal with |- kwp _ ?x _ => change x with (settle n w2) end.
  pose proof (sp_coh _ _ _ _ _ _ _ _ Hsp2) as Hc2. pose proof (stable_carried _ _ (sp_stable _ _ _ _ _ _ _ _ Hsp2)) as Hca2.
  eapply kwp_mono.
  { apply (poll_close no_fault (within S) (shifted B n (next_blk w)) (n + 1) eq_refl 7 (settle n w2)).
    - by eapply settle_io.
    - by eapply settle_tables.
    - by eapply settle_closing.
    - simpl. pose proof (sp_stable _ _ _ _ _ _ _ _ Hsp2) as Hst. unfold stable in Hst. injection Hst as. congruence. }
  intros _ w3 (Hc3 & Ed3 & Er3 & Hv3). split; [|split].
  - eapply settle_store; [done|done| |exact Hsp2|done|done|done]. destruct Hca1 as (_ & _ & _ & _ & _ & _ & ->). apply Hs.
  - rewrite Er3. apply Hsp2.
  - rewrite Ed3. exact (carried_trans _ _ _ Hca1 Hca2).
Qed.
End expansion.
