(* ===== verification/KvRun.v ===== *)
(** * KvRun: the worker's loop and the start of the two machines

    The abstract store has two sets of pairs: those that a search may return and
    those that it must not miss. An insertion adds its pair to both, unless all
    four buckets of its key are full; an expansion is made when the load factor is
    reached, and of the pairs that must be found it keeps those of the top level.
    The worker's loop refines this, for every interleaving of the threads.

    The constructors of [Host] and [Dpu]: the host allocates the two levels and
    sends the seeds and eight memory maps, which the DPU waits for. Whatever the
    schedule, an empty store comes out. *)

From stdpp Require Import gmap.
From S2P Require Import Prelude.
From S2P Require Import KvBucket.
From S2P Require Import KvReplacer.
From S2P Require Import KvState.
From S2P Require Import KvDma.
From S2P Require Import KvHost.
From S2P Require Import KvDpu.
From S2P Require Import KvAsync.
From S2P Require Import KvCoherence.
From S2P Require Import KvFetch.
From S2P Require Import KvRequests.
From S2P Require Import KvMove.
From S2P Require Import KvStore.
From S2P Require Import KvExpand.

(** ** The abstract store *)

(** [a_blocks] says which blocks of host memory the buckets are in. *)
Record abs := Abs { a_level : Z; a_may : gset pair_; a_must : gset pair_; a_blocks : blocks }.

Definition put (e : pair_) (a : abs) : abs :=
  Abs (a_level a) (a_may a ∪ {[e]}) (a_must a ∪ {[e]}) (a_blocks a).

(** An insertion expands the table first when the load factor is reached. Of the
    pairs that must be found, those in the two buckets of the top level stay. *)
Inductive enlarges (w : world) (a : abs) : abs -> Prop :=
| enlarges_not : load_reached (dpu w) = false -> enlarges w a a
| enlarges_once : load_reached (dpu w) = true ->
    enlarges w a (Abs (a_level a + 1) (a_may a) (filter (in_top (a_blocks a) (a_level a) w) (a_must a))
                    (shifted (a_blocks a) (a_level a) (next_blk w))).

(** The first lines of [ProcessInsert]. *)
Definition enlarge {E : Env} : kv unit := d ← getd id; if load_reached d then Expand else mret tt.

(** What a request does to the store and which replies it gives; [w] is the world
    in which the worker takes it up. An insertion is dropped only when in the
    world after a possible expansion all four buckets of its key are full. *)
Inductive serves {E : Env} (request : Request) (w : world) (a : abs) : list (option (list Z)) -> abs -> Prop :=
| serves_hit v : request_type_ request = SEARCH -> (rkey_ request, v) ∈ a_may a ->
    serves request w a [Some (GenericType.ToString v)] a
| serves_miss : request_type_ request = SEARCH -> (forall v, (rkey_ request, v) ∉ a_must a) ->
    serves request w a [None] a
| serves_insert a1 : request_type_ request = INSERT -> enlarges w a a1 -> serves request w a [] (put (pair_of request) a1)
| serves_full w1 a1 : request_type_ request = INSERT -> enlarges w a a1 -> enlarge w = Ret (tt, w1) ->
    crowded (a_blocks a1) (a_level a1) w1 (rkey_ request) -> serves request w a [] a1
| serves_skip : request_type_ request = START \/ request_type_ request = UPDATE -> serves request w a [] a.

(** The world after the worker has taken a request from the queue. *)
Definition dequeue (w : world) : world := set_dpu (set_request_queue (tail (request_queue_ (dpu w))) (dpu w)) w.

(** A sequence of requests, with the worlds the worker goes through. *)
Inductive serves_all {E : Env} : list Request -> world -> abs -> list (option (list Z)) -> world -> abs -> Prop :=
| serves_nil w a : serves_all [] w a [] w a
| serves_cons request requests w a rs w1 a1 rs' w2 a2 :
    process request (dequeue w) = Ret (tt, w1) -> serves request (dequeue w) a rs a1 ->
    serves_all requests w1 a1 rs' w2 a2 -> serves_all (request :: requests) w a (rs ++ rs') w2 a2.

(** The world represents the abstract store. *)
Definition represents (a : abs) (w : world) : Prop := store (a_may a) (a_must a) (a_blocks a) (a_level a) w.

(** What serving a request does not change. *)
Definition keeps (d d' : Dpu) : Prop :=
  f_seed_ d' = f_seed_ d /\ s_seed_ d' = s_seed_ d /\ stop_ d' = stop_ d /\ request_queue_ d' = request_queue_ d.

Lemma keeps_trans d1 d2 d3 : keeps d1 d2 -> keeps d2 d3 -> keeps d1 d3.
Proof. intros (?&?&?&?) (?&?&?&?). repeat split; congruence. Qed.

Lemma keeps_rest d d' : rest d' = rest d -> keeps d d'.
Proof. unfold rest. by intros [=]. Qed.

Lemma keeps_carried d d' : carried d d' -> keeps d d'.
Proof. by intros (?&?&_&?&_&?&_). Qed.

Lemma said_app rs l : said rs l = l ++ rs.
Proof.
  revert l. induction rs as [|r rs IH]; intros l; simpl; [by rewrite app_nil_r|].
  rewrite IH. by rewrite <- (assoc_L (++)).
Qed.

(** Changes that the store does not depend on. *)
Lemma store_dpu S T B n w d :
  store S T B n w -> geo d = geo (dpu w) -> f_seed_ d = f_seed_ (dpu w) -> s_seed_ d = s_seed_ (dpu w) ->
  in_init_ d = in_init_ (dpu w) -> new_bucket_constructed_ d = new_bucket_constructed_ (dpu w) ->
  dirty_flag_ d = dirty_flag_ (dpu w) -> bucket_table_ d = bucket_table_ (dpu w) ->
  bucket_ids_ d = bucket_ids_ (dpu w) -> replacer_ d = replacer_ (dpu w) -> free_list_ d = free_list_ (dpu w) ->
  store S T B n (set_dpu d w).
Proof.
  intros [[Hio Hst Ht] Hse Hh Hco Hi] E1 E2 E3 E4 E5 E6 E7 E8 E9 E10. split; [|done|..].
  - split; [by apply io_dpu|exact Hst|]. eapply tables_core; [exact Ht|..]; simpl; auto.
  - intros b e Hv. specialize (Hh b e Hv). unfold view in *. simpl. by rewrite E7.
  - intros e He. destruct (Hco e He) as (b & Hb & Hin). exists b. unfold view, cand in *. simpl.
    by rewrite E7, E1, E2, E3.
  - simpl. congruence.
Qed.

Lemma store_replies S T B n w r : store S T B n w -> store S T B n (set_replies r w).
Proof. intros [Hc Hse Hh Hco Hi]. split; try done. by apply coh_replies. Qed.

Section run.
Context {E : Env} (no_fault : calm).

(** What a request leads to. *)
Definition outcome (a : abs) (w : world) (request : Request) (w' : world) : Prop :=
  exists rs a', serves request w a rs a' /\ represents a' w' /\ replies w' = replies w ++ rs /\ keeps (dpu w) (dpu w').

Lemma search_ok a w request :
  represents a w -> hashed (dpu w) request -> request_type_ request = SEARCH ->
  kwp (process request) w (fun _ w' => outcome a w request w').
Proof using no_fault.
  intros Hs [H1 H2] Ht. unfold process. rewrite Ht.
  assert (Get4Buckets (geo_at (a_level a)) (hash1_ request) (hash2_ request) = cand (dpu w) (rkey_ request)) as Ec.
  { unfold cand. by rewrite H1, H2, (store_geo _ _ _ _ _ Hs). }
  eapply kwp_call.
  { apply (ProcessSearch_ok no_fault (within (a_may a)) (a_blocks a) (a_level a) w request); [apply Hs|rewrite Ec..].
    - intros b Hb. exact (cand_live _ _ _ _ _ _ _ Hs Hb).
    - by eapply cand_NoDup. }
  cbv zeta. rewrite Ec. intros r w' (Hc' & ans & Hans & -> & Had).
  pose proof (store_advance _ _ _ _ _ _ _ _ _ Hs Hc' Had) as Hs'.
  pose proof (ad_replies _ _ _ _ _ _ _ _ Had) as Hr. rewrite said_app in Hr.
  destruct ans as [v|]; simpl.
  - apply kwp_ret. exists [Some (GenericType.ToString v)], a. split; [|split; [done|split; [done|by apply keeps_rest, Had]]].
    destruct Hans as (b & Hb & x & Hx & Hwf & Hv). apply serves_hit; [done|].
    pose proof (SearchSlot_correct x (rkey_ request) Hwf) as Hin. rewrite Hv in Hin.
    eapply (sub_of_stored (fun e => e ∈ a_may a)); [exact Hx| |exact Hin]. intros e.
    apply (st_holds _ _ _ _ _ Hs). exact (proj1 (cand_live _ _ _ _ _ _ _ Hs Hb)).
  - apply kwp_modify_last. exists [None], a. split; [|split; [|split; [simpl; by rewrite Hr, app_nil_r|by apply keeps_rest, Had]]].
    + apply serves_miss; [done|]. intros v Hv. destruct (st_complete _ _ _ _ _ Hs _ Hv) as (b & Hb & Hin).
      destruct (Hans b Hb) as (x & Hx & Hwf & Hn). pose proof (SearchSlot_correct x (rkey_ request) Hwf) as Hno.
      rewrite Hn in Hno. apply (Hno v). by eapply (sub_of_incl (fun e => e ∈ a_may a)).
    + by apply store_replies.
Qed.

(** The expansion that may come first. *)
Lemma enlarge_ok a w :
  represents a w -> a_level a < MAX_LEVEL ->
  kwp enlarge w (fun _ w' => exists a',
    enlarges w a a' /\ represents a' w' /\ replies w' = replies w /\ keeps (dpu w) (dpu w')).
Proof using no_fault.
  intros Hs Hl. apply kwp_getd. unfold id. destruct (load_reached (dpu w)) eqn:El.
  - pose proof (store_level _ _ _ _ _ Hs) as Hn. eapply kwp_mono.
    { apply (Expand_ok no_fault _ _ _ _ w Hs). unfold level_ok in *. lia. }
    intros _ w' (Hs' & Hr & Hca). eexists. split; [by apply enlarges_once|].
    split; [exact Hs'|]. split; [done|]. by apply keeps_carried.
  - apply kwp_ret. exists a. split; [by apply enlarges_not|]. done.
Qed.

Lemma insert_ok a w request :
  represents a w -> hashed (dpu w) request -> request_type_ request = INSERT -> a_level a < MAX_LEVEL ->
  kwp (process request) w (fun _ w' => outcome a w request w').
Proof using no_fault.
  intros Hrep [H1 H2] Ht Hl. unfold process. rewrite Ht. apply kwp_bind.
  eapply (kwp_mono _ _ (fun r w' => exists rs a', serves request w a rs a' /\ represents a' w' /\
    replies w' = replies w ++ rs /\ keeps (dpu w) (dpu w'))).
  - change (ProcessInsert request) with (enlarge;; insert_body request).
    pose proof (enlarge_ok a w Hrep Hl) as He. apply kwp_run in He as ([] & w1 & He & a1 & Hen & Hs1 & Hr1 & Hk1).
    apply kwp_bind. unfold kwp at 1. rewrite He. eapply kwp_mono.
    { apply (insert_body_ok (a_may a1) (a_must a1) (a_blocks a1) (a_level a1) no_fault w1 request Hs1).
      destruct Hk1 as (Ef & Es & _). unfold hashed. by rewrite Ef, Es. }
    intros r w2 (Hrest & Hr2 & Hout).
    assert (keeps (dpu w) (dpu w2)) as Hk2 by (eapply keeps_trans; [exact Hk1|by apply keeps_rest]).
    assert (replies w2 = replies w ++ []) as Hr by (rewrite app_nil_r; congruence).
    destruct Hout as [[_ Hs2]|[Hs2 Hcr]].
    + exists [], (put (pair_of request) a1). split; [by apply serves_insert|done].
    + exists [], a1. split; [by eapply serves_full|done].
  - intros r w' (rs & a' & Hse & Hs' & Hr & Hk). destruct r.
    + apply kwp_modd_last. exists rs, a'. split; [done|]. split; [by apply store_dpu|]. done.
    + apply kwp_ret. by exists rs, a'.
Qed.

(** Requests other than [DELETE] and [END]. *)
Definition plain (request : Request) : bool :=
  match request_type_ request with DELETE | END_ => false | _ => true end.

Lemma process_ok a w request :
  represents a w -> hashed (dpu w) request -> plain request = true -> a_level a < MAX_LEVEL ->
  kwp (process request) w (fun _ w' => outcome a w request w').
Proof using no_fault.
  intros Hrep Hh Hp Hl. unfold plain in Hp. destruct (request_type_ request) eqn:Ht; try done.
  - by apply search_ok.
  - by apply insert_ok.
  - unfold process. rewrite Ht. apply kwp_ret. exists [], a. rewrite app_nil_r. split; [apply serves_skip; by right|done].
  - unfold process. rewrite Ht. apply kwp_ret. exists [], a. rewrite app_nil_r. split; [apply serves_skip; by left|done].
Qed.

Lemma kwp_inv {A} (m : kv A) w (Q : A -> world -> Prop) : kwp m w Q -> exists x w', m w = Ret (x, w') /\ Q x w'.
Proof. unfold kwp. destruct (m w) as [[x w']| | |]; [|done..]. by exists x, w'. Qed.

(** [END]: the host is told, and the loop is left. *)
Lemma Run_end fuel w last :
  stop_ (dpu w) = false -> request_queue_ (dpu w) = [last] -> request_type_ last = END_ -> (0 < fuel)%nat ->
  exists w', Run fuel w = Ret (tt, w') /\ replies w' = replies w.
Proof.
  intros Hs Hq Ht Hf. destruct fuel as [|fuel]; [lia|].
  assert (kwp (Run (Datatypes.S fuel)) w (fun _ w' => replies w' = replies w)) as Hk.
  { cbn [Run]. apply kwp_getd. unfold id. rewrite Hs, Hq. apply kwp_modd, kwp_bind. unfold process. rewrite Ht.
    unfold dpu_send. apply kwp_modify, kwp_modd_last. by destruct fuel. }
  apply kwp_inv in Hk as ([] & w' & Hr & Hrp). by exists w'.
Qed.

Lemma Run_step fuel w w1 request queue :
  stop_ (dpu w) = false -> request_queue_ (dpu w) = request :: queue ->
  process request (set_dpu (set_request_queue queue (dpu w)) w) = Ret (tt, w1) ->
  Run (Datatypes.S fuel) w = Run fuel w1.
Proof.
  intros Hs Hq Hp. cbn [Run]. unfold getd, gets, mbind, kv_bind at 1. simpl. unfold id. rewrite Hs, Hq.
  unfold modd, modify, mbind, kv_bind. simpl. by rewrite Hp.
Qed.

(** Where the loop gets to: all requests served, or a table of the largest level. *)
Definition progress (fuel : nat) (a : abs) (w : world) (requests : list Request) (last : Request) : Prop :=
  exists served left_ a' w' rs, requests = served ++ left_ /\ serves_all served w a rs w' a' /\ represents a' w' /\
  replies w' = replies w ++ rs /\ Run fuel w = Run (fuel - length served) w' /\
  (left_ = [] /\ (exists w'', Run fuel w = Ret (tt, w'') /\ replies w'' = replies w') \/ MAX_LEVEL <= a_level a').

Lemma Run_ok last : request_type_ last = END_ -> forall requests fuel a w,
  represents a w -> stop_ (dpu w) = false -> request_queue_ (dpu w) = requests ++ [last] ->
  Forall (fun r => hashed (dpu w) r /\ plain r = true) requests -> (length requests < fuel)%nat ->
  progress fuel a w requests last.
Proof using no_fault.
  intros Ht. induction requests as [|request requests IH]; intros fuel a w Hrep Hstop Hq Hreq Hf.
  - destruct (Run_end fuel w last) as (w' & Hr & Hrp); [done|done|done|simpl in Hf; lia|].
    exists [], [], a, w, []. rewrite (app_nil_r (replies w)), Nat.sub_0_r. split; [done|]. split; [constructor|]. do 3 (split; [done|]).
    left. split; [done|]. by exists w'.
  - destruct (decide (MAX_LEVEL <= a_level a)) as [Hmax|Hlt].
    { exists [], (request :: requests), a, w, []. rewrite (app_nil_r (replies w)), Nat.sub_0_r. split; [done|]. split; [constructor|].
      do 3 (split; [done|]). by right. }
    apply Forall_cons in Hreq as [[Hh Hp] Hreq]. simpl in Hq, Hf. destruct fuel as [|fuel]; [lia|].
    assert (dequeue w = set_dpu (set_request_queue (requests ++ [last]) (dpu w)) w) as Eq
      by (unfold dequeue; by rewrite Hq).
    set (w0 := set_dpu (set_request_queue (requests ++ [last]) (dpu w)) w) in *.
    assert (represents a w0) as Hrep0 by (by apply store_dpu).
    pose proof (process_ok a w0 request Hrep0 Hh Hp ltac:(lia)) as Hk. apply kwp_inv in Hk as ([] & w1 & Hpr & Hout).
    destruct Hout as (rs & a1 & Hse & Hrep1 & Hr1 & (K1 & K2 & K3 & K4)).
    pose proof (Run_step fuel w w1 request (requests ++ [last]) Hstop Hq Hpr) as Hrun.
    destruct (IH fuel a1 w1) as (served & left_ & a' & w' & rs' & Ereq & Hall & Hrep' & Hr' & Hrun' & Hend).
    + done.
    + by rewrite K3.
    + by rewrite K4.
    + eapply Forall_impl; [exact Hreq|]. intros r [Hr Hp']. unfold hashed in *. by rewrite K1, K2.
    + lia.
    + exists (request :: served), left_, a', w', (rs ++ rs'). rewrite Hrun. split; [by rewrite Ereq|].
      split; [econstructor; rewrite ?Eq; done|]. split; [done|]. split; [rewrite Hr', Hr1; by rewrite (assoc_L (++))|]. split; done.
Qed.
End run.

(** * The two machines start *)

(** Nothing is there yet; [d] and [h] are what the memory of the two objects
    holds before they are constructed. *)
Definition blank (d : Dpu) (h : Host) : world := mkWorld [] [] ∅ 0 ∅ 0 0 d h [] [] [].

Section boot.
Context {E : Env}.

(** The host's constructor, the DPU's, and the DPU's waiting loop; the DPU's own
    seeds [f'] and [s'] are replaced by the host's. *)
Definition boot (level f s f' s' : Z) (w : world) : res (unit * world) :=
  w ← Host_construct level f s w;
  w ← Dpu_construct level f' s' w;
  Dpu_connect w.

(** No thread has anything to do. *)
Definition idle (w : world) : Prop :=
  (forall c cl, dma_client_ w !! c = Some cl -> queue cl = []) /\
  expanding (host w) = [] /\ h_stop (host w) = false /\ to_host w = [].

Lemma idle_actor a w : idle w -> actor_step a w = Ret w.
Proof.
  intros (Hq & He & Hs & Ht). destruct a as [c|]; simpl.
  - unfold ProcessQueue_step. destruct (dma_client_ w !! c) as [cl|] eqn:Hc; [|done]. by rewrite (Hq c cl Hc).
  - unfold host_step. by rewrite He, Hs, Ht.
Qed.

Lemma idle_tick w : idle w -> tick w = Ret (tt, set_clock (S (clock w)) w).
Proof.
  intros Hi. unfold tick. assert (idle (set_clock (S (clock w)) w)) as Hi' by done. revert Hi'.
  generalize (set_clock (S (clock w)) w). induction (sched (clock w)) as [|a as_ IH]; intros w1 Hi1; simpl; [done|].
  rewrite idle_actor by done. simpl. by apply IH.
Qed.

(** A round of the loop serves a message that is there. *)
Lemma poll_message fuel cond w m ms (Q : unit -> world -> Prop) :
  idle w -> cond (dpu w) = true -> to_dpu w = m :: ms ->
  kwp (comch_dpu_recv_callback m) (set_to_dpu ms (set_clock (S (clock w)) w)) (fun _ w' => kwp (poll_while fuel cond) w' Q) ->
  kwp (poll_while (S fuel) cond) w Q.
Proof.
  intros Hi Hc Ht HQ. cbn [poll_while]. apply kwp_getd. unfold id. rewrite Hc. apply kwp_bind. unfold kwp at 1.
  rewrite idle_tick by done. apply kwp_gets. simpl. rewrite Ht. apply kwp_bind, kwp_ret. apply kwp_bind.
  unfold Progress. apply kwp_gets. simpl. rewrite Ht. apply kwp_modify. exact HQ.
Qed.

(** ** The connection *)

Definition waiting (d : Dpu) : bool := (0 <? mmap_to_recv_ d) || negb (seed_recved_ d).

Section connect.
Context (w0 : world) (rs : list (hptr * Z)) (Hrs : length rs = 8%nat).

Definition descriptors : list ComchMsg := map (fun r => COMCH_MSG_EXPORT_DESCRIPTOR r.1 r.2) rs.

(** [j] of the memory maps were imported. *)
Record connecting (d : Dpu) (j : nat) (w : world) : Prop := {
  cn_idle : idle w;
  cn_host : host w = host w0;
  cn_heap : heap w = heap w0;
  cn_blk : next_blk w = next_blk w0;
  cn_cache : cache_ w = cache_ w0;
  cn_promises : promises w = promises w0;
  cn_next : next_promise w = next_promise w0;
  cn_replies : replies w = replies w0;
  cn_msgs : to_dpu w = drop j descriptors;
  cn_dpu : set_in_init false (dpu w) = set_mmap_to_recv (Z.of_nat (8 - j)) d;
  cn_init : (j < 8)%nat -> in_init_ (dpu w) = true;
  cn_clients : remote <$> dma_client_ w = (Some <$> take j rs) ++ replicate (8 - j) None
}.

Lemma connecting_step d j w r :
  connecting d j w -> rs !! j = Some r ->
  kwp (comch_dpu_recv_callback (COMCH_MSG_EXPORT_DESCRIPTOR r.1 r.2))
    (set_to_dpu (drop (S j) descriptors) (set_clock (S (clock w)) w)) (fun _ w' => connecting d (S j) w').
Proof using Hrs.
  intros [] Hr. pose proof (lookup_lt_Some _ _ _ Hr) as Hj. rewrite Hrs in Hj. cbn [comch_dpu_recv_callback].
  apply kwp_getd. unfold id. cbn [dpu set_to_dpu set_clock]. rewrite cn_init0 by done.
  assert (mmap_to_recv_ (dpu w) = Z.of_nat (8 - j)) as Em by (change (mmap_to_recv_ (set_in_init false (dpu w)) = Z.of_nat (8 - j)); by rewrite cn_dpu0).
  rewrite Em. assert (u64 (Z.of_nat THREADS - Z.of_nat (8 - j)) = Z.of_nat j) as -> by (change THREADS with 8%nat; rewrite u64_fits; lia).
  assert (length (dma_client_ w) = 8%nat) as Hlen.
  { rewrite <- (length_fmap remote), cn_clients0, length_app, length_fmap, length_take, length_replicate. lia. }
  destruct (lookup_lt_is_Some_2 (dma_client_ w) j) as [cl Hcl]; [lia|].
  apply kwp_bind. unfold import_client. apply kwp_gets, kwp_bind. eapply kwp_index; [exact Hcl|].
  apply kwp_modify_last, kwp_modd, kwp_modd_last. rewrite Nat2Z.id. cbn [dpu set_dma_client set_to_dpu set_clock set_dpu].
  cbn [mmap_to_recv_ set_mmap_to_recv]. rewrite Em.
  assert (u64 (Z.of_nat (8 - j) - 1) = Z.of_nat (8 - S j)) as -> by (rewrite u64_fits; lia).
  destruct cn_idle0 as (Hq & He & Hs & Ht). split; try done.
  - split; [|done]. intros c cl'. cbn [dma_client_ set_dpu set_dma_client].
    intros [(<- & <- & _)|[_ Hc]]%list_lookup_insert_Some; [exact (Hq j cl Hcl)|by apply (Hq c)].
  - cbn [dpu set_dpu]. destruct (Z.of_nat (8 - S j) =? 0).
    + change (set_mmap_to_recv (Z.of_nat (8 - S j)) (set_in_init false (dpu w)) = set_mmap_to_recv (Z.of_nat (8 - S j)) d).
      by rewrite cn_dpu0.
    + change (set_mmap_to_recv (Z.of_nat (8 - S j)) (set_in_init false (dpu w)) = set_mmap_to_recv (Z.of_nat (8 - S j)) d).
      by rewrite cn_dpu0.
  - intros Hj'. cbn [dpu set_dpu]. rewrite (proj2 (Z.eqb_neq _ _)) by lia. by apply cn_init0.
  - cbn [dma_client_ set_dpu set_dma_client set_to_dpu set_clock]. rewrite list_fmap_insert. cbn [remote Import]. rewrite cn_clients0.
    assert (length (Some <$> take j rs) = j) as Hl by (rewrite length_fmap, length_take; lia).
    rewrite insert_app_r_alt by lia. rewrite Hl, Nat.sub_diag.
    rewrite (take_S_r rs j r Hr), fmap_app, <- (assoc_L (++)). f_equal.
    replace (8 - j)%nat with (S (8 - S j)) by lia. simpl. f_equal. by destruct r.
Qed.

Lemma connect_poll d fuel : seed_recved_ d = true -> forall j w,
  connecting d j w -> (j <= 8)%nat -> (8 - j <= fuel)%nat ->
  kwp (poll_while fuel waiting) w (fun _ w' => connecting d 8 w').
Proof using Hrs.
  intros Hsd. induction fuel as [|fuel IH]; intros j w Hcn Hj Hf.
  all: assert (waiting (dpu w) = (0 <? Z.of_nat (8 - j))) as Hw
    by (pose proof (cn_dpu _ _ _ Hcn) as Ed; unfold waiting;
        change (mmap_to_recv_ (dpu w)) with (mmap_to_recv_ (set_in_init false (dpu w)));
        change (seed_recved_ (dpu w)) with (seed_recved_ (set_in_init false (dpu w)));
        rewrite Ed; simpl; by rewrite Hsd, orb_false_r).
  all: destruct (decide (j = 8%nat)) as [->|Hne];
    [cbn [poll_while]; apply kwp_getd; unfold id; rewrite Hw; by apply kwp_ret|try lia].
  destruct (lookup_lt_is_Some_2 rs j) as [r Hr]; [lia|].
  eapply (poll_message fuel waiting w _ (drop (S j) descriptors)).
  - apply Hcn.
  - rewrite Hw. apply Z.ltb_lt. lia.
  - rewrite (cn_msgs _ _ _ Hcn). apply drop_S. unfold descriptors. by rewrite list_lookup_fmap, Hr.
  - eapply kwp_mono; [by apply connecting_step|]. intros [] w' Hcn'. apply (IH (S j)); [done|lia..].
Qed.
End connect.

(** ** The store that comes out *)

Lemma shift1_eq n : 0 <= n < 31 -> shift1 n = Ret (2 ^ n).
Proof. intros Hn. unfold shift1. by rewrite (proj2 (Z.leb_le _ _)), (proj2 (Z.ltb_lt _ _)) by lia. Qed.

(** The memory maps of a level in the block [c], as addresses and sizes. *)
Definition maps (c : nat) (sz : Z) : list (hptr * Z) := map (fun i => (HPtr c (Z.of_nat i * sz), sz)) (upto 4).

Definition initial (n : Z) : blocks := mkBlocks 1 0 None (2 ^ (n - 1) - 4).

Definition initial_maps (n : Z) : list (hptr * Z) :=
  maps 1 (2 ^ (n - 3) * sizeof_FixedBucket) ++ maps 0 (2 ^ (n - 2) * sizeof_FixedBucket).

Lemma initial_remotes n : Some <$> initial_maps n = remotes_of (initial n) n.
Proof. unfold remotes_of, initial_maps. by rewrite app_nil_r, fmap_app. Qed.

Record fresh_host (n f s : Z) (w : world) : Prop := {
  fh_msgs : to_dpu w = COMCH_MSG_EXPORT_SEEDS f s :: descriptors (initial_maps n);
  fh_heap : heap w = <[1%nat := replicate (Z.to_nat (2 ^ (n - 1))) zero_bucket]>
                       (<[0%nat := replicate (Z.to_nat (2 ^ n)) zero_bucket]> ∅);
  fh_blk : next_blk w = 2%nat;
  fh_to_host : to_host w = [];
  fh_replies : replies w = [];
  fh_promises : promises w = ∅;
  fh_idle : expanding (host w) = [] /\ h_stop (host w) = false;
  fh_sizes : h_addr_capacity (host w) = 2 ^ n /\ h_bl_capacity (host w) = 2 ^ (n - 1) /\
             buckets0 (host w) = 0%nat /\ buckets1 (host w) = 1%nat
}.

Lemma Host_construct_ok n f s d h :
  calm -> 3 <= n <= 29 -> exists w, Host_construct n f s (blank d h) = Ret w /\ fresh_host n f s w.
Proof.
  intros [_ Hoom] Hn. assert (level_ok n) as Hl by (unfold level_ok, MAX_LEVEL; lia). unfold Host_construct.
  rewrite (proj2 (Z.ltb_ge _ _)), !shift1_eq by lia. unfold mbind, res_bind, alloc_buckets. rewrite !Hoom. cbn [next_blk blank set_next_blk set_heap heap].
  assert (2 ^ (n - 1) / Z.of_nat (THREADS / 2) = 2 ^ (n - 3)) as ->.
  { powers Hl. symmetry. by apply Z.div_unique_exact. }
  assert (2 ^ n / Z.of_nat (THREADS / 2) = 2 ^ (n - 2)) as ->.
  { powers Hl. symmetry. apply Z.div_unique_exact; [done|]. change (Z.of_nat (THREADS / 2)) with 4. lia. }
  rewrite !exports_servers, send_all_eq. eexists. split; [done|]. split; done.
Qed.

Lemma hostb_initial n b w :
  level_ok n -> heap w = <[1%nat := replicate (Z.to_nat (2 ^ (n - 1))) zero_bucket]>
                       (<[0%nat := replicate (Z.to_nat (2 ^ n)) zero_bucket]> ∅) ->
  valid (initial n) n b -> hostb (initial n) n (heap w) b = Some zero_bucket.
Proof.
  intros Hn -> Hb. unfold valid in Hb. simpl in Hb. destruct Hb as [[_ Hb]|[]]; [|done]. unfold hostb, place. simpl.
  powers Hn. destruct (Z.ltb_spec b (8 * q - 4)).
  - simpl. apply lookup_replicate_2. lia.
  - rewrite (proj2 (Z.ltb_lt _ _)) by lia. simpl. apply lookup_replicate_2. lia.
Qed.

(** The empty tables of the DPU. *)
Definition fresh_dpu (n : Z) (d : Dpu) : Prop :=
  geo d = geo_at n /\ dirty_flag_ d = replicate CACHE_SIZE false /\ bucket_table_ d = ∅ /\
  bucket_ids_ d = replicate CACHE_SIZE (-1) /\ replacer_ d = replacer_init /\
  free_list_ d = map Z.of_nat (upto CACHE_SIZE) /\ in_init_ d = false.

Lemma fresh_store n f s w0 w :
  level_ok n -> fresh_host n f s w0 -> fresh_dpu n (dpu w) -> cache_ w = replicate CACHE_SIZE zero_bucket ->
  host w = host w0 -> heap w = heap w0 -> next_blk w = next_blk w0 -> promises w = promises w0 -> idle w -> to_dpu w = [] ->
  remote <$> dma_client_ w = remotes_of (initial n) n -> store ∅ ∅ (initial n) n w.
Proof.
  intros Hn Hf (G1 & G2 & G3 & G4 & G5 & G6 & G7) Hca Eh Ehp Eb Ep (Hq & _ & _ & Hth) Htd Hrem.
  destruct Hf as [_ Hhp Hbk _ _ Hpr [Hex Hst] (S1 & S2 & S3 & S4)].
  assert (forall b, valid (initial n) n b -> hostb (initial n) n (heap w) b = Some zero_bucket) as Hz.
  { intros b Hb. apply hostb_initial; [done|by rewrite Ehp|done]. }
  assert (forall b, view (initial n) n w b = hostv (initial n) n w b) as Hview by (intros b; unfold view; by rewrite G3).
  split; [split| | | |].
  - split; try done; try (intros o * Ho; by apply not_elem_of_nil in Ho); try (by constructor).
    + by rewrite Hca.
    + intros g x. rewrite Hca. intros [-> _]%lookup_replicate. apply zero_bucket_wf.
    + by rewrite Hrem.
    + intros b Hb. rewrite Hz by done. eexists. split; [done|apply zero_bucket_wf].
    + intros c cl Hc. rewrite (Hq c cl Hc). split; [constructor|]. intros r. split; [by intros ?%not_elem_of_nil|].
      intros (o & Ho & _). by apply not_elem_of_nil in Ho.
    + intros p x. by rewrite Ep, Hpr, lookup_empty.
  - unfold steady. rewrite Eh, Eb, Ehp, Hhp, Hbk, Hst. do 3 (split; [done|]). split.
    { intros k. rewrite !lookup_insert_is_Some, lookup_empty. intros [<-|[_ [<-|[_ [? ?]]]]]; [lia|lia|done]. }
    split; [done|]. split; [done|]. left. split; [done|]. left. rewrite Eh. done.
  - split; unfold lru; rewrite ?G1, ?G2, ?G3, ?G4, ?G5, ?G6; try done.
    + apply replacer_init_ok.
    + intros g Hg. apply lookup_replicate_2. apply list_elem_of_fmap in Hg as (i & Hi & Hin). apply elem_of_seq in Hin. lia.
    + intros g Hg. simpl in Hg. by apply not_elem_of_nil in Hg.
    + intros o Ho. by apply not_elem_of_nil in Ho.
    + by intros b (? & _).
  - done.
  - intros b e Hb. rewrite Hview. unfold hostv. rewrite Hz by done. simpl. rewrite entries_zero. by intros ?%not_elem_of_nil.
  - intros e He. set_solver.
  - done.
Qed.

(** What the client starts from. *)
Record booted (n f s : Z) (w : world) : Prop := {
  bo_store : store ∅ ∅ (initial n) n w;
  bo_seeds : f_seed_ (dpu w) = f /\ s_seed_ (dpu w) = s;
  bo_run : stop_ (dpu w) = false /\ size_ (dpu w) = 0 /\ request_queue_ (dpu w) = [];
  bo_replies : replies w = []
}.

(** The DPU's object before it has heard from the host. *)
Definition unconnected (n f s : Z) : Dpu :=
  mkDpu (geo_at n) (replicate CACHE_SIZE false) ∅ (replicate CACHE_SIZE (-1)) replacer_init
    (map Z.of_nat (upto CACHE_SIZE)) (replicate (Z.to_nat (2 ^ (n + 1))) false)
    f s 8 false true false 8 0 false false [].

Definition new_clients : list DmaClient := map (fun i => mkDmaClient (Z.of_nat i) None []) (upto THREADS).

Lemma Dpu_construct_ok n f s w :
  3 <= n <= 29 -> Dpu_construct n f s w =
    Ret (set_dma_client new_clients (set_cache (replicate CACHE_SIZE zero_bucket) (set_dpu (unconnected n f s) w))).
Proof.
  intros Hn. assert (level_ok n) as Hl by (unfold level_ok, MAX_LEVEL; lia). unfold Dpu_construct.
  rewrite !shift1_eq by lia. unfold mbind, res_bind.
  assert (u64 (2 ^ n * 2) = 2 ^ (n + 1)) as -> by (powers Hl; rewrite u64_fits; lia). done.
Qed.

Lemma boot_ok n f s f' s' d h :
  calm -> 3 <= n <= 29 -> kwp (boot n f s f' s') (blank d h) (fun _ w => booted n f s w).
Proof.
  intros Hcalm Hn. assert (level_ok n) as Hl by (unfold level_ok, MAX_LEVEL; lia).
  destruct (Host_construct_ok n f s d h Hcalm Hn) as (w0 & Hw0 & Hf). unfold kwp, boot. rewrite Hw0.
  unfold mbind at 1, res_bind at 1. rewrite Dpu_construct_ok by done. unfold mbind at 1, res_bind at 1.
  set (w1 := set_dma_client _ _). pose proof Hf as [Hmsg Hhp Hbk Hth Hrp Hpr Hid Hsz].
  assert (idle w1) as Hi1.
  { split; [|split; [apply Hid|split; [apply Hid|done]]]. intros c cl Hc. simpl in Hc.
    apply list_elem_of_lookup_2, list_elem_of_fmap in Hc as (i & -> & _). done. }
  fold (kwp Dpu_connect w1 (fun _ w => booted n f s w)). unfold Dpu_connect.
  eapply (kwp_call _ _ _ (fun _ w2 => connecting w1 (initial_maps n)
            (set_in_init false (set_seed_recved true (set_s_seed s (set_f_seed f (unconnected n f' s'))))) 8 w2)).
  - eapply (poll_message 8 waiting w1 (COMCH_MSG_EXPORT_SEEDS f s)); [done|done|exact Hmsg|].
    cbn [comch_dpu_recv_callback]. apply kwp_modd_last.
    apply (connect_poll w1 (initial_maps n) eq_refl (set_in_init false (set_seed_recved true (set_s_seed s (set_f_seed f (unconnected n f' s'))))) 8 eq_refl 0%nat); [by split|lia|lia].
  - intros _ w2 Hcn. apply kwp_modd_last. pose proof (cn_dpu _ _ _ _ _ Hcn) as Ed.
    split; [|cbn [dpu set_dpu]; by rewrite Ed..|by cbn [replies set_dpu]; rewrite (cn_replies _ _ _ _ _ Hcn)].
    eapply (fresh_store n f s w0); try done; try apply Hcn.
    cbn [dpu set_dpu]. by rewrite Ed.
Qed.
End boot.
