(* ===== verification/KvProps.v ===== *)
(** * KvProps: what the DPU key-value store guarantees, and what it loses

    The theorems about levelkv/src/dpu and levelkv/src/host that the other Kv
    files prepare, from the boot of the two machines on, and runs that show
    where pairs get lost. *)

From stdpp Require Import gmap.
From S2P Require Import Prelude.
From S2P Require Import KvBucket.
From S2P Require Import KvReplacer.
From S2P Require Import KvState.
From S2P Require Import KvDma.
From S2P Require Import KvHost.
From S2P Require Import KvDpu.
From S2P Require Import KvAsync.
From S2P Require Import KvCoherence.
From S2P Require Import KvMove.
From S2P Require Import KvStore.
From S2P Require Import KvExpand.
From S2P Require Import KvRun.

(** ** Calls of the client *)

Record call := Call { c_type : RequestType; c_key : list Z; c_value : list Z }.

(** The calls before [RunBegin], the last of them [End]. *)
Definition submit (calls : list call) (d : Dpu) : Dpu :=
  enqueue_control END_ (foldl (fun d c => enqueue (c_type c) (c_key c) (c_value c) d) d calls).

(** The requests they queue. *)
Definition requests_of (d : Dpu) (calls : list call) : list Request :=
  map (fun c => mkRequest (c_type c) (c_key c) (c_value c)
                  (GenericType.Hash (c_key c) (f_seed_ d)) (GenericType.Hash (c_key c) (s_seed_ d))) calls.

Definition end_request : Request :=
  mkRequest END_ (replicate FixedKey_len 0) (replicate FixedValue_len 0) 0 0.

Definition plain_call (c : call) : bool := match c_type c with DELETE | END_ => false | _ => true end.

(** Only the queue changes. *)
Lemma submit_eq calls d :
  submit calls d = set_request_queue (request_queue_ d ++ requests_of d calls ++ [end_request]) d.
Proof.
  unfold submit, enqueue_control. revert d. induction calls as [|c calls IH]; intros d; simpl; [done|].
  rewrite IH. unfold requests_of. simpl. by rewrite <- !(assoc_L (++)).
Qed.

(** C4: from boot on, whatever the interleaving of the threads, the worker
    serves the calls as an abstract set of pairs does, in their order. Every call
    but [Delete] is covered. A pair that a search returns was inserted, and a
    search that returns nothing says that no pair with the key is kept. An
    insertion enlarges the table exactly when the load factor is reached, which
    keeps the pairs of the top level and may lose the others; then it adds its
    pair, unless all four buckets of its key are full: only then the pair may be
    dropped, and nothing else changes. The worker serves all calls and returns, unless the
    table reaches the largest level. No transfer and no allocation fails, and the
    table starts with level 3 to 29. *)
Theorem dpu_store_refines {E : Env} (n f s f' s' : Z) (d : Dpu) (h : Host) (calls : list call) :
  (forall p, fault p = false) -> (forall b, oom b = false) -> 3 <= n <= 29 -> forallb plain_call calls = true ->
  exists w, boot n f s f' s' (blank d h) = Ret (tt, w) /\
    progress (2 + length calls) (Abs n ∅ ∅ (initial n)) (set_dpu (submit calls (dpu w)) w) (requests_of (dpu w) calls) end_request.
Proof.
  intros Hfault Hoom Hn Hplain. assert calm as Hcalm by done.
  pose proof (boot_ok n f s f' s' d h Hcalm Hn) as Hk. apply kwp_inv in Hk as ([] & w & Hb & Hbo).
  exists w. split; [done|]. rewrite submit_eq. destruct Hbo as [Hs _ (Hst & _ & Hq) _]. rewrite Hq.
  apply (Run_ok Hcalm end_request eq_refl).
  - by apply store_dpu.
  - done.
  - done.
  - apply Forall_forall. intros r (c & -> & Hc)%list_elem_of_fmap. split; [done|].
    rewrite forallb_forall in Hplain. apply (Hplain c). by apply elem_of_list_In || by apply list_elem_of_In.
  - unfold requests_of. rewrite length_map. lia.
Qed.

(** ** Scenarios *)

(** Two schedules: other threads act only while the worker waits for them, and
    they act all the time. *)
Definition lazy_threads : Env := {| sched := fun _ => []; fault := fun _ => false; oom := fun _ => false |}.
Definition busy_threads : Env :=
  {| sched := fun t => [HostThread; DmaThread (t mod 12); DmaThread (t mod 5)]; fault := fun _ => false; oom := fun _ => false |}.

Lemma calm_busy : @calm busy_threads.
Proof. by split. Qed.

(** Objects that were not constructed yet. *)
Definition raw_dpu : Dpu :=
  mkDpu (mkGeometry 0 0 0 0 0 0) [] ∅ [] replacer_init [] [] 0 0 0 false false false 0 0 false false [].
Definition raw_host : Host := mkHost 0 0 0 0 0 0 0 0 [] [] 0 false false [].

(** Numbers as keys and values, as the benchmark makes them. *)
Definition num_key (i : nat) : list Z :=
  default [] (GenericType.construct FixedKey_len (GenericType.ConvertToString (Z.of_nat i))).
Definition num_value (i : nat) : list Z :=
  default [] (GenericType.construct FixedValue_len (GenericType.ConvertToString (10 * Z.of_nat i))).

Definition calls_of (t : RequestType) (ks : list nat) : list call := map (fun i => Call t (num_key i) (num_value i)) ks.

(** The size that the DPU counts, the level and the answers after a run. *)
Definition run_calls (E : Env) (n : Z) (calls : list call) : option (Z * Z * list (option (list Z))) :=
  match boot n 12345 67890 1 2 (blank raw_dpu raw_host) with
  | Ret (_, w) =>
      match Run (2 + length calls) (set_dpu (submit calls (dpu w)) w) with
      | Ret (_, w) => Some (size_ (dpu w), level_ (geo (dpu w)), replies w)
      | _ => None
      end
  | _ => None
  end.

Lemma dpu_store_refines_witness :
  exists w, @boot busy_threads 3 12345 67890 1 2 (blank raw_dpu raw_host) = Ret (tt, w) /\
    @progress busy_threads 4 (Abs 3 ∅ ∅ (initial 3))
      (set_dpu (submit [Call INSERT (num_key 1) (num_value 1); Call SEARCH (num_key 1) []] (dpu w)) w)
      (requests_of (dpu w) [Call INSERT (num_key 1) (num_value 1); Call SEARCH (num_key 1) []]) end_request.
Proof.
  apply (@dpu_store_refines busy_threads 3 12345 67890 1 2 raw_dpu raw_host
           [Call INSERT (num_key 1) (num_value 1); Call SEARCH (num_key 1) []]); [done|done|lia|done].
Defined.

(** A state to start from. *)
Lemma booted_store (E : Env) : calm -> exists w, boot 3 12345 67890 1 2 (blank raw_dpu raw_host) = Ret (tt, w) /\
  store ∅ ∅ (initial 3) 3 w /\ f_seed_ (dpu w) = 12345 /\ s_seed_ (dpu w) = 67890 /\ load_reached (dpu w) = false.
Proof.
  intros Hcalm. pose proof (boot_ok 3 12345 67890 1 2 raw_dpu raw_host Hcalm ltac:(lia)) as Hk. apply kwp_inv in Hk as ([] & w & Hb & Hbo).
  exists w. split; [done|]. destruct Hbo as [Hs [Ef Es] (_ & Hsz & _) _]. do 3 (split; [done|]).
  unfold load_reached, GetCurrentLoadFactor. by rewrite Hsz, (store_geo _ _ _ _ _ Hs).
Qed.

(** ** Insertion and expansion *)

(** C14: when no expansion is due, an insertion stores its pair in one of the four
    buckets of its key and reports success, or all four are full: then the pair is
    dropped, whatever is reported, and every pair that was there stays. *)
Theorem insert_stores_or_full {E : Env} (S T : gset pair_) (B : blocks) (n : Z) (w : world) (request : Request) :
  calm -> store S T B n w -> hashed (dpu w) request -> load_reached (dpu w) = false ->
  kwp (ProcessInsert request) w (insertion S T B n w request).
Proof.
  intros Hfault Hs Hh Hl. unfold ProcessInsert. apply kwp_getd. unfold id. rewrite Hl. apply kwp_bind, kwp_ret.
  exact (insert_body_ok S T B n Hfault w request Hs Hh).
Qed.

Lemma insert_stores_or_full_witness : exists w request,
  @boot busy_threads 3 12345 67890 1 2 (blank raw_dpu raw_host) = Ret (tt, w) /\
  kwp (@ProcessInsert busy_threads request) w (insertion ∅ ∅ (initial 3) 3 w request).
Proof.
  destruct (booted_store busy_threads calm_busy) as (w & Hb & Hs & Ef & Es & Hl).
  exists w, (mkRequest INSERT (num_key 1) (num_value 1) (GenericType.Hash (num_key 1) 12345) (GenericType.Hash (num_key 1) 67890)).
  split; [done|]. apply (@insert_stores_or_full busy_threads ∅ ∅ (initial 3) 3 w); [exact calm_busy|exact Hs| |exact Hl].
  unfold hashed. rewrite Ef, Es. split; reflexivity.
Defined.

(** An expansion returns for every interleaving with the host; the new table
    is one level larger, and every pair that was in a bucket of the old top level
    is found in it. *)
Theorem expand_keeps_top_level {E : Env} (S T : gset pair_) (B : blocks) (n : Z) (w : world) :
  calm -> store S T B n w -> level_ok (n + 1) ->
  kwp Expand w (fun _ w' => store S (filter (in_top B n w) T) (shifted B n (next_blk w)) (n + 1) w' /\
    replies w' = replies w /\ carried (dpu w) (dpu w')).
Proof. intros Hfault Hs Hn. by apply Expand_ok. Qed.

Lemma expand_keeps_top_level_witness : exists w,
  @boot busy_threads 3 12345 67890 1 2 (blank raw_dpu raw_host) = Ret (tt, w) /\
  kwp (@Expand busy_threads) w (fun _ w' =>
    store ∅ (filter (in_top (initial 3) 3 w) ∅) (shifted (initial 3) 3 (next_blk w)) 4 w' /\
    replies w' = replies w /\ carried (dpu w) (dpu w')).
Proof.
  destruct (booted_store busy_threads calm_busy) as (w & Hb & Hs & _). exists w. split; [done|].
  apply (@expand_keeps_top_level busy_threads ∅ ∅ (initial 3) 3 w); [exact calm_busy|exact Hs|]. unfold level_ok, MAX_LEVEL. lia.
Defined.

(** ** Addresses *)

(** C38: the client and the offset that [GetClientBucket] computes for a bucket
    lie within the memory that this client has imported, at the place of the bucket
    in the host's memory, and no two buckets share them. *)
Theorem bucket_address_exact (B : blocks) (n b b' : Z) :
  level_ok n -> distinct B -> valid B n b -> valid B n b' ->
  (exists r, remotes_of B n !! client_of n b = Some (Some r) /\ blk r.1 = (place B n b).1 /\
     off r.1 + offset_of n b = Z.of_nat (place B n b).2 * sizeof_FixedBucket /\
     0 <= offset_of n b /\ offset_of n b + sizeof_FixedBucket <= r.2) /\
  (GetClientBucket (geo_at n) b = GetClientBucket (geo_at n) b' -> b = b').
Proof.
  intros Hn HB Hb Hb'. destruct (client_reaches B n b Hn Hb) as (_ & r & H1 & H2 & H3 & H4 & H5 & H6).
  split; [by exists r|]. intros Heq. destruct (client_reaches B n b' Hn Hb') as (_ & r' & G1 & G2 & G3 & _).
  unfold client_of, offset_of in *. rewrite Heq in *. rewrite G1 in H1. injection H1 as ->.
  apply (place_inj B n); [done..|]. apply injective_projections; [congruence|]. unfold sizeof_FixedBucket in *. lia.
Qed.

Lemma bucket_address_exact_witness :
  GetClientBucket (geo_at 3) 0 = (0, 0) /\ GetClientBucket (geo_at 3) 11 = (7, 128) /\
  (GetClientBucket (geo_at 3) 0 = GetClientBucket (geo_at 3) 11 -> 0 = 11).
Proof.
  split; [done|]. split; [done|].
  apply (bucket_address_exact (initial 3) 3 0 11); [by split|by split|left; by split|left; by split].
Defined.

(** ** Buckets *)

(** C39: the operations on a bucket keep it well formed, four slots each in use or
    free, and change the pairs it holds as they should: a search returns a pair of
    the bucket exactly if there is one with the key, an insertion adds its pair
    unless all four slots are used, a deletion removes one pair with the key, and an
    update changes the value of one. *)
Theorem bucket_operations_typed (b : LevelBucket) (k v : list Z) (d : bool) :
  wf_bucket b ->
  (Count b <= ASSOC_NUM)%nat /\ Count b = length (entries b) /\
  (match SearchSlot b k with Some v' => (k, v') ∈ entries b | None => forall v', (k, v') ∉ entries b end) /\
  (match InsertSlot b k v d with
   | (true, b', d') => wf_bucket b' /\ entries b' ≡ₚ (k, v) :: entries b /\ d' = true
   | (false, b', d') => b' = b /\ d' = d /\ Count b = ASSOC_NUM
   end) /\
  (match DeleteSlot b k d with
   | (true, b', d') => wf_bucket b' /\ (exists v', entries b ≡ₚ (k, v') :: entries b') /\ d' = true
   | (false, b', d') => b' = b /\ d' = d /\ forall v', (k, v') ∉ entries b
   end) /\
  (match UpdateSlot b k v d with
   | (true, b', d') => wf_bucket b' /\
       (exists v' rest, entries b ≡ₚ (k, v') :: rest /\ entries b' ≡ₚ (k, v) :: rest) /\ d' = d || bool_decide (b' <> b)
   | (false, b', d') => b' = b /\ d' = d /\ forall v', (k, v') ∉ entries b
   end).
Proof.
  intros Hb. split; [by apply Count_le|]. split; [by apply Count_entries|]. split; [by apply SearchSlot_correct|].
  split; [|split; [by apply DeleteSlot_correct|by apply UpdateSlot_correct]].
  pose proof (InsertSlot_correct b k v d Hb) as Hi. destruct (InsertSlot b k v d) as [[[|] b'] d']; [|done]. tauto.
Qed.

Lemma bucket_operations_typed_witness :
  wf_bucket zero_bucket /\ (Count zero_bucket <= ASSOC_NUM)%nat /\ SearchSlot zero_bucket (num_key 1) = None.
Proof.
  split; [apply zero_bucket_wf|]. split; [|done].
  apply (bucket_operations_typed zero_bucket (num_key 1) (num_value 1) false zero_bucket_wf).
Defined.

(** ** Losses *)

(** The move that makes room drops the pair it makes room for. Key 3 is in a
    bucket of key 1; the other fifteen slots of that key's buckets are filled, and
    key 20 has the same buckets. Its insertion moves key 3 away and counts as
    successful, with 17 pairs, but a search does not find it. *)
Theorem move_drops_the_inserted_pair :
  run_calls lazy_threads 3
    (calls_of INSERT (3%nat :: replicate 15 1%nat ++ [20%nat]) ++ calls_of SEARCH [3%nat; 1%nat; 20%nat]) =
  Some (17, 3, [Some (GenericType.ToString (num_value 3)); Some (GenericType.ToString (num_value 1)); None]).
Proof. vm_compute. reflexivity. Qed.

(** An expansion drops the pairs of the old bottom level. Of the keys 1 to 50,
    inserted into a table of level 3, 36 are found afterwards. *)
Theorem expansion_drops_the_bottom_level :
  (fun r => (r.1.1, r.1.2, length (filter (fun x => is_Some x) r.2))) <$>
    run_calls lazy_threads 3 (calls_of INSERT (seq 1 50) ++ calls_of SEARCH (seq 1 50)) =
  Some (50, 4, 36%nat).
Proof. vm_compute. reflexivity. Qed.

(** A deletion that finds its key in a fetched bucket leaves the other fetches
    behind: their frames are never entered into the table, and when one is reused
    the entry of another frame with the same bucket is erased. Key 97 is inserted
    and found; after more searches it is not found any more. *)
Theorem deletion_loses_another_key :
  (fun r => (r.2 !! 100%nat, last r.2)) <$>
    run_calls lazy_threads 7
      (calls_of INSERT [1%nat] ++ calls_of SEARCH (seq 300 70) ++ calls_of DELETE [1%nat] ++
       calls_of INSERT [24%nat; 97%nat] ++ calls_of SEARCH (seq 500 30) ++ calls_of SEARCH [97%nat] ++
       calls_of SEARCH (seq 600 30) ++ calls_of SEARCH [97%nat]) =
  Some (Some (Some (GenericType.ToString (num_value 97))), Some None).
Proof. vm_compute. reflexivity. Qed.
