(* ===== verification/KvRpc.v ===== *)
(** * KvRpc: the level hash table served over the comm channel

    levelkv/src/dpu/levelhashing_dpu.cpp and main.cpp,
    levelkv/src/host/levelhashing_host.cpp and main.cpp, and the channel of
    levelkv/src/common/comch_common.cpp. The DPU sends an operation to the
    host, which carries it out on its table ([LevelHash]) and sends the result
    back; the DPU polls the channel until the result is there.

    The two processes run side by side: a schedule is a list of turns, each a
    round of the polling loop of one of them. The channel delivers messages
    in order. A message that is late is one whose receiver has its turn late. *)

From stdpp Require Import gmap.
From S2P Require Import Prelude.
From S2P Require Import KvBucket.
From S2P Require Import KvState.
From S2P Require Import StringHash.
From S2P Require Import LevelHash.

Module Rpc.

(** What the environment decides: the state of the host's allocator when its
    [n]-th message is served, and the bytes that the uninitialised
    [search_result_] of the answer holds then; on the DPU, the uninitialised
    [value_] and the byte behind it in the [n]-th request, and the byte that
    follows the value in memory; whether copying one byte too many is noticed in
    that request; and how many polls the context of the DPU needs to become idle
    after [doca_ctx_stop]. *)
Class Machine := {
  allocators : nat -> Allocator;
  host_stack : nat -> list Z;
  dpu_stack : nat -> list Z;
  beyond : nat -> Z;
  overrun : nat -> bool;
  stopping : nat
}.

Inductive turn := DpuTurn | HostTurn.

(** What the library reports to the DPU's side of the channel. *)
Inductive event := Received (msg : ComchMsg) | Disconnected.

(** ** State *)

Definition LEVEL_START : Z := 5.

(** [connection_] is NULL or not. *)
Record Comch := mkComch { is_server_ : bool; connection_ : bool }.

Record LevelHashingDpu := mkDpu {
  dpu_comch_ : Comch;
  waiting_ : bool;
  searched_value_ : list Z;
  success_ : bool
}.

Record LevelHashingHost := mkHost {
  level_hashtable_ : level_hash;
  host_comch_ : Comch;
  stop_ : bool
}.

(** [running] says that the host has not closed its end; [served] and [sent]
    count the messages. *)
Record world := mkWorld {
  dpu : LevelHashingDpu;
  host : LevelHashingHost;
  running : bool;
  to_host : list ComchMsg;
  to_dpu : list event;
  served : nat;
  sent : nat
}.

Definition set_dpu (d : LevelHashingDpu) (w : world) : world :=
  mkWorld d (host w) (running w) (to_host w) (to_dpu w) (served w) (sent w).
Definition set_host (h : LevelHashingHost) (w : world) : world :=
  mkWorld (dpu w) h (running w) (to_host w) (to_dpu w) (served w) (sent w).

(** ** The channel *)

(** [Comch::Send]: the server is the DPU. *)
Definition Send (c : Comch) (msg : ComchMsg) (w : world) : world :=
  if is_server_ c then
    mkWorld (dpu w) (host w) (running w) (to_host w ++ [msg]) (to_dpu w) (served w) (S (sent w))
  else
    mkWorld (dpu w) (host w) (running w) (to_host w) (to_dpu w ++ [Received msg]) (served w) (sent w).

(** The check that there was no connection before stands inside [ENSURE], which
    does nothing. *)
Definition server_connection_cb (d : LevelHashingDpu) : LevelHashingDpu :=
  mkDpu (mkComch (is_server_ (dpu_comch_ d)) true) (waiting_ d) (searched_value_ d) (success_ d).

Definition server_disconnection_cb (d : LevelHashingDpu) : LevelHashingDpu :=
  mkDpu (mkComch (is_server_ (dpu_comch_ d)) false) (waiting_ d) (searched_value_ d) (success_ d).

(** ** The callbacks *)

Definition comch_dpu_recv_callback (msg : ComchMsg) (d : LevelHashingDpu) : LevelHashingDpu :=
  match msg with
  | COMCH_MSG_OPERATION_RESULT success search_result =>
      if success then
        mkDpu (dpu_comch_ d) false (memcpy (searched_value_ d) search_result VALUE_LEN) true
      else mkDpu (dpu_comch_ d) false (searched_value_ d) false
  | _ => d
  end.

Definition Stop (h : LevelHashingHost) : LevelHashingHost :=
  mkHost (level_hashtable_ h) (host_comch_ h) true.

(** [uint8_t] to [bool]. *)
Definition to_bool (r : Z) : bool := negb (r =? 0).

Section machine.
Context {M : Machine}.

(** The operation of a message on the table, and the answer. *)
Definition serve (fuel : nat) (n : nat) (op_type : OprationType) (key value : list Z)
    (table : level_hash) : res (ComchMsg * level_hash) :=
  match op_type with
  | OP_INSERT =>
      '(r, table) ← @level_insert (allocators n) fuel table key value;
      Ret (COMCH_MSG_OPERATION_RESULT (to_bool r) (host_stack n), table)
  | OP_SEARCH =>
      match level_static_query table key with
      | Some r =>
          Ret (COMCH_MSG_OPERATION_RESULT true (memcpy (host_stack n) r VALUE_LEN), table)
      | None => Ret (COMCH_MSG_OPERATION_RESULT false (host_stack n), table)
      end
  end.

Definition comch_host_recv_callback (fuel : nat) (msg : ComchMsg) (w : world) : res world :=
  let h := host w in
  match msg with
  | COMCH_MSG_OPERATION op_type key value =>
      '(return_msg, table) ← serve fuel (served w) op_type key value (level_hashtable_ h);
      let w := mkWorld (dpu w) (mkHost table (host_comch_ h) (stop_ h)) (running w)
                 (to_host w) (to_dpu w) (S (served w)) (sent w) in
      Ret (Send (host_comch_ h) return_msg w)
  | COMCH_MSG_CONTROL EXIT => Ret (set_host (Stop h) w)
  | _ => Ret w
  end.

(** ** The polling loops *)

(** [Progress] of the DPU: at most one event. *)
Definition Progress (w : world) : world :=
  match to_dpu w with
  | [] => w
  | e :: es =>
      let w := mkWorld (dpu w) (host w) (running w) (to_host w) es (served w) (sent w) in
      match e with
      | Received msg => set_dpu (comch_dpu_recv_callback msg (dpu w)) w
      | Disconnected => set_dpu (server_disconnection_cb (dpu w)) w
      end
  end.

(** A turn of the host: a round of [LevelHashingHost::Run], or its end, after
    which the destructors close the connection. *)
Definition host_turn (fuel : nat) (w : world) : res world :=
  if negb (running w) then Ret w
  else if stop_ (host w) then
    Ret (mkWorld (dpu w) (host w) false (to_host w) (to_dpu w ++ [Disconnected]) (served w) (sent w))
  else match to_host w with
       | [] => Ret w
       | msg :: ms =>
           comch_host_recv_callback fuel msg
             (mkWorld (dpu w) (host w) (running w) ms (to_dpu w) (served w) (sent w))
       end.

(** A polling loop of the DPU while the host runs: [NoFuel] says that the
    schedule ended before the loop did. *)
Fixpoint poll_while (cond : LevelHashingDpu -> bool) (fuel : nat) (sched : list turn) (w : world)
  : res (world * list turn) :=
  if cond (dpu w) then
    match sched with
    | [] => NoFuel
    | DpuTurn :: sched => poll_while cond fuel sched (Progress w)
    | HostTurn :: sched => w ← host_turn fuel w; poll_while cond fuel sched w
    end
  else Ret (w, sched).

(** ** The calls *)

Definition set_waiting (b : bool) (d : LevelHashingDpu) : LevelHashingDpu :=
  mkDpu (dpu_comch_ d) b (searched_value_ d) (success_ d).

(** [waiting_ = true; Send(request); while (waiting_) Progress();] *)
Definition request (fuel : nat) (msg : ComchMsg) (sched : list turn) (w : world)
  : res (world * list turn) :=
  let w := set_dpu (set_waiting true (dpu w)) w in
  poll_while waiting_ fuel sched (Send (dpu_comch_ (dpu w)) msg w).

(** The callback receives the value or nothing. *)
Definition Search (fuel : nat) (key : list Z) (sched : list turn) (w : world)
  : res (option (list Z) * world * list turn) :=
  let msg := COMCH_MSG_OPERATION OP_SEARCH (take KEY_LEN key) (take VALUE_LEN (dpu_stack (sent w))) in
  '(w, sched) ← request fuel msg sched w;
  let d := dpu w in
  let answer := if success_ d then Some (take VALUE_LEN (searched_value_ d)) else None in
  let d := mkDpu (dpu_comch_ d) (waiting_ d) (replicate VALUE_LEN 0) false in
  Ret (answer, set_dpu d w, sched).

(** [memcpy(request_msg.op_msg_.value_, &value, KEY_LEN)]: the value and
    [value_] have [VALUE_LEN] bytes, one less than are copied, which is undefined
    behaviour. An implementation that notices it ([overrun]) may do anything; in
    one that just copies, the last byte comes from behind the value and goes to
    the padding behind [value_]. *)
Definition copied_value (n : nat) (value : list Z) : res (list Z) :=
  if overrun n then UB
  else Ret (take VALUE_LEN (memcpy (dpu_stack n) (value ++ [beyond n]) KEY_LEN)).

(** The result is the flag that is printed. *)
Definition Insert (fuel : nat) (key value : list Z) (sched : list turn) (w : world)
  : res (bool * world * list turn) :=
  value_ ← copied_value (sent w) value;
  '(w, sched) ← request fuel (COMCH_MSG_OPERATION OP_INSERT (take KEY_LEN key) value_) sched w;
  let d := dpu w in
  Ret (success_ d, set_dpu (mkDpu (dpu_comch_ d) (waiting_ d) (searched_value_ d) false) w, sched).

(** ** The programs *)

Inductive call := CallInsert (k v : list Z) | CallSearch (k : list Z).

(** What a call shows: the flag printed by [Insert], the argument of the
    callback of [Search]. *)
Inductive shown := Printed (success : bool) | Answer (o : option (list Z)).

Definition do_call (fuel : nat) (c : call) (sched : list turn) (w : world)
  : res (shown * world * list turn) :=
  match c with
  | CallInsert k v => '(b, w, sched) ← Insert fuel k v sched w; Ret (Printed b, w, sched)
  | CallSearch k => '(o, w, sched) ← Search fuel k sched w; Ret (Answer o, w, sched)
  end.

Fixpoint run_calls (fuel : nat) (cs : list call) (sched : list turn) (w : world)
  : res (list shown * world * list turn) :=
  match cs with
  | [] => Ret ([], w, sched)
  | c :: cs =>
      '(s, w, sched) ← do_call fuel c sched w;
      '(ss, w, sched) ← run_calls fuel cs sched w;
      Ret (s :: ss, w, sched)
  end.

(** The implicit conversions of a [size_t] to [FixedKey] and [FixedValue]; the
    numbers of [main] are short enough not to throw. *)
Definition fixed (N : nat) (n : Z) : list Z :=
  default [] (GenericType.construct N (GenericType.ConvertToString n)).

(** The two loops of the DPU's [main]. *)
Definition main_calls (n : nat) : list call :=
  map (fun i => CallInsert (fixed FixedKey_len (Z.of_nat i))
                  (fixed FixedValue_len (u64 (Z.of_nat i * 10)))) (upto n) ++
  map (fun i => CallSearch (fixed FixedKey_len (Z.of_nat i))) (upto n).

(** The loop that waits for the idle context, which is so after [n] polls. *)
Fixpoint wait_idle (n : nat) (fuel : nat) (sched : list turn) (w : world) : res (world * list turn) :=
  match n, sched with
  | O, _ => Ret (w, sched)
  | S _, [] => NoFuel
  | S n, DpuTurn :: sched => wait_idle n fuel sched (Progress w)
  | S n', HostTurn :: sched => w ← host_turn fuel w; wait_idle n fuel sched w
  end.

(** [~Comch] of the server: wait until the client has disconnected, stop the
    context and wait until it is idle. *)
Definition Comch_destroy (fuel : nat) (sched : list turn) (w : world) : res (world * list turn) :=
  '(w, sched) ← poll_while (fun d => connection_ (dpu_comch_ d)) fuel sched w;
  wait_idle stopping fuel sched w.

(** [main] of the DPU after the construction of the object. *)
Definition dpu_main (fuel : nat) (sched : list turn) (w : world) : res (list shown * world) :=
  '(ss, w, sched) ← run_calls fuel (main_calls 200) sched w;
  '(w, _) ← Comch_destroy fuel sched w;
  Ret (ss, w).

(** The two constructors. That of the DPU returns when the host has connected. *)
Definition LevelHashingDpu_construct : LevelHashingDpu :=
  server_connection_cb (mkDpu (mkComch true false) false (replicate VALUE_LEN 0) false).

Definition LevelHashingHost_construct (fuel : nat) (rand : nat -> Z) : res LevelHashingHost :=
  table ← @level_init (allocators 0) fuel rand LEVEL_START;
  Ret (mkHost table (mkComch false true) false).

Definition boot (fuel : nat) (rand : nat -> Z) : res world :=
  h ← LevelHashingHost_construct fuel rand;
  Ret (mkWorld LevelHashingDpu_construct h true [] [] 1 0).

End machine.
End Rpc.
