(* ===== verification/KvRpcProps.v ===== *)
(** * KvRpcProps: the store served over the comm channel is correct

    The refinement of the finite map by the calls of the DPU composes the
    theorem on the table ([LevelHashSpec]) with the protocol of the channel;
    that the two [main] functions never end is shown after it. *)

From stdpp Require Import gmap.
From S2P Require Import Prelude.
From S2P Require Import KvBucket.
From S2P Require Import KvState.
From S2P Require Import StringHash.
From S2P Require Import LevelHash.
From S2P Require Import LevelHashInv.
From S2P Require Import LevelHashResize.
From S2P Require Import LevelHashSpec.
From S2P Require Import LevelHashProps.
From S2P Require Import KvRpc.
Import Rpc.

#[local] Opaque StringHash.hash_ level_insert level_static_query.

(** ** Specification *)

(** The call of the table behind a call of the DPU, and what its reply shows:
    the code of [level_insert] is 0 when it succeeds. *)
Definition op_of (c : call) : op :=
  match c with CallInsert k v => OpInsert k v | CallSearch k => OpStaticQuery k end.

Definition shown_of (r : reply) : shown :=
  match r with Code c => Printed (to_bool c) | Found o => Answer o end.

(** A [FixedKey] with a terminator. *)
Definition call_ok (c : call) : Prop :=
  match c with CallInsert k _ | CallSearch k => valid_key k end.

(** How often the schedule lets the host and then the DPU run; [h] says that
    the host has had its turn. *)
Fixpoint rounds (h : bool) (sched : list turn) : nat :=
  match sched with
  | [] => 0
  | HostTurn :: sched => rounds true sched
  | DpuTurn :: sched => if h then S (rounds false sched) else rounds false sched
  end.

(** ** States between and within calls *)

Definition state (waiting : bool) (t : level_hash) (th : list ComchMsg) (td : list event)
    (sv se : nat) : world :=
  mkWorld (mkDpu (mkComch true true) waiting (replicate VALUE_LEN 0) false)
    (mkHost t (mkComch false true) false) true th td sv se.

(** No call is under way, and the table represents [m]. *)
Definition quiet (w : world) (m : dict) : Prop :=
  exists t sv se, w = state false t [] [] sv se /\ represents t m.

(** The message that carries a reply. *)
Definition answer_of (r : reply) (stack : list Z) : ComchMsg :=
  match r with
  | Code c => COMCH_MSG_OPERATION_RESULT (to_bool c) stack
  | Found (Some v) => COMCH_MSG_OPERATION_RESULT true (memcpy stack v VALUE_LEN)
  | Found None => COMCH_MSG_OPERATION_RESULT false stack
  end.

Definition request_of (o : op) (m : ComchMsg) : Prop :=
  match o with
  | OpInsert k v => m = COMCH_MSG_OPERATION OP_INSERT k v
  | OpStaticQuery k => exists v, m = COMCH_MSG_OPERATION OP_SEARCH k v
  | _ => False
  end.

Lemma poll_while_done cond fuel sched w :
  cond (dpu w) = false -> forall (M : Machine), poll_while cond fuel sched w = Ret (w, sched).
Proof. intros E M. destruct sched; simpl; by rewrite E. Qed.

(** When the overrun goes unnoticed, the byte behind the value that is copied
    with it does not reach the table. *)
Lemma copied_value_whole (M : Machine) n v : overrun n = false -> valid_value v -> copied_value n v = Ret v.
Proof.
  intros Ho Hv. unfold copied_value, memcpy. rewrite Ho. f_equal. rewrite (take_ge (v ++ _)).
  - rewrite <- app_assoc, take_app_le by (rewrite Hv; lia). apply take_ge. rewrite Hv. lia.
  - rewrite length_app, Hv. cbv. lia.
Qed.

(** The values of a represented map have their full size. *)
Lemma level_items_value fs ss n bs k v :
  level_ok fs ss n bs -> (k, v) ∈ level_items bs -> valid_value v.
Proof.
  intros Hok (idx & j & Hr & Hj & _ & _ & ->)%(elem_of_level_items fs ss n bs Hok).
  apply (slot_at_ok bs (ok_buckets _ _ _ _ Hok) idx j Hr Hj).
Qed.

Lemma represents_value t m k v : represents t m -> m !! k = Some v -> valid_value v.
Proof.
  intros HR Hk. pose proof (rep_inv t m HR) as HI. apply (represents_lookup t m HR) in Hk.
  apply elem_of_app in Hk as [Hk|Hk]; eapply level_items_value; try exact Hk; apply HI.
Qed.

Section protocol.
Context {M : Machine}.
Context (fuel : nat).
Context (Hfuel : 64 <= Z.of_nat fuel).
Context (Halloc : forall n, AllocatorOk (allocators n)).
Context (Hstack : forall n, length (host_stack n) = VALUE_LEN).

(** The answer is on its way: the next turn of the DPU ends the waiting. *)
Lemma poll_answered sched : forall t b r sv se,
  (1 <= rounds true sched)%nat ->
  exists rest,
    poll_while waiting_ fuel sched (state true t [] [Received (COMCH_MSG_OPERATION_RESULT b r)] sv se)
      = Ret (set_dpu (comch_dpu_recv_callback (COMCH_MSG_OPERATION_RESULT b r)
                        (dpu (state true t [] [] sv se))) (state true t [] [] sv se), rest) /\
    rounds true sched = S (rounds false rest).
Proof using.
  induction sched as [|[] sched IH]; intros t b r sv se Hr; [simpl in Hr; lia|..].
  - exists sched. split; [|done]. cbn [poll_while state dpu waiting_].
    rewrite poll_while_done by (by destruct b). done.
  - destruct (IH t b r sv se Hr) as (rest & E & Hrest). exists rest. split; [|done].
    cbn [poll_while state dpu waiting_]. done.
Qed.

(** The host carries out an operation as the table does. *)
Lemma serve_step o msg t th td sv se :
  request_of o msg ->
  comch_host_recv_callback fuel msg (state true t th td sv se)
  = ('(r, t') ← @impl_step (allocators sv) fuel o t;
     Ret (state true t' th (td ++ [Received (answer_of r (host_stack sv))]) (S sv) se)).
Proof using.
  destruct o as [k v| | |k|]; cbn [request_of]; try done.
  - intros ->. cbn. by destruct (level_insert _ _ _ _) as [[]| | |].
  - intros [v ->]. cbn. by destruct (level_static_query t k).
Qed.

(** A request in the channel is answered, and the waiting ends. *)
Lemma poll_asked sched o msg : forall t sv se m,
  request_of o msg -> represents t m -> legal o m -> (1 <= rounds false sched)%nat ->
  falls_short (allocators sv) fuel t o \/
  exists t' b r rest, answer_of (spec_step o m).1 (host_stack sv) = COMCH_MSG_OPERATION_RESULT b r /\
    poll_while waiting_ fuel sched (state true t [msg] [] sv se) =
      Ret (set_dpu (comch_dpu_recv_callback (COMCH_MSG_OPERATION_RESULT b r)
                      (dpu (state true t' [] [] (S sv) se))) (state true t' [] [] (S sv) se), rest) /\
    represents t' (spec_step o m).2 /\ rounds false sched = S (rounds false rest).
Proof using Halloc Hfuel.
  induction sched as [|[] sched IH]; intros t sv se m Hreq HR Hlegal Hr; [simpl in Hr; lia|..].
  - cbn [poll_while state dpu waiting_]. cbn [rounds] in *. apply (IH t sv se m); done.
  - cbn [poll_while state dpu waiting_ host_turn running negb stop_ host to_host].
    change (mkWorld _ _ _ [] _ _ _) with (state true t [] [] sv se).
    rewrite (serve_step o msg) by done.
    destruct (impl_step_refines fuel Hfuel (allocators sv) o t m (Halloc sv) HR Hlegal)
      as [?|(r0 & t' & -> & -> & HR')]; [by left|right].
    cbn [mbind res_bind app].
    assert (exists b r, answer_of (spec_step o m).1 (host_stack sv) = COMCH_MSG_OPERATION_RESULT b r)
      as (b & r & E) by (destruct (spec_step o m).1 as [|[]]; by eexists _, _).
    rewrite E. destruct (poll_answered sched t' b r (S sv) se Hr) as (rest & -> & Hrest).
    by exists t', b, r, rest.
Qed.

(** A call at which the store falls short of the map: an insertion whose
    overrun is noticed, or at which the host's table falls short. *)
Definition call_falls_short (c : call) (w : world) : Prop :=
  match c with
  | CallInsert k v => overrun (sent w) = true \/
      falls_short (allocators (served w)) fuel (level_hashtable_ (host w)) (OpInsert k v)
  | CallSearch _ => False
  end.

(** One call: it shows what the map shows. *)
Definition call_done {R} (view : R -> shown) (c : call) (sched : list turn) (m : dict)
    (p : res (R * world * list turn)) : Prop :=
  exists s w' rest, p = Ret (s, w', rest) /\
  view s = shown_of (spec_step (op_of c) m).1 /\ quiet w' (spec_step (op_of c) m).2 /\
  rounds false sched = S (rounds false rest).

Lemma Insert_refines k v sched w m :
  quiet w m -> legal (OpInsert k v) m -> (1 <= rounds false sched)%nat ->
  call_falls_short (CallInsert k v) w \/
  call_done Printed (CallInsert k v) sched m (Insert fuel k v sched w).
Proof using Halloc Hfuel.
  intros (t & sv & se & -> & HR) Hlegal Hr. pose proof Hlegal as (Hk & Hv & _).
  unfold Insert, request. cbn [sent state call_falls_short served host level_hashtable_].
  rewrite take_ge by (rewrite (proj1 Hk); done).
  destruct (overrun se) eqn:Ho; [by left; left|].
  rewrite copied_value_whole by done. cbn [mbind res_bind].
  destruct (poll_asked sched (OpInsert k v) _ t sv (S se) m eq_refl HR Hlegal Hr)
    as [?|(t' & b & r & rest & [= <- <-] & E & HR' & Hrest)]; [by left; right|right].
  change (poll_while _ _ _ _) with (poll_while waiting_ fuel sched
    (state true t [COMCH_MSG_OPERATION OP_INSERT k v] [] sv (S se))). rewrite E.
  do 3 eexists. split; [done|]. split; [done|]. split; [|done]. by exists t', (S sv), (S se).
Qed.

Lemma Search_refines k sched w m :
  valid_key k -> quiet w m -> (1 <= rounds false sched)%nat ->
  call_done Answer (CallSearch k) sched m (Search fuel k sched w).
Proof using All.
  intros [Hk _] (t & sv & se & -> & HR) Hr. unfold Search, request. cbn [sent state].
  rewrite take_ge by (rewrite Hk; done). set (msg := COMCH_MSG_OPERATION _ _ _).
  destruct (poll_asked sched (OpStaticQuery k) msg t sv (S se) m ltac:(by eexists) HR I Hr)
    as [(? & ? & ? & _)|(t' & b & r & rest & E & Ep & HR' & Hrest)]; [done|].
  change (poll_while _ _ _ _) with (poll_while waiting_ fuel sched (state true t [msg] [] sv (S se))).
  rewrite Ep. cbn [spec_step fst snd answer_of mbind res_bind] in *.
  do 3 eexists. split; [done|]. split; [|split; [|done]]; [|by exists t', (S sv), (S se); destruct b].
  cbn [op_of spec_step fst shown_of].
  destruct (m !! cstr k) as [v|] eqn:Ek; injection E as <- <-; [|done].
  pose proof (represents_value t m _ _ HR Ek) as Hv.
  cbn [dpu set_dpu success_ searched_value_ comch_dpu_recv_callback state].
  rewrite (memcpy_whole (host_stack sv) v), memcpy_whole by done. by rewrite take_ge by (rewrite Hv; done).
Qed.

Lemma do_call_refines c sched w m :
  call_ok c -> quiet w m -> legal (op_of c) m -> (1 <= rounds false sched)%nat ->
  call_falls_short c w \/ call_done id c sched m (do_call fuel c sched w).
Proof using All.
  intros Hc HQ Hl Hr. destruct c as [k v|k]; cbn [do_call].
  - destruct (Insert_refines k v sched w m HQ Hl Hr) as [?|(s & w' & rest & -> & H)]; [by left|right].
    by exists (Printed s), w', rest.
  - right. destruct (Search_refines k sched w m Hc HQ Hr) as (s & w' & rest & -> & H).
    by exists (Answer s), w', rest.
Qed.

Lemma run_calls_refines cs : forall sched w m,
  Forall call_ok cs -> quiet w m -> legal_run (op_of <$> cs) m -> (length cs <= rounds false sched)%nat ->
  exists done_ left_ w' sched', cs = done_ ++ left_ /\
    run_calls fuel done_ sched w = Ret (shown_of <$> (spec_run (op_of <$> done_) m).1, w', sched') /\
    quiet w' (spec_run (op_of <$> done_) m).2 /\
    match left_ with [] => True | c :: _ => call_falls_short c w' end.
Proof using All.
  induction cs as [|c cs IH]; intros sched w m Hok HQ Hlegal Hr; [by exists [], [], w, sched|].
  apply Forall_cons in Hok as [Hc Hok]. destruct Hlegal as [Hl Hlegal]. simpl length in Hr.
  destruct (do_call_refines c sched w m Hc HQ Hl ltac:(lia)) as [Hs|(s & w1 & rest & E & Es & HQ1 & Hrest)].
  { exists [], (c :: cs), w, sched. by rewrite (app_nil_l (c :: cs)). }
  destruct (IH rest w1 _ Hok HQ1 Hlegal ltac:(lia)) as (done_ & left_ & w' & sched' & -> & Hrun & HQ' & Hend).
  exists (c :: done_), left_, w', sched'. rewrite fmap_cons. cbn [run_calls spec_run]. rewrite E. unfold id in Es. subst s.
  cbn [mbind res_bind]. destruct (spec_step (op_of c) m) as [r1 m1]. cbn [fst snd] in *.
  unfold mbind, res_bind in *. rewrite Hrun.
  destruct (spec_run (op_of <$> done_) m1) as [rs m2]. split_and!; done.
Qed.
End protocol.

(** ** The channel stays open *)

(** Nothing has been sent that ends the host or the connection. *)
Record open_channel (w : world) : Prop := {
  oc_server : is_server_ (dpu_comch_ (dpu w)) = true;
  oc_client : is_server_ (host_comch_ (host w)) = false;
  oc_connection : connection_ (dpu_comch_ (dpu w)) = true;
  oc_stop : stop_ (host w) = false;
  oc_to_host : COMCH_MSG_CONTROL EXIT ∉ to_host w;
  oc_to_dpu : Disconnected ∉ to_dpu w
}.

Lemma quiet_open w m : quiet w m -> open_channel w.
Proof. intros (t & sv & se & -> & _). split; try done; apply not_elem_of_nil. Qed.

Lemma Progress_open w : open_channel w -> open_channel (Progress w).
Proof.
  intros []. unfold Progress. destruct (to_dpu w) as [|e es] eqn:E; [by split; rewrite ?E|].
  apply not_elem_of_cons in oc_to_dpu0 as [? ?].
  destruct e as [msg|]; [|done]. destruct msg as [| | | |[] r]; by split.
Qed.

(** A property of every normal return. *)
Abbreviation returns Q := (outcome Q (fun _ => True)).

Lemma returns_mono {A} (Q R : A -> Prop) (p : res A) :
  (forall a, Q a -> R a) -> returns Q p -> returns R p.
Proof. destruct p; simpl; auto. Qed.

Lemma returns_bind {A B} (Q : A -> Prop) (R : B -> Prop) (p : res A) (k : A -> res B) :
  returns Q p -> (forall a, Q a -> returns R (k a)) -> returns R (p ≫= k).
Proof. destruct p; simpl; auto. Qed.

Section open.
Context {M : Machine}.
Context (fuel : nat).

Lemma host_turn_open w : open_channel w -> returns open_channel (host_turn fuel w).
Proof using.
  intros []. unfold host_turn. rewrite oc_stop0. destruct (running w); [|by split].
  cbn [negb]. destruct (to_host w) as [|msg ms] eqn:E; [by split; rewrite ?E|].
  apply not_elem_of_cons in oc_to_host0 as [Hmsg Hms].
  destruct msg as [| |[]|op_type k v|]; cbn; try done; try by split.
  destruct (serve _ _ _ _ _ _) as [[return_msg t]| | |]; cbn; try done.
  unfold Send. rewrite oc_client0. split; cbn; try done.
  by apply not_elem_of_app; split; [|apply not_elem_of_cons; split; [|apply not_elem_of_nil]].
Qed.

Lemma poll_while_open cond sched : forall w,
  open_channel w ->
  returns (fun '(w', _) => open_channel w' /\ cond (dpu w') = false) (poll_while cond fuel sched w).
Proof using.
  induction sched as [|[] sched IH]; intros w Hw; cbn [poll_while];
    destruct (cond (dpu w)) eqn:E; try done.
  - by apply IH, Progress_open.
  - eapply returns_bind; [by apply host_turn_open|]. apply IH.
Qed.

Lemma request_open msg sched w :
  open_channel w -> msg <> COMCH_MSG_CONTROL EXIT ->
  returns (fun '(w', _) => open_channel w') (request fuel msg sched w).
Proof using.
  intros [] Hmsg. unfold request, Send. cbn [dpu set_dpu set_waiting dpu_comch_].
  rewrite oc_server0. eapply returns_mono; [|apply poll_while_open]; [by intros [] []|].
  split; cbn; try done.
  by apply not_elem_of_app; split; [|apply not_elem_of_cons; split; [|apply not_elem_of_nil]].
Qed.

Lemma do_call_open c sched w :
  open_channel w -> returns (fun '(_, w', _) => open_channel w') (do_call fuel c sched w).
Proof using.
  intros Hw. destruct c; cbn [do_call]; unfold Insert, Search.
  all: apply (returns_bind (fun '(_, w', _) => open_channel w')); [|by intros [[? ?] ?]].
  1: apply (returns_bind (fun _ => True)); [by destruct (copied_value _ _)|intros value_ _].
  all: eapply returns_bind; [by apply request_open|].
  all: intros [w' rest] []; by split.
Qed.

Lemma run_calls_open cs : forall sched w,
  open_channel w -> returns (fun '(_, w', _) => open_channel w') (run_calls fuel cs sched w).
Proof using.
  induction cs as [|c cs IH]; intros sched w Hw; [done|]. cbn [run_calls].
  eapply returns_bind; [by apply do_call_open|]. intros [[s w1] rest] Hw1.
  eapply returns_bind; [by apply IH|]. by intros [[ss w2] rest2].
Qed.

(** The destructor of the channel waits for a disconnection that never comes. *)
Lemma Comch_destroy_waits sched w :
  open_channel w -> returns (fun _ => False) (Comch_destroy fuel sched w).
Proof using.
  intros Hw. eapply returns_bind; [by apply poll_while_open|].
  intros [w' rest] [[] E]. congruence.
Qed.
End open.

(** A closed connection stays closed while the context stops. *)
Lemma wait_idle_closed (M : Machine) fuel n : forall w,
  running w = false -> exists w', wait_idle n fuel (replicate n DpuTurn) w = Ret (w', []) /\ running w' = false.
Proof.
  induction n as [|n IH]; intros w Hw; [by exists w|]. cbn [replicate wait_idle].
  apply IH. unfold Progress. by destruct (to_dpu w) as [|[]].
Qed.

(** ** Deciding whether a list of calls is legal *)

#[export] Instance valid_key_dec k : Decision (valid_key k).
Proof. unfold valid_key. apply _. Defined.

#[export] Instance call_ok_dec c : Decision (call_ok c).
Proof. destruct c; apply _. Defined.

#[export] Instance legal_dec o m : Decision (legal o m).
Proof. destruct o; unfold legal, valid_value; apply _. Defined.

#[export] Instance legal_run_dec os : forall m, Decision (legal_run os m).
Proof. induction os as [|o os IH]; intros m; cbn [legal_run]; [apply _|]. apply and_dec; apply _ || apply IH. Defined.

(** ** Example machine *)

Definition demo_machine : Machine := {|
  allocators := fun _ => demo_alloc (2 ^ 20);
  host_stack := fun _ => replicate VALUE_LEN 255;
  dpu_stack := fun _ => replicate KEY_LEN 7;
  beyond := fun _ => 99;
  overrun := fun _ => false;
  stopping := 2
|}.

Lemma demo_machine_ok n : AllocatorOk (@allocators demo_machine n).
Proof. apply demo_ok. Qed.

Definition demo_calls : list call :=
  [CallInsert (demo_key 1) (demo_value 10); CallSearch (demo_key 1); CallSearch (demo_key 2)].

(** Turns in no particular order. *)
Definition demo_sched : list turn :=
  [DpuTurn; HostTurn; HostTurn; DpuTurn; DpuTurn; HostTurn; DpuTurn; HostTurn; HostTurn; DpuTurn].

Definition demo_world : world := state false (demo_table 2) [] [] 1 0.

Lemma demo_quiet : quiet demo_world ∅.
Proof. exists (demo_table 2), 1%nat, 0%nat. split; [done|]. by apply demo_represents. Qed.

(** ** Theorems *)

(** C16: the store behind the comm channel implements a finite map, up to the
    first insertion that goes wrong. Whatever the interleaving of the two
    programs, as long as the host and then the DPU have a turn as often as there
    are calls, the calls of a sequence of insertions of absent keys and searches
    return, each search with the value the map has for the key, and the table of
    the host represents the resulting map; each insertion shows the code of
    [level_insert], 0 for success. The uninitialised parts of the messages have
    no influence. All calls do, or those before the first insertion whose copy of
    a byte too many is noticed, or whose expansion of the table ends the host with
    [exit(1)], uses the pointer of a failed allocation or is given memory with
    tokens left in it. *)
Theorem rpc_refines_map (M : Machine) (fuel : nat) (cs : list call) (sched : list turn)
    (w : world) (m : dict) :
  64 <= Z.of_nat fuel -> (forall n, AllocatorOk (allocators n)) ->
  (forall n, length (host_stack n) = VALUE_LEN) ->
  quiet w m -> Forall call_ok cs -> legal_run (op_of <$> cs) m ->
  (length cs <= rounds false sched)%nat ->
  exists done_ left_ w' sched', cs = done_ ++ left_ /\
    run_calls fuel done_ sched w = Ret (shown_of <$> (spec_run (op_of <$> done_) m).1, w', sched') /\
    quiet w' (spec_run (op_of <$> done_) m).2 /\
    match left_ with [] => True | c :: _ => call_falls_short fuel c w' end.
Proof. intros Hf HA HS HQ Hok Hl Hr. by apply run_calls_refines. Qed.

Lemma rpc_refines_map_witness :
  replies_of (@run_calls demo_machine 64 demo_calls demo_sched demo_world ≫= fun '(out, w', _) => Ret (out, w'))
    = Some [Printed false; Answer (Some (demo_value 10)); Answer None] /\
  exists done_ left_ w' sched', demo_calls = done_ ++ left_ /\
    @run_calls demo_machine 64 done_ demo_sched demo_world =
      Ret (shown_of <$> (spec_run (op_of <$> done_) ∅).1, w', sched') /\
    quiet w' (spec_run (op_of <$> done_) ∅).2 /\
    match left_ with [] => True | c :: _ => @call_falls_short demo_machine 64 c w' end.
Proof.
  split; [vm_compute; reflexivity|].
  apply (rpc_refines_map demo_machine 64 demo_calls demo_sched demo_world ∅).
  - done.
  - apply demo_machine_ok.
  - done.
  - apply demo_quiet.
  - apply (bool_decide_unpack _). vm_compute. exact I.
  - apply (bool_decide_unpack _). vm_compute. exact I.
  - vm_compute. lia.
Defined.

(** C40: the programs do not end. Nobody sends the message that ends the host's
    loop, and the destructor of the DPU's channel waits for the host to close
    the connection: for no interleaving does [main] of the DPU return. Had an
    EXIT message been sent, two turns of the host and one of the DPU, and those
    that its context needs to stop, would be enough. *)
Theorem dpu_main_never_returns (M : Machine) (fuel : nat) (w : world) (m : dict) :
  quiet w m ->
  (forall sched out w', dpu_main fuel sched w <> Ret (out, w')) /\
  exists w', Comch_destroy fuel ([HostTurn; HostTurn; DpuTurn] ++ replicate stopping DpuTurn)
               (Send (dpu_comch_ (dpu w)) (COMCH_MSG_CONTROL EXIT) w) = Ret (w', []) /\
             running w' = false.
Proof.
  intros HQ. split.
  - intros sched out w' E.
    assert (returns (fun _ => False) (dpu_main fuel sched w)) as H; [|by rewrite E in H].
    eapply returns_bind; [by eapply run_calls_open, quiet_open|]. intros [[ss w1] rest] Hw1.
    eapply returns_bind; [by apply Comch_destroy_waits|]. done.
  - destruct HQ as (t & sv & se & -> & _). unfold Comch_destroy, Send, state. cbn -[replicate wait_idle].
    rewrite poll_while_done by done. cbn [mbind res_bind]. by apply wait_idle_closed.
Qed.

Lemma dpu_main_never_returns_witness :
  (forall sched out w', @dpu_main demo_machine 55 sched demo_world <> Ret (out, w')) /\
  exists w', @Comch_destroy demo_machine 55
               ([HostTurn; HostTurn; DpuTurn] ++ replicate (@stopping demo_machine) DpuTurn)
               (Send (dpu_comch_ (dpu demo_world)) (COMCH_MSG_CONTROL EXIT) demo_world) = Ret (w', []) /\
             running w' = false.
Proof. apply (dpu_main_never_returns demo_machine 55 demo_world ∅). apply demo_quiet. Defined.
