(* ===== verification/DbtxMem.v ===== *)
(** * DbtxMem: the shared memory of DrTM+H and the threads that work on it

    Transactions of src/sys/drtmh work on records ([MemNode] of
    memstore/memstore.h) with single loads, stores and compare-and-swaps.
    [op] lists these accesses, [exec] says what each does to memory, a [prog] is
    a thread that makes them one by one, and [run_sched] runs threads in the
    order of a schedule: any interleaving of accesses is some schedule.

    [awp] is the program logic for such threads: an invariant relates memory to a
    ghost state, every thread owns a part of it, and a thread is verified
    against what the others may do under the invariant. [sched_sound] is its
    soundness theorem. *)

From stdpp Require Import gmap.
From S2P Require Import Prelude.

(** ** Memory *)

(** A record. The fields that the transactions of dbtx.cc do not use are left
    out. *)
Record MemNode := {
  n_lock : Z;
  n_seq : Z;
  n_value : option N (* NULL, or the address of the value *)
}.

(** MemNode::MemNode() *)
Definition MemNode_init : MemNode := {| n_lock := 0; n_seq := 0; n_value := None |}.

(** Records and values are allocated on the heap; a value is its bytes behind
    the META_LENGTH bytes of its header. [m_stores] and [m_indexs] are the
    primary and secondary indexes of a MemDB. *)
Record memory := {
  m_nodes : gmap N MemNode;
  m_bufs : gmap N (list Z);
  m_stores : gmap (Z * Z) N;
  m_indexs : gmap (Z * Z) N;
  m_links : gmap N Z; (* sequence numbers of the leaves of the indexes *)
  m_next : N
}.

Definition set_node (n : N) (nd : MemNode) (m : memory) : memory :=
  {| m_nodes := <[n := nd]> (m_nodes m); m_bufs := m_bufs m; m_stores := m_stores m;
     m_indexs := m_indexs m; m_links := m_links m; m_next := m_next m |}.

Definition set_bufs (bs : gmap N (list Z)) (m : memory) : memory :=
  {| m_nodes := m_nodes m; m_bufs := bs; m_stores := m_stores m;
     m_indexs := m_indexs m; m_links := m_links m; m_next := m_next m |}.

(** ** Accesses *)

Inductive op : Type -> Type :=
| GetWithInsert (sec : bool) (tableid key : Z) : op N
| LoadSeq (n : N) : op Z
| StoreSeq (n : N) (v : Z) : op unit
| LoadLock (n : N) : op Z
| CasLock (n : N) (old new : Z) : op bool
| StoreLock (n : N) (v : Z) : op unit
| LoadValue (n : N) : op (option N)
| StoreValue (n : N) (p : option N) : op unit
| Malloc (bytes : list Z) : op N
| Free (p : N) : op unit
| LoadByte (p : N) (i : nat) : op Z
| StoreByte (p : N) (i : nat) (v : Z) : op unit
| LoadLink (l : N) : op Z.

(** Looking a record up, and creating it when the key is new. The indexes do it
    inside of a hardware transaction (RTMScope), hence in one step. *)
Definition get_with_insert (sec : bool) (k : Z * Z) (m : memory) : memory * N :=
  match (if sec then m_indexs m else m_stores m) !! k with
  | Some n => (m, n)
  | None =>
      let n := m_next m in
      ({| m_nodes := <[n := MemNode_init]> (m_nodes m); m_bufs := m_bufs m;
          m_stores := if sec then m_stores m else <[k := n]> (m_stores m);
          m_indexs := if sec then <[k := n]> (m_indexs m) else m_indexs m;
          m_links := m_links m;
          m_next := N.succ n |}, n)
  end.

Definition on_node {A} (n : N) (m : memory) (f : MemNode -> memory * A) : option (memory * A) :=
  f <$> m_nodes m !! n.

(** [None] is undefined behaviour: an access through a wild pointer. *)
Definition exec {A} (o : op A) (m : memory) : option (memory * A) :=
  match o with
  | GetWithInsert sec t k => Some (get_with_insert sec (t, k) m)
  | LoadSeq n => on_node n m (fun nd => (m, n_seq nd))
  | StoreSeq n v => on_node n m (fun nd =>
      (set_node n {| n_lock := n_lock nd; n_seq := u64 v; n_value := n_value nd |} m, tt))
  | LoadLock n => on_node n m (fun nd => (m, n_lock nd))
  | CasLock n old new => on_node n m (fun nd =>
      if n_lock nd =? old
      then (set_node n {| n_lock := new; n_seq := n_seq nd; n_value := n_value nd |} m, true)
      else (m, false))
  | StoreLock n v => on_node n m (fun nd =>
      (set_node n {| n_lock := v; n_seq := n_seq nd; n_value := n_value nd |} m, tt))
  | LoadValue n => on_node n m (fun nd => (m, n_value nd))
  | StoreValue n p => on_node n m (fun nd =>
      (set_node n {| n_lock := n_lock nd; n_seq := n_seq nd; n_value := p |} m, tt))
  | Malloc bytes =>
      Some ({| m_nodes := m_nodes m; m_bufs := <[m_next m := bytes]> (m_bufs m);
               m_stores := m_stores m; m_indexs := m_indexs m; m_links := m_links m;
               m_next := N.succ (m_next m) |}, m_next m)
  | Free p =>
      match m_bufs m !! p with
      | Some _ => Some (set_bufs (delete p (m_bufs m)) m, tt)
      | None => None
      end
  | LoadByte p i =>
      b ← m_bufs m !! p; v ← b !! i; Some (m, v)
  | StoreByte p i v =>
      b ← m_bufs m !! p; _ ← b !! i; Some (set_bufs (<[p := <[i := v]> b]> (m_bufs m)) m, tt)
  | LoadLink l => v ← m_links m !! l; Some (m, v)
  end.

(** ** Threads

    [Stop] is a failed assertion or exit(-1), after which the process is gone;
    [Wild] is undefined behaviour outside of an access to memory; [Again] stands for a loop of the code that has run more often than the model
    follows it. *)

Inductive prog (A : Type) : Type :=
| Done (a : A)
| Do {R : Type} (o : op R) (k : R -> prog A)
| Stop
| Wild
| Again.
Arguments Done {A} a.
Arguments Do {A R} o k.
Arguments Stop {A}.
Arguments Wild {A}.
Arguments Again {A}.

Fixpoint prog_bind {A B} (p : prog A) (f : A -> prog B) : prog B :=
  match p with
  | Done a => f a
  | Do o k => Do o (fun r => prog_bind (k r) f)
  | Stop => Stop
  | Wild => Wild
  | Again => Again
  end.

Declare Scope prog_scope.
Delimit Scope prog_scope with prog.
Notation "x <- p ;; q" := (prog_bind p (fun x => q))
  (at level 62, p at level 61, right associativity) : prog_scope.
Notation "' x <- p ;; q" := (prog_bind p (fun x => q))
  (at level 62, x pattern, p at level 61, right associativity) : prog_scope.
Open Scope prog_scope.

Definition call {A} (o : op A) : prog A := Do o Done.

(** The C library's assert. *)
Definition assert (b : bool) : prog unit := if b then Done tt else Stop.

(** One access of thread [i]. A thread that has ended lets its turn pass. *)
Definition step_at {A} (i : nat) (s : memory * list (prog A)) : option (memory * list (prog A)) :=
  match s.2 !! i with
  | Some (Do o k) =>
      match exec o s.1 with
      | Some (m', r) => Some (m', <[i := k r]> s.2)
      | None => None
      end
  | Some Wild => None
  | _ => Some s
  end.

Fixpoint run_sched {A} (sched : list nat) (s : memory * list (prog A)) : option (memory * list (prog A)) :=
  match sched with
  | [] => Some s
  | i :: sched => s' ← step_at i s; run_sched sched s'
  end.

(** The results of threads that have all returned. *)
Definition all_done {A} (ts : list (prog A)) : option (list A) :=
  mapM (fun p => match p with Done a => Some a | _ => None end) ts.

(** ** Program logic *)

Section logic.
(** [G] is the ghost state, [L] the part of it a thread owns, [Inv n m g] the
    invariant of memory and ghost state with [n] accesses to come. *)
Context {G L : Type} (loc : nat -> G -> L) (Inv : nat -> memory -> G -> Prop).

(** A change of the ghost state by thread [a]: what other threads own stays. *)
Definition others (a : nat) (g g' : G) : Prop := forall b, b <> a -> loc b g' = loc b g.

Fixpoint awp {A} (a : nat) (p : prog A) (Q : A -> L -> Prop) (l : L) : Prop :=
  forall n m g, Inv n m g -> loc a g = l ->
  exists g1, Inv n m g1 /\ others a g g1 /\
    match p with
    | Done x => Q x (loc a g1)
    | Do o k =>
        forall n', n = S n' ->
        exists m' r, exec o m = Some (m', r) /\
        exists g', Inv n' m' g' /\ others a g1 g' /\ awp a (k r) Q (loc a g')
    | Stop | Again => True
    | Wild => False
    end.

Lemma others_refl a g : others a g g.
Proof. by intros b Hb. Qed.

Lemma others_trans a g1 g2 g3 : others a g1 g2 -> others a g2 g3 -> others a g1 g3.
Proof. intros H1 H2 b Hb. by rewrite (H2 b Hb), (H1 b Hb). Qed.

(** Every thread [i] owns [loc i g] and is verified from there. *)
Definition all_awp {A} (g : G) (ts : list (prog A)) (Q : nat -> A -> L -> Prop) : Prop :=
  forall i p, ts !! i = Some p -> awp i p (Q i) (loc i g).

Lemma all_awp_others {A} (g g' : G) (ts : list (prog A)) Q i p :
  all_awp g ts Q -> others i g g' -> awp i p (Q i) (loc i g') ->
  all_awp g' (<[i := p]> ts) Q.
Proof.
  intros Hall Ho Hp j q Hq.
  destruct (decide (j = i)) as [-> | Hji].
  - destruct (decide (i < length ts)%nat) as [Hlt | Hge].
    + rewrite list_lookup_insert_eq in Hq by lia. by simplify_eq.
    + rewrite list_insert_ge in Hq by lia. apply lookup_lt_Some in Hq. lia.
  - rewrite list_lookup_insert_ne in Hq by done. rewrite (Ho j Hji). by apply Hall.
Qed.

Lemma step_sound {A} i n m (ts : list (prog A)) g Q :
  Inv (S n) m g -> all_awp g ts Q -> (forall m g, Inv (S n) m g -> Inv n m g) ->
  exists m' ts' g', step_at i (m, ts) = Some (m', ts') /\ Inv n m' g' /\ all_awp g' ts' Q /\
    length ts' = length ts /\ forall b, (length ts <= b)%nat -> loc b g' = loc b g.
Proof.
  intros HI Hall Hmono. unfold step_at. simpl.
  destruct (ts !! i) as [p |] eqn:Hi; [ | by eauto 10 ].
  destruct p as [x | R o k | | |]; [ by eauto 10 | | by eauto 10 | | by eauto 10 ];
    [ | by destruct (Hall i _ Hi (S n) m g HI eq_refl) as (g1 & _ & _ & []) ].
  destruct (Hall i _ Hi (S n) m g HI eq_refl) as (g1 & HI1 & Ho1 & Hk).
  destruct (Hk n eq_refl) as (m' & r & He & g' & HI' & Ho' & Hw).
  rewrite He. exists m', (<[i := k r]> ts), g'. split_and!; [ done | done | | by rewrite length_insert | ].
  - eapply all_awp_others; [ done | by eapply others_trans | done ].
  - intros b Hb. apply lookup_lt_Some in Hi. apply (others_trans i g g1 g' Ho1 Ho'). lia.
Qed.

(** At the end every thread that has returned meets its specification. *)
Lemma finish_sound {A} m (ts : list (prog A)) (Q : nat -> A -> L -> Prop) xs :
  forall k g, Inv 0 m g ->
  (forall i p, (k <= i)%nat -> ts !! i = Some p -> awp i p (Q i) (loc i g)) ->
  (forall i x, (i < k)%nat -> xs !! i = Some x -> Q i x (loc i g)) ->
  all_done ts = Some xs -> (k <= length xs)%nat ->
  exists g', Inv 0 m g' /\ (forall i x, xs !! i = Some x -> Q i x (loc i g')) /\
    forall b, (length xs <= b)%nat -> loc b g' = loc b g.
Proof.
  intros k. remember (length xs - k)%nat as d eqn:Hd. revert k Hd.
  induction d as [| d IH]; intros k Hd g HI Hw HQ Hdone Hk.
  { exists g. split_and!; [ done | | done ]. intros i x Hx. apply HQ; [ | done ].
    apply lookup_lt_Some in Hx. lia. }
  assert (exists x, xs !! k = Some x) as [x Hx] by (apply lookup_lt_is_Some; lia).
  assert (ts !! k = Some (Done x)) as Hts.
  { apply mapM_Some in Hdone. destruct (Forall2_lookup_r _ _ _ _ _ Hdone Hx) as (p & Hp & Hpx).
    destruct p; simplify_eq; done. }
  destruct (Hw k _ (Nat.le_refl k) Hts 0%nat m g HI eq_refl) as (g1 & HI1 & Ho1 & Hq).
  destruct (IH (S k)) with (g := g1) as (g' & HI' & HQ' & Hb'); [ lia | done | | | done | lia | ].
  - intros i p Hi Hp. rewrite (Ho1 i) by lia. apply Hw; [ lia | done ].
  - intros i y Hi Hy. destruct (decide (i = k)) as [-> | Hne]; [ by simplify_eq | ].
    rewrite (Ho1 i) by done. apply HQ; [ lia | done ].
  - exists g'. split_and!; [ done | done | ]. intros b Hb. rewrite Hb' by done. apply Ho1. lia.
Qed.

(** Soundness: no schedule runs into undefined behaviour, and when all threads
    have returned, their specifications hold together with the invariant. *)
Lemma sched_sound {A} sched n m (ts : list (prog A)) g Q :
  (forall n m g, Inv (S n) m g -> Inv n m g) ->
  Inv (length sched + n) m g -> all_awp g ts Q ->
  exists m' ts' g', run_sched sched (m, ts) = Some (m', ts') /\ Inv n m' g' /\ all_awp g' ts' Q /\
    length ts' = length ts /\ forall b, (length ts <= b)%nat -> loc b g' = loc b g.
Proof.
  intros Hmono. revert m ts g.
  induction sched as [| i sched IH]; intros m ts g HI Hall; simpl in *; [ by eauto 10 | ].
  destruct (step_sound i _ m ts g Q HI Hall (Hmono _)) as (m1 & ts1 & g1 & -> & HI1 & Hall1 & Hl1 & Hb1).
  simpl. destruct (IH m1 ts1 g1 HI1 Hall1) as (m2 & ts2 & g2 & H2 & HI2 & Hall2 & Hl2 & Hb2).
  exists m2, ts2, g2. split_and!; [ done | done | done | by rewrite Hl2 | ].
  intros b Hb. rewrite Hb2 by lia. by apply Hb1.
Qed.

Lemma all_done_length {A} (ts : list (prog A)) xs : all_done ts = Some xs -> length xs = length ts.
Proof. intros Hd. apply mapM_Some, Forall2_length in Hd. by rewrite Hd. Qed.

Lemma run_done_sound {A} sched m (ts : list (prog A)) g Q m' ts' xs :
  (forall n m g, Inv (S n) m g -> Inv n m g) ->
  Inv (length sched) m g -> all_awp g ts Q ->
  run_sched sched (m, ts) = Some (m', ts') -> all_done ts' = Some xs ->
  exists g', Inv 0 m' g' /\ length xs = length ts /\ (forall i x, xs !! i = Some x -> Q i x (loc i g')) /\
    forall b, (length ts <= b)%nat -> loc b g' = loc b g.
Proof.
  intros Hmono HI Hall Hrun Hdone.
  destruct (sched_sound sched 0 m ts g Q Hmono) as (m1 & ts1 & g1 & Hr & HI1 & Hall1 & Hl1 & Hb1);
    [ by rewrite Nat.add_0_r | done | ].
  rewrite Hrun in Hr. simplify_eq. pose proof (all_done_length _ _ Hdone) as Hlen.
  destruct (finish_sound m1 ts1 Q xs 0 g1) as (g2 & HI2 & HQ2 & Hb2); [ done | | lia | done | lia | ].
  - intros i p _ Hp. by apply Hall1.
  - exists g2. split_and!; [ done | lia | done | ]. intros b Hb. rewrite Hb2 by lia. apply Hb1. lia.
Qed.

(** ** Rules *)

Lemma awp_done {A} a (x : A) (Q : A -> L -> Prop) l : Q x l -> awp a (Done x) Q l.
Proof. intros HQ n m g HI <-. exists g. split; [ done | ]. split; [ apply others_refl | done ]. Qed.

(** A change of the ghost state. *)
Lemma awp_ghost {A} a (p : prog A) (Q : A -> L -> Prop) l :
  (forall n m g, Inv n m g -> loc a g = l ->
    exists g1, Inv n m g1 /\ others a g g1 /\ awp a p Q (loc a g1)) ->
  awp a p Q l.
Proof.
  intros Hv. destruct p; simpl; intros n m g HI Hl;
    destruct (Hv n m g HI Hl) as (g1 & HI1 & Ho1 & Hw);
    destruct (Hw n m g1 HI1 eq_refl) as (g2 & HI2 & Ho2 & Hp);
    exists g2; (split; [ done | ]); (split; [ by eapply others_trans | done ]).
Qed.

Lemma awp_do {A R} a (o : op R) (k : R -> prog A) (Q : A -> L -> Prop) l :
  (forall n m g, Inv (S n) m g -> loc a g = l ->
    exists m' r, exec o m = Some (m', r) /\
    exists g', Inv n m' g' /\ others a g g' /\ awp a (k r) Q (loc a g')) ->
  awp a (Do o k) Q l.
Proof.
  intros Hv. simpl. intros n m g HI Hl. exists g. split; [ done | ].
  split; [ apply others_refl | ]. intros n' ->. by apply Hv.
Qed.

Lemma awp_mono {A} a (p : prog A) (Q Q' : A -> L -> Prop) l :
  (forall x l', Q x l' -> Q' x l') -> awp a p Q l -> awp a p Q' l.
Proof.
  intros HQ. revert l. induction p as [x | R o k IH | | |]; intros l Hw n m g HI Hl;
    destruct (Hw n m g HI Hl) as (g1 & HI1 & Ho1 & Hp); exists g1;
    (split; [ done | ]); (split; [ done | ]); [ by apply HQ | | done | done | done ].
  intros n' Hn. destruct (Hp n' Hn) as (m' & r & He & g' & HI' & Ho' & Hk).
  exists m', r. split; [ done | ]. exists g'. split; [ done | ]. split; [ done | ]. by apply IH.
Qed.

Lemma awp_bind {A B} a (p : prog A) (f : A -> prog B) (Q : B -> L -> Prop) l :
  awp a p (fun x => awp a (f x) Q) l -> awp a (prog_bind p f) Q l.
Proof.
  revert l. induction p as [x | R o k IH | | |]; intros l Hw.
  - apply awp_ghost. intros n m g HI Hl. exact (Hw n m g HI Hl).
  - intros n m g HI Hl. destruct (Hw n m g HI Hl) as (g1 & HI1 & Ho1 & Hp).
    exists g1. split; [ done | ]. split; [ done | ].
    intros n' Hn. destruct (Hp n' Hn) as (m' & r & He & g' & HI' & Ho' & Hk).
    exists m', r. split; [ done | ]. exists g'. split; [ done | ]. split; [ done | ]. by apply IH.
  - intros n m g HI Hl. destruct (Hw n m g HI Hl) as (g1 & HI1 & Ho1 & Hp). by exists g1.
  - intros n m g HI Hl. destruct (Hw n m g HI Hl) as (g1 & HI1 & Ho1 & []).
  - intros n m g HI Hl. destruct (Hw n m g HI Hl) as (g1 & HI1 & Ho1 & Hp). by exists g1.
Qed.

Lemma awp_stop {A} a (Q : A -> L -> Prop) l : awp a Stop Q l.
Proof. intros n m g HI Hl. exists g. split; [ done | ]. split; [ apply others_refl | done ]. Qed.

Lemma awp_again {A} a (Q : A -> L -> Prop) l : awp a Again Q l.
Proof. intros n m g HI Hl. exists g. split; [ done | ]. split; [ apply others_refl | done ]. Qed.
End logic.

#[global] Arguments awp {G L} loc Inv {A} a p Q l : simpl never.
