(* ===== verification/Dbtx.v ===== *)
(** * Dbtx: the optimistic transactions of DrTM+H

    src/sys/drtmh/src/db/txs/dbtx.cc: a transaction copies the records it reads,
    remembers their sequence numbers, locks the ones it writes, checks that
    these are unchanged, and installs the new values. [RWSet] and [ReadSet] are
    the classes of the same names, [get], [insert], [end_] and the others the
    methods of DBTX, as threads of DbtxMem.v that access shared memory one load,
    store or compare-and-swap at a time. [run_body] is an application that calls
    them. The memory of other machines is reached through the RemoteSet: of
    db/remote_set.cc only the part is here that decides whether there is
    anything to do on other machines. *)

From stdpp Require Import gmap.
From S2P Require Import Prelude.
From S2P Require Import DbtxMem.

(** ** Locks *)

(** 16 bit mac | 6 bit thread | 10 bit cor_id *)
Definition ENCODE_LOCK_CONTENT (mac tid cor_id : Z) : Z :=
  Z.lor (Z.lor (Z.shiftl mac 16) (Z.shiftl tid 10)) cor_id.
Definition DECODE_LOCK_MAC (lock : Z) : Z := Z.shiftr lock 16.
Definition DECODE_LOCK_TID (lock : Z) : Z := Z.shiftr (Z.land lock 0xffff) 10.
Definition DECODE_LOCK_CID (lock : Z) : Z := Z.land lock 0x3f.

(** ** ReadSet *)

Record ReadSet := {
  rs_max_length : Z;
  rs_seqs : list (Z * N);  (* seq, and the record whose seq it is *)
  rs_nexts : list (Z * N)  (* next, and the leaf whose link it is *)
}.

Definition MAXSIZE : Z := 1024.

Definition ReadSet_new : ReadSet := {| rs_max_length := MAXSIZE; rs_seqs := []; rs_nexts := [] |}.

Definition ReadSet_Reset (r : ReadSet) : ReadSet :=
  {| rs_max_length := rs_max_length r; rs_seqs := []; rs_nexts := [] |}.

Definition ReadSet_Resize (r : ReadSet) : ReadSet :=
  {| rs_max_length := rs_max_length r * 2; rs_seqs := rs_seqs r; rs_nexts := rs_nexts r |}.

Definition ReadSet_AddNext (ptr : N) (value : Z) (r : ReadSet) : prog ReadSet :=
  _ <- assert (Z.of_nat (length (rs_nexts r)) <=? rs_max_length r) ;;
  let r := if Z.of_nat (length (rs_nexts r)) =? rs_max_length r then ReadSet_Resize r else r in
  Done {| rs_max_length := rs_max_length r; rs_seqs := rs_seqs r;
          rs_nexts := rs_nexts r ++ [(value, ptr)] |}.

Definition ReadSet_Add (ptr : N) (r : ReadSet) : prog (ReadSet * Z) :=
  _ <- assert (Z.of_nat (length (rs_seqs r)) <=? rs_max_length r) ;;
  let r := if Z.of_nat (length (rs_seqs r)) =? rs_max_length r then ReadSet_Resize r else r in
  s <- call (LoadSeq ptr) ;;
  Done ({| rs_max_length := rs_max_length r; rs_seqs := rs_seqs r ++ [(s, ptr)];
           rs_nexts := rs_nexts r |}, s).

Fixpoint check_seqs (l : list (Z * N)) : prog bool :=
  match l with
  | [] => Done true
  | (s, n) :: l => s' <- call (LoadSeq n) ;; if s =? s' then check_seqs l else Done false
  end.

Fixpoint check_nexts (l : list (Z * N)) : prog bool :=
  match l with
  | [] => Done true
  | (v, p) :: l => v' <- call (LoadLink p) ;; if v =? v' then check_nexts l else Done false
  end.

Definition ReadSet_Validate (r : ReadSet) : prog bool :=
  ok <- check_seqs (rs_seqs r) ;;
  if ok then check_nexts (rs_nexts r) else Done false.

(** ** RWSet *)

Record RWSetItem := {
  it_tableid : Z;
  it_key : Z;
  it_len : Z;
  it_node : N;
  it_addr : option N; (* the new value *)
  it_seq : Z;
  it_ro : bool
}.

(** [rw_kvs] has the items in use, [elems] of them. *)
Record RWSet := { rw_max_length : Z; rw_kvs : list RWSetItem; rw_current : Z }.

Definition RWSet_new : RWSet := {| rw_max_length := MAXSIZE; rw_kvs := []; rw_current := -1 |}.

Definition elems (s : RWSet) : Z := Z.of_nat (length (rw_kvs s)).

Definition RWSet_Reset (s : RWSet) : RWSet :=
  {| rw_max_length := rw_max_length s; rw_kvs := []; rw_current := -1 |}.

Definition RWSet_Resize (s : RWSet) : RWSet :=
  {| rw_max_length := rw_max_length s * 2; rw_kvs := rw_kvs s; rw_current := rw_current s |}.

Definition with_kvs (kvs : list RWSetItem) (s : RWSet) : RWSet :=
  {| rw_max_length := rw_max_length s; rw_kvs := kvs; rw_current := rw_current s |}.

Definition RWSet_Add (item : RWSetItem) (s : RWSet) : RWSet :=
  let s := if elems s =? rw_max_length s then RWSet_Resize s else s in
  with_kvs (rw_kvs s ++ [item]) s.

(** The loop of LockAllSet from item [i] on; the result comes with [current]. *)
Fixpoint lock_items (me : Z) (i : Z) (items : list RWSetItem) (current : Z) : prog (bool * Z) :=
  match items with
  | [] => Done (true, current)
  | it :: items =>
      if it_ro it then lock_items me (i + 1) items current
      else
        l <- call (LoadLock (it_node it)) ;;
        if negb (l =? 0) then Done (false, current)
        else
          got <- call (CasLock (it_node it) 0 me) ;;
          if negb got then Done (false, current)
          else
            s <- call (LoadSeq (it_node it)) ;;
            if negb (s =? it_seq it) then Done (false, i)
            else lock_items me (i + 1) items i
  end.

Definition LockAllSet (me : Z) (s : RWSet) : prog (bool * RWSet) :=
  '(ok, current) <- lock_items me 0 (rw_kvs s) (rw_current s) ;;
  Done (ok, {| rw_max_length := rw_max_length s; rw_kvs := rw_kvs s; rw_current := current |}).

Fixpoint release_items (me : Z) (items : list RWSetItem) : prog unit :=
  match items with
  | [] => Done tt
  | it :: items =>
      if it_ro it then release_items me items
      else _ <- call (CasLock (it_node it) me 0) ;; release_items me items
  end.

(** for(i = 0; i <= current; ++i) *)
Definition ReleaseAllSet (me : Z) (s : RWSet) : prog unit :=
  release_items me (take (Z.to_nat (rw_current s + 1)) (rw_kvs s)).

Fixpoint check_items (items : list RWSetItem) : prog bool :=
  match items with
  | [] => Done true
  | it :: items =>
      s <- call (LoadSeq (it_node it)) ;;
      if negb (s =? it_seq it) then Done false else check_items items
  end.

Definition CheckLocalSet (s : RWSet) : prog bool := check_items (rw_kvs s).

(** With COPY 0: the value pointer is replaced. *)
Fixpoint commit_items (items : list RWSetItem) : prog unit :=
  match items with
  | [] => Done tt
  | it :: items =>
      if it_ro it then commit_items items
      else
        _ <- call (StoreSeq (it_node it) 1) ;;
        _ <- call (StoreValue (it_node it) (it_addr it)) ;;
        _ <- call (StoreSeq (it_node it) (it_seq it + 2)) ;;
        _ <- call (StoreLock (it_node it) 0) ;;
        commit_items items
  end.

(** The counter of the code is never incremented. *)
Definition CommitLocalWrite (s : RWSet) : prog Z := _ <- commit_items (rw_kvs s) ;; Done 0.

Definition free_opt (p : option N) : prog unit :=
  match p with Some p => call (Free p) | None => Done tt end.

Fixpoint free_items (items : list RWSetItem) : prog unit :=
  match items with
  | [] => Done tt
  | it :: items => _ <- free_opt (it_addr it) ;; free_items items
  end.

Definition RWSet_GC (s : RWSet) : prog unit := free_items (rw_kvs s).

(** ** Reads *)

Fixpoint copy_bytes (dst src : N) (idx : list nat) : prog unit :=
  match idx with
  | [] => Done tt
  | i :: idx => b <- call (LoadByte src i) ;; _ <- call (StoreByte dst i b) ;; copy_bytes dst src idx
  end.

(** memcpy between two values, a byte at a time *)
Definition memcpy_val (dst src : N) (len : nat) : prog unit := copy_bytes dst src (seq 0 len).

(** The loop at [retry:] in get; [None] is "return 1". *)
Fixpoint get_retry (fuel : nat) (node addr : N) (len : nat) : prog (option Z) :=
  match fuel with
  | O => Again
  | S fuel =>
      s <- call (LoadSeq node) ;;
      if s =? 1 then get_retry fuel node addr len
      else
        tmpVal <- call (LoadValue node) ;;
        match tmpVal with
        | None => Done None
        | Some p =>
            _ <- memcpy_val addr p len ;;
            s' <- call (LoadSeq node) ;;
            if s' =? s then Done (Some s) else get_retry fuel node addr len
        end
  end.

(** uint64_t DBTX::get(int tableid, uint64_t key, char **val, int len): the
    number returned, [*val], and the set with the record added. *)
Definition get (fuel : nat) (tableid key : Z) (len : nat) (rw : RWSet) : prog (Z * option N * RWSet) :=
  _addr <- call (Malloc (replicate len 0)) ;;
  node <- call (GetWithInsert false tableid key) ;;
  v <- call (LoadValue node) ;;
  _ <- assert (bool_decide (is_Some v)) ;;
  r <- get_retry fuel node _addr len ;;
  match r with
  | None => Done (1, None, rw)
  | Some s =>
      Done (s, Some _addr,
            RWSet_Add {| it_tableid := tableid; it_key := key; it_len := Z.of_nat len;
                         it_node := node; it_addr := Some _addr; it_seq := s; it_ro := true |} rw)
  end.

(** uint64_t DBTX::get(char *n, char **val,int len): it returns the sequence
    number before it looks at the value. *)
Definition get_node (node : N) (len : nat) : prog Z :=
  _addr <- call (Malloc (replicate len 0)) ;;
  call (LoadSeq node).

(** The loop of get_ro, which looks at the value first. *)
Fixpoint get_ro_retry (fuel : nat) (node val : N) (len : nat) : prog (option Z) :=
  match fuel with
  | O => Again
  | S fuel =>
      s <- call (LoadSeq node) ;;
      tmpVal <- call (LoadValue node) ;;
      match tmpVal with
      | None => Done None
      | Some p =>
          if s =? 1 then get_ro_retry fuel node val len
          else
            _ <- memcpy_val val p len ;;
            s' <- call (LoadSeq node) ;;
            if s' =? s then Done (Some s) else get_ro_retry fuel node val len
      end
  end.

(** uint64_t DBTX::get_ro(tableid,key,val,yield), [len] the schema's vlen. The
    field addr of the item is not initialised: [addr]. *)
Definition get_ro (fuel : nat) (tableid key : Z) (val : N) (len : nat) (addr : option N) (rw : RWSet) :
    prog (Z * RWSet) :=
  node <- call (GetWithInsert false tableid key) ;;
  r <- get_ro_retry fuel node val len ;;
  match r with
  | None => Done (1, rw)
  | Some s =>
      Done (s, RWSet_Add {| it_tableid := tableid; it_key := key; it_len := Z.of_nat len;
                            it_node := node; it_addr := addr; it_seq := s; it_ro := true |} rw)
  end.

(** ** Writes *)

(** The index of the first item that satisfies [f]. *)
Fixpoint find_item (f : RWSetItem -> bool) (items : list RWSetItem) : option nat :=
  match items with
  | [] => None
  | it :: items => if f it then Some O else S <$> find_item f items
  end.

Definition is_item (tableid key : Z) (it : RWSetItem) : bool :=
  (it_tableid it =? tableid) && (it_key it =? key).

Definition to_write (it : RWSetItem) : RWSetItem :=
  {| it_tableid := it_tableid it; it_key := it_key it; it_len := it_len it; it_node := it_node it;
     it_addr := it_addr it; it_seq := it_seq it; it_ro := false |}.

Definition to_delete (it : RWSetItem) : RWSetItem :=
  {| it_tableid := it_tableid it; it_key := it_key it; it_len := 0; it_node := it_node it;
     it_addr := None; it_seq := it_seq it; it_ro := false |}.

(** void DBTX::write(int tableid,uint64_t key,char *val,int len) *)
Definition write (tableid key : Z) (rw : RWSet) : prog RWSet :=
  match find_item (is_item tableid key) (rw_kvs rw) with
  | Some i => Done (with_kvs (alter to_write i (rw_kvs rw)) rw)
  | None => Stop (* "local write operation not in the readset!" *)
  end.

(** void DBTX::write(): the item read last *)
Definition write_last (rw : RWSet) : prog RWSet :=
  match rw_kvs rw with
  | [] => Wild (* kvs[-1] *)
  | kvs => Done (with_kvs (alter to_write (length kvs - 1)%nat kvs) rw)
  end.

(** void DBTX::insert(int tableid, uint64_t key, char *val, int len) *)
Definition insert (tableid key : Z) (val : list Z) (rw : RWSet) : prog RWSet :=
  addr <- call (Malloc val) ;;
  node <- call (GetWithInsert false tableid key) ;;
  s <- call (LoadSeq node) ;;
  Done (RWSet_Add {| it_tableid := tableid; it_key := key; it_len := Z.of_nat (length val);
                     it_node := node; it_addr := Some addr; it_seq := s; it_ro := false |} rw).

(** void DBTX::insert_index(int tableid, uint64_t key,char *val); the field len
    is not initialised: [len]. *)
Definition insert_index (tableid key : Z) (val : N) (len : Z) (rw : RWSet) : prog RWSet :=
  node <- call (GetWithInsert true tableid key) ;;
  _ <- (if tableid =? 4 then v <- call (LoadValue node) ;; assert (bool_decide (v = None)) else Done tt) ;;
  s <- call (LoadSeq node) ;;
  Done (RWSet_Add {| it_tableid := tableid; it_key := key; it_len := len;
                     it_node := node; it_addr := Some val; it_seq := s; it_ro := false |} rw).

(** void DBTX::delete_index(int tableid,uint64_t key) *)
Definition delete_index (tableid key : Z) (len : Z) (rw : RWSet) : prog RWSet :=
  node <- call (GetWithInsert true tableid key) ;;
  v <- call (LoadValue node) ;;
  if bool_decide (v = None) then Done rw
  else
    s <- call (LoadSeq node) ;;
    Done (RWSet_Add {| it_tableid := tableid; it_key := key; it_len := len;
                       it_node := node; it_addr := None; it_seq := s; it_ro := false |} rw).

(** Deleting a record the transaction has an item of: its copy is freed. *)
Definition delete_item (i : nat) (rw : RWSet) : prog RWSet :=
  _ <- free_opt (rw_kvs rw !! i ≫= it_addr) ;;
  Done (with_kvs (alter to_delete i (rw_kvs rw)) rw).

(** void DBTX::delete_(int tableid,uint64_t key) *)
Definition delete_ (tableid key : Z) (rw : RWSet) : prog RWSet :=
  match find_item (is_item tableid key) (rw_kvs rw) with
  | Some i => delete_item i rw
  | None =>
      node <- call (GetWithInsert false tableid key) ;;
      s <- call (LoadSeq node) ;;
      Done (RWSet_Add {| it_tableid := tableid; it_key := key; it_len := 0; it_node := node;
                         it_addr := None; it_seq := s; it_ro := false |} rw)
  end.

(** void DBTX::delete_by_node(int tableid,char *node) *)
Definition delete_by_node (tableid : Z) (node : N) (rw : RWSet) : prog RWSet :=
  match find_item (fun it => bool_decide (it_node it = node)) (rw_kvs rw) with
  | Some i => delete_item i rw
  | None =>
      s <- call (LoadSeq node) ;;
      Done (RWSet_Add {| it_tableid := tableid; it_key := 0; it_len := 0; it_node := node;
                         it_addr := None; it_seq := s; it_ro := false |} rw)
  end.

(** ** Other machines *)

Record RemoteSet := {
  write_items_ : Z;
  read_items_ : Z;
  read_server_num_ : Z;
  need_validate_ : bool
}.

(** RemoteSet::clear *)
Definition RemoteSet_clear : RemoteSet :=
  {| write_items_ := 0; read_items_ := 0; read_server_num_ := 0; need_validate_ := false |}.

(** The requests that are sent when there is something to do. *)
Record rpcs := {
  rpc_lock : prog bool;
  rpc_validate : prog bool;
  rpc_release : prog unit;
  rpc_log : prog unit;
  rpc_commit : prog unit
}.

Definition lock_remote (rpc : rpcs) (r : RemoteSet) : prog bool :=
  if 0 <? write_items_ r then rpc_lock rpc else Done true.

Definition validate_remote (rpc : rpcs) (r : RemoteSet) : prog bool :=
  if need_validate_ r && (0 <? read_server_num_ r) && (0 <? read_items_ r)
  then rpc_validate rpc else Done true.

Definition release_remote (rpc : rpcs) (r : RemoteSet) : prog unit :=
  if 0 <? write_items_ r then rpc_release rpc else Done tt.

Definition log_remote (rpc : rpcs) (rep_factor : Z) (r : RemoteSet) : prog unit :=
  if (0 <? write_items_ r) && (0 <? rep_factor) then rpc_log rpc else Done tt.

Definition commit_remote (rpc : rpcs) (r : RemoteSet) : prog unit :=
  if 0 <? write_items_ r then rpc_commit rpc else Done tt.

Definition set_need_validate (r : RemoteSet) : RemoteSet :=
  {| write_items_ := write_items_ r; read_items_ := read_items_ r;
     read_server_num_ := read_server_num_ r; need_validate_ := true |}.

(** ** The end of a transaction *)

(** The objects of one DBTX: its sets, and the content of the locks it takes. *)
Record DBTX := {
  tx_lock : Z;
  tx_rwset : RWSet;
  tx_readset : ReadSet;
  tx_remoteset : RemoteSet;
  tx_abort : bool
}.

Definition DBTX_new (mac thread_id cor_id_ : Z) : DBTX :=
  {| tx_lock := ENCODE_LOCK_CONTENT mac thread_id (cor_id_ + 1); tx_rwset := RWSet_new;
     tx_readset := ReadSet_new; tx_remoteset := RemoteSet_clear; tx_abort := false |}.

(** DBTX::_begin *)
Definition begin_ (tx : DBTX) : DBTX :=
  {| tx_lock := tx_lock tx; tx_rwset := RWSet_Reset (tx_rwset tx);
     tx_readset := ReadSet_Reset (tx_readset tx); tx_remoteset := RemoteSet_clear; tx_abort := false |}.

(** DBTX::local_ro_begin *)
Definition local_ro_begin (tx : DBTX) : DBTX :=
  {| tx_lock := tx_lock tx; tx_rwset := RWSet_Reset (tx_rwset tx);
     tx_readset := ReadSet_Reset (tx_readset tx); tx_remoteset := tx_remoteset tx; tx_abort := false |}.

Definition with_rwset (rw : RWSet) (tx : DBTX) : DBTX :=
  {| tx_lock := tx_lock tx; tx_rwset := rw; tx_readset := tx_readset tx;
     tx_remoteset := tx_remoteset tx; tx_abort := tx_abort tx |}.

Section ends.
Context (rpc : rpcs) (rep_factor : Z).

(** The label ABORT of end and end_fasst. *)
Definition end_abort (tx : DBTX) (rw : RWSet) : prog (bool * DBTX) :=
  _ <- release_remote rpc (tx_remoteset tx) ;;
  _ <- ReleaseAllSet (tx_lock tx) rw ;;
  Done (false, with_rwset rw tx).

(** bool DBTX::end(yield_func_t &yield) *)
Definition end_ (tx : DBTX) : prog (bool * DBTX) :=
  if tx_abort tx then Done (false, tx)
  else
    let remoteset := set_need_validate (tx_remoteset tx) in
    locked <- lock_remote rpc remoteset ;;
    if negb locked then end_abort tx (tx_rwset tx)
    else
      '(ok, rw) <- LockAllSet (tx_lock tx) (tx_rwset tx) ;;
      if negb ok then end_abort tx rw
      else
        valid <- validate_remote rpc remoteset ;;
        if negb valid then end_abort tx rw
        else
          _ <- CommitLocalWrite rw ;;
          _ <- commit_remote rpc remoteset ;;
          Done (true, with_rwset rw tx).

(** bool DBTX::end_fasst(yield_func_t &yield) *)
Definition end_fasst (tx : DBTX) : prog (bool * DBTX) :=
  if tx_abort tx then Done (false, tx)
  else
    '(ok, rw) <- LockAllSet (tx_lock tx) (tx_rwset tx) ;;
    if negb ok then end_abort tx rw
    else
      valid <- ReadSet_Validate (tx_readset tx) ;;
      if negb valid then end_abort tx rw
      else
        checked <- CheckLocalSet rw ;;
        if negb checked then end_abort tx rw
        else
          _ <- log_remote rpc rep_factor (tx_remoteset tx) ;;
          _ <- CommitLocalWrite rw ;;
          _ <- commit_remote rpc (tx_remoteset tx) ;;
          Done (true, with_rwset rw tx).
End ends.

(** bool DBTX::end_ro(), with OCC_RO_CHECK 1 and OCC_RETRY defined *)
Definition end_ro (tx : DBTX) : prog bool :=
  if tx_abort tx then Done false
  else
    valid <- ReadSet_Validate (tx_readset tx) ;;
    if negb valid then Done false else CheckLocalSet (tx_rwset tx).

(** ** Applications

    What an application does between begin and end: it calls the methods, reads
    the copies that get returns and stores into them. [BStore i off v] stores
    through the pointer of the [i]-th item, when that has a value. *)

Inductive body (R : Type) : Type :=
| BCommit (r : R)
| BAbort (r : R)
| BGet (tableid key : Z) (len : nat) (k : option (list Z) -> body R)
| BStore (i off : nat) (v : Z) (k : body R)
| BWrite (tableid key : Z) (k : body R)
| BWriteLast (k : body R)
| BInsert (tableid key : Z) (val : list Z) (k : body R)
| BDelete (tableid key : Z) (k : body R).
Arguments BCommit {R} r.
Arguments BAbort {R} r.
Arguments BGet {R} tableid key len k.
Arguments BStore {R} i off v k.
Arguments BWrite {R} tableid key k.
Arguments BWriteLast {R} k.
Arguments BInsert {R} tableid key val k.
Arguments BDelete {R} tableid key k.

(** The copy that get returned, as the application sees it. *)
Fixpoint read_buf (p : N) (idx : list nat) : prog (list Z) :=
  match idx with
  | [] => Done []
  | i :: idx => b <- call (LoadByte p i) ;; l <- read_buf p idx ;; Done (b :: l)
  end.

(** An application remembers what it has read and stored: one entry per item. *)
Record litem := {
  li_tab : Z;
  li_key : Z;
  li_ro : bool;
  li_rd : option (list Z); (* what get returned *)
  li_wr : option (list Z)  (* the value to be installed; None: deleted *)
}.

Definition is_litem (tableid key : Z) (li : litem) : bool :=
  (li_tab li =? tableid) && (li_key li =? key).

Fixpoint find_litem (f : litem -> bool) (log : list litem) : option nat :=
  match log with
  | [] => None
  | li :: log => if f li then Some O else S <$> find_litem f log
  end.

Definition li_write (li : litem) : litem :=
  {| li_tab := li_tab li; li_key := li_key li; li_ro := false; li_rd := li_rd li; li_wr := li_wr li |}.

Definition li_delete (li : litem) : litem :=
  {| li_tab := li_tab li; li_key := li_key li; li_ro := false; li_rd := li_rd li; li_wr := None |}.

Definition li_store (off : nat) (v : Z) (li : litem) : litem :=
  {| li_tab := li_tab li; li_key := li_key li; li_ro := li_ro li; li_rd := li_rd li;
     li_wr := <[off := v]> <$> li_wr li |}.

(** What the log becomes when the application calls a method. *)
Definition log_get (t k : Z) (c : list Z) (log : list litem) : list litem :=
  log ++ [ {| li_tab := t; li_key := k; li_ro := true; li_rd := Some c; li_wr := Some c |} ].

Definition log_store (i off : nat) (v : Z) (log : list litem) : list litem := alter (li_store off v) i log.

Definition log_write (t k : Z) (log : list litem) : list litem :=
  match find_litem (is_litem t k) log with
  | Some i => alter li_write i log
  | None => log
  end.

Definition log_write_last (log : list litem) : list litem := alter li_write (length log - 1)%nat log.

Definition log_insert (t k : Z) (v : list Z) (log : list litem) : list litem :=
  log ++ [ {| li_tab := t; li_key := k; li_ro := false; li_rd := None; li_wr := Some v |} ].

Definition log_delete (t k : Z) (log : list litem) : list litem :=
  match find_litem (is_litem t k) log with
  | Some i => alter li_delete i log
  | None => log ++ [ {| li_tab := t; li_key := k; li_ro := false; li_rd := None; li_wr := None |} ]
  end.

(** The result of a transaction: whether it has committed, its log, and what the
    application returns. *)
Record result (R : Type) := Result { r_committed : bool; r_log : list litem; r_value : R }.
Arguments r_committed {R} _.
Arguments r_log {R} _.
Arguments r_value {R} _.
Arguments Result {R} _ _ _.

Section app.
Context {R : Type} (commit : DBTX -> prog (bool * DBTX)) (fuel : nat).

Fixpoint run_body (b : body R) (tx : DBTX) (log : list litem) : prog (result R * DBTX) :=
  match b with
  | BCommit r => '(ok, tx) <- commit tx ;; Done (Result ok log r, tx)
  | BAbort r => Done (Result false log r, tx)
  | BGet t k len cont =>
      '(_, val, rw) <- get fuel t k len (tx_rwset tx) ;;
      match val with
      | None => run_body (cont None) (with_rwset rw tx) log
      | Some p =>
          c <- read_buf p (seq 0 len) ;;
          run_body (cont (Some c)) (with_rwset rw tx) (log_get t k c log)
      end
  | BStore i off v cont =>
      match rw_kvs (tx_rwset tx) !! i ≫= it_addr, (log !! i ≫= li_wr) ≫= lookup off with
      | Some p, Some _ => _ <- call (StoreByte p off v) ;; run_body cont tx (log_store i off v log)
      | _, _ => run_body cont tx log
      end
  | BWrite t k cont =>
      rw <- write t k (tx_rwset tx) ;; run_body cont (with_rwset rw tx) (log_write t k log)
  | BWriteLast cont =>
      if bool_decide (log = []) then run_body cont tx log
      else rw <- write_last (tx_rwset tx) ;; run_body cont (with_rwset rw tx) (log_write_last log)
  | BInsert t k v cont =>
      rw <- insert t k v (tx_rwset tx) ;; run_body cont (with_rwset rw tx) (log_insert t k v log)
  | BDelete t k cont =>
      rw <- delete_ t k (tx_rwset tx) ;; run_body cont (with_rwset rw tx) (log_delete t k log)
  end.

(** A thread runs one transaction after the other. *)
Fixpoint run_bodies (bs : list (body R)) (tx : DBTX) : prog (list (result R)) :=
  match bs with
  | [] => Done []
  | b :: bs =>
      '(r, tx) <- run_body b (begin_ tx) [] ;;
      rs <- run_bodies bs tx ;;
      Done (r :: rs)
  end.
End app.
