(* ===== verification/DbtxInv.v ===== *)
(** * DbtxInv: the invariant of records under transactions

    Every record has a history of versions: version [s] is what it holds while
    its sequence number is [s]. The ghost state remembers all versions, which
    values are published and hence never change again, the transactions that
    have committed in their order, and what each thread holds and knows.
    [Inv] relates it to memory; the lemmas say how each access of a transaction
    preserves it. *)

From stdpp Require Import gmap.
From S2P Require Import Prelude.
From S2P Require Import DbtxMem.
From S2P Require Import Dbtx.

(** ** The abstract database *)

(** What a database contains: the value of each key of each table. *)
Abbreviation db := (gmap (Z * Z) (list Z)).

Definition li_id (li : litem) : Z * Z := (li_tab li, li_key li).

Definition set_value (k : Z * Z) (v : option (list Z)) (σ : db) : db :=
  match v with Some c => <[k := c]> σ | None => delete k σ end.

(** The effect of a transaction: its items that are not read-only, in order. *)
Definition apply_item (li : litem) (σ : db) : db :=
  if li_ro li then σ else set_value (li_id li) (li_wr li) σ.

Definition apply_log (log : list litem) (σ : db) : db :=
  fold_left (fun σ li => apply_item li σ) log σ.

(** What a transaction read of the records it writes is what they hold. *)
Definition reads_current (log : list litem) (σ : db) : Prop :=
  forall li c, li ∈ log -> li_ro li = false -> li_rd li = Some c -> σ !! li_id li = Some c.

(** Transactions one after the other, in the order of the list. *)
Fixpoint serial (σ : db) (H : list (nat * list litem)) (σ' : db) : Prop :=
  match H with
  | [] => σ' = σ
  | e :: H => reads_current e.2 σ /\ serial (apply_log e.2 σ) H σ'
  end.

Lemma serial_snoc σ H e σ1 :
  serial σ H σ1 -> reads_current e.2 σ1 -> serial σ (H ++ [e]) (apply_log e.2 σ1).
Proof.
  revert σ. induction H as [| e' H IH]; simpl; intros σ Hs Hr; [ by simplify_eq | ].
  destruct Hs as [Hr' Hs]. split; [ done | ]. by apply IH.
Qed.

(** ** Ghost state *)

(** What a thread that holds a lock does with the record: nothing so far, or
    it is going to install, or is installing, version [s + 2]. *)
Inductive hstate : Type :=
| Locked (s : Z)
| Pend (s : Z) (c : option (list Z))
| Opened (s : Z) (c : option (list Z))
| Stored (s : Z) (c : option (list Z)).

(** What a thread knows, and what stays true. *)
Inductive fact : Type :=
| FVer (n : N) (s : Z) (c : option (list Z)) (* version s of n is c *)
| FLb (n : N) (e : Z)                        (* n has reached e *)
| FPub (p : N) (c : list Z)                  (* p is published with bytes c *)
| FNode (k : Z * Z) (n : N).                 (* n is the record of k *)

Record local := {
  l_hold : gmap N hstate;
  l_priv : gmap N (list Z);
  l_facts : list fact;
  l_done : list (list litem)
}.

(** The history of a record: its epoch (the sequence number, or one more while
    a new version is being installed), the last version that has committed, and
    all versions. *)
Record history := { h_ep : Z; h_top : Z; h_vers : gmap Z (option (list Z)) }.

Record ghost := {
  g_nodes : gmap N history;
  g_pub : gmap N (list Z);
  g_log : list (nat * list litem);
  g_db : db;
  g_loc : nat -> local
}.

Definition loc (a : nat) (g : ghost) : local := g_loc g a.

Definition upd (a : nat) (l : local) (g : ghost) : ghost :=
  {| g_nodes := g_nodes g; g_pub := g_pub g; g_log := g_log g; g_db := g_db g;
     g_loc := fun b => if decide (b = a) then l else g_loc g b |}.

Lemma loc_upd a l g : loc a (upd a l g) = l.
Proof. unfold loc, upd; simpl. by rewrite decide_True. Qed.

Lemma loc_upd_ne a b l g : b <> a -> loc b (upd a l g) = loc b g.
Proof. intros Hb. unfold loc, upd; simpl. by rewrite decide_False. Qed.

Lemma others_upd a l g : others loc a g (upd a l g).
Proof. intros b Hb. by apply loc_upd_ne. Qed.

Definition fact_ok (m : memory) (g : ghost) (f : fact) : Prop :=
  match f with
  | FVer n s c => exists h, g_nodes g !! n = Some h /\ h_vers h !! s = Some c
  | FLb n e => exists h, g_nodes g !! n = Some h /\ e <= h_ep h
  | FPub p c => g_pub g !! p = Some c
  | FNode k n => m_stores m !! k = Some n
  end.

(** ** The invariant *)

Section inv.
(** The content of the lock that thread [a] takes, the initial database, and the
    length of the values of a table. *)
Context (lk : nat -> Z) (σ0 : db) (vlen : Z -> nat).

(** The pointer of a record leads to the bytes of a version. *)
Definition val_ok (pub : gmap N (list Z)) (v : option N) (c : option (list Z)) : Prop :=
  match v, c with
  | Some p, Some bytes => pub !! p = Some bytes
  | None, None => True
  | _, _ => False
  end.

Definition state_ok (pub : gmap N (list Z)) (nd : MemNode) (h : history) (st : option hstate) : Prop :=
  match st with
  | None => h_ep h = h_top h /\ n_seq nd = h_top h /\
      exists c, h_vers h !! h_top h = Some c /\ val_ok pub (n_value nd) c
  | Some (Locked s) => s = h_top h /\ h_ep h = h_top h /\ n_seq nd = h_top h /\
      exists c, h_vers h !! h_top h = Some c /\ val_ok pub (n_value nd) c
  | Some (Pend s c') => h_ep h = s /\ n_seq nd = s /\ h_top h = s + 2 /\ h_vers h !! (s + 2) = Some c' /\
      exists c, h_vers h !! s = Some c /\ val_ok pub (n_value nd) c
  | Some (Opened s c') => h_ep h = s + 1 /\ n_seq nd = 1 /\ h_top h = s + 2 /\
      h_vers h !! (s + 2) = Some c' /\ exists c, val_ok pub (n_value nd) c /\
      (forall b, c = Some b -> exists s', h_vers h !! s' = Some (Some b))
  | Some (Stored s c') => h_ep h = s + 1 /\ n_seq nd = 1 /\ h_top h = s + 2 /\
      h_vers h !! (s + 2) = Some c' /\ val_ok pub (n_value nd) c'
  end.

Definition owner_ok (g : ghost) (n : N) (nd : MemNode) (st : option hstate) : Prop :=
  match st with
  | None => n_lock nd = 0 /\ forall a, l_hold (loc a g) !! n = None
  | Some h => exists a, n_lock nd = lk a /\ l_hold (loc a g) !! n = Some h /\
      forall b, b <> a -> l_hold (loc b g) !! n = None
  end.

(** Versions are even, at most the last one, and no counter overflows within
    the next [k] accesses. *)
Definition history_ok (k : nat) (h : history) : Prop :=
  Z.even (h_top h) = true /\ 0 <= h_ep h <= h_top h /\ h_top h <= h_ep h + 2 /\
  h_ep h + 2 * Z.of_nat k + 4 < 2 ^ 64 /\
  (forall s c, h_vers h !! s = Some c -> s <= h_top h).

Record core (k : nat) (m : memory) (g : ghost) : Prop := {
  c_budget : 2 * Z.of_nat k + 4 < 2 ^ 64;
  c_dom : forall n, is_Some (m_nodes m !! n) <-> is_Some (g_nodes g !! n);
  c_node : forall n nd h, m_nodes m !! n = Some nd -> g_nodes g !! n = Some h ->
    history_ok k h /\ exists st, owner_ok g n nd st /\ state_ok (g_pub g) nd h st;
  c_hold : forall a n st, l_hold (loc a g) !! n = Some st -> is_Some (m_nodes m !! n);
  c_index : forall k n, m_stores m !! k = Some n -> is_Some (m_nodes m !! n);
  c_inj : forall k k' n, m_stores m !! k = Some n -> m_stores m !! k' = Some n -> k = k';
  c_db : forall k n h, m_stores m !! k = Some n -> g_nodes g !! n = Some h ->
    h_vers h !! h_top h = Some (g_db g !! k);
  c_absent : forall k, m_stores m !! k = None -> g_db g !! k = None;
  c_len : forall k n h s c, m_stores m !! k = Some n -> g_nodes g !! n = Some h ->
    h_vers h !! s = Some (Some c) -> length c = vlen k.1;
  c_pub : forall p c, g_pub g !! p = Some c -> m_bufs m !! p = Some c;
  c_priv : forall a p c, l_priv (loc a g) !! p = Some c ->
    m_bufs m !! p = Some c /\ g_pub g !! p = None /\
    forall b, b <> a -> l_priv (loc b g) !! p = None;
  c_next : forall p, (m_next m <= p)%N -> m_nodes m !! p = None /\ m_bufs m !! p = None;
  c_facts : forall a f, f ∈ l_facts (loc a g) -> fact_ok m g f
}.

Record Inv (k : nat) (m : memory) (g : ghost) : Prop := {
  i_core : core k m g;
  i_serial : serial σ0 (g_log g) (g_db g);
  i_done : forall a, l_done (loc a g) = snd <$> filter (fun e => e.1 = a) (g_log g)
}.

(** ** Accesses that change nothing *)

Lemma history_ok_mono k h : history_ok (S k) h -> history_ok k h.
Proof. intros (He & Hb & Ht & Hk & Hv). unfold history_ok. split_and!; [ done | lia | lia | lia | lia | done ]. Qed.

Lemma core_mono k m g : core (S k) m g -> core k m g.
Proof.
  intros [Hbud Hdom Hnode Hhold Hidx Hinj Hdb Habs Hlen Hpub Hpriv Hnext Hf]. split; try done; [ lia | ].
  intros n nd h Hn Hh. destruct (Hnode n nd h Hn Hh) as [Hk Hst].
  split; [ by apply history_ok_mono | done ].
Qed.

Lemma Inv_mono k m g : Inv (S k) m g -> Inv k m g.
Proof. intros [Hc Hs Hd]. split; [ by apply core_mono | done | done ]. Qed.

(** The same thread, with other facts. *)
Lemma loc_cases a b l g : loc b (upd a l g) = if decide (b = a) then l else loc b g.
Proof. unfold loc, upd; simpl. done. Qed.

Lemma hold_upd a l g b n :
  l_hold l = l_hold (loc a g) -> l_hold (loc b (upd a l g)) !! n = l_hold (loc b g) !! n.
Proof. intros Hl. rewrite loc_cases. destruct (decide (b = a)) as [-> |]; [ by rewrite Hl | done ]. Qed.

Lemma owner_ok_hold g g' n nd st :
  (forall b, l_hold (loc b g') !! n = l_hold (loc b g) !! n) -> owner_ok g n nd st -> owner_ok g' n nd st.
Proof.
  intros Hh. destruct st as [st |]; simpl.
  - intros (a & Hl & Ha & Hb). exists a. rewrite Hh. split_and!; [ done | done | ].
    intros b Hne. rewrite Hh. by apply Hb.
  - intros [Hl Ha]. split; [ done | ]. intros b. rewrite Hh. by apply Ha.
Qed.

Lemma fact_ok_upd m g a l f : fact_ok m (upd a l g) f <-> fact_ok m g f.
Proof. by destruct f. Qed.

Lemma core_facts k m g a l :
  core k m g -> l_hold l = l_hold (loc a g) -> l_priv l = l_priv (loc a g) ->
  (forall f, f ∈ l_facts l -> fact_ok m g f) -> core k m (upd a l g).
Proof.
  intros [Hbud Hdom Hnode Hhold Hidx Hinj Hdb Habs Hlen Hpub Hpriv Hnext Hf] Hh Hp Hl. split; try done.
  - intros n nd h Hn Hg. destruct (Hnode n nd h Hn Hg) as (Hk & st & Ho & Hst).
    split; [ done | ]. exists st. split; [ | done ].
    eapply owner_ok_hold; [ | done ]. intros b. by apply hold_upd.
  - intros b n st. rewrite hold_upd by done. by apply Hhold.
  - intros b p c. rewrite loc_cases. intros Hb.
    assert (l_priv (loc b g) !! p = Some c) as Hb'.
    { destruct (decide (b = a)) as [-> |]; [ by rewrite <- Hp | done ]. }
    destruct (Hpriv b p c Hb') as (H1 & H2 & H3). split_and!; [ done | done | ].
    intros b' Hne. rewrite loc_cases. destruct (decide (b' = a)) as [-> |]; [ rewrite Hp | ]; by apply H3.
  - intros b f. rewrite loc_cases. rewrite fact_ok_upd.
    destruct (decide (b = a)); [ apply Hl | apply Hf ].
Qed.

Definition know (f : fact) (l : local) : local :=
  {| l_hold := l_hold l; l_priv := l_priv l; l_facts := f :: l_facts l; l_done := l_done l |}.

Lemma Inv_know k m g a f :
  Inv k m g -> fact_ok m g f -> Inv k m (upd a (know f (loc a g)) g).
Proof.
  intros [Hc Hs Hd] Hf. split.
  - apply core_facts; [ done | done | done | ].
    intros f' [-> | Hf']%elem_of_cons; [ done | ]. by apply (c_facts k m g Hc a).
  - done.
  - intros b. rewrite loc_cases. destruct (decide (b = a)) as [-> |]; [ simpl | ]; apply Hd.
Qed.

(** ** Rules for loads *)

Local Notation AWP := (awp loc Inv).

Lemma known_node k m g a l key n :
  Inv k m g -> loc a g = l -> FNode key n ∈ l_facts l ->
  m_stores m !! key = Some n /\
  exists nd h st, m_nodes m !! n = Some nd /\ g_nodes g !! n = Some h /\ history_ok k h /\
    owner_ok g n nd st /\ state_ok (g_pub g) nd h st.
Proof.
  intros [Hc _ _] <- Hf. pose proof (c_facts k m g Hc a _ Hf) as Hk. simpl in Hk.
  split; [ done | ]. destruct (c_index k m g Hc _ _ Hk) as [nd Hnd].
  destruct (proj1 (c_dom k m g Hc n)) as [h Hh]; [ by exists nd | ].
  destruct (c_node k m g Hc n nd h Hnd Hh) as (Hok & st & Ho & Hst). by exists nd, h, st.
Qed.

(** A load: memory stays, and the thread may learn a fact. *)
Lemma awp_load {A R} a (o : op R) (f : R -> prog A) Q l :
  (forall k m g, Inv (S k) m g -> loc a g = l ->
    exists r, exec o m = Some (m, r) /\
    (AWP a (f r) Q l \/ exists ft, fact_ok m g ft /\ AWP a (f r) Q (know ft l))) ->
  AWP a (prog_bind (call o) f) Q l.
Proof.
  intros Hf. apply awp_do. intros k m g HI Hl.
  destruct (Hf k m g HI Hl) as (r & He & [Hw | (ft & Hft & Hw)]); exists m, r; (split; [ done | ]).
  - exists g. split; [ by apply Inv_mono | ]. split; [ apply others_refl | by rewrite Hl ].
  - exists (upd a (know ft (loc a g)) g). split; [ apply Inv_know; [ by apply Inv_mono | done ] | ].
    split; [ apply others_upd | ]. by rewrite loc_upd, Hl.
Qed.

Lemma exec_node {R} (o : op R) n m nd (f : MemNode -> memory * R) :
  m_nodes m !! n = Some nd -> exec o m = on_node n m f -> exec o m = Some (f nd).
Proof. intros Hn ->. unfold on_node. by rewrite Hn. Qed.

(** What the sequence number says: it is odd (1) while a version is being
    installed, and otherwise the epoch. *)
Lemma seq_epoch k pub nd h st :
  history_ok k h -> state_ok pub nd h st ->
  (n_seq nd = h_ep h /\ Z.even (h_ep h) = true) \/ (n_seq nd = 1 /\ Z.even (h_ep h) = false).
Proof.
  intros (He & _) Hst. destruct st as [[s | s c | s c | s c] |]; simpl in Hst.
  - destruct Hst as (-> & Hep & Hs & _). left. by rewrite Hs, Hep.
  - destruct Hst as (Hep & Hs & Ht & _). left. rewrite Hs, Hep. split; [ done | ].
    rewrite Ht in He. by rewrite Z.even_add in He; destruct (Z.even s).
  - destruct Hst as (Hep & Hs & Ht & _). right. split; [ done | ].
    rewrite Ht, Z.even_add in He. rewrite Hep, Z.even_add. by destruct (Z.even s).
  - destruct Hst as (Hep & Hs & Ht & _). right. split; [ done | ].
    rewrite Ht, Z.even_add in He. rewrite Hep, Z.even_add. by destruct (Z.even s).
  - destruct Hst as (Hep & Hs & _). left. by rewrite Hs, Hep.
Qed.

Lemma awp_load_seq {A} a key n (f : Z -> prog A) Q l :
  FNode key n ∈ l_facts l ->
  (forall s, Z.even s = true -> AWP a (f s) Q (know (FLb n s) l)) -> AWP a (f 1) Q l ->
  AWP a (prog_bind (call (LoadSeq n)) f) Q l.
Proof.
  intros Hk H1 H2. apply awp_load. intros k m g HI Hl.
  destruct (known_node _ _ _ _ _ _ _ HI Hl Hk) as (_ & nd & h & st & Hn & Hh & Hok & _ & Hst).
  exists (n_seq nd). split; [ by apply exec_node with (n := n) (nd := nd) (f := fun nd => (m, n_seq nd)) | ].
  destruct (seq_epoch _ _ _ _ _ Hok Hst) as [[Hs He] | [Hs _]]; rewrite Hs.
  - right. exists (FLb n (h_ep h)). split; [ | by apply H1 ]. exists h. split; [ done | lia ].
  - by left.
Qed.

Lemma awp_load_seq_any {A} a key n (f : Z -> prog A) Q l :
  FNode key n ∈ l_facts l -> (forall s, AWP a (f s) Q l) ->
  AWP a (prog_bind (call (LoadSeq n)) f) Q l.
Proof.
  intros Hk H1. apply awp_load. intros k m g HI Hl.
  destruct (known_node _ _ _ _ _ _ _ HI Hl Hk) as (_ & nd & h & st & Hn & _).
  exists (n_seq nd). split; [ by apply exec_node with (n := n) (nd := nd) (f := fun nd => (m, n_seq nd)) | ].
  by left.
Qed.

Lemma awp_load_lock {A} a key n (f : Z -> prog A) Q l :
  FNode key n ∈ l_facts l -> (forall v, AWP a (f v) Q l) ->
  AWP a (prog_bind (call (LoadLock n)) f) Q l.
Proof.
  intros Hk H1. apply awp_load. intros k m g HI Hl.
  destruct (known_node _ _ _ _ _ _ _ HI Hl Hk) as (_ & nd & h & st & Hn & _).
  exists (n_lock nd). split; [ by apply exec_node with (n := n) (nd := nd) (f := fun nd => (m, n_lock nd)) | ].
  by left.
Qed.

Lemma awp_load_value_any {A} a key n (f : option N -> prog A) Q l :
  FNode key n ∈ l_facts l -> (forall v, AWP a (f v) Q l) ->
  AWP a (prog_bind (call (LoadValue n)) f) Q l.
Proof.
  intros Hk H1. apply awp_load. intros k m g HI Hl.
  destruct (known_node _ _ _ _ _ _ _ HI Hl Hk) as (_ & nd & h & st & Hn & _).
  exists (n_value nd). split; [ by apply exec_node with (n := n) (nd := nd) (f := fun nd => (m, n_value nd)) | ].
  by left.
Qed.

(** The pointer of a record leads to a published value, which is that of the
    present version when none is being installed. *)
Lemma value_version k pub nd h st :
  history_ok k h -> state_ok pub nd h st ->
  exists c, val_ok pub (n_value nd) c /\
    (forall b, c = Some b -> exists s, h_vers h !! s = Some (Some b)) /\
    (Z.even (h_ep h) = true -> h_vers h !! h_ep h = Some c).
Proof.
  intros (He & _) Hst.
  assert (forall s, h_top h = s + 2 -> Z.even (s + 1) = true -> False) as Hodd.
  { intros s Ht Hs. rewrite Ht, Z.even_add in He. rewrite Z.even_add in Hs. by destruct (Z.even s). }
  destruct st as [[s | s c' | s c' | s c'] |]; simpl in Hst.
  - destruct Hst as (-> & Hep & _ & c & Hv & Hc). exists c. rewrite Hep.
    split_and!; [ done | intros b ->; by eexists | done ].
  - destruct Hst as (Hep & _ & _ & _ & c & Hv & Hc). exists c. rewrite Hep.
    split_and!; [ done | intros b ->; by eexists | done ].
  - destruct Hst as (Hep & _ & Ht & _ & c & Hc & Hb). exists c. split_and!; [ done | done | ].
    rewrite Hep. intros Hev. by destruct (Hodd s Ht Hev).
  - destruct Hst as (Hep & _ & Ht & Hv & Hc). exists c'.
    split_and!; [ done | intros b ->; by eexists | ].
    rewrite Hep. intros Hev. by destruct (Hodd s Ht Hev).
  - destruct Hst as (Hep & _ & c & Hv & Hc). exists c. rewrite Hep.
    split_and!; [ done | intros b ->; by eexists | done ].
Qed.

Lemma awp_load_value {A} a key n s (f : option N -> prog A) Q l :
  FNode key n ∈ l_facts l -> FLb n s ∈ l_facts l -> Z.even s = true ->
  AWP a (f None) Q l ->
  (forall p c ft, length c = vlen key.1 -> ft = FVer n s (Some c) \/ ft = FLb n (s + 1) ->
    AWP a (f (Some p)) Q (know (FPub p c) (know ft l))) ->
  AWP a (prog_bind (call (LoadValue n)) f) Q l.
Proof.
  intros Hk Hlb Hs H1 H2. apply awp_do. intros k m g HI Hl.
  destruct (known_node _ _ _ _ _ _ _ HI Hl Hk) as (Hkey & nd & h & st & Hn & Hh & Hok & _ & Hst).
  exists m, (n_value nd).
  split; [ by apply exec_node with (n := n) (nd := nd) (f := fun nd => (m, n_value nd)) | ].
  destruct (value_version _ _ _ _ _ Hok Hst) as (c & Hc & Hb & Hev).
  pose proof HI as HI0. destruct HI0 as [Hcore _ _].
  assert (exists h', g_nodes g !! n = Some h' /\ s <= h_ep h') as (h' & Hh' & Hle).
  { rewrite <- Hl in Hlb. exact (c_facts _ m g Hcore a _ Hlb). }
  rewrite Hh in Hh'. simplify_eq.
  destruct (n_value nd) as [p |]; destruct c as [b |]; simpl in Hc; try done; last first.
  { exists g. split; [ by apply Inv_mono | ]. split; [ apply others_refl | done ]. }
  destruct (Hb b eq_refl) as [s' Hs'].
  pose proof (c_len _ m g Hcore _ _ _ _ _ Hkey Hh Hs') as Hlen.
  assert (exists ft, (ft = FVer n s (Some b) \/ ft = FLb n (s + 1)) /\ fact_ok m g ft) as (ft & Hft & Hftok).
  { destruct (decide (h_ep h' = s)) as [Heq | Hne].
    - exists (FVer n s (Some b)). split; [ by left | ]. exists h'. split; [ done | ].
      rewrite <- Heq. apply Hev. by rewrite Heq.
    - exists (FLb n (s + 1)). split; [ by right | ]. exists h'. split; [ done | lia ]. }
  set (g1 := upd a (know ft (loc a g)) g).
  assert (Inv k m g1) as HI1 by (apply Inv_know; [ by apply Inv_mono | done ]).
  exists (upd a (know (FPub p b) (loc a g1)) g1). split; [ by apply Inv_know | ].
  split; [ eapply others_trans; apply others_upd | ].
  rewrite loc_upd. unfold g1. rewrite loc_upd. by apply H2.
Qed.

(** The second look at the sequence number in get. *)
Lemma awp_load_seq_again {A} a key n s ft c (f : Z -> prog A) Q l :
  FNode key n ∈ l_facts l -> Z.even s = true ->
  ft ∈ l_facts l -> ft = FVer n s (Some c) \/ ft = FLb n (s + 1) ->
  (forall s', s' <> s -> AWP a (f s') Q l) ->
  (FVer n s (Some c) ∈ l_facts l -> AWP a (f s) Q l) ->
  AWP a (prog_bind (call (LoadSeq n)) f) Q l.
Proof.
  intros Hk Hs Hin Hft H1 H2. apply awp_load. intros k m g HI Hl.
  destruct (known_node _ _ _ _ _ _ _ HI Hl Hk) as (_ & nd & h & st & Hn & Hh & Hok & _ & Hst).
  exists (n_seq nd). split; [ by apply exec_node with (n := n) (nd := nd) (f := fun nd => (m, n_seq nd)) | ].
  left. destruct (decide (n_seq nd = s)) as [Heq | Hne]; [ | by apply H1 ].
  rewrite Heq. apply H2. destruct Hft as [-> | ->]; [ done | exfalso ].
  destruct HI as [Hcore _ _]. rewrite <- Hl in Hin.
  destruct (c_facts _ m g Hcore a _ Hin) as (h' & Hh' & Hle). simplify_eq.
  destruct (seq_epoch _ _ _ _ _ Hok Hst) as [[Hs' _] | [Hs' _]]; [ lia | ].
  rewrite Hs' in Hs. done.
Qed.

Lemma awp_load_pub {A} a p c i v (f : Z -> prog A) Q l :
  FPub p c ∈ l_facts l -> c !! i = Some v -> AWP a (f v) Q l ->
  AWP a (prog_bind (call (LoadByte p i)) f) Q l.
Proof.
  intros Hf Hi Hw. apply awp_load. intros k m g [Hcore _ _] Hl. exists v. split; [ | by left ].
  rewrite <- Hl in Hf. pose proof (c_facts _ m g Hcore a _ Hf) as Hp. simpl in Hp.
  apply (c_pub _ m g Hcore) in Hp. simpl. rewrite Hp. simpl. by rewrite Hi.
Qed.

Lemma awp_load_priv {A} a p c i v (f : Z -> prog A) Q l :
  l_priv l !! p = Some c -> c !! i = Some v -> AWP a (f v) Q l ->
  AWP a (prog_bind (call (LoadByte p i)) f) Q l.
Proof.
  intros Hp Hi Hw. apply awp_load. intros k m g [Hcore _ _] Hl. exists v. split; [ | by left ].
  rewrite <- Hl in Hp. destruct (c_priv _ m g Hcore _ _ _ Hp) as (Hb & _).
  simpl. rewrite Hb. simpl. by rewrite Hi.
Qed.

(** ** Private memory *)

Definition set_priv (pr : gmap N (list Z)) (l : local) : local :=
  {| l_hold := l_hold l; l_priv := pr; l_facts := l_facts l; l_done := l_done l |}.

Lemma core_priv k m g a m' l' :
  core k m g -> m_nodes m' = m_nodes m -> m_stores m' = m_stores m -> (m_next m <= m_next m')%N ->
  l_hold l' = l_hold (loc a g) -> l_facts l' = l_facts (loc a g) ->
  (forall p, is_Some (g_pub g !! p) \/ (exists b, b <> a /\ is_Some (l_priv (loc b g) !! p)) ->
    m_bufs m' !! p = m_bufs m !! p) ->
  (forall p c, l_priv l' !! p = Some c ->
    m_bufs m' !! p = Some c /\ g_pub g !! p = None /\ forall b, b <> a -> l_priv (loc b g) !! p = None) ->
  (forall p, (m_next m' <= p)%N -> m_bufs m' !! p = None) ->
  core k m' (upd a l' g).
Proof.
  intros [Hbud Hdom Hnode Hhold Hidx Hinj Hdb Habs Hlen Hpub Hpriv Hnext Hf]
    Hmn Hms Hnx Hh Hlf Hb Hp' Hn'. split; rewrite ?Hmn, ?Hms; try done.
  - intros n nd h Hn Hg. destruct (Hnode n nd h Hn Hg) as (Hk & st & Ho & Hst).
    split; [ done | ]. exists st. split; [ | done ].
    eapply owner_ok_hold; [ | done ]. intros b. by apply hold_upd.
  - intros b n st. rewrite hold_upd by done. by apply Hhold.
  - intros p c Hc. simpl in Hc. rewrite Hb by (left; by eexists). by apply Hpub.
  - intros b p c. rewrite loc_cases. destruct (decide (b = a)) as [-> | Hne]; intros Hbp.
    + destruct (Hp' p c Hbp) as (H1 & H2 & H3). split_and!; [ done | done | ].
      intros b' Hne. rewrite loc_upd_ne by done. by apply H3.
    + destruct (Hpriv b p c Hbp) as (H1 & H2 & H3).
      split_and!; [ | done | ].
      * rewrite Hb; [ done | right; exists b; split; [ done | by eexists ] ].
      * intros b' Hne'. rewrite loc_cases. destruct (decide (b' = a)) as [-> |]; [ | by apply H3 ].
        destruct (l_priv l' !! p) as [c' |] eqn:Hc'; [ | done ].
        destruct (Hp' p c' Hc') as (_ & _ & H3'). rewrite (H3' b Hne) in Hbp. done.
  - intros p Hp. split; [ | by apply Hn' ]. apply Hnext. lia.
  - intros b f. rewrite loc_cases.
    assert (fact_ok m' (upd a l' g) f <-> fact_ok m g f) as ->
      by (destruct f; simpl; [ done | done | done | by rewrite Hms ]).
    destruct (decide (b = a)) as [-> |]; [ rewrite Hlf | ]; apply Hf.
Qed.

(** Ghost updates that leave the log alone. *)
Lemma Inv_upd k g a m' l' :
  core k m' (upd a l' g) -> serial σ0 (g_log g) (g_db g) ->
  (forall b, l_done (loc b g) = snd <$> filter (fun e => e.1 = b) (g_log g)) ->
  l_done l' = l_done (loc a g) -> Inv k m' (upd a l' g).
Proof.
  intros Hc Hs Hd Hl. split; [ done | done | ].
  intros b. rewrite loc_cases. destruct (decide (b = a)) as [-> |]; [ rewrite Hl | ]; apply Hd.
Qed.

Lemma priv_fresh k m g a p : core k m g -> (m_next m <= p)%N -> l_priv (loc a g) !! p = None.
Proof.
  intros Hc Hp. destruct (l_priv (loc a g) !! p) as [c |] eqn:He; [ | done ].
  destruct (c_priv _ _ _ Hc _ _ _ He) as (Hb & _). destruct (c_next _ _ _ Hc p Hp) as [_ Hn]. by simplify_eq.
Qed.

Lemma pub_fresh k m g p : core k m g -> (m_next m <= p)%N -> g_pub g !! p = None.
Proof.
  intros Hc Hp. destruct (g_pub g !! p) as [c |] eqn:He; [ | done ].
  apply (c_pub _ _ _ Hc) in He. destruct (c_next _ _ _ Hc p Hp) as [_ Hn]. by simplify_eq.
Qed.

Lemma awp_malloc {A} a bytes (f : N -> prog A) Q l :
  (forall p, l_priv l !! p = None -> AWP a (f p) Q (set_priv (<[p := bytes]> (l_priv l)) l)) ->
  AWP a (prog_bind (call (Malloc bytes)) f) Q l.
Proof.
  intros Hf. apply awp_do. intros k m g HI Hl. apply Inv_mono in HI. destruct HI as [Hc Hs Hd].
  assert (l_priv l !! m_next m = None) as Hfr by (rewrite <- Hl; by eapply priv_fresh).
  assert (g_pub g !! m_next m = None) as Hpf by by eapply pub_fresh.
  eexists _, (m_next m). split; [ reflexivity | ].
  exists (upd a (set_priv (<[m_next m := bytes]> (l_priv l)) l) g).
  split; [ | split; [ apply others_upd | rewrite loc_upd; by apply Hf ] ].
  apply Inv_upd; [ | done | done | by simpl; rewrite Hl ].
  apply core_priv with (m := m); simpl; [ done | done | done | lia | by rewrite Hl | by rewrite Hl | | | ].
  - intros p Hp. rewrite lookup_insert_ne; [ done | ]. intros <-.
    destruct Hp as [[c Hp] | (b & _ & [c Hp])]; [ by simplify_eq | ].
    rewrite (priv_fresh _ _ _ b _ Hc) in Hp; [ done | lia ].
  - intros p c. destruct (decide (p = m_next m)) as [-> | Hne].
    + rewrite !lookup_insert_eq. intros [= <-]. split_and!; [ done | done | ].
      intros b _. by eapply priv_fresh.
    + rewrite !lookup_insert_ne by done. rewrite <- Hl. by apply (c_priv _ _ _ Hc).
  - intros p Hp. rewrite lookup_insert_ne by lia. apply (c_next _ _ _ Hc). lia.
Qed.

Lemma awp_store_priv {A} a p c i v (f : unit -> prog A) Q l :
  l_priv l !! p = Some c -> is_Some (c !! i) ->
  AWP a (f tt) Q (set_priv (<[p := <[i := v]> c]> (l_priv l)) l) ->
  AWP a (prog_bind (call (StoreByte p i v)) f) Q l.
Proof.
  intros Hp [w Hi] Hf. apply awp_do. intros k m g HI Hl. apply Inv_mono in HI. destruct HI as [Hc Hs Hd].
  rewrite <- Hl in Hp. destruct (c_priv _ _ _ Hc _ _ _ Hp) as (Hb & Hpub & Hoth).
  eexists _, tt. split; [ simpl; rewrite Hb; simpl; rewrite Hi; reflexivity | ].
  exists (upd a (set_priv (<[p := <[i := v]> c]> (l_priv l)) l) g).
  split; [ | split; [ apply others_upd | rewrite loc_upd; apply Hf ] ].
  apply Inv_upd; [ | done | done | by simpl; rewrite Hl ].
  apply core_priv with (m := m); simpl; [ done | done | done | lia | by rewrite Hl | by rewrite Hl | | | ].
  - intros q Hq. rewrite lookup_insert_ne; [ done | ]. intros <-.
    destruct Hq as [[c' Hq] | (b & Hne & [c' Hq])]; [ by simplify_eq | ].
    rewrite (Hoth b Hne) in Hq. done.
  - intros q c'. destruct (decide (q = p)) as [-> | Hne].
    + rewrite !lookup_insert_eq. intros [= <-]. done.
    + rewrite !lookup_insert_ne by done. rewrite <- Hl. by apply (c_priv _ _ _ Hc).
  - intros q Hq. rewrite lookup_insert_ne; [ by apply (c_next _ _ _ Hc) | ]. intros <-.
    destruct (c_next _ _ _ Hc p Hq) as [_ Hn]. by simplify_eq.
Qed.

Lemma awp_free {A} a p c (f : unit -> prog A) Q l :
  l_priv l !! p = Some c -> AWP a (f tt) Q (set_priv (delete p (l_priv l)) l) ->
  AWP a (prog_bind (call (Free p)) f) Q l.
Proof.
  intros Hp Hf. apply awp_do. intros k m g HI Hl. apply Inv_mono in HI. destruct HI as [Hc Hs Hd].
  rewrite <- Hl in Hp. destruct (c_priv _ _ _ Hc _ _ _ Hp) as (Hb & Hpub & Hoth).
  eexists _, tt. split; [ simpl; rewrite Hb; reflexivity | ].
  exists (upd a (set_priv (delete p (l_priv l)) l) g).
  split; [ | split; [ apply others_upd | rewrite loc_upd; apply Hf ] ].
  apply Inv_upd; [ | done | done | by simpl; rewrite Hl ].
  apply core_priv with (m := m); simpl; [ done | done | done | lia | by rewrite Hl | by rewrite Hl | | | ].
  - intros q Hq. rewrite lookup_delete_ne; [ done | ]. intros <-.
    destruct Hq as [[c' Hq] | (b & Hne & [c' Hq])]; [ by simplify_eq | ].
    rewrite (Hoth b Hne) in Hq. done.
  - intros q c'. destruct (decide (q = p)) as [-> | Hne]; [ by rewrite lookup_delete_eq | ].
    rewrite !lookup_delete_ne by done. rewrite <- Hl. by apply (c_priv _ _ _ Hc).
  - intros q Hq. destruct (decide (q = p)) as [-> | Hne]; [ by rewrite lookup_delete_eq | ].
    rewrite lookup_delete_ne by done. by apply (c_next _ _ _ Hc).
Qed.

(** ** Looking up a record *)

Definition new_history : history := {| h_ep := 0; h_top := 0; h_vers := {[ 0 := None ]} |}.

Definition add_history (n : N) (h : history) (g : ghost) : ghost :=
  {| g_nodes := <[n := h]> (g_nodes g); g_pub := g_pub g; g_log := g_log g; g_db := g_db g;
     g_loc := g_loc g |}.

Lemma core_insert k m g key :
  core k m g -> m_stores m !! key = None ->
  core k (get_with_insert false key m).1 (add_history (m_next m) new_history g).
Proof.
  intros [Hbud Hdom Hnode Hhold Hidx Hinj Hdb Habs Hlen Hpub Hpriv Hnext Hf] Hkey.
  unfold get_with_insert. rewrite Hkey. simpl.
  destruct (Hnext (m_next m)) as [Hfn Hfb]; [ lia | ].
  assert (forall a, l_hold (loc a g) !! m_next m = None) as Hfh.
  { intros a. destruct (l_hold (loc a g) !! m_next m) as [st |] eqn:He; [ | done ].
    apply Hhold in He. destruct He as [nd He]. by simplify_eq. }
  assert (forall k' n, m_stores m !! k' = Some n -> n <> m_next m) as Hold.
  { intros k' n Hk ->. apply Hidx in Hk as [nd Hk]. by simplify_eq. }
  split; simpl.
  - done.
  - intros n. destruct (decide (n = m_next m)) as [-> | Hne];
      [ rewrite !lookup_insert_eq; split; by eexists | by rewrite !lookup_insert_ne ].
  - intros n nd h. destruct (decide (n = m_next m)) as [-> | Hne].
    + rewrite !lookup_insert_eq. intros [= <-] [= <-]. split.
      * unfold history_ok, new_history; simpl. split_and!; [ done | lia | lia | lia | lia | ].
        intros s c. rewrite lookup_singleton_Some. lia.
      * exists None. split; [ split; [ done | exact Hfh ] | ].
        simpl. split_and!; [ done | done | ]. by exists None.
    + rewrite !lookup_insert_ne by done. by apply Hnode.
  - intros a n st Hst. destruct (decide (n = m_next m)) as [-> | Hne];
      [ by rewrite lookup_insert_eq | rewrite lookup_insert_ne by done; by eapply Hhold ].
  - intros k' n. destruct (decide (k' = key)) as [-> | Hk'].
    + rewrite lookup_insert_eq. intros [= <-]. by rewrite lookup_insert_eq.
    + rewrite lookup_insert_ne by done. intros Hk.
      rewrite lookup_insert_ne by (intros <-; by eapply Hold). by eapply Hidx.
  - intros k1 k2 n. destruct (decide (k1 = key)) as [-> | H1], (decide (k2 = key)) as [-> | H2];
      rewrite ?lookup_insert_eq, ?lookup_insert_ne by done; try done.
    + intros [= <-] Hk. by apply Hold in Hk.
    + intros Hk [= <-]. by apply Hold in Hk.
    + by apply Hinj.
  - intros k' n h. destruct (decide (k' = key)) as [-> | Hk'].
    + rewrite lookup_insert_eq. intros [= <-]. rewrite lookup_insert_eq. intros [= <-].
      rewrite (Habs key Hkey). done.
    + rewrite lookup_insert_ne by done. intros Hk.
      rewrite lookup_insert_ne by (intros <-; by eapply Hold). by apply Hdb.
  - intros k'. destruct (decide (k' = key)) as [-> | Hk'];
      [ by rewrite lookup_insert_eq | rewrite lookup_insert_ne by done; apply Habs ].
  - intros k' n h s c. destruct (decide (k' = key)) as [-> | Hk'].
    + rewrite lookup_insert_eq. intros [= <-]. rewrite lookup_insert_eq. intros [= <-].
      simpl. rewrite lookup_singleton_Some. by intros [_ [=]].
    + rewrite lookup_insert_ne by done. intros Hk.
      rewrite lookup_insert_ne by (intros <-; by eapply Hold). by eapply Hlen.
  - done.
  - done.
  - intros p Hp. destruct (Hnext p) as [H1 H2]; [ lia | ]. by rewrite lookup_insert_ne by lia.
  - intros a f Hin. apply Hf in Hin.
    assert (forall n h, g_nodes g !! n = Some h -> n <> m_next m) as Hg.
    { intros n h Hn ->. destruct (proj2 (Hdom (m_next m))) as [nd Hnd]; [ by exists h | by simplify_eq ]. }
    destruct f as [n s c | n e | p c | k' n]; simpl in *.
    + destruct Hin as (h & Hn & Hv). exists h. by rewrite lookup_insert_ne by (intros <-; by eapply Hg).
    + destruct Hin as (h & Hn & Hv). exists h. by rewrite lookup_insert_ne by (intros <-; by eapply Hg).
    + done.
    + rewrite lookup_insert_ne; [ done | ]. intros ->. by simplify_eq.
Qed.

Lemma awp_lookup {A} a t key (f : N -> prog A) Q l :
  (forall n, AWP a (f n) Q (know (FNode (t, key) n) l)) ->
  AWP a (prog_bind (call (GetWithInsert false t key)) f) Q l.
Proof.
  intros Hf. apply awp_do. intros k m g HI Hl. apply Inv_mono in HI.
  destruct (m_stores m !! (t, key)) as [n |] eqn:Hk.
  - exists m, n. split; [ simpl; unfold get_with_insert; by rewrite Hk | ].
    exists (upd a (know (FNode (t, key) n) (loc a g)) g).
    split; [ by apply Inv_know | ]. split; [ apply others_upd | ].
    rewrite loc_upd, Hl. apply Hf.
  - pose proof HI as [Hc Hs Hd].
    exists (get_with_insert false (t, key) m).1, (m_next m).
    split; [ simpl; unfold get_with_insert; by rewrite Hk | ].
    set (g1 := add_history (m_next m) new_history g).
    assert (Inv k (get_with_insert false (t, key) m).1 g1) as HI1
      by (split; [ by apply core_insert | done | done ]).
    exists (upd a (know (FNode (t, key) (m_next m)) (loc a g1)) g1). split.
    + apply Inv_know; [ done | ]. simpl. unfold get_with_insert. rewrite Hk. simpl.
      by rewrite lookup_insert_eq.
    + split; [ | rewrite loc_upd; change (loc a g1) with (loc a g); rewrite Hl; apply Hf ].
      intros b Hb. by rewrite loc_upd_ne.
Qed.

(** ** Locked records *)

#[local] Arguments loc : simpl never.

Definition set_hold (h : gmap N hstate) (l : local) : local :=
  {| l_hold := h; l_priv := l_priv l; l_facts := l_facts l; l_done := l_done l |}.

(** Thread [a] changes record [n], and its own state for it. *)
Lemma core_node k k' m g a n nd nd' h h' l' st' :
  core k m g -> (k' <= k)%nat -> m_nodes m !! n = Some nd -> g_nodes g !! n = Some h ->
  l_priv l' = l_priv (loc a g) -> l_facts l' = l_facts (loc a g) ->
  (forall n', n' <> n -> l_hold l' !! n' = l_hold (loc a g) !! n') ->
  h_ep h <= h_ep h' -> h_top h' = h_top h -> h_vers h' = h_vers h -> history_ok k' h' ->
  owner_ok (upd a l' g) n nd' st' -> state_ok (g_pub g) nd' h' st' ->
  core k' (set_node n nd' m) (upd a l' (add_history n h' g)).
Proof.
  intros [Hbud Hdom Hnode Hhold Hidx Hinj Hdb Habs Hlen Hpub Hpriv Hnext Hf] Hk Hn Hg Hp Hlf Hoth
    Hep Htop Hvers Hok Hown Hst.
  assert (forall b n', n' <> n -> l_hold (loc b (upd a l' g)) !! n' = l_hold (loc b g) !! n') as Hsame.
  { intros b n' Hne. rewrite loc_cases. destruct (decide (b = a)) as [-> |]; [ by apply Hoth | done ]. }
  assert (forall b, l_priv (loc b (upd a l' g)) = l_priv (loc b g)) as Hsp.
  { intros b. rewrite loc_cases. by destruct (decide (b = a)) as [-> |]. }
  split; simpl.
  - lia.
  - intros n'. destruct (decide (n' = n)) as [-> | Hne];
      [ rewrite !lookup_insert_eq; split; by eexists | by rewrite !lookup_insert_ne ].
  - intros n' nd1 h1. destruct (decide (n' = n)) as [-> | Hne].
    + rewrite !lookup_insert_eq. intros [= <-] [= <-]. split; [ done | ]. by exists st'.
    + rewrite !lookup_insert_ne by done. intros Hn' Hg'.
      destruct (Hnode n' nd1 h1 Hn' Hg') as ((He1 & Hb1 & Ht1 & Hk1 & Hv1) & st & Ho1 & Hst1). split.
      * unfold history_ok. split_and!; try done; lia.
      * exists st. split; [ | done ]. eapply owner_ok_hold; [ | done ]. intros b. by apply (Hsame b).
  - intros b n' st. destruct (decide (n' = n)) as [-> | Hne]; [ by rewrite lookup_insert_eq | ].
    rewrite lookup_insert_ne by done. intros Hb. apply (Hhold b n' st).
    rewrite <- (Hsame b n' Hne). done.
  - intros k1 n' Hk1. destruct (decide (n' = n)) as [-> | Hne]; [ by rewrite lookup_insert_eq | ].
    rewrite lookup_insert_ne by done. by eapply Hidx.
  - done.
  - intros k1 n' h1 Hk1. destruct (decide (n' = n)) as [-> | Hne].
    + rewrite lookup_insert_eq. intros [= <-]. rewrite Htop, Hvers. by eapply Hdb.
    + rewrite lookup_insert_ne by done. by apply Hdb.
  - done.
  - intros k1 n' h1 s c Hk1. destruct (decide (n' = n)) as [-> | Hne].
    + rewrite lookup_insert_eq. intros [= <-]. rewrite Hvers. by eapply Hlen.
    + rewrite lookup_insert_ne by done. by eapply Hlen.
  - done.
  - intros b p c Hb. rewrite <- (Hsp b) in Hb || idtac.
    assert (l_priv (loc b g) !! p = Some c) as Hb' by (rewrite <- (Hsp b); exact Hb).
    destruct (Hpriv b p c Hb') as (H1 & H2 & H3). split_and!; [ done | done | ].
    intros b' Hne. change (l_priv (loc b' (upd a l' g)) !! p = None). rewrite Hsp. by apply H3.
  - intros p Hp'. destruct (Hnext p Hp') as [H1 H2]. split; [ | done ].
    rewrite lookup_insert_ne; [ done | ]. intros <-. by simplify_eq.
  - intros b f Hin.
    assert (f ∈ l_facts (loc b g)) as Hin'.
    { change (f ∈ l_facts (loc b (upd a l' g))) in Hin. rewrite loc_cases in Hin.
      destruct (decide (b = a)) as [-> |]; [ by rewrite <- Hlf | done ]. }
    apply Hf in Hin'. destruct f as [n' s c | n' e | p c | k1 n']; simpl in *; try done.
    + destruct Hin' as (h1 & Hn1 & Hv1). destruct (decide (n' = n)) as [-> | Hne].
      * exists h'. rewrite lookup_insert_eq. simplify_eq. split; [ done | by rewrite Hvers ].
      * exists h1. by rewrite lookup_insert_ne.
    + destruct Hin' as (h1 & Hn1 & Hv1). destruct (decide (n' = n)) as [-> | Hne].
      * exists h'. rewrite lookup_insert_eq. simplify_eq. split; [ done | lia ].
      * exists h1. by rewrite lookup_insert_ne.
Qed.

(** The record a thread holds is locked by it. *)
Lemma held_node k m g a n st :
  core k m g -> l_hold (loc a g) !! n = Some st ->
  exists nd h, m_nodes m !! n = Some nd /\ g_nodes g !! n = Some h /\ history_ok k h /\
    n_lock nd = lk a /\ (forall b, b <> a -> l_hold (loc b g) !! n = None) /\
    state_ok (g_pub g) nd h (Some st).
Proof.
  intros Hc Hh. destruct (c_hold _ _ _ Hc _ _ _ Hh) as [nd Hn].
  destruct (proj1 (c_dom _ _ _ Hc n)) as [h Hg]; [ by exists nd | ].
  destruct (c_node _ _ _ Hc n nd h Hn Hg) as (Hok & [st0 |] & Ho & Hst); simpl in Ho.
  - destruct Ho as (a' & Hl & Ha' & Hb). destruct (decide (a = a')) as [<- | Hne].
    + rewrite Hh in Ha'. simplify_eq. by exists nd, h.
    + rewrite (Hb a Hne) in Hh. done.
  - destruct Ho as [_ Ho]. rewrite Ho in Hh. done.
Qed.

(** The holder of a record changes it. *)
Lemma awp_held {A} a n st st' (o : op unit) (F : MemNode -> MemNode) (E : history -> Z)
    (f : unit -> prog A) Q l :
  l_hold l !! n = Some st ->
  (forall m, exec o m = on_node n m (fun nd => (set_node n (F nd) m, tt))) ->
  (forall nd, n_lock (F nd) = n_lock nd) ->
  (forall k m g nd h, Inv (S k) m g -> loc a g = l -> m_nodes m !! n = Some nd -> history_ok (S k) h ->
    state_ok (g_pub g) nd h (Some st) ->
    h_ep h <= E h <= h_ep h + 1 /\ E h <= h_top h <= E h + 2 /\
    state_ok (g_pub g) (F nd) {| h_ep := E h; h_top := h_top h; h_vers := h_vers h |} (Some st')) ->
  AWP a (f tt) Q (set_hold (<[n := st']> (l_hold l)) l) ->
  AWP a (prog_bind (call o) f) Q l.
Proof.
  intros Hh He HF Hst Hf. apply awp_do. intros k m g HI Hl. pose proof HI as [Hc Hs Hd].
  rewrite <- Hl in Hh.
  destruct (held_node _ _ _ _ _ _ Hc Hh) as (nd & h & Hn & Hg & Hok & Hlk & Hoth & Hst0).
  destruct (Hst k m g nd h HI Hl Hn Hok Hst0) as (He1 & Ht1 & Hst1).
  exists (set_node n (F nd) m), tt.
  split; [ rewrite He; unfold on_node; by rewrite Hn | ].
  set (h1 := {| h_ep := E h; h_top := h_top h; h_vers := h_vers h |}) in *.
  exists (upd a (set_hold (<[n := st']> (l_hold l)) l) (add_history n h1 g)).
  split; [ | split; [ intros b Hb; by rewrite loc_upd_ne | rewrite loc_upd; apply Hf ] ].
  apply Inv_upd; [ | done | done | simpl; by rewrite <- Hl ].
  eapply core_node with (k := S k) (nd := nd) (h := h); try done; simpl.
  - lia.
  - by rewrite <- Hl.
  - by rewrite <- Hl.
  - intros n' Hne. rewrite lookup_insert_ne by done. by rewrite <- Hl.
  - lia.
  - destruct Hok as (Hev & Hb1 & Hb2 & Hk1 & Hv1). unfold history_ok; simpl.
    split_and!; [ done | lia | lia | lia | lia | done ].
  - exists a. split_and!; [ by rewrite HF | | ].
    + rewrite loc_upd. simpl. by rewrite lookup_insert_eq.
    + intros b Hb. rewrite loc_upd_ne by done. by apply Hoth.
Qed.

(** Installing a version: seq becomes 1, ... *)
Lemma awp_open {A} a n s c (f : unit -> prog A) Q l :
  l_hold l !! n = Some (Pend s c) ->
  AWP a (f tt) Q (set_hold (<[n := Opened s c]> (l_hold l)) l) ->
  AWP a (prog_bind (call (StoreSeq n 1)) f) Q l.
Proof.
  intros Hh. apply awp_held with (st := Pend s c) (E := fun h => h_ep h + 1)
    (F := fun nd => {| n_lock := n_lock nd; n_seq := u64 1; n_value := n_value nd |}); [ done | done | done | ].
  intros k m g nd h _ _ _ Hok (Hep & Hs & Ht & Hv & c0 & Hv0 & Hc0). simpl.
  split_and!; [ lia | lia | lia | lia | lia | done | done | done | ].
  exists c0. split; [ done | ]. intros b ->. by exists s.
Qed.

(** ... the pointer is replaced, ... *)
Lemma awp_store_value {A} a n s p c (f : unit -> prog A) Q l :
  l_hold l !! n = Some (Opened s c) ->
  match p, c with Some p, Some b => FPub p b ∈ l_facts l | None, None => True | _, _ => False end ->
  AWP a (f tt) Q (set_hold (<[n := Stored s c]> (l_hold l)) l) ->
  AWP a (prog_bind (call (StoreValue n p)) f) Q l.
Proof.
  intros Hh Hpc. apply awp_held with (st := Opened s c) (E := h_ep)
    (F := fun nd => {| n_lock := n_lock nd; n_seq := n_seq nd; n_value := p |}); [ done | done | done | ].
  intros k m g nd h [Hc _ _] Hl _ (Hev & Hb1 & Hb2 & _) (Hep & Hs & Ht & Hv & _). simpl.
  split_and!; [ lia | lia | lia | lia | done | done | done | done | ].
  unfold val_ok. destruct p as [p |], c as [b |]; try done.
  rewrite <- Hl in Hpc. exact (c_facts _ _ _ Hc a _ Hpc).
Qed.

(** ... and seq becomes that of the new version. *)
Lemma awp_close {A} a n s c (f : unit -> prog A) Q l :
  l_hold l !! n = Some (Stored s c) ->
  AWP a (f tt) Q (set_hold (<[n := Locked (s + 2)]> (l_hold l)) l) ->
  AWP a (prog_bind (call (StoreSeq n (s + 2))) f) Q l.
Proof.
  intros Hh. apply awp_held with (st := Stored s c) (E := fun h => h_ep h + 1)
    (F := fun nd => {| n_lock := n_lock nd; n_seq := u64 (s + 2); n_value := n_value nd |}); [ done | done | done | ].
  intros k m g nd h _ _ _ (Hev & Hb1 & Hb2 & Hk & _) (Hep & Hs & Ht & Hv & Hc). simpl.
  assert (u64 (s + 2) = s + 2) as Hu by (unfold wrap; apply Z.mod_small; lia).
  rewrite Ht, Hu. split_and!; [ lia | lia | lia | lia | done | lia | done | ].
  by exists c.
Qed.

Lemma awp_load_seq_held {A} a n s (f : Z -> prog A) Q l :
  l_hold l !! n = Some (Locked s) -> AWP a (f s) Q l ->
  AWP a (prog_bind (call (LoadSeq n)) f) Q l.
Proof.
  intros Hh Hf. apply awp_load. intros k m g [Hc _ _] Hl. rewrite <- Hl in Hh.
  destruct (held_node _ _ _ _ _ _ Hc Hh) as (nd & h & Hn & _ & _ & _ & _ & (Hs & _ & Hq & _)).
  exists (n_seq nd). split; [ by apply exec_node with (n := n) (nd := nd) (f := fun nd => (m, n_seq nd)) | ].
  left. by rewrite Hq, <- Hs.
Qed.

(** Giving a lock back, by a store or by a compare-and-swap. *)
Lemma Inv_unlock k m g a n nd h s l :
  Inv (S k) m g -> loc a g = l -> l_hold l !! n = Some (Locked s) ->
  m_nodes m !! n = Some nd -> g_nodes g !! n = Some h ->
  Inv k (set_node n {| n_lock := 0; n_seq := n_seq nd; n_value := n_value nd |} m)
    (upd a (set_hold (delete n (l_hold l)) l) (add_history n h g)).
Proof.
  intros [Hc Hs Hd] Hl Hh Hn Hg. rewrite <- Hl in Hh.
  destruct (held_node _ _ _ _ _ _ Hc Hh) as (nd' & h' & Hn' & Hg' & Hok & _ & Hoth & Hst). simplify_eq.
  apply Inv_upd; [ | done | done | simpl; done ].
  eapply core_node with (k := S k) (nd := nd) (h := h) (st' := None); try done; simpl.
  - lia.
  - intros n' Hne. by rewrite lookup_delete_ne.
  - by apply history_ok_mono.
  - split; [ done | ]. intros b. rewrite loc_cases. destruct (decide (b = a)) as [-> | Hne];
      [ simpl; by rewrite lookup_delete_eq | by apply Hoth ].
  - by destruct Hst as (_ & Hst).
Qed.

Lemma awp_unlock {A} a n s (f : unit -> prog A) Q l :
  l_hold l !! n = Some (Locked s) -> AWP a (f tt) Q (set_hold (delete n (l_hold l)) l) ->
  AWP a (prog_bind (call (StoreLock n 0)) f) Q l.
Proof.
  intros Hh Hf. apply awp_do. intros k m g HI Hl. pose proof HI as [Hc _ _].
  pose proof Hh as Hh'. rewrite <- Hl in Hh'.
  destruct (held_node _ _ _ _ _ _ Hc Hh') as (nd & h & Hn & Hg & _).
  eexists _, tt. split; [ simpl; unfold on_node; rewrite Hn; reflexivity | ].
  exists (upd a (set_hold (delete n (l_hold l)) l) (add_history n h g)).
  split; [ by eapply Inv_unlock | ].
  split; [ intros b Hb; by rewrite loc_upd_ne | by rewrite loc_upd ].
Qed.

Lemma awp_release {A} a n s (f : bool -> prog A) Q l :
  l_hold l !! n = Some (Locked s) -> AWP a (f true) Q (set_hold (delete n (l_hold l)) l) ->
  AWP a (prog_bind (call (CasLock n (lk a) 0)) f) Q l.
Proof.
  intros Hh Hf. apply awp_do. intros k m g HI Hl. pose proof HI as [Hc _ _].
  pose proof Hh as Hh'. rewrite <- Hl in Hh'.
  destruct (held_node _ _ _ _ _ _ Hc Hh') as (nd & h & Hn & Hg & _ & Hlk & _).
  eexists _, true. split; [ simpl; unfold on_node; rewrite Hn; simpl; rewrite Hlk, Z.eqb_refl; reflexivity | ].
  exists (upd a (set_hold (delete n (l_hold l)) l) (add_history n h g)).
  split; [ by eapply Inv_unlock | ].
  split; [ intros b Hb; by rewrite loc_upd_ne | by rewrite loc_upd ].
Qed.

(** Taking a lock. *)
Lemma awp_lock {A} a key n (f : bool -> prog A) Q l :
  (forall b, lk b <> 0) -> FNode key n ∈ l_facts l ->
  (forall s, l_hold l !! n = None -> AWP a (f true) Q (set_hold (<[n := Locked s]> (l_hold l)) l)) ->
  AWP a (f false) Q l ->
  AWP a (prog_bind (call (CasLock n 0 (lk a))) f) Q l.
Proof.
  intros Hnz Hk H1 H2. apply awp_do. intros k m g HI Hl.
  destruct (known_node _ _ _ _ _ _ _ HI Hl Hk) as (_ & nd & h & st & Hn & Hg & Hok & Ho & Hst).
  destruct (n_lock nd =? 0) eqn:He.
  - apply Z.eqb_eq in He. destruct st as [st |]; simpl in Ho.
    { destruct Ho as (b & Hb & _). by destruct (Hnz b); rewrite <- Hb. }
    destruct Ho as [_ Ho]. pose proof HI as [Hc Hs Hd].
    eexists _, true. split; [ simpl; unfold on_node; rewrite Hn; simpl; rewrite He; reflexivity | ].
    exists (upd a (set_hold (<[n := Locked (h_top h)]> (l_hold l)) l) (add_history n h g)).
    split; [ | split; [ intros b Hb; by rewrite loc_upd_ne | rewrite loc_upd; apply H1 ] ];
      [ | rewrite <- Hl; apply Ho ].
    apply Inv_upd; [ | done | done | simpl; by rewrite <- Hl ].
    eapply core_node with (k := S k) (nd := nd) (h := h) (st' := Some (Locked (h_top h))); try done; simpl.
    + lia.
    + by rewrite <- Hl.
    + by rewrite <- Hl.
    + intros n' Hne. rewrite lookup_insert_ne by done. by rewrite <- Hl.
    + by apply history_ok_mono.
    + exists a. split_and!; [ done | rewrite loc_upd; simpl; by rewrite lookup_insert_eq | ].
      intros b Hb. rewrite loc_upd_ne by done. apply Ho.
  - exists m, false. split; [ simpl; unfold on_node; rewrite Hn; simpl; by rewrite He | ].
    exists g. split; [ by apply Inv_mono | ]. split; [ apply others_refl | by rewrite Hl ].
Qed.
End inv.
