(* ===== verification/DbtxOps.v ===== *)
(** * DbtxOps: the phases of a transaction, its methods, and the whole of it

    A transaction takes effect when all its locks are taken and checked: at that
    point its log is appended to the log of all transactions, and every record
    it writes gets a new version that still has to be installed in memory.
    Then CommitLocalWrite installs the versions, and the locks are free again.

    Specifications of the loops over the items (locking, releasing, installing),
    of reads and of the other calls of an application, for threads that share
    memory with other transactions.

    The specification of DBTX::end, of an application's transaction between
    begin and end, and of a thread that runs several of them. *)

From stdpp Require Import gmap.
From S2P Require Import Prelude.
From S2P Require Import DbtxMem.
From S2P Require Import Dbtx.
From S2P Require Import DbtxInv.

#[local] Arguments loc : simpl never.

(** ** Items and what the application knows of them *)

(** The value to be installed for an item: the bytes of its private copy. *)
Definition value_rel (l : local) (len : nat) (p : option N) (v : option (list Z)) : Prop :=
  match p, v with
  | Some p, Some c => l_priv l !! p = Some c /\ length c = len
  | None, None => True
  | _, _ => False
  end.

Record item_rel (vlen : Z -> nat) (l : local) (it : RWSetItem) (li : litem) : Prop := {
  ir_tab : it_tableid it = li_tab li;
  ir_key : it_key it = li_key li;
  ir_ro : it_ro it = li_ro li;
  ir_node : FNode (li_id li) (it_node it) ∈ l_facts l;
  ir_value : value_rel l (vlen (li_tab li)) (it_addr it) (li_wr li);
  ir_read : forall c, li_rd li = Some c -> FVer (it_node it) (it_seq it) (Some c) ∈ l_facts l
}.

(** The records a transaction writes. *)
Definition written (its : list RWSetItem) : list N := it_node <$> filter (fun it => it_ro it = false) its.

Definition addrs (its : list RWSetItem) : list N := omap it_addr its.

Lemma item_rel_mono vlen l l' it li :
  item_rel vlen l it li -> (forall f, f ∈ l_facts l -> f ∈ l_facts l') ->
  (forall p c, it_addr it = Some p -> l_priv l !! p = Some c -> l_priv l' !! p = Some c) ->
  item_rel vlen l' it li.
Proof.
  intros [Ht Hk Hr Hn Hv Hrd] Hf Hp. split; [ done | done | done | by apply Hf | | ].
  - unfold value_rel in *. destruct (it_addr it) as [p |], (li_wr li) as [c |]; try done.
    destruct Hv as [Hv Hl]. split; [ by apply Hp | done ].
  - intros c Hc. apply Hf. by apply Hrd.
Qed.

Lemma items_rel_mono vlen l l' its log :
  Forall2 (item_rel vlen l) its log -> (forall f, f ∈ l_facts l -> f ∈ l_facts l') ->
  (forall p c, p ∈ addrs its -> l_priv l !! p = Some c -> l_priv l' !! p = Some c) ->
  Forall2 (item_rel vlen l') its log.
Proof.
  intros Hr Hf Hp. induction Hr as [| it li its log Hit Hr IH]; constructor.
  - eapply item_rel_mono; [ done | done | ]. intros p c Ha. apply Hp. unfold addrs. simpl. rewrite Ha.
    by left.
  - apply IH. intros p c Hin. apply Hp. unfold addrs in *. simpl. destruct (it_addr it); [ by right | done ].
Qed.

Lemma val_ok_pub pub pub' v c : pub ⊆ pub' -> val_ok pub v c -> val_ok pub' v c.
Proof. intros Hs. destruct v, c; simpl; try done. intros Hv. by eapply lookup_weaken. Qed.

Lemma state_ok_pub pub pub' nd h st : pub ⊆ pub' -> state_ok pub nd h st -> state_ok pub' nd h st.
Proof.
  intros Hs. pose proof (fun v c => val_ok_pub pub pub' v c Hs) as Hv.
  destruct st as [[s | s c | s c | s c] |]; simpl; naive_solver.
Qed.

Lemma set_value_eq (k : Z * Z) (v : option (list Z)) (σ : db) : set_value k v σ !! k = v.
Proof. destruct v; simpl; [ apply lookup_insert_eq | apply lookup_delete_eq ]. Qed.

Lemma set_value_ne (k k' : Z * Z) (v : option (list Z)) (σ : db) : k' <> k -> set_value k v σ !! k' = σ !! k'.
Proof. intros Hne. destruct v; simpl; [ by apply lookup_insert_ne | by apply lookup_delete_ne ]. Qed.

Section commit.
Context (lk : nat -> Z) (σ0 : db) (vlen : Z -> nat).

Local Notation core := (core lk vlen).
Local Notation Inv := (Inv lk σ0 vlen).
Local Notation AWP := (awp loc Inv).
Local Notation item_rel := (item_rel vlen).

(** ** The point of commitment *)

(** One record gets a version that is still to be installed. *)
Definition pend (n : N) (s : Z) (p : option N) (v : option (list Z)) (l : local) : local :=
  {| l_hold := <[n := Pend s v]> (l_hold l);
     l_priv := match p with Some p => delete p (l_priv l) | None => l_priv l end;
     l_facts := match p, v with Some p, Some b => FPub p b :: l_facts l | _, _ => l_facts l end;
     l_done := l_done l |}.

Definition commit_item (a : nat) (key : Z * Z) (n : N) (s : Z) (p : option N) (v : option (list Z)) (g : ghost) : ghost :=
  {| g_nodes := alter (fun h => {| h_ep := h_ep h; h_top := s + 2; h_vers := <[s + 2 := v]> (h_vers h) |}) n (g_nodes g);
     g_pub := match p, v with Some p, Some b => <[p := b]> (g_pub g) | _, _ => g_pub g end;
     g_log := g_log g;
     g_db := set_value key v (g_db g);
     g_loc := fun b => if decide (b = a) then pend n s p v (g_loc g a) else g_loc g b |}.

Lemma loc_commit_item a key n s p v g b :
  loc b (commit_item a key n s p v g) = if decide (b = a) then pend n s p v (loc a g) else loc b g.
Proof. done. Qed.

Lemma core_commit_item k m g a key n s p v :
  core k m g -> FNode key n ∈ l_facts (loc a g) -> l_hold (loc a g) !! n = Some (Locked s) ->
  value_rel (loc a g) (vlen key.1) p v -> core k m (commit_item a key n s p v g).
Proof.
  intros Hc Hk Hh Hv.
  assert (g_pub g ⊆ g_pub (commit_item a key n s p v g)) as Hsub.
  { simpl. destruct p as [p |], v as [b |]; try done. apply insert_subseteq.
    destruct Hv as [Hv _]. by destruct (c_priv _ _ _ _ _ Hc _ _ _ Hv) as (_ & ? & _). }
  destruct (held_node _ _ _ _ _ _ _ _ Hc Hh) as (nd & h & Hn & Hg & Hok & Hlk & Hoth & Hst).
  pose proof (c_facts _ _ _ _ _ Hc a _ Hk) as Hkey. simpl in Hkey.
  destruct Hst as (Hs & Hep & Hq & c0 & Hv0 & Hc0).
  destruct Hc as [Hbud Hdom Hnode Hhold Hidx Hinj Hdb Habs Hlen Hpub Hpriv Hnext Hf].
  assert (forall b n', n' <> n -> l_hold (loc b (commit_item a key n s p v g)) !! n' = l_hold (loc b g) !! n') as Hsame.
  { intros b n' Hne. rewrite loc_commit_item. destruct (decide (b = a)) as [-> |]; [ | done ].
    simpl. by rewrite lookup_insert_ne. }
  assert (forall n' h', g_nodes (commit_item a key n s p v g) !! n' = Some h' -> n' <> n -> g_nodes g !! n' = Some h') as Hgne.
  { intros n' h' Hn' Hne. simpl in Hn'. by rewrite lookup_alter_ne in Hn'. }
  assert (g_nodes (commit_item a key n s p v g) !! n =
    Some {| h_ep := h_ep h; h_top := s + 2; h_vers := <[s + 2 := v]> (h_vers h) |}) as Hgn.
  { simpl. rewrite lookup_alter_eq, Hg. done. }
  split; [ done | | | | done | done | | | | | | done | ].
  - intros n'. rewrite Hdom. simpl. rewrite lookup_alter. destruct (decide (n = n')) as [<- |]; [ | done ].
    by rewrite fmap_is_Some.
  - intros n' nd' h' Hn' Hg'. destruct (decide (n' = n)) as [-> | Hne].
    + rewrite Hgn in Hg'. rewrite Hn in Hn'. simplify_eq. destruct Hok as (Hev & Hb1 & Hb2 & Hb3 & Hb4). split.
      * unfold history_ok; simpl. split_and!; [ | lia | lia | lia | lia | ].
        -- rewrite Z.even_add, Hev. done.
        -- intros s' c'. destruct (decide (s' = h_top h + 2)) as [-> | Hne]; [ lia | ].
           rewrite lookup_insert_ne by done. intros Hs'. apply Hb4 in Hs'. lia.
      * exists (Some (Pend (h_top h) v)). split.
        -- exists a. split_and!; [ done | | ].
           ++ rewrite loc_commit_item, decide_True by done. simpl. by rewrite lookup_insert_eq.
           ++ intros b Hb. rewrite loc_commit_item, decide_False by done. by apply Hoth.
        -- simpl. rewrite lookup_insert_eq. split_and!; [ done | done | done | done | ].
           exists c0. rewrite lookup_insert_ne by lia. split; [ done | by eapply val_ok_pub ].
    + apply Hgne in Hg'; [ | done ]. destruct (Hnode n' nd' h' Hn' Hg') as (Hok' & st & Ho & Hst).
      split; [ done | ]. exists st. split; [ | by eapply state_ok_pub ].
      eapply owner_ok_hold; [ | done ]. intros b. by apply Hsame.
  - intros b n' st Hb. destruct (decide (n' = n)) as [-> | Hne]; [ by eexists | ].
    rewrite Hsame in Hb by done. by eapply Hhold.
  - intros k' n' h' Hk' Hg'. destruct (decide (n' = n)) as [-> | Hne].
    + rewrite Hgn in Hg'. simplify_eq. assert (k' = key) as -> by by eapply Hinj.
      simpl. by rewrite lookup_insert_eq, set_value_eq.
    + apply Hgne in Hg'; [ | done ]. simpl. rewrite set_value_ne; [ by eapply Hdb | ].
      intros ->. by simplify_eq.
  - intros k' Hk'. simpl. rewrite set_value_ne; [ by apply Habs | ]. intros ->. by simplify_eq.
  - intros k' n' h' s' c' Hk' Hg'. destruct (decide (n' = n)) as [-> | Hne].
    + rewrite Hgn in Hg'. simplify_eq. assert (k' = key) as -> by by eapply Hinj. simpl.
      destruct (decide (s' = h_top h + 2)) as [-> | Hs'].
      * rewrite lookup_insert_eq. intros [= ->]. unfold value_rel in Hv. destruct p; [ by destruct Hv | done ].
      * rewrite lookup_insert_ne by done. by eapply Hlen.
    + apply Hgne in Hg'; [ | done ]. by eapply Hlen.
  - intros p' c' Hp'. simpl in Hp'. unfold value_rel in Hv.
    destruct p as [p |], v as [b |]; try done; try by apply Hpub.
    destruct (decide (p' = p)) as [-> | Hne].
    + rewrite lookup_insert_eq in Hp'. simplify_eq. destruct Hv as [Hv _].
      by destruct (Hpriv _ _ _ Hv) as (? & _).
    + rewrite lookup_insert_ne in Hp' by done. by apply Hpub.
  - (* private memory *)
    assert (forall b p' c', l_priv (loc b (commit_item a key n s p v g)) !! p' = Some c' ->
      l_priv (loc b g) !! p' = Some c' /\ p <> Some p') as Hold.
    { intros b p' c'. rewrite loc_commit_item. unfold value_rel in Hv.
      destruct (decide (b = a)) as [-> | Hne].
      - simpl. destruct p as [p |]; [ | done ]. destruct (decide (p' = p)) as [-> | Hp];
          [ by rewrite lookup_delete_eq | rewrite lookup_delete_ne by done ]. by intros ?; split; [ | intros [= ->] ].
      - intros Hb. split; [ done | ]. intros ->. destruct v; [ | done ]. destruct Hv as [Hv _].
        destruct (Hpriv _ _ _ Hv) as (_ & _ & H3). by rewrite (H3 b Hne) in Hb. }
    intros b p' c' Hb. destruct (Hold b p' c' Hb) as [Hb' Hne].
    destruct (Hpriv b p' c' Hb') as (H1 & H2 & H3). split_and!; [ done | | ].
    + simpl. destruct p as [p |], v as [b' |]; try done. rewrite lookup_insert_ne; [ done | congruence ].
    + intros b' Hb''. destruct (l_priv (loc b' (commit_item a key n s p v g)) !! p') as [c'' |] eqn:He; [ | done ].
      destruct (Hold _ _ _ He) as [He' _]. by rewrite (H3 b' Hb'') in He'.
  - intros b f Hin.
    assert (f ∈ l_facts (loc b g) \/ (exists p' c', f = FPub p' c' /\ g_pub (commit_item a key n s p v g) !! p' = Some c')) as [Hin' | (p' & c' & -> & Hp')];
      [ | | exact Hp' ].
    { rewrite loc_commit_item in Hin. destruct (decide (b = a)) as [-> | Hne]; [ | by left ].
      simpl in Hin |- *. destruct p as [p |], v as [b' |]; try by left.
      apply elem_of_cons in Hin as [-> | Hin]; [ right | by left ]. exists p, b'. split; [ done | by rewrite lookup_insert_eq ]. }
    apply Hf in Hin'. destruct f as [n' s' c' | n' e | p' c' | k' n']; [ | | simpl in Hin'; by eapply lookup_weaken | done ].
    + destruct Hin' as (h' & Hg' & Hv'). destruct (decide (n' = n)) as [-> | Hne].
      * eexists. split; [ exact Hgn | ]. simplify_eq. simpl. rewrite lookup_insert_ne; [ done | ].
        intros <-. destruct Hok as (_ & _ & _ & _ & Hb4). apply Hb4 in Hv'. lia.
      * exists h'. split; [ | done ]. simpl. by rewrite lookup_alter_ne.
    + destruct Hin' as (h' & Hg' & Hv'). destruct (decide (n' = n)) as [-> | Hne].
      * eexists. split; [ exact Hgn | ]. by simplify_eq.
      * exists h'. split; [ | done ]. simpl. by rewrite lookup_alter_ne.
Qed.

(** All records of a transaction. *)
Fixpoint commit_all (a : nat) (its : list RWSetItem) (log : list litem) (g : ghost) : ghost :=
  match its, log with
  | it :: its, li :: log =>
      commit_all a its log
        (if it_ro it then g
         else commit_item a (li_id li) (it_node it) (it_seq it) (it_addr it) (li_wr li) g)
  | _, _ => g
  end.

Fixpoint pend_all (its : list RWSetItem) (log : list litem) (l : local) : local :=
  match its, log with
  | it :: its, li :: log =>
      pend_all its log (if it_ro it then l else pend (it_node it) (it_seq it) (it_addr it) (li_wr li) l)
  | _, _ => l
  end.

(** Every record that is written is locked, at the version that was read. *)
Record ready (l : local) (its : list RWSetItem) (log : list litem) : Prop := {
  rd_rel : Forall2 (item_rel l) its log;
  rd_nodes : NoDup (written its);
  rd_addrs : NoDup (addrs its);
  rd_locked : forall it, it ∈ its -> it_ro it = false -> l_hold l !! it_node it = Some (Locked (it_seq it))
}.

Lemma written_cons it its :
  written (it :: its) = if it_ro it then written its else it_node it :: written its.
Proof.
  unfold written. destruct (it_ro it) eqn:Hro;
    [ by rewrite filter_cons_False by congruence | by rewrite filter_cons_True ].
Qed.

Lemma addrs_cons it its :
  addrs (it :: its) = match it_addr it with Some p => p :: addrs its | None => addrs its end.
Proof. done. Qed.

Lemma elem_written it its : it ∈ its -> it_ro it = false -> it_node it ∈ written its.
Proof. intros Hin Hro. unfold written. apply list_elem_of_fmap. exists it. split; [ done | ]. by apply list_elem_of_filter. Qed.

Lemma ready_tail l it li its log : ready l (it :: its) (li :: log) -> ready l its log.
Proof.
  intros [Hr Hn Ha Hl]. split.
  - by apply Forall2_cons in Hr as [_ Hr].
  - rewrite written_cons in Hn. destruct (it_ro it); [ done | by apply NoDup_cons in Hn as [_ ?] ].
  - rewrite addrs_cons in Ha. destruct (it_addr it); [ by apply NoDup_cons in Ha as [_ ?] | done ].
  - intros it' Hin. apply Hl. by right.
Qed.

Lemma ready_pend l it li its log :
  ready l (it :: its) (li :: log) -> it_ro it = false ->
  ready (pend (it_node it) (it_seq it) (it_addr it) (li_wr li) l) its log.
Proof.
  intros Hrd Hro. pose proof (ready_tail _ _ _ _ _ Hrd) as [Hr Hn Ha Hl]. destruct Hrd as [_ Hn0 Ha0 _].
  rewrite written_cons, Hro in Hn0. apply NoDup_cons in Hn0 as [Hn0 _]. rewrite addrs_cons in Ha0.
  split; [ | done | done | ].
  - eapply items_rel_mono; [ done | | ].
    + intros f Hf. simpl. destruct (it_addr it), (li_wr li); try done. by right.
    + intros p c Hp Hc. simpl. destruct (it_addr it) as [q |]; [ | done ].
      apply NoDup_cons in Ha0 as [Ha0 _]. rewrite lookup_delete_ne; [ done | ]. by intros ->.
  - intros it' Hin Hro'. simpl. rewrite lookup_insert_ne; [ by apply Hl | ].
    intros Heq. apply Hn0. rewrite Heq. by apply elem_written.
Qed.

Lemma core_commit_all k m a its log g :
  core k m g -> ready (loc a g) its log ->
  core k m (commit_all a its log g) /\ g_db (commit_all a its log g) = apply_log log (g_db g) /\
  g_log (commit_all a its log g) = g_log g /\
  loc a (commit_all a its log g) = pend_all its log (loc a g) /\
  forall b, b <> a -> loc b (commit_all a its log g) = loc b g.
Proof.
  revert log g. induction its as [| it its IH]; intros log g Hc Hrd; pose proof (rd_rel _ _ _ Hrd) as Hr.
  { apply Forall2_nil_inv_l in Hr as ->. done. }
  apply Forall2_cons_inv_l in Hr as (li & log' & Hit & _ & ->). simpl.
  pose proof (ir_ro _ _ _ _ Hit) as Hro.
  destruct (it_ro it) eqn:Hr.
  - destruct (IH log' g Hc (ready_tail _ _ _ _ _ Hrd)) as (H1 & H2 & H3 & H4 & H5).
    split_and!; [ done | | done | done | done ].
    rewrite H2. unfold apply_item. by rewrite <- Hro.
  - set (g1 := commit_item a (li_id li) (it_node it) (it_seq it) (it_addr it) (li_wr li) g).
    assert (loc a g1 = pend (it_node it) (it_seq it) (it_addr it) (li_wr li) (loc a g)) as Hl1
      by (unfold g1; rewrite loc_commit_item; by rewrite decide_True).
    assert (core k m g1) as Hc1.
    { apply core_commit_item; [ done | apply Hit | | apply Hit ]. apply (rd_locked _ _ _ Hrd); [ by left | done ]. }
    destruct (IH log' g1 Hc1) as (H1 & H2 & H3 & H4 & H5).
    { rewrite Hl1. by apply ready_pend. }
    split_and!; [ done | | done | by rewrite H4, Hl1 | ].
    + rewrite H2. unfold apply_item. by rewrite <- Hro.
    + intros b Hb. rewrite H5 by done. unfold g1. rewrite loc_commit_item. by rewrite decide_False.
Qed.

Lemma ready_reads k m a its log g :
  core k m g -> ready (loc a g) its log -> reads_current log (g_db g).
Proof.
  intros Hc Hrd li c Hin Hro Hrdc. apply list_elem_of_lookup in Hin as [i Hi].
  destruct (Forall2_lookup_r _ _ _ _ _ (rd_rel _ _ _ Hrd) Hi) as (it & Hit & Hir).
  assert (it_ro it = false) as Hro' by (rewrite (ir_ro _ _ _ _ Hir); done).
  pose proof (rd_locked _ _ _ Hrd it (list_elem_of_lookup_2 _ _ _ Hit) Hro') as Hl.
  destruct (held_node _ _ _ _ _ _ _ _ Hc Hl) as (nd & h & _ & Hg & _ & _ & _ & (Hs & _)).
  destruct (c_facts _ _ _ _ _ Hc a _ (ir_read _ _ _ _ Hir c Hrdc)) as (h' & Hg' & Hv). simplify_eq.
  pose proof (c_facts _ _ _ _ _ Hc a _ (ir_node _ _ _ _ Hir)) as Hk. simpl in Hk.
  pose proof (c_db _ _ _ _ _ Hc _ _ _ Hk Hg) as Hdb. rewrite <- Hs, Hv in Hdb. by simplify_eq.
Qed.

Definition finished (log : list litem) (l : local) : local :=
  {| l_hold := l_hold l; l_priv := l_priv l; l_facts := l_facts l; l_done := l_done l ++ [log] |}.

Definition append_log (a : nat) (log : list litem) (g : ghost) : ghost :=
  {| g_nodes := g_nodes g; g_pub := g_pub g; g_log := g_log g ++ [(a, log)]; g_db := g_db g; g_loc := g_loc g |}.

Lemma done_pend_all its log l : l_done (pend_all its log l) = l_done l.
Proof. revert log l. induction its as [| it its IH]; intros [| li log] l; simpl; try done. rewrite IH. by destruct (it_ro it). Qed.

(** The transaction takes effect. *)
Lemma awp_take_effect {A} a its log (p : prog A) Q l :
  ready l its log -> AWP a p Q (finished log (pend_all its log l)) -> AWP a p Q l.
Proof.
  intros Hrd Hw. apply awp_ghost. intros k m g [Hc Hs Hd] Hl. rewrite <- Hl in Hrd.
  destruct (core_commit_all k m a its log g Hc Hrd) as (H1 & H2 & H3 & H4 & H5).
  set (g1 := commit_all a its log g) in *.
  set (g2 := append_log a log g1).
  exists (upd a (finished log (loc a g1)) g2).
  split; [ | split; [ intros b Hb; rewrite loc_upd_ne by done; by apply H5 | rewrite loc_upd, H4, Hl; done ] ].
  split.
  - apply core_facts; [ by destruct H1; split | done | done | ].
    intros f Hf. exact (c_facts _ _ _ _ _ H1 a f Hf).
  - simpl. rewrite H3, H2. by apply (serial_snoc _ _ (a, log)); [ | eapply ready_reads ].
  - intros b. simpl. rewrite H3, filter_app, fmap_app, <- Hd, loc_cases.
    destruct (decide (b = a)) as [-> | Hne].
    + rewrite filter_cons_True by done. rewrite filter_nil. simpl. by rewrite H4, done_pend_all.
    + rewrite filter_cons_False by (simpl; congruence). rewrite filter_nil. simpl.
      rewrite app_nil_r. change (loc b g2) with (loc b g1). by rewrite H5.
Qed.
End commit.

(** * The methods of DBTX, verified one by one *)

(** ** Sets of locks *)

(** The thread holds exactly the records [ns], and has not begun to install
    anything. *)
Record locked_set (l : local) (ns : list N) : Prop := {
  ls_nodup : NoDup ns;
  ls_dom : forall n, is_Some (l_hold l !! n) <-> n ∈ ns;
  ls_state : forall n st, l_hold l !! n = Some st -> exists s, st = Locked s
}.

Lemma locked_set_nil l : l_hold l = ∅ -> locked_set l [].
Proof.
  intros He. split; [ constructor | | ]; intros n; rewrite He, lookup_empty; [ | done ].
  split; [ by intros [? ?] | by intros ?%elem_of_nil ].
Qed.

Lemma locked_set_empty l : locked_set l [] -> l_hold l = ∅.
Proof.
  intros [_ Hd _]. apply map_empty. intros n. destruct (l_hold l !! n) eqn:He; [ | done ].
  assert (n ∈ ([] : list N)) as Hin by (apply Hd; by eexists). by apply elem_of_nil in Hin.
Qed.

Lemma locked_set_add l ns n s :
  locked_set l ns -> l_hold l !! n = None ->
  locked_set (set_hold (<[n := Locked s]> (l_hold l)) l) (ns ++ [n]).
Proof.
  intros [Hnd Hd Hs] Hn. split.
  - apply NoDup_app. split_and!; [ done | | by apply NoDup_singleton ].
    intros n' Hin ->%list_elem_of_singleton. apply Hd in Hin as [? ?]. by simplify_eq.
  - intros n'. simpl. rewrite elem_of_app, list_elem_of_singleton, <- Hd.
    destruct (decide (n' = n)) as [-> | Hne]; [ rewrite lookup_insert_eq; split; [ by right | by eexists ] | ].
    rewrite lookup_insert_ne by done. split; [ by left | by intros [|] ].
  - intros n' st. simpl. destruct (decide (n' = n)) as [-> | Hne];
      [ rewrite lookup_insert_eq; intros [= <-]; by eexists | rewrite lookup_insert_ne by done; apply Hs ].
Qed.

Lemma locked_set_remove l ns n :
  locked_set l (n :: ns) -> locked_set (set_hold (delete n (l_hold l)) l) ns.
Proof.
  intros [Hnd Hd Hs]. apply NoDup_cons in Hnd as [Hn Hnd]. split; [ done | | ].
  - intros n'. simpl. destruct (decide (n' = n)) as [-> | Hne].
    + rewrite lookup_delete_eq. split; [ by intros [? ?] | done ].
    + rewrite lookup_delete_ne by done. rewrite Hd, elem_of_cons. split; [ by intros [|] | by right ].
  - intros n' st. simpl. destruct (decide (n' = n)) as [-> | Hne];
      [ by rewrite lookup_delete_eq | rewrite lookup_delete_ne by done; apply Hs ].
Qed.

Lemma written_app its its' : written (its ++ its') = written its ++ written its'.
Proof. unfold written. by rewrite filter_app, fmap_app. Qed.

Section ops.
Context (lk : nat -> Z) (σ0 : db) (vlen : Z -> nat) (lk_nz : forall a, lk a <> 0).

Local Notation Inv := (Inv lk σ0 vlen).
Local Notation AWP := (awp loc Inv).
Local Notation item_rel := (item_rel vlen).
Local Notation ready := (ready vlen).

(** ** LockAllSet *)

(** After the items [pre]: the non-read-only ones are locked at the version that
    was read, and [current] is the index of the last one. *)
Record lock_state (l : local) (pre : list RWSetItem) (current : Z) : Prop := {
  lo_set : locked_set l (written pre);
  lo_seq : forall it, it ∈ pre -> it_ro it = false -> l_hold l !! it_node it = Some (Locked (it_seq it));
  lo_cur : -1 <= current < Z.of_nat (length pre);
  lo_take : written (take (Z.to_nat (current + 1)) pre) = written pre
}.

(** How LockAllSet ends. On failure everything up to [current] is locked. *)
Definition lock_post (l : local) (kvs : list RWSetItem) (r : bool * Z) (l' : local) : Prop :=
  (exists h, l' = set_hold h l) /\
  (if r.1 then lock_state l' kvs r.2
   else locked_set l' (written (take (Z.to_nat (r.2 + 1)) kvs))).

Lemma set_hold_twice h h' l : set_hold h (set_hold h' l) = set_hold h l.
Proof. done. Qed.

Lemma lock_state_ro l pre current it :
  lock_state l pre current -> it_ro it = true -> lock_state l (pre ++ [it]) current.
Proof.
  intros [Hs Hq Hc Ht] Hro.
  assert (written (pre ++ [it]) = written pre) as Hw.
  { rewrite written_app, written_cons, Hro. unfold written at 2. by rewrite filter_nil, app_nil_r. }
  split.
  - by rewrite Hw.
  - intros it' [Hin | ->%list_elem_of_singleton]%elem_of_app; [ by apply Hq | congruence ].
  - rewrite length_app. simpl. lia.
  - rewrite take_app_le by lia. by rewrite Hw, Ht.
Qed.

Lemma lock_state_add l pre current it :
  lock_state l pre current -> it_ro it = false -> l_hold l !! it_node it = None ->
  lock_state (set_hold (<[it_node it := Locked (it_seq it)]> (l_hold l)) l) (pre ++ [it]) (Z.of_nat (length pre)).
Proof.
  intros [Hs Hq Hc Ht] Hro Hn.
  assert (written (pre ++ [it]) = written pre ++ [it_node it]) as Hw
    by (rewrite written_app, written_cons, Hro; done).
  split.
  - rewrite Hw. by apply locked_set_add.
  - intros it' [Hin | ->%list_elem_of_singleton]%elem_of_app Hro'; simpl; [ | by rewrite lookup_insert_eq ].
    rewrite lookup_insert_ne; [ by apply Hq | ]. intros Heq.
    rewrite Heq, (Hq it' Hin Hro') in Hn. done.
  - rewrite length_app. simpl. lia.
  - rewrite take_ge; [ done | rewrite length_app; simpl; lia ].
Qed.

Lemma awp_lock_items a l0 l log pre its current :
  Forall2 (item_rel l0) (pre ++ its) log -> (exists h, l = set_hold h l0) -> lock_state l pre current ->
  AWP a (lock_items (lk a) (Z.of_nat (length pre)) its current) (lock_post l0 (pre ++ its)) l.
Proof using lk_nz.
  revert pre l current.
  induction its as [| it its IH]; intros pre l current Hr Hh Hst; simpl.
  { rewrite app_nil_r. apply awp_done. split; [ done | ]. done. }
  assert (locked_set l (written (take (Z.to_nat (current + 1)) (pre ++ it :: its)))) as Hfail.
  { destruct Hst as [Hs Hq Hc Ht]. rewrite take_app_le by lia. by rewrite Ht. }
  assert (FNode (li_id (default (Build_litem 0 0 false None None) (log !! length pre))) (it_node it) ∈ l_facts l) as Hnode.
  { destruct Hh as [h ->]. simpl.
    assert ((pre ++ it :: its) !! length pre = Some it) as Hi by by apply list_lookup_middle.
    destruct (Forall2_lookup_l _ _ _ _ _ Hr Hi) as (li & -> & Hir). apply Hir. }
  assert (pre ++ it :: its = (pre ++ [it]) ++ its) as Happ by by rewrite <- app_assoc.
  assert (Z.of_nat (length pre) + 1 = Z.of_nat (length (pre ++ [it]))) as Hlen by (rewrite length_app; simpl; lia).
  destruct (it_ro it) eqn:Hro.
  { rewrite Hlen, Happ. apply IH; [ by rewrite <- Happ | done | by apply lock_state_ro ]. }
  eapply awp_load_lock; [ exact Hnode | ]. intros v.
  destruct (v =? 0); [ simpl | apply awp_done; by split ].
  eapply awp_lock; [ exact lk_nz | exact Hnode | | apply awp_done; by split ].
  intros s Hn. simpl.
  eapply awp_load_seq_held; [ simpl; by rewrite lookup_insert_eq | ].
  destruct (Z.eqb_spec s (it_seq it)) as [-> | Hne]; simpl.
  - rewrite Hlen, Happ. apply IH; [ by rewrite <- Happ | | by eapply lock_state_add ].
    destruct Hh as [h ->]. by eexists.
  - apply awp_done. split; [ destruct Hh as [h ->]; by eexists | ]. simpl.
    rewrite Happ, take_app_le by (rewrite length_app; simpl; lia).
    rewrite take_ge by (rewrite length_app; simpl; lia).
    rewrite written_app, written_cons, Hro. apply locked_set_add; [ apply Hst | done ].
Qed.

(** ** ReleaseAllSet *)

Lemma awp_release_items a its l0 l :
  (exists h, l = set_hold h l0) -> locked_set l (written its) ->
  AWP a (release_items (lk a) its) (fun _ l' => l' = set_hold ∅ l0) l.
Proof.
  revert l. induction its as [| it its IH]; intros l Hh Hs; simpl.
  { apply awp_done. apply locked_set_empty in Hs. destruct Hh as [h ->]. simpl in Hs. by rewrite Hs. }
  rewrite written_cons in Hs. destruct (it_ro it) eqn:Hro; [ by apply IH | ].
  destruct (proj2 (ls_dom _ _ Hs (it_node it))) as [st Hst]; [ by left | ].
  destruct (ls_state _ _ Hs _ _ Hst) as [s ->].
  eapply awp_release; [ done | ]. simpl. apply IH; [ destruct Hh as [h ->]; by eexists | ].
  by apply locked_set_remove.
Qed.

(** ** CommitLocalWrite *)

Definition pub_rel (l : local) (p : option N) (v : option (list Z)) : Prop :=
  match p, v with
  | Some p, Some b => FPub p b ∈ l_facts l
  | None, None => True
  | _, _ => False
  end.

(** The records to be installed, and nothing else is held. *)
Record pending (l : local) (its : list RWSetItem) (log : list litem) : Prop := {
  pe_items : Forall2 (fun it li => it_ro it = false ->
    l_hold l !! it_node it = Some (Pend (it_seq it) (li_wr li)) /\ pub_rel l (it_addr it) (li_wr li)) its log;
  pe_nodup : NoDup (written its);
  pe_only : forall n, is_Some (l_hold l !! n) -> n ∈ written its
}.

Lemma pend_all_facts its log l f : f ∈ l_facts l -> f ∈ l_facts (pend_all its log l).
Proof.
  revert log l. induction its as [| it its IH]; intros [| li log] l Hf; simpl; try done.
  apply IH. destruct (it_ro it); [ done | ]. simpl. destruct (it_addr it), (li_wr li); try done. by right.
Qed.

Lemma pend_all_hold its log l n :
  n ∉ written its -> l_hold (pend_all its log l) !! n = l_hold l !! n.
Proof.
  revert log l. induction its as [| it its IH]; intros [| li log] l Hn; simpl; try done.
  rewrite written_cons in Hn. destruct (it_ro it) eqn:Hro; [ by apply IH | ].
  apply not_elem_of_cons in Hn as [Hn Hn']. rewrite IH by done. simpl. by rewrite lookup_insert_ne.
Qed.

Lemma pub_rel_mono l l' p v : (forall f, f ∈ l_facts l -> f ∈ l_facts l') -> pub_rel l p v -> pub_rel l' p v.
Proof. intros Hf. destruct p, v; simpl; auto. Qed.

Lemma pending_pend_all l its log :
  ready l its log -> (forall n, is_Some (l_hold l !! n) -> n ∈ written its) ->
  pending (pend_all its log l) its log.
Proof.
  intros Hrd Honly. split.
  - clear Honly. revert log l Hrd.
    induction its as [| it its IH]; intros log l Hrd; pose proof (rd_rel _ _ _ _ Hrd) as Hr.
    { apply Forall2_nil_inv_l in Hr as ->. constructor. }
    apply Forall2_cons_inv_l in Hr as (li & log' & Hit & _ & ->). constructor.
    + intros Hro. simpl. rewrite Hro.
      pose proof (rd_nodes _ _ _ _ Hrd) as Hnd. rewrite written_cons, Hro in Hnd. apply NoDup_cons in Hnd as [Hnd _].
      rewrite pend_all_hold by done. split; [ simpl; by rewrite lookup_insert_eq | ].
      eapply pub_rel_mono; [ intros f; apply pend_all_facts | ]. pose proof (ir_value _ _ _ _ Hit) as Hv.
      unfold pub_rel, value_rel in *. simpl. destruct (it_addr it), (li_wr li); try done. by left.
    + simpl. destruct (it_ro it) eqn:Hro; apply IH; [ by eapply ready_tail | by eapply ready_pend ].
  - apply Hrd.
  - intros n. destruct (decide (n ∈ written its)) as [Hin | Hin]; [ done | ].
    rewrite pend_all_hold by done. apply Honly.
Qed.

Lemma pending_ro l it li its log :
  pending l (it :: its) (li :: log) -> it_ro it = true -> pending l its log.
Proof.
  intros [Hi Hn Ho] Hro. apply Forall2_cons in Hi as [_ Hi]. rewrite written_cons, Hro in Hn, Ho. done.
Qed.

Lemma pending_done l it li its log h :
  pending l (it :: its) (li :: log) -> it_ro it = false ->
  h !! it_node it = None -> (forall n, n <> it_node it -> h !! n = l_hold l !! n) ->
  pending (set_hold h l) its log.
Proof.
  intros [Hi Hn Ho] Hro Hh Hne. apply Forall2_cons in Hi as [_ Hi].
  rewrite written_cons, Hro in Hn, Ho. apply NoDup_cons in Hn as [Hn Hnd].
  split; [ | done | ].
  - apply Forall2_same_length_lookup. split; [ by eapply Forall2_length | ].
    intros i it' li' Hit Hli Hro'. destruct (Forall2_lookup_lr _ _ _ _ _ _ Hi Hit Hli Hro') as [H1 H2].
    split; [ | done ]. simpl. rewrite Hne; [ done | ]. intros Heq. apply Hn. rewrite <- Heq.
    apply elem_written; [ by eapply list_elem_of_lookup_2 | done ].
  - simpl. intros n Hs. destruct (decide (n = it_node it)) as [-> | Hn'].
    + rewrite Hh in Hs. by destruct Hs.
    + rewrite Hne in Hs by done. apply Ho in Hs. by apply elem_of_cons in Hs as [|].
Qed.

Lemma awp_commit_items a its log l :
  pending l its log ->
  AWP a (commit_items its) (fun _ l' => l_hold l' = ∅ /\ l_done l' = l_done l) l.
Proof.
  intros Hp. remember (l_done l) as D eqn:HD. revert log l Hp HD.
  induction its as [| it its IH]; intros log l Hp HD; simpl.
  { apply awp_done. split; [ | done ]. apply map_empty. intros n.
    destruct (l_hold l !! n) as [st |] eqn:He; [ | done ].
    assert (n ∈ written []) as Hin by (apply Hp; by eexists). by apply elem_of_nil in Hin. }
  pose proof (pe_items _ _ _ Hp) as Hi. apply Forall2_cons_inv_l in Hi as (li & log' & Hit & _ & ->).
  destruct (it_ro it) eqn:Hro; [ by apply (IH log'); [ eapply pending_ro | ] | ].
  destruct (Hit eq_refl) as [Hh Hv].
  eapply awp_open; [ exact Hh | ].
  eapply awp_store_value; [ simpl; by rewrite lookup_insert_eq | exact Hv | ]. rewrite set_hold_twice. simpl.
  rewrite insert_insert_eq.
  eapply awp_close; [ simpl; by rewrite lookup_insert_eq | ]. rewrite set_hold_twice. simpl. rewrite insert_insert_eq.
  eapply awp_unlock; [ simpl; by rewrite lookup_insert_eq | ]. rewrite set_hold_twice. simpl.
  rewrite delete_insert_eq.
  apply (IH log'); [ | done ].
  eapply pending_done; [ done | done | by rewrite lookup_delete_eq | ].
  intros n Hn. by rewrite lookup_delete_ne.
Qed.

(** ** get *)

(** The same thread, knowing more, with other bytes in a buffer of its own. *)
Record grown (p : N) (c : list Z) (l l' : local) : Prop := {
  gr_hold : l_hold l' = l_hold l;
  gr_done : l_done l' = l_done l;
  gr_priv : l_priv l' = <[p := c]> (l_priv l);
  gr_facts : forall f, f ∈ l_facts l -> f ∈ l_facts l'
}.

Lemma insert_take_drop (i : nat) (v : Z) (c b : list Z) :
  c !! i = Some v -> length b = length c ->
  <[i := v]> (take i c ++ drop i b) = take (S i) c ++ drop (S i) b.
Proof.
  intros Hv Hlen. pose proof (lookup_lt_Some _ _ _ Hv) as Hi.
  rewrite insert_app_r_alt by (rewrite length_take; lia).
  rewrite length_take. replace (i - i `min` length c)%nat with 0%nat by lia.
  rewrite (take_S_r _ _ _ Hv), <- app_assoc. f_equal.
  destruct (lookup_lt_is_Some_2 b i) as [w Hw]; [ lia | ].
  by rewrite (drop_S _ _ _ Hw).
Qed.

Lemma awp_copy_bytes a dst src c b l0 n i l :
  FPub src c ∈ l_facts l0 -> length b = length c -> (i + n)%nat = length c ->
  l = set_priv (<[dst := take i c ++ drop i b]> (l_priv l0)) l0 ->
  AWP a (copy_bytes dst src (seq i n)) (fun _ l' => l' = set_priv (<[dst := c]> (l_priv l0)) l0) l.
Proof.
  intros Hf Hlen. revert i l. induction n as [| n IH]; intros i l Hi ->; simpl.
  { apply awp_done. rewrite take_ge, drop_ge by lia. by rewrite app_nil_r. }
  destruct (lookup_lt_is_Some_2 c i) as [v Hv]; [ lia | ].
  eapply awp_load_pub; [ exact Hf | exact Hv | ].
  eapply awp_store_priv; [ simpl; by rewrite lookup_insert_eq | | ].
  { apply lookup_lt_is_Some. rewrite length_app, length_take, length_drop. lia. }
  apply IH; [ lia | ]. simpl. unfold set_priv; simpl. by rewrite insert_insert_eq, insert_take_drop.
Qed.

Definition get_post (n addr : N) (len : nat) (l : local) (r : option Z) (l' : local) : Prop :=
  exists c, length c = len /\ grown addr c l l' /\
  match r with Some s => FVer n s (Some c) ∈ l_facts l' | None => True end.

Lemma grown_trans p c c' l l' l'' : grown p c l l' -> grown p c' l' l'' -> grown p c' l l''.
Proof.
  intros [H1 H2 H3 H4] [H5 H6 H7 H8]. split; [ by rewrite H5 | by rewrite H6 | | by auto ].
  by rewrite H7, H3, insert_insert_eq.
Qed.

Lemma get_post_trans n addr len c l l' r l'' :
  grown addr c l l' -> get_post n addr len l' r l'' -> get_post n addr len l r l''.
Proof. intros Hg (c' & Hl & Hg' & Hr). exists c'. split_and!; [ done | by eapply grown_trans | done ]. Qed.

Lemma grown_know p c l f : l_priv l !! p = Some c -> grown p c l (know f l).
Proof. intros Hp. split; [ done | done | simpl; by rewrite insert_id | by right ]. Qed.

Lemma awp_get_retry a fuel key n addr len c l :
  FNode key n ∈ l_facts l -> l_priv l !! addr = Some c -> length c = len -> len = vlen key.1 ->
  AWP a (get_retry fuel n addr len) (get_post n addr len l) l.
Proof.
  intros Hk Hp Hc Hlen. revert l c Hk Hp Hc. induction fuel as [| fuel IH]; intros l c Hk Hp Hc; simpl.
  { apply awp_again. }
  eapply awp_load_seq; [ exact Hk | | simpl; by eapply IH ]. intros s Hs.
  assert (s =? 1 = false) as ->. { apply Z.eqb_neq. intros ->. done. }
  eapply awp_load_value with (s := s); [ by right | by left | done | | ].
  { apply awp_done. exists c. split_and!; [ done | by apply grown_know | done ]. }
  intros p b ft Hb Hft. apply awp_bind.
  eapply awp_mono; [ | eapply awp_copy_bytes with (i := 0%nat) (c := b) (b := c) (l0 := know (FPub p b) (know ft (know (FLb n s) l)));
    [ by left | lia | lia | simpl; unfold set_priv; simpl; by rewrite insert_id ] ].
  intros [] l1 ->.
  set (l1 := set_priv _ _).
  assert (grown addr b l l1) as Hg1. { split; [ done | done | done | ]. intros f Hf. by do 3 right. }
  eapply awp_load_seq_again with (ft := ft) (s := s) (c := b); [ | done | | done | | ].
  - apply (gr_facts _ _ _ _ Hg1). exact Hk.
  - by right; left.
  - intros s' Hne. apply Z.eqb_neq in Hne. rewrite Hne.
    eapply awp_mono; [ intros r l2 H2; eapply get_post_trans; [ exact Hg1 | exact H2 ] | ].
    apply (IH l1 b); [ by apply (gr_facts _ _ _ _ Hg1) | rewrite (gr_priv _ _ _ _ Hg1); by rewrite lookup_insert_eq | lia ].
  - intros Hv. rewrite Z.eqb_refl. apply awp_done. exists b. split_and!; [ lia | done | done ].
Qed.

(** What the application sees through the pointer. *)
Lemma awp_read_buf a p c n i l :
  l_priv l !! p = Some c -> (i + n)%nat = length c ->
  AWP a (read_buf p (seq i n)) (fun r l' => r = drop i c /\ l' = l) l.
Proof.
  intros Hp. revert i. induction n as [| n IH]; intros i Hi; simpl.
  { apply awp_done. by rewrite drop_ge by lia. }
  destruct (lookup_lt_is_Some_2 c i) as [v Hv]; [ lia | ].
  eapply awp_load_priv; [ exact Hp | exact Hv | ]. apply awp_bind.
  eapply awp_mono; [ | apply IH; lia ]. intros r l' [-> ->]. apply awp_done.
  split; [ | done ]. by rewrite (drop_S _ _ _ Hv).
Qed.

(** ** What a transaction keeps *)

Record tx_inv (a : nat) (l : local) (tx : DBTX) (log : list litem) : Prop := {
  ti_hold : l_hold l = ∅;
  ti_rel : Forall2 (item_rel l) (rw_kvs (tx_rwset tx)) log;
  ti_addrs : NoDup (addrs (rw_kvs (tx_rwset tx)));
  ti_cur : rw_current (tx_rwset tx) = -1;
  ti_lock : tx_lock tx = lk a;
  ti_remote : tx_remoteset tx = RemoteSet_clear;
  ti_abort : tx_abort tx = false
}.

Lemma tx_inv_kvs a l tx log kvs log' l' :
  tx_inv a l tx log -> l_hold l' = ∅ -> Forall2 (item_rel l') kvs log' -> NoDup (addrs kvs) ->
  tx_inv a l' (with_rwset (with_kvs kvs (tx_rwset tx)) tx) log'.
Proof. intros [H1 H2 H3 H4 H5 H6 H7] Hh Hr Hn. by split. Qed.

Lemma kvs_add it rw : rw_kvs (RWSet_Add it rw) = rw_kvs rw ++ [it].
Proof. unfold RWSet_Add. by destruct (elems rw =? rw_max_length rw). Qed.

Lemma current_add it rw : rw_current (RWSet_Add it rw) = rw_current rw.
Proof. unfold RWSet_Add. by destruct (elems rw =? rw_max_length rw). Qed.

Lemma addrs_app its its' : addrs (its ++ its') = addrs its ++ addrs its'.
Proof. apply omap_app. Qed.

Lemma elem_addrs p its : p ∈ addrs its <-> exists it, it ∈ its /\ it_addr it = Some p.
Proof. unfold addrs. rewrite list_elem_of_omap. done. Qed.

(** The copies of the items are private. *)
Lemma rel_priv l its log p :
  Forall2 (item_rel l) its log -> p ∈ addrs its -> is_Some (l_priv l !! p).
Proof.
  intros Hr Hp. apply elem_addrs in Hp as (it & Hin & Ha). apply list_elem_of_lookup in Hin as [i Hi].
  destruct (Forall2_lookup_l _ _ _ _ _ Hr Hi) as (li & _ & Hit). pose proof (ir_value _ _ _ _ Hit) as Hv.
  rewrite Ha in Hv. unfold value_rel in Hv. destruct (li_wr li); [ | done ]. destruct Hv as [Hv _]. by eexists.
Qed.

(** An item is added, with a new copy or without. *)
Lemma tx_inv_add a l l' tx log it li :
  tx_inv a l tx log -> l_hold l' = ∅ -> (forall f, f ∈ l_facts l -> f ∈ l_facts l') ->
  (forall p, is_Some (l_priv l !! p) -> l_priv l' !! p = l_priv l !! p) ->
  item_rel l' it li -> (forall p, it_addr it = Some p -> l_priv l !! p = None) ->
  tx_inv a l' (with_rwset (RWSet_Add it (tx_rwset tx)) tx) (log ++ [li]).
Proof.
  intros [H1 H2 H3 H4 H5 H6 H7] Hh Hf Hp Hit Hfresh.
  split; try done; change (tx_rwset (with_rwset ?r tx)) with r.
  - rewrite kvs_add. apply Forall2_app; [ | by apply Forall2_cons ].
    eapply items_rel_mono; [ exact H2 | done | ]. intros p c Hin Hc. rewrite Hp; [ done | by eexists ].
  - rewrite kvs_add, addrs_app. rewrite addrs_cons.
    destruct (it_addr it) as [p |] eqn:Ha; [ | simpl; by rewrite app_nil_r ].
    apply NoDup_app. split_and!; [ done | | by apply NoDup_singleton ].
    intros q Hq ->%list_elem_of_singleton. destruct (rel_priv _ _ _ _ H2 Hq) as [c Hc].
    rewrite Hfresh in Hc by done. done.
  - by rewrite current_add.
Qed.

Lemma tx_inv_grown a l l' tx log rw :
  tx_inv a l tx log -> l_hold l' = ∅ -> (forall f, f ∈ l_facts l -> f ∈ l_facts l') ->
  (forall p, is_Some (l_priv l !! p) -> l_priv l' !! p = l_priv l !! p) ->
  rw = tx_rwset tx -> tx_inv a l' (with_rwset rw tx) log.
Proof.
  intros [H1 H2 H3 H4 H5 H6 H7] Hh Hf Hp ->. split; try done; simpl.
  eapply items_rel_mono; [ exact H2 | done | ]. intros p c Hin Hc. rewrite Hp; [ done | by eexists ].
Qed.

(** get, together with the application's look at the copy. *)
Definition get_result (a : nat) (l : local) (tx : DBTX) (log : list litem) (t k : Z) (len : nat)
    (r : Z * option N * RWSet) (l' : local) : Prop :=
  l_done l' = l_done l /\
  match r.1.2 with
  | None => tx_inv a l' (with_rwset r.2 tx) log
  | Some p => exists c, length c = len /\ l_priv l' !! p = Some c /\
      tx_inv a l' (with_rwset r.2 tx) (log_get t k c log)
  end.

Lemma awp_get a fuel t k len l tx log :
  tx_inv a l tx log -> len = vlen t ->
  AWP a (get fuel t k len (tx_rwset tx)) (get_result a l tx log t k len) l.
Proof.
  intros Hti Hlen. unfold get.
  apply awp_malloc. intros p Hp. apply awp_lookup. intros n.
  eapply awp_load_value_any; [ by left | ]. intros v. apply awp_bind. unfold assert.
  case_bool_decide; [ apply awp_done | apply awp_stop ]. apply awp_bind.
  eapply awp_mono; [ | eapply awp_get_retry with (key := (t, k)) (c := replicate len 0);
    [ by left | simpl; by rewrite lookup_insert_eq | apply length_replicate | done ] ].
  intros r l' (c & Hc & [Hh Hd Hpr Hf] & Hr). simpl in Hpr, Hd, Hf, Hh. rewrite insert_insert_eq in Hpr.
  assert (forall q, is_Some (l_priv l !! q) -> l_priv l' !! q = l_priv l !! q) as Hsame.
  { intros q [w Hq]. rewrite Hpr, lookup_insert_ne; [ done | ]. intros ->. by simplify_eq. }
  assert (forall f, f ∈ l_facts l -> f ∈ l_facts l') as Hf' by (intros f Hin; apply Hf; by right).
  destruct r as [s |]; apply awp_done; (split; [ done | ]); simpl.
  - exists c. split_and!; [ done | by rewrite Hpr, lookup_insert_eq | ].
    apply (tx_inv_add a l); try done.
    + rewrite Hh. apply Hti.
    + split; simpl; try done.
      * apply Hf. by left.
      * rewrite Hpr, lookup_insert_eq. split; [ done | lia ].
      * by intros c' [= <-].
    + by intros q [= <-].
  - apply (tx_inv_grown a l); try done. rewrite Hh. apply Hti.
Qed.

(** ** Other calls *)

Lemma find_item_log l its log t k :
  Forall2 (item_rel l) its log -> find_item (is_item t k) its = find_litem (is_litem t k) log.
Proof.
  induction 1 as [| it li its log Hit _ IH]; simpl; [ done | ].
  unfold is_item, is_litem. rewrite (ir_tab _ _ _ _ Hit), (ir_key _ _ _ _ Hit).
  destruct ((li_tab li =? t) && (li_key li =? k)); [ done | ].
  unfold is_item, is_litem in IH. by rewrite IH.
Qed.

Lemma addrs_write its i : addrs (alter to_write i its) = addrs its.
Proof.
  revert i. induction its as [| it its IH]; intros [| i]; [ done | done | done | ].
  change (alter to_write (S i) (it :: its)) with (it :: alter to_write i its). by rewrite !addrs_cons, IH.
Qed.

Lemma tx_inv_write a l tx log i :
  tx_inv a l tx log ->
  tx_inv a l (with_rwset (with_kvs (alter to_write i (rw_kvs (tx_rwset tx))) (tx_rwset tx)) tx) (alter li_write i log).
Proof.
  intros Hti. eapply tx_inv_kvs; [ exact Hti | apply Hti | | by rewrite addrs_write; apply Hti ].
  apply Forall2_alter; [ apply Hti | ]. intros it li _ _ [H1 H2 H3 H4 H5 H6]. by split.
Qed.

Lemma awp_write a l tx log t k :
  tx_inv a l tx log ->
  AWP a (write t k (tx_rwset tx)) (fun rw l' => l' = l /\ is_Some (find_litem (is_litem t k) log) /\
    tx_inv a l (with_rwset rw tx) (log_write t k log)) l.
Proof.
  intros Hti. unfold write, log_write. rewrite (find_item_log _ _ _ _ _ (ti_rel _ _ _ _ Hti)).
  destruct (find_litem (is_litem t k) log) as [i |]; [ apply awp_done | apply awp_stop ].
  split_and!; [ done | done | ]. by apply tx_inv_write.
Qed.

Lemma awp_write_last a l tx log :
  tx_inv a l tx log -> log <> [] ->
  AWP a (write_last (tx_rwset tx)) (fun rw l' => l' = l /\ tx_inv a l (with_rwset rw tx) (log_write_last log)) l.
Proof.
  intros Hti Hne. unfold write_last. pose proof (ti_rel _ _ _ _ Hti) as Hr.
  pose proof (tx_inv_write a l tx log (length log - 1) Hti) as Hw.
  rewrite <- (Forall2_length _ _ _ Hr) in Hw at 1. unfold log_write_last.
  destruct (rw_kvs (tx_rwset tx)) as [| it its] eqn:Hk; [ by apply Forall2_nil_inv_l in Hr | ].
  apply awp_done. by rewrite <- Hk in *.
Qed.

Lemma awp_insert a l tx log t k v :
  tx_inv a l tx log -> length v = vlen t ->
  AWP a (insert t k v (tx_rwset tx))
    (fun rw l' => l_done l' = l_done l /\ tx_inv a l' (with_rwset rw tx) (log_insert t k v log)) l.
Proof.
  intros Hti Hlen. unfold insert. apply awp_malloc. intros p Hp. apply awp_lookup. intros n.
  eapply awp_load_seq_any; [ by left | ]. intros s. apply awp_done. split; [ done | ].
  apply (tx_inv_add a l); try done.
  - apply Hti.
  - intros f Hf. by right.
  - intros q [w Hq]. simpl. rewrite lookup_insert_ne; [ done | ]. intros ->. by simplify_eq.
  - split; simpl; try done; [ by left | ]. by rewrite lookup_insert_eq.
  - by intros q [= <-].
Qed.

Lemma addrs_delete its i p :
  NoDup (addrs its) -> its !! i ≫= it_addr = p ->
  NoDup (addrs (alter to_delete i its)) /\
  (forall q, q ∈ addrs (alter to_delete i its) -> q ∈ addrs its /\ p <> Some q).
Proof.
  revert i. induction its as [| it its IH]; intros [| i] Hn Hp.
  - split; [ done | by intros q ?%elem_of_nil ].
  - split; [ done | by intros q ?%elem_of_nil ].
  - change (alter to_delete 0%nat (it :: its)) with (to_delete it :: its). simpl in Hp.
    rewrite addrs_cons in *. simpl. rewrite Hp in Hn. destruct p as [p |].
    + apply NoDup_cons in Hn as [Hn1 Hn2]. split; [ done | ]. intros q Hq. rewrite Hp.
      split; [ by right | ]. intros [= ->]. done.
    + rewrite Hp. split; [ done | ]. intros q Hq. by split.
  - change (alter to_delete (S i) (it :: its)) with (it :: alter to_delete i its). simpl in Hp.
    rewrite !addrs_cons in *. destruct (it_addr it) as [r |] eqn:Hr.
    + apply NoDup_cons in Hn as [Hn1 Hn2]. destruct (IH i Hn2 Hp) as [H1 H2]. split.
      * apply NoDup_cons. split; [ | done ]. intros Hin. apply H2 in Hin as [? _]. done.
      * intros q [-> | Hq]%elem_of_cons; [ | apply H2 in Hq as [? ?]; split; [ by right | done ] ].
        split; [ by left | ]. intros ->. destruct (its !! i) as [it' |] eqn:Hi; [ | done ]. simpl in Hp.
        apply Hn1, elem_addrs. exists it'. split; [ by eapply list_elem_of_lookup_2 | done ].
    + destruct (IH i Hn Hp) as [H1 H2]. by split.
Qed.

Lemma awp_delete_item a l tx log i :
  tx_inv a l tx log ->
  AWP a (delete_item i (tx_rwset tx))
    (fun rw l' => l_done l' = l_done l /\ tx_inv a l' (with_rwset rw tx) (alter li_delete i log)) l.
Proof.
  intros Hti. unfold delete_item. pose proof (ti_rel _ _ _ _ Hti) as Hr.
  set (kvs := rw_kvs (tx_rwset tx)) in *.
  destruct (addrs_delete kvs i _ (ti_addrs _ _ _ _ Hti) eq_refl) as [Hnd Hadr].
  set (p := kvs !! i ≫= it_addr) in *.
  assert (forall l', l_hold l' = l_hold l -> l_facts l' = l_facts l ->
    (forall q, p <> Some q -> l_priv l' !! q = l_priv l !! q) ->
    tx_inv a l' (with_rwset (with_kvs (alter to_delete i kvs) (tx_rwset tx)) tx) (alter li_delete i log)) as Hfin.
  { intros l' Hh Hf Hp. eapply tx_inv_kvs; [ exact Hti | rewrite Hh; apply Hti | | done ].
    assert (Forall2 (item_rel l) (alter to_delete i kvs) (alter li_delete i log)) as Hr'.
    { apply Forall2_alter; [ done | ]. intros it li _ _ [H1 H2 H3 H4 H5 H6]. by split. }
    eapply items_rel_mono; [ exact Hr' | intros f; by rewrite Hf | ].
    intros q c Hq Hc. rewrite Hp; [ done | by apply Hadr ]. }
  unfold free_opt. destruct p as [q |] eqn:Hpq.
  - assert (is_Some (l_priv l !! q)) as [c Hc].
    { eapply rel_priv; [ exact Hr | ]. apply elem_addrs. unfold p in Hpq. destruct (kvs !! i) as [it |] eqn:Hi; [ | done ].
      exists it. split; [ by eapply list_elem_of_lookup_2 | done ]. }
    eapply awp_free; [ exact Hc | ]. apply awp_done. split; [ done | ]. apply Hfin; [ done | done | ].
    intros q' Hne. simpl. rewrite lookup_delete_ne; [ done | congruence ].
  - simpl. apply awp_done. split; [ done | ]. by apply Hfin.
Qed.

Lemma awp_delete a l tx log t k :
  tx_inv a l tx log ->
  AWP a (delete_ t k (tx_rwset tx))
    (fun rw l' => l_done l' = l_done l /\ tx_inv a l' (with_rwset rw tx) (log_delete t k log)) l.
Proof.
  intros Hti. unfold delete_, log_delete. rewrite (find_item_log _ _ _ _ _ (ti_rel _ _ _ _ Hti)).
  destruct (find_litem (is_litem t k) log) as [i |]; [ by apply awp_delete_item | ].
  apply awp_lookup. intros n. eapply awp_load_seq_any; [ by left | ]. intros s.
  apply awp_done. split; [ done | ]. apply (tx_inv_add a l); try done.
  - apply Hti.
  - intros f Hf. by right.
  - split; simpl; try done. by left.
Qed.

(** A store through the pointer of an item. *)
Lemma addrs_inj its i j it it' p :
  NoDup (addrs its) -> its !! i = Some it -> its !! j = Some it' ->
  it_addr it = Some p -> it_addr it' = Some p -> i = j.
Proof.
  revert i j. induction its as [| it0 its IH]; intros [| i] [| j] Hn Hi Hj Ha Ha'; try done;
    simpl in Hi, Hj; simplify_eq.
  - rewrite addrs_cons, Ha in Hn. apply NoDup_cons in Hn as [Hn _]. exfalso. apply Hn, elem_addrs.
    exists it'. split; [ by eapply list_elem_of_lookup_2 | done ].
  - rewrite addrs_cons, Ha' in Hn. apply NoDup_cons in Hn as [Hn _]. exfalso. apply Hn, elem_addrs.
    exists it. split; [ by eapply list_elem_of_lookup_2 | done ].
  - f_equal. eapply IH; try done. rewrite addrs_cons in Hn. destruct (it_addr it0); [ by apply NoDup_cons in Hn as [_ ?] | done ].
Qed.

Lemma tx_inv_store a l tx log i off v it p c :
  tx_inv a l tx log -> rw_kvs (tx_rwset tx) !! i = Some it -> it_addr it = Some p ->
  l_priv l !! p = Some c ->
  tx_inv a (set_priv (<[p := <[off := v]> c]> (l_priv l)) l) tx (log_store i off v log).
Proof.
  intros [H1 H2 H3 H4 H5 H6 H7] Hi Ha Hp. split; try done.
  apply Forall2_same_length_lookup. split.
  { unfold log_store. rewrite length_alter. by eapply Forall2_length. }
  intros j it' li' Hj Hlj. unfold log_store in Hlj. destruct (decide (j = i)) as [-> | Hne].
  - rewrite list_lookup_alter_eq in Hlj. apply fmap_Some in Hlj as (li & Hli & ->). simplify_eq.
    destruct (Forall2_lookup_lr _ _ _ _ _ _ H2 Hi Hli) as [G1 G2 G3 G4 G5 G6]. split; simpl; try done.
    unfold value_rel in *. rewrite Ha in *. destruct (li_wr li) as [w |]; [ | done ]. destruct G5 as [G5 G5'].
    simplify_eq. simpl. rewrite lookup_insert_eq. split; [ done | by rewrite length_insert ].
  - rewrite list_lookup_alter_ne in Hlj by done.
    eapply item_rel_mono; [ exact (Forall2_lookup_lr _ _ _ _ _ _ H2 Hj Hlj) | done | ].
    intros q w Hq Hw. simpl. rewrite lookup_insert_ne; [ done | ]. intros ->.
    apply Hne. by eapply addrs_inj.
Qed.
End ops.

(** * Whole transactions *)

(** ** What an application can do *)

(** The values it reads and inserts have the length of their table. *)
Fixpoint wt {R} (vlen : Z -> nat) (b : body R) : Prop :=
  match b with
  | BCommit _ | BAbort _ => True
  | BGet t k len cont => len = vlen t /\ forall o, wt vlen (cont o)
  | BStore _ _ _ cont | BWrite _ _ cont | BWriteLast cont | BDelete _ _ cont => wt vlen cont
  | BInsert t k v cont => length v = vlen t /\ wt vlen cont
  end.

(** The results a transaction can have, whatever its reads return. *)
Fixpoint path {R} (b : body R) (log : list litem) (r : result R) : Prop :=
  match b with
  | BCommit x => r_log r = log /\ r_value r = x
  | BAbort x => r = Result false log x
  | BGet t k len cont =>
      path (cont None) log r \/
      exists c, length c = len /\ path (cont (Some c)) (log_get t k c log) r
  | BStore i off v cont => path cont (log_store i off v log) r
  | BWrite t k cont => is_Some (find_litem (is_litem t k) log) /\ path cont (log_write t k log) r
  | BWriteLast cont => path cont (log_write_last log) r
  | BInsert t k v cont => path cont (log_insert t k v log) r
  | BDelete t k cont => path cont (log_delete t k log) r
  end.

(** The logs of the transactions of a thread that have committed. *)
Definition committed {R} (rs : list (result R)) : list (list litem) :=
  r_log <$> filter (fun r => r_committed r = true) rs.

Lemma committed_cons {R} (r : result R) rs :
  committed (r :: rs) = (if r_committed r then [r_log r] else []) ++ committed rs.
Proof.
  unfold committed. destruct (r_committed r) eqn:Hr;
    [ by rewrite filter_cons_True | by rewrite filter_cons_False by congruence ].
Qed.

Section tx.
Context (lk : nat -> Z) (σ0 : db) (vlen : Z -> nat) (lk_nz : forall a, lk a <> 0).
Context (rpc : rpcs) (fuel : nat).

Local Notation Inv := (Inv lk σ0 vlen).
Local Notation AWP := (awp loc Inv).
Local Notation tx_inv := (tx_inv lk vlen).

(** ** DBTX::end *)

Lemma lock_state_nil l : l_hold l = ∅ -> lock_state l [] (-1).
Proof.
  intros Hh. split; [ by apply locked_set_nil | | simpl; lia | done ].
  by intros it ?%elem_of_nil.
Qed.

(** How a transaction ends: nothing is held, and the log is there if and only if
    it has committed. *)
Definition ended (a : nat) (l : local) (log : list litem) (r : bool * DBTX) (l' : local) : Prop :=
  l_hold l' = ∅ /\ tx_lock r.2 = lk a /\ l_done l' = l_done l ++ (if r.1 then [log] else []).

Lemma awp_LockAllSet a l tx log :
  tx_inv a l tx log ->
  AWP a (LockAllSet (tx_lock tx) (tx_rwset tx))
    (fun r l' => rw_kvs r.2 = rw_kvs (tx_rwset tx) /\
                 lock_post l (rw_kvs (tx_rwset tx)) (r.1, rw_current r.2) l') l.
Proof using lk_nz.
  intros Hti. unfold LockAllSet. rewrite (ti_lock _ _ _ _ _ _ Hti), (ti_cur _ _ _ _ _ _ Hti). apply awp_bind.
  eapply awp_mono; [ | eapply awp_lock_items with (pre := []) (l0 := l);
    [ exact lk_nz | apply Hti | exists (l_hold l); by destruct l | apply lock_state_nil, Hti ] ].
  intros [ok cur] l' Hl'. apply awp_done. by split.
Qed.

Lemma lock_post_ready a l tx log cur l' :
  tx_inv a l tx log -> lock_post l (rw_kvs (tx_rwset tx)) (true, cur) l' ->
  ready vlen l' (rw_kvs (tx_rwset tx)) log.
Proof.
  intros Hti [[h ->] Hst]. split.
  - eapply items_rel_mono; [ apply Hti | done | done ].
  - apply Hst.
  - apply Hti.
  - apply Hst.
Qed.

Lemma awp_end_abort a l log tx rw l' :
  tx_inv a l tx log -> rw_kvs rw = rw_kvs (tx_rwset tx) ->
  lock_post l (rw_kvs (tx_rwset tx)) (false, rw_current rw) l' ->
  AWP a (end_abort rpc tx rw) (ended a l log) l'.
Proof.
  intros Hti Hkv [Hh Hs]. unfold end_abort, release_remote.
  rewrite (ti_remote _ _ _ _ _ _ Hti). simpl. apply awp_bind.
  unfold ReleaseAllSet. rewrite (ti_lock _ _ _ _ _ _ Hti), Hkv.
  eapply awp_mono; [ | by eapply awp_release_items ].
  intros [] l2 ->. apply awp_done. split_and!; [ done | apply Hti | simpl; by rewrite app_nil_r ].
Qed.

Lemma awp_CommitLocalWrite a l log tx rw cur l' :
  tx_inv a l tx log -> rw_kvs rw = rw_kvs (tx_rwset tx) ->
  lock_post l (rw_kvs (tx_rwset tx)) (true, cur) l' ->
  AWP a (CommitLocalWrite rw) (fun _ l2 => l_hold l2 = ∅ /\ l_done l2 = l_done l ++ [log]) l'.
Proof.
  intros Hti Hkv Hpost. pose proof (lock_post_ready _ _ _ _ _ _ Hti Hpost) as Hrd.
  destruct Hpost as [[h Hl'] Hst]. unfold CommitLocalWrite. rewrite Hkv.
  eapply awp_take_effect; [ exact Hrd | ]. apply awp_bind.
  eapply awp_mono; [ | eapply awp_commit_items with (log := log) ].
  - intros [] l2 [H1 H2]. apply awp_done. split; [ done | ]. rewrite H2. simpl.
    by rewrite done_pend_all, Hl'.
  - pose proof (pending_pend_all vlen _ _ _ Hrd) as [H1 H2 H3].
    { intros n Hn. by apply (ls_dom _ _ (lo_set _ _ _ Hst)). }
    by split.
Qed.

Lemma awp_end a l tx log :
  tx_inv a l tx log -> AWP a (end_ rpc tx) (ended a l log) l.
Proof using lk_nz.
  intros Hti. unfold end_, lock_remote, validate_remote, commit_remote.
  rewrite (ti_abort _ _ _ _ _ _ Hti), (ti_remote _ _ _ _ _ _ Hti). simpl. apply awp_bind.
  eapply awp_mono; [ | by eapply awp_LockAllSet ].
  intros [ok rw] l' [Hkv Hpost]. simpl in *. destruct ok; simpl; [ | by eapply awp_end_abort ].
  apply awp_bind. eapply awp_mono; [ | by eapply awp_CommitLocalWrite ].
  intros c l2 [H1 H2]. apply awp_done. split_and!; [ done | apply Hti | done ].
Qed.

(** ** Transactions *)

Lemma tx_inv_begin a l tx : l_hold l = ∅ -> tx_lock tx = lk a -> tx_inv a l (begin_ tx) [].
Proof. intros Hh Hl. split; simpl; try done; constructor. Qed.

Lemma with_rwset_eta tx : with_rwset (tx_rwset tx) tx = tx.
Proof. by destruct tx. Qed.

Lemma with_rwset_twice r r' tx : with_rwset r (with_rwset r' tx) = with_rwset r tx.
Proof. done. Qed.

Definition tx_post {R} (a : nat) (D : list (list litem)) (b : body R) (log : list litem)
    (r : result R * DBTX) (l' : local) : Prop :=
  path b log r.1 /\ l_hold l' = ∅ /\ tx_lock r.2 = lk a /\
  l_done l' = D ++ (if r_committed r.1 then [r_log r.1] else []).

Lemma log_store_none i off v log : (log !! i ≫= li_wr) ≫= lookup off = None -> log_store i off v log = log.
Proof.
  intros Hn. unfold log_store. apply list_eq. intros j. destruct (decide (j = i)) as [-> | Hne];
    [ | by rewrite list_lookup_alter_ne ].
  rewrite list_lookup_alter_eq. destruct (log !! i) as [li |]; simpl in *; [ | done ].
  f_equal. unfold li_store. destruct li as [t k ro rd [w |]]; simpl in *; [ | done ].
  by rewrite list_insert_ge by (by apply lookup_ge_None).
Qed.

Lemma awp_run_body {R} a (b : body R) log tx l D :
  wt vlen b -> tx_inv a l tx log -> l_done l = D ->
  AWP a (run_body (end_ rpc) fuel b tx log) (tx_post a D b log) l.
Proof using lk_nz.
  revert log tx l.
  induction b as [x | x | t k len cont IH | i off v b IH | t k b IH | b IH | t k v b IH | t k b IH];
    intros log tx l Hwt Hti HD; cbn [run_body wt path] in Hwt |- *.
  - apply awp_bind. eapply awp_mono; [ | by apply awp_end ].
    intros [ok tx'] l' (H1 & H2 & H3). apply awp_done. rewrite HD in H3. by split_and!.
  - apply awp_done. split_and!; [ done | apply Hti | apply Hti | simpl; by rewrite app_nil_r ].
  - destruct Hwt as [Hlen Hwt]. apply awp_bind. eapply awp_mono; [ | by apply awp_get ].
    intros [[s [p |]] rw] l' [Hd Hr]; simpl in *.
    + destruct Hr as (c & Hc & Hp & Hr). apply awp_bind.
      eapply awp_mono; [ | eapply awp_read_buf; [ exact Hp | lia ] ].
      intros c' l2 [-> ->]. rewrite drop_0.
      eapply awp_mono; [ | apply IH; [ done | exact Hr | by rewrite Hd ] ].
      intros r l2 (H1 & H2). split; [ right; by exists c | done ].
    + eapply awp_mono; [ | apply IH; [ done | exact Hr | by rewrite Hd ] ].
      intros r l2 (H1 & H2). split; [ by left | done ].
  - change (tx_post a D (BStore i off v b) log) with (tx_post a D b (log_store i off v log)).
    destruct (rw_kvs (tx_rwset tx) !! i ≫= it_addr) as [p |] eqn:Hp.
    + destruct ((log !! i ≫= li_wr) ≫= lookup off) as [w |] eqn:Hw;
        [ | rewrite (log_store_none _ _ _ _ Hw); by apply IH ].
      apply bind_Some in Hp as (it & Hi & Ha).
      apply bind_Some in Hw as (c & (li & Hli & Hc)%bind_Some & Hw).
      pose proof (Forall2_lookup_lr _ _ _ _ _ _ (ti_rel _ _ _ _ _ _ Hti) Hi Hli) as Hir.
      pose proof (ir_value _ _ _ _ Hir) as Hv. unfold value_rel in Hv. rewrite Ha, Hc in Hv. destruct Hv as [Hv _].
      eapply awp_store_priv; [ exact Hv | by eexists | ].
      apply IH; [ done | | done ]. by eapply tx_inv_store.
    + rewrite log_store_none; [ by apply IH | ].
      destruct (log !! i) as [li |] eqn:Hli; [ | done ]. simpl.
      destruct (Forall2_lookup_r _ _ _ _ _ (ti_rel _ _ _ _ _ _ Hti) Hli) as (it & Hi & Hir).
      rewrite Hi in Hp. simpl in Hp. pose proof (ir_value _ _ _ _ Hir) as Hv. unfold value_rel in Hv.
      rewrite Hp in Hv. by destruct (li_wr li).
  - apply awp_bind. eapply awp_mono; [ | by apply awp_write ]. intros rw l' (-> & Hf & Hr).
    eapply awp_mono; [ | apply IH; [ done | exact Hr | done ] ]. intros r l2 (H1 & H2). split; [ by split | done ].
  - case_bool_decide as Hlog; [ subst log; by apply IH | ]. apply awp_bind.
    eapply awp_mono; [ | by apply awp_write_last ]. intros rw l' [-> Hr]. by apply IH.
  - destruct Hwt as [Hlen Hwt]. apply awp_bind. eapply awp_mono; [ | by apply awp_insert ].
    intros rw l' [Hd Hr]. apply IH; [ done | done | by rewrite Hd ].
  - apply awp_bind. eapply awp_mono; [ | by apply awp_delete ].
    intros rw l' [Hd Hr]. apply IH; [ done | done | by rewrite Hd ].
Qed.

(** A thread: its committed transactions, in order, are the ones the log of all
    transactions has of it. *)
Lemma awp_run_bodies {R} a (bs : list (body R)) tx l D :
  Forall (wt vlen) bs -> l_hold l = ∅ -> tx_lock tx = lk a -> l_done l = D ->
  AWP a (run_bodies (end_ rpc) fuel bs tx)
    (fun rs l' => l_hold l' = ∅ /\ l_done l' = D ++ committed rs /\ Forall2 (fun b r => path b [] r) bs rs) l.
Proof using lk_nz.
  intros Hwt. revert tx l D. induction Hwt as [| b bs Hb _ IH]; intros tx l D Hh Hl HD; simpl.
  { apply awp_done. split_and!; [ done | by rewrite app_nil_r | constructor ]. }
  apply awp_bind.
  eapply awp_mono; [ | apply awp_run_body with (D := D); [ done | by apply tx_inv_begin | done ] ].
  intros [r tx'] l1 (Hp & Hh1 & Hl1 & Hd1). simpl in *. apply awp_bind.
  eapply awp_mono; [ | apply (IH tx' l1 _ Hh1 Hl1 Hd1) ].
  intros rs l2 (Hh2 & Hd2 & Hps). apply awp_done. split_and!; [ done | | by constructor ].
  by rewrite committed_cons, Hd2, app_assoc.
Qed.
End tx.
