(* ===== verification/DbtxProps.v ===== *)
(** * DbtxProps: what concurrent transactions guarantee

    Threads run transactions on one database in any interleaving. The committed
    ones are equivalent to a serial order in which every transaction finds the
    records it writes as it has read them; a transaction that writes all it reads
    is therefore serialisable. Transactions that only read a record are not
    protected: the schedules at the end show it. *)

From stdpp Require Import gmap.
From S2P Require Import Prelude.
From S2P Require Import DbtxMem.
From S2P Require Import Dbtx.
From S2P Require Import DbtxInv.
From S2P Require Import DbtxOps.

#[local] Arguments loc : simpl never.

(** ** Databases in memory *)

(** The value a record has. *)
Definition content (m : memory) (nd : MemNode) : option (list Z) := p ← n_value nd; m_bufs m !! p.

Definition lookup_record (m : memory) (k : Z * Z) : option (list Z) :=
  n ← m_stores m !! k; nd ← m_nodes m !! n; content m nd.

Definition holds (m : memory) (σ : db) : Prop := forall k, lookup_record m k = σ !! k.

(** A database that no transaction is working on, whose sequence numbers do not
    overflow within [k] accesses. *)
Record quiet (vlen : Z -> nat) (k : nat) (m : memory) : Prop := {
  q_budget : 2 * Z.of_nat k + 4 < 2 ^ 64;
  q_node : forall n nd, m_nodes m !! n = Some nd ->
    n_lock nd = 0 /\ Z.even (n_seq nd) = true /\ 0 <= n_seq nd /\ n_seq nd + 2 * Z.of_nat k + 4 < 2 ^ 64 /\
    (forall p, n_value nd = Some p -> is_Some (m_bufs m !! p));
  q_index : forall k n, m_stores m !! k = Some n -> is_Some (m_nodes m !! n);
  q_inj : forall k k' n, m_stores m !! k = Some n -> m_stores m !! k' = Some n -> k = k';
  q_len : forall k c, lookup_record m k = Some c -> length c = vlen k.1;
  q_next : forall p, (m_next m <= p)%N -> m_nodes m !! p = None /\ m_bufs m !! p = None
}.

(** ** The initial ghost state *)

Definition init_local : local := {| l_hold := ∅; l_priv := ∅; l_facts := []; l_done := [] |}.

Definition init_history (m : memory) (nd : MemNode) : history :=
  {| h_ep := n_seq nd; h_top := n_seq nd; h_vers := {[ n_seq nd := content m nd ]} |}.

Definition init_ghost (m : memory) (σ : db) : ghost :=
  {| g_nodes := init_history m <$> m_nodes m; g_pub := m_bufs m; g_log := []; g_db := σ;
     g_loc := fun _ => init_local |}.

Lemma loc_init m σ a : loc a (init_ghost m σ) = init_local.
Proof. done. Qed.

Lemma val_ok_content m nd :
  (forall p, n_value nd = Some p -> is_Some (m_bufs m !! p)) -> val_ok (m_bufs m) (n_value nd) (content m nd).
Proof.
  intros Hp. unfold content. destruct (n_value nd) as [p |]; simpl; [ | done ].
  by destruct (Hp p eq_refl) as [c ->].
Qed.

Lemma init_Inv lk σ vlen k m : quiet vlen k m -> holds m σ -> Inv lk σ vlen k m (init_ghost m σ).
Proof.
  intros [Hb Hnode Hidx Hinj Hlen Hnext] Hσ. split; [ | done | done ].
  assert (forall n h, g_nodes (init_ghost m σ) !! n = Some h -> exists nd, m_nodes m !! n = Some nd /\ h = init_history m nd) as Hg.
  { intros n h. simpl. rewrite lookup_fmap. intros (nd & Hn & ->)%fmap_Some. by exists nd. }
  split; try done.
  - intros n. simpl. by rewrite lookup_fmap, fmap_is_Some.
  - intros n nd h Hn (nd' & Hn' & ->)%Hg. simplify_eq. destruct (Hnode n nd Hn) as (H1 & H2 & H3 & H4 & H5). split.
    + unfold history_ok; simpl. split_and!; [ done | lia | lia | lia | lia | ].
      intros s c [<- _]%lookup_singleton_Some. lia.
    + exists None. split; [ split; [ done | by intros a; rewrite loc_init ] | ]. simpl.
      split_and!; [ done | done | ]. exists (content m nd). rewrite lookup_singleton_eq.
      split; [ done | by apply val_ok_content ].
  - intros key n h Hk (nd & Hn & ->)%Hg. simpl. rewrite lookup_singleton_eq. f_equal.
    rewrite <- (Hσ key). unfold lookup_record. by rewrite Hk; simpl; rewrite Hn.
  - intros key Hk. simpl. rewrite <- (Hσ key). unfold lookup_record. by rewrite Hk.
  - intros key n h s c Hk (nd & Hn & ->)%Hg. simpl. intros [_ Hc]%lookup_singleton_Some.
    apply Hlen. unfold lookup_record. by rewrite Hk; simpl; rewrite Hn.
  - intros a f Hf. rewrite loc_init in Hf. by apply elem_of_nil in Hf.
Qed.

(** ** The final state *)

Lemma Inv_quiet lk σ vlen k m g :
  Inv lk σ vlen k m g -> (forall a, l_hold (loc a g) = ∅) -> quiet vlen k m /\ holds m (g_db g).
Proof.
  intros [Hc _ _] Hh.
  assert (forall n nd, m_nodes m !! n = Some nd -> exists h, g_nodes g !! n = Some h /\ history_ok k h /\
    n_lock nd = 0 /\ state_ok (g_pub g) nd h None) as Hn.
  { intros n nd Hn. destruct (proj1 (c_dom _ _ _ _ _ Hc n)) as [h Hg]; [ by eexists | ].
    destruct (c_node _ _ _ _ _ Hc n nd h Hn Hg) as (Hok & [st |] & Ho & Hst).
    - destruct Ho as (a & _ & Ha & _). by rewrite Hh in Ha.
    - exists h. by destruct Ho as [Ho _]. }
  assert (forall nd h, state_ok (g_pub g) nd h None -> h_vers h !! h_top h = Some (content m nd)) as Hcont.
  { intros nd h (_ & _ & c & Hv & Hc'). rewrite Hv. f_equal. unfold content, val_ok in *.
    destruct (n_value nd) as [p |], c as [b |]; try done. simpl. symmetry. by apply (c_pub _ _ _ _ _ Hc). }
  split.
  - split.
    + apply Hc.
    + intros n nd Hnd. destruct (Hn n nd Hnd) as (h & _ & Hok & Hl & Hst).
      destruct Hok as (H1 & H2 & H3 & H4 & _). destruct Hst as (He & Hs & c & _ & Hv).
      split_and!; [ done | by rewrite Hs | lia | lia | ].
      intros p Hp. rewrite Hp in Hv. simpl in Hv. destruct c as [b |]; [ | done ]. exists b. by apply (c_pub _ _ _ _ _ Hc).
    + apply Hc.
    + apply Hc.
    + intros key c Hk. unfold lookup_record in Hk. apply bind_Some in Hk as (n & Hs & (nd & Hnd & Hk)%bind_Some).
      destruct (Hn n nd Hnd) as (h & Hg & _ & _ & Hst). apply Hcont in Hst. rewrite Hk in Hst.
      by eapply (c_len _ _ _ _ _ Hc).
    + apply Hc.
  - intros key. unfold lookup_record. destruct (m_stores m !! key) as [n |] eqn:Hs; simpl;
      [ | by rewrite (c_absent _ _ _ _ _ Hc) ].
    destruct (c_index _ _ _ _ _ Hc _ _ Hs) as [nd Hnd]. rewrite Hnd. simpl.
    destruct (Hn n nd Hnd) as (h & Hg & _ & _ & Hst). apply Hcont in Hst.
    rewrite (c_db _ _ _ _ _ Hc _ _ _ Hs Hg) in Hst. by simplify_eq.
Qed.

(** ** Histories of transactions *)

(** A worker thread has a DBTX and runs transactions one after the other. *)
Abbreviation worker R := (DBTX * list (body R))%type.

Definition run_worker {R} (rpc : rpcs) (fuel : nat) (w : worker R) : prog (list (result R)) :=
  run_bodies (end_ rpc) fuel w.2 w.1.

(** A transaction, with how it ended. *)
Abbreviation txn R := (body R * result R)%type.

Definition commits {R} (bs : list (body R)) (rs : list (result R)) : list (txn R) :=
  filter (fun x => r_committed x.2 = true) (zip bs rs).

(** The transactions of thread [a] that have committed. *)
Definition commits_of {R} (ws : list (worker R)) (out : list (list (result R))) (a : nat) : list (txn R) :=
  match ws !! a, out !! a with
  | Some w, Some rs => commits w.2 rs
  | _, _ => []
  end.

Definition logs {R} (H : list (nat * txn R)) : list (nat * list litem) :=
  (fun e => (e.1, r_log e.2.2)) <$> H.

(** A serial order of transactions [H] that contains those of every thread in
    the thread's order. *)
Definition orders {R} (H : list (nat * txn R)) (ws : list (worker R)) (out : list (list (result R))) : Prop :=
  forall a, snd <$> filter (fun e => e.1 = a) H = commits_of ws out a.

Lemma committed_commits {R} (bs : list (body R)) rs :
  length bs = length rs -> committed rs = (fun x => r_log x.2) <$> commits bs rs.
Proof.
  unfold commits. revert rs. induction bs as [| b bs IH]; intros [| r rs] Hlen; try done.
  rewrite committed_cons. simpl. destruct (r_committed r) eqn:Hr.
  - rewrite filter_cons_True by done. simpl. f_equal. apply IH. by injection Hlen.
  - rewrite filter_cons_False by (simpl; congruence). apply IH. by injection Hlen.
Qed.

(** What is known of the entries of each thread can be put into the entries. *)
Lemma merge_entries {X Y} (f : X -> Y) (L : list (nat * Y)) (xs : nat -> list X) :
  (forall a, snd <$> filter (fun e => e.1 = a) L = f <$> xs a) ->
  exists H : list (nat * X), (fun e => (e.1, f e.2)) <$> H = L /\
    forall a, snd <$> filter (fun e => e.1 = a) H = xs a.
Proof.
  revert xs. induction L as [| [a y] L IH]; intros xs Hxs.
  { exists []. split; [ done | ]. intros a. specialize (Hxs a). rewrite filter_nil in *.
    symmetry in Hxs. by apply fmap_nil_inv in Hxs as ->. }
  pose proof (Hxs a) as Ha. rewrite filter_cons_True in Ha by done. simpl in Ha.
  symmetry in Ha. apply fmap_cons_inv in Ha as (x & xs' & -> & Ha & Hx).
  destruct (IH (fun b => if decide (b = a) then xs' else xs b)) as (H & HL & HH).
  { intros b. destruct (decide (b = a)) as [-> | Hne]; [ done | ].
    specialize (Hxs b). rewrite filter_cons_False in Hxs by (simpl; congruence). done. }
  exists ((a, x) :: H). split; [ rewrite fmap_cons, HL; simpl; congruence | ]. intros b. specialize (HH b).
  destruct (decide (b = a)) as [-> | Hne].
  - rewrite filter_cons_True by done. rewrite fmap_cons, HH. by subst.
  - by rewrite filter_cons_False by (simpl; congruence).
Qed.

Section sound.
Context {R : Type} (vlen : Z -> nat) (rpc : rpcs) (fuel : nat) (ws : list (worker R)).

(** Every worker can lock, and reads and inserts values of the right length. *)
Definition workers_ok : Prop := Forall (fun w => tx_lock w.1 <> 0 /\ Forall (wt vlen) w.2) ws.

Definition lock_of (a : nat) : Z := match ws !! a with Some w => tx_lock w.1 | None => 1 end.

Lemma lock_of_nz : workers_ok -> forall a, lock_of a <> 0.
Proof.
  intros Hws a. unfold lock_of. destruct (ws !! a) as [w |] eqn:Hw; [ | done ].
  by destruct (Forall_lookup_1 _ _ _ _ Hws Hw).
Qed.

Definition worker_post (a : nat) (rs : list (result R)) (l : local) : Prop :=
  exists w, ws !! a = Some w /\ l_hold l = ∅ /\ l_done l = committed rs /\
    Forall2 (fun b r => path b [] r) w.2 rs.

Lemma workers_awp σ m :
  workers_ok ->
  all_awp loc (Inv lock_of σ vlen) (init_ghost m σ) (run_worker rpc fuel <$> ws) worker_post.
Proof.
  intros Hws a p Hp. rewrite list_lookup_fmap in Hp. apply fmap_Some in Hp as (w & Hw & ->).
  destruct (Forall_lookup_1 _ _ _ _ Hws Hw) as [Hnz Hwt].
  eapply awp_mono; [ | apply awp_run_bodies with (lk := lock_of) (D := []);
    [ by apply lock_of_nz | exact Hwt | done | unfold lock_of; by rewrite Hw | done ] ].
  intros rs l (H1 & H2 & H3). by exists w.
Qed.

(** When all workers are done. *)
Lemma workers_sound sched m σ m' ts' out :
  workers_ok -> quiet vlen (length sched) m -> holds m σ ->
  run_sched sched (m, run_worker rpc fuel <$> ws) = Some (m', ts') -> all_done ts' = Some out ->
  exists H σ', serial σ (logs H) σ' /\ orders H ws out /\ quiet vlen 0 m' /\ holds m' σ' /\
    Forall2 (fun w rs => Forall2 (fun b r => path b [] r) w.2 rs) ws out.
Proof.
  intros Hws Hq Hσ Hrun Hdone.
  destruct (run_done_sound loc (Inv lock_of σ vlen) sched m (run_worker rpc fuel <$> ws) (init_ghost m σ) worker_post m' ts' out)
    as (g & HI & Hlen & HQ & Hb); [ by apply Inv_mono | by apply init_Inv | by apply workers_awp | done | done | ].
  rewrite length_fmap in Hlen, Hb.
  assert (forall a, l_hold (loc a g) = ∅) as Hhold.
  { intros a. destruct (out !! a) as [rs |] eqn:Ha; [ by destruct (HQ a rs Ha) as (w & _ & ? & _) | ].
    apply lookup_ge_None in Ha. rewrite Hb by lia. done. }
  destruct (Inv_quiet _ _ _ _ _ _ HI Hhold) as [Hq' Hσ'].
  assert (Forall2 (fun w rs => Forall2 (fun b r => path b [] r) w.2 rs) ws out) as Hpaths.
  { apply Forall2_same_length_lookup. split; [ done | ]. intros a w rs Hw Hrs.
    destruct (HQ a rs Hrs) as (w' & Hw' & _ & _ & Hp). by simplify_eq. }
  destruct (merge_entries (fun x : txn R => r_log x.2) (g_log g) (commits_of ws out)) as (H & HL & HH).
  { intros a. rewrite <- (i_done _ _ _ _ _ _ HI a). unfold commits_of.
    destruct (out !! a) as [rs |] eqn:Ha.
    - destruct (HQ a rs Ha) as (w & -> & _ & -> & Hp). apply committed_commits. by eapply Forall2_length.
    - apply lookup_ge_None in Ha. rewrite Hb by lia. by destruct (ws !! a). }
  exists H, (g_db g). split_and!; [ | done | done | done | done ].
  unfold logs. rewrite HL. apply HI.
Qed.

Lemma workers_safe sched m σ :
  workers_ok -> quiet vlen (length sched) m -> holds m σ ->
  is_Some (run_sched sched (m, run_worker rpc fuel <$> ws)).
Proof.
  intros Hws Hq Hσ.
  destruct (sched_sound loc (Inv lock_of σ vlen) sched 0 m (run_worker rpc fuel <$> ws) (init_ghost m σ) worker_post)
    as (m' & ts' & g & Hr & _); [ by apply Inv_mono | | by apply workers_awp | by rewrite Hr ].
  rewrite Nat.add_0_r. by apply init_Inv.
Qed.
End sound.

(** ** Serial execution *)

(** The transaction alone, on the database [σ]; [None] when it does not commit. *)
Fixpoint run_at {R : Type} (σ : db) (b : body R) (log : list litem) : option (list litem * R) :=
  match b with
  | BCommit x => Some (log, x)
  | BAbort _ => None
  | BGet t k len cont => c ← σ !! (t, k); run_at σ (cont (Some c)) (log_get t k c log)
  | BStore i off v cont => run_at σ cont (log_store i off v log)
  | BWrite t k cont => _ ← find_litem (is_litem t k) log; run_at σ cont (log_write t k log)
  | BWriteLast cont => run_at σ cont (log_write_last log)
  | BInsert t k v cont => run_at σ cont (log_insert t k v log)
  | BDelete t k cont => run_at σ cont (log_delete t k log)
  end.

(** Transactions one after the other: the database after them, and what they
    return. *)
Fixpoint replay {R : Type} (σ : db) (bs : list (body R)) : option (db * list R) :=
  match bs with
  | [] => Some (σ, [])
  | b :: bs =>
      lx ← run_at σ b [];
      r ← replay (apply_log lx.1 σ) bs;
      Some (r.1, lx.2 :: r.2)
  end.

(** A transaction that gives up when a record is missing. *)
Fixpoint strict {R : Type} (b : body R) : Prop :=
  match b with
  | BCommit _ | BAbort _ => True
  | BGet t k len cont => (exists x, cont None = BAbort x) /\ forall c, strict (cont (Some c))
  | BStore _ _ _ cont | BWrite _ _ cont | BWriteLast cont | BDelete _ _ cont | BInsert _ _ _ cont => strict cont
  end.

(** A transaction that writes every record it has read. *)
Definition covered (log : list litem) : Prop :=
  Forall (fun li => is_Some (li_rd li) -> li_ro li = false) log.

(** What has been read stays in the log. *)
Definition reads (log : list litem) : list (Z * Z * option (list Z)) := (fun li => (li_id li, li_rd li)) <$> log.

Lemma reads_alter f i log :
  (forall li, li_id (f li) = li_id li) -> (forall li, li_rd (f li) = li_rd li) -> reads (alter f i log) = reads log.
Proof.
  intros H1 H2. unfold reads. apply list_eq. intros j. rewrite !list_lookup_fmap.
  destruct (decide (j = i)) as [-> | Hne]; [ | by rewrite list_lookup_alter_ne ].
  rewrite list_lookup_alter_eq. destruct (log !! i) as [li |]; simpl; [ by rewrite H1, H2 | done ].
Qed.

Lemma reads_app log log' : reads (log ++ log') = reads log ++ reads log'.
Proof. apply fmap_app. Qed.

Lemma path_reads {R : Type} (b : body R) log r : path b log r -> reads log `prefix_of` reads (r_log r).
Proof.
  assert (forall f i log, (forall li, li_id (f li) = li_id li) -> (forall li, li_rd (f li) = li_rd li) ->
    reads log `prefix_of` reads (alter f i log)) as Halt by (intros; by rewrite reads_alter).
  assert (forall log log', reads log `prefix_of` reads (log ++ log')) as Happ
    by (intros; rewrite reads_app; by apply prefix_app_r).
  revert log. induction b as [x | x | t k len cont IH | i off v b IH | t k b IH | b IH | t k v b IH | t k b IH];
    intros log Hp; simpl in Hp.
  - by destruct Hp as [-> _].
  - by rewrite Hp.
  - destruct Hp as [Hp | (c & _ & Hp)]; [ by eapply IH | ]. apply IH in Hp. etrans; [ apply Happ | exact Hp ].
  - etrans; [ | exact (IH _ Hp) ]. by apply Halt.
  - destruct Hp as [_ Hp]. etrans; [ | exact (IH _ Hp) ]. unfold log_write. destruct (find_litem _ log); [ by apply Halt | done ].
  - etrans; [ | exact (IH _ Hp) ]. by apply Halt.
  - etrans; [ | exact (IH _ Hp) ]. apply Happ.
  - etrans; [ | exact (IH _ Hp) ]. unfold log_delete. destruct (find_litem _ log); [ by apply Halt | apply Happ ].
Qed.

(** A committed transaction that writes all it reads does what it would have
    done alone on a database where it finds these records as it has read them. *)
Lemma path_run_at {R : Type} σ (b : body R) log r :
  path b log r -> strict b -> r_committed r = true -> covered (r_log r) -> reads_current (r_log r) σ ->
  run_at σ b log = Some (r_log r, r_value r).
Proof.
  intros Hp Hs Hc Hcov Hcur. revert log Hp Hs.
  induction b as [x | x | t k len cont IH | i off v b IH | t k b IH | b IH | t k v b IH | t k b IH];
    intros log Hp Hs; simpl in *; try by apply IH.
  - by destruct Hp as [-> ->].
  - rewrite Hp in Hc. done.
  - destruct Hs as [[x Hx] Hs]. destruct Hp as [Hp | (c & Hlen & Hp)].
    { rewrite Hx in Hp. simpl in Hp. rewrite Hp in Hc. done. }
    assert (σ !! (t, k) = Some c) as ->; [ | simpl; by apply IH ].
    assert ((t, k, Some c) ∈ reads (r_log r)) as Hin.
    { pose proof (path_reads _ _ _ Hp) as [post Hpre]. unfold log_get in Hpre.
      rewrite Hpre, reads_app. apply elem_of_app. left. apply elem_of_app. right. by left. }
    apply list_elem_of_fmap in Hin as (li & Heq & Hin). injection Heq as -> -> Hrd.
    symmetry in Hrd. apply (Hcur li c Hin); [ | done ].
    eapply Forall_forall in Hcov; [ | exact Hin ]. apply Hcov. by rewrite Hrd.
  - destruct Hp as [[i ->] Hp]. simpl. by apply IH.
Qed.

Lemma orders_entries {R : Type} (H : list (nat * txn R)) ws out a x :
  orders H ws out -> (a, x) ∈ H -> x ∈ commits_of ws out a.
Proof.
  intros Ho Hin. rewrite <- (Ho a). apply list_elem_of_fmap. exists (a, x). split; [ done | ].
  by apply list_elem_of_filter.
Qed.

Lemma commits_of_elem {R : Type} (ws : list (worker R)) out a x :
  x ∈ commits_of ws out a -> exists w rs, ws !! a = Some w /\ out !! a = Some rs /\
    r_committed x.2 = true /\ x ∈ zip w.2 rs.
Proof.
  unfold commits_of. destruct (ws !! a) as [w |], (out !! a) as [rs |]; try by intros ?%elem_of_nil.
  intros [Hc Hin]%list_elem_of_filter. by exists w, rs.
Qed.

Lemma serial_replay {R : Type} (H : list (nat * txn R)) σ σ' :
  serial σ (logs H) σ' ->
  (forall e, e ∈ H -> path e.2.1 [] e.2.2 /\ strict e.2.1 /\ r_committed e.2.2 = true /\ covered (r_log e.2.2)) ->
  replay σ ((fun e => e.2.1) <$> H) = Some (σ', (fun e => r_value e.2.2) <$> H).
Proof.
  revert σ. induction H as [| e H IH]; intros σ Hs He; [ simpl in *; by rewrite Hs | ].
  rewrite !fmap_cons. cbn [replay]. destruct Hs as [Hr Hs]. cbn [fst snd] in Hr, Hs.
  destruct (He e) as (H1 & H2 & H3 & H4); [ by left | ].
  rewrite (path_run_at σ _ _ _ H1 H2 H3 H4 Hr). cbn [mbind option_bind fst snd].
  rewrite (IH _ Hs); [ done | ]. intros e' He'. apply He. by right.
Qed.

(** ** Theorems *)

(** No interleaving of transactions accesses memory through a wild pointer, a
    freed value or beyond the end of a value. *)
Theorem transactions_safe (R : Type) vlen rpc fuel (ws : list (worker R)) sched m σ :
  workers_ok vlen ws -> quiet vlen (length sched) m -> holds m σ ->
  is_Some (run_sched sched (m, run_worker rpc fuel <$> ws)).
Proof. apply workers_safe. Qed.

(** C2: first committer wins. Whatever the interleaving, when all threads have
    returned there is an order of the committed transactions, each thread's in the
    order it ran them, such that executing their writes in this order leads from
    the initial to the final database, every transaction finding the records it
    writes as it had read them; aborted transactions have no effect, and no record
    is left locked or half installed. *)
Theorem committed_writes_serial (R : Type) vlen rpc fuel (ws : list (worker R)) sched m σ m' ts' out :
  workers_ok vlen ws -> quiet vlen (length sched) m -> holds m σ ->
  run_sched sched (m, run_worker rpc fuel <$> ws) = Some (m', ts') -> all_done ts' = Some out ->
  exists H σ', serial σ (logs H) σ' /\ orders H ws out /\ quiet vlen 0 m' /\ holds m' σ' /\
    Forall2 (fun w rs => Forall2 (fun b r => path b [] r) w.2 rs) ws out.
Proof. apply workers_sound. Qed.

(** C3: serialisability. When the committed transactions have written every record
    they read and give up on missing records, the final database and all returned
    values are those of running the transactions alone, one after the other, in
    some order that respects the order of each thread. *)
Theorem covered_serialisable (R : Type) vlen rpc fuel (ws : list (worker R)) sched m σ m' ts' out :
  workers_ok vlen ws -> quiet vlen (length sched) m -> holds m σ ->
  run_sched sched (m, run_worker rpc fuel <$> ws) = Some (m', ts') -> all_done ts' = Some out ->
  Forall (fun w => Forall strict w.2) ws ->
  Forall (Forall (fun r => r_committed r = true -> covered (r_log r))) out ->
  exists H σ', orders H ws out /\ holds m' σ' /\
    replay σ ((fun e => e.2.1) <$> H) = Some (σ', (fun e => r_value e.2.2) <$> H).
Proof.
  intros Hws Hq Hσ Hrun Hdone Hst Hcov.
  destruct (workers_sound vlen rpc fuel ws sched m σ m' ts' out) as (H & σ' & Hs & Ho & _ & Hσ' & Hp); try done.
  exists H, σ'. split_and!; [ done | done | ]. apply serial_replay; [ done | ].
  intros [a [b r]] Hin. destruct (commits_of_elem _ _ _ _ (orders_entries _ _ _ _ _ Ho Hin)) as (w & rs & Hw & Hrs & Hc & Hz).
  apply list_elem_of_lookup in Hz as [i Hi]. apply lookup_zip_Some in Hi as [Hi1 Hi2]. simpl.
  pose proof (Forall2_lookup_lr _ _ _ _ _ _ Hp Hw Hrs) as Hp'.
  split_and!; [ by eapply (Forall2_lookup_lr _ _ _ _ _ _ Hp') | | done | ].
  - eapply Forall_lookup_1 in Hst; [ | exact Hw ]. by eapply Forall_lookup_1 in Hst.
  - eapply Forall_lookup_1 in Hcov; [ | exact Hrs ]. eapply Forall_lookup_1 in Hcov; [ | exact Hi2 ]. by apply Hcov.
Qed.

(** ** Two records *)

(** Table 0 has the records 1 and 2, of one byte each. *)
Definition two_records : memory :=
  {| m_nodes := {[ 1%N := {| n_lock := 0; n_seq := 2; n_value := Some 11%N |};
                   2%N := {| n_lock := 0; n_seq := 2; n_value := Some 12%N |} ]};
     m_bufs := {[ 11%N := [1]; 12%N := [1] ]};
     m_stores := {[ (0, 1) := 1%N; (0, 2) := 2%N ]};
     m_indexs := ∅; m_links := ∅; m_next := 13%N |}.

Definition two_db : db := {[ (0, 1) := [1]; (0, 2) := [1] ]}.

Definition no_rpcs : rpcs :=
  {| rpc_lock := Stop; rpc_validate := Stop; rpc_release := Stop; rpc_log := Stop; rpc_commit := Stop |}.

Definition tx0 : DBTX := DBTX_new 0 0 0.
Definition tx1 : DBTX := DBTX_new 0 1 0.

(** Threads 0 and 1 take turns. *)
Definition turns (n : nat) : list nat := mjoin (replicate n [0; 1]%nat).

Definition first_byte (c : list Z) : Z := default 0 (head c).

Definition increment (k : Z) : body (list Z) :=
  BGet 0 k 1 (fun o => match o with
  | None => BAbort []
  | Some c => BStore 0 0 (first_byte c + 1) (BWrite 0 k (BCommit c))
  end).

Definition one_byte (t : Z) : nat := 1.

(** Thread 0 increments both records, thread 1 the first one. *)
Definition increments : list (worker (list Z)) :=
  [ (tx0, [increment 1; increment 2]); (tx1, [increment 1]) ].

Lemma two_quiet k : (k <= 1000)%nat -> quiet one_byte k two_records.
Proof.
  intros Hk. split.
  - lia.
  - intros n nd Hn. assert (n = 1%N \/ n = 2%N) as [-> | ->].
    { unfold two_records in Hn; simpl in Hn. apply lookup_insert_Some in Hn as [[<- _] | [_ Hn]]; [ by left | ].
      apply lookup_singleton_Some in Hn as [<- _]. by right. }
    all: vm_compute in Hn; injection Hn as <-; cbn [n_lock n_seq n_value].
    all: split_and!; [ done | done | lia | lia | intros p [= <-]; vm_compute; by eexists ].
  - intros key n Hs. unfold two_records in Hs; simpl in Hs.
    apply lookup_insert_Some in Hs as [[_ <-] | [_ Hs]]; [ vm_compute; by eexists | ].
    apply lookup_singleton_Some in Hs as [_ <-]. vm_compute. by eexists.
  - intros key key' n. unfold two_records; simpl.
    intros [[<- <-] | [_ [<- <-]%lookup_singleton_Some]]%lookup_insert_Some
           [[<- ?] | [_ [<- ?]%lookup_singleton_Some]]%lookup_insert_Some; done.
  - intros key c Hc. unfold lookup_record, two_records in Hc; simpl in Hc.
    apply bind_Some in Hc as (n & [[_ <-] | [_ [_ <-]%lookup_singleton_Some]]%lookup_insert_Some & Hc);
      vm_compute in Hc; by simplify_eq.
  - intros p Hp. simpl in *. rewrite !lookup_insert_ne, !lookup_singleton_ne by lia. done.
Qed.

Lemma two_holds : holds two_records two_db.
Proof.
  intros key. unfold lookup_record, two_db, two_records. simpl.
  destruct (decide (key = (0, 1))) as [-> | H1]; [ done | ].
  destruct (decide (key = (0, 2))) as [-> | H2]; [ done | ].
  by rewrite !lookup_insert_ne, !lookup_singleton_ne by congruence.
Qed.

Lemma increments_ok : workers_ok one_byte increments.
Proof. repeat constructor; try done; intros [c |]; repeat constructor. Qed.

Definition end_state {A} (sched : list nat) (m : memory) (ts : list (prog A)) : option (memory * list A) :=
  s ← run_sched sched (m, ts); out ← all_done s.2; Some (s.1, out).

Lemma end_state_inv {A} sched m (ts : list (prog A)) m' out :
  end_state sched m ts = Some (m', out) ->
  exists ts', run_sched sched (m, ts) = Some (m', ts') /\ all_done ts' = Some out.
Proof.
  unfold end_state. destruct (run_sched sched (m, ts)) as [[m1 ts1] |]; simpl; [ | done ].
  destruct (all_done ts1) as [o |] eqn:Ho; simpl; [ | done ]. intros [= <- <-]. by exists ts1.
Qed.

Definition increments_run := end_state (turns 40) two_records (run_worker no_rpcs 1 <$> increments).

Lemma transactions_safe_witness :
  is_Some (run_sched (turns 40) (two_records, run_worker no_rpcs 1 <$> increments)).
Proof.
  apply (transactions_safe _ one_byte no_rpcs 1 increments (turns 40) two_records two_db);
    [ apply increments_ok | apply two_quiet; vm_compute; lia | apply two_holds ].
Defined.

(** Thread 1 has to give up, since thread 0 commits first. *)
Lemma committed_writes_serial_witness :
  exists m' out, increments_run = Some (m', out) /\ (fmap (M := list) r_committed <$> out) = [[true; true]; [false]] /\
  exists H σ', serial two_db (logs H) σ' /\ orders H increments out /\ quiet one_byte 0 m' /\ holds m' σ' /\
    Forall2 (fun w rs => Forall2 (fun b r => path b [] r) w.2 rs) increments out.
Proof.
  destruct increments_run as [[m' out] |] eqn:Hrun; [ | vm_compute in Hrun; discriminate Hrun ].
  exists m', out. split; [ done | ]. split; [ vm_compute in Hrun; by simplify_eq | ].
  apply end_state_inv in Hrun as (ts' & Hrun & Hdone).
  apply (committed_writes_serial _ one_byte no_rpcs 1 increments (turns 40) two_records two_db m' ts');
    [ apply increments_ok | apply two_quiet; vm_compute; lia | apply two_holds | exact Hrun | exact Hdone ].
Defined.

Lemma covered_serialisable_witness :
  exists m' out, increments_run = Some (m', out) /\
  exists H σ', orders H increments out /\ holds m' σ' /\
    replay two_db ((fun e => e.2.1) <$> H) = Some (σ', (fun e => r_value e.2.2) <$> H).
Proof.
  destruct increments_run as [[m' out] |] eqn:Hrun; [ | vm_compute in Hrun; discriminate Hrun ].
  exists m', out. split; [ done | ].
  assert (Forall (Forall (fun r => r_committed r = true -> covered (r_log r))) out) as Hcov.
  { vm_compute in Hrun. simplify_eq. repeat constructor. }
  apply end_state_inv in Hrun as (ts' & Hrun & Hdone).
  apply (covered_serialisable _ one_byte no_rpcs 1 increments (turns 40) two_records two_db m' ts');
    [ apply increments_ok | apply two_quiet; vm_compute; lia | apply two_holds | exact Hrun | exact Hdone
    | repeat constructor; by exists [] | exact Hcov ].
Defined.

(** ** What is not guaranteed *)

(** Both records are read, and one of them becomes their sum. *)
Definition sum_into (i : nat) (k : Z) : body (list Z) :=
  BGet 0 1 1 (fun o => match o with
  | None => BAbort []
  | Some c => BGet 0 2 1 (fun o => match o with
    | None => BAbort []
    | Some d => BStore i 0 (first_byte c + first_byte d) (BWrite 0 k (BCommit (c ++ d)))
    end)
  end).

(** Two transactions commit with a result that no serial order of them has. *)
Definition write_skew (commit : DBTX -> prog (bool * DBTX)) : Prop :=
  exists sched m' out,
    end_state sched two_records
      [run_bodies commit 1 [sum_into 0 1] tx0; run_bodies commit 1 [sum_into 1 2] tx1] = Some (m', out) /\
    (fmap (M := list) r_committed <$> out) = [[true]; [true]] /\
    forall bs σ' xs, bs ≡ₚ [sum_into 0 1; sum_into 1 2] -> replay two_db bs = Some (σ', xs) -> ~ holds m' σ'.

Lemma write_skew_from commit m' out :
  end_state (turns 40) two_records
    [run_bodies commit 1 [sum_into 0 1] tx0; run_bodies commit 1 [sum_into 1 2] tx1] = Some (m', out) ->
  (fmap (M := list) r_committed <$> out) = [[true]; [true]] ->
  lookup_record m' (0, 1) = Some [2] -> lookup_record m' (0, 2) = Some [2] -> write_skew commit.
Proof.
  intros Hrun Hc H1 H2. exists (turns 40), m', out. split; [ done | ]. split; [ done | ].
  intros bs σ' xs Hp Hr Hσ. rewrite (Hσ (0, 1)) in H1. rewrite (Hσ (0, 2)) in H2.
  assert (forall k, ((fun r => r.1 !! k) <$> replay two_db bs) = Some (σ' !! k)) as Hk by (intros k; by rewrite Hr).
  pose proof (Hk (0, 1)) as Hk1. pose proof (Hk (0, 2)) as Hk2. rewrite H1 in Hk1. rewrite H2 in Hk2. clear - Hp Hk1 Hk2.
  symmetry in Hp. apply Permutation_length_2_inv in Hp as [-> | ->].
  - vm_compute in Hk2. discriminate Hk2.
  - vm_compute in Hk1. discriminate Hk1.
Qed.

(** A record that a transaction reads without writing it may have been changed by
    the time the transaction commits: end does not look at such records again,
    and end_fasst looks at their sequence numbers but not at their locks. Two
    transactions that each overwrite what the other has read both commit, with
    a result that no serial order has. *)
Theorem end_write_skew : write_skew (end_ no_rpcs) /\ write_skew (end_fasst no_rpcs 1).
Proof.
  split; (eapply write_skew_from; [ vm_compute; reflexivity | reflexivity | vm_compute; reflexivity | vm_compute; reflexivity ]).
Qed.

(** A writer sets both records to 2 and a read-only transaction reads them. *)
Definition set_both : body (list Z) :=
  BGet 0 1 1 (fun _ => BGet 0 2 1 (fun _ => BStore 0 0 2 (BStore 1 0 2 (BWrite 0 1 (BWrite 0 2 (BCommit [])))))).

Definition read_both (tx : DBTX) : prog (list (result (list Z))) :=
  v1 <- call (Malloc [0]) ;;
  v2 <- call (Malloc [0]) ;;
  '(_, rw) <- get_ro 1 0 1 v1 1 None (tx_rwset tx) ;;
  '(_, rw) <- get_ro 1 0 2 v2 1 None rw ;;
  ok <- end_ro (with_rwset rw tx) ;;
  a <- read_buf v1 [0%nat] ;;
  b <- read_buf v2 [0%nat] ;;
  Done [Result ok [] (a ++ b)].

(** A read-only transaction that end_ro has validated may have read a state that
    never existed: of two records that a committed transaction changes together
    it has seen one before and one after the change. *)
Theorem end_ro_torn :
  exists sched m' out, end_state sched two_records
    [run_bodies (end_ no_rpcs) 1 [set_both] tx0; read_both tx1] = Some (m', out) /\
  (fmap (M := list) r_committed <$> out) = [[true]; [true]] /\ (fmap (M := list) r_value <$> out) = [[[]]; [[2; 1]]] /\
  (lookup_record two_records <$> [(0, 1); (0, 2)]) = [Some [1]; Some [1]] /\
  (lookup_record m' <$> [(0, 1); (0, 2)]) = [Some [2]; Some [2]].
Proof.
  exists (replicate 30 0%nat ++ replicate 30 1%nat ++ replicate 20 0%nat).
  eexists _, _. split; [ vm_compute; reflexivity | ].
  split; [ reflexivity | ]. split; [ reflexivity | ]. split; vm_compute; reflexivity.
Qed.
