(* ===== verification/DbtxSolo.v ===== *)
(** * DbtxSolo: a transaction that is alone commits

    DbtxProps.v says what holds once all threads have returned. Here: a thread
    that nobody interferes with does return, its transaction commits, and its
    effect is the one of running it on the abstract database. *)

From stdpp Require Import gmap.
From S2P Require Import Prelude.
From S2P Require Import DbtxMem.
From S2P Require Import Dbtx.
From S2P Require Import DbtxInv.
From S2P Require Import DbtxOps.
From S2P Require Import DbtxProps.

(** ** Running alone *)

Fixpoint solo {A} (p : prog A) (m : memory) : option (memory * A) :=
  match p with
  | Done a => Some (m, a)
  | Do o k => match exec o m with Some (m', r) => solo (k r) m' | None => None end
  | Stop | Wild | Again => None
  end.

Lemma solo_bind {A B} (p : prog A) (f : A -> prog B) m m' x :
  solo p m = Some (m', x) -> solo (prog_bind p f) m = solo (f x) m'.
Proof.
  revert m. induction p as [y | R o k IH | | |]; intros m Hp; simpl in *; try done; [ by simplify_eq | ].
  destruct (exec o m) as [[m1 r] |]; [ by apply IH | done ].
Qed.

Lemma solo_do {A R} (o : op R) (f : R -> prog A) m m' r :
  exec o m = Some (m', r) -> solo (prog_bind (call o) f) m = solo (f r) m'.
Proof. intros He. simpl. by rewrite He. Qed.

Lemma solo_sched {A} (p : prog A) m m' x :
  solo p m = Some (m', x) -> exists n, run_sched (replicate n 0%nat) (m, [p]) = Some (m', [Done x]).
Proof.
  revert m. induction p as [y | R o k IH | | |]; intros m Hp; simpl in *; try done.
  - simplify_eq. by exists 0%nat.
  - destruct (exec o m) as [[m1 r] |] eqn:He; [ | done ]. destruct (IH r m1 Hp) as [n Hn].
    exists (S n). simpl. unfold step_at. simpl. by rewrite He.
Qed.

(** ** Changes that no record sees *)

Lemma lookup_record_node m k n nd :
  m_stores m !! k = Some n -> m_nodes m !! n = Some nd -> lookup_record m k = content m nd.
Proof. intros Hs Hn. unfold lookup_record. rewrite Hs. simpl. by rewrite Hn. Qed.

(** No record points to [p]. *)
Definition unpublished (m : memory) (p : N) : Prop :=
  forall n nd, m_nodes m !! n = Some nd -> n_value nd <> Some p.

Definition with_bufs (bs : gmap N (list Z)) (next : N) (m : memory) : memory :=
  {| m_nodes := m_nodes m; m_bufs := bs; m_stores := m_stores m; m_indexs := m_indexs m;
     m_links := m_links m; m_next := next |}.

Section bufs.
Context (vlen : Z -> nat) (k : nat) (σ : db) (m : memory) (p : N) (bs : gmap N (list Z)) (next : N).
Context (Hq : quiet vlen k m) (Hσ : holds m σ) (Hp : unpublished m p).
Context (Hbs : forall q, q <> p -> bs !! q = m_bufs m !! q) (Hnext : (m_next m <= next)%N).
Context (Hfree : forall q, (next <= q)%N -> bs !! q = None).

Lemma content_bufs n nd : m_nodes m !! n = Some nd -> content (with_bufs bs next m) nd = content m nd.
Proof using Hp Hbs.
  intros Hn. unfold content. destruct (n_value nd) as [q |] eqn:Hv; [ | done ]. simpl. apply Hbs.
  intros ->. by apply (Hp _ _ Hn).
Qed.

Lemma lookup_record_bufs key : lookup_record (with_bufs bs next m) key = lookup_record m key.
Proof using Hp Hbs.
  unfold lookup_record. simpl. destruct (m_stores m !! key) as [n |]; [ | done ]. simpl.
  destruct (m_nodes m !! n) as [nd |] eqn:Hn; [ | done ]. simpl. by eapply content_bufs.
Qed.

Lemma quiet_bufs : quiet vlen k (with_bufs bs next m).
Proof using Hq Hp Hbs Hnext Hfree.
  destruct Hq as [H1 H2 H3 H4 H5 H6]. split; try done.
  - intros n nd Hn. destruct (H2 n nd Hn) as (G1 & G2 & G3 & G4 & G5). split_and!; try done.
    intros q Hv. simpl. rewrite Hbs; [ by apply G5 | ]. intros ->. by apply (Hp _ _ Hn).
  - intros key c. rewrite lookup_record_bufs. apply H5.
  - intros q Hle. simpl in *. split; [ apply H6; lia | by apply Hfree ].
Qed.

Lemma holds_bufs : holds (with_bufs bs next m) σ.
Proof using Hσ Hp Hbs. intros key. rewrite lookup_record_bufs. apply Hσ. Qed.
End bufs.

(** A record that is created by looking it up has no value. *)
Lemma get_with_insert_quiet vlen k σ m t key m' n :
  quiet vlen k m -> holds m σ -> get_with_insert false (t, key) m = (m', n) ->
  quiet vlen k m' /\ holds m' σ /\ m_stores m' !! (t, key) = Some n /\
  m_stores m ⊆ m_stores m' /\ m_nodes m ⊆ m_nodes m' /\ m_bufs m' = m_bufs m /\
  (forall p, unpublished m p -> unpublished m' p).
Proof.
  intros Hq Hσ. unfold get_with_insert. destruct (m_stores m !! (t, key)) as [n0 |] eqn:Hs; intros [= <- <-].
  { by split_and!. }
  pose proof Hq as [H1 H2 H3 H4 H5 H6]. destruct (H6 (m_next m)) as [Hfresh _]; [ lia | ].
  set (m' := {| m_nodes := _ |}).
  assert (forall key', lookup_record m' key' = lookup_record m key') as Hrec.
  { intros key'. unfold lookup_record. simpl. destruct (decide (key' = (t, key))) as [-> | Hne].
    - rewrite lookup_insert_eq, Hs. simpl. by rewrite lookup_insert_eq.
    - rewrite lookup_insert_ne by done. destruct (m_stores m !! key') as [n |] eqn:Hn; [ | done ]. simpl.
      destruct (H3 _ _ Hn) as [nd Hnd]. rewrite lookup_insert_ne by (intros <-; by simplify_eq). done. }
  split_and!; [ split; try done | by intros key'; rewrite Hrec | by apply lookup_insert_eq
              | by apply insert_subseteq | by apply insert_subseteq | done | ].
  - intros n nd. unfold m'; simpl. intros [[<- <-] | [_ Hn]]%lookup_insert_Some; [ simpl; split_and!; try done; lia | by apply (H2 n) ].
  - intros key' n. unfold m'; simpl. intros [[<- <-] | [_ Hn]]%lookup_insert_Some; simpl;
      [ rewrite lookup_insert_eq; by eexists | ]. destruct (H3 _ _ Hn) as [nd Hnd].
    rewrite lookup_insert_ne by (intros <-; by simplify_eq). by eexists.
  - intros k1 k2 n. unfold m'; simpl. intros [[<- <-] | [Hn1 G1]]%lookup_insert_Some [[<- G] | [Hn2 G2]]%lookup_insert_Some; try done.
    + destruct (H3 _ _ G2) as [nd Hnd]. by simplify_eq.
    + destruct (H3 _ _ G1) as [nd Hnd]. by simplify_eq.
    + by eapply H4.
  - intros key' c. rewrite Hrec. apply H5.
  - intros p Hp. simpl in *. rewrite lookup_insert_ne by lia. apply H6. lia.
  - intros p Hp n nd. unfold m'; simpl. intros [[<- <-] | [_ Hn]]%lookup_insert_Some; [ done | by eapply Hp ].
Qed.

(** ** A transaction and its items *)

Record item_at (vlen : Z -> nat) (m : memory) (it : RWSetItem) (li : litem) : Prop := {
  ia_tab : it_tableid it = li_tab li;
  ia_key : it_key it = li_key li;
  ia_ro : it_ro it = li_ro li;
  ia_node : m_stores m !! li_id li = Some (it_node it);
  ia_seq : n_seq <$> m_nodes m !! it_node it = Some (it_seq it);
  ia_value : match it_addr it, li_wr li with
    | Some p, Some c => m_bufs m !! p = Some c /\ unpublished m p
    | None, None => True
    | _, _ => False
    end
}.

Record alone (vlen : Z -> nat) (k : nat) (σ : db) (m : memory) (tx : DBTX) (log : list litem) : Prop := {
  al_quiet : quiet vlen k m;
  al_holds : holds m σ;
  al_items : Forall2 (item_at vlen m) (rw_kvs (tx_rwset tx)) log;
  al_addrs : NoDup (addrs (rw_kvs (tx_rwset tx)));
  al_cur : rw_current (tx_rwset tx) = -1;
  al_remote : tx_remoteset tx = RemoteSet_clear;
  al_abort : tx_abort tx = false
}.

Lemma item_at_addr vlen m its log p :
  Forall2 (item_at vlen m) its log -> p ∈ addrs its -> is_Some (m_bufs m !! p) /\ unpublished m p.
Proof.
  intros Hr (it & Hin & Ha)%elem_addrs. apply list_elem_of_lookup in Hin as [i Hi].
  destruct (Forall2_lookup_l _ _ _ _ _ Hr Hi) as (li & _ & Hit). pose proof (ia_value _ _ _ _ Hit) as Hv.
  rewrite Ha in Hv. destruct (li_wr li); [ | done ]. destruct Hv as [-> Hu]. by split.
Qed.

(** Memory grows, and the copies of the transaction stay. *)
Lemma alone_grow vlen k σ m m' tx log :
  alone vlen k σ m tx log -> quiet vlen k m' -> holds m' σ ->
  m_stores m ⊆ m_stores m' -> m_nodes m ⊆ m_nodes m' ->
  (forall p, p ∈ addrs (rw_kvs (tx_rwset tx)) -> m_bufs m' !! p = m_bufs m !! p /\ (unpublished m p -> unpublished m' p)) ->
  alone vlen k σ m' tx log.
Proof.
  intros [H1 H2 H3 H4 H5 H6 H7] Hq Hσ Hs Hn Hp. split; try done.
  apply Forall2_same_length_lookup. split; [ by eapply Forall2_length | ].
  intros i it li Hi Hli. destruct (Forall2_lookup_lr _ _ _ _ _ _ H3 Hi Hli) as [G1 G2 G3 G4 G5 G6].
  split; try done.
  - by eapply lookup_weaken.
  - apply fmap_Some in G5 as (nd & G5 & ->). by rewrite (lookup_weaken _ _ _ _ G5 Hn).
  - destruct (it_addr it) as [p |] eqn:Ha, (li_wr li) as [c |]; try done.
    destruct (Hp p) as [-> Hu]; [ | by destruct G6 as [-> ?]; split; [ | by apply Hu ] ].
    apply elem_addrs. exists it. split; [ by eapply list_elem_of_lookup_2 | done ].
Qed.

Lemma alone_add vlen k σ m tx log it li :
  alone vlen k σ m tx log -> item_at vlen m it li ->
  (forall p, it_addr it = Some p -> p ∉ addrs (rw_kvs (tx_rwset tx))) ->
  alone vlen k σ m (with_rwset (RWSet_Add it (tx_rwset tx)) tx) (log ++ [li]).
Proof.
  intros [H1 H2 H3 H4 H5 H6 H7] Hit Hp. split; try done; change (tx_rwset (with_rwset ?r tx)) with r.
  - rewrite kvs_add. apply Forall2_app; [ done | by apply Forall2_cons ].
  - rewrite kvs_add, addrs_app, addrs_cons. destruct (it_addr it) as [p |]; [ | simpl; by rewrite app_nil_r ].
    apply NoDup_app. split_and!; [ done | | by apply NoDup_singleton ].
    intros q Hq ->%list_elem_of_singleton. by apply (Hp p).
  - by rewrite current_add.
Qed.

Lemma fresh_unpublished vlen k m : quiet vlen k m -> unpublished m (m_next m).
Proof.
  intros Hq n nd Hn Hv. destruct (q_node _ _ _ Hq n nd Hn) as (_ & _ & _ & _ & Hp).
  destruct (Hp _ Hv) as [c Hc]. destruct (q_next _ _ _ Hq (m_next m)) as [_ He]; [ lia | ]. by simplify_eq.
Qed.

(** malloc *)
Definition malloced (bytes : list Z) (m : memory) : memory :=
  with_bufs (<[m_next m := bytes]> (m_bufs m)) (N.succ (m_next m)) m.

Lemma fresh_not_addr vlen k σ m tx log :
  alone vlen k σ m tx log -> m_next m ∉ addrs (rw_kvs (tx_rwset tx)).
Proof.
  intros Ha Hin. destruct (item_at_addr _ _ _ _ _ (al_items _ _ _ _ _ _ Ha) Hin) as [[c Hc] _].
  destruct (q_next _ _ _ (al_quiet _ _ _ _ _ _ Ha) (m_next m)) as [_ He]; [ lia | ]. by simplify_eq.
Qed.

(** The bytes of a value that is not published change. *)
Lemma alone_bufs vlen k σ m tx log p bs next :
  alone vlen k σ m tx log -> unpublished m p -> p ∉ addrs (rw_kvs (tx_rwset tx)) ->
  (forall q, q <> p -> bs !! q = m_bufs m !! q) -> (m_next m <= next)%N ->
  (forall q, (next <= q)%N -> bs !! q = None) ->
  alone vlen k σ (with_bufs bs next m) tx log.
Proof.
  intros Ha Hp Hin Hbs Hn Hf.
  eapply alone_grow; [ exact Ha | | | done | done | ].
  - eapply quiet_bufs; try done. apply Ha.
  - eapply holds_bufs; try done. apply Ha.
  - intros q Hq. simpl. split; [ apply Hbs; by intros -> | done ].
Qed.

Lemma alone_malloc vlen k σ m tx log bytes :
  alone vlen k σ m tx log -> alone vlen k σ (malloced bytes m) tx log.
Proof.
  intros Ha. pose proof (q_next _ _ _ (al_quiet _ _ _ _ _ _ Ha)) as Hn.
  eapply (alone_bufs vlen k σ m tx log (m_next m)); [ exact Ha | eapply fresh_unpublished, Ha | by eapply fresh_not_addr | | lia | ].
  - intros q Hq. by rewrite lookup_insert_ne.
  - intros q Hq. rewrite lookup_insert_ne by lia. apply Hn. lia.
Qed.

(** A record is looked up. *)
Lemma alone_lookup vlen k σ m tx log t key m' n :
  alone vlen k σ m tx log -> get_with_insert false (t, key) m = (m', n) -> alone vlen k σ m' tx log.
Proof.
  intros Ha Hg. destruct (get_with_insert_quiet vlen k σ m t key m' n) as (H1 & H2 & H3 & H4 & H5 & H6 & H7);
    [ apply Ha | apply Ha | done | ].
  eapply alone_grow; [ exact Ha | done | done | done | done | ].
  intros p _. split; [ by rewrite H6 | apply H7 ].
Qed.

Lemma quiet_node vlen k m key n : quiet vlen k m -> m_stores m !! key = Some n -> is_Some (m_nodes m !! n).
Proof. intros Hq. apply (q_index _ _ _ Hq). Qed.

(** ** Reads *)

Lemma solo_copy dst src c b m n i :
  m_bufs m !! src = Some c -> dst <> src -> length b = length c -> (i + n)%nat = length c ->
  m_bufs m !! dst = Some (take i c ++ drop i b) ->
  solo (copy_bytes dst src (seq i n)) m = Some (set_bufs (<[dst := c]> (m_bufs m)) m, tt).
Proof.
  intros Hs Hne Hlen. revert i m Hs. induction n as [| n IH]; intros i m Hs Hi Hd.
  { simpl. rewrite take_ge, drop_ge, app_nil_r in Hd by lia. rewrite insert_id by done. by destruct m. }
  destruct (lookup_lt_is_Some_2 c i) as [v Hv]; [ lia | ].
  cbn [seq copy_bytes]. erewrite solo_do; [ | simpl; rewrite Hs; simpl; by rewrite Hv ].
  assert (is_Some ((take i c ++ drop i b) !! i)) as [w Hw].
  { apply lookup_lt_is_Some. rewrite length_app, length_take, length_drop. lia. }
  erewrite solo_do; [ | simpl; rewrite Hd; simpl; rewrite Hw; simpl; reflexivity ].
  rewrite (IH (S i)); [ simpl; by rewrite insert_insert_eq | simpl; by rewrite lookup_insert_ne | lia | ].
  simpl. by rewrite lookup_insert_eq, insert_take_drop.
Qed.

Lemma solo_read_buf p c m n i :
  m_bufs m !! p = Some c -> (i + n)%nat = length c -> solo (read_buf p (seq i n)) m = Some (m, drop i c).
Proof.
  intros Hp. revert i. induction n as [| n IH]; intros i Hi.
  { simpl. by rewrite drop_ge by lia. }
  destruct (lookup_lt_is_Some_2 c i) as [v Hv]; [ lia | ].
  cbn [seq read_buf]. erewrite solo_do; [ | simpl; rewrite Hp; simpl; by rewrite Hv ].
  erewrite solo_bind; [ | apply IH; lia ]. simpl. by rewrite (drop_S _ _ _ Hv).
Qed.

Section solo.
Context (vlen : Z -> nat) (k : nat) (σ : db).
Local Notation alone := (alone vlen k σ).

Lemma solo_get fuel t key c m tx log :
  alone m tx log -> (0 < fuel)%nat -> σ !! (t, key) = Some c ->
  exists m' s p rw, solo (get fuel t key (vlen t) (tx_rwset tx)) m = Some (m', (s, Some p, rw)) /\
    m_bufs m' !! p = Some c /\ length c = vlen t /\ alone m' (with_rwset rw tx) (log_get t key c log).
Proof.
  intros Ha Hfuel Hc. pose proof (al_holds _ _ _ _ _ _ Ha (t, key)) as Hr. rewrite Hc in Hr.
  assert (length c = vlen t) as Hlen by apply (q_len _ _ _ (al_quiet _ _ _ _ _ _ Ha) _ _ Hr).
  unfold lookup_record in Hr. apply bind_Some in Hr as (n & Hs & (nd & Hn & Hv)%bind_Some).
  apply bind_Some in Hv as (src & Hsrc & Hb).
  pose proof (al_quiet _ _ _ _ _ _ Ha) as Hq. pose proof (fresh_unpublished _ _ _ Hq) as Hu.
  set (p := m_next m) in *. assert (p <> src) as Hne. { intros ->. by apply (Hu n nd). }
  assert (n_seq nd =? 1 = false) as Hodd.
  { apply Z.eqb_neq. destruct (q_node _ _ _ Hq n nd Hn) as (_ & He & _). intros He'. by rewrite He' in He. }
  set (m1 := malloced (replicate (vlen t) 0) m).
  set (m2 := set_bufs (<[p := c]> (m_bufs m1)) m1).
  set (it := {| it_tableid := t; it_key := key; it_len := Z.of_nat (vlen t); it_node := n;
                it_addr := Some p; it_seq := n_seq nd; it_ro := true |}).
  exists m2, (n_seq nd), p, (RWSet_Add it (tx_rwset tx)).
  assert (alone m2 tx log) as Ha2.
  { apply (alone_bufs vlen k σ m1 tx log p).
    - by apply alone_malloc.
    - done.
    - by eapply fresh_not_addr.
    - intros q Hq'. by rewrite lookup_insert_ne.
    - done.
    - intros q Hq'. simpl in *. rewrite !lookup_insert_ne by lia. apply (q_next _ _ _ Hq). lia. }
  split_and!.
  - unfold get. rewrite (solo_do _ _ m m1 p) by reflexivity.
    erewrite solo_do; [ | simpl; unfold get_with_insert; simpl; rewrite Hs; reflexivity ].
    erewrite solo_do; [ | simpl; unfold on_node; simpl; rewrite Hn; reflexivity ]. cbn [snd]. rewrite Hsrc.
    rewrite bool_decide_true by by eexists. cbn [assert prog_bind].
    erewrite solo_bind with (x := Some (n_seq nd)) (m' := m2); [ reflexivity | ].
    destruct fuel as [| fuel]; [ lia | ]. cbn [get_retry].
    erewrite solo_do; [ | simpl; unfold on_node; simpl; rewrite Hn; reflexivity ]. cbn [snd]. rewrite Hodd.
    erewrite solo_do; [ | simpl; unfold on_node; simpl; rewrite Hn; reflexivity ]. cbn [snd]. rewrite Hsrc.
    unfold memcpy_val. erewrite solo_bind; [ | eapply solo_copy with (c := c) (b := replicate (vlen t) 0) ].
    + erewrite solo_do; [ | simpl; unfold on_node; simpl; rewrite Hn; reflexivity ]. cbn [snd].
      by rewrite Z.eqb_refl.
    + simpl. by rewrite lookup_insert_ne.
    + done.
    + by rewrite length_replicate.
    + lia.
    + simpl. by rewrite lookup_insert_eq.
  - simpl. by rewrite lookup_insert_eq.
  - done.
  - unfold log_get. apply alone_add; [ done | | ].
    + split; try done; simpl; [ by rewrite Hn | ]. rewrite lookup_insert_eq. split; [ done | ].
      intros n' nd' Hn'. apply (Hu n' nd' Hn').
    + intros q [= <-]. by eapply fresh_not_addr.
Qed.

(** ** Writes *)

Lemma solo_insert t key v m tx log :
  alone m tx log ->
  exists m' rw, solo (insert t key v (tx_rwset tx)) m = Some (m', rw) /\
    alone m' (with_rwset rw tx) (log_insert t key v log).
Proof.
  intros Ha. pose proof (al_quiet _ _ _ _ _ _ Ha) as Hq. pose proof (fresh_unpublished _ _ _ Hq) as Hu.
  set (m1 := malloced v m). assert (alone m1 tx log) as Ha1 by by apply alone_malloc.
  destruct (get_with_insert false (t, key) m1) as [m2 n] eqn:Hg.
  destruct (get_with_insert_quiet vlen k σ m1 t key m2 n) as (H1 & H2 & H3 & H4 & H5 & H6 & H7);
    [ apply Ha1 | apply Ha1 | done | ].
  destruct (quiet_node _ _ _ _ _ H1 H3) as [nd Hn].
  eexists m2, _. split.
  - unfold insert. rewrite (solo_do _ _ m m1 (m_next m)) by reflexivity.
    rewrite (solo_do _ _ m1 m2 n) by (simpl; by rewrite Hg).
    rewrite (solo_do _ _ m2 m2 (n_seq nd)) by (simpl; unfold on_node; by rewrite Hn). reflexivity.
  - unfold log_insert. apply alone_add; [ by eapply alone_lookup | | ].
    + split; try done; simpl; [ by rewrite Hn | ]. rewrite H6. simpl. rewrite lookup_insert_eq.
      split; [ done | ]. by apply H7.
    + intros q [= <-]. by eapply fresh_not_addr.
Qed.

Lemma alone_kvs m tx log kvs log' :
  alone m tx log -> Forall2 (item_at vlen m) kvs log' -> NoDup (addrs kvs) ->
  alone m (with_rwset (with_kvs kvs (tx_rwset tx)) tx) log'.
Proof. intros [H1 H2 H3 H4 H5 H6 H7] Hr Hn. by split. Qed.

Lemma find_item_at m its log t key :
  Forall2 (item_at vlen m) its log -> find_item (is_item t key) its = find_litem (is_litem t key) log.
Proof.
  induction 1 as [| it li its log Hit _ IH]; simpl; [ done | ].
  unfold is_item, is_litem in *. rewrite (ia_tab _ _ _ _ Hit), (ia_key _ _ _ _ Hit).
  destruct ((li_tab li =? t) && (li_key li =? key)); [ done | by rewrite IH ].
Qed.

Lemma alone_write m tx log i :
  alone m tx log ->
  alone m (with_rwset (with_kvs (alter to_write i (rw_kvs (tx_rwset tx))) (tx_rwset tx)) tx) (alter li_write i log).
Proof.
  intros Ha. apply (alone_kvs m tx log); [ done | | rewrite addrs_write; apply Ha ].
  apply Forall2_alter; [ apply Ha | ]. intros it li _ _ [H1 H2 H3 H4 H5 H6]. by split.
Qed.

Lemma solo_write t key i m tx log :
  alone m tx log -> find_litem (is_litem t key) log = Some i ->
  exists rw, solo (write t key (tx_rwset tx)) m = Some (m, rw) /\ alone m (with_rwset rw tx) (log_write t key log).
Proof.
  intros Ha Hi. unfold write, log_write. rewrite (find_item_at _ _ _ _ _ (al_items _ _ _ _ _ _ Ha)), Hi.
  eexists. split; [ reflexivity | by apply alone_write ].
Qed.

Lemma solo_write_last m tx log :
  alone m tx log -> log <> [] ->
  exists rw, solo (write_last (tx_rwset tx)) m = Some (m, rw) /\ alone m (with_rwset rw tx) (log_write_last log).
Proof.
  intros Ha Hne. pose proof (al_items _ _ _ _ _ _ Ha) as Hr.
  pose proof (alone_write m tx log (length log - 1) Ha) as Hw.
  rewrite <- (Forall2_length _ _ _ Hr) in Hw at 1. unfold write_last, log_write_last.
  destruct (rw_kvs (tx_rwset tx)) as [| it its] eqn:Hk; [ by apply Forall2_nil_inv_l in Hr | ].
  rewrite <- Hk in *. eexists. split; [ reflexivity | done ].
Qed.

Lemma solo_delete_item i m tx log :
  alone m tx log ->
  exists m' rw, solo (delete_item i (tx_rwset tx)) m = Some (m', rw) /\
    alone m' (with_rwset rw tx) (alter li_delete i log).
Proof.
  intros Ha. set (kvs := rw_kvs (tx_rwset tx)). pose proof (al_items _ _ _ _ _ _ Ha) as Hr. fold kvs in Hr.
  destruct (addrs_delete kvs i _ (al_addrs _ _ _ _ _ _ Ha) eq_refl) as [Hnd Hadr].
  set (tx' := with_rwset (with_kvs (alter to_delete i kvs) (tx_rwset tx)) tx).
  assert (alone m tx' (alter li_delete i log)) as Ha'.
  { apply (alone_kvs m tx log); [ done | | done ].
    apply Forall2_alter; [ done | ]. intros it li _ _ [H1 H2 H3 H4 H5 H6]. by split. }
  unfold delete_item, free_opt. fold kvs. destruct (kvs !! i ≫= it_addr) as [p |] eqn:Hp; [ | by eexists m, _ ].
  assert (p ∈ addrs kvs) as Hin.
  { apply elem_addrs. apply bind_Some in Hp as (it & Hi & Hit). exists it. split; [ by eapply list_elem_of_lookup_2 | done ]. }
  destruct (item_at_addr _ _ _ _ _ Hr Hin) as [[c Hc] Hu].
  eexists _, _. split; [ simpl; rewrite Hc; reflexivity | ].
  apply (alone_bufs vlen k σ m tx' _ p); [ done | done | | | done | ].
  - intros Hin'. by apply Hadr in Hin' as [_ ?].
  - intros q Hne. by rewrite lookup_delete_ne.
  - intros q Hle. apply lookup_delete_None. right. by apply (q_next _ _ _ (al_quiet _ _ _ _ _ _ Ha)).
Qed.

Lemma solo_delete t key m tx log :
  alone m tx log ->
  exists m' rw, solo (delete_ t key (tx_rwset tx)) m = Some (m', rw) /\
    alone m' (with_rwset rw tx) (log_delete t key log).
Proof.
  intros Ha. unfold delete_, log_delete. rewrite (find_item_at _ _ _ _ _ (al_items _ _ _ _ _ _ Ha)).
  destruct (find_litem (is_litem t key) log) as [i |]; [ by apply solo_delete_item | ].
  destruct (get_with_insert false (t, key) m) as [m2 n] eqn:Hg.
  destruct (get_with_insert_quiet vlen k σ m t key m2 n) as (H1 & H2 & H3 & H4 & H5 & H6 & H7);
    [ apply Ha | apply Ha | done | ].
  destruct (quiet_node _ _ _ _ _ H1 H3) as [nd Hn]. eexists m2, _. split.
  - rewrite (solo_do _ _ m m2 n) by (simpl; by rewrite Hg).
    rewrite (solo_do _ _ m2 m2 (n_seq nd)) by (simpl; unfold on_node; by rewrite Hn). reflexivity.
  - apply alone_add; [ by eapply alone_lookup | | done ]. split; try done. simpl. by rewrite Hn.
Qed.

Lemma alone_store i off v it p c m tx log :
  alone m tx log -> rw_kvs (tx_rwset tx) !! i = Some it -> it_addr it = Some p -> m_bufs m !! p = Some c ->
  alone (set_bufs (<[p := <[off := v]> c]> (m_bufs m)) m) tx (log_store i off v log).
Proof.
  intros Ha Hi Hp Hc. pose proof Ha as [H1 H2 H3 H4 H5 H6 H7].
  assert (p ∈ addrs (rw_kvs (tx_rwset tx))) as Hin.
  { apply elem_addrs. exists it. split; [ by eapply list_elem_of_lookup_2 | done ]. }
  destruct (item_at_addr _ _ _ _ _ H3 Hin) as [_ Hu].
  split; try done.
  - eapply (quiet_bufs vlen k m p); try done; [ intros q Hq; by rewrite lookup_insert_ne | ].
    intros q Hq. rewrite lookup_insert_ne; [ by apply (q_next _ _ _ H1) | ]. intros ->.
    destruct (q_next _ _ _ H1 q Hq) as [_ He]. by simplify_eq.
  - eapply (holds_bufs σ m p); try done. intros q Hq. by rewrite lookup_insert_ne.
  - apply Forall2_same_length_lookup. split; [ unfold log_store; rewrite length_alter; by eapply Forall2_length | ].
    intros j it' li' Hj Hlj. unfold log_store in Hlj. destruct (decide (j = i)) as [-> | Hne].
    + rewrite list_lookup_alter_eq in Hlj. apply fmap_Some in Hlj as (li & Hli & ->). simplify_eq.
      destruct (Forall2_lookup_lr _ _ _ _ _ _ H3 Hi Hli) as [G1 G2 G3 G4 G5 G6]. split; try done. simpl.
      rewrite Hp in *. destruct (li_wr li) as [w |]; [ | done ]. destruct G6 as [G6 _]. simplify_eq. simpl.
      by rewrite lookup_insert_eq.
    + rewrite list_lookup_alter_ne in Hlj by done.
      destruct (Forall2_lookup_lr _ _ _ _ _ _ H3 Hj Hlj) as [G1 G2 G3 G4 G5 G6]. split; try done. simpl.
      destruct (it_addr it') as [q |] eqn:Hq, (li_wr li') as [w |]; try done. destruct G6 as [G6 G7].
      rewrite lookup_insert_ne; [ done | ]. intros ->. apply Hne. by eapply addrs_inj.
Qed.
End solo.

(** ** The end of a transaction *)

(** Only locks and sequence numbers differ. *)
Record same_values (m m' : memory) : Prop := {
  sv_stores : m_stores m' = m_stores m;
  sv_bufs : m_bufs m' = m_bufs m;
  sv_nodes : forall n, n_value <$> m_nodes m' !! n = n_value <$> m_nodes m !! n
}.

Lemma same_values_trans m1 m2 m3 : same_values m1 m2 -> same_values m2 m3 -> same_values m1 m3.
Proof. intros [H1 H2 H3] [G1 G2 G3]. split; [ by rewrite G1 | by rewrite G2 | intros n; by rewrite G3 ]. Qed.

Lemma same_values_holds m m' σ : same_values m m' -> holds m σ -> holds m' σ.
Proof.
  intros [H1 H2 H3] Hσ key. rewrite <- (Hσ key). unfold lookup_record, content. rewrite H1, H2.
  destruct (m_stores m !! key) as [n |]; [ | done ]. simpl. specialize (H3 n).
  destruct (m_nodes m !! n), (m_nodes m' !! n); simpl in *; congruence.
Qed.

Lemma solo_lock_items me its i cur m :
  (forall it, it ∈ its -> it_ro it = false -> exists nd, m_nodes m !! it_node it = Some nd /\
    n_lock nd = 0 /\ n_seq nd = it_seq it) ->
  NoDup (written its) ->
  exists m' cur', solo (lock_items me i its cur) m = Some (m', (true, cur')) /\ same_values m m'.
Proof.
  revert i cur m. induction its as [| it its IH]; intros i cur m Hn Hnd.
  { exists m, cur. by split. }
  rewrite written_cons in Hnd. cbn [lock_items]. destruct (it_ro it) eqn:Hro.
  { apply IH; [ | done ]. intros it' Hin. apply Hn. by right. }
  apply NoDup_cons in Hnd as [Hni Hnd]. destruct (Hn it) as (nd & Hnode & Hl & Hs); [ by left | done | ].
  set (m1 := set_node (it_node it) {| n_lock := me; n_seq := n_seq nd; n_value := n_value nd |} m).
  destruct (IH (i + 1) i m1) as (m' & cur' & Hrun & Hsv); [ | done | ].
  { intros it' Hin Hro'. simpl. rewrite lookup_insert_ne; [ apply Hn; [ by right | done ] | ].
    intros Heq. apply Hni. rewrite Heq. by apply elem_written. }
  exists m', cur'. split.
  - erewrite solo_do; [ | simpl; unfold on_node; rewrite Hnode; reflexivity ]. cbn [snd]. rewrite Hl. cbn [Z.eqb negb].
    rewrite (solo_do _ _ m m1 true) by (simpl; unfold on_node; rewrite Hnode; simpl; by rewrite Hl). cbn [negb].
    rewrite (solo_do _ _ m1 m1 (n_seq nd)) by (simpl; unfold on_node; simpl; by rewrite lookup_insert_eq).
    rewrite Hs, Z.eqb_refl. exact Hrun.
  - eapply same_values_trans; [ | exact Hsv ]. split; [ done | done | ]. intros n. simpl.
    destruct (decide (n = it_node it)) as [-> | Hne]; [ by rewrite lookup_insert_eq, Hnode | by rewrite lookup_insert_ne ].
Qed.

(** One record gets another value. *)
Lemma holds_set_value m m' σ key n v :
  holds m σ -> m_stores m !! key = Some n -> (forall key', m_stores m !! key' = Some n -> key' = key) ->
  m_stores m' = m_stores m -> m_bufs m' = m_bufs m ->
  (exists nd, m_nodes m' !! n = Some nd /\ content m' nd = v) ->
  (forall n', n' <> n -> m_nodes m' !! n' = m_nodes m !! n') ->
  holds m' (set_value key v σ).
Proof.
  intros Hσ Hs Hinj H1 H2 (nd & Hn & Hv) Hne key'. destruct (decide (key' = key)) as [-> | Hk].
  - rewrite set_value_eq. unfold lookup_record. rewrite H1, Hs. simpl. by rewrite Hn.
  - rewrite set_value_ne by done. rewrite <- (Hσ key'). unfold lookup_record, content. rewrite H1, H2.
    destruct (m_stores m !! key') as [n' |] eqn:Hs'; [ | done ]. simpl. rewrite Hne; [ done | ].
    intros ->. by apply Hk, Hinj.
Qed.

Definition committable (m : memory) (it : RWSetItem) (li : litem) : Prop :=
  it_ro it = li_ro li /\ m_stores m !! li_id li = Some (it_node it) /\ is_Some (m_nodes m !! it_node it) /\
  (p ← it_addr it; m_bufs m !! p) = li_wr li.

Lemma solo_commit_items its log m σ :
  holds m σ -> (forall k1 k2 n, m_stores m !! k1 = Some n -> m_stores m !! k2 = Some n -> k1 = k2) ->
  Forall2 (committable m) its log ->
  exists m', solo (commit_items its) m = Some (m', tt) /\ holds m' (apply_log log σ).
Proof.
  intros Hσ Hinj Hr. revert m σ Hσ Hinj Hr. revert log.
  induction its as [| it its IH]; intros log m σ Hσ Hinj Hr.
  { apply Forall2_nil_inv_l in Hr as ->. by exists m. }
  apply Forall2_cons_inv_l in Hr as (li & log' & (Hro & Hs & [nd Hn] & Hv) & Hr & ->).
  cbn [commit_items]. unfold apply_log. cbn [fold_left]. fold (apply_log log' (apply_item li σ)). unfold apply_item.
  rewrite <- Hro. destruct (it_ro it); [ by apply IH | ].
  set (n := it_node it) in *. set (mk := fun l s v m => set_node n {| n_lock := l; n_seq := u64 s; n_value := v |} m).
  set (m4 := mk 0 (it_seq it + 2) (it_addr it) m).
  destruct (IH log' m4 (set_value (li_id li) (li_wr li) σ)) as (m' & Hrun & Hσ').
  - apply (holds_set_value m m4 σ (li_id li) n); try done.
    + intros key' Hk'. by eapply Hinj.
    + eexists. split; [ simpl; apply lookup_insert_eq | ]. exact Hv.
    + intros n' Hne. simpl. by rewrite lookup_insert_ne.
  - exact Hinj.
  - eapply Forall2_impl; [ exact Hr | ]. intros it' li' (G1 & G2 & G3 & G4). split_and!; try done.
    simpl. destruct (decide (it_node it' = n)) as [-> | Hne]; [ rewrite lookup_insert_eq; by eexists | by rewrite lookup_insert_ne ].
  - exists m'. split; [ | done ]. rewrite <- Hrun.
    rewrite (solo_do _ _ m (mk (n_lock nd) 1 (n_value nd) m) tt) by (simpl; unfold on_node; by rewrite Hn).
    rewrite (solo_do _ _ _ (mk (n_lock nd) 1 (it_addr it) m) tt)
      by (simpl; unfold on_node, mk, set_node; simpl; by rewrite lookup_insert_eq; simpl; rewrite insert_insert_eq).
    rewrite (solo_do _ _ _ (mk (n_lock nd) (it_seq it + 2) (it_addr it) m) tt)
      by (simpl; unfold on_node, mk, set_node; simpl; by rewrite lookup_insert_eq; simpl; rewrite insert_insert_eq).
    rewrite (solo_do _ _ _ m4 tt)
      by (simpl; unfold m4, on_node, mk, set_node; simpl; by rewrite lookup_insert_eq; simpl; rewrite insert_insert_eq).
    done.
Qed.

(** The keys a transaction writes. *)
Definition write_keys (log : list litem) : list (Z * Z) := li_id <$> filter (fun li => li_ro li = false) log.

Lemma written_keys vlen m its log :
  Forall2 (item_at vlen m) its log ->
  (forall k1 k2 n, m_stores m !! k1 = Some n -> m_stores m !! k2 = Some n -> k1 = k2) ->
  NoDup (write_keys log) -> NoDup (written its).
Proof.
  intros Hr Hinj. induction Hr as [| it li its log Hit Hr IH]; [ constructor | ].
  rewrite written_cons. unfold write_keys. rewrite filter_cons. rewrite (ia_ro _ _ _ _ Hit).
  destruct (li_ro li) eqn:Hro; simpl; [ by apply IH | ].
  intros [Hni Hnd]%NoDup_cons. apply NoDup_cons. split; [ | by apply IH ].
  intros Hin. apply Hni. unfold written in Hin. apply list_elem_of_fmap in Hin as (it' & Heq & [Hro' Hin]%list_elem_of_filter).
  apply list_elem_of_lookup in Hin as [i Hi]. destruct (Forall2_lookup_l _ _ _ _ _ Hr Hi) as (li' & Hli & Hit').
  apply list_elem_of_fmap. exists li'. split.
  - apply (Hinj _ _ (it_node it)); [ apply Hit | rewrite Heq; apply Hit' ].
  - apply list_elem_of_filter. split; [ by rewrite <- (ia_ro _ _ _ _ Hit') | by eapply list_elem_of_lookup_2 ].
Qed.

Section commits.
Context (vlen : Z -> nat) (k : nat) (σ : db) (rpc : rpcs) (fuel : nat).
Local Notation alone := (alone vlen k σ).

Lemma solo_end m tx log :
  alone m tx log -> NoDup (write_keys log) ->
  exists m' tx', solo (end_ rpc tx) m = Some (m', (true, tx')) /\ holds m' (apply_log log σ).
Proof.
  intros [H1 H2 H3 H4 H5 H6 H7] Hnd.
  destruct (solo_lock_items (tx_lock tx) (rw_kvs (tx_rwset tx)) 0 (rw_current (tx_rwset tx)) m)
    as (m1 & cur & Hlock & Hsv).
  { intros it Hin Hro. apply list_elem_of_lookup in Hin as [i Hi].
    destruct (Forall2_lookup_l _ _ _ _ _ H3 Hi) as (li & _ & [G1 G2 G3 G4 G5 G6]).
    apply fmap_Some in G5 as (nd & Hn & ->). exists nd. split_and!; [ done | | done ]. by apply (q_node _ _ _ H1 _ _ Hn). }
  { eapply written_keys; [ exact H3 | apply H1 | done ]. }
  destruct (solo_commit_items (rw_kvs (tx_rwset tx)) log m1 σ) as (m' & Hcommit & Hσ').
  { by eapply same_values_holds. }
  { rewrite (sv_stores _ _ Hsv). apply H1. }
  { eapply Forall2_impl; [ exact H3 | ]. intros it li [G1 G2 G3 G4 G5 G6].
    split_and!; [ done | by rewrite (sv_stores _ _ Hsv) | | ].
    - apply fmap_Some in G5 as (nd & Hn & _). pose proof (sv_nodes _ _ Hsv (it_node it)) as Hnode.
      rewrite Hn in Hnode. simpl in Hnode. apply fmap_Some in Hnode as (nd' & -> & _). by eexists.
    - rewrite (sv_bufs _ _ Hsv). destruct (it_addr it) as [p |], (li_wr li) as [c |]; try done. by destruct G6. }
  eexists m', _. split; [ | done ].
  unfold end_, lock_remote, validate_remote, commit_remote. rewrite H7, H6.
  cbn [negb set_need_validate write_items_ need_validate_ read_server_num_ read_items_ RemoteSet_clear].
  change (0 <? 0) with false. cbn [prog_bind negb andb].
  assert (solo (LockAllSet (tx_lock tx) (tx_rwset tx)) m =
    Some (m1, (true, {| rw_max_length := rw_max_length (tx_rwset tx); rw_kvs := rw_kvs (tx_rwset tx); rw_current := cur |})))
    as Hl by (unfold LockAllSet; by erewrite solo_bind by exact Hlock).
  erewrite solo_bind by exact Hl.
  cbn [negb prog_bind].
  erewrite solo_bind; [ reflexivity | ]. unfold CommitLocalWrite. cbn [rw_kvs].
  erewrite solo_bind by exact Hcommit. reflexivity.
Qed.

Lemma solo_body {R : Type} (b : body R) m tx log0 log x :
  (0 < fuel)%nat -> wt vlen b -> alone m tx log0 -> run_at σ b log0 = Some (log, x) -> NoDup (write_keys log) ->
  exists m' tx', solo (run_body (end_ rpc) fuel b tx log0) m = Some (m', (Result true log x, tx')) /\
    holds m' (apply_log log σ).
Proof.
  intros Hfuel Hwt Ha Hat Hnd. revert m tx log0 Hwt Ha Hat.
  induction b as [y | y | t key len cont IH | i off v b IH | t key b IH | b IH | t key v b IH | t key b IH];
    intros m tx log0 Hwt Ha Hat; cbn [wt run_at run_body] in *.
  - simplify_eq. destruct (solo_end m tx log Ha Hnd) as (m' & tx' & He & Hσ').
    exists m', tx'. split; [ by erewrite solo_bind by exact He | done ].
  - done.
  - destruct Hwt as [-> Hwt]. apply bind_Some in Hat as (c & Hc & Hat).
    destruct (solo_get vlen k σ fuel t key c m tx log0 Ha Hfuel Hc) as (m1 & s & p & rw & Hg & Hp & Hlen & Ha1).
    destruct (IH (Some c) m1 _ _ (Hwt _) Ha1 Hat) as (m' & tx' & Hr & Hσ'). exists m', tx'. split; [ | done ].
    erewrite solo_bind by exact Hg. cbn beta iota.
    erewrite solo_bind by (eapply solo_read_buf; [ exact Hp | lia ]). by rewrite drop_0.
  - assert (alone m tx (log_store i off v log0) -> exists m' tx',
      solo (run_body (end_ rpc) fuel b tx (log_store i off v log0)) m = Some (m', (Result true log x, tx')) /\
      holds m' (apply_log log σ)) as Hsame by (intros Ha'; by apply IH).
    destruct (rw_kvs (tx_rwset tx) !! i ≫= it_addr) as [p |] eqn:Hp.
    + destruct ((log0 !! i ≫= li_wr) ≫= lookup off) as [w |] eqn:Hw;
        [ | rewrite (log_store_none _ _ _ _ Hw) in Hsame; by apply Hsame ].
      apply bind_Some in Hp as (it & Hi & Hadr).
      apply bind_Some in Hw as (c & (li & Hli & Hc)%bind_Some & Hw).
      pose proof (Forall2_lookup_lr _ _ _ _ _ _ (al_items _ _ _ _ _ _ Ha) Hi Hli) as Hir.
      pose proof (ia_value _ _ _ _ Hir) as Hv. rewrite Hadr, Hc in Hv. destruct Hv as [Hv _].
      pose proof (alone_store vlen k σ i off v it p c m tx log0 Ha Hi Hadr Hv) as Ha'.
      destruct (IH _ _ _ Hwt Ha' Hat) as (m' & tx' & Hr & Hσ'). exists m', tx'. split; [ | done ].
      erewrite solo_do; [ exact Hr | ]. simpl. rewrite Hv. simpl. by rewrite Hw.
    + rewrite log_store_none in Hsame; [ by apply Hsame | ].
      destruct (log0 !! i) as [li |] eqn:Hli; [ | done ]. simpl.
      destruct (Forall2_lookup_r _ _ _ _ _ (al_items _ _ _ _ _ _ Ha) Hli) as (it & Hi & Hir).
      rewrite Hi in Hp. simpl in Hp. pose proof (ia_value _ _ _ _ Hir) as Hv. rewrite Hp in Hv. by destruct (li_wr li).
  - apply bind_Some in Hat as (i & Hi & Hat).
    destruct (solo_write vlen k σ t key i m tx log0 Ha Hi) as (rw & Hw & Ha').
    destruct (IH _ _ _ Hwt Ha' Hat) as (m' & tx' & Hr & Hσ'). exists m', tx'.
    split; [ by erewrite solo_bind by exact Hw | done ].
  - case_bool_decide as Hlog; [ subst log0; by apply IH | ].
    destruct (solo_write_last vlen k σ m tx log0 Ha Hlog) as (rw & Hw & Ha').
    destruct (IH _ _ _ Hwt Ha' Hat) as (m' & tx' & Hr & Hσ'). exists m', tx'.
    split; [ by erewrite solo_bind by exact Hw | done ].
  - destruct Hwt as [_ Hwt]. destruct (solo_insert vlen k σ t key v m tx log0 Ha) as (m1 & rw & Hw & Ha').
    destruct (IH _ _ _ Hwt Ha' Hat) as (m' & tx' & Hr & Hσ'). exists m', tx'.
    split; [ by erewrite solo_bind by exact Hw | done ].
  - destruct (solo_delete vlen k σ t key m tx log0 Ha) as (m1 & rw & Hw & Ha').
    destruct (IH _ _ _ Hwt Ha' Hat) as (m' & tx' & Hr & Hσ'). exists m', tx'.
    split; [ by erewrite solo_bind by exact Hw | done ].
Qed.
End commits.

Lemma alone_begin vlen k σ m tx : quiet vlen k m -> holds m σ -> alone vlen k σ m (begin_ tx) [].
Proof. intros Hq Hσ. split; try done; simpl; constructor. Qed.

(** C6: a transaction that no other one interferes with commits. It runs to the
    end in finitely many steps, passing the loop of get once, returns what it
    returns on the abstract database, and leaves the database as its writes
    say, when it writes no record twice through different items. *)
Theorem alone_commits (R : Type) vlen k σ rpc fuel (b : body R) m tx log x :
  quiet vlen k m -> holds m σ -> (0 < fuel)%nat -> wt vlen b ->
  run_at σ b [] = Some (log, x) -> NoDup (write_keys log) ->
  exists n m' tx', run_sched (replicate n 0%nat) (m, [run_body (end_ rpc) fuel b (begin_ tx) []]) =
      Some (m', [Done (Result true log x, tx')]) /\ holds m' (apply_log log σ).
Proof.
  intros Hq Hσ Hfuel Hwt Hat Hnd.
  destruct (solo_body vlen k σ rpc fuel b m (begin_ tx) [] log x) as (m' & tx' & Hr & Hσ'); try done;
    [ by apply alone_begin | ].
  destruct (solo_sched _ _ _ _ Hr) as [n Hn]. by exists n, m', tx'.
Qed.

Lemma alone_commits_witness :
  exists n m' tx', run_sched (replicate n 0%nat)
    (two_records, [run_body (end_ no_rpcs) 1 (sum_into 0 1) (begin_ tx0) []]) =
      Some (m', [Done (Result true
        [ {| li_tab := 0; li_key := 1; li_ro := false; li_rd := Some [1]; li_wr := Some [2] |};
          {| li_tab := 0; li_key := 2; li_ro := true; li_rd := Some [1]; li_wr := Some [1] |} ] [1; 1], tx')]) /\
    lookup_record m' (0, 1) = Some [2].
Proof.
  destruct (alone_commits _ one_byte 0 two_db no_rpcs 1 (sum_into 0 1) two_records tx0
    [ {| li_tab := 0; li_key := 1; li_ro := false; li_rd := Some [1]; li_wr := Some [2] |};
      {| li_tab := 0; li_key := 2; li_ro := true; li_rd := Some [1]; li_wr := Some [1] |} ] [1; 1])
    as (n & m' & tx' & Hr & Hσ').
  - apply two_quiet. lia.
  - apply two_holds.
  - lia.
  - split; [ done | ]. intros [c |]; [ | done ]. split; [ done | ]. by intros [d |].
  - vm_compute. reflexivity.
  - apply NoDup_singleton.
  - exists n, m', tx'. split; [ done | ]. rewrite (Hσ' (0, 1)). reflexivity.
Defined.
