(* ===== verification/ClusterHash.v ===== *)
(** * ClusterHash: the cluster-chaining hash table of DrTM+H

    src/sys/drtmh/src/memstore/cluster_chaining.hpp: header nodes of a few
    slots each, one per hash value, that continue in indirect nodes when they are
    full. Other machines read the same memory with one-sided RDMA reads
    ([remote_get]). RHash (rdma_hash.hpp) stores MemNodes in such a table,
    SimpleCache (simple_cache.hpp) remembers where they are, MemDB (memdb.cc)
    fills the table, and LogStoreManager (rtx/log_store_manager.hpp) keeps
    pointers in one. *)

From stdpp Require Import gmap.
From S2P Require Import Prelude.

(** A failed assertion ends the process. *)
Definition ASSERT (b : bool) : res unit := if b then Ret tt else Exit 134 0.

(** uint64_t key : 63 *)
Record Key : Type := mkKey { valid : bool; key : Z }.

Definition murmur_hash_64a (k seed : Z) : Z :=
  let m := 0xc6a4a7935bd1e995 in
  let r := 47 in
  let h := Z.lxor seed (u64 (8 * m)) in
  (* one round for the 8 bytes of the key; nothing is left for the switch *)
  let k := u64 (k * m) in
  let k := Z.lxor k (Z.shiftr k r) in
  let k := u64 (k * m) in
  let h := Z.lxor h k in
  let h := u64 (h * m) in
  let h := Z.lxor h (Z.shiftr h r) in
  let h := u64 (h * m) in
  Z.lxor h (Z.shiftr h r).

(** The layout of a node: where its data begin, and the sizes. *)
Record layout : Type := { sizeof_Data : Z; off_datas : Z; sizeof_HeaderNode : Z }.

(** A pointer to a Data: node and slot. *)
Abbreviation data_ptr := (nat * nat)%type.

Section cluster.
(** The template parameters Data (with its value when zeroed) and
    DRTM_CLUSTER_NUM. *)
Context {Data : Type} (zero : Data) (DRTM_CLUSTER_NUM : nat) (ly : layout).

Record HeaderNode : Type := mkNode { keys : list Key; datas : list Data; next : Z }.

(** memset(node, 0, sizeof(HeaderNode)) *)
Definition zero_node : HeaderNode :=
  mkNode (replicate DRTM_CLUSTER_NUM (mkKey false 0)) (replicate DRTM_CLUSTER_NUM zero) 0.

(** [nodes] is the memory at data_ptr_: the logical nodes, then the indirect
    ones. *)
Record ClusterHash : Type := mkHash {
  nodes : list HeaderNode;
  logical_num_ : Z;
  indirect_num_ : Z;
  data_num_ : Z;
  free_indirect_num_ : Z;
  base_off_ : Z
}.

(** [memory] says whether there is memory for the table: at [val], or from the
    allocator when [val] is NULL. The number of nodes is a sum of two int. *)
Definition new_hash (memory : bool) (expected_data : Z) : res ClusterHash :=
  let indirect_num_ := if expected_data <=? Z.of_nat DRTM_CLUSTER_NUM then expected_data
                       else expected_data / Z.of_nat DRTM_CLUSTER_NUM in
  _ ← ASSERT (0 <? indirect_num_);
  if 2 ^ 31 <=? indirect_num_ + expected_data then UB else
  _ ← ASSERT memory;
  Ret {| nodes := replicate (Z.to_nat (indirect_num_ + expected_data)) zero_node;
         logical_num_ := expected_data; indirect_num_ := indirect_num_; data_num_ := expected_data;
         free_indirect_num_ := 1; base_off_ := 0 |}.

(** In nodes instead of bytes. *)
Definition expected_size (num : Z) : Z := num / Z.of_nat DRTM_CLUSTER_NUM + num.

Definition table_size (t : ClusterHash) : Z := indirect_num_ t + logical_num_ t.

Definition with_nodes (ns : list HeaderNode) (t : ClusterHash) : ClusterHash :=
  mkHash ns (logical_num_ t) (indirect_num_ t) (data_num_ t) (free_indirect_num_ t) (base_off_ t).

Definition enable_remote_accesses (off : Z) (t : ClusterHash) : ClusterHash :=
  mkHash (nodes t) (logical_num_ t) (indirect_num_ t) (data_num_ t) (free_indirect_num_ t) off.

Definition get_hash (t : ClusterHash) (k : Z) : Z := murmur_hash_64a k 0xdeadbeef mod logical_num_ t.

(** The index of the i-th indirect node. *)
Definition get_indirect_node (t : ClusterHash) (i : Z) : Z := i + logical_num_ t.

(** Access to a node: memory beyond the table is not ours. *)
Definition node_at (t : ClusterHash) (n : Z) : res HeaderNode :=
  if 0 <=? n then match nodes t !! Z.to_nat n with Some nd => Ret nd | None => UB end else UB.

(** The first slot of a node that satisfies [f]. *)
Fixpoint find_slot (f : Key -> bool) (ks : list Key) : option nat :=
  match ks with
  | [] => None
  | k :: ks => if f k then Some O else S <$> find_slot f ks
  end.

Definition holds_key (k : Z) (s : Key) : bool := (key s =? k) && valid s.

(** The loop of get. *)
Fixpoint get_from (fuel : nat) (t : ClusterHash) (k : Z) (n : Z) : res (option data_ptr) :=
  match fuel with
  | O => NoFuel
  | S fuel =>
      nd ← node_at t n;
      match find_slot (holds_key k) (keys nd) with
      | Some i => Ret (Some (Z.to_nat n, i))
      | None => if next nd =? 0 then Ret None else get_from fuel t k (get_indirect_node t (next nd))
      end
  end.

(** A chain has every node at most once. *)
Definition chain_fuel (t : ClusterHash) : nat := S (length (nodes t)).

Definition get (t : ClusterHash) (k : Z) : res (option data_ptr) :=
  get_from (chain_fuel t) t k (get_hash t k).

(** Where insert stops: at a free slot, or at the last node of the chain. *)
Fixpoint free_from (fuel : nat) (t : ClusterHash) (n : Z) : res (Z * option nat) :=
  match fuel with
  | O => NoFuel
  | S fuel =>
      nd ← node_at t n;
      match find_slot (fun s => negb (valid s)) (keys nd) with
      | Some i => Ret (n, Some i)
      | None => if next nd =? 0 then Ret (n, None) else free_from fuel t (get_indirect_node t (next nd))
      end
  end.

Definition set_key (i : nat) (k : Z) (nd : HeaderNode) : HeaderNode :=
  mkNode (<[i := mkKey true (wrap 63 k)]> (keys nd)) (datas nd) (next nd).

Definition set_next (i : Z) (nd : HeaderNode) : HeaderNode := mkNode (keys nd) (datas nd) i.

Definition insert (t : ClusterHash) (k : Z) : res (data_ptr * ClusterHash) :=
  s ← free_from (chain_fuel t) t (get_hash t k);
  match s.2 with
  | Some i => Ret ((Z.to_nat s.1, i), with_nodes (alter (set_key i k) (Z.to_nat s.1) (nodes t)) t)
  | None =>
      _ ← ASSERT (free_indirect_num_ t <? indirect_num_ t);
      let f := free_indirect_num_ t in
      let new_node := get_indirect_node t f in
      _ ← node_at t new_node;
      let ns := <[Z.to_nat new_node := set_key 0 k zero_node]> (nodes t) in
      Ret ((Z.to_nat new_node, 0%nat),
           mkHash (alter (set_next f) (Z.to_nat s.1) ns) (logical_num_ t) (indirect_num_ t)
                  (data_num_ t) (f + 1) (base_off_ t))
  end.

Definition get_with_insert (t : ClusterHash) (k : Z) : res (data_ptr * ClusterHash) :=
  r ← get t k;
  match r with
  | Some p => Ret (p, t)
  | None => insert t k
  end.

(** Access through a pointer. *)
Definition load (t : ClusterHash) (p : data_ptr) : res Data :=
  match nodes t !! p.1 ≫= (fun nd => datas nd !! p.2) with Some d => Ret d | None => UB end.

Definition set_data (i : nat) (d : Data) (nd : HeaderNode) : HeaderNode :=
  mkNode (keys nd) (<[i := d]> (datas nd)) (next nd).

Definition store (t : ClusterHash) (p : data_ptr) (d : Data) : res ClusterHash :=
  _ ← load t p;
  Ret (with_nodes (alter (set_data p.2 d) p.1 (nodes t)) t).

(** ** Remote reads *)

(** Offsets in the RDMA region of a node and of a Data. *)
Definition node_off (t : ClusterHash) (n : Z) : Z := n * sizeof_HeaderNode ly + base_off_ t.
Definition CLUSTER_OFF (i : nat) : Z := off_datas ly + Z.of_nat i * sizeof_Data ly.
Definition ptr_off (t : ClusterHash) (p : data_ptr) : Z := node_off t (Z.of_nat p.1) + CLUSTER_OFF p.2.

(** An RDMA read of the bytes of one node at an offset of the region of
    another machine, whose table is [t]. *)
Definition fetch_node (t : ClusterHash) (off : Z) : res HeaderNode :=
  if (off - base_off_ t) mod sizeof_HeaderNode ly =? 0
  then node_at t ((off - base_off_ t) / sizeof_HeaderNode ly) else UB.

(** The loop of remote_get on the table object [me] of the reading machine, which
    supplies the base offset and the numbers of nodes; the nodes are those of
    the table [t] of the other one. [check] is the assertion on next that only
    the blocking version has. *)
Fixpoint remote_get_from (check : bool) (fuel : nat) (me t : ClusterHash) (k : Z) (off : Z) : res (Z * Data) :=
  match fuel with
  | O => NoFuel
  | S fuel =>
      nd ← fetch_node t off;
      match find_slot (holds_key k) (keys nd) with
      | Some i =>
          match datas nd !! i with Some d => Ret (CLUSTER_OFF i + off, d) | None => UB end
      | None =>
          _ ← (if check then ASSERT ((0 <=? next nd) && (next nd <? indirect_num_ me)) else Ret tt);
          if next nd =? 0 then Exit 134 0 (* assert(false) *)
          else remote_get_from check fuel me t k (node_off me (get_indirect_node me (next nd)))
      end
  end.

Definition remote_get_with (check : bool) (me t : ClusterHash) (k : Z) : res (Z * Data) :=
  _ ← ASSERT (negb (base_off_ me =? 0));
  remote_get_from check (chain_fuel t) me t k (node_off me (get_hash me k)).

(** The blocking version, and the one that yields while it waits. *)
Definition remote_get : ClusterHash -> ClusterHash -> Z -> res (Z * Data) := remote_get_with true.
Definition remote_get_yield : ClusterHash -> ClusterHash -> Z -> res (Z * Data) := remote_get_with false.
End cluster.

Arguments HeaderNode Data : clear implicits.
Arguments ClusterHash Data : clear implicits.

(** ** RHash *)

(** The fields of a MemNode that the table and MemDB set. *)
Record RNode : Type := mkRNode { rn_lock : Z; rn_seq : Z; rn_value : option N; rn_off : Z }.

Definition RNode_zero : RNode := mkRNode 0 0 None 0.

Definition RHASH_CLUSTER_NUM : nat := 4.

(** A MemNode takes a cache line of 64 bytes and is aligned to it. *)
Definition rhash_layout : layout := {| sizeof_Data := 64; off_datas := 64; sizeof_HeaderNode := 384 |}.

Abbreviation rhash := (ClusterHash RNode).

Definition rhash_GetWithInsert (t : rhash) (k : Z) (val : option N) : res (data_ptr * rhash) :=
  r ← get_with_insert RNode_zero RHASH_CLUSTER_NUM t k;
  nd ← load r.2 r.1;
  let nd := mkRNode (rn_lock nd) (rn_seq nd) (rn_value nd) (ptr_off rhash_layout r.2 r.1) in
  let nd := if bool_decide (rn_value nd = None) then mkRNode (rn_lock nd) (rn_seq nd) val (rn_off nd) else nd in
  t' ← store r.2 r.1 nd;
  Ret (r.1, t').

Definition rhash_Put (t : rhash) (k : Z) (val : option N) : res (data_ptr * rhash) :=
  rhash_GetWithInsert t k val.

(** SimpleCache: [size_] bytes. *)
Record SimpleCache : Type := mkCache { content_ : gmap Z Z; size_ : Z }.

Definition cache_put (c : SimpleCache) (k off : Z) : res SimpleCache :=
  _ ← ASSERT (k <? size_ c / 8);
  Ret (mkCache (<[k := off]> (content_ c)) (size_ c)).

(** Zeroed pages: what was not put is 0; a read beyond the end is wild. *)
Definition cache_get (c : SimpleCache) (k : Z) : res Z :=
  if k <? size_ c / 8 then Ret (default 0 (content_ c !! k)) else UB.

(** RemoteTraverse in a build with RDMA_CACHE: the blocking call fills the
    cache, the other one only looks there. *)
Definition RemoteTraverse (me t : rhash) (c : SimpleCache) (k : Z) : res (Z * RNode * SimpleCache) :=
  r ← remote_get rhash_layout me t k;
  c' ← cache_put c k (rn_off r.2);
  Ret (r, c').

Definition RemoteTraverse_yield (c : SimpleCache) (k : Z) : res Z := cache_get c k.

(** ** MemDB *)

(** MemDB::Get on a hash table *)
Definition memdb_Get (t : rhash) (k : Z) : res (option N) :=
  r ← get t k;
  match r with
  | None => Ret None
  | Some p => nd ← load t p; Ret (rn_value nd)
  end.

(** MemDB::Put on a hash table *)
Definition memdb_Put (t : rhash) (k : Z) (value : option N) : res (data_ptr * rhash) :=
  r ← rhash_Put t k value;
  nd ← load r.2 r.1;
  t' ← store r.2 r.1 (mkRNode 0 2 value (rn_off nd));
  Ret (r.1, t').

(** ** LogStoreManager: a table of pointers to databases *)

Abbreviation store_map := (ClusterHash (option N)).

Definition add_backup_store (t : store_map) (id : Z) (db : N) : res store_map :=
  r ← get t id;
  _ ← ASSERT (bool_decide (r = None));
  p ← get_with_insert None 1 t id;
  store p.2 p.1 (Some db).

Definition get_backed_store (t : store_map) (id : Z) : res (option N) :=
  r ← get t id;
  match r with Some p => load t p | None => UB end.

Definition new_store_map (memory : bool) (expected_backup_num : Z) : res store_map :=
  new_hash None 1 memory expected_backup_num.
