(* ===== verification/ClusterHashInv.v ===== *)
(** * ClusterHashInv: chains of nodes, the map they represent, and insertion

    [wf] says that the nodes of every hash value form a chain, that chains do not
    meet, and that only the last node of a chain has free slots; [rep] that the
    valid slots of the chains are the entries of a finite map. *)

From stdpp Require Import gmap.
From S2P Require Import Prelude.
From S2P Require Import ClusterHash.

(** ** Slots *)

Lemma find_slot_Some f ks i :
  find_slot f ks = Some i -> exists s, ks !! i = Some s /\ f s = true.
Proof.
  revert i. induction ks as [| k ks IH]; intros i; simpl; [ done | ].
  destruct (f k) eqn:Hf; [ intros [= <-]; by exists k | ].
  intros (j & Hj & ->)%fmap_Some. by apply IH.
Qed.

Lemma find_slot_None f ks : find_slot f ks = None -> forall i s, ks !! i = Some s -> f s = false.
Proof.
  induction ks as [| k ks IH]; simpl; [ done | ].
  destruct (f k) eqn:Hf; [ done | ]. intros H%fmap_None [| i] s Hs; simpl in Hs; [ by simplify_eq | by eapply IH ].
Qed.

Section inv.
Context {Data : Type} (zero : Data) (K : nat).

Local Notation ClusterHash := (ClusterHash Data).
Local Notation HeaderNode := (HeaderNode Data).

Definition slot (t : ClusterHash) (p : data_ptr) : option Key := nodes t !! p.1 ≫= fun nd => keys nd !! p.2.

Definition data_at (t : ClusterHash) (p : data_ptr) : option Data := nodes t !! p.1 ≫= fun nd => datas nd !! p.2.

Definition next_of (t : ClusterHash) (n : nat) : option Z := next <$> nodes t !! n.

Definition full (t : ClusterHash) (n : nat) : Prop :=
  forall i, (i < K)%nat -> exists s, slot t (n, i) = Some s /\ valid s = true.

(** A list of nodes is a chain that ends. *)
Fixpoint linked (t : ClusterHash) (c : list nat) : Prop :=
  match c with
  | [] => False
  | [n] => next_of t n = Some 0
  | n :: (n' :: _) as c' =>
      (exists i, next_of t n = Some i /\ i <> 0 /\ get_indirect_node t i = Z.of_nat n') /\ linked t c'
  end.

Definition node_ok (nd : HeaderNode) : Prop :=
  length (keys nd) = K /\ length (datas nd) = K /\
  forall i s, keys nd !! i = Some s -> valid s = false -> datas nd !! i = Some zero.

Record wf (t : ClusterHash) (C : list (list nat)) : Prop := {
  wf_logical : 0 < logical_num_ t;
  wf_free : 1 <= free_indirect_num_ t <= indirect_num_ t;
  wf_length : Z.of_nat (length (nodes t)) = logical_num_ t + indirect_num_ t;
  wf_nodes : Forall node_ok (nodes t);
  wf_count : Z.of_nat (length C) = logical_num_ t;
  wf_total : Z.of_nat (length (concat C)) = logical_num_ t + free_indirect_num_ t - 1;
  wf_nodup : NoDup (concat C);
  wf_range : forall n, n ∈ concat C -> Z.of_nat n < logical_num_ t + free_indirect_num_ t;
  wf_head : forall b c, C !! b = Some c -> head c = Some b;
  wf_linked : forall c, c ∈ C -> linked t c;
  wf_full : forall c n, c ∈ C -> n ∈ removelast c -> full t n;
  wf_place : forall b c p s, C !! b = Some c -> p.1 ∈ c -> slot t p = Some s -> valid s = true ->
    get_hash t (key s) = Z.of_nat b
}.

(** The entries of the map are the valid slots of the chains. *)
Definition rep (t : ClusterHash) (C : list (list nat)) (M : gmap Z data_ptr) : Prop :=
  forall k p, M !! k = Some p <-> p.1 ∈ concat C /\ exists s, slot t p = Some s /\ valid s = true /\ key s = k.

(** ** Reading along a chain *)

Lemma node_at_nat (t : ClusterHash) n nd : nodes t !! n = Some nd -> node_at t (Z.of_nat n) = Ret nd.
Proof. intros Hn. unfold node_at. rewrite (proj2 (Z.leb_le 0 _)) by lia. by rewrite Nat2Z.id, Hn. Qed.

Lemma slot_node t n nd i : nodes t !! n = Some nd -> slot t (n, i) = keys nd !! i.
Proof. intros Hn. unfold slot. simpl. by rewrite Hn. Qed.

Lemma get_from_linked t k : forall c fuel n,
  linked t c -> (length c <= fuel)%nat -> head c = Some n ->
  exists r, get_from fuel t k (Z.of_nat n) = Ret r /\
  match r with
  | Some p => p.1 ∈ c /\ exists s, slot t p = Some s /\ holds_key k s = true
  | None => forall p s, p.1 ∈ c -> slot t p = Some s -> holds_key k s = false
  end.
Proof.
  induction c as [| m c IH]; intros fuel n Hl Hf Hh; [ done | ]. injection Hh as ->.
  destruct fuel as [| fuel]; [ simpl in Hf; lia | ].
  assert (exists nd, nodes t !! n = Some nd) as [nd Hn].
  { destruct c; [ | destruct Hl as [(i & Hl & _) _] ]; unfold next_of in *;
      [ apply fmap_Some in Hl as (nd & Hn & _) | apply fmap_Some in Hl as (nd & Hn & _) ]; by exists nd. }
  cbn [get_from]. rewrite (node_at_nat _ _ _ Hn). cbn [mbind res_bind].
  destruct (find_slot (holds_key k) (keys nd)) as [i |] eqn:Hs.
  { apply find_slot_Some in Hs as (s & Hs & Hk). eexists. split; [ done | ]. rewrite Nat2Z.id.
    split; [ by left | ]. exists s. by rewrite (slot_node _ _ _ _ Hn). }
  pose proof (find_slot_None _ _ Hs) as Hno.
  assert (forall p s, p.1 = n -> slot t p = Some s -> holds_key k s = false) as Hhere.
  { intros [n' i] s Heq Hp. simpl in Heq. subst n'. rewrite (slot_node _ _ _ _ Hn) in Hp. by eapply Hno. }
  destruct c as [| n' c].
  - cbn [linked] in Hl. unfold next_of in Hl. rewrite Hn in Hl. injection Hl as ->.
    eexists. split; [ reflexivity | ]. intros p s Hp%list_elem_of_singleton. by apply Hhere.
  - destruct Hl as [(i & Hi & Hne & Hind) Hl]. unfold next_of in Hi. rewrite Hn in Hi. injection Hi as ->.
    apply Z.eqb_neq in Hne. rewrite Hne, Hind.
    destruct (IH fuel n' Hl) as (r & Hr & Hpost); [ simpl in *; lia | done | ].
    exists r. split; [ done | ]. destruct r as [p |].
    + destruct Hpost as [Hin Hs']. split; [ by right | done ].
    + intros p s [Heq | Hin]%elem_of_cons; [ by apply Hhere | by apply Hpost ].
Qed.

Lemma free_from_linked t : forall c fuel n,
  linked t c -> (length c <= fuel)%nat -> head c = Some n ->
  exists m o, free_from fuel t (Z.of_nat n) = Ret (Z.of_nat m, o) /\ m ∈ c /\
  match o with
  | Some i => exists s, slot t (m, i) = Some s /\ valid s = false
  | None => last c = Some m /\ forall i s, slot t (m, i) = Some s -> valid s = true
  end.
Proof.
  induction c as [| m c IH]; intros fuel n Hl Hf Hh; [ done | ]. injection Hh as ->.
  destruct fuel as [| fuel]; [ simpl in Hf; lia | ].
  assert (exists nd, nodes t !! n = Some nd) as [nd Hn].
  { destruct c; [ | destruct Hl as [(i & Hl & _) _] ]; unfold next_of in *;
      [ apply fmap_Some in Hl as (nd & Hn & _) | apply fmap_Some in Hl as (nd & Hn & _) ]; by exists nd. }
  cbn [free_from]. rewrite (node_at_nat _ _ _ Hn). cbn [mbind res_bind].
  destruct (find_slot (fun s => negb (valid s)) (keys nd)) as [i |] eqn:Hs.
  { apply find_slot_Some in Hs as (s & Hs & Hk). exists n, (Some i). split; [ done | ]. split; [ by left | ].
    exists s. rewrite (slot_node _ _ _ _ Hn). split; [ done | by apply negb_true_iff ]. }
  pose proof (find_slot_None _ _ Hs) as Hno.
  destruct c as [| n' c].
  - cbn [linked] in Hl. unfold next_of in Hl. rewrite Hn in Hl. injection Hl as ->.
    exists n, None. split; [ done | ]. split; [ by left | ]. split; [ done | ].
    intros i s. rewrite (slot_node _ _ _ _ Hn). intros Hi. by apply negb_false_iff, (Hno i).
  - destruct Hl as [(i & Hi & Hne & Hind) Hl]. unfold next_of in Hi. rewrite Hn in Hi. injection Hi as ->.
    apply Z.eqb_neq in Hne. rewrite Hne, Hind.
    destruct (IH fuel n' Hl) as (m & o & Hr & Hin & Hpost); [ simpl in *; lia | done | ].
    exists m, o. split; [ done | ]. split; [ by right | ]. by destruct o.
Qed.

(** ** get *)

Lemma hash_bucket t C k : wf t C -> exists b c, get_hash t k = Z.of_nat b /\ C !! b = Some c.
Proof.
  intros Hwf. pose proof (wf_logical _ _ Hwf) as Hl. pose proof (wf_count _ _ Hwf) as Hc.
  assert (0 <= get_hash t k < logical_num_ t) as Hr by (apply Z.mod_pos_bound; lia).
  exists (Z.to_nat (get_hash t k)). rewrite Z2Nat.id by lia.
  destruct (lookup_lt_is_Some_2 C (Z.to_nat (get_hash t k))) as [c Hc']; [ lia | ]. by exists c.
Qed.

Lemma chain_in_concat (C : list (list nat)) b c n : C !! b = Some c -> n ∈ c -> n ∈ concat C.
Proof. intros Hb Hn. apply list_elem_of_In, in_concat. exists c. split; apply list_elem_of_In; [ by eapply list_elem_of_lookup_2 | done ]. Qed.

Lemma concat_chain (C : list (list nat)) n : n ∈ concat C -> exists b c, C !! b = Some c /\ n ∈ c.
Proof.
  intros (c & Hc & Hn)%list_elem_of_In%in_concat. apply list_elem_of_In in Hc, Hn.
  apply list_elem_of_lookup in Hc as [b Hb]. by exists b, c.
Qed.

Lemma chain_short t C b c : wf t C -> C !! b = Some c -> (length c <= chain_fuel t)%nat.
Proof.
  intros Hwf Hb. unfold chain_fuel.
  assert (length c <= length (concat C))%nat as Hle.
  { apply list_elem_of_lookup_2 in Hb. clear Hwf. induction C as [| c' C IH]; [ by apply elem_of_nil in Hb | ].
    simpl. rewrite length_app. apply elem_of_cons in Hb as [-> | Hb]; [ lia | ]. specialize (IH Hb). lia. }
  pose proof (wf_total _ _ Hwf). pose proof (wf_length _ _ Hwf). pose proof (wf_free _ _ Hwf). lia.
Qed.

Lemma holds_key_true k s : holds_key k s = true <-> valid s = true /\ key s = k.
Proof. unfold holds_key. rewrite andb_true_iff, Z.eqb_eq. tauto. Qed.

Lemma get_rep t C M k : wf t C -> rep t C M -> get t k = Ret (M !! k).
Proof.
  intros Hwf Hrep. destruct (hash_bucket t C k Hwf) as (b & c & Hb & Hc).
  unfold get. rewrite Hb.
  destruct (get_from_linked t k c (chain_fuel t) b) as (r & Hr & Hpost).
  { apply (wf_linked _ _ Hwf). by eapply list_elem_of_lookup_2. }
  { by eapply chain_short. }
  { by eapply wf_head. }
  rewrite Hr. f_equal. destruct r as [p |].
  - destruct Hpost as (Hin & s & Hs & [Hv Hk]%holds_key_true). symmetry. apply Hrep.
    split; [ by eapply chain_in_concat | by exists s ].
  - destruct (M !! k) as [p |] eqn:HM; [ | done ]. apply Hrep in HM as (Hin & s & Hs & Hv & Hk).
    destruct (concat_chain _ _ Hin) as (b' & c' & Hb' & Hin').
    pose proof (wf_place _ _ Hwf b' c' p s Hb' Hin' Hs Hv) as Hh. rewrite Hk, Hb in Hh.
    assert (b' = b) as -> by lia. rewrite Hb' in Hc. injection Hc as ->.
    assert (holds_key k s = true) as Ht by by apply holds_key_true. by rewrite (Hpost p s Hin' Hs) in Ht.
Qed.
End inv.

(** * Adding keys to the cluster-chaining hash table *)

(** ** Lists of chains *)

Lemma concat_insert (C : list (list nat)) b c w :
  C !! b = Some c -> concat (<[b := c ++ [w]]> C) ≡ₚ w :: concat C.
Proof.
  revert b. induction C as [| c' C IH]; intros [| b] Hb; simpl in Hb; simplify_eq; simpl.
  - rewrite <- app_assoc. simpl. symmetry. apply Permutation_middle.
  - rewrite IH by done. symmetry. apply Permutation_middle.
Qed.

Lemma chain_unique (C : list (list nat)) b b' c c' n :
  NoDup (concat C) -> C !! b = Some c -> C !! b' = Some c' -> n ∈ c -> n ∈ c' -> b = b'.
Proof.
  revert b b'. induction C as [| c0 C IH]; intros [| b] [| b'] Hnd Hb Hb' Hn Hn'; simpl in *; simplify_eq; [ done | | | ];
    apply NoDup_app in Hnd as (Hnd0 & Hdis & Hnd).
  - exfalso. apply (Hdis n Hn). by eapply chain_in_concat.
  - exfalso. apply (Hdis n Hn'). by eapply chain_in_concat.
  - f_equal. by eapply IH.
Qed.

Lemma removelast_snoc {A} (c : list A) x : removelast (c ++ [x]) = c.
Proof. apply removelast_last. Qed.

Lemma removelast_split {A} (c : list A) x : last c = Some x -> c = removelast c ++ [x].
Proof. intros Hl. apply last_Some in Hl as [c' ->]. by rewrite removelast_snoc. Qed.

Lemma concat_split (C : list (list nat)) :
  (forall c, c ∈ C -> c <> []) ->
  concat C ≡ₚ concat ((fun c => removelast c) <$> C) ++ omap last C /\ length (omap last C) = length C.
Proof.
  induction C as [| c C IH]; intros Hne; csimpl; [ done | ].
  destruct IH as [Hp Hl]; [ intros c' Hc'; apply Hne; by right | ].
  destruct (last c) as [x |] eqn:Hx.
  - rewrite (removelast_split c x Hx) at 1. split; [ | csimpl; by rewrite Hl ].
    rewrite Hp. csimpl. rewrite <- !app_assoc. apply Permutation_app_head. csimpl. apply Permutation_middle.
  - apply last_None in Hx. exfalso. apply (Hne c); [ by left | done ].
Qed.

Lemma chain_nodup (C : list (list nat)) b c : NoDup (concat C) -> C !! b = Some c -> NoDup c.
Proof.
  revert b. induction C as [| c0 C IH]; intros [| b] Hnd Hb; simpl in *; simplify_eq;
    apply NoDup_app in Hnd as (H1 & _ & H2); [ done | by eapply IH ].
Qed.

Lemma elem_of_proper_perm {A} (l l' : list A) x : l ≡ₚ l' -> x ∈ l <-> x ∈ l'.
Proof. intros Hp. by rewrite Hp. Qed.

Section insert.
Context {Data : Type} (zero : Data) (K : nat).

Local Notation ClusterHash := (ClusterHash Data).
Local Notation wf := (wf zero K).
Local Notation full := (full K).
Local Notation node_ok := (node_ok zero K).

Lemma linked_ext (t t' : ClusterHash) c :
  logical_num_ t' = logical_num_ t -> (forall n, n ∈ c -> next_of t' n = next_of t n) -> linked t c -> linked t' c.
Proof.
  intros Hlog. induction c as [| n [| n' c] IH]; intros Hn Hl; [ done | | ].
  - cbn [linked] in *. rewrite Hn; [ done | by left ].
  - destruct Hl as [(i & Hi & Hne & Hind) Hl]. split.
    + exists i. rewrite Hn by by left. split_and!; [ done | done | ]. unfold get_indirect_node in *. by rewrite Hlog.
    + apply IH; [ | done ]. intros m Hm. apply Hn. by right.
Qed.

Lemma linked_snoc (t t' : ClusterHash) c m w f :
  logical_num_ t' = logical_num_ t -> linked t c -> NoDup c -> last c = Some m ->
  (forall n, n ∈ c -> n <> m -> next_of t' n = next_of t n) ->
  next_of t' m = Some f -> f <> 0 -> get_indirect_node t f = Z.of_nat w -> next_of t' w = Some 0 ->
  linked t' (c ++ [w]).
Proof.
  intros Hlog. induction c as [| n c IH]; intros Hl Hnd Hlast Hsame Hm Hf Hw H0; [ done | ].
  destruct c as [| n' c].
  - simpl in Hlast. injection Hlast as ->. cbn [linked app]. split; [ | done ].
    exists f. split_and!; [ done | done | ]. unfold get_indirect_node in *. by rewrite Hlog.
  - destruct Hl as [(i & Hi & Hne & Hind) Hl]. apply NoDup_cons in Hnd as [Hni Hnd].
    assert (last (n' :: c) = Some m) as Hlast' by done.
    cbn [app linked]. split.
    + exists i. rewrite Hsame; [ | by left | ].
      * split_and!; [ done | done | ]. unfold get_indirect_node in *. by rewrite Hlog.
      * intros ->. apply Hni. apply last_Some_elem_of in Hlast'. done.
    + apply IH; try done. intros x Hx. apply Hsame. by right.
Qed.

(** ** A free slot is taken *)

Section slot.
Context (t : ClusterHash) (m i : nat) (k : Z) (s0 : Key).
Context (Hs0 : slot t (m, i) = Some s0) (Hv0 : valid s0 = false) (Hk : in_width 63 k).

Let t' := with_nodes (alter (set_key i k) m (nodes t)) t.

Lemma slot_node_at : exists nd, nodes t !! m = Some nd /\ keys nd !! i = Some s0.
Proof using Hs0. unfold slot in Hs0. simpl in Hs0. by apply bind_Some in Hs0 as (nd & ? & ?); exists nd. Qed.

Lemma slot_taken p : slot t' p = if decide (p = (m, i)) then Some (mkKey true k) else slot t p.
Proof using Hs0 Hk.
  destruct slot_node_at as (nd & Hn & Hi). destruct p as [n j]. unfold slot, t', with_nodes; simpl.
  destruct (decide (n = m)) as [-> | Hne].
  - rewrite list_lookup_alter_eq, Hn. simpl. destruct (decide (j = i)) as [-> | Hj].
    + rewrite decide_True by done. rewrite list_lookup_insert_eq by (by apply lookup_lt_Some in Hi).
      by rewrite wrap_small.
    + rewrite decide_False by congruence. by rewrite list_lookup_insert_ne.
  - rewrite list_lookup_alter_ne by done. by rewrite decide_False by congruence.
Qed.

Lemma next_taken n : next_of t' n = next_of t n.
Proof.
  unfold next_of, t', with_nodes; simpl. destruct (decide (n = m)) as [-> | Hne].
  - rewrite list_lookup_alter_eq. by destruct (nodes t !! m).
  - by rewrite list_lookup_alter_ne.
Qed.

Lemma data_taken p : data_at t' p = data_at t p.
Proof.
  unfold data_at, t', with_nodes; simpl. destruct (decide (p.1 = m)) as [-> | Hne].
  - rewrite list_lookup_alter_eq. by destruct (nodes t !! m).
  - by rewrite list_lookup_alter_ne.
Qed.

Lemma wf_taken C b c : wf t C -> get_hash t k = Z.of_nat b -> C !! b = Some c -> m ∈ c -> wf t' C.
Proof using Hs0 Hk.
  intros [H1 H2 H3 H4 H5 H6 H7 H8 H9 H10 H11 H12] Hb Hc Hm. split; try done.
  - simpl. by rewrite length_alter.
  - apply Forall_alter; [ done | ]. intros nd Hn (G1 & G2 & G3).
    unfold set_key, node_ok; simpl. rewrite length_insert. split_and!; [ done | done | ].
    intros j s. destruct (decide (j = i)) as [-> | Hj].
    + destruct (decide (i < length (keys nd))%nat) as [Hlt | Hge].
      * rewrite list_lookup_insert_eq by done. by intros [= <-].
      * rewrite list_insert_ge by lia. apply G3.
    + rewrite list_lookup_insert_ne by done. apply G3.
  - intros c' Hc'. apply (linked_ext t); [ done | | by apply H10 ]. intros n _. apply next_taken.
  - intros c' n Hc' Hn j Hj. destruct (H11 c' n Hc' Hn j Hj) as (s & Hs & Hv). rewrite slot_taken.
    case_decide; [ by exists (mkKey true k) | by exists s ].
  - intros b' c' p s Hb' Hp Hs Hv. rewrite slot_taken in Hs. case_decide as Hpe; [ subst p | ].
    + injection Hs as <-. simpl. change (get_hash t' k) with (get_hash t k).
      assert (b' = b) as -> by by eapply chain_unique. done.
    + by eapply (H12 b').
Qed.

Lemma rep_taken C M : rep t C M -> m ∈ concat C -> M !! k = None -> rep t' C (<[k := (m, i)]> M).
Proof using Hs0 Hv0 Hk.
  intros Hrep Hm HM k' p. rewrite slot_taken, lookup_insert_Some. split.
  - intros [[<- <-] | [Hne HM']].
    + split; [ done | ]. rewrite decide_True by done. by exists (mkKey true k).
    + apply Hrep in HM' as (Hin & s & Hs & Hv & Hks). split; [ done | ].
      rewrite decide_False; [ by exists s | ]. intros ->. rewrite Hs0 in Hs. injection Hs as <-. congruence.
  - intros (Hin & s & Hs & Hv & Hks). case_decide as Hpe; [ subst p | ].
    + injection Hs as <-. simpl in Hks. by left.
    + right. assert (M !! k' = Some p) as HM' by (apply Hrep; split; [ done | by exists s ]).
      split; [ | done ]. intros ->. by simplify_eq.
Qed.
End slot.

(** ** A node is added to a chain *)

(** A node whose slots are all valid is full. *)
Lemma valid_full (t : ClusterHash) C b c m :
  wf t C -> C !! b = Some c -> m ∈ c -> (forall i s, slot t (m, i) = Some s -> valid s = true) -> full t m.
Proof.
  intros Hwf Hc Hm Hfull i Hi. pose proof (wf_nodes _ _ _ _ Hwf) as Hn.
  assert (is_Some (nodes t !! m)) as [nd Hnd].
  { apply lookup_lt_is_Some. pose proof (wf_length _ _ _ _ Hwf). pose proof (wf_free _ _ _ _ Hwf).
    assert (Z.of_nat m < logical_num_ t + free_indirect_num_ t); [ | lia ].
    apply (wf_range _ _ _ _ Hwf). by eapply chain_in_concat. }
  destruct (Forall_lookup_1 _ _ _ _ Hn Hnd) as (H1 & _). destruct (lookup_lt_is_Some_2 (keys nd) i) as [s Hs]; [ lia | ].
  exists s. rewrite (slot_node _ _ _ _ Hnd). split; [ done | ]. apply (Hfull i). by rewrite (slot_node _ _ _ _ Hnd).
Qed.

Section alloc.
Context (t : ClusterHash) (C : list (list nat)) (b m w : nat) (c : list nat) (k : Z).
Context (Hwf : wf t C) (HKpos : (0 < K)%nat) (Hk : in_width 63 k).
Context (Hb : get_hash t k = Z.of_nat b) (Hc : C !! b = Some c) (Hlast : last c = Some m).
Context (Hfull : forall i s, slot t (m, i) = Some s -> valid s = true).
Context (Hfree : free_indirect_num_ t < indirect_num_ t).
Context (Hw : get_indirect_node t (free_indirect_num_ t) = Z.of_nat w).

Let f := free_indirect_num_ t.
Let t' := mkHash (alter (set_next f) m (<[w := set_key 0 k (zero_node zero K)]> (nodes t)))
  (logical_num_ t) (indirect_num_ t) (data_num_ t) (f + 1) (base_off_ t).
Let C' := <[b := c ++ [w]]> C.

Lemma alloc_m_in : m ∈ c.
Proof using All. by apply last_Some_elem_of. Qed.

Lemma alloc_w_fresh : w ∉ concat C.
Proof using All.
  intros Hin. apply (wf_range _ _ _ _ Hwf) in Hin. unfold get_indirect_node in Hw. lia.
Qed.

Lemma alloc_m_w : m <> w.
Proof using All. intros He. apply alloc_w_fresh. rewrite <- He. eapply chain_in_concat; [ exact Hc | apply alloc_m_in ]. Qed.

Lemma alloc_w_lt : (w < length (nodes t))%nat.
Proof using All.
  pose proof (wf_length _ _ _ _ Hwf). unfold get_indirect_node in Hw. lia.
Qed.

Lemma alloc_slot p :
  slot t' p = if decide (p.1 = w) then keys (set_key 0 k (zero_node zero K)) !! p.2 else slot t p.
Proof using All.
  unfold slot, t'; simpl. case_decide as Hp.
  - rewrite Hp, list_lookup_alter_ne by apply alloc_m_w.
    by rewrite list_lookup_insert_eq by apply alloc_w_lt.
  - destruct (decide (p.1 = m)) as [Hm | Hm].
    + rewrite Hm, list_lookup_alter_eq, list_lookup_insert_ne by (intros He; by apply alloc_m_w).
      by destruct (nodes t !! m).
    + rewrite list_lookup_alter_ne by done. by rewrite list_lookup_insert_ne by done.
Qed.

Lemma alloc_data p : p.1 <> w -> data_at t' p = data_at t p.
Proof using All.
  intros Hp. unfold data_at, t'; simpl. destruct (decide (p.1 = m)) as [Hm | Hm].
  - rewrite Hm, list_lookup_alter_eq, list_lookup_insert_ne by (intros He; by apply alloc_m_w).
    by destruct (nodes t !! m).
  - rewrite list_lookup_alter_ne by done. by rewrite list_lookup_insert_ne by done.
Qed.

Lemma alloc_data_new : data_at t' (w, 0%nat) = Some zero.
Proof using All.
  unfold data_at, t'; simpl. rewrite list_lookup_alter_ne by apply alloc_m_w.
  rewrite list_lookup_insert_eq by apply alloc_w_lt. simpl. by rewrite lookup_replicate_2 by lia.
Qed.

Lemma alloc_next n :
  next_of t' n = if decide (n = m) then Some f else if decide (n = w) then Some 0 else next_of t n.
Proof using All.
  unfold next_of, t'; simpl. destruct (decide (n = m)) as [-> | Hm].
  - rewrite list_lookup_alter_eq, list_lookup_insert_ne by (intros He; by apply alloc_m_w).
    assert (is_Some (nodes t !! m)) as [nd ->]; [ | done ].
    apply lookup_lt_is_Some. pose proof (wf_length _ _ _ _ Hwf). pose proof (wf_free _ _ _ _ Hwf).
    assert (Z.of_nat m < logical_num_ t + free_indirect_num_ t); [ | lia ].
    apply (wf_range _ _ _ _ Hwf). eapply chain_in_concat; [ exact Hc | apply alloc_m_in ].
  - rewrite list_lookup_alter_ne by done. destruct (decide (n = w)) as [-> | Hn].
    + by rewrite list_lookup_insert_eq by apply alloc_w_lt.
    + by rewrite list_lookup_insert_ne.
Qed.

Lemma alloc_new_slot i s : keys (set_key 0 k (zero_node zero K)) !! i = Some s ->
  (i = 0%nat /\ s = mkKey true k) \/ valid s = false.
Proof using All.
  simpl. destruct (decide (i = 0%nat)) as [-> | Hi].
  - rewrite list_lookup_insert_eq by (rewrite length_replicate; lia). intros [= <-]. left. by rewrite wrap_small.
  - rewrite list_lookup_insert_ne by done. intros [-> _]%lookup_replicate. by right.
Qed.

Lemma alloc_perm : concat C' ≡ₚ w :: concat C.
Proof using All. by apply concat_insert. Qed.

Lemma alloc_lookup b' c' : C' !! b' = Some c' -> (b' = b /\ c' = c ++ [w]) \/ (b' <> b /\ C !! b' = Some c').
Proof using All.
  unfold C'. destruct (decide (b' = b)) as [-> | Hne].
  - rewrite list_lookup_insert_eq by (by eapply lookup_lt_Some). intros [= <-]. by left.
  - rewrite list_lookup_insert_ne by done. by right.
Qed.

Lemma alloc_other_chain b' c' n : b' <> b -> C !! b' = Some c' -> n ∈ c' -> n <> m /\ n <> w.
Proof using All.
  intros Hne Hb' Hn. split; intros ->.
  - apply Hne. eapply chain_unique; [ apply (wf_nodup _ _ _ _ Hwf) | done | exact Hc | done | apply alloc_m_in ].
  - apply alloc_w_fresh. by eapply chain_in_concat.
Qed.

Lemma alloc_full n : full t n -> n <> w -> full t' n.
Proof using All.
  intros Hn Hne i Hi. rewrite alloc_slot. simpl. rewrite decide_False by done. by apply Hn.
Qed.

Lemma alloc_m_full : full t m.
Proof using All. eapply valid_full; [ exact Hwf | exact Hc | apply alloc_m_in | exact Hfull ]. Qed.

Lemma alloc_linked c' : c' ∈ C' -> linked t' c'.
Proof using All.
  intros Hc'. apply list_elem_of_lookup in Hc' as [b' Hb'].
  destruct (alloc_lookup _ _ Hb') as [[-> ->] | [Hne Hb'']].
  - apply (linked_snoc t t' c m w f); try done.
    + apply (wf_linked _ _ _ _ Hwf). by eapply list_elem_of_lookup_2.
    + apply (chain_nodup C b); [ apply (wf_nodup _ _ _ _ Hwf) | done ].
    + intros n Hn Hnm. rewrite alloc_next, decide_False by done. rewrite decide_False; [ done | ].
      intros ->. apply alloc_w_fresh. by eapply chain_in_concat.
    + rewrite alloc_next. by rewrite decide_True.
    + pose proof (wf_free _ _ _ _ Hwf). unfold f. lia.
    + rewrite alloc_next, decide_False by (intros He; by apply alloc_m_w). by rewrite decide_True.
  - apply (linked_ext t); [ done | | apply (wf_linked _ _ _ _ Hwf); by eapply list_elem_of_lookup_2 ].
    intros n Hn. destruct (alloc_other_chain _ _ n Hne Hb'' Hn) as [H1 H2].
    rewrite alloc_next, decide_False by done. by rewrite decide_False.
Qed.

Lemma alloc_full_chain c' n : c' ∈ C' -> n ∈ removelast c' -> full t' n.
Proof using All.
  intros Hc' Hn. apply list_elem_of_lookup in Hc' as [b' Hb'].
  destruct (alloc_lookup _ _ Hb') as [[-> ->] | [Hne Hb'']].
  - rewrite removelast_snoc in Hn. apply alloc_full.
    + destruct (decide (n = m)) as [-> | Hnm]; [ apply alloc_m_full | ].
      apply (wf_full _ _ _ _ Hwf c); [ by eapply list_elem_of_lookup_2 | ].
      rewrite (removelast_split c m Hlast) in Hn.
      by apply elem_of_app in Hn as [Hn | ->%list_elem_of_singleton].
    + intros ->. apply alloc_w_fresh. by eapply chain_in_concat.
  - assert (n ∈ c') as Hin.
    { destruct (last c') as [x |] eqn:Hx.
      - rewrite (removelast_split c' x Hx). apply elem_of_app. by left.
      - apply last_None in Hx as ->. by apply elem_of_nil in Hn. }
    apply alloc_full; [ | by eapply alloc_other_chain ].
    apply (wf_full _ _ _ _ Hwf c'); [ by eapply list_elem_of_lookup_2 | done ].
Qed.

Lemma wf_alloc : wf t' C'.
Proof using All.
  pose proof alloc_perm as Hperm. pose proof alloc_linked as Hlk. pose proof alloc_full_chain as Hfc.
  pose proof Hwf as [H1 H2 H3 H4 H5 H6 H7 H8 H9 H10 H11 H12]. split; try done.
  - simpl. unfold f. lia.
  - simpl. by rewrite length_alter, length_insert.
  - simpl. apply Forall_alter.
    + apply Forall_insert; [ done | ]. unfold node_ok; simpl. rewrite length_insert, !length_replicate.
      split_and!; [ done | done | ]. intros i s Hs Hv.
      assert (i < K)%nat as Hi. { apply lookup_lt_Some in Hs. by rewrite length_insert, length_replicate in Hs. }
      by apply lookup_replicate_2.
    + intros nd _ Hok. exact Hok.
  - unfold C'. by rewrite length_insert.
  - rewrite (Permutation_length Hperm). simpl. unfold f. lia.
  - rewrite Hperm. apply NoDup_cons. split; [ apply alloc_w_fresh | done ].
  - intros n. rewrite Hperm, elem_of_cons. simpl. unfold f. intros [-> | Hn%H8]; [ | lia ].
    unfold get_indirect_node in Hw. lia.
  - intros b' c' Hb'. destruct (alloc_lookup _ _ Hb') as [[-> ->] | [Hne Hb'']]; [ | by apply H9 ].
    specialize (H9 b c Hc). by destruct c.
  - intros b' c' p s Hb' Hp Hs Hv. rewrite alloc_slot in Hs. change (get_hash t') with (get_hash t).
    destruct (decide (p.1 = w)) as [Hpw | Hpw].
    + destruct (alloc_new_slot _ _ Hs) as [[_ ->] | Hv']; [ | congruence ]. simpl.
      destruct (alloc_lookup _ _ Hb') as [[-> ->] | [Hne Hb'']]; [ done | ].
      exfalso. apply alloc_w_fresh. rewrite <- Hpw. by eapply chain_in_concat.
    + destruct (alloc_lookup _ _ Hb') as [[-> ->] | [Hne Hb'']]; [ | by eapply (H12 b') ].
      apply elem_of_app in Hp as [Hp | Hp%list_elem_of_singleton]; [ by eapply (H12 b) | done ].
Qed.

Lemma rep_alloc M : rep t C M -> M !! k = None -> rep t' C' (<[k := (w, 0%nat)]> M).
Proof using All.
  intros Hrep HM k' p. rewrite alloc_slot, lookup_insert_Some.
  rewrite (elem_of_proper_perm _ _ p.1 alloc_perm), elem_of_cons. split.
  - intros [[<- <-] | [Hne HM']].
    + split; [ by left | ]. simpl. rewrite decide_True by done. exists (mkKey true k).
      rewrite list_lookup_insert_eq by (rewrite length_replicate; lia). by rewrite wrap_small.
    + apply Hrep in HM' as (Hin & s & Hs & Hv & Hks). split; [ by right | ].
      rewrite decide_False; [ by exists s | ]. intros He. apply alloc_w_fresh. by rewrite <- He.
  - intros (Hin & s & Hs & Hv & Hks). destruct (decide (p.1 = w)) as [Hpw | Hpw].
    + destruct (alloc_new_slot _ _ Hs) as [[Hi ->] | Hv']; [ | congruence ]. left.
      split; [ done | ]. by rewrite <- Hpw, <- Hi, <- surjective_pairing.
    + right. assert (M !! k' = Some p) as HM'.
      { apply Hrep. split; [ by destruct Hin | by exists s ]. }
      split; [ | done ]. intros ->. congruence.
Qed.
End alloc.

(** ** Capacity *)

(** Every slot of a full node is an entry of the map. *)
Lemma full_count (t : ClusterHash) C M L :
  rep t C M -> NoDup L -> (forall n, n ∈ L -> n ∈ concat C /\ full t n) -> (K * length L <= size M)%nat.
Proof.
  intros Hrep Hnd HL.
  set (P := n ← L; (fun i => (n, i)) <$> seq 0 K).
  assert (length P = K * length L)%nat as Hlen.
  { unfold P. clear. induction L as [| n L IH]; [ simpl; lia | ].
    rewrite bind_cons, length_app, IH, length_fmap, length_seq. simpl. lia. }
  assert (NoDup P) as HP.
  { unfold P. clear - Hnd. induction Hnd as [| n L Hn Hnd IH]; [ constructor | ]. rewrite bind_cons.
    apply NoDup_app. split_and!; [ | | done ].
    - apply NoDup_fmap; [ by intros i j [= ->] | apply NoDup_seq ].
    - intros p (i & -> & _)%list_elem_of_fmap. intros (n' & (j & Hj & _)%list_elem_of_fmap & Hn')%list_elem_of_bind.
      by simplify_eq. }
  rewrite <- Hlen, <- length_map_to_list, <- (length_fmap snd (map_to_list M)).
  apply submseteq_length, NoDup_submseteq; [ done | ].
  intros p (n & (i & -> & Hi)%list_elem_of_fmap & Hn)%list_elem_of_bind. apply elem_of_seq in Hi.
  destruct (HL n Hn) as [Hin Hf]. destruct (Hf i) as (s & Hs & Hv); [ lia | ].
  apply list_elem_of_fmap. exists (key s, (n, i)). split; [ done | ].
  apply elem_of_map_to_list, Hrep. split; [ done | by exists s ].
Qed.

(** When a chain is full, there is another node as long as the table has fewer
    keys than the indirect nodes have slots. *)
Lemma free_node_left (t : ClusterHash) C M b c m :
  wf t C -> rep t C M -> C !! b = Some c -> last c = Some m -> full t m ->
  Z.of_nat (size M) < Z.of_nat K * indirect_num_ t -> free_indirect_num_ t < indirect_num_ t.
Proof.
  intros Hwf Hrep Hc Hlast Hm Hsize.
  assert (forall c', c' ∈ C -> c' <> []) as Hne.
  { intros c' Hc' ->. by apply (wf_linked _ _ _ _ Hwf) in Hc'. }
  destruct (concat_split C Hne) as [Hperm Hlen]. set (L := concat ((fun c => removelast c) <$> C)) in *.
  pose proof (wf_nodup _ _ _ _ Hwf) as Hnd. rewrite Hperm in Hnd.
  apply NoDup_app in Hnd as (Hnd1 & Hdis & Hnd2).
  assert (m ∈ omap last C) as Hmo.
  { apply list_elem_of_omap. exists c. split; [ by eapply list_elem_of_lookup_2 | done ]. }
  assert (K * length (L ++ [m]) <= size M)%nat as Hcount.
  { eapply full_count; [ exact Hrep | | ].
    - apply NoDup_app. split_and!; [ done | | apply NoDup_singleton ].
      intros x Hx ->%list_elem_of_singleton. by apply (Hdis m).
    - intros n [Hn | ->%list_elem_of_singleton]%elem_of_app.
      + split; [ rewrite Hperm; apply elem_of_app; by left | ].
        apply concat_chain in Hn as (b' & c' & Hb' & Hn). rewrite list_lookup_fmap in Hb'.
        apply fmap_Some in Hb' as (c0 & Hc0 & ->). eapply (wf_full _ _ _ _ Hwf); [ by eapply list_elem_of_lookup_2 | done ].
      + split; [ rewrite Hperm; apply elem_of_app; by right | done ]. }
  pose proof (wf_total _ _ _ _ Hwf) as Htot. rewrite (Permutation_length Hperm), length_app, Hlen in Htot.
  pose proof (wf_count _ _ _ _ Hwf) as Hcnt. rewrite length_app in Hcount. simpl in Hcount. nia.
Qed.

(** ** insert *)

(** The new entry, and what stays. *)
Definition inserted (t : ClusterHash) (M : gmap Z data_ptr) (k : Z) (p : data_ptr) (t' : ClusterHash) : Prop :=
  (exists C', wf t' C' /\ rep t' C' (<[k := p]> M)) /\ data_at t' p = Some zero /\
  (forall k' q, M !! k' = Some q -> q <> p /\ data_at t' q = data_at t q) /\
  logical_num_ t' = logical_num_ t /\ indirect_num_ t' = indirect_num_ t /\ base_off_ t' = base_off_ t.

Lemma insert_spec (t : ClusterHash) C M k :
  (0 < K)%nat -> wf t C -> rep t C M -> in_width 63 k -> M !! k = None ->
  Z.of_nat (size M) < Z.of_nat K * indirect_num_ t ->
  exists p t', insert zero K t k = Ret (p, t') /\ inserted t M k p t'.
Proof.
  intros HK Hwf Hrep Hk HM Hsize. destruct (hash_bucket zero K t C k Hwf) as (b & c & Hb & Hc).
  destruct (free_from_linked t c (chain_fuel t) b) as (m & o & Hfree & Hmc & Hpost).
  { apply (wf_linked _ _ _ _ Hwf). by eapply list_elem_of_lookup_2. }
  { by eapply (chain_short zero K). }
  { by eapply wf_head. }
  assert (m ∈ concat C) as Hmin by by eapply chain_in_concat.
  unfold insert. rewrite Hb, Hfree. cbn [mbind res_bind fst snd]. rewrite Nat2Z.id. destruct o as [i |].
  - destruct Hpost as (s & Hs & Hv). eexists _, _. split; [ reflexivity | ]. unfold inserted. split_and!; try done.
    + exists C. split; [ by eapply wf_taken | by eapply rep_taken ].
    + rewrite data_taken. destruct (slot_node_at t m i s Hs) as (nd & Hn & Hi).
      destruct (Forall_lookup_1 _ _ _ _ (wf_nodes _ _ _ _ Hwf) Hn) as (_ & _ & Hz).
      unfold data_at. simpl. rewrite Hn. simpl. by eapply Hz.
    + intros k' q Hq. split; [ | apply data_taken ]. intros ->. apply Hrep in Hq as (_ & s' & Hs' & Hv' & _).
      rewrite Hs in Hs'. injection Hs' as <-. congruence.
  - destruct Hpost as [Hlast Hall].
    assert (full t m) as Hm by by eapply valid_full.
    pose proof (free_node_left t C M b c m Hwf Hrep Hc Hlast Hm Hsize) as Hlt.
    unfold ASSERT. rewrite (proj2 (Z.ltb_lt _ _) Hlt). cbn [mbind res_bind].
    pose proof (wf_logical _ _ _ _ Hwf) as Hlog. pose proof (wf_free _ _ _ _ Hwf) as Hf1.
    pose proof (wf_length _ _ _ _ Hwf) as Hlen.
    set (w := Z.to_nat (get_indirect_node t (free_indirect_num_ t))).
    assert (get_indirect_node t (free_indirect_num_ t) = Z.of_nat w) as Hw.
    { unfold w. rewrite Z2Nat.id; [ done | unfold get_indirect_node; lia ]. }
    destruct (lookup_lt_is_Some_2 (nodes t) w) as [nd Hnd]; [ unfold get_indirect_node in Hw; lia | ].
    rewrite Hw, (node_at_nat _ _ _ Hnd). cbn [mbind res_bind].
    eexists _, _. split; [ reflexivity | ]. unfold inserted. split_and!; try done.
    + eexists. split; [ eapply (wf_alloc t C b m w c k); try done
                      | eapply (rep_alloc t C b m w c k); try done ].
    + eapply (alloc_data_new t C b m w c); try done.
    + intros k' q Hq. apply Hrep in Hq as (Hin & _).
      assert (q.1 <> w) as Hne. { intros He. eapply (alloc_w_fresh t C b m w c k); try done. by rewrite <- He. }
      split; [ intros ->; done | by eapply (alloc_data t C b m w c k) ].
Qed.

(** get_with_insert: what is there already, or a new entry. *)
Lemma get_with_insert_spec (t : ClusterHash) C M k :
  (0 < K)%nat -> wf t C -> rep t C M -> in_width 63 k ->
  Z.of_nat (size M) < Z.of_nat K * indirect_num_ t \/ is_Some (M !! k) ->
  exists p t', get_with_insert zero K t k = Ret (p, t') /\
    match M !! k with
    | Some q => p = q /\ t' = t
    | None => inserted t M k p t'
    end.
Proof.
  intros HK Hwf Hrep Hk Hsize. unfold get_with_insert. rewrite (get_rep zero K t C M k Hwf Hrep).
  cbn [mbind res_bind]. destruct (M !! k) as [q |] eqn:HM; [ by exists q, t | ].
  apply (insert_spec t C M k); try done. by destruct Hsize as [| [? ?]].
Qed.
End insert.
