(* ===== verification/ClusterHashProps.v ===== *)
(** * ClusterHashProps: the hash table as a map, here and from other machines *)

From stdpp Require Import gmap.
From S2P Require Import Prelude.
From S2P Require Import ClusterHash.
From S2P Require Import ClusterHashInv.

Section table.
Context {Data : Type} (zero : Data) (K : nat) (ly : layout).

Local Notation ClusterHash := (ClusterHash Data).
Local Notation wf := (wf zero K).

(** ** A new table *)

Lemma concat_singletons n b : concat ((fun i => [i]) <$> seq b n) = seq b n.
Proof. revert b. induction n as [| n IH]; intros b; csimpl; [ done | by rewrite IH ]. Qed.

Lemma new_hash_wf e :
  (0 < K)%nat -> 0 < e -> (if e <=? Z.of_nat K then e else e / Z.of_nat K) + e < 2 ^ 31 ->
  exists t, new_hash zero K true e = Ret t /\ wf t ((fun i => [i]) <$> seq 0 (Z.to_nat e)) /\
    rep t ((fun i => [i]) <$> seq 0 (Z.to_nat e)) ∅ /\
    indirect_num_ t = (if e <=? Z.of_nat K then e else e / Z.of_nat K) /\ logical_num_ t = e.
Proof.
  intros HK He Hint. unfold new_hash. set (ind := if e <=? Z.of_nat K then e else e / Z.of_nat K).
  assert (0 < ind) as Hind.
  { unfold ind. destruct (Z.leb_spec e (Z.of_nat K)); [ lia | apply Z.div_str_pos; lia ]. }
  unfold ASSERT. rewrite (proj2 (Z.ltb_lt _ _) Hind). cbn [mbind res_bind].
  fold ind in Hint. rewrite (proj2 (Z.leb_gt _ _) Hint). eexists. split; [ reflexivity | ].
  set (t := {| nodes := _ |}). set (C := (fun i => [i]) <$> seq 0 (Z.to_nat e)).
  assert (forall n, (n < Z.to_nat (ind + e))%nat -> nodes t !! n = Some (zero_node zero K)) as Hn.
  { intros n Hlt. simpl. by apply lookup_replicate_2. }
  assert (forall p s, slot t p = Some s -> valid s = false) as Hs.
  { intros p s Hp. unfold slot in Hp. apply bind_Some in Hp as (nd & Hnd & Hp). simpl in Hnd.
    apply lookup_replicate in Hnd as [-> _]. simpl in Hp. by apply lookup_replicate in Hp as [-> _]. }
  assert (forall b c, C !! b = Some c -> c = [b] /\ (b < Z.to_nat e)%nat) as HC.
  { intros b c Hb. unfold C in Hb. rewrite list_lookup_fmap in Hb.
    apply fmap_Some in Hb as (x & Hx & ->). apply lookup_seq in Hx as [-> Hx]. by simpl. }
  split_and!; [ | | done | done ].
  - split.
    + simpl. lia.
    + simpl. lia.
    + simpl. rewrite length_replicate. lia.
    + simpl. apply Forall_replicate. unfold node_ok; simpl. rewrite !length_replicate. split_and!; try done.
      intros i s Hi _. apply lookup_replicate in Hi as [_ Hi]. by apply lookup_replicate_2.
    + unfold C. rewrite length_fmap, length_seq. simpl. lia.
    + unfold C. rewrite concat_singletons, length_seq. simpl. lia.
    + unfold C. rewrite concat_singletons. apply NoDup_seq.
    + intros n. unfold C. rewrite concat_singletons. intros Hin%elem_of_seq. simpl. lia.
    + intros b c Hb. by destruct (HC b c Hb) as [-> _].
    + intros c Hc. apply list_elem_of_lookup in Hc as [b Hb]. destruct (HC b c Hb) as [-> Hlt].
      cbn [linked]. unfold next_of. rewrite Hn by lia. done.
    + intros c n Hc. apply list_elem_of_lookup in Hc as [b Hb]. destruct (HC b c Hb) as [-> Hlt]. by intros ?%elem_of_nil.
    + intros b c p s _ _ Hp Hv. apply Hs in Hp. congruence.
  - intros k p. rewrite lookup_empty. split; [ done | ]. intros (_ & s & Hp & Hv & _). apply Hs in Hp. congruence.
Qed.

(** ** Access through a pointer *)

Lemma load_data (t : ClusterHash) p d : data_at t p = Some d -> load t p = Ret d.
Proof. intros Hd. unfold load, data_at in *. by rewrite Hd. Qed.

Section store.
Context (t : ClusterHash) (p : data_ptr) (d : Data).
Let t' := with_nodes (alter (set_data p.2 d) p.1 (nodes t)) t.

Lemma store_nodes n nd' : nodes t' !! n = Some nd' ->
  exists nd, nodes t !! n = Some nd /\ keys nd' = keys nd /\ next nd' = next nd.
Proof.
  simpl. destruct (decide (n = p.1)) as [-> | Hne].
  - rewrite list_lookup_alter_eq. intros (nd & Hn & ->)%fmap_Some. by exists nd.
  - rewrite list_lookup_alter_ne by done. intros Hn. by exists nd'.
Qed.

Lemma store_slot q : slot t' q = slot t q.
Proof.
  unfold slot. simpl. destruct (decide (q.1 = p.1)) as [-> | Hne].
  - rewrite list_lookup_alter_eq. by destruct (nodes t !! p.1).
  - by rewrite list_lookup_alter_ne.
Qed.

Lemma store_next n : next_of t' n = next_of t n.
Proof.
  unfold next_of. simpl. destruct (decide (n = p.1)) as [-> | Hne].
  - rewrite list_lookup_alter_eq. by destruct (nodes t !! p.1).
  - by rewrite list_lookup_alter_ne.
Qed.

Lemma store_data q : is_Some (data_at t p) -> data_at t' q = if decide (q = p) then Some d else data_at t q.
Proof.
  intros [d0 Hd]. unfold data_at in *. apply bind_Some in Hd as (nd & Hn & Hd). simpl.
  destruct q as [n j], p as [m i]. simpl in *. destruct (decide (n = m)) as [-> | Hne].
  - rewrite list_lookup_alter_eq, Hn. simpl. case_decide as Hp.
    + injection Hp as ->. by rewrite list_lookup_insert_eq by (by eapply lookup_lt_Some).
    + by rewrite list_lookup_insert_ne by congruence.
  - rewrite list_lookup_alter_ne by done. by rewrite decide_False by congruence.
Qed.

Lemma store_wf C s : wf t C -> slot t p = Some s -> valid s = true -> wf t' C.
Proof.
  intros [H1 H2 H3 H4 H5 H6 H7 H8 H9 H10 H11 H12] Hs Hv. split; try done.
  - simpl. by rewrite length_alter.
  - simpl. apply Forall_lookup. intros n nd Hn. destruct (decide (n = p.1)) as [-> | Hne].
    + rewrite list_lookup_alter_eq in Hn. apply fmap_Some in Hn as (nd0 & Hn & ->).
      destruct (Forall_lookup_1 _ _ _ _ H4 Hn) as (G1 & G2 & G3). unfold node_ok; simpl. rewrite length_insert.
      split_and!; [ done | done | ]. intros i s' Hi Hv'. rewrite list_lookup_insert_ne; [ by apply (G3 i s') | ].
      intros <-. unfold slot in Hs. rewrite Hn in Hs. simpl in Hs. rewrite Hs in Hi. injection Hi as ->. congruence.
    + rewrite list_lookup_alter_ne in Hn by done. by eapply Forall_lookup_1.
  - intros c Hc. apply (linked_ext t); [ done | intros n _; apply store_next | by apply H10 ].
  - intros c n Hc Hn i Hi. rewrite store_slot. by apply (H11 c n Hc Hn).
  - intros b c q s' Hb Hq. rewrite store_slot. by apply (H12 b c q).
Qed.

Lemma store_rep C M : rep t C M -> rep t' C M.
Proof. intros Hrep k q. rewrite store_slot. apply Hrep. Qed.
End store.

(** ** The table as a map *)

(** The table holds [kv], its entries are at the places of [M]. *)
Record models (t : ClusterHash) (M : gmap Z data_ptr) (kv : gmap Z Data) : Prop := {
  mo_wf : exists C, wf t C /\ rep t C M;
  mo_data : forall k, kv !! k = M !! k ≫= data_at t
}.

Lemma models_slot (t : ClusterHash) C M k p : wf t C -> rep t C M -> M !! k = Some p ->
  is_Some (data_at t p) /\ exists s, slot t p = Some s /\ valid s = true.
Proof.
  intros Hwf Hrep Hp. apply Hrep in Hp as (_ & s & Hs & Hv & _). split; [ | by exists s ].
  unfold slot in Hs. apply bind_Some in Hs as (nd & Hn & Hs). unfold data_at. rewrite Hn. simpl.
  destruct (Forall_lookup_1 _ _ _ _ (wf_nodes _ _ _ _ Hwf) Hn) as (H1 & H2 & _).
  apply lookup_lt_is_Some. apply lookup_lt_Some in Hs. lia.
Qed.

Lemma models_new e : (0 < K)%nat -> 0 < e -> (if e <=? Z.of_nat K then e else e / Z.of_nat K) + e < 2 ^ 31 ->
  exists t, new_hash zero K true e = Ret t /\ models t ∅ ∅ /\
    indirect_num_ t = (if e <=? Z.of_nat K then e else e / Z.of_nat K).
Proof.
  intros HK He Hint. destruct (new_hash_wf e HK He Hint) as (t & Ht & Hwf & Hrep & Hind & _). exists t.
  split_and!; [ done | | done ]. split; [ by eexists | ]. intros k. by rewrite !lookup_empty.
Qed.

Lemma models_get (t : ClusterHash) M kv k : models t M kv -> get t k = Ret (M !! k).
Proof. intros [(C & Hwf & Hrep) _]. by apply (get_rep zero K t C). Qed.

Lemma models_load t M kv k p : models t M kv -> M !! k = Some p ->
  exists d, kv !! k = Some d /\ data_at t p = Some d /\ load t p = Ret d.
Proof.
  intros [(C & Hwf & Hrep) Hd] Hp. destruct (models_slot _ _ _ _ _ Hwf Hrep Hp) as [[d Hdp] _].
  exists d. rewrite Hd, Hp. simpl. split_and!; [ done | done | by apply load_data ].
Qed.

Lemma models_store t M kv k p d : models t M kv -> M !! k = Some p ->
  exists t', store t p d = Ret t' /\ models t' M (<[k := d]> kv) /\ base_off_ t' = base_off_ t /\
    indirect_num_ t' = indirect_num_ t.
Proof.
  intros Hm Hp. destruct (models_load _ _ _ _ _ Hm Hp) as (d0 & _ & Hd0 & Hl). destruct Hm as [(C & Hwf & Hrep) Hd].
  destruct (models_slot _ _ _ _ _ Hwf Hrep Hp) as [Hdp (s & Hs & Hv)].
  unfold store. rewrite Hl. cbn [mbind res_bind]. eexists. split; [ reflexivity | ]. split_and!; [ | done | done ].
  split; [ exists C; split; [ by eapply store_wf | by apply store_rep ] | ].
  intros k'. destruct (decide (k' = k)) as [-> | Hne].
  - rewrite lookup_insert_eq, Hp. simpl. rewrite store_data by done. by rewrite decide_True.
  - rewrite lookup_insert_ne, Hd by done. destruct (M !! k') as [q |] eqn:Hq; [ | done ]. simpl.
    rewrite store_data by done. rewrite decide_False; [ done | ]. intros ->.
    apply Hrep in Hq as (_ & s1 & Hs1 & _ & <-). apply Hrep in Hp as (_ & s2 & Hs2 & _ & <-).
    apply Hne. rewrite Hs1 in Hs2. by injection Hs2 as ->.
Qed.

Lemma inserted_models t M kv k p t' :
  models t M kv -> M !! k = None -> inserted zero K t M k p t' -> models t' (<[k := p]> M) (<[k := zero]> kv).
Proof.
  intros [_ Hd] HM (Hwf & Hz & Hold & _). split; [ done | ]. intros k'. destruct (decide (k' = k)) as [-> | Hne].
  - by rewrite !lookup_insert_eq.
  - rewrite !lookup_insert_ne, Hd by done. destruct (M !! k') as [q |] eqn:Hq; [ | done ]. simpl.
    by destruct (Hold k' q Hq) as [_ ->].
Qed.

(** A key that is there is found; a new one gets a zeroed entry. *)
Lemma models_get_with_insert t M kv k :
  (0 < K)%nat -> models t M kv -> in_width 63 k ->
  Z.of_nat (size M) < Z.of_nat K * indirect_num_ t \/ is_Some (M !! k) ->
  exists p t' M', get_with_insert zero K t k = Ret (p, t') /\ M' !! k = Some p /\
    models t' M' (<[k := default zero (kv !! k)]> kv) /\ base_off_ t' = base_off_ t /\
    indirect_num_ t' = indirect_num_ t /\ M' = <[k := p]> M.
Proof.
  intros HK Hm Hk Hsize. pose proof Hm as [(C & Hwf & Hrep) Hd].
  destruct (get_with_insert_spec zero K t C M k HK Hwf Hrep Hk Hsize) as (p & t' & Hg & Hpost).
  destruct (M !! k) as [q |] eqn:HM.
  - destruct Hpost as [-> ->]. exists q, t, M. split_and!; try done; [ | by rewrite insert_id ].
    destruct (models_load _ _ _ _ _ Hm HM) as (d & Hkd & _). by rewrite Hkd; simpl; rewrite insert_id.
  - exists p, t', (<[k := p]> M). split_and!; [ done | by rewrite lookup_insert_eq | | by apply Hpost | by apply Hpost | done ].
    assert (kv !! k = None) as -> by by rewrite Hd, HM. simpl. by eapply inserted_models.
Qed.

(** ** Reads from other machines *)

Lemma fetch_node_off (t : ClusterHash) n : 0 < sizeof_HeaderNode ly -> fetch_node ly t (node_off ly t n) = node_at t n.
Proof.
  intros Hsz. unfold fetch_node, node_off.
  replace (n * sizeof_HeaderNode ly + base_off_ t - base_off_ t) with (n * sizeof_HeaderNode ly) by lia.
  rewrite Z.mod_mul by lia. rewrite Z.div_mul by lia. done.
Qed.

(** The nodes of a chain after the first are indirect ones. *)
Lemma tail_indirect t C b c n : wf t C -> C !! b = Some c -> n ∈ tail c -> logical_num_ t <= Z.of_nat n.
Proof.
  intros Hwf Hb Hn. pose proof (wf_count _ _ _ _ Hwf) as Hc.
  destruct (decide (logical_num_ t <= Z.of_nat n)) as [| Hlt]; [ done | exfalso ].
  pose proof (wf_head _ _ _ _ Hwf b c Hb) as Hh. destruct c as [| x c]; [ done | ]. injection Hh as ->. simpl in Hn.
  pose proof (chain_nodup _ _ _ (wf_nodup _ _ _ _ Hwf) Hb) as Hnd. apply NoDup_cons in Hnd as [Hni _].
  destruct (lookup_lt_is_Some_2 C n) as [c' Hc']; [ lia | ].
  pose proof (wf_head _ _ _ _ Hwf n c' Hc') as Hh'. destruct c' as [| y c']; [ done | ]. injection Hh' as ->.
  assert (b = n) as ->; [ | done ]. eapply (chain_unique C b n _ _ n); [ apply (wf_nodup _ _ _ _ Hwf) | done | done | by right | by left ].
Qed.

(** The table objects of two machines that were created with the same sizes at
    the same place of their regions. Their contents may be different. *)
Record alike (me t : ClusterHash) : Prop := {
  alike_logical : logical_num_ me = logical_num_ t;
  alike_indirect : indirect_num_ me = indirect_num_ t;
  alike_base : base_off_ me = base_off_ t
}.

Lemma node_off_alike me t n : alike me t -> node_off ly me n = node_off ly t n.
Proof. intros [_ _ Hb]. unfold node_off. by rewrite Hb. Qed.

(** A remote read follows the same nodes as a local one. *)
Lemma remote_get_from_linked (check : bool) (me t : ClusterHash) k : 0 < sizeof_HeaderNode ly -> alike me t ->
  Z.of_nat (length (nodes t)) = logical_num_ t + indirect_num_ t -> Forall (node_ok zero K) (nodes t) ->
  forall c fuel n, linked t c -> (length c <= fuel)%nat -> head c = Some n ->
  (forall x, x ∈ tail c -> logical_num_ t <= Z.of_nat x) ->
  match get_from fuel t k (Z.of_nat n) with
  | Ret (Some p) => exists d, data_at t p = Some d /\
      remote_get_from ly check fuel me t k (node_off ly t (Z.of_nat n)) = Ret (ptr_off ly t p, d)
  | Ret None => remote_get_from ly check fuel me t k (node_off ly t (Z.of_nat n)) = Exit 134 0
  | _ => False
  end.
Proof.
  intros Hsz Halike Hlen Hok. pose proof Halike as [Hlog Hindm _]. induction c as [| m c IH]; intros fuel n Hl Hf Hh Hind; [ done | ]. injection Hh as ->.
  destruct fuel as [| fuel]; [ simpl in Hf; lia | ].
  assert (exists nd, nodes t !! n = Some nd) as [nd Hn].
  { destruct c; [ | destruct Hl as [(i & Hl & _) _] ]; unfold next_of in *;
      [ apply fmap_Some in Hl as (nd & Hn & _) | apply fmap_Some in Hl as (nd & Hn & _) ]; by exists nd. }
  cbn [get_from remote_get_from]. rewrite fetch_node_off by done. rewrite (node_at_nat _ _ _ Hn). cbn [mbind res_bind].
  destruct (find_slot (holds_key k) (keys nd)) as [i |] eqn:Hs.
  { apply find_slot_Some in Hs as (s & Hs & Hk). destruct (Forall_lookup_1 _ _ _ _ Hok Hn) as (G1 & G2 & _).
    destruct (lookup_lt_is_Some_2 (datas nd) i) as [d Hd]; [ apply lookup_lt_Some in Hs; lia | ].
    exists d. rewrite Nat2Z.id. split; [ unfold data_at; simpl; by rewrite Hn | ]. rewrite Hd. f_equal. f_equal.
    unfold ptr_off. simpl. lia. }
  destruct c as [| n' c].
  - cbn [linked] in Hl. unfold next_of in Hl. rewrite Hn in Hl. injection Hl as ->. rewrite Z.eqb_refl.
    destruct check; [ | done ]. unfold ASSERT. destruct (_ && _); done.
  - destruct Hl as [(i & Hi & Hne & Hnx) Hl]. unfold next_of in Hi. rewrite Hn in Hi. injection Hi as ->.
    specialize (IH fuel n' Hl).
    assert (exists nd', nodes t !! n' = Some nd') as [nd' Hn'].
    { destruct c; [ | destruct Hl as [(j & Hl & _) _] ]; unfold next_of in *;
        [ apply fmap_Some in Hl as (nd' & Hn' & _) | apply fmap_Some in Hl as (nd' & Hn' & _) ]; by exists nd'. }
    assert (0 <= i < indirect_num_ t) as Hr.
    { pose proof (Hind n') as Hlo. simpl in Hlo. specialize (Hlo ltac:(by left)). apply lookup_lt_Some in Hn'.
      unfold get_indirect_node in Hnx. lia. }
    assert ((if check then ASSERT ((0 <=? i) && (i <? indirect_num_ me)) else Ret tt) = Ret tt) as Hcheck.
    { destruct check; [ | done ]. rewrite Hindm, (proj2 (Z.leb_le _ _)), (proj2 (Z.ltb_lt _ _)) by lia. done. }
    rewrite Hcheck. cbn [mbind res_bind]. apply Z.eqb_neq in Hne. rewrite Hne, (node_off_alike me t) by done.
    unfold get_indirect_node in *. rewrite Hlog, Hnx.
    apply IH; [ simpl in *; lia | done | ]. intros x Hx. apply Hind. simpl in *. by right.
Qed.

(** What is in the table is found with its offset and contents; a key that is
    not there ends the process. *)
Lemma models_remote_get check me t M kv k :
  0 < sizeof_HeaderNode ly -> alike me t -> models t M kv -> base_off_ t <> 0 ->
  match M !! k with
  | Some p => exists d, kv !! k = Some d /\ remote_get_with ly check me t k = Ret (ptr_off ly t p, d)
  | None => remote_get_with ly check me t k = Exit 134 0
  end.
Proof.
  intros Hsz Ha Hm Hb. pose proof (models_get _ _ _ k Hm) as Hg. destruct Hm as [(C & Hwf & Hrep) Hd].
  destruct (hash_bucket zero K t C k Hwf) as (b & c & Hh & Hc).
  unfold remote_get_with, ASSERT. rewrite (alike_base _ _ Ha), (proj2 (Z.eqb_neq _ _) Hb). cbn [negb mbind res_bind].
  assert (get_hash me k = get_hash t k) as -> by (unfold get_hash; by rewrite (alike_logical _ _ Ha)).
  rewrite (node_off_alike me t) by done. unfold get in Hg. rewrite Hh in *.
  pose proof (remote_get_from_linked check me t k Hsz Ha (wf_length _ _ _ _ Hwf) (wf_nodes _ _ _ _ Hwf) c (chain_fuel t) b) as Hr.
  rewrite Hg in Hr. specialize (Hr ltac:(apply (wf_linked _ _ _ _ Hwf); by eapply list_elem_of_lookup_2)).
  specialize (Hr ltac:(by eapply (chain_short zero K)) ltac:(by eapply wf_head)).
  specialize (Hr ltac:(intros x Hx; by eapply tail_indirect)).
  destruct (M !! k) as [p |] eqn:HM; [ | done ]. destruct Hr as (d & Hdp & Hr). exists d.
  rewrite Hd, HM. by split.
Qed.
End table.

(** ** MemDB: loading and reading a hash table *)

Inductive db_op : Type :=
| DPut (k : Z) (value : option N)
| DGet (k : Z).

(** The results are what Get returns; Put returns a node, which only the loader
    uses. *)
Fixpoint db_run (t : rhash) (ops : list db_op) : res (list (option N) * rhash) :=
  match ops with
  | [] => Ret ([], t)
  | DPut k v :: ops => r ← memdb_Put t k v; db_run r.2 ops
  | DGet k :: ops => v ← memdb_Get t k; r ← db_run t ops; Ret (v :: r.1, r.2)
  end.

Fixpoint db_spec (σ : gmap Z (option N)) (ops : list db_op) : list (option N) * gmap Z (option N) :=
  match ops with
  | [] => ([], σ)
  | DPut k v :: ops => db_spec (<[k := v]> σ) ops
  | DGet k :: ops => let r := db_spec σ ops in (mjoin (σ !! k) :: r.1, r.2)
  end.

Definition put_keys (ops : list db_op) : gset Z :=
  list_to_set (omap (fun o => match o with DPut k _ => Some k | DGet _ => None end) ops).

(** The entry of a key is unlocked, has sequence number 2, the value put last, and
    its own offset in the region. *)
Record loaded (t : rhash) (M : gmap Z data_ptr) (σ : gmap Z (option N)) : Prop := {
  ld_models : exists kv, models RNode_zero RHASH_CLUSTER_NUM t M kv /\
    forall k, kv !! k = (p ← M !! k; v ← σ !! k; Some (mkRNode 0 2 v (ptr_off rhash_layout t p)));
  ld_dom : dom M = dom σ
}.

Lemma ptr_off_base (t t' : rhash) p : base_off_ t' = base_off_ t -> ptr_off rhash_layout t' p = ptr_off rhash_layout t p.
Proof. intros Hb. unfold ptr_off, node_off. by rewrite Hb. Qed.

Lemma loaded_kv (t : rhash) (M : gmap Z data_ptr) (kv : gmap Z RNode) (σ : gmap Z (option N)) k v p :
  (forall k, kv !! k = (p ← M !! k; v ← σ !! k; Some (mkRNode 0 2 v (ptr_off rhash_layout t p)))) ->
  M !! k = Some p -> σ !! k = Some v -> kv !! k = Some (mkRNode 0 2 v (ptr_off rhash_layout t p)).
Proof. intros Hkv HM Hσ. by rewrite Hkv, HM; simpl; rewrite Hσ. Qed.

Lemma loaded_get t M σ k : loaded t M σ -> memdb_Get t k = Ret (mjoin (σ !! k)).
Proof.
  intros [(kv & Hm & Hkv) Hdom]. unfold memdb_Get. rewrite (models_get _ _ _ _ _ k Hm). cbn [mbind res_bind].
  destruct (M !! k) as [p |] eqn:HM.
  - assert (is_Some (σ !! k)) as [v Hv] by (apply elem_of_dom; rewrite <- Hdom; by eapply elem_of_dom_2).
    destruct (models_load _ _ _ _ _ _ _ Hm HM) as (d & Hd & _ & Hl). rewrite Hl. cbn [mbind res_bind].
    rewrite (loaded_kv _ _ _ _ _ _ _ Hkv HM Hv) in Hd. injection Hd as <-. by rewrite Hv.
  - assert (σ !! k = None) as ->; [ | done ]. apply not_elem_of_dom. rewrite <- Hdom. by apply not_elem_of_dom.
Qed.

Lemma loaded_put t M σ k v :
  loaded t M σ -> in_width 63 k -> Z.of_nat (size ({[ k ]} ∪ dom σ)) <= 4 * indirect_num_ t ->
  exists p t' M', memdb_Put t k v = Ret (p, t') /\ loaded t' M' (<[k := v]> σ) /\
    indirect_num_ t' = indirect_num_ t /\ base_off_ t' = base_off_ t.
Proof.
  intros [(kv & Hm & Hkv) Hdom] Hk Hsize.
  assert (Z.of_nat (size M) < Z.of_nat RHASH_CLUSTER_NUM * indirect_num_ t \/ is_Some (M !! k)) as Hroom.
  { destruct (M !! k) eqn:HM; [ by right | left ]. rewrite size_union in Hsize.
    - rewrite size_singleton, <- Hdom, size_dom in Hsize. unfold RHASH_CLUSTER_NUM. lia.
    - apply disjoint_singleton_l. rewrite <- Hdom. by apply not_elem_of_dom. }
  destruct (models_get_with_insert RNode_zero RHASH_CLUSTER_NUM t M kv k) as (p & t1 & M' & Hg & HM' & Hm1 & Hb1 & Hi1 & ->);
    [ unfold RHASH_CLUSTER_NUM; lia | done | done | done | ].
  set (kv1 := <[k := default RNode_zero (kv !! k)]> kv) in *.
  destruct (models_load _ _ _ _ _ _ _ Hm1 HM') as (d1 & _ & _ & Hl1).
  set (d2 := mkRNode (rn_lock d1) (rn_seq d1) (rn_value d1) (ptr_off rhash_layout t1 p)).
  set (d3 := if bool_decide (rn_value d2 = None) then mkRNode (rn_lock d2) (rn_seq d2) v (rn_off d2) else d2).
  destruct (models_store _ _ _ _ _ _ _ d3 Hm1 HM') as (t2 & Hs2 & Hm2 & Hb2 & Hi2).
  destruct (models_load _ _ _ _ _ _ _ Hm2 HM') as (d4 & Hd4 & _ & Hl2).
  rewrite lookup_insert_eq in Hd4. injection Hd4 as <-.
  destruct (models_store _ _ _ _ _ _ _ (mkRNode 0 2 v (rn_off d3)) Hm2 HM') as (t3 & Hs3 & Hm3 & Hb3 & Hi3).
  exists p, t3, (<[k := p]> M). split_and!; [ | | congruence | congruence ].
  - unfold memdb_Put, rhash_Put, rhash_GetWithInsert. rewrite Hg. cbn [mbind res_bind fst snd]. rewrite Hl1.
    cbn [mbind res_bind]. fold d2. fold d3. rewrite Hs2. cbn [mbind res_bind fst snd]. rewrite Hl2.
    cbn [mbind res_bind]. rewrite Hs3. done.
  - split; [ | by rewrite !dom_insert_L, Hdom ].
    eexists. split; [ exact Hm3 | ]. intros k'. rewrite !insert_insert_eq in *.
    assert (rn_off d3 = ptr_off rhash_layout t3 p) as Hoff.
    { rewrite (ptr_off_base t1 t3) by congruence. unfold d3. by case_bool_decide. }
    destruct (decide (k' = k)) as [-> | Hne].
    + rewrite !lookup_insert_eq. simpl. by rewrite Hoff.
    + unfold kv1. rewrite !lookup_insert_ne by done. rewrite Hkv. destruct (M !! k') as [q |]; [ | done ]. simpl.
      destruct (σ !! k'); [ | done ]. simpl. by rewrite (ptr_off_base t t3) by congruence.
Qed.

Lemma db_run_spec ops : forall t M σ,
  loaded t M σ -> Forall (fun o => in_width 63 (match o with DPut k _ | DGet k => k end)) ops ->
  Z.of_nat (size (dom σ ∪ put_keys ops)) <= 4 * indirect_num_ t ->
  exists t' M', db_run t ops = Ret ((db_spec σ ops).1, t') /\ loaded t' M' (db_spec σ ops).2 /\
    base_off_ t' = base_off_ t.
Proof.
  induction ops as [| o ops IH]; intros t M σ Hl Hk Hsize; [ by exists t, M | ].
  apply Forall_cons in Hk as [Hk Hks]. destruct o as [k v | k]; cbn [db_run db_spec].
  - assert (put_keys (DPut k v :: ops) = {[ k ]} ∪ put_keys ops) as Hpk by done. rewrite Hpk in Hsize.
    destruct (loaded_put t M σ k v Hl Hk) as (p & t1 & M1 & Hp & Hl1 & Hi1 & Hb1).
    { etrans; [ | exact Hsize ]. apply Nat2Z.inj_le. apply subseteq_size. set_solver. }
    destruct (IH t1 M1 (<[k := v]> σ) Hl1 Hks) as (t' & M' & Hr & Hl' & Hb').
    { rewrite Hi1. etrans; [ | exact Hsize ]. apply Nat2Z.inj_le. apply subseteq_size.
      rewrite dom_insert_L. set_solver. }
    exists t', M'. rewrite Hp. cbn [mbind res_bind snd]. split_and!; [ done | done | congruence ].
  - rewrite (loaded_get _ _ _ _ Hl). cbn [mbind res_bind].
    destruct (IH t M σ Hl Hks Hsize) as (t' & M' & Hr & Hl' & Hb'). exists t', M'. rewrite Hr. by split_and!.
Qed.

(** The table after AddSchema, which passes memory of the region, and
    EnableRemoteAccess. *)
Definition new_rhash (expected_data off : Z) : res rhash :=
  t ← new_hash RNode_zero RHASH_CLUSTER_NUM true expected_data; Ret (enable_remote_accesses off t).

Lemma new_rhash_loaded e off : 0 < e -> e + e / 4 < 2 ^ 31 ->
  exists t, new_rhash e off = Ret t /\ loaded t ∅ ∅ /\ base_off_ t = off /\
    indirect_num_ t = (if e <=? 4 then e else e / 4).
Proof.
  intros He Hint. destruct (models_new RNode_zero RHASH_CLUSTER_NUM e) as (t & Ht & Hm & Hi).
  { unfold RHASH_CLUSTER_NUM. lia. }
  { done. }
  { change (Z.of_nat RHASH_CLUSTER_NUM) with 4. destruct (Z.leb_spec e 4); lia. }
  unfold new_rhash. rewrite Ht. cbn [mbind res_bind]. eexists. split; [ reflexivity | ].
  split_and!; [ | done | done ]. split; [ | by rewrite !dom_empty_L ].
  exists ∅. split; [ | intros k; by rewrite !lookup_empty ].
  destruct Hm as [(C & Hwf & Hrep) Hd]. split; [ | done ]. exists C.
  split; [ | exact Hrep ]. destruct Hwf as [H1 H2 H3 H4 H5 H6 H7 H8 H9 H10 H11 H12]. split; try done.
  intros c Hc. by apply (linked_ext t), H10.
Qed.

(** How many keys a table of [e] expected records is sure to take. *)
Definition rhash_capacity (e : Z) : Z := 4 * (if e <=? 4 then e else e / 4).

Lemma loaded_remote check me t M σ k :
  alike me t -> loaded t M σ -> base_off_ t <> 0 ->
  match σ !! k with
  | Some v => exists off p, M !! k = Some p /\ off = ptr_off rhash_layout t p /\
      remote_get_with rhash_layout check me t k = Ret (off, mkRNode 0 2 v off)
  | None => remote_get_with rhash_layout check me t k = Exit 134 0
  end.
Proof.
  intros Ha [(kv & Hm & Hkv) Hdom] Hb.
  pose proof (models_remote_get RNode_zero RHASH_CLUSTER_NUM rhash_layout check me t M kv k ltac:(done) Ha Hm Hb) as Hr.
  destruct (M !! k) as [p |] eqn:HM.
  - assert (is_Some (σ !! k)) as [v Hv] by (apply elem_of_dom; rewrite <- Hdom; by eapply elem_of_dom_2).
    rewrite Hv. destruct Hr as (d & Hd & Hr). rewrite (loaded_kv _ _ _ _ _ _ _ Hkv HM Hv) in Hd.
    injection Hd as <-. by eexists _, p.
  - assert (σ !! k = None) as ->; [ | done ]. apply not_elem_of_dom. rewrite <- Hdom. by apply not_elem_of_dom.
Qed.

(** C9: a hash table of the database is a map. From a new table for [e] records, any
    sequence of Put and Get on at most [rhash_capacity e] different keys of 63 bits
    (for any [e] whose number of nodes is an int) runs through, without failed assertion or wild access, whatever chains
    the hash values lead to, and Get returns the value that was put last. *)
Theorem memdb_refines_map e off ops :
  0 < e -> e + e / 4 < 2 ^ 31 -> Forall (fun o => in_width 63 (match o with DPut k _ | DGet k => k end)) ops ->
  Z.of_nat (size (put_keys ops)) <= rhash_capacity e ->
  exists t t', new_rhash e off = Ret t /\ db_run t ops = Ret ((db_spec ∅ ops).1, t').
Proof.
  intros He Hint Hk Hsize. destruct (new_rhash_loaded e off He Hint) as (t & Ht & Hl & Hb & Hi).
  destruct (db_run_spec ops t ∅ ∅ Hl Hk) as (t' & M' & Hr & _).
  { rewrite dom_empty_L, union_empty_l_L, Hi. exact Hsize. }
  by exists t, t'.
Qed.

(** C10: other machines see the same. After any such sequence, a one-sided read by
    a machine whose own table object was created alike (whatever it holds), by
    either version of remote_get returns for a key that was put the contents of
    its node, unlocked with sequence number 2 and the value put last, and the
    offset at which the node lies, which is also the one the node itself
    records; RemoteTraverse remembers this offset, and with it a later traversal
    needs no read (in a build with RDMA_CACHE). A key that was never put ends the process. *)
Theorem remote_reads_agree e off ops t me t' rs k c :
  0 < e -> e + e / 4 < 2 ^ 31 -> off <> 0 -> Forall (fun o => in_width 63 (match o with DPut k _ | DGet k => k end)) ops ->
  Z.of_nat (size (put_keys ops)) <= rhash_capacity e ->
  new_rhash e off = Ret t -> db_run t ops = Ret (rs, t') -> alike me t' -> k < size_ c / 8 ->
  match (db_spec ∅ ops).2 !! k with
  | Some v => exists p pos c', get t' k = Ret (Some p) /\ pos = ptr_off rhash_layout t' p /\
      remote_get rhash_layout me t' k = Ret (pos, mkRNode 0 2 v pos) /\
      remote_get_yield rhash_layout me t' k = Ret (pos, mkRNode 0 2 v pos) /\
      RemoteTraverse me t' c k = Ret (pos, mkRNode 0 2 v pos, c') /\ RemoteTraverse_yield c' k = Ret pos
  | None => remote_get rhash_layout me t' k = Exit 134 0 /\ remote_get_yield rhash_layout me t' k = Exit 134 0
  end.
Proof.
  intros He Hint Hoff Hk Hsize Hnew Hrun Ha Hc. destruct (new_rhash_loaded e off He Hint) as (t0 & Ht & Hl & Hb & Hi).
  rewrite Hnew in Ht. injection Ht as <-.
  destruct (db_run_spec ops t ∅ ∅ Hl Hk) as (t1 & M1 & Hr & Hl1 & Hb1).
  { rewrite dom_empty_L, union_empty_l_L, Hi. exact Hsize. }
  rewrite Hrun in Hr. injection Hr as -> <-.
  pose proof (loaded_remote true me t' M1 _ k Ha Hl1 ltac:(congruence)) as H1.
  pose proof (loaded_remote false me t' M1 _ k Ha Hl1 ltac:(congruence)) as H2.
  destruct ((db_spec ∅ ops).2 !! k) as [v |]; [ | by split ].
  destruct H1 as (pos & p & HM & -> & H1). destruct H2 as (? & ? & HM2 & -> & H2). rewrite HM in HM2. injection HM2 as <-.
  destruct Hl1 as [(kv & Hm & _) _].
  exists p, (ptr_off rhash_layout t' p), (mkCache (<[k := ptr_off rhash_layout t' p]> (content_ c)) (size_ c)). split_and!; try done.
  - by rewrite (models_get _ _ _ _ _ k Hm), HM.
  - unfold RemoteTraverse, remote_get. rewrite H1. cbn [mbind res_bind snd rn_off]. unfold cache_put, ASSERT.
    by rewrite (proj2 (Z.ltb_lt _ _) Hc).
  - unfold RemoteTraverse_yield, cache_get. simpl. rewrite (proj2 (Z.ltb_lt _ _) Hc). by rewrite lookup_insert_eq.
Qed.

(** ** Examples *)

(** Six keys with the same hash value in a table for eight records. *)
Definition collisions : list db_op :=
  ((fun k => DPut k (Some (Z.to_N k))) <$> [5; 8; 10; 24; 32; 41]) ++ [DGet 41; DPut 8 (Some 9%N); DGet 8; DGet 7].

Lemma collisions_ok :
  Forall (fun o => in_width 63 (match o with DPut k _ | DGet k => k end)) collisions.
Proof. repeat constructor; done. Qed.

Lemma memdb_refines_map_witness :
  exists t t', new_rhash 8 4096 = Ret t /\ db_run t collisions = Ret ([Some 41%N; Some 9%N; None], t').
Proof.
  destruct (memdb_refines_map 8 4096 collisions ltac:(lia) ltac:(done) collisions_ok) as (t & t' & Hn & Hr);
    [ vm_compute; discriminate | ].
  exists t, t'. split; [ exact Hn | exact Hr ].
Defined.

Lemma remote_reads_agree_witness :
  exists t t' rs p pos c', new_rhash 8 4096 = Ret t /\ db_run t collisions = Ret (rs, t') /\
    get t' 41 = Ret (Some p) /\ pos = ptr_off rhash_layout t' p /\
    remote_get rhash_layout t t' 41 = Ret (pos, mkRNode 0 2 (Some 41%N) pos) /\
    RemoteTraverse t t' (mkCache ∅ 1000) 41 = Ret (pos, mkRNode 0 2 (Some 41%N) pos, c') /\ RemoteTraverse_yield c' 41 = Ret pos.
Proof.
  destruct (new_rhash 8 4096) as [t | | |] eqn:Ht; try (vm_compute in Ht; discriminate Ht).
  destruct (db_run t collisions) as [[rs t'] | | |] eqn:Hr;
    try (vm_compute in Ht; injection Ht as <-; vm_compute in Hr; discriminate Hr).
  pose proof (remote_reads_agree 8 4096 collisions t t t' rs 41 (mkCache ∅ 1000) ltac:(lia) ltac:(done) ltac:(lia) collisions_ok) as Hag.
  assert (alike t t') as Ha.
  { vm_compute in Ht. injection Ht as <-. vm_compute in Hr. injection Hr as _ <-. by split. }
  specialize (Hag ltac:(vm_compute; discriminate) Ht Hr Ha ltac:(done)).
  destruct Hag as (p & pos & c' & H1 & H2 & H3 & _ & H4 & H5).
  exists t, t', rs, p, pos, c'. split; [ done | ]. split; [ done | ]. split; [ done | ]. split; [ done | ].
  split; [ done | ]. split; done.
Defined.

(** The number of records a table is created for is not what it can take: five
    keys may already fail in a table for seven. And a key of 64 bits is lost:
    the comparison with the 63 bits that are stored never holds, so the record
    just put is not found, and each Put makes a new entry. *)
Theorem cluster_limits :
  (exists t, new_rhash 7 0 = Ret t /\
    db_run t ((fun k => DPut k (Some 1%N)) <$> [6; 23; 32; 34; 37]) = Exit 134 0) /\
  (exists t r r', new_rhash 4 0 = Ret t /\ memdb_Put t (2 ^ 63 + 5) (Some 7%N) = Ret r /\
    memdb_Get r.2 (2 ^ 63 + 5) = Ret None /\ memdb_Put r.2 (2 ^ 63 + 5) (Some 7%N) = Ret r' /\ r'.1 <> r.1).
Proof.
  split.
  - eexists. split; [ vm_compute; reflexivity | vm_compute; reflexivity ].
  - do 3 eexists. split; [ vm_compute; reflexivity | ]. split; [ vm_compute; reflexivity | ].
    split; [ vm_compute; reflexivity | ]. split; [ vm_compute; reflexivity | ]. vm_compute. discriminate.
Qed.

(** The room that expected_size asks for is too small for small tables. *)
Lemma expected_size_small : exists t, new_hash RNode_zero RHASH_CLUSTER_NUM true 3 = Ret t /\ table_size t = 6 /\ expected_size RHASH_CLUSTER_NUM 3 = 3.
Proof. eexists. split; [ reflexivity | ]. by split. Qed.

(** ** LogStoreManager *)

Fixpoint add_backups (t : store_map) (bs : list (Z * N)) : res store_map :=
  match bs with
  | [] => Ret t
  | (id, db) :: bs => t' ← add_backup_store t id db; add_backups t' bs
  end.

Lemma add_backups_spec bs : forall t M kv,
  models None 1 t M kv -> NoDup bs.*1 -> Forall (fun b => in_width 63 b.1 /\ M !! b.1 = None) bs ->
  Z.of_nat (size M + length bs) <= indirect_num_ t ->
  exists t' M', add_backups t bs = Ret t' /\
    models None 1 t' M' (list_to_map ((fun b => (b.1, Some b.2)) <$> reverse bs) ∪ kv).
Proof.
  induction bs as [| [id db] bs IH]; intros t M kv Hm Hnd Hk Hsize.
  { exists t, M. split; [ done | ]. by rewrite reverse_nil; simpl; rewrite map_empty_union. }
  csimpl in Hnd. apply NoDup_cons in Hnd as [Hni Hnd]. apply Forall_cons in Hk as [[Hw HM] Hk]. simpl in Hw, HM, Hni.
  destruct (models_get_with_insert None 1 t M kv id) as (p & t1 & M1 & Hg & HM1 & Hm1 & _ & Hi1 & ->);
    [ lia | done | done | left; simpl in Hsize; lia | ].
  destruct (models_store _ _ _ _ _ _ _ (Some db) Hm1 HM1) as (t2 & Hs & Hm2 & _ & Hi2).
  destruct (IH t2 (<[id := p]> M) _ Hm2 Hnd) as (t' & M' & Hr & Hm').
  { apply Forall_forall. intros b Hb. eapply Forall_forall in Hk as [Hw' HM']; [ | exact Hb ].
    split; [ done | ]. rewrite lookup_insert_ne; [ done | ]. intros ->. apply Hni. apply list_elem_of_fmap. by exists b. }
  { rewrite Hi2, Hi1, map_size_insert_None by done. simpl in Hsize. lia. }
  exists t', M'. split.
  - cbn [add_backups]. unfold add_backup_store. rewrite (models_get _ _ _ _ _ id Hm), HM. cbn [mbind res_bind].
    rewrite bool_decide_true by done. cbn [ASSERT mbind res_bind]. rewrite Hg. cbn [mbind res_bind fst snd]. by rewrite Hs.
  - rewrite reverse_cons, fmap_app, list_to_map_app. simpl. rewrite insert_insert_eq in Hm'.
    rewrite <- map_union_assoc. by rewrite insert_empty, <- insert_union_singleton_l.
Qed.

(** The backups a server keeps, once there is memory for its table: up to [n] databases under different numbers can
    be added to a manager for [n], and each is found under its number. *)
Theorem backup_stores_found n bs id db :
  0 < n -> n + n < 2 ^ 31 -> NoDup bs.*1 -> Forall (fun b => in_width 63 b.1) bs -> Z.of_nat (length bs) <= n -> (id, db) ∈ bs ->
  exists t t', new_store_map true n = Ret t /\ add_backups t bs = Ret t' /\ get_backed_store t' id = Ret (Some db).
Proof.
  intros Hn Hint Hnd Hk Hlen Hin. destruct (models_new (None : option N) 1 n) as (t & Ht & Hm & Hi); [ lia | done | | ].
  { change (Z.of_nat 1) with 1. rewrite Z.div_1_r. by destruct (n <=? 1). }
  destruct (add_backups_spec bs t ∅ ∅ Hm Hnd) as (t' & M' & Hr & Hm').
  { apply Forall_forall. intros b Hb. eapply Forall_forall in Hk; [ | exact Hb ]. by rewrite lookup_empty. }
  { rewrite map_size_empty, Hi. destruct (n <=? Z.of_nat 1); [ lia | change (Z.of_nat 1) with 1; rewrite Z.div_1_r; lia ]. }
  exists t, t'. split_and!; [ done | done | ]. unfold get_backed_store. rewrite (models_get _ _ _ _ _ id Hm').
  cbn [mbind res_bind].
  assert ((list_to_map ((fun b => (b.1, Some b.2)) <$> reverse bs) ∪ ∅ : gmap Z (option N)) !! id = Some (Some db)) as Hkv.
  { rewrite map_union_empty. apply elem_of_list_to_map_1.
    - rewrite <- list_fmap_compose. change (NoDup (fst <$> reverse bs)). rewrite fmap_reverse. by rewrite reverse_Permutation.
    - apply list_elem_of_fmap. exists (id, db). split; [ done | by apply elem_of_reverse ]. }
  rewrite (mo_data _ _ _ _ _ Hm' id) in Hkv. apply bind_Some in Hkv as (p & -> & Hd). by apply load_data.
Qed.

Lemma backup_stores_found_witness :
  exists t t', new_store_map true 4 = Ret t /\ add_backups t [(3, 30%N); (7, 70%N); (1, 10%N); (2, 20%N)] = Ret t' /\
    get_backed_store t' 7 = Ret (Some 70%N).
Proof.
  apply (backup_stores_found 4 [(3, 30%N); (7, 70%N); (1, 10%N); (2, 20%N)] 7 70%N).
  - lia.
  - done.
  - vm_compute. repeat constructor; set_solver.
  - repeat constructor; done.
  - simpl. lia.
  - by right; left.
Defined.
