(* ===== verification/Varint.v ===== *)
(** * Varint: variable-length integers and serializers of DrTM+H

    src/sys/drtmh/src/core/utils/varint.h and serializer.h: a 32-bit number as
    up to five bytes of seven bits each, signed numbers by zig-zag encoding,
    and other types as their bytes in memory. A buffer is the list of bytes
    from a pointer on. *)

From stdpp Require Import list.
From S2P Require Import Prelude.

(** ** varint.h *)

(** read_uvint32_slow from the byte that [n] others may follow; the source has
    the five steps unrolled. The last byte is not masked. *)
Fixpoint read_slow_from (n : nat) (buf : list Z) (result : Z) : res (Z * list Z) :=
  match buf with
  | [] => UB
  | b :: p =>
      let sh := 28 - 7 * Z.of_nat n in
      let result := Z.lor result (u32 (Z.shiftl (if (n =? 0)%nat then b else Z.land b 0x7F) sh)) in
      if b <? 0x80 then Ret (result, p)
      else match n with
           | O => Exit 134 0 (* ALWAYS_ASSERT(false) *)
           | S n => read_slow_from n p result
           end
  end.

Definition read_uvint32_slow (buf : list Z) : res (Z * list Z) := read_slow_from 4 buf 0.

Definition read_uvint32 (buf : list Z) : res (Z * list Z) :=
  match buf with
  | [] => UB
  | b :: p => if b <? 0x80 then Ret (b, p) else read_uvint32_slow buf
  end.

(** [None] is nullptr. After the fifth byte the number is returned in any case. *)
Fixpoint failsafe_slow_from (n : nat) (buf : list Z) (nbytes : nat) (result : Z) : res (option (Z * list Z)) :=
  match nbytes with
  | O => Ret None
  | S nbytes =>
      match buf with
      | [] => UB
      | b :: p =>
          let sh := 28 - 7 * Z.of_nat n in
          let result := Z.lor result (u32 (Z.shiftl (if (n =? 0)%nat then b else Z.land b 0x7F) sh)) in
          if b <? 0x80 then Ret (Some (result, p))
          else match n with
               | O => Ret (Some (result, p))
               | S n => failsafe_slow_from n p nbytes result
               end
      end
  end.

Definition failsafe_read_uvint32_slow (buf : list Z) (nbytes : nat) : res (option (Z * list Z)) :=
  failsafe_slow_from 4 buf nbytes 0.

Definition failsafe_read_uvint32 (stream : list Z) (nbytes : nat) : res (option (Z * list Z)) :=
  match nbytes with
  | O => Ret None
  | S _ =>
      match stream with
      | [] => UB
      | ch :: p => if ch <? 0x80 then Ret (Some (ch, p)) else failsafe_read_uvint32_slow stream nbytes
      end
  end.

(** The bytes that are skipped are copied to rawv: the second result. *)
Fixpoint skip_from (n : nat) (stream : list Z) : res (nat * list Z) :=
  match stream with
  | [] => UB
  | b :: p =>
      if b <? 0x80 then Ret (1%nat, [b])
      else match n with
           | O => Exit 134 0
           | S n => r ← skip_from n p; Ret (S r.1, b :: r.2)
           end
  end.

Definition skip_uvint32 (stream : list Z) : res (nat * list Z) := skip_from 4 stream.

(** 0 when the bytes run out. *)
Fixpoint failsafe_skip_from (n : nat) (count : nat) (stream : list Z) (nbytes : nat) : res nat :=
  match nbytes with
  | O => Ret 0%nat
  | S nbytes =>
      match stream with
      | [] => UB
      | b :: p =>
          if b <? 0x80 then Ret (S count)
          else match n with
               | O => Exit 134 0
               | S n => failsafe_skip_from n (S count) p nbytes
               end
      end
  end.

Definition failsafe_skip_uvint32 (stream : list Z) (nbytes : nat) : res nat := failsafe_skip_from 4 0 stream nbytes.

(** The bytes written; a 32-bit number takes at most five turns. *)
Fixpoint write_from (fuel : nat) (value : Z) : list Z :=
  match fuel with
  | O => []
  | S fuel =>
      if 0x7F <? value then Z.lor (Z.land (u8 value) 0x7F) 0x80 :: write_from fuel (Z.shiftr value 7)
      else [Z.land (u8 value) 0x7F]
  end.

Definition write_uvint32 (value : Z) : list Z := write_from 5 value.

Definition size_uvint32 (value : Z) : nat :=
  if value <=? 0x7F then 1%nat
  else if value <=? Z.lor (Z.shiftl 0x7F 7) 0x7F then 2%nat
  else if value <=? Z.lor (Z.lor (Z.shiftl 0x7F 14) (Z.shiftl 0x7F 7)) 0x7F then 3%nat
  else if value <=? Z.lor (Z.lor (Z.lor (Z.shiftl 0x7F 21) (Z.shiftl 0x7F 14)) (Z.shiftl 0x7F 7)) 0x7F then 4%nat
  else 5%nat.

(** ** serializer.h *)

(** A signed 32-bit number as its two's complement, and back. *)
Definition s32 (v : Z) : Z := if v <? 2 ^ 31 then v else v - 2 ^ 32.

(** Zig-zag encoding: serializer<int32_t,true>::encode and decode *)
Definition encode (value : Z) : Z := u32 (Z.lxor (value * 2) (Z.shiftr value 31)).
Definition decode (value : Z) : Z := s32 (Z.lxor (Z.shiftr value 1) (u32 (- Z.land value 1))).

Record serializer (T : Type) : Type := {
  sz_write : T -> list Z;
  sz_read : list Z -> res (T * list Z);
  sz_failsafe_read : list Z -> nat -> res (option (T * list Z));
  sz_nbytes : T -> nat;
  sz_skip : list Z -> res (nat * list Z);
  sz_failsafe_skip : list Z -> nat -> res nat;
  sz_max_nbytes : nat
}.
Arguments sz_write {T} _ _.
Arguments sz_read {T} _ _.
Arguments sz_failsafe_read {T} _ _ _.
Arguments sz_nbytes {T} _ _.
Arguments sz_skip {T} _ _.
Arguments sz_failsafe_skip {T} _ _ _.
Arguments sz_max_nbytes {T} _.

(** serializer<uint32_t, true> *)
Definition serializer_u32 : serializer Z :=
  {| sz_write := write_uvint32; sz_read := read_uvint32; sz_failsafe_read := failsafe_read_uvint32;
     sz_nbytes := size_uvint32; sz_skip := skip_uvint32; sz_failsafe_skip := failsafe_skip_uvint32;
     sz_max_nbytes := 5 |}.

Definition read_i32 (buf : list Z) : res (Z * list Z) :=
  r ← read_uvint32 buf; Ret (decode r.1, r.2).

Definition failsafe_read_i32 (buf : list Z) (nbytes : nat) : res (option (Z * list Z)) :=
  r ← failsafe_read_uvint32 buf nbytes;
  match r with Some r => Ret (Some (decode r.1, r.2)) | None => Ret None end.

(** serializer<int32_t, true> *)
Definition serializer_i32 : serializer Z :=
  {| sz_write := fun obj => sz_write serializer_u32 (encode obj);
     sz_read := read_i32; sz_failsafe_read := failsafe_read_i32;
     sz_nbytes := fun obj => sz_nbytes serializer_u32 (encode obj);
     sz_skip := skip_uvint32; sz_failsafe_skip := failsafe_skip_uvint32; sz_max_nbytes := 5 |}.

(** serializer<T, Compress> for an unsigned T of [n] bytes *)
Definition serializer_raw (n : nat) : serializer Z :=
  {| sz_write := le_bytes n;
     sz_read := fun buf => if (n <=? length buf)%nat then Ret (le_read n buf 0, drop n buf) else UB;
     sz_failsafe_read := fun buf nbytes =>
       if (nbytes <? n)%nat then Ret None
       else if (n <=? length buf)%nat then Ret (Some (le_read n buf 0, drop n buf)) else UB;
     sz_nbytes := fun _ => n;
     sz_skip := fun stream => if (n <=? length stream)%nat then Ret (n, take n stream) else UB;
     sz_failsafe_skip := fun stream nbytes =>
       if (nbytes <? n)%nat then Ret 0%nat else if (n <=? length stream)%nat then Ret n else UB;
     sz_max_nbytes := n |}.

(** ** Laws *)

(** What readers rely on, for the objects in [dom]: reading and skipping undo
    writing and leave the rest of the buffer, the size is announced right, and
    the failsafe versions do the same when all bytes are there and report
    failure when some are missing, without touching bytes that are not there. *)
Record serializer_ok {T} (dom : T -> Prop) (s : serializer T) : Prop := {
  so_size : forall x, dom x -> length (sz_write s x) = sz_nbytes s x /\ (sz_nbytes s x <= sz_max_nbytes s)%nat;
  so_read : forall x rest, dom x -> sz_read s (sz_write s x ++ rest) = Ret (x, rest);
  so_failsafe : forall x rest nbytes, dom x -> (sz_nbytes s x <= nbytes)%nat ->
    sz_failsafe_read s (sz_write s x ++ rest) nbytes = Ret (Some (x, rest));
  so_failsafe_short : forall x nbytes, dom x -> (nbytes < sz_nbytes s x)%nat ->
    sz_failsafe_read s (take nbytes (sz_write s x)) nbytes = Ret None;
  so_skip : forall x rest, dom x -> sz_skip s (sz_write s x ++ rest) = Ret (sz_nbytes s x, sz_write s x);
  so_failsafe_skip : forall x rest nbytes, dom x -> (sz_nbytes s x <= nbytes)%nat ->
    sz_failsafe_skip s (sz_write s x ++ rest) nbytes = Ret (sz_nbytes s x);
  so_failsafe_skip_short : forall x nbytes, dom x -> (nbytes < sz_nbytes s x)%nat ->
    sz_failsafe_skip s (take nbytes (sz_write s x)) nbytes = Ret 0%nat
}.

(** ** Bytes of a number *)

Lemma land_7F b : Z.land b 0x7F = b mod 128.
Proof. apply (Z.land_ones b 7). lia. Qed.

Lemma last_byte v : 0 <= v <= 127 -> Z.land (u8 v) 0x7F = v.
Proof. intros Hv. rewrite wrap_small by (unfold in_width; lia). rewrite land_7F. apply Z.mod_small. lia. Qed.

Lemma more_byte v : 0 <= v -> Z.lor (Z.land (u8 v) 0x7F) 0x80 = 128 + v mod 128.
Proof.
  intros Hv. rewrite land_7F. unfold wrap. change (2 ^ 8) with 256.
  rewrite (Z.mod_mod_divide v 256 128) by (by exists 2).
  rewrite Z.lor_comm. apply (lor_disjoint_add 128 (v mod 128) 7); [ lia | done | ].
  apply Z.mod_pos_bound. lia.
Qed.

(** The rest of a number from some byte on: [v], of which the low bits go to
    position [28 - 7 n]. *)
Definition fits (n : nat) (v : Z) : Prop := (n <= 4)%nat /\ 0 <= v < 2 ^ (4 + 7 * Z.of_nat n).

Lemma fits_next n v : fits (S n) v -> fits n (Z.shiftr v 7).
Proof.
  intros [Hn Hv]. split; [ lia | ]. rewrite Z.shiftr_div_pow2 by lia. change (2 ^ 7) with 128.
  replace (4 + 7 * Z.of_nat (S n)) with (4 + 7 * Z.of_nat n + 7) in Hv by lia.
  rewrite Z.pow_add_r in Hv by lia. change (2 ^ 7) with 128 in Hv.
  split; [ apply Z.div_pos; lia | apply Z.div_lt_upper_bound; lia ].
Qed.

Lemma fits_more n v : fits n v -> 127 < v -> exists n', n = S n'.
Proof. intros [Hn Hv] Hlt. destruct n as [| n]; [ simpl in Hv; lia | by exists n ]. Qed.

(** One byte: the digit [d] is added to what was read so far. *)
Lemma add_digit n r d : (n <= 4)%nat -> 0 <= r < 2 ^ (28 - 7 * Z.of_nat n) -> 0 <= d < 128 ->
  (n = 0%nat -> d < 16) ->
  Z.lor r (u32 (Z.shiftl d (28 - 7 * Z.of_nat n))) = r + d * 2 ^ (28 - 7 * Z.of_nat n).
Proof.
  intros Hn Hr Hd H0. set (sh := 28 - 7 * Z.of_nat n) in *. assert (0 <= sh <= 28) as Hsh by lia.
  rewrite Z.shiftl_mul_pow2 by lia.
  assert (in_width 32 (d * 2 ^ sh)) as Hw.
  { unfold in_width. split; [ apply Z.mul_nonneg_nonneg; lia | ].
    destruct n as [| n].
    - unfold sh. change (28 - 7 * Z.of_nat 0) with 28. specialize (H0 eq_refl). lia.
    - assert (2 ^ sh <= 2 ^ 21) by (apply Z.pow_le_mono_r; lia). nia. }
  rewrite wrap_small by done. rewrite Z.lor_comm.
  rewrite (lor_disjoint_add _ _ sh); [ lia | lia | | done ]. apply Z.mod_mul, Z.pow_nonzero; lia.
Qed.

Lemma digit_bound n r d : (S n <= 4)%nat -> 0 <= r < 2 ^ (28 - 7 * Z.of_nat (S n)) -> 0 <= d < 128 ->
  0 <= r + d * 2 ^ (28 - 7 * Z.of_nat (S n)) < 2 ^ (28 - 7 * Z.of_nat n).
Proof.
  intros Hn Hr Hd. replace (28 - 7 * Z.of_nat n) with (28 - 7 * Z.of_nat (S n) + 7) by lia.
  rewrite Z.pow_add_r by lia. change (2 ^ 7) with 128. nia.
Qed.

Lemma write_last n v : 0 <= v <= 127 -> write_from (S n) v = [v].
Proof. intros Hv. cbn [write_from]. destruct (Z.ltb_spec 127 v); [ lia | ]. by rewrite last_byte. Qed.

Lemma write_more n v : 127 < v -> write_from (S n) v = (128 + v mod 128) :: write_from n (Z.shiftr v 7).
Proof. intros Hv. cbn [write_from]. destruct (Z.ltb_spec 127 v); [ | lia ]. by rewrite more_byte by lia. Qed.

Lemma split_value n v r : (S n <= 4)%nat ->
  r + (v mod 128) * 2 ^ (28 - 7 * Z.of_nat (S n)) + Z.shiftr v 7 * 2 ^ (28 - 7 * Z.of_nat n) =
  r + v * 2 ^ (28 - 7 * Z.of_nat (S n)).
Proof.
  intros Hn. rewrite Z.shiftr_div_pow2 by lia. change (2 ^ 7) with 128.
  replace (28 - 7 * Z.of_nat n) with (28 - 7 * Z.of_nat (S n) + 7) by lia.
  rewrite Z.pow_add_r by lia. change (2 ^ 7) with 128. pose proof (Z.div_mod v 128 ltac:(lia)). nia.
Qed.

Lemma byte_not_last v : (128 + v mod 128 <? 0x80) = false.
Proof. apply Z.ltb_ge. pose proof (Z.mod_pos_bound v 128). lia. Qed.

Lemma byte_digit v : Z.land (128 + v mod 128) 0x7F = v mod 128.
Proof.
  rewrite land_7F. replace (128 + v mod 128) with (v mod 128 + 1 * 128) by lia.
  rewrite Z.mod_add by lia. by apply Z.mod_mod.
Qed.

(** The digit of a last byte. *)
Lemma last_digit n v : fits n v -> v <= 127 -> (if (n =? 0)%nat then v else Z.land v 0x7F) = v.
Proof. intros [_ Hv] Hle. destruct n; [ done | ]. simpl. rewrite land_7F. apply Z.mod_small. lia. Qed.

Lemma read_slow_write n : forall v r rest, fits n v -> 0 <= r < 2 ^ (28 - 7 * Z.of_nat n) ->
  read_slow_from n (write_from (S n) v ++ rest) r = Ret (r + v * 2 ^ (28 - 7 * Z.of_nat n), rest).
Proof.
  induction n as [| n IH]; intros v r rest Hf Hr; pose proof Hf as [Hn Hv];
    destruct (decide (v <= 127)) as [Hle | Hgt].
  1, 3: rewrite write_last by lia; cbn [app read_slow_from]; rewrite (last_digit _ _ Hf Hle);
    destruct (Z.ltb_spec v 0x80); [ | lia ]; rewrite add_digit; [ done | lia | done | lia | first [ lia | intros _; simpl in Hv; lia ] ].
  - destruct (fits_more _ _ Hf) as [n' [=]]. lia.
  - rewrite write_more by lia. cbn [app read_slow_from]. rewrite byte_not_last.
    cbn [Nat.eqb]. rewrite byte_digit. pose proof (Z.mod_pos_bound v 128 ltac:(lia)) as Hd.
    rewrite add_digit by (lia || done). rewrite IH; [ | by apply fits_next | by apply digit_bound ].
    by rewrite split_value by lia.
Qed.

Lemma failsafe_slow_write n : forall v r rest nbytes, fits n v -> 0 <= r < 2 ^ (28 - 7 * Z.of_nat n) ->
  (length (write_from (S n) v) <= nbytes)%nat ->
  failsafe_slow_from n (write_from (S n) v ++ rest) nbytes r = Ret (Some (r + v * 2 ^ (28 - 7 * Z.of_nat n), rest)).
Proof.
  induction n as [| n IH]; intros v r rest nbytes Hf Hr Hlen; pose proof Hf as [Hn Hv];
    destruct (decide (v <= 127)) as [Hle | Hgt].
  1, 3: rewrite write_last in Hlen |- * by lia; destruct nbytes as [| nbytes]; [ simpl in Hlen; lia | ];
    cbn [app failsafe_slow_from]; rewrite (last_digit _ _ Hf Hle);
    destruct (Z.ltb_spec v 0x80); [ | lia ]; rewrite add_digit; [ done | lia | done | lia | first [ lia | intros _; simpl in Hv; lia ] ].
  - destruct (fits_more _ _ Hf) as [n' [=]]. lia.
  - rewrite write_more in Hlen |- * by lia. destruct nbytes as [| nbytes]; [ simpl in Hlen; lia | ].
    cbn [app failsafe_slow_from]. rewrite byte_not_last.
    cbn [Nat.eqb]. rewrite byte_digit. pose proof (Z.mod_pos_bound v 128 ltac:(lia)) as Hd.
    rewrite add_digit by (lia || done). rewrite IH; [ | by apply fits_next | by apply digit_bound | cbn [length] in Hlen; lia ].
    by rewrite split_value by lia.
Qed.

Lemma failsafe_slow_short n : forall v r nbytes, fits n v -> (nbytes < length (write_from (S n) v))%nat ->
  failsafe_slow_from n (take nbytes (write_from (S n) v)) nbytes r = Ret None.
Proof.
  induction n as [| n IH]; intros v r nbytes Hf Hlen; (destruct nbytes as [| nbytes]; [ done | ]);
    pose proof Hf as [Hn Hv]; destruct (decide (v <= 127)) as [Hle | Hgt].
  1, 3: rewrite write_last in Hlen by lia; simpl in Hlen; lia.
  - destruct (fits_more _ _ Hf) as [n' [=]]. lia.
  - rewrite write_more in Hlen |- * by lia. cbn [take failsafe_slow_from]. rewrite byte_not_last.
    apply IH; [ by apply fits_next | cbn [length] in Hlen; lia ].
Qed.

Lemma skip_write n : forall v rest, fits n v ->
  skip_from n (write_from (S n) v ++ rest) = Ret (length (write_from (S n) v), write_from (S n) v).
Proof.
  induction n as [| n IH]; intros v rest Hf; pose proof Hf as [Hn Hv];
    destruct (decide (v <= 127)) as [Hle | Hgt].
  1, 3: rewrite write_last by lia; cbn [app skip_from]; by destruct (Z.ltb_spec v 0x80); [ | lia ].
  - destruct (fits_more _ _ Hf) as [n' [=]]. lia.
  - rewrite write_more by lia. cbn [app skip_from]. rewrite byte_not_last. rewrite IH by by apply fits_next. done.
Qed.

Lemma failsafe_skip_write n : forall v rest nbytes count, fits n v -> (length (write_from (S n) v) <= nbytes)%nat ->
  failsafe_skip_from n count (write_from (S n) v ++ rest) nbytes = Ret (count + length (write_from (S n) v))%nat.
Proof.
  induction n as [| n IH]; intros v rest nbytes count Hf Hlen; pose proof Hf as [Hn Hv];
    destruct (decide (v <= 127)) as [Hle | Hgt].
  1, 3: rewrite write_last in Hlen |- * by lia; destruct nbytes as [| nbytes]; [ simpl in Hlen; lia | ];
    cbn [app failsafe_skip_from]; destruct (Z.ltb_spec v 0x80); [ f_equal; simpl; lia | lia ].
  - destruct (fits_more _ _ Hf) as [n' [=]]. lia.
  - rewrite write_more in Hlen |- * by lia. destruct nbytes as [| nbytes]; [ simpl in Hlen; lia | ].
    cbn [app failsafe_skip_from]. rewrite byte_not_last. rewrite IH; [ f_equal; cbn [length]; lia | by apply fits_next | cbn [length] in Hlen; lia ].
Qed.

Lemma failsafe_skip_short n : forall v nbytes count, fits n v -> (nbytes < length (write_from (S n) v))%nat ->
  failsafe_skip_from n count (take nbytes (write_from (S n) v)) nbytes = Ret 0%nat.
Proof.
  induction n as [| n IH]; intros v nbytes count Hf Hlen; (destruct nbytes as [| nbytes]; [ done | ]);
    pose proof Hf as [Hn Hv]; destruct (decide (v <= 127)) as [Hle | Hgt].
  1, 3: rewrite write_last in Hlen by lia; simpl in Hlen; lia.
  - destruct (fits_more _ _ Hf) as [n' [=]]. lia.
  - rewrite write_more in Hlen |- * by lia. cbn [take failsafe_skip_from]. rewrite byte_not_last.
    apply IH; [ by apply fits_next | cbn [length] in Hlen; lia ].
Qed.

(** ** The serializers are correct *)

Lemma shiftr7_lt c v : (c <? Z.shiftr v 7) = (128 * c + 127 <? v).
Proof.
  rewrite Z.shiftr_div_pow2 by lia. change (2 ^ 7) with 128.
  pose proof (Z.div_mod v 128 ltac:(lia)). pose proof (Z.mod_pos_bound v 128 ltac:(lia)).
  destruct (Z.ltb_spec c (v / 128)), (Z.ltb_spec (128 * c + 127) v); lia.
Qed.

Lemma length_write v : in_width 32 v -> length (write_uvint32 v) = size_uvint32 v.
Proof.
  intros Hv. unfold write_uvint32, size_uvint32. cbn [write_from]. rewrite !shiftr7_lt.
  change (Z.lor (Z.shiftl 127 7) 127) with 16383.
  change (Z.lor (Z.lor (Z.shiftl 127 14) (Z.shiftl 127 7)) 127) with 2097151.
  change (Z.lor (Z.lor (Z.lor (Z.shiftl 127 21) (Z.shiftl 127 14)) (Z.shiftl 127 7)) 127) with 268435455.
  rewrite !Z.leb_antisym. unfold in_width in Hv.
  destruct (Z.ltb_spec 127 v); [ | done ]. cbn [negb length]. f_equal.
  destruct (Z.ltb_spec (128 * 127 + 127) v), (Z.ltb_spec 16383 v); try lia; cbn [negb length]; [ | done ]. f_equal.
  destruct (Z.ltb_spec (128 * (128 * 127 + 127) + 127) v), (Z.ltb_spec 2097151 v); try lia; cbn [negb length]; [ | done ]. f_equal.
  destruct (Z.ltb_spec (128 * (128 * (128 * 127 + 127) + 127) + 127) v), (Z.ltb_spec 268435455 v); try lia; cbn [negb length]; [ | done ].
  f_equal. destruct (Z.ltb_spec (128 * (128 * (128 * (128 * 127 + 127) + 127) + 127) + 127) v); [ lia | done ].
Qed.

Lemma fits_u32 v : in_width 32 v -> fits 4 v.
Proof. intros Hv. split; [ lia | exact Hv ]. Qed.

Lemma first_byte v rest : in_width 32 v ->
  exists b p, write_uvint32 v ++ rest = b :: p /\ (b <? 0x80 = true -> b = v /\ p = rest).
Proof.
  intros [Hv _]. unfold write_uvint32. destruct (decide (v <= 127)) as [Hle | Hgt].
  - rewrite write_last by lia. by exists v, rest.
  - rewrite write_more by lia. eexists _, _. split; [ reflexivity | ]. by rewrite byte_not_last.
Qed.

Lemma serializer_u32_ok : serializer_ok (in_width 32) serializer_u32.
Proof.
  assert (forall v, in_width 32 v -> 0 <= 0 < 2 ^ (28 - 7 * Z.of_nat 4)) as H0 by done.
  split; cbn [sz_write sz_read sz_failsafe_read sz_nbytes sz_skip sz_failsafe_skip sz_max_nbytes serializer_u32].
  - intros v Hv. split; [ by apply length_write | ]. unfold size_uvint32. repeat case_match; lia.
  - intros v rest Hv. unfold read_uvint32. pose proof (read_slow_write 4 v 0 rest (fits_u32 v Hv) (H0 v Hv)) as Hs.
    change (write_from 5 v) with (write_uvint32 v) in Hs.
    destruct (first_byte v rest Hv) as (b & p & Heq & Hb). rewrite Heq in Hs |- *.
    destruct (b <? 0x80) eqn:Hlt; [ by destruct (Hb eq_refl) as [-> ->] | ].
    unfold read_uvint32_slow. rewrite Hs. simpl. by rewrite Z.mul_1_r.
  - intros v rest nbytes Hv Hn. unfold failsafe_read_uvint32. rewrite <- length_write in Hn by done.
    pose proof (failsafe_slow_write 4 v 0 rest nbytes (fits_u32 v Hv) (H0 v Hv) Hn) as Hs.
    change (write_from 5 v) with (write_uvint32 v) in Hs.
    destruct (first_byte v rest Hv) as (b & p & Heq & Hb). rewrite Heq in Hs |- *.
    destruct nbytes as [| nbytes]; [ done | ].
    destruct (b <? 0x80) eqn:Hlt; [ by destruct (Hb eq_refl) as [-> ->] | ].
    unfold failsafe_read_uvint32_slow. rewrite Hs. simpl. by rewrite Z.mul_1_r.
  - intros v nbytes Hv Hn. rewrite <- length_write in Hn by done. unfold failsafe_read_uvint32.
    destruct nbytes as [| nbytes]; [ done | ].
    pose proof (failsafe_slow_short 4 v 0 (S nbytes) (fits_u32 v Hv) Hn) as Hs.
    change (write_from 5 v) with (write_uvint32 v) in Hs.
    destruct (decide (v <= 127)) as [Hle | Hgt].
    { unfold write_uvint32 in Hn. destruct Hv. rewrite write_last in Hn by lia. simpl in Hn. lia. }
    unfold write_uvint32 in *. rewrite write_more in * by lia. cbn [take] in *. by rewrite byte_not_last.
  - intros v rest Hv. unfold skip_uvint32. rewrite <- length_write by done. by apply (skip_write 4 v rest), fits_u32.
  - intros v rest nbytes Hv Hn. rewrite <- length_write in * by done.
    apply (failsafe_skip_write 4 v rest nbytes 0); [ by apply fits_u32 | done ].
  - intros v nbytes Hv Hn. rewrite <- length_write in * by done.
    apply (failsafe_skip_short 4 v nbytes 0); [ by apply fits_u32 | done ].
Qed.

(** Zig-zag encoding maps 0, -1, 1, -2, ... to 0, 1, 2, 3, ... *)
Lemma encode_value v : - 2 ^ 31 <= v < 2 ^ 31 -> encode v = if v <? 0 then -2 * v - 1 else 2 * v.
Proof.
  intros Hv. unfold encode. destruct (Z.ltb_spec v 0) as [Hneg | Hpos].
  - assert (Z.shiftr v 31 = -1) as ->.
    { rewrite Z.shiftr_div_pow2 by lia. symmetry. apply (Z.div_unique v (2 ^ 31) (-1) (v + 2 ^ 31)); lia. }
    rewrite Z.lxor_m1_r. unfold Z.lnot. rewrite wrap_small; unfold in_width; lia.
  - assert (Z.shiftr v 31 = 0) as ->. { rewrite Z.shiftr_div_pow2 by lia. apply Z.div_small. lia. }
    rewrite Z.lxor_0_r, wrap_small; unfold in_width; lia.
Qed.

Lemma lxor_ones w : in_width 32 w -> Z.lxor w (2 ^ 32 - 1) = 2 ^ 32 - 1 - w.
Proof.
  intros Hw. pose proof (proj1 (in_width_bits 32 w ltac:(lia)) Hw) as Hhigh.
  change (2 ^ 32 - 1) with (Z.ones 32). rewrite Z.sub_nocarry_ldiff.
  - apply Z.bits_inj'. intros i Hi. rewrite Z.lxor_spec, Z.ldiff_spec.
    destruct (decide (i < 32)).
    + rewrite Z.ones_spec_low by lia. by destruct (Z.testbit w i).
    + rewrite Z.ones_spec_high by lia. rewrite (Hhigh i) by lia. done.
  - apply Z.bits_inj'. intros i Hi. rewrite Z.ldiff_spec, Z.bits_0.
    destruct (decide (i < 32)); [ rewrite Z.ones_spec_low by lia; by rewrite andb_false_r | ].
    by rewrite (Hhigh i) by lia.
Qed.

Lemma decode_encode v : - 2 ^ 31 <= v < 2 ^ 31 -> decode (encode v) = v /\ in_width 32 (encode v).
Proof.
  intros Hv. rewrite encode_value by done. unfold decode, s32.
  change (Z.land ?x 1) with (Z.land x (Z.ones 1)). rewrite Z.land_ones, Z.shiftr_div_pow2 by lia.
  change (2 ^ 1) with 2. destruct (Z.ltb_spec v 0) as [Hneg | Hpos].
  - assert ((-2 * v - 1) / 2 = - v - 1) as -> by (symmetry; apply (Z.div_unique _ _ _ 1); lia).
    assert ((-2 * v - 1) mod 2 = 1) as -> by (symmetry; apply (Z.mod_unique _ _ (- v - 1)); lia).
    change (u32 (-1)) with (2 ^ 32 - 1). rewrite lxor_ones by (unfold in_width; lia).
    destruct (Z.ltb_spec (2 ^ 32 - 1 - (- v - 1)) (2 ^ 31)); unfold in_width; lia.
  - assert (2 * v / 2 = v) as -> by (rewrite Z.mul_comm; by apply Z.div_mul).
    assert ((2 * v) mod 2 = 0) as -> by (rewrite Z.mul_comm; by apply Z.mod_mul).
    change (u32 (- 0)) with 0. rewrite Z.lxor_0_r. destruct (Z.ltb_spec v (2 ^ 31)); unfold in_width; lia.
Qed.

Lemma serializer_i32_ok : serializer_ok (fun v => - 2 ^ 31 <= v < 2 ^ 31) serializer_i32.
Proof.
  destruct serializer_u32_ok as [H1 H2 H3 H4 H5 H6 H7].
  split; cbn [sz_write sz_read sz_failsafe_read sz_nbytes sz_skip sz_failsafe_skip sz_max_nbytes serializer_i32];
    intros v; try intros rest; intros; destruct (decode_encode v) as [Hd He]; try done.
  - by apply H1.
  - unfold read_i32. pose proof (H2 (encode v) rest He) as Hr. simpl in Hr. cbn [sz_write serializer_u32]. rewrite Hr.
    cbn [mbind res_bind fst snd]. by rewrite Hd.
  - unfold failsafe_read_i32. pose proof (H3 (encode v) rest nbytes He) as Hr. simpl in Hr. cbn [sz_write serializer_u32].
    rewrite Hr by done. cbn [mbind res_bind fst snd]. by rewrite Hd.
  - unfold failsafe_read_i32. pose proof (H4 (encode v) rest He) as Hr. simpl in Hr. cbn [sz_write serializer_u32].
    by rewrite Hr.
  - by apply H5.
  - by apply H6.
  - by apply H7.
Qed.

Lemma serializer_raw_ok n : serializer_ok (fun v => 0 <= v < 256 ^ Z.of_nat n) (serializer_raw n).
Proof.
  assert (forall v rest, (n <=? length (le_bytes n v ++ rest))%nat = true) as Hle.
  { intros v rest. apply Nat.leb_le. rewrite length_app, length_le_bytes. lia. }
  assert (forall v rest, 0 <= v < 256 ^ Z.of_nat n -> le_read n (le_bytes n v ++ rest) 0 = v) as Hread
    by (intros v rest; apply le_read_le_bytes).
  split; cbn [sz_write sz_read sz_failsafe_read sz_nbytes sz_skip sz_failsafe_skip sz_max_nbytes serializer_raw].
  - intros v Hv. by rewrite length_le_bytes.
  - intros v rest Hv. rewrite Hle. rewrite (Hread v rest Hv).
    by rewrite drop_app_length' by by rewrite length_le_bytes.
  - intros v rest nbytes Hv Hn. destruct (Nat.ltb_spec nbytes n); [ lia | ]. rewrite Hle.
    rewrite (Hread v rest Hv). by rewrite drop_app_length' by by rewrite length_le_bytes.
  - intros v nbytes Hv Hn. by destruct (Nat.ltb_spec nbytes n); [ | lia ].
  - intros v rest Hv. rewrite Hle. by rewrite take_app_length' by by rewrite length_le_bytes.
  - intros v rest nbytes Hv Hn. destruct (Nat.ltb_spec nbytes n); [ lia | ]. by rewrite Hle.
  - intros v nbytes Hv Hn. by destruct (Nat.ltb_spec nbytes n); [ | lia ].
Qed.

(** ** Theorems *)

(** C26: the serializers for 32-bit numbers, unsigned and signed, and for numbers of
    any width as they lie in memory, satisfy the laws of a serializer: reading
    and skipping undo writing, sizes are announced right, and the failsafe
    versions report missing bytes instead of reading beyond them. *)
Theorem serializers_correct n :
  serializer_ok (in_width 32) serializer_u32 /\
  serializer_ok (fun v => - 2 ^ 31 <= v < 2 ^ 31) serializer_i32 /\
  serializer_ok (fun v => 0 <= v < 256 ^ Z.of_nat n) (serializer_raw n).
Proof. split_and!; [ apply serializer_u32_ok | apply serializer_i32_ok | apply serializer_raw_ok ]. Qed.

Lemma failsafe_slow_safe n : forall buf nbytes r, (nbytes <= length buf)%nat ->
  exists o, failsafe_slow_from n buf nbytes r = Ret o.
Proof.
  induction n as [| n IH]; intros buf [| nbytes] r Hn; try by eexists.
  - destruct buf as [| b p]; [ simpl in Hn; lia | ]. simpl. destruct (b <? 128); by eexists.
  - destruct buf as [| b p]; [ simpl in Hn; lia | ]. cbn [failsafe_slow_from].
    destruct (b <? 0x80); [ by eexists | apply IH; simpl in Hn; lia ].
Qed.

(** Failsafe_read_uvint32 may be given any bytes: it returns, and reads none
    beyond the [nbytes] it is told of. But it takes five bytes that all
    announce a further one for a number, where read_uvint32 stops with an
    assertion. *)
Theorem failsafe_read_total :
  (forall buf nbytes, (nbytes <= length buf)%nat -> exists o, failsafe_read_uvint32 buf nbytes = Ret o) /\
  failsafe_read_uvint32 [0x81; 0x80; 0x80; 0x80; 0x80; 7] 6 = Ret (Some (1, [7])) /\
  read_uvint32 [0x81; 0x80; 0x80; 0x80; 0x80; 7] = Exit 134 0.
Proof.
  split_and!; [ | done | done ]. intros buf nbytes Hn. unfold failsafe_read_uvint32.
  destruct nbytes as [| nbytes]; [ by eexists | ]. destruct buf as [| b p]; [ simpl in Hn; lia | ].
  destruct (b <? 0x80); [ by eexists | by apply failsafe_slow_safe ].
Qed.
