(* ===== verification/BTree.v ===== *)
(** * BTree: the B+ tree of DrTM+H

    src/sys/drtmh/src/memstore/memstore_bplustree.h and .cc: MemstoreBPlusTree
    maps 64-bit keys to records (MemNode). Leaves are linked in the order of their
    keys and live on the heap; inner nodes are owned by their parents, so they
    are values of an inductive type, with their arrays as in the source. The
    operations of a thread run in hardware transactions with a lock to fall back
    to (util/rtm.h); whether a thread is inside one is part of the model. *)

From stdpp Require Import gmap.
From S2P Require Import Prelude.

Definition MEM_BTREE_M : nat := 15.
Definition NENT : nat := 15.

(** ** Nodes *)

(** The fields of a MemNode that the tree sets; [None] is a null value. *)
Record BNode : Type := mkBNode { bn_value : option N; bn_seq : Z }.

Record LeafNode : Type := mkLeaf {
  l_num : nat;
  l_keys : list Z;   (* MEM_BTREE_M of them *)
  l_values : list N; (* addresses of MemNodes; 0 where nothing was stored *)
  l_left : option N;
  l_right : option N;
  l_seq : Z
}.

(** A node of the tree; [children] has NENT + 1 places. *)
Inductive tree : Type :=
| Leaf (a : N)
| Inner (num : nat) (ks : list Z) (cs : list (option tree)).

(** The heap, and the thread-local objects that an insertion uses up. *)
Record heap : Type := mkHeap {
  leaves : gmap N LeafNode;
  bnodes : gmap N BNode;
  fresh : N;
  dummyval_ : option N;
  dummyleaf_ : option N
}.

Record BPlusTree : Type := mkTree { root : option tree; depth : nat; hp : heap }.

Definition with_leaves (ls : gmap N LeafNode) (h : heap) : heap :=
  mkHeap ls (bnodes h) (fresh h) (dummyval_ h) (dummyleaf_ h).

Definition set_leaf (a : N) (l : LeafNode) (h : heap) : heap := with_leaves (<[a := l]> (leaves h)) h.

Definition leaf_at (h : heap) (a : N) : res LeafNode :=
  match leaves h !! a with Some l => Ret l | None => UB end.

(** new LeafNode(): only num_keys is initialised. *)
Definition new_leaf : LeafNode :=
  mkLeaf 0 (replicate MEM_BTREE_M 0) (replicate MEM_BTREE_M 0%N) None None 0.

Definition alloc_leaf (h : heap) : N * heap :=
  (fresh h, mkHeap (<[fresh h := new_leaf]> (leaves h)) (bnodes h) (N.succ (fresh h)) (dummyval_ h) (dummyleaf_ h)).

(** GetMemNode() *)
Definition GetMemNode (h : heap) : N * heap :=
  (fresh h, mkHeap (leaves h) (<[fresh h := mkBNode None 0]> (bnodes h)) (N.succ (fresh h)) (dummyval_ h) (dummyleaf_ h)).

Definition set_dummies (v l : option N) (h : heap) : heap := mkHeap (leaves h) (bnodes h) (fresh h) v l.

(** Once per thread; afterwards both objects are there. *)
Definition ThreadLocalInit (h : heap) : heap :=
  match dummyval_ h, dummyleaf_ h with
  | None, None =>
      let v := GetMemNode h in
      let l := alloc_leaf v.2 in
      set_dummies (Some v.1) (Some l.1) l.2
  | _, _ => h
  end.

(** new_leaf_node with DUMMY: the spare leaf is used up. *)
Definition new_leaf_node (h : heap) : res (N * heap) :=
  match dummyleaf_ h with
  | Some a => Ret (a, set_dummies (dummyval_ h) None h)
  | None => UB
  end.

(** MemstoreBPlusTree::MemstoreBPlusTree() *)
Definition new_tree : BPlusTree :=
  let l := alloc_leaf (mkHeap ∅ ∅ 1 None None) in mkTree (Some (Leaf l.1)) 0 l.2.

(** ** Arrays *)

(** How many of the first [num] keys satisfy [p] before one does not. *)
Fixpoint scan (p : Z -> bool) (ks : list Z) : nat :=
  match ks with
  | [] => 0
  | k :: ks => if p k then S (scan p ks) else 0
  end.

(** for (j = num; j > k; j--) a[j] = a[j-1] *)
Fixpoint shift_up {A} (a : list A) (j k : nat) : list A :=
  match j with
  | O => a
  | S j' => if (k <=? j')%nat then
              shift_up (match a !! j' with Some x => <[j := x]> a | None => a end) j' k
            else a
  end.

(** The loop and the assignment a[k] = x; there must be room for one more. *)
Definition array_insert {A} (a : list A) (num k : nat) (x : A) : res (list A) :=
  if (num <? length a)%nat then Ret (<[k := x]> (shift_up a num k)) else UB.

(** Entries [from .. from + n - 1] of [src] are copied to the beginning of [dst]. *)
Definition copy_range {A} (dst src : list A) (from n : nat) : list A := take n (drop from src) ++ drop n dst.

(** ** Hardware transactions (util/rtm.h) *)

(** Where the thread is: outside, in a hardware transaction, or holding the lock
    that it falls back to. *)
Inductive rtm : Type := Outside | InTransaction | HoldsLock.

(** RTMTX::Begin and the constructor of RTMScope; [hw] says whether a hardware
    transaction is begun in the end or the retries are used up. In a transaction
    a further one is part of the outer one. A thread that holds the lock itself
    spins for ever: a transaction that sees the lock taken aborts, and both the
    wait for the lock and the taking of the lock wait for its release. *)
Definition Begin (hw : bool) (m : rtm) : res rtm :=
  match m with
  | Outside => Ret (if hw then InTransaction else HoldsLock)
  | InTransaction => Ret InTransaction
  | HoldsLock => NoFuel
  end.

(** RTMTX::End and the destructor of RTMScope, [m] being the state before Begin:
    what was nested ends with the outer transaction. *)
Definition End_ (m now : rtm) : rtm := match m with Outside => Outside | _ => now end.

Definition RTMScope {A} (hw : bool) (m : rtm) (body : res A) : res (A * rtm) :=
  now ← Begin hw m; x ← body; Ret (x, End_ m now).

(** ** Lookup *)

Definition child_at (cs : list (option tree)) (k : nat) : res tree :=
  match cs !! k with Some (Some c) => Ret c | _ => UB end.

(** The loop over the levels of FindLeaf and Get. *)
Fixpoint FindLeaf (d : nat) (t : tree) (key : Z) : res N :=
  match d, t with
  | O, Leaf a => Ret a
  | S d, Inner num ks cs =>
      c ← child_at cs (scan (fun k => k <=? key) (take num ks)); FindLeaf d c key
  | _, _ => UB
  end.

Definition leaf_slot (l : LeafNode) (key : Z) : nat := scan (fun k => k <? key) (take (l_num l) (l_keys l)).

(** The search of a lookup: the record or NULL at the label GET_END; [None] is
    the return from an empty leaf before that label. *)
Definition get_entry (t : BPlusTree) (key : Z) : res (option (option N)) :=
  match root t with
  | None => UB
  | Some r =>
      a ← FindLeaf (depth t) r key;
      l ← leaf_at (hp t) a;
      if (l_num l =? 0)%nat then Ret None
      else
        let k := leaf_slot l key in
        if (k =? l_num l)%nat then Ret (Some None)
        else match l_keys l !! k, l_values l !! k with
             | Some k', Some v => Ret (Some (if k' =? key then Some v else None))
             | _, _ => UB
             end
  end.

(** The return from an empty leaf skips RTMTX::End. *)
Definition Get (hw : bool) (m : rtm) (t : BPlusTree) (key : Z) : res (option N * rtm) :=
  now ← Begin hw m;
  r ← get_entry t key;
  Ret (match r with None => (None, now) | Some o => (o, End_ m now) end).

(** ** Insertion *)

(** What follows the search in LeafInsert: the entry goes to place [k] of leaf
    [a], the spare record becomes its value. *)
Definition leaf_put (h : heap) (a : N) (k : nat) (key : Z) : res (N * heap) :=
  l ← leaf_at h a;
  match dummyval_ h with
  | None => Exit 134 0 (* assert: val is not NULL *)
  | Some v =>
      ks ← array_insert (l_keys l) (l_num l) k key;
      vs ← array_insert (l_values l) (l_num l) k v;
      Ret (v, set_dummies None (dummyleaf_ h)
                (set_leaf a (mkLeaf (S (l_num l)) ks vs (l_left l) (l_right l) (l_seq l)) h))
  end.

Definition bump_seq (h : heap) (a : N) : res heap :=
  l ← leaf_at h a;
  Ret (set_leaf a (mkLeaf (l_num l) (l_keys l) (l_values l) (l_left l) (l_right l) (u64 (l_seq l + 1))) h).

Definition set_left (v : option N) (l : LeafNode) : LeafNode :=
  mkLeaf (l_num l) (l_keys l) (l_values l) v (l_right l) (l_seq l).
Definition set_right (v : option N) (l : LeafNode) : LeafNode :=
  mkLeaf (l_num l) (l_keys l) (l_values l) (l_left l) v (l_seq l).

(** A full leaf gets a right neighbour; the result says which leaf and which
    place the new entry goes to. *)
Definition leaf_split (h : heap) (a : N) (k : nat) : res (N * nat * N * heap) :=
  leaf ← leaf_at h a;
  r ← new_leaf_node h;
  let sib := r.1 in let h := r.2 in
  s ← leaf_at h sib;
  let threshold := ((MEM_BTREE_M + 1) / 2)%nat in
  let '(leaf, s, toInsert, k) :=
    if bool_decide (l_right leaf = None) && (k =? l_num leaf)%nat then
      (leaf, mkLeaf 0 (l_keys s) (l_values s) (l_left s) (l_right s) (l_seq s), sib, 0%nat)
    else
      let n := (l_num leaf - threshold)%nat in
      let s := mkLeaf n (copy_range (l_keys s) (l_keys leaf) threshold n)
                 (copy_range (l_values s) (l_values leaf) threshold n) (l_left s) (l_right s) (l_seq s) in
      let leaf := mkLeaf threshold (l_keys leaf) (l_values leaf) (l_left leaf) (l_right leaf) (l_seq leaf) in
      if (threshold <=? k)%nat then (leaf, s, sib, (k - threshold)%nat) else (leaf, s, a, k) in
  h ← match l_right leaf with
      | Some r => rl ← leaf_at h r; Ret (set_leaf r (set_left (Some sib) rl) h)
      | None => Ret h
      end;
  let s := mkLeaf (l_num s) (l_keys s) (l_values s) (Some a) (l_right leaf) 0 in
  let leaf := set_right (Some sib) leaf in
  Ret (toInsert, k, sib, set_leaf sib s (set_leaf a leaf h)).

(** LeafInsert: the new sibling if there is one, the record of the key, the heap. *)
Definition LeafInsert (key : Z) (a : N) (h : heap) : res (option N * N * heap) :=
  leaf ← leaf_at h a;
  let k := leaf_slot leaf key in
  if (k <? l_num leaf)%nat && bool_decide (l_keys leaf !! k = Some key) then
    match l_values leaf !! k with
    | Some v => if (v =? 0)%N then Exit 134 0 else Ret (None, v, h)
    | None => UB
    end
  else if (l_num leaf =? MEM_BTREE_M)%nat then
    s ← leaf_split h a k;
    let '(toInsert, k, sib, h) := s in
    r ← leaf_put h toInsert k key;
    h ← bump_seq r.2 a;
    Ret (Some sib, r.1, h)
  else
    r ← leaf_put h a k key;
    h ← bump_seq r.2 a;
    Ret (None, r.1, h).

(** new_inner_node() *)
Definition new_inner_node : nat * list Z * list (option tree) :=
  (0%nat, replicate NENT 0, replicate (S NENT) None).

(** A new child [c] with first key [upKey] to the right of child [k] of an inner
    node. When the node is full, it is split: [append] is the case that the new
    child is the only one of the new sibling, [right] says whether it goes to the
    sibling otherwise, given the key that moves up. The result is the node,
    and the sibling with the key that moves up, which is also left in the last
    place of its keys. *)
Definition inner_put (num : nat) (ks : list Z) (cs : list (option tree)) (k : nat) (c : tree) (upKey : Z) :
    res (nat * list Z * list (option tree)) :=
  ks ← array_insert ks num k upKey;
  cs ← array_insert cs (S num) (S k) (Some c);
  Ret (S num, ks, cs).

Definition inner_add (num : nat) (ks : list Z) (cs : list (option tree)) (k : nat) (c : tree) (cKey : Z)
    (append : bool) (right : Z -> bool) : res (tree * option (tree * Z)) :=
  if (num =? NENT)%nat then
    let '(_, sks, scs) := new_inner_node in
    if append then
      Ret (Inner num ks cs, Some (Inner 0 (<[(NENT - 1)%nat := cKey]> sks) (<[0%nat := Some c]> scs), cKey))
    else
      let treshold := ((NENT + 1) / 2)%nat in
      let n := (num - treshold)%nat in
      let sks := copy_range sks ks treshold n in
      let scs := copy_range scs cs treshold n in
      match cs !! num, ks !! (treshold - 1)%nat with
      | Some lastc, Some upKey =>
          let scs := <[n := lastc]> scs in
          let sks := <[(NENT - 1)%nat := upKey]> sks in
          if right upKey then
            let k := if (treshold <=? k)%nat then (k - treshold)%nat else 0%nat in
            s ← inner_put n sks scs k c cKey;
            Ret (Inner (treshold - 1) ks cs, Some (Inner s.1.1 s.1.2 s.2, upKey))
          else
            i ← inner_put (treshold - 1) ks cs k c cKey;
            Ret (Inner i.1.1 i.1.2 i.2, Some (Inner n sks scs, upKey))
      | _, _ => UB
      end
  else
    i ← inner_put num ks cs k c cKey;
    Ret (Inner i.1.1 i.1.2 i.2, None).

(** InnerInsert without the growth of the root: the node, its new sibling with
    the key that moves up, the record, the heap. *)
Fixpoint InnerInsert (d : nat) (key : Z) (t : tree) (h : heap) : res (tree * option (tree * Z) * N * heap) :=
  match d, t with
  | S d', Inner num ks cs =>
      let k := scan (fun k' => k' <=? key) (take num ks) in
      c ← child_at cs k;
      match d', c with
      | O, Leaf a =>
          r ← LeafInsert key a h;
          let '(new_leaf, val, h) := r in
          match new_leaf with
          | None => Ret (Inner num ks cs, None, val, h)
          | Some sib =>
              l ← leaf_at h sib;
              match l_keys l !! 0%nat with
              | None => UB
              | Some k0 =>
                  i ← inner_add num ks cs k (Leaf sib) k0 (l_num l =? 1)%nat (fun upKey => upKey <=? k0);
                  Ret (i.1, i.2, val, h)
              end
          end
      | S _, Inner _ _ _ =>
          r ← InnerInsert d' key c h;
          let '(c', new_inner, val, h) := r in
          let cs := <[k := Some c']> cs in
          match new_inner with
          | None => Ret (Inner num ks cs, None, val, h)
          | Some (Inner snum sks scs, _) =>
              match sks !! (NENT - 1)%nat with
              | None => UB
              | Some up => i ← inner_add num ks cs k (Inner snum sks scs) up (snum =? 0)%nat (fun upKey => upKey <=? key);
                           Ret (i.1, i.2, val, h)
              end
          | Some (Leaf _, _) => UB
          end
      | _, _ => UB
      end
  | _, _ => UB
  end.

(** The node that is put above the root and its new sibling. *)
Definition new_root (left right : tree) (upKey : Z) : tree :=
  let '(_, ks, cs) := new_inner_node in
  Inner 1 (<[0%nat := upKey]> ks) (<[1%nat := Some right]> (<[0%nat := Some left]> cs)).

(** Insert_rtm inside its transaction. *)
Definition insert_key (t : BPlusTree) (key : Z) : res (N * BPlusTree) :=
  rt ← match root t with
       | Some r => Ret (r, depth t, hp t)
       | None =>
           l ← new_leaf_node (hp t);
           s ← leaf_at l.2 l.1;
           Ret (Leaf l.1, 0%nat, set_leaf l.1 (mkLeaf (l_num s) (l_keys s) (l_values s) None None 0) l.2)
       end;
  let '(r, d, h) := rt in
  match d, r with
  | O, Leaf a =>
      x ← LeafInsert key a h;
      let '(new_leaf, val, h) := x in
      match new_leaf with
      | None => Ret (val, mkTree (Some (Leaf a)) 0 h)
      | Some sib =>
          l ← leaf_at h sib;
          match l_keys l !! 0%nat with
          | None => UB
          | Some k0 => Ret (val, mkTree (Some (new_root (Leaf a) (Leaf sib) k0)) 1 h)
          end
      end
  | S _, _ =>
      x ← InnerInsert d key r h;
      let '(r, new_sibling, val, h) := x in
      match new_sibling with
      | None => Ret (val, mkTree (Some r) d h)
      | Some (s, upKey) => Ret (val, mkTree (Some (new_root r s upKey)) (S d) h)
      end
  | _, _ => UB
  end.

Definition Insert_rtm (hw : bool) (m : rtm) (t : BPlusTree) (key : Z) : res (N * BPlusTree * rtm) :=
  now ← Begin hw m; r ← insert_key t key; Ret (r, End_ m now).

Definition set_bnode (a : N) (f : BNode -> BNode) (h : heap) : res heap :=
  match bnodes h !! a with
  | Some n => Ret (mkHeap (leaves h) (<[a := f n]> (bnodes h)) (fresh h) (dummyval_ h) (dummyleaf_ h))
  | None => UB
  end.

Definition with_heap (h : heap) (t : BPlusTree) : BPlusTree := mkTree (root t) (depth t) h.

(** The spare objects are replaced after an insertion. *)
Definition refill (h : heap) : res heap :=
  h ← match dummyval_ h with
      | None => let v := GetMemNode h in Ret (set_dummies (Some v.1) (dummyleaf_ v.2) v.2)
      | Some a => set_bnode a (fun n => mkBNode None (bn_seq n)) h
      end;
  match dummyleaf_ h with
  | None => let l := alloc_leaf h in Ret (set_dummies (dummyval_ l.2) (Some l.1) l.2)
  | Some _ => Ret h
  end.

(** _GetWithInsert *)
Definition GetWithInsert (hw : bool) (m : rtm) (t : BPlusTree) (key : Z) (val : option N) :
    res (N * BPlusTree * rtm) :=
  let h := ThreadLocalInit (hp t) in
  match dummyval_ h with
  | None => UB
  | Some a =>
      h ← set_bnode a (fun n => mkBNode val (bn_seq n)) h;
      r ← Insert_rtm hw m (with_heap h t) key;
      h ← refill (hp r.1.2);
      Ret (r.1.1, with_heap h r.1.2, r.2)
  end.

Definition Put (hw : bool) (m : rtm) (t : BPlusTree) (key : Z) (val : option N) : res (N * BPlusTree * rtm) :=
  let t := with_heap (ThreadLocalInit (hp t)) t in
  r ← GetWithInsert hw m t key None;
  h ← set_bnode r.1.1 (fun _ => mkBNode val 0) (hp r.1.2);
  Ret (r.1.1, with_heap h r.1.2, r.2).

(** Delete_rtm and with it GetWithDelete end the program. *)
Definition Delete_rtm (t : BPlusTree) (key : Z) : res (N * BPlusTree) := Exit (-1) 0.

(** ** Iterators *)

Record Iterator : Type := mkIter {
  node_ : option N;
  it_seq : Z;
  leaf_index : nat;
  it_link : option N; (* link_ points to the seq of this leaf *)
  target_ : Z;
  key_ : Z;
  value_ : N
}.

Definition new_iter : Iterator := mkIter None 0 0 None 0 0 0.

(** Valid(): the key and value of an iterator without a leaf are what they were. *)
Definition Valid (h : heap) (it : Iterator) : res bool :=
  match node_ it with
  | None => Ret false
  | Some a => l ← leaf_at h a; Ret (0 <? l_num l)%nat
  end.

(** key_, value_ and seq_ are read from the leaf the iterator is at. *)
Definition load_entry (h : heap) (it : Iterator) : res Iterator :=
  match node_ it with
  | None => Ret it
  | Some a =>
      l ← leaf_at h a;
      match l_keys l !! leaf_index it, l_values l !! leaf_index it with
      | Some k, Some v => Ret (mkIter (node_ it) (l_seq l) (leaf_index it) (it_link it) (target_ it) k v)
      | _, _ => UB
      end
  end.

Definition move (node : option N) (i : nat) (it : Iterator) : Iterator :=
  mkIter node (it_seq it) i (it_link it) (target_ it) (key_ it) (value_ it).

Definition set_link (a : N) (target : Z) (it : Iterator) : Iterator :=
  mkIter (node_ it) (it_seq it) (leaf_index it) (Some a) target (key_ it) (value_ it).

Definition Seek_body (t : BPlusTree) (key : Z) (it : Iterator) : res Iterator :=
  match root t with
  | None => UB
  | Some r =>
      a ← FindLeaf (depth t) r key;
      l ← leaf_at (hp t) a;
      let it := set_link a (l_seq l) it in
      let k := leaf_slot l key in
      load_entry (hp t) (if (k =? l_num l)%nat then move (l_right l) 0 it else move (Some a) k it)
  end.

(** The search of Next when the leaf has changed: to the right, for a key greater
    than the last one. [None]: there is none. *)
Fixpoint seek_after (fuel : nat) (h : heap) (key : Z) (a : N) : res (option (N * nat)) :=
  match fuel with
  | O => NoFuel
  | S fuel =>
      l ← leaf_at h a;
      let k := scan (fun k' => k' <=? key) (take (l_num l) (l_keys l)) in
      if (k =? l_num l)%nat then
        match l_right l with None => Ret None | Some r => seek_after fuel h key r end
      else Ret (Some (a, k))
  end.

Definition leaf_fuel (h : heap) : nat := S (size (leaves h)).

(** What Next does after [leaf_index] has been set. *)
Definition next_entry (h : heap) (a : N) (i : nat) (it : Iterator) : res Iterator :=
  l ← leaf_at h a;
  if (l_num l <=? i)%nat then
    match l_right l with
    | None => Ret (move None 0 it)
    | Some r => rl ← leaf_at h r; load_entry h (set_link r (l_seq rl) (move (Some r) 0 it))
    end
  else load_entry h (move (Some a) i it).

Definition Next_body (t : BPlusTree) (it : Iterator) : res (bool * Iterator) :=
  match node_ it with
  | None => UB
  | Some a =>
      l ← leaf_at (hp t) a;
      if l_seq l =? it_seq it then
        it ← next_entry (hp t) a (S (leaf_index it)) it; Ret (true, it)
      else
        r ← seek_after (leaf_fuel (hp t)) (hp t) (key_ it) a;
        match r with
        | None => Ret (false, move None (leaf_index it) it)
        | Some (a, k) => it ← next_entry (hp t) a k it; Ret (false, it)
        end
  end.

(** The search of Prev when the leaf has changed: for the last key itself or the
    first greater one; at the end of the list the index stays. When Prev leaves
    the list, [leaf_index] is -1 in the code and not read before the next seek. *)
Fixpoint seek_at (fuel : nat) (h : heap) (key : Z) (i : nat) (a : N) : res (N * nat) :=
  match fuel with
  | O => NoFuel
  | S fuel =>
      l ← leaf_at h a;
      let k := scan (fun k' => k' <? key) (take (l_num l) (l_keys l)) in
      if (k =? l_num l)%nat then
        match l_right l with None => Ret (a, i) | Some r => seek_at fuel h key i r end
      else Ret (a, k)
  end.

Definition prev_entry (h : heap) (a : N) (i : nat) (it : Iterator) : res Iterator :=
  match i with
  | S i => load_entry h (move (Some a) i it)
  | O =>
      l ← leaf_at h a;
      match l_left l with
      | None => Ret (move None 0 it)
      | Some p => pl ← leaf_at h p; load_entry h (set_link p (l_seq pl) (move (Some p) (l_num pl - 1) it))
      end
  end.

Definition Prev_body (t : BPlusTree) (it : Iterator) : res (bool * Iterator) :=
  v ← Valid (hp t) it;
  if negb v then Exit 134 0
  else match node_ it with
  | None => UB
  | Some a =>
      l ← leaf_at (hp t) a;
      if l_seq l =? it_seq it then
        it ← prev_entry (hp t) a (leaf_index it) it; Ret (true, it)
      else
        r ← seek_at (leaf_fuel (hp t)) (hp t) (key_ it) (leaf_index it) a;
        it ← prev_entry (hp t) r.1 r.2 it; Ret (false, it)
  end.

(** The transactions of the iterator. *)
Definition Seek (hw : bool) (m : rtm) (t : BPlusTree) (key : Z) (it : Iterator) : res (Iterator * rtm) :=
  RTMScope hw m (Seek_body t key it).
Definition Next (hw : bool) (m : rtm) (t : BPlusTree) (it : Iterator) : res (bool * Iterator * rtm) :=
  RTMScope hw m (Next_body t it).
Definition Prev (hw : bool) (m : rtm) (t : BPlusTree) (it : Iterator) : res (bool * Iterator * rtm) :=
  RTMScope hw m (Prev_body t it).

(** The leftmost leaf. *)
Fixpoint first_leaf (d : nat) (t : tree) : res N :=
  match d, t with
  | O, Leaf a => Ret a
  | S d, Inner _ _ cs => c ← child_at cs 0; first_leaf d c
  | _, _ => UB
  end.

Definition SeekToFirst_body (t : BPlusTree) (it : Iterator) : res Iterator :=
  match root t with
  | None => UB
  | Some r =>
      a ← first_leaf (depth t) r;
      l ← leaf_at (hp t) a;
      load_entry (hp t) (set_link a (l_seq l) (move (Some a) 0 it))
  end.

Definition SeekToFirst (hw : bool) (m : rtm) (t : BPlusTree) (it : Iterator) : res (Iterator * rtm) :=
  RTMScope hw m (SeekToFirst_body t it).

Definition SeekToLast (it : Iterator) : res Iterator := Exit 134 0. (* assert(0) *)

(** SeekPrev: the leaf before the target's when the target's has no smaller key,
    which there need not be; otherwise only [node_] and the link are set. *)
Definition SeekPrev_body (t : BPlusTree) (key : Z) (it : Iterator) : res Iterator :=
  match root t with
  | None => UB
  | Some r =>
      a ← FindLeaf (depth t) r key;
      l ← leaf_at (hp t) a;
      let it := set_link a (l_seq l) it in
      if (leaf_slot l key =? 0)%nat then
        match l_left l with
        | None => UB
        | Some p => pl ← leaf_at (hp t) p; Ret (set_link p (l_seq pl) (move (Some p) (l_num pl - 1) it))
        end
      else Ret (move (Some a) (leaf_index it) it)
  end.

Definition SeekPrev (hw : bool) (m : rtm) (t : BPlusTree) (key : Z) (it : Iterator) : res (Iterator * rtm) :=
  RTMScope hw m (SeekPrev_body t key it).

Definition CurNode (h : heap) (it : Iterator) : res (option N) :=
  v ← Valid h it; Ret (if (v : bool) then Some (value_ it) else None).

(** PrintList: the keys of the leaves in the order of the list; it asserts that
    the right neighbour's left neighbour is the leaf. *)
Fixpoint print_leaves (fuel : nat) (h : heap) (a : N) : res (list (list Z)) :=
  match fuel with
  | O => NoFuel
  | S fuel =>
      l ← leaf_at h a;
      match l_right l with
      | None => Ret [take (l_num l) (l_keys l)]
      | Some r =>
          rl ← leaf_at h r;
          if bool_decide (l_left rl = Some a) then
            rest ← print_leaves fuel h r; Ret (take (l_num l) (l_keys l) :: rest)
          else Exit 134 0
      end
  end.

Definition PrintList (t : BPlusTree) : res (list (list Z)) :=
  match root t with
  | None => Ret []
  | Some r => a ← first_leaf (depth t) r; print_leaves (leaf_fuel (hp t)) (hp t) a
  end.
