(* ===== verification/BTreeInv.v ===== *)
(** * BTreeInv: the shape of the B+ tree

    The arrays of a node seen as lists; [segs], a run of children between their
    separators; [repr], a node of a given height that holds the keys of a range;
    [dll], the list of leaves; and what the lookup in a node finds. *)

From stdpp Require Import gmap sorting.
From S2P Require Import Prelude.
From S2P Require Import BTree.

(** ** Arrays *)

Lemma shift_up_list {A} (j : nat) : forall (a : list A) (k : nat),
  (k <= j < length a)%nat -> shift_up a j k = take (S k) a ++ drop k (take j a) ++ drop (S j) a.
Proof.
  induction j as [|j IH]; intros a k Hk; simpl.
  - assert (k = 0%nat) as -> by lia. destruct a; simpl in *; [lia|]. by rewrite ?take_0, ?drop_0.
  - case_match eqn:E.
    2: { apply Nat.leb_gt in E. assert (k = S j) as -> by lia.
         rewrite (drop_ge (take _ _)) by (rewrite length_take; lia). simpl. by rewrite take_drop. }
    apply Nat.leb_le in E. destruct (lookup_lt_is_Some_2 a j) as [x Hx]; [lia|]. rewrite Hx.
    rewrite IH by (rewrite length_insert; lia).
    rewrite !take_insert_ge by lia. f_equal.
    rewrite (take_S_r _ _ x) by done. rewrite drop_app_le by (rewrite length_take; lia).
    rewrite <- app_assoc. f_equal. simpl.
    rewrite (drop_S _ x) by (apply list_lookup_insert_eq; lia). f_equal.
    by rewrite drop_insert_lt by lia.
Qed.

Lemma array_insert_list {A} (a : list A) num k x :
  (k <= num < length a)%nat ->
  array_insert a num k x = Ret (take k a ++ x :: drop k (take num a) ++ drop (S num) a).
Proof.
  intros Hk. unfold array_insert. rewrite (proj2 (Nat.ltb_lt _ _)) by lia. rewrite shift_up_list by lia.
  f_equal. destruct (lookup_lt_is_Some_2 a k) as [y Hy]; [lia|].
  rewrite (take_S_r _ _ y) by done. rewrite <- app_assoc. simpl.
  rewrite insert_app_r_alt by (rewrite length_take; lia). rewrite length_take.
  by replace (k - k `min` length a)%nat with 0%nat by lia.
Qed.

(** The first [num] entries of an array, after an insertion. *)
Definition ins {A} (k : nat) (x : A) (l : list A) : list A := take k l ++ x :: drop k l.

Lemma array_insert_spec {A} (a : list A) num k x :
  (k <= num < length a)%nat ->
  exists a', array_insert a num k x = Ret a' /\ length a' = length a /\
    take (S num) a' = ins k x (take num a) /\
    (forall i, (num < i)%nat -> a' !! i = a !! i).
Proof.
  intros Hk. eexists. split; [by apply array_insert_list|].
  assert (Hl : length (take k a ++ x :: drop k (take num a)) = S num).
  { rewrite length_app. simpl. rewrite length_drop, !length_take. lia. }
  split; [|split].
  - rewrite app_comm_cons, app_assoc, length_app, Hl, length_drop. lia.
  - rewrite app_comm_cons, app_assoc, take_app_length' by done. unfold ins. by rewrite take_take, Nat.min_l by lia.
  - intros i Hi. rewrite app_comm_cons, app_assoc, lookup_app_r by lia. rewrite Hl, lookup_drop. f_equal. lia.
Qed.

Lemma ins_perm {A} k (x : A) l : ins k x l ≡ₚ x :: l.
Proof. unfold ins. by rewrite <- Permutation_middle, take_drop. Qed.

Lemma ins_app {A} (x : A) l1 l2 : ins (length l1) x (l1 ++ l2) = l1 ++ x :: l2.
Proof. unfold ins. by rewrite take_app_length, drop_app_length. Qed.

Lemma fmap_ins {A B} (f : A -> B) k x l : f <$> ins k x l = ins k (f x) (f <$> l).
Proof. unfold ins. by rewrite fmap_app, fmap_cons, fmap_take, fmap_drop. Qed.

Lemma zip_ins {A B} k (x : A) (y : B) l m :
  length l = length m -> zip (ins k x l) (ins k y m) = ins k (x, y) (zip l m).
Proof.
  intros Hl. unfold ins. rewrite zip_with_app by (rewrite !length_take; lia). simpl.
  by rewrite zip_with_take, zip_with_drop.
Qed.

Lemma length_ins {A} k (x : A) l : length (ins k x l) = S (length l).
Proof. by rewrite (ins_perm k x l). Qed.

Lemma copy_range_take {A} (dst src : list A) from n :
  (from + n <= length src)%nat -> take n (copy_range dst src from n) = take n (drop from src).
Proof. intros Hn. unfold copy_range. rewrite take_app_length'; [done|]. rewrite length_take, length_drop. lia. Qed.

Lemma length_copy_range {A} (dst src : list A) from n :
  (from + n <= length src)%nat -> (n <= length dst)%nat -> length (copy_range dst src from n) = length dst.
Proof. intros ??. unfold copy_range. rewrite length_app, length_take, !length_drop. lia. Qed.

Lemma copy_range_high {A} (dst src : list A) from n i :
  (from + n <= length src)%nat -> (n <= i)%nat -> copy_range dst src from n !! i = dst !! i.
Proof.
  intros ??. unfold copy_range. rewrite lookup_app_r; rewrite ?length_take, ?length_drop by lia; [|lia].
  rewrite lookup_drop. f_equal. lia.
Qed.

(** ** Searching *)

Abbreviation ordered := (StronglySorted Z.lt).

Lemma scan_le p ks : (scan p ks <= length ks)%nat.
Proof. induction ks as [|k ks IH]; simpl; [lia|]. destruct (p k); lia. Qed.

Lemma scan_below p ks : Forall (fun k => p k = true) (take (scan p ks) ks).
Proof. induction ks as [|k ks IH]; simpl; [done|]. destruct (p k) eqn:E; [by constructor|done]. Qed.

Lemma scan_stop p ks k : ks !! scan p ks = Some k -> p k = false.
Proof.
  induction ks as [|k' ks IH]; simpl; [done|]. destruct (p k') eqn:E; simpl; [done|]. by intros [= <-].
Qed.

Lemma scan_above p ks :
  ordered ks -> (forall a b, a < b -> p b = true -> p a = true) -> Forall (fun k => p k = false) (drop (scan p ks) ks).
Proof.
  intros Hs Hp. induction Hs as [|k ks Hs IH Hk]; simpl; [done|]. destruct (p k) eqn:E; [done|]. simpl.
  constructor; [done|]. eapply Forall_impl; [exact Hk|]. intros b Hb. destruct (p b) eqn:Eb; [|done].
  by rewrite (Hp k b Hb Eb) in E.
Qed.

Lemma ordered_app l1 l2 :
  ordered (l1 ++ l2) <-> ordered l1 /\ ordered l2 /\ forall x y, x ∈ l1 -> y ∈ l2 -> x < y.
Proof.
  induction l1 as [|a l1 IH]; simpl.
  - split; [|by intros (_ & ? & _)]. intros. repeat split; [constructor|done|set_solver].
  - split.
    + inversion 1 as [|?? H1 H2]; subst. apply IH in H1 as (? & ? & ?). rewrite Forall_app in H2. destruct H2 as [? H2].
      repeat split; [by constructor|done|]. rewrite Forall_forall in H2. set_solver.
    + intros (H1 & H2 & H3). inversion H1 as [|?? H4 H5]; subst. constructor; [apply IH; set_solver|].
      apply Forall_app. split; [done|]. apply Forall_forall. set_solver.
Qed.

Lemma ordered_NoDup l : ordered l -> NoDup l.
Proof.
  induction 1 as [|a l Hs IH Ha]; constructor; [|done]. intros Hin. rewrite Forall_forall in Ha.
  specialize (Ha a Hin). lia.
Qed.

(** ** Runs of children *)

(** Child trees from [lo] on, each with the key that ends its range and the
    leaves below it, a leaf with the lower end of its range. *)
Inductive segs (P : Z -> Z -> tree -> list (N * Z) -> Prop) : Z -> list Z -> list tree -> Z -> list (N * Z) -> Prop :=
| segs_nil lo : segs P lo [] [] lo []
| segs_cons lo k t ls ks ts hi ls' :
    lo < k -> P lo k t ls -> segs P k ks ts hi ls' -> segs P lo (k :: ks) (t :: ts) hi (ls ++ ls').

Section Segs.
Context (P : Z -> Z -> tree -> list (N * Z) -> Prop).

Lemma segs_le lo ks ts hi ls : segs P lo ks ts hi ls -> lo <= hi.
Proof. induction 1; lia. Qed.

Lemma segs_last lo ks k ts hi ls : segs P lo (ks ++ [k]) ts hi ls -> hi = k.
Proof.
  revert lo ts ls. induction ks as [|k' ks IH]; intros lo ts ls H; simpl in H.
  - inversion H as [|???????? _ _ H']; subst. by inversion H'.
  - inversion H; subst. by eapply IH.
Qed.

Lemma segs_length lo ks ts hi ls : segs P lo ks ts hi ls -> length ks = length ts.
Proof. induction 1; simpl; lia. Qed.

Lemma segs_app lo ks1 ts1 mid ls1 ks2 ts2 hi ls2 :
  segs P lo ks1 ts1 mid ls1 -> segs P mid ks2 ts2 hi ls2 -> segs P lo (ks1 ++ ks2) (ts1 ++ ts2) hi (ls1 ++ ls2).
Proof. induction 1; intros; simpl; [done|]. rewrite <- app_assoc. constructor; auto. Qed.

Lemma segs_app_inv ks1 : forall lo ks2 ts1 ts2 hi ls,
  length ks1 = length ts1 -> segs P lo (ks1 ++ ks2) (ts1 ++ ts2) hi ls ->
  exists mid ls1 ls2, ls = ls1 ++ ls2 /\ segs P lo ks1 ts1 mid ls1 /\ segs P mid ks2 ts2 hi ls2.
Proof.
  induction ks1 as [|k ks1 IH]; intros lo ks2 [|t ts1] ts2 hi ls Hl H; simpl in *; try lia.
  - exists lo, [], ls. repeat split; [constructor|done].
  - inversion H as [|? ? ? l1 ? ? ? l2 ? ? H']; subst. apply IH in H' as (mid & m1 & m2 & -> & ? & ?); [|lia].
    exists mid, (l1 ++ m1), m2. rewrite app_assoc. repeat split; [by constructor|done].
Qed.

(** Every child is left of the key that ends the range. *)
Lemma segs_key lo ks ts hi ls k : segs P lo ks ts hi ls -> k ∈ ks -> lo < k <= hi.
Proof.
  intros H. revert k. induction H as [|lo k' t ls ks ts hi ls' Hk Ht Hs IH]; intros k Hin; [set_solver|].
  pose proof (segs_le _ _ _ _ _ Hs). apply elem_of_cons in Hin as [->|Hin]; [lia|]. specialize (IH k Hin). lia.
Qed.

Lemma segs_keys_ordered lo ks ts hi ls : segs P lo ks ts hi ls -> ordered ks.
Proof.
  induction 1 as [|lo k' t ls ks ts hi ls' Hk Ht Hs IH]; constructor; [done|].
  apply Forall_forall. intros x Hx. pose proof (segs_key _ _ _ _ _ x Hs Hx). lia.
Qed.

(** The child in whose range a key is. *)
Lemma segs_find ks : forall lo hi ts ls key,
  segs P lo (ks ++ [hi]) ts hi ls -> lo <= key < hi ->
  exists ks1 u ks2 ts1 c ts2 l ls1 lsc ls2,
    ks ++ [hi] = ks1 ++ u :: ks2 /\ ts = ts1 ++ c :: ts2 /\ ls = ls1 ++ lsc ++ ls2 /\
    length ks1 = scan (fun k => k <=? key) ks /\ length ts1 = length ks1 /\
    l <= key < u /\ P l u c lsc /\ segs P lo ks1 ts1 l ls1 /\ segs P u ks2 ts2 hi ls2.
Proof.
  induction ks as [|k ks IH]; intros lo hi ts ls key Hs Hk; simpl in *.
  - inversion Hs as [|? ? t l1 ? ? ? l2 ? Ht H']; subst. inversion H'; subst.
    exists [], hi, [], [], t, [], lo, [], l1, []. simpl. repeat split; try done; try lia; constructor.
  - inversion Hs as [|? ? t l1 ? ts' ? l2 ? Ht H']; subst. case_match eqn:E.
    + apply Z.leb_le in E. apply (IH _ _ _ _ key) in H' as (ks1 & u & ks2 & ts1 & c & ts2 & l & m1 & lsc & m2 & -> & -> & -> & ? & ? & ? & ? & ? & ?); [|lia].
      exists (k :: ks1), u, ks2, (t :: ts1), c, ts2, l, (l1 ++ m1), lsc, m2.
      rewrite <- app_assoc. repeat split; simpl; try done; try lia. by constructor.
    + apply Z.leb_gt in E. exists [], k, (ks ++ [hi]), [], t, ts', lo, [], l1, l2. simpl.
      repeat split; try done; try lia. constructor.
Qed.

End Segs.

Lemma segs_mono (P Q : Z -> Z -> tree -> list (N * Z) -> Prop) lo ks ts hi ls :
  (forall l u t s, s ⊆ ls -> P l u t s -> Q l u t s) -> segs P lo ks ts hi ls -> segs Q lo ks ts hi ls.
Proof.
  intros HPQ H. induction H as [|lo k t ls ks ts hi ls' Hk Ht Hs IH]; constructor; [done| |].
  - apply HPQ; [set_solver|done].
  - apply IH. intros. apply HPQ; [set_solver|done].
Qed.

(** ** Nodes *)

Section Node.
Context (P : Z -> Z -> tree -> list (N * Z) -> Prop).

Definition arrays_ok (num : nat) (ks : list Z) (cs : list (option tree)) : Prop :=
  (num <= NENT)%nat /\ length ks = NENT /\ length cs = S NENT.

Definition node (lo hi : Z) (num : nat) (ks : list Z) (cs : list (option tree)) (ls : list (N * Z)) : Prop :=
  arrays_ok num ks cs /\ exists ts : list tree, take (S num) cs = Some <$> ts /\ segs P lo (take num ks ++ [hi]) ts hi ls.

(** A node whose child [k], for the range from [l] to [u], may be anything. *)
Definition hole (lo hi : Z) (num : nat) (ks : list Z) (cs : list (option tree)) (k : nat) (l u : Z) (ls1 ls2 : list (N * Z)) : Prop :=
  arrays_ok num ks cs /\ l < u /\ exists ks1 ks2 (ts1 : list tree) c ts2,
    take num ks ++ [hi] = ks1 ++ u :: ks2 /\ length ks1 = k /\ length ts1 = k /\
    take (S num) cs = Some <$> (ts1 ++ c :: ts2) /\ segs P lo ks1 ts1 l ls1 /\ segs P u ks2 ts2 hi ls2.

Lemma child_at_app (cs : list (option tree)) n ts1 c ts2 :
  take n cs = Some <$> (ts1 ++ c :: ts2) -> cs !! length ts1 = Some (Some c).
Proof.
  intros Ht. assert (Hn : (length ts1 < n)%nat).
  { apply (f_equal length) in Ht. rewrite length_take, length_fmap, length_app, length_cons in Ht. lia. }
  rewrite <- (lookup_take_lt cs n) by done. rewrite Ht, list_lookup_fmap.
  rewrite lookup_app_r by lia. by rewrite Nat.sub_diag.
Qed.

Lemma node_hole lo hi num ks cs ls key :
  node lo hi num ks cs ls -> lo <= key < hi ->
  exists k l u ls1 c lsc ls2, k = scan (fun k => k <=? key) (take num ks) /\ cs !! k = Some (Some c) /\
    P l u c lsc /\ l <= key < u /\ ls = ls1 ++ lsc ++ ls2 /\ hole lo hi num ks cs k l u ls1 ls2.
Proof.
  intros (Ha & ts & Hts & Hs) Hk.
  apply (segs_find P _ _ _ _ _ key) in Hs as (ks1 & u & ks2 & ts1 & c & ts2 & l & ls1 & lsc & ls2 & Eks & -> & -> & Hsc & Hl & ? & ? & ? & ?); [|done].
  exists (length ks1), l, u, ls1, c, lsc, ls2. split; [done|].
  split; [rewrite <- Hl; by eapply child_at_app|]. do 3 (split; [done|]).
  split; [done|]. split; [lia|]. exists ks1, ks2, ts1, c, ts2. naive_solver.
Qed.

Lemma hole_fill lo hi num ks cs k l u ls1 ls2 c lsc :
  hole lo hi num ks cs k l u ls1 ls2 -> cs !! k = Some (Some c) -> P l u c lsc ->
  node lo hi num ks cs (ls1 ++ lsc ++ ls2).
Proof.
  intros (Ha & Hlu & ks1 & ks2 & ts1 & c0 & ts2 & Eks & Hk1 & Hk2 & Ecs & H1 & H2) Hc Ht. subst k.
  pose proof (child_at_app _ _ _ _ _ Ecs) as Hc'. rewrite Hk2, Hc in Hc'. simplify_eq.
  split; [done|]. eexists. split; [done|]. rewrite Eks. eapply segs_app; [done|]. by constructor.
Qed.

Lemma hole_child lo hi num ks cs k l u ls1 ls2 c :
  hole lo hi num ks cs k l u ls1 ls2 ->
  hole lo hi num ks (<[k := Some c]> cs) k l u ls1 ls2 /\ <[k := Some c]> cs !! k = Some (Some c).
Proof.
  intros ((? & ? & Hcs) & Hlu & ks1 & ks2 & ts1 & c0 & ts2 & Eks & Hk1 & Hk2 & Ecs & H1 & H2).
  pose proof (child_at_app _ _ _ _ _ Ecs) as Hc'. apply lookup_lt_Some in Hc' as Hlt.
  assert (Hn : (k < S num)%nat).
  { apply (f_equal length) in Ecs. rewrite length_take, length_fmap, length_app, length_cons in Ecs. lia. }
  split; [|apply list_lookup_insert_eq; lia].
  split; [unfold arrays_ok; by rewrite length_insert|]. split; [done|].
  exists ks1, ks2, ts1, c, ts2. repeat split; try done.
  rewrite take_insert_lt by lia. rewrite Ecs, <- list_fmap_insert. f_equal.
  rewrite insert_app_r_alt by lia. by replace (k - length ts1)%nat with 0%nat by lia.
Qed.

Lemma hole_index lo hi num ks cs k l u ls1 ls2 : hole lo hi num ks cs k l u ls1 ls2 -> (k <= num)%nat.
Proof.
  intros ((? & ? & ?) & _ & ks1 & ks2 & _ & _ & _ & Eks & Hk & _).
  apply (f_equal length) in Eks. rewrite !length_app, length_take, length_cons in Eks. simpl in Eks. lia.
Qed.

Lemma app_snoc_inv {A} (l1 l2 : list A) x y m : l1 ++ [x] = l2 ++ y :: m -> l2 = take (length l2) l1.
Proof.
  intros E. assert (length l2 <= length l1)%nat.
  { apply (f_equal length) in E. rewrite !length_app, length_cons in E. simpl in E. lia. }
  apply (f_equal (take (length l2))) in E. rewrite take_app_length, take_app_le in E by done. done.
Qed.

(** A child is split: its second half goes to place [k + 1]. *)
Lemma hole_put lo hi num ks cs k l u ls1 ls2 c1 c2 up s1 s2 :
  hole lo hi num ks cs k l u ls1 ls2 -> (num < NENT)%nat -> cs !! k = Some (Some c1) -> l < up < u ->
  P l up c1 s1 -> P up u c2 s2 ->
  exists ks' cs', inner_put num ks cs k c2 up = Ret (S num, ks', cs') /\
    node lo hi (S num) ks' cs' (ls1 ++ (s1 ++ s2) ++ ls2) /\ (forall i, (num < i)%nat -> ks' !! i = ks !! i).
Proof.
  intros Hh Hn Hc Hup H1 H2. pose proof (hole_index _ _ _ _ _ _ _ _ _ _ Hh) as Hk.
  destruct Hh as ((Hn1 & Hlk & Hlc) & Hlu & ks1 & ks2 & ts1 & c0 & ts2 & Eks & Hk1 & Hk2 & Ecs & Hs1 & Hs2).
  pose proof (child_at_app _ _ _ _ _ Ecs) as Hc'. rewrite Hk2, Hc in Hc'. simplify_eq.
  destruct (array_insert_spec ks num (length ks1) up) as (ks' & Ek & Lk & Tk & Hhi); [lia|].
  destruct (array_insert_spec cs (S num) (S (length ks1)) (Some c2)) as (cs' & Ec & Lc & Tc & _); [lia|].
  exists ks', cs'. split; [|split; [split|done]].
  - unfold inner_put. rewrite Ek. simpl. by rewrite Ec.
  - unfold arrays_ok. lia.
  - exists (ts1 ++ c0 :: c2 :: ts2). split.
    + rewrite Tc, Ecs. rewrite <- fmap_ins. f_equal.
      replace (S (length ks1)) with (length (ts1 ++ [c0])) by (rewrite length_app; simpl; lia).
      replace (ts1 ++ c0 :: ts2) with ((ts1 ++ [c0]) ++ ts2) by by rewrite <- app_assoc.
      rewrite ins_app. by rewrite <- app_assoc.
    + replace (take (S num) ks' ++ [hi]) with (ks1 ++ up :: u :: ks2).
      * rewrite <- app_assoc. eapply segs_app; [done|]. constructor; [lia|done|]. by constructor; [lia|..].
      * rewrite Tk. assert (E : drop (length ks1) (take num ks) ++ [hi] = u :: ks2).
        { apply (f_equal (drop (length ks1))) in Eks. rewrite drop_app_length in Eks.
          rewrite <- Eks, drop_app_le by (rewrite length_take; lia). done. }
        unfold ins. rewrite <- app_assoc. simpl. rewrite E. by rewrite <- (app_snoc_inv _ _ _ _ _ Eks).
Qed.

(** ** Splitting a full node *)

Definition half : nat := ((NENT + 1) / 2)%nat.

Lemma half_8 : half = 8%nat.
Proof. done. Qed.
Lemma NENT_15 : NENT = 15%nat.
Proof. done. Qed.
Ltac sizes := pose proof half_8; pose proof NENT_15; lia.

(** Arrays that begin with the upper half of those of a full node. *)
Definition upper_half (ks : list Z) (cs : list (option tree)) (sks : list Z) (scs : list (option tree)) : Prop :=
  arrays_ok (NENT - half) sks scs /\ take (NENT - half) sks = drop half ks /\ take (S (NENT - half)) scs = drop half cs.

Lemma full_keys (ks : list Z) hi up :
  length ks = NENT -> ks !! (half - 1)%nat = Some up ->
  take NENT ks ++ [hi] = (take (half - 1) ks ++ [up]) ++ (drop half ks ++ [hi]).
Proof.
  intros Hl Hup. rewrite take_ge by lia. rewrite <- (take_S_r _ _ _ Hup). change (S (half - 1)) with half.
  by rewrite app_assoc, take_drop.
Qed.

Lemma full_children (cs : list (option tree)) (ts : list tree) :
  length cs = S NENT -> take (S NENT) cs = Some <$> ts ->
  take half cs = Some <$> take half ts /\ drop half cs = Some <$> drop half ts /\ length ts = S NENT.
Proof.
  intros Hl E. rewrite take_ge in E by lia. rewrite E, !fmap_take, !fmap_drop. repeat split.
  by rewrite <- Hl, E, length_fmap.
Qed.

Lemma app_cons_left {A} (l1 m a b : list A) x :
  l1 ++ x :: m = a ++ b -> (length l1 < length a)%nat -> exists m1, a = l1 ++ x :: m1 /\ m = m1 ++ b.
Proof.
  revert a. induction l1 as [|y l1 IH]; intros [|z a] E Hl; simpl in *; try lia; injection E as -> E.
  - by exists a.
  - apply IH in E as (m1 & -> & ->); [|lia]. by exists m1.
Qed.

Lemma app_cons_right {A} (l1 m a b : list A) x :
  l1 ++ x :: m = a ++ b -> (length a <= length l1)%nat -> exists m1, l1 = a ++ m1 /\ b = m1 ++ x :: m.
Proof.
  revert a. induction l1 as [|y l1 IH]; intros [|z a] E Hl; simpl in *; try lia.
  - by exists [].
  - by exists (y :: l1).
  - injection E as -> E. apply IH in E as (m1 & -> & ->); [|lia]. by exists m1.
Qed.

Lemma segs_end lo ks ts hi ls : segs P lo ks ts hi ls -> hi = default lo (last ks).
Proof. induction 1 as [|????????? _ ? ->]; [done|]. rewrite last_cons. by destruct (last ks). Qed.

(** The hole is in the lower half. *)
Lemma hole_split_low lo hi ks cs k l u ls1 ls2 up :
  hole lo hi NENT ks cs k l u ls1 ls2 -> (k < half)%nat -> ks !! (half - 1)%nat = Some up ->
  exists lsa lsb, ls2 = lsa ++ lsb /\ lo < up < hi /\ u <= up /\
    hole lo up (half - 1) ks cs k l u ls1 lsa /\
    forall sks scs, upper_half ks cs sks scs -> node up hi (NENT - half) sks scs lsb.
Proof.
  intros ((_ & Hlk & Hlc) & Hlu & ks1 & ks2 & ts1 & c0 & ts2 & Eks & Hk1 & Hk2 & Ecs & Hs1 & Hs2) Hk Hup.
  rewrite (full_keys _ _ _ Hlk Hup) in Eks. destruct (full_children _ _ Hlc Ecs) as (Ec1 & Ec2 & Hlt).
  symmetry in Eks. apply app_cons_left in Eks as (ka & Ea & ->).
  2: { rewrite length_app, length_take. change (length [up]) with 1%nat. sizes. }
  assert (Et : ts1 ++ c0 :: ts2 = take half (ts1 ++ c0 :: ts2) ++ drop half (ts1 ++ c0 :: ts2)) by by rewrite take_drop.
  apply app_cons_left in Et as (ta & Ea' & Et2).
  2: { rewrite length_take. sizes. }
  rewrite Ea' in Ec1. rewrite Et2 in Hs2. remember (drop half (ts1 ++ c0 :: ts2)) as tb eqn:Etb.
  assert (Hla : length ka = length ta).
  { apply (f_equal length) in Ea, Ea'. rewrite length_take, Hlt, length_app, length_cons in Ea'.
    rewrite !length_app, length_take, !length_cons in Ea. change (length []) with 0%nat in Ea. sizes. }
  apply segs_app_inv in Hs2 as (mid & lsa & lsb & -> & Ha & Hb); [|done].
  assert (Emid : mid = up).
  { rewrite (segs_end _ _ _ _ _ Ha). apply (f_equal last) in Ea. rewrite last_snoc, last_app_cons, last_cons in Ea.
    by destruct (last ka); simplify_eq. }
  subst mid. pose proof (segs_le _ _ _ _ _ _ Hs1). pose proof (segs_le _ _ _ _ _ _ Ha).
  exists lsa, lsb. split; [done|]. split; [|split; [done|split]].
  - split; [lia|]. destruct (drop half ks) as [|k0 kb] eqn:Ed; simpl in Hb.
    + inversion Hb; subst. inversion select (segs _ _ [] _ _ _); subst. lia.
    + inversion Hb; subst. pose proof (segs_le _ _ _ _ _ _ ltac:(eassumption)). lia.
  - split; [unfold arrays_ok; sizes|]. split; [done|].
    exists ks1, ka, ts1, c0, ta. repeat split; try done.
  - intros sks scs (Ha1 & Ek & Ec). split; [done|]. exists tb. rewrite Ek, Ec. done.
Qed.

(** The hole is in the upper half. *)
Lemma hole_split_high lo hi ks cs k l u ls1 ls2 up :
  hole lo hi NENT ks cs k l u ls1 ls2 -> (half <= k)%nat -> ks !! (half - 1)%nat = Some up ->
  exists lsa lsb, ls1 = lsa ++ lsb /\ lo < up < hi /\ up <= l /\
    node lo up (half - 1) ks cs lsa /\
    forall sks scs, upper_half ks cs sks scs -> hole up hi (NENT - half) sks scs (k - half) l u lsb ls2.
Proof.
  intros ((_ & Hlk & Hlc) & Hlu & ks1 & ks2 & ts1 & c0 & ts2 & Eks & Hk1 & Hk2 & Ecs & Hs1 & Hs2) Hk Hup.
  rewrite (full_keys _ _ _ Hlk Hup) in Eks. destruct (full_children _ _ Hlc Ecs) as (Ec1 & Ec2 & Hlt).
  assert (Hk7 : length (take (half - 1) ks ++ [up]) = half).
  { rewrite length_app, length_take. change (length [up]) with 1%nat. sizes. }
  symmetry in Eks. apply app_cons_right in Eks as (kb & -> & Eb); [|lia].
  assert (Et : ts1 ++ c0 :: ts2 = take half (ts1 ++ c0 :: ts2) ++ drop half (ts1 ++ c0 :: ts2)) by by rewrite take_drop.
  apply app_cons_right in Et as (tb & Et1 & Et2); [|rewrite length_take; lia].
  remember (take half (ts1 ++ c0 :: ts2)) as ta eqn:Eta. rewrite Et2 in Ec2. rewrite Et1 in Hs1, Hk2.
  assert (Hla : length ta = half) by (subst ta; rewrite length_take; sizes).
  rewrite length_app in Hk1, Hk2.
  apply segs_app_inv in Hs1 as (mid & lsa & lsb & -> & Ha & Hb); [|lia].
  assert (mid = up) as ->.
  { by rewrite (segs_end _ _ _ _ _ Ha), last_snoc. }
  pose proof (segs_le _ _ _ _ _ _ Hb). pose proof (segs_le _ _ _ _ _ _ Hs2).
  assert (Hlo : lo < up) by (eapply segs_key; [exact Ha|set_solver]).
  exists lsa, lsb. split; [done|]. split; [lia|]. split; [done|]. split.
  - split; [unfold arrays_ok; sizes|]. exists ta. done.
  - intros sks scs (Ha1 & Ek & Ec). split; [done|]. split; [done|].
    exists kb, ks2, tb, c0, ts2. rewrite Ek, Ec. repeat split; try done; lia.
Qed.

End Node.
