(* ===== verification/BTreeInsert.v ===== *)
(** * BTreeInsert: leaves of the B+ tree, and insertion

    The entries of a leaf and the list of leaves, and what LeafInsert does to
    both on each of its branches: the key is there, there is room, the leaf is
    full and is halved, or it is the last one and the new key starts a new leaf.

    An inner node takes a new child, splitting when it is full; InnerInsert and
    Insert_rtm keep the tree, its list of leaves and its entries in step, and
    always succeed. *)

From stdpp Require Import gmap sorting.
From S2P Require Import Prelude.
From S2P Require Import BTree.
From S2P Require Import BTreeInv.

(** ** Entries *)

Definition leaf_es (l : LeafNode) : list (Z * N) := zip (take (l_num l) (l_keys l)) (take (l_num l) (l_values l)).

Definition es (h : heap) (a : N) : list (Z * N) := from_option leaf_es [] (leaves h !! a).

Definition ents (h : heap) (ids : list N) : list (Z * N) := ids ≫= es h.

Definition leaf_wf (l : LeafNode) : Prop :=
  (l_num l <= MEM_BTREE_M)%nat /\ length (l_keys l) = MEM_BTREE_M /\ length (l_values l) = MEM_BTREE_M.

(** A leaf with keys in order, from [lo] to before [hi]. *)
Definition leaf_in (h : heap) (lo hi : Z) (a : N) : Prop :=
  exists l, leaves h !! a = Some l /\ leaf_wf l /\
    ordered (leaf_es l).*1 /\ Forall (fun k => lo <= k < hi) (leaf_es l).*1.

Lemma leaf_es_keys l : leaf_wf l -> (leaf_es l).*1 = take (l_num l) (l_keys l).
Proof. intros (? & ? & ?). apply fst_zip. rewrite !length_take. lia. Qed.

Lemma length_leaf_es l : leaf_wf l -> length (leaf_es l) = l_num l.
Proof. intros (? & ? & ?). unfold leaf_es. rewrite length_zip_with, !length_take. lia. Qed.

Lemma leaf_es_lookup l i :
  leaf_wf l -> (i < l_num l)%nat ->
  exists k v, l_keys l !! i = Some k /\ l_values l !! i = Some v /\ leaf_es l !! i = Some (k, v).
Proof.
  intros (? & ? & ?) Hi. destruct (lookup_lt_is_Some_2 (l_keys l) i) as [k Hk]; [lia|].
  destruct (lookup_lt_is_Some_2 (l_values l) i) as [v Hv]; [lia|].
  exists k, v. repeat split; try done. apply lookup_zip_with_Some. exists k, v. by rewrite !lookup_take_lt by lia.
Qed.

Lemma es_leaf h a l : leaves h !! a = Some l -> es h a = leaf_es l.
Proof. unfold es. by intros ->. Qed.

Lemma slot_le l key : leaf_wf l -> (leaf_slot l key <= l_num l)%nat.
Proof. intros (? & ? & ?). unfold leaf_slot. etrans; [apply scan_le|]. rewrite length_take. lia. Qed.

(** The slot of a key splits the entries. *)
Lemma slot_split l key :
  leaf_wf l -> ordered (leaf_es l).*1 ->
  Forall (fun e => e.1 < key) (take (leaf_slot l key) (leaf_es l)) /\
  Forall (fun e => key <= e.1) (drop (leaf_slot l key) (leaf_es l)).
Proof.
  intros Hw Hs. rewrite (leaf_es_keys _ Hw) in Hs.
  pose proof (scan_below (fun k => k <? key) (take (l_num l) (l_keys l))) as Hb.
  pose proof (scan_above (fun k => k <? key) _ Hs ltac:(intros; rewrite Z.ltb_lt in *; lia)) as Ha.
  rewrite <- (leaf_es_keys _ Hw), <- fmap_take, Forall_fmap in Hb.
  rewrite <- (leaf_es_keys _ Hw), <- fmap_drop, Forall_fmap in Ha.
  unfold leaf_slot. rewrite <- (leaf_es_keys _ Hw).
  split; eapply Forall_impl; try done; simpl; intros ??; [by apply Z.ltb_lt|by apply Z.ltb_ge].
Qed.

Lemma leaf_in_keys h lo hi a e : leaf_in h lo hi a -> e ∈ es h a -> lo <= e.1 < hi.
Proof.
  intros (l & Hl & _ & _ & Hf) He. rewrite (es_leaf _ _ _ Hl) in He. rewrite Forall_fmap, Forall_forall in Hf. by apply Hf.
Qed.

Lemma ents_app h l1 l2 : ents h (l1 ++ l2) = ents h l1 ++ ents h l2.
Proof. unfold ents. by rewrite bind_app. Qed.

Lemma ents_cons h a l : ents h (a :: l) = es h a ++ ents h l.
Proof. done. Qed.

Lemma ents_same h h' ids : (forall b, b ∈ ids -> es h' b = es h b) -> ents h' ids = ents h ids.
Proof.
  induction ids as [|a ids IH]; intros H; [done|]. rewrite !ents_cons, H by set_solver. f_equal. apply IH. set_solver.
Qed.

(** ** The list of leaves *)

Definition links (h : heap) (a : N) : option (option N * option N) := (fun l => (l_left l, l_right l)) <$> leaves h !! a.

Fixpoint dll (h : heap) (prev : option N) (ids : list N) (next : option N) : Prop :=
  match ids with
  | [] => True
  | a :: r => links h a = Some (prev, match r with [] => next | b :: _ => Some b end) /\ dll h (Some a) r next
  end.

Definition last_or (p : option N) (ids : list N) : option N :=
  match last ids with Some a => Some a | None => p end.
Definition head_or (n : option N) (ids : list N) : option N :=
  match ids with [] => n | a :: _ => Some a end.

Lemma last_or_cons p a ids : last_or p (a :: ids) = last_or (Some a) ids.
Proof. unfold last_or. rewrite last_cons. by destruct (last ids). Qed.

Lemma dll_app h l1 : forall p l2 n, dll h p (l1 ++ l2) n <-> dll h p l1 (head_or n l2) /\ dll h (last_or p l1) l2 n.
Proof.
  induction l1 as [|a l1 IH]; intros p l2 n; simpl; [tauto|].
  rewrite IH, last_or_cons. destruct l1; simpl; [|tauto]. unfold head_or. destruct l2; tauto.
Qed.

Lemma dll_same h h' p ids n : (forall b, b ∈ ids -> links h' b = links h b) -> dll h p ids n -> dll h' p ids n.
Proof.
  revert p. induction ids as [|a ids IH]; intros p Hb; simpl; [done|]. intros [H1 H2].
  rewrite Hb by set_solver. split; [done|]. apply IH; [set_solver|done].
Qed.

Lemma dll_at h p l1 a l2 n :
  dll h p (l1 ++ a :: l2) n -> links h a = Some (last_or p l1, head_or n l2).
Proof. rewrite dll_app. intros [_ [H _]]. by destruct l2. Qed.

(** A leaf is linked in behind [a]. *)
Lemma dll_insert h h' l1 a sib l2 :
  NoDup (l1 ++ a :: l2) -> sib ∉ l1 ++ a :: l2 -> dll h None (l1 ++ a :: l2) None ->
  (forall b, b ∈ l1 -> links h' b = links h b) ->
  links h' a = Some (last_or None l1, Some sib) ->
  links h' sib = Some (Some a, head_or None l2) ->
  (forall b bl br, head_or None l2 = Some b -> links h b = Some (bl, br) -> links h' b = Some (Some sib, br)) ->
  (forall b, b ∈ tail l2 -> links h' b = links h b) ->
  dll h' None (l1 ++ a :: sib :: l2) None.
Proof.
  rewrite !dll_app. intros Hnd Hsib [H1 H2] Hb Ha Hs Hh Ht. split; [by eapply dll_same|].
  simpl. split; [done|]. split; [by destruct l2|]. destruct l2 as [|b l2]; [done|]. simpl in *.
  destruct H2 as (_ & H2 & H3). split; [by eapply Hh|]. eapply dll_same; [|done]. done.
Qed.

(** ** Insertion into a leaf *)

Lemma ordered_ins ks key :
  ordered ks -> key ∉ ks -> ordered (ins (scan (fun k => k <? key) ks) key ks).
Proof.
  intros Hs Hk. pose proof (scan_below (fun k => k <? key) ks) as Hb.
  pose proof (scan_above (fun k => k <? key) _ Hs ltac:(intros; rewrite Z.ltb_lt in *; lia)) as Ha.
  set (n := scan _ ks) in *. rewrite Forall_forall in Hb, Ha. unfold ins.
  rewrite <- (take_drop n ks) in Hs, Hk. apply ordered_app in Hs as (H1 & H2 & H3).
  assert (Hlt : forall y, y ∈ drop n ks -> key < y).
  { intros y Hy. specialize (Ha y Hy). apply Z.ltb_ge in Ha. assert (y <> key) by set_solver. lia. }
  apply ordered_app. repeat split; [done| |].
  - constructor; [done|]. by apply Forall_forall.
  - intros x y Hx Hy. specialize (Hb x Hx). apply Z.ltb_lt in Hb. apply elem_of_cons in Hy as [->|Hy]; [done|].
    specialize (Hlt y Hy). lia.
Qed.

(** [l'] is [l] with the new entry at place [k]. *)
Definition put_at (k : nat) (key : Z) (v : N) (l l' : LeafNode) : Prop :=
  leaf_wf l' /\ l_num l' = S (l_num l) /\ leaf_es l' = ins k (key, v) (leaf_es l) /\
  l_left l' = l_left l /\ l_right l' = l_right l /\ l_seq l' = l_seq l.

Lemma leaf_put_spec h a l k key v :
  leaves h !! a = Some l -> leaf_wf l -> (l_num l < MEM_BTREE_M)%nat -> (k <= l_num l)%nat -> dummyval_ h = Some v ->
  exists l', leaf_put h a k key = Ret (v, set_dummies None (dummyleaf_ h) (set_leaf a l' h)) /\ put_at k key v l l'.
Proof.
  intros Hl (Hn & Hk & Hv) Hlt Hkn Hd. unfold leaf_put, leaf_at. rewrite Hl. simpl. rewrite Hd.
  destruct (array_insert_spec (l_keys l) (l_num l) k key) as (ks & Ek & Lk & Tk & _); [lia|].
  destruct (array_insert_spec (l_values l) (l_num l) k v) as (vs & Ev & Lv & Tv & _); [lia|].
  rewrite Ek. simpl. rewrite Ev. simpl. eexists. split; [done|]. repeat split; simpl; try lia.
  unfold leaf_es at 1. simpl l_num. simpl l_keys. simpl l_values. rewrite Tk, Tv. apply zip_ins. rewrite !length_take. lia.
Qed.

Definition bumped (l : LeafNode) : LeafNode :=
  mkLeaf (l_num l) (l_keys l) (l_values l) (l_left l) (l_right l) (u64 (l_seq l + 1)).

Lemma bump_seq_spec h a l : leaves h !! a = Some l -> bump_seq h a = Ret (set_leaf a (bumped l) h).
Proof. intros Hl. unfold bump_seq, leaf_at. by rewrite Hl. Qed.

(** The halves of a full leaf, or the leaf and nothing when the new key follows all. *)
Definition split_es (append : bool) (E : list (Z * N)) : list (Z * N) * list (Z * N) :=
  if append then (E, []) else (take half E, drop half E).

(** What a split makes of the leaf, its new neighbour and the old one. *)
Record split_result (h : heap) (a : N) (k : nat) (l : LeafNode) (sib : N) (append : bool)
    (toInsert : N) (k' : nat) (h' : heap) (l' s' : LeafNode) : Prop := {
  sr_heap : h' = set_leaf sib s' (set_leaf a l'
              (set_dummies (dummyval_ h) None
                 match l_right l with
                 | Some r => match leaves h !! r with Some rl => set_leaf r (set_left (Some sib) rl) h | None => h end
                 | None => h
                 end));
  sr_append : append = bool_decide (l_right l = None) && (k =? l_num l)%nat;
  sr_wf : leaf_wf l' /\ leaf_wf s';
  sr_es : leaf_es l' = (split_es append (leaf_es l)).1 /\ leaf_es s' = (split_es append (leaf_es l)).2;
  sr_num : l_num s' = length (leaf_es s') /\ l_num l' = length (leaf_es l');
  sr_links : l_left l' = l_left l /\ l_right l' = Some sib /\ l_left s' = Some a /\ l_right s' = l_right l;
  sr_seq : l_seq l' = l_seq l /\ l_seq s' = 0;
  sr_place : (toInsert, k') = if append then (sib, 0%nat) else if (half <=? k)%nat then (sib, (k - half)%nat) else (a, k)
}.

Lemma leaf_split_spec h a l k sib sl :
  leaves h !! a = Some l -> leaf_wf l -> l_num l = MEM_BTREE_M -> (k <= l_num l)%nat ->
  dummyleaf_ h = Some sib -> leaves h !! sib = Some sl -> leaf_wf sl ->
  (forall r, l_right l = Some r -> is_Some (leaves h !! r)) ->
  exists append toInsert k' h' l' s', leaf_split h a k = Ret (toInsert, k', sib, h') /\
    split_result h a k l sib append toInsert k' h' l' s'.
Proof.
  intros Hl (Hn & Hk & Hv) Hfull Hkn Hd Hs (Hsn & Hsk & Hsv) Hr. unfold leaf_split, leaf_at, new_leaf_node, split_es.
  change ((MEM_BTREE_M + 1) / 2)%nat with half. pose proof half_8 as H8. assert (HM : MEM_BTREE_M = 15%nat) by done.
  rewrite Hl. unfold mbind. cbn [res_bind]. rewrite Hd. cbn [res_bind fst snd].
  change (leaves (set_dummies (dummyval_ h) None h)) with (leaves h). rewrite Hs. cbn [res_bind].
  set (append := bool_decide (l_right l = None) && (k =? l_num l)%nat).
  destruct append eqn:Ea.
  - assert (Hrn : l_right l = None).
    { unfold append in Ea. apply andb_prop in Ea as [E _]. by apply bool_decide_eq_true in E. }
    rewrite Hrn. simpl. exists true. do 5 eexists. split; [done|].
    split; [rewrite Hrn; reflexivity|symmetry; exact Ea|..]; simpl; rewrite ?Hrn; try done.
    + unfold leaf_wf. simpl. repeat split; lia.
    + split; [done|]. unfold leaf_es. simpl. rewrite length_zip_with, !length_take. lia.
  - assert (Hes : forall q, leaf_es (mkLeaf half (l_keys l) (l_values l) (l_left l) q (l_seq l)) = take half (leaf_es l)).
    { intros q. unfold leaf_es. simpl l_num. simpl l_keys. simpl l_values. rewrite zip_with_take, !take_take. by rewrite Nat.min_l by lia. }
    assert (Hes' : forall q r z, leaf_es (mkLeaf (l_num l - half) (copy_range (l_keys sl) (l_keys l) half (l_num l - half))
                     (copy_range (l_values sl) (l_values l) half (l_num l - half)) q r z) = drop half (leaf_es l)).
    { intros q r z. unfold leaf_es. simpl l_num. simpl l_keys. simpl l_values. rewrite !copy_range_take by lia.
      rewrite zip_with_drop, !skipn_firstn_comm. done. }
    exists false. assert (Ea' : false = bool_decide (l_right l = None) && (k =? l_num l)%nat) by (symmetry; exact Ea).
    clear Ea append. destruct (l_right l) as [r|] eqn:Er in Hr |- *; [destruct (Hr r eq_refl) as [rl Hrl]; simpl in Hrl|].
    all: destruct (half <=? k)%nat eqn:Ek; cbn [res_bind l_right set_dummies leaves]; rewrite ?Hrl; cbn [res_bind]; do 5 eexists; (split; [done|]).
    all: (split; [rewrite Er, ?Hrl; reflexivity|exact Ea'|..]); unfold set_right; cbn [l_num l_keys l_values l_left l_right l_seq fst snd].
    all: rewrite ?Ek, ?Er, ?Hes, ?Hes'; try done; unfold leaf_wf; cbn [l_num l_keys l_values].
    all: rewrite ?length_copy_range by lia; rewrite ?length_take, ?length_drop, ?(length_leaf_es l) by (unfold leaf_wf; lia).
    all: repeat split; lia.
Qed.

(** The leaves after the right neighbour [r] has been told of its new left one. *)
Definition relink (sib : N) (r : option N) (ls : gmap N LeafNode) : gmap N LeafNode :=
  match r with
  | Some r => alter (set_left (Some sib)) r ls
  | None => ls
  end.

Lemma split_ins append (E : list (Z * N)) k x :
  (k <= length E)%nat -> (append = true -> k = length E) ->
  (split_es append E).1 ++ ins (if append then 0 else k - half) x (split_es append E).2 = ins k x E \/
  append = false /\ (k < half)%nat.
Proof.
  intros Hk Ha. destruct append; simpl.
  - left. rewrite Ha by done. by rewrite <- (app_nil_r E) at 3; rewrite ins_app.
  - destruct (decide (k < half)%nat) as [|Hge]; [by right|left]. unfold ins. rewrite app_assoc.
    rewrite drop_drop. replace (half + (k - half))%nat with k by lia. f_equal.
    rewrite <- (take_drop half (take k E)), take_take, Nat.min_l by lia. f_equal.
    by rewrite skipn_firstn_comm.
Qed.

Lemma ins_low (E : list (Z * N)) k n x : (k <= n)%nat -> ins k x (take n E) ++ drop n E = ins k x E.
Proof.
  intros Hk. unfold ins. rewrite take_take, Nat.min_l by lia. rewrite <- app_assoc. simpl. do 2 f_equal.
  rewrite <- (take_drop (n - k) (drop k E)). rewrite drop_drop, skipn_firstn_comm. do 2 f_equal. lia.
Qed.

(** A full leaf: afterwards the old entries and the new one are in order in the
    leaf and its new neighbour, neither of which is empty. *)
Lemma leaf_split_put h a l k sib sl key v :
  leaves h !! a = Some l -> leaf_wf l -> l_num l = MEM_BTREE_M -> (k <= l_num l)%nat ->
  dummyval_ h = Some v -> dummyleaf_ h = Some sib -> leaves h !! sib = Some sl -> leaf_wf sl -> a <> sib ->
  (forall r, l_right l = Some r -> is_Some (leaves h !! r) /\ r <> a /\ r <> sib) ->
  exists la ls,
    (s ← leaf_split h a k; let '(toInsert, k, sib, h) := s in
     r ← leaf_put h toInsert k key; h ← bump_seq r.2 a; Ret (Some sib, r.1, h)) =
      Ret (Some sib, v, mkHeap (<[sib := ls]> (<[a := la]> (relink sib (l_right l) (leaves h)))) (bnodes h) (fresh h) None None) /\
    leaf_wf la /\ leaf_wf ls /\ leaf_es la ++ leaf_es ls = ins k (key, v) (leaf_es l) /\
    leaf_es la <> [] /\ leaf_es ls <> [] /\ (length (leaf_es ls) = 1%nat -> l_right l = None) /\
    l_left la = l_left l /\ l_right la = Some sib /\ l_left ls = Some a /\ l_right ls = l_right l /\
    l_seq la = u64 (l_seq l + 1).
Proof.
  intros Hl Hw Hfull Hk Hv Hd Hs Hws Hne Hr.
  destruct (leaf_split_spec h a l k sib sl) as (append & to & k' & h' & l' & s' & -> & [Eh Eap [Hwl Hwss] [El Es] [Ns Nl] (? & ? & ? & ?) [Hsq _] Epl]);
    try done; [by intros r ?; apply Hr|]. cbn [mbind res_bind].
  assert (Hrl : match l_right l with
     | Some r => match leaves h !! r with Some rl => set_leaf r (set_left (Some sib) rl) h | None => h end
     | None => h end = with_leaves (relink sib (l_right l) (leaves h)) h).
  { destruct (l_right l) as [r|] eqn:Er; [|by destruct h]. destruct (Hr r eq_refl) as [[rl E] _]. rewrite E.
    unfold set_leaf, relink. f_equal. apply map_eq. intros i. destruct (decide (i = r)) as [->|].
    - by rewrite lookup_insert_eq, lookup_alter_eq, E.
    - by rewrite lookup_insert_ne, lookup_alter_ne by done. }
  rewrite Hrl in Eh. assert (Hlen : length (leaf_es l) = 15%nat) by (rewrite length_leaf_es by done; done).
  assert (Hap : append = true -> k = length (leaf_es l)).
  { intros ->. symmetry in Eap. apply andb_prop in Eap as [_ E]. apply Nat.eqb_eq in E. rewrite length_leaf_es; done. }
  assert (Hk15 : (k <= length (leaf_es l))%nat) by (rewrite length_leaf_es; done). pose proof half_8 as H8.
  assert (HM : MEM_BTREE_M = 15%nat) by done.
  assert (Hhead : leaf_es l' <> [] /\ (length (leaf_es s') <= 7)%nat /\ (append = false -> length (leaf_es s') = 7 /\ length (leaf_es l') = 8)%nat /\
                  (append = true -> leaf_es s' = [])).
  { rewrite El, Es. unfold split_es. destruct append; simpl.
    - split; [by intros E; rewrite E in Hlen|]. split; [lia|]. done.
    - rewrite length_drop, length_take. split; [|split; [lia|split; [lia|done]]].
      intros E. apply (f_equal length) in E. rewrite length_take, Hlen, H8 in E. done. }
  destruct Hhead as (Hl' & Hs7 & Hs7' & Hs0).
  destruct (decide (append = false /\ (k < half)%nat)) as [[-> Hlow]|Hhigh].
  - rewrite (proj2 (Nat.leb_gt _ _)) in Epl by lia. injection Epl as -> ->.
    destruct (Hs7' eq_refl) as [Ls Ll].
    destruct (leaf_put_spec h' a l' k key v) as (l'' & -> & (Hw2 & _ & Ee & E1 & E2 & E3)); subst h'; simpl; try done; try lia.
    { by rewrite lookup_insert_ne, lookup_insert_eq by done. }
    cbn [mbind res_bind fst snd]. erewrite bump_seq_spec; [|simpl; apply lookup_insert_eq]. simpl.
    exists (bumped l''), s'. split.
    { unfold set_leaf, with_leaves. simpl. do 2 f_equal. f_equal. rewrite insert_insert_eq.
      rewrite insert_insert_ne by done. by rewrite insert_insert_eq. }
    change (leaf_es (bumped l'')) with (leaf_es l''). rewrite Ee, El, Es.
    split; [done|]. split; [done|]. split; [apply ins_low; lia|].
    split; [intros E; apply (f_equal length) in E; by rewrite length_ins in E|].
    rewrite <- Es. split; [intros E; rewrite E in Ls; done|]. split; [lia|]. unfold bumped. simpl. rewrite E1, E2, E3, Hsq. done.
  - assert (Hpl : to = sib /\ k' = if append then 0%nat else (k - half)%nat).
    { destruct append; [by simplify_eq|]. rewrite (proj2 (Nat.leb_le _ _)) in Epl by (apply not_and_l in Hhigh as [?|?]; [done|lia]). by simplify_eq. }
    destruct Hpl as [-> ->].
    destruct (leaf_put_spec h' sib s' (if append then 0 else k - half)%nat key v) as (s'' & -> & (Hw2 & _ & Ee & E1 & E2 & E3)); subst h'; simpl; try done; try lia.
    { by rewrite lookup_insert_eq. }
    { destruct append; [lia|]. destruct (Hs7' eq_refl). lia. }
    cbn [mbind res_bind fst snd]. erewrite bump_seq_spec; [|simpl; rewrite !lookup_insert_ne by done; apply lookup_insert_eq]. simpl.
    exists (bumped l'), s''. split.
    { unfold set_leaf, with_leaves. simpl. do 2 f_equal. f_equal. rewrite insert_insert_eq.
      rewrite insert_insert_ne by done. by rewrite insert_insert_eq. }
    change (leaf_es (bumped l')) with (leaf_es l'). split; [done|]. split; [done|].
    split. { rewrite Ee, El, Es. by destruct (split_ins append (leaf_es l) k (key, v)) as [E|]. }
    split; [done|]. split; [rewrite Ee; intros E; apply (f_equal length) in E; by rewrite length_ins in E|].
    split. { rewrite Ee, length_ins. intros E. destruct append; [|destruct (Hs7' eq_refl); lia].
             symmetry in Eap. apply andb_prop in Eap as [E' _]. by apply bool_decide_eq_true in E'. }
    unfold bumped. simpl. rewrite E1, E2, Hsq. done.
Qed.

(** ** What an insertion does to the leaves *)

(** All of a leaf but its links. *)
Definition data (h : heap) (b : N) : option (nat * list Z * list N * Z) :=
  (fun l => (l_num l, l_keys l, l_values l, l_seq l)) <$> leaves h !! b.

Lemma data_es h h' b : data h' b = data h b -> es h' b = es h b.
Proof. unfold data, es. destruct (leaves h' !! b) as [[]|], (leaves h !! b) as [[]|]; simpl; naive_solver. Qed.

Lemma leaf_in_same h h' lo hi b : data h' b = data h b -> leaf_in h lo hi b -> leaf_in h' lo hi b.
Proof.
  unfold data. intros E (l & Hl & Hw & Ho). rewrite Hl in E. destruct (leaves h' !! b) as [l'|] eqn:Hl'; simpl in E; [|done].
  exists l'. split; [done|]. injection E as E1 E2 E3 _. unfold leaf_wf, leaf_es in *. rewrite E1, E2, E3. done.
Qed.

(** Only a lone leaf may be empty. *)
Definition filled (h : heap) (ids : list N) : Prop := (length ids <= 1)%nat \/ forall b, b ∈ ids -> es h b <> [].

(** The entry for [key] is new; [sib], the spare leaf, may have been used up. *)
Record grown (key : Z) (v sib : N) (h : heap) (ids : list N) (h' : heap) (ids' : list N) : Prop := {
  gr_dll : dll h' None ids' None;
  gr_nodup : NoDup ids';
  gr_ids : ids' = ids /\ dummyleaf_ h' = Some sib /\ leaves h' !! sib = leaves h !! sib \/
           ids' ≡ₚ sib :: ids /\ dummyleaf_ h' = None;
  gr_ents : ents h' ids' ≡ₚ (key, v) :: ents h ids;
  gr_rest : bnodes h' = bnodes h /\ fresh h' = fresh h /\ dummyval_ h' = None /\ dom (leaves h') = dom (leaves h);
  gr_seq : forall b l, b ∈ ids -> leaves h !! b = Some l -> exists l', leaves h' !! b = Some l' /\
             (l_seq l' = l_seq l /\ leaf_es l' = leaf_es l \/ l_seq l' = u64 (l_seq l + 1));
  gr_filled : filled h ids -> filled h' ids'
}.

Section LeafInsert.
Context (h : heap) (pre : list N) (a : N) (post : list N) (l sl : LeafNode) (lo hi key : Z) (v sib : N).
Context (Hl : leaves h !! a = Some l) (Hw : leaf_wf l) (Ho : ordered (leaf_es l).*1)
        (Hin : Forall (fun k => lo <= k < hi) (leaf_es l).*1).
Context (Hnd : NoDup (pre ++ a :: post)) (Hdll : dll h None (pre ++ a :: post) None).
Context (Hv : dummyval_ h = Some v) (Hd : dummyleaf_ h = Some sib) (Hs : leaves h !! sib = Some sl) (Hws : leaf_wf sl)
        (Hsib : sib ∉ pre ++ a :: post) (Hkey : lo <= key < hi) (Hnew : key ∉ (leaf_es l).*1).

Abbreviation k := (leaf_slot l key).
Abbreviation E' := (ins k (key, v) (leaf_es l)).

Lemma new_entries_ordered : ordered E'.*1.
Proof using Hw Ho Hnew. rewrite fmap_ins. unfold leaf_slot. rewrite <- leaf_es_keys by done. by apply ordered_ins. Qed.

Lemma new_entries_range x : x ∈ E'.*1 -> lo <= x < hi.
Proof using Hin Hkey.
  rewrite (ins_perm k (key, v) (leaf_es l)). simpl. rewrite Forall_forall in Hin.
  intros [->|Hx]%elem_of_cons; [done|by apply Hin].
Qed.

(** The entries of the leaves, when only [a]'s change. *)
Lemma ents_change h' (mid : list N) :
  (forall b, b <> a -> b <> sib -> es h' b = es h b) -> ents h' mid ≡ₚ E' ->
  ents h' (pre ++ mid ++ post) ≡ₚ (key, v) :: ents h (pre ++ a :: post).
Proof using All.
  intros Hsame Hmid. apply NoDup_app in Hnd as (_ & Hpa & [Hap _]%NoDup_cons).
  rewrite !ents_app, ents_cons, (es_leaf _ _ _ Hl), Hmid, ins_perm.
  rewrite (ents_same h h' pre) by (intros b Hb; apply Hsame; set_solver).
  rewrite (ents_same h h' post) by (intros b Hb; apply Hsame; set_solver).
  cbn [app]. by rewrite <- Permutation_middle.
Qed.

Lemma leaf_insert_room :
  (l_num l < MEM_BTREE_M)%nat ->
  exists h', (r ← leaf_put h a k key; h ← bump_seq r.2 a; Ret (None : option N, r.1, h)) = Ret (None, v, h') /\
    (forall b, b <> a -> b <> sib -> data h' b = data h b) /\ leaf_in h' lo hi a /\
    grown key v sib h (pre ++ a :: post) h' (pre ++ a :: post).
Proof using All.
  intros Hroom. pose proof (slot_le l key Hw) as Hk.
  destruct (leaf_put_spec h a l k key v) as (l' & -> & (Hw' & _ & Ee & E1 & E2 & E3)); try done.
  cbn [mbind res_bind fst snd]. erewrite bump_seq_spec; [|simpl; apply lookup_insert_eq]. cbn [mbind res_bind].
  eexists. split; [done|]. unfold set_leaf, with_leaves, set_dummies. simpl. rewrite insert_insert_eq.
  set (h' := mkHeap _ _ _ _ _).
  assert (Hla : leaves h' !! a = Some (bumped l')) by apply lookup_insert_eq.
  assert (Hother : forall b, b <> a -> leaves h' !! b = leaves h !! b) by (intros b Hb; by apply lookup_insert_ne).
  assert (Hesa : es h' a = E') by (by rewrite (es_leaf _ _ _ Hla); change (leaf_es (bumped l')) with (leaf_es l')).
  split; [intros b Hb _; unfold data; by rewrite Hother|]. split.
  - exists (bumped l'). split; [done|]. split; [done|]. change (leaf_es (bumped l')) with (leaf_es l'). rewrite Ee.
    split; [apply new_entries_ordered|]. apply Forall_forall. apply new_entries_range.
  - split.
    + eapply dll_same; [|done]. intros b _. unfold links. destruct (decide (b = a)) as [->|]; [|by rewrite Hother].
      rewrite Hla, Hl. simpl. by rewrite E1, E2.
    + done.
    + left. split; [done|]. split; [done|]. apply Hother. set_solver.
    + apply (ents_change h' [a]); [intros b ? _; unfold es; by rewrite Hother|].
      rewrite ents_cons, Hesa. unfold ents. simpl. by rewrite app_nil_r.
    + repeat split; simpl; try done. rewrite dom_insert_L. apply elem_of_dom_2 in Hl. set_solver.
    + intros b lb _ Hb. destruct (decide (b = a)) as [->|]; [|rewrite Hother by done; by eauto].
      rewrite Hl in Hb. injection Hb as <-. exists (bumped l'). split; [done|]. right. simpl. by rewrite E3.
    + intros [|Hf]; [by left|right]. intros b Hb. destruct (decide (b = a)) as [->|].
      * rewrite Hesa. intros E%(f_equal length). by rewrite length_ins in E.
      * unfold es. rewrite Hother by done. by apply Hf.
Qed.

(** The neighbours of the leaf in the list. *)
Lemma leaf_neighbours : l_left l = last_or None pre /\ l_right l = head_or None post.
Proof using All. pose proof (dll_at _ _ _ _ _ _ Hdll) as H. unfold links in H. rewrite Hl in H. by injection H. Qed.

Lemma right_in_post r : l_right l = Some r -> r ∈ post /\ is_Some (leaves h !! r) /\ r <> a /\ r <> sib /\ r ∉ pre.
Proof using All.
  destruct leaf_neighbours as [_ ->]. destruct post as [|r' q]; [done|]. intros [= ->].
  pose proof Hdll as H. replace (pre ++ a :: r :: q) with ((pre ++ [a]) ++ r :: q) in H by by rewrite <- app_assoc.
  apply dll_at in H. unfold links in H. destruct (leaves h !! r) eqn:Er; [|done].
  apply NoDup_app in Hnd as (_ & Hpa & [Hap _]%NoDup_cons). set_solver.
Qed.

Lemma leaf_insert_split :
  l_num l = MEM_BTREE_M ->
  exists h' k0 s, (s ← leaf_split h a k; let '(toInsert, k, sib, h) := s in
     r ← leaf_put h toInsert k key; h ← bump_seq r.2 a; Ret (Some sib, r.1, h)) = Ret (Some sib, v, h') /\
    (forall b, b <> a -> b <> sib -> data h' b = data h b) /\
    leaves h' !! sib = Some s /\ l_keys s !! 0%nat = Some k0 /\ lo < k0 < hi /\ leaf_in h' lo k0 a /\ leaf_in h' k0 hi sib /\
    (l_num s = 1%nat -> post = []) /\
    grown key v sib h (pre ++ a :: post) h' (pre ++ a :: sib :: post).
Proof using All.
  intros Hfull. destruct leaf_neighbours as [Hleft Hright].
  assert (Hsa : a <> sib) by set_solver.
  destruct (leaf_split_put h a l k sib sl key v) as (la & ls & -> & Hwa & Hwls & Hes & Ha0 & Hs0 & Hone & L1 & L2 & L3 & L4 & Hsq);
    try done; [by apply slot_le|intros r Hr; by apply right_in_post in Hr as (_ & ? & ? & ? & _)|].
  set (h' := mkHeap (<[sib := ls]> _) _ _ _ _). exists h'.
  assert (Hla : leaves h' !! a = Some la) by (simpl; by rewrite lookup_insert_ne, lookup_insert_eq by done).
  assert (Hls : leaves h' !! sib = Some ls) by apply lookup_insert_eq.
  assert (Hother : forall b, b <> a -> b <> sib -> l_right l <> Some b -> leaves h' !! b = leaves h !! b).
  { intros b Hb1 Hb2 Hb3. simpl. rewrite !lookup_insert_ne by done. unfold relink. destruct (l_right l) as [r|]; [|done].
    apply lookup_alter_ne. naive_solver. }
  assert (Hrt : forall r rl, l_right l = Some r -> leaves h !! r = Some rl -> leaves h' !! r = Some (set_left (Some sib) rl)).
  { intros r rl Hr Hrl. destruct (right_in_post r Hr) as (_ & _ & ? & ? & _). simpl.
    rewrite !lookup_insert_ne by done. unfold relink. rewrite Hr. by rewrite lookup_alter_eq, Hrl. }
  assert (Hdata : forall b, b <> a -> b <> sib -> data h' b = data h b).
  { intros b ??. unfold data. destruct (decide (l_right l = Some b)) as [Hr|]; [|by rewrite Hother].
    destruct (right_in_post b Hr) as (_ & [rl E] & _). by rewrite (Hrt b rl), E. }
  assert (Hesa : es h' a = leaf_es la) by (by apply es_leaf). assert (Hess : es h' sib = leaf_es ls) by (by apply es_leaf).
  pose proof new_entries_ordered as Hord. pose proof new_entries_range as Hran. rewrite <- Hes in Hord, Hran.
  rewrite fmap_app in Hord, Hran. apply ordered_app in Hord as (Ho1 & Ho2 & Ho3).
  assert (Hnls : (0 < l_num ls)%nat).
  { rewrite <- length_leaf_es by done. destruct (leaf_es ls); [done|simpl; lia]. }
  destruct (leaf_es_lookup ls 0 Hwls Hnls) as (k0 & v0 & Hk0 & _ & He0).
  assert (Hk0in : k0 ∈ (leaf_es ls).*1) by (apply list_elem_of_fmap; exists (k0, v0); split; [done|by eapply list_elem_of_lookup_2]).
  exists k0, ls. split; [done|]. split; [done|]. split; [done|]. split; [done|].
  destruct (leaf_es la) as [|[ka va] Ea] eqn:Ela; [done|].
  assert (Hlt : lo < k0 < hi).
  { specialize (Ho3 ka k0 ltac:(set_solver) Hk0in). pose proof (Hran ka ltac:(set_solver)). pose proof (Hran k0 ltac:(set_solver)). lia. }
  split; [done|]. split; [|split; [|split]].
  - exists la. rewrite Ela. split; [done|]. split; [done|]. split; [done|]. apply Forall_forall. intros x Hx.
    specialize (Ho3 x k0 Hx Hk0in). pose proof (Hran x ltac:(set_solver)). lia.
  - exists ls. split; [done|]. split; [done|]. split; [done|]. apply Forall_forall. intros x Hx.
    pose proof (Hran x ltac:(set_solver)). split; [|lia]. destruct (leaf_es ls) as [|e Es]; [done|]. injection He0 as ->.
    simpl in Hx, Ho2. apply elem_of_cons in Hx as [->|Hx]; [lia|]. inversion Ho2 as [|?? _ Hf]; subst.
    rewrite Forall_forall in Hf. specialize (Hf x Hx). lia.
  - intros E. rewrite <- length_leaf_es in E by done. specialize (Hone E). rewrite Hright in Hone. by destruct post.
  - assert (Hnd' := Hnd). apply NoDup_app in Hnd' as (Hnp & Hpa & [Hap Hnq]%NoDup_cons). split.
    + apply (dll_insert h); try done.
      * intros b Hb. unfold links. rewrite Hother; [done|set_solver|set_solver|]. intros Hr. by apply right_in_post in Hr as (_ & _ & _ & _ & ?).
      * unfold links. rewrite Hla. simpl. by rewrite L1, L2, Hleft.
      * unfold links. rewrite Hls. simpl. by rewrite L3, L4, Hright.
      * intros b bl br Hb. rewrite <- Hright in Hb. unfold links. destruct (leaves h !! b) as [lb|] eqn:Eb; [|done].
        intros [= <- <-]. by rewrite (Hrt b lb Hb Eb).
      * intros b Hb. unfold links. destruct post as [|r q] eqn:Ep; [set_solver|]. simpl in *.
        rewrite Hother; [done|set_solver|set_solver|]. rewrite Hright. intros [= ->]. apply NoDup_cons in Hnq. set_solver.
    + replace (pre ++ a :: sib :: post) with ((pre ++ [a]) ++ sib :: post) by by rewrite <- app_assoc.
      rewrite <- Permutation_middle. rewrite <- app_assoc. simpl. by constructor.
    + right. split; [|done]. replace (pre ++ a :: sib :: post) with ((pre ++ [a]) ++ sib :: post) by by rewrite <- app_assoc.
      rewrite <- Permutation_middle. by rewrite <- app_assoc.
    + apply (ents_change h' [a; sib]); [intros b ??; by apply data_es, Hdata|].
      rewrite !ents_cons, Hesa, Hess. unfold ents at 1. simpl. rewrite app_nil_r. by rewrite <- Hes.
    + repeat split; simpl; try done. rewrite !dom_insert_L. unfold relink.
      assert (dom (match l_right l with Some r => alter (set_left (Some sib)) r (leaves h) | None => leaves h end) = dom (leaves h)) as ->.
      { destruct (l_right l); [apply dom_alter_L|done]. }
      apply elem_of_dom_2 in Hl, Hs. set_solver.
    + intros b lb Hb Elb. destruct (decide (b = a)) as [->|].
      { rewrite Hl in Elb. injection Elb as <-. exists la. split; [done|by right]. }
      assert (b <> sib) by set_solver. destruct (decide (l_right l = Some b)) as [Hr|]; [|rewrite Hother by done; eauto].
      rewrite (Hrt b lb Hr Elb). eexists. split; [done|by left].
    + intros Hf. right. intros b Hb. destruct (decide (b = a)) as [->|]; [by rewrite Hesa|].
      destruct (decide (b = sib)) as [->|]; [by rewrite Hess|]. rewrite (data_es h h' b) by by apply Hdata.
      destruct Hf as [Hf|Hf]; [|apply Hf; set_solver]. exfalso. rewrite length_app in Hf. simpl in Hf.
      destruct pre, post; simpl in *; try lia. set_solver.
Qed.

End LeafInsert.

(** * Insertion into the B+ tree *)

(** ** A new child *)

Definition nodet (P : Z -> Z -> tree -> list (N * Z) -> Prop) (lo hi : Z) (t : tree) (ls : list (N * Z)) : Prop :=
  match t with
  | Leaf _ => False
  | Inner num ks cs => node P lo hi num ks cs ls
  end.

(** A new sibling carries the key that moves up in its last place; it has one
    child only if that was appended to the last node of its level. *)
Definition sib_ok (s : tree) (up : Z) (append : Prop) : Prop :=
  match s with
  | Leaf _ => False
  | Inner n sks _ => sks !! (NENT - 1)%nat = Some up /\ (n = 0%nat -> append)
  end.

Lemma upper_half_copy ks cs up lastc :
  length ks = NENT -> length cs = S NENT -> cs !! NENT = Some lastc ->
  let sks := <[(NENT - 1)%nat := up]> (copy_range (replicate NENT 0) ks half (NENT - half)) in
  let scs := <[(NENT - half)%nat := lastc]> (copy_range (replicate (S NENT) None) cs half (NENT - half)) in
  upper_half ks cs sks scs /\ sks !! (NENT - 1)%nat = Some up.
Proof.
  intros Hk Hc Hlast sks scs. pose proof half_8. pose proof NENT_15.
  assert (Lk : length (copy_range (replicate NENT 0) ks half (NENT - half)) = NENT)
    by (rewrite length_copy_range; rewrite ?length_replicate; lia).
  assert (Lc : length (copy_range (replicate (S NENT) (None : option tree)) cs half (NENT - half)) = S NENT)
    by (rewrite length_copy_range; rewrite ?length_replicate; lia).
  split; [|apply list_lookup_insert_eq; lia]. repeat split.
  - lia.
  - unfold sks. by rewrite length_insert.
  - unfold scs. by rewrite length_insert.
  - unfold sks. rewrite take_insert_ge, copy_range_take by lia. rewrite take_ge; [done|]. rewrite length_drop. lia.
  - unfold scs. rewrite (take_S_r _ _ lastc) by (apply list_lookup_insert_eq; lia).
    rewrite take_insert_ge, copy_range_take by lia. rewrite <- (take_drop (NENT - half) (drop half cs)) at 2. f_equal.
    rewrite drop_drop. replace (half + (NENT - half))%nat with NENT by lia.
    rewrite (drop_S _ lastc) by done. by rewrite drop_ge by lia.
Qed.

Section AddChild.
Context (P : Z -> Z -> tree -> list (N * Z) -> Prop).
Context (Pne : forall lo hi t, ~ P lo hi t []).

Lemma segs_no_leaves lo ks ts hi : segs P lo ks ts hi [] -> ks = [] /\ ts = [] /\ lo = hi.
Proof using Pne.
  assert (Hgen : forall ls, segs P lo ks ts hi ls -> ls = [] -> ks = [] /\ ts = [] /\ lo = hi); [|by intros ?%Hgen].
  intros ls. destruct 1 as [|lo k t s ks ts hi s' Hk Ht Hs]; [done|].
  intros [-> _]%app_eq_nil. by apply Pne in Ht.
Qed.

(** The new sibling with the new child alone. *)
Lemma hole_append lo hi num ks cs k l u ls1 c1 c2 up s1 s2 :
  hole P lo hi num ks cs k l u ls1 [] -> cs !! k = Some (Some c1) -> l < up < u -> P l up c1 s1 -> P up u c2 s2 ->
  lo < up < hi /\ node P lo up num ks cs (ls1 ++ s1) /\
  forall sks scs, arrays_ok 0 sks scs -> scs !! 0%nat = Some (Some c2) -> node P up hi 0 sks scs s2.
Proof using Pne.
  intros ((Hn & Hk & Hc) & Hlu & ks1 & ks2 & ts1 & c0 & ts2 & Eks & Hk1 & Hk2 & Ecs & Hs1 & Hs2) Hc1 Hup H1 H2.
  apply segs_no_leaves in Hs2 as (-> & -> & ->).
  pose proof (child_at_app _ _ _ _ _ Ecs) as Hc'. rewrite Hk2, Hc1 in Hc'. injection Hc' as <-.
  apply app_inj_tail in Eks as [<- _]. pose proof (segs_le _ _ _ _ _ _ Hs1).
  split; [lia|]. split.
  - split; [done|]. exists (ts1 ++ [c1]). split; [done|]. eapply segs_app; [done|].
    rewrite <- (app_nil_r s1). constructor; [lia|done|constructor].
  - intros sks scs Ha H0. split; [done|]. exists [c2]. split.
    + destruct scs; [done|]. injection H0 as ->. done.
    + rewrite <- (app_nil_r s2). constructor; [lia|done|constructor].
Qed.

Lemma inner_add_spec lo hi num ks cs k l u ls1 ls2 c1 c2 up s1 s2 append right y :
  hole P lo hi num ks cs k l u ls1 ls2 -> cs !! k = Some (Some c1) -> l < up < u -> P l up c1 s1 -> P up u c2 s2 ->
  (append = true -> ls2 = []) -> (forall x, right x = (x <=? y)) -> l <= y < u ->
  exists t' o, inner_add num ks cs k c2 up append right = Ret (t', o) /\
    match o with
    | None => nodet P lo hi t' (ls1 ++ (s1 ++ s2) ++ ls2)
    | Some (s, up') => exists m1 m2, m1 ++ m2 = ls1 ++ (s1 ++ s2) ++ ls2 /\ lo < up' < hi /\
        nodet P lo up' t' m1 /\ nodet P up' hi s m2 /\ sib_ok s up' (append = true)
    end.
Proof using Pne.
  intros Hh Hc1 Hup H1 H2 Hap Hri Hy. unfold inner_add. destruct (Nat.eqb_spec num NENT) as [->|Hnum].
  2: { destruct (hole_put P _ _ _ _ _ _ _ _ _ _ _ _ _ _ _ Hh ltac:(destruct Hh as [[? _] _]; lia) Hc1 Hup H1 H2) as (ks' & cs' & -> & Hnode & _).
       cbn [mbind res_bind fst snd]. do 2 eexists. split; [done|]. done. }
  pose proof half_8 as H8. pose proof NENT_15 as H15.
  pose proof Hh as ((_ & Hlk & Hlc) & _).
  destruct append; unfold new_inner_node.
  - specialize (Hap eq_refl). subst ls2. destruct (hole_append _ _ _ _ _ _ _ _ _ _ _ _ _ _ Hh Hc1 Hup H1 H2) as (Hlt & Hn & Hs).
    do 2 eexists. split; [done|]. exists (ls1 ++ s1), s2. split; [by rewrite app_nil_r, <- app_assoc|]. split; [done|]. split; [done|]. split.
    + apply Hs; [|done]. split; [lia|]. by rewrite !length_insert, !length_replicate.
    + split; [apply list_lookup_insert_eq; rewrite length_replicate; lia|done].
  - change ((NENT + 1) / 2)%nat with half.
    destruct (lookup_lt_is_Some_2 cs NENT) as [lastc Hlast]; [lia|]. rewrite Hlast.
    destruct (lookup_lt_is_Some_2 ks (half - 1)) as [upk Hupk]; [lia|]. rewrite Hupk, Hri.
    destruct (upper_half_copy ks cs upk lastc) as [Huh Hcarry]; try done.
    destruct (decide (k < half)%nat) as [Hlow|Hhigh].
    + destruct (hole_split_low P _ _ _ _ _ _ _ _ _ _ Hh Hlow Hupk) as (lsa & lsb & -> & Hb & Hu & Hhl & Hnh).
      rewrite (proj2 (Z.leb_gt _ _)) by lia.
      destruct (hole_put P _ _ _ _ _ _ _ _ _ _ _ _ _ _ _ Hhl ltac:(lia) Hc1 Hup H1 H2) as (ks' & cs' & -> & Hnode & _).
      cbn [mbind res_bind fst snd]. do 2 eexists. split; [done|]. exists (ls1 ++ (s1 ++ s2) ++ lsa), lsb.
      split; [by rewrite <- !app_assoc|]. split; [done|]. split; [done|]. split; [by apply Hnh|]. split; [done|lia].
    + destruct (hole_split_high P _ _ _ _ _ _ _ _ _ _ Hh ltac:(lia) Hupk) as (lsa & lsb & -> & Hb & Hu & Hnl & Hhh).
      rewrite (proj2 (Z.leb_le _ _)), (proj2 (Nat.leb_le _ _)) by lia. specialize (Hhh _ _ Huh).
      destruct (hole_put P _ _ _ _ _ _ _ _ _ _ c1 c2 up s1 s2 Hhh) as (ks' & cs' & -> & Hnode & Hcar); try done; [lia| |].
      { destruct Huh as (_ & _ & Et). apply hole_index in Hhh. rewrite <- (lookup_take_lt _ (S (NENT - half))) by lia.
        rewrite Et, lookup_drop. by replace (half + (k - half))%nat with k by lia. }
      cbn [mbind res_bind fst snd]. do 2 eexists. split; [done|]. exists lsa, (lsb ++ (s1 ++ s2) ++ ls2).
      split; [by rewrite <- !app_assoc|]. split; [done|]. split; [done|]. split; [done|].
      split; [rewrite Hcar by lia; done|done].
Qed.

End AddChild.

(** ** The tree *)

(** A subtree of height [d] for the keys from [lo] to before [hi], with its
    leaves and the lower ends of their ranges. *)
Fixpoint repr (h : heap) (d : nat) (lo hi : Z) (t : tree) (ls : list (N * Z)) : Prop :=
  match d, t with
  | O, Leaf a => leaf_in h lo hi a /\ ls = [(a, lo)]
  | S d, Inner _ _ _ => nodet (repr h d) lo hi t ls
  | _, _ => False
  end.

Lemma repr_S h d lo hi t ls : repr h (S d) lo hi t ls <-> nodet (repr h d) lo hi t ls.
Proof. by destruct t. Qed.

Lemma repr_nonempty h d : forall lo hi t, ~ repr h d lo hi t [].
Proof.
  induction d as [|d IH]; intros lo hi [a|num ks cs]; simpl; try tauto; [by intros [_ ?]|].
  intros (_ & ts & _ & Hs). apply (segs_no_leaves _ IH) in Hs as (E & _ & _).
  by apply (f_equal length) in E; rewrite length_app in E; simpl in E; lia.
Qed.

Lemma repr_same h h' d : forall lo hi t ls,
  (forall b, b ∈ ls.*1 -> data h' b = data h b) -> repr h d lo hi t ls -> repr h' d lo hi t ls.
Proof.
  induction d as [|d IH]; intros lo hi [a|num ks cs] ls Hd; simpl; try done.
  - intros [Ha ->]. split; [|done]. eapply leaf_in_same; [|done]. apply Hd. set_solver.
  - intros (Ha & ts & Ht & Hs). split; [done|]. exists ts. split; [done|]. eapply segs_mono; [|done].
    intros l u t s Hsub. apply IH. intros b Hb. apply Hd. set_solver.
Qed.

(** What an insertion needs: the leaves in their list, and the spare objects. *)
Record ready (h : heap) (ids : list N) (v sib : N) : Prop := {
  rd_nodup : NoDup ids;
  rd_dll : dll h None ids None;
  rd_val : dummyval_ h = Some v;
  rd_leaf : dummyleaf_ h = Some sib;
  rd_sib : exists sl, leaves h !! sib = Some sl /\ leaf_wf sl;
  rd_new : sib ∉ ids;
  rd_nonzero : forall e, e ∈ ents h ids -> e.2 <> 0%N
}.

(** What an insertion leaves behind in a part [loc] of the leaves between [pre]
    and [post]; [Q loc'] says what represents the new leaves. *)
Definition insert_post (key : Z) (h : heap) (pre : list N) (loc : list (N * Z)) (post : list N) (v sib w : N) (h' : heap)
    (Q0 : Prop) (Q : list (N * Z) -> Prop) : Prop :=
  h' = h /\ (key, w) ∈ ents h loc.*1 /\ Q0 \/
  w = v /\ (forall b, b ∉ loc.*1 -> b <> sib -> data h' b = data h b) /\
  exists loc', loc ⊆ loc' /\ grown key v sib h (pre ++ loc.*1 ++ post) h' (pre ++ loc'.*1 ++ post) /\ Q loc'.

Lemma leaf_insert_spec h pre a post lo hi key v sib :
  ready h (pre ++ a :: post) v sib -> leaf_in h lo hi a -> lo <= key < hi ->
  exists o w h', LeafInsert key a h = Ret (o, w, h') /\
    insert_post key h pre [(a, lo)] post v sib w h' (o = None) (fun loc' =>
      o = None /\ loc' = [(a, lo)] /\ leaf_in h' lo hi a \/
      o = Some sib /\ exists k0 s, loc' = [(a, lo); (sib, k0)] /\ leaves h' !! sib = Some s /\ l_keys s !! 0%nat = Some k0 /\ lo < k0 < hi /\
        leaf_in h' lo k0 a /\ leaf_in h' k0 hi sib /\ (l_num s = 1%nat -> post = [])).
Proof.
  intros [Hnd Hdll Hv Hd (sl & Hs & Hws) Hsib Hnz] (l & Hl & Hw & Ho & Hin) Hkey.
  unfold LeafInsert, leaf_at. rewrite Hl. cbn [mbind res_bind]. pose proof (slot_le l key Hw) as Hk.
  destruct (((leaf_slot l key <? l_num l)%nat && bool_decide (l_keys l !! leaf_slot l key = Some key))) eqn:Efound.
  - apply andb_prop in Efound as [Hlt Hkk]. apply Nat.ltb_lt in Hlt. apply bool_decide_eq_true in Hkk.
    destruct (leaf_es_lookup l _ Hw Hlt) as (k' & w & Hk' & Hw' & He). rewrite Hkk in Hk'. injection Hk' as <-. rewrite Hw'.
    assert (Hine : (key, w) ∈ ents h [a]).
    { unfold ents. simpl. rewrite app_nil_r, (es_leaf _ _ _ Hl). by eapply list_elem_of_lookup_2. }
    rewrite (proj2 (N.eqb_neq _ _)).
    2: { apply (Hnz (key, w)). rewrite ents_app. apply elem_of_app. right. rewrite ents_cons. unfold ents in Hine. simpl in Hine. set_solver. }
    do 3 eexists. split; [done|]. left. done.
  - assert (Hnew : key ∉ (leaf_es l).*1).
    { intros ([k1 v1] & E & Hi)%list_elem_of_fmap. simpl in E. subst k1. apply list_elem_of_lookup in Hi as [i Hi].
      destruct (slot_split l key Hw Ho) as [Hlo Hhi]. rewrite Forall_forall in Hlo, Hhi.
      assert (Hslot : (leaf_slot l key <= i)%nat).
      { destruct (decide (i < leaf_slot l key)%nat); [|lia]. exfalso.
        specialize (Hlo (key, v1)). simpl in Hlo. apply Z.lt_irrefl with key, Hlo. apply (list_elem_of_lookup_2 _ i). by rewrite lookup_take_lt. }
      apply lookup_lt_Some in Hi as Hi'. rewrite length_leaf_es in Hi' by done.
      rewrite (proj2 (Nat.ltb_lt _ _)) in Efound by lia. apply bool_decide_eq_false in Efound.
      destruct (leaf_es_lookup l (leaf_slot l key) Hw ltac:(lia)) as (k2 & v2 & Hk2 & _ & He2).
      assert (key <= k2).
      { apply (Hhi (k2, v2)). apply (list_elem_of_lookup_2 _ 0). rewrite lookup_drop. by rewrite Nat.add_0_r. }
      assert (k2 <> key) by naive_solver. 
      assert (Hlt : (leaf_slot l key < i)%nat) by (destruct (decide (i = leaf_slot l key)) as [->|]; [naive_solver|lia]).
      rewrite <- (take_drop i (leaf_es l)), fmap_app in Ho. apply ordered_app in Ho as (_ & _ & Ho).
      specialize (Ho k2 key). assert (k2 < key); [|lia]. apply Ho.
      - apply list_elem_of_fmap. exists (k2, v2). split; [done|]. apply (list_elem_of_lookup_2 _ (leaf_slot l key)). by rewrite lookup_take_lt.
      - apply list_elem_of_fmap. exists (key, v1). split; [done|]. apply (list_elem_of_lookup_2 _ 0). rewrite lookup_drop. by rewrite Nat.add_0_r. }
    destruct (Nat.eqb_spec (l_num l) MEM_BTREE_M) as [Hfull|Hroom].
    + destruct (leaf_insert_split h pre a post l sl lo hi key v sib) as (h' & k0 & s & -> & Hda & H1 & H2 & H3 & H4 & H5 & H6 & Hgr); try done.
      do 3 eexists. split; [done|]. right. split; [done|]. split; [set_solver|].
      exists [(a, lo); (sib, k0)]. split; [set_solver|]. split; [done|]. right. split; [done|]. by exists k0, s.
    + destruct (leaf_insert_room h pre a post l sl lo hi key v sib) as (h' & -> & Hda & Hla & Hgr); try done; [destruct Hw; lia|].
      do 3 eexists. split; [done|]. right. split; [done|]. split; [set_solver|].
      exists [(a, lo)]. split; [set_solver|]. split; [done|]. by left.
Qed.

(** ** From a child to its parent *)

Lemma hole_mono (P Q : Z -> Z -> tree -> list (N * Z) -> Prop) lo hi num ks cs k l u ls1 ls2 :
  (forall l u t s, s ⊆ ls1 ++ ls2 -> P l u t s -> Q l u t s) ->
  hole P lo hi num ks cs k l u ls1 ls2 -> hole Q lo hi num ks cs k l u ls1 ls2.
Proof.
  intros HPQ (Ha & Hlu & ks1 & ks2 & ts1 & c & ts2 & ? & ? & ? & ? & H1 & H2). split; [done|]. split; [done|].
  exists ks1, ks2, ts1, c, ts2. repeat split; try done.
  - eapply segs_mono; [|exact H1]. intros. apply HPQ; [set_solver|done].
  - eapply segs_mono; [|exact H2]. intros. apply HPQ; [set_solver|done].
Qed.

Lemma around pre (ls1 lsc ls2 : list (N * Z)) post :
  pre ++ (ls1 ++ lsc ++ ls2).*1 ++ post = (pre ++ ls1.*1) ++ lsc.*1 ++ ls2.*1 ++ post.
Proof. by rewrite !fmap_app, <- !app_assoc. Qed.

Lemma insert_post_lift key h pre ls1 lsc ls2 post v sib w h' Q0c Qc (Q0 : Prop) (Q : list (N * Z) -> Prop) :
  insert_post key h (pre ++ ls1.*1) lsc (ls2.*1 ++ post) v sib w h' Q0c Qc -> (Q0c -> Q0) ->
  (forall loc', (forall b, b ∉ lsc.*1 -> b <> sib -> data h' b = data h b) -> Qc loc' -> Q (ls1 ++ loc' ++ ls2)) ->
  insert_post key h pre (ls1 ++ lsc ++ ls2) post v sib w h' Q0 Q.
Proof.
  intros [(-> & Hin & H0)|(-> & Hd & loc' & Hsub & Hgr & HQ)] HQ0 HQ'.
  - left. split; [done|]. split; [|by apply HQ0]. rewrite !fmap_app, !ents_app. set_solver.
  - right. split; [done|]. split; [intros b Hb; apply Hd; rewrite !fmap_app in Hb; set_solver|].
    exists (ls1 ++ loc' ++ ls2). split; [set_solver|]. split; [|by apply HQ'].
    by rewrite !around.
Qed.

Lemma hole_frame h h' d lo hi num ks cs k l u ls1 lsc ls2 pre post v sib :
  ready h (pre ++ (ls1 ++ lsc ++ ls2).*1 ++ post) v sib ->
  (forall b, b ∉ lsc.*1 -> b <> sib -> data h' b = data h b) ->
  hole (repr h d) lo hi num ks cs k l u ls1 ls2 -> hole (repr h' d) lo hi num ks cs k l u ls1 ls2.
Proof.
  intros [Hnd _ _ _ _ Hsib _] Hd. apply hole_mono. intros l' u' t s Hs. apply repr_same. intros b Hb.
  assert (Hb' : b ∈ ls1.*1 \/ b ∈ ls2.*1) by set_solver.
  rewrite around in Hnd, Hsib. apply NoDup_app in Hnd as (_ & H1 & Hnd). apply NoDup_app in Hnd as (_ & H2 & _).
  apply Hd; set_solver.
Qed.

(** What InnerInsert leaves behind; [d] is the height of the children. *)
Definition inner_post (h' : heap) (d : nat) (lo hi : Z) (t' : tree) (o : option (tree * Z)) (post : list N) (loc' : list (N * Z)) : Prop :=
  match o with
  | None => repr h' (S d) lo hi t' loc'
  | Some (s, up) => exists m1 m2, m1 ++ m2 = loc' /\ lo < up < hi /\
      repr h' (S d) lo up t' m1 /\ repr h' (S d) up hi s m2 /\ sib_ok s up (post = [])
  end.

(** The child has been split: [inner_add] in the heap that the child left. *)
Lemma inner_add_post h' d lo hi num ks cs k l u ls1 ls2 c1 c2 up s1 s2 append right y post :
  hole (repr h' d) lo hi num ks cs k l u ls1 ls2 -> cs !! k = Some (Some c1) -> l < up < u ->
  repr h' d l up c1 s1 -> repr h' d up u c2 s2 ->
  (append = true -> ls2.*1 ++ post = []) -> (forall x, right x = (x <=? y)) -> l <= y < u ->
  exists t' o, inner_add num ks cs k c2 up append right = Ret (t', o) /\
    inner_post h' d lo hi t' o post (ls1 ++ (s1 ++ s2) ++ ls2).
Proof.
  intros Hh Hc Hup H1 H2 Hap Hri Hy.
  destruct (inner_add_spec (repr h' d) (repr_nonempty h' d) lo hi num ks cs k l u ls1 ls2 c1 c2 up s1 s2 append right y)
    as (t' & o & -> & Hpost); try done.
  { intros E. apply Hap in E. apply app_eq_nil in E as [E _]. by apply fmap_nil_inv in E. }
  exists t', o. split; [done|]. unfold inner_post. destruct o as [[s upx]|].
  - destruct Hpost as (m1 & m2 & E & Hb & Hm1 & Hm2 & Hsok). exists m1, m2. rewrite !repr_S. repeat split; try done; try lia.
    unfold sib_ok in *. destruct s; [done|]. destruct Hsok as [? Hz]. split; [done|]. intros Hn.
    specialize (Hap (Hz Hn)). by apply app_eq_nil in Hap as [_ ?].
  - by rewrite repr_S.
Qed.

(** The child's entries have changed, or its own place has been taken by its new version. *)
Lemma inner_keep_post h' d lo hi num ks cs k l u ls1 ls2 c lsc post :
  hole (repr h' d) lo hi num ks cs k l u ls1 ls2 -> cs !! k = Some (Some c) -> repr h' d l u c lsc ->
  inner_post h' d lo hi (Inner num ks cs) None post (ls1 ++ lsc ++ ls2).
Proof. intros Hh Hc Hr. simpl. by eapply hole_fill. Qed.

Lemma inner_insert_spec key v sib d : forall h lo hi t loc pre post,
  ready h (pre ++ loc.*1 ++ post) v sib -> repr h (S d) lo hi t loc -> lo <= key < hi ->
  exists t' o w h', InnerInsert (S d) key t h = Ret (t', o, w, h') /\
    insert_post key h pre loc post v sib w h' (o = None /\ repr h (S d) lo hi t' loc) (inner_post h' d lo hi t' o post).
Proof.
  induction d as [|d IH]; intros h lo hi [|num ks cs] loc pre post Hrd Hr Hkey; try done.
  - apply (node_hole _ _ _ _ _ _ _ key) in Hr as (k & l & u & ls1 & c & lsc & ls2 & Ek & Hc & Hrc & Hlk & -> & Hh); [|done].
    simpl InnerInsert. rewrite <- Ek. unfold child_at. rewrite Hc. cbn [mbind res_bind].
    destruct c as [a|]; [|done]. destruct Hrc as [Ha ->]. pose proof Hrd as Hrd'. rewrite around in Hrd'.
    destruct (leaf_insert_spec h (pre ++ ls1.*1) a (ls2.*1 ++ post) l u key v sib) as (o & w & h' & -> & Hpost); try done.
    cbn [mbind res_bind]. destruct o as [sb|].
    + destruct Hpost as [(_ & _ & ?)|(-> & Hda & loc' & Hsub & Hgr & [[? _]|(Esb & k0 & s & -> & Hs & Hk0 & Hlt & Hla & Hlb & Hone)])]; [done|done|].
      injection Esb as ->. unfold leaf_at. rewrite Hs. cbn [mbind res_bind]. rewrite Hk0.
      destruct (inner_add_post h' 0 lo hi num ks cs k l u ls1 ls2 (Leaf a) (Leaf sib) k0 [(a, l)] [(sib, k0)]
                  (l_num s =? 1)%nat (fun upKey => upKey <=? k0) k0 post) as (t' & o & -> & Hin); try done; try lia.
      { by eapply hole_frame. }
      { intros E. apply Hone. by apply Nat.eqb_eq. }
      cbn [mbind res_bind fst snd]. do 4 eexists. split; [done|].
      eapply (insert_post_lift _ _ _ _ _ _ _ _ _ _ _ False (fun l' => l' = [(a, l); (sib, k0)])); [|done|by intros ? _ ->].
      right. split; [done|]. split; [done|]. by eexists.
    + do 4 eexists. split; [done|]. eapply insert_post_lift; [exact Hpost| |].
      * intros _. split; [done|]. by eapply (inner_keep_post h 0) with (post := post).
      * intros loc' Hda [(_ & -> & Hla)|[? _]]; [|done]. eapply inner_keep_post; [by eapply hole_frame|done|done].
  - apply repr_S in Hr. apply (node_hole (repr h (S d)) _ _ _ _ _ _ key) in Hr as (k & l & u & ls1 & c & lsc & ls2 & Ek & Hc & Hrc & Hlk & -> & Hh); [|done].
    remember (S d) as d1 eqn:Ed. simpl InnerInsert. rewrite <- Ek. unfold child_at. rewrite Hc. cbn [mbind res_bind].
    subst d1. destruct c as [|cn cks ccs]; [done|]. pose proof Hrd as Hrd'. rewrite around in Hrd'.
    destruct (IH h l u (Inner cn cks ccs) lsc (pre ++ ls1.*1) (ls2.*1 ++ post)) as (c' & o & w & h' & E & Hpost); try done.
    rewrite E. cbn [mbind res_bind]. destruct o as [[s up]|].
    + destruct Hpost as [(_ & _ & ? & _)|(-> & Hda & loc' & Hsub & Hgr & m1 & m2 & <- & Hb & Hm1 & Hm2 & Hsok)]; [done|].
      pose proof (hole_frame _ _ _ _ _ _ _ _ _ _ _ _ _ _ _ _ _ _ Hrd Hda Hh) as Hh'.
      destruct (hole_child _ _ _ _ _ _ _ _ _ _ _ c' Hh') as [Hh2 Hc2].
      destruct s as [|sn sks scs]; [done|]. destruct Hsok as [Hcar Hz]. simpl in Hcar |- *. rewrite Hcar.
      destruct (inner_add_post h' (S d) lo hi num ks (<[k := Some c']> cs) k l u ls1 ls2 c' (Inner sn sks scs) up m1 m2
                  (sn =? 0)%nat (fun upKey => upKey <=? key) key post) as (t' & o & -> & Hin); try done.
      { intros Eq. apply Hz. by apply Nat.eqb_eq. }
      cbn [mbind res_bind fst snd]. do 4 eexists. split; [done|].
      eapply (insert_post_lift _ _ _ _ _ _ _ _ _ _ _ False (fun l' => l' = m1 ++ m2)); [|done|by intros ? _ ->].
      right. split; [done|]. split; [done|]. by eexists.
    + do 4 eexists. split; [done|]. eapply insert_post_lift; [exact Hpost| |].
      * intros [_ Hrc']. split; [done|]. destruct (hole_child _ _ _ _ _ _ _ _ _ _ _ c' Hh) as [Hh2 Hc2].
        by eapply (inner_keep_post h (S d)) with (post := post).
      * intros loc' Hda Hrc'. pose proof (hole_frame _ _ _ _ _ _ _ _ _ _ _ _ _ _ _ _ _ _ Hrd Hda Hh) as Hh'.
        destruct (hole_child _ _ _ _ _ _ _ _ _ _ _ c' Hh') as [Hh2 Hc2]. by eapply inner_keep_post.
Qed.

(** ** The whole tree *)

Abbreviation key_end := (2 ^ 64).

Definition represents (t : BPlusTree) (ls : list (N * Z)) : Prop :=
  exists r, root t = Some r /\ repr (hp t) (depth t) 0 key_end r ls.

Lemma new_root_repr h d lo up hi r s m1 m2 :
  lo < up < hi -> repr h d lo up r m1 -> repr h d up hi s m2 -> repr h (S d) lo hi (new_root r s up) (m1 ++ m2).
Proof.
  intros Hb H1 H2. simpl. split; [unfold arrays_ok; simpl; unfold NENT; lia|]. exists [r; s]. split; [done|]. simpl.
  constructor; [lia|done|]. rewrite <- (app_nil_r m2). constructor; [lia|done|constructor].
Qed.

Lemma insert_rtm_spec t ls key v sib :
  represents t ls -> ready (hp t) ls.*1 v sib -> 0 <= key < key_end ->
  exists w t', insert_key t key = Ret (w, t') /\
    insert_post key (hp t) [] ls [] v sib w (hp t') (represents t' ls) (represents t').
Proof.
  intros (r & Hroot & Hr) Hrd Hkey. unfold insert_key. rewrite Hroot. cbn [mbind res_bind].
  assert (Hrd' : ready (hp t) ([] ++ ls.*1 ++ []) v sib) by (by rewrite app_nil_r).
  destruct (depth t) as [|d] eqn:Ed.
  - destruct r as [a|]; [|done]. destruct Hr as [Ha ->].
    destruct (leaf_insert_spec (hp t) [] a [] 0 key_end key v sib) as (o & w & h' & -> & Hpost); try done.
    cbn [mbind res_bind]. destruct o as [sb|].
    + destruct Hpost as [(_ & _ & ?)|(-> & Hda & loc' & Hsub & Hgr & [[? _]|(Esb & k0 & s & -> & Hs & Hk0 & Hlt & Hla & Hlb & Hone)])]; [done|done|].
      injection Esb as ->. unfold leaf_at. rewrite Hs. cbn [mbind res_bind]. rewrite Hk0.
      do 2 eexists. split; [done|]. right. split; [done|]. split; [done|]. eexists. split; [done|]. split; [done|].
      eexists. split; [done|]. apply (new_root_repr h' 0 0 k0 key_end (Leaf a) (Leaf sib) [(a, 0)] [(sib, k0)]); done.
    + do 2 eexists. split; [done|]. destruct Hpost as [(-> & Hin & _)|(-> & Hda & loc' & Hsub & Hgr & [(_ & -> & Hla)|[? _]])]; [| |done].
      * left. split; [done|]. split; [done|]. exists (Leaf a). done.
      * right. split; [done|]. split; [done|]. exists [(a, 0)]. split; [done|]. split; [done|]. exists (Leaf a). done.
  - destruct (inner_insert_spec key v sib d (hp t) 0 key_end r ls [] []) as (r' & o & w & h' & E & Hpost); try done.
    rewrite E. cbn [mbind res_bind]. destruct o as [[s up]|].
    + do 2 eexists. split; [done|]. destruct Hpost as [(_ & _ & ? & _)|(-> & Hda & loc' & Hsub & Hgr & m1 & m2 & <- & Hb & Hm1 & Hm2 & _)]; [done|].
      right. split; [done|]. split; [done|]. eexists. split; [done|]. split; [done|]. eexists. split; [done|]. by apply new_root_repr.
    + do 2 eexists. split; [done|]. destruct Hpost as [(-> & Hin & _ & Hr')|(-> & Hda & loc' & Hsub & Hgr & Hr')].
      * left. split; [done|]. split; [done|]. by exists r'.
      * right. split; [done|]. split; [done|]. exists loc'. split; [done|]. split; [done|]. by exists r'.
Qed.

(** ** The leaves in order *)

(** The leaves tile the range of keys. *)
Fixpoint tiles (h : heap) (lo : Z) (ls : list (N * Z)) (hi : Z) : Prop :=
  match ls with
  | [] => lo = hi
  | (a, l) :: r => l = lo /\ exists u, lo < u /\ leaf_in h lo u a /\ tiles h u r hi
  end.

Lemma tiles_app h ls1 : forall lo ls2 hi,
  tiles h lo (ls1 ++ ls2) hi <-> exists mid, tiles h lo ls1 mid /\ tiles h mid ls2 hi.
Proof.
  induction ls1 as [|[a l] ls1 IH]; intros lo ls2 hi; simpl.
  - split; [by exists lo|]. by intros (? & -> & ?).
  - split.
    + intros (-> & u & Hu & Ha & (mid & ? & ?)%IH). exists mid. split; [|done]. split; [done|]. by exists u.
    + intros (mid & (-> & u & Hu & Ha & ?) & ?). split; [done|]. exists u. split; [done|]. split; [done|]. apply IH. by exists mid.
Qed.

Lemma tiles_le h lo ls hi : tiles h lo ls hi -> lo <= hi.
Proof. revert lo. induction ls as [|[a l] ls IH]; intros lo; simpl; [lia|]. intros (_ & u & Hu & _ & H%IH). lia. Qed.

Lemma repr_tiles h d : forall lo hi t ls, lo < hi -> repr h d lo hi t ls -> tiles h lo ls hi.
Proof.
  induction d as [|d IH]; intros lo hi [a|num ks cs] ls Hlt; simpl; try done.
  - intros [Ha ->]. simpl. split; [done|]. by exists hi.
  - intros (_ & ts & _ & Hs). clear Hlt. induction Hs as [|lo k t ls ks' ts hi ls' Hk Ht _ IHs]; [done|].
    apply tiles_app. exists k. split; [by apply (IH _ _ t)|done].
Qed.

Lemma tiles_keys h lo ls hi e : tiles h lo ls hi -> e ∈ ents h ls.*1 -> lo <= e.1 < hi.
Proof.
  revert lo. induction ls as [|[a l] ls IH]; intros lo; [intros _; set_solver|]. simpl tiles.
  intros (-> & u & Hu & Ha & Ht). rewrite ?fmap_cons, ents_cons, elem_of_app. pose proof (tiles_le _ _ _ _ Ht). intros [He|He].
  - pose proof (leaf_in_keys _ _ _ _ _ Ha He). lia.
  - pose proof (IH _ Ht He). lia.
Qed.

Lemma tiles_ordered h lo ls hi : tiles h lo ls hi -> ordered (ents h ls.*1).*1.
Proof.
  revert lo. induction ls as [|[a l] ls IH]; intros lo; [constructor|]. simpl tiles.
  intros (-> & u & Hu & Ha & Ht). rewrite ?fmap_cons, ents_cons, fmap_app. apply ordered_app. split; [|split; [by eapply IH|]].
  - destruct Ha as (la & Hla & _ & Ho & _). by rewrite <- (es_leaf _ _ _ Hla) in Ho.
  - intros x y (e & -> & He)%list_elem_of_fmap (e' & -> & He')%list_elem_of_fmap.
    pose proof (leaf_in_keys _ _ _ _ _ Ha He). pose proof (tiles_keys _ _ _ _ _ Ht He'). lia.
Qed.

(** The leaf that the search arrives at. *)
Lemma find_leaf_spec h d key : forall lo hi t ls, repr h d lo hi t ls -> lo < hi -> lo <= key < hi ->
  exists a l u ls1 ls2, FindLeaf d t key = Ret a /\ ls = ls1 ++ (a, l) :: ls2 /\ l <= key < u /\ l < u /\
    leaf_in h l u a /\ tiles h lo ls1 l /\ tiles h u ls2 hi.
Proof.
  induction d as [|d IH]; intros lo hi [a|num ks cs] ls Hr Hlt Hkey; try done.
  - destruct Hr as [Ha ->]. exists a, lo, hi, [], []. repeat split; try done; lia.
  - apply (node_hole (repr h d) _ _ _ _ _ _ key) in Hr as (k & l & u & ls1 & c & lsc & ls2 & Ek & Hc & Hrc & Hlk & -> & Hh); [|done].
    simpl FindLeaf. rewrite <- Ek. unfold child_at. rewrite Hc. cbn [mbind res_bind].
    destruct (IH _ _ _ _ Hrc ltac:(lia) Hlk) as (a & l' & u' & m1 & m2 & -> & -> & ? & ? & ? & H1 & H2).
    destruct Hh as (_ & _ & ks1 & ks2 & ts1 & c0 & ts2 & _ & _ & _ & _ & Hs1 & Hs2).
    exists a, l', u', (ls1 ++ m1), (m2 ++ ls2). split; [done|]. split; [by rewrite <- !app_assoc|]. do 3 (split; [done|]).
    assert (Htl : forall lo ks ts hi ls, segs (repr h d) lo ks ts hi ls -> tiles h lo ls hi).
    { induction 1; [done|]. apply tiles_app. eexists. split; [by eapply repr_tiles|done]. }
    split; apply tiles_app; eexists; split; eauto.
Qed.
