(* ===== verification/BTreeOps.v ===== *)
(** * BTreeOps: the operations of the B+ tree and its iterator

    The invariant of the tree between operations, and what Get, _GetWithInsert,
    Put and a write through a record do to the map that the tree stands for and
    to the leaves that iterators point to.

    Where Seek, Next, Prev and SeekToFirst leave an iterator: at the first entry
    that a lower part of the keys does not contain, or the last one that it
    does, also when the tree has grown since the iterator was positioned. *)

From stdpp Require Import gmap sorting.
From S2P Require Import Prelude.
From S2P Require Import BTree.
From S2P Require Import BTreeInv.
From S2P Require Import BTreeInsert.

Abbreviation tents t ls := (ents (hp t) (ls : list (N * Z)).*1).

(** ** The invariant *)

Record shape (t : BPlusTree) (ls : list (N * Z)) : Prop := {
  sh_repr : represents t ls;
  sh_nodup : NoDup ls.*1;
  sh_dll : dll (hp t) None ls.*1 None;
  sh_filled : filled (hp t) ls.*1
}.

(** The spare objects: none before the first insertion of a thread. *)
Definition spares (h : heap) (ls : list (N * Z)) : Prop :=
  dummyval_ h = None /\ dummyleaf_ h = None \/
  exists v sib sl, dummyval_ h = Some v /\ dummyleaf_ h = Some sib /\ bnodes h !! v = Some (mkBNode None 0) /\
    v ∉ (ents h ls.*1).*2 /\ leaves h !! sib = Some sl /\ leaf_wf sl /\ sib ∉ ls.*1.

Definition addresses (h : heap) : Prop :=
  (0 < fresh h)%N /\ (forall a, a ∈ dom (leaves h) -> (0 < a < fresh h)%N) /\ (forall a, a ∈ dom (bnodes h) -> (0 < a < fresh h)%N).

Record records (h : heap) (ls : list (N * Z)) : Prop := {
  rc_nodup : NoDup (ents h ls.*1).*2;
  rc_some : forall e, e ∈ ents h ls.*1 -> is_Some (bnodes h !! e.2)
}.

Record tree_inv (t : BPlusTree) (ls : list (N * Z)) : Prop := {
  ti_shape : shape t ls;
  ti_records : records (hp t) ls;
  ti_addr : addresses (hp t);
  ti_spares : spares (hp t) ls
}.

(** The map from keys to records. *)
Definition abs (t : BPlusTree) (ls : list (N * Z)) (m : gmap Z BNode) : Prop :=
  forall k n, m !! k = Some n <-> exists v, (k, v) ∈ tents t ls /\ bnodes (hp t) !! v = Some n.

(** ** What iterators rely on *)

(** [h'] is [h] after at most [n] insertions: leaves stay where they are, entries
    stay in the tree, and a leaf whose entries have changed has another sequence
    number. *)
Definition later (n : Z) (h : heap) (ls : list (N * Z)) (h' : heap) (ls' : list (N * Z)) : Prop :=
  0 <= n /\ ls ⊆ ls' /\ ents h ls.*1 ⊆ ents h' ls'.*1 /\
  forall b l, b ∈ ls.*1 -> leaves h !! b = Some l -> exists l', leaves h' !! b = Some l' /\
    (l_seq l' = l_seq l /\ leaf_es l' = leaf_es l \/ exists c, 0 < c <= n /\ l_seq l' = u64 (l_seq l + c)).

Lemma later_refl h ls : later 0 h ls h ls.
Proof. split; [lia|]. split; [done|]. split; [done|]. intros b l _ Hl. exists l. by split; [|left]. Qed.

Lemma later_trans n m h1 ls1 h2 ls2 h3 ls3 :
  later n h1 ls1 h2 ls2 -> later m h2 ls2 h3 ls3 -> later (n + m) h1 ls1 h3 ls3.
Proof.
  intros (Hn & S1 & E1 & H1) (Hm & S2 & E2 & H2). split; [lia|]. split; [set_solver|]. split; [set_solver|].
  intros b l Hb Hl. destruct (H1 b l Hb Hl) as (l2 & Hl2 & D1).
  destruct (H2 b l2 ltac:(set_solver) Hl2) as (l3 & Hl3 & D2). exists l3. split; [done|].
  destruct D1 as [[Q1 W1]|(c1 & Hc1 & Q1)], D2 as [[Q2 W2]|(c2 & Hc2 & Q2)].
  - left. split; congruence.
  - right. exists c2. split; [lia|congruence].
  - right. exists c1. split; [lia|congruence].
  - right. exists (c1 + c2). split; [lia|]. rewrite Q2, Q1. unfold wrap. rewrite Zplus_mod_idemp_l. f_equal. lia.
Qed.

Lemma later_same_seq n h ls h' ls' b l l' :
  later n h ls h' ls' -> n < 2 ^ 64 -> b ∈ ls.*1 -> leaves h !! b = Some l -> leaves h' !! b = Some l' ->
  l_seq l' = l_seq l -> leaf_es l' = leaf_es l.
Proof.
  intros (_ & _ & _ & H) Hn Hb Hl Hl' Hs. destruct (H b l Hb Hl) as (l2 & Hl2 & [[_ ?]|(c & Hc & Q)]); [congruence|].
  exfalso. assert (l2 = l') as -> by congruence. rewrite Hs in Q. unfold wrap in Q.
  pose proof (Z.div_mod (l_seq l + c) (2 ^ 64) ltac:(lia)). rewrite <- Q in H0.
  assert (c = 2 ^ 64 * ((l_seq l + c) / 2 ^ 64)) by lia. nia.
Qed.

(** ** Changes that leave the leaves alone *)

Lemma shape_same t t' ls :
  root t' = root t -> depth t' = depth t -> (forall b, b ∈ ls.*1 -> leaves (hp t') !! b = leaves (hp t) !! b) ->
  shape t ls -> shape t' ls.
Proof.
  intros Hr Hd Hb [(r & Hroot & Hrep) H2 H3 H4]. split.
  - exists r. rewrite Hr, Hd. split; [done|]. eapply repr_same; [|done]. intros b Hin. unfold data. by rewrite Hb.
  - done.
  - eapply dll_same; [|done]. intros b Hin. unfold links. by rewrite Hb.
  - destruct H4 as [|H4]; [by left|right]. intros b Hin. unfold es. rewrite Hb by done. by apply H4.
Qed.

Lemma ents_leaves h h' ls : (forall b, b ∈ ls -> leaves h' !! b = leaves h !! b) -> ents h' ls = ents h ls.
Proof. intros Hb. apply ents_same. intros b Hin. unfold es. by rewrite Hb. Qed.

Lemma later_leaves h h' (ls : list (N * Z)) : (forall b, b ∈ ls.*1 -> leaves h' !! b = leaves h !! b) -> later 0 h ls h' ls.
Proof.
  intros Hb. split; [lia|]. split; [done|]. split; [by rewrite (ents_leaves h h')|]. intros b l Hin Hl.
  exists l. rewrite Hb by done. split; [done|by left].
Qed.

Lemma tiles_dom h lo ls hi b : tiles h lo ls hi -> b ∈ ls.*1 -> b ∈ dom (leaves h).
Proof.
  revert lo. induction ls as [|[a l] ls IH]; intros lo; [intros _; set_solver|].
  intros (-> & u & _ & (la & Hla & _) & Ht) Hb. simpl in Hb. apply elem_of_cons in Hb as [->|Hb]; [by eapply elem_of_dom_2|].
  by eapply IH.
Qed.

Lemma shape_dom t ls b : shape t ls -> b ∈ ls.*1 -> b ∈ dom (leaves (hp t)).
Proof. intros [(r & _ & Hr) _ _ _]. apply repr_tiles in Hr; [|done]. by eapply tiles_dom. Qed.

Lemma inv_leaf_dom t ls b : tree_inv t ls -> b ∈ ls.*1 -> (b < fresh (hp t))%N.
Proof. intros [Hsh _ (_ & Ha & _) _] Hb. by apply Ha, (shape_dom t ls). Qed.

Lemma new_leaf_wf : leaf_wf new_leaf.
Proof. unfold leaf_wf. simpl. unfold MEM_BTREE_M. lia. Qed.

(** ThreadLocalInit gives the thread its spare objects. *)
Lemma thread_init t ls m :
  tree_inv t ls -> abs t ls m ->
  let t' := with_heap (ThreadLocalInit (hp t)) t in
  tree_inv t' ls /\ abs t' ls m /\ later 0 (hp t) ls (hp t') ls /\ is_Some (dummyval_ (hp t')).
Proof.
  intros Hinv Habs t'. pose proof Hinv as [Hsh Hrec (Hf & Hal & Hab) Hsp].
  destruct Hsp as [[Hv Hl]|(v & sib & sl & Hv & Hl & Hsp)].
  2: { unfold t', ThreadLocalInit. rewrite Hv. destruct t as [r d h]. simpl in *. do 2 (split; [done|]). split; [apply later_refl|]. by rewrite Hv. }
  assert (Hls : leaves (hp t') = <[N.succ (fresh (hp t)) := new_leaf]> (leaves (hp t)) /\
                bnodes (hp t') = <[fresh (hp t) := mkBNode None 0]> (bnodes (hp t)) /\
                fresh (hp t') = N.succ (N.succ (fresh (hp t))) /\ dummyval_ (hp t') = Some (fresh (hp t)) /\
                dummyleaf_ (hp t') = Some (N.succ (fresh (hp t)))).
  { unfold t', ThreadLocalInit. rewrite Hv, Hl. done. }
  destruct Hls as (El & Eb & Ef & Edv & Edl).
  assert (Hsame : forall b, b ∈ ls.*1 -> leaves (hp t') !! b = leaves (hp t) !! b).
  { intros b Hb. pose proof (inv_leaf_dom _ _ _ Hinv Hb). rewrite El. apply lookup_insert_ne. lia. }
  assert (He : tents t' ls = tents t ls) by by apply ents_leaves.
  assert (Hbn : forall e, e ∈ tents t ls -> bnodes (hp t') !! e.2 = bnodes (hp t) !! e.2).
  { intros e He'. rewrite Eb. apply lookup_insert_ne. destruct Hrec as [_ Hsome]. destruct (Hsome e He') as [n Hn].
    apply elem_of_dom_2, Hab in Hn. lia. }
  split; [|split; [|split]].
  - split.
    + by eapply shape_same; [| | |exact Hsh].
    + destruct Hrec as [H1 H2]. split; rewrite He; [done|]. intros e Hin. rewrite Hbn by done. by apply H2.
    + split; [lia|]. rewrite El, Eb, Ef. split; intros a; rewrite dom_insert; intros [Ha|Ha]%elem_of_union.
      * apply elem_of_singleton in Ha. lia.
      * apply Hal in Ha. lia.
      * apply elem_of_singleton in Ha. lia.
      * apply Hab in Ha. lia.
    + right. exists (fresh (hp t)), (N.succ (fresh (hp t))), new_leaf. rewrite Edv, Edl, El, Eb, He. rewrite !lookup_insert_eq.
      do 3 (split; [done|]). split; [|split; [done|split; [apply new_leaf_wf|]]].
      * intros (e & Ee & Hin)%list_elem_of_fmap. destruct Hrec as [_ Hsome]. destruct (Hsome e Hin) as [n Hn].
        apply elem_of_dom_2, Hab in Hn. lia.
      * intros Hin. pose proof (inv_leaf_dom _ _ _ Hinv Hin). lia.
  - intros k n. rewrite He. rewrite (Habs k n). split; intros (v & Hin & Hn); exists v; (split; [done|]).
    + rewrite <- Hn. by apply (Hbn (k, v)).
    + rewrite <- Hn. symmetry. by apply (Hbn (k, v)).
  - by apply later_leaves.
  - by rewrite Edv.
Qed.

Lemma later_weaken n m h ls h' ls' : n <= m -> later n h ls h' ls' -> later m h ls h' ls'.
Proof.
  intros Hnm (Hn & S1 & E1 & H1). split; [lia|]. split; [done|]. split; [done|]. intros b l Hb Hl.
  destruct (H1 b l Hb Hl) as (l' & Hl' & [?|(c & Hc & ?)]); exists l'; (split; [done|]); [by left|right]. exists c. split; [lia|done].
Qed.

(** ** Lookup *)

Lemma in_leaf h lo ls1 a l u ls2 hi e :
  tiles h lo ls1 l -> tiles h u ls2 hi -> l <= e.1 < u -> e ∈ ents h (ls1 ++ (a, l) :: ls2).*1 -> e ∈ es h a.
Proof.
  intros H1 H2 He. rewrite fmap_app, fmap_cons, ents_app, ents_cons, !elem_of_app. intros [Hin|[Hin|Hin]]; [|done|].
  - pose proof (tiles_keys _ _ _ _ _ H1 Hin). lia.
  - pose proof (tiles_keys _ _ _ _ _ H2 Hin). lia.
Qed.

Lemma leaf_in_ents h (ls1 : list (N * Z)) a l ls2 e : e ∈ es h a -> e ∈ ents h (ls1 ++ (a, l) :: ls2).*1.
Proof. intros He. rewrite fmap_app, fmap_cons, ents_app, ents_cons. set_solver. Qed.

Lemma get_spec t ls key :
  shape t ls -> 0 <= key < key_end ->
  exists o, get_entry t key = Ret o /\ (o = None <-> tents t ls = []) /\
    forall v, o ≫= id = Some v <-> (key, v) ∈ tents t ls.
Proof.
  intros [(r & Hroot & Hr) _ _ Hfill] Hkey. unfold get_entry. rewrite Hroot.
  destruct (find_leaf_spec _ _ key _ _ _ _ Hr ltac:(lia) Hkey) as (a & l & u & ls1 & ls2 & -> & -> & Hlu & _ & Ha & Ht1 & Ht2).
  cbn [mbind res_bind]. pose proof Ha as (lf & Hlf & Hw & Ho & _). unfold leaf_at. rewrite Hlf. cbn [mbind res_bind].
  assert (Hiff : forall v, (key, v) ∈ ents (hp t) (ls1 ++ (a, l) :: ls2).*1 <-> (key, v) ∈ leaf_es lf).
  { intros v. rewrite <- (es_leaf _ _ _ Hlf). split; [|apply leaf_in_ents]. by eapply in_leaf. }
  setoid_rewrite Hiff. destruct (slot_split lf key Hw Ho) as [Hlo Hhi]. rewrite Forall_forall in Hlo, Hhi.
  assert (Hdrop : forall v, (key, v) ∈ leaf_es lf <-> (key, v) ∈ drop (leaf_slot lf key) (leaf_es lf)).
  { intros v. rewrite <- (take_drop (leaf_slot lf key) (leaf_es lf)) at 1. rewrite elem_of_app.
    split; [|by right]. intros [Hin|]; [|done]. specialize (Hlo _ Hin). simpl in Hlo. lia. }
  destruct (Nat.eqb_spec (l_num lf) 0) as [Hz|Hnz].
  { exists None. split; [done|]. rewrite <- length_leaf_es in Hz by done. assert (leaf_es lf = []) as He by (by destruct (leaf_es lf)).
    split; [|intros v; rewrite He; set_solver]. split; [intros _|done]. destruct Hfill as [Hone|Hne].
    - rewrite length_fmap, length_app in Hone. simpl in Hone. destruct ls1, ls2; simpl in Hone; try lia.
      cbn. by rewrite app_nil_r, (es_leaf _ _ _ Hlf), He.
    - exfalso. apply (Hne a); [rewrite fmap_app, fmap_cons; set_solver|]. by rewrite (es_leaf _ _ _ Hlf). }
  assert (Hfull : forall o : option N, Some o = None <-> ents (hp t) (ls1 ++ (a, l) :: ls2).*1 = []).
  { intros o. split; [done|]. intros Hnil. rewrite <- length_leaf_es in Hnz by done. destruct (leaf_es lf) as [|e es'] eqn:He; [done|].
    assert (e ∈ ents (hp t) (ls1 ++ (a, l) :: ls2).*1) as Hin; [|rewrite Hnil in Hin; set_solver].
    apply leaf_in_ents. rewrite (es_leaf _ _ _ Hlf), He. set_solver. }
  pose proof (slot_le lf key Hw) as Hle. destruct (Nat.eqb_spec (leaf_slot lf key) (l_num lf)) as [Hend|Hne].
  { exists (Some None). split; [done|]. split; [apply Hfull|]. intros v. rewrite Hdrop, drop_ge by (rewrite length_leaf_es by done; lia). set_solver. }
  destruct (leaf_es_lookup lf (leaf_slot lf key) Hw ltac:(lia)) as (k' & v' & -> & -> & He).
  eexists. split; [done|]. split; [apply Hfull|]. intros v. rewrite Hdrop. rewrite (drop_S _ _ _ He) in Hhi |- *. simpl.
  destruct (Z.eqb_spec k' key) as [->|Hk].
  - split; [intros [= ->]; set_solver|]. intros [Heq|Hin]%elem_of_cons; [congruence|]. exfalso.
    rewrite <- (take_drop (leaf_slot lf key) (leaf_es lf)), (drop_S _ _ _ He), fmap_app in Ho. apply ordered_app in Ho as (_ & Ho & _).
    inversion Ho as [|?? _ Hf]; subst. rewrite Forall_fmap, Forall_forall in Hf. specialize (Hf _ Hin). simpl in Hf. lia.
  - split; [done|]. intros [Heq|Hin]%elem_of_cons; [congruence|]. exfalso.
    rewrite <- (take_drop (leaf_slot lf key) (leaf_es lf)), (drop_S _ _ _ He), fmap_app in Ho. apply ordered_app in Ho as (_ & Ho & _).
    inversion Ho as [|?? _ Hf]; subst. rewrite Forall_fmap, Forall_forall in Hf. specialize (Hf _ Hin). simpl in Hf.
    specialize (Hhi (k', v') ltac:(set_solver)). simpl in Hhi. lia.
Qed.

(** A key has one entry, an entry one record. *)
Lemma entry_unique t ls k v1 v2 : shape t ls -> (k, v1) ∈ tents t ls -> (k, v2) ∈ tents t ls -> v1 = v2.
Proof.
  intros [(r & _ & Hr) _ _ _] H1 H2. apply repr_tiles in Hr; [|done]. apply tiles_ordered, ordered_NoDup in Hr.
  apply list_elem_of_lookup in H1 as [i Hi], H2 as [j Hj]. assert (i = j) as ->; [|congruence].
  eapply NoDup_lookup; [exact Hr| |]; rewrite list_lookup_fmap; [by rewrite Hi|by rewrite Hj].
Qed.

Lemma record_unique h ls k1 k2 v : records h ls -> (k1, v) ∈ ents h ls.*1 -> (k2, v) ∈ ents h ls.*1 -> k1 = k2.
Proof.
  intros [Hnd _] H1 H2. apply list_elem_of_lookup in H1 as [i Hi], H2 as [j Hj]. assert (i = j) as ->; [|congruence].
  eapply NoDup_lookup; [exact Hnd| |]; rewrite list_lookup_fmap; [by rewrite Hi|by rewrite Hj].
Qed.

(** A lookup in the map that the tree stands for. *)
Lemma get_abs t ls m key :
  tree_inv t ls -> abs t ls m -> 0 <= key < key_end ->
  exists r, get_entry t key = Ret r /\ (r = None <-> m = ∅) /\ let o := r ≫= id in
    m !! key = (o ≫= fun v => bnodes (hp t) !! v) /\
    (forall v, o = Some v -> (key, v) ∈ tents t ls) /\ (o = None -> m !! key = None).
Proof.
  intros [Hsh Hrec _ _] Habs Hkey. destruct (get_spec t ls key Hsh Hkey) as (r & -> & Hr & Ho). exists r. split; [done|].
  split.
  { rewrite Hr. split.
    - intros Hnil. apply map_empty. intros k. destruct (m !! k) as [n|] eqn:E; [|done].
      apply Habs in E as (v & Hin & _). rewrite Hnil in Hin. set_solver.
    - intros ->. destruct (tents t ls) as [|[k v] q] eqn:E; [done|]. exfalso.
      assert ((k, v) ∈ tents t ls) as Hin by (rewrite E; set_solver). destruct Hrec as [_ Hsome].
      destruct (Hsome _ Hin) as [n Hn]. assert ((∅ : gmap Z BNode) !! k = Some n) as Hk by (apply Habs; eauto). done. }
  set (o := r ≫= id) in *. cbv zeta.
  assert (Hm : m !! key = (o ≫= fun v => bnodes (hp t) !! v)).
  { destruct o as [v|]; simpl.
    - assert (Hin : (key, v) ∈ tents t ls) by (by apply Ho). destruct Hrec as [_ Hsome]. destruct (Hsome _ Hin) as [n Hn].
      simpl in Hn. rewrite Hn. apply Habs. eauto.
    - destruct (m !! key) as [n|] eqn:E; [|done]. apply Habs in E as (v & Hin & _). apply Ho in Hin. done. }
  split; [done|]. split; [intros v; by apply Ho|]. by intros ->.
Qed.

(** ** Insertion *)

(** The spare objects are renewed once the spare record is in the tree. *)
Lemma refill_used h :
  dummyval_ h = None ->
  exists h', refill h = Ret h' /\ bnodes h' = <[fresh h := mkBNode None 0]> (bnodes h) /\ dummyval_ h' = Some (fresh h) /\
    (fresh h < fresh h')%N /\
    (dummyleaf_ h' = dummyleaf_ h /\ is_Some (dummyleaf_ h) /\ leaves h' = leaves h \/
     dummyleaf_ h = None /\ dummyleaf_ h' = Some (N.succ (fresh h)) /\ leaves h' = <[N.succ (fresh h) := new_leaf]> (leaves h) /\
     fresh h' = N.succ (N.succ (fresh h))).
Proof.
  intros Hv. unfold refill. rewrite Hv. cbn [mbind res_bind]. simpl. destruct (dummyleaf_ h) as [s|] eqn:Hl.
  - eexists. split; [done|]. simpl. split; [done|]. split; [done|]. split; [lia|]. left. done.
  - eexists. split; [done|]. simpl. split; [done|]. split; [done|]. split; [lia|]. by right.
Qed.

Section Inserted.
Context (t : BPlusTree) (ls : list (N * Z)) (m : gmap Z BNode) (key : Z) (val : option N) (v sib : N) (sl : LeafNode) (h2 : heap).
Context (Hinv : tree_inv t ls) (Habs : abs t ls m) (Hkey : 0 <= key < key_end).
Context (Hv : dummyval_ (hp t) = Some v) (Hl : dummyleaf_ (hp t) = Some sib) (Hbv : bnodes (hp t) !! v = Some (mkBNode None 0))
        (Hvn : v ∉ (tents t ls).*2) (Hsl : leaves (hp t) !! sib = Some sl) (Hws : leaf_wf sl) (Hsn : sib ∉ ls.*1).
Context (Eh2 : h2 = mkHeap (leaves (hp t)) (<[v := mkBNode val 0]> (bnodes (hp t))) (fresh (hp t)) (Some v) (Some sib)).

Lemma ready_insert : ready h2 ls.*1 v sib.
Proof using All.
  destruct Hinv as [[_ Hnd Hdll _] [_ Hsome] (_ & _ & Hab) _]. subst h2. split; simpl; try done.
  - by eapply dll_same; [|exact Hdll].
  - by exists sl.
  - intros e He. assert (He' : e ∈ tents t ls) by (by rewrite (ents_leaves (hp t)) in He).
    destruct (Hsome e He') as [n Hn]. apply elem_of_dom_2, Hab in Hn. lia.
Qed.

(** The state after the key's record has been put into the tree. *)
Lemma inserted_inv t3 h4 ls' :
  represents t3 ls' -> ls ⊆ ls' -> grown key v sib h2 ls.*1 (hp t3) ls'.*1 -> refill (hp t3) = Ret h4 ->
  let t4 := with_heap h4 t3 in
  tree_inv t4 ls' /\ m !! key = None /\ abs t4 ls' (<[key := mkBNode val 0]> m) /\ later 1 (hp t) ls h4 ls' /\
  (key, v) ∈ tents t4 ls'.
Proof using All.
  intros Hrep Hsub Hgr Hre t4. pose proof Hinv as [Hsh [Hrn Hrs] (Hf & Hal & Hab) _].
  pose proof Hgr as [Hdll Hnd Hids Hents (Hbn & Hfr & Hdv & Hdom) Hseq Hfill].
  destruct (refill_used _ Hdv) as (h4' & E4 & Eb4 & Ev4 & Ef4 & Hlf4). rewrite Hre in E4. injection E4 as <-.
  rewrite Hbn, Hfr in Eb4. rewrite Hfr in Ev4, Ef4, Hlf4. subst h2. simpl in *.
  set (f := fresh (hp t)) in *.
  assert (Hvf : (v < f)%N) by (apply elem_of_dom_2, Hab in Hbv; lia).
  assert (Hdom3 : forall b, b ∈ ls'.*1 -> (b < f)%N).
  { intros b Hb. apply Hal. destruct Hids as [(E & _)|(E & _)]; rewrite E in Hb; [by eapply shape_dom|].
    apply elem_of_cons in Hb as [->|Hb]; [by eapply elem_of_dom_2|by eapply shape_dom]. }
  assert (Hlv : forall b, b ∈ ls'.*1 -> leaves h4 !! b = leaves (hp t3) !! b).
  { intros b Hb. specialize (Hdom3 b Hb). destruct Hlf4 as [(_ & _ & ->)|(_ & _ & -> & _)]; [done|]. apply lookup_insert_ne. lia. }
  assert (He4 : tents t4 ls' = tents t3 ls') by by apply ents_leaves.
  assert (Hsh4 : shape t4 ls').
  { apply (shape_same t3); [done|done|done|]. split; [done|done|done|]. apply Hfill. by destruct Hsh. }
  assert (He2 : ents (mkHeap (leaves (hp t)) (<[v:=mkBNode val 0]> (bnodes (hp t))) f (Some v) (Some sib)) ls.*1 = tents t ls) by by apply ents_leaves.
  rewrite He2 in Hents.
  assert (Hin4 : forall e, e ∈ tents t4 ls' <-> e = (key, v) \/ e ∈ tents t ls).
  { intros e. by rewrite He4, Hents, elem_of_cons. }
  assert (Hb4 : forall w, w <> v -> (w < f)%N -> bnodes h4 !! w = bnodes (hp t) !! w).
  { intros w Hw Hwf. rewrite Eb4. by rewrite !lookup_insert_ne by lia. }
  assert (Hbv4 : bnodes h4 !! v = Some (mkBNode val 0)) by (rewrite Eb4, lookup_insert_ne by lia; apply lookup_insert_eq).
  assert (Hold : forall e, e ∈ tents t ls -> e.2 <> v /\ (e.2 < f)%N).
  { intros e He. split; [intros E; apply Hvn; rewrite <- E; by apply list_elem_of_fmap_2|].
    destruct (Hrs e He) as [n Hn]. apply elem_of_dom_2, Hab in Hn. lia. }
  assert (Hmk : m !! key = None).
  { destruct (m !! key) as [n|] eqn:E; [|done]. apply Habs in E as (w & Hin & _). exfalso.
    destruct (Hold _ Hin) as [Hne _]. apply Hne. simpl. eapply (entry_unique t4 ls' key); [done| |]; apply Hin4; auto. }
  split; [split|].
  - done.
  - split.
    + change (NoDup (tents t4 ls').*2). rewrite He4, Hents. by constructor.
    + change (hp t4) with h4. intros e [->|He]%Hin4; [simpl; by rewrite Hbv4|]. destruct (Hold e He). rewrite Hb4 by done. by apply Hrs.
  - change (hp t4) with h4. split; [lia|]. split.
    + intros a Ha. destruct Hlf4 as [(_ & _ & E)|(_ & _ & E & E')]; simpl in Ha; rewrite E in Ha.
      * rewrite Hdom in Ha. apply Hal in Ha. simpl. lia.
      * rewrite dom_insert, Hdom in Ha. apply elem_of_union in Ha as [Ha|Ha]; [apply elem_of_singleton in Ha; simpl; lia|].
        apply Hal in Ha. simpl. lia.
    + intros a. simpl. rewrite Eb4, !dom_insert. intros [Ha|[Ha|Ha]%elem_of_union]%elem_of_union.
      * apply elem_of_singleton in Ha. lia.
      * apply elem_of_singleton in Ha. apply elem_of_dom_2, Hab in Hbv. lia.
      * apply Hab in Ha. lia.
  - right. destruct Hlf4 as [(E1 & E2 & E3)|(E1 & E2 & E3 & E4)].
    + destruct Hids as [(Eids & Eds & Elf)|(_ & Eds)]; [|rewrite Eds in E2; by destruct E2].
      exists f, sib, sl. simpl. rewrite Ev4, E1, Eds, E3, Elf, Eb4, lookup_insert_eq. do 3 (split; [done|]).
      split; [|by rewrite Eids]. intros (e & Ee & He)%list_elem_of_fmap. apply Hin4 in He as [->|He]; [simpl in Ee; lia|].
      destruct (Hold e He). lia.
    + exists f, (N.succ f), new_leaf. simpl. rewrite Ev4, E2, E3, Eb4, !lookup_insert_eq. do 3 (split; [done|]).
      split; [|split; [done|split; [apply new_leaf_wf|]]].
      * intros (e & Ee & He)%list_elem_of_fmap. apply Hin4 in He as [->|He]; [simpl in Ee; lia|]. destruct (Hold e He). lia.
      * intros Hb%Hdom3. lia.
  - split; [done|]. split; [|split].
    + intros k n. setoid_rewrite Hin4. rewrite lookup_insert_Some. split.
      * intros [[<- <-]|[Hne Hmn]]; [exists v; eauto|]. apply Habs in Hmn as (w & Hin & Hn). exists w.
        destruct (Hold _ Hin). simpl in *. rewrite Hb4 by done. eauto.
      * intros (w & [[= -> ->]|Hin] & Hn); [left; simpl in Hn; naive_solver|]. right. destruct (Hold _ Hin). simpl in *.
        rewrite Hb4 in Hn by done. split; [|apply Habs; eauto]. intros <-.
        assert (m !! key = Some n) by (apply Habs; eauto). congruence.
    + split; [lia|]. split; [done|]. split; [intros e He; by apply Hin4; right|]. intros b l Hb Hbl.
      destruct (Hseq b l Hb Hbl) as (l' & Hl' & D). exists l'. split; [rewrite Hlv by set_solver; done|].
      destruct D as [?|?]; [by left|]. right. exists 1. split; [lia|done].
    + apply Hin4. by left.
Qed.

End Inserted.

Lemma heap_eta h v s : dummyval_ h = v -> dummyleaf_ h = s -> mkHeap (leaves h) (bnodes h) (fresh h) v s = h.
Proof. by destruct h; simpl; intros -> ->. Qed.

(** The map after an insertion that finds the key or adds a record for it. *)
Definition ensure (key : Z) (val : option N) (m : gmap Z BNode) : gmap Z BNode :=
  match m !! key with Some _ => m | None => <[key := mkBNode val 0]> m end.

Lemma tree_insert_spec hw t ls m key val :
  tree_inv t ls -> abs t ls m -> 0 <= key < key_end ->
  exists w t' ls', GetWithInsert hw Outside t key val = Ret (w, t', Outside) /\ tree_inv t' ls' /\ abs t' ls' (ensure key val m) /\
    later 1 (hp t) ls (hp t') ls' /\ (key, w) ∈ tents t' ls'.
Proof.
  intros Hinv0 Habs0 Hkey. destruct (thread_init t ls m Hinv0 Habs0) as (Hinv & Habs & Hlat0 & [v Hv]).
  unfold GetWithInsert. set (t1 := with_heap (ThreadLocalInit (hp t)) t) in *. change (ThreadLocalInit (hp t)) with (hp t1).
  rewrite Hv. pose proof Hinv as [Hsh Hrec Haddr Hsp].
  destruct Hsp as [[E _]|(v' & sib & sl & Ev & Esl & Hbv & Hvn & Hsl & Hws & Hsn)]; [congruence|].
  assert (v' = v) as -> by congruence. unfold set_bnode at 1. rewrite Hbv, Esl, Hv. cbn [mbind res_bind bn_seq].
  set (h2 := mkHeap _ _ _ _ _).
  assert (Hrd : ready h2 ls.*1 v sib) by exact (ready_insert t1 ls m key val v sib sl h2 Hinv Habs Hkey Hv Esl Hbv Hvn Hsl Hws Hsn eq_refl).
  unfold Insert_rtm. cbn [Begin mbind res_bind].
  destruct (insert_rtm_spec (with_heap h2 t) ls key v sib) as (w & t3 & -> & Hpost); try done.
  { destruct Hsh as [(r & Hr & Hrep) _ _ _]. exists r. split; [done|]. eapply repr_same; [|exact Hrep]. done. }
  cbn [mbind res_bind fst snd]. destruct Hpost as [(E3 & Hin & Hrep)|(-> & _ & ls' & Hsub & Hgr & Hrep)].
  - simpl in E3. rewrite E3. assert (Hre : refill h2 = Ret (hp t1)).
    { unfold refill, set_bnode. simpl. rewrite lookup_insert_eq. simpl. rewrite insert_insert_eq, insert_id by done.
      f_equal. by apply heap_eta. }
    rewrite Hre. cbn [mbind res_bind]. assert (Hin1 : (key, w) ∈ tents t1 ls) by (by rewrite (ents_leaves (hp t1)) in Hin).
    do 3 eexists. split; [done|]. split; [|split; [|split; [by apply (later_weaken 0); [lia|]|done]]].
    + split; [|exact Hrec|exact Haddr|]; [|right; by exists v, sib, sl]. split; [|exact (sh_nodup _ _ Hsh)|exact (sh_dll _ _ Hsh)|exact (sh_filled _ _ Hsh)]. destruct Hrep as (r & Hr & Hrep). exists r. split; [done|].
      eapply repr_same; [|exact Hrep]. intros b _. by rewrite E3.
    + destruct Hrec as [_ Hsome]. destruct (Hsome _ Hin1) as [n Hn]. unfold ensure.
      rewrite (proj2 (Habs key n)) by eauto. exact Habs.
  - change ([] ++ ls.*1 ++ []) with (ls.*1 ++ []) in Hgr. change ([] ++ ls'.*1 ++ []) with (ls'.*1 ++ []) in Hgr. rewrite !app_nil_r in Hgr.
    destruct (refill_used (hp t3)) as (h4 & Hre & _); [by destruct Hgr as [_ _ _ _ (_ & _ & ? & _) _ _]|].
    destruct (inserted_inv t1 ls m key val v sib sl h2 Hinv Habs Hkey Hv Esl Hbv Hvn Hsl Hws Hsn eq_refl t3 h4 ls' Hrep Hsub Hgr Hre)
      as (Hinv4 & Hm & Habs4 & Hlat & Hin). rewrite Hre. cbn [mbind res_bind].
    do 3 eexists. split; [done|]. split; [done|]. split; [unfold ensure; by rewrite Hm|]. split; [|done].
    change 1 with (0 + 1). by eapply later_trans.
Qed.

(** ** Writes through a record *)

Lemma set_bnode_spec t ls m key v f n :
  tree_inv t ls -> abs t ls m -> (key, v) ∈ tents t ls -> bnodes (hp t) !! v = Some n ->
  exists h', set_bnode v f (hp t) = Ret h' /\ let t' := with_heap h' t in
    tree_inv t' ls /\ abs t' ls (<[key := f n]> m) /\ later 0 (hp t) ls h' ls /\ tents t' ls = tents t ls.
Proof.
  intros Hinv Habs Hin Hn. unfold set_bnode. rewrite Hn. eexists. split; [done|]. set (t' := with_heap _ t).
  destruct Hinv as [Hsh [Hrn Hrs] (Hf & Hal & Hab) Hsp].
  assert (He : tents t' ls = tents t ls) by by apply ents_leaves.
  split; [|split; [|split; [by apply later_leaves|done]]].
  - split.
    + by eapply shape_same; [| | |exact Hsh].
    + split; [done|]. change (forall e, e ∈ tents t' ls -> is_Some (<[v := f n]> (bnodes (hp t)) !! e.2)). rewrite He. intros e Hin'.
      destruct (decide (e.2 = v)) as [->|]; [by rewrite lookup_insert_eq|]. rewrite lookup_insert_ne by done. by apply Hrs.
    + split; [done|]. split; [done|]. simpl. intros a. rewrite dom_insert. intros [->%elem_of_singleton|]%elem_of_union; [|by apply Hab].
      apply Hab. by eapply elem_of_dom_2.
    + destruct Hsp as [?|(v' & sib & sl & E1 & E2 & E3 & E4 & E5)]; [by left|right]. exists v', sib, sl. simpl.
      do 2 (split; [done|]). split; [|done]. rewrite lookup_insert_ne; [done|]. intros <-. apply E4.
      apply list_elem_of_fmap. by exists (key, v).
  - intros k n'. rewrite He. simpl. rewrite lookup_insert_Some. split.
    + intros [[<- <-]|[Hne Hm]]; [exists v; by rewrite lookup_insert_eq|]. apply Habs in Hm as (w & Hw & Hwn). exists w. split; [done|].
      rewrite lookup_insert_ne; [done|]. intros <-. apply Hne. by eapply record_unique.
    + intros (w & Hw & Hwn). destruct (decide (w = v)) as [->|Hne].
      * left. rewrite lookup_insert_eq in Hwn. split; [by eapply record_unique|congruence].
      * right. rewrite lookup_insert_ne in Hwn by done. split; [|apply Habs; eauto]. intros <-. apply Hne. by eapply entry_unique.
Qed.

Lemma put_spec hw t ls m key val :
  tree_inv t ls -> abs t ls m -> 0 <= key < key_end ->
  exists w t' ls', Put hw Outside t key val = Ret (w, t', Outside) /\ tree_inv t' ls' /\ abs t' ls' (<[key := mkBNode val 0]> m) /\
    later 1 (hp t) ls (hp t') ls' /\ (key, w) ∈ tents t' ls'.
Proof.
  intros Hinv0 Habs0 Hkey. destruct (thread_init t ls m Hinv0 Habs0) as (Hinv & Habs & Hlat0 & _). unfold Put.
  destruct (tree_insert_spec hw _ ls m key None Hinv Habs Hkey) as (w & t2 & ls2 & -> & Hinv2 & Habs2 & Hlat & Hin).
  cbn [mbind res_bind fst snd]. pose proof Hinv2 as [_ [_ Hsome] _ _]. destruct (Hsome _ Hin) as [n Hn]. simpl in Hn.
  destruct (set_bnode_spec t2 ls2 _ key w (fun _ => mkBNode val 0) n Hinv2 Habs2 Hin Hn) as (h' & -> & Hinv3 & Habs3 & Hlat3 & He).
  cbn [mbind res_bind]. do 3 eexists. split; [done|]. split; [done|]. split; [|split; [|by rewrite He]].
  - unfold ensure in Habs3. destruct (m !! key); [done|]. by rewrite insert_insert_eq in Habs3.
  - change 1 with (0 + 1 + 0). eapply later_trans; [|exact Hlat3]. by eapply later_trans.
Qed.

(** ** The new tree *)

Lemma new_tree_inv : tree_inv new_tree [(1%N, 0)] /\ abs new_tree [(1%N, 0)] ∅.
Proof.
  split; [split|].
  - split.
    + exists (Leaf 1). split; [done|]. split; [|done]. exists new_leaf. split; [done|]. split; [apply new_leaf_wf|]. split; constructor.
    + apply NoDup_singleton.
    + done.
    + by left.
  - split; [constructor|]. intros e He. cbn in He. set_solver.
  - split; [done|]. split; simpl; intros a; rewrite ?dom_insert, ?dom_empty; [|set_solver].
    intros [->%elem_of_singleton|]%elem_of_union; [lia|set_solver].
  - by left.
  - intros k n. split; [done|]. intros (v & Hin & _). cbn in Hin. set_solver.
Qed.

(** * Iterators over the B+ tree *)

(** ** Positions *)

(** The iterator has been loaded from a leaf of this heap. *)
Definition at_entry (h : heap) (ls : list (N * Z)) (it : Iterator) : Prop :=
  exists a l lo, node_ it = Some a /\ (a, lo) ∈ ls /\ leaves h !! a = Some l /\
    leaf_es l !! leaf_index it = Some (key_ it, value_ it) /\ it_seq it = l_seq l.

(** The first entry whose key is not in the lower part [p]. *)
Definition lands (h : heap) (ls : list (N * Z)) (p : Z -> bool) (it : Iterator) : Prop :=
  node_ it = None /\ (forall e, e ∈ ents h ls.*1 -> p e.1 = true) \/
  at_entry h ls it /\ (key_ it, value_ it) ∈ ents h ls.*1 /\ p (key_ it) = false /\
    (forall e, e ∈ ents h ls.*1 -> p e.1 = false -> key_ it <= e.1).

(** The last entry whose key is in the lower part [p]. *)
Definition lands_back (h : heap) (ls : list (N * Z)) (p : Z -> bool) (it : Iterator) : Prop :=
  node_ it = None /\ (forall e, e ∈ ents h ls.*1 -> p e.1 = false) \/
  at_entry h ls it /\ (key_ it, value_ it) ∈ ents h ls.*1 /\ p (key_ it) = true /\
    (forall e, e ∈ ents h ls.*1 -> p e.1 = true -> e.1 <= key_ it).

Lemma load_entry_spec h ls it a lo l :
  node_ it = Some a -> (a, lo) ∈ ls -> leaves h !! a = Some l -> leaf_wf l -> (leaf_index it < l_num l)%nat ->
  exists it', load_entry h it = Ret it' /\ at_entry h ls it' /\ leaf_es l !! leaf_index it = Some (key_ it', value_ it').
Proof.
  intros Hn Hin Hl Hw Hi. destruct (leaf_es_lookup l _ Hw Hi) as (k & v & Hk & Hv & He).
  unfold load_entry, leaf_at. rewrite Hn, Hl. cbn [mbind res_bind]. rewrite Hk, Hv.
  eexists. split; [done|]. split; [|done]. exists a, l, lo. done.
Qed.

Section Cut.
Context (t : BPlusTree) (ls : list (N * Z)) (Hsh : shape t ls).
Abbreviation h := (hp t).

Lemma shape_tiles : tiles h 0 ls key_end.
Proof using Hsh. destruct Hsh as [(r & _ & Hr) _ _ _]. by apply repr_tiles in Hr. Qed.

Lemma shape_leaf a lo : (a, lo) ∈ ls -> exists l u, leaves h !! a = Some l /\ leaf_wf l /\ leaf_in h lo u a.
Proof using All.
  intros Hin. apply list_elem_of_split in Hin as (ls1 & ls2 & E). pose proof shape_tiles as Ht. rewrite E in Ht.
  apply tiles_app in Ht as (mid & _ & -> & u & _ & Ha & _). pose proof Ha as (l & Hl & Hw & _). by exists l, u.
Qed.

(** The neighbours of a leaf; only a lone leaf may be empty. *)
Lemma neighbour_right pre a lo post l :
  ls = pre ++ (a, lo) :: post -> leaves h !! a = Some l ->
  match post with
  | [] => l_right l = None
  | (r, rlo) :: _ => l_right l = Some r /\ exists rl, leaves h !! r = Some rl /\ leaf_wf rl /\ leaf_es rl <> []
  end.
Proof using All.
  intros E Hl. pose proof (sh_dll _ _ Hsh) as Hd. rewrite E, fmap_app, fmap_cons in Hd. apply dll_at in Hd.
  unfold links in Hd. cbn [fst] in Hd. rewrite Hl in Hd. injection Hd as _ Hd. destruct post as [|[r rlo] post]; [done|].
  split; [done|]. destruct (shape_leaf r rlo) as (rl & u & Hrl & Hw & _); [rewrite E; set_solver|].
  exists rl. split; [done|]. split; [done|]. rewrite <- (es_leaf _ _ _ Hrl).
  destruct (sh_filled _ _ Hsh) as [Hlen|Hne]; [|apply Hne, (list_elem_of_fmap_2 fst _ (r, rlo)); rewrite E; set_solver].
  rewrite E in Hlen. rewrite length_fmap, length_app in Hlen. simpl in Hlen. lia.
Qed.

Lemma neighbour_left pre a lo post l :
  ls = pre ++ (a, lo) :: post -> leaves h !! a = Some l ->
  (pre = [] /\ l_left l = None) \/
  exists pre' r rlo rl, pre = pre' ++ [(r, rlo)] /\ l_left l = Some r /\ leaves h !! r = Some rl /\ leaf_wf rl /\ leaf_es rl <> [].
Proof using All.
  intros E Hl. pose proof (sh_dll _ _ Hsh) as Hd. rewrite E, fmap_app, fmap_cons in Hd. apply dll_at in Hd.
  unfold links in Hd. cbn [fst] in Hd. rewrite Hl in Hd. injection Hd as Hd _.
  destruct pre as [|[r rlo] pre' _] using rev_ind; [by left|right].
  assert (El : l_left l = Some r) by (rewrite Hd; unfold last_or; rewrite fmap_app; cbn; by rewrite last_snoc).
  destruct (shape_leaf r rlo) as (rl & u & Hrl & Hw & _); [rewrite E; set_solver|].
  exists pre', r, rlo, rl. do 4 (split; [done|]). rewrite <- (es_leaf _ _ _ Hrl).
  destruct (sh_filled _ _ Hsh) as [Hlen|Hne]; [|apply Hne, (list_elem_of_fmap_2 fst _ (r, rlo)); rewrite E; set_solver].
  rewrite E in Hlen. rewrite length_fmap, !length_app in Hlen. simpl in Hlen. lia.
Qed.

Context (p : Z -> bool).

(** The entries are a part of [p], then one that is not in it. *)
Lemma lands_head X k v Y it :
  ents h ls.*1 = X ++ (k, v) :: Y -> (forall e, e ∈ X -> p e.1 = true) -> p k = false ->
  at_entry h ls it -> key_ it = k -> value_ it = v -> lands h ls p it.
Proof using All.
  intros E HX Hk Hat <- <-. right. split; [done|]. split; [rewrite E; set_solver|]. split; [done|].
  intros e. rewrite E, elem_of_app, elem_of_cons. intros [Hin|[->|Hin]] Hp; [specialize (HX e Hin); congruence|done|].
  pose proof (tiles_ordered _ _ _ _ shape_tiles) as Ho. rewrite E, fmap_app in Ho. apply ordered_app in Ho as (_ & Ho & _).
  inversion Ho as [|?? _ Hf]; subst. rewrite Forall_fmap, Forall_forall in Hf. specialize (Hf e Hin). simpl in Hf. lia.
Qed.

Lemma lands_back_last X k v Y it :
  ents h ls.*1 = X ++ (k, v) :: Y -> (forall e, e ∈ Y -> p e.1 = false) -> p k = true ->
  at_entry h ls it -> key_ it = k -> value_ it = v -> lands_back h ls p it.
Proof using All.
  intros E HY Hk Hat <- <-. right. split; [done|]. split; [rewrite E; set_solver|]. split; [done|].
  intros e. rewrite E, elem_of_app, elem_of_cons. intros [Hin|[->|Hin]] Hp; [|done|specialize (HY e Hin); congruence].
  pose proof (tiles_ordered _ _ _ _ shape_tiles) as Ho. rewrite E, fmap_app in Ho. apply ordered_app in Ho as (_ & _ & Ho).
  assert (e.1 < key_ it); [|lia]. apply Ho; [by apply list_elem_of_fmap_2|]. apply list_elem_of_fmap. exists (key_ it, value_ it). set_solver.
Qed.

(** Place [i] of leaf [a] separates the entries in [p] from the others. *)
Definition cut (pre : list (N * Z)) (a : N) (lo : Z) (l : LeafNode) (post : list (N * Z)) (i : nat) : Prop :=
  ls = pre ++ (a, lo) :: post /\ leaves h !! a = Some l /\ leaf_wf l /\
  (forall e, e ∈ ents h pre.*1 ++ take i (leaf_es l) -> p e.1 = true) /\
  (forall e, e ∈ drop i (leaf_es l) ++ ents h post.*1 -> p e.1 = false).

Lemma cut_ents pre a lo l post i :
  cut pre a lo l post i -> ents h ls.*1 = (ents h pre.*1 ++ take i (leaf_es l)) ++ drop i (leaf_es l) ++ ents h post.*1.
Proof.
  intros (E & Hl & _). rewrite E, fmap_app, fmap_cons, ents_app, ents_cons. cbn [fst]. rewrite (es_leaf _ _ _ Hl).
  rewrite <- app_assoc, (app_assoc (take i _)), take_drop. done.
Qed.

(** The cut is at an entry of the leaf. *)
Lemma cut_here pre a lo l post i it :
  cut pre a lo l post i -> (i < l_num l)%nat -> node_ it = Some a -> leaf_index it = i ->
  exists it', load_entry h it = Ret it' /\ lands h ls p it'.
Proof using All.
  intros Hc Hi Hn <-. pose proof Hc as (E & Hl & Hw & HX & HY).
  destruct (load_entry_spec h ls it a lo l) as (it' & -> & Hat & He); try done; [rewrite E; set_solver|].
  exists it'. split; [done|]. pose proof (cut_ents _ _ _ _ _ _ Hc) as Ee. rewrite (drop_S _ _ _ He) in Ee, HY.
  eapply lands_head; [exact Ee|done| |done|done|done]. apply (HY (key_ it', value_ it')). set_solver.
Qed.

(** The cut is behind the leaf: the next one, if there is one. *)
Lemma cut_right pre a lo l post :
  cut pre a lo l post (l_num l) ->
  match l_right l with
  | None => forall it, node_ it = None -> lands h ls p it
  | Some r => exists rl, leaves h !! r = Some rl /\ forall it, node_ it = Some r -> leaf_index it = 0%nat ->
                exists it', load_entry h it = Ret it' /\ lands h ls p it'
  end.
Proof using All.
  intros Hc. pose proof Hc as (E & Hl & Hw & HX & HY). pose proof (neighbour_right _ _ _ _ _ E Hl) as Hnb.
  pose proof (cut_ents _ _ _ _ _ _ Hc) as Ee. assert (Hd : drop (l_num l) (leaf_es l) = []) by (apply drop_ge; by rewrite length_leaf_es).
  destruct post as [|[r rlo] post].
  - rewrite Hnb. intros it Hit. left. split; [done|]. rewrite Ee, Hd. simpl. rewrite app_nil_r. done.
  - destruct Hnb as (-> & rl & Hrl & Hwr & Hne). exists rl. split; [done|]. intros it Hit Hi0.
    apply (cut_here (pre ++ [(a, lo)]) r rlo rl post 0); [|rewrite <- length_leaf_es by done; destruct (leaf_es rl); [done|simpl; lia]|done|done].
    split; [by rewrite <- app_assoc|]. split; [done|]. split; [done|]. split.
    + intros e. rewrite take_0, app_nil_r, fmap_app, ents_app. intros He. apply HX. rewrite take_ge by (rewrite length_leaf_es; done).
      unfold ents at 2 in He. simpl in He. by rewrite app_nil_r, (es_leaf _ _ _ Hl) in He.
    + intros e. rewrite drop_0. intros He. apply HY. rewrite Hd, fmap_cons, ents_cons. cbn [app fst]. rewrite (es_leaf _ _ _ Hrl). done.
Qed.

(** The entry before the cut. *)
Lemma cut_back pre a lo l post i it :
  cut pre a lo l post i -> (i <= l_num l)%nat ->
  exists it', prev_entry h a i it = Ret it' /\ lands_back h ls p it'.
Proof using All.
  intros Hc Hi. pose proof Hc as (E & Hl & Hw & HX & HY). pose proof (cut_ents _ _ _ _ _ _ Hc) as Ee. destruct i as [|i]; unfold prev_entry, leaf_at.
  - rewrite Hl. cbn [mbind res_bind]. rewrite take_0, app_nil_r in Ee, HX. rewrite drop_0 in Ee, HY.
    destruct (neighbour_left _ _ _ _ _ E Hl) as [[Ep ->]|(pre' & r & rlo & rl & Ep & -> & Hrl & Hwr & Hne)].
    + eexists. split; [done|]. left. split; [done|]. rewrite Ee, Ep. simpl. done.
    + rewrite Hrl. cbn [mbind res_bind].
      assert (Hn : (0 < l_num rl)%nat) by (rewrite <- length_leaf_es by done; destruct (leaf_es rl); [done|simpl; lia]).
      destruct (load_entry_spec h ls (set_link r (l_seq rl) (move (Some r) (l_num rl - 1) it)) r rlo rl) as (it' & -> & Hat & He);
        try done; [rewrite E, Ep; set_solver|simpl; lia|].
      exists it'. split; [done|]. simpl in He.
      assert (Er : leaf_es rl = take (l_num rl - 1) (leaf_es rl) ++ [(key_ it', value_ it')]).
      { rewrite <- (take_drop (l_num rl - 1) (leaf_es rl)) at 1. f_equal. rewrite (drop_S _ _ _ He).
        rewrite drop_ge; [done|]. rewrite length_leaf_es by done. lia. }
      assert (Epe : ents h pre.*1 = (ents h pre'.*1 ++ take (l_num rl - 1) (leaf_es rl)) ++ [(key_ it', value_ it')]).
      { rewrite Ep, fmap_app, ents_app. cbn. rewrite app_nil_r, (es_leaf _ _ _ Hrl), Er at 1. by rewrite app_assoc. }
      rewrite Epe, <- app_assoc in Ee. eapply lands_back_last; [exact Ee|done| |done|done|done].
      apply (HX (key_ it', value_ it')). rewrite Epe. set_solver.
  - destruct (load_entry_spec h ls (move (Some a) i it) a lo l) as (it' & -> & Hat & He); try done; [rewrite E; set_solver|].
    exists it'. split; [done|]. simpl in He. rewrite (take_S_r _ _ _ He), (app_assoc (ents h pre.*1)) in Ee, HX. rewrite <- (app_assoc (_ ++ _) [_]) in Ee.
    eapply lands_back_last; [exact Ee|done| |done|done|done]. apply (HX (key_ it', value_ it')). set_solver.
Qed.

(** ** Searching along the list *)

Context (Hp : forall a b, a < b -> p b = true -> p a = true).

Lemma leaf_cut pre a lo l post :
  ls = pre ++ (a, lo) :: post -> leaves h !! a = Some l -> (forall e, e ∈ ents h pre.*1 -> p e.1 = true) ->
  let k := scan p (take (l_num l) (l_keys l)) in
  leaf_wf l /\ (k = l_num l /\ (forall e, e ∈ leaf_es l -> p e.1 = true) \/ (k < l_num l)%nat /\ cut pre a lo l post k).
Proof using All.
  intros E Hl Hpre k. destruct (shape_leaf a lo) as (l' & u & Hl' & Hw & _); [rewrite E; set_solver|].
  assert (l' = l) as -> by congruence. split; [done|].
  pose proof (tiles_ordered _ _ _ _ shape_tiles) as Ho.
  assert (Ee : ents h ls.*1 = ents h pre.*1 ++ leaf_es l ++ ents h post.*1).
  { rewrite E, fmap_app, fmap_cons, ents_app, ents_cons. cbn [fst]. by rewrite (es_leaf _ _ _ Hl). }
  rewrite Ee, fmap_app in Ho. apply ordered_app in Ho as (_ & Ho & _). rewrite fmap_app in Ho. apply ordered_app in Ho as (Ho & _ & Hcross).
  rewrite leaf_es_keys in Ho by done.
  pose proof (scan_below p (take (l_num l) (l_keys l))) as Hb. pose proof (scan_above p _ Ho Hp) as Ha. fold k in Hb, Ha.
  rewrite <- leaf_es_keys, <- fmap_take, Forall_fmap, Forall_forall in Hb by done.
  rewrite <- leaf_es_keys, <- fmap_drop, Forall_fmap, Forall_forall in Ha by done.
  pose proof (scan_le p (take (l_num l) (l_keys l))) as Hle. fold k in Hle.
  rewrite <- leaf_es_keys, length_fmap, length_leaf_es in Hle by done.
  destruct (decide (k = l_num l)) as [Hk|Hk].
  - left. split; [done|]. intros e He. apply Hb. rewrite Hk, take_ge by (by rewrite length_leaf_es). done.
  - right. split; [lia|]. split; [done|]. split; [done|]. split; [done|]. split.
    + intros e [He|He]%elem_of_app; [by apply Hpre|by apply Hb].
    + intros e [He|He]%elem_of_app; [by apply Ha|].
      destruct (lookup_lt_is_Some_2 (leaf_es l) k) as [e0 He0]; [rewrite length_leaf_es by done; lia|].
      assert (H0 : p e0.1 = false) by (apply (Ha e0); rewrite (drop_S _ _ _ He0); set_solver).
      destruct (p e.1) eqn:Epe; [|done]. rewrite <- H0. symmetry. apply (Hp e0.1 e.1); [|done].
      apply Hcross; apply list_elem_of_fmap_2; [by eapply list_elem_of_lookup_2|done].
Qed.

(** Leaves to the right are searched until one has a key that is not in [p]. *)
Lemma go_right pre a lo l post :
  ls = pre ++ (a, lo) :: post -> leaves h !! a = Some l -> (forall e, e ∈ ents h pre.*1 -> p e.1 = true) ->
  (forall e, e ∈ leaf_es l -> p e.1 = true) ->
  l_right l = None /\ (forall e, e ∈ ents h ls.*1 -> p e.1 = true) \/
  exists r rlo post', post = (r, rlo) :: post' /\ l_right l = Some r /\ ls = (pre ++ [(a, lo)]) ++ (r, rlo) :: post' /\
    (forall e, e ∈ ents h (pre ++ [(a, lo)]).*1 -> p e.1 = true).
Proof using All.
  intros E Hl Hpre Hes. pose proof (neighbour_right _ _ _ _ _ E Hl) as Hnb.
  assert (Hpa : forall e, e ∈ ents h (pre ++ [(a, lo)]).*1 -> p e.1 = true).
  { intros e. rewrite fmap_app, ents_app. cbn. rewrite app_nil_r, (es_leaf _ _ _ Hl). set_solver. }
  destruct post as [|[r rlo] post].
  - left. split; [done|]. by rewrite E.
  - right. destruct Hnb as [Hr _]. exists r, rlo, post. split; [done|]. split; [done|]. split; [by rewrite <- app_assoc|done].
Qed.

End Cut.

Section Walk.
Context (t : BPlusTree) (ls : list (N * Z)) (Hsh : shape t ls) (key : Z).
Abbreviation h := (hp t).

Lemma le_mono a b : a < b -> (b <=? key) = true -> (a <=? key) = true.
Proof. rewrite !Z.leb_le. lia. Qed.
Lemma lt_mono a b : a < b -> (b <? key) = true -> (a <? key) = true.
Proof. rewrite !Z.ltb_lt. lia. Qed.

Lemma seek_after_spec post : forall pre a lo fuel,
  ls = pre ++ (a, lo) :: post -> (forall e, e ∈ ents h pre.*1 -> (e.1 <=? key) = true) -> (length post < fuel)%nat ->
  seek_after fuel h key a = Ret None /\ (forall e, e ∈ ents h ls.*1 -> (e.1 <=? key) = true) \/
  exists pre' b blo bl post' k, seek_after fuel h key a = Ret (Some (b, k)) /\ (k < l_num bl)%nat /\
    cut t ls (fun k => k <=? key) pre' b blo bl post' k.
Proof using All.
  induction post as [|[r rlo] post IH]; intros pre a lo [|fuel] E Hpre Hf; simpl in Hf; try lia.
  all: destruct (shape_leaf t ls Hsh a lo) as (l & u & Hl & _); [rewrite E; set_solver|].
  all: simpl; unfold leaf_at; rewrite Hl; cbn [mbind res_bind].
  all: destruct (leaf_cut t ls Hsh (fun k => k <=? key) le_mono _ _ _ _ _ E Hl Hpre) as (Hw & [[Hk Hes]|[Hk Hc]]).
  2,4: right; do 6 eexists; (rewrite (proj2 (Nat.eqb_neq _ _)) by lia); split; [done|]; by split.
  all: rewrite Hk, Nat.eqb_refl.
  all: destruct (go_right t ls Hsh (fun k => k <=? key) le_mono _ _ _ _ _ E Hl Hpre Hes) as [[-> Hall]|(r' & rlo' & post' & Ep & -> & E' & Hpre')]; [by left|].
  - done.
  - injection Ep as -> -> ->. apply (IH _ _ _ _ E' Hpre'). lia.
Qed.

Lemma seek_at_spec post : forall pre a lo i fuel,
  ls = pre ++ (a, lo) :: post -> (forall e, e ∈ ents h pre.*1 -> (e.1 <? key) = true) -> (length post < fuel)%nat ->
  (exists e, e ∈ ents h ls.*1 /\ (e.1 <? key) = false) ->
  exists pre' b blo bl post' k, seek_at fuel h key i a = Ret (b, k) /\ (k < l_num bl)%nat /\
    cut t ls (fun k => k <? key) pre' b blo bl post' k.
Proof using All.
  induction post as [|[r rlo] post IH]; intros pre a lo i [|fuel] E Hpre Hf (e0 & He0 & Hk0); simpl in Hf; try lia.
  all: destruct (shape_leaf t ls Hsh a lo) as (l & u & Hl & _); [rewrite E; set_solver|].
  all: simpl; unfold leaf_at; rewrite Hl; cbn [mbind res_bind].
  all: destruct (leaf_cut t ls Hsh (fun k => k <? key) lt_mono _ _ _ _ _ E Hl Hpre) as (Hw & [[Hk Hes]|[Hk Hc]]).
  2,4: do 6 eexists; (rewrite (proj2 (Nat.eqb_neq _ _)) by lia); split; [done|]; by split.
  all: rewrite Hk, Nat.eqb_refl.
  all: destruct (go_right t ls Hsh (fun k => k <? key) lt_mono _ _ _ _ _ E Hl Hpre Hes) as [[-> Hall]|(r' & rlo' & post' & Ep & -> & E' & Hpre')].
  - by rewrite Hall in Hk0.
  - done.
  - by rewrite Hall in Hk0.
  - injection Ep as -> -> ->. apply (IH _ _ _ _ _ E' Hpre'); [lia|eauto].
Qed.

(** Enough fuel for every leaf. *)
Lemma leaf_fuel_enough pre a lo post : ls = pre ++ (a, lo) :: post -> (length post < leaf_fuel h)%nat.
Proof using All.
  intros E. unfold leaf_fuel. assert (Hlen : (length ls.*1 <= size (leaves h))%nat).
  { rewrite <- (size_dom (leaves h)). change (size (dom (leaves h))) with (length (elements (dom (leaves h)))). apply submseteq_length.
    apply NoDup_submseteq; [by destruct Hsh|]. intros b Hb. apply elem_of_elements. by eapply shape_dom. }
  rewrite E, length_fmap, length_app in Hlen. simpl in Hlen. lia.
Qed.

(** Next, from the first place behind the last key that the iterator was at. *)
Lemma next_entry_spec pre a lo l post i it :
  cut t ls (fun k => k <=? key) pre a lo l post i -> (i <= l_num l)%nat ->
  exists it', next_entry h a i it = Ret it' /\ lands h ls (fun k => k <=? key) it'.
Proof using All.
  intros Hc Hi. pose proof Hc as (E & Hl & Hw & _). unfold next_entry, leaf_at. rewrite Hl. cbn [mbind res_bind].
  destruct (Nat.leb_spec (l_num l) i) as [Hge|Hlt].
  - assert (i = l_num l) as -> by lia. pose proof (cut_right t ls Hsh _ _ _ _ _ _ Hc) as Hr. destruct (l_right l) as [r|].
    + destruct Hr as (rl & Hrl & Hland). rewrite Hrl. cbn [mbind res_bind]. by apply Hland.
    + eexists. split; [done|]. by apply Hr.
  - by apply (cut_here t ls Hsh (fun k => k <=? key) pre a lo l post i).
Qed.

End Walk.

(** ** The operations *)

Lemma cut_entry t ls pre a lo l post i k v :
  shape t ls -> ls = pre ++ (a, lo) :: post -> leaves (hp t) !! a = Some l -> leaf_es l !! i = Some (k, v) ->
  cut t ls (fun k' => k' <=? k) pre a lo l post (S i) /\ cut t ls (fun k' => k' <? k) pre a lo l post i /\ (i < l_num l)%nat.
Proof.
  intros Hsh E Hl He. destruct (shape_leaf t ls Hsh a lo) as (l' & u & Hl' & Hw & _); [rewrite E; set_solver|].
  assert (l' = l) as -> by congruence. apply lookup_lt_Some in He as Hi. rewrite length_leaf_es in Hi by done.
  assert (Ee : tents t ls = (ents (hp t) pre.*1 ++ take i (leaf_es l)) ++ (k, v) :: drop (S i) (leaf_es l) ++ ents (hp t) post.*1).
  { rewrite E, fmap_app, fmap_cons, ents_app, ents_cons. cbn [fst]. rewrite (es_leaf _ _ _ Hl), <- app_assoc. f_equal.
    rewrite app_comm_cons, app_assoc. f_equal. by rewrite (take_drop_middle _ _ _ He). }
  pose proof (tiles_ordered _ _ _ _ (shape_tiles t ls Hsh)) as Ho. rewrite Ee, fmap_app in Ho.
  apply ordered_app in Ho as (_ & Ho & Hx). inversion Ho as [|?? _ Hy]; subst. rewrite Forall_fmap, Forall_forall in Hy. simpl in Hx.
  assert (HX : forall e, e ∈ ents (hp t) pre.*1 ++ take i (leaf_es l) -> e.1 < k).
  { intros e Hin. apply Hx; [by apply list_elem_of_fmap_2|set_solver]. }
  split; [|split; [|done]]; (split; [done|split; [done|split; [done|split]]]).
  - intros e. rewrite (take_S_r _ _ _ He), app_assoc. intros [Hin|Hin]%elem_of_app; apply Z.leb_le; [specialize (HX e Hin); lia|].
    apply list_elem_of_singleton in Hin as ->. simpl. lia.
  - intros e Hin. apply Z.leb_gt. by apply Hy.
  - intros e Hin. apply Z.ltb_lt. by apply HX.
  - intros e. rewrite (drop_S _ _ _ He). intros [->|Hin]%elem_of_cons; apply Z.ltb_ge; simpl; [lia|]. specialize (Hy e Hin). simpl in Hy. lia.
Qed.

Lemma seek_spec t ls key it :
  shape t ls -> 0 <= key < key_end -> exists it', Seek_body t key it = Ret it' /\ lands (hp t) ls (fun k => k <? key) it'.
Proof.
  intros Hsh Hkey. pose proof Hsh as [(r & Hroot & Hr) _ _ _]. unfold Seek_body. rewrite Hroot.
  destruct (find_leaf_spec _ _ key _ _ _ _ Hr ltac:(lia) Hkey) as (a & lo & u & ls1 & ls2 & -> & E & Hlu & _ & Ha & Ht1 & Ht2).
  cbn [mbind res_bind]. pose proof Ha as (l & Hl & Hw & Ho & _). unfold leaf_at. rewrite Hl. cbn [mbind res_bind].
  destruct (slot_split l key Hw Ho) as [Hlo Hhi]. rewrite Forall_forall in Hlo, Hhi.
  assert (Hc : cut t ls (fun k => k <? key) ls1 a lo l ls2 (leaf_slot l key)).
  { split; [done|]. split; [done|]. split; [done|]. split; intros e [Hin|Hin]%elem_of_app.
    - apply Z.ltb_lt. pose proof (tiles_keys _ _ _ _ _ Ht1 Hin). lia.
    - by apply Z.ltb_lt, Hlo.
    - by apply Z.ltb_ge, Hhi.
    - apply Z.ltb_ge. pose proof (tiles_keys _ _ _ _ _ Ht2 Hin). lia. }
  pose proof (slot_le l key Hw) as Hle. destruct (Nat.eqb_spec (leaf_slot l key) (l_num l)) as [Hend|Hne].
  - rewrite Hend in Hc. pose proof (cut_right t ls Hsh _ _ _ _ _ _ Hc) as Hright. destruct (l_right l) as [rr|].
    + destruct Hright as (rl & _ & Hland). by apply Hland.
    + eexists. split; [done|]. by apply Hright.
  - by eapply (cut_here t ls Hsh _ _ _ _ _ _ _ _ Hc); [lia|..].
Qed.

(** The iterator was positioned in an earlier state of the tree. *)
Definition tracks (n : Z) (t : BPlusTree) (ls : list (N * Z)) (it : Iterator) : Prop :=
  exists t0 ls0, later n (hp t0) ls0 (hp t) ls /\ shape t0 ls0 /\ at_entry (hp t0) ls0 it.

Lemma tracks_now t ls it : shape t ls -> at_entry (hp t) ls it -> tracks 0 t ls it.
Proof. intros Hsh Hat. exists t, ls. split; [apply later_refl|done]. Qed.

Lemma tracks_later n m t ls t' ls' it : tracks n t ls it -> later m (hp t) ls (hp t') ls' -> tracks (n + m) t' ls' it.
Proof. intros (t0 & ls0 & Hl & Hsh & Hat) Hm. exists t0, ls0. split; [by eapply later_trans|done]. Qed.

(** Where the iterator is now. *)
Lemma tracks_pos n t ls it :
  tracks n t ls it -> n < 2 ^ 64 -> shape t ls ->
  (key_ it, value_ it) ∈ tents t ls /\
  exists a pre lo post l, node_ it = Some a /\ ls = pre ++ (a, lo) :: post /\ leaves (hp t) !! a = Some l /\ (0 < l_num l)%nat /\
    (forall e, e ∈ ents (hp t) pre.*1 -> e.1 < key_ it) /\
    (l_seq l = it_seq it -> leaf_es l !! leaf_index it = Some (key_ it, value_ it)).
Proof.
  intros (t0 & ls0 & Hlat & Hsh0 & a & l0 & lo & Hn & Hin & Hl0 & He0 & Hs0) Hlt Hsh.
  assert (Hat0 : (key_ it, value_ it) ∈ tents t0 ls0).
  { apply list_elem_of_split in Hin as (q1 & q2 & ->). apply leaf_in_ents. rewrite (es_leaf _ _ _ Hl0). by eapply list_elem_of_lookup_2. }
  pose proof Hlat as (_ & Hsub & Hents & Hseq). assert (Hat : (key_ it, value_ it) ∈ tents t ls) by by apply Hents.
  split; [done|]. assert (Hin' : (a, lo) ∈ ls) by by apply Hsub.
  destruct (shape_leaf t0 ls0 Hsh0 a lo Hin) as (l0' & u0 & _ & _ & Hin0).
  assert (Hlo : lo <= key_ it).
  { apply (leaf_in_keys _ _ _ _ (key_ it, value_ it)) in Hin0; [simpl in Hin0; lia|]. rewrite (es_leaf _ _ _ Hl0). by eapply list_elem_of_lookup_2. }
  assert (Hain : a ∈ ls0.*1) by (apply (list_elem_of_fmap_2 fst _ (a, lo)); done).
  destruct (Hseq a l0 Hain Hl0) as (l & Hl & _).
  apply list_elem_of_split in Hin' as (pre & post & E). exists a, pre, lo, post, l. do 3 (split; [done|]).
  split; [|split].
  - destruct (shape_leaf t ls Hsh a lo) as (l' & u & Hl' & Hw & _); [rewrite E; set_solver|].
    assert (l' = l) as -> by congruence. rewrite <- length_leaf_es by done.
    destruct (sh_filled _ _ Hsh) as [Hone|Hne].
    + rewrite E, length_fmap, length_app in Hone. simpl in Hone. destruct pre, post; simpl in Hone; try lia.
      rewrite E in Hat. cbn in Hat. rewrite app_nil_r, (es_leaf _ _ _ Hl) in Hat. destruct (leaf_es l); [set_solver|simpl; lia].
    + specialize (Hne a). rewrite (es_leaf _ _ _ Hl) in Hne. destruct (leaf_es l); [|simpl; lia]. exfalso. apply Hne; [|done].
      apply (list_elem_of_fmap_2 fst _ (a, lo)). rewrite E. set_solver.
  - intros e Hein. pose proof (shape_tiles t ls Hsh) as Ht. rewrite E in Ht. apply tiles_app in Ht as (mid & Ht1 & -> & _).
    pose proof (tiles_keys _ _ _ _ _ Ht1 Hein). lia.
  - intros Hs. rewrite <- He0. f_equal. eapply (later_same_seq n _ _ _ _ a); try done. congruence.
Qed.

Lemma next_spec n t ls it :
  tracks n t ls it -> n < 2 ^ 64 -> shape t ls ->
  exists b it', Next_body t it = Ret (b, it') /\ lands (hp t) ls (fun k => k <=? key_ it) it'.
Proof.
  intros Htr Hlt Hsh. destruct (tracks_pos _ _ _ _ Htr Hlt Hsh) as (_ & a & pre & lo & post & l & Hn & E & Hl & _ & Hpre & Hsame).
  unfold Next_body, leaf_at. rewrite Hn, Hl. cbn [mbind res_bind]. destruct (Z.eqb_spec (l_seq l) (it_seq it)) as [Hs|Hs].
  - destruct (cut_entry t ls pre a lo l post _ _ _ Hsh E Hl (Hsame Hs)) as (Hc & _ & Hi).
    destruct (next_entry_spec t ls Hsh _ _ _ _ _ _ _ it Hc ltac:(lia)) as (it' & -> & Hland). cbn [mbind res_bind]. by do 2 eexists.
  - assert (Hpre' : forall e, e ∈ ents (hp t) pre.*1 -> (e.1 <=? key_ it) = true) by (intros e He; apply Z.leb_le; specialize (Hpre e He); lia).
    destruct (seek_after_spec t ls Hsh (key_ it) post pre a lo (leaf_fuel (hp t)) E Hpre') as [[-> Hall]|(p' & b & blo & bl & q & k & -> & Hk & Hc)].
    + by eapply leaf_fuel_enough.
    + cbn [mbind res_bind]. do 2 eexists. split; [done|]. left. done.
    + cbn [mbind res_bind]. destruct (next_entry_spec t ls Hsh _ _ _ _ _ _ _ it Hc ltac:(lia)) as (it' & -> & Hland).
      cbn [mbind res_bind]. by do 2 eexists.
Qed.

Lemma prev_spec n t ls it :
  tracks n t ls it -> n < 2 ^ 64 -> shape t ls ->
  exists b it', Prev_body t it = Ret (b, it') /\ lands_back (hp t) ls (fun k => k <? key_ it) it'.
Proof.
  intros Htr Hlt Hsh. destruct (tracks_pos _ _ _ _ Htr Hlt Hsh) as (Hin & a & pre & lo & post & l & Hn & E & Hl & Hnum & Hpre & Hsame).
  unfold Prev_body, Valid, leaf_at. rewrite Hn, Hl. cbn [mbind res_bind]. rewrite (proj2 (Nat.ltb_lt _ _)) by done. cbn [negb].
  destruct (Z.eqb_spec (l_seq l) (it_seq it)) as [Hs|Hs].
  - destruct (cut_entry t ls pre a lo l post _ _ _ Hsh E Hl (Hsame Hs)) as (_ & Hc & Hi).
    destruct (cut_back t ls Hsh _ _ _ _ _ _ _ it Hc ltac:(lia)) as (it' & -> & Hland). cbn [mbind res_bind]. by do 2 eexists.
  - assert (Hpre' : forall e, e ∈ ents (hp t) pre.*1 -> (e.1 <? key_ it) = true) by (intros e He; apply Z.ltb_lt; by apply Hpre).
    destruct (seek_at_spec t ls Hsh (key_ it) post pre a lo (leaf_index it) (leaf_fuel (hp t)) E Hpre') as (p' & b & blo & bl & q & k & -> & Hk & Hc).
    + by eapply leaf_fuel_enough.
    + exists (key_ it, value_ it). split; [done|]. apply Z.ltb_irrefl.
    + cbn [mbind res_bind fst snd]. destruct (cut_back t ls Hsh _ _ _ _ _ _ _ it Hc ltac:(lia)) as (it' & -> & Hland).
      cbn [mbind res_bind]. by do 2 eexists.
Qed.

(** ** The first leaf *)

Lemma first_leaf_spec h d : forall lo hi t ls, repr h d lo hi t ls -> exists a lo' post, first_leaf d t = Ret a /\ ls = (a, lo') :: post.
Proof.
  induction d as [|d IH]; intros lo hi [a|num ks cs] ls Hr; try done.
  - destruct Hr as [_ ->]. by exists a, lo, [].
  - apply repr_S in Hr. destruct Hr as (_ & ts & Ets & Hs). inversion Hs as [? E|? k t s ? ts' ? s' _ Ht _]; subst.
    + by destruct (take num ks).
    + simpl first_leaf. unfold child_at. assert (Hc : cs !! 0%nat = Some (Some t)) by (destruct cs; [done|]; by injection Ets as ->).
      rewrite Hc. cbn [mbind res_bind]. destruct (IH _ _ _ _ Ht) as (a & lo' & post & -> & ->). by exists a, lo', (post ++ s').
Qed.

Lemma at_entry_valid t ls it : shape t ls -> at_entry (hp t) ls it -> Valid (hp t) it = Ret true.
Proof.
  intros Hsh (a & l & lo & Hn & Hin & Hl & He & _). unfold Valid, leaf_at. rewrite Hn, Hl. cbn [mbind res_bind].
  destruct (shape_leaf t ls Hsh a lo Hin) as (l' & u & Hl' & Hw & _). assert (l' = l) as -> by congruence.
  apply lookup_lt_Some in He. rewrite length_leaf_es in He by done. by rewrite (proj2 (Nat.ltb_lt _ _)) by lia.
Qed.

Lemma seek_to_first_spec t ls it :
  shape t ls -> exists it', SeekToFirst_body t it = Ret it' /\
    (tents t ls = [] /\ Valid (hp t) it' = Ret false \/ at_entry (hp t) ls it' /\ lands (hp t) ls (fun _ => false) it').
Proof.
  intros Hsh. pose proof Hsh as [(r & Hroot & Hr) _ _ _]. unfold SeekToFirst_body. rewrite Hroot.
  destruct (first_leaf_spec _ _ _ _ _ _ Hr) as (a & lo & post & -> & E). cbn [mbind res_bind].
  destruct (shape_leaf t ls Hsh a lo) as (l & u & Hl & Hw & _); [rewrite E; set_solver|].
  unfold leaf_at. rewrite Hl. cbn [mbind res_bind]. destruct (decide (l_num l = 0%nat)) as [Hz|Hnz].
  - assert (Hes : leaf_es l = []) by (apply nil_length_inv; by rewrite length_leaf_es).
    unfold load_entry, leaf_at. cbn [node_ set_link move leaf_index]. rewrite Hl. cbn [mbind res_bind].
    destruct Hw as (_ & Hk & Hv). destruct (l_keys l); [done|]. destruct (l_values l); [done|]. simpl.
    eexists. split; [done|]. left. unfold Valid, leaf_at. simpl. rewrite Hl. simpl. rewrite Hz. split; [|done].
    destruct (sh_filled _ _ Hsh) as [Hone|Hne].
    + rewrite E in Hone |- *. destruct post; [|simpl in Hone; lia]. cbn. by rewrite (es_leaf _ _ _ Hl), Hes.
    + exfalso. apply (Hne a); [rewrite E; set_solver|]. by rewrite (es_leaf _ _ _ Hl).
  - assert (Hc : cut t ls (fun _ => false) [] a lo l post 0).
    { split; [done|]. split; [done|]. split; [done|]. split; [|done]. intros e. rewrite take_0. simpl. set_solver. }
    destruct (cut_here t ls Hsh _ _ _ _ _ _ _ (set_link a (l_seq l) (move (Some a) 0 it)) Hc) as (it' & -> & Hland); [lia|done|done|].
    exists it'. split; [done|]. right. split; [|done]. destruct Hland as [[_ Hall]|[? _]]; [|done]. exfalso.
    destruct (leaf_es l) as [|e q] eqn:Ee; [rewrite <- length_leaf_es, Ee in Hnz; done|].
    specialize (Hall e). simpl in Hall. discriminate Hall. rewrite E. cbn. rewrite (es_leaf _ _ _ Hl), Ee. set_solver.
Qed.

(** PrintList's assertion holds, and the keys come out in order. *)
Lemma print_leaves_spec t ls (Hsh : shape t ls) post : forall pre a lo fuel,
  ls = pre ++ (a, lo) :: post -> (length post < fuel)%nat ->
  exists kss, print_leaves fuel (hp t) a = Ret kss /\ concat kss = (ents (hp t) ((a, lo) :: post).*1).*1.
Proof.
  induction post as [|[r rlo] post IH]; intros pre a lo [|fuel] E Hf; simpl in Hf; try lia.
  all: destruct (shape_leaf t ls Hsh a lo) as (l & u & Hl & Hw & _); [rewrite E; set_solver|].
  all: pose proof (neighbour_right t ls Hsh _ _ _ _ _ E Hl) as Hnb; simpl; unfold leaf_at; rewrite Hl; cbn [mbind res_bind].
  - rewrite Hnb. eexists. split; [done|]. cbn. by rewrite !app_nil_r, (es_leaf _ _ _ Hl), leaf_es_keys.
  - destruct Hnb as (-> & rl & Hrl & _). rewrite Hrl. cbn [mbind res_bind].
    assert (E' : ls = (pre ++ [(a, lo)]) ++ (r, rlo) :: post) by by rewrite <- app_assoc.
    assert (Hleft : l_left rl = Some a).
    { pose proof (sh_dll _ _ Hsh) as Hd. rewrite E', fmap_app, fmap_cons in Hd. apply dll_at in Hd. unfold links in Hd. cbn [fst] in Hd.
      rewrite Hrl in Hd. injection Hd as Hd _. rewrite Hd. unfold last_or. rewrite fmap_app. cbn. by rewrite last_snoc. }
    rewrite bool_decide_eq_true_2 by done. destruct (IH _ _ _ fuel E' ltac:(lia)) as (kss & -> & Hk). cbn [mbind res_bind].
    eexists. split; [done|]. cbn [concat]. rewrite Hk, <- leaf_es_keys, <- (es_leaf _ _ _ Hl) by done. symmetry. apply (fmap_app fst (es (hp t) a)).
Qed.

Lemma print_list_spec t ls : shape t ls -> exists kss, PrintList t = Ret kss /\ concat kss = (tents t ls).*1.
Proof.
  intros Hsh. pose proof Hsh as [(r & Hroot & Hr) _ _ _]. unfold PrintList. rewrite Hroot.
  destruct (first_leaf_spec _ _ _ _ _ _ Hr) as (a & lo & post & -> & E). cbn [mbind res_bind].
  destruct (print_leaves_spec t ls Hsh post [] a lo (leaf_fuel (hp t)) E) as (kss & -> & Hk); [by eapply (leaf_fuel_enough t ls Hsh 0 [])|].
  exists kss. by rewrite E.
Qed.
