(* ===== verification/BTreeProps.v ===== *)
(** * BTreeProps: the B+ tree refines an ordered map

    Programs over one tree and one iterator, run on the model of the code and on
    a finite map with a cursor, give the same replies. *)

From stdpp Require Import gmap sorting.
From S2P Require Import Prelude.
From S2P Require Import BTree.
From S2P Require Import BTreeInv.
From S2P Require Import BTreeInsert.
From S2P Require Import BTreeOps.

(** ** Programs *)

Inductive bop : Type :=
| BGet (k : Z)
| BGetWithInsert (k : Z) (val : option N)
| BPut (k : Z) (val : option N)
| BWrite (k : Z) (n : BNode)  (* a write through the record that Get returns *)
| BSeek (k : Z)
| BSeekToFirst
| BNext
| BPrev
| BCur                        (* CurNode and Key, some time after the last move *)
| BPrintList.

Inductive breply : Type :=
| RRec (o : option BNode)
| RPos (o : option (Z * BNode))
| RKeys (ks : list Z).

Definition record_at (h : heap) (a : N) : res BNode :=
  match bnodes h !! a with Some n => Ret n | None => UB end.

Definition position (h : heap) (it : Iterator) : res breply :=
  v ← CurNode h it;
  match v with
  | None => Ret (RPos None)
  | Some a => n ← record_at h a; Ret (RPos (Some (key_ it, n)))
  end.

(** The tree, the iterator, and where the thread is. *)
Abbreviation bstate := (BPlusTree * Iterator * rtm)%type.

(** What a thread does with the record that it was given. *)
Definition with_record {A} (h : heap) (r : option N) (f : option BNode -> res A) : res A :=
  match r with
  | None => f None
  | Some a => n ← record_at h a; f (Some n)
  end.

Definition bstep (hw : bool) (o : bop) (s : bstate) : res (breply * bstate) :=
  let '(t, it, m) := s in
  match o with
  | BGet k => r ← Get hw m t k; with_record (hp t) r.1 (fun n => Ret (RRec n, (t, it, r.2)))
  | BGetWithInsert k val =>
      r ← GetWithInsert hw m t k val; n ← record_at (hp r.1.2) r.1.1; Ret (RRec (Some n), (r.1.2, it, r.2))
  | BPut k val => r ← Put hw m t k val; n ← record_at (hp r.1.2) r.1.1; Ret (RRec (Some n), (r.1.2, it, r.2))
  | BWrite k n =>
      r ← Get hw m t k;
      match r.1 with
      | None => Ret (RRec None, (t, it, r.2))
      | Some a => h ← set_bnode a (fun _ => n) (hp t); Ret (RRec (Some n), (with_heap h t, it, r.2))
      end
  | BSeek k => r ← Seek hw m t k it; p ← position (hp t) r.1; Ret (p, (t, r.1, r.2))
  | BSeekToFirst => r ← SeekToFirst hw m t it; p ← position (hp t) r.1; Ret (p, (t, r.1, r.2))
  | BNext => r ← Next hw m t it; p ← position (hp t) r.1.2; Ret (p, (t, r.1.2, r.2))
  | BPrev => r ← Prev hw m t it; p ← position (hp t) r.1.2; Ret (p, (t, r.1.2, r.2))
  | BCur => p ← position (hp t) it; Ret (p, s)
  | BPrintList => kss ← PrintList t; Ret (RKeys (concat kss), s)
  end.

(** ** A thread that runs a program *)

(** What the hardware does at a step: whether a transaction that is begun now
    commits or the thread takes the lock, and whether it aborts a transaction that
    is still open from an earlier step. *)
Record fate : Type := Fate { commits : bool; aborts : bool }.

(** [saved] is the thread as it was when the open transaction began: an abort
    takes everything back to there. *)
Inductive thread : Type := Thread (prog : list bop) (st : bstate) (out : list breply) (saved : option thread).

Definition start (prog : list bop) (st : bstate) : thread := Thread prog st [] None.

Definition execute (f : fate) (o : bop) (prog : list bop) (T : thread) : res thread :=
  let 'Thread _ st out saved := T in
  r ← bstep (commits f) o st;
  Ret (Thread prog r.2 (out ++ [r.1])
         (match st.2, r.2.2 with Outside, InTransaction => Some T | _, _ => saved end)).

Definition thread_step (f : fate) (T : thread) : res thread :=
  let 'Thread prog st out saved := T in
  match prog, st.2, saved with
  | [], _, _ => Ret T
  | o :: prog, InTransaction, Some T0 => if aborts f then Ret T0 else execute f o prog T
  | o :: prog, _, _ => execute f o prog T
  end.

Fixpoint run_thread (fs : list fate) (T : thread) : res thread :=
  match fs with
  | [] => Ret T
  | f :: fs => T ← thread_step f T; run_thread fs T
  end.

(** ** The ordered map *)

Definition pick_key (f : Z -> Z -> Z) (p : Z -> bool) (ks : list Z) : option Z :=
  foldr (fun k acc => if p k then Some (match acc with Some k' => f k k' | None => k end) else acc) None ks.
Definition first_key : (Z -> bool) -> list Z -> option Z := pick_key Z.min.
Definition last_key : (Z -> bool) -> list Z -> option Z := pick_key Z.max.

Definition keys_of (m : gmap Z BNode) : list Z := elements (dom m).

Definition here (m : gmap Z BNode) (cur : option Z) : breply := RPos (k ← cur; n ← m !! k; Some (k, n)).

(** A map and the key under the cursor. Next and Prev need one, as the comments in
    the header of the tree require (REQUIRES: Valid()); a lookup needs a map that
    is not empty, see below. *)
Definition mstep (o : bop) (s : gmap Z BNode * option Z) : option (breply * (gmap Z BNode * option Z)) :=
  let '(m, cur) := s in
  let go c := Some (here m c, (m, c)) in
  match o with
  | BGet k => if decide (m = ∅) then None else Some (RRec (m !! k), s)
  | BGetWithInsert k val => let m' := ensure k val m in Some (RRec (m' !! k), (m', cur))
  | BPut k val => Some (RRec (Some (mkBNode val 0)), (<[k := mkBNode val 0]> m, cur))
  | BWrite k n => if decide (m = ∅) then None
                  else match m !! k with
                       | None => Some (RRec None, s)
                       | Some _ => Some (RRec (Some n), (<[k := n]> m, cur))
                       end
  | BSeek k => go (first_key (fun k' => k <=? k') (keys_of m))
  | BSeekToFirst => go (first_key (fun _ => true) (keys_of m))
  | BNext => match cur with Some k => go (first_key (fun k' => k <? k') (keys_of m)) | None => None end
  | BPrev => match cur with Some k => go (last_key (fun k' => k' <? k) (keys_of m)) | None => None end
  | BCur => match cur with Some k => go (Some k) | None => None end
  | BPrintList => Some (RKeys (merge_sort Z.le (keys_of m)), s)
  end.

Fixpoint mrun (ops : list bop) (s : gmap Z BNode * option Z) : option (list breply) :=
  match ops with
  | [] => Some []
  | o :: ops => r ← mstep o s; rs ← mrun ops r.2; Some (r.1 :: rs)
  end.

Definition op_ok (o : bop) : Prop :=
  match o with
  | BGet k | BGetWithInsert k _ | BPut k _ | BWrite k _ | BSeek k => in_width 64 k
  | _ => True
  end.

(** ** The simulation *)

Lemma pick_key_spec (f : Z -> Z -> Z) (R : Z -> Z -> Prop) p ks :
  (forall a, R a a) -> (forall a b c, R a b -> R b c -> R a c) -> (forall a b, f a b = a /\ R a b \/ f a b = b /\ R b a) ->
  match pick_key f p ks with
  | None => forall k, k ∈ ks -> p k = false
  | Some k => k ∈ ks /\ p k = true /\ forall k', k' ∈ ks -> p k' = true -> R k k'
  end.
Proof.
  intros Hr Ht Hf. induction ks as [|k ks IH]; [simpl; set_solver|]. unfold pick_key in *. simpl. destruct (p k) eqn:E.
  - destruct (foldr _ None ks) as [k1|].
    + destruct IH as (H1 & H2 & H3). destruct (Hf k k1) as [[-> HR]|[-> HR]].
      * split; [set_solver|]. split; [done|]. intros k' [->|Hk']%elem_of_cons Hp; eauto.
      * split; [set_solver|]. split; [done|]. intros k' [->|Hk']%elem_of_cons Hp; eauto.
    + split; [set_solver|]. split; [done|]. intros k' [->|Hk']%elem_of_cons Hp; [done|]. by rewrite IH in Hp.
  - destruct (foldr _ None ks) as [k1|].
    + destruct IH as (H1 & H2 & H3). split; [set_solver|]. split; [done|]. intros k' [->|Hk']%elem_of_cons Hp; [congruence|]. by apply H3.
    + intros k' [->|Hk']%elem_of_cons; [done|]. by apply IH.
Qed.

Lemma first_key_spec p ks :
  match first_key p ks with
  | None => forall k, k ∈ ks -> p k = false
  | Some k => k ∈ ks /\ p k = true /\ forall k', k' ∈ ks -> p k' = true -> k <= k'
  end.
Proof. apply (pick_key_spec Z.min Z.le); lia. Qed.

Lemma last_key_spec p ks :
  match last_key p ks with
  | None => forall k, k ∈ ks -> p k = false
  | Some k => k ∈ ks /\ p k = true /\ forall k', k' ∈ ks -> p k' = true -> k' <= k
  end.
Proof. apply (pick_key_spec Z.max (fun a b => b <= a)); lia. Qed.

(** The state of a run: [n] bounds the insertions since the iterator was moved. *)
Definition sim (n : Z) (s : BPlusTree * Iterator) (a : gmap Z BNode * option Z) : Prop :=
  exists ls, tree_inv s.1 ls /\ abs s.1 ls a.1 /\ 0 <= n /\ forall k, a.2 = Some k -> tracks n s.1 ls s.2 /\ key_ s.2 = k.

Lemma abs_keys t ls m k : tree_inv t ls -> abs t ls m -> k ∈ keys_of m <-> exists v, (k, v) ∈ tents t ls.
Proof.
  intros [_ [_ Hsome] _ _] Habs. unfold keys_of. rewrite elem_of_elements, elem_of_dom. split.
  - intros [n (v & Hin & _)%Habs]. eauto.
  - intros [v Hin]. destruct (Hsome _ Hin) as [n Hn]. exists n. apply Habs. eauto.
Qed.

(** What a move shows of the entry it arrives at. *)
Lemma position_at t ls m it :
  tree_inv t ls -> abs t ls m -> Valid (hp t) it = Ret true -> (key_ it, value_ it) ∈ tents t ls ->
  position (hp t) it = Ret (here m (Some (key_ it))).
Proof.
  intros [_ [_ Hsome] _ _] Habs Hv Hin. unfold position, CurNode. rewrite Hv. cbn [mbind res_bind].
  destruct (Hsome _ Hin) as [n Hn]. simpl in Hn. unfold record_at. rewrite Hn. cbn [mbind res_bind].
  unfold here. simpl. rewrite (proj2 (Habs (key_ it) n)) by eauto. done.
Qed.

Lemma lands_sim t ls m p it :
  tree_inv t ls -> abs t ls m -> lands (hp t) ls p it ->
  let c := first_key (fun k => negb (p k)) (keys_of m) in
  position (hp t) it = Ret (here m c) /\ sim 0 (t, it) (m, c).
Proof.
  intros Hinv Habs Hland c. pose proof (first_key_spec (fun k => negb (p k)) (keys_of m)) as Hc. fold c in Hc.
  destruct Hland as [[Hn Hall]|(Hat & Hin & Hp & Hmin)].
  - destruct c as [k|].
    { exfalso. destruct Hc as (Hk & Hnp & _). apply (abs_keys t ls m) in Hk as [v Hv]; [|done..].
      specialize (Hall _ Hv). simpl in Hall. by rewrite Hall in Hnp. }
    split; [unfold position, CurNode, Valid; by rewrite Hn|]. exists ls. do 2 (split; [done|]). split; [lia|by intros ? [=]].
  - assert (Ec : c = Some (key_ it)).
    { assert (Hk : key_ it ∈ keys_of m) by (apply (abs_keys t ls m); eauto). destruct c as [k|].
      - destruct Hc as (Hk' & Hnp & Hle). apply (abs_keys t ls m) in Hk' as [v Hv]; [|done..].
        specialize (Hle _ Hk). rewrite Hp in Hle. specialize (Hle eq_refl). specialize (Hmin _ Hv). simpl in Hmin.
        assert (Hpk : p k = false) by (by destruct (p k)). specialize (Hmin Hpk). f_equal. lia.
      - specialize (Hc _ Hk). by rewrite Hp in Hc. }
    rewrite Ec. pose proof (ti_shape _ _ Hinv) as Hsh. split; [apply (position_at t ls); try done; by eapply at_entry_valid|].
    exists ls. do 2 (split; [done|]). split; [lia|]. intros k [= <-]. split; [by apply tracks_now|done].
Qed.

Lemma lands_back_sim t ls m p it :
  tree_inv t ls -> abs t ls m -> lands_back (hp t) ls p it ->
  let c := last_key p (keys_of m) in
  position (hp t) it = Ret (here m c) /\ sim 0 (t, it) (m, c).
Proof.
  intros Hinv Habs Hland c. pose proof (last_key_spec p (keys_of m)) as Hc. fold c in Hc.
  destruct Hland as [[Hn Hall]|(Hat & Hin & Hp & Hmin)].
  - destruct c as [k|].
    { exfalso. destruct Hc as (Hk & Hnp & _). apply (abs_keys t ls m) in Hk as [v Hv]; [|done..].
      specialize (Hall _ Hv). simpl in Hall. congruence. }
    split; [unfold position, CurNode, Valid; by rewrite Hn|]. exists ls. do 2 (split; [done|]). split; [lia|by intros ? [=]].
  - assert (Ec : c = Some (key_ it)).
    { assert (Hk : key_ it ∈ keys_of m) by (apply (abs_keys t ls m); eauto). destruct c as [k|].
      - destruct Hc as (Hk' & Hnp & Hle). apply (abs_keys t ls m) in Hk' as [v Hv]; [|done..].
        specialize (Hle _ Hk Hp). specialize (Hmin _ Hv Hnp). simpl in Hmin. f_equal. lia.
      - specialize (Hc _ Hk). congruence. }
    rewrite Ec. pose proof (ti_shape _ _ Hinv) as Hsh. split; [apply (position_at t ls); try done; by eapply at_entry_valid|].
    exists ls. do 2 (split; [done|]). split; [lia|]. intros k [= <-]. split; [by apply tracks_now|done].
Qed.

(** The tree changes under the iterator. *)
Lemma sim_step n c t t' ls ls' it m' cur :
  (forall k, cur = Some k -> tracks n t ls it /\ key_ it = k) -> 0 <= n -> 0 <= c ->
  later c (hp t) ls (hp t') ls' -> tree_inv t' ls' -> abs t' ls' m' -> sim (n + c) (t', it) (m', cur).
Proof.
  intros Hcur Hn Hc Hlat Hinv Habs. exists ls'. do 2 (split; [done|]). split; [lia|]. intros k Hk.
  destruct (Hcur k Hk). split; [by eapply tracks_later|done].
Qed.

Lemma record_at_spec t ls m k v :
  tree_inv t ls -> abs t ls m -> (k, v) ∈ tents t ls -> exists n, record_at (hp t) v = Ret n /\ m !! k = Some n /\ bnodes (hp t) !! v = Some n.
Proof.
  intros [_ [_ Hsome] _ _] Habs Hin. destruct (Hsome _ Hin) as [n Hn]. simpl in Hn. exists n. unfold record_at. rewrite Hn.
  split; [done|]. split; [apply Habs; eauto|done].
Qed.

Lemma printed_keys t ls m kss :
  tree_inv t ls -> abs t ls m -> concat kss = (tents t ls).*1 -> concat kss = merge_sort Z.le (keys_of m).
Proof.
  intros Hinv Habs ->. pose proof (tiles_ordered _ _ _ _ (shape_tiles t ls (ti_shape _ _ Hinv))) as Ho.
  apply (StronglySorted_unique Z.le).
  - clear Hinv Habs. induction Ho as [|k q _ IH Hf]; constructor; [done|]. eapply Forall_impl; [exact Hf|]. intros; simpl in *; lia.
  - apply StronglySorted_merge_sort; [intros x y z; apply Z.le_trans|intros x y; lia].
  - rewrite merge_sort_Permutation. apply NoDup_Permutation; [by apply ordered_NoDup|unfold keys_of; apply NoDup_elements|]. intros k.
    rewrite (abs_keys t ls m) by done. rewrite list_elem_of_fmap. split.
    + intros ([k' v] & -> & Hin). by exists v.
    + intros [v Hin]. by exists (k, v).
Qed.

Lemma bstep_sim hw n o s a r a' :
  sim n s a -> n < 2 ^ 64 -> op_ok o -> mstep o a = Some (r, a') ->
  exists s' n', bstep hw o (s, Outside) = Ret (r, (s', Outside)) /\ sim n' s' a' /\ n' <= n + 1.
Proof.
  destruct s as [t it], a as [m cur]. intros (ls & Hinv & Habs & Hn & Hcur) Hlt Hok Hm. simpl in Hinv, Habs, Hcur.
  pose proof (ti_shape _ _ Hinv) as Hsh.
  assert (Hsame : sim n (t, it) (m, cur)) by (by exists ls).
  destruct o as [k|k val|k val|k nd|k| | | | |]; simpl in Hok, Hm |- *.
  - destruct (decide (m = ∅)) as [|Hne]; [done|]. simplify_eq. unfold Get, with_record. cbn [Begin mbind res_bind].
    destruct (get_abs t ls m k Hinv Habs Hok) as ([o|] & -> & Hemp & Eo & Hin & _); [|by destruct Hne; apply Hemp]. cbn [mbind res_bind End_ fst snd].
    destruct o as [v|]; simpl in Eo; rewrite Eo; [|do 2 eexists; split; [done|]; split; [done|lia]].
    destruct (record_at_spec t ls m k v Hinv Habs (Hin v eq_refl)) as (nd & -> & _ & ->). cbn [mbind res_bind].
    do 2 eexists. split; [done|]. split; [done|lia].
  - simplify_eq. destruct (tree_insert_spec hw t ls m k val Hinv Habs Hok) as (w & t' & ls' & -> & Hinv' & Habs' & Hlat & Hin).
    cbn [mbind res_bind fst snd]. destruct (record_at_spec t' ls' _ k w Hinv' Habs' Hin) as (nd & -> & -> & _). cbn [mbind res_bind].
    eexists _, (n + 1). split; [done|]. split; [|done]. by apply (sim_step n 1 t t' ls ls' it).
  - simplify_eq. destruct (put_spec hw t ls m k val Hinv Habs Hok) as (w & t' & ls' & -> & Hinv' & Habs' & Hlat & Hin).
    cbn [mbind res_bind fst snd]. destruct (record_at_spec t' ls' _ k w Hinv' Habs' Hin) as (nd & -> & E & _). cbn [mbind res_bind].
    rewrite lookup_insert_eq in E. injection E as <-. eexists _, (n + 1). split; [done|]. split; [|done]. by apply (sim_step n 1 t t' ls ls' it).
  - destruct (decide (m = ∅)) as [|Hne]; [done|]. unfold Get. cbn [Begin mbind res_bind].
    destruct (get_abs t ls m k Hinv Habs Hok) as ([o|] & -> & Hemp & Eo & Hin & _); [|by destruct Hne; apply Hemp]. cbn [mbind res_bind End_ fst snd].
    destruct o as [v|]; simpl in Eo; [|rewrite Eo in Hm; simplify_eq; do 2 eexists; split; [done|]; split; [done|lia]].
    destruct (record_at_spec t ls m k v Hinv Habs (Hin v eq_refl)) as (n0 & _ & E & Hn0). rewrite E in Hm. simplify_eq.
    destruct (set_bnode_spec t ls m k v (fun _ => nd) n0 Hinv Habs (Hin v eq_refl) Hn0) as (h' & -> & Hinv' & Habs' & Hlat & _).
    cbn [mbind res_bind]. eexists _, (n + 0). split; [done|]. split; [|lia]. by apply (sim_step n 0 t _ ls ls it).
  - simplify_eq. unfold Seek, RTMScope. cbn [Begin mbind res_bind]. destruct (seek_spec t ls k it Hsh Hok) as (it' & -> & Hland). cbn [mbind res_bind End_ fst snd].
    destruct (lands_sim t ls m _ it' Hinv Habs Hland) as [Hpos Hsim]. rewrite Hpos. cbn [mbind res_bind].
    assert (Ef : first_key (fun k0 => negb (k0 <? k)) (keys_of m) = first_key (fun k' => k <=? k') (keys_of m)).
    { unfold first_key, pick_key. apply foldr_ext; [|done..]. intros x acc. by rewrite Z.leb_antisym. }
    rewrite Ef in *. do 2 eexists. split; [done|]. split; [done|lia].
  - simplify_eq. unfold SeekToFirst, RTMScope. cbn [Begin mbind res_bind]. destruct (seek_to_first_spec t ls it Hsh) as (it' & -> & D). cbn [mbind res_bind End_ fst snd].
    destruct D as [[Hnil Hv]|[_ Hland]].
    + assert (Ec : first_key (fun _ => true) (keys_of m) = None).
      { pose proof (first_key_spec (fun _ => true) (keys_of m)) as Hc. destruct (first_key _ _) as [k|]; [|done].
        destruct Hc as (Hk & _). apply (abs_keys t ls m) in Hk as [v Hin]; [|done..]. rewrite Hnil in Hin. set_solver. }
      rewrite Ec. unfold position, CurNode. rewrite Hv. cbn [mbind res_bind]. eexists _, n. split; [done|]. split; [|lia].
      exists ls. do 2 (split; [done|]). split; [done|by intros ? [=]].
    + destruct (lands_sim t ls m _ it' Hinv Habs Hland) as [Hpos Hsim]. simpl in Hpos, Hsim. rewrite Hpos. cbn [mbind res_bind].
      do 2 eexists. split; [done|]. split; [done|lia].
  - destruct cur as [k|]; [|done]. simplify_eq. destruct (Hcur k eq_refl) as [Htr Hk]. subst k.
    unfold Next, RTMScope. cbn [Begin mbind res_bind]. destruct (next_spec n t ls it Htr Hlt Hsh) as (b & it' & -> & Hland). cbn [mbind res_bind End_ fst snd].
    destruct (lands_sim t ls m _ it' Hinv Habs Hland) as [Hpos Hsim]. rewrite Hpos. cbn [mbind res_bind].
    assert (Ef : first_key (fun k0 => negb (k0 <=? key_ it)) (keys_of m) = first_key (fun k' => key_ it <? k') (keys_of m)).
    { unfold first_key, pick_key. apply foldr_ext; [|done..]. intros x acc. by rewrite Z.ltb_antisym. }
    rewrite Ef in *. do 2 eexists. split; [done|]. split; [done|lia].
  - destruct cur as [k|]; [|done]. simplify_eq. destruct (Hcur k eq_refl) as [Htr Hk]. subst k.
    unfold Prev, RTMScope. cbn [Begin mbind res_bind]. destruct (prev_spec n t ls it Htr Hlt Hsh) as (b & it' & -> & Hland). cbn [mbind res_bind End_ fst snd].
    destruct (lands_back_sim t ls m _ it' Hinv Habs Hland) as [Hpos Hsim]. rewrite Hpos. cbn [mbind res_bind].
    do 2 eexists. split; [done|]. split; [done|lia].
  - destruct cur as [k|]; [|done]. simplify_eq. destruct (Hcur k eq_refl) as [Htr Hk]. subst k.
    destruct (tracks_pos n t ls it Htr Hlt Hsh) as (Hin & a & pre & lo & post & l & Hnode & _ & Hl & Hnum & _).
    rewrite (position_at t ls m it Hinv Habs); [| |done].
    2: { unfold Valid, leaf_at. rewrite Hnode, Hl. cbn [mbind res_bind]. by rewrite (proj2 (Nat.ltb_lt _ _)). }
    cbn [mbind res_bind]. do 2 eexists. split; [done|]. split; [done|lia].
  - simplify_eq. destruct (print_list_spec t ls Hsh) as (kss & -> & Hk). cbn [mbind res_bind].
    rewrite (printed_keys t ls m kss Hinv Habs Hk). do 2 eexists. split; [done|]. split; [done|lia].
Qed.

Lemma run_sim ops : forall n fs s a rs out,
  sim n s a -> n + Z.of_nat (length ops) < 2 ^ 64 -> Forall op_ok ops -> mrun ops a = Some rs -> (length ops <= length fs)%nat ->
  exists s', run_thread fs (Thread ops (s, Outside) out None) = Ret (Thread [] (s', Outside) (out ++ rs) None).
Proof.
  induction ops as [|o ops IH]; intros n fs s a rs out Hsim Hn Hok Hm Hf; simpl in Hm.
  - simplify_eq. exists s. rewrite app_nil_r. clear. induction fs as [|f fs IH]; [done|]. simpl. exact IH.
  - destruct fs as [|f fs]; [simpl in Hf; lia|]. inversion Hok as [|?? Ho Hos]; subst. simpl length in Hn, Hf.
    destruct (mstep o a) as [[r a']|] eqn:Es; [|done]. simpl in Hm. destruct (mrun ops a') as [rs'|] eqn:Er; [|done]. simpl in Hm. simplify_eq.
    destruct (bstep_sim (commits f) n o s a r a' Hsim ltac:(lia) Ho Es) as (s' & n' & E & Hsim' & Hn').
    cbn [run_thread thread_step snd execute]. rewrite E. cbn [mbind res_bind fst snd].
    destruct (IH n' fs s' a' rs' (out ++ [r]) Hsim' ltac:(lia) Hos Er ltac:(lia)) as [s'' E']. exists s''. rewrite E'. by rewrite <- app_assoc.
Qed.

(** C7: Refinement of an ordered map by the B+ tree. A thread that runs a program
    of lookups, insertions (_GetWithInsert and Put, through leaf and inner splits
    up to a new root), writes through the records that Get returns, and moves of an
    iterator (Seek, SeekToFirst, Next, Prev, CurNode) in any order, started on a
    new tree, gives the replies of a finite map with a cursor and ends outside of
    every transaction and without the lock, whether its transactions commit in
    hardware or fall back to the lock: Next finds the least key greater than the
    iterator's last one and Prev the greatest smaller one among the keys of the
    tree at that moment, although insertions may have split or shifted the leaf
    that the iterator points to. Nothing is undefined, no assertion fails
    (PrintList's check of the links included), and the loops end. Next, Prev and
    CurNode need a valid iterator, a lookup a tree that is not empty, and the
    program has fewer than 2^64 steps, since the sequence number of a leaf is 64
    bits wide. *)
Theorem btree_refines_ordered_map ops rs fs :
  Forall op_ok ops -> Z.of_nat (length ops) < 2 ^ 64 -> mrun ops (∅, None) = Some rs -> (length ops <= length fs)%nat ->
  exists s, run_thread fs (start ops (new_tree, new_iter, Outside)) = Ret (Thread [] (s, Outside) rs None).
Proof.
  intros Hok Hlen Hm Hf. apply (run_sim ops 0 fs _ (∅, None) rs []); try done. destruct new_tree_inv as [Hinv Habs].
  exists [(1%N, 0)]. do 2 (split; [done|]). split; [lia|by intros ? [=]].
Qed.

(** Keys in descending order split leaves in the middle, in ascending order at the
    end; the iterator stands on 40 while its leaf is split under it. *)
Definition btree_program : list bop :=
  ((fun i => BPut (1000 - 10 * Z.of_nat i) (Some (N.of_nat i))) <$> seq 0 40) ++
  [BSeek 635; BPut 641 None; BNext; BPrev; BPrev] ++
  ((fun i => BGetWithInsert (2000 + Z.of_nat i) None) <$> seq 0 300) ++
  [BCur; BNext; BWrite 650 (mkBNode (Some 7%N) 4); BGet 650; BGet 651; BSeekToFirst; BSeek 5000; BPrintList].

(** Every third transaction falls back to the lock. *)
Definition btree_fates : list fate := (fun i => Fate (negb (i mod 3 =? 0)%nat) false) <$> seq 0 400.

Lemma btree_refines_ordered_map_witness :
  exists s, run_thread btree_fates (start btree_program (new_tree, new_iter, Outside)) =
    Ret (Thread [] (s, Outside) (default [] (mrun btree_program (∅, None))) None).
Proof.
  apply btree_refines_ordered_map.
  - apply Forall_forall. intros o Ho. vm_compute in Ho.
    repeat (apply elem_of_cons in Ho as [->|Ho]; [vm_compute; split; congruence|]). by apply elem_of_nil in Ho.
  - vm_compute. reflexivity.
  - vm_compute. reflexivity.
  - vm_compute. lia.
Defined.

(** ** A lookup in an empty tree *)

(** The operations that begin a transaction. *)
Definition transactional (o : bop) : bool := match o with BCur | BPrintList => false | _ => true end.

(** A thread that holds the lock does not get through the next transaction. *)
Lemma lock_blocks f o prog s out saved T :
  transactional o = true -> thread_step f (Thread (o :: prog) (s, HoldsLock) out saved) <> Ret T.
Proof.
  intros Ho. destruct s as [t it]. cbn [thread_step snd]. unfold execute. cbn [bstep].
  destruct o; try discriminate Ho; cbn [bstep Get Seek SeekToFirst Next Prev RTMScope Begin mbind res_bind]; try done.
  - unfold GetWithInsert. destruct (dummyval_ _); [|done]. by destruct (set_bnode _ _ _).
  - unfold Put, GetWithInsert. destruct (dummyval_ _); [|done]. by destruct (set_bnode _ _ _).
Qed.

Lemma res_bind_Ret {A B} (p : res A) (k : A -> res B) b : p ≫= k = Ret b -> exists a, p = Ret a /\ k a = Ret b.
Proof. destruct p as [a| | |]; simpl; try done. by exists a. Qed.

Ltac bind_inv H :=
  repeat match type of H with
         | mbind _ _ = Ret _ => let x := fresh "x" in let Hx := fresh "Hx" in apply res_bind_Ret in H as (x & Hx & H)
         end.

(** What is nested in a transaction does not end it. *)
Lemma scope_nested {A} hw (body : res A) r : RTMScope hw InTransaction body = Ret r -> r.2 = InTransaction.
Proof. unfold RTMScope. cbn [Begin]. intros H. bind_inv H. by simplify_eq. Qed.

Lemma get_nested hw t k r : Get hw InTransaction t k = Ret r -> r.2 = InTransaction.
Proof.
  unfold Get. cbn [Begin mbind res_bind]. destruct (get_entry t k) as [[o|]| | |]; simpl; try done; intros H; by simplify_eq.
Qed.

Lemma insert_nested hw t k val r : GetWithInsert hw InTransaction t k val = Ret r -> r.2 = InTransaction.
Proof.
  unfold GetWithInsert. destruct (dummyval_ _); [|done]. intros H. bind_inv H. simplify_eq. cbn [fst snd].
  unfold Insert_rtm in *. cbn [Begin] in *.
  match goal with Hx : mbind _ (Ret InTransaction) = Ret ?r |- _ => apply (scope_nested hw _ r Hx) end.
Qed.

Lemma bstep_nested hw o s r : bstep hw o (s, InTransaction) = Ret r -> r.2.2 = InTransaction.
Proof.
  destruct s as [t it]. intros H. destruct o; cbn [bstep] in H; bind_inv H; simplify_eq; try done.
  all: unfold Seek, SeekToFirst, Next, Prev in *; cbn [snd].
  all: try match goal with
    | Hx : RTMScope _ _ _ = Ret _ |- _ => exact (scope_nested _ _ _ Hx)
    | Hx : GetWithInsert _ _ _ _ _ = Ret _ |- _ => exact (insert_nested _ _ _ _ _ Hx)
    end.
  - apply get_nested in Hx. unfold with_record in H. destruct (x.1); bind_inv H; by simplify_eq.
  - unfold Put in Hx. bind_inv Hx. simplify_eq. cbn [snd].
    match goal with Hi : GetWithInsert _ _ _ _ _ = Ret _ |- _ => exact (insert_nested _ _ _ _ _ Hi) end.
  - apply get_nested in Hx. destruct (x.1); bind_inv H; by simplify_eq.
Qed.

Lemma bstep_locked hw o s r :
  bstep hw o (s, HoldsLock) = Ret r -> r.2 = (s, HoldsLock).
Proof.
  intros H. destruct (transactional o) eqn:E.
  - exfalso. apply (lock_blocks (Fate hw false) o [] s [] None (Thread [] r.2 [r.1] None) E).
    cbn [thread_step snd]. unfold execute. cbn [commits]. by rewrite H.
  - destruct s as [t it]. destruct o; try discriminate E; cbn [bstep] in H; bind_inv H; by simplify_eq.
Qed.

(** C8: a lookup that meets an empty leaf, which is so in an empty tree, returns
    without ending its transaction. Whatever the thread does afterwards, and
    whatever the hardware does, it does not get out again: it has been thrown back
    to before the lookup, or everything it has done since is in the open
    transaction and visible to nobody else, or it holds the lock, and then no
    operation with a transaction returns any more. *)
Theorem get_of_empty_tree_stays_inside t it k ops fs :
  get_entry t k = Ret None ->
  let T0 := start (BGet k :: ops) (t, it, Outside) in
  (match run_thread fs T0 with
   | Ret (Thread prog (s, m) out saved) =>
       Thread prog (s, m) out saved = T0 \/ m = InTransaction /\ saved = Some T0 \/ m = HoldsLock
   | _ => True
   end) /\
  forall f o prog s out saved T,
    transactional o = true -> thread_step f (Thread (o :: prog) (s, HoldsLock) out saved) <> Ret T.
Proof.
  intros Hget T0. split; [|intros; by apply lock_blocks].
  set (I := fun T : thread => let 'Thread prog (s, m) out saved := T in
              Thread prog (s, m) out saved = T0 \/ m = InTransaction /\ saved = Some T0 \/ m = HoldsLock).
  assert (forall f T T', I T -> thread_step f T = Ret T' -> I T') as Hstep.
  { intros f [prog [s m] out saved] T' HI HT. destruct prog as [|o prog]; [cbn in HT; by injection HT as <-|].
    assert (forall T1 r, bstep (commits f) o (s, m) = Ret r ->
              T1 = Thread prog r.2 (out ++ [r.1])
                     (match m, r.2.2 with Outside, InTransaction => Some (Thread (o :: prog) (s, m) out saved) | _, _ => saved end) -> I T1) as Hex.
    { intros T1 [r0 [s1 m1]] Hb ->. cbn [fst snd]. destruct HI as [HI|[[-> ->]| ->]].
      - injection HI as -> -> -> -> -> ->. cbn [bstep] in Hb. unfold Get in Hb. cbn [Begin] in Hb. rewrite Hget in Hb.
        cbn [mbind res_bind fst snd with_record] in Hb. injection Hb as <- <- <-. unfold I.
        destruct (commits f); [right; left; done|right; right; done].
      - apply bstep_nested in Hb. simpl in Hb. subst m1. right. by left.
      - apply bstep_locked in Hb. simpl in Hb. injection Hb as -> ->. right. by right. }
    cbn [thread_step snd] in HT. destruct m; [|destruct saved as [T2|]; [destruct (aborts f)|]|].
    all: try (unfold execute in HT; apply res_bind_Ret in HT as (r & Hr & HT); cbn [snd] in HT; injection HT as <-; by eapply Hex).
    simplify_eq. destruct HI as [HI|[[_ HI]|HI]]; [by injection HI| |done]. injection HI as ->. by left. }
  assert (forall T, I T -> match run_thread fs T with Ret T' => I T' | _ => True end) as Hrun.
  { clear Hget. induction fs as [|f fs IH]; intros T HI; [done|]. cbn [run_thread].
    destruct (thread_step f T) as [T1| | |] eqn:E; cbn [mbind res_bind]; try done. apply IH. by eapply Hstep. }
  specialize (Hrun T0 ltac:(by left)). destruct (run_thread fs T0) as [[prog [s m] out saved]| | |]; done.
Qed.

Lemma get_of_empty_tree_stays_inside_witness :
  let T0 := start [BGet 5; BPut 5 None; BGet 5] (new_tree, new_iter, Outside) in
  run_thread [Fate false false; Fate false false] T0 = NoFuel /\
  (exists s out, run_thread [Fate true false; Fate true false; Fate true false] T0 = Ret (Thread [] (s, InTransaction) out (Some T0))) /\
  match run_thread [Fate true false; Fate true false; Fate true true] T0 with
  | Ret (Thread prog (s, m) out saved) =>
      Thread prog (s, m) out saved = T0 \/ m = InTransaction /\ saved = Some T0 \/ m = HoldsLock
  | _ => True
  end.
Proof.
  split; [vm_compute; reflexivity|]. split; [eexists _, _; vm_compute; reflexivity|].
  apply (get_of_empty_tree_stays_inside new_tree new_iter 5 [BPut 5 None; BGet 5]). vm_compute. reflexivity.
Defined.
